(* ===== verification/_CoqProject ===== *)
-Q . S2P
Prelude.v
Limbs.v
Curve25519.v
CurveTheorems.v
Aead.v
AeadTheorems.v
Wire.v
Crypto.v
Hkdf.v
FixedMap.v
FixedMapSpec.v
Trackers.v
CapStore.v
CapStoreInv.v
CapStoreSpec.v
CapTheorems.v
Ring.v
Bus.v
AuditTrail.v
Router.v
RouterSpec.v
BusTheorems.v
Governance.v
GovSpec.v
GovTheorems.v
Council.v
CouncilTheorems.v
BusSend.v
Handle.v
Process.v
ProcOps.v
SuperSpec.v
ProcTheorems.v
Locks.v
NetWire.v
NetWireSpec.v
Sockets.v
SocketSpec.v
NetStack.v
NetInv.v
NetDelivery.v
Handshake.v
NetTheorems.v
ProcNet.v
Tls.v
TlsTheorems.v
TlsDelivery.v
Dns.v
DnsTheorems.v
Display.v
Windows.v
WindowSpec.v
CompositorSpec.v
Memory.v
FrameSpec.v
FrameOps.v
FrameTheorems.v
Paging.v
PagingSpec.v
PagingOps.v
SpaceTheorems.v
Elf.v
ElfSpec.v
ElfTheorems.v
Cpio.v
CpioTheorems.v
Vfs.v
VfsSpec.v
VfsTheorems.v
Syscalls.v
SyscallSpec.v
SyscallTheorems.v
Desktop.v
DesktopSpec.v
DesktopTheorems.v
