(* ===== verification/Prelude.v ===== *)
(** * Fabric OS kernel: a verification library

    The kernel under src/kernel/src is a microkernel in Rust: capabilities
    authorise, a message bus connects, governance judges, processes are
    supervised and scheduled, a network stack with TLS and DNS clients, a file
    system and a window manager serve them through system calls, and physical
    memory carries their address spaces. This library is a shallow embedding of
    those parts, with the theorems that make them correct.

    ** How the code is modelled

    Integers are [Z] with the wrap-around of their width written out ([wrap],
    [u64_add], ...), as release builds compute. A routine that may panic or loop
    returns in the monad [exec] ([Done], [Panicked], [Diverged]); [Result] is
    [result]. A struct is a record, its methods are functions that pass the
    record on; the static variables behind locks are components of one state
    record, because every operation takes its locks for its whole duration.
    Arrays are lists with checked indices ([arr_get], [arr_set]); hash maps of
    the standard library are [gmap]; memory that the code reaches through raw
    pointers is a function from addresses to bytes ([Memory.Mem]).

    ** Parts, files and sources

    - Prelude: the monad, machine integers, array access, the predicate
      [returns], generic lemmas, tactics and hints; the class [Model] for
      refinement of a structure by an abstract value.
    - Wire (fabric_types): identifiers, permissions, messages, byte layouts.
      Crypto (capability/hmac_engine.rs): keys and signatures. HMAC-SHA3 and
      SHA3 come from crates outside the repository: they are the classes
      [HmacSha3] and [Sha3], with [ToyHash] as an instance for examples.
    - Limbs: sums of products of limbs at their width. Curve25519
      (network/crypto.rs): the field in five 51-bit limbs and the ladder;
      CurveTheorems. Aead: ChaCha20, Poly1305 in 26-bit limbs and the AEAD;
      AeadTheorems. Hkdf: HKDF and the TLS 1.3 labels over the
      class [Sha2] for SHA-256 and HMAC, with [toy_sha2] for examples.
    - FixedMap, FixedMapSpec (capability/slab.rs): the open-addressing map with
      backward-shift deletion, and its refinement of a finite map. Trackers
      (nonce.rs, budget.rs). CapStore (store.rs): tokens in intrusive sibling
      lists, with CapStoreInv, CapStoreSpec (the forest invariant and what each
      operation does to it) and CapTheorems.
    - Ring, Bus (bus/queue.rs, arena.rs, sequence.rs, monitor.rs), AuditTrail
      (audit.rs), Router (router.rs), RouterSpec, BusTheorems; BusSend (bus/mod.rs)
      puts the policy and capability checks in front of the router.
    - Governance (governance/*.rs): rules, constitution, safety, authority and
      break-glass machines and the engine; GovSpec, GovTheorems. The council is
      reached through the class [Tier2Council], which Council (council/*.rs:
      models, weight store, drift, learning, golden cases, overrides, engine)
      implements; CouncilTheorems.
    - Handle (handle/table.rs): handles with generations.
    - Process (process/*.rs): control blocks, table, scheduler, supervision and
      the operations of mod.rs; ProcOps (invariant and operations), SuperSpec,
      ProcTheorems. Termination calls the network through the class
      [SocketLayer], which ProcNet instantiates with the modelled stack.
    - Locks (sync/mod.rs): the order of the kernel locks.
    - NetWire (network/addr.rs, checksum.rs, ethernet.rs, arp.rs, ip.rs, udp.rs,
      tcp.rs), Sockets (buffer.rs, loopback.rs, tcp_timer.rs, socket.rs) and
      NetStack (mod.rs, ops.rs and the packet handlers), with NetWireSpec,
      SocketSpec, NetInv, NetDelivery, Handshake and NetTheorems. The network
      card is the class [NicDriver], the clock the class [Timer].
    - Tls (network/tls.rs): records, hellos, key schedule, sessions and the four
      calls, in a monad of errors over the network stack; TlsTheorems (rules for
      the monad, the calls), TlsDelivery. Dns (dns.rs, http.rs): wire format, cache
      and resolver, HTTP requests and parsers; DnsTheorems.
    - Display (display/*.rs): surfaces, drawing, text, the frame buffer as a list
      of bytes. Windows (wm/*.rs, keyboard/mod.rs): event queues, window table,
      compositor, keyboard interrupt. WindowSpec (drawing as layers, rings as
      queues, the table as a map), CompositorSpec (the screen).
    - Memory (memory/frame.rs): the buddy allocator, its free lists threaded
      through the free frames; FrameSpec (blocks, bitmap, lists), FrameOps (one
      lemma per operation), FrameTheorems.
    - Paging (memory/page_table.rs, address_space/per_process.rs): page tables
      in physical memory; PagingSpec (a tree of frames as the meaning of the
      tables), PagingOps, SpaceTheorems. The content of CR3 is an
      argument.
    - Elf (elf/mod.rs, process/mod.rs spawn_elf): the loader and the address
      space of a new process; ElfSpec, ElfTheorems. The bytes around the file
      are an argument ([outside]).
    - Cpio (vfs/cpio.rs): the archive that carries the first files; CpioTheorems.
    - Vfs (vfs/mod.rs, inode.rs, mount.rs, open_file.rs, tmpfs.rs, devfs.rs,
      ops.rs, stdio.rs): one Module per table and per file system, and the
      operations over them; VfsSpec (the invariant, one lemma per table
      operation), VfsTheorems.
    - Syscalls (x86/syscall.rs): [syscall_dispatch] over the registers of the
      caller, its handle table, the file system and the network stack;
      SyscallSpec (what each call keeps), SyscallTheorems. User memory is a
      function, the buffers a program passes are taken to be mapped, and an
      oracle says which [try_lock] succeeds. Calls 18 to 22 and 24 to 34 are its
      parameter [other]; Desktop models them (display, keyboard, DNS, TLS, poll,
      windows) and dispatches all 35 over one record [Machine]; DesktopSpec,
      DesktopTheorems.

    ** What the theorems show

    - Capabilities (CapTheorems): the map is a finite map; every run keeps the
      forest invariant and returns; delegation only attenuates; revocation
      removes exactly the descendants, for good; validation accepts exactly what
      it should; nonces increase; budgets bound the uses.
    - Memory (FrameTheorems, SpaceTheorems, ElfTheorems): blocks handed out
      never overlap and the allocator finds room whenever an aligned block is
      free; address spaces are independent finite maps that share the kernel
      half and leave no table behind; a program sees exactly the image its file
      describes, with stack and heap; a refused file costs nothing; the loader
      reads only the file, as long as no offset wraps around.
    - System calls (SyscallTheorems, DesktopTheorems): a call with a path of at
      most 65 bytes and a datagram short of 65528 ends, keeps all tables of the
      machine well formed, and changes only the control block and the open files
      of its caller, memory only in the buffer it was given, and of the windows
      of other processes neither title, place nor contents; opening, reading,
      writing and closing through a descriptor reach the file that was opened.
    - Windows (DesktopTheorems): keys reach the window in focus in order, and no
      other; after each change the frame buffer holds, pixel by pixel, the
      topmost windows over the desktop.
    - Cryptography (CurveTheorems, AeadTheorems, Hkdf): the limb arithmetic of
      X25519 and Poly1305 computes the functions of RFC 7748 and RFC 8439;
      the AEAD opens what it sealed and nothing whose tag differs.
    - TLS, DNS, HTTP (TlsTheorems, TlsDelivery, DnsTheorems): calls on one
      session leave the others alone; with a server that answers, the handshake
      ends with the keys of RFC 8446; data sent on one side arrive on the other;
      the cache is a bounded map with least-recently-used replacement; an address
      returned was cached or came in an answer to the last query.
    - Council (CouncilTheorems): an escalated message passes only on the votes of
      models that match their hashes; training succeeds exactly within its budget
      and after the golden tests, at most ten times in a period, and moves no
      weight from its seed by more than the two low bits.
    - Files (VfsTheorems, CpioTheorems): from boot on, reads and writes are
      those of byte sequences with one offset per open file; the files of the
      archive can be opened and read back; the parser returns a verdict on every
      sequence of bytes.
    - Bus (BusTheorems, BusSend): bounded queues deliver in order, the audit
      chain accounts for every decision and shows tampering, an accepted message
      was authorised.
    - Governance (GovTheorems): the first rule in priority order decides; the
      verdict of the genesis rules in every state; the timeline of the dead-man
      switch; severity goes down only with time or a human.
    - Handles and processes (Handle, ProcTheorems): a handle table is a finite
      map; every run keeps table, queues and supervision tree consistent; the
      scheduler picks the most urgent process; crashes are treated as the
      strategy says; blocking lends priority; the restart intensity is a sliding
      window.
    - Locks, network (Locks, NetTheorems, ProcNet): a run that keeps the order
      never panics in the tracker; every socket operation returns and keeps the
      invariant; TCP follows its diagram; datagrams and connections over the
      loopback deliver; packets verify and parse back; the receive ring is a
      byte queue; termination releases the sockets.

    Each theorem that is a claim about the kernel carries its number (C1, C2,
    ...); those with hypotheses are followed by a witness at a concrete input.

    ** Loops and their bounds

    Loops over lists and ranges are structural. Loops that the code bounds keep
    its bound: 10 orders of the allocator, the capacity of the loopback queue,
    50000 polls for ARP, 10 or 100000 rounds to establish a connection, 200000
    rounds to receive TLS bytes, 20 records of a server flight, 3 attempts and
    350000 polls for DNS, depth 4 of priority inheritance, [MAX_FRAMES] steps of
    a free-list walk (then it panics, as the code does). Other loops have fuel,
    [Diverged] when it is used up, and a lemma that it suffices: probes and
    back-shifts of the map visit each slot once; walks and revocation visit each
    token once; three foldings of a checksum; one step up the supervision tree
    per process; one frame per round of [build_loop]; an entry of an archive is
    longer than 110 bytes, so the length of the archive bounds the rounds of
    [parse_loop]; a handshake message or an extension is at least 4 bytes long,
    so the length of the data bounds the loops over them; a name in a DNS packet
    is shorter than the packet. [socket_poll] waits for the clock, and takes the
    number of rounds as an argument.

    ** Not modelled

    Interleaving of operations on several processors (each runs under its
    lock); the debug assertions and canaries; logging. The kernel page mapper
    (memory/mapper.rs) edits tables set up by the boot loader, which the sources
    do not describe, and the kernel heap is an external crate. Drivers, interrupt
    entry, the assembly in front of [syscall_dispatch], the virtual machine
    monitor and port input/output are register accesses and assembly. SHA-2,
    SHA-3 and HMAC come from crates. The driver registry, the state block of the
    Butler and gaming input are not modelled; the JavaScript glue binds an engine
    outside the repository. *)

From stdpp Require Export base decidable strings numbers gmap list.

#[global] Open Scope Z_scope.

(** ** Outcomes of kernel code

    A kernel routine either returns ([Done]), stops the machine ([Panicked]: an
    index out of range, [unwrap] on [None], [expect], [panic!]), or loops for
    ever ([Diverged]: a [loop] or [while] whose bound in the model was used up).
    The bound of every loop is chosen so that running out of it is divergence
    of the code. *)
Inductive exec (A : Type) : Type :=
| Done (a : A)
| Panicked
| Diverged.
Arguments Done {A} a.
Arguments Panicked {A}.
Arguments Diverged {A}.

#[export] Instance exec_ret : MRet exec := fun A a => Done a.
#[export] Instance exec_bind : MBind exec := fun A B f m =>
  match m with
  | Done a => f a
  | Panicked => Panicked
  | Diverged => Diverged
  end.

(** Rust's [Result]. *)
Inductive result (A E : Type) : Type :=
| Ok (a : A)
| Err (e : E).
Arguments Ok {A E} a.
Arguments Err {A E} e.

Definition is_ok {A E} (r : result A E) : bool :=
  match r with Ok _ => true | Err _ => false end.

(** ** Machine integers

    An unsigned [w]-bit integer is a [Z]; the arithmetic that the release build
    (overflow checks off) performs wraps modulo [2^w]. *)
Definition wrap (w z : Z) : Z := z mod 2 ^ w.
Definition in_u (w z : Z) : Prop := 0 <= z < 2 ^ w.
Definition u32_add (a b : Z) : Z := wrap 32 (a + b).
Definition u64_add (a b : Z) : Z := wrap 64 (a + b).
Definition u64_mul (a b : Z) : Z := wrap 64 (a * b).
Definition sat_sub (a b : Z) : Z := Z.max 0 (a - b).
Definition sat_add32 (a b : Z) : Z := Z.min (2 ^ 32 - 1) (a + b).
(** [!x] on a [w]-bit value. *)
Definition lnot_u (w z : Z) : Z := 2 ^ w - 1 - z.

(** ** Fixed arrays and boxed slices

    Indexing out of range panics, for reads and for writes. *)
Definition arr_get {A} (l : list A) (i : Z) : exec A :=
  if decide (0 <= i) then
    match l !! Z.to_nat i with Some x => Done x | None => Panicked end
  else Panicked.

Definition arr_set {A} (l : list A) (i : Z) (x : A) : exec (list A) :=
  if decide (0 <= i < Z.of_nat (length l)) then Done (<[Z.to_nat i := x]> l)
  else Panicked.

(** [&buf[a..b]] and [buf[a..b].copy_from_slice(data)]. *)
Definition slice_get {A} (buf : list A) (a b : Z) : exec (list A) :=
  if decide (0 <= a <= b /\ b <= Z.of_nat (length buf))
  then Done (take (Z.to_nat (b - a)) (drop (Z.to_nat a) buf)) else Panicked.

Definition slice_set {A} (buf : list A) (a b : Z) (data : list A) : exec (list A) :=
  if decide (0 <= a <= b /\ b <= Z.of_nat (length buf) /\ Z.of_nat (length data) = b - a)
  then Done (take (Z.to_nat a) buf ++ data ++ drop (Z.to_nat b) buf) else Panicked.

(** [as_bytes] of a string. *)
Definition str_bytes (s : string) : list Z := (fun a => Z.of_N (Ascii.N_of_ascii a)) <$> String.list_ascii_of_string s.

(** [Vec::pop]: the last element and the rest. *)
Definition vec_pop {A} (l : list A) : option (A * list A) :=
  match last l with
  | Some x => Some (x, removelast l)
  | None => None
  end.

(** [Vec::retain]. *)
Definition retain {A} (f : A -> bool) (l : list A) : list A := List.filter f l.

(** Little-endian bytes ([to_le_bytes]) of an [n]-byte integer. *)
Fixpoint le_bytes (n : nat) (z : Z) : list Z :=
  match n with
  | O => []
  | S n' => z mod 256 :: le_bytes n' (z / 256)
  end.

Fixpoint le_value (bs : list Z) : Z :=
  match bs with
  | [] => 0
  | b :: bs' => b + 256 * le_value bs'
  end.

(** ** Data refinement

    A concrete structure [C] of the kernel implements an abstract value [A]:
    [wf] is its representation invariant, [view] the value it stands for. *)
Class Model (C A : Type) := {
  wf : C -> Prop;
  view : C -> A;
}.
#[global] Arguments wf {C A Model} _ : simpl never.
#[global] Arguments view {C A Model} _ : simpl never.
#[export] Hint Mode Model ! - : typeclass_instances.

(** ** Automation *)
Create HintDb kernel.
Create Rewrite HintDb kernel.

(** [set_field eta f v r]: the record [r] with its field [f] replaced by [v].
    [eta] is the function that rebuilds a record from its fields. *)
Ltac set_field eta f v r :=
  let e := eval cbv delta [eta] in eta in
  let e := eval pattern f in e in
  lazymatch e with
  | ?g _ => let x := eval cbv beta in (g (fun _ => v) r) in exact x
  end.

(** Split the conjunctions of the goal and close the easy parts. *)
Ltac split_all := repeat match goal with |- _ /\ _ => split end.

(** Simplify binds over computed outcomes. *)
Ltac exec_simpl := cbn [mbind exec_bind mret exec_ret] in *.

(** ** Lemmas on outcomes *)
Lemma bind_Done {A B} (m : exec A) (f : A -> exec B) b :
  (m ≫= f) = Done b <-> exists a, m = Done a /\ f a = Done b.
Proof. destruct m; exec_simpl; naive_solver. Qed.

(** An outcome: the code returned, in a state that satisfies [P]. *)
Definition returns {A} (m : exec A) (P : A -> Prop) : Prop := exists a, m = Done a /\ P a.

Lemma returns_bind {A B} (m : exec A) (f : A -> exec B) P Q :
  returns m P -> (forall a, P a -> returns (f a) Q) -> returns (m ≫= f) Q.
Proof. intros (a & -> & Ha) Hf. exec_simpl. by apply Hf. Qed.

Lemma returns_mono {A} (m : exec A) P Q : returns m P -> (forall a, P a -> Q a) -> returns m Q.
Proof. intros (a & -> & Ha) HPQ. exists a. auto. Qed.

Lemma returns_done {A} (a : A) (P : A -> Prop) : P a -> returns (Done a) P.
Proof. intros. by exists a. Qed.

(** ** Lemmas on machine integers *)
Lemma pow2_pos k : 0 <= k -> 0 < 2 ^ k.
Proof. intros. by apply Z.pow_pos_nonneg. Qed.

Lemma wrap_small w z : 0 <= z < 2 ^ w -> wrap w z = z.
Proof. intros. unfold wrap. by apply Z.mod_small. Qed.

Lemma wrap_range w z : 0 <= w -> 0 <= wrap w z < 2 ^ w.
Proof. intros. unfold wrap. apply Z.mod_pos_bound. lia. Qed.

Lemma land_ones_mod z k : 0 <= k -> Z.land z (2 ^ k - 1) = z mod 2 ^ k.
Proof. intros. rewrite <- Z.land_ones by done. f_equal. rewrite Z.ones_equiv. lia. Qed.

(** Or-ing a value below [2^k] into a value shifted by [k] adds it. *)
Lemma lor_shiftl_add k a b : 0 <= k -> 0 <= b < 2 ^ k -> Z.lor (Z.shiftl a k) b = a * 2 ^ k + b.
Proof.
  intros Hk Hb. rewrite Z.shiftl_mul_pow2 by done.
  assert (Z.land (a * 2 ^ k) b = 0) as Hl.
  { apply Z.bits_inj'. intros i Hi. rewrite Z.land_spec, Z.bits_0.
    destruct (decide (i < k)); [by rewrite Z.mul_pow2_bits_low by lia|].
    apply andb_false_intro2. rewrite <- (Z.mod_small b (2 ^ k)) by done.
    apply Z.mod_pow2_bits_high. lia. }
  rewrite <- Z.lxor_lor, <- Z.add_nocarry_lxor by done. done.
Qed.

Lemma lor_range w a b : 0 <= w -> in_u w a -> in_u w b -> in_u w (Z.lor a b).
Proof.
  intros Hw [Ha Ha'] [Hb Hb']. split; [by apply Z.lor_nonneg|].
  destruct (decide (Z.lor a b = 0)) as [->|Hne]; [by apply pow2_pos|].
  assert (0 < Z.lor a b) as Hpos. { assert (0 <= Z.lor a b) by (by apply Z.lor_nonneg). lia. }
  apply Z.log2_lt_pow2; [done|]. rewrite Z.log2_lor by done.
  apply Z.max_lub_lt.
  - destruct (decide (a = 0)) as [->|]; [|apply Z.log2_lt_pow2; lia]. cbn.
    destruct (decide (w = 0)) as [->|]; [|lia]. change (2 ^ 0) with 1 in *. assert (b = 0) as -> by lia. done.
  - destruct (decide (b = 0)) as [->|]; [|apply Z.log2_lt_pow2; lia]. cbn.
    destruct (decide (w = 0)) as [->|]; [|lia]. change (2 ^ 0) with 1 in *. assert (a = 0) as -> by lia. done.
Qed.

Lemma land_range w a b : 0 <= w -> 0 <= a -> in_u w b -> in_u w (Z.land a b).
Proof.
  intros Hw Ha [Hb Hb']. split; [apply Z.land_nonneg; by left|].
  destruct (decide (Z.land a b = 0)) as [->|Hne]; [by apply pow2_pos|].
  assert (0 <= Z.land a b) by (apply Z.land_nonneg; by left).
  apply Z.log2_lt_pow2; [lia|]. destruct (decide (b = 0)) as [->|]; [by rewrite Z.land_0_r in Hne|].
  eapply Z.le_lt_trans; [by apply Z.log2_land|]. eapply Z.le_lt_trans; [apply Z.le_min_r|]. apply Z.log2_lt_pow2; lia.
Qed.

Lemma u64_add_small a b : 0 <= a + b < 2 ^ 64 -> u64_add a b = a + b.
Proof. apply wrap_small. Qed.

Lemma u32_add_small a b : 0 <= a + b < 2 ^ 32 -> u32_add a b = a + b.
Proof. apply wrap_small. Qed.

(** ** Lemmas on arrays *)
Lemma arr_get_Done {A} (l : list A) i x :
  arr_get l i = Done x <-> 0 <= i /\ l !! Z.to_nat i = Some x.
Proof.
  unfold arr_get. case_decide; [|naive_solver].
  destruct (l !! Z.to_nat i); naive_solver.
Qed.

Lemma arr_get_at {A} (l : list A) i x :
  0 <= i -> l !! Z.to_nat i = Some x -> arr_get l i = Done x.
Proof. intros. by apply arr_get_Done. Qed.

Lemma arr_get_in {A} (l : list A) i :
  0 <= i < Z.of_nat (length l) -> exists x, arr_get l i = Done x /\ l !! Z.to_nat i = Some x.
Proof.
  intros Hi. destruct (lookup_lt_is_Some_2 l (Z.to_nat i)) as [x Hx]; [lia|].
  exists x. split; [|done]. apply arr_get_Done. split; [lia|done].
Qed.

Lemma arr_set_Done {A} (l : list A) i x :
  0 <= i < Z.of_nat (length l) -> arr_set l i x = Done (<[Z.to_nat i := x]> l).
Proof. intros. unfold arr_set. by rewrite decide_True. Qed.

(** ** Lemmas on vectors *)
Lemma slice_set_Done {A} (buf data : list A) a b :
  0 <= a <= b -> b <= Z.of_nat (length buf) -> Z.of_nat (length data) = b - a ->
  exists buf', slice_set buf a b data = Done buf' /\ length buf' = length buf /\
    slice_get buf' a b = Done data /\
    forall c d, 0 <= c <= d -> d <= Z.of_nat (length buf) -> d <= a \/ b <= c ->
      slice_get buf' c d = slice_get buf c d.
Proof.
  intros Ha Hb Hd. unfold slice_set. rewrite decide_True by done. eexists. split; [done|].
  assert (length (take (Z.to_nat a) buf ++ data ++ drop (Z.to_nat b) buf) = length buf) as Hl.
  { rewrite !length_app, length_take, length_drop. lia. }
  split; [done|]. unfold slice_get. rewrite Hl. split.
  - rewrite decide_True by lia. rewrite drop_app_length' by (rewrite length_take; lia).
    by rewrite take_app_length' by lia.
  - intros c d Hc Hd' Hor. rewrite !decide_True by lia. f_equal. apply list_eq. intros i.
    destruct (decide (i < Z.to_nat (d - c))%nat); [|rewrite !lookup_take_ge by lia; done].
    rewrite !lookup_take_lt, !lookup_drop by lia. destruct Hor.
    + rewrite lookup_app_l by (rewrite length_take; lia). by rewrite lookup_take_lt by lia.
    + rewrite lookup_app_r, length_take by (rewrite length_take; lia).
      rewrite lookup_app_r by lia. rewrite lookup_drop. f_equal. lia.
Qed.

Lemma Forall2_compose {A B C} (P : A -> B -> Prop) (Q : B -> C -> Prop) (R : A -> C -> Prop) l1 l2 l3 :
  (forall x y z, P x y -> Q y z -> R x z) -> Forall2 P l1 l2 -> Forall2 Q l2 l3 -> Forall2 R l1 l3.
Proof.
  intros HR H1. revert l3. induction H1 as [|x y l1 l2 Hxy _ IH]; intros l3 H2; inversion H2; subst.
  - constructor.
  - constructor; [by eapply HR|by apply IH].
Qed.

Lemma vec_pop_snoc {A} (l : list A) x : vec_pop (l ++ [x]) = Some (x, l).
Proof. unfold vec_pop. by rewrite last_snoc, removelast_last. Qed.

Lemma vec_pop_nil {A} : vec_pop (@nil A) = None.
Proof. done. Qed.

Lemma elem_of_retain {A} (f : A -> bool) l x : x ∈ retain f l <-> x ∈ l /\ f x = true.
Proof. unfold retain. rewrite !list_elem_of_In. apply filter_In. Qed.

Lemma retain_all {A} (f : A -> bool) l : (forall x, x ∈ l -> f x = true) -> retain f l = l.
Proof.
  induction l as [|x l IH]; intros Hf; [done|]. unfold retain in *. simpl.
  rewrite Hf by set_solver. rewrite IH; [done|]. set_solver.
Qed.

Lemma NoDup_retain {A} (f : A -> bool) l : NoDup l -> NoDup (retain f l).
Proof. rewrite !NoDup_ListNoDup. apply List.NoDup_filter. Qed.

(** ** Lemmas on byte strings *)
Lemma length_le_bytes n z : length (le_bytes n z) = n.
Proof. revert z; induction n; intros; simpl; auto. Qed.

Lemma le_bytes_range n z : Forall (fun b => 0 <= b < 256) (le_bytes n z).
Proof.
  revert z; induction n; intros; constructor; [|done].
  apply Z.mod_pos_bound. lia.
Qed.

Lemma le_value_bytes n z : le_value (le_bytes n z) = z mod 2 ^ (8 * Z.of_nat n).
Proof.
  revert z; induction n as [|n IH]; intros z.
  - simpl. by rewrite Z.mod_1_r.
  - cbn [le_bytes le_value]. rewrite IH.
    replace (8 * Z.of_nat (S n)) with (8 + 8 * Z.of_nat n) by lia.
    rewrite Z.pow_add_r by lia. change (2 ^ 8) with 256.
    rewrite Z.rem_mul_r by lia. lia.
Qed.

Lemma le_bytes_inj n a b :
  in_u (8 * Z.of_nat n) a -> in_u (8 * Z.of_nat n) b -> le_bytes n a = le_bytes n b -> a = b.
Proof.
  intros Ha Hb H. apply (f_equal le_value) in H. rewrite !le_value_bytes in H.
  by rewrite !Z.mod_small in H.
Qed.

Lemma le_value_range l : Forall (fun b => 0 <= b < 256) l -> 0 <= le_value l < 2 ^ (8 * Z.of_nat (length l)).
Proof.
  induction 1 as [|x l Hx _ IH]; cbn [le_value length]; [done|].
  replace (8 * Z.of_nat (S (length l))) with (8 + 8 * Z.of_nat (length l)) by lia.
  rewrite Z.pow_add_r by lia. change (2 ^ 8) with 256. lia.
Qed.

Lemma le_value_app l1 l2 : le_value (l1 ++ l2) = le_value l1 + 2 ^ (8 * Z.of_nat (length l1)) * le_value l2.
Proof.
  induction l1 as [|x l IH]; cbn [app le_value length]; [lia|]. rewrite IH.
  replace (8 * Z.of_nat (S (length l))) with (8 + 8 * Z.of_nat (length l)) by lia.
  rewrite Z.pow_add_r by lia. lia.
Qed.

Lemma le_bytes_value l : Forall (fun b => 0 <= b < 256) l -> le_bytes (length l) (le_value l) = l.
Proof.
  induction 1 as [|x l Hx _ IH]; cbn [le_value length le_bytes]; [done|].
  rewrite (Z.mul_comm 256), Z.mod_add, Z.div_add, Z.mod_small, Z.div_small by lia. rewrite Z.add_0_l. by f_equal.
Qed.

#[export] Hint Rewrite @length_insert @length_app @length_replicate length_le_bytes : kernel.

#[global] Arguments le_bytes n z : simpl never.
