(* ===== verification/Limbs.v ===== *)
(** * Numbers in several machine words

    What the field arithmetic of src/kernel/src/network/crypto.rs shares: the
    operations at 64 and 128 bits, the sums of products of its multiplications,
    and how limbs and bytes are cut out of a number. *)

From S2P Require Import Prelude.

Module Limbs.

Definition u64_sub (a b : Z) : Z := wrap 64 (a - b).
Definition u128_add (a b : Z) : Z := wrap 128 (a + b).
Definition u128_mul (a b : Z) : Z := wrap 128 (a * b).

(** [a0 * b0 + a1 * b1 + a2 * b2 + a3 * b3 + a4 * b4] in words of [w] bits. *)
Definition dot (w a0 b0 a1 b1 a2 b2 a3 b3 a4 b4 : Z) : Z :=
  wrap w (wrap w (wrap w (wrap w (wrap w (a0 * b0) + wrap w (a1 * b1)) + wrap w (a2 * b2)) + wrap w (a3 * b3))
          + wrap w (a4 * b4)).

(** ** No overflow *)
Lemma u64_mul_small a b : 0 <= a * b < 2 ^ 64 -> u64_mul a b = a * b.
Proof. apply wrap_small. Qed.

Lemma u64_sub_small a b : 0 <= a - b < 2 ^ 64 -> u64_sub a b = a - b.
Proof. apply wrap_small. Qed.

Lemma u128_add_small a b : 0 <= a + b < 2 ^ 128 -> u128_add a b = a + b.
Proof. apply wrap_small. Qed.

Lemma u128_mul_small a b : 0 <= a * b < 2 ^ 128 -> u128_mul a b = a * b.
Proof. apply wrap_small. Qed.

Lemma mul_bounds a b A B : 0 <= a <= A -> 0 <= b <= B -> 0 <= a * b <= A * B.
Proof. nia. Qed.

(** [bs] bound the second factors when [A] bounds the first ones. *)
Lemma dot_exact w a0 b0 a1 b1 a2 b2 a3 b3 a4 b4 A B0 B1 B2 B3 B4 :
  0 <= a0 <= A -> 0 <= a1 <= A -> 0 <= a2 <= A -> 0 <= a3 <= A -> 0 <= a4 <= A ->
  0 <= b0 <= B0 -> 0 <= b1 <= B1 -> 0 <= b2 <= B2 -> 0 <= b3 <= B3 -> 0 <= b4 <= B4 ->
  A * (B0 + B1 + B2 + B3 + B4) < 2 ^ w ->
  dot w a0 b0 a1 b1 a2 b2 a3 b3 a4 b4 = a0 * b0 + a1 * b1 + a2 * b2 + a3 * b3 + a4 * b4 /\
  0 <= a0 * b0 + a1 * b1 + a2 * b2 + a3 * b3 + a4 * b4 <= A * (B0 + B1 + B2 + B3 + B4).
Proof.
  intros H0 H1 H2 H3 H4 G0 G1 G2 G3 G4 Hw.
  pose proof (mul_bounds _ _ _ _ H0 G0). pose proof (mul_bounds _ _ _ _ H1 G1). pose proof (mul_bounds _ _ _ _ H2 G2).
  pose proof (mul_bounds _ _ _ _ H3 G3). pose proof (mul_bounds _ _ _ _ H4 G4).
  rewrite !Z.mul_add_distr_l in *. unfold dot.
  rewrite (wrap_small w (a0 * b0)), (wrap_small w (a1 * b1)), (wrap_small w (a2 * b2)), (wrap_small w (a3 * b3)), (wrap_small w (a4 * b4)) by lia.
  rewrite (wrap_small w (_ + a1 * b1)), (wrap_small w (_ + a2 * b2)), (wrap_small w (_ + a3 * b3)), (wrap_small w (_ + a4 * b4)) by lia. lia.
Qed.

(** ** Cutting and joining *)
Lemma mask_mod z k m : 0 <= k -> m = 2 ^ k - 1 -> Z.land z m = z mod 2 ^ k.
Proof. intros Hk ->. by apply land_ones_mod. Qed.

Lemma wrap_mod w k z : 0 <= k <= w -> wrap w z mod 2 ^ k = z mod 2 ^ k.
Proof.
  intros Hk. unfold wrap. replace w with (k + (w - k)) by lia. rewrite Z.pow_add_r by lia.
  pose proof (pow2_pos k ltac:(lia)). pose proof (pow2_pos (w - k) ltac:(lia)).
  rewrite Z.rem_mul_r by lia. rewrite Z.mul_comm, Z.mod_add, Z.mod_mod by lia. done.
Qed.

(** A window of [n] bits from bit [k] of a number, in a part of [m] bits at bit [a]. *)
Lemma window_in lo h hi a m k n : 0 <= lo < 2 ^ a -> 0 <= a <= k -> 0 <= n -> k + n <= a + m ->
  ((lo + 2 ^ a * (h + 2 ^ m * hi)) / 2 ^ k) mod 2 ^ n = (h / 2 ^ (k - a)) mod 2 ^ n.
Proof.
  intros Hlo Ha Hn Hm. pose proof (pow2_pos a ltac:(lia)). pose proof (pow2_pos (k - a) ltac:(lia)).
  replace k with (a + (k - a)) at 1 by lia. rewrite Z.pow_add_r, <- Z.div_div by lia.
  rewrite (Z.mul_comm (2 ^ a)), Z.div_add, (Z.div_small lo) by lia. rewrite Z.add_0_l.
  replace m with (m - (k - a) - n + n + (k - a)) by lia. rewrite !(Z.pow_add_r 2 (_ + _)), (Z.pow_add_r 2 (m - (k - a) - n)) by lia.
  rewrite (Z.mul_comm _ hi), Z.mul_assoc, Z.div_add by lia. rewrite Z.mul_assoc, Z.mod_add; [done|].
  pose proof (pow2_pos n Hn). lia.
Qed.

Lemma window_mod x k m n : 0 <= k -> 0 <= n -> k + n <= m -> ((x mod 2 ^ m) / 2 ^ k) mod 2 ^ n = (x / 2 ^ k) mod 2 ^ n.
Proof.
  intros Hk Hn Hm. pose proof (window_in 0 (x mod 2 ^ m) (x / 2 ^ m) 0 m k n) as H. rewrite Z.sub_0_r in H.
  rewrite <- H by lia. f_equal. f_equal. rewrite Z.pow_0_r, Z.mul_1_l, Z.add_0_l, Z.add_comm.
  symmetry. apply Z.div_mod. pose proof (pow2_pos m ltac:(lia)). lia.
Qed.

Lemma mod_split x a b : 0 <= a -> 0 <= b -> x mod 2 ^ (a + b) = x mod 2 ^ a + 2 ^ a * ((x / 2 ^ a) mod 2 ^ b).
Proof. intros Ha Hb. rewrite Z.pow_add_r by done. pose proof (pow2_pos a Ha). pose proof (pow2_pos b Hb). apply Z.rem_mul_r; lia. Qed.

Lemma shiftl_lor_add a b k : 0 <= k -> 0 <= b < 2 ^ k -> Z.lor b (Z.shiftl a k) = b + a * 2 ^ k.
Proof. intros. rewrite Z.lor_comm, lor_shiftl_add by done. lia. Qed.

Lemma lxor_range w a b : 0 <= w -> in_u w a -> in_u w b -> in_u w (Z.lxor a b).
Proof.
  intros Hw Ha Hb. assert (Z.lxor a b = Z.lxor a b mod 2 ^ w) as ->; [|by apply Z.mod_pos_bound, pow2_pos].
  apply Z.bits_inj'. intros n Hn. destruct (decide (n < w)); [by rewrite Z.mod_pow2_bits_low|].
  rewrite Z.mod_pow2_bits_high, Z.lxor_spec by lia. rewrite <- (Z.mod_small a (2 ^ w) Ha), <- (Z.mod_small b (2 ^ w) Hb).
  by rewrite !Z.mod_pow2_bits_high by lia.
Qed.

(** ** Bytes *)
Lemma byte_lookup l i : Forall (fun b => 0 <= b < 256) l -> (i < length l)%nat ->
  l !!! i = (le_value l / 2 ^ (8 * Z.of_nat i)) mod 256.
Proof.
  intros Hl. revert i. induction Hl as [|x l Hx _ IH]; intros i Hi.
  - cbn in Hi. lia.
  - destruct i as [|i]; cbn [lookup_total list_lookup_total le_value].
    + rewrite Z.div_1_r, (Z.mul_comm 256), Z.mod_add by lia. by rewrite Z.mod_small.
    + rewrite IH by (cbn in Hi; lia). replace (8 * Z.of_nat (S i)) with (8 + 8 * Z.of_nat i) by lia.
      pose proof (pow2_pos (8 * Z.of_nat i) ltac:(lia)).
      rewrite Z.pow_add_r, <- Z.div_div by lia. change (2 ^ 8) with 256.
      by rewrite (Z.mul_comm 256), Z.div_add, (Z.div_small x), Z.add_0_l by lia.
Qed.

Lemma le_value_take l n : Forall (fun b => 0 <= b < 256) l ->
  le_value (take n l) = le_value l mod 2 ^ (8 * Z.of_nat n).
Proof.
  intros Hl. destruct (decide (n <= length l)%nat) as [Hn|Hn].
  - rewrite <- (take_drop n l) at 2. rewrite le_value_app, length_take, Nat.min_l by done.
    rewrite (Z.mul_comm (2 ^ _)), Z.mod_add by (pose proof (pow2_pos (8 * Z.of_nat n) ltac:(lia)); lia).
    rewrite Z.mod_small; [done|]. pose proof (le_value_range (take n l) (Forall_take _ _ _ Hl)) as Hr.
    by rewrite length_take, Nat.min_l in Hr.
  - rewrite take_ge by lia. rewrite Z.mod_small; [done|]. pose proof (le_value_range l Hl).
    assert (2 ^ (8 * Z.of_nat (length l)) <= 2 ^ (8 * Z.of_nat n)); [|lia]. apply Z.pow_le_mono_r; lia.
Qed.

Lemma le_value_drop l n : Forall (fun b => 0 <= b < 256) l -> (n <= length l)%nat ->
  le_value (drop n l) = le_value l / 2 ^ (8 * Z.of_nat n).
Proof.
  intros Hl Hn. rewrite <- (take_drop n l) at 2. rewrite le_value_app, length_take, Nat.min_l by done.
  pose proof (pow2_pos (8 * Z.of_nat n) ltac:(lia)).
  rewrite (Z.mul_comm (2 ^ _)), Z.div_add, Z.div_small by (try lia; pose proof (le_value_range (take n l) (Forall_take _ _ _ Hl)) as Hr;
    rewrite length_take, Nat.min_l in Hr by done; done). lia.
Qed.

Lemma le_bytes_shifts n h o : 0 <= o -> le_bytes n (h / 2 ^ o) = (fun i => wrap 8 (Z.shiftr h (o + 8 * i))) <$> seqZ 0 (Z.of_nat n).
Proof.
  intros Ho. apply list_eq. intros i. rewrite list_lookup_fmap. destruct (decide (i < n)%nat) as [Hi|Hi].
  - rewrite lookup_seqZ_lt by lia. rewrite (list_lookup_lookup_total_lt _ i) by (rewrite length_le_bytes; lia). cbn. f_equal.
    rewrite byte_lookup by (rewrite ?length_le_bytes; auto using le_bytes_range). rewrite le_value_bytes. unfold wrap.
    change 256 with (2 ^ 8). rewrite window_mod by lia. by rewrite Z.shiftr_div_pow2, Z.pow_add_r, Z.div_div by lia.
  - rewrite lookup_seqZ_ge by lia. by rewrite lookup_ge_None_2 by (rewrite length_le_bytes; lia).
Qed.

Lemma le_value_zeros n : le_value (replicate n 0) = 0.
Proof. induction n; cbn [replicate le_value]; lia. Qed.

End Limbs.
