(* ===== verification/Curve25519.v ===== *)
(** * X25519 (src/kernel/src/network/crypto.rs, the key exchange)

    Elements of the field of 2^255 - 19 in five limbs of 51 bits, and the
    Montgomery ladder over them. All arithmetic is at the width of the source:
    [u64] limbs, [u128] products, release-build wrap-around. *)

From S2P Require Import Prelude Limbs.

(** ** [struct Fe] *)
Module Fe.
Import Limbs.

Record t := Fe { f0 : Z; f1 : Z; f2 : Z; f3 : Z; f4 : Z }.

Definition MASK51 : Z := 2 ^ 51 - 1.
Definition ZERO : t := Fe 0 0 0 0 0.
Definition ONE : t := Fe 1 0 0 0 0.

Definition load_le_u64 (s : list Z) (pos : Z) : Z :=
  let end_ := Z.min (pos + 8) (Z.of_nat (length s)) in
  let len := end_ - pos in
  le_value (take (Z.to_nat len) (drop (Z.to_nat pos) s) ++ replicate (Z.to_nat (8 - len)) 0).

Definition from_bytes (s : list Z) : t :=
  Fe (Z.land (load_le_u64 s 0) MASK51)
     (Z.land (Z.shiftr (load_le_u64 s 6) 3) MASK51)
     (Z.land (Z.shiftr (load_le_u64 s 12) 6) MASK51)
     (Z.land (Z.shiftr (load_le_u64 s 19) 1) MASK51)
     (Z.land (Z.shiftr (load_le_u64 s 24) 12) MASK51).

(** One round of the carry chain of [to_bytes]. *)
Definition carry_round (h : t) : t :=
  let '(Fe h0 h1 h2 h3 h4) := h in
  let carry := Z.shiftr h0 51 in let h0 := Z.land h0 MASK51 in let h1 := u64_add h1 carry in
  let carry := Z.shiftr h1 51 in let h1 := Z.land h1 MASK51 in let h2 := u64_add h2 carry in
  let carry := Z.shiftr h2 51 in let h2 := Z.land h2 MASK51 in let h3 := u64_add h3 carry in
  let carry := Z.shiftr h3 51 in let h3 := Z.land h3 MASK51 in let h4 := u64_add h4 carry in
  let carry := Z.shiftr h4 51 in let h4 := Z.land h4 MASK51 in let h0 := u64_add h0 (u64_mul carry 19) in
  Fe h0 h1 h2 h3 h4.

(** [Freeze]: subtract p if the value is at least p. *)
Definition freeze (h : t) : t :=
  let '(Fe h0 h1 h2 h3 h4) := h in
  let q := Z.shiftr (u64_add h0 19) 51 in
  let q := Z.shiftr (u64_add h1 q) 51 in
  let q := Z.shiftr (u64_add h2 q) 51 in
  let q := Z.shiftr (u64_add h3 q) 51 in
  let q := Z.shiftr (u64_add h4 q) 51 in
  let h0 := u64_add h0 (u64_mul 19 q) in
  let carry := Z.shiftr h0 51 in let h0 := Z.land h0 MASK51 in let h1 := u64_add h1 carry in
  let carry := Z.shiftr h1 51 in let h1 := Z.land h1 MASK51 in let h2 := u64_add h2 carry in
  let carry := Z.shiftr h2 51 in let h2 := Z.land h2 MASK51 in let h3 := u64_add h3 carry in
  let carry := Z.shiftr h3 51 in let h3 := Z.land h3 MASK51 in let h4 := u64_add h4 carry in
  Fe h0 h1 h2 h3 (Z.land h4 MASK51).

(** [(h >> k) as u8] and [(h << k) as u8]. *)
Definition down (h k : Z) : Z := wrap 8 (Z.shiftr h k).
Definition up (h k : Z) : Z := wrap 8 (wrap 64 (Z.shiftl h k)).

(** The five limbs packed into 32 bytes. *)
Definition pack (h : t) : list Z :=
  let '(Fe h0 h1 h2 h3 h4) := h in
  [down h0 0; down h0 8; down h0 16; down h0 24; down h0 32; down h0 40; Z.lor (down h0 48) (up h1 3);
   down h1 5; down h1 13; down h1 21; down h1 29; down h1 37; Z.lor (down h1 45) (up h2 6);
   down h2 2; down h2 10; down h2 18; down h2 26; down h2 34; down h2 42; Z.lor (down h2 50) (up h3 1);
   down h3 7; down h3 15; down h3 23; down h3 31; down h3 39; Z.lor (down h3 47) (up h4 4);
   down h4 4; down h4 12; down h4 20; down h4 28; down h4 36; down h4 44].

Definition to_bytes (h : t) : list Z := pack (freeze (carry_round (carry_round h))).

Definition add (a b : t) : t :=
  Fe (u64_add (f0 a) (f0 b)) (u64_add (f1 a) (f1 b)) (u64_add (f2 a) (f2 b)) (u64_add (f3 a) (f3 b)) (u64_add (f4 a) (f4 b)).

Definition sub (a b : t) : t :=
  Fe (u64_sub (u64_add (f0 a) 0xFFFFFFFFFFFDA) (f0 b))
     (u64_sub (u64_add (f1 a) 0xFFFFFFFFFFFFE) (f1 b))
     (u64_sub (u64_add (f2 a) 0xFFFFFFFFFFFFE) (f2 b))
     (u64_sub (u64_add (f3 a) 0xFFFFFFFFFFFFE) (f3 b))
     (u64_sub (u64_add (f4 a) 0xFFFFFFFFFFFFE) (f4 b)).

(** [(h as u64) & MASK51]. *)
Definition low51 (h : Z) : Z := Z.land (wrap 64 h) MASK51.

(** The carry propagation of the products [h0] to [h4]: five limbs, and the carry
    out of the last one. *)
Definition propagate (h0 h1 h2 h3 h4 : Z) : t * Z :=
  let carry := Z.shiftr h0 51 in let r0 := low51 h0 in let h1 := u128_add h1 carry in
  let carry := Z.shiftr h1 51 in let r1 := low51 h1 in let h2 := u128_add h2 carry in
  let carry := Z.shiftr h2 51 in let r2 := low51 h2 in let h3 := u128_add h3 carry in
  let carry := Z.shiftr h3 51 in let r3 := low51 h3 in let h4 := u128_add h4 carry in
  let carry := Z.shiftr h4 51 in let r4 := low51 h4 in
  (Fe r0 r1 r2 r3 r4, carry).

Definition mul (f g : t) : t :=
  let '(Fe f0 f1 f2 f3 f4) := f in
  let '(Fe g0 g1 g2 g3 g4) := g in
  let g1_19 := u128_mul 19 g1 in
  let g2_19 := u128_mul 19 g2 in
  let g3_19 := u128_mul 19 g3 in
  let g4_19 := u128_mul 19 g4 in
  let h0 := dot 128 f0 g0 f1 g4_19 f2 g3_19 f3 g2_19 f4 g1_19 in
  let h1 := dot 128 f0 g1 f1 g0 f2 g4_19 f3 g3_19 f4 g2_19 in
  let h2 := dot 128 f0 g2 f1 g1 f2 g0 f3 g4_19 f4 g3_19 in
  let h3 := dot 128 f0 g3 f1 g2 f2 g1 f3 g0 f4 g4_19 in
  let h4 := dot 128 f0 g4 f1 g3 f2 g2 f3 g1 f4 g0 in
  let '(Fe r0 r1 r2 r3 r4, carry) := propagate h0 h1 h2 h3 h4 in
  let r0 := u64_add r0 (u64_mul (wrap 64 carry) 19) in
  let carry := Z.shiftr r0 51 in
  Fe (Z.land r0 MASK51) (u64_add r1 carry) r2 r3 r4.

Definition square (f : t) : t := mul f f.

Definition mul_small (f : t) (c : Z) : t :=
  let '(Fe f0 f1 f2 f3 f4) := f in
  let h0 := u128_mul f0 c in
  let h1 := u128_mul f1 c in
  let h2 := u128_mul f2 c in
  let h3 := u128_mul f3 c in
  let h4 := u128_mul f4 c in
  let '(Fe r0 r1 r2 r3 r4, carry) := propagate h0 h1 h2 h3 h4 in
  Fe (u64_add r0 (u64_mul (wrap 64 carry) 19)) r1 r2 r3 r4.

(** Bit [i] of a little-endian byte string: [(exp[i / 8] >> (i % 8)) & 1]. *)
Definition bit (exp : list Z) (i : Z) : Z := Z.land (Z.shiftr (exp !!! Z.to_nat (i / 8)) (i mod 8)) 1.

Definition pow_step (f : t) (exp : list Z) (result : t) (i : Z) : t :=
  let result := square result in
  if bit exp i =? 1 then mul result f else result.

Definition pow (f : t) (exp : list Z) : t := foldl (pow_step f exp) ONE (reverse (seqZ 0 255)).

Definition P_MINUS_2 : list Z := [0xEB] ++ replicate 30 0xFF ++ [0x7F].

Definition invert (f : t) : t := pow f P_MINUS_2.

Definition cswap_limb (mask a b : Z) : Z * Z :=
  let x := Z.land mask (Z.lxor a b) in (Z.lxor a x, Z.lxor b x).

Definition cswap (a b : t) (swap : Z) : t * t :=
  let mask := u64_sub 0 swap in
  let l f := cswap_limb mask (f a) (f b) in
  (Fe (l f0).1 (l f1).1 (l f2).1 (l f3).1 (l f4).1, Fe (l f0).2 (l f1).2 (l f2).2 (l f3).2 (l f4).2).

End Fe.

(** ** The ladder *)
Module X25519.
Import Fe.

Definition clamp (k : list Z) : list Z :=
  let scalar := <[0%nat := Z.land (k !!! 0%nat) 248]> k in
  let scalar := <[31%nat := Z.land (scalar !!! 31%nat) 127]> scalar in
  <[31%nat := Z.lor (scalar !!! 31%nat) 64]> scalar.

Record Ladder := mkLadder { x_2 : t; z_2 : t; x_3 : t; z_3 : t; swap : Z }.

Definition step (scalar : list Z) (x_1 : t) (s : Ladder) (i : Z) : Ladder :=
  let k_t := bit scalar i in
  let sw := Z.lxor (swap s) k_t in
  let '(x_2, x_3) := cswap (x_2 s) (x_3 s) sw in
  let '(z_2, z_3) := cswap (z_2 s) (z_3 s) sw in
  let a := add x_2 z_2 in
  let aa := square a in
  let b := sub x_2 z_2 in
  let bb := square b in
  let e := sub aa bb in
  let c := add x_3 z_3 in
  let d := sub x_3 z_3 in
  let da := mul d a in
  let cb := mul c b in
  mkLadder (mul aa bb) (mul e (add bb (mul_small e 121666)))
           (square (add da cb)) (mul x_1 (square (sub da cb))) k_t.

Definition x25519 (k u : list Z) : list Z :=
  let scalar := clamp k in
  let x_1 := from_bytes u in
  let s := foldl (step scalar x_1) (mkLadder ONE ZERO x_1 ONE 0) (reverse (seqZ 0 255)) in
  let '(x_2, x_3) := cswap (x_2 s) (x_3 s) (swap s) in
  let '(z_2, z_3) := cswap (z_2 s) (z_3 s) (swap s) in
  to_bytes (mul x_2 (invert z_2)).

Definition X25519_BASEPOINT : list Z := 9 :: replicate 31 0.

Definition x25519_keypair (seed : list Z) : list Z * list Z := (seed, x25519 seed X25519_BASEPOINT).

End X25519.
