(* ===== verification/CurveTheorems.v ===== *)
(** * X25519 follows RFC 7748

    The value of five limbs, the bounds under which no operation of [Fe]
    overflows, and one lemma per operation: the field arithmetic computes modulo
    2^255 - 19. Then the function of section 5 of the RFC, and the proof that the
    ladder of the kernel computes it on every scalar and every coordinate:
    swapping lazily changes nothing, and the result comes out fully reduced. *)

From S2P Require Import Prelude Limbs Curve25519.

Module FieldSpec.
Import Limbs Fe.

Definition P : Z := 2 ^ 255 - 19.

Definition value (f : t) : Z := f0 f + 2 ^ 51 * f1 f + 2 ^ 102 * f2 f + 2 ^ 153 * f3 f + 2 ^ 204 * f4 f.

(** Every limb lies between 0 and [B]. *)
Definition limbs (B : Z) (f : t) : Prop :=
  0 <= f0 f <= B /\ 0 <= f1 f <= B /\ 0 <= f2 f <= B /\ 0 <= f3 f <= B /\ 0 <= f4 f <= B.

(** What multiplications give, and what they take. *)
Definition tight : t -> Prop := limbs (2 ^ 51 + 2 ^ 24).
Definition loose : t -> Prop := limbs (2 ^ 53).

(** [f] stands for [x]. *)
Definition stands (f : t) (x : Z) : Prop := tight f /\ value f mod P = x mod P.

Lemma tight_loose f : tight f -> loose f.
Proof. unfold tight, loose, limbs. lia. Qed.

(** ** Carries *)
Lemma split51 z : 0 <= z -> exists q r, Z.shiftr z 51 = q /\ Z.land z MASK51 = r /\ z = 2 ^ 51 * q + r /\ 0 <= r < 2 ^ 51 /\ 0 <= q.
Proof.
  intros Hz. exists (z / 2 ^ 51), (z mod 2 ^ 51). rewrite Z.shiftr_div_pow2 by lia. split; [done|].
  split; [by apply mask_mod|]. split; [apply Z.div_mod; lia|]. split; [apply Z.mod_pos_bound; lia|]. apply Z.div_pos; lia.
Qed.

Lemma low51_land z : low51 z = Z.land z MASK51.
Proof. unfold low51. rewrite !(mask_mod _ 51) by done. by apply wrap_mod. Qed.

(** Names quotient and rest of the next carry. *)
Ltac carry51 z q r :=
  let H1 := fresh in let H2 := fresh in
  destruct (split51 z) as (q & r & H1 & H2 & ? & ? & ?); [lia|rewrite ?low51_land, ?H1, ?H2; clear H1 H2].

(** ** Addition and subtraction *)
Lemma add_value B C a b : limbs B a -> limbs C b -> B + C < 2 ^ 64 -> limbs (B + C) (add a b) /\ value (add a b) = value a + value b.
Proof.
  intros Ha Hb HBC. unfold limbs in *. unfold add, value. cbn [f0 f1 f2 f3 f4]. rewrite !u64_add_small by lia. lia.
Qed.

Lemma sub_value B a b : limbs B a -> limbs (2 ^ 52 - 38) b -> B < 2 ^ 63 ->
  limbs (B + 2 ^ 52) (sub a b) /\ value (sub a b) = value a - value b + 2 * P.
Proof.
  intros Ha Hb HB. unfold limbs, P in *. unfold sub, value. cbn [f0 f1 f2 f3 f4]. rewrite !u64_add_small by lia.
  rewrite !u64_sub_small by lia. lia.
Qed.

(** ** Multiplication *)
Lemma mul_dot a0 b0 a1 b1 a2 b2 a3 b3 a4 b4 B0 B1 B2 B3 B4 :
  0 <= a0 <= 2 ^ 53 -> 0 <= a1 <= 2 ^ 53 -> 0 <= a2 <= 2 ^ 53 -> 0 <= a3 <= 2 ^ 53 -> 0 <= a4 <= 2 ^ 53 ->
  0 <= b0 <= B0 -> 0 <= b1 <= B1 -> 0 <= b2 <= B2 -> 0 <= b3 <= B3 -> 0 <= b4 <= B4 ->
  B0 + B1 + B2 + B3 + B4 <= 2 ^ 60 ->
  exists h, dot 128 a0 b0 a1 b1 a2 b2 a3 b3 a4 b4 = h /\ h = a0 * b0 + a1 * b1 + a2 * b2 + a3 * b3 + a4 * b4 /\
    0 <= h <= 2 ^ 53 * (B0 + B1 + B2 + B3 + B4).
Proof.
  intros. eexists. split; [reflexivity|]. destruct (dot_exact 128 a0 b0 a1 b1 a2 b2 a3 b3 a4 b4 (2 ^ 53) B0 B1 B2 B3 B4) as [-> ?]; [lia..|].
  done.
Qed.

(** The carries of a product. *)
Lemma propagate_value h0 h1 h2 h3 h4 : 0 <= h0 < 2 ^ 113 -> 0 <= h1 < 2 ^ 113 -> 0 <= h2 < 2 ^ 113 -> 0 <= h3 < 2 ^ 113 -> 0 <= h4 < 2 ^ 109 ->
  exists r c, propagate h0 h1 h2 h3 h4 = (r, c) /\ limbs (2 ^ 51 - 1) r /\ 0 <= c <= (h4 + 2 ^ 64) / 2 ^ 51 /\ u64_mul (wrap 64 c) 19 = 19 * c /\
    value r + 2 ^ 255 * c = h0 + 2 ^ 51 * h1 + 2 ^ 102 * h2 + 2 ^ 153 * h3 + 2 ^ 204 * h4.
Proof.
  intros H0 H1 H2 H3 H4. unfold propagate.
  carry51 h0 q0 r0. rewrite (u128_add_small h1 q0) by lia.
  carry51 (h1 + q0) q1 r1. rewrite (u128_add_small h2 q1) by lia.
  carry51 (h2 + q1) q2 r2. rewrite (u128_add_small h3 q2) by lia.
  carry51 (h3 + q2) q3 r3. rewrite (u128_add_small h4 q3) by lia.
  carry51 (h4 + q3) q4 r4.
  assert (q4 <= (h4 + 2 ^ 64) / 2 ^ 51) by (apply Z.div_le_lower_bound; lia).
  eexists _, _. split; [reflexivity|]. rewrite (wrap_small 64 q4), u64_mul_small by lia.
  unfold limbs, value. cbn [f0 f1 f2 f3 f4]. lia.
Qed.

Lemma fold_mod a b q : a = b - P * q -> a mod P = b mod P.
Proof. intros ->. rewrite <- (Z.mod_add (b - P * q) q P) by done. f_equal. lia. Qed.

Lemma mul_value f g : loose f -> loose g -> tight (mul f g) /\ value (mul f g) mod P = (value f * value g) mod P.
Proof.
  destruct f as [a0 a1 a2 a3 a4], g as [b0 b1 b2 b3 b4]. unfold loose, limbs. cbn [f0 f1 f2 f3 f4].
  intros (Ha0 & Ha1 & Ha2 & Ha3 & Ha4) (Hb0 & Hb1 & Hb2 & Hb3 & Hb4). unfold mul. rewrite !u128_mul_small by lia.
  set (M := 2 ^ 53) in *. set (N := 19 * 2 ^ 53).
  destruct (mul_dot a0 b0 a1 (19 * b4) a2 (19 * b3) a3 (19 * b2) a4 (19 * b1) M N N N N) as (h0 & -> & E0 & R0); [lia..|].
  destruct (mul_dot a0 b1 a1 b0 a2 (19 * b4) a3 (19 * b3) a4 (19 * b2) M M N N N) as (h1 & -> & E1 & R1); [lia..|].
  destruct (mul_dot a0 b2 a1 b1 a2 b0 a3 (19 * b4) a4 (19 * b3) M M M N N) as (h2 & -> & E2 & R2); [lia..|].
  destruct (mul_dot a0 b3 a1 b2 a2 b1 a3 b0 a4 (19 * b4) M M M M N) as (h3 & -> & E3 & R3); [lia..|].
  destruct (mul_dot a0 b4 a1 b3 a2 b2 a3 b1 a4 b0 M M M M M) as (h4 & -> & E4 & R4); [lia..|].
  destruct (propagate_value h0 h1 h2 h3 h4) as ([r0 r1 r2 r3 r4] & c & -> & Hr & Hc & -> & Hv); [lia..|].
  unfold limbs, value in Hr, Hv. cbn [f0 f1 f2 f3 f4] in Hr, Hv. subst M N.
  assert ((h4 + 2 ^ 64) / 2 ^ 51 < 2 ^ 58) by (apply Z.div_lt_upper_bound; lia).
  rewrite (u64_add_small r0) by lia. carry51 (r0 + 19 * c) q s0. rewrite u64_add_small by lia.
  split; [unfold tight, limbs; cbn [f0 f1 f2 f3 f4]; lia|].
  apply (fold_mod _ _ (c + (a1 * b4 + a2 * b3 + a3 * b2 + a4 * b1) + 2 ^ 51 * (a2 * b4 + a3 * b3 + a4 * b2)
                       + 2 ^ 102 * (a3 * b4 + a4 * b3) + 2 ^ 153 * (a4 * b4))).
  unfold value, P. cbn [f0 f1 f2 f3 f4]. lia.
Qed.

Lemma mul_small_value f c : loose f -> 0 <= c < 2 ^ 17 -> tight (mul_small f c) /\ value (mul_small f c) mod P = (value f * c) mod P.
Proof.
  destruct f as [a0 a1 a2 a3 a4]. unfold loose, limbs. cbn [f0 f1 f2 f3 f4]. intros (Ha0 & Ha1 & Ha2 & Ha3 & Ha4) Hc. unfold mul_small.
  pose proof (mul_bounds _ c _ (2 ^ 17) Ha0 ltac:(lia)). pose proof (mul_bounds _ c _ (2 ^ 17) Ha1 ltac:(lia)).
  pose proof (mul_bounds _ c _ (2 ^ 17) Ha2 ltac:(lia)). pose proof (mul_bounds _ c _ (2 ^ 17) Ha3 ltac:(lia)).
  pose proof (mul_bounds _ c _ (2 ^ 17) Ha4 ltac:(lia)). rewrite !u128_mul_small by lia.
  destruct (propagate_value (a0 * c) (a1 * c) (a2 * c) (a3 * c) (a4 * c)) as ([r0 r1 r2 r3 r4] & q & -> & Hr & Hq & -> & Hv); [lia..|].
  unfold limbs, value in Hr, Hv. cbn [f0 f1 f2 f3 f4] in Hr, Hv.
  assert ((a4 * c + 2 ^ 64) / 2 ^ 51 < 2 ^ 19 + 2 ^ 14) by (apply Z.div_lt_upper_bound; lia).
  rewrite (u64_add_small r0) by lia. split; [unfold tight, limbs; cbn [f0 f1 f2 f3 f4]; lia|].
  apply (fold_mod _ _ q). unfold value, P. cbn [f0 f1 f2 f3 f4]. lia.
Qed.

(** ** From bytes *)
Lemma load_value s pos : Forall (fun b => 0 <= b < 256) s -> 0 <= pos -> pos + 8 <= Z.of_nat (length s) ->
  load_le_u64 s pos = (le_value s / 2 ^ (8 * pos)) mod 2 ^ 64.
Proof.
  intros Hs Hp Hl. unfold load_le_u64. rewrite Z.min_l by lia. replace (pos + 8 - pos) with 8 by lia. cbn [Z.sub Z.to_nat].
  rewrite app_nil_r, le_value_take by by apply Forall_drop. rewrite le_value_drop by (done || lia). by rewrite Z2Nat.id by lia.
Qed.

Lemma load_window s pos k : Forall (fun b => 0 <= b < 256) s -> 0 <= pos -> pos + 8 <= Z.of_nat (length s) -> 0 <= k <= 13 ->
  Z.land (Z.shiftr (load_le_u64 s pos) k) MASK51 = (le_value s / 2 ^ (8 * pos + k)) mod 2 ^ 51.
Proof.
  intros Hs Hp Hl Hk. rewrite load_value, (mask_mod _ 51), Z.shiftr_div_pow2, window_mod by (done || lia).
  by rewrite Z.pow_add_r, Z.div_div by lia.
Qed.

Lemma from_bytes_value s : Forall (fun b => 0 <= b < 256) s -> length s = 32%nat ->
  limbs (2 ^ 51 - 1) (from_bytes s) /\ value (from_bytes s) = le_value s mod 2 ^ 255.
Proof.
  intros Hs Hl. unfold from_bytes, limbs, value. cbn [f0 f1 f2 f3 f4].
  rewrite <- (Z.shiftr_0_r (load_le_u64 s 0)), !load_window by (done || lia).
  change (2 ^ (8 * 0 + 0)) with 1. rewrite Z.div_1_r. change (8 * 6 + 3) with 51. change (8 * 12 + 6) with 102.
  change (8 * 19 + 1) with 153. change (8 * 24 + 12) with 204. set (v := le_value s).
  split; [repeat split; match goal with |- context [?x mod ?y] => pose proof (Z.mod_pos_bound x y); lia end|].
  pose proof (mod_split v 204 51) as E4. pose proof (mod_split v 153 51) as E3.
  pose proof (mod_split v 102 51) as E2. pose proof (mod_split v 51 51) as E1.
  change (204 + 51) with 255 in E4. change (153 + 51) with 204 in E3. change (102 + 51) with 153 in E2. change (51 + 51) with 102 in E1.
  rewrite E4, E3, E2, E1 by lia. lia.
Qed.

(** ** To bytes *)
Lemma carry_round_value B f : limbs B f -> B <= 2 ^ 54 ->
  limbs (2 ^ 51 + 2 ^ 10) (carry_round f) /\ value (carry_round f) mod P = value f mod P /\
  (f0 f <= 2 ^ 51 + 2 ^ 10 -> f1 f < 2 ^ 51 -> f2 f < 2 ^ 51 -> f3 f < 2 ^ 51 -> f4 f < 2 ^ 51 -> limbs (2 ^ 51 - 1) (carry_round f)) /\
  f1 (carry_round f) < 2 ^ 51 /\ f2 (carry_round f) < 2 ^ 51 /\ f3 (carry_round f) < 2 ^ 51 /\ f4 (carry_round f) < 2 ^ 51.
Proof.
  destruct f as [a0 a1 a2 a3 a4]. unfold limbs. cbn [f0 f1 f2 f3 f4]. intros H HB. unfold carry_round.
  carry51 a0 q0 r0. rewrite (u64_add_small a1) by lia. carry51 (a1 + q0) q1 r1. rewrite (u64_add_small a2) by lia.
  carry51 (a2 + q1) q2 r2. rewrite (u64_add_small a3) by lia. carry51 (a3 + q2) q3 r3. rewrite (u64_add_small a4) by lia.
  carry51 (a4 + q3) q4 r4. rewrite u64_mul_small, u64_add_small by lia. cbn [f0 f1 f2 f3 f4].
  split; [lia|]. split; [|lia]. apply (fold_mod _ _ q4). unfold value, P. cbn [f0 f1 f2 f3 f4]. lia.
Qed.

Lemma freeze_value f : limbs (2 ^ 51 - 1) f -> limbs (2 ^ 51 - 1) (freeze f) /\ value (freeze f) = value f mod P.
Proof.
  destruct f as [a0 a1 a2 a3 a4]. unfold limbs. cbn [f0 f1 f2 f3 f4]. intros H. unfold freeze. rewrite (u64_add_small a0 19) by lia.
  carry51 (a0 + 19) p0 s0. rewrite (u64_add_small a1) by lia. carry51 (a1 + p0) p1 s1. rewrite (u64_add_small a2) by lia.
  carry51 (a2 + p1) p2 s2. rewrite (u64_add_small a3) by lia. carry51 (a3 + p2) p3 s3. rewrite (u64_add_small a4) by lia.
  carry51 (a4 + p3) p4 s4. rewrite u64_mul_small, (u64_add_small a0) by lia.
  carry51 (a0 + 19 * p4) q0 r0. rewrite (u64_add_small a1) by lia. carry51 (a1 + q0) q1 r1. rewrite (u64_add_small a2) by lia.
  carry51 (a2 + q1) q2 r2. rewrite (u64_add_small a3) by lia. carry51 (a3 + q2) q3 r3. rewrite (u64_add_small a4) by lia.
  carry51 (a4 + q3) q4 r4. cbn [f0 f1 f2 f3 f4]. split; [lia|].
  unfold value. cbn [f0 f1 f2 f3 f4]. apply (Z.mod_unique_pos _ _ p4); unfold P; lia.
Qed.

(** A byte with the top [k] bits of one limb below the lowest ones of the next. *)
Lemma seam a b m k : 0 <= a < 2 ^ 51 -> 0 <= b < 2 ^ 51 -> 0 <= k <= 8 -> m = 51 - k ->
  Z.lor (down a m) (up b k) = a / 2 ^ m + 2 ^ k * (b mod 2 ^ (8 - k)).
Proof.
  intros Ha Hb Hk ->. unfold down, up, wrap. rewrite Z.shiftr_div_pow2, Z.shiftl_mul_pow2 by lia.
  assert (a / 2 ^ (51 - k) < 2 ^ k) as Ha'.
  { apply Z.div_lt_upper_bound; [apply pow2_pos; lia|]. rewrite <- Z.pow_add_r by lia. replace (51 - k + k) with 51 by lia. apply Ha. }
  assert (0 <= a / 2 ^ (51 - k)) by (apply Z.div_pos; [lia|apply pow2_pos; lia]).
  pose proof (Z.pow_le_mono_r 2 k 8 ltac:(lia) ltac:(lia)). rewrite (Z.mod_small (a / _)) by lia.
  change (2 ^ 64) with (2 ^ (8 + 56)). fold (wrap (8 + 56) (b * 2 ^ k)). rewrite wrap_mod by lia.
  replace (2 ^ 8) with (2 ^ (8 - k) * 2 ^ k) by (rewrite <- Z.pow_add_r by lia; f_equal; lia).
  rewrite Zmult_mod_distr_r, <- Z.shiftl_mul_pow2, shiftl_lor_add by lia. lia.
Qed.

Lemma downs n h o : 0 <= o -> ((fun i => down h (o + 8 * i)) <$> seqZ 0 (Z.of_nat n)) = le_bytes n (h / 2 ^ o).
Proof. intros. symmetry. by apply le_bytes_shifts. Qed.

Lemma pack_value h : limbs (2 ^ 51 - 1) h -> pack h = le_bytes 32 (value h).
Proof.
  destruct h as [a0 a1 a2 a3 a4]. unfold limbs. cbn [f0 f1 f2 f3 f4]. intros H.
  assert (pack (Fe a0 a1 a2 a3 a4) = le_bytes 6 (a0 / 2 ^ 0) ++ [a0 / 2 ^ 48 + 2 ^ 3 * (a1 mod 2 ^ 5)] ++ le_bytes 5 (a1 / 2 ^ 5) ++
    [a1 / 2 ^ 45 + 2 ^ 6 * (a2 mod 2 ^ 2)] ++ le_bytes 6 (a2 / 2 ^ 2) ++ [a2 / 2 ^ 50 + 2 ^ 1 * (a3 mod 2 ^ 7)] ++ le_bytes 5 (a3 / 2 ^ 7) ++
    [a3 / 2 ^ 47 + 2 ^ 4 * (a4 mod 2 ^ 4)] ++ le_bytes 6 (a4 / 2 ^ 4)) as ->.
  { rewrite <- !downs by lia. unfold pack. rewrite (seam a0 a1 48 3), (seam a1 a2 45 6), (seam a2 a3 50 1), (seam a3 a4 47 4) by lia. reflexivity. }
  set (l := le_bytes 6 _ ++ _). assert (Forall (fun b => 0 <= b < 256) l) as Hl.
  { unfold l. repeat apply Forall_app_2; try apply le_bytes_range; apply Forall_singleton; Z.to_euclidean_division_equations; lia. }
  rewrite <- (le_bytes_value l Hl). f_equal. unfold l. rewrite !le_value_app, !le_value_bytes, !length_le_bytes. cbn [le_value length].
  unfold value. cbn [f0 f1 f2 f3 f4]. change (2 ^ (8 * Z.of_nat 6)) with (2 ^ 48). change (2 ^ (8 * Z.of_nat 5)) with (2 ^ 40).
  change (2 ^ (8 * Z.of_nat 1)) with (2 ^ 8). clear l Hl. Z.to_euclidean_division_equations. lia.
Qed.

Lemma to_bytes_value f : tight f -> to_bytes f = le_bytes 32 (value f mod P).
Proof.
  intros Hf. destruct (carry_round_value _ f Hf) as (H1 & E1 & _ & G1); [lia|].
  destruct (carry_round_value _ _ H1) as (_ & E2 & H2 & _); [lia|]. specialize (H2 (proj2 (proj1 H1))).
  destruct (freeze_value (carry_round (carry_round f))) as [H3 E3]; [apply H2; apply G1|].
  unfold to_bytes. by rewrite (pack_value _ H3), E3, E2, E1.
Qed.

(** ** Swaps *)
Lemma cswap_limb_spec (c : bool) a b : in_u 64 a -> in_u 64 b ->
  cswap_limb (u64_sub 0 (if c then 1 else 0)) a b = if c then (b, a) else (a, b).
Proof.
  intros Ha Hb. unfold cswap_limb. destruct c.
  - change (u64_sub 0 1) with (2 ^ 64 - 1). rewrite Z.land_comm, land_ones_mod by lia.
    rewrite Z.mod_small by (apply (lxor_range 64); done).
    f_equal; [by rewrite <- Z.lxor_assoc, Z.lxor_nilpotent, Z.lxor_0_l|].
    by rewrite (Z.lxor_comm a), <- Z.lxor_assoc, Z.lxor_nilpotent, Z.lxor_0_l.
  - change (u64_sub 0 0) with 0. by rewrite Z.land_0_l, !Z.lxor_0_r.
Qed.

Lemma cswap_spec (c : bool) a b : loose a -> loose b ->
  cswap a b (if c then 1 else 0) = if c then (b, a) else (a, b).
Proof.
  intros Ha Hb. unfold loose, limbs in *. unfold cswap. rewrite !cswap_limb_spec by (unfold in_u; lia).
  destruct a, b, c; reflexivity.
Qed.

End FieldSpec.

(** ** The RFC *)
Module Rfc7748.
Import FieldSpec.

Definition a24 : Z := 121665.

Definition double_add (x_1 : Z) (s : Z * Z * Z * Z) : Z * Z * Z * Z :=
  let '(x_2, z_2, x_3, z_3) := s in
  let A := x_2 + z_2 in
  let AA := A ^ 2 in
  let B := x_2 - z_2 in
  let BB := B ^ 2 in
  let E := AA - BB in
  let C := x_3 + z_3 in
  let D := x_3 - z_3 in
  let DA := D * A in
  let CB := C * B in
  ((AA * BB) mod P, (E * (AA + a24 * E)) mod P, ((DA + CB) ^ 2) mod P, (x_1 * (DA - CB) ^ 2) mod P).

Definition cswap (swap : bool) (s : Z * Z * Z * Z) : Z * Z * Z * Z :=
  let '(x_2, z_2, x_3, z_3) := s in if swap then (x_3, z_3, x_2, z_2) else s.

(** Bits from the highest to the lowest; the points are exchanged before and back
    after each step. *)
Definition ladder (k u : Z) : Z * Z * Z * Z :=
  foldl (fun s i => let k_t := Z.testbit k i in cswap k_t (double_add u (cswap k_t s))) (1, 0, u, 1) (reverse (seqZ 0 255)).

Definition X25519 (k u : Z) : Z :=
  let '(x_2, z_2, _, _) := ladder k u in (x_2 * z_2 ^ (P - 2)) mod P.

Definition decodeScalar25519 (k : list Z) : Z := 2 ^ 254 + 8 * ((le_value k / 8) mod 2 ^ 251).

Definition decodeUCoordinate (u : list Z) : Z := le_value u mod 2 ^ 255.

End Rfc7748.

Module CurveRuns.
Import Limbs Fe FieldSpec X25519.

Notation bytes := (Forall (fun b => 0 <= b < 256)).

(** ** Congruence *)
Definition eqm (a b : Z) : Prop := a mod P = b mod P.

Lemma eqm_add a b c d : eqm a c -> eqm b d -> eqm (a + b) (c + d).
Proof. unfold eqm. intros H1 H2. by rewrite Z.add_mod, H1, H2, <- Z.add_mod by done. Qed.

Lemma eqm_mul a b c d : eqm a c -> eqm b d -> eqm (a * b) (c * d).
Proof. unfold eqm. intros H1 H2. by rewrite Z.mul_mod, H1, H2, <- Z.mul_mod by done. Qed.

Lemma eqm_sub a b c d : eqm a c -> eqm b d -> eqm (a - b + 2 * P) (c - d).
Proof. unfold eqm. intros H1 H2. by rewrite Z.mod_add, Zminus_mod, H1, H2, <- Zminus_mod by done. Qed.

Lemma eqm_mod a : eqm (a mod P) a.
Proof. unfold eqm. by apply Z.mod_mod. Qed.

(** ** Operations on elements that stand for numbers *)
Definition sum (f : t) (x : Z) : Prop := loose f /\ eqm (value f) x.

Lemma stands_sum f x : stands f x -> sum f x.
Proof. intros [H E]. split; [by apply tight_loose|done]. Qed.

Lemma stands_eqm f x y : stands f x -> eqm x y -> stands f y.
Proof. intros [H E] Hxy. split; [done|]. by rewrite E. Qed.

Lemma add_stands f g x y : stands f x -> stands g y -> sum (add f g) (x + y).
Proof.
  intros [Hf Ef] [Hg Eg]. destruct (add_value _ _ f g Hf Hg) as [Hl Hv]; [lia|]. split; [|rewrite Hv; by apply eqm_add].
  unfold loose, limbs in *. lia.
Qed.

Lemma sub_stands f g x y : stands f x -> stands g y -> sum (sub f g) (x - y).
Proof.
  intros [Hf Ef] [Hg Eg]. destruct (sub_value _ f g Hf) as [Hl Hv]; [|lia|].
  - unfold tight, limbs in *. lia.
  - split; [|rewrite Hv; by apply eqm_sub]. unfold loose, limbs in *. lia.
Qed.

Lemma mul_stands f g x y : sum f x -> sum g y -> stands (mul f g) (x * y).
Proof. intros [Hf Ef] [Hg Eg]. destruct (mul_value f g Hf Hg) as [Hl Hv]. split; [done|]. rewrite Hv. by apply eqm_mul. Qed.

Lemma square_stands f x : sum f x -> stands (square f) (x ^ 2).
Proof. intros H. rewrite Z.pow_2_r. by apply mul_stands. Qed.

Lemma mul_small_stands f x c : sum f x -> 0 <= c < 2 ^ 17 -> stands (mul_small f c) (x * c).
Proof. intros [Hf Ef] Hc. destruct (mul_small_value f c Hf Hc) as [Hl Hv]. split; [done|]. rewrite Hv. by apply eqm_mul. Qed.

(** ** Bits of a byte string *)
Lemma bit_spec l i : bytes l -> 0 <= i < 8 * Z.of_nat (length l) -> bit l i = if Z.testbit (le_value l) i then 1 else 0.
Proof.
  intros Hl Hi. unfold bit. pose proof (Z.div_lt_upper_bound i 8 (Z.of_nat (length l))). pose proof (Z.div_pos i 8).
  rewrite byte_lookup by (done || lia). rewrite Z2Nat.id by lia. change 1 with (Z.ones 1) at 1. rewrite Z.land_ones by lia.
  change 256 with (2 ^ 8). pose proof (Z.mod_pos_bound i 8).
  rewrite Z.shiftr_div_pow2 by lia. change (2 ^ 1) with 2. rewrite <- (Z.bit0_mod ((le_value l / 2 ^ (8 * (i / 8))) mod 2 ^ 8 / 2 ^ (i mod 8))).
  rewrite <- Z.shiftr_div_pow2, Z.shiftr_spec by lia. rewrite Z.mod_pow2_bits_low by lia.
  rewrite <- Z.shiftr_div_pow2, Z.shiftr_spec by lia.
  replace (0 + i mod 8 + 8 * (i / 8)) with i by (rewrite (Z.div_mod i 8) at 1; lia). by destruct (Z.testbit (le_value l) i).
Qed.

Lemma on_bytes (f g : Z -> Z) b : forallb (fun b => f b =? g b) (seqZ 0 256) = true -> 0 <= b < 256 -> f b = g b.
Proof. intros H Hb. rewrite forallb_forall in H. apply Z.eqb_eq, H, list_elem_of_In, elem_of_seqZ. lia. Qed.

Lemma clamp_shape b0 m b31 : length m = 30%nat ->
  clamp (b0 :: m ++ [b31]) = Z.land b0 248 :: m ++ [Z.lor (Z.land b31 127) 64].
Proof.
  intros Hm. do 30 (destruct m as [|? m]; [done|]). by destruct m.
Qed.

Lemma clamp_value k : bytes k -> length k = 32%nat ->
  bytes (clamp k) /\ length (clamp k) = 32%nat /\ le_value (clamp k) = Rfc7748.decodeScalar25519 k.
Proof.
  intros Hk Hl. destruct k as [|b0 k]; [done|]. destruct k as [|b31 m _] using rev_ind; [done|].
  cbn [length] in Hl. rewrite length_app in Hl. cbn [length] in Hl. apply Forall_cons in Hk as [H0 Hk]. apply Forall_app in Hk as [Hm H31]. apply Forall_cons in H31 as [H31 _].
  rewrite clamp_shape by lia. rewrite (on_bytes (fun b => Z.land b 248) (fun b => 8 * (b / 8)) b0 eq_refl H0).
  rewrite (on_bytes (fun b => Z.lor (Z.land b 127) 64) (fun b => b mod 64 + 64) b31 eq_refl H31).
  split; [|split].
  - constructor; [Z.to_euclidean_division_equations; lia|]. apply Forall_app_2; [done|]. apply Forall_singleton. Z.to_euclidean_division_equations; lia.
  - cbn [length]. rewrite length_app. cbn [length]. lia.
  - unfold Rfc7748.decodeScalar25519. cbn [le_value]. rewrite !le_value_app. pose proof (le_value_range m Hm) as Hr.
    replace (length m) with 30%nat in * by lia. cbn [le_value]. change (8 * Z.of_nat 30) with 240 in *. Z.to_euclidean_division_equations. lia.
Qed.

(** ** Powers *)
Lemma reverse_seqZ n : reverse (seqZ 0 (Z.of_nat (S n))) = Z.of_nat n :: reverse (seqZ 0 (Z.of_nat n)).
Proof.
  rewrite Nat2Z.inj_succ. rewrite <- Z.add_1_r, seqZ_app by lia. rewrite reverse_app. f_equal.
Qed.

Lemma pow_step_stands f x exp r y i : sum f x -> bytes exp -> 0 <= i < 8 * Z.of_nat (length exp) -> stands r y ->
  stands (pow_step f exp r i) (y ^ 2 * (if Z.testbit (le_value exp) i then x else 1)).
Proof.
  intros Hf He Hi Hr. unfold pow_step. rewrite bit_spec by done. pose proof (square_stands r y (stands_sum _ _ Hr)) as Hs.
  destruct (Z.testbit _ _); cbn [Z.eqb Pos.eqb]; [|by rewrite Z.mul_1_r]. apply mul_stands; [by apply stands_sum|done].
Qed.

Lemma pow_stands f x exp : sum f x -> bytes exp -> length exp = 32%nat -> le_value exp < 2 ^ 255 ->
  stands (pow f exp) (x ^ le_value exp).
Proof.
  intros Hf He Hl Hlt. pose proof (le_value_range exp He) as He0. set (e := le_value exp) in *. unfold pow.
  assert (forall n r, Z.of_nat n <= 255 -> stands r (x ^ (e / 2 ^ Z.of_nat n)) ->
    stands (foldl (pow_step f exp) r (reverse (seqZ 0 (Z.of_nat n)))) (x ^ e)) as H.
  { induction n as [|n IH]; intros r Hn Hr; [cbn in *; by rewrite Z.div_1_r in Hr|]. rewrite reverse_seqZ. cbn [foldl].
    apply IH; [lia|]. eapply stands_eqm; [apply (pow_step_stands f x); [done|done|rewrite Hl; lia|exact Hr]|].
    fold e. assert (e / 2 ^ Z.of_nat n = 2 * (e / 2 ^ Z.of_nat (S n)) + Z.b2z (Z.testbit e (Z.of_nat n))) as ->.
    { rewrite Z.testbit_spec' by lia. pose proof (pow2_pos (Z.of_nat n) ltac:(lia)).
      rewrite Nat2Z.inj_succ, Z.pow_succ_r, (Z.mul_comm 2 (2 ^ _)), <- Z.div_div by lia.
      apply Z.div_mod. lia. }
    assert (0 <= e / 2 ^ Z.of_nat (S n)) by (apply Z.div_pos; [lia|apply pow2_pos; lia]).
    rewrite Z.pow_add_r, (Z.mul_comm 2), Z.pow_mul_r by (destruct (Z.testbit e (Z.of_nat n)); cbn; lia).
    destruct (Z.testbit e (Z.of_nat n)); cbn [Z.b2z]; by rewrite ?Z.pow_1_r, ?Z.pow_0_r. }
  apply (H 255%nat); [done|]. rewrite Z.div_small by (cbn; lia). split; [|done]. unfold tight, limbs. cbn. lia.
Qed.

Lemma invert_stands f x : sum f x -> stands (invert f) (x ^ (P - 2)).
Proof. intros Hf. by apply (pow_stands f x P_MINUS_2); [|repeat constructor| |]. Qed.

(** ** The ladder *)
Definition points (x_2 z_2 x_3 z_3 : t) (p : Z * Z * Z * Z) : Prop :=
  let '(a, b, c, d) := p in stands x_2 a /\ stands z_2 b /\ stands x_3 c /\ stands z_3 d.

(** The points of the code are those of the RFC, exchanged while a swap is due. *)
Definition agrees (s : Ladder) (p : Z * Z * Z * Z) : Prop :=
  exists c : bool, swap s = (if c then 1 else 0) /\ points (x_2 s) (z_2 s) (x_3 s) (z_3 s) (Rfc7748.cswap c p).

Lemma double_add_stands x_1 u x_2 z_2 x_3 z_3 p : stands x_1 u -> points x_2 z_2 x_3 z_3 p ->
  let aa := square (add x_2 z_2) in
  let bb := square (sub x_2 z_2) in
  let e := sub aa bb in
  let da := mul (sub x_3 z_3) (add x_2 z_2) in
  let cb := mul (add x_3 z_3) (sub x_2 z_2) in
  points (mul aa bb) (mul e (add bb (mul_small e 121666))) (square (add da cb)) (mul x_1 (square (sub da cb))) (Rfc7748.double_add u p).
Proof.
  destruct p as [[[a b] c] d]. intros Hu (Ha & Hb & Hc & Hd). cbv zeta.
  pose proof (square_stands _ _ (add_stands _ _ _ _ Ha Hb)) as Haa. pose proof (square_stands _ _ (sub_stands _ _ _ _ Ha Hb)) as Hbb.
  pose proof (sub_stands _ _ _ _ Haa Hbb) as He.
  pose proof (mul_stands _ _ _ _ (sub_stands _ _ _ _ Hc Hd) (add_stands _ _ _ _ Ha Hb)) as Hda.
  pose proof (mul_stands _ _ _ _ (add_stands _ _ _ _ Hc Hd) (sub_stands _ _ _ _ Ha Hb)) as Hcb.
  pose proof (mul_small_stands _ _ 121666 He ltac:(lia)) as Hm.
  unfold points, Rfc7748.double_add. split_all; eapply stands_eqm; try (symmetry; apply eqm_mod).
  - by apply mul_stands; apply stands_sum.
  - eapply stands_eqm; [apply mul_stands; [exact He|apply (add_stands _ _ _ _ Hbb Hm)]|]. unfold Rfc7748.a24, eqm. f_equal. ring.
  - by apply square_stands, add_stands.
  - apply mul_stands; apply stands_sum; [done|]. by apply square_stands, sub_stands.
Qed.

Lemma points_loose x_2 z_2 x_3 z_3 p : points x_2 z_2 x_3 z_3 p -> loose x_2 /\ loose z_2 /\ loose x_3 /\ loose z_3.
Proof. destruct p as [[[a b] c] d]. intros (Ha & Hb & Hc & Hd). split_all; apply tight_loose; [apply Ha|apply Hb|apply Hc|apply Hd]. Qed.

Lemma step_agrees scalar x_1 u s p i : bytes scalar -> 0 <= i < 8 * Z.of_nat (length scalar) -> stands x_1 u -> agrees s p ->
  agrees (step scalar x_1 s i)
    (let k_t := Z.testbit (le_value scalar) i in Rfc7748.cswap k_t (Rfc7748.double_add u (Rfc7748.cswap k_t p))).
Proof.
  intros Hb Hi Hu (c & Hc & Hp). destruct (points_loose _ _ _ _ _ Hp) as (L1 & L2 & L3 & L4). unfold step. rewrite bit_spec, Hc by done. set (k := Z.testbit _ _).
  replace (Z.lxor (if c then 1 else 0) (if k then 1 else 0)) with (if xorb c k then 1 else 0) by by destruct c, k.
  rewrite !cswap_spec by done. exists k. cbv zeta.
  assert (forall q, Rfc7748.cswap k (Rfc7748.cswap k q) = q) as -> by (intros [[[? ?] ?] ?]; by destruct k).
  destruct (xorb c k) eqn:Hx; cbn [swap X25519.x_2 X25519.z_2 X25519.x_3 X25519.z_3]; split; try done; apply double_add_stands; try done;
    destruct p as [[[pa pb] pc] pd], c, k; try done; destruct Hp as (? & ? & ? & ?); done.
Qed.

Lemma quotient_bytes x z a b : stands x a -> stands z b -> to_bytes (mul x (invert z)) = le_bytes 32 ((a * b ^ (P - 2)) mod P).
Proof.
  intros Ha Hb. destruct (mul_stands x (invert z) a (b ^ (P - 2))) as [Ht Hv]; [by apply stands_sum|by apply stands_sum, invert_stands, stands_sum|].
  by rewrite to_bytes_value, Hv.
Qed.

Lemma x25519_exact k u : bytes k -> length k = 32%nat -> bytes u -> length u = 32%nat ->
  x25519 k u = le_bytes 32 (Rfc7748.X25519 (Rfc7748.decodeScalar25519 k) (Rfc7748.decodeUCoordinate u)).
Proof.
  intros Hk Hlk Hu Hlu. destruct (clamp_value k Hk Hlk) as (Hc & Hlc & <-). destruct (from_bytes_value u Hu Hlu) as [Hl Hv].
  set (x1 := from_bytes u) in *. assert (stands x1 (Rfc7748.decodeUCoordinate u)) as H1.
  { split; [unfold tight, limbs in *; lia|]. by rewrite Hv. }
  assert (agrees (mkLadder ONE ZERO x1 ONE 0) (1, 0, Rfc7748.decodeUCoordinate u, 1)) as Hs.
  { exists false. split; [done|]. cbn. split_all; try done; (split; [unfold tight, limbs; cbn; lia|done]). }
  unfold x25519, Rfc7748.X25519, Rfc7748.ladder. cbv zeta. fold x1.
  assert (Forall (fun i => 0 <= i < 8 * Z.of_nat (length (clamp k))) (reverse (seqZ 0 255))) as Hi.
  { rewrite Hlc. apply Forall_reverse, Forall_forall. intros i Hi%elem_of_seqZ. lia. }
  revert Hs. generalize (mkLadder ONE ZERO x1 ONE 0) (1, 0, Rfc7748.decodeUCoordinate u, 1). 
  induction Hi as [|i l Hi _ IH]; intros s p Hs; cbn [foldl]; [|by apply IH, step_agrees].
  destruct Hs as (c & -> & Hp). destruct (points_loose _ _ _ _ _ Hp) as (L1 & L2 & L3 & L4). rewrite !cswap_spec by done.
  destruct p as [[[pa pb] pc] pd]. destruct c, Hp as (? & ? & ? & ?); by apply quotient_bytes.
Qed.

(** C32. X25519 is the function of RFC 7748: for every private scalar and every
    coordinate of 32 bytes, the limb arithmetic of the kernel never overflows and
    gives the bytes of the result that the RFC defines modulo 2^255 - 19. *)
Theorem x25519_follows_rfc7748 k u : bytes k -> length k = 32%nat -> bytes u -> length u = 32%nat ->
  x25519 k u = le_bytes 32 (Rfc7748.X25519 (Rfc7748.decodeScalar25519 k) (Rfc7748.decodeUCoordinate u)).
Proof. apply x25519_exact. Qed.

Lemma x25519_follows_rfc7748_witness :
  x25519 (replicate 32 7) X25519_BASEPOINT = le_bytes 32 (Rfc7748.X25519 (Rfc7748.decodeScalar25519 (replicate 32 7)) 9).
Proof.
  apply (x25519_follows_rfc7748 (replicate 32 7) X25519_BASEPOINT); [by repeat constructor|done|by repeat constructor|done].
Defined.

End CurveRuns.
