(* ===== verification/Aead.v ===== *)
(** * ChaCha20-Poly1305 (src/kernel/src/network/crypto.rs, the record cipher)

    The stream cipher, the authenticator in limbs of 26 bits and their
    combination, at the widths of the source. Keys, nonces and tags are arrays of
    fixed length, so constant indices into them are total. *)

From S2P Require Import Prelude Limbs.

(** ** The stream cipher *)
Module ChaCha20.

Definition rotate_left (x n : Z) : Z := Z.lor (wrap 32 (Z.shiftl x n)) (Z.shiftr x (32 - n)).

(** One line of [quarter_round]:
    [s[a] = s[a].wrapping_add(s[b]); s[d] ^= s[a]; s[d] = s[d].rotate_left(n)]. *)
Definition mix (n : Z) (a b d : nat) (s : list Z) : list Z :=
  let s := <[a := u32_add (s !!! a) (s !!! b)]> s in
  let s := <[d := Z.lxor (s !!! d) (s !!! a)]> s in
  <[d := rotate_left (s !!! d) n]> s.

Definition quarter_round (a b c d : nat) (s : list Z) : list Z :=
  let s := mix 16 a b d s in
  let s := mix 12 c d b s in
  let s := mix 8 a b d s in
  mix 7 c d b s.

Definition word (bs : list Z) (i : nat) : Z := le_value (take 4 (drop (4 * i) bs)).

Definition initial_state (key : list Z) (counter : Z) (nonce : list Z) : list Z :=
  [0x61707865; 0x3320646e; 0x79622d32; 0x6b206574] ++ (word key <$> seq 0 8) ++ [counter] ++ (word nonce <$> seq 0 3).

Definition double_round (s : list Z) : list Z :=
  let s := quarter_round 0 4 8 12 s in
  let s := quarter_round 1 5 9 13 s in
  let s := quarter_round 2 6 10 14 s in
  let s := quarter_round 3 7 11 15 s in
  let s := quarter_round 0 5 10 15 s in
  let s := quarter_round 1 6 11 12 s in
  let s := quarter_round 2 7 8 13 s in
  quarter_round 3 4 9 14 s.

Definition chacha20_block (key : list Z) (counter : Z) (nonce : list Z) : list Z :=
  let initial := initial_state key counter nonce in
  let state := Nat.iter 10 double_round initial in
  let state := zip_with u32_add state initial in
  mjoin (le_bytes 4 <$> state).

(** [while offset < data.len()]: each round takes at least one byte. *)
Fixpoint xor_loop (fuel : nat) (key : list Z) (ctr : Z) (nonce : list Z) (offset : Z) (data : list Z) : exec (list Z) :=
  let len := Z.of_nat (length data) in
  if offset <? len then
    match fuel with
    | O => Diverged
    | S fuel' =>
        let block := chacha20_block key ctr nonce in
        let remaining := len - offset in
        let chunk := Z.min remaining 64 in
        part ← slice_get data offset (offset + chunk);
        stream ← slice_get block 0 chunk;
        data ← slice_set data offset (offset + chunk) (zip_with Z.lxor part stream);
        xor_loop fuel' key (u32_add ctr 1) nonce (offset + chunk) data
    end
  else Done data.

Definition chacha20_xor (key : list Z) (counter : Z) (nonce data : list Z) : exec (list Z) :=
  xor_loop (length data) key counter nonce 0 data.

End ChaCha20.

(** ** The authenticator *)
Module Poly1305.
Import Limbs.

(** Five limbs of 26 bits ([[u32; 5]]). *)
Record Limbs5 := L5 { l0 : Z; l1 : Z; l2 : Z; l3 : Z; l4 : Z }.

Definition MASK26 : Z := 0x3ffffff.

Definition u32_mul (a b : Z) : Z := wrap 32 (a * b).
Definition shl32 (a k : Z) : Z := wrap 32 (Z.shiftl a k).

Definition clamp_r (key : list Z) : Limbs5 :=
  let t0 := ChaCha20.word key 0 in
  let t1 := ChaCha20.word key 1 in
  let t2 := ChaCha20.word key 2 in
  let t3 := ChaCha20.word key 3 in
  L5 (Z.land t0 0x3ffffff)
     (Z.land (Z.lor (Z.shiftr t0 26) (shl32 t1 6)) 0x3ffff03)
     (Z.land (Z.lor (Z.shiftr t1 20) (shl32 t2 12)) 0x3ffc0ff)
     (Z.land (Z.lor (Z.shiftr t2 14) (shl32 t3 18)) 0x3f03fff)
     (Z.land (Z.shiftr t3 8) 0x00fffff).

(** The block at [i] is decoded into limbs and added to [h]. *)
Definition add_block (h : Limbs5) (chunk : list Z) : Limbs5 :=
  let block_len := length chunk in
  let block := chunk ++ [1] ++ replicate (16 - block_len) 0 in
  let hibit := if Nat.eqb block_len 16 then 2 ^ 24 else 0 in
  let t0 := ChaCha20.word block 0 in
  let t1 := ChaCha20.word block 1 in
  let t2 := ChaCha20.word block 2 in
  let t3 := ChaCha20.word block 3 in
  L5 (u32_add (l0 h) (Z.land t0 0x3ffffff))
     (u32_add (l1 h) (Z.land (Z.lor (Z.shiftr t0 26) (shl32 t1 6)) 0x3ffffff))
     (u32_add (l2 h) (Z.land (Z.lor (Z.shiftr t1 20) (shl32 t2 12)) 0x3ffffff))
     (u32_add (l3 h) (Z.land (Z.lor (Z.shiftr t2 14) (shl32 t3 18)) 0x3ffffff))
     (u32_add (l4 h) (Z.lor (Z.shiftr t3 8) hibit)).

(** [d as u32 & 0x3ffffff]. *)
Definition low26 (d : Z) : Z := Z.land (wrap 32 d) MASK26.

(** [h = h * r mod 2^130 - 5], with the carries. *)
Definition mul_r (h r : Limbs5) : Limbs5 :=
  let '(L5 h0 h1 h2 h3 h4) := h in
  let '(L5 r0 r1 r2 r3 r4) := r in
  let s1 := u32_mul r1 5 in
  let s2 := u32_mul r2 5 in
  let s3 := u32_mul r3 5 in
  let s4 := u32_mul r4 5 in
  let d0 := dot 64 h0 r0 h1 s4 h2 s3 h3 s2 h4 s1 in
  let d1 := dot 64 h0 r1 h1 r0 h2 s4 h3 s3 h4 s2 in
  let d2 := dot 64 h0 r2 h1 r1 h2 r0 h3 s4 h4 s3 in
  let d3 := dot 64 h0 r3 h1 r2 h2 r1 h3 r0 h4 s4 in
  let d4 := dot 64 h0 r4 h1 r3 h2 r2 h3 r1 h4 r0 in
  let c := Z.shiftr d0 26 in let h0 := low26 d0 in let d1 := u64_add d1 c in
  let c := Z.shiftr d1 26 in let h1 := low26 d1 in let d2 := u64_add d2 c in
  let c := Z.shiftr d2 26 in let h2 := low26 d2 in let d3 := u64_add d3 c in
  let c := Z.shiftr d3 26 in let h3 := low26 d3 in let d4 := u64_add d4 c in
  let c := Z.shiftr d4 26 in let h4 := low26 d4 in
  let h0 := u32_add h0 (u32_mul (wrap 32 c) 5) in
  let c := Z.shiftr h0 26 in let h0 := Z.land h0 MASK26 in
  L5 h0 (u32_add h1 (wrap 32 c)) h2 h3 h4.

(** [while i < msg.len()]. *)
Fixpoint mac_loop (fuel : nat) (r : Limbs5) (msg : list Z) (i : Z) (h : Limbs5) : exec Limbs5 :=
  let len := Z.of_nat (length msg) in
  if i <? len then
    match fuel with
    | O => Diverged
    | S fuel' =>
        let block_end := Z.min (i + 16) len in
        chunk ← slice_get msg i block_end;
        mac_loop fuel' r msg (i + 16) (mul_r (add_block h chunk) r)
    end
  else Done h.

(** The final carries. *)
Definition carry_h (h : Limbs5) : Limbs5 :=
  let '(L5 h0 h1 h2 h3 h4) := h in
  let c := Z.shiftr h1 26 in let h1 := Z.land h1 MASK26 in let h2 := u32_add h2 c in
  let c := Z.shiftr h2 26 in let h2 := Z.land h2 MASK26 in let h3 := u32_add h3 c in
  let c := Z.shiftr h3 26 in let h3 := Z.land h3 MASK26 in let h4 := u32_add h4 c in
  let c := Z.shiftr h4 26 in let h4 := Z.land h4 MASK26 in let h0 := u32_add h0 (u32_mul c 5) in
  let c := Z.shiftr h0 26 in let h0 := Z.land h0 MASK26 in
  L5 h0 (u32_add h1 c) h2 h3 h4.

(** [g = h + 5 - 2^130], chosen by the mask when it is not negative. The masks that
    the code computes and shadows are left out. *)
Definition select (h : Limbs5) : Limbs5 :=
  let '(L5 h0 h1 h2 h3 h4) := h in
  let g0 := u32_add h0 5 in let c := Z.shiftr g0 26 in let g0 := Z.land g0 MASK26 in
  let g1 := u32_add h1 c in let c := Z.shiftr g1 26 in let g1 := Z.land g1 MASK26 in
  let g2 := u32_add h2 c in let c := Z.shiftr g2 26 in let g2 := Z.land g2 MASK26 in
  let g3 := u32_add h3 c in let c := Z.shiftr g3 26 in let g3 := Z.land g3 MASK26 in
  let g4 := wrap 32 (u32_add h4 c - 2 ^ 26) in
  let mask := if negb (Z.land g4 (2 ^ 26) =? 0) then 0 else 0xFFFFFFFF in
  let pick h g := Z.lor (Z.land h (lnot_u 32 mask)) (Z.land g mask) in
  L5 (pick h0 g0) (pick h1 g1) (pick h2 g2) (pick h3 g3) (pick h4 g4).

(** The addition of four words with carries, as 16 bytes. *)
Definition add_words (f0 f1 f2 f3 s0 s1 s2 s3 : Z) : list Z :=
  let f0 := u64_add f0 s0 in
  let c := Z.shiftr f0 32 in let f0 := Z.land f0 0xFFFFFFFF in
  let f1 := u64_add (u64_add f1 s1) c in
  let c := Z.shiftr f1 32 in let f1 := Z.land f1 0xFFFFFFFF in
  let f2 := u64_add (u64_add f2 s2) c in
  let c := Z.shiftr f2 32 in let f2 := Z.land f2 0xFFFFFFFF in
  let f3 := u64_add (u64_add f3 s3) c in
  le_bytes 4 (wrap 32 f0) ++ le_bytes 4 (wrap 32 f1) ++ le_bytes 4 (wrap 32 f2) ++ le_bytes 4 (wrap 32 f3).

(** 128 bits of [h], plus the second half of the key. *)
Definition add_s (h : Limbs5) (key : list Z) : list Z :=
  let '(L5 h0 h1 h2 h3 h4) := h in
  let f0 := Z.lor h0 (shl32 h1 26) in
  let f1 := Z.lor (Z.shiftr h1 6) (shl32 h2 20) in
  let f2 := Z.lor (Z.shiftr h2 12) (shl32 h3 14) in
  let f3 := Z.lor (Z.shiftr h3 18) (shl32 h4 8) in
  add_words f0 f1 f2 f3 (ChaCha20.word key 4) (ChaCha20.word key 5) (ChaCha20.word key 6) (ChaCha20.word key 7).

Definition poly1305_mac (key msg : list Z) : exec (list Z) :=
  h ← mac_loop (length msg) (clamp_r key) msg 0 (L5 0 0 0 0 0);
  Done (add_s (select (carry_h h)) key).

End Poly1305.

(** ** Authenticated encryption *)
Module Aead.
Import ChaCha20 Poly1305.

Definition pad16 (bs : list Z) : list Z := replicate ((16 - length bs mod 16) mod 16) 0.

Definition build_poly1305_data (aad ciphertext : list Z) : list Z :=
  aad ++ pad16 aad ++ ciphertext ++ pad16 ciphertext ++ le_bytes 8 (Z.of_nat (length aad)) ++ le_bytes 8 (Z.of_nat (length ciphertext)).

Definition aead_encrypt (key nonce aad plaintext : list Z) : exec (list Z * list Z) :=
  let poly_key := take 32 (chacha20_block key 0 nonce) in
  ciphertext ← chacha20_xor key 1 nonce plaintext;
  tag ← poly1305_mac poly_key (build_poly1305_data aad ciphertext);
  Done (ciphertext, tag).

(** [diff |= expected_tag[i] ^ tag[i]] over the 16 bytes. *)
Definition tag_diff (expected_tag tag : list Z) : Z := foldl Z.lor 0 (zip_with Z.lxor expected_tag tag).

Definition aead_decrypt (key nonce aad ciphertext tag : list Z) : exec (option (list Z)) :=
  let poly_key := take 32 (chacha20_block key 0 nonce) in
  expected_tag ← poly1305_mac poly_key (build_poly1305_data aad ciphertext);
  if negb (tag_diff expected_tag tag =? 0) then Done None
  else
    plaintext ← chacha20_xor key 1 nonce ciphertext;
    Done (Some plaintext).

End Aead.
