(* ===== verification/AeadTheorems.v ===== *)
(** * The record cipher follows RFC 8439

    RFC 8439 in numbers, and one lemma per step of [poly1305_mac]: the
    authenticator is the polynomial of the RFC modulo 2^130 - 5 on every key and
    message. ChaCha20 adds one keystream, block by block; and sealing followed by
    opening gives the plaintext back, for the right tag only. *)

From S2P Require Import Prelude Limbs Aead.

(** ** The RFC *)
Module Rfc8439.

Definition P1305 : Z := 2 ^ 130 - 5.
Definition CLAMP : Z := 0x0ffffffc0ffffffc0ffffffc0fffffff.

Definition nth_block (msg : list Z) (i : Z) : list Z := take 16 (drop (Z.to_nat (16 * i)) msg).

Definition absorb (r : Z) (msg : list Z) (acc i : Z) : Z := (r * (acc + le_value (nth_block msg i ++ [1]))) mod P1305.

Definition accumulate (r : Z) (msg : list Z) : Z :=
  foldl (absorb r msg) 0 (seqZ 0 ((Z.of_nat (length msg) + 15) / 16)).

Definition poly1305 (key msg : list Z) : list Z :=
  let r := Z.land (le_value (take 16 key)) CLAMP in
  let s := le_value (take 16 (drop 16 key)) in
  le_bytes 16 (accumulate r msg + s).

End Rfc8439.

Module PolySpec.
Import Limbs Poly1305 Rfc8439.

Notation bytes := (Forall (fun b => 0 <= b < 256)).

(** ** Words and windows of a number *)
Lemma word_value bs i : bytes bs -> (4 * i <= length bs)%nat -> ChaCha20.word bs i = (le_value bs / 2 ^ (32 * Z.of_nat i)) mod 2 ^ 32.
Proof.
  intros Hb Hi. unfold ChaCha20.word. rewrite le_value_take by by apply Forall_drop. rewrite le_value_drop by done.
  f_equal. f_equal. f_equal. lia.
Qed.

Lemma word_seam a b k : in_u 32 a -> in_u 32 b -> 0 <= k <= 32 ->
  Z.lor (Z.shiftr a (32 - k)) (shl32 b k) = a / 2 ^ (32 - k) + 2 ^ k * (b mod 2 ^ (32 - k)).
Proof.
  intros Ha Hb Hk. unfold shl32, wrap. rewrite Z.shiftr_div_pow2, Z.shiftl_mul_pow2 by lia.
  replace (2 ^ 32) with (2 ^ (32 - k) * 2 ^ k) by (rewrite <- Z.pow_add_r by lia; f_equal; lia).
  rewrite Zmult_mod_distr_r, <- Z.shiftl_mul_pow2 by lia. rewrite shiftl_lor_add; [lia|lia|].
  split; [apply Z.div_pos; [apply Ha|apply pow2_pos; lia]|]. apply Z.div_lt_upper_bound; [apply pow2_pos; lia|].
  rewrite <- Z.pow_add_r by lia. replace (32 - k + k) with 32 by lia. apply Ha.
Qed.

(** Two neighbouring words give 32 bits from the middle of the first on. *)
Lemma word_window T j k : 0 <= j -> 0 <= k <= 32 ->
  Z.lor (Z.shiftr ((T / 2 ^ j) mod 2 ^ 32) (32 - k)) (shl32 ((T / 2 ^ (j + 32)) mod 2 ^ 32) k) = (T / 2 ^ (j + (32 - k))) mod 2 ^ 32.
Proof.
  intros Hj Hk. rewrite word_seam by (try lia; apply Z.mod_pos_bound; lia).
  rewrite !Z.pow_add_r, <- !Z.div_div by (pose proof (pow2_pos j Hj); pose proof (pow2_pos (32 - k) ltac:(lia)); lia).
  set (U := T / 2 ^ j). pose proof (mod_split (U / 2 ^ (32 - k)) k (32 - k)) as E. replace (k + (32 - k)) with 32 in E by lia. rewrite E by lia.
  replace (U / 2 ^ (32 - k) / 2 ^ k) with (U / 2 ^ 32).
  2: { pose proof (pow2_pos k ltac:(lia)). pose proof (pow2_pos (32 - k) ltac:(lia)). rewrite Z.div_div, <- Z.pow_add_r by lia. by replace (32 - k + k) with 32 by lia. }
  f_equal; [|f_equal; apply (wrap_mod 32); lia].
  pose proof (pow2_pos k ltac:(lia)). rewrite <- (window_mod U (32 - k) 32 k) by lia. symmetry. apply Z.mod_small.
  pose proof (Z.mod_pos_bound U (2 ^ 32)). split; [apply Z.div_pos; [lia|apply pow2_pos; lia]|].
  apply Z.div_lt_upper_bound; [apply pow2_pos; lia|]. rewrite <- Z.pow_add_r by lia. replace (32 - k + k) with 32 by lia. lia.
Qed.

Lemma testbit_split a b k n : 0 <= k -> 0 <= a < 2 ^ k -> 0 <= n ->
  Z.testbit (a + 2 ^ k * b) n = if n <? k then Z.testbit a n else Z.testbit b (n - k).
Proof.
  intros Hk Ha Hn. rewrite (Z.mul_comm (2 ^ k)), Z.add_comm, <- lor_shiftl_add, Z.lor_spec by done. destruct (n <? k) eqn:E.
  - apply Z.ltb_lt in E. by rewrite Z.shiftl_spec_low.
  - apply Z.ltb_ge in E. rewrite Z.shiftl_spec by lia. rewrite <- (Z.mod_small a (2 ^ k)) at 1 by done.
    rewrite Z.mod_pow2_bits_high by lia. apply orb_false_r.
Qed.

Lemma land_split a b c d k : 0 <= k -> 0 <= a < 2 ^ k -> 0 <= c < 2 ^ k ->
  Z.land (a + 2 ^ k * b) (c + 2 ^ k * d) = Z.land a c + 2 ^ k * Z.land b d.
Proof.
  intros Hk Ha Hc. assert (0 <= Z.land a c < 2 ^ k) by (apply land_range; unfold in_u; lia).
  apply Z.bits_inj'. intros n Hn. rewrite Z.land_spec, !testbit_split by done. by destruct (n <? k); rewrite Z.land_spec.
Qed.

Lemma land_window x m k : 0 <= k <= 32 -> 0 <= m < 2 ^ k -> Z.land (x mod 2 ^ 32) m = Z.land (x mod 2 ^ k) m.
Proof.
  intros Hk Hm. rewrite <- (Z.mod_small m (2 ^ k)) by done. rewrite <- !land_ones_mod by lia.
  apply Z.bits_inj'. intros n Hn. rewrite !Z.land_spec. change (2 ^ 32 - 1) with (Z.ones 32). replace (2 ^ k - 1) with (Z.ones k) by (rewrite Z.ones_equiv; lia).
  rewrite !Z.testbit_ones_nonneg by lia. destruct (n <? k) eqn:E, (n <? 32) eqn:E'; rewrite ?andb_true_r, ?andb_false_r; try done.
  apply Z.ltb_lt in E. apply Z.ltb_ge in E'. lia.
Qed.

(** ** Five limbs *)
Definition value (h : Limbs5) : Z := l0 h + 2 ^ 26 * l1 h + 2 ^ 52 * l2 h + 2 ^ 78 * l3 h + 2 ^ 104 * l4 h.

(** The limb of [T] at bit [k]. *)
Definition window (T k : Z) : Z := (T / 2 ^ k) mod 2 ^ 26.

Lemma window_range T k : 0 <= window T k < 2 ^ 26.
Proof. apply Z.mod_pos_bound. lia. Qed.

Lemma windows_sum T : in_u 128 T ->
  T = window T 0 + 2 ^ 26 * (window T 26 + 2 ^ 26 * (window T 52 + 2 ^ 26 * (window T 78 + 2 ^ 26 * window T 104))).
Proof.
  intros HT. unfold window. rewrite Z.pow_0_r, Z.div_1_r.
  pose proof (mod_split T 104 26) as E4. pose proof (mod_split T 78 26) as E3. pose proof (mod_split T 52 26) as E2. pose proof (mod_split T 26 26) as E1.
  change (104 + 26) with 130 in E4. change (78 + 26) with 104 in E3. change (52 + 26) with 78 in E2. change (26 + 26) with 52 in E1.
  rewrite <- (Z.mod_small T (2 ^ 130)) at 1 by (unfold in_u in HT; lia). rewrite E4, E3, E2, E1 by lia. lia.
Qed.

(** The limbs that [clamp_r] and [add_block] cut out of four words. *)
Definition cut (T m0 m1 m2 m3 : Z) : Z * Z * Z * Z :=
  (Z.land (window T 0) m0, Z.land (window T 26) m1, Z.land (window T 52) m2, Z.land (window T 78) m3).

Lemma cut_words bs m0 m1 m2 m3 : bytes bs -> (16 <= length bs)%nat ->
  0 <= m0 < 2 ^ 26 -> 0 <= m1 < 2 ^ 26 -> 0 <= m2 < 2 ^ 26 -> 0 <= m3 < 2 ^ 26 ->
  (Z.land (ChaCha20.word bs 0) m0,
   Z.land (Z.lor (Z.shiftr (ChaCha20.word bs 0) 26) (shl32 (ChaCha20.word bs 1) 6)) m1,
   Z.land (Z.lor (Z.shiftr (ChaCha20.word bs 1) 20) (shl32 (ChaCha20.word bs 2) 12)) m2,
   Z.land (Z.lor (Z.shiftr (ChaCha20.word bs 2) 14) (shl32 (ChaCha20.word bs 3) 18)) m3) = cut (le_value bs) m0 m1 m2 m3.
Proof.
  intros Hb Hl H0 H1 H2 H3. rewrite !word_value by (done || lia). set (T := le_value bs). unfold cut.
  pose proof (word_window T 0 6 ltac:(lia) ltac:(lia)) as W1. pose proof (word_window T 32 12 ltac:(lia) ltac:(lia)) as W2.
  pose proof (word_window T 64 18 ltac:(lia) ltac:(lia)) as W3.
  change (0 + 32) with 32 in W1. change (32 - 6) with 26 in W1. change (32 + 32) with 64 in W2. change (32 - 12) with 20 in W2.
  change (64 + 32) with 96 in W3. change (32 - 18) with 14 in W3.
  change (32 * Z.of_nat 0) with 0. change (32 * Z.of_nat 1) with 32. change (32 * Z.of_nat 2) with 64.
  change (32 * Z.of_nat 3) with 96. rewrite W1, W2, W3.
  rewrite !(land_window _ _ 26) by (done || lia). done.
Qed.

Lemma window_top bs : bytes bs -> length bs = 16%nat -> Z.shiftr (ChaCha20.word bs 3) 8 = window (le_value bs) 104 /\ window (le_value bs) 104 < 2 ^ 24.
Proof.
  intros Hb Hl. rewrite word_value by (done || lia). pose proof (le_value_range bs Hb) as Hr. rewrite Hl in Hr.
  change (32 * Z.of_nat 3) with 96. change (8 * Z.of_nat 16) with 128 in Hr. set (T := le_value bs) in *. unfold window.
  rewrite Z.shiftr_div_pow2 by lia. assert (T / 2 ^ 96 < 2 ^ 32) by (apply Z.div_lt_upper_bound; lia).
  assert (T / 2 ^ 104 < 2 ^ 24) by (apply Z.div_lt_upper_bound; lia). pose proof (Z.div_pos T (2 ^ 96)). pose proof (Z.div_pos T (2 ^ 104)).
  rewrite !Z.mod_small by lia. rewrite Z.div_div by lia. done.
Qed.

Lemma clamp_r_value key : bytes key -> (16 <= length key)%nat ->
  value (clamp_r key) = Z.land (le_value (take 16 key)) CLAMP /\
  0 <= l0 (clamp_r key) < 2 ^ 26 /\ 0 <= l1 (clamp_r key) < 2 ^ 26 /\ 0 <= l2 (clamp_r key) < 2 ^ 26 /\
  0 <= l3 (clamp_r key) < 2 ^ 26 /\ 0 <= l4 (clamp_r key) < 2 ^ 20.
Proof.
  intros Hb Hl. set (bs := take 16 key). assert (bytes bs) as Hbs by by apply Forall_take.
  assert (length bs = 16%nat) as Hlb by (unfold bs; rewrite length_take; lia).
  assert (forall i, (i < 4)%nat -> ChaCha20.word key i = ChaCha20.word bs i) as Hw.
  { intros i Hi. unfold ChaCha20.word, bs. rewrite skipn_firstn_comm, take_take. f_equal. f_equal. lia. }
  unfold clamp_r. rewrite !Hw by lia. pose proof (cut_words bs 0x3ffffff 0x3ffff03 0x3ffc0ff 0x3f03fff Hbs ltac:(lia) ltac:(lia) ltac:(lia) ltac:(lia) ltac:(lia)) as Hc.
  injection Hc as -> -> -> ->. destruct (window_top bs Hbs Hlb) as [-> Ht].
  pose proof (le_value_range bs Hbs) as Hr. rewrite Hlb in Hr. change (8 * Z.of_nat 16) with 128 in Hr. set (T := le_value bs) in *.
  split.
  - unfold value. cbn [l0 l1 l2 l3 l4]. rewrite (windows_sum T Hr) at 6.
    change CLAMP with (0x3ffffff + 2 ^ 26 * (0x3ffff03 + 2 ^ 26 * (0x3ffc0ff + 2 ^ 26 * (0x3f03fff + 2 ^ 26 * 0xfffff)))).
    rewrite !land_split by (try lia; apply window_range). lia.
  - cbn [l0 l1 l2 l3 l4]. split_all; try (apply (land_range 26 (window T _)); [lia|apply window_range|unfold in_u; lia]).
    all: apply (land_range 20 (window T _)); [lia|apply window_range|unfold in_u; lia].
Qed.

(** Between blocks the limbs have 26 bits, the second one a little more. *)
Definition carried (h : Limbs5) : Prop :=
  0 <= l0 h < 2 ^ 26 /\ 0 <= l1 h <= 2 ^ 26 + 64 /\ 0 <= l2 h < 2 ^ 26 /\ 0 <= l3 h < 2 ^ 26 /\ 0 <= l4 h < 2 ^ 26.

Definition wide (h : Limbs5) : Prop :=
  0 <= l0 h <= 2 ^ 27 + 64 /\ 0 <= l1 h <= 2 ^ 27 + 64 /\ 0 <= l2 h <= 2 ^ 27 + 64 /\ 0 <= l3 h <= 2 ^ 27 + 64 /\ 0 <= l4 h <= 2 ^ 27 + 64.

Lemma land_mask26 x : 0 <= x < 2 ^ 26 -> Z.land x 0x3ffffff = x.
Proof. intros Hx. rewrite (mask_mod x 26) by done. by apply Z.mod_small. Qed.

Lemma lor_hibit x : 0 <= x < 2 ^ 24 -> Z.lor x (2 ^ 24) = x + 2 ^ 24.
Proof. intros Hx. change (2 ^ 24) with (Z.shiftl 1 24) at 1. rewrite shiftl_lor_add by lia. lia. Qed.

(** The number of a block: the high bit stands for a 1 behind 16 bytes. *)
Lemma block_number chunk : bytes chunk -> (length chunk <= 16)%nat ->
  le_value (chunk ++ [1]) = le_value (take 16 (chunk ++ [1] ++ replicate (16 - length chunk) 0)) + (if Nat.eqb (length chunk) 16 then 2 ^ 128 else 0).
Proof.
  intros Hb Hl. destruct (Nat.eqb_spec (length chunk) 16) as [E|E].
  - rewrite take_app_le, take_ge by lia. rewrite le_value_app, E. cbn [le_value]. lia.
  - rewrite app_assoc, take_app. rewrite (take_ge (chunk ++ [1])) by (rewrite length_app; cbn; lia). rewrite take_replicate.
    rewrite (le_value_app (chunk ++ [1])), le_value_zeros. lia.
Qed.

Lemma add_block_value h chunk : carried h -> bytes chunk -> (length chunk <= 16)%nat ->
  wide (add_block h chunk) /\ value (add_block h chunk) = value h + le_value (chunk ++ [1]).
Proof.
  intros Hh Hb Hl. rewrite (block_number chunk) by done. unfold add_block. set (block := chunk ++ [1] ++ _). set (bs := take 16 block).
  assert (bytes bs) as Hbs. { apply Forall_take, Forall_app_2; [done|]. apply Forall_app_2; [by repeat constructor|]. by apply Forall_replicate. }
  assert (length bs = 16%nat) as Hlb. { unfold bs, block. rewrite length_take, !length_app, length_replicate. cbn [length]. lia. }
  assert (forall i, (i < 4)%nat -> ChaCha20.word block i = ChaCha20.word bs i) as Hw.
  { intros i Hi. unfold ChaCha20.word, bs. rewrite skipn_firstn_comm, take_take. f_equal. f_equal. lia. }
  rewrite !Hw by lia.
  pose proof (cut_words bs 0x3ffffff 0x3ffffff 0x3ffffff 0x3ffffff Hbs ltac:(lia) ltac:(lia) ltac:(lia) ltac:(lia) ltac:(lia)) as Hc.
  injection Hc as -> -> -> ->. destruct (window_top bs Hbs Hlb) as [-> Ht].
  pose proof (le_value_range bs Hbs) as Hr. rewrite Hlb in Hr. change (8 * Z.of_nat 16) with 128 in Hr. set (T := le_value bs) in *.
  rewrite !land_mask26 by apply window_range. pose proof (window_range T 0). pose proof (window_range T 26). pose proof (window_range T 52).
  pose proof (window_range T 78). pose proof (window_range T 104). pose proof (windows_sum T Hr) as HT. unfold carried in Hh.
  destruct (Nat.eqb (length chunk) 16); rewrite ?lor_hibit, ?Z.lor_0_r by lia; rewrite !u32_add_small by lia;
    unfold wide, value; cbn [l0 l1 l2 l3 l4]; lia.
Qed.

(** ** Multiplication by the key *)
Lemma split26 z : 0 <= z -> exists q r, Z.shiftr z 26 = q /\ Z.land z MASK26 = r /\ z = 2 ^ 26 * q + r /\ 0 <= r < 2 ^ 26 /\ 0 <= q.
Proof.
  intros Hz. exists (z / 2 ^ 26), (z mod 2 ^ 26). rewrite Z.shiftr_div_pow2 by lia. split; [done|].
  split; [by apply mask_mod|]. split; [apply Z.div_mod; lia|]. split; [apply Z.mod_pos_bound; lia|]. apply Z.div_pos; lia.
Qed.

Lemma low26_land z : low26 z = Z.land z MASK26.
Proof. unfold low26. rewrite !(mask_mod _ 26) by done. by apply wrap_mod. Qed.

Ltac carry26 z q r :=
  let H1 := fresh in let H2 := fresh in
  destruct (split26 z) as (q & r & H1 & H2 & ? & ? & ?); [lia|rewrite ?low26_land, ?H1, ?H2; clear H1 H2].

Lemma poly_fold_mod a b q : a = b - P1305 * q -> a mod P1305 = b mod P1305.
Proof. intros ->. rewrite <- (Z.mod_add (b - P1305 * q) q P1305) by done. f_equal. lia. Qed.

Lemma mul_r_dot a0 b0 a1 b1 a2 b2 a3 b3 a4 b4 B0 B1 B2 B3 B4 : 
  0 <= a0 <= 2 ^ 27 + 64 -> 0 <= a1 <= 2 ^ 27 + 64 -> 0 <= a2 <= 2 ^ 27 + 64 -> 0 <= a3 <= 2 ^ 27 + 64 -> 0 <= a4 <= 2 ^ 27 + 64 ->
  0 <= b0 <= B0 -> 0 <= b1 <= B1 -> 0 <= b2 <= B2 -> 0 <= b3 <= B3 -> 0 <= b4 <= B4 ->
  B0 + B1 + B2 + B3 + B4 <= 21 * 2 ^ 26 ->
  exists d, dot 64 a0 b0 a1 b1 a2 b2 a3 b3 a4 b4 = d /\ d = a0 * b0 + a1 * b1 + a2 * b2 + a3 * b3 + a4 * b4 /\
    0 <= d <= (2 ^ 27 + 64) * (B0 + B1 + B2 + B3 + B4).
Proof.
  intros. eexists. split; [reflexivity|]. destruct (dot_exact 64 a0 b0 a1 b1 a2 b2 a3 b3 a4 b4 (2 ^ 27 + 64) B0 B1 B2 B3 B4) as [-> ?]; [lia..|].
  done.
Qed.

Definition clamped (r : Limbs5) : Prop :=
  0 <= l0 r < 2 ^ 26 /\ 0 <= l1 r < 2 ^ 26 /\ 0 <= l2 r < 2 ^ 26 /\ 0 <= l3 r < 2 ^ 26 /\ 0 <= l4 r < 2 ^ 20.

Lemma u32_mul_small a b : 0 <= a * b < 2 ^ 32 -> u32_mul a b = a * b.
Proof. apply wrap_small. Qed.

Lemma mul_r_value h r : wide h -> clamped r -> carried (mul_r h r) /\ value (mul_r h r) mod P1305 = (value r * value h) mod P1305.
Proof.
  destruct h as [a0 a1 a2 a3 a4], r as [b0 b1 b2 b3 b4]. unfold wide, clamped. cbn [l0 l1 l2 l3 l4].
  intros (Ha0 & Ha1 & Ha2 & Ha3 & Ha4) (Hb0 & Hb1 & Hb2 & Hb3 & Hb4). unfold mul_r. rewrite !(u32_mul_small _ 5) by lia.
  set (M := 2 ^ 26) in *. set (N := 5 * 2 ^ 26).
  destruct (mul_r_dot a0 b0 a1 (b4 * 5) a2 (b3 * 5) a3 (b2 * 5) a4 (b1 * 5) M N N N N) as (d0 & -> & E0 & R0); [lia..|].
  destruct (mul_r_dot a0 b1 a1 b0 a2 (b4 * 5) a3 (b3 * 5) a4 (b2 * 5) M M N N N) as (d1 & -> & E1 & R1); [lia..|].
  destruct (mul_r_dot a0 b2 a1 b1 a2 b0 a3 (b4 * 5) a4 (b3 * 5) M M M N N) as (d2 & -> & E2 & R2); [lia..|].
  destruct (mul_r_dot a0 b3 a1 b2 a2 b1 a3 b0 a4 (b4 * 5) M M M M N) as (d3 & -> & E3 & R3); [lia..|].
  destruct (mul_r_dot a0 b4 a1 b3 a2 b2 a3 b1 a4 b0 (2 ^ 20) M M M M) as (d4 & -> & E4 & R4); [lia..|].
  subst M N. carry26 d0 q0 r0. rewrite (u64_add_small d1) by lia. carry26 (d1 + q0) q1 r1. rewrite (u64_add_small d2) by lia.
  carry26 (d2 + q1) q2 r2. rewrite (u64_add_small d3) by lia. carry26 (d3 + q2) q3 r3. rewrite (u64_add_small d4) by lia.
  carry26 (d4 + q3) q4 r4. rewrite (wrap_small 32 q4) by lia. rewrite u32_mul_small, (u32_add_small r0) by lia.
  carry26 (r0 + q4 * 5) q5 s0. rewrite (wrap_small 32 q5), (u32_add_small r1) by lia.
  split; [unfold carried; cbn [l0 l1 l2 l3 l4]; lia|].
  apply (poly_fold_mod _ _ (q4 + (a1 * b4 + a2 * b3 + a3 * b2 + a4 * b1) + 2 ^ 26 * (a2 * b4 + a3 * b3 + a4 * b2)
                       + 2 ^ 52 * (a3 * b4 + a4 * b3) + 2 ^ 78 * (a4 * b4))).
  unfold value, P1305. cbn [l0 l1 l2 l3 l4]. lia.
Qed.

Lemma absorb_value h r chunk acc : carried h -> clamped r -> bytes chunk -> (length chunk <= 16)%nat -> value h mod P1305 = acc mod P1305 ->
  carried (mul_r (add_block h chunk) r) /\
  value (mul_r (add_block h chunk) r) mod P1305 = (value r * (acc + le_value (chunk ++ [1]))) mod P1305.
Proof.
  intros Hh Hr Hb Hl Hv. destruct (add_block_value h chunk Hh Hb Hl) as [Hw Ha]. destruct (mul_r_value _ r Hw Hr) as [Hc Hm].
  split; [done|]. rewrite Hm, Ha. rewrite Z.mul_mod, (Z.add_mod (value h)), Hv, <- Z.add_mod, <- Z.mul_mod by done. done.
Qed.

(** ** All blocks *)
Lemma mac_loop_value r msg : bytes msg -> clamped r -> forall m fuel j h acc, (m <= fuel)%nat -> 0 <= j ->
  16 * (j + Z.of_nat m) - 16 < Z.of_nat (length msg) \/ m = O -> Z.of_nat (length msg) <= 16 * (j + Z.of_nat m) ->
  carried h -> value h mod P1305 = acc mod P1305 ->
  returns (mac_loop fuel r msg (16 * j) h) (fun h' => carried h' /\
    value h' mod P1305 = foldl (absorb (value r) msg) acc (seqZ j (Z.of_nat m)) mod P1305).
Proof.
  intros Hb Hr. induction m as [|m IH]; intros fuel j h acc Hf Hj Hlo Hhi Hh Hv.
  - destruct fuel; cbn [mac_loop]; rewrite (proj2 (Z.ltb_ge _ _)) by lia; by apply returns_done.
  - destruct fuel as [|fuel]; [lia|]. cbn [mac_loop]. rewrite (proj2 (Z.ltb_lt _ _)) by lia.
    unfold slice_get. rewrite decide_True by lia. exec_simpl. replace (16 * j + 16) with (16 * (j + 1)) by lia.
    assert (take (Z.to_nat (Z.min (16 * (j + 1)) (Z.of_nat (length msg)) - 16 * j)) (drop (Z.to_nat (16 * j)) msg) = nth_block msg j) as ->.
    { unfold nth_block. destruct (decide (16 * (j + 1) <= Z.of_nat (length msg))).
      - rewrite Z.min_l by lia. by replace (16 * (j + 1) - 16 * j) with 16 by lia.
      - rewrite !take_ge; [done|rewrite length_drop; lia..]. }
    assert (bytes (nth_block msg j)) as Hbj by by apply Forall_take, Forall_drop.
    assert (length (nth_block msg j) <= 16)%nat as Hlj by (unfold nth_block; rewrite length_take; lia).
    destruct (absorb_value h r (nth_block msg j) acc) as [Hc Hv']; try done.
    rewrite seqZ_cons by lia. replace (Z.pred (Z.of_nat (S m))) with (Z.of_nat m) by lia. rewrite <- Z.add_1_r. cbn [foldl].
    apply IH; try done; try lia. unfold absorb at 1. rewrite Z.mod_mod by done. exact Hv'.
Qed.

(** ** The end *)
Definition packed (h : Limbs5) : Prop :=
  0 <= l0 h < 2 ^ 26 /\ 0 <= l1 h < 2 ^ 26 /\ 0 <= l2 h < 2 ^ 26 /\ 0 <= l3 h < 2 ^ 26 /\ 0 <= l4 h < 2 ^ 26.

Lemma carry_h_value h : carried h -> packed (carry_h h) /\ value (carry_h h) mod P1305 = value h mod P1305.
Proof.
  destruct h as [a0 a1 a2 a3 a4]. unfold carried. cbn [l0 l1 l2 l3 l4]. intros H. unfold carry_h.
  carry26 a1 q1 r1. rewrite (u32_add_small a2) by lia. carry26 (a2 + q1) q2 r2. rewrite (u32_add_small a3) by lia.
  carry26 (a3 + q2) q3 r3. rewrite (u32_add_small a4) by lia. carry26 (a4 + q3) q4 r4. rewrite u32_mul_small, (u32_add_small a0) by lia.
  carry26 (a0 + q4 * 5) q0 r0. rewrite (u32_add_small r1) by lia.
  split; [unfold packed; cbn [l0 l1 l2 l3 l4]; lia|]. apply (poly_fold_mod _ _ q4). unfold value, P1305. cbn [l0 l1 l2 l3 l4]. lia.
Qed.

Lemma land_all x : in_u 32 x -> Z.land x 0xFFFFFFFF = x.
Proof. intros Hx. rewrite (mask_mod x 32) by done. by apply Z.mod_small. Qed.

Lemma select_value h : packed h -> packed (select h) /\ value (select h) = value h mod P1305.
Proof.
  destruct h as [a0 a1 a2 a3 a4]. unfold packed. cbn [l0 l1 l2 l3 l4]. intros H. unfold select. rewrite (u32_add_small a0) by lia.
  carry26 (a0 + 5) q0 r0. rewrite (u32_add_small a1) by lia. carry26 (a1 + q0) q1 r1. rewrite (u32_add_small a2) by lia.
  carry26 (a2 + q1) q2 r2. rewrite (u32_add_small a3) by lia. carry26 (a3 + q2) q3 r3. rewrite (u32_add_small a4) by lia.
  destruct (decide (a4 + q3 < 2 ^ 26)) as [Hlt|Hge].
  - assert (wrap 32 (a4 + q3 - 2 ^ 26) = 2 ^ 26 * 63 + (a4 + q3)) as ->.
    { unfold wrap. symmetry. apply (Z.mod_unique_pos _ _ (-1)); lia. }
    assert (Z.land (2 ^ 26 * 63 + (a4 + q3)) (2 ^ 26) <> 0) as Hb.
    { intros E. apply (f_equal (fun x => Z.testbit x 26)) in E. revert E. rewrite Z.add_comm, Z.land_spec, testbit_split by lia. done. }
    rewrite (proj2 (Z.eqb_neq _ _) Hb). cbn [negb]. change (lnot_u 32 0) with 0xFFFFFFFF. rewrite !Z.land_0_r, !Z.lor_0_r, !land_all by (unfold in_u; lia).
    split; [cbn [l0 l1 l2 l3 l4]; lia|]. unfold value. cbn [l0 l1 l2 l3 l4]. rewrite Z.mod_small; [done|]. unfold P1305. lia.
  - assert (a4 + q3 = 2 ^ 26) as -> by lia. change (wrap 32 (2 ^ 26 - 2 ^ 26)) with 0. cbn [Z.land Z.eqb negb].
    change (lnot_u 32 0xFFFFFFFF) with 0. rewrite !Z.land_0_r, !Z.lor_0_l, !land_all by (unfold in_u; lia).
    split; [cbn [l0 l1 l2 l3 l4]; lia|]. unfold value. cbn [l0 l1 l2 l3 l4]. apply (Z.mod_unique_pos _ _ 1); unfold P1305; lia.
Qed.

Lemma limb_seam a b k : 0 <= k <= 32 -> 0 <= a < 2 ^ k -> Z.lor a (shl32 b k) = a + 2 ^ k * (b mod 2 ^ (32 - k)).
Proof.
  intros Hk Ha. unfold shl32, wrap. rewrite Z.shiftl_mul_pow2 by lia.
  replace (2 ^ 32) with (2 ^ (32 - k) * 2 ^ k) by (rewrite <- Z.pow_add_r by lia; f_equal; lia).
  rewrite Zmult_mod_distr_r, <- Z.shiftl_mul_pow2, shiftl_lor_add by lia. lia.
Qed.

Lemma le_bytes_mod n z : le_bytes n (z mod 2 ^ (8 * Z.of_nat n)) = le_bytes n z.
Proof. rewrite <- le_value_bytes. rewrite <- (length_le_bytes n z) at 1. apply le_bytes_value, le_bytes_range. Qed.

(** Four words with carries are a sum of 128 bits. *)
Lemma words_sum f0 f1 f2 f3 s0 s1 s2 s3 :
  in_u 32 f0 -> in_u 32 f1 -> in_u 32 f2 -> in_u 32 f3 -> in_u 32 s0 -> in_u 32 s1 -> in_u 32 s2 -> in_u 32 s3 ->
  add_words f0 f1 f2 f3 s0 s1 s2 s3 =
  le_bytes 16 ((f0 + 2 ^ 32 * f1 + 2 ^ 64 * f2 + 2 ^ 96 * f3) + (s0 + 2 ^ 32 * s1 + 2 ^ 64 * s2 + 2 ^ 96 * s3)).
Proof.
  unfold in_u. intros. unfold add_words. rewrite (u64_add_small f0), (u64_add_small f1), (u64_add_small f2), (u64_add_small f3) by lia.
  rewrite !(mask_mod _ 32), !Z.shiftr_div_pow2 by lia. unfold wrap. rewrite !Z.mod_mod by lia.
  set (x0 := f0 + s0). assert (0 <= x0 / 2 ^ 32 <= 1) by (subst x0; Z.to_euclidean_division_equations; lia).
  rewrite (u64_add_small (f1 + s1)) by lia. set (x1 := f1 + s1 + x0 / 2 ^ 32).
  assert (0 <= x1 / 2 ^ 32 <= 1) by (subst x1; Z.to_euclidean_division_equations; lia).
  rewrite (u64_add_small (f2 + s2)) by lia. set (x2 := f2 + s2 + x1 / 2 ^ 32).
  assert (0 <= x2 / 2 ^ 32 <= 1) by (subst x2; Z.to_euclidean_division_equations; lia).
  rewrite (u64_add_small (f3 + s3)) by lia. set (x3 := f3 + s3 + x2 / 2 ^ 32).
  match goal with |- ?l = _ => assert (bytes l) as Hl by (repeat apply Forall_app_2; apply le_bytes_range); rewrite <- (le_bytes_value l Hl) end.
  rewrite <- (le_bytes_mod 16 (_ + _)). rewrite !length_app, !length_le_bytes. change (4 + (4 + (4 + 4)))%nat with 16%nat. f_equal.
  rewrite !le_value_app, !le_value_bytes, !length_le_bytes. change (2 ^ (8 * Z.of_nat 4)) with (2 ^ 32). rewrite !Z.mod_mod by lia.
  apply (Z.mod_unique_pos _ _ (x3 / 2 ^ 32)); subst x3; pose proof (Z.mod_pos_bound x0 (2 ^ 32)); pose proof (Z.mod_pos_bound x1 (2 ^ 32));
    pose proof (Z.mod_pos_bound x2 (2 ^ 32)); pose proof (Z.mod_pos_bound (f3 + s3 + x2 / 2 ^ 32) (2 ^ 32)); [lia|].
  pose proof (Z.div_mod x0 (2 ^ 32)). pose proof (Z.div_mod x1 (2 ^ 32)). pose proof (Z.div_mod x2 (2 ^ 32)).
  pose proof (Z.div_mod (f3 + s3 + x2 / 2 ^ 32) (2 ^ 32)). lia.
Qed.

Lemma add_s_value h key : packed h -> bytes key -> length key = 32%nat ->
  add_s h key = le_bytes 16 (value h + le_value (take 16 (drop 16 key))).
Proof.
  destruct h as [a0 a1 a2 a3 a4]. unfold packed. cbn [l0 l1 l2 l3 l4]. intros H Hb Hl. unfold add_s.
  assert (forall i, (i <= 7)%nat -> in_u 32 (ChaCha20.word key i)) as Hw.
  { intros i Hi. rewrite word_value by (done || lia). apply Z.mod_pos_bound. lia. }
  rewrite !Z.shiftr_div_pow2 by lia. rewrite (limb_seam a0), (limb_seam (a1 / _)), (limb_seam (a2 / _)), (limb_seam (a3 / _)) by (Z.to_euclidean_division_equations; lia).
  rewrite words_sum by (try (apply Hw; lia); unfold in_u; Z.to_euclidean_division_equations; lia).
  rewrite <- (le_bytes_mod 16 (value _ + _)), <- le_bytes_mod. f_equal. rewrite <- Zplus_mod_idemp_l, <- (Zplus_mod_idemp_l (value _)).
  f_equal. f_equal.
  - unfold value. cbn [l0 l1 l2 l3 l4]. change (8 * Z.of_nat 16) with 128. cbn [Z.sub]. 
    rewrite (Z.mod_small (_ + _)) by (Z.to_euclidean_division_equations; lia).
    apply (Z.mod_unique_pos _ _ (a4 / 2 ^ 24)); Z.to_euclidean_division_equations; lia.
  - assert (bytes (take 16 (drop 16 key))) as Hs by by apply Forall_take, Forall_drop. pose proof (le_value_range _ Hs) as Hr.
    rewrite length_take, length_drop, Hl in Hr. change (2 ^ (8 * Z.of_nat (16 `min` (32 - 16)))) with (2 ^ 128) in Hr.
    assert (forall i, (i < 4)%nat -> ChaCha20.word key (4 + i) = ChaCha20.word (take 16 (drop 16 key)) i) as Hk.
    { intros i Hi. unfold ChaCha20.word. rewrite skipn_firstn_comm, take_take, drop_drop. f_equal. f_equal; [lia|]. f_equal. lia. }
    pose proof (Hk 0%nat ltac:(lia)) as K0. pose proof (Hk 1%nat ltac:(lia)) as K1. pose proof (Hk 2%nat ltac:(lia)) as K2.
    pose proof (Hk 3%nat ltac:(lia)) as K3. cbn [Nat.add] in K0, K1, K2, K3. rewrite K0, K1, K2, K3.
    rewrite !word_value by (try done; rewrite length_take, length_drop; lia). set (S := le_value _) in *.
    change (32 * Z.of_nat 0) with 0. change (32 * Z.of_nat 1) with 32. change (32 * Z.of_nat 2) with 64. change (32 * Z.of_nat 3) with 96.
    clear - Hr. Z.to_euclidean_division_equations. lia.
Qed.

End PolySpec.

Module AeadRuns.
Import Limbs ChaCha20 Poly1305 Aead PolySpec.

(** ** Blocks of the key stream *)
Lemma length_quarter_round a b c d s : length (quarter_round a b c d s) = length s.
Proof. unfold quarter_round, mix. by rewrite !length_insert. Qed.

Lemma length_double_round s : length (double_round s) = length s.
Proof. unfold double_round. by rewrite !length_quarter_round. Qed.

Lemma length_words s : length (mjoin (le_bytes 4 <$> s)) = (4 * length s)%nat.
Proof. induction s as [|x s IH]; [done|]. rewrite fmap_cons. change (length (le_bytes 4 x ++ mjoin (le_bytes 4 <$> s)) = (4 * S (length s))%nat). rewrite length_app, length_le_bytes, IH. cbn [length]. lia. Qed.

Lemma length_chacha20_block key ctr nonce : length (chacha20_block key ctr nonce) = 64%nat.
Proof.
  unfold chacha20_block. set (s := zip_with _ _ _). assert (length s = 16%nat) as Hs.
  { unfold s. rewrite length_zip_with. assert (forall n x, length (Nat.iter n double_round x) = length x) as ->; [|done].
    intros n x. induction n as [|n IH]; [done|].
    change (Nat.iter (S n) double_round x) with (double_round (Nat.iter n double_round x)). by rewrite length_double_round. }
  rewrite length_words. lia.
Qed.

Lemma chacha20_block_bytes key ctr nonce : bytes (chacha20_block key ctr nonce).
Proof.
  unfold chacha20_block. apply Forall_join, Forall_fmap, Forall_forall. intros z _. apply le_bytes_range.
Qed.

#[local] Opaque chacha20_block.

(** Byte [i] of the stream, the block counter in 32 bits. *)
Definition keystream (key : list Z) (ctr : Z) (nonce : list Z) (i : nat) : Z :=
  chacha20_block key (wrap 32 (ctr + Z.of_nat (i / 64))) nonce !!! (i mod 64)%nat.

Definition with_stream (key : list Z) (ctr : Z) (nonce : list Z) (from : nat) (data : list Z) : list Z :=
  imap (fun i b => Z.lxor b (keystream key ctr nonce (from + i))) data.

Lemma with_stream_app key ctr nonce from l1 l2 :
  with_stream key ctr nonce from (l1 ++ l2) = with_stream key ctr nonce from l1 ++ with_stream key ctr nonce (from + length l1) l2.
Proof. unfold with_stream. rewrite imap_app. f_equal. apply imap_ext. intros i x _. f_equal. f_equal. lia. Qed.

Lemma with_stream_block key ctr nonce j chunk : (length chunk <= 64)%nat ->
  zip_with Z.lxor chunk (take (length chunk) (chacha20_block key (wrap 32 (ctr + Z.of_nat j)) nonce)) = with_stream key ctr nonce (64 * j) chunk.
Proof.
  intros Hl. apply list_eq. intros i. unfold with_stream. rewrite list_lookup_imap, lookup_zip_with.
  destruct (chunk !! i) as [b|] eqn:Hb; cbn [fmap option_fmap option_map mbind option_bind]; [|done]. pose proof (lookup_lt_Some _ _ _ Hb) as Hi.
  rewrite lookup_take_lt by done. rewrite (list_lookup_lookup_total_lt _ i) by (rewrite length_chacha20_block; lia). cbn [fmap option_fmap option_map mbind option_bind]. unfold keystream.
  replace ((64 * j + i) / 64)%nat with j by (rewrite Nat.mul_comm, Nat.div_add_l, Nat.div_small by lia; lia).
  replace ((64 * j + i) mod 64)%nat with i; [done|]. rewrite Nat.mul_comm, Nat.add_comm, Nat.Div0.mod_add, Nat.mod_small; lia.
Qed.

(** After one round the stream is added to 64 more bytes, or to all of them. *)
Lemma stream_round key ctr nonce j n data : n = Nat.min (length data - 64 * j) 64 -> (64 * j < length data)%nat ->
  let data' := take (64 * j) data ++ with_stream key ctr nonce (64 * j) (take n (drop (64 * j) data)) ++ drop (64 * j + n) data in
  length data' = length data /\
  take (64 * S j) data' ++ with_stream key ctr nonce (64 * S j) (drop (64 * S j) data') =
  take (64 * j) data ++ with_stream key ctr nonce (64 * j) (drop (64 * j) data).
Proof.
  intros En Hlt. cbv zeta. set (chunk := take n (drop (64 * j) data)).
  assert (length chunk = n) as Hn by (unfold chunk; rewrite length_take, length_drop; lia).
  assert (drop (64 * j) data = chunk ++ drop (64 * j + n) data) as Hd by (unfold chunk; rewrite <- drop_drop; symmetry; apply take_drop).
  set (pre := take (64 * j) data ++ with_stream key ctr nonce (64 * j) chunk).
  assert (length pre = (64 * j + n)%nat) as Hp by (unfold pre, with_stream; rewrite length_app, length_imap, length_take; lia).
  rewrite Hd, with_stream_app, Hn, !(app_assoc (take (64 * j) data)). fold pre. split; [rewrite length_app, length_drop; lia|].
  destruct (decide (n = 64%nat)) as [E|E].
  - replace (64 * S j)%nat with (64 * j + n)%nat by lia. by rewrite take_app_length', drop_app_length' by lia.
  - rewrite (drop_ge data) by lia. rewrite app_nil_r, take_ge, drop_ge by lia. done.
Qed.

Lemma xor_loop_value key ctr nonce : in_u 32 ctr -> forall fuel j data, (length data - 64 * j <= fuel)%nat ->
  xor_loop fuel key (wrap 32 (ctr + Z.of_nat j)) nonce (Z.min (64 * Z.of_nat j) (Z.of_nat (length data))) data =
  Done (take (64 * j) data ++ with_stream key ctr nonce (64 * j) (drop (64 * j) data)).
Proof.
  intros Hc. induction fuel as [|fuel IH]; intros j data Hf;
    (destruct (decide (length data <= 64 * j)%nat) as [Hge|Hlt];
     [cbn [xor_loop]; rewrite (proj2 (Z.ltb_ge _ _)), take_ge, drop_ge by lia; by rewrite app_nil_r|]); [lia|].
  cbn [xor_loop]. rewrite (proj2 (Z.ltb_lt _ _)), Z.min_l by lia. remember (Nat.min (length data - 64 * j) 64) as n eqn:En.
  replace (Z.min (Z.of_nat (length data) - 64 * Z.of_nat j) 64) with (Z.of_nat n) by lia.
  unfold slice_get, slice_set. rewrite length_chacha20_block, !decide_True by lia. exec_simpl.
  replace (Z.to_nat (64 * Z.of_nat j + Z.of_nat n - 64 * Z.of_nat j)) with n by lia. replace (Z.to_nat (64 * Z.of_nat j)) with (64 * j)%nat by lia.
  rewrite Z.sub_0_r, Nat2Z.id. change (Z.to_nat 0) with 0%nat. rewrite drop_0. destruct (stream_round key ctr nonce j n data En ltac:(lia)) as [Hl Hr].
  set (chunk := take n (drop (64 * j) data)) in *. assert (length chunk = n) as Hn by (unfold chunk; rewrite length_take, length_drop; lia).
  rewrite decide_True by (rewrite length_zip_with, Hn, length_take, length_chacha20_block; lia). exec_simpl.
  pose proof (with_stream_block key ctr nonce j chunk ltac:(lia)) as Hz. rewrite Hn in Hz. rewrite Hz.
  replace (Z.to_nat (64 * Z.of_nat j + Z.of_nat n)) with (64 * j + n)%nat by lia. set (data' := take (64 * j) data ++ _ ++ _) in *.
  replace (u32_add (wrap 32 (ctr + Z.of_nat j)) 1) with (wrap 32 (ctr + Z.of_nat (S j))).
  2: { unfold u32_add, wrap. rewrite Zplus_mod_idemp_l. f_equal. lia. }
  replace (64 * Z.of_nat j + Z.of_nat n) with (Z.min (64 * Z.of_nat (S j)) (Z.of_nat (length data'))) by lia.
  rewrite IH by lia. by rewrite Hr.
Qed.

Lemma chacha20_xor_value key ctr nonce data : in_u 32 ctr -> chacha20_xor key ctr nonce data = Done (with_stream key ctr nonce 0 data).
Proof.
  intros Hc. pose proof (xor_loop_value key ctr nonce Hc (length data) 0 data ltac:(lia)) as H. rewrite Z.add_0_r, wrap_small in H by apply Hc.
  rewrite Z.min_l in H by lia. exact H.
Qed.

Lemma with_stream_twice key ctr nonce from data : with_stream key ctr nonce from (with_stream key ctr nonce from data) = data.
Proof.
  unfold with_stream. apply list_eq. intros i. rewrite !list_lookup_imap. destruct (data !! i) as [b|]; cbn; [|done].
  by rewrite Z.lxor_assoc, Z.lxor_nilpotent, Z.lxor_0_r.
Qed.

Lemma keystream_byte key ctr nonce i : in_u 8 (keystream key ctr nonce i).
Proof.
  unfold keystream. pose proof (chacha20_block_bytes key (wrap 32 (ctr + Z.of_nat (i / 64))) nonce) as H. rewrite Forall_forall in H.
  apply H, list_elem_of_lookup_total_2. rewrite length_chacha20_block. apply Nat.mod_upper_bound. lia.
Qed.

Lemma with_stream_bytes key ctr nonce from data : bytes data -> bytes (with_stream key ctr nonce from data).
Proof.
  intros Hd. apply Forall_lookup. intros i b. unfold with_stream. rewrite list_lookup_imap. destruct (data !! i) as [x|] eqn:Hx; [|done].
  cbn. intros [= <-]. apply (lxor_range 8); [lia|by apply (Forall_lookup_1 _ _ _ _ Hd Hx)|apply keystream_byte].
Qed.

(** ** The tag *)
Lemma mac_exact key msg : bytes key -> length key = 32%nat -> bytes msg -> poly1305_mac key msg = Done (Rfc8439.poly1305 key msg).
Proof.
  intros Hk Hl Hm. destruct (clamp_r_value key Hk ltac:(lia)) as [Hr Hc]. unfold poly1305_mac.
  set (n := (Z.of_nat (length msg) + 15) / 16). assert (16 * n - 16 < Z.of_nat (length msg) <= 16 * n \/ n = 0 /\ length msg = 0%nat) as Hn.
  { subst n. Z.to_euclidean_division_equations. lia. }
  destruct (mac_loop_value (clamp_r key) msg Hm Hc (Z.to_nat n) (length msg) 0 (L5 0 0 0 0 0) 0) as (h & E & Hh & Hv); try lia; try done.
  change (16 * 0) with 0 in E. rewrite E. exec_simpl. destruct (carry_h_value h Hh) as [Hp Hv1]. destruct (select_value _ Hp) as [Hp2 Hv2].
  rewrite add_s_value by done. rewrite Hv2, Hv1, Hv, Hr, Z2Nat.id by lia. unfold Rfc8439.poly1305, Rfc8439.accumulate. fold n.
  do 3 f_equal. rewrite Z.mod_small; [done|]. destruct (decide (n = 0)) as [->|Hn0]; [done|].
  replace n with (Z.of_nat (Z.to_nat (n - 1)) + 1) by lia. rewrite seqZ_app, foldl_app by lia. apply Z.mod_pos_bound. done.
Qed.

Lemma tag_diff_zero e t : length e = length t -> tag_diff e t = 0 <-> e = t.
Proof.
  intros Hl. unfold tag_diff. assert (forall l a, foldl Z.lor a l = 0 <-> a = 0 /\ Forall (fun x => x = 0) l) as Hf.
  { induction l as [|x l IH]; intros a; cbn [foldl]; [rewrite Forall_nil; tauto|]. rewrite IH, Forall_cons, Z.lor_eq_0_iff. tauto. }
  rewrite Hf. revert t Hl. induction e as [|x e IH]; intros [|y t] Hl; try done. cbn [zip_with]. injection Hl as Hl. rewrite Forall_cons, Z.lxor_eq_0_iff.
  specialize (IH t Hl). split; [intros [_ [-> H]]; f_equal; by apply IH|]. intros [= -> ->]. split; [done|]. split; [done|]. by apply IH.
Qed.

Lemma length_poly1305 key msg : length (Rfc8439.poly1305 key msg) = 16%nat.
Proof. apply length_le_bytes. Qed.

Lemma poly_data_bytes aad ct : bytes aad -> bytes ct -> bytes (build_poly1305_data aad ct).
Proof.
  intros Ha Hc. unfold build_poly1305_data, pad16. repeat apply Forall_app_2; try done; try apply le_bytes_range; by apply Forall_replicate.
Qed.

Definition poly_key (key nonce : list Z) : list Z := take 32 (chacha20_block key 0 nonce).

Lemma poly_key_ok key nonce : bytes (poly_key key nonce) /\ length (poly_key key nonce) = 32%nat.
Proof. unfold poly_key. split; [apply Forall_take, chacha20_block_bytes|]. by rewrite length_take, length_chacha20_block. Qed.

(** What the tag covers determines the header and the ciphertext. *)
Lemma poly_data_inj aad ct aad' ct' : Z.of_nat (length aad) < 2 ^ 64 -> Z.of_nat (length ct) < 2 ^ 64 ->
  Z.of_nat (length aad') < 2 ^ 64 -> Z.of_nat (length ct') < 2 ^ 64 ->
  build_poly1305_data aad ct = build_poly1305_data aad' ct' -> aad = aad' /\ ct = ct'.
Proof.
  intros H1 H2 H3 H4 E. unfold build_poly1305_data in E. rewrite !app_assoc in E.
  apply app_inj_2 in E as [E E2]; [|by rewrite !length_le_bytes]. apply app_inj_2 in E as [E E1]; [|by rewrite !length_le_bytes].
  apply le_bytes_inj in E1; [|unfold in_u; cbn; lia..]. apply le_bytes_inj in E2; [|unfold in_u; cbn; lia..].
  assert (length aad = length aad') as L1 by lia. assert (length ct = length ct') as L2 by lia.
  rewrite <- !app_assoc in E. apply app_inj_1 in E as [E1' E]; [|done]. unfold pad16 in E. rewrite L1 in E.
  apply app_inj_1 in E as [_ E]; [|done]. by apply app_inj_1 in E as [E _].
Qed.

(** Sealing, and opening with any tag. *)
Lemma seal_open key nonce aad plaintext : bytes aad -> bytes plaintext ->
  exists ct, let tag := Rfc8439.poly1305 (poly_key key nonce) (build_poly1305_data aad ct) in
    aead_encrypt key nonce aad plaintext = Done (ct, tag) /\ length ct = length plaintext /\
    (forall tag', length tag' = 16%nat -> aead_decrypt key nonce aad ct tag' = Done (if decide (tag' = tag) then Some plaintext else None)) /\
    bytes ct.
Proof.
  intros Ha Hp. destruct (poly_key_ok key nonce) as [Hk Hl]. set (ct := with_stream key 1 nonce 0 plaintext). exists ct. cbv zeta.
  assert (bytes ct) as Hct by by apply with_stream_bytes. pose proof (poly_data_bytes aad ct Ha Hct) as Hd.
  set (tag := Rfc8439.poly1305 (poly_key key nonce) (build_poly1305_data aad ct)). split_all; [|apply length_imap| |exact Hct].
  - unfold aead_encrypt. rewrite chacha20_xor_value by (unfold in_u; lia). exec_simpl. fold ct (poly_key key nonce). by rewrite mac_exact.
  - intros tag' Ht. unfold aead_decrypt. fold (poly_key key nonce). rewrite mac_exact by done. exec_simpl. fold tag.
    pose proof (tag_diff_zero tag tag' ltac:(unfold tag; by rewrite length_poly1305)) as Hz.
    destruct (decide (tag' = tag)) as [->|Hne]; [rewrite (proj2 Hz) by done|].
    + cbn [Z.eqb negb]. rewrite chacha20_xor_value by (unfold in_u; lia). exec_simpl. unfold ct. by rewrite with_stream_twice.
    + destruct (Z.eqb_spec (tag_diff tag tag') 0) as [E|E]; [|done]. apply Hz in E. congruence.
Qed.

(** Opening returns on every input; what it returns are bytes. *)
Lemma open_returns key nonce aad ct tag : bytes aad -> bytes ct ->
  returns (aead_decrypt key nonce aad ct tag) (fun r => forall p, r = Some p -> bytes p /\ length p = length ct).
Proof.
  intros Ha Hc. destruct (poly_key_ok key nonce) as [Hk Hl]. unfold aead_decrypt. fold (poly_key key nonce).
  rewrite (mac_exact _ _ Hk Hl (poly_data_bytes aad ct Ha Hc)). exec_simpl. destruct (negb _); [by apply returns_done|].
  rewrite chacha20_xor_value by (unfold in_u; lia). exec_simpl. apply returns_done. intros p [= <-]. split; [by apply with_stream_bytes|apply length_imap].
Qed.

(** Poly1305 is the function of RFC 8439: for every key and message the
    computation in limbs ends, never overflows, and gives the tag that the RFC
    defines modulo 2^130 - 5, the last reduction and the short last block
    included. *)
Theorem poly1305_follows_rfc8439 key msg : bytes key -> length key = 32%nat -> bytes msg ->
  poly1305_mac key msg = Done (Rfc8439.poly1305 key msg).
Proof. apply mac_exact. Qed.

Lemma poly1305_follows_rfc8439_witness :
  let msg := str_bytes "Cryptographic Forum Research Group" in
  poly1305_mac (seqZ 100 32) msg = Done (Rfc8439.poly1305 (seqZ 100 32) msg) /\
  Rfc8439.poly1305 (seqZ 100 32) (str_bytes "Cryptographic") <> Rfc8439.poly1305 (seqZ 100 32) msg.
Proof.
  split; [|vm_compute; discriminate].
  apply (poly1305_follows_rfc8439 (seqZ 100 32)); [by repeat constructor|done|by repeat constructor].
Defined.

(** C33. Sealing is opened with its own tag and with no other. Encryption returns a
    ciphertext of the length of the plaintext and the RFC tag over header and
    ciphertext; decryption returns on every input; it gives the plaintext back
    when the tag is the one of encryption, and nothing for any other tag. A
    header and ciphertext that the tag covers alike are the same. *)
Theorem aead_opens_what_it_sealed key nonce aad plaintext : bytes aad -> bytes plaintext ->
  exists ciphertext tag, aead_encrypt key nonce aad plaintext = Done (ciphertext, tag) /\
    length ciphertext = length plaintext /\ tag = Rfc8439.poly1305 (poly_key key nonce) (build_poly1305_data aad ciphertext) /\
    (forall tag', length tag' = 16%nat ->
       aead_decrypt key nonce aad ciphertext tag' = Done (if decide (tag' = tag) then Some plaintext else None)) /\
    (forall aad' ciphertext', build_poly1305_data aad' ciphertext' = build_poly1305_data aad ciphertext ->
       Z.of_nat (length aad) < 2 ^ 64 -> Z.of_nat (length ciphertext) < 2 ^ 64 -> Z.of_nat (length aad') < 2 ^ 64 ->
       Z.of_nat (length ciphertext') < 2 ^ 64 -> aad' = aad /\ ciphertext' = ciphertext).
Proof.
  intros Ha Hp. destruct (seal_open key nonce aad plaintext Ha Hp) as (ct & He & Hl & Hd & _).
  exists ct, (Rfc8439.poly1305 (poly_key key nonce) (build_poly1305_data aad ct)). split_all; try done.
  intros aad' ct' E H1 H2 H3 H4. by apply poly_data_inj in E.
Qed.

Lemma aead_opens_what_it_sealed_witness :
  exists ciphertext tag, aead_encrypt (seqZ 0 32) (seqZ 0 12) (str_bytes "header") (str_bytes "Hello, TLS 1.3!") = Done (ciphertext, tag) /\
    aead_decrypt (seqZ 0 32) (seqZ 0 12) (str_bytes "header") ciphertext tag = Done (Some (str_bytes "Hello, TLS 1.3!")).
Proof.
  destruct (aead_opens_what_it_sealed (seqZ 0 32) (seqZ 0 12) (str_bytes "header") (str_bytes "Hello, TLS 1.3!")) as (ct & tag & He & _ & Ht & Hd & _);
    [by repeat constructor|by repeat constructor|].
  exists ct, tag. split; [exact He|]. rewrite Hd by (rewrite Ht; reflexivity). by rewrite decide_True.
Defined.

End AeadRuns.
