(* ===== verification/Wire.v ===== *)
(** * Wire formats shared by the kernel and its clients

    Models [fabric_types/src]: identifiers, permission flags, the capability
    token, the message header, the audit entry and the packed handle.  A
    newtype over an integer is that integer as a [Z]. *)

From S2P Require Import Prelude.

(** ** Identifiers ([ids.rs]) *)
Module ResourceId.

Definition KIND_DEVICE : Z := 0x0003000000000000.
Definition KIND_AI : Z := 0x0006000000000000.

(** [(self.0 >> 48) as u16]. *)
Definition kind (r : Z) : Z := wrap 16 (Z.shiftr r 48).
Definition specific (r : Z) : Z := Z.land r 0x0000FFFFFFFFFFFF.

Lemma kind_specific r : in_u 64 r -> r = kind r * 2 ^ 48 + specific r.
Proof.
  unfold in_u, kind, specific. intros Hr.
  change 0x0000FFFFFFFFFFFF with (2 ^ 48 - 1). rewrite land_ones_mod by lia.
  rewrite Z.shiftr_div_pow2 by lia. rewrite wrap_small.
  - pose proof (Z.div_mod r (2 ^ 48)). lia.
  - split; [apply Z.div_pos; lia|]. apply Z.div_lt_upper_bound; lia.
Qed.

End ResourceId.

Module ProcessId.
Definition KERNEL : Z := 0.
Definition BUTLER : Z := 1.
End ProcessId.

(** ** Permission flags ([capability.rs]) *)
Module Perm.

Definition NONE : Z := 0.
Definition READ : Z := Z.shiftl 1 0.
Definition WRITE : Z := Z.shiftl 1 1.
Definition EXECUTE : Z := Z.shiftl 1 2.
Definition GRANT : Z := Z.shiftl 1 3.
Definition REVOKE : Z := Z.shiftl 1 4.

Definition contains (self other : Z) : bool := Z.land self other =? other.
Definition is_subset_of (self parent : Z) : bool := Z.land self (lnot_u 16 parent) =? 0.
Definition union (self other : Z) : Z := Z.lor self other.
Definition intersect (self other : Z) : Z := Z.land self other.
Definition is_empty (self : Z) : bool := self =? 0.

(** The flags as sets of bits. *)
Lemma testbit_high w p i : in_u w p -> w <= i -> Z.testbit p i = false.
Proof.
  unfold in_u. intros Hp Hi. destruct (decide (p = 0)) as [->|]; [apply Z.bits_0|].
  apply Z.bits_above_log2; [lia|]. apply Z.log2_lt_pow2; [lia|].
  eapply Z.lt_le_trans; [apply Hp|]. apply Z.pow_le_mono_r; lia.
Qed.

Lemma testbit_lnot_u w p i :
  0 <= w -> in_u w p -> Z.testbit (lnot_u w p) i = (0 <=? i) && (i <? w) && negb (Z.testbit p i).
Proof.
  intros Hw Hp. unfold lnot_u.
  replace (2 ^ w - 1) with (Z.ones w) by (rewrite Z.ones_equiv; lia).
  rewrite Z.sub_nocarry_ldiff.
  - rewrite Z.ldiff_spec. destruct (Z.leb_spec 0 i); [|by rewrite !Z.testbit_neg_r by lia].
    destruct (Z.ltb_spec i w).
    + by rewrite Z.ones_spec_low by lia.
    + by rewrite Z.ones_spec_high by lia.
  - apply Z.bits_inj'. intros n Hn. rewrite Z.ldiff_spec, Z.bits_0. destruct (decide (n < w)).
    + rewrite Z.ones_spec_low by lia. apply andb_false_r.
    + rewrite (testbit_high w) by (done || lia). done.
Qed.

Lemma is_subset_of_spec p q : in_u 16 p -> in_u 16 q ->
  is_subset_of p q = true <-> forall i, Z.testbit p i = true -> Z.testbit q i = true.
Proof.
  intros Hp Hq. unfold is_subset_of. rewrite Z.eqb_eq. split.
  - intros H i Hi. apply (f_equal (fun z => Z.testbit z i)) in H.
    rewrite Z.land_spec, testbit_lnot_u, Z.bits_0, Hi in H by (done || lia).
    destruct (Z.testbit q i); [done|]. cbn in H. rewrite andb_true_r in H.
    destruct (Z.leb_spec 0 i); [|by rewrite Z.testbit_neg_r in Hi by lia].
    destruct (Z.ltb_spec i 16); [done|]. by rewrite (testbit_high 16) in Hi.
  - intros H. apply Z.bits_inj'. intros i Hi.
    rewrite Z.land_spec, testbit_lnot_u, Z.bits_0 by (done || lia).
    destruct (Z.testbit p i) eqn:E; [|done]. rewrite (H i E). cbn. by rewrite andb_false_r.
Qed.

Lemma contains_spec p q :
  contains p q = true <-> forall i, Z.testbit q i = true -> Z.testbit p i = true.
Proof.
  unfold contains. rewrite Z.eqb_eq. split.
  - intros H i Hi. rewrite <- H, Z.land_spec in Hi. by apply andb_true_iff in Hi as [? _].
  - intros H. apply Z.bits_inj'. intros i Hi. rewrite Z.land_spec.
    destruct (Z.testbit q i) eqn:E; [by rewrite (H i E)|by rewrite andb_false_r].
Qed.

Lemma is_subset_of_refl p : in_u 16 p -> is_subset_of p p = true.
Proof. intros. by apply is_subset_of_spec. Qed.

Lemma is_subset_of_trans p q r : in_u 16 p -> in_u 16 q -> in_u 16 r ->
  is_subset_of p q = true -> is_subset_of q r = true -> is_subset_of p r = true.
Proof. intros ???. rewrite !is_subset_of_spec by done. naive_solver. Qed.

(** A permission that a subset contains is contained in the superset. *)
Lemma contains_subset p q r : in_u 16 p -> in_u 16 q ->
  is_subset_of p q = true -> contains p r = true -> contains q r = true.
Proof. intros ??. rewrite is_subset_of_spec, !contains_spec by done. naive_solver. Qed.

End Perm.

(** ** Capability tokens ([capability.rs]) *)
Module Budget.
Record t : Type := mk { max_uses : Z; interval_ticks : Z }.
End Budget.

Module CapabilityToken.

Record t : Type := mk {
  version : Z;
  permissions : Z;
  owner : Z;
  id : Z;
  resource : Z;
  delegated_from : Z;
  nonce : Z;
  expires : Z;
  extension_ptr : Z;
  reserved : list Z;
}.

Definition VERSION : Z := 1.

Definition zeroed : t := mk 0 Perm.NONE 0 0 0 0 0 0 0 (replicate 16 0).

(** The 40 signed bytes, in the order of the buffer offsets. *)
Definition active_bytes (c : t) : list Z :=
  le_bytes 2 (version c) ++ le_bytes 2 (permissions c) ++ le_bytes 4 (owner c) ++
  le_bytes 8 (id c) ++ le_bytes 8 (resource c) ++ le_bytes 8 (delegated_from c) ++
  le_bytes 4 (nonce c) ++ le_bytes 4 (expires c).

Definition is_root (c : t) : bool := delegated_from c =? 0.

Definition in_range (c : t) : Prop :=
  in_u 16 (version c) /\ in_u 16 (permissions c) /\ in_u 32 (owner c) /\ in_u 64 (id c) /\
  in_u 64 (resource c) /\ in_u 64 (delegated_from c) /\ in_u 32 (nonce c) /\ in_u 32 (expires c).

End CapabilityToken.

(** ** Message headers ([message.rs]) *)
Module MessageHeader.

Record t : Type := mk {
  version : Z;
  msg_type : Z;
  sender : Z;
  receiver : Z;
  payload_len : Z;
  capability_id : Z;
  sequence : Z;
  timestamp : Z;
  extension_ptr : Z;
  reserved : list Z;
}.

Definition VERSION : Z := 1.

Definition zeroed : t := mk 0 0 0 0 0 0 0 0 0 (replicate 16 0).

Definition active_bytes (h : t) : list Z :=
  le_bytes 2 (version h) ++ le_bytes 2 (msg_type h) ++ le_bytes 4 (sender h) ++
  le_bytes 4 (receiver h) ++ le_bytes 4 (payload_len h) ++ le_bytes 8 (capability_id h) ++
  le_bytes 8 (sequence h) ++ le_bytes 8 (timestamp h).

Definition has_payload (h : t) : bool := payload_len h >? 0.

Definition in_range (h : t) : Prop :=
  in_u 16 (version h) /\ in_u 16 (msg_type h) /\ in_u 32 (sender h) /\ in_u 32 (receiver h) /\
  in_u 32 (payload_len h) /\ in_u 64 (capability_id h) /\ in_u 64 (sequence h) /\
  in_u 64 (timestamp h).

End MessageHeader.

(** ** Audit entries ([audit.rs]) *)
Module AuditAction.

Inductive t : Type :=
| MessageSent
| MessageDelivered
| MessageRejected
| CapValidated
| CapDenied
| SequenceViolation
| HmacFailure
| QueueFull
| MonitorNotify
| PolicyViolation.

Definition as_u8 (a : t) : Z :=
  match a with
  | MessageSent => 1
  | MessageDelivered => 2
  | MessageRejected => 3
  | CapValidated => 4
  | CapDenied => 5
  | SequenceViolation => 6
  | HmacFailure => 7
  | QueueFull => 8
  | MonitorNotify => 9
  | PolicyViolation => 10
  end.

#[global] Instance as_u8_inj : Inj (=) (=) as_u8.
Proof. intros [] [] ?; (reflexivity || discriminate). Qed.

#[global] Instance eq_dec : EqDecision t.
Proof. solve_decision. Defined.

End AuditAction.

Module AuditEntry.

Record t : Type := mk {
  sequence : Z;
  timestamp : Z;
  actor : Z;
  action : AuditAction.t;
  target : Z;
  msg_type : Z;
  capability_id : Z;
  msg_sequence : Z;
  prev_hash : list Z;
  hash : list Z;
}.

Definition zeroed : t :=
  mk 0 0 0 AuditAction.MessageSent 0 0 0 0 (replicate 32 0) (replicate 32 0).

Definition hashable_bytes (e : t) : list Z :=
  le_bytes 8 (sequence e) ++ le_bytes 8 (timestamp e) ++ le_bytes 4 (actor e) ++
  [AuditAction.as_u8 (action e)] ++ replicate 3 0 ++ le_bytes 4 (target e) ++
  le_bytes 2 (msg_type e) ++ replicate 2 0 ++ prev_hash e.

Definition in_range (e : t) : Prop :=
  in_u 64 (sequence e) /\ in_u 64 (timestamp e) /\ in_u 32 (actor e) /\ in_u 32 (target e) /\
  in_u 16 (msg_type e) /\ in_u 64 (capability_id e) /\ in_u 64 (msg_sequence e) /\
  length (prev_hash e) = 32%nat.

End AuditEntry.

(** ** Packed handles ([process.rs]) *)
Module HandleId.

Definition slot (h : Z) : Z := wrap 8 (Z.land h 0xFF).
Definition generation (h : Z) : Z := wrap 16 (Z.land (Z.shiftr h 8) 0xFFFF).
Definition pack (slot generation : Z) : Z := Z.lor slot (Z.shiftl generation 8).

End HandleId.

(** ** What the serialised forms determine *)
Lemma app_inj_le n a b l l' :
  in_u (8 * Z.of_nat n) a -> in_u (8 * Z.of_nat n) b ->
  le_bytes n a ++ l = le_bytes n b ++ l' -> a = b /\ l = l'.
Proof.
  intros Ha Hb H. apply app_inj_1 in H as [H1 H2]; [|by rewrite !length_le_bytes].
  split; [by eapply le_bytes_inj|done].
Qed.

(** Peel the leading little-endian fields of an equality of byte strings. *)
Ltac peel_le H :=
  repeat (let E := fresh "E" in
    apply app_inj_le in H; [destruct H as [E H]|by assumption..]).

Module Serial.

Lemma token_bytes_length c : length (CapabilityToken.active_bytes c) = 40%nat.
Proof. reflexivity. Qed.

(** The signed bytes of a token determine every active field. *)
Lemma token_bytes_inj c c' :
  CapabilityToken.in_range c -> CapabilityToken.in_range c' ->
  CapabilityToken.active_bytes c = CapabilityToken.active_bytes c' ->
  c' = CapabilityToken.mk (CapabilityToken.version c) (CapabilityToken.permissions c)
    (CapabilityToken.owner c) (CapabilityToken.id c) (CapabilityToken.resource c)
    (CapabilityToken.delegated_from c) (CapabilityToken.nonce c) (CapabilityToken.expires c)
    (CapabilityToken.extension_ptr c') (CapabilityToken.reserved c').
Proof.
  destruct c, c'. unfold CapabilityToken.in_range, CapabilityToken.active_bytes.
  cbn -[le_bytes]. intros (?&?&?&?&?&?&?&?) (?&?&?&?&?&?&?&?) Hb.
  peel_le Hb. apply le_bytes_inj in Hb; [|done..]. congruence.
Qed.

Lemma header_bytes_inj h h' :
  MessageHeader.in_range h -> MessageHeader.in_range h' ->
  MessageHeader.active_bytes h = MessageHeader.active_bytes h' ->
  h' = MessageHeader.mk (MessageHeader.version h) (MessageHeader.msg_type h)
    (MessageHeader.sender h) (MessageHeader.receiver h) (MessageHeader.payload_len h)
    (MessageHeader.capability_id h) (MessageHeader.sequence h) (MessageHeader.timestamp h)
    (MessageHeader.extension_ptr h') (MessageHeader.reserved h').
Proof.
  destruct h, h'. unfold MessageHeader.in_range, MessageHeader.active_bytes.
  cbn -[le_bytes]. intros (?&?&?&?&?&?&?&?) (?&?&?&?&?&?&?&?) Hb.
  peel_le Hb. apply le_bytes_inj in Hb; [|done..]. congruence.
Qed.

End Serial.

Module HandleIdFacts.
Import HandleId.

Lemma pack_arith s g : in_u 8 s -> in_u 16 g -> pack s g = s + 256 * g.
Proof.
  unfold in_u, pack. intros Hs Hg. rewrite Z.lor_comm, lor_shiftl_add by lia. lia.
Qed.

Lemma slot_pack s g : in_u 8 s -> in_u 16 g -> slot (pack s g) = s.
Proof.
  intros Hs Hg. rewrite pack_arith by done. unfold slot, in_u in *.
  change 0xFF with (2 ^ 8 - 1). rewrite land_ones_mod by lia.
  unfold wrap. rewrite Z.mod_mod by lia.
  replace (s + 256 * g) with (s + g * 2 ^ 8) by lia.
  rewrite Z.mod_add by lia. by apply Z.mod_small.
Qed.

Lemma generation_pack s g : in_u 8 s -> in_u 16 g -> generation (pack s g) = g.
Proof.
  intros Hs Hg. rewrite pack_arith by done. unfold generation, in_u in *.
  change 0xFFFF with (2 ^ 16 - 1). rewrite land_ones_mod by lia.
  unfold wrap. rewrite Z.mod_mod by lia. rewrite Z.shiftr_div_pow2 by lia.
  replace (s + 256 * g) with (s + g * 2 ^ 8) by lia.
  rewrite Z.div_add by lia. rewrite (Z.div_small s) by done. by apply Z.mod_small.
Qed.

Lemma slot_range h : in_u 8 (slot h).
Proof. apply wrap_range. lia. Qed.

Lemma generation_range h : in_u 16 (generation h).
Proof. apply wrap_range. lia. Qed.

End HandleIdFacts.
