(* ===== verification/Crypto.v ===== *)
(** * The keyed hash and the HMAC engine

    The crates [hmac] and [sha3] are not part of the repository: their
    functions are parameters, the fields of the classes below, together with
    the documented behaviour the kernel relies on.  [hmac_engine.rs] is
    modelled on top of them. *)

From S2P Require Import Prelude.

(** [Hmac<Sha3_256>]: [mac] is [new_from_slice(key); update(data); finalize()],
    [mac_verify] is [verify_slice(tag).is_ok()]. *)
Class HmacSha3 := {
  mac : list Z -> list Z -> list Z;
  mac_verify : list Z -> list Z -> list Z -> bool;
  mac_length : forall key data, length (mac key data) = 32%nat;
  mac_verify_spec : forall key data tag, mac_verify key data tag = true <-> mac key data = tag;
}.

(** [Sha3_256]: [new(); update(..)..; finalize()] over the concatenation. *)
Class Sha3 := {
  sha3_256 : list Z -> list Z;
  sha3_length : forall data, length (sha3_256 data) = 32%nat;
}.

(** ** [kernel/src/capability/hmac_engine.rs] *)
Module HmacEngine.

(** [b"FabricOS_CapKey_Phase1_v1.0!!!!_"]. *)
Definition seed : list Z :=
  [70; 97; 98; 114; 105; 99; 79; 83; 95; 67; 97; 112; 75; 101; 121; 95;
   80; 104; 97; 115; 101; 49; 95; 118; 49; 46; 48; 33; 33; 33; 33; 95].

(** The key that [init] stores, from the time-stamp counter read at boot. *)
Definition init (tsc : Z) : list Z :=
  let tsc_bytes := le_bytes 8 tsc in
  imap (fun i s => Z.lxor s (nth (i mod 8) tsc_bytes 0)) seed.

Definition sign `{HmacSha3} (key data : list Z) : list Z := mac key data.
Definition verify `{HmacSha3} (key data expected : list Z) : bool := mac_verify key data expected.

Lemma verify_sign `{HmacSha3} key data : verify key data (sign key data) = true.
Proof. by apply mac_verify_spec. Qed.

Lemma init_length tsc : length (init tsc) = 32%nat.
Proof. reflexivity. Qed.

End HmacEngine.

(** ** Instances for concrete runs

    A checksum-like function of the right length, used only to evaluate the
    model on concrete inputs. *)
Module ToyHash.

Definition digest (data : list Z) : list Z := le_bytes 32 (foldl (fun a b => (a * 257 + b + 1) mod 2 ^ 256) 0 data).

#[local] Instance hmac : HmacSha3.
Proof.
  refine {| mac key data := digest (key ++ data);
            mac_verify key data tag := bool_decide (digest (key ++ data) = tag) |}.
  - intros. apply length_le_bytes.
  - intros. apply bool_decide_eq_true.
Defined.

#[local] Instance sha3 : Sha3.
Proof.
  refine {| sha3_256 := digest |}.
  intros. apply length_le_bytes.
Defined.

End ToyHash.
