(* ===== verification/Hkdf.v ===== *)
(** * Key derivation (src/kernel/src/network/crypto.rs, HKDF and the TLS labels)

    The crates [sha2] and [hmac] are not part of the repository: SHA-256 and its
    HMAC are the class [Sha2]. An incremental hasher ([Sha256State]) is the string
    of bytes fed to it so far. *)

From S2P Require Import Prelude Crypto.

(** [sha256] of a byte string and [hmac_sha256] of a key and a byte string: 32
    bytes each, determined by their arguments. A key may have any length. *)
Class Sha2 := {
  sha256 : list Z -> list Z;
  hmac_sha256 : list Z -> list Z -> list Z;
  sha256_length : forall data, length (sha256 data) = 32%nat;
  sha256_bytes : forall data, Forall (fun b => 0 <= b < 256) (sha256 data);
  hmac_length : forall key data, length (hmac_sha256 key data) = 32%nat;
  hmac_bytes : forall key data, Forall (fun b => 0 <= b < 256) (hmac_sha256 key data);
}.

Module Sha256State.

Definition t : Type := list Z.
Definition new : t := [].
Definition update (s : t) (data : list Z) : t := s ++ data.
Definition current_hash `{Sha2} (s : t) : list Z := sha256 s.

End Sha256State.

Module Hkdf.
Section Derivation.
Context `{Sha2}.

Definition hkdf_extract (salt ikm : list Z) : list Z :=
  let salt := if bool_decide (salt = []) then replicate 32 0 else salt in
  hmac_sha256 salt ikm.

(** One round of the loop over [i], with [t] and [okm] as they were. *)
Definition expand_round (prk info : list Z) (len : Z) (s : list Z * list Z) (i : Z) : list Z * list Z :=
  let '(t, okm) := s in
  let block := hmac_sha256 prk (t ++ info ++ [wrap 8 i]) in
  (block, okm ++ take (Z.to_nat (Z.min 32 (len - Z.of_nat (length okm)))) block).

Definition hkdf_expand (prk info : list Z) (len : Z) : list Z :=
  let n := (len + 32 - 1) / 32 in
  (foldl (expand_round prk info len) ([], []) (seqZ 1 n)).2.

Definition hkdf_expand_32 (prk info : list Z) : list Z := hmac_sha256 prk (info ++ [0x01]).

Definition tls13_hkdf_expand_label (secret label context : list Z) (len : Z) : list Z :=
  let info := [wrap 8 (Z.shiftr len 8); wrap 8 len] ++
    [wrap 8 (6 + Z.of_nat (length label))] ++ str_bytes "tls13 " ++ label ++
    [wrap 8 (Z.of_nat (length context))] ++ context in
  hkdf_expand_32 secret info.

Definition tls13_derive_secret (secret label transcript_hash : list Z) : list Z :=
  tls13_hkdf_expand_label secret label transcript_hash 32.

(** [counter] is a new atomic at every call, so [cnt] is always 0. *)
Definition random_bytes_32 (tick : Z) : list Z := sha256 (le_bytes 8 tick ++ le_bytes 8 0).

(** ** RFC 5869 *)

(** [T(i)], and the concatenation of the first [n]. *)
Fixpoint T (prk info : list Z) (i : nat) : list Z :=
  match i with
  | O => []
  | S i' => hmac_sha256 prk (T prk info i' ++ info ++ [wrap 8 (Z.of_nat i)])
  end.

Lemma T_length prk info i : length (T prk info (S i)) = 32%nat.
Proof. apply hmac_length. Qed.

Definition okm (prk info : list Z) (n : nat) : list Z := mjoin (T prk info <$> seq 1 n).

Lemma okm_S prk info n : okm prk info (S n) = okm prk info n ++ T prk info (S n).
Proof.
  unfold okm. rewrite seq_S, fmap_app, join_app. cbn [fmap list_fmap]. change (mjoin [?x]) with (x ++ []). by rewrite app_nil_r.
Qed.

Lemma okm_length prk info n : length (okm prk info n) = (32 * n)%nat.
Proof. induction n as [|n IH]; [done|]. rewrite okm_S, length_app, IH, T_length. lia. Qed.

(** [hkdf_expand] is the first [len] bytes of [T(1) | T(2) | ...]. *)
Theorem hkdf_expand_spec prk info len : 0 <= len ->
  hkdf_expand prk info len = take (Z.to_nat len) (okm prk info (Z.to_nat ((len + 31) / 32))).
Proof.
  intros Hl. unfold hkdf_expand. replace (len + 32 - 1) with (len + 31) by lia. set (n := (len + 31) / 32).
  assert (0 <= n) by (apply Z.div_pos; lia).
  assert (forall k, Z.of_nat k <= n ->
    foldl (expand_round prk info len) ([], []) (seqZ 1 (Z.of_nat k)) = (T prk info k, take (Z.to_nat len) (okm prk info k))) as Hk.
  { induction k as [|k IH]; intros Hk; [cbn; by rewrite take_nil|]. rewrite Nat2Z.inj_succ, <- Z.add_1_r, seqZ_app, foldl_app, IH by lia.
    cbn [seqZ]. change (seqZ (1 + Z.of_nat k) 1) with [1 + Z.of_nat k]. cbn [foldl expand_round]. f_equal.
    - cbn [T]. by replace (Z.of_nat (S k)) with (1 + Z.of_nat k) by lia.
    - rewrite length_take, okm_length, okm_S, take_app, okm_length. f_equal.
      assert (32 * Z.of_nat k < len) by (subst n; assert (Z.of_nat k + 1 <= (len + 31) / 32) as Hd by lia; apply (Z.mul_le_mono_nonneg_l _ _ 32) in Hd; [|lia];
        pose proof (Z.mul_div_le (len + 31) 32); lia).
      cbn [T]. replace (Z.of_nat (S k)) with (1 + Z.of_nat k) by lia. set (B := hmac_sha256 _ _).
      assert (length B = 32%nat) as HB by apply hmac_length.
      destruct (decide (len - 32 * Z.of_nat k <= 32)).
      + f_equal. lia.
      + rewrite !take_ge; [done|lia..]. }
  specialize (Hk (Z.to_nat n)). rewrite Z2Nat.id in Hk by done. by rewrite Hk.
Qed.

End Derivation.

(** An instance for concrete runs. *)
#[local] Instance toy_sha2 : Sha2.
Proof.
  refine {| sha256 := ToyHash.digest; hmac_sha256 key data := ToyHash.digest (key ++ data) |}; intros.
  - apply length_le_bytes.
  - apply le_bytes_range.
  - apply length_le_bytes.
  - apply le_bytes_range.
Defined.

End Hkdf.
