(* ===== verification/FixedMap.v ===== *)
(** * The alloc-free hash map of the capability engine

    Models [kernel/src/capability/slab.rs]: an open-addressing table with
    Fibonacci hashing, linear probing and backward-shift deletion.  The slot
    array is a list of [option (key * value)]; a reference returned by
    [get_mut] or [get_or_insert] is the current value with its write-back. *)

From S2P Require Import Prelude.

Module FixedMap.

Definition DEFAULT_CAPACITY : Z := 16384.

(** [fib_hash]: wrapping multiplication by the golden-ratio constant, the
    upper half of the product, masked. *)
Definition fib_hash (key mask : Z) : Z :=
  let h := u64_mul key 0x9E3779B97F4A7C15 in
  Z.land (Z.shiftr h 32) mask.

#[global] Arguments DEFAULT_CAPACITY : simpl never.

Record t (V : Type) : Type := mk {
  slots : option (list (option (Z * V)));
  capacity : Z;
  mask : Z;
  len : Z;
}.
Arguments mk {V}.
Arguments slots {V}.
Arguments capacity {V}.
Arguments mask {V}.
Arguments len {V}.

Section Ops.
Context {V : Type}.
Implicit Types (m : t V) (s : list (option (Z * V))) (key idx : Z) (v : V).

Definition new : t V := mk None 0 0 0.

Definition alloc_slots (m : t V) (cap : Z) : t V :=
  mk (Some (replicate (Z.to_nat cap) None)) cap (cap - 1) (len m).

Definition ensure_init (m : t V) : t V :=
  match slots m with
  | None => alloc_slots m DEFAULT_CAPACITY
  | Some _ => m
  end.

Definition is_empty (m : t V) : bool := len m =? 0.

(** The probe loop shared by [insert], [get], [get_mut] and [remove]: from
    [idx], step by one under the mask until an empty slot or the key.  The
    loops of the source differ only in what they do at the slot they stop at.
    A walk that has visited every slot repeats for ever. *)
Inductive probed : Type :=
| Vacant (idx : Z)
| Occupied (idx : Z) (v : V).

Fixpoint probe (fuel : nat) (s : list (option (Z * V))) (mask key idx : Z) : exec probed :=
  match fuel with
  | O => Diverged
  | S fuel' =>
      slot ← arr_get s idx;
      match slot with
      | None => Done (Vacant idx)
      | Some (k, v) =>
          if decide (k = key) then Done (Occupied idx v)
          else probe fuel' s mask key (Z.land (idx + 1) mask)
      end
  end.

Definition insert (m : t V) (key : Z) (v : V) : exec (bool * t V) :=
  let m := ensure_init m in
  match slots m with
  | None => Panicked
  | Some s =>
      p ← probe (length s) s (mask m) key (fib_hash key (mask m));
      match p with
      | Vacant idx =>
          if len m >=? capacity m * 3 / 4 then Done (false, m)
          else
            s' ← arr_set s idx (Some (key, v));
            Done (true, mk (Some s') (capacity m) (mask m) (len m + 1))
      | Occupied idx _ =>
          s' ← arr_set s idx (Some (key, v));
          Done (true, mk (Some s') (capacity m) (mask m) (len m))
      end
  end.

Definition get (m : t V) (key : Z) : exec (option V) :=
  match slots m with
  | None => Done None
  | Some s =>
      p ← probe (length s) s (mask m) key (fib_hash key (mask m));
      match p with
      | Vacant _ => Done None
      | Occupied _ v => Done (Some v)
      end
  end.

(** [get_mut]: the value found and the table with that value replaced. *)
Definition get_mut (m : t V) (key : Z) : exec (option (V * (V -> t V))) :=
  match slots m with
  | None => Done None
  | Some s =>
      p ← probe (length s) s (mask m) key (fib_hash key (mask m));
      match p with
      | Vacant _ => Done None
      | Occupied idx v =>
          Done (Some (v, fun v' =>
            mk (Some (<[Z.to_nat idx := Some (key, v')]> s)) (capacity m) (mask m) (len m)))
      end
  end.

Definition contains_key (m : t V) (key : Z) : exec bool :=
  r ← get m key;
  Done (match r with Some _ => true | None => false end).

(** [should_move] of the deletion: does [hole] lie in the cyclic range
    [natural, scan)? *)
Definition should_move (natural hole scan : Z) : bool :=
  if natural <=? scan then (hole >=? natural) && (hole <? scan)
  else (hole >=? natural) || (hole <? scan).

(** [slots.swap(a, b)]. *)
Definition swap (s : list (option (Z * V))) (a b : Z) : exec (list (option (Z * V))) :=
  x ← arr_get s a;
  y ← arr_get s b;
  s1 ← arr_set s a y;
  arr_set s1 b x.

Fixpoint back_shift (fuel : nat) (s : list (option (Z * V))) (mask hole scan : Z)
    : exec (list (option (Z * V))) :=
  match fuel with
  | O => Diverged
  | S fuel' =>
      slot ← arr_get s scan;
      match slot with
      | None => Done s
      | Some (k, _) =>
          if should_move (fib_hash k mask) hole scan then
            s' ← swap s hole scan;
            back_shift fuel' s' mask scan (Z.land (scan + 1) mask)
          else back_shift fuel' s mask hole (Z.land (scan + 1) mask)
      end
  end.

Definition remove (m : t V) (key : Z) : exec (option V * t V) :=
  match slots m with
  | None => Done (None, m)
  | Some s =>
      p ← probe (length s) s (mask m) key (fib_hash key (mask m));
      match p with
      | Vacant _ => Done (None, m)
      | Occupied idx v =>
          s1 ← arr_set s idx None;
          s2 ← back_shift (length s) s1 (mask m) idx (Z.land (idx + 1) (mask m));
          Done (Some v, mk (Some s2) (capacity m) (mask m) (len m - 1))
      end
  end.

Definition get_or_insert (m : t V) (key : Z) (default : V) : exec (V * (V -> t V)) :=
  let m := ensure_init m in
  present ← contains_key m key;
  m' ← (if (present : bool) then Done m else r ← insert m key default; Done (snd r));
  r ← get_mut m' key;
  match r with
  | Some ref => Done ref
  | None => Panicked
  end.

Definition iter (m : t V) : list (Z * V) :=
  match slots m with
  | None => []
  | Some s => omap id s
  end.

Definition clear (m : t V) : t V :=
  mk (match slots m with
      | Some s => Some ((fun _ => None) <$> s)
      | None => None
      end) (capacity m) (mask m) 0.

End Ops.

(** ** Cyclic distances

    [dist cap a b] is the number of probe steps from slot [a] to slot [b]. *)
Definition dist (cap a b : Z) : Z :=
  if decide (a <= b) then b - a else b - a + cap.

Ltac dist_lia := unfold dist in *; repeat case_decide; lia.

Lemma fib_hash_range key k : 0 <= k -> 0 <= fib_hash key (2 ^ k - 1) < 2 ^ k.
Proof.
  intros. unfold fib_hash. rewrite land_ones_mod by done. apply Z.mod_pos_bound. lia.
Qed.

Lemma next_slot k i : 0 <= k -> 0 <= i < 2 ^ k ->
  Z.land (i + 1) (2 ^ k - 1) = if decide (i + 1 = 2 ^ k) then 0 else i + 1.
Proof.
  intros. rewrite land_ones_mod by done. case_decide as E.
  - rewrite E. apply Z.mod_same. lia.
  - apply Z.mod_small. lia.
Qed.

Section Slots.
Context {V : Type} (k : Z) (Hk : 0 <= k).
Implicit Types (s : list (option (Z * V))) (key i j : Z) (v : V).

Local Abbreviation cap := (2 ^ k).
Local Abbreviation h key := (fib_hash key (2 ^ k - 1)).

Definition slot_at (s : list (option (Z * V))) (i : Z) (e : option (Z * V)) : Prop :=
  0 <= i < cap /\ s !! Z.to_nat i = Some e.

Definition occupied (s : list (option (Z * V))) (i : Z) : Prop :=
  exists e, slot_at s i (Some e).

(** No hole between an entry's natural slot and the slot it is in, except
    possibly at the slots in [X]. *)
Definition chained (X : Z -> Prop) (s : list (option (Z * V))) : Prop :=
  forall i key v j, slot_at s i (Some (key, v)) -> 0 <= j < cap ->
    dist cap (h key) j < dist cap (h key) i -> occupied s j \/ X j.

Definition keys_of (s : list (option (Z * V))) : list Z := (omap id s).*1.

Record slots_ok (X : Z -> Prop) (s : list (option (Z * V))) : Prop := {
  so_length : Z.of_nat (length s) = cap;
  so_nodup : NoDup (keys_of s);
  so_chained : chained X s;
}.

Lemma cap_pos : 0 < cap.
Proof. lia. Qed.

Lemma slot_at_total s i :
  Z.of_nat (length s) = cap -> 0 <= i < cap -> exists e, slot_at s i e /\ arr_get s i = Done e.
Proof.
  intros Hl Hi. destruct (arr_get_in s i) as (e & Hg & He); [lia|].
  exists e. by split; [split|].
Qed.

Lemma slot_at_fun s i e e' : slot_at s i e -> slot_at s i e' -> e = e'.
Proof. intros [_ H1] [_ H2]. congruence. Qed.

Lemma slot_at_insert s i j e e' : Z.of_nat (length s) = cap -> 0 <= i < cap ->
  slot_at (<[Z.to_nat i := e]> s) j e' <->
  (i = j /\ e = e') \/ (i <> j /\ slot_at s j e').
Proof.
  intros Hl Hi. unfold slot_at. rewrite list_lookup_insert.
  destruct (decide (i = j)) as [->|Hne].
  - rewrite decide_True by (split; [done|lia]). naive_solver.
  - destruct (decide (0 <= j < cap)); [|naive_solver].
    rewrite decide_False by lia. naive_solver.
Qed.

(** *** The entries of the table *)
Lemma entries_fill s i e :
  slot_at s i None -> omap id (<[Z.to_nat i := Some e]> s) ≡ₚ e :: omap id s.
Proof.
  intros [Hi Hs]. rewrite <- (take_drop_middle s _ _ Hs) at 2.
  rewrite insert_take_drop by (by eapply lookup_lt_Some).
  rewrite !omap_app. cbn. by rewrite Permutation_middle.
Qed.

Lemma entries_clear s i e :
  slot_at s i (Some e) -> omap id s ≡ₚ e :: omap id (<[Z.to_nat i := None]> s).
Proof.
  intros [Hi Hs]. rewrite <- (take_drop_middle s _ _ Hs) at 1.
  rewrite insert_take_drop by (by eapply lookup_lt_Some).
  rewrite !omap_app. cbn. by rewrite Permutation_middle.
Qed.

Lemma elem_of_entries s e :
  Z.of_nat (length s) = cap -> e ∈ omap id s <-> exists i, slot_at s i (Some e).
Proof.
  intros Hl. rewrite list_elem_of_omap. unfold slot_at. split.
  - intros (x & Hx & He). apply list_elem_of_lookup in Hx as [n Hn].
    exists (Z.of_nat n). pose proof (lookup_lt_Some _ _ _ Hn). rewrite Nat2Z.id.
    unfold id in He. naive_solver lia.
  - intros (i & _ & Hi). exists (Some e). split; [|done]. by eapply list_elem_of_lookup_2.
Qed.

Lemma key_unique s i j key v v' :
  Z.of_nat (length s) = cap -> NoDup (keys_of s) ->
  slot_at s i (Some (key, v)) -> slot_at s j (Some (key, v')) -> i = j.
Proof.
  intros Hl Hnd Hi Hj. destruct (decide (i = j)) as [|Hne]; [done|exfalso].
  unfold keys_of in Hnd. rewrite (entries_clear _ _ _ Hi) in Hnd. cbn in Hnd.
  apply NoDup_cons_1_1 in Hnd. apply Hnd. apply list_elem_of_fmap.
  exists (key, v'). split; [done|]. apply elem_of_entries; [by rewrite length_insert|].
  exists j. apply slot_at_insert; [done|apply Hi|]. naive_solver.
Qed.

(** A table that is not full has a vacant slot. *)
Lemma vacant_exists s :
  Z.of_nat (length s) = cap -> Z.of_nat (length (omap id s)) < cap ->
  exists e, slot_at s e None.
Proof.
  intros Hl Hc.
  assert (length (omap id s) < length s)%nat as Hlt by lia. clear Hc.
  assert (exists n, s !! n = Some None) as [n Hn].
  { clear Hl. induction s as [|[kv|] s IH]; cbn in Hlt; [lia| |by exists 0%nat].
    destruct IH as [n Hn]; [lia|]. by exists (S n). }
  exists (Z.of_nat n). pose proof (lookup_lt_Some _ _ _ Hn).
  split; [lia|]. by rewrite Nat2Z.id.
Qed.

(** *** Probing *)
Definition probe_post (s : list (option (Z * V))) (key : Z) (p : probed) : Prop :=
  match p with
  | Occupied i v => slot_at s i (Some (key, v))
  | Vacant i =>
      slot_at s i None /\
      forall j, 0 <= j < cap -> dist cap (h key) j < dist cap (h key) i ->
        exists k' v', slot_at s j (Some (k', v')) /\ k' <> key
  end.

Lemma probe_from s key e fuel idx :
  Z.of_nat (length s) = cap -> slot_at s e None -> 0 <= idx < cap ->
  (forall j, 0 <= j < cap -> dist cap (h key) j < dist cap (h key) idx ->
     exists k' v', slot_at s j (Some (k', v')) /\ k' <> key) ->
  cap - dist cap (h key) idx <= Z.of_nat fuel ->
  exists p, probe fuel s (cap - 1) key idx = Done p /\ probe_post s key p.
Proof.
  intros Hl He. pose proof (fib_hash_range key k Hk) as Hh.
  revert idx. induction fuel as [|fuel IH]; intros idx Hidx Hpre Hf; [dist_lia|].
  destruct (slot_at_total s idx) as (slot & Hs & Hg); [done..|].
  cbn. rewrite Hg. exec_simpl. destruct slot as [[k' v']|]; [|by eexists].
  case_decide as E; [subst; by eexists|].
  assert (dist cap (h key) idx <> dist cap (h key) e) as Hne.
  { intros Heq. assert (idx = e) as -> by (destruct He; dist_lia).
    by pose proof (slot_at_fun _ _ _ _ Hs He). }
  assert (~ dist cap (h key) e < dist cap (h key) idx) as Hnlt.
  { intros Hlt. destruct (Hpre e) as (k2 & v2 & H2 & _); [apply He|done|].
    by pose proof (slot_at_fun _ _ _ _ H2 He). }
  rewrite next_slot by done. destruct He as [Her _].
  apply IH; [case_decide; lia| |].
  - intros j Hj Hlt.
    destruct (decide (j = idx)) as [->|Hj']; [by exists k', v'|].
    apply Hpre; [done|]. destruct (decide (idx + 1 = cap)); dist_lia.
  - destruct (decide (idx + 1 = cap)); dist_lia.
Qed.

Lemma probe_spec s key :
  Z.of_nat (length s) = cap -> Z.of_nat (length (omap id s)) < cap ->
  exists p, probe (length s) s (cap - 1) key (h key) = Done p /\ probe_post s key p.
Proof.
  intros Hl Hc. destruct (vacant_exists s) as [e He]; [done..|].
  pose proof (fib_hash_range key k Hk). eapply probe_from; [done..| |dist_lia].
  intros j Hj Hlt. exfalso. dist_lia.
Qed.

(** A probe that stops at a vacant slot shows that the key is absent. *)
Lemma vacant_absent s key i :
  slots_ok (fun _ => False) s -> probe_post s key (Vacant i) ->
  forall j v, ~ slot_at s j (Some (key, v)).
Proof.
  intros [Hl Hnd Hc] [Hi Hbefore] j v Hj.
  destruct (Z.lt_trichotomy (dist cap (h key) j) (dist cap (h key) i)) as [Hlt|[Heq|Hgt]].
  - destruct (Hbefore j) as (k' & v' & H' & Hne); [apply Hj|done|].
    pose proof (slot_at_fun _ _ _ _ Hj H'). congruence.
  - assert (j = i) as ->.
    { pose proof (fib_hash_range key k Hk). destruct Hi, Hj. dist_lia. }
    by pose proof (slot_at_fun _ _ _ _ Hj Hi).
  - destruct (Hc j key v i) as [[e He]|[]]; [done|apply Hi|done|].
    by pose proof (slot_at_fun _ _ _ _ He Hi).
Qed.

(** *** Filling a vacant slot, replacing a value *)
Lemma fill_ok s key v i :
  slots_ok (fun _ => False) s -> probe_post s key (Vacant i) ->
  slots_ok (fun _ => False) (<[Z.to_nat i := Some (key, v)]> s).
Proof.
  intros Hok Hp. pose proof (vacant_absent _ _ _ Hok Hp) as Habs.
  destruct Hok as [Hl Hnd Hc], Hp as [Hi Hbefore]. split.
  - by rewrite length_insert.
  - unfold keys_of. rewrite entries_fill by done. cbn. constructor; [|done].
    intros ((k' & v') & Hk' & Hin)%list_elem_of_fmap. cbn in Hk'. subst k'.
    apply elem_of_entries in Hin as [j Hj]; [|done]. by eapply Habs.
  - intros i' key' v' j Hs' Hj Hlt. left.
    destruct (decide (i = j)) as [->|Hne].
    { eexists. apply slot_at_insert; [done..|]. by left. }
    apply slot_at_insert in Hs' as [[-> [= -> ->]]|[Hne' Hs']]; [| |done|apply Hi].
    + destruct (Hbefore j) as (k2 & v2 & H2 & _); [done..|].
      eexists. apply slot_at_insert; [done|apply Hi|]. right. naive_solver.
    + destruct (Hc i' key' v' j) as [[e He]|[]]; [done..|].
      exists e. apply slot_at_insert; [done|apply Hi|]. naive_solver.
Qed.

Lemma keys_replace s key v v' i :
  slot_at s i (Some (key, v)) -> keys_of (<[Z.to_nat i := Some (key, v')]> s) = keys_of s.
Proof.
  intros [Hi Hs]. unfold keys_of. rewrite <- (take_drop_middle s _ _ Hs) at 2.
  rewrite insert_take_drop by (by eapply lookup_lt_Some).
  by rewrite !omap_app, !fmap_app.
Qed.

Lemma replace_ok X s key v v' i :
  slots_ok X s -> slot_at s i (Some (key, v)) ->
  slots_ok X (<[Z.to_nat i := Some (key, v')]> s).
Proof.
  intros [Hl Hnd Hc] Hi. split.
  - by rewrite length_insert.
  - by erewrite keys_replace.
  - intros i' key' w j Hs' Hj Hlt.
    assert (exists w', slot_at s i' (Some (key', w'))) as [w' Hw'].
    { apply slot_at_insert in Hs' as [[-> [= -> ->]]|[? ?]]; eauto. apply Hi. }
    destruct (Hc i' key' w' j) as [[e He]|?]; [done..| |by right]. left.
    destruct (decide (i = j)) as [->|]; eexists;
      (apply slot_at_insert; [done|apply Hi|]); naive_solver.
Qed.

(** *** Backward-shift deletion *)
Lemma should_move_spec natural hole scan :
  0 <= natural < cap -> 0 <= hole < cap -> 0 <= scan < cap ->
  should_move natural hole scan = true <-> dist cap natural hole < dist cap natural scan.
Proof.
  intros. unfold should_move, dist.
  destruct (Z.leb_spec natural scan); repeat case_decide; lia.
Qed.

(** Between the hole and the scan position every slot holds an entry that is
    reachable without passing the hole. *)
Definition settled (s : list (option (Z * V))) (hole scan : Z) : Prop :=
  forall j, 0 <= j < cap -> 0 < dist cap hole j < dist cap hole scan ->
    exists k' v', slot_at s j (Some (k', v')) /\
      ~ dist cap (h k') hole < dist cap (h k') j.

Record shifting (s : list (option (Z * V))) (hole scan e : Z) : Prop := {
  sh_ok : slots_ok (fun j => j = hole) s;
  sh_hole : slot_at s hole None;
  sh_scan : 0 <= scan < cap;
  sh_settled : settled s hole scan;
  sh_end : slot_at s e None;
  sh_order : 0 < dist cap hole scan <= dist cap hole e;
}.

Lemma swap_spec s a b x y :
  Z.of_nat (length s) = cap -> slot_at s a x -> slot_at s b y -> 
  swap s a b = Done (<[Z.to_nat b := x]> (<[Z.to_nat a := y]> s)).
Proof.
  intros Hl [Ha Hx] [Hb Hy]. unfold swap.
  rewrite (proj2 (arr_get_Done s a x)), (proj2 (arr_get_Done s b y)) by (split; [lia|done]).
  exec_simpl. rewrite arr_set_Done by lia. exec_simpl.
  rewrite arr_set_Done by (rewrite length_insert; lia). done.
Qed.

Lemma shifting_done s hole scan e :
  shifting s hole scan e -> slot_at s scan None -> slots_ok (fun _ => False) s.
Proof.
  intros [[Hl Hnd Hc] Hh Hsc Hset He Hord] Hs. split; [done..|].
  intros i key v j Hi Hj Hlt. left.
  destruct (Hc i key v j) as [?| ->]; [done..|]. exfalso.
  assert (i <> hole) as Hih by (intros ->; by pose proof (slot_at_fun _ _ _ _ Hi Hh)).
  assert (i <> scan) as His by (intros ->; by pose proof (slot_at_fun _ _ _ _ Hi Hs)).
  pose proof (fib_hash_range key k Hk). pose proof (proj1 Hi). pose proof (proj1 Hh).
  destruct (decide (dist cap hole i < dist cap hole scan)) as [Hb|Hb].
  - destruct (Hset i) as (k' & v' & H' & Hn); [done|dist_lia|].
    pose proof (slot_at_fun _ _ _ _ Hi H'). naive_solver.
  - destruct (Hc i key v scan) as [[x Hx]|Hx]; [done..|dist_lia| |dist_lia].
    by pose proof (slot_at_fun _ _ _ _ Hx Hs).
Qed.

Lemma scan_before_end s hole scan e x :
  shifting s hole scan e -> slot_at s scan (Some x) -> dist cap hole scan < dist cap hole e.
Proof.
  intros [_ Hh _ _ He Hord] Hs.
  assert (scan <> e) by (intros ->; by pose proof (slot_at_fun _ _ _ _ Hs He)).
  destruct Hh, Hs, He. dist_lia.
Qed.

Lemma shifting_keep s hole scan e k' v' :
  shifting s hole scan e -> slot_at s scan (Some (k', v')) ->
  should_move (h k') hole scan = false ->
  shifting s hole (if decide (scan + 1 = cap) then 0 else scan + 1) e.
Proof.
  intros Hsh Hs Hm. pose proof (scan_before_end _ _ _ _ _ Hsh Hs) as Hlt.
  destruct Hsh as [Hok Hh Hsc Hset He Hord].
  pose proof (proj1 Hh). pose proof (proj1 He). pose proof (fib_hash_range k' k Hk).
  assert (~ dist cap (h k') hole < dist cap (h k') scan) as Hn.
  { intros Hc. rewrite <- should_move_spec in Hc by done. congruence. }
  split; [done|done|case_decide; lia| |done|].
  - intros j Hj Hd. destruct (decide (j = scan)) as [->|Hjs]; [by exists k', v'|].
    apply Hset; [done|]. destruct (decide (scan + 1 = cap)); dist_lia.
  - destruct (decide (scan + 1 = cap)); dist_lia.
Qed.

Lemma entries_move s hole scan x :
  Z.of_nat (length s) = cap -> slot_at s hole None -> slot_at s scan (Some x) ->
  omap id (<[Z.to_nat scan := None]> (<[Z.to_nat hole := Some x]> s)) ≡ₚ omap id s.
Proof.
  intros Hl Hh Hs.
  assert (hole <> scan) by (intros ->; by pose proof (slot_at_fun _ _ _ _ Hh Hs)).
  apply (Permutation_cons_inv (a := x)).
  rewrite <- entries_clear; [by apply entries_fill|].
  apply slot_at_insert; [done|apply Hh|]. by right.
Qed.

Lemma shifting_move s hole scan e k' v' :
  shifting s hole scan e -> slot_at s scan (Some (k', v')) ->
  should_move (h k') hole scan = true ->
  shifting (<[Z.to_nat scan := None]> (<[Z.to_nat hole := Some (k', v')]> s)) scan
    (if decide (scan + 1 = cap) then 0 else scan + 1) e.
Proof.
  intros Hsh Hs Hm. pose proof (scan_before_end _ _ _ _ _ Hsh Hs) as Hlt.
  destruct Hsh as [[Hl Hnd Hc] Hh Hsc Hset He Hord].
  pose proof (proj1 Hh) as Hhr. pose proof (proj1 He). pose proof (fib_hash_range k' k Hk).
  rewrite should_move_spec in Hm by done.
  assert (hole <> scan) as Hhs by (intros ->; by pose proof (slot_at_fun _ _ _ _ Hh Hs)).
  assert (scan <> e) as Hse by (intros ->; by pose proof (slot_at_fun _ _ _ _ Hs He)).
  assert (hole <> e) as Hhe by (intros ->; dist_lia).
  set (s' := <[Z.to_nat scan := None]> _).
  assert (forall j x, slot_at s' j x <->
    (j = scan /\ x = None) \/ (j = hole /\ x = Some (k', v')) \/
    (j <> scan /\ j <> hole /\ slot_at s j x)) as Hat.
  { intros j x. unfold s'. rewrite !slot_at_insert by (done || by rewrite length_insert).
    naive_solver. }
  split; [split| | | | |].
  - unfold s'. by rewrite !length_insert.
  - unfold keys_of, s'. by rewrite entries_move.
  - intros i key v j Hi Hj Hd. destruct (decide (j = scan)) as [->|Hjs]; [by right|].
    left. destruct (decide (j = hole)) as [->|Hjh]; [eexists; apply Hat; naive_solver|].
    assert (occupied s j \/ j = hole) as [[x Hx]|?]; [|exists x; apply Hat; naive_solver|done].
    apply Hat in Hi as [[? ?]|[[-> [= -> ->]]|(? & ? & Hi)]]; [done| |by eapply Hc].
    apply (Hc scan k' v'); [done..|lia].
  - apply Hat. by left.
  - case_decide; lia.
  - intros j Hj Hd. exfalso. destruct (decide (scan + 1 = cap)); dist_lia.
  - apply Hat. naive_solver.
  - destruct (decide (scan + 1 = cap)); dist_lia.
Qed.

Lemma back_shift_spec fuel s hole scan e :
  shifting s hole scan e -> dist cap scan e < Z.of_nat fuel ->
  exists s', back_shift fuel s (cap - 1) hole scan = Done s' /\
    slots_ok (fun _ => False) s' /\ omap id s' ≡ₚ omap id s.
Proof.
  revert s hole scan. induction fuel as [|fuel IH]; intros s hole scan Hsh Hf.
  { destruct Hsh as [_ _ ? _ [? _] _]. dist_lia. }
  pose proof (so_length _ _ (sh_ok _ _ _ _ Hsh)) as Hl.
  destruct (slot_at_total s scan) as (slot & Hs & Hg); [done|apply Hsh|].
  cbn. rewrite Hg. exec_simpl. destruct slot as [[k' v']|].
  2: { exists s. split_all; [done| |done]. by eapply shifting_done. }
  pose proof (scan_before_end _ _ _ _ _ Hsh Hs) as Hlt.
  pose proof (sh_end _ _ _ _ Hsh) as [Her _]. pose proof (sh_scan _ _ _ _ Hsh) as Hsr.
  pose proof (sh_hole _ _ _ _ Hsh) as Hh. pose proof (proj1 Hh) as Hhr.
  rewrite next_slot by done. destruct should_move eqn:Hm.
  - rewrite (swap_spec s hole scan None (Some (k', v'))) by done. exec_simpl.
    destruct (IH _ _ _ (shifting_move _ _ _ _ _ _ Hsh Hs Hm)) as (s' & Hb & Hok & Hp).
    { destruct (decide (scan + 1 = cap)); dist_lia. }
    exists s'. split_all; [done..|]. by rewrite Hp, entries_move.
  - apply IH; [by eapply shifting_keep|]. destruct (decide (scan + 1 = cap)); dist_lia.
Qed.

Lemma take_shifting s i key v :
  slots_ok (fun _ => False) s -> Z.of_nat (length (omap id s)) < cap ->
  slot_at s i (Some (key, v)) ->
  exists e, shifting (<[Z.to_nat i := None]> s) i
    (if decide (i + 1 = cap) then 0 else i + 1) e /\
    dist cap (if decide (i + 1 = cap) then 0 else i + 1) e < cap.
Proof.
  intros [Hl Hnd Hc] Hcnt Hi. destruct (vacant_exists s) as [e He]; [done..|].
  assert (i <> e) as Hne by (intros ->; by pose proof (slot_at_fun _ _ _ _ Hi He)).
  pose proof (proj1 Hi). pose proof (proj1 He).
  exists e. split; [split; [split| | | | |]|].
  - by rewrite length_insert.
  - unfold keys_of in *. rewrite (entries_clear _ _ _ Hi) in Hnd. by apply NoDup_cons_1_2 in Hnd.
  - intros i' key' v' j Hi' Hj Hd. destruct (decide (j = i)) as [->|]; [by right|]. left.
    apply slot_at_insert in Hi' as [[_ ?]|[? Hi']]; [done| |done..].
    destruct (Hc i' key' v' j) as [[x Hx]|[]]; [done..|].
    exists x. apply slot_at_insert; naive_solver.
  - apply slot_at_insert; naive_solver.
  - case_decide; lia.
  - intros j Hj Hd. exfalso. destruct (decide (i + 1 = cap)); dist_lia.
  - apply slot_at_insert; naive_solver.
  - destruct (decide (i + 1 = cap)); dist_lia.
  - destruct (decide (i + 1 = cap)); dist_lia.
Qed.

(** *** Fresh tables *)
Lemma entries_none n : omap id (replicate n (@None (Z * V))) = [].
Proof. by induction n. Qed.

Lemma alloc_ok : slots_ok (fun _ => False) (replicate (Z.to_nat cap) None).
Proof.
  split.
  - rewrite length_replicate. lia.
  - unfold keys_of. rewrite entries_none. constructor.
  - intros i key v j [_ Hi]. apply lookup_replicate in Hi as [? _]. done.
Qed.

End Slots.

End FixedMap.
