(* ===== verification/FixedMapSpec.v ===== *)
(** * The hash map implements a finite map

    Refinement of the table of [FixedMap] to [gmap Z V]: every operation of
    [kernel/src/capability/slab.rs] returns (no panic, no endless probe) and
    acts on the abstract map as its documentation says. *)

From S2P Require Import Prelude FixedMap.

Module FixedMapSpec.
Import FixedMap.

(** ** The table implements a finite map

    75% of [DEFAULT_CAPACITY]: the most entries [insert] accepts. *)
Definition MAX_LOAD : Z := 12288.

Definition map_ok {V} (m : t V) : Prop :=
  match slots m with
  | None => capacity m = 0 /\ mask m = 0 /\ len m = 0
  | Some s =>
      slots_ok 14 (fun _ => False) s /\
      capacity m = DEFAULT_CAPACITY /\ mask m = DEFAULT_CAPACITY - 1 /\
      len m = Z.of_nat (length (iter m)) /\ len m <= MAX_LOAD
  end.

#[global] Instance map_model {V} : Model (t V) (gmap Z V) := {|
  wf := map_ok;
  view m := list_to_map (iter m);
|}.

Section Refinement.
Context {V : Type}.
Implicit Types (m : t V) (key : Z) (v : V).

Lemma new_wf : wf (new : t V).
Proof. done. Qed.

Lemma new_view : view (new : t V) = ∅.
Proof. done. Qed.

Lemma iter_nodup m : wf m -> NoDup (iter m).*1.
Proof.
  unfold wf, map_model, map_ok, iter. destruct (slots m) as [s|]; [|intros _; constructor].
  intros [[_ Hnd _] _]. exact Hnd.
Qed.

Lemma view_perm m m' : wf m -> iter m' ≡ₚ iter m -> view m' = view m.
Proof.
  intros Hw Hp. symmetry. apply list_to_map_proper; [by apply iter_nodup|done].
Qed.

Lemma view_cons m m' key v :
  wf m' -> iter m' ≡ₚ (key, v) :: iter m -> view m' = <[key := v]> (view m).
Proof.
  intros Hw Hp. change (<[key := v]> (view m)) with (list_to_map ((key, v) :: iter m) : gmap Z V).
  apply list_to_map_proper; [by apply iter_nodup|done].
Qed.

Lemma elem_of_iter m key v : wf m -> (key, v) ∈ iter m <-> view m !! key = Some v.
Proof. intros Hw. apply elem_of_list_to_map. by apply iter_nodup. Qed.

Lemma len_view m : wf m -> len m = Z.of_nat (size (view m)) /\ len m <= MAX_LOAD.
Proof.
  intros Hw. assert (len m = Z.of_nat (length (iter m)) /\ len m <= MAX_LOAD) as [-> ?].
  { revert Hw. unfold wf, map_model, map_ok, iter, MAX_LOAD. destruct (slots m); [tauto|].
    intros (_ & _ & ->). cbn. lia. }
  split; [|done]. unfold view, map_model. rewrite <- length_map_to_list. f_equal. apply Permutation_length.
  symmetry. apply map_to_list_to_map. by apply iter_nodup.
Qed.

Lemma ensure_init_ok m : wf m ->
  wf (ensure_init m) /\ iter (ensure_init m) = iter m /\ is_Some (slots (ensure_init m)).
Proof.
  intros Hw. unfold ensure_init. destruct (slots m) as [s|] eqn:Hs; [by rewrite Hs|].
  revert Hw. unfold wf, map_model, map_ok, iter. rewrite Hs. intros (Hc & Hm & Hn).
  unfold alloc_slots. cbn [slots capacity mask len]. rewrite entries_none, Hn.
  split_all; [by apply (alloc_ok 14)|done..].
Qed.

(** What every operation knows of an initialised, well-formed table. *)
Lemma wf_slots m s : wf m -> slots m = Some s ->
  slots_ok 14 (fun _ => False) s /\ Z.of_nat (length (omap id s)) < 2 ^ 14 /\
  mask m = 2 ^ 14 - 1 /\ capacity m * 3 / 4 = MAX_LOAD /\
  len m = Z.of_nat (length (omap id s)) /\ len m <= MAX_LOAD.
Proof.
  unfold wf, map_model, map_ok, iter. intros Hw Hs. rewrite Hs in Hw.
  destruct Hw as (Hok & Hc & Hm & Hn & Hle). rewrite Hc, Hm, <- Hn.
  unfold MAX_LOAD, DEFAULT_CAPACITY in *. split_all; try done; lia.
Qed.

Lemma wf_intro m s (s' : list (option (Z * V))) n :
  wf m -> slots m = Some s -> slots_ok 14 (fun _ => False) s' ->
  n = Z.of_nat (length (omap id s')) -> n <= MAX_LOAD ->
  wf (mk (Some s') (capacity m) (mask m) n).
Proof.
  unfold wf, map_model, map_ok, iter. intros Hw Hs. rewrite Hs in Hw.
  destruct Hw as (_ & Hc & Hm & _ & _). cbn [slots capacity mask len]. naive_solver.
Qed.

Lemma probe_table m s key : wf m -> slots m = Some s ->
  exists p, probe (length s) s (mask m) key (fib_hash key (mask m)) = Done p /\
    probe_post 14 s key p.
Proof.
  intros Hw Hs. destruct (wf_slots m s Hw Hs) as ([Hl _ _] & Hlt & -> & _).
  by apply probe_spec.
Qed.

Lemma view_occupied m s key i v : wf m -> slots m = Some s ->
  slot_at 14 s i (Some (key, v)) -> view m !! key = Some v.
Proof.
  intros Hw Hs Hi. apply elem_of_iter; [done|]. unfold iter. rewrite Hs.
  destruct (wf_slots m s Hw Hs) as ([Hl _ _] & _). apply (elem_of_entries 14 ltac:(lia) _ _ Hl). eauto.
Qed.

Lemma view_vacant m s key i : wf m -> slots m = Some s ->
  probe_post 14 s key (Vacant i) -> view m !! key = None.
Proof.
  intros Hw Hs Hp. destruct (wf_slots m s Hw Hs) as (Hok & _).
  apply eq_None_not_Some. intros [v Hv].
  apply elem_of_iter in Hv; [|done]. unfold iter in Hv. rewrite Hs in Hv.
  apply (elem_of_entries 14 ltac:(lia)) in Hv as [j Hj]; [|apply Hok].
  by eapply (vacant_absent 14 ltac:(lia)).
Qed.

Lemma get_view m key : wf m -> get m key = Done (view m !! key).
Proof.
  intros Hw. unfold get. destruct (slots m) as [s|] eqn:Hs.
  - destruct (probe_table m s key Hw Hs) as (p & -> & Hp). exec_simpl. destruct p as [i|i v].
    + by erewrite view_vacant.
    + by erewrite view_occupied.
  - unfold view, map_model, iter. by rewrite Hs.
Qed.

Lemma contains_key_view m key :
  wf m -> contains_key m key = Done (bool_decide (is_Some (view m !! key))).
Proof.
  intros Hw. unfold contains_key. rewrite get_view by done. exec_simpl. f_equal.
  destruct (view m !! key); [by rewrite bool_decide_true|].
  rewrite bool_decide_false; [done|]. by intros [? ?].
Qed.

(** Replacing the value of a key that is present. *)
Lemma replace_view m s key i v v' : wf m -> slots m = Some s ->
  slot_at 14 s i (Some (key, v)) ->
  let m' := mk (Some (<[Z.to_nat i := Some (key, v')]> s)) (capacity m) (mask m) (len m) in
  wf m' /\ view m' = <[key := v']> (view m).
Proof.
  intros Hw Hs Hi m'. destruct (wf_slots m s Hw Hs) as (Hok & _ & _ & _ & Hn & Hle).
  assert (omap id (<[Z.to_nat i := Some (key, v')]> s) ≡ₚ
    (key, v') :: omap id (<[Z.to_nat i := None]> s)) as Hp1.
  { rewrite <- (list_insert_insert_eq s (Z.to_nat i) (Some (key, v')) None).
    apply (entries_fill 14). apply slot_at_insert; [lia|apply Hok|apply Hi|by left]. }
  pose proof (entries_clear 14 _ _ _ Hi) as Hp2.
  assert (wf m') as Hw'.
  { eapply wf_intro; [done..|by apply (replace_ok 14 ltac:(lia) _ s key v)|rewrite Hn|done].
    f_equal. rewrite Hp1, Hp2. done. }
  split; [done|]. apply map_eq. intros k2. apply option_eq. intros w.
  rewrite <- elem_of_iter by done. unfold m', iter. cbn [slots].
  rewrite Hp1, elem_of_cons. rewrite lookup_insert.
  assert (NoDup ((key, v) :: omap id (<[Z.to_nat i := None]> s)).*1) as Hnd.
  { rewrite <- Hp2. apply iter_nodup in Hw. unfold iter in Hw. by rewrite Hs in Hw. }
  apply NoDup_cons_1_1 in Hnd.
  case_decide as E; [subst k2|].
  - split; [|naive_solver]. intros [[= <-]|Hin]; [done|]. exfalso. apply Hnd.
    apply list_elem_of_fmap. by exists (key, w).
  - rewrite <- elem_of_iter by done. unfold iter. rewrite Hs, Hp2, elem_of_cons. naive_solver.
Qed.

Lemma insert_view m key v : wf m ->
  exists m', insert m key v = Done (bool_decide (is_Some (view m !! key) \/ len m < MAX_LOAD), m') /\
    wf m' /\
    view m' = if bool_decide (is_Some (view m !! key) \/ len m < MAX_LOAD)
              then <[key := v]> (view m) else view m.
Proof.
  intros Hw. destruct (ensure_init_ok m Hw) as (Hw' & Hit & [s Hs]).
  assert (view (ensure_init m) = view m) as Hv by (unfold view, map_model; by rewrite Hit).
  assert (len (ensure_init m) = len m) as Hlen.
  { unfold ensure_init. by destruct (slots m). }
  rewrite <- Hv, <- Hlen. unfold insert. set (m0 := ensure_init m) in *. rewrite Hs.
  destruct (probe_table m0 s key Hw' Hs) as (p & -> & Hp). exec_simpl.
  destruct (wf_slots m0 s Hw' Hs) as (Hok & Hlt & Hmask & Hload & Hn & Hle). rewrite Hload.
  destruct p as [i|i w].
  - pose proof (view_vacant _ _ _ _ Hw' Hs Hp) as Habs. rewrite Habs.
    destruct (Z.geb_spec (len m0) MAX_LOAD) as [Hfull|Hroom].
    { exists m0. rewrite bool_decide_false; [done|]. intros [[? ?]|?]; [done|lia]. }
    rewrite bool_decide_true by (right; lia).
    destruct Hp as [Hi Hb]. rewrite arr_set_Done by (destruct Hok; destruct Hi; lia). exec_simpl.
    eexists. split; [done|].
    pose proof (entries_fill 14 s i (key, v) Hi) as Hpm.
    assert (wf (mk (Some (<[Z.to_nat i := Some (key, v)]> s)) (capacity m0) (mask m0) (len m0 + 1)))
      as Hw2.
    { eapply wf_intro; [done..|apply fill_ok; done| |lia]. rewrite Hpm. cbn. lia. }
    split; [done|].
    apply view_cons; [done|]. unfold iter. cbn [slots]. by rewrite Hs.
  - cbn in Hp. rewrite arr_set_Done by (destruct Hok; destruct Hp; lia). exec_simpl.
    rewrite bool_decide_true by (left; by erewrite view_occupied).
    eexists. split; [done|]. by eapply replace_view.
Qed.

Lemma get_mut_view m key : wf m ->
  match view m !! key with
  | None => get_mut m key = Done None
  | Some v => exists set, get_mut m key = Done (Some (v, set)) /\
      forall v', wf (set v') /\ view (set v') = <[key := v']> (view m)
  end.
Proof.
  intros Hw. unfold get_mut. destruct (slots m) as [s|] eqn:Hs.
  - destruct (probe_table m s key Hw Hs) as (p & -> & Hp). exec_simpl. destruct p as [i|i v].
    + by erewrite view_vacant.
    + erewrite view_occupied by done. eexists. split; [done|].
      intros v'. by eapply replace_view.
  - unfold view, map_model, iter. by rewrite Hs.
Qed.

Lemma get_or_insert_view m key default : wf m ->
  is_Some (view m !! key) \/ len m < MAX_LOAD ->
  exists set, get_or_insert m key default = Done (from_option id default (view m !! key), set) /\
    forall v', wf (set v') /\ view (set v') = <[key := v']> (view m).
Proof.
  intros Hw Hroom. destruct (ensure_init_ok m Hw) as (Hw' & Hit & _).
  assert (view (ensure_init m) = view m) as Hv by (unfold view, map_model; by rewrite Hit).
  assert (len (ensure_init m) = len m) as Hlen by (unfold ensure_init; by destruct (slots m)).
  unfold get_or_insert. set (m0 := ensure_init m) in *.
  rewrite contains_key_view by done. exec_simpl. rewrite Hv.
  destruct (view m !! key) as [v|] eqn:Hk.
  - rewrite bool_decide_true by done. exec_simpl.
    pose proof (get_mut_view m0 key Hw') as Hg. rewrite Hv, Hk in Hg.
    destruct Hg as (set & -> & Hset). by exists set.
  - rewrite bool_decide_false by (by intros [? ?]). exec_simpl.
    destruct (insert_view m0 key default Hw') as (m1 & -> & Hw1 & Hv1).
    rewrite Hv, Hlen, bool_decide_true in Hv1 by (right; destruct Hroom as [[? ?]|?]; done).
    exec_simpl. cbn [snd]. pose proof (get_mut_view m1 key Hw1) as Hg.
    rewrite Hv1, lookup_insert_eq in Hg. destruct Hg as (set & -> & Hset).
    exists set. split; [done|]. intros v'. destruct (Hset v') as [? ->].
    by rewrite insert_insert_eq.
Qed.

Lemma remove_view m key : wf m ->
  exists m', remove m key = Done (view m !! key, m') /\
    wf m' /\ view m' = delete key (view m).
Proof.
  intros Hw. unfold remove. destruct (slots m) as [s|] eqn:Hs.
  2: { exists m. assert (view m = ∅) as ->; [|by rewrite delete_empty].
    unfold view, map_model, iter. by rewrite Hs. }
  destruct (probe_table m s key Hw Hs) as (p & -> & Hp). exec_simpl.
  destruct (wf_slots m s Hw Hs) as (Hok & Hlt & Hmask & _ & Hn & Hle). destruct p as [i|i v].
  { exists m. rewrite (view_vacant m s key i) by done. split_all; [done..|].
    symmetry. apply delete_id. by eapply view_vacant. }
  cbn in Hp. rewrite (view_occupied m s key i v) by done.
  rewrite arr_set_Done by (destruct Hok; destruct Hp; lia). exec_simpl.
  destruct (take_shifting 14 ltac:(lia) s i key v Hok Hlt Hp) as (e & Hsh & Hd).
  rewrite Hmask, next_slot by (lia || apply Hp).
  destruct (back_shift_spec 14 ltac:(lia) (length s) _ _ _ _ Hsh) as (s' & -> & Hok' & Hpm).
  { destruct Hok. lia. }
  exec_simpl. eexists. split; [done|].
  pose proof (entries_clear 14 _ _ _ Hp) as Hc. rewrite <- Hpm in Hc.
  assert (wf (mk (Some s') (capacity m) (2 ^ 14 - 1) (len m - 1))) as Hw'.
  { rewrite <- Hmask. eapply wf_intro; [done..| |lia]. rewrite Hn, Hc. cbn. lia. }
  split; [done|].
  set (m' := mk (Some s') _ _ _) in *.
  assert (iter m ≡ₚ (key, v) :: iter m') as Hcons by (unfold iter; by rewrite Hs).
  rewrite (view_cons m' m key v) by done.
  rewrite delete_insert_id; [done|]. apply not_elem_of_list_to_map.
  apply iter_nodup in Hw. rewrite Hcons in Hw. by apply NoDup_cons_1_1 in Hw.
Qed.

Lemma clear_view m : wf m -> wf (clear m) /\ view (clear m) = ∅.
Proof.
  unfold clear. intros Hw. destruct (slots m) as [s|] eqn:Hs.
  - assert ((fun _ => None) <$> s = replicate (length s) (@None (Z * V))) as ->.
    { clear. induction s; cbn; congruence. }
    destruct (wf_slots m s Hw Hs) as ([Hl _ _] & _).
    assert (length s = Z.to_nat (2 ^ 14)) as -> by lia.
    split; [|unfold view, map_model, iter; cbn [slots]; by rewrite entries_none].
    eapply wf_intro; [done..|by apply alloc_ok|by rewrite entries_none|done].
  - split; [|done]. revert Hw. unfold wf, map_model, map_ok. rewrite Hs. naive_solver.
Qed.

End Refinement.
End FixedMapSpec.
