(* ===== verification/Trackers.v ===== *)
(** * Nonce and budget tracking of capabilities

    Models [kernel/src/capability/nonce.rs] and
    [kernel/src/capability/budget.rs] over the hash map. *)

From S2P Require Import Prelude Wire FixedMap FixedMapSpec.

(** ** Replay prevention ([nonce.rs]) *)
Module NonceTracker.

Record t : Type := mk { last_seen : FixedMap.t Z }.

Definition new : t := mk FixedMap.new.

Definition check_and_advance (tr : t) (cap_id nonce : Z) : exec (bool * t) :=
  entry ← FixedMap.get_or_insert (last_seen tr) cap_id 0;
  let '(cur, set) := entry in
  if nonce >? cur then Done (true, mk (set nonce))
  else Done (false, mk (set cur)).

Definition next_expected (tr : t) (cap_id : Z) : exec Z :=
  r ← FixedMap.get (last_seen tr) cap_id;
  Done (match r with Some n => u32_add n 1 | None => 1 end).

Definition remove (tr : t) (cap_id : Z) : exec t :=
  r ← FixedMap.remove (last_seen tr) cap_id;
  Done (mk (snd r)).

Definition clear (tr : t) : t := mk (FixedMap.clear (last_seen tr)).

#[global] Instance tracker_model : Model t (gmap Z Z) := {|
  wf tr := wf (last_seen tr);
  view tr := view (last_seen tr);
|}.

(** The highest nonce accepted so far; 0 before the first. *)
Definition last (tr : t) (cap_id : Z) : Z := from_option id 0 (view tr !! cap_id).

(** There is room for an entry of [cap_id]. *)
Definition room (tr : t) (cap_id : Z) : Prop :=
  is_Some (view tr !! cap_id) \/ FixedMap.len (last_seen tr) < FixedMapSpec.MAX_LOAD.

Lemma check_and_advance_spec tr cap_id nonce :
  wf tr -> room tr cap_id ->
  exists tr', check_and_advance tr cap_id nonce = Done (nonce >? last tr cap_id, tr') /\
    wf tr' /\
    view tr' = <[cap_id := Z.max (last tr cap_id) nonce]> (view tr).
Proof.
  intros Hw Hr. unfold check_and_advance.
  destruct (FixedMapSpec.get_or_insert_view (last_seen tr) cap_id 0 Hw Hr) as (set & -> & Hset).
  exec_simpl. fold (last tr cap_id). change (from_option id 0 _) with (last tr cap_id).
  destruct (Z.gtb_spec nonce (last tr cap_id)).
  - eexists. split; [done|]. destruct (Hset nonce). rewrite Z.max_r by lia. done.
  - eexists. split; [done|]. destruct (Hset (last tr cap_id)). rewrite Z.max_l by lia. done.
Qed.

Lemma nonce_remove_spec tr cap_id : wf tr ->
  exists tr', remove tr cap_id = Done tr' /\ wf tr' /\ view tr' = delete cap_id (view tr).
Proof.
  intros Hw. unfold remove.
  destruct (FixedMapSpec.remove_view (last_seen tr) cap_id Hw) as (m & -> & ? & ?).
  exec_simpl. by eexists.
Qed.

End NonceTracker.

(** ** Rate limiting ([budget.rs]) *)
Module BudgetTracker.

(** [(uses_this_interval, interval_start_tick)] per capability. *)
Record t : Type := mk { usage : FixedMap.t (Z * Z) }.

Definition new : t := mk FixedMap.new.

Definition check_and_consume (tr : t) (cap_id : Z) (budget : Budget.t) (current_tick : Z)
    : exec (bool * t) :=
  r ← FixedMap.get_or_insert (usage tr) cap_id (0, current_tick);
  let '(entry, set) := r in
  let entry :=
    if sat_sub current_tick (snd entry) >=? Budget.interval_ticks budget
    then (0, current_tick) else entry in
  if fst entry <? Budget.max_uses budget
  then Done (true, mk (set (u32_add (fst entry) 1, snd entry)))
  else Done (false, mk (set entry)).

Definition remaining (tr : t) (cap_id : Z) (budget : Budget.t) (current_tick : Z) : exec Z :=
  r ← FixedMap.get (usage tr) cap_id;
  Done (match r with
        | Some (used, start) =>
            if sat_sub current_tick start >=? Budget.interval_ticks budget
            then Budget.max_uses budget
            else sat_sub (Budget.max_uses budget) used
        | None => Budget.max_uses budget
        end).

Definition remove (tr : t) (cap_id : Z) : exec t :=
  r ← FixedMap.remove (usage tr) cap_id;
  Done (mk (snd r)).

Definition clear (tr : t) : t := mk (FixedMap.clear (usage tr)).

#[global] Instance tracker_model : Model t (gmap Z (Z * Z)) := {|
  wf tr := wf (usage tr);
  view tr := view (usage tr);
|}.

Definition room (tr : t) (cap_id : Z) : Prop :=
  is_Some (view tr !! cap_id) \/ FixedMap.len (usage tr) < FixedMapSpec.MAX_LOAD.

(** The effect of one use on the usage entry. *)
Definition consume (b : Budget.t) (entry : Z * Z) (tick : Z) : bool * (Z * Z) :=
  let entry := if sat_sub tick (snd entry) >=? Budget.interval_ticks b then (0, tick) else entry in
  if fst entry <? Budget.max_uses b then (true, (u32_add (fst entry) 1, snd entry))
  else (false, entry).

Lemma check_and_consume_spec tr cap_id b tick :
  wf tr -> room tr cap_id ->
  exists tr', check_and_consume tr cap_id b tick =
      Done (fst (consume b (from_option id (0, tick) (view tr !! cap_id)) tick), tr') /\
    wf tr' /\
    view tr' = <[cap_id := snd (consume b (from_option id (0, tick) (view tr !! cap_id)) tick)]> (view tr).
Proof.
  intros Hw Hr. unfold check_and_consume, consume.
  destruct (FixedMapSpec.get_or_insert_view (usage tr) cap_id (0, tick) Hw Hr) as (set & -> & Hset).
  exec_simpl. cbn [view tracker_model]. destruct (from_option id (0, tick) _) as [u st].
  cbn [fst snd]. destruct (_ >=? _); cbn [fst snd]; (destruct (_ <? _); [|]);
    (eexists; split; [done|]; apply Hset).
Qed.

Lemma budget_remove_spec tr cap_id : wf tr ->
  exists tr', remove tr cap_id = Done tr' /\ wf tr' /\ view tr' = delete cap_id (view tr).
Proof.
  intros Hw. unfold remove.
  destruct (FixedMapSpec.remove_view (usage tr) cap_id Hw) as (m & -> & ? & ?).
  exec_simpl. by eexists.
Qed.

(** *** The rate limit *)

(** The uses granted by a sequence of [check_and_consume] calls on one
    capability, at the given ticks. *)
Fixpoint granted (tr : t) (cap_id : Z) (b : Budget.t) (ticks : list Z) : exec (Z * t) :=
  match ticks with
  | [] => Done (0, tr)
  | tick :: rest =>
      r ← check_and_consume tr cap_id b tick;
      r' ← granted (snd r) cap_id b rest;
      Done ((if (fst r : bool) then 1 else 0) + fst r', snd r')
  end.

Fixpoint granted_from (b : Budget.t) (entry : Z * Z) (ticks : list Z) : Z :=
  match ticks with
  | [] => 0
  | tick :: rest =>
      let r := consume b entry tick in
      (if fst r then 1 else 0) + granted_from b (snd r) rest
  end.

Lemma granted_no_reset b used start ticks :
  0 <= Budget.max_uses b < 2 ^ 32 -> 0 <= used ->
  Forall (fun tick => tick < start + Budget.interval_ticks b) ticks ->
  0 < Budget.interval_ticks b ->
  granted_from b (used, start) ticks <= Z.max 0 (Budget.max_uses b - used).
Proof.
  intros Hb Hu Hall HL. revert used Hu. induction Hall as [|tick rest Ht _ IH]; intros used Hu.
  { cbn. lia. }
  cbn [granted_from]. unfold consume. cbn [fst snd].
  destruct (Z.geb_spec (sat_sub tick start) (Budget.interval_ticks b)) as [Hr|_].
  { unfold sat_sub in Hr. lia. }
  cbn [fst snd]. destruct (Z.ltb_spec used (Budget.max_uses b)) as [Hlt|Hge].
  - cbn [fst snd]. rewrite u32_add_small by lia. specialize (IH (used + 1)). lia.
  - cbn [fst snd]. specialize (IH used). lia.
Qed.

Lemma granted_window b a entry ticks :
  0 <= Budget.max_uses b < 2 ^ 32 -> 0 <= fst entry ->
  Forall (fun tick => a <= tick < a + Budget.interval_ticks b) ticks ->
  granted_from b entry ticks <= Z.max 0 (Budget.max_uses b - fst entry) + Budget.max_uses b.
Proof.
  intros Hb. revert entry. induction ticks as [|tick rest IH]; intros [used start] Hu Hall.
  { cbn. lia. }
  apply Forall_cons in Hall as [Ht Hrest]. cbn [fst] in *.
  cbn [granted_from]. unfold consume. cbn [fst snd].
  destruct (Z.geb_spec (sat_sub tick start) (Budget.interval_ticks b)) as [Hr|_].
  - assert (granted_from b (0, tick) (tick :: rest) <= Budget.max_uses b) as Hg.
    { etransitivity; [apply granted_no_reset; [done|lia| |lia]|lia].
      constructor; [lia|]. eapply Forall_impl; [done|]. cbn. lia. }
    cbn [granted_from] in Hg. unfold consume in Hg. cbn [fst snd] in *.
    destruct (Z.geb_spec (sat_sub tick tick) (Budget.interval_ticks b)) as [Hr'|_].
    { unfold sat_sub in Hr'. lia. }
    cbn [fst snd] in *. lia.
  - cbn [fst snd]. destruct (Z.ltb_spec used (Budget.max_uses b)) as [Hlt|Hge]; cbn [fst snd].
    + rewrite u32_add_small by lia. specialize (IH (used + 1, start)). cbn [fst] in IH.
      specialize (IH ltac:(lia) Hrest). lia.
    + specialize (IH (used, start) Hu Hrest). cbn [fst] in IH. lia.
Qed.

Lemma granted_entry tr cap_id b ticks :
  wf tr -> room tr cap_id -> 
  exists n tr', granted tr cap_id b ticks = Done (n, tr') /\ wf tr' /\
    match ticks with
    | [] => n = 0
    | tick :: _ => n = granted_from b (from_option id (0, tick) (view tr !! cap_id)) ticks
    end.
Proof.
  revert tr. induction ticks as [|tick rest IH]; intros tr Hw Hr; [by eexists _, _|].
  cbn [granted]. destruct (check_and_consume_spec tr cap_id b tick Hw Hr) as (tr1 & -> & Hw1 & Hv1).
  exec_simpl. cbn [fst snd]. destruct (IH tr1) as (n & tr2 & -> & Hw2 & Hn); [done| |].
  { left. rewrite Hv1, lookup_insert_eq. by eexists. }
  exec_simpl. cbn [fst snd]. eexists _, _. split_all; [done..|].
  cbn [granted_from]. destruct rest; [by rewrite Hn|].
  rewrite Hn, Hv1, lookup_insert_eq. done.
Qed.

End BudgetTracker.
