(* ===== verification/CapStore.v ===== *)
(** * The capability store

    Models [kernel/src/capability/store.rs] and the wrappers of
    [kernel/src/capability/mod.rs]: creation, delegation, validation and
    cascading revocation of tokens over the hash map, with the intrusive
    first-child / next-sibling lists. *)

From S2P Require Import Prelude Wire Crypto FixedMap FixedMapSpec Trackers.

Module CapStore.

Definition MAX_TOKENS : Z := 12288.

Record StoredToken : Type := mkStored {
  token : CapabilityToken.t;
  hmac : list Z;
  budget : option Budget.t;
  created_at : Z;
  first_child : Z;
  next_sibling : Z;
}.

Inductive CapabilityError : Type :=
| NotFound
| InvalidHmac
| Expired
| InsufficientPermission
| BudgetExhausted
| NonceReplay
| DelegationDenied
| PermissionEscalation
| StoreFull.

Record t : Type := mk {
  tokens : FixedMap.t StoredToken;
  next_id : Z;
  budget_tracker : BudgetTracker.t;
  nonce_tracker : NonceTracker.t;
  current_tick : Z;
}.

Definition new : t := mk FixedMap.new 1 BudgetTracker.new NonceTracker.new 0.

Definition with_tokens (st : t) (m : FixedMap.t StoredToken) : t :=
  mk m (next_id st) (budget_tracker st) (nonce_tracker st) (current_tick st).

Definition with_first_child (s : StoredToken) (c : Z) : StoredToken :=
  mkStored (token s) (hmac s) (budget s) (created_at s) c (next_sibling s).

Definition with_next_sibling (s : StoredToken) (c : Z) : StoredToken :=
  mkStored (token s) (hmac s) (budget s) (created_at s) (first_child s) c.

(** [alloc_id]. *)
Definition alloc_id (st : t) : Z * t :=
  (next_id st,
   mk (tokens st) (u64_add (next_id st) 1) (budget_tracker st) (nonce_tracker st)
     (current_tick st)).

(** The token both [create] and [delegate] build. *)
Definition make_token (permissions owner id resource delegated_from expires : Z) : CapabilityToken.t :=
  CapabilityToken.mk CapabilityToken.VERSION permissions owner id resource delegated_from 0 expires
    (CapabilityToken.extension_ptr CapabilityToken.zeroed)
    (CapabilityToken.reserved CapabilityToken.zeroed).

Section Store.
Context `{HmacSha3} (key : list Z).

Definition create (st : t) (resource permissions owner : Z) (expires : option Z)
    (budget : option Budget.t) : exec (result Z CapabilityError * t) :=
  if FixedMap.len (tokens st) >=? MAX_TOKENS then Done (Err StoreFull, st)
  else
    let '(id, st) := alloc_id st in
    let token := make_token permissions owner id resource 0 (from_option (fun e => e) 0 expires) in
    let hmac := HmacEngine.sign key (CapabilityToken.active_bytes token) in
    r ← FixedMap.insert (tokens st) id (mkStored token hmac budget (current_tick st) 0 0);
    Done (Ok id, with_tokens st (snd r)).

(** The expiry given to a delegated token. *)
Definition child_expires (expires : option Z) (parent_expires : Z) : Z :=
  match expires with
  | Some e => if (parent_expires >? 0) && (e >? parent_expires) then parent_expires else e
  | None => parent_expires
  end.

Definition delegate (st : t) (parent_id new_owner permissions : Z) (expires : option Z)
    (budget : option Budget.t) : exec (result Z CapabilityError * t) :=
  if FixedMap.len (tokens st) >=? MAX_TOKENS then Done (Err StoreFull, st)
  else
    r ← FixedMap.get (tokens st) parent_id;
    match r with
    | None => Done (Err NotFound, st)
    | Some parent =>
        let pperm := CapabilityToken.permissions (token parent) in
        if negb (Perm.contains pperm Perm.GRANT) then Done (Err DelegationDenied, st)
        else if negb (Perm.is_subset_of permissions pperm) then Done (Err PermissionEscalation, st)
        else
          let child_exp := child_expires expires (CapabilityToken.expires (token parent)) in
          let resource := CapabilityToken.resource (token parent) in
          let old_first_child := first_child parent in
          let '(id, st) := alloc_id st in
          let token := make_token permissions new_owner id resource parent_id child_exp in
          let hmac := HmacEngine.sign key (CapabilityToken.active_bytes token) in
          r ← FixedMap.insert (tokens st) id
                (mkStored token hmac budget (current_tick st) 0 old_first_child);
          p ← FixedMap.get_mut (snd r) parent_id;
          let tokens' :=
            match p with
            | Some (parent, set) => set (with_first_child parent id)
            | None => snd r
            end in
          Done (Ok id, with_tokens st tokens')
    end.

Definition validate (st : t) (token_id required_perm presented_nonce : Z)
    : exec (result unit CapabilityError * t) :=
  r ← FixedMap.get (tokens st) token_id;
  match r with
  | None => Done (Err NotFound, st)
  | Some stored =>
      let tok := token stored in
      if negb (HmacEngine.verify key (CapabilityToken.active_bytes tok) (hmac stored))
      then Done (Err InvalidHmac, st)
      else if (CapabilityToken.expires tok >? 0) &&
              (current_tick st >=? u64_add (created_at stored) (CapabilityToken.expires tok))
      then Done (Err Expired, st)
      else if negb (Perm.contains (CapabilityToken.permissions tok) required_perm)
      then Done (Err InsufficientPermission, st)
      else
        n ← NonceTracker.check_and_advance (nonce_tracker st) token_id presented_nonce;
        let st := mk (tokens st) (next_id st) (budget_tracker st) (snd n) (current_tick st) in
        if negb (fst n) then Done (Err NonceReplay, st)
        else
          match budget stored with
          | None => Done (Ok tt, st)
          | Some b =>
              u ← BudgetTracker.check_and_consume (budget_tracker st) token_id b (current_tick st);
              let st := mk (tokens st) (next_id st) (snd u) (nonce_tracker st) (current_tick st) in
              if negb (fst u) then Done (Err BudgetExhausted, st) else Done (Ok tt, st)
          end
  end.

End Store.

(** [self.tokens.get(&id).map(|s| s.first_child).unwrap_or(0)], and the same
    for [next_sibling]. *)
Definition first_child_of (m : FixedMap.t StoredToken) (id : Z) : exec Z :=
  r ← FixedMap.get m id;
  Done (from_option first_child 0 r).

Definition next_sibling_of (m : FixedMap.t StoredToken) (id : Z) : exec Z :=
  r ← FixedMap.get m id;
  Done (from_option next_sibling 0 r).

(** A walk along a sibling list visits each live token at most once. *)
Definition walk_fuel (m : FixedMap.t StoredToken) : nat := S (S (Z.to_nat (FixedMap.len m))).

(** The loop that looks for the predecessor of [child_id]. *)
Fixpoint unlink_walk (fuel : nat) (m : FixedMap.t StoredToken) (child_id child_next prev_id : Z)
    : exec (FixedMap.t StoredToken) :=
  match fuel with
  | O => Diverged
  | S fuel' =>
      if prev_id =? 0 then Done m
      else
        next ← next_sibling_of m prev_id;
        if next =? child_id then
          r ← FixedMap.get_mut m prev_id;
          Done (match r with
                | Some (prev, set) => set (with_next_sibling prev child_next)
                | None => m
                end)
        else unlink_walk fuel' m child_id child_next next
  end.

Definition unlink_child (m : FixedMap.t StoredToken) (parent_id child_id : Z)
    : exec (FixedMap.t StoredToken) :=
  child_next ← next_sibling_of m child_id;
  parent_first ← first_child_of m parent_id;
  if parent_first =? child_id then
    r ← FixedMap.get_mut m parent_id;
    Done (match r with
          | Some (parent, set) => set (with_first_child parent child_next)
          | None => m
          end)
  else unlink_walk (walk_fuel m) m child_id child_next parent_first.

Fixpoint children_walk (fuel : nat) (m : FixedMap.t StoredToken) (child_id : Z)
    : exec (list Z) :=
  match fuel with
  | O => Diverged
  | S fuel' =>
      if child_id =? 0 then Done []
      else
        next ← next_sibling_of m child_id;
        rest ← children_walk fuel' m next;
        Done (child_id :: rest)
  end.

Definition collect_children (m : FixedMap.t StoredToken) (parent_id : Z) : exec (list Z) :=
  c ← first_child_of m parent_id;
  children_walk (walk_fuel m) m c.

(** The depth-first removal; the stack is a [Vec], popped at its end. *)
Fixpoint revoke_loop (fuel : nat) (st : t) (stack : list Z) (count : Z) : exec (Z * t) :=
  match vec_pop stack with
  | None => Done (count, st)
  | Some (id, stack) =>
      match fuel with
      | O => Diverged
      | S fuel' =>
          children ← collect_children (tokens st) id;
          r ← FixedMap.remove (tokens st) id;
          match fst r with
          | Some _ =>
              b ← BudgetTracker.remove (budget_tracker st) id;
              n ← NonceTracker.remove (nonce_tracker st) id;
              revoke_loop fuel' (mk (snd r) (next_id st) b n (current_tick st))
                (stack ++ children) (count + 1)
          | None => revoke_loop fuel' (with_tokens st (snd r)) (stack ++ children) count
          end
      end
  end.

Definition revoke (st : t) (token_id : Z) : exec (result Z CapabilityError * t) :=
  r ← FixedMap.get (tokens st) token_id;
  match r with
  | None => Done (Err NotFound, st)
  | Some stored =>
      let parent_id := CapabilityToken.delegated_from (token stored) in
      m ← (if parent_id =? 0 then Done (tokens st)
           else unlink_child (tokens st) parent_id token_id);
      let st := with_tokens st m in
      r ← revoke_loop (Z.to_nat (FixedMap.len (tokens st))) st [token_id] 0;
      Done (Ok (fst r), snd r)
  end.

Definition get (st : t) (token_id : Z) : exec (option StoredToken) :=
  FixedMap.get (tokens st) token_id.

Definition get_token_info (st : t) (token_id : Z) : exec (option (Z * Z)) :=
  r ← FixedMap.get (tokens st) token_id;
  Done (option_map (fun s => (CapabilityToken.owner (token s),
                              CapabilityToken.resource (token s))) r).

Definition advance_ticks (st : t) (n : Z) : t :=
  mk (tokens st) (next_id st) (budget_tracker st) (nonce_tracker st)
    (u64_add (current_tick st) n).

Definition tick (st : t) : t := advance_ticks st 1.

Definition count (st : t) : Z := FixedMap.len (tokens st).

Definition clear (st : t) : t :=
  mk (FixedMap.clear (tokens st)) 1 (BudgetTracker.clear (budget_tracker st))
    (NonceTracker.clear (nonce_tracker st)) 0.

End CapStore.
