(* ===== verification/CapStoreInv.v ===== *)
(** * Invariant of the capability store

    The delegation forest kept in intrusive sibling lists, the invariant of
    the store, and that every operation returns and preserves it. *)

From S2P Require Import Prelude Wire Crypto FixedMap FixedMapSpec Trackers CapStore.

Module CapStoreInv.
Import CapStore.

Abbreviation tmap := (gmap Z StoredToken).

Definition parent_of (s : StoredToken) : Z := CapabilityToken.delegated_from (token s).
Definition perms (s : StoredToken) : Z := CapabilityToken.permissions (token s).

(** The sibling list that starts at [c]. *)
Inductive sib_chain (T : tmap) : Z -> list Z -> Prop :=
| chain_nil : sib_chain T 0 []
| chain_cons c s l :
    c <> 0 -> T !! c = Some s -> sib_chain T (next_sibling s) l -> sib_chain T c (c :: l).

(** Every live token's child list holds exactly its live children, those in
    [X] excepted (a token that is being revoked is detached first). *)
Definition child_list (T : tmap) (X : list Z) (p : Z) (s : StoredToken) (l : list Z) : Prop :=
  sib_chain T (first_child s) l /\ NoDup l /\
  forall c, c ∈ l <-> (exists sc, T !! c = Some sc /\ parent_of sc = p) /\ c ∉ X.

Definition forest (T : tmap) (X : list Z) : Prop :=
  forall p s, T !! p = Some s -> exists l, child_list T X p s l.

(** [b] is delegated, in any number of steps, from [a]. *)
Definition par (T : tmap) (b a : Z) : Prop := exists s, T !! b = Some s /\ parent_of s = a.
Definition descends (T : tmap) : Z -> Z -> Prop := rtc (par T).

(** ** Sibling lists *)
Lemma chain_live T c l : sib_chain T c l -> forall x, x ∈ l -> is_Some (T !! x).
Proof.
  induction 1 as [|c s l Hc Hs Hch IH]; intros x Hx; [by apply elem_of_nil in Hx|].
  apply elem_of_cons in Hx as [->|Hx]; [by eexists|by apply IH].
Qed.

Lemma chain_frame T T' c l : sib_chain T c l ->
  (forall x s, x ∈ l -> T !! x = Some s ->
     exists s', T' !! x = Some s' /\ next_sibling s' = next_sibling s) ->
  sib_chain T' c l.
Proof.
  induction 1 as [|c s l Hc Hs Hch IH]; intros Hf; [constructor|].
  destruct (Hf c s) as (s' & Hs' & Hn); [set_solver|done|].
  econstructor; [done..|]. rewrite Hn. apply IH. intros x sx Hx. apply Hf. set_solver.
Qed.

Lemma chain_fun T c l l' : sib_chain T c l -> sib_chain T c l' -> l = l'.
Proof.
  intros Hl. revert l'. induction Hl as [|c s l Hc Hs Hch IH]; intros l' Hl'.
  - inversion Hl'; [done|congruence].
  - inversion Hl' as [|? s' l1]; subst; [congruence|].
    assert (s' = s) as -> by congruence. f_equal. by apply IH.
Qed.

Lemma chain_head T h x l : sib_chain T h (x :: l) -> h = x.
Proof. by inversion 1. Qed.

(** Cutting [c] out of a list, after its predecessor [q]. *)
Lemma chain_unlink T h l1 q c l2 sq sc :
  sib_chain T h (l1 ++ q :: c :: l2) -> NoDup (l1 ++ q :: c :: l2) ->
  T !! q = Some sq -> T !! c = Some sc ->
  sib_chain (<[q := with_next_sibling sq (next_sibling sc)]> T) h (l1 ++ q :: l2).
Proof.
  intros Hch Hnd Hq Hc. revert h Hch. induction l1 as [|x l1 IH]; intros h Hch; cbn in *.
  - inversion Hch as [|? s l Hne Hs Hch1]; subst.
    inversion Hch1 as [|? s1 l' Hne1 Hs1 Hch2 Heq]; subst.
    assert (s1 = sc) as -> by congruence.
    econstructor; [done|by rewrite lookup_insert_eq|]. cbn.
    eapply chain_frame; [done|]. intros y sy Hy Hsy. exists sy. split; [|done].
    rewrite lookup_insert_ne; [done|]. intros ->. apply NoDup_cons_1_1 in Hnd. set_solver.
  - inversion Hch as [|? s l Hne Hs Hch1]; subst. apply NoDup_cons in Hnd as [Hx Hnd].
    econstructor; [done| |by apply IH]. rewrite lookup_insert_ne; [done|]. set_solver.
Qed.

(** ** The walks of the store *)
Section Walks.
Implicit Types (m : FixedMap.t StoredToken).

Lemma next_sibling_of_view m id :
  wf m -> next_sibling_of m id = Done (from_option next_sibling 0 (view m !! id)).
Proof. intros. unfold next_sibling_of. by rewrite FixedMapSpec.get_view. Qed.

Lemma first_child_of_view m id :
  wf m -> first_child_of m id = Done (from_option first_child 0 (view m !! id)).
Proof. intros. unfold first_child_of. by rewrite FixedMapSpec.get_view. Qed.

Lemma children_walk_chain m c l fuel :
  wf m -> sib_chain (view m) c l -> (length l < fuel)%nat -> children_walk fuel m c = Done l.
Proof.
  intros Hw Hch. revert fuel.
  induction Hch as [|c s l Hc Hs Hch IH]; intros [|fuel] Hf; cbn in *; try lia; [done|].
  rewrite (proj2 (Z.eqb_neq c 0)) by done.
  rewrite next_sibling_of_view, Hs by done. exec_simpl. cbn.
  rewrite IH by lia. done.
Qed.

(** A duplicate-free list of live tokens is no longer than the table. *)
Lemma live_length m l :
  wf m -> NoDup l -> (forall x, x ∈ l -> is_Some (view m !! x)) ->
  (length l <= Z.to_nat (FixedMap.len m))%nat.
Proof.
  intros Hw Hnd Hl. destruct (FixedMapSpec.len_view m Hw) as [Hlen _].
  assert (length l <= size (view m))%nat; [|lia].
  rewrite <- size_dom, <- (size_list_to_set (C := gset Z) l) by done.
  apply subseteq_size. intros x Hx. apply elem_of_dom, Hl. by apply elem_of_list_to_set in Hx.
Qed.

Lemma collect_children_spec m X p s :
  wf m -> forest (view m) X -> view m !! p = Some s ->
  exists l, collect_children m p = Done l /\ child_list (view m) X p s l.
Proof.
  intros Hw Hf Hp. destruct (Hf p s Hp) as (l & Hch & Hnd & Hl).
  exists l. split; [|done]. unfold collect_children.
  rewrite first_child_of_view, Hp by done. exec_simpl. cbn [from_option].
  apply children_walk_chain; [done..|]. unfold walk_fuel.
  assert (length l <= Z.to_nat (FixedMap.len m))%nat; [|lia].
  apply live_length; [done..|]. by eapply chain_live.
Qed.

Lemma unlink_walk_spec m c sc h l1 q l2 fuel :
  wf m -> sib_chain (view m) h (l1 ++ q :: c :: l2) -> NoDup (l1 ++ q :: c :: l2) ->
  view m !! c = Some sc -> (length l1 < fuel)%nat ->
  exists m' sq, unlink_walk fuel m c (next_sibling sc) h = Done m' /\ wf m' /\
    view m !! q = Some sq /\
    view m' = <[q := with_next_sibling sq (next_sibling sc)]> (view m).
Proof.
  intros Hw Hch Hnd Hc. revert h fuel Hch.
  induction l1 as [|x l1 IH]; intros h [|fuel] Hch Hf; cbn in Hf; try lia.
  - inversion Hch as [|? s l Hne Hs Hch1]; subst. inversion Hch1 as [|? s1 l' Hne1 Hs1 Hch2 Heq]; subst.
    cbn [unlink_walk]. rewrite (proj2 (Z.eqb_neq q 0)) by done.
    rewrite next_sibling_of_view, Hs by done. exec_simpl. cbn [from_option].
    rewrite Z.eqb_refl.
    pose proof (FixedMapSpec.get_mut_view m q Hw) as Hg. rewrite Hs in Hg.
    destruct Hg as (set & -> & Hset). exec_simpl.
    exists (set (with_next_sibling s (next_sibling sc))), s.
    destruct (Hset (with_next_sibling s (next_sibling sc))). done.
  - cbn in Hch, Hnd. apply NoDup_cons in Hnd as [Hx Hnd].
    inversion Hch as [|? s l Hne Hs Hch1]; subst. cbn [unlink_walk].
    rewrite (proj2 (Z.eqb_neq x 0)) by done.
    rewrite next_sibling_of_view, Hs by done. exec_simpl. cbn [from_option].
    destruct (Z.eqb_spec (next_sibling s) c) as [Heq|_].
    { exfalso. rewrite Heq in Hch1.
      destruct l1 as [|y l1]; cbn in *; apply chain_head in Hch1; subst;
        apply NoDup_cons_1_1 in Hnd; set_solver. }
    apply IH; [done..|lia].
Qed.

End Walks.

(** ** Detaching a token from its parent

    [unlink_child] changes links only. *)
Definition core (s : StoredToken) : StoredToken := with_first_child (with_next_sibling s 0) 0.

Definition same_core (T T' : tmap) : Prop := forall id, core <$> T' !! id = core <$> T !! id.

Lemma same_core_parent T T' id p :
  same_core T T' ->
  (exists s, T' !! id = Some s /\ parent_of s = p) <-> (exists s, T !! id = Some s /\ parent_of s = p).
Proof.
  intros H. specialize (H id).
  destruct (T' !! id) as [s'|] eqn:E', (T !! id) as [s|] eqn:E; cbn in H; simplify_eq; [|naive_solver].
  assert (parent_of s' = parent_of s) as Hp.
  { unfold parent_of. congruence. }
  naive_solver.
Qed.

Lemma same_core_insert T id s s' :
  T !! id = Some s -> core s' = core s -> same_core T (<[id := s']> T).
Proof.
  intros Hs Hc x. rewrite lookup_insert. case_decide; [subst|done]. rewrite Hs. cbn. congruence.
Qed.

(** The lists of the other parents survive a change of [p]'s links. *)
Lemma forest_detach T T' p c sc :
  forest T [] -> same_core T T' -> T !! c = Some sc -> parent_of sc = p ->
  (forall p' s', p' <> p -> T' !! p' = Some s' ->
     exists s, T !! p' = Some s /\ first_child s' = first_child s) ->
  (forall x s, ~ par T x p -> T !! x = Some s ->
     exists s', T' !! x = Some s' /\ next_sibling s' = next_sibling s) ->
  (forall s', T' !! p = Some s' -> exists l, sib_chain T' (first_child s') l /\ NoDup l /\
     forall x, x ∈ l <-> par T x p /\ x <> c) ->
  forest T' [c].
Proof.
  intros Hf Hcore Hc Hpar Hfirst Hnext Hp p' s' Hs'.
  destruct (decide (p' = p)) as [->|Hne].
  - destruct (Hp s' Hs') as (l & Hch & Hnd & Hl). exists l. unfold child_list.
    split_all; [done..|]. intros x. rewrite Hl, list_elem_of_singleton. by rewrite (same_core_parent T T').
  - destruct (Hfirst p' s' Hne Hs') as (s & Hs & Hfc).
    destruct (Hf p' s Hs) as (l & Hch & Hnd & Hl). exists l. unfold child_list. rewrite Hfc.
    assert (forall x, x ∈ l -> par T x p') as Hin by (intros x Hx; by apply Hl in Hx as [? _]).
    split_all; [|done|].
    + eapply chain_frame; [done|]. intros x sx Hx Hsx. apply Hnext; [|done].
      intros (sx' & Hsx' & Hpx). destruct (Hin x Hx) as (? & ? & ?). congruence.
    + intros x. rewrite (same_core_parent T T') by done. rewrite list_elem_of_singleton. split.
      * intros Hx. split; [by apply Hin|]. intros ->. destruct (Hin c Hx) as (? & ? & ?). congruence.
      * intros [Hx _]. apply Hl. split; [done|]. set_solver.
Qed.

Lemma unlink_child_spec m p c sp sc :
  wf m -> forest (view m) [] -> view m !! p = Some sp -> view m !! c = Some sc ->
  parent_of sc = p ->
  exists m', unlink_child m p c = Done m' /\ wf m' /\
    same_core (view m) (view m') /\ forest (view m') [c].
Proof.
  intros Hw Hf Hp Hc Hpar. destruct (Hf p sp Hp) as (l & Hch & Hnd & Hl).
  assert (c ∈ l) as Hcl by (apply Hl; split; [by exists sc|set_solver]).
  unfold unlink_child. rewrite next_sibling_of_view, first_child_of_view, Hp, Hc by done.
  exec_simpl. cbn [from_option]. destruct (Z.eqb_spec (first_child sp) c) as [Heq|Hne].
  - rewrite Heq in Hch. destruct l as [|x l2]; [by apply elem_of_nil in Hcl|].
    pose proof (chain_head _ _ _ _ Hch) as <-.
    inversion Hch as [|? s ? Hc0 Hs Hch2]; subst. assert (s = sc) as -> by congruence.
    pose proof (FixedMapSpec.get_mut_view m (parent_of sc) Hw) as Hg. rewrite Hp in Hg.
    destruct Hg as (set & -> & Hset). exec_simpl.
    destruct (Hset (with_first_child sp (next_sibling sc))) as [Hw' Hv'].
    eexists. split; [done|]. split; [done|]. rewrite Hv'.
    assert (same_core (view m) (<[parent_of sc := with_first_child sp (next_sibling sc)]> (view m)))
      by (by eapply same_core_insert).
    assert (forall x s, view m !! x = Some s -> exists s',
      <[parent_of sc := with_first_child sp (next_sibling sc)]> (view m) !! x = Some s' /\
      next_sibling s' = next_sibling s) as Hnext.
    { intros x s Hx. rewrite lookup_insert. case_decide as E; [subst x|by eauto].
      eexists. split; [done|]. cbn. congruence. }
    split; [done|]. eapply (forest_detach (view m) _ (parent_of sc) (first_child sp)); eauto.
    + intros p' s' Hp' Hs'. rewrite lookup_insert_ne in Hs' by done. eauto.
    + intros s'. rewrite lookup_insert_eq. intros [= <-]. exists l2.
      apply NoDup_cons in Hnd as [Hnot Hnd]. split_all; [|done|].
      * eapply chain_frame; [done|]. eauto.
      * intros x. specialize (Hl x). rewrite elem_of_cons in Hl. unfold par. set_solver.
  - apply list_elem_of_split in Hcl as (l1 & l2 & ->).
    destruct (exists_last (l := l1)) as (l0 & q & ->).
    { intros ->. by apply chain_head in Hch. }
    rewrite <- app_assoc in *. cbn [app] in *.
    destruct (unlink_walk_spec m c sc (first_child sp) l0 q l2 (walk_fuel m))
      as (m' & sq & -> & Hw' & Hq & Hv'); [done..| |].
    { assert (length (l0 ++ q :: c :: l2) <= Z.to_nat (FixedMap.len m))%nat as Hlen.
      { apply live_length; [done..|]. by eapply chain_live. }
      rewrite length_app in Hlen. cbn in Hlen. unfold walk_fuel. lia. }
    eexists. split; [done|]. split; [done|]. rewrite Hv'.
    assert (same_core (view m) (<[q := with_next_sibling sq (next_sibling sc)]> (view m)))
      by (by eapply same_core_insert).
    split; [done|]. eapply (forest_detach (view m) _ p c); eauto.
    + intros p' s' Hp' Hs'. rewrite lookup_insert in Hs'. case_decide; simplify_eq; eauto.
    + intros x s Hx Hs. rewrite lookup_insert_ne; [by eauto|]. intros <-. apply Hx.
      apply Hl. set_solver.
    + intros s' Hs'. exists (l0 ++ q :: l2).
      assert (first_child s' = first_child sp) as ->.
      { rewrite lookup_insert in Hs'. case_decide; simplify_eq; [|done]. cbn. congruence. }
      split_all.
      * by eapply chain_unlink.
      * apply NoDup_app in Hnd as (? & Hd & Hn2). apply NoDup_app. split_all; [done|set_solver|].
        apply NoDup_cons in Hn2 as [? Hn2]. apply NoDup_cons in Hn2 as [? ?].
        apply NoDup_cons. set_solver.
      * intros x. specialize (Hl x). rewrite elem_of_app, !elem_of_cons in Hl. unfold par.
        assert (c ∉ l0 /\ c <> q /\ c ∉ l2) as (? & ? & ?).
        { apply NoDup_app in Hnd as (? & Hd & Hn2). apply NoDup_cons in Hn2 as [? Hn2].
          apply NoDup_cons_1_1 in Hn2. set_solver. }
        rewrite elem_of_app, elem_of_cons. set_solver.
Qed.

(** ** The removal loop *)

(** What the loop needs of the store: the three tables, and the forest with
    the tokens on the stack detached. *)
Record loop_ok (st : t) (stack : list Z) : Prop := {
  lo_tokens : wf (tokens st);
  lo_budget : wf (budget_tracker st);
  lo_nonce : wf (nonce_tracker st);
  lo_forest : forest (view (tokens st)) stack;
  lo_nodup : NoDup stack;
  lo_live : forall x, x ∈ stack -> is_Some (view (tokens st) !! x);
}.

Lemma forest_remove T stack id s l :
  forest T (stack ++ [id]) -> T !! id = Some s -> child_list T (stack ++ [id]) id s l ->
  forest (delete id T) (stack ++ l).
Proof.
  intros Hf Hid (_ & _ & Hl) p sp Hp. apply lookup_delete_Some in Hp as [Hne Hp].
  destruct (Hf p sp Hp) as (lp & Hch & Hnd & Hlp). exists lp. unfold child_list.
  assert (id ∉ lp) as Hnot by (intros Hin; apply Hlp in Hin as [_ Hin]; set_solver).
  split_all; [|done|].
  - eapply chain_frame; [done|]. intros x sx Hx Hsx. exists sx. split; [|done].
    rewrite lookup_delete_ne; [done|]. set_solver.
  - intros c. rewrite Hlp. split.
    + intros [(sc & Hc & Hpc) Hcx]. split.
      * exists sc. split; [|done]. rewrite lookup_delete_ne; [done|]. set_solver.
      * rewrite elem_of_app, Hl. intros [?|[(sc' & ? & ?) _]]; [set_solver|congruence].
    + intros [(sc & Hc & Hpc) Hcx]. apply lookup_delete_Some in Hc as [Hcid Hc].
      split; [by exists sc|]. set_solver.
Qed.

(** Removing [id] turns "below the stack" into "[id], or below the new stack". *)
Lemma below_remove T stack id s l b :
  T !! id = Some s -> child_list T (stack ++ [id]) id s l ->
  (exists x, x ∈ stack ++ [id] /\ descends T b x) <->
  b = id \/ (exists x, x ∈ stack ++ l /\ descends (delete id T) b x).
Proof.
  intros Hid (_ & _ & Hl). split.
  - intros (x & Hx & Hd). induction Hd as [x|b b1 x Hstep Hd IH].
    + apply elem_of_app in Hx as [Hx|Hx]; [|set_solver].
      right. exists x. split; [set_solver|apply rtc_refl].
    + destruct (decide (b = id)) as [->|Hne]; [by left|right].
      destruct (IH Hx) as [->|(y & Hy & Hdy)].
      * destruct (decide (b ∈ stack)) as [Hb|Hb]; exists b; (split; [|apply rtc_refl]); [set_solver|].
        apply elem_of_app. right. apply Hl. set_solver.
      * exists y. split; [done|]. eapply rtc_l; [|done]. destruct Hstep as (sb & Hsb & Hpb).
        exists sb. by rewrite lookup_delete_ne.
  - intros [->|(x & Hx & Hd)]; [exists id; split; [set_solver|apply rtc_refl]|].
    assert (descends T b x) as Hd'.
    { eapply rtc_subrel; [|done]. intros y z (sy & Hy & Hz). exists sy.
      by apply lookup_delete_Some in Hy as [_ Hy]. }
    apply elem_of_app in Hx as [Hx|Hx]; [exists x; set_solver|].
    exists id. split; [set_solver|]. eapply rtc_r; [done|]. apply Hl in Hx as [Hx _]. exact Hx.
Qed.

Lemma revoke_loop_spec fuel st stack cnt :
  loop_ok st stack -> (size (view (tokens st)) <= fuel)%nat ->
  exists n st', revoke_loop fuel st stack cnt = Done (cnt + n, st') /\
    loop_ok st' [] /\ next_id st' = next_id st /\ current_tick st' = current_tick st /\
    n = Z.of_nat (size (view (tokens st))) - Z.of_nat (size (view (tokens st'))) /\
    view (tokens st') ⊆ view (tokens st) /\
    view (budget_tracker st') ⊆ view (budget_tracker st) /\
    view (nonce_tracker st') ⊆ view (nonce_tracker st) /\
    forall b,
      ((exists x, x ∈ stack /\ descends (view (tokens st)) b x) ->
         view (tokens st') !! b = None /\ view (budget_tracker st') !! b = None /\
         view (nonce_tracker st') !! b = None) /\
      (~ (exists x, x ∈ stack /\ descends (view (tokens st)) b x) ->
         view (tokens st') !! b = view (tokens st) !! b /\
         view (budget_tracker st') !! b = view (budget_tracker st) !! b /\
         view (nonce_tracker st') !! b = view (nonce_tracker st) !! b).
Proof.
  revert st stack cnt. induction fuel as [|fuel IH]; intros st stack cnt Hok Hsz;
    destruct stack as [|id stk _] using rev_ind.
  1,3: exists 0, st; rewrite Z.add_0_r; cbn; split_all; try done; [lia|];
    intros b; split; [intros (x & Hx & _); by apply elem_of_nil in Hx|done].
  - exfalso. destruct (lo_live _ _ Hok id) as [s Hs]; [set_solver|].
    assert (view (tokens st) = ∅) as He by (apply map_size_empty_iff; lia). by rewrite He in Hs.
  - destruct Hok as [Hwt Hwb Hwn Hf Hnd Hlive].
    destruct (Hlive id) as [s Hs]; [set_solver|].
    destruct (collect_children_spec _ _ _ _ Hwt Hf Hs) as (l & Hcc & Hcl).
    destruct (FixedMapSpec.remove_view _ id Hwt) as (m & Hrm & Hwm & Hvm).
    destruct (BudgetTracker.budget_remove_spec _ id Hwb) as (bt & Hb & Hwb' & Hvb).
    destruct (NonceTracker.nonce_remove_spec _ id Hwn) as (nt & Hn & Hwn' & Hvn).
    cbn [revoke_loop]. rewrite vec_pop_snoc, Hcc. exec_simpl. rewrite Hrm, Hs. exec_simpl.
    cbn [fst snd]. rewrite Hb. exec_simpl. rewrite Hn. exec_simpl.
    set (st1 := mk m (next_id st) bt nt (current_tick st)).
    assert (loop_ok st1 (stk ++ l)) as Hok1.
    { pose proof Hcl as (Hch & Hndl & Hl).
      apply NoDup_app in Hnd as (Hnd1 & Hdis & _). split; try done.
      - cbn. rewrite Hvm. by eapply forest_remove.
      - apply NoDup_app. split_all; [done| |done]. intros x Hx Hxl. apply Hl in Hxl. set_solver.
      - cbn. intros x Hx. rewrite Hvm, lookup_delete_ne; [|intros <-].
        + apply elem_of_app in Hx as [Hx|Hx]; [apply Hlive; set_solver|].
          apply Hl in Hx as [(sx & Hx & _) _]. by exists sx.
        + apply elem_of_app in Hx as [Hx|Hx]; [by apply (Hdis id Hx); set_solver|].
          apply Hl in Hx as [_ Hx]. set_solver. }
    assert (size (view (tokens st)) = S (size (view (tokens st1)))) as Hsize.
    { cbn. rewrite Hvm. rewrite map_size_delete_Some by (by exists s).
      assert (size (view (tokens st)) <> 0%nat); [|lia].
      intros H0. apply map_size_empty_iff in H0. by rewrite H0 in Hs. }
    destruct (IH st1 (stk ++ l) (cnt + 1) Hok1) as (n & st' & Hrun & Hok' & Hni & Hct & Hn' & Hst & Hsb & Hsn & Hb');
      [lia|].
    exists (n + 1), st'. cbn [st1 tokens budget_tracker nonce_tracker] in *.
    rewrite Hvm, Hvb, Hvn in *.
    split_all; try done; [by rewrite Hrun; f_equal; f_equal; lia|lia|..].
    1-3: etransitivity; [done|apply delete_subseteq].
    intros b. destruct (Hb' b) as [Hin Hout].
    rewrite (below_remove _ _ _ _ _ b Hs Hcl).
    destruct (decide (b = id)) as [->|Hne].
    + split; [|naive_solver]. intros _.
      split_all; eapply lookup_weaken_None; try done; apply lookup_delete_eq.
    + rewrite !lookup_delete_ne in Hout by done. naive_solver.
Qed.

End CapStoreInv.
