(* ===== verification/CapStoreSpec.v ===== *)
(** * The capability store keeps its invariant

    The invariant of [CapStore.t], that every operation of
    [kernel/src/capability/store.rs] returns (no panic, no endless walk) and
    preserves it, and what each operation does to the abstract maps. *)

From S2P Require Import Prelude Wire Crypto FixedMap FixedMapSpec Trackers CapStore.
From S2P Require Import CapStoreInv.

Module CapStoreSpec.
Import CapStore CapStoreInv.

(** ** Growing the forest *)
Lemma forest_fresh T id s :
  forest T [] -> T !! id = None -> first_child s = 0 -> parent_of s <> id ->
  (forall c sc, T !! c = Some sc -> parent_of sc <> id) ->
  forest (<[id := s]> T) [id].
Proof.
  intros Hf Hid Hfc Hps Hpar p sp Hp. rewrite lookup_insert in Hp. case_decide as E.
  - simplify_eq. exists []. unfold child_list. rewrite Hfc. split_all; [constructor..|].
    intros c. split; [intros []%elem_of_nil|]. intros [(sc & Hc & Hpc) Hci].
    rewrite lookup_insert_ne in Hc by set_solver. exfalso. by eapply Hpar.
  - destruct (Hf p sp Hp) as (l & Hch & Hnd & Hl). exists l. unfold child_list.
    assert (id ∉ l) as Hnot.
    { intros Hin. destruct (chain_live _ _ _ Hch id Hin). congruence. }
    split_all; [|done|].
    + eapply chain_frame; [done|]. intros x sx Hx Hsx. exists sx.
      rewrite lookup_insert_ne by set_solver. done.
    + intros c. rewrite Hl. split; intros [(sc & Hc & Hpc) Hcx].
      * assert (c <> id) by congruence. split; [|set_solver].
        exists sc. by rewrite lookup_insert_ne.
      * rewrite lookup_insert_ne in Hc by set_solver. split; [by exists sc|set_solver].
Qed.

(** A detached token whose parent is not live is a root of the forest. *)
Lemma forest_root T c sc :
  forest T [c] -> T !! c = Some sc -> T !! parent_of sc = None -> forest T [].
Proof.
  intros Hf Hc Hno p sp Hp. destruct (Hf p sp Hp) as (l & Hch & Hnd & Hl).
  exists l. unfold child_list. split_all; [done..|]. intros x. rewrite Hl.
  split; [set_solver|]. intros [Hx _]. split; [done|].
  intros ->%list_elem_of_singleton. destruct Hx as (? & ? & <-). congruence.
Qed.

(** Prepending a detached token to its parent's list. *)
Lemma forest_attach T p c sp sc :
  forest T [c] -> T !! p = Some sp -> T !! c = Some sc -> parent_of sc = p ->
  next_sibling sc = first_child sp -> c <> 0 -> c <> p ->
  forest (<[p := with_first_child sp c]> T) [].
Proof.
  intros Hf Hp Hc Hpar Hnext Hc0 Hcp.
  set (T' := <[p := with_first_child sp c]> T).
  assert (same_core T T') as Hcore by (by eapply same_core_insert).
  assert (forall x s, T !! x = Some s -> exists s', T' !! x = Some s' /\
    next_sibling s' = next_sibling s) as Hn.
  { intros x s Hx. unfold T'. rewrite lookup_insert. case_decide; [subst|by eauto].
    eexists. split; [done|]. cbn. congruence. }
  intros q sq Hq. unfold T' in Hq. rewrite lookup_insert in Hq. case_decide as E.
  - simplify_eq. destruct (Hf _ sp Hp) as (l & Hch & Hnd & Hl).
    exists (c :: l). unfold child_list. split_all.
    + econstructor; [done|by unfold T'; rewrite lookup_insert_ne|]. rewrite Hnext.
      eapply chain_frame; [done|]. eauto.
    + constructor; [|done]. rewrite Hl. set_solver.
    + intros x. rewrite (same_core_parent T T') by done. rewrite elem_of_cons, Hl.
      destruct (decide (x = c)) as [->|]; set_solver.
  - destruct (Hf q sq Hq) as (l & Hch & Hnd & Hl). exists l. unfold child_list.
    split_all; [|done|].
    + eapply chain_frame; [done|]. eauto.
    + intros x. rewrite (same_core_parent T T') by done. rewrite Hl. split; [set_solver|].
      intros [Hx _]. split; [done|]. intros ->%list_elem_of_singleton.
      destruct Hx as (? & ? & ?). congruence.
Qed.

(** ** The invariant *)
Section Inv.
Context `{HmacSha3} (key : list Z).

(** A delegated token and the token it was delegated from. *)
Definition delegated_ok (s p : StoredToken) : Prop :=
  Perm.is_subset_of (perms s) (perms p) = true /\ Perm.contains (perms p) Perm.GRANT = true /\
  CapabilityToken.resource (token s) = CapabilityToken.resource (token p).

Definition token_ok (st : t) (id : Z) (s : StoredToken) : Prop :=
  1 <= id < next_id st /\ CapabilityToken.id (token s) = id /\ 0 <= parent_of s < id /\
  in_u 16 (perms s) /\
  hmac s = HmacEngine.sign key (CapabilityToken.active_bytes (token s)) /\
  (parent_of s <> 0 -> exists p, view (tokens st) !! parent_of s = Some p /\ delegated_ok s p).

Record store_inv (st : t) : Prop := {
  si_tokens : wf (tokens st);
  si_budget : wf (budget_tracker st);
  si_nonce : wf (nonce_tracker st);
  si_next : 1 <= next_id st < 2 ^ 64;
  si_token : forall id s, view (tokens st) !! id = Some s -> token_ok st id s;
  si_forest : forest (view (tokens st)) [];
  si_budget_dom : dom (view (budget_tracker st)) ⊆ dom (view (tokens st));
  si_nonce_dom : dom (view (nonce_tracker st)) ⊆ dom (view (tokens st));
  si_usage : map_Forall (fun _ e => 0 <= fst e) (view (budget_tracker st));
}.

Lemma new_inv : store_inv new.
Proof.
  split; cbn; try apply FixedMapSpec.new_wf; try lia; try done.
Qed.

Lemma fresh_id st : store_inv st -> view (tokens st) !! next_id st = None.
Proof.
  intros Hi. apply eq_None_not_Some. intros [s Hs].
  destruct (si_token _ Hi _ _ Hs) as [? _]. lia.
Qed.

Lemma no_zero st : store_inv st -> view (tokens st) !! 0 = None.
Proof.
  intros Hi. apply eq_None_not_Some. intros [s Hs].
  destruct (si_token _ Hi _ _ Hs) as [? _]. lia.
Qed.

Lemma no_orphan_of_fresh st c sc :
  store_inv st -> view (tokens st) !! c = Some sc -> parent_of sc <> next_id st.
Proof. intros Hi Hc Heq. destruct (si_token _ Hi _ _ Hc) as (? & _ & ? & _). lia. Qed.

(** Inserting under a fresh identifier succeeds below the token limit. *)
Lemma insert_fresh st v :
  store_inv st -> FixedMap.len (tokens st) < MAX_TOKENS ->
  exists m, FixedMap.insert (tokens st) (next_id st) v = Done (true, m) /\ wf m /\
    view m = <[next_id st := v]> (view (tokens st)).
Proof.
  intros Hi Hlen. destruct (FixedMapSpec.insert_view (tokens st) (next_id st) v) as (m & Hm & ? & Hv);
    [apply Hi|].
  rewrite bool_decide_true in Hm, Hv by (right; exact Hlen). eauto.
Qed.

(** The parent relation is not changed by tokens that keep their core. *)
Lemma token_ok_core st st' id s s' :
  token_ok st id s -> core s' = core s -> next_id st <= next_id st' ->
  (forall sp, view (tokens st) !! parent_of s = Some sp ->
     exists sp', view (tokens st') !! parent_of s = Some sp' /\ core sp' = core sp) ->
  token_ok st' id s'.
Proof.
  intros (Hid & Hti & Hpar & Hperm & Hmac & Hp) Hc Hle Hall.
  assert (token s' = token s) as Ht by (by injection Hc).
  assert (hmac s' = hmac s) as Hh by (by injection Hc).
  unfold token_ok, parent_of, perms in *. rewrite Ht, Hh.
  split_all; try done; try lia. intros Hne. destruct (Hp Hne) as (p & Hpp & Hd).
  destruct (Hall _ Hpp) as (p' & Hp' & Hcp). exists p'. split; [done|].
  assert (token p' = token p) as Htp by (by injection Hcp).
  unfold delegated_ok, perms in *. by rewrite Ht, Htp.
Qed.

(** The store after a fresh token [s] was put in the table, detached from the
    sibling lists. *)
Lemma inv_fresh st st' s :
  store_inv st -> next_id st' = next_id st + 1 -> next_id st + 1 < 2 ^ 64 ->
  wf (tokens st') -> budget_tracker st' = budget_tracker st ->
  nonce_tracker st' = nonce_tracker st ->
  same_core (<[next_id st := s]> (view (tokens st))) (view (tokens st')) ->
  forest (view (tokens st')) [] ->
  token_ok st' (next_id st) s -> store_inv st'.
Proof.
  intros Hi Hn Hlt Hwf Hb Hno Hc Hf Hs.
  assert (forall id s0, view (tokens st) !! id = Some s0 ->
    exists s', view (tokens st') !! id = Some s' /\ core s' = core s0) as Hold.
  { intros id s0 H0. specialize (Hc id).
    rewrite lookup_insert_ne, H0 in Hc by (pose proof (fresh_id st Hi); congruence).
    cbn in Hc. apply fmap_Some in Hc as (s' & ? & ?). eauto. }
  pose proof (si_next _ Hi) as Hnx.
  split; rewrite ?Hb, ?Hno; try apply Hi; try done; try lia.
  - intros id s' Hs'. specialize (Hc id). rewrite Hs' in Hc.
    destruct (<[next_id st := s]> (view (tokens st)) !! id) as [s0|] eqn:H0; [|done].
    assert (core s' = core s0) as Hcs by (cbn in Hc; congruence).
    rewrite lookup_insert in H0. case_decide as E; [injection H0 as ->; subst id|].
    + eapply (token_ok_core st' st'); [done|done|lia|by eauto].
    + eapply (token_ok_core st st'); [by apply (si_token _ Hi)|done|lia|by eauto].
  - etrans; [apply Hi|]. intros id [s0 H0]%elem_of_dom.
    destruct (Hold _ _ H0) as (? & ? & _). apply elem_of_dom. eauto.
  - etrans; [apply Hi|]. intros id [s0 H0]%elem_of_dom.
    destruct (Hold _ _ H0) as (? & ? & _). apply elem_of_dom. eauto.
Qed.

(** ** [create] *)
Definition root_token (st : t) (resource permissions owner : Z) (expires : option Z)
    (budget : option Budget.t) : StoredToken :=
  let token := make_token permissions owner (next_id st) resource 0 (from_option id 0 expires) in
  mkStored token (HmacEngine.sign key (CapabilityToken.active_bytes token)) budget
    (current_tick st) 0 0.

Lemma create_spec st resource permissions owner expires budget :
  store_inv st -> next_id st + 1 < 2 ^ 64 -> in_u 16 permissions ->
  FixedMap.len (tokens st) < MAX_TOKENS ->
  exists st', create key st resource permissions owner expires budget =
      Done (Ok (next_id st), st') /\ store_inv st' /\
    view (tokens st') =
      <[next_id st := root_token st resource permissions owner expires budget]> (view (tokens st)) /\
    next_id st' = next_id st + 1 /\ current_tick st' = current_tick st /\
    budget_tracker st' = budget_tracker st /\ nonce_tracker st' = nonce_tracker st.
Proof.
  intros Hi Hlt Hp Hlen.
  destruct (insert_fresh st (root_token st resource permissions owner expires budget) Hi Hlen)
    as (m & Hm & Hwf & Hv).
  pose proof (si_next _ Hi) as Hnx.
  set (st' := mk m (next_id st + 1) (budget_tracker st) (nonce_tracker st) (current_tick st)).
  exists st'. split_all; try done.
  - unfold create, alloc_id. rewrite Z.geb_leb, (proj2 (Z.leb_gt _ _)) by done.
    cbn [tokens budget_tracker nonce_tracker current_tick]. rewrite u64_add_small by lia.
    unfold root_token, id in Hm. rewrite Hm. done.
  - eapply (inv_fresh st st'); try done.
    + intros id. cbn [st' tokens]. by rewrite Hv.
    + cbn [st' tokens]. rewrite Hv. eapply forest_root.
      * apply forest_fresh; [apply Hi|by apply fresh_id|done|cbn; lia|].
        intros c sc. by apply no_orphan_of_fresh.
      * apply lookup_insert_eq.
      * cbn. rewrite lookup_insert_ne by lia. by apply no_zero.
    + unfold token_ok. cbn. split_all; try done; try lia.
Qed.

(** ** [delegate] *)
Definition child_token (st : t) (p : StoredToken) (parent_id owner permissions : Z)
    (expires : option Z) (budget : option Budget.t) : StoredToken :=
  let token := make_token permissions owner (next_id st) (CapabilityToken.resource (token p))
    parent_id (child_expires expires (CapabilityToken.expires (token p))) in
  mkStored token (HmacEngine.sign key (CapabilityToken.active_bytes token)) budget
    (current_tick st) 0 (first_child p).

Lemma delegate_spec st p parent_id owner permissions expires budget :
  store_inv st -> next_id st + 1 < 2 ^ 64 -> in_u 16 permissions ->
  FixedMap.len (tokens st) < MAX_TOKENS ->
  view (tokens st) !! parent_id = Some p ->
  Perm.contains (perms p) Perm.GRANT = true ->
  Perm.is_subset_of permissions (perms p) = true ->
  exists st', delegate key st parent_id owner permissions expires budget =
      Done (Ok (next_id st), st') /\ store_inv st' /\
    view (tokens st') = <[parent_id := with_first_child p (next_id st)]>
      (<[next_id st := child_token st p parent_id owner permissions expires budget]>
        (view (tokens st))) /\
    next_id st' = next_id st + 1 /\ current_tick st' = current_tick st /\
    budget_tracker st' = budget_tracker st /\ nonce_tracker st' = nonce_tracker st.
Proof.
  intros Hi Hlt Hin Hlen Hp Hg Hsub.
  set (s := child_token st p parent_id owner permissions expires budget).
  destruct (insert_fresh st s Hi Hlen) as (m & Hm & Hwf & Hv).
  pose proof (si_next _ Hi) as Hnx.
  destruct (si_token _ Hi _ _ Hp) as (Hpid & _).
  assert (view m !! parent_id = Some p) as Hmp.
  { rewrite Hv, lookup_insert_ne by lia. done. }
  pose proof (FixedMapSpec.get_mut_view m parent_id Hwf) as Hgm. rewrite Hmp in Hgm.
  destruct Hgm as (set & Hgm & Hset).
  destruct (Hset (with_first_child p (next_id st))) as [Hwf' Hv']. rewrite Hv in Hv'.
  set (st' := mk (set (with_first_child p (next_id st))) (next_id st + 1) (budget_tracker st)
                (nonce_tracker st) (current_tick st)).
  exists st'. split_all; try done.
  - unfold delegate, alloc_id. rewrite Z.geb_leb, (proj2 (Z.leb_gt _ _)) by done.
    rewrite FixedMapSpec.get_view, Hp by apply Hi. exec_simpl. fold (perms p).
    rewrite Hg, Hsub. cbn [negb tokens budget_tracker nonce_tracker current_tick].
    rewrite u64_add_small by lia. unfold s, child_token in Hm. rewrite Hm. exec_simpl.
    cbn [snd]. rewrite Hgm. done.
  - assert (same_core (<[next_id st := s]> (view (tokens st))) (view (tokens st'))) as Hcore.
    { cbn [st' tokens]. rewrite Hv'. apply (same_core_insert _ _ p); [|done].
      by rewrite lookup_insert_ne by lia. }
    eapply (inv_fresh st st' s); try done.
    + cbn [st' tokens]. rewrite Hv'. eapply forest_attach.
      * apply forest_fresh; [apply Hi|by apply fresh_id|done|cbn; lia|].
        intros c sc. by apply no_orphan_of_fresh.
      * by rewrite lookup_insert_ne by lia.
      * apply lookup_insert_eq.
      * done.
      * done.
      * lia.
      * lia.
    + unfold token_ok. cbn [st' next_id]. split_all; try done; cbn; try lia.
      intros _. exists (with_first_child p (next_id st)). split; [|done].
      rewrite Hv'. apply lookup_insert_eq.
Qed.

(** ** [validate] *)

(** The token is past its deadline. *)
Definition expired (st : t) (s : StoredToken) : bool :=
  (CapabilityToken.expires (token s) >? 0) &&
  (current_tick st >=? u64_add (created_at s) (CapabilityToken.expires (token s))).

(** The budget entry that a use now would start from, and the use itself. *)
Definition use (st : t) (id : Z) (b : Budget.t) : bool * (Z * Z) :=
  BudgetTracker.consume b
    (from_option Datatypes.id (0, current_tick st) (view (budget_tracker st) !! id))
    (current_tick st).

Definition verdict (st : t) (id perm nonce : Z) : result unit CapabilityError :=
  match view (tokens st) !! id with
  | None => Err NotFound
  | Some s =>
      if expired st s then Err Expired
      else if negb (Perm.contains (perms s) perm) then Err InsufficientPermission
      else if nonce <=? NonceTracker.last (nonce_tracker st) id then Err NonceReplay
      else match budget s with
           | Some b => if fst (use st id b) then Ok tt else Err BudgetExhausted
           | None => Ok tt
           end
  end.

Definition nonces_after (st : t) (id perm nonce : Z) : gmap Z Z :=
  match verdict st id perm nonce with
  | Err NotFound | Err Expired | Err InsufficientPermission => view (nonce_tracker st)
  | _ => <[id := Z.max (NonceTracker.last (nonce_tracker st) id) nonce]> (view (nonce_tracker st))
  end.

Definition usage_after (st : t) (id perm nonce : Z) : gmap Z (Z * Z) :=
  match verdict st id perm nonce, view (tokens st) !! id ≫= budget with
  | Ok _, Some b | Err BudgetExhausted, Some b =>
      <[id := snd (use st id b)]> (view (budget_tracker st))
  | _, _ => view (budget_tracker st)
  end.

(** A tracker whose keys are live tokens has room for any live token. *)
Lemma tracker_room {A} (m : FixedMap.t A) (st : t) id :
  store_inv st -> wf m -> dom (view m) ⊆ dom (view (tokens st)) ->
  is_Some (view (tokens st) !! id) ->
  is_Some (view m !! id) \/ FixedMap.len m < FixedMapSpec.MAX_LOAD.
Proof.
  intros Hi Hwf Hdom Hid. destruct (view m !! id) eqn:E; [left; eauto|right].
  destruct (FixedMapSpec.len_view _ (si_tokens _ Hi)) as [Hl Hmax].
  destruct (FixedMapSpec.len_view _ Hwf) as [Hl' _]. rewrite Hl'. rewrite Hl in Hmax.
  pose proof (size_dom (D := gset Z) (view m)).
  pose proof (size_dom (D := gset Z) (view (tokens st))).
  enough (size (dom (view m) : gset Z) < size (dom (view (tokens st)) : gset Z))%nat by lia.
  apply subset_size. split; [done|]. intros Hsub.
  apply elem_of_dom in Hid. apply Hsub, elem_of_dom in Hid. rewrite E in Hid. by destruct Hid.
Qed.

Lemma with_trackers_inv st b n :
  store_inv st -> wf b -> wf n ->
  dom (view b) ⊆ dom (view (tokens st)) -> dom (view n) ⊆ dom (view (tokens st)) ->
  map_Forall (fun _ e => 0 <= fst e) (view b) ->
  store_inv (mk (tokens st) (next_id st) b n (current_tick st)).
Proof. intros [] ?????. split; done. Qed.

Lemma dom_insert_live {A} (m : gmap Z A) (T : tmap) id v :
  dom m ⊆ dom T -> is_Some (T !! id) -> dom (<[id := v]> m) ⊆ dom T.
Proof. intros ? ?%elem_of_dom. rewrite dom_insert. set_solver. Qed.

Lemma use_nonneg st id b : store_inv st -> 0 <= fst (snd (use st id b)).
Proof.
  intros Hi. unfold use, BudgetTracker.consume, u32_add.
  assert (0 <= fst (from_option Datatypes.id (0, current_tick st) (view (budget_tracker st) !! id))).
  { destruct (view (budget_tracker st) !! id) as [e|] eqn:E; [|done].
    exact (si_usage _ Hi _ _ E). }
  repeat case_match; cbn [fst snd]; try done; try lia; apply wrap_range; lia.
Qed.

Lemma validate_spec st id perm nonce :
  store_inv st ->
  exists st', validate key st id perm nonce = Done (verdict st id perm nonce, st') /\
    store_inv st' /\ tokens st' = tokens st /\ next_id st' = next_id st /\
    current_tick st' = current_tick st /\
    view (nonce_tracker st') = nonces_after st id perm nonce /\
    view (budget_tracker st') = usage_after st id perm nonce.
Proof.
  intros Hi. unfold validate, nonces_after, usage_after.
  rewrite FixedMapSpec.get_view by apply Hi. exec_simpl. unfold verdict.
  destruct (view (tokens st) !! id) as [s|] eqn:Hs; [|by exists st].
  destruct (si_token _ Hi _ _ Hs) as (_ & _ & _ & _ & Hmac & _).
  rewrite Hmac, HmacEngine.verify_sign. cbn [negb mbind option_bind].
  fold (expired st s). destruct (expired st s); [by exists st|]. fold (perms s).
  destruct (Perm.contains (perms s) perm); cbn [negb]; [|by exists st].
  assert (is_Some (view (tokens st) !! id)) as Hlive by eauto.
  destruct (NonceTracker.check_and_advance_spec (nonce_tracker st) id nonce) as (n & Hn & Hwn & Hvn);
    [apply Hi|by apply (tracker_room (NonceTracker.last_seen (nonce_tracker st)) st); try apply Hi|].
  rewrite Hn. exec_simpl. cbn [fst snd tokens next_id budget_tracker nonce_tracker current_tick].
  assert (dom (view n) ⊆ dom (view (tokens st))) as Hdn
    by (rewrite Hvn; apply dom_insert_live; [apply Hi|done]).
  rewrite Z.gtb_ltb, Z.leb_antisym.
  assert (store_inv (mk (tokens st) (next_id st) (budget_tracker st) n (current_tick st))) as Hi'
    by (apply with_trackers_inv; try apply Hi; done).
  destruct (NonceTracker.last (nonce_tracker st) id <? nonce); cbn [negb]; [|by eexists].
  destruct (budget s) as [b|]; [|by eexists].
  destruct (BudgetTracker.check_and_consume_spec (budget_tracker st) id b (current_tick st))
    as (u & Hu & Hwu & Hvu);
    [apply Hi|by apply (tracker_room (BudgetTracker.usage (budget_tracker st)) st); try apply Hi|].
  rewrite Hu. exec_simpl. cbn [fst snd]. fold (use st id b) in *.
  assert (store_inv (mk (tokens st) (next_id st) u n (current_tick st))).
  { apply with_trackers_inv; try done; rewrite Hvu.
    - apply dom_insert_live; [apply Hi|done].
    - apply map_Forall_insert_2; [by apply use_nonneg|apply Hi]. }
  destruct (fst (use st id b)); by eexists.
Qed.

(** ** [revoke] *)
Lemma same_core_descends T T' b a : same_core T T' -> descends T' b a <-> descends T b a.
Proof.
  intros Hc. split; intros Hd; (induction Hd as [|x y z Hp _ IH];
    [apply rtc_refl|eapply rtc_l; [|exact IH]]); by apply (same_core_parent T T').
Qed.

Lemma revoke_none st id : store_inv st -> view (tokens st) !! id = None ->
  revoke st id = Done (Err NotFound, st).
Proof. intros Hi Hn. unfold revoke. rewrite FixedMapSpec.get_view, Hn by apply Hi. done. Qed.

(** Taking a token out of its parent's list. *)
Lemma detach_spec st id s :
  store_inv st -> view (tokens st) !! id = Some s ->
  exists m, (if parent_of s =? 0 then Done (tokens st)
             else unlink_child (tokens st) (parent_of s) id) = Done m /\ wf m /\
    same_core (view (tokens st)) (view m) /\ forest (view m) [id].
Proof.
  intros Hi Hs. destruct (si_token _ Hi _ _ Hs) as (_ & _ & _ & _ & _ & Hp).
  destruct (Z.eqb_spec (parent_of s) 0) as [E|E].
  - exists (tokens st). split_all; [done|apply Hi|done|].
    intros p sp Hsp. destruct (si_forest _ Hi p sp Hsp) as (l & Hch & Hnd & Hl). exists l.
    unfold child_list. split_all; [done..|]. intros c. rewrite Hl.
    split; [|set_solver]. intros [Hc _]. split; [done|]. intros ->%list_elem_of_singleton.
    destruct Hc as (? & ? & ?). simplify_eq. rewrite E in Hsp. rewrite no_zero in Hsp; done.
  - destruct (Hp E) as (sp & Hsp & _). 
    eapply unlink_child_spec; eauto; apply Hi.
Qed.

Lemma dom_pruned {A} (T T' : tmap) id (m m' : gmap Z A) :
  m' ⊆ m -> dom m ⊆ dom T ->
  (forall b s, T !! b = Some s -> ~ descends T b id ->
     exists s', T' !! b = Some s' /\ core s' = core s) ->
  (forall b, descends T b id -> m' !! b = None) -> dom m' ⊆ dom T'.
Proof.
  intros Hsub Hdom Hkeep Hgone b [e He]%elem_of_dom.
  assert (b ∈ dom T) as [s Hs]%elem_of_dom.
  { apply Hdom, elem_of_dom. exists e. by eapply lookup_weaken. }
  destruct (Hkeep b s Hs) as (s' & Hs' & _); [|apply elem_of_dom; eauto].
  intros Hde. apply Hgone in Hde. congruence.
Qed.

(** Removing the descendants of a token leaves the invariant in place. *)
Lemma inv_pruned st st' id :
  store_inv st -> loop_ok st' [] -> next_id st' = next_id st ->
  view (budget_tracker st') ⊆ view (budget_tracker st) ->
  view (nonce_tracker st') ⊆ view (nonce_tracker st) ->
  (forall b,
     (descends (view (tokens st)) b id ->
        view (tokens st') !! b = None /\ view (budget_tracker st') !! b = None /\
        view (nonce_tracker st') !! b = None) /\
     (~ descends (view (tokens st)) b id ->
        core <$> view (tokens st') !! b = core <$> view (tokens st) !! b)) ->
  store_inv st'.
Proof.
  intros Hi [] Hnx Hb Hn Hd.
  assert (forall b s, view (tokens st) !! b = Some s -> ~ descends (view (tokens st)) b id ->
    exists s', view (tokens st') !! b = Some s' /\ core s' = core s) as Hkeep.
  { intros b s Hs Hnd. destruct (Hd b) as [_ Hcb]. specialize (Hcb Hnd). rewrite Hs in Hcb.
    apply fmap_Some in Hcb as (s' & ? & ?). eauto. }
  split; try done.
  - rewrite Hnx. apply Hi.
  - intros b s' Hs'.
    assert (~ descends (view (tokens st)) b id) as Hnd.
    { intros Hde. destruct (Hd b) as [Hgone _]. destruct (Hgone Hde). congruence. }
    destruct (Hd b) as [_ Hcb]. specialize (Hcb Hnd). rewrite Hs' in Hcb.
    symmetry in Hcb. apply fmap_Some in Hcb as (s & Hs & Hcs).
    eapply (token_ok_core st st'); [by apply (si_token _ Hi)|done|lia|].
    intros sp Hsp. apply Hkeep; [done|]. intros Hdp. apply Hnd.
    eapply rtc_l; [|exact Hdp]. by exists s.
  - eapply (dom_pruned (view (tokens st)) _ id); [done|apply (si_budget_dom _ Hi)|done|].
    intros b Hde. apply (Hd b), Hde.
  - eapply (dom_pruned (view (tokens st)) _ id); [done|apply (si_nonce_dom _ Hi)|done|].
    intros b Hde. apply (Hd b), Hde.
  - intros b e He. apply (si_usage _ Hi b). by eapply lookup_weaken.
Qed.

Lemma revoke_spec st id s :
  store_inv st -> view (tokens st) !! id = Some s ->
  exists st', let T := view (tokens st) in let T' := view (tokens st') in
    revoke st id = Done (Ok (Z.of_nat (size T) - Z.of_nat (size T')), st') /\
    store_inv st' /\ next_id st' = next_id st /\ current_tick st' = current_tick st /\
    forall b,
      (descends T b id -> T' !! b = None /\ view (budget_tracker st') !! b = None /\
         view (nonce_tracker st') !! b = None) /\
      (~ descends T b id -> core <$> T' !! b = core <$> T !! b /\
         view (budget_tracker st') !! b = view (budget_tracker st) !! b /\
         view (nonce_tracker st') !! b = view (nonce_tracker st) !! b).
Proof.
  intros Hi Hs. destruct (detach_spec st id s Hi Hs) as (m & Hm & Hwf & Hc & Hf).
  assert (forall x, is_Some (view m !! x) <-> is_Some (view (tokens st) !! x)) as Hdom.
  { intros x. specialize (Hc x). by rewrite <- (fmap_is_Some core), Hc, fmap_is_Some. }
  assert (size (view m) = size (view (tokens st))) as Hsize.
  { rewrite <- !(size_dom (D := gset Z)). f_equal. apply set_eq. intros x.
    by rewrite !elem_of_dom. }
  destruct (revoke_loop_spec (Z.to_nat (FixedMap.len m)) (with_tokens st m) [id] 0)
    as (n & st' & Hr & Hok & Hnx & Htk & Hn & _ & Hb & Hno & Hd).
  { split; cbn; [done|apply Hi|apply Hi|done|apply NoDup_singleton|].
    intros x ->%list_elem_of_singleton. apply Hdom. eauto. }
  { cbn. rewrite (proj1 (FixedMapSpec.len_view m Hwf)). lia. }
  cbn [with_tokens tokens next_id budget_tracker nonce_tracker current_tick] in *.
  assert (forall b, (exists x, x ∈ [id] /\ descends (view m) b x) <->
    descends (view (tokens st)) b id) as Hiff.
  { intros b. rewrite <- (same_core_descends _ (view m)) by done. set_solver. }
  assert (forall b,
      (descends (view (tokens st)) b id -> view (tokens st') !! b = None /\
         view (budget_tracker st') !! b = None /\ view (nonce_tracker st') !! b = None) /\
      (~ descends (view (tokens st)) b id ->
         core <$> view (tokens st') !! b = core <$> view (tokens st) !! b /\
         view (budget_tracker st') !! b = view (budget_tracker st) !! b /\
         view (nonce_tracker st') !! b = view (nonce_tracker st) !! b)) as Hd'.
  { intros b. destruct (Hd b) as [H1 H2]. rewrite Hiff in H1, H2. split; [done|].
    intros Hnd. destruct (H2 Hnd) as (-> & -> & ->). by rewrite Hc. }
  exists st'. split_all; try done.
  - unfold revoke. rewrite FixedMapSpec.get_view, Hs by apply Hi. exec_simpl.
    fold (parent_of s). rewrite Hm. exec_simpl. cbn [with_tokens tokens]. rewrite Hr. exec_simpl.
    cbn [fst snd]. rewrite Hn, Hsize. done.
  - eapply (inv_pruned st st' id); try done. intros b. destruct (Hd' b) as [H1 H2].
    split; [done|]. intros Hnd. by apply H2.
Qed.

(** ** The clock and [clear] *)
Lemma advance_ticks_inv st n : store_inv st -> store_inv (advance_ticks st n).
Proof. intros []. split; done. Qed.

Lemma clear_inv st : store_inv st -> store_inv (clear st).
Proof.
  intros []. destruct (FixedMapSpec.clear_view (tokens st) si_tokens0) as [? Ht].
  destruct (FixedMapSpec.clear_view (BudgetTracker.usage (budget_tracker st)) si_budget0) as [? Hb].
  destruct (FixedMapSpec.clear_view (NonceTracker.last_seen (nonce_tracker st)) si_nonce0) as [? Hn].
  split; cbn [clear tokens next_id budget_tracker nonce_tracker current_tick]; try done.
  - rewrite Ht. done.
  - rewrite Ht. done.
  - change (view (BudgetTracker.clear ?tr)) with (view (FixedMap.clear (BudgetTracker.usage tr))).
    by rewrite Hb.
  - change (view (NonceTracker.clear ?tr)) with (view (FixedMap.clear (NonceTracker.last_seen tr))).
    by rewrite Hn.
  - change (view (BudgetTracker.clear ?tr)) with (view (FixedMap.clear (BudgetTracker.usage tr))).
    rewrite Hb. apply map_Forall_empty.
Qed.

End Inv.
End CapStoreSpec.
