(* ===== verification/CapTheorems.v ===== *)
(** * Theorems on the capability subsystem

    Sequences of operations of the hash map and of the capability store: what
    every run returns, and the security properties that hold along it. *)

From S2P Require Import Prelude Wire Crypto FixedMap FixedMapSpec Trackers CapStore.
From S2P Require Import CapStoreInv CapStoreSpec.

(** ** The hash map against a finite map *)
Module MapRuns.
Section Runs.
Context {V : Type}.

Inductive op : Type :=
| Insert (key : Z) (v : V)
| Get (key : Z)
| Remove (key : Z)
| Clear.

Inductive reply : Type :=
| Inserted (ok : bool)
| Found (v : option V)
| Removed (v : option V)
| Cleared.

Definition step (m : FixedMap.t V) (o : op) : exec (reply * FixedMap.t V) :=
  match o with
  | Insert key v => r ← FixedMap.insert m key v; Done (Inserted (fst r), snd r)
  | Get key => r ← FixedMap.get m key; Done (Found r, m)
  | Remove key => r ← FixedMap.remove m key; Done (Removed (fst r), snd r)
  | Clear => Done (Cleared, FixedMap.clear m)
  end.

(** The specification: a finite map that takes at most [MAX_LOAD] keys. *)
Definition spec_step (m : gmap Z V) (o : op) : reply * gmap Z V :=
  match o with
  | Insert key v =>
      if bool_decide (is_Some (m !! key) \/ Z.of_nat (size m) < FixedMapSpec.MAX_LOAD)
      then (Inserted true, <[key := v]> m) else (Inserted false, m)
  | Get key => (Found (m !! key), m)
  | Remove key => (Removed (m !! key), delete key m)
  | Clear => (Cleared, ∅)
  end.

Fixpoint run (m : FixedMap.t V) (ops : list op) : exec (list reply) :=
  match ops with
  | [] => Done []
  | o :: ops => r ← step m o; rs ← run (snd r) ops; Done (fst r :: rs)
  end.

Fixpoint spec_run (m : gmap Z V) (ops : list op) : list reply :=
  match ops with
  | [] => []
  | o :: ops => let r := spec_step m o in fst r :: spec_run (snd r) ops
  end.

Lemma step_sim m o : wf m ->
  exists m', step m o = Done (fst (spec_step (view m) o), m') /\ wf m' /\
    view m' = snd (spec_step (view m) o).
Proof.
  intros Hwf. destruct o as [key v|key|key|]; cbn [step spec_step fst snd].
  - destruct (FixedMapSpec.insert_view m key v Hwf) as (m' & -> & Hwf' & Hv).
    rewrite (proj1 (FixedMapSpec.len_view m Hwf)) in *. exists m'. exec_simpl.
    by case_bool_decide.
  - rewrite FixedMapSpec.get_view by done. by exists m.
  - destruct (FixedMapSpec.remove_view m key Hwf) as (m' & -> & ? & ?). by exists m'.
  - destruct (FixedMapSpec.clear_view m Hwf). by exists (FixedMap.clear m).
Qed.

Lemma run_sim ops m : wf m -> run m ops = Done (spec_run (view m) ops).
Proof.
  revert m. induction ops as [|o ops IH]; intros m Hwf; [done|]. cbn.
  destruct (step_sim m o Hwf) as (m' & -> & Hwf' & Hv). exec_simpl. cbn [fst snd].
  by rewrite IH, Hv.
Qed.

(** C1. The open-addressing hash map of the capability store (Fibonacci
    hashing, linear probing, backward-shift deletion) behaves on every sequence
    of insertions, look-ups, removals and clears as a finite map limited to
    12,288 keys: no operation panics or probes forever, and the replies are
    those of the finite map. *)
Theorem fixed_map_refines_finite_map ops :
  run FixedMap.new ops = Done (spec_run ∅ ops).
Proof. apply (run_sim ops FixedMap.new), FixedMapSpec.new_wf. Qed.

End Runs.
End MapRuns.

(** ** Runs of the capability store *)
Module CapRuns.
Import CapStore CapStoreInv CapStoreSpec.

Inductive op : Type :=
| Create (resource permissions owner : Z) (expires : option Z) (budget : option Budget.t)
| Delegate (parent_id new_owner permissions : Z) (expires : option Z) (budget : option Budget.t)
| Validate (token_id required_perm presented_nonce : Z)
| Revoke (token_id : Z)
| AdvanceTicks (n : Z)
| Clear.

Inductive reply : Type :=
| NewId (r : result Z CapabilityError)
| Validated (r : result unit CapabilityError)
| Revoked (r : result Z CapabilityError)
| Silent.

Section Runs.
Context `{HmacSha3} (key : list Z).

Definition step (st : t) (o : op) : exec (reply * t) :=
  match o with
  | Create resource permissions owner expires budget =>
      r ← create key st resource permissions owner expires budget; Done (NewId (fst r), snd r)
  | Delegate parent_id new_owner permissions expires budget =>
      r ← delegate key st parent_id new_owner permissions expires budget;
      Done (NewId (fst r), snd r)
  | Validate token_id required_perm presented_nonce =>
      r ← validate key st token_id required_perm presented_nonce; Done (Validated (fst r), snd r)
  | Revoke token_id => r ← revoke st token_id; Done (Revoked (fst r), snd r)
  | AdvanceTicks n => Done (Silent, advance_ticks st n)
  | Clear => Done (Silent, clear st)
  end.

Fixpoint run (st : t) (ops : list op) : exec (list reply * t) :=
  match ops with
  | [] => Done ([], st)
  | o :: ops => r ← step st o; rs ← run (snd r) ops; Done (fst r :: fst rs, snd rs)
  end.

(** The permission arguments are 16-bit words, tick counts 64-bit ones. *)
Definition op_ok (o : op) : Prop :=
  match o with
  | Create _ permissions _ _ _ | Delegate _ _ permissions _ _ => in_u 16 permissions
  | AdvanceTicks n => in_u 64 n
  | _ => True
  end.

(** What holds across a step: no identifier comes back, a live token keeps
    everything but its list links, and nonces do not go down. *)
Definition keeps (st st' : t) : Prop :=
  next_id st <= next_id st' /\
  forall id s', id < next_id st -> view (tokens st') !! id = Some s' ->
    (exists s, view (tokens st) !! id = Some s /\ core s' = core s) /\
    NonceTracker.last (nonce_tracker st) id <= NonceTracker.last (nonce_tracker st') id.

(** The budget entries of live tokens are as before. *)
Definition same_usage (st st' : t) (id : Z) : Prop :=
  is_Some (view (tokens st') !! id) ->
  view (budget_tracker st') !! id = view (budget_tracker st) !! id.

Definition validates (o : op) (id : Z) : bool :=
  match o with Validate token_id _ _ => token_id =? id | _ => false end.

Definition tick_after (st : t) (o : op) : Z :=
  match o with
  | AdvanceTicks n => u64_add (current_tick st) n
  | Clear => 0
  | _ => current_tick st
  end.

Definition steps_to (st : t) (o : op) (st' : t) : Prop :=
  store_inv key st' /\ next_id st' <= next_id st + 1 /\ current_tick st' = tick_after st o /\
  (o <> Clear -> keeps st st' /\ forall id, validates o id = false -> same_usage st st' id).

Lemma keeps_refl st : keeps st st.
Proof. split; [lia|]. intros. split; [by eauto|lia]. Qed.

Lemma keeps_trans st1 st2 st3 : keeps st1 st2 -> keeps st2 st3 -> keeps st1 st3.
Proof.
  intros [H1 H2] [H3 H4]. split; [lia|]. intros id s3 Hid Hs3.
  destruct (H4 id s3) as [(s2 & Hs2 & E2) Hb]; [lia|done|].
  destruct (H2 id s2) as [(s1 & Hs1 & E1) Ha]; [lia|done|].
  split; [|lia]. exists s1. split; [done|congruence].
Qed.

Lemma nonce_last_eq (tr tr' : NonceTracker.t) id :
  view tr' !! id = view tr !! id -> NonceTracker.last tr' id = NonceTracker.last tr id.
Proof. unfold NonceTracker.last. by intros ->. Qed.

Lemma steps_to_self st o :
  store_inv key st -> tick_after st o = current_tick st -> steps_to st o st.
Proof.
  intros Hi Ht. unfold steps_to. split_all; try done; [lia|]. intros _. split; [apply keeps_refl|done].
Qed.

Lemma create_step st resource permissions owner expires budget :
  store_inv key st -> next_id st + 1 < 2 ^ 64 -> in_u 16 permissions ->
  exists r st', create key st resource permissions owner expires budget = Done (r, st') /\
    steps_to st (Create resource permissions owner expires budget) st'.
Proof.
  intros Hi Hn Hp. destruct (Z.lt_ge_cases (FixedMap.len (tokens st)) MAX_TOKENS) as [Hl|Hl].
  - destruct (create_spec key st resource permissions owner expires budget)
      as (st' & He & Hi' & Hv & Hnx & Ht & Hb & Hno); try done.
    exists (Ok (next_id st)), st'. unfold steps_to. split_all; try done; [lia|].
    unfold same_usage. rewrite Hb. intros _. split; [|done].
    split; [lia|]. intros id s' Hid. rewrite Hv, Hno, lookup_insert_ne by lia.
    intros Hs. split; [by eauto|lia].
  - exists (Err StoreFull), st. unfold create. rewrite Z.geb_leb, (proj2 (Z.leb_le _ _)) by done.
    split; [done|by apply steps_to_self].
Qed.

Lemma delegate_refused st o : store_inv key st -> tick_after st o = current_tick st ->
  forall e : CapabilityError, exists (r : result Z CapabilityError) st',
    Done (Err e, st) = Done (r, st') /\ steps_to st o st'.
Proof. intros Hi Ht e. exists (Err e), st. split; [done|by apply steps_to_self]. Qed.

Lemma delegate_step st parent_id new_owner permissions expires budget :
  store_inv key st -> next_id st + 1 < 2 ^ 64 -> in_u 16 permissions ->
  exists r st', delegate key st parent_id new_owner permissions expires budget = Done (r, st') /\
    steps_to st (Delegate parent_id new_owner permissions expires budget) st'.
Proof.
  intros Hi Hn Hp.
  destruct (Z.lt_ge_cases (FixedMap.len (tokens st)) MAX_TOKENS) as [Hl|Hl].
  2: { unfold delegate. rewrite Z.geb_leb, (proj2 (Z.leb_le _ _)) by done. by apply delegate_refused. }
  destruct (view (tokens st) !! parent_id) as [p|] eqn:Hpar.
  2: { unfold delegate. rewrite Z.geb_leb, (proj2 (Z.leb_gt _ _)) by done.
       rewrite FixedMapSpec.get_view, Hpar by apply Hi. by apply delegate_refused. }
  destruct (Perm.contains (perms p) Perm.GRANT && Perm.is_subset_of permissions (perms p)) eqn:Hg.
  - apply andb_prop in Hg as [Hg Hs].
    destruct (delegate_spec key st p parent_id new_owner permissions expires budget)
      as (st' & He & Hi' & Hv & Hnx & Ht & Hb & Hno); try done.
    exists (Ok (next_id st)), st'. unfold steps_to. split_all; try done; [lia|].
    unfold same_usage. rewrite Hb. intros _. split; [|done].
    split; [lia|]. intros id s' Hid. rewrite Hv, Hno. intros Hs'. split; [|lia].
    rewrite lookup_insert in Hs'. case_decide as E.
    + injection Hs' as <-. subst id. by exists p.
    + rewrite lookup_insert_ne in Hs' by lia. by eauto.
  - unfold delegate. rewrite Z.geb_leb, (proj2 (Z.leb_gt _ _)) by done.
    rewrite FixedMapSpec.get_view, Hpar by apply Hi. exec_simpl. fold (perms p).
    apply andb_false_iff in Hg as [-> | ->]; [by apply delegate_refused|].
    destruct (Perm.contains (perms p) Perm.GRANT); by apply delegate_refused.
Qed.

Lemma validate_step st id perm nonce :
  store_inv key st ->
  exists st', validate key st id perm nonce = Done (verdict st id perm nonce, st') /\
    steps_to st (Validate id perm nonce) st'.
Proof.
  intros Hi. destruct (validate_spec key st id perm nonce Hi)
    as (st' & He & Hi' & Ht & Hn & Htk & Hno & Hb).
  exists st'. unfold steps_to. split_all; try done; [lia|]. intros _. split; [split; [lia|]|].
  - intros x s' Hx. rewrite Ht. intros Hs'. split; [by eauto|].
    unfold NonceTracker.last at 2. rewrite Hno. unfold nonces_after.
    destruct (decide (x = id)) as [->|]; repeat case_match;
      rewrite ?lookup_insert_eq, ?lookup_insert_ne by done; cbn; unfold NonceTracker.last; lia.
  - intros x Hx. cbn in Hx. apply Z.eqb_neq in Hx. intros _. rewrite Hb. unfold usage_after.
    repeat case_match; rewrite ?lookup_insert_ne by done; done.
Qed.

Lemma revoke_step st id :
  store_inv key st ->
  exists r st', revoke st id = Done (r, st') /\ steps_to st (Revoke id) st'.
Proof.
  intros Hi. destruct (view (tokens st) !! id) as [s|] eqn:Hs.
  - destruct (revoke_spec key st id s Hi Hs) as (st' & He & Hi' & Hn & Ht & Hd).
    assert (forall x s', view (tokens st') !! x = Some s' ->
      ~ descends (view (tokens st)) x id) as Hnd.
    { intros x s' Hs' Hde. destruct (Hd x) as [Hgone _]. destruct (Hgone Hde). congruence. }
    eexists _, st'. unfold steps_to. split_all; [exact He|done|lia|done|]. intros _. split; [split; [lia|]|].
    + intros x s' Hx Hs'. destruct (Hd x) as [_ Hkept].
      destruct (Hkept (Hnd _ _ Hs')) as (Hc & _ & Hno). rewrite Hs' in Hc. symmetry in Hc.
      apply fmap_Some in Hc as (s0 & ? & ?). split; [by eauto|].
      rewrite (nonce_last_eq (nonce_tracker st) (nonce_tracker st')); [lia|done].
    + intros x _ [s' Hs']. destruct (Hd x) as [_ Hkept]. by apply Hkept, (Hnd _ s').
  - exists (Err NotFound), st. rewrite (revoke_none key) by done.
    split; [done|by apply steps_to_self].
Qed.

(** Every operation returns and keeps the invariant. *)
Lemma step_spec st o :
  store_inv key st -> next_id st + 1 < 2 ^ 64 -> op_ok o ->
  exists r st', step st o = Done (r, st') /\ steps_to st o st'.
Proof.
  intros Hi Hn Ho. destruct o as [resource p owner e b|parent owner p e b|id p n|id|n|]; cbn in *.
  - destruct (create_step st resource p owner e b) as (r & st' & -> & ?); try done.
    by eexists _, st'.
  - destruct (delegate_step st parent owner p e b) as (r & st' & -> & ?); try done.
    by eexists _, st'.
  - destruct (validate_step st id p n) as (st' & -> & ?); try done. by eexists _, st'.
  - destruct (revoke_step st id) as (r & st' & -> & ?); try done. by eexists _, st'.
  - eexists _, _. split; [done|]. unfold steps_to. split_all; [by apply advance_ticks_inv|cbn; lia|done|].
    intros _. split; [|done]. split; [cbn; lia|]. cbn. intros. split; [by eauto|lia].
  - eexists _, _. split; [done|]. unfold steps_to. split_all; [by apply clear_inv| |done|done].
    cbn. pose proof (si_next _ _ Hi). lia.
Qed.

Lemma run_spec ops st :
  store_inv key st -> next_id st + Z.of_nat (length ops) < 2 ^ 64 -> Forall op_ok ops ->
  exists rs st', run st ops = Done (rs, st') /\ store_inv key st' /\
    next_id st' <= next_id st + Z.of_nat (length ops) /\ (Clear ∉ ops -> keeps st st').
Proof.
  revert st. induction ops as [|o ops IH]; intros st Hi Hn Hok; cbn in *.
  - eexists _, st. split_all; try done; [lia|]. intros _. apply keeps_refl.
  - apply Forall_cons in Hok as [Ho Hok].
    destruct (step_spec st o) as (r & st1 & -> & Hi1 & Hn1 & _ & Hk1); [done|lia|done|].
    exec_simpl. cbn [fst snd].
    destruct (IH st1) as (rs & st2 & -> & Hi2 & Hn2 & Hk2); [done|lia|done|].
    eexists _, st2. split_all; try done; [lia|].
    intros [Hc ?]%not_elem_of_cons. eapply keeps_trans; [|by eauto]. by apply Hk1.
Qed.

(** States of the store that a run from boot reaches.  Identifiers are 64-bit
    and never reused, so a run has fewer than 2^64 - 1 operations. *)
Definition reachable (st : t) : Prop :=
  exists ops rs, Forall op_ok ops /\ Z.of_nat (length ops) < 2 ^ 64 - 1 /\
    run new ops = Done (rs, st).

Lemma reachable_inv st : reachable st -> store_inv key st.
Proof.
  intros (ops & rs & Hok & Hlen & Hr).
  destruct (run_spec ops new) as (rs' & st' & Hr' & Hi & _); [apply new_inv|cbn; lia|done|].
  rewrite Hr in Hr'. by injection Hr' as -> ->.
Qed.

(** Whether a token descends from another is decidable: parents are older. *)
Lemma descends_dec st a b : store_inv key st ->
  descends (view (tokens st)) b a \/ ~ descends (view (tokens st)) b a.
Proof.
  intros Hi. destruct (decide (b = a)) as [->|Hne]; [left; apply rtc_refl|].
  destruct (Z.lt_ge_cases b 0) as [Hneg|Hpos].
  { right. intros [->|(y & (s & Hs & _) & _)]%rtc_inv; [done|].
    destruct (si_token _ _ Hi _ _ Hs) as [? _]. lia. }
  revert Hne Hpos. induction (Z.lt_wf 0 b) as [b _ IH]. intros Hne Hpos.
  destruct (view (tokens st) !! b) as [s|] eqn:Hs.
  - destruct (si_token _ _ Hi _ _ Hs) as (_ & _ & Hp & _).
    assert (descends (view (tokens st)) (parent_of s) a \/
            ~ descends (view (tokens st)) (parent_of s) a) as [Hd|Hd].
    { destruct (decide (parent_of s = a)) as [->|]; [left; apply rtc_refl|].
      apply IH; try done; lia. }
    + left. eapply rtc_l; [|exact Hd]. by exists s.
    + right. intros [->|(y & (s' & Hs' & <-) & Hd')]%rtc_inv; [done|].
      apply Hd. by simplify_eq.
  - right. intros [->|(y & (s' & Hs' & _) & _)]%rtc_inv; [done|]. congruence.
Qed.

Lemma descends_live st a b sa : store_inv key st ->
  view (tokens st) !! a = Some sa -> descends (view (tokens st)) b a ->
  is_Some (view (tokens st) !! b).
Proof. intros Hi Ha [->|(y & (s & ? & _) & _)]%rtc_inv; eauto. Qed.

Lemma descends_attenuated st a b sa sb : store_inv key st ->
  view (tokens st) !! a = Some sa -> view (tokens st) !! b = Some sb ->
  descends (view (tokens st)) b a ->
  Perm.is_subset_of (perms sb) (perms sa) = true /\
  CapabilityToken.resource (token sb) = CapabilityToken.resource (token sa) /\
  (b <> a -> Perm.contains (perms sa) Perm.GRANT = true).
Proof.
  intros Hi Ha Hb Hd.
  assert (forall i s, view (tokens st) !! i = Some s -> in_u 16 (perms s)) as Hin.
  { intros i s Hs. apply (si_token _ _ Hi _ _ Hs). }
  revert sb Hb. induction Hd as [a|b x a (s & Hs & <-) Hd IH]; intros sb Hb.
  - simplify_eq. split_all; [apply Perm.is_subset_of_refl; by eauto|done|done].
  - assert (s = sb) as -> by congruence. destruct (descends_live st _ _ _ Hi Ha Hd) as [sx Hx].
    destruct (IH Ha sx Hx) as (Hsub & Hres & Hg).
    destruct (si_token _ _ Hi _ _ Hb) as (_ & _ & _ & _ & _ & Hp).
    destruct Hp as (p & Hpp & Hps & Hpg & Hpr).
    { intros E. rewrite E, (no_zero key) in Hx by done. done. }
    assert (p = sx) as -> by congruence. split_all; [|congruence|].
    { by eapply (Perm.is_subset_of_trans _ (perms sx)); eauto. }
    intros _. destruct (decide (parent_of sb = a)) as [E|E]; [|by apply Hg]. rewrite E in Hx.
    by simplify_eq.
Qed.

(** A use is granted when the tracker reports uses left. *)
Lemma use_remaining st id b : store_inv key st ->
  exists r, BudgetTracker.remaining (budget_tracker st) id b (current_tick st) = Done r /\
    fst (use st id b) = (r >? 0).
Proof.
  intros Hi. unfold BudgetTracker.remaining, use, BudgetTracker.consume.
  rewrite FixedMapSpec.get_view by apply (si_budget _ _ Hi). exec_simpl.
  change (view (budget_tracker st)) with (view (BudgetTracker.usage (budget_tracker st))).
  eexists. split; [done|]. unfold sat_sub.
  destruct (view (BudgetTracker.usage (budget_tracker st)) !! id) as [[used start]|]; cbn;
    repeat case_match; cbn in *; lia.
Qed.

Lemma expired_false st s :
  expired st s = false <->
  CapabilityToken.expires (token s) <= 0 \/
  current_tick st < u64_add (created_at s) (CapabilityToken.expires (token s)).
Proof. unfold expired. rewrite andb_false_iff. lia. Qed.

Lemma verdict_ok st id perm nonce :
  verdict st id perm nonce = Ok tt <->
  exists s, view (tokens st) !! id = Some s /\ expired st s = false /\
    Perm.contains (perms s) perm = true /\ NonceTracker.last (nonce_tracker st) id < nonce /\
    forall b, budget s = Some b -> fst (use st id b) = true.
Proof.
  unfold verdict. split.
  - destruct (view (tokens st) !! id) as [s|]; [|done]. destruct (expired st s) eqn:?; [done|].
    destruct (Perm.contains (perms s) perm) eqn:?; [|done].
    destruct (Z.leb_spec nonce (NonceTracker.last (nonce_tracker st) id)); cbn; [done|].
    intros Hb. exists s. split_all; try done. intros b Hbs. rewrite Hbs in Hb.
    by destruct (fst (use st id b)).
  - intros (s & -> & -> & -> & Hn & Hb). rewrite (proj2 (Z.leb_gt _ _)) by lia. cbn.
    destruct (budget s) as [b|]; [|done]. by rewrite Hb.
Qed.

(** The validations of [id] that a run accepted, and the ticks it let pass. *)
Fixpoint accepted (id : Z) (ops : list op) (rs : list reply) : Z :=
  match ops, rs with
  | o :: ops, r :: rs =>
      (if validates o id && match r with Validated (Ok _) => true | _ => false end then 1 else 0) +
      accepted id ops rs
  | _, _ => 0
  end.

Fixpoint elapsed (ops : list op) : Z :=
  match ops with
  | [] => 0
  | AdvanceTicks n :: ops => n + elapsed ops
  | _ :: ops => elapsed ops
  end.

Lemma elapsed_nonneg ops : Forall op_ok ops -> 0 <= elapsed ops.
Proof. induction 1 as [|o ops Ho _ IH]; cbn; [lia|]. destruct o; cbn in *; unfold in_u in *; lia. Qed.

(** A run split at its first step. *)
Lemma run_cons st o ops rs st2 :
  store_inv key st -> next_id st + Z.of_nat (S (length ops)) < 2 ^ 64 -> Forall op_ok (o :: ops) ->
  run st (o :: ops) = Done (rs, st2) ->
  exists r rs' st1, rs = r :: rs' /\ step st o = Done (r, st1) /\ run st1 ops = Done (rs', st2) /\
    steps_to st o st1 /\ next_id st1 + Z.of_nat (length ops) < 2 ^ 64.
Proof.
  intros Hi Hn [Ho _]%Forall_cons. cbn. destruct (step_spec st o) as (r & st1 & Hs & Hst); [done|lia|done|].
  rewrite Hs. exec_simpl. intros ([rs' st2'] & Hr & [= <- <-])%bind_Done.
  exists r, rs', st1. split_all; try done. destruct Hst as (_ & ? & _). lia.
Qed.

Lemma dead_accepts_none id ops st rs st2 :
  store_inv key st -> next_id st + Z.of_nat (length ops) < 2 ^ 64 -> Forall op_ok ops ->
  Clear ∉ ops -> id < next_id st -> view (tokens st) !! id = None ->
  run st ops = Done (rs, st2) -> accepted id ops rs = 0.
Proof.
  revert st rs. induction ops as [|o ops IH]; intros st rs Hi Hn Hok Hnc Hid Hd Hr; [done|].
  destruct (run_cons _ _ _ _ _ Hi Hn Hok Hr) as (r & rs' & st1 & -> & Hs & Hr' & Hst & Hn1).
  destruct Hst as (Hi1 & _ & _ & Hk). apply not_elem_of_cons in Hnc as [Hnc Hncs].
  destruct (Hk ltac:(done)) as [[Hle Hkl] _]. cbn. apply Forall_cons in Hok as [_ Hok].
  rewrite (IH st1 rs' Hi1 Hn1 Hok Hncs ltac:(lia)); [|clear IH|done].
  - destruct o as [| |tid p n| | |]; try done. cbn in *. destruct (Z.eqb_spec tid id) as [->|]; [|done].
    destruct (validate_step st id p n Hi) as (st1' & Hv & _). rewrite Hv in Hs. exec_simpl.
    injection Hs as <- _. unfold verdict. by rewrite Hd.
  - destruct (view (tokens st1) !! id) as [s1|] eqn:E; [|done].
    destruct (Hkl id s1) as [(s0 & ? & _) _]; [lia|done|congruence].
Qed.

(** The budget entry that counts for uses from tick [t] on. *)
Definition entry (st : t) (id tick : Z) : Z * Z :=
  from_option Datatypes.id (0, tick) (view (budget_tracker st) !! id).

Lemma entry_validate st id s b p n st1 rest :
  store_inv key st -> view (tokens st) !! id = Some s -> budget s = Some b ->
  view (budget_tracker st1) = usage_after st id p n ->
  let hit := match verdict st id p n with Ok _ => 1 | _ => 0 end in
  exists ticks, (ticks = rest \/ ticks = current_tick st :: rest) /\
    (hit + match rest with [] => 0 | tick :: _ => BudgetTracker.granted_from b (entry st1 id tick) rest end =
     match ticks with [] => 0 | tick :: _ => BudgetTracker.granted_from b (entry st id tick) ticks end).
Proof.
  intros Hi Hs Hb Hv1. cbn zeta. unfold usage_after in Hv1. rewrite Hs in Hv1. cbn in Hv1. rewrite Hb in Hv1.
  assert (verdict st id p n = Ok tt \/ verdict st id p n = Err BudgetExhausted \/
    (verdict st id p n <> Err BudgetExhausted /\ exists e, verdict st id p n = Err e)) as [E|[E|[E E']]].
  { destruct (verdict st id p n) as [[]|[]]; eauto; right; right; split; eauto. }
  - exists (current_tick st :: rest). split; [by right|]. rewrite E in *. cbn.
    fold (entry st id (current_tick st)). apply verdict_ok in E as (s' & Hs' & _ & _ & _ & Hu).
    simplify_eq. specialize (Hu b Hb). unfold use in *. fold (entry st id (current_tick st)) in *.
    rewrite Hu. unfold entry at 1. rewrite Hv1, lookup_insert_eq. cbn. by destruct rest.
  - exists (current_tick st :: rest). split; [by right|]. rewrite E in *. cbn.
    fold (entry st id (current_tick st)).
    assert (fst (use st id b) = false) as Hu.
    { unfold verdict in E. rewrite Hs, Hb in E. by repeat case_match. }
    unfold use in *. fold (entry st id (current_tick st)) in *.
    rewrite Hu. unfold entry at 1. rewrite Hv1, lookup_insert_eq. cbn. by destruct rest.
  - exists rest. split; [by left|]. destruct E' as [e E']. rewrite E' in *.
    assert (view (budget_tracker st1) = view (budget_tracker st)) as Heq by (by destruct e).
    unfold entry. rewrite Heq. done.
Qed.

Lemma run_usage id b ops st s rs st2 :
  store_inv key st -> next_id st + Z.of_nat (length ops) < 2 ^ 64 -> Forall op_ok ops ->
  Clear ∉ ops -> view (tokens st) !! id = Some s -> budget s = Some b ->
  0 <= current_tick st -> current_tick st + elapsed ops < 2 ^ 64 ->
  run st ops = Done (rs, st2) ->
  exists ticks, Forall (fun k => current_tick st <= k <= current_tick st + elapsed ops) ticks /\
    accepted id ops rs =
      match ticks with [] => 0 | k :: _ => BudgetTracker.granted_from b (entry st id k) ticks end.
Proof.
  revert st s rs. induction ops as [|o ops IH]; intros st s rs Hi Hn Hok Hnc Hs Hb Hpos Hel Hr.
  { exists []. by split. }
  destruct (run_cons _ _ _ _ _ Hi Hn Hok Hr) as (r & rs' & st1 & -> & Hst & Hr' & Hto & Hn1).
  pose proof Hto as (Hi1 & _ & Htick & Hk). apply not_elem_of_cons in Hnc as [Hnc Hncs].
  destruct (Hk ltac:(done)) as [[Hle Hkl] Hus]. apply Forall_cons in Hok as [Ho Hok].
  pose proof (elapsed_nonneg ops Hok). destruct (si_token _ _ Hi _ _ Hs) as (Hid & _).
  assert (current_tick st <= current_tick st1 /\
    current_tick st1 + elapsed ops = current_tick st + elapsed (o :: ops)) as [Hmono Hsum].
  { rewrite Htick. destruct o; cbn in *; unfold in_u in *; try lia; [|done].
    rewrite u64_add_small; lia. }
  destruct (validates o id) eqn:Hval.
  - destruct o as [| |tid p n| | |]; try done. cbn in Hval. apply Z.eqb_eq in Hval as ->.
    destruct (validate_spec key st id p n Hi) as (st1' & Hv & _ & Ht & _ & _ & _ & Hb1).
    cbn in Hst. rewrite Hv in Hst. exec_simpl. injection Hst as <- ->.
    destruct (IH st1 s rs') as (rest & Hrest & Hacc); rewrite ?Ht; try done; try lia.
    destruct (entry_validate st id s b p n st1 rest) as (ticks & Hticks & Heq); try done.
    exists ticks. split.
    + assert (Forall (fun k => current_tick st <= k <= current_tick st + elapsed ops) rest).
      { eapply Forall_impl; [exact Hrest|]. cbn in *. lia. }
      destruct Hticks as [-> | ->]; [done|]. constructor; [lia|done].
    + rewrite <- Heq, <- Hacc. cbn. rewrite Z.eqb_refl. cbn. by destruct (verdict st id p n).
  - destruct (view (tokens st1) !! id) as [s1|] eqn:Hs1.
    + destruct (Hkl id s1) as [(s0 & Hs0 & Hc) _]; [lia|done|].
      assert (budget s1 = Some b) as Hb1.
      { assert (budget s1 = budget s0) by (by injection Hc). congruence. }
      destruct (IH st1 s1 rs') as (ticks & Hticks & Hacc); try done; try lia.
      exists ticks. split; [rewrite <- Hsum; eapply Forall_impl; [exact Hticks|]; cbn beta; lia|].
      cbn. rewrite Hval. cbn. rewrite Hacc. unfold entry. rewrite (Hus id Hval); [done|by eauto].
    + exists []. split; [constructor|]. cbn. rewrite Hval. cbn.
      apply (dead_accepts_none id ops st1 rs' st2); try done; lia.
Qed.

(** Delegating with an explicit lifetime of zero from a token that expires gives
    a token that never does: the guard of [child_expires] only caps a lifetime
    that is longer than the parent's, and zero means "no expiry". *)
Lemma zero_lifetime_never_expires st p parent_id owner permissions budget :
  store_inv key st -> next_id st + 1 < 2 ^ 64 -> in_u 16 permissions ->
  FixedMap.len (tokens st) < MAX_TOKENS -> view (tokens st) !! parent_id = Some p ->
  Perm.contains (perms p) Perm.GRANT = true -> Perm.is_subset_of permissions (perms p) = true ->
  exists st' s, delegate key st parent_id owner permissions (Some 0) budget =
      Done (Ok (next_id st), st') /\ view (tokens st') !! next_id st = Some s /\
    forall n, expired (advance_ticks st' n) s = false.
Proof.
  intros Hi Hn Hin Hlen Hp Hg Hs.
  destruct (delegate_spec key st p parent_id owner permissions (Some 0) budget)
    as (st' & Hd & _ & Hv & _); try done.
  exists st', (child_token key st p parent_id owner permissions (Some 0) budget).
  split; [done|]. split.
  - rewrite Hv, lookup_insert_ne, lookup_insert_eq; [done|].
    intros ->. by rewrite (fresh_id key) in Hp.
  - intros n. apply expired_false. left. cbn.
    destruct (Z.gtb_spec (CapabilityToken.expires (token p)) 0),
      (Z.gtb_spec 0 (CapabilityToken.expires (token p))); cbn; lia.
Qed.

(** ** The properties *)

(** C2. Every sequence of creations, delegations, validations, revocations,
    clock ticks and clears of the capability store, started from the empty
    store, runs to completion - no panic on a full table, no endless probe or
    sibling walk - and ends in a state that satisfies the store invariant: the
    sibling lists form exactly the delegation forest, every token carries the
    HMAC of its own bytes, and the trackers only know live tokens. *)
Theorem store_runs_keep_invariant ops :
  Forall op_ok ops -> Z.of_nat (length ops) < 2 ^ 64 - 1 ->
  exists rs st, run new ops = Done (rs, st) /\ length rs = length ops /\ store_inv key st.
Proof.
  intros Hok Hlen.
  destruct (run_spec ops new) as (rs & st & Hr & Hi & _); [apply new_inv|cbn; lia|done|].
  exists rs, st. split_all; try done. clear Hok Hlen Hi. revert rs Hr. generalize new.
  induction ops as [|o ops IH]; intros st0 rs; cbn; [by intros [= <- _]|].
  intros (r1 & _ & (r2 & Hr2 & [= <- <-])%bind_Done)%bind_Done. destruct r2 as [rs2 st2].
  cbn in *. f_equal. by eapply IH.
Qed.

(** C3. Delegation only attenuates: in every reachable state a token that
    descends from another one, through any number of delegations, has a subset
    of its permissions and the same resource, and the ancestor holds GRANT. *)
Theorem delegation_attenuates st a b sa sb :
  reachable st ->
  view (tokens st) !! a = Some sa -> view (tokens st) !! b = Some sb ->
  descends (view (tokens st)) b a ->
  Perm.is_subset_of (perms sb) (perms sa) = true /\
  CapabilityToken.resource (token sb) = CapabilityToken.resource (token sa) /\
  (b <> a -> Perm.contains (perms sa) Perm.GRANT = true).
Proof. intros Hi%reachable_inv. by apply descends_attenuated. Qed.

(** C4. Revoking a live token returns, removes that token and exactly its
    descendants together with their nonce and budget entries, reports how many
    tokens went, and leaves every other token and tracker entry as it was. *)
Theorem revoke_removes_descendants st id s :
  reachable st -> view (tokens st) !! id = Some s ->
  exists st', let T := view (tokens st) in let T' := view (tokens st') in
    revoke st id = Done (Ok (Z.of_nat (size T) - Z.of_nat (size T')), st') /\
    forall b,
      (T' !! b = None <-> T !! b = None \/ descends T b id) /\
      (descends T b id -> view (budget_tracker st') !! b = None /\
         view (nonce_tracker st') !! b = None) /\
      (~ descends T b id -> core <$> T' !! b = core <$> T !! b /\
         view (budget_tracker st') !! b = view (budget_tracker st) !! b /\
         view (nonce_tracker st') !! b = view (nonce_tracker st) !! b).
Proof.
  intros Hi%reachable_inv Hs. destruct (revoke_spec key st id s Hi Hs) as (st' & Hr & _ & _ & _ & Hd).
  exists st'. cbn zeta in *. split; [done|]. intros b. destruct (Hd b) as [H1 H2].
  split_all; [|naive_solver..]. destruct (descends_dec st id b Hi) as [Hde|Hnd]; [naive_solver|].
  destruct (H2 Hnd) as [Hc _]. split; [|intros [Hn|?]; [|done]].
  - intros E. left. rewrite E in Hc. by destruct (view (tokens st) !! b).
  - rewrite Hn in Hc. by destruct (view (tokens st') !! b).
Qed.

(** C5. A revoked token stays revoked: after a revocation of [id], and after
    any further operations except [clear], validating [id] or any token that
    descended from it answers [NotFound]. *)
Theorem revoked_stays_revoked st id n st1 b ops rs st2 perm nonce :
  reachable st -> revoke st id = Done (Ok n, st1) -> descends (view (tokens st)) b id ->
  Forall op_ok ops -> Clear ∉ ops -> next_id st1 + Z.of_nat (length ops) < 2 ^ 64 ->
  run st1 ops = Done (rs, st2) ->
  validate key st2 b perm nonce = Done (Err NotFound, st2).
Proof.
  intros Hi%reachable_inv Hr Hde Hok Hnc Hlen Hrun.
  destruct (view (tokens st) !! id) as [s|] eqn:Hs; [|by rewrite (revoke_none key) in Hr].
  destruct (descends_live st id b s Hi Hs Hde) as [sb Hb].
  destruct (si_token _ _ Hi _ _ Hb) as (Hbid & _).
  destruct (revoke_spec key st id s Hi Hs) as (st1' & Hr' & Hi1 & Hn1 & _ & Hd).
  rewrite Hr in Hr'. injection Hr' as _ <-.
  destruct (run_spec ops st1) as (rs' & st2' & Hrun' & Hi2 & _ & Hk); [done|lia|done|].
  rewrite Hrun in Hrun'. injection Hrun' as _ <-. specialize (Hk Hnc).
  unfold validate. rewrite FixedMapSpec.get_view by apply Hi2.
  destruct (view (tokens st2) !! b) as [s2|] eqn:E; [|done]. exfalso.
  destruct Hk as [_ Hk]. destruct (Hk b s2) as [(s1 & Hs1 & _) _]; [lia|done|].
  destruct (Hd b) as [Hgone _]. destruct (Hgone Hde). congruence.
Qed.


(** No nonce is accepted twice: if a validation of a token with nonce [n1]
    succeeds and, after any further operations except [clear], another
    validation of the same token with nonce [n2] succeeds, then [n1 < n2]. *)
Theorem accepted_nonces_increase st id p1 n1 st1 ops rs st2 p2 n2 st3 :
  reachable st -> validate key st id p1 n1 = Done (Ok tt, st1) ->
  Forall op_ok ops -> Clear ∉ ops -> next_id st + Z.of_nat (length ops) < 2 ^ 64 ->
  run st1 ops = Done (rs, st2) ->
  validate key st2 id p2 n2 = Done (Ok tt, st3) ->
  n1 < n2.
Proof.
  intros Hi%reachable_inv Hv1 Hok Hnc Hlen Hrun Hv2.
  destruct (validate_spec key st id p1 n1 Hi) as (st1' & He1 & Hi1 & Ht1 & Hn1 & _ & Hno1 & _).
  rewrite Hv1 in He1. injection He1 as Hok1 <-. symmetry in Hok1.
  unfold nonces_after in Hno1. rewrite Hok1 in Hno1.
  apply verdict_ok in Hok1 as (s & Hs & _ & _ & Hlt1 & _).
  destruct (run_spec ops st1) as (rs' & st2' & Hrun' & Hi2 & _ & Hk); [done|lia|done|].
  rewrite Hrun in Hrun'. injection Hrun' as _ <-.
  destruct (validate_spec key st2 id p2 n2 Hi2) as (st3' & He2 & _).
  rewrite Hv2 in He2. injection He2 as Hok2 _. symmetry in Hok2.
  apply verdict_ok in Hok2 as (s2 & Hs2 & _ & _ & Hlt2 & _).
  destruct (Hk Hnc) as [_ Hk']. destruct (Hk' id s2) as [_ Hle]; [|done|].
  { rewrite Hn1. destruct (si_token _ _ Hi _ _ Hs) as [? _]. lia. }
  unfold NonceTracker.last in Hle at 1. rewrite Hno1, lookup_insert_eq in Hle. cbn in Hle.
  unfold Datatypes.id in *. lia.
Qed.

(** C7. A budgeted token cannot be used more than twice its allowance in a
    window of one interval: whatever operations run while fewer than
    [interval_ticks] ticks pass, at most [2 * max_uses] validations of the token
    are accepted. *)
Theorem budget_bounds_uses st id s b ops rs st2 :
  reachable st -> next_id st + Z.of_nat (length ops) < 2 ^ 64 ->
  Forall op_ok ops -> Clear ∉ ops ->
  view (tokens st) !! id = Some s -> budget s = Some b -> in_u 32 (Budget.max_uses b) ->
  0 <= current_tick st -> current_tick st + elapsed ops < 2 ^ 64 ->
  elapsed ops < Budget.interval_ticks b ->
  run st ops = Done (rs, st2) ->
  accepted id ops rs <= 2 * Budget.max_uses b.
Proof.
  intros Hi%reachable_inv Hn Hok Hnc Hs Hb Hmax Hpos Hel Hint Hr.
  destruct (run_usage id b ops st s rs st2) as (ticks & Hticks & ->); try done.
  destruct ticks as [|k ticks]; [unfold in_u in Hmax; lia|].
  assert (0 <= fst (entry st id k)) as Hge.
  { unfold entry. destruct (view (budget_tracker st) !! id) as [e|] eqn:E; [|done].
    exact (si_usage _ _ Hi _ _ E). }
  etransitivity; [apply (BudgetTracker.granted_window b (current_tick st)); try done|unfold in_u in Hmax; lia].
  eapply Forall_impl; [exact Hticks|]. cbn. lia.
Qed.

Lemma live_get st id s0 :
  store_inv key st ->
  match FixedMap.get (tokens st) id with Done (Some _) => true | _ => false end = true ->
  view (tokens st) !! id =
    Some (match FixedMap.get (tokens st) id with Done (Some s) => s | _ => s0 end).
Proof.
  intros Hi. rewrite FixedMapSpec.get_view by apply Hi. by destruct (view (tokens st) !! id).
Qed.

End Runs.

(** ** Concrete runs *)
Section Examples.
#[local] Existing Instance ToyHash.hmac.

Definition boot_key : list Z := HmacEngine.init 12345.

(** A root token (1) for process 1 that may read, write and grant, a budgeted
    child (2) of process 2, its child (3), and one of the root's own (4). *)
Definition demo : list op :=
  [Create 7 11 1 (Some 100) None;
   Delegate 1 2 11 (Some 50) (Some (Budget.mk 2 10));
   Delegate 2 3 1 None None;
   Delegate 1 4 2 None None].

Definition demo_state : t :=
  match run boot_key new demo with Done (_, st) => st | _ => new end.

Lemma demo_ok : Forall op_ok demo.
Proof. repeat constructor; cbn; unfold in_u; lia. Qed.

Lemma demo_reachable : reachable boot_key demo_state.
Proof.
  destruct (run_spec boot_key demo new) as (rs & st & Hr & _);
    [apply new_inv|cbn; lia|apply demo_ok|].
  exists demo, rs. split; [apply demo_ok|]. split; [cbn; lia|].
  unfold demo_state. by rewrite Hr.
Qed.

#[local] Opaque demo_state.

(** The answer of an operation and the state it leaves. *)
Definition answer {A} (e : exec (A * t)) : option A :=
  match e with Done (r, _) => Some r | _ => None end.
Definition state_after {A} (e : exec (A * t)) : t :=
  match e with Done (_, st) => st | _ => new end.

Lemma answer_done {A} (e : exec (A * t)) r : answer e = Some r -> e = Done (r, state_after e).
Proof. destruct e as [[r' st]| |]; cbn; intros [= ->] || intros [=]; done. Qed.

(** The tokens of the concrete state. *)
Definition demo_get (id : Z) : StoredToken :=
  match FixedMap.get (tokens demo_state) id with
  | Done (Some s) => s
  | _ => mkStored CapabilityToken.zeroed [] None 0 0 0
  end.

Lemma demo_live id :
  match FixedMap.get (tokens demo_state) id with Done (Some _) => true | _ => false end = true ->
  view (tokens demo_state) !! id = Some (demo_get id).
Proof. intros Hg. apply (live_get boot_key); [apply reachable_inv, demo_reachable|done]. Qed.

#[local] Opaque demo_get.

Lemma demo_descends : descends (view (tokens demo_state)) 3 1.
Proof.
  apply (rtc_l _ _ 2); [exists (demo_get 3)|apply rtc_once; exists (demo_get 2)];
    (split; [apply demo_live|]); vm_compute; reflexivity.
Qed.

Lemma store_runs_keep_invariant_witness :
  exists rs st, run boot_key new demo = Done (rs, st) /\ length rs = length demo /\
    store_inv boot_key st.
Proof.
  apply (store_runs_keep_invariant boot_key demo); [apply demo_ok|cbn; lia].
Defined.

Lemma delegation_attenuates_witness :
  Perm.is_subset_of (perms (demo_get 3)) (perms (demo_get 1)) = true /\
  perms (demo_get 3) = 1 /\ perms (demo_get 1) = 11.
Proof.
  split; [|split; vm_compute; reflexivity].
  refine (proj1 (delegation_attenuates boot_key demo_state 1 3 (demo_get 1) (demo_get 3)
    demo_reachable (demo_live 1 _) (demo_live 3 _) demo_descends)); vm_compute; reflexivity.
Defined.

Lemma revoke_removes_descendants_witness :
  (exists st', revoke demo_state 2 =
      Done (Ok (Z.of_nat (size (view (tokens demo_state))) - Z.of_nat (size (view (tokens st')))), st') /\
    view (tokens st') !! 3 = None) /\
  match revoke demo_state 2 with Done (Ok n, _) => n =? 2 | _ => false end = true.
Proof.
  split; [|vm_compute; reflexivity].
  destruct (revoke_removes_descendants boot_key demo_state 2 (demo_get 2) demo_reachable)
    as (st' & Hr & Hd); [apply demo_live; vm_compute; reflexivity|].
  exists st'. split; [exact Hr|]. destruct (Hd 3) as [[_ H3] _]. apply H3. right.
  apply rtc_once. exists (demo_get 3). split; [apply demo_live|]; vm_compute; reflexivity.
Defined.

(** The state after revoking token 2, and after two uses of it. *)
Definition revoked_state : t := state_after (revoke demo_state 2).
Definition used_state : t := state_after (validate boot_key demo_state 2 1 5).

Lemma revoked_state_eq : revoke demo_state 2 = Done (Ok 2, revoked_state).
Proof. unfold revoked_state. apply answer_done. vm_compute. reflexivity. Qed.

Lemma used_state_eq : validate boot_key demo_state 2 1 5 = Done (Ok tt, used_state).
Proof. unfold used_state. apply answer_done. vm_compute. reflexivity. Qed.

#[local] Opaque revoked_state used_state.

Definition later : list op := [Create 9 1 5 None None; AdvanceTicks 3].

Lemma later_ok : Forall op_ok later /\ Clear ∉ later.
Proof.
  split; [repeat constructor; cbn; unfold in_u; lia|].
  intros Hin. repeat (apply elem_of_cons in Hin as [Hin|Hin]; [discriminate Hin|]).
  by apply elem_of_nil in Hin.
Qed.

Lemma revoked_stays_revoked_witness :
  let st2 := state_after (run boot_key revoked_state later) in
  validate boot_key st2 3 1 1 = Done (Err NotFound, st2).
Proof.
  apply (revoked_stays_revoked boot_key demo_state 2 2 revoked_state 3 later
           [NewId (Ok 5); Silent]).
  - apply demo_reachable.
  - apply revoked_state_eq.
  - apply rtc_once. exists (demo_get 3). split; [apply demo_live|]; vm_compute; reflexivity.
  - apply later_ok.
  - apply later_ok.
  - vm_compute. reflexivity.
  - apply answer_done. vm_compute. reflexivity.
Defined.


Lemma accepted_nonces_increase_witness : 5 < 6.
Proof.
  apply (accepted_nonces_increase boot_key demo_state 2 1 5 used_state later
           [NewId (Ok 5); Silent] (state_after (run boot_key used_state later)) 1 6
           (state_after (validate boot_key (state_after (run boot_key used_state later)) 2 1 6))
           demo_reachable).
  - apply used_state_eq.
  - apply later_ok.
  - apply later_ok.
  - vm_compute. reflexivity.
  - apply answer_done. vm_compute. reflexivity.
  - apply answer_done. vm_compute. reflexivity.
Defined.

(** Three uses of the token that has a budget of two. *)
Definition spree : list op := [Validate 2 1 1; Validate 2 1 2; AdvanceTicks 4; Validate 2 1 3].

Lemma budget_bounds_uses_witness :
  accepted 2 spree [Validated (Ok tt); Validated (Ok tt); Silent; Validated (Err BudgetExhausted)]
    <= 2 * 2.
Proof.
  apply (budget_bounds_uses boot_key demo_state 2 (demo_get 2) (Budget.mk 2 10) spree _
           (state_after (run boot_key demo_state spree)) demo_reachable).
  - vm_compute. reflexivity.
  - repeat constructor; cbn; unfold in_u; lia.
  - intros Hin. repeat (apply elem_of_cons in Hin as [Hin|Hin]; [discriminate Hin|]).
    by apply elem_of_nil in Hin.
  - apply demo_live. vm_compute. reflexivity.
  - vm_compute. reflexivity.
  - unfold in_u. cbn. lia.
  - vm_compute. discriminate.
  - vm_compute. reflexivity.
  - vm_compute. reflexivity.
  - apply answer_done. vm_compute. reflexivity.
Defined.

End Examples.
End CapRuns.
