(* ===== verification/Ring.v ===== *)
(** * Ring buffers

    The reasoning shared by the circular buffers of the kernel (inboxes,
    monitor taps, the audit log): an array of [option] cells, a start index and
    the list of values found from there on, wrapping around. *)

From S2P Require Import Prelude.

Module Ring.
Section Ring.
Context {A : Type} (N : Z).

(** The array [es] of [N] cells holds [xs] from index [h] on. *)
Definition holds (es : list (option A)) (h : Z) (xs : list A) : Prop :=
  Z.of_nat (length es) = N /\ 0 <= h < N /\ Z.of_nat (length xs) <= N /\
  forall i x, xs !! i = Some x -> es !! Z.to_nat ((h + Z.of_nat i) mod N) = Some (Some x).

(** The values of the [count] cells from [h] on. *)
Definition contents (es : list (option A)) (h count : Z) : list A :=
  omap (fun i => mjoin (es !! Z.to_nat ((h + i) mod N))) (seqZ 0 count).

Lemma index_range z : 0 < N -> 0 <= z mod N < N.
Proof. intros. by apply Z.mod_pos_bound. Qed.

(** Distinct offsets below [N] give distinct cells. *)
Lemma index_inj h i j : 0 <= h < N -> 0 <= i < N -> 0 <= j < N ->
  (h + i) mod N = (h + j) mod N -> i = j.
Proof.
  intros Hh Hi Hj E.
  assert ((h + i - (h + j)) mod N = 0) as E' by (rewrite Zminus_mod, E, Z.sub_diag; apply Zmod_0_l).
  apply Z.mod_divide in E' as [q Hq]; [|lia]. assert (q = 0) by nia. lia.
Qed.

Lemma next_index h i : 0 <= h < N -> ((h + 1) mod N + i) mod N = (h + (i + 1)) mod N.
Proof. intros. rewrite Zplus_mod_idemp_l. f_equal. lia. Qed.

Lemma holds_empty es : Z.of_nat (length es) = N -> 0 < N -> holds es 0 [].
Proof. intros. unfold holds. split_all; try done; try lia. cbn. lia. Qed.

Lemma holds_nil es h xs : holds es h xs -> holds es h [].
Proof. intros (? & ? & ? & _). unfold holds. split_all; try done; cbn; lia. Qed.

Lemma holds_push es h xs x :
  holds es h xs -> Z.of_nat (length xs) < N ->
  holds (<[Z.to_nat ((h + Z.of_nat (length xs)) mod N) := Some x]> es) h (xs ++ [x]).
Proof.
  intros (Hlen & Hh & _ & Hcells) Hlt. unfold holds. rewrite length_insert, length_app. cbn.
  split_all; try done; try lia. intros i y Hi.
  pose proof (index_range (h + Z.of_nat (length xs))) as Hr.
  apply lookup_app_Some in Hi as [Hi|[Hge Hi]].
  - pose proof (lookup_lt_Some _ _ _ Hi). rewrite list_lookup_insert_ne; [by apply Hcells|].
    intros E. apply Z2Nat.inj in E; [|apply index_range; lia..].
    apply index_inj in E; lia.
  - apply list_lookup_singleton_Some in Hi as [Hi0 <-].
    replace i with (length xs) by lia. rewrite list_lookup_insert_eq; [done|]. lia.
Qed.

Lemma holds_head es h x xs : holds es h (x :: xs) -> es !! Z.to_nat h = Some (Some x).
Proof.
  intros (_ & Hh & _ & Hcells). specialize (Hcells 0%nat x eq_refl).
  by rewrite Z.add_0_r, Z.mod_small in Hcells.
Qed.

Lemma holds_drop es h x xs : holds es h (x :: xs) -> holds es ((h + 1) mod N) xs.
Proof.
  intros (Hlen & Hh & Hle & Hcells). cbn in Hle. unfold holds.
  split_all; try done; try (apply index_range; lia); [lia|].
  intros i y Hi. rewrite next_index by done.
  replace (Z.of_nat i + 1) with (Z.of_nat (S i)) by lia. by apply Hcells.
Qed.

(** Cells outside the window may be overwritten. *)
Lemma holds_frame es h xs j v :
  holds es h xs -> (forall i, (i < length xs)%nat -> (h + Z.of_nat i) mod N <> j) -> 0 <= j ->
  holds (<[Z.to_nat j := v]> es) h xs.
Proof.
  intros (Hlen & Hh & Hle & Hcells) Hj Hpos. unfold holds. rewrite length_insert.
  split_all; try done; try lia. intros i y Hi. pose proof (lookup_lt_Some _ _ _ Hi).
  rewrite list_lookup_insert_ne; [by apply Hcells|].
  intros E. apply Z2Nat.inj in E; [|done|apply index_range; lia]. by apply (Hj i).
Qed.

Lemma holds_take es h x xs :
  holds es h (x :: xs) -> holds (<[Z.to_nat h := None]> es) ((h + 1) mod N) xs.
Proof.
  intros Hh. pose proof Hh as (_ & Hr & Hle & _). apply holds_frame; [by eapply holds_drop| |lia].
  intros i Hi. rewrite next_index by done. intros E.
  assert ((h + (Z.of_nat i + 1)) mod N = (h + 0) mod N) as E' by (rewrite E, Z.add_0_r, Z.mod_small; lia).
  cbn in Hle. apply index_inj in E'; lia.
Qed.

(** Overwriting the [i]-th value in its cell. *)
Lemma holds_set es h xs i y :
  holds es h xs -> (i < length xs)%nat ->
  holds (<[Z.to_nat ((h + Z.of_nat i) mod N) := Some y]> es) h (<[i := y]> xs).
Proof.
  intros (Hlen & Hh & Hle & Hcells) Hi. unfold holds. rewrite !length_insert.
  split_all; try done; try lia. intros j x Hj.
  pose proof (index_range (h + Z.of_nat i)) as Hr.
  destruct (decide (i = j)) as [->|Hne].
  - rewrite list_lookup_insert_eq in Hj by done. injection Hj as ->.
    apply list_lookup_insert_eq. lia.
  - rewrite list_lookup_insert_ne in Hj by done. pose proof (lookup_lt_Some _ _ _ Hj).
    rewrite list_lookup_insert_ne; [by apply Hcells|].
    intros E. apply Z2Nat.inj in E; [|apply index_range; lia..]. apply index_inj in E; lia.
Qed.

Lemma contents_from (es : list (option A)) h k (xs : list A) :
  (forall i x, xs !! i = Some x -> es !! Z.to_nat ((h + (k + Z.of_nat i)) mod N) = Some (Some x)) ->
  omap (fun i => mjoin (es !! Z.to_nat ((h + i) mod N))) (seqZ k (Z.of_nat (length xs))) = xs.
Proof.
  revert k. induction xs as [|x xs IH]; intros k Hcells; [done|].
  rewrite seqZ_cons by (cbn; lia). cbn [length].
  replace (Z.pred (Z.of_nat (S (length xs)))) with (Z.of_nat (length xs)) by lia.
  cbn [omap list_omap]. pose proof (Hcells 0%nat x eq_refl) as Hx.
  rewrite Z.add_0_r in Hx. rewrite Hx. cbn.
  f_equal. apply IH. intros i y Hi. replace (Z.succ k + Z.of_nat i) with (k + Z.of_nat (S i)) by lia.
  by apply Hcells.
Qed.

Lemma holds_contents es h xs :
  holds es h xs -> contents es h (Z.of_nat (length xs)) = xs.
Proof. intros (_ & _ & _ & Hcells). apply contents_from. done. Qed.

End Ring.
End Ring.
