(* ===== verification/Bus.v ===== *)
(** * The parts of the message bus

    Models [kernel/src/bus/queue.rs] (inboxes), [arena.rs] (payload storage),
    [sequence.rs] (replay protection) and [monitor.rs] (monitor taps). *)

From S2P Require Import Prelude Wire Ring.

(** ** [queue.rs] *)
Module ArenaSlice.

Record t : Type := mk { offset : Z; len : Z }.

End ArenaSlice.

Module Envelope.

Record t : Type := mk {
  header : MessageHeader.t;
  hmac : list Z;
  payload : option ArenaSlice.t;
}.

Definition zeroed : t := mk MessageHeader.zeroed (replicate 32 0) None.

End Envelope.

Module InboxQueue.

Definition QUEUE_CAPACITY : Z := 32.

Record t : Type := mk {
  entries : list (option Envelope.t);
  head : Z;
  tail : Z;
  count : Z;
}.

Definition new : t := mk (replicate (Z.to_nat QUEUE_CAPACITY) None) 0 0 0.

Definition push (q : t) (env : Envelope.t) : exec (bool * t) :=
  if count q >=? QUEUE_CAPACITY then Done (false, q)
  else
    entries ← arr_set (entries q) (tail q) (Some env);
    Done (true, mk entries (head q) ((tail q + 1) mod QUEUE_CAPACITY) (count q + 1)).

Definition pop (q : t) : exec (option Envelope.t * t) :=
  if count q =? 0 then Done (None, q)
  else
    env ← arr_get (entries q) (head q);
    entries ← arr_set (entries q) (head q) None;
    Done (env, mk entries ((head q + 1) mod QUEUE_CAPACITY) (tail q) (count q - 1)).

Definition peek (q : t) : exec (option Envelope.t) :=
  if count q =? 0 then Done None else arr_get (entries q) (head q).

Definition len (q : t) : Z := count q.
Definition is_full (q : t) : bool := count q >=? QUEUE_CAPACITY.
Definition is_empty (q : t) : bool := count q =? 0.

Definition clear (q : t) : t := mk (map (fun _ => None) (entries q)) 0 0 0.

(** The abstract inbox: the pending envelopes, oldest first. *)
#[global] Instance queue_model : Model t (list Envelope.t) := {|
  wf q := exists xs, Ring.holds QUEUE_CAPACITY (entries q) (head q) xs /\
    count q = Z.of_nat (length xs) /\ tail q = (head q + count q) mod QUEUE_CAPACITY;
  view q := Ring.contents QUEUE_CAPACITY (entries q) (head q) (count q);
|}.

Lemma wf_holds q : wf q ->
  Ring.holds QUEUE_CAPACITY (entries q) (head q) (view q) /\
  count q = Z.of_nat (length (view q)) /\ tail q = (head q + count q) mod QUEUE_CAPACITY.
Proof.
  intros (xs & Hh & Hc & Ht). unfold view, queue_model. rewrite Hc at 1 2 3.
  by rewrite (Ring.holds_contents _ _ _ _ Hh).
Qed.

Lemma queue_wf_intro q xs :
  Ring.holds QUEUE_CAPACITY (entries q) (head q) xs ->
  count q = Z.of_nat (length xs) -> tail q = (head q + count q) mod QUEUE_CAPACITY ->
  wf q /\ view q = xs.
Proof.
  intros Hh Hc Ht. split; [by exists xs|]. unfold view, queue_model. rewrite Hc.
  by apply Ring.holds_contents.
Qed.

Lemma queue_new_spec : wf new /\ view new = [].
Proof.
  apply queue_wf_intro; [|done|done]. apply Ring.holds_empty; [done|unfold QUEUE_CAPACITY; lia].
Qed.

Lemma push_spec q env : wf q ->
  exists q', push q env = Done (bool_decide (Z.of_nat (length (view q)) < QUEUE_CAPACITY), q') /\
    wf q' /\
    view q' = if bool_decide (Z.of_nat (length (view q)) < QUEUE_CAPACITY)
              then view q ++ [env] else view q.
Proof.
  intros Hwf. destruct (wf_holds q Hwf) as (Hh & Hc & Ht).
  unfold push. rewrite Hc, Z.geb_leb. case_bool_decide as Hlt.
  - rewrite (proj2 (Z.leb_gt _ _)) by done.
    pose proof (Ring.holds_push _ _ _ _ env Hh Hlt) as Hp.
    destruct Hh as (Hlen & Hhd & _).
    pose proof (Ring.index_range QUEUE_CAPACITY (head q + count q)) as Hr.
    rewrite (arr_set_Done (entries q)) by (rewrite Ht, Hlen; apply Hr; unfold QUEUE_CAPACITY; lia).
    exec_simpl. eexists. split; [done|]. apply queue_wf_intro; cbn [entries head tail count].
    + by rewrite Ht, Hc.
    + rewrite length_app. cbn. lia.
    + rewrite Ht, Hc, Zplus_mod_idemp_l. f_equal. lia.
  - rewrite (proj2 (Z.leb_le _ _)) by lia. by exists q.
Qed.

Lemma pop_spec q : wf q ->
  exists q', pop q = Done (hd_error (view q), q') /\ wf q' /\ view q' = tl (view q).
Proof.
  intros Hwf. destruct (wf_holds q Hwf) as (Hh & Hc & Ht). unfold pop. rewrite Hc.
  destruct (view q) as [|x xs] eqn:Hv; [by exists q|].
  rewrite (proj2 (Z.eqb_neq _ _)) by (cbn; lia).
  pose proof Hh as (Hlen & Hhd & _).
  rewrite (arr_get_at _ _ (Some x)) by (lia || by apply (Ring.holds_head _ _ _ _ _ Hh)).
  exec_simpl. rewrite (arr_set_Done (entries q)) by lia. exec_simpl.
  eexists. split; [done|]. apply queue_wf_intro; cbn [entries head tail count].
  - by eapply Ring.holds_take.
  - cbn. lia.
  - rewrite Ht, Hc, Zplus_mod_idemp_l. f_equal. lia.
Qed.

Lemma peek_spec q : wf q -> peek q = Done (hd_error (view q)).
Proof.
  intros Hwf. destruct (wf_holds q Hwf) as (Hh & Hc & _). unfold peek. rewrite Hc.
  destruct (view q) as [|x xs] eqn:Hv; [done|].
  rewrite (proj2 (Z.eqb_neq _ _)) by (cbn; lia). cbn. apply arr_get_at; [apply Hh|].
  by eapply Ring.holds_head.
Qed.

Lemma queue_clear_spec q : wf q -> wf (clear q) /\ view (clear q) = [].
Proof.
  intros Hwf. destruct (wf_holds q Hwf) as ((Hlen & _) & _). apply queue_wf_intro; [|done|done].
  apply Ring.holds_empty; [|unfold QUEUE_CAPACITY; lia]. cbn. by rewrite length_map.
Qed.

Lemma queue_bound (q : t) : wf q -> Z.of_nat (length (view q)) <= QUEUE_CAPACITY.
Proof. intros Hwf. by destruct (wf_holds q Hwf) as ((_ & _ & ? & _) & _). Qed.

End InboxQueue.

(** ** [arena.rs] *)
Module PayloadArena.

Definition ARENA_CAPACITY : Z := 256 * 1024.
Definition MAX_PAYLOAD_SIZE : Z := 4096.

Record t : Type := mk {
  buffer : option (list Z);
  write_cursor : Z;
}.

Definition new : t := mk None 0.

Definition init (a : t) : t := mk (Some (replicate (Z.to_nat ARENA_CAPACITY) 0)) 0.

Definition allocate (a : t) (data : list Z) : exec (option ArenaSlice.t * t) :=
  let len := Z.of_nat (length data) in
  if len =? 0 then Done (None, a)
  else if len >? MAX_PAYLOAD_SIZE then Done (None, a)
  else
    match buffer a with
    | None => Done (None, a)
    | Some buf =>
        let offset := write_cursor a in
        if offset + len >? ARENA_CAPACITY then
          buf ← slice_set buf 0 len data;
          Done (Some (ArenaSlice.mk 0 (wrap 32 len)), mk (Some buf) len)
        else
          buf ← slice_set buf offset (offset + len) data;
          Done (Some (ArenaSlice.mk (wrap 32 offset) (wrap 32 len)), mk (Some buf) (offset + len))
    end.

Definition get (a : t) (slice : ArenaSlice.t) : exec (list Z) :=
  match buffer a with
  | None => Panicked
  | Some buf =>
      slice_get buf (ArenaSlice.offset slice) (ArenaSlice.offset slice + ArenaSlice.len slice)
  end.

Definition clear (a : t) : t := mk (buffer a) 0.

Definition available (a : t) : Z := ARENA_CAPACITY - write_cursor a.
Definition is_initialized (a : t) : bool := match buffer a with Some _ => true | None => false end.

#[global] Arguments ARENA_CAPACITY : simpl never.
#[global] Arguments MAX_PAYLOAD_SIZE : simpl never.

(** The buffer has its size, once allocated, and the cursor is inside it. *)
Definition arena_ok (a : t) : Prop :=
  0 <= write_cursor a <= ARENA_CAPACITY /\
  match buffer a with Some buf => Z.of_nat (length buf) = ARENA_CAPACITY | None => True end.

Definition initialized (a : t) : Prop := arena_ok a /\ is_Some (buffer a).

Lemma arena_new_ok : arena_ok new.
Proof. split; [|done]. cbn. unfold ARENA_CAPACITY. lia. Qed.

Lemma arena_init_ok a : initialized (init a).
Proof.
  split; [|by eexists]. split; cbn [init write_cursor buffer]; [unfold ARENA_CAPACITY; lia|].
  rewrite length_replicate. unfold ARENA_CAPACITY. lia.
Qed.

Lemma clear_ok a : arena_ok a -> arena_ok (clear a).
Proof. intros [? ?]. split; [|done]. cbn. unfold ARENA_CAPACITY. lia. Qed.

(** Where the next allocation of [len] bytes goes. *)
Definition placed (a : t) (len : Z) : Z :=
  if write_cursor a + len >? ARENA_CAPACITY then 0 else write_cursor a.

(** A payload of 1 to 4096 bytes is stored and read back; the rest of the
    buffer is as before. *)
Lemma allocate_ok a data :
  initialized a -> 0 < Z.of_nat (length data) <= MAX_PAYLOAD_SIZE ->
  let len := Z.of_nat (length data) in
  exists a', allocate a data = Done (Some (ArenaSlice.mk (placed a len) len), a') /\
    initialized a' /\ write_cursor a' = placed a len + len /\
    get a' (ArenaSlice.mk (placed a len) len) = Done data /\
    forall s, 0 <= ArenaSlice.offset s -> 0 <= ArenaSlice.len s ->
      ArenaSlice.offset s + ArenaSlice.len s <= ARENA_CAPACITY ->
      ArenaSlice.offset s + ArenaSlice.len s <= placed a len \/
        placed a len + len <= ArenaSlice.offset s ->
      get a' s = get a s.
Proof.
  intros [[Hc Hbuf] [buf Hb]] Hlen. cbn zeta. rewrite Hb in Hbuf.
  unfold allocate, placed. set (len := Z.of_nat (length data)) in *.
  assert (ARENA_CAPACITY < 2 ^ 32 /\ MAX_PAYLOAD_SIZE < ARENA_CAPACITY) as [Hcap Hmax]
    by (unfold ARENA_CAPACITY, MAX_PAYLOAD_SIZE; lia).
  rewrite (proj2 (Z.eqb_neq len 0)) by lia. rewrite Z.gtb_ltb, (proj2 (Z.ltb_ge _ _)) by lia.
  rewrite Hb, Z.gtb_ltb. unfold get. rewrite Hb.
  destruct (Z.ltb_spec ARENA_CAPACITY (write_cursor a + len)) as [Hw|Hw].
  - destruct (slice_set_Done buf data 0 len) as (buf' & -> & Hl & Hg & Hf); [lia..|].
    exec_simpl. rewrite wrap_small by lia. eexists. split; [done|].
    cbn [write_cursor buffer ArenaSlice.offset ArenaSlice.len].
    split_all; [split; [split; cbn; lia|by eexists]|done|done|].
    intros s ????. apply Hf; lia.
  - destruct (slice_set_Done buf data (write_cursor a) (write_cursor a + len))
      as (buf' & -> & Hl & Hg & Hf); [lia..|].
    exec_simpl. rewrite !wrap_small by lia. eexists. split; [done|].
    cbn [write_cursor buffer ArenaSlice.offset ArenaSlice.len].
    split_all; [split; [split; cbn; lia|by eexists]|done|done|].
    intros s ????. apply Hf; lia.
Qed.

Lemma allocate_none a data :
  ~ (0 < Z.of_nat (length data) <= MAX_PAYLOAD_SIZE /\ is_Some (buffer a)) ->
  allocate a data = Done (None, a).
Proof.
  intros Hno. unfold allocate. destruct (Z.eqb_spec (Z.of_nat (length data)) 0); [done|].
  destruct (Z.gtb_spec (Z.of_nat (length data)) MAX_PAYLOAD_SIZE); [done|].
  destruct (buffer a); [|done]. exfalso. apply Hno. split; [lia|by eexists].
Qed.

(** Later allocations, their total size and the space they may skip. *)
Fixpoint allocate_all (a : t) (ds : list (list Z)) : exec t :=
  match ds with
  | [] => Done a
  | d :: ds => r ← allocate a d; allocate_all (snd r) ds
  end.

Fixpoint total (ds : list (list Z)) : Z :=
  match ds with [] => 0 | d :: ds => Z.of_nat (length d) + total ds end.

Definition payload_ok (d : list Z) : Prop := 0 < Z.of_nat (length d) <= MAX_PAYLOAD_SIZE.

Lemma total_len_nonneg ds : 0 <= total ds.
Proof. induction ds; cbn; lia. Qed.

(** Behind the cursor, before the wrap: [behind]; after it: [ahead]. *)
Lemma survives_ahead a s ds :
  initialized a -> Forall payload_ok ds -> 0 <= ArenaSlice.len s ->
  write_cursor a + total ds <= ArenaSlice.offset s ->
  ArenaSlice.offset s + ArenaSlice.len s <= ARENA_CAPACITY ->
  exists a', allocate_all a ds = Done a' /\ initialized a' /\ get a' s = get a s.
Proof.
  intros Hi Hds Hl. revert a Hi. induction Hds as [|d ds Hd _ IH]; intros a Hi Hw Hcap; [by eexists|].
  cbn in *. destruct (allocate_ok a d Hi Hd) as (a1 & -> & Hi1 & Hc1 & _ & Hg1).
  exec_simpl. cbn [snd]. pose proof (total_len_nonneg ds). pose proof Hi as [[Hcur _] _].
  assert (placed a (Z.of_nat (length d)) = write_cursor a) as Hp.
  { unfold placed. destruct (Z.gtb_spec (write_cursor a + Z.of_nat (length d)) ARENA_CAPACITY); lia. }
  rewrite Hp in *. destruct (IH a1 Hi1) as (a' & Ha & Hi' & Hg); [lia|done|].
  exists a'. split_all; try done. rewrite Hg. apply Hg1; lia.
Qed.

Lemma survives_behind a s ds :
  initialized a -> Forall payload_ok ds -> 0 <= ArenaSlice.offset s -> 0 <= ArenaSlice.len s ->
  ArenaSlice.offset s + ArenaSlice.len s <= write_cursor a ->
  total ds + MAX_PAYLOAD_SIZE + (write_cursor a - ArenaSlice.offset s) <= ARENA_CAPACITY ->
  exists a', allocate_all a ds = Done a' /\ initialized a' /\ get a' s = get a s.
Proof.
  intros Hi Hds Ho Hl. revert a Hi. induction Hds as [|d ds Hd Hds IH]; intros a Hi Hb Hroom; [by eexists|].
  cbn in *. destruct (allocate_ok a d Hi Hd) as (a1 & -> & Hi1 & Hc1 & _ & Hg1).
  exec_simpl. cbn [snd]. pose proof (total_len_nonneg ds). pose proof Hi as [[Hcur _] _].
  unfold payload_ok in Hd. unfold placed in *.
  destruct (Z.gtb_spec (write_cursor a + Z.of_nat (length d)) ARENA_CAPACITY) as [Hw|Hw].
  - destruct (survives_ahead a1 s ds Hi1 Hds Hl) as (a' & Ha & Hi' & Hg); [lia..|].
    exists a'. split_all; try done. rewrite Hg. apply Hg1; lia.
  - destruct (IH a1 Hi1) as (a' & Ha & Hi' & Hg); [lia..|].
    exists a'. split_all; try done. rewrite Hg. apply Hg1; lia.
Qed.

End PayloadArena.

(** ** [sequence.rs] *)
Module SequenceTracker.

Inductive SequenceError : Type :=
| Replay
| Gap (expected got : Z).

(** [BTreeMap<u32, u64>]. *)
Record t : Type := mk { last_seen : gmap Z Z }.

Definition new : t := mk ∅.

Definition next_expected (tr : t) (sender : Z) : Z :=
  match last_seen tr !! sender with Some n => u64_add n 1 | None => 1 end.

Definition check (tr : t) (sender sequence : Z) : result unit SequenceError * t :=
  let expected := next_expected tr sender in
  if sequence =? expected then (Ok tt, mk (<[sender := sequence]> (last_seen tr)))
  else if sequence <=? from_option (fun n => n) 0 (last_seen tr !! sender) then (Err Replay, tr)
  else (Err (Gap expected sequence), tr).

Definition remove (tr : t) (sender : Z) : t := mk (delete sender (last_seen tr)).
Definition clear (tr : t) : t := mk ∅.

(** The last sequence number accepted from [sender]; 0 at the start. *)
Definition last (tr : t) (sender : Z) : Z := from_option id 0 (last_seen tr !! sender).

Lemma next_expected_last tr sender : 0 <= last tr sender < 2 ^ 64 - 1 ->
  next_expected tr sender = last tr sender + 1.
Proof.
  unfold next_expected, last. destruct (last_seen tr !! sender); [|done].
  intros. apply u64_add_small; cbn in *; unfold id in *; lia.
Qed.

(** Away from the end of the 64-bit range, a sequence number is accepted
    exactly when it is the successor of the last one, a lower or equal one is a
    replay, and a higher one a gap that changes nothing. *)
Lemma check_spec tr sender sequence : 0 <= last tr sender < 2 ^ 64 - 1 ->
  check tr sender sequence =
    if sequence =? last tr sender + 1 then (Ok tt, mk (<[sender := sequence]> (last_seen tr)))
    else if sequence <=? last tr sender then (Err Replay, tr)
    else (Err (Gap (last tr sender + 1) sequence), tr).
Proof. intros H. unfold check. by rewrite next_expected_last by done. Qed.

End SequenceTracker.

(** ** [monitor.rs] *)
Module MonitorRegistry.

Definition MAX_MONITORS : Z := 4.
Definition MONITOR_BUFFER_SIZE : Z := 64.

Record MonitorFilter : Type := mkFilter {
  f_sender : option Z;
  f_receiver : option Z;
  f_msg_type : option Z;
}.

(** [if let Some(x) = self.field { if env.header.field != x { return false; } }] *)
Definition field_matches (want : option Z) (got : Z) : bool :=
  match want with Some x => x =? got | None => true end.

Definition matches (f : MonitorFilter) (env : Envelope.t) : bool :=
  let h := Envelope.header env in
  if negb (field_matches (f_sender f) (MessageHeader.sender h)) then false
  else if negb (field_matches (f_receiver f) (MessageHeader.receiver h)) then false
  else if negb (field_matches (f_msg_type f) (MessageHeader.msg_type h)) then false
  else true.

Record MonitorTap : Type := mkTap {
  id : Z;
  filter : MonitorFilter;
  buffer : list (option Envelope.t);
  head : Z;
  tail : Z;
  count : Z;
}.

Definition tap_new (id : Z) (filter : MonitorFilter) : MonitorTap :=
  mkTap id filter (replicate (Z.to_nat MONITOR_BUFFER_SIZE) None) 0 0 0.

Definition tap_push (tap : MonitorTap) (env : Envelope.t) : exec MonitorTap :=
  let '(head, count) :=
    if count tap >=? MONITOR_BUFFER_SIZE
    then ((head tap + 1) mod MONITOR_BUFFER_SIZE, count tap - 1)
    else (head tap, count tap) in
  buffer ← arr_set (buffer tap) (tail tap) (Some env);
  Done (mkTap (id tap) (filter tap) buffer head ((tail tap + 1) mod MONITOR_BUFFER_SIZE) (count + 1)).

Definition tap_pop (tap : MonitorTap) : exec (option Envelope.t * MonitorTap) :=
  if count tap =? 0 then Done (None, tap)
  else
    env ← arr_get (buffer tap) (head tap);
    buffer ← arr_set (buffer tap) (head tap) None;
    Done (env, mkTap (id tap) (filter tap) buffer ((head tap + 1) mod MONITOR_BUFFER_SIZE)
                 (tail tap) (count tap - 1)).

Definition pending (tap : MonitorTap) : Z := count tap.

Record t : Type := mk {
  taps : list (option MonitorTap);
  next_id : Z;
}.

Definition new : t := mk (replicate (Z.to_nat MAX_MONITORS) None) 1.

(** The loops over [self.taps.iter_mut()]. *)
Fixpoint register_loop (slots : list (option MonitorTap)) (tap : MonitorTap)
    : option (list (option MonitorTap)) :=
  match slots with
  | [] => None
  | None :: rest => Some (Some tap :: rest)
  | Some t0 :: rest => option_map (cons (Some t0)) (register_loop rest tap)
  end.

Definition register (r : t) (filter : MonitorFilter) : option Z * t :=
  match register_loop (taps r) (tap_new (next_id r) filter) with
  | Some taps => (Some (next_id r), mk taps (u32_add (next_id r) 1))
  | None => (None, r)
  end.

Fixpoint unregister_loop (slots : list (option MonitorTap)) (tap_id : Z)
    : bool * list (option MonitorTap) :=
  match slots with
  | [] => (false, [])
  | Some tap :: rest =>
      if id tap =? tap_id then (true, None :: rest)
      else let '(b, rest) := unregister_loop rest tap_id in (b, Some tap :: rest)
  | None :: rest => let '(b, rest) := unregister_loop rest tap_id in (b, None :: rest)
  end.

Definition unregister (r : t) (tap_id : Z) : bool * t :=
  let '(b, taps) := unregister_loop (taps r) tap_id in (b, mk taps (next_id r)).

Fixpoint notify_loop (slots : list (option MonitorTap)) (env : Envelope.t)
    : exec (list (option MonitorTap)) :=
  match slots with
  | [] => Done []
  | Some tap :: rest =>
      tap ← (if matches (filter tap) env then tap_push tap env else Done tap);
      rest ← notify_loop rest env;
      Done (Some tap :: rest)
  | None :: rest => rest ← notify_loop rest env; Done (None :: rest)
  end.

Definition notify (r : t) (env : Envelope.t) : exec t :=
  taps ← notify_loop (taps r) env; Done (mk taps (next_id r)).

Fixpoint drain_loop (slots : list (option MonitorTap)) (tap_id : Z)
    : exec (option Envelope.t * list (option MonitorTap)) :=
  match slots with
  | [] => Done (None, [])
  | Some tap :: rest =>
      if id tap =? tap_id then p ← tap_pop tap; Done (fst p, Some (snd p) :: rest)
      else r ← drain_loop rest tap_id; Done (fst r, Some tap :: snd r)
  | None :: rest => r ← drain_loop rest tap_id; Done (fst r, None :: snd r)
  end.

Definition drain (r : t) (tap_id : Z) : exec (option Envelope.t * t) :=
  d ← drain_loop (taps r) tap_id; Done (fst d, mk (snd d) (next_id r)).

Fixpoint pending_count_loop (slots : list (option MonitorTap)) (tap_id : Z) : Z :=
  match slots with
  | [] => 0
  | Some tap :: rest => if id tap =? tap_id then pending tap else pending_count_loop rest tap_id
  | None :: rest => pending_count_loop rest tap_id
  end.

Definition pending_count (r : t) (tap_id : Z) : Z := pending_count_loop (taps r) tap_id.

Definition clear (r : t) : t := mk (map (fun _ => None) (taps r)) 1.

(** *** The events a tap holds *)

(** The last [n] elements. *)
Definition keep_last {A} (n : nat) (l : list A) : list A := drop (length l - n) l.

Lemma keep_last_short {A} n (l : list A) : (length l <= n)%nat -> keep_last n l = l.
Proof. intros. unfold keep_last. by replace (length l - n)%nat with 0%nat by lia. Qed.

Lemma keep_last_cons {A} n x (l : list A) : length l = n -> keep_last n (x :: l) = l.
Proof. intros <-. unfold keep_last. cbn [length]. by replace (S _ - _)%nat with 1%nat by lia. Qed.

Lemma keep_last_app {A} n (l l' : list A) : keep_last n (keep_last n l ++ l') = keep_last n (l ++ l').
Proof.
  unfold keep_last. destruct (decide (length l <= n)%nat) as [|].
  - by replace (length l - n)%nat with 0%nat by lia.
  - rewrite <- (drop_app_le l l' (length l - n)) by lia. rewrite drop_drop, !length_drop, !length_app.
    f_equal. lia.
Qed.

#[global] Instance tap_model : Model MonitorTap (list Envelope.t) := {|
  wf tap := exists xs, Ring.holds MONITOR_BUFFER_SIZE (buffer tap) (head tap) xs /\
    count tap = Z.of_nat (length xs) /\ tail tap = (head tap + count tap) mod MONITOR_BUFFER_SIZE;
  view tap := Ring.contents MONITOR_BUFFER_SIZE (buffer tap) (head tap) (count tap);
|}.

Lemma tap_holds (tap : MonitorTap) : wf tap ->
  Ring.holds MONITOR_BUFFER_SIZE (buffer tap) (head tap) (view tap) /\
  count tap = Z.of_nat (length (view tap)) /\
  tail tap = (head tap + count tap) mod MONITOR_BUFFER_SIZE.
Proof.
  intros (xs & Hh & Hc & Ht). unfold view, tap_model. rewrite Hc at 1 2 3.
  by rewrite (Ring.holds_contents _ _ _ _ Hh).
Qed.

Lemma tap_intro (tap : MonitorTap) xs :
  Ring.holds MONITOR_BUFFER_SIZE (buffer tap) (head tap) xs ->
  count tap = Z.of_nat (length xs) -> tail tap = (head tap + count tap) mod MONITOR_BUFFER_SIZE ->
  wf tap /\ view tap = xs.
Proof.
  intros Hh Hc Ht. split; [by exists xs|]. unfold view, tap_model. rewrite Hc.
  by apply Ring.holds_contents.
Qed.

Lemma tap_new_spec i f : wf (tap_new i f) /\ view (tap_new i f) = [].
Proof.
  apply tap_intro; [|done|done]. apply Ring.holds_empty; [done|unfold MONITOR_BUFFER_SIZE; lia].
Qed.

(** Storing at the tail of a ring with a free cell. *)
Lemma store_spec (tap : MonitorTap) h xs env :
  Ring.holds MONITOR_BUFFER_SIZE (buffer tap) h xs -> Z.of_nat (length xs) < MONITOR_BUFFER_SIZE ->
  tail tap = (h + Z.of_nat (length xs)) mod MONITOR_BUFFER_SIZE ->
  exists b, arr_set (buffer tap) (tail tap) (Some env) = Done b /\
    Ring.holds MONITOR_BUFFER_SIZE b h (xs ++ [env]) /\
    (tail tap + 1) mod MONITOR_BUFFER_SIZE =
      (h + Z.of_nat (length (xs ++ [env]))) mod MONITOR_BUFFER_SIZE.
Proof.
  intros Hh Hlt Ht. pose proof (Ring.holds_push _ _ _ _ env Hh Hlt) as Hp.
  destruct Hh as (Hlen & _). eexists. split; [apply arr_set_Done|].
  { rewrite Ht, Hlen. apply Ring.index_range. unfold MONITOR_BUFFER_SIZE. lia. }
  split; [by rewrite Ht|]. rewrite Ht, Zplus_mod_idemp_l, length_app. f_equal. cbn. lia.
Qed.

Lemma tap_push_spec tap env : wf tap ->
  exists tap', tap_push tap env = Done tap' /\ wf tap' /\
    view tap' = keep_last 64 (view tap ++ [env]) /\ id tap' = id tap /\ filter tap' = filter tap.
Proof.
  intros Hwf. destruct (tap_holds tap Hwf) as (Hh & Hc & Ht). unfold tap_push.
  rewrite Hc, Z.geb_leb. pose proof Hh as (_ & _ & Hle & _).
  destruct (Z.leb_spec MONITOR_BUFFER_SIZE (Z.of_nat (length (view tap)))) as [Hfull|Hroom].
  - destruct (view tap) as [|x xs] eqn:Hv; [unfold MONITOR_BUFFER_SIZE in *; cbn in *; lia|].
    cbn [length] in *.
    destruct (store_spec tap ((head tap + 1) mod MONITOR_BUFFER_SIZE) xs env) as (b & -> & Hb & Htl).
    { by eapply Ring.holds_drop. }
    { unfold MONITOR_BUFFER_SIZE in *. lia. }
    { rewrite Ht, Hc, Zplus_mod_idemp_l. f_equal. lia. }
    exec_simpl. eexists. split; [done|].
    edestruct (tap_intro (mkTap (id tap) (filter tap) b ((head tap + 1) mod MONITOR_BUFFER_SIZE)
      ((tail tap + 1) mod MONITOR_BUFFER_SIZE) (Z.of_nat (S (length xs)) - 1 + 1))) as [? Hview].
    + exact Hb.
    + cbn. rewrite length_app. cbn. lia.
    + cbn [tail head count]. rewrite Htl, length_app. f_equal. cbn. lia.
    + split_all; try done. rewrite Hview. symmetry. apply (keep_last_cons 64 x (xs ++ [env])).
      rewrite length_app. cbn. unfold MONITOR_BUFFER_SIZE in *. lia.
  - destruct (store_spec tap (head tap) (view tap) env) as (b & -> & Hb & Htl); try done.
    { by rewrite Ht, Hc. }
    exec_simpl. eexists. split; [done|].
    edestruct (tap_intro (mkTap (id tap) (filter tap) b (head tap)
      ((tail tap + 1) mod MONITOR_BUFFER_SIZE) (Z.of_nat (length (view tap)) + 1))) as [? Hview].
    + exact Hb.
    + cbn. rewrite length_app. cbn. lia.
    + cbn [tail head count]. rewrite Htl, length_app. f_equal. cbn. lia.
    + split_all; try done. rewrite Hview. symmetry. apply keep_last_short.
      rewrite length_app. cbn. unfold MONITOR_BUFFER_SIZE in *. lia.
Qed.

Lemma tap_pop_spec tap : wf tap ->
  exists tap', tap_pop tap = Done (hd_error (view tap), tap') /\ wf tap' /\
    view tap' = tl (view tap) /\ id tap' = id tap /\ filter tap' = filter tap.
Proof.
  intros Hwf. destruct (tap_holds tap Hwf) as (Hh & Hc & Ht). unfold tap_pop. rewrite Hc.
  destruct (view tap) as [|x xs] eqn:Hv; [by exists tap|].
  rewrite (proj2 (Z.eqb_neq _ _)) by (cbn; lia). pose proof Hh as (Hlen & Hhd & _).
  rewrite (arr_get_at _ _ (Some x)) by (lia || by apply (Ring.holds_head _ _ _ _ _ Hh)).
  exec_simpl. rewrite (arr_set_Done (buffer tap)) by lia. exec_simpl.
  eexists. split; [done|]. cbn [id filter].
  edestruct (tap_intro (mkTap (id tap) (filter tap) (<[Z.to_nat (head tap):=None]> (buffer tap))
    ((head tap + 1) mod MONITOR_BUFFER_SIZE) (tail tap) (Z.of_nat (length (x :: xs)) - 1))) as [? Hview].
  - by eapply Ring.holds_take.
  - cbn. lia.
  - cbn [tail head count]. rewrite Ht, Hc, Zplus_mod_idemp_l. f_equal. lia.
  - by split_all.
Qed.

Definition slots_ok (slots : list (option MonitorTap)) : Prop :=
  Forall (fun o => match o with Some tap => wf tap | None => True end) slots.

(** What a tap holds after it was shown an envelope. *)
Definition sees (tap tap' : MonitorTap) (envs : list Envelope.t) : Prop :=
  id tap' = id tap /\ filter tap' = filter tap /\
  view tap' = keep_last 64 (view tap ++ List.filter (matches (filter tap)) envs).

Lemma tap_bound (tap : MonitorTap) : wf tap -> (length (view tap) <= 64)%nat.
Proof.
  intros Hwf. destruct (tap_holds tap Hwf) as ((_ & _ & Hl & _) & _).
  unfold MONITOR_BUFFER_SIZE in Hl. lia.
Qed.

Lemma sees_nil tap : wf tap -> sees tap tap [].
Proof.
  intros Hwf. unfold sees. split_all; try done. cbn [List.filter]. rewrite app_nil_r. symmetry.
  by apply keep_last_short, tap_bound.
Qed.

Lemma sees_trans tap1 tap2 tap3 es1 es2 :
  sees tap1 tap2 es1 -> sees tap2 tap3 es2 -> sees tap1 tap3 (es1 ++ es2).
Proof.
  intros (Hi1 & Hf1 & Hv1) (Hi2 & Hf2 & Hv2). unfold sees. split_all; try congruence.
  rewrite Hv2, Hf1, Hv1, List.filter_app, app_assoc. apply keep_last_app.
Qed.

Definition sees_slot (envs : list Envelope.t) (o o' : option MonitorTap) : Prop :=
  match o, o' with
  | Some tap, Some tap' => sees tap tap' envs
  | None, None => True
  | _, _ => False
  end.

Lemma notify_loop_spec slots env : slots_ok slots ->
  exists slots', notify_loop slots env = Done slots' /\ slots_ok slots' /\
    Forall2 (sees_slot [env]) slots slots'.
Proof.
  induction 1 as [|o slots Ho _ (slots' & IH & Hok & Hall)]; [exists []; split_all; done || constructor|].
  destruct o as [tap|]; cbn.
  - assert (exists tap', (if matches (filter tap) env then tap_push tap env else Done tap) = Done tap' /\
      wf tap' /\ sees tap tap' [env]) as (tap' & -> & Hwf' & Hs).
    { destruct (matches (filter tap) env) eqn:Hm.
      - destruct (tap_push_spec tap env Ho) as (tap' & -> & ? & Hv & ? & ?). exists tap'.
        unfold sees. cbn. rewrite Hm. done.
      - exists tap. split_all; try done. unfold sees. cbn [List.filter]. rewrite Hm, app_nil_r. split_all; try done.
        symmetry. by apply keep_last_short, tap_bound. }
    exec_simpl. rewrite IH. exec_simpl. eexists. split; [done|]. split; by constructor.
  - rewrite IH. exec_simpl. eexists. split; [done|]. split; by constructor.
Qed.

Fixpoint notify_all (r : t) (envs : list Envelope.t) : exec t :=
  match envs with
  | [] => Done r
  | env :: envs => r ← notify r env; notify_all r envs
  end.

Lemma notify_all_spec r envs : slots_ok (taps r) ->
  exists r', notify_all r envs = Done r' /\ slots_ok (taps r') /\ next_id r' = next_id r /\
    Forall2 (sees_slot envs) (taps r) (taps r').
Proof.
  revert r. induction envs as [|env envs IH]; intros r Hok.
  - exists r. split_all; try done. apply Forall_Forall2_diag. eapply Forall_impl; [exact Hok|].
    intros [tap|]; cbn; [apply sees_nil|done].
  - cbn. unfold notify. destruct (notify_loop_spec (taps r) env Hok) as (slots & -> & Hok1 & H1).
    exec_simpl. destruct (IH (mk slots (next_id r)) Hok1) as (r' & -> & Hok' & Hn & H2).
    exists r'. split_all; try done. cbn [taps] in H2. eapply Forall2_compose; [|exact H1|exact H2].
    intros [t1|] [t2|] [t3|]; cbn; try done. apply (sees_trans t1 t2 t3 [env] envs).
Qed.

(** Registering takes a fresh identifier and an empty buffer; the other taps
    are untouched. *)
Lemma register_loop_spec slots tap slots' :
  register_loop slots tap = Some slots' ->
  exists i, slots !! i = Some None /\ slots' = <[i := Some tap]> slots.
Proof.
  revert slots'. induction slots as [|[t0|] rest IH]; intros slots'; cbn; try done.
  - destruct (register_loop rest tap) as [rest'|] eqn:E; cbn; [|done]. intros [= <-].
    destruct (IH rest' eq_refl) as (i & ? & ->). by exists (S i).
  - intros [= <-]. by exists 0%nat.
Qed.

Lemma register_loop_full slots tap :
  register_loop slots tap = None -> forall i, slots !! i <> Some None.
Proof.
  induction slots as [|[t0|] rest IH]; cbn; try done.
  destruct (register_loop rest tap); cbn; [done|]. intros _ [|i]; cbn; [done|]. by apply IH.
Qed.

End MonitorRegistry.
