(* ===== verification/AuditTrail.v ===== *)
(** * The hash-chained audit log

    Models [kernel/src/bus/audit.rs]: a ring of 512 entries in which every
    entry carries the hash of its predecessor, and the check of the chain. *)

From S2P Require Import Prelude Wire Crypto Ring Bus.

Module AuditLog.

Definition AUDIT_CAPACITY : Z := 512.
#[global] Arguments AUDIT_CAPACITY : simpl never.

Record t : Type := mk {
  entries : list (option AuditEntry.t);
  write_pos : Z;
  total_count : Z;
  prev_hash : list Z;
}.

Definition new : t := mk (replicate (Z.to_nat AUDIT_CAPACITY) None) 0 0 (replicate 32 0).

Section Log.
Context `{Sha3}.

(** [Sha3_256] over [hashable_bytes], the capability id and the message
    sequence number, as computed by [append] and again by [verify_chain]. *)
Definition entry_hash (e : AuditEntry.t) : list Z :=
  sha3_256 (AuditEntry.hashable_bytes e ++ le_bytes 8 (AuditEntry.capability_id e) ++
            le_bytes 8 (AuditEntry.msg_sequence e)).

Definition with_hash (e : AuditEntry.t) (h : list Z) : AuditEntry.t :=
  AuditEntry.mk (AuditEntry.sequence e) (AuditEntry.timestamp e) (AuditEntry.actor e)
    (AuditEntry.action e) (AuditEntry.target e) (AuditEntry.msg_type e)
    (AuditEntry.capability_id e) (AuditEntry.msg_sequence e) (AuditEntry.prev_hash e) h.

(** The entry that [append] builds. *)
Definition make_entry (log : t) (actor : Z) (action : AuditAction.t)
    (target msg_type capability_id msg_sequence timestamp : Z) : AuditEntry.t :=
  let entry := AuditEntry.mk (total_count log) timestamp actor action target msg_type
                 capability_id msg_sequence (prev_hash log) (AuditEntry.hash AuditEntry.zeroed) in
  with_hash entry (entry_hash entry).

Definition append (log : t) (actor : Z) (action : AuditAction.t)
    (target msg_type capability_id msg_sequence timestamp : Z) : exec t :=
  let entry := make_entry log actor action target msg_type capability_id msg_sequence timestamp in
  entries ← arr_set (entries log) (write_pos log) (Some entry);
  Done (mk entries ((write_pos log + 1) mod AUDIT_CAPACITY) (u64_add (total_count log) 1)
          (AuditEntry.hash entry)).

Definition ring_count (log : t) : Z :=
  if total_count log <=? AUDIT_CAPACITY then total_count log else AUDIT_CAPACITY.

(** The loop of [verify_chain] over the offsets [offs]. *)
Fixpoint verify_loop (es : list (option AuditEntry.t)) (start : Z) (offs : list Z)
    (verified : Z) (prev_hash : list Z) (first : bool) : exec (Z * bool) :=
  match offs with
  | [] => Done (verified, true)
  | i :: offs =>
      o ← arr_get es ((start + i) mod AUDIT_CAPACITY);
      match o with
      | None => verify_loop es start offs verified prev_hash first
      | Some entry =>
          let prev_hash := if first then AuditEntry.prev_hash entry else prev_hash in
          if negb (bool_decide (AuditEntry.prev_hash entry = prev_hash)) then Done (verified, false)
          else if negb (bool_decide (AuditEntry.hash entry = entry_hash entry)) then
            Done (verified, false)
          else verify_loop es start offs (verified + 1) (AuditEntry.hash entry) false
      end
  end.

Definition start (log : t) : Z :=
  if total_count log <=? AUDIT_CAPACITY then 0 else write_pos log.

Definition verify_chain (log : t) : exec (Z * bool) :=
  if total_count log =? 0 then Done (0, true)
  else if ring_count log =? 0 then Done (0, true)
  else verify_loop (entries log) (start log) (seqZ 0 (ring_count log)) 0 (replicate 32 0) true.

Definition clear (log : t) : t :=
  mk (map (fun _ => None) (entries log)) 0 0 (replicate 32 0).

(** ** The chain *)

(** Every entry carries its own hash and that of the one before it. *)
Fixpoint chained (p : list Z) (es : list AuditEntry.t) : Prop :=
  match es with
  | [] => True
  | e :: es => AuditEntry.prev_hash e = p /\ AuditEntry.hash e = entry_hash e /\
               chained (AuditEntry.hash e) es
  end.

(** The hash that the next entry has to carry. *)
Definition last_hash (p : list Z) (es : list AuditEntry.t) : list Z :=
  from_option AuditEntry.hash p (last es).

Lemma last_hash_cons p e es : last_hash p (e :: es) = last_hash (AuditEntry.hash e) es.
Proof. unfold last_hash. rewrite last_cons. by destruct (last es). Qed.

Lemma chained_app p es es' :
  chained p (es ++ es') <-> chained p es /\ chained (last_hash p es) es'.
Proof.
  revert p. induction es as [|e es IH]; intros p; [cbn; naive_solver|].
  rewrite last_hash_cons. cbn. rewrite IH. naive_solver.
Qed.

(** The ring holds the most recent entries, linked to each other. *)
Record log_ok (log : t) (es : list AuditEntry.t) : Prop := {
  lo_ring : Ring.holds AUDIT_CAPACITY (entries log) (start log) es;
  lo_total : 0 <= total_count log;
  lo_len : Z.of_nat (length es) = ring_count log;
  lo_pos : write_pos log = (start log + Z.of_nat (length es)) mod AUDIT_CAPACITY;
  lo_chain : exists p, chained p es /\ prev_hash log = last_hash p es;
}.

#[global] Instance log_model : Model t (list AuditEntry.t) := {|
  wf log := exists es, log_ok log es;
  view log := Ring.contents AUDIT_CAPACITY (entries log) (start log) (ring_count log);
|}.

Lemma wf_log log : wf log -> log_ok log (view log).
Proof.
  intros [es Hes]. unfold view, log_model. rewrite <- (lo_len _ _ Hes).
  by rewrite (Ring.holds_contents _ _ _ _ (lo_ring _ _ Hes)).
Qed.

Lemma log_intro log es : log_ok log es -> wf log /\ view log = es.
Proof.
  intros Hes. split; [by exists es|]. unfold view, log_model. rewrite <- (lo_len _ _ Hes).
  apply (Ring.holds_contents _ _ _ _ (lo_ring _ _ Hes)).
Qed.

Lemma log_new_spec : wf new /\ view new = [].
Proof.
  apply log_intro. split; [|done|done|done|by exists (replicate 32 0)].
  apply Ring.holds_empty; [done|unfold AUDIT_CAPACITY; lia].
Qed.

Lemma log_clear_spec log : wf log -> wf (clear log) /\ view (clear log) = [].
Proof.
  intros Hwf%wf_log. apply log_intro. split; [|done|done|done|by exists (replicate 32 0)].
  apply Ring.holds_empty; [|unfold AUDIT_CAPACITY; lia]. cbn. rewrite length_map.
  apply (lo_ring _ _ Hwf).
Qed.

Lemma make_entry_linked log actor action target msg_type cap seq ts :
  let e := make_entry log actor action target msg_type cap seq ts in
  AuditEntry.prev_hash e = prev_hash log /\ AuditEntry.hash e = entry_hash e.
Proof. done. Qed.

Lemma append_spec log actor action target msg_type cap seq ts :
  wf log -> total_count log + 1 < 2 ^ 64 ->
  let e := make_entry log actor action target msg_type cap seq ts in
  exists log', append log actor action target msg_type cap seq ts = Done log' /\ wf log' /\
    view log' = MonitorRegistry.keep_last 512 (view log ++ [e]) /\
    total_count log' = total_count log + 1.
Proof.
  intros Hwf%wf_log Hlt e. destruct Hwf as [Hring Htot Hlen Hpos (p & Hch & Hprev)].
  destruct (make_entry_linked log actor action target msg_type cap seq ts) as [He1 He2].
  fold e in He1, He2. pose proof Hring as (Hsize & Hst & _).
  assert (AUDIT_CAPACITY = 512) as HN by done.
  unfold append. fold e. rewrite u64_add_small by lia. rewrite arr_set_Done.
  2: { rewrite Hpos. split; [|rewrite Hsize]; apply Ring.index_range; lia. }
  exec_simpl. set (log' := mk _ _ _ _). exists log'.
  assert (chained p (view log ++ [e])) as Hch'.
  { apply chained_app. cbn. by rewrite <- Hprev. }
  destruct (Z.lt_ge_cases (total_count log) AUDIT_CAPACITY) as [Hroom|Hfull].
  - assert (ring_count log = total_count log /\ start log = 0) as [Hrc Hst0].
    { unfold ring_count, start. rewrite (proj2 (Z.leb_le _ _)) by lia. done. }
    assert (start log' = 0 /\ ring_count log' = total_count log + 1) as [Hst' Hrc'].
    { unfold start, ring_count. cbn [log' total_count]. rewrite (proj2 (Z.leb_le _ _)) by lia. done. }
    rewrite Hrc in Hlen. rewrite Hst0 in *.
    destruct (log_intro log' (view log ++ [e])) as [? Hv]; [|split_all; try done].
    + split; cbn [log' entries write_pos total_count prev_hash]; rewrite ?Hst', ?Hrc'.
      * rewrite Hpos. apply Ring.holds_push; [done|lia].
      * lia.
      * rewrite length_app. cbn. lia.
      * rewrite Hpos, Zplus_mod_idemp_l, length_app. f_equal. cbn. lia.
      * exists p. split; [done|]. unfold last_hash. by rewrite last_snoc.
    + rewrite Hv. symmetry. apply MonitorRegistry.keep_last_short. rewrite length_app. cbn. lia.
  - assert (ring_count log = AUDIT_CAPACITY /\ start log = write_pos log) as [Hrc Hst0].
    { unfold ring_count, start in *. destruct (Z.leb_spec (total_count log) AUDIT_CAPACITY); [|done].
      split; [lia|]. rewrite Hpos, Hlen. replace (total_count log) with AUDIT_CAPACITY by lia.
      rewrite HN. done. }
    assert (ring_count log' = AUDIT_CAPACITY /\ start log' = (write_pos log + 1) mod AUDIT_CAPACITY)
      as [Hrc' Hst'].
    { unfold start, ring_count. cbn [log' total_count write_pos].
      by rewrite (proj2 (Z.leb_gt _ _)) by lia. }
    rewrite Hrc in Hlen. rewrite Hst0 in *. destruct (view log) as [|x xs] eqn:Hview; [cbn in Hlen; lia|].
    cbn [length] in Hlen. apply Ring.holds_drop in Hring.
    destruct (log_intro log' (xs ++ [e])) as [? Hv]; [|split_all; try done].
    + assert (write_pos log = ((write_pos log + 1) mod AUDIT_CAPACITY + Z.of_nat (length xs))
               mod AUDIT_CAPACITY) as Hcell.
      { rewrite Zplus_mod_idemp_l. rewrite Hpos at 1. f_equal. cbn. lia. }
      split; cbn [log' entries write_pos total_count prev_hash]; rewrite ?Hst', ?Hrc'.
      * rewrite Hcell at 1. apply Ring.holds_push; [done|lia].
      * lia.
      * rewrite length_app. cbn. lia.
      * rewrite length_app. cbn [length]. rewrite Hcell at 1. rewrite Zplus_mod_idemp_l. f_equal. lia.
      * cbn in Hch'. destruct Hch' as (_ & _ & Hch'). eexists. split; [exact Hch'|].
        unfold last_hash. by rewrite last_snoc.
    + rewrite Hv. symmetry. apply (MonitorRegistry.keep_last_cons 512 x). rewrite length_app. cbn. lia.
Qed.

(** ** Verification *)

(** [verify_loop] on the entries themselves. *)
Fixpoint verify_list (es : list AuditEntry.t) (verified : Z) (p : list Z) (first : bool) : Z * bool :=
  match es with
  | [] => (verified, true)
  | e :: es =>
      let p := if first then AuditEntry.prev_hash e else p in
      if negb (bool_decide (AuditEntry.prev_hash e = p)) then (verified, false)
      else if negb (bool_decide (AuditEntry.hash e = entry_hash e)) then (verified, false)
      else verify_list es (verified + 1) (AuditEntry.hash e) false
  end.

Lemma verify_loop_list cells st es k v p f :
  0 < AUDIT_CAPACITY ->
  (forall i e, es !! i = Some e ->
     cells !! Z.to_nat ((st + (k + Z.of_nat i)) mod AUDIT_CAPACITY) = Some (Some e)) ->
  verify_loop cells st (seqZ k (Z.of_nat (length es))) v p f = Done (verify_list es v p f).
Proof.
  intros HN. revert k v p f. induction es as [|e es IH]; intros k v p f Hc; [done|].
  rewrite seqZ_cons by (cbn; lia). cbn [length verify_loop verify_list].
  replace (Z.pred (Z.of_nat (S (length es)))) with (Z.of_nat (length es)) by lia.
  pose proof (Hc 0%nat e eq_refl) as He. rewrite Z.add_0_r in He.
  rewrite (arr_get_at _ _ (Some e)) by (done || by apply Ring.index_range). exec_simpl.
  repeat case_match; try done; apply IH; intros i e' Hi;
    replace (Z.succ k + Z.of_nat i) with (k + Z.of_nat (S i)) by lia; by apply Hc.
Qed.

Lemma verify_holds log es :
  Ring.holds AUDIT_CAPACITY (entries log) (start log) es ->
  Z.of_nat (length es) = ring_count log ->
  verify_chain log = Done (verify_list es 0 (replicate 32 0) true).
Proof.
  intros Hring Hlen. unfold verify_chain. rewrite <- Hlen.
  assert (0 < AUDIT_CAPACITY) as HN by (unfold AUDIT_CAPACITY; lia).
  destruct Hring as (_ & _ & _ & Hcells).
  destruct (Z.eqb_spec (total_count log) 0) as [E|E].
  { unfold ring_count in Hlen. rewrite E, (proj2 (Z.leb_le _ _)) in Hlen by lia.
    by destruct es. }
  destruct (Z.eqb_spec (Z.of_nat (length es)) 0) as [E'|E']; [by destruct es|].
  by apply verify_loop_list.
Qed.

Lemma verify_chained es v p : chained p es -> verify_list es v p false = (v + Z.of_nat (length es), true).
Proof.
  revert v p. induction es as [|e es IH]; intros v p; cbn; [intros _; f_equal; lia|].
  intros (Hp & Hh & Hc). rewrite !bool_decide_true by done. cbn. rewrite IH by done. f_equal. lia.
Qed.

Lemma verify_first es v p q : chained q es -> verify_list es v p true = (v + Z.of_nat (length es), true).
Proof.
  destruct es as [|e es]; [cbn; intros; f_equal; lia|]. intros Hc. cbn.
  rewrite bool_decide_true by done. cbn [negb]. destruct Hc as (Hp & Hh & Hc).
  rewrite bool_decide_true by done. cbn [negb]. rewrite verify_chained by done. f_equal. lia.
Qed.

Lemma verify_ok log : wf log -> verify_chain log = Done (Z.of_nat (length (view log)), true).
Proof.
  intros Hwf%wf_log. rewrite (verify_holds _ (view log)) by apply Hwf.
  destruct (lo_chain _ _ Hwf) as (p & Hc & _). by rewrite (verify_first _ _ _ p).
Qed.

(** An entry is determined by what its hash covers and the hash. *)
Lemma entry_bytes_inj e e' :
  AuditEntry.in_range e -> AuditEntry.in_range e' ->
  AuditEntry.hashable_bytes e ++ le_bytes 8 (AuditEntry.capability_id e) ++
    le_bytes 8 (AuditEntry.msg_sequence e) =
  AuditEntry.hashable_bytes e' ++ le_bytes 8 (AuditEntry.capability_id e') ++
    le_bytes 8 (AuditEntry.msg_sequence e') ->
  AuditEntry.hash e = AuditEntry.hash e' -> e = e'.
Proof.
  destruct e, e'. unfold AuditEntry.in_range, AuditEntry.hashable_bytes. cbn -[le_bytes app].
  intros (? & ? & ? & ? & ? & ? & ? & Hl) (? & ? & ? & ? & ? & ? & ? & Hl') Hb ->.
  rewrite <- !app_assoc in Hb. peel_le Hb. apply app_inj_1 in Hb as [Ha Hb]; [|done].
  injection Ha as Ha. apply (inj AuditAction.as_u8) in Ha.
  apply app_inj_1 in Hb as [_ Hb]; [|done]. peel_le Hb.
  apply app_inj_1 in Hb as [_ Hb]; [|done].
  apply app_inj_1 in Hb as [? Hb]; [|congruence]. peel_le Hb.
  apply le_bytes_inj in Hb; [|done..]. congruence.
Qed.

(** A verified list stays verified from any of its suffixes on. *)
Lemma verify_list_app es1 es2 v p q f :
  chained q es1 -> (f = false -> p = q) ->
  verify_list (es1 ++ es2) v p f =
    match es1 with
    | [] => verify_list es2 v p f
    | _ => verify_list es2 (v + Z.of_nat (length es1)) (last_hash q es1) false
    end.
Proof.
  revert v p q f. induction es1 as [|e es1 IH]; intros v p q f Hc Hf; [done|].
  destruct Hc as (Hp & Hh & Hc). cbn [app verify_list]. rewrite !bool_decide_true; [|done|].
  2: { destruct f; [done|]. rewrite Hf by done. done. }
  cbn [negb]. rewrite (IH _ _ (AuditEntry.hash e) false Hc) by done.
  rewrite last_hash_cons. destruct es1 as [|e1 es1]; [cbn; f_equal; lia|].
  f_equal. cbn. lia.
Qed.

Lemma verify_tampered es1 e es2 e' v q :
  chained q (es1 ++ e :: es2) -> es2 <> [] -> e' <> e ->
  AuditEntry.in_range e -> AuditEntry.in_range e' ->
  (entry_hash e' = entry_hash e ->
     AuditEntry.hashable_bytes e' ++ le_bytes 8 (AuditEntry.capability_id e') ++
       le_bytes 8 (AuditEntry.msg_sequence e') =
     AuditEntry.hashable_bytes e ++ le_bytes 8 (AuditEntry.capability_id e) ++
       le_bytes 8 (AuditEntry.msg_sequence e)) ->
  snd (verify_list (es1 ++ e' :: es2) 0 v true) = false.
Proof.
  intros [Hc1 Hc2]%chained_app Hne Hdiff Hr Hr' Hcoll.
  destruct es2 as [|n es2]; [done|]. destruct Hc2 as (_ & Hh & Hn & _).
  assert (forall v' p' f', snd (verify_list (e' :: n :: es2) v' p' f') = false) as Htail.
  { intros v' p' f'. cbn [verify_list]. case_bool_decide as Hpe; [|done]. cbn [negb].
    case_bool_decide as Hhe; [|done]. cbn [negb]. rewrite bool_decide_false; [done|].
    rewrite Hn. intros E. apply Hdiff. apply entry_bytes_inj; [done|done| |congruence].
    apply Hcoll. congruence. }
  rewrite (verify_list_app es1 _ _ _ q) by done. destruct es1; apply Htail.
Qed.

(** The entry at offset [i] from the oldest one overwritten in place, as
    [entries_mut] allows. *)
Definition tamper (log : t) (i : nat) (e : AuditEntry.t) : t :=
  mk (<[Z.to_nat ((start log + Z.of_nat i) mod AUDIT_CAPACITY) := Some e]> (entries log))
    (write_pos log) (total_count log) (prev_hash log).

Lemma tamper_verify log i e : wf log -> (i < length (view log))%nat ->
  verify_chain (tamper log i e) = Done (verify_list (<[i := e]> (view log)) 0 (replicate 32 0) true).
Proof.
  intros Hwf%wf_log Hi. apply verify_holds.
  - apply Ring.holds_set; [apply Hwf|done].
  - rewrite length_insert. apply Hwf.
Qed.

End Log.
End AuditLog.
