(* ===== verification/Router.v ===== *)
(** * The bus router

    Models [kernel/src/bus/router.rs]: registration, the send pipeline (checks,
    sequence numbers, payload storage, signature, delivery, monitors, audit) and
    reception, over the parts of [Bus] and [AuditTrail]. *)

From S2P Require Import Prelude Wire Crypto Ring Bus AuditTrail CapStore.

Module BusRouter.

Definition MAX_PROCESSES : Z := 64.

Inductive BusError : Type :=
| SenderNotRegistered
| ReceiverNotRegistered
| ReceiverQueueFull
| SelfSendDenied
| CapabilityInvalid (e : CapStore.CapabilityError)
| OwnerMismatch
| HmacVerificationFailed
| SequenceReplay
| SequenceGap (expected got : Z)
| InvalidVersion
| InvalidSender
| PayloadLengthMismatch
| PayloadTooLarge
| ArenaFull
| MonitorLimitReached
| MonitorNotFound
| ProcessAlreadyRegistered
| ProcessLimitReached
| PolicyDenied
| NotInitialized.

Record t : Type := mk {
  inboxes : gmap Z InboxQueue.t;
  arena : PayloadArena.t;
  sequences : SequenceTracker.t;
  monitors : MonitorRegistry.t;
  audit : AuditLog.t;
  current_tick : Z;
  total_sent : Z;
  total_rejected : Z;
}.

Definition new : t :=
  mk ∅ PayloadArena.new SequenceTracker.new MonitorRegistry.new AuditLog.new 0 0 0.

Definition init (r : t) : t :=
  mk (inboxes r) (PayloadArena.init (arena r)) (sequences r) (monitors r) (audit r)
    (current_tick r) (total_sent r) (total_rejected r).

Definition advance_ticks (r : t) (n : Z) : t :=
  mk (inboxes r) (arena r) (sequences r) (monitors r) (audit r)
    (u64_add (current_tick r) n) (total_sent r) (total_rejected r).

Definition tick (r : t) : t := advance_ticks r 1.

Definition with_inboxes (r : t) (i : gmap Z InboxQueue.t) : t :=
  mk i (arena r) (sequences r) (monitors r) (audit r) (current_tick r) (total_sent r)
    (total_rejected r).
Definition with_arena (r : t) (a : PayloadArena.t) : t :=
  mk (inboxes r) a (sequences r) (monitors r) (audit r) (current_tick r) (total_sent r)
    (total_rejected r).
Definition with_sequences (r : t) (s : SequenceTracker.t) : t :=
  mk (inboxes r) (arena r) s (monitors r) (audit r) (current_tick r) (total_sent r)
    (total_rejected r).
Definition with_monitors (r : t) (m : MonitorRegistry.t) : t :=
  mk (inboxes r) (arena r) (sequences r) m (audit r) (current_tick r) (total_sent r)
    (total_rejected r).
Definition with_audit (r : t) (a : AuditLog.t) : t :=
  mk (inboxes r) (arena r) (sequences r) (monitors r) a (current_tick r) (total_sent r)
    (total_rejected r).
Definition count_sent (r : t) : t :=
  mk (inboxes r) (arena r) (sequences r) (monitors r) (audit r) (current_tick r)
    (u64_add (total_sent r) 1) (total_rejected r).
Definition count_rejected (r : t) : t :=
  mk (inboxes r) (arena r) (sequences r) (monitors r) (audit r) (current_tick r)
    (total_sent r) (u64_add (total_rejected r) 1).

Definition register_process (r : t) (pid : Z) : result unit BusError * t :=
  if pid =? 0 then (Err InvalidSender, r)
  else if bool_decide (is_Some (inboxes r !! pid)) then (Err ProcessAlreadyRegistered, r)
  else if Z.of_nat (size (inboxes r)) >=? MAX_PROCESSES then (Err ProcessLimitReached, r)
  else (Ok tt, with_inboxes r (<[pid := InboxQueue.new]> (inboxes r))).

Definition unregister_process (r : t) (pid : Z) : result unit BusError * t :=
  match inboxes r !! pid with
  | None => (Err ReceiverNotRegistered, r)
  | Some _ =>
      let r := with_inboxes r (delete pid (inboxes r)) in
      (Ok tt, with_sequences r (SequenceTracker.remove (sequences r) pid))
  end.

(** What the payload argument is taken to be, given the header's length. *)
Inductive payload_check : Type :=
| NoPayload
| Payload (data : list Z)
| TooLarge
| LengthMismatch.

Definition check_payload (payload_len : Z) (payload : option (list Z)) : payload_check :=
  match payload with
  | None => if payload_len =? 0 then NoPayload else LengthMismatch
  | Some data =>
      if (payload_len =? 0) && (Z.of_nat (length data) =? 0) then NoPayload
      else if payload_len =? Z.of_nat (length data) then
        if Z.of_nat (length data) >? PayloadArena.MAX_PAYLOAD_SIZE then TooLarge
        else Payload data
      else LengthMismatch
  end.

Section Router.
Context `{HmacSha3} `{Sha3} (key : list Z).

(** [self.audit.append(header.sender, action, header.receiver, ...)]. *)
Definition log_message (r : t) (h : MessageHeader.t) (action : AuditAction.t) (ts : Z) : exec t :=
  a ← AuditLog.append (audit r) (MessageHeader.sender h) action (MessageHeader.receiver h)
        (MessageHeader.msg_type h) (MessageHeader.capability_id h) (MessageHeader.sequence h) ts;
  Done (with_audit r a).

Definition reject (r : t) (h : MessageHeader.t) (action : AuditAction.t) (ts : Z) : exec t :=
  r ← log_message r h action ts;
  Done (count_rejected r).

Definition reject_with_policy (r : t) (h : MessageHeader.t) : exec t :=
  reject r h AuditAction.PolicyViolation (current_tick r).

(** [self.reject(..); return Err(e)]. *)
Definition refuse (r : t) (h : MessageHeader.t) (action : AuditAction.t) (ts : Z) (e : BusError)
    : exec (result unit BusError * t) :=
  r ← reject r h action ts;
  Done (Err e, r).

(** Steps 9 to 12: signature, delivery, monitors, audit. *)
Definition deliver (r : t) (h : MessageHeader.t) (data : option (list Z))
    (slice : option ArenaSlice.t) (ts : Z) : exec (result unit BusError * t) :=
  let active := MessageHeader.active_bytes h in
  let hmac :=
    match data with
    | Some data => HmacEngine.sign key (active ++ data)
    | None => HmacEngine.sign key active
    end in
  let envelope := Envelope.mk h hmac slice in
  match inboxes r !! MessageHeader.receiver h with
  | None => Panicked
  | Some inbox =>
      p ← InboxQueue.push inbox envelope;
      let r := with_inboxes r (<[MessageHeader.receiver h := snd p]> (inboxes r)) in
      if negb (fst p) then refuse r h AuditAction.QueueFull ts ReceiverQueueFull
      else
        m ← MonitorRegistry.notify (monitors r) envelope;
        r ← log_message (with_monitors r m) h AuditAction.MessageSent ts;
        Done (Ok tt, count_sent r)
  end.

Definition send (r : t) (h : MessageHeader.t) (payload : option (list Z)) (nonce : Z)
    : exec (result unit BusError * t) :=
  let ts := current_tick r in
  if negb (MessageHeader.version h =? MessageHeader.VERSION)
  then refuse r h AuditAction.MessageRejected ts InvalidVersion
  else if MessageHeader.sender h =? 0
  then refuse r h AuditAction.MessageRejected ts InvalidSender
  else if negb (bool_decide (is_Some (inboxes r !! MessageHeader.sender h)))
  then refuse r h AuditAction.MessageRejected ts SenderNotRegistered
  else if negb (bool_decide (is_Some (inboxes r !! MessageHeader.receiver h)))
  then refuse r h AuditAction.MessageRejected ts ReceiverNotRegistered
  else if MessageHeader.sender h =? MessageHeader.receiver h
  then refuse r h AuditAction.MessageRejected ts SelfSendDenied
  else
    match check_payload (MessageHeader.payload_len h) payload with
    | TooLarge => refuse r h AuditAction.MessageRejected ts PayloadTooLarge
    | LengthMismatch => refuse r h AuditAction.MessageRejected ts PayloadLengthMismatch
    | (NoPayload | Payload _) as pc =>
        let data := match pc with Payload data => Some data | _ => None end in
        let '(ok, seqs) :=
          SequenceTracker.check (sequences r) (MessageHeader.sender h) (MessageHeader.sequence h) in
        let r := with_sequences r seqs in
        match ok with
        | Err SequenceTracker.Replay => refuse r h AuditAction.SequenceViolation ts SequenceReplay
        | Err (SequenceTracker.Gap expected got) =>
            refuse r h AuditAction.SequenceViolation ts (SequenceGap expected got)
        | Ok _ =>
            match data with
            | None => deliver r h None None ts
            | Some bytes =>
                a ← PayloadArena.allocate (arena r) bytes;
                let r := with_arena r (snd a) in
                match fst a with
                | Some slice => deliver r h (Some bytes) (Some slice) ts
                | None => refuse r h AuditAction.MessageRejected ts ArenaFull
                end
            end
        end
    end.

Definition receive (r : t) (pid : Z) : exec (option Envelope.t * t) :=
  match inboxes r !! pid with
  | None => Done (None, r)
  | Some inbox =>
      p ← InboxQueue.pop inbox;
      Done (fst p, with_inboxes r (<[pid := snd p]> (inboxes r)))
  end.

Definition peek (r : t) (pid : Z) : exec (option Envelope.t) :=
  match inboxes r !! pid with
  | None => Done None
  | Some inbox => InboxQueue.peek inbox
  end.

Definition payload (r : t) (slice : ArenaSlice.t) : exec (list Z) :=
  PayloadArena.get (arena r) slice.

Definition register_monitor (r : t) (filter : MonitorRegistry.MonitorFilter)
    : result Z BusError * t :=
  let '(id, m) := MonitorRegistry.register (monitors r) filter in
  (match id with Some id => Ok id | None => Err MonitorLimitReached end, with_monitors r m).

Definition unregister_monitor (r : t) (tap_id : Z) : result unit BusError * t :=
  let '(b, m) := MonitorRegistry.unregister (monitors r) tap_id in
  (if b then Ok tt else Err MonitorNotFound, with_monitors r m).

Definition monitor_drain (r : t) (tap_id : Z) : exec (option Envelope.t * t) :=
  d ← MonitorRegistry.drain (monitors r) tap_id;
  Done (fst d, with_monitors r (snd d)).

Definition verify_audit_chain (r : t) : exec (Z * bool) := AuditLog.verify_chain (audit r).

Definition pending_count (r : t) (pid : Z) : Z :=
  match inboxes r !! pid with Some q => InboxQueue.len q | None => 0 end.

Definition is_registered (r : t) (pid : Z) : bool := bool_decide (is_Some (inboxes r !! pid)).

Definition clear (r : t) : t :=
  mk ∅ (PayloadArena.clear (arena r)) (SequenceTracker.clear (sequences r))
    (MonitorRegistry.clear (monitors r)) (AuditLog.clear (audit r)) 0 0 0.

End Router.
End BusRouter.
