(* ===== verification/RouterSpec.v ===== *)
(** * What the router does

    The invariant of [BusRouter.t], the verdict of [send] as a function of the
    abstract state, and its effect on inboxes, sequence numbers and audit log. *)

From S2P Require Import Prelude Wire Crypto Ring Bus AuditTrail CapStore Router.

Module RouterSpec.
Import BusRouter.

Section Spec.
Context `{HmacSha3} `{Sha3} (key : list Z).

Record router_inv (r : t) : Prop := {
  ri_inboxes : map_Forall (fun _ q => wf q) (inboxes r);
  ri_kernel : inboxes r !! 0 = None;
  ri_limit : Z.of_nat (size (inboxes r)) <= MAX_PROCESSES;
  ri_arena : PayloadArena.arena_ok (arena r);
  ri_monitors : MonitorRegistry.slots_ok (MonitorRegistry.taps (monitors r));
  ri_audit : wf (audit r);
}.

(** Whether the receiver's inbox takes one more message. *)
Definition queue_verdict (r : t) (receiver : Z) : result unit BusError :=
  match inboxes r !! receiver with
  | Some q =>
      if bool_decide (Z.of_nat (length (view q)) < InboxQueue.QUEUE_CAPACITY) then Ok tt
      else Err ReceiverQueueFull
  | None => Err ReceiverQueueFull
  end.

Definition send_verdict (r : t) (h : MessageHeader.t) (payload : option (list Z))
    : result unit BusError :=
  if negb (MessageHeader.version h =? MessageHeader.VERSION) then Err InvalidVersion
  else if MessageHeader.sender h =? 0 then Err InvalidSender
  else if negb (is_registered r (MessageHeader.sender h)) then Err SenderNotRegistered
  else if negb (is_registered r (MessageHeader.receiver h)) then Err ReceiverNotRegistered
  else if MessageHeader.sender h =? MessageHeader.receiver h then Err SelfSendDenied
  else
    match check_payload (MessageHeader.payload_len h) payload with
    | TooLarge => Err PayloadTooLarge
    | LengthMismatch => Err PayloadLengthMismatch
    | pc =>
        match fst (SequenceTracker.check (sequences r) (MessageHeader.sender h)
                     (MessageHeader.sequence h)) with
        | Err SequenceTracker.Replay => Err SequenceReplay
        | Err (SequenceTracker.Gap expected got) => Err (SequenceGap expected got)
        | Ok _ =>
            match pc, PayloadArena.is_initialized (arena r) with
            | Payload _, false => Err ArenaFull
            | _, _ => queue_verdict r (MessageHeader.receiver h)
            end
        end
    end.

(** The audit action that a verdict is recorded under. *)
Definition action_of (v : result unit BusError) : AuditAction.t :=
  match v with
  | Ok _ => AuditAction.MessageSent
  | Err (SequenceReplay | SequenceGap _ _) => AuditAction.SequenceViolation
  | Err ReceiverQueueFull => AuditAction.QueueFull
  | Err _ => AuditAction.MessageRejected
  end.

(** Whether the sender's sequence number was consumed. *)
Definition consumes_sequence (v : result unit BusError) : bool :=
  match v with
  | Ok _ | Err ArenaFull | Err ReceiverQueueFull => true
  | Err _ => false
  end.

Definition audited (r : t) (h : MessageHeader.t) (action : AuditAction.t) (ts : Z) : AuditEntry.t :=
  AuditLog.make_entry (audit r) (MessageHeader.sender h) action (MessageHeader.receiver h)
    (MessageHeader.msg_type h) (MessageHeader.capability_id h) (MessageHeader.sequence h) ts.

(** The bytes a message is signed over. *)
Definition signed_bytes (h : MessageHeader.t) (pc : payload_check) : list Z :=
  MessageHeader.active_bytes h ++ match pc with Payload data => data | _ => [] end.

(** [env] carries the header, its signature, and a slice of the arena that
    reads back as the payload. *)
Definition envelope_ok (a : PayloadArena.t) (h : MessageHeader.t) (pc : payload_check)
    (env : Envelope.t) : Prop :=
  Envelope.header env = h /\ Envelope.hmac env = HmacEngine.sign key (signed_bytes h pc) /\
  match pc with
  | Payload data => exists s, Envelope.payload env = Some s /\ PayloadArena.get a s = Done data
  | _ => Envelope.payload env = None
  end.

(** One audit entry is appended; nothing else changes but the counter. *)
Lemma refuse_spec r h action ts e :
  router_inv r -> AuditLog.total_count (audit r) + 1 < 2 ^ 64 ->
  exists r', refuse r h action ts e = Done (Err e, r') /\ router_inv r' /\
    inboxes r' = inboxes r /\ sequences r' = sequences r /\ arena r' = arena r /\
    monitors r' = monitors r /\ current_tick r' = current_tick r /\
    AuditLog.total_count (audit r') = AuditLog.total_count (audit r) + 1 /\
    view (audit r') = MonitorRegistry.keep_last 512 (view (audit r) ++ [audited r h action ts]).
Proof.
  intros Hi Ht. unfold refuse, reject, log_message.
  destruct (AuditLog.append_spec (audit r) (MessageHeader.sender h) action (MessageHeader.receiver h)
    (MessageHeader.msg_type h) (MessageHeader.capability_id h) (MessageHeader.sequence h) ts)
    as (a & -> & Hwf & Hv & Hc); [apply Hi|done|].
  exec_simpl. eexists. split; [done|]. cbn. split_all; try done. destruct Hi. split; done.
Qed.

Lemma inboxes_insert_ok r pid q q' :
  router_inv r -> inboxes r !! pid = Some q -> wf q' ->
  map_Forall (fun _ q => wf q) (<[pid := q']> (inboxes r)) /\
  <[pid := q']> (inboxes r) !! 0 = None /\
  Z.of_nat (size (<[pid := q']> (inboxes r))) <= MAX_PROCESSES.
Proof.
  intros Hi Hq Hw. split_all.
  - apply map_Forall_insert_2; [done|apply Hi].
  - rewrite lookup_insert_ne; [apply Hi|]. intros ->. rewrite (ri_kernel _ Hi) in Hq. done.
  - rewrite map_size_insert, Hq. apply Hi.
Qed.

(** The view of every inbox but [pid]'s is unchanged. *)
Definition pending (r : t) (pid : Z) : option (list Envelope.t) := view <$> inboxes r !! pid.

Lemma deliver_spec r h pc slice ts q :
  router_inv r -> AuditLog.total_count (audit r) + 1 < 2 ^ 64 ->
  inboxes r !! MessageHeader.receiver h = Some q ->
  let v := queue_verdict r (MessageHeader.receiver h) in
  let data := match pc with Payload data => Some data | _ => None end in
  exists r', deliver key r h data slice ts = Done (v, r') /\ router_inv r' /\
    sequences r' = sequences r /\ arena r' = arena r /\ current_tick r' = current_tick r /\
    AuditLog.total_count (audit r') = AuditLog.total_count (audit r) + 1 /\
    view (audit r') = MonitorRegistry.keep_last 512 (view (audit r) ++ [audited r h (action_of v) ts]) /\
    forall pid, pending r' pid =
      if is_ok v && (pid =? MessageHeader.receiver h)
      then Some (view q ++ [Envelope.mk h (HmacEngine.sign key (signed_bytes h pc)) slice])
      else pending r pid.
Proof.
  intros Hi Ht Hq v data. unfold deliver.
  assert ((match data with
           | Some data => HmacEngine.sign key (MessageHeader.active_bytes h ++ data)
           | None => HmacEngine.sign key (MessageHeader.active_bytes h)
           end) = HmacEngine.sign key (signed_bytes h pc)) as ->.
  { unfold data, signed_bytes. destruct pc; by rewrite ?app_nil_r. }
  set (env := Envelope.mk _ _ _). rewrite Hq.
  assert (wf q) as Hwq by (by apply (ri_inboxes _ Hi _ _ Hq)).
  destruct (InboxQueue.push_spec q env Hwq) as (q' & -> & Hwq' & Hvq). exec_simpl. cbn [fst snd].
  destruct (inboxes_insert_ok r _ q q' Hi Hq Hwq') as (Hf & Hz & Hs).
  unfold v, queue_verdict. rewrite Hq. case_bool_decide as Hroom; cbn [negb].
  - cbn [with_inboxes monitors].
    destruct (MonitorRegistry.notify_all_spec (monitors r) [env]) as (m & Hm & Hmok & _);
      [apply Hi|]. cbn in Hm. apply bind_Done in Hm as (m' & -> & [= ->]). exec_simpl.
    unfold log_message. cbn [with_monitors with_inboxes audit].
    destruct (AuditLog.append_spec (audit r) (MessageHeader.sender h) AuditAction.MessageSent
      (MessageHeader.receiver h) (MessageHeader.msg_type h) (MessageHeader.capability_id h)
      (MessageHeader.sequence h) ts) as (a & -> & Hwa & Hva & Hca); [apply Hi|done|].
    exec_simpl. eexists. split; [done|]. cbn. split_all; try done; [by destruct Hi; split|].
    intros pid. unfold pending. cbn. rewrite lookup_insert. case_decide as E.
    + subst. rewrite Z.eqb_refl. cbn. by rewrite Hvq.
    + rewrite (proj2 (Z.eqb_neq pid _)) by congruence. done.
  - destruct (refuse_spec (with_inboxes r (<[MessageHeader.receiver h := q']> (inboxes r))) h
      AuditAction.QueueFull ts ReceiverQueueFull) as (r' & -> & Hi' & Hin & Hsq & Har & _ & Htk & Hc & Hv);
      [by destruct Hi; split|done|].
    exists r'. split_all; try done. intros pid. cbn [is_ok andb].
    unfold pending. rewrite Hin. cbn. rewrite lookup_insert. case_decide as E; [|done].
    subst. rewrite Hq. cbn. by rewrite Hvq.
Qed.

(** What [send] leaves behind, given its verdict [v]. *)
Record sent (r r' : t) (h : MessageHeader.t) (payload : option (list Z)) (v : result unit BusError)
    : Prop := {
  se_inv : router_inv r';
  se_tick : current_tick r' = current_tick r;
  se_sequences : sequences r' =
    if consumes_sequence v
    then SequenceTracker.mk (<[MessageHeader.sender h := MessageHeader.sequence h]>
           (SequenceTracker.last_seen (sequences r)))
    else sequences r;
  se_total : AuditLog.total_count (audit r') = AuditLog.total_count (audit r) + 1;
  se_audit : view (audit r') = MonitorRegistry.keep_last 512
    (view (audit r) ++ [audited r h (action_of v) (current_tick r)]);
  se_refused : v <> Ok tt -> forall pid, pending r' pid = pending r pid;
  se_delivered : v = Ok tt -> exists q env,
    pending r (MessageHeader.receiver h) = Some q /\
    envelope_ok (arena r') h (check_payload (MessageHeader.payload_len h) payload) env /\
    forall pid, pending r' pid =
      if pid =? MessageHeader.receiver h then Some (q ++ [env]) else pending r pid;
}.

Lemma sent_refused r r0 h payload action e :
  router_inv r -> AuditLog.total_count (audit r) + 1 < 2 ^ 64 ->
  router_inv r0 -> inboxes r0 = inboxes r -> audit r0 = audit r -> current_tick r0 = current_tick r ->
  sequences r0 = (if consumes_sequence (Err e)
    then SequenceTracker.mk (<[MessageHeader.sender h := MessageHeader.sequence h]>
           (SequenceTracker.last_seen (sequences r)))
    else sequences r) ->
  action_of (Err e) = action ->
  exists r', refuse r0 h action (current_tick r) e = Done (Err e, r') /\ sent r r' h payload (Err e).
Proof.
  intros Hi Ht Hi0 Hin Hau Htk Hsq Hact.
  destruct (refuse_spec r0 h action (current_tick r) e) as (r' & -> & Hi' & Hin' & Hsq' & _ & _ & Htk' & Hc & Hv);
    [done|by rewrite Hau|].
  exists r'. split; [done|]. split; try done; try congruence.
  - rewrite Hv, Hau, Hact. unfold audited. by rewrite Hau.
  - intros _ pid. unfold pending. by rewrite Hin', Hin.
Qed.

Lemma check_consumes tr sender sequence :
  is_ok (fst (SequenceTracker.check tr sender sequence)) = true ->
  snd (SequenceTracker.check tr sender sequence) =
    SequenceTracker.mk (<[sender := sequence]> (SequenceTracker.last_seen tr)).
Proof. unfold SequenceTracker.check. by repeat case_match. Qed.

Lemma check_refuses tr sender sequence :
  is_ok (fst (SequenceTracker.check tr sender sequence)) = false ->
  snd (SequenceTracker.check tr sender sequence) = tr.
Proof. unfold SequenceTracker.check. by repeat case_match. Qed.

(** Delivery after the checks passed, from a state [r1] that differs from [r]
    in the sequence numbers and the arena. *)
Lemma sent_delivered r r1 h payload pc slice :
  router_inv r -> AuditLog.total_count (audit r) + 1 < 2 ^ 64 ->
  router_inv r1 -> inboxes r1 = inboxes r -> audit r1 = audit r -> current_tick r1 = current_tick r ->
  sequences r1 = SequenceTracker.mk (<[MessageHeader.sender h := MessageHeader.sequence h]>
    (SequenceTracker.last_seen (sequences r))) ->
  is_Some (inboxes r !! MessageHeader.receiver h) ->
  check_payload (MessageHeader.payload_len h) payload = pc ->
  match pc with
  | Payload data => exists s, slice = Some s /\ PayloadArena.get (arena r1) s = Done data
  | _ => slice = None
  end ->
  let v := queue_verdict r (MessageHeader.receiver h) in
  exists r', deliver key r1 h (match pc with Payload data => Some data | _ => None end) slice
      (current_tick r) = Done (v, r') /\ sent r r' h payload v.
Proof.
  intros Hi Ht Hi1 Hin Hau Htk Hsq [q Hq] Hpc Hslice v.
  destruct (deliver_spec r1 h pc slice (current_tick r) q)
    as (r' & Hd & Hi' & Hsq' & Har' & Htk' & Hc & Hv & Hp); [done|by rewrite Hau|by rewrite Hin|].
  assert (queue_verdict r1 (MessageHeader.receiver h) = v) as Hqv.
  { unfold v, queue_verdict. by rewrite Hin. }
  rewrite Hqv in *. exists r'. split; [done|].
  assert (v = Ok tt \/ v = Err ReceiverQueueFull) as Hcase.
  { unfold v, queue_verdict. rewrite Hq. case_bool_decide; auto. }
  assert (forall pid, pending r1 pid = pending r pid) as Hpend.
  { intros pid. unfold pending. by rewrite Hin. }
  split; try done; try congruence.
  - rewrite Hsq', Hsq. by destruct Hcase as [-> | ->].
  - rewrite Hv, Hau. unfold audited. by rewrite Hau.
  - intros Hne pid. rewrite Hp. destruct Hcase as [-> | ->]; [done|]. cbn. apply Hpend.
  - intros Hok. rewrite Hok in Hp. cbn [is_ok andb] in Hp.
    exists (view q), (Envelope.mk h (HmacEngine.sign key (signed_bytes h pc)) slice).
    split; [|split].
    + unfold pending. by rewrite Hq.
    + rewrite Hpc. unfold envelope_ok. cbn [Envelope.header Envelope.hmac Envelope.payload].
      split_all; [done|done|]. rewrite Har'. by destruct pc.
    + intros pid. rewrite Hp. destruct (pid =? MessageHeader.receiver h); [done|apply Hpend].
Qed.

Lemma with_sequences_inv r s : router_inv r -> router_inv (with_sequences r s).
Proof. intros []. by split. Qed.

Lemma with_arena_inv r a : router_inv r -> PayloadArena.arena_ok a -> router_inv (with_arena r a).
Proof. intros [] ?. by split. Qed.

Lemma check_payload_size len payload data :
  check_payload len payload = Payload data ->
  0 < Z.of_nat (length data) <= PayloadArena.MAX_PAYLOAD_SIZE.
Proof.
  destruct payload as [d|]; cbn; [|by case_match].
  destruct (Z.eqb_spec len 0), (Z.eqb_spec (Z.of_nat (length d)) 0),
    (Z.eqb_spec len (Z.of_nat (length d))),
    (Z.gtb_spec (Z.of_nat (length d)) PayloadArena.MAX_PAYLOAD_SIZE); cbn; try done;
    intros [= <-]; lia.
Qed.

(** Every send returns [send_verdict], appends one audit entry that names it,
    and changes the receiver's inbox only, and only when it succeeds. *)
Lemma send_spec r h payload nonce :
  router_inv r -> AuditLog.total_count (audit r) + 1 < 2 ^ 64 ->
  exists r', send key r h payload nonce = Done (send_verdict r h payload, r') /\
    sent r r' h payload (send_verdict r h payload).
Proof.
  intros Hi Ht. unfold send, send_verdict, is_registered.
  destruct (negb (MessageHeader.version h =? MessageHeader.VERSION)); [by apply sent_refused|].
  destruct (MessageHeader.sender h =? 0); [by apply sent_refused|].
  case_bool_decide as Hsnd; cbn [negb]; [|by apply sent_refused].
  case_bool_decide as Hrcv; cbn [negb]; [|by apply sent_refused].
  destruct (MessageHeader.sender h =? MessageHeader.receiver h); [by apply sent_refused|].
  destruct (check_payload (MessageHeader.payload_len h) payload) as [|data| |] eqn:Hpc;
    try by apply sent_refused.
  all: destruct (SequenceTracker.check (sequences r) (MessageHeader.sender h) (MessageHeader.sequence h))
    as [ok seqs] eqn:Hck; cbn [fst];
    pose proof (check_consumes (sequences r) (MessageHeader.sender h) (MessageHeader.sequence h)) as Hok;
    pose proof (check_refuses (sequences r) (MessageHeader.sender h) (MessageHeader.sequence h)) as Hno;
    rewrite Hck in Hok, Hno; cbn [fst snd] in Hok, Hno;
    pose proof (with_sequences_inv r seqs Hi) as Hi1;
    destruct ok as [u|[|expected got]];
    [|apply sent_refused; try done; by apply Hno..].
  - apply (sent_delivered r (with_sequences r seqs) h payload NoPayload None); try done. by apply Hok.
  - assert (0 < Z.of_nat (length data) <= PayloadArena.MAX_PAYLOAD_SIZE) as Hlen
      by (by eapply check_payload_size).
    destruct (PayloadArena.is_initialized (arena r)) eqn:Hinit.
    + destruct (PayloadArena.allocate_ok (arena r) data) as (a & Ha & [Hao _] & _ & Hg & _);
        [split; [apply Hi|]|done|].
      { unfold PayloadArena.is_initialized in Hinit.
        destruct (PayloadArena.buffer (arena r)); [by eexists|done]. }
      cbn [with_sequences arena]. rewrite Ha. exec_simpl. cbn [fst snd].
      apply (sent_delivered r (with_arena (with_sequences r seqs) a) h payload (Payload data)); try done.
      * by apply with_arena_inv.
      * by apply Hok.
      * by eexists.
    + cbn [with_sequences arena]. rewrite PayloadArena.allocate_none. 
      2: { intros [_ [b Hb]]. unfold PayloadArena.is_initialized in Hinit. by rewrite Hb in Hinit. }
      exec_simpl. cbn [fst snd]. apply sent_refused; try done. by apply Hok.
Qed.

End Spec.
End RouterSpec.
