(* ===== verification/BusTheorems.v ===== *)
(** * Theorems on the message bus

    Sequences of router operations: every run returns, messages are delivered
    once and in order, sequence numbers only go up, and the audit log accounts
    for every send. *)

From Stdlib Require Import Sorted.
From S2P Require Import Prelude Wire Crypto Ring Bus AuditTrail CapStore Router RouterSpec.

Module BusRuns.
Import BusRouter RouterSpec.

Inductive op : Type :=
| Init
| Register (pid : Z)
| Unregister (pid : Z)
| Send (h : MessageHeader.t) (payload : option (list Z)) (nonce : Z)
| Receive (pid : Z)
| RegisterMonitor (filter : MonitorRegistry.MonitorFilter)
| UnregisterMonitor (tap_id : Z)
| Drain (tap_id : Z)
| AdvanceTicks (n : Z)
| Clear.

Inductive reply : Type :=
| Answer (r : result unit BusError)
| Got (e : option Envelope.t)
| Tap (r : result Z BusError)
| Silent.

Section Runs.
Context `{HmacSha3} `{Sha3} (key : list Z).

Definition step (r : t) (o : op) : exec (reply * t) :=
  match o with
  | Init => Done (Silent, init r)
  | Register pid => let '(a, r) := register_process r pid in Done (Answer a, r)
  | Unregister pid => let '(a, r) := unregister_process r pid in Done (Answer a, r)
  | Send h payload nonce => s ← send key r h payload nonce; Done (Answer (fst s), snd s)
  | Receive pid => g ← receive r pid; Done (Got (fst g), snd g)
  | RegisterMonitor f => let '(a, r) := register_monitor r f in Done (Tap a, r)
  | UnregisterMonitor i => let '(a, r) := unregister_monitor r i in Done (Answer a, r)
  | Drain i => d ← monitor_drain r i; Done (Got (fst d), snd d)
  | AdvanceTicks n => Done (Silent, advance_ticks r n)
  | Clear => Done (Silent, clear r)
  end.

Fixpoint run (r : t) (ops : list op) : exec (list reply * t) :=
  match ops with
  | [] => Done ([], r)
  | o :: ops => x ← step r o; xs ← run (snd x) ops; Done (fst x :: fst xs, snd xs)
  end.

(** The headers delivered to [pid] and those it received, one step at a time. *)
Definition delivered1 (pid : Z) (o : op) (a : reply) : list MessageHeader.t :=
  match o, a with
  | Send h _ _, Answer (Ok _) => if MessageHeader.receiver h =? pid then [h] else []
  | _, _ => []
  end.

Definition received1 (pid : Z) (o : op) (a : reply) : list MessageHeader.t :=
  match o, a with
  | Receive p, Got (Some e) => if p =? pid then [Envelope.header e] else []
  | _, _ => []
  end.

(** The sequence numbers of the messages of [pid] that the bus took. *)
Definition accepted1 (pid : Z) (o : op) (a : reply) : list Z :=
  match o, a with
  | Send h _ _, Answer (Ok _) =>
      if MessageHeader.sender h =? pid then [MessageHeader.sequence h] else []
  | _, _ => []
  end.

(** A per-step observation collected along a run. *)
Fixpoint trace {A} (f : op -> reply -> list A) (ops : list op) (rs : list reply) : list A :=
  match ops, rs with
  | o :: ops, a :: rs => f o a ++ trace f ops rs
  | _, _ => []
  end.

Definition sends1 (o : op) : Z := match o with Send _ _ _ => 1 | _ => 0 end.
Fixpoint sends (ops : list op) : Z :=
  match ops with [] => 0 | o :: ops => sends1 o + sends ops end.

(** Operations that forget the messages or the numbers of [pid]. *)
Definition forgets (pid : Z) (o : op) : bool :=
  match o with Unregister p => p =? pid | Clear => true | _ => false end.

(** The headers waiting in the inbox of [pid]. *)
Definition waiting (r : t) (pid : Z) : list MessageHeader.t :=
  Envelope.header <$> from_option id [] (pending r pid).

Record stepped (r : t) (o : op) (a : reply) (r' : t) : Prop := {
  st_inv : router_inv r';
  st_total : o <> Clear ->
    AuditLog.total_count (audit r') = AuditLog.total_count (audit r) + sends1 o;
  st_total_clear : o = Clear -> AuditLog.total_count (audit r') = 0;
  st_fifo : forall pid, forgets pid o = false ->
    waiting r pid ++ delivered1 pid o a = received1 pid o a ++ waiting r' pid;
  st_sequence : forall pid, forgets pid o = false ->
    0 <= SequenceTracker.last (sequences r) pid < 2 ^ 64 - 1 ->
    match accepted1 pid o a with
    | [] => SequenceTracker.last (sequences r) pid <= SequenceTracker.last (sequences r') pid
            <= SequenceTracker.last (sequences r) pid + 1
    | s :: l => l = [] /\ s = SequenceTracker.last (sequences r) pid + 1 /\
                SequenceTracker.last (sequences r') pid = s
    end;
}.

(** Steps that leave inboxes, sequence numbers and audit log alone. *)
Lemma quiet_step r o a r' :
  router_inv r' -> inboxes r' = inboxes r -> sequences r' = sequences r -> audit r' = audit r ->
  sends1 o = 0 -> o <> Clear -> (forall pid, delivered1 pid o a = []) ->
  (forall pid, received1 pid o a = []) -> (forall pid, accepted1 pid o a = []) ->
  stepped r o a r'.
Proof.
  intros Hi Hin Hsq Hau Hs Hc Hd Hr Ha. split; try done.
  - intros _. rewrite Hau, Hs. lia.
  - intros pid _. rewrite Hd, Hr, app_nil_r. unfold waiting, pending. by rewrite Hin.
  - intros pid _ Hb. rewrite Ha, Hsq. lia.
Qed.

Lemma register_step r pid : router_inv r ->
  exists a r', register_process r pid = (a, r') /\ stepped r (Register pid) (Answer a) r'.
Proof.
  intros Hi. unfold register_process. destruct (Z.eqb_spec pid 0); [by eexists _, _; split; [done|apply quiet_step]|].
  case_bool_decide as Hreg; [by eexists _, _; split; [done|apply quiet_step]|].
  rewrite Z.geb_leb.
  destruct (Z.leb_spec MAX_PROCESSES (Z.of_nat (size (inboxes r)))); [by eexists _, _; split; [done|apply quiet_step]|].
  apply eq_None_not_Some in Hreg.
  destruct InboxQueue.queue_new_spec as [Hnw Hnv].
  eexists _, _. split; [done|]. split; try done.
  - destruct Hi. split; try done; cbn.
    + by apply map_Forall_insert_2.
    + by rewrite lookup_insert_ne.
    + rewrite map_size_insert, Hreg. lia.
  - cbn. lia.
  - intros p _. cbn. rewrite app_nil_r. unfold waiting, pending. cbn.
    rewrite lookup_insert. case_decide; [|done]. subst. rewrite Hreg. cbn. by rewrite Hnv.
  - intros p _ Hb. cbn. lia.
Qed.

Lemma unregister_step r pid : router_inv r ->
  exists a r', unregister_process r pid = (a, r') /\ stepped r (Unregister pid) (Answer a) r'.
Proof.
  intros Hi. unfold unregister_process.
  destruct (inboxes r !! pid) as [q|] eqn:Hq; [|by eexists _, _; split; [done|apply quiet_step]].
  eexists _, _. split; [done|]. split; try done.
  - destruct Hi. split; try done; cbn.
    + by apply map_Forall_delete.
    + rewrite lookup_delete_None. by right.
    + rewrite map_size_delete, Hq. lia.
  - cbn. lia.
  - intros p Hp. cbn in Hp. apply Z.eqb_neq in Hp. cbn. rewrite app_nil_r. unfold waiting, pending. cbn.
    by rewrite lookup_delete_ne.
  - intros p Hp Hb. cbn in Hp. apply Z.eqb_neq in Hp. unfold SequenceTracker.last in *. cbn.
    rewrite lookup_delete_ne by done. lia.
Qed.

Lemma receive_step r pid : router_inv r ->
  exists a r', receive r pid = Done (a, r') /\ stepped r (Receive pid) (Got a) r'.
Proof.
  intros Hi. unfold receive. destruct (inboxes r !! pid) as [q|] eqn:Hq;
    [|by eexists _, _; split; [done|apply quiet_step]].
  assert (wf q) as Hwq by (by apply (ri_inboxes _ Hi _ _ Hq)).
  destruct (InboxQueue.pop_spec q Hwq) as (q' & -> & Hwq' & Hv'). exec_simpl. cbn [fst snd].
  eexists _, _. split; [done|].
  destruct (inboxes_insert_ok r pid q q' Hi Hq Hwq') as (Hf & Hz & Hs).
  split; try done.
  - by destruct Hi; split.
  - cbn. lia.
  - intros p _. unfold waiting, pending. cbn. rewrite app_nil_r, lookup_insert. case_decide as E.
    + subst p. rewrite Hq, Z.eqb_refl. cbn. rewrite Hv'. unfold id. by destruct (view q).
    + rewrite (proj2 (Z.eqb_neq pid p)) by done. by destruct (hd_error (view q)).
  - intros p _ Hb. cbn. lia.
Qed.

Lemma verdict_consumes r h payload :
  consumes_sequence (send_verdict r h payload) = true ->
  is_ok (fst (SequenceTracker.check (sequences r) (MessageHeader.sender h)
                (MessageHeader.sequence h))) = true.
Proof.
  unfold send_verdict. destruct (fst (SequenceTracker.check _ _ _)) as [|[]]; [done|..];
    repeat case_match; done.
Qed.

Lemma check_next tr s n :
  0 <= SequenceTracker.last tr s < 2 ^ 64 - 1 ->
  is_ok (fst (SequenceTracker.check tr s n)) = true -> n = SequenceTracker.last tr s + 1.
Proof.
  intros Hb. rewrite SequenceTracker.check_spec by done.
  destruct (Z.eqb_spec n (SequenceTracker.last tr s + 1)); [done|]. by case_match.
Qed.

Lemma send_step r h payload nonce :
  router_inv r -> AuditLog.total_count (audit r) + 1 < 2 ^ 64 ->
  exists a r', send key r h payload nonce = Done (a, r') /\
    stepped r (Send h payload nonce) (Answer a) r'.
Proof.
  intros Hi Ht. destruct (send_spec key r h payload nonce Hi Ht) as (r' & Hs & Hsent).
  eexists _, r'. split; [exact Hs|]. destruct Hsent as [Hi' _ Hsq Htot _ Href Hdel].
  split; try done.
  - intros pid _. cbn [delivered1 received1 app]. destruct (send_verdict r h payload) as [[]|e].
    + destruct (Hdel eq_refl) as (q & env & Hq & (Henv & _) & Hp). unfold waiting.
      rewrite Hp, (Z.eqb_sym pid). destruct (Z.eqb_spec (MessageHeader.receiver h) pid) as [E|];
        [subst pid|by rewrite app_nil_r].
      rewrite Hq. cbn. unfold id. rewrite fmap_app. cbn. by rewrite Henv.
    + rewrite app_nil_r. unfold waiting. by rewrite Href.
  - intros pid _ Hb. pose proof (verdict_consumes r h payload) as Hc.
    assert (SequenceTracker.last (sequences r') pid =
      if consumes_sequence (send_verdict r h payload) && (MessageHeader.sender h =? pid)
      then MessageHeader.sequence h else SequenceTracker.last (sequences r) pid) as ->.
    { rewrite Hsq. unfold SequenceTracker.last.
      destruct (consumes_sequence (send_verdict r h payload)); [|done]. cbn. rewrite lookup_insert.
      destruct (Z.eqb_spec (MessageHeader.sender h) pid); [by rewrite decide_True|by rewrite decide_False]. }
    cbn [accepted1]. destruct (consumes_sequence (send_verdict r h payload)) eqn:Hcs; cbn [andb].
    + destruct (Z.eqb_spec (MessageHeader.sender h) pid) as [E|Hne].
      * subst pid. pose proof (check_next (sequences r) _ (MessageHeader.sequence h) Hb (Hc eq_refl)).
        destruct (send_verdict r h payload); [done|lia].
      * destruct (send_verdict r h payload); lia.
    + destruct (send_verdict r h payload); [done|]. lia.
Qed.

(** *** Monitors *)
Lemma register_monitor_step r f : router_inv r ->
  exists a r', register_monitor r f = (a, r') /\ stepped r (RegisterMonitor f) (Tap a) r'.
Proof.
  intros Hi. unfold register_monitor, MonitorRegistry.register.
  destruct (MonitorRegistry.register_loop _ _) as [slots|] eqn:E;
    eexists _, _; (split; [done|]); apply quiet_step; try done; [|by destruct Hi; split].
  apply MonitorRegistry.register_loop_spec in E as (i & _ & ->). destruct Hi. split; try done. cbn.
  apply Forall_insert; [done|]. apply MonitorRegistry.tap_new_spec.
Qed.

Lemma unregister_slots slots i : MonitorRegistry.slots_ok slots ->
  MonitorRegistry.slots_ok (snd (MonitorRegistry.unregister_loop slots i)).
Proof.
  induction 1 as [|o slots Ho Hs IH]; cbn; [constructor|].
  destruct o as [tap|]; [destruct (_ =? i)|]; cbn; [by constructor|..];
    destruct (MonitorRegistry.unregister_loop slots i); by constructor.
Qed.

Lemma unregister_monitor_step r i : router_inv r ->
  exists a r', unregister_monitor r i = (a, r') /\ stepped r (UnregisterMonitor i) (Answer a) r'.
Proof.
  intros Hi. unfold unregister_monitor, MonitorRegistry.unregister.
  pose proof (unregister_slots _ i (ri_monitors _ Hi)) as Hs.
  destruct (MonitorRegistry.unregister_loop _ i) as [b slots].
  eexists _, _. split; [done|]. apply quiet_step; try done. by destruct Hi; split.
Qed.

Lemma drain_slots slots i : MonitorRegistry.slots_ok slots ->
  exists e slots', MonitorRegistry.drain_loop slots i = Done (e, slots') /\
    MonitorRegistry.slots_ok slots'.
Proof.
  induction 1 as [|o slots Ho Hs (e & slots' & IH & Hok)]; cbn; [eexists _, _; split; [done|constructor]|].
  destruct o as [tap|]; [destruct (_ =? i)|]; cbn.
  - destruct (MonitorRegistry.tap_pop_spec tap Ho) as (tap' & -> & ? & _). exec_simpl.
    eexists _, _. split; [done|]. by constructor.
  - rewrite IH. eexists _, _. split; [done|]. by constructor.
  - rewrite IH. eexists _, _. split; [done|]. by constructor.
Qed.

Lemma drain_step r i : router_inv r ->
  exists a r', monitor_drain r i = Done (a, r') /\ stepped r (Drain i) (Got a) r'.
Proof.
  intros Hi. unfold monitor_drain, MonitorRegistry.drain.
  destruct (drain_slots _ i (ri_monitors _ Hi)) as (e & slots & -> & Hs). exec_simpl.
  eexists _, _. split; [done|]. apply quiet_step; try done. by destruct Hi; split.
Qed.

Lemma bus_clear_inv r : router_inv r -> router_inv (clear r).
Proof.
  intros Hi. split; cbn; try done.
  - apply PayloadArena.clear_ok, Hi.
  - apply Forall_forall. intros o (? & -> & _)%list_elem_of_fmap. done.
  - apply AuditLog.log_clear_spec, Hi.
Qed.

#[local] Opaque PayloadArena.init.

Lemma init_step r : router_inv r -> stepped r Init Silent (init r).
Proof.
  intros Hi. apply quiet_step; try reflexivity; [|discriminate].
  destruct Hi. split; try assumption. apply PayloadArena.arena_init_ok.
Qed.

(** Every operation returns. *)
Lemma bus_step_spec r o :
  router_inv r -> AuditLog.total_count (audit r) + 1 < 2 ^ 64 ->
  exists a r', step r o = Done (a, r') /\ stepped r o a r'.
Proof.
  intros Hi Ht. destruct o as [|pid|pid|h p n|pid|f|i|i|n|]; cbn [step].
  - exists Silent, (init r). split; [reflexivity|]. apply init_step, Hi.
  - destruct (register_step r pid Hi) as (a & r' & -> & ?). by eexists _, _.
  - destruct (unregister_step r pid Hi) as (a & r' & -> & ?). by eexists _, _.
  - destruct (send_step r h p n Hi Ht) as (a & r' & -> & ?). by eexists _, _.
  - destruct (receive_step r pid Hi) as (a & r' & -> & ?). by eexists _, _.
  - destruct (register_monitor_step r f Hi) as (a & r' & -> & ?). by eexists _, _.
  - destruct (unregister_monitor_step r i Hi) as (a & r' & -> & ?). by eexists _, _.
  - destruct (drain_step r i Hi) as (a & r' & -> & ?). by eexists _, _.
  - eexists _, _. split; [done|]. apply quiet_step; try done. by destruct Hi; split.
  - eexists _, _. split; [done|]. split; try done. by apply bus_clear_inv.
Qed.

Lemma bus_new_inv : router_inv new.
Proof.
  split.
  - apply map_Forall_empty.
  - done.
  - done.
  - apply PayloadArena.arena_new_ok.
  - repeat constructor.
  - apply AuditLog.log_new_spec.
Qed.

Lemma audit_total_nonneg r : router_inv r -> 0 <= AuditLog.total_count (audit r).
Proof. intros Hi. apply (AuditLog.lo_total _ _ (AuditLog.wf_log _ (ri_audit _ Hi))). Qed.

Lemma sends_bound ops : 0 <= sends ops <= Z.of_nat (length ops).
Proof. induction ops as [|[] ops IH]; cbn; lia. Qed.

(** What holds along a run. *)
Record ran (r : t) (ops : list op) (rs : list reply) (r' : t) : Prop := {
  rn_inv : router_inv r';
  rn_length : length rs = length ops;
  rn_bound : AuditLog.total_count (audit r') <=
    AuditLog.total_count (audit r) + Z.of_nat (length ops);
  rn_total : Clear ∉ ops ->
    AuditLog.total_count (audit r') = AuditLog.total_count (audit r) + sends ops;
  rn_fifo : forall pid, Forall (fun o => forgets pid o = false) ops ->
    waiting r pid ++ trace (delivered1 pid) ops rs = trace (received1 pid) ops rs ++ waiting r' pid;
  rn_sequence : forall pid, Forall (fun o => forgets pid o = false) ops ->
    0 <= SequenceTracker.last (sequences r) pid ->
    SequenceTracker.last (sequences r) pid + Z.of_nat (length ops) < 2 ^ 64 ->
    StronglySorted Z.lt (trace (accepted1 pid) ops rs) /\
    Forall (fun s => SequenceTracker.last (sequences r) pid < s) (trace (accepted1 pid) ops rs);
}.

Lemma bus_run_spec ops r :
  router_inv r -> AuditLog.total_count (audit r) + Z.of_nat (length ops) < 2 ^ 64 ->
  exists rs r', run r ops = Done (rs, r') /\ ran r ops rs r'.
Proof.
  revert r. induction ops as [|o ops IH]; intros r Hi Ht.
  - exists [], r. split; [done|]. split; try done.
    + cbn. lia.
    + intros _. cbn. lia.
    + intros pid _. cbn. by rewrite app_nil_r.
    + intros pid _ _ _. split; constructor.
  - cbn in Ht. destruct (bus_step_spec r o Hi) as (a & r1 & Hs & [Hi1 Htot Hclr Hfifo Hseq]); [lia|].
    cbn [run]. rewrite Hs. exec_simpl. cbn [fst snd].
    assert (AuditLog.total_count (audit r1) <= AuditLog.total_count (audit r) + 1) as Ht1.
    { pose proof (audit_total_nonneg r Hi). destruct o; rewrite ?Htot, ?Hclr by done; cbn; lia. }
    destruct (IH r1 Hi1 ltac:(lia)) as (rs & r2 & -> & [Hi2 Hlen Hbd Htot2 Hfifo2 Hseq2]). exec_simpl.
    exists (a :: rs), r2. split; [done|]. split; try done; cbn [length trace sends].
    + by rewrite Hlen.
    + lia.
    + intros [? ?]%not_elem_of_cons. rewrite Htot2, Htot by done. lia.
    + intros pid [Ho Hops]%Forall_cons. rewrite app_assoc, Hfifo, <- !app_assoc by done.
      f_equal. by apply Hfifo2.
    + intros pid [Ho Hops]%Forall_cons Hb Hroom.
      specialize (Hseq pid Ho ltac:(lia)). specialize (Hseq2 pid Hops).
      destruct (accepted1 pid o a) as [|s l]; cbn [app].
      * destruct Hseq2 as [Hsort Hall]; [lia..|]. split; [done|].
        eapply Forall_impl; [exact Hall|]. cbn. lia.
      * destruct Hseq as (-> & Hn & Hl). destruct Hseq2 as [Hsort Hall]; [lia..|].
        split; constructor; try done; [by rewrite <- Hl|lia|].
        eapply Forall_impl; [exact Hall|]. cbn. lia.
Qed.

(** States of the router that a run from boot reaches; the 64-bit counter of
    the audit log bounds the length of the run. *)
Definition reachable (r : t) : Prop :=
  exists ops rs, Z.of_nat (length ops) < 2 ^ 64 - 1 /\ run new ops = Done (rs, r).

Lemma bus_reachable_inv r : reachable r ->
  router_inv r /\ AuditLog.total_count (audit r) + 1 < 2 ^ 64.
Proof.
  intros (ops & rs & Hlen & Hr).
  destruct (bus_run_spec ops new) as (rs' & r' & Hr' & Hran); [apply bus_new_inv|cbn; lia|].
  rewrite Hr in Hr'. injection Hr' as -> ->. pose proof (rn_bound _ _ _ _ Hran) as Hb.
  split; [apply Hran|]. cbn in Hb. lia.
Qed.

(** ** The properties *)

(** Every sequence of bus operations - registrations, sends, receptions,
    monitor taps, ticks, clears - started from the empty router runs to
    completion with one reply per operation, without a panic, and ends with
    well-formed inboxes, arena, taps and audit log, at most 64 registered
    processes, none of them the kernel. *)
Theorem bus_runs_keep_invariant ops :
  Z.of_nat (length ops) < 2 ^ 64 - 1 ->
  exists rs r, run new ops = Done (rs, r) /\ length rs = length ops /\ router_inv r.
Proof.
  intros Hlen. destruct (bus_run_spec ops new) as (rs & r & Hr & Hran); [apply bus_new_inv|cbn; lia|].
  exists rs, r. split_all; [done|apply Hran|apply Hran].
Qed.


(** No message is accepted twice: along any run in which a sender is not
    unregistered and the bus not cleared, the sequence numbers of its accepted
    messages strictly increase, and exceed the last number seen before. *)
Theorem accepted_sequences_increase r pid ops rs r' :
  reachable r -> Z.of_nat (length ops) + AuditLog.total_count (audit r) < 2 ^ 64 ->
  Forall (fun o => forgets pid o = false) ops ->
  0 <= SequenceTracker.last (sequences r) pid ->
  SequenceTracker.last (sequences r) pid + Z.of_nat (length ops) < 2 ^ 64 ->
  run r ops = Done (rs, r') ->
  StronglySorted Z.lt (trace (accepted1 pid) ops rs) /\
  Forall (fun s => SequenceTracker.last (sequences r) pid < s) (trace (accepted1 pid) ops rs).
Proof.
  intros [Hi _]%bus_reachable_inv Hlen Hf Hb Hroom Hr.
  destruct (bus_run_spec ops r Hi) as (rs' & r'' & Hr' & Hran); [lia|].
  rewrite Hr in Hr'. injection Hr' as <- <-. by apply Hran.
Qed.

(** The audit log accounts for every send: after any run without clear,
    the number of entries ever written is the number of sends - accepted or
    not -, and the check of the hash chain over the entries still in the ring
    (the last 512) succeeds. *)
Theorem audit_accounts_for_sends ops :
  Z.of_nat (length ops) < 2 ^ 64 - 1 -> Clear ∉ ops ->
  exists rs r, run new ops = Done (rs, r) /\
    AuditLog.total_count (audit r) = sends ops /\
    verify_audit_chain r = Done (Z.min 512 (sends ops), true).
Proof.
  intros Hlen Hnc. destruct (bus_run_spec ops new) as (rs & r & Hr & Hran); [apply bus_new_inv|cbn; lia|].
  exists rs, r. pose proof (rn_total _ _ _ _ Hran Hnc) as Ht. change (audit new) with AuditLog.new in Ht.
  cbn in Ht. rewrite Z.add_0_l in Ht. split_all; [done|done|].
  unfold verify_audit_chain. pose proof (ri_audit _ (rn_inv _ _ _ _ Hran)) as Hw.
  rewrite AuditLog.verify_ok by done. apply AuditLog.wf_log in Hw.
  rewrite (AuditLog.lo_len _ _ Hw). unfold AuditLog.ring_count. rewrite Ht.
  unfold AuditLog.AUDIT_CAPACITY.
  destruct (Z.leb_spec (sends ops) 512); [rewrite Z.min_r by lia|rewrite Z.min_l by lia]; done.
Qed.

(** A send is decided by the documented checks in their order (version,
    sender, receiver, self-send, payload length, sequence number, payload
    storage, inbox space); it appends exactly one audit entry naming the
    outcome; it changes no inbox unless it succeeds, and then appends to the
    receiver's inbox alone the header, its HMAC over header and payload, and an
    arena slice that reads back as the payload. *)
Theorem send_effects r h payload nonce :
  reachable r ->
  exists r', send key r h payload nonce = Done (send_verdict r h payload, r') /\
    sent key r r' h payload (send_verdict r h payload).
Proof. intros [Hi Ht]%bus_reachable_inv. by apply send_spec. Qed.

End Runs.

(** ** A concrete run *)
Section Examples.
#[local] Existing Instance ToyHash.hmac.
#[local] Existing Instance ToyHash.sha3.

Definition demo_key : list Z := HmacEngine.init 7.
Definition msg (sender receiver sequence : Z) : MessageHeader.t :=
  MessageHeader.mk 1 5 sender receiver 0 0 sequence 0 0 (replicate 16 0).

Definition boot_ops : list op :=
  [Register 2; Register 3; Send (msg 2 3 1) None 0].

Definition boot_state : t := match run demo_key new boot_ops with Done (_, r) => r | _ => new end.

Lemma boot_reachable : reachable demo_key boot_state.
Proof.
  destruct (bus_run_spec demo_key boot_ops new) as (rs & r & Hr & _); [apply bus_new_inv|cbn; lia|].
  exists boot_ops, rs. split; [cbn; lia|]. unfold boot_state. by rewrite Hr.
Qed.

Definition later_ops : list op :=
  [Send (msg 2 3 2) None 0; Receive 3; Send (msg 2 3 2) None 0; Send (msg 2 3 3) None 0].

Lemma later_forget pid : Forall (fun o => forgets pid o = false) later_ops.
Proof. repeat constructor. Qed.

Definition later_answer : option (list reply) :=
  match run demo_key boot_state later_ops with Done (rs, _) => Some rs | _ => None end.
Definition later_state : t :=
  match run demo_key boot_state later_ops with Done (_, r) => r | _ => new end.

Lemma later_run :
  match later_answer with
  | Some rs => run demo_key boot_state later_ops = Done (rs, later_state)
  | None => False
  end.
Proof.
  unfold later_answer, later_state.
  destruct (bus_run_spec demo_key later_ops boot_state) as (rs & r & Hr & _);
    [apply (bus_reachable_inv demo_key), boot_reachable|vm_compute; reflexivity|]. by rewrite Hr.
Qed.

Lemma bus_runs_keep_invariant_witness :
  exists rs r, run demo_key new boot_ops = Done (rs, r) /\ length rs = length boot_ops /\ router_inv r.
Proof. apply (bus_runs_keep_invariant demo_key boot_ops). cbn. lia. Defined.


Lemma accepted_sequences_increase_witness :
  exists rs, later_answer = Some rs /\ StronglySorted Z.lt (trace (accepted1 2) later_ops rs) /\
    trace (accepted1 2) later_ops rs = [2; 3].
Proof.
  pose proof later_run as Hr. destruct later_answer as [rs|] eqn:E; [|destruct Hr].
  exists rs. split; [reflexivity|]. split.
  - apply (accepted_sequences_increase demo_key boot_state 2 later_ops rs later_state boot_reachable);
      [vm_compute; reflexivity|apply later_forget|vm_compute; discriminate|vm_compute; reflexivity|exact Hr].
  - assert (trace (accepted1 2) later_ops (from_option id [] later_answer) = [2; 3]) as Ha
      by (vm_compute; reflexivity).
    rewrite E in Ha. exact Ha.
Defined.

Lemma audit_accounts_for_sends_witness :
  exists rs r, run demo_key new boot_ops = Done (rs, r) /\
    AuditLog.total_count (audit r) = 1 /\ verify_audit_chain r = Done (1, true).
Proof.
  apply (audit_accounts_for_sends demo_key boot_ops); [cbn; lia|].
  intros Hin. repeat (apply elem_of_cons in Hin as [Hin|Hin]; [discriminate Hin|]).
  by apply elem_of_nil in Hin.
Defined.

Lemma send_effects_witness :
  send_verdict boot_state (msg 2 3 2) None = Ok tt /\
  exists r', send demo_key boot_state (msg 2 3 2) None 0 =
      Done (send_verdict boot_state (msg 2 3 2) None, r') /\
    sent demo_key boot_state r' (msg 2 3 2) None (send_verdict boot_state (msg 2 3 2) None).
Proof.
  split; [vm_compute; reflexivity|].
  apply (send_effects demo_key boot_state (msg 2 3 2) None 0 boot_reachable).
Defined.

End Examples.
End BusRuns.

(** ** The parts of the bus *)
Module BusParts.

(** C21. The audit log detects tampering: if one entry of the ring, other than
    the newest, is overwritten with a different one, the check of the chain
    fails - unless the two entries have the same SHA3 digest, which the
    hypothesis excludes for this pair. *)
Theorem tampering_is_detected `{Sha3} log i e e' :
  wf log -> view log !! i = Some e -> (S i < length (view log))%nat -> e' <> e ->
  AuditEntry.in_range e -> AuditEntry.in_range e' ->
  (AuditLog.entry_hash e' = AuditLog.entry_hash e ->
     AuditEntry.hashable_bytes e' ++ le_bytes 8 (AuditEntry.capability_id e') ++
       le_bytes 8 (AuditEntry.msg_sequence e') =
     AuditEntry.hashable_bytes e ++ le_bytes 8 (AuditEntry.capability_id e) ++
       le_bytes 8 (AuditEntry.msg_sequence e)) ->
  exists n, AuditLog.verify_chain (AuditLog.tamper log i e') = Done (n, false).
Proof.
  intros Hwf He Hi Hne Hr Hr' Hcoll. rewrite AuditLog.tamper_verify by (done || lia).
  destruct (AuditLog.lo_chain _ _ (AuditLog.wf_log _ Hwf)) as (q & Hch & _).
  rewrite insert_take_drop by lia. rewrite <- (take_drop_middle _ _ _ He) in Hch.
  pose proof (AuditLog.verify_tampered (take i (view log)) e (drop (S i) (view log)) e' (replicate 32 0) q)
    as Ht.
  destruct (AuditLog.verify_list _ _ _ _) as [n b]. exists n. cbn in Ht. rewrite Ht; try done.
  intros E%(f_equal length). rewrite length_drop in E. cbn in E. lia.
Qed.

(** A monitor tap holds the last 64 of the messages that match its filter,
    in order: showing any sequence of envelopes to the registry changes no tap's
    identity or filter, and leaves in each tap the 64 most recent among what it
    held and the envelopes that match. *)
Theorem monitor_keeps_last_matching r envs :
  MonitorRegistry.slots_ok (MonitorRegistry.taps r) ->
  exists r', MonitorRegistry.notify_all r envs = Done r' /\
    forall i tap, MonitorRegistry.taps r !! i = Some (Some tap) ->
      exists tap', MonitorRegistry.taps r' !! i = Some (Some tap') /\
        MonitorRegistry.id tap' = MonitorRegistry.id tap /\
        MonitorRegistry.filter tap' = MonitorRegistry.filter tap /\
        view tap' = MonitorRegistry.keep_last 64
          (view tap ++ List.filter (MonitorRegistry.matches (MonitorRegistry.filter tap)) envs).
Proof.
  intros Hok. destruct (MonitorRegistry.notify_all_spec r envs Hok) as (r' & Hr & _ & _ & Hall).
  exists r'. split; [done|]. intros i tap Htap.
  destruct (Forall2_lookup_l _ _ _ _ _ Hall Htap) as (o & Ho & Hs).
  destruct o as [tap'|]; [|done]. exists tap'. split; [done|]. apply Hs.
Qed.

(** A stored payload reads back unchanged until the arena has wrapped over
    it: after any further payloads whose total size leaves room for it and for
    one maximal payload (the space the wrap may skip), the slice still yields
    the bytes stored. *)
Theorem payload_survives a data ds :
  PayloadArena.initialized a -> PayloadArena.payload_ok data -> Forall PayloadArena.payload_ok ds ->
  Z.of_nat (length data) + PayloadArena.total ds + PayloadArena.MAX_PAYLOAD_SIZE
    <= PayloadArena.ARENA_CAPACITY ->
  exists s a1 a2, PayloadArena.allocate a data = Done (Some s, a1) /\
    PayloadArena.allocate_all a1 ds = Done a2 /\ PayloadArena.get a2 s = Done data.
Proof.
  intros Hi Hd Hds Hroom.
  destruct (PayloadArena.allocate_ok a data Hi Hd) as (a1 & Ha & Hi1 & Hc & Hg & _).
  assert (0 <= PayloadArena.placed a (Z.of_nat (length data))).
  { unfold PayloadArena.placed. destruct Hi as [[[? ?] _] _]. case_match; lia. }
  destruct (PayloadArena.survives_behind a1
    (ArenaSlice.mk (PayloadArena.placed a (Z.of_nat (length data))) (Z.of_nat (length data))) ds)
    as (a2 & Hall & _ & Hg2); cbn; try done; try lia.
  eexists _, a1, a2. split_all; [exact Ha|done|]. by rewrite Hg2.
Qed.

Section Examples.
#[local] Existing Instance ToyHash.sha3.

(** A log of two entries. *)
Definition two_entries : exec AuditLog.t :=
  l ← AuditLog.append AuditLog.new 2 AuditAction.MessageSent 3 5 0 1 10;
  AuditLog.append l 3 AuditAction.QueueFull 2 5 0 1 11.

Definition demo_log : AuditLog.t := match two_entries with Done l => l | _ => AuditLog.new end.

Definition first_entry : AuditEntry.t := AuditLog.make_entry AuditLog.new 2 AuditAction.MessageSent 3 5 0 1 10.

(** The first entry with another receiver. *)
Definition forged_entry : AuditEntry.t :=
  AuditLog.with_hash (AuditEntry.mk 0 10 2 AuditAction.MessageSent 4 5 0 1 (replicate 32 0) [])
    (AuditEntry.hash first_entry).

Lemma demo_log_spec : wf demo_log /\ length (view demo_log) = 2%nat /\
  view demo_log !! 0%nat = Some first_entry.
Proof.
  destruct AuditLog.log_new_spec as [Hn Hv].
  destruct (AuditLog.append_spec AuditLog.new 2 AuditAction.MessageSent 3 5 0 1 10 Hn)
    as (l1 & H1 & Hw1 & Hv1 & Ht1); [cbn; lia|].
  destruct (AuditLog.append_spec l1 3 AuditAction.QueueFull 2 5 0 1 11 Hw1)
    as (l2 & H2 & Hw2 & Hv2 & _); [rewrite Ht1; cbn; lia|].
  assert (demo_log = l2) as ->.
  { unfold demo_log, two_entries. rewrite H1. exec_simpl. by rewrite H2. }
  rewrite Hv2, Hv1, Hv. split_all; done.
Qed.

Lemma tampering_is_detected_witness :
  exists n, AuditLog.verify_chain (AuditLog.tamper demo_log 0 forged_entry) = Done (n, false).
Proof.
  destruct demo_log_spec as (Hw & Hl & H0).
  apply (tampering_is_detected demo_log 0 first_entry forged_entry Hw H0).
  - rewrite Hl. lia.
  - intros E. apply (f_equal AuditEntry.target) in E. vm_compute in E. discriminate E.
  - unfold AuditEntry.in_range, in_u. cbn. split_all; lia || reflexivity.
  - unfold AuditEntry.in_range, in_u. cbn. split_all; lia || reflexivity.
  - intros E. vm_compute in E. discriminate E.
Defined.

Definition demo_registry : MonitorRegistry.t :=
  snd (MonitorRegistry.register MonitorRegistry.new (MonitorRegistry.mkFilter (Some 2) None None)).

Lemma monitor_keeps_last_matching_witness :
  exists r', MonitorRegistry.notify_all demo_registry [Envelope.zeroed] = Done r'.
Proof.
  destruct (monitor_keeps_last_matching demo_registry [Envelope.zeroed]) as (r' & Hr & _).
  - repeat constructor. apply MonitorRegistry.tap_new_spec.
  - exists r'. exact Hr.
Defined.

Lemma payload_survives_witness :
  exists s a1 a2, PayloadArena.allocate (PayloadArena.init PayloadArena.new) [1; 2; 3] = Done (Some s, a1) /\
    PayloadArena.allocate_all a1 [[4]; [5; 6]] = Done a2 /\ PayloadArena.get a2 s = Done [1; 2; 3].
Proof.
  apply (payload_survives (PayloadArena.init PayloadArena.new) [1; 2; 3] [[4]; [5; 6]]).
  - apply PayloadArena.arena_init_ok.
  - unfold PayloadArena.payload_ok, PayloadArena.MAX_PAYLOAD_SIZE. cbn. lia.
  - unfold PayloadArena.payload_ok, PayloadArena.MAX_PAYLOAD_SIZE.
    repeat (constructor; [cbn; lia|]). constructor.
  - unfold PayloadArena.MAX_PAYLOAD_SIZE, PayloadArena.ARENA_CAPACITY. cbn. lia.
Defined.

End Examples.
End BusParts.
