(* ===== verification/Governance.v ===== *)
(** * The governance engine

    Models [kernel/src/governance/]: the rule engine ([rules.rs]), the genesis
    constitution and its hash ([constitution.rs]), the safety, authority and
    break-glass state machines ([safety.rs], [acs.rs], [break_glass.rs]) and the
    policy check in front of the bus ([mod.rs]). *)

From Stdlib Require Import Ascii.
From S2P Require Import Prelude Wire Crypto CapStore Router.

(** ** [fabric_types/src/governance.rs] *)
Module SafetyState.
Inductive t : Type := Normal | Elevated | Safe | Chaos | Lockdown.
Definition as_u8 (s : t) : Z :=
  match s with Normal => 0 | Elevated => 1 | Safe => 2 | Chaos => 3 | Lockdown => 4 end.
#[global] Instance eq_dec : EqDecision t.
Proof. solve_decision. Defined.
End SafetyState.

Module AcsState.
Inductive t : Type := Active | Degraded | Contingency | Emergency.
Definition as_u8 (s : t) : Z :=
  match s with Active => 0 | Degraded => 1 | Contingency => 2 | Emergency => 3 end.
#[global] Instance eq_dec : EqDecision t.
Proof. solve_decision. Defined.
End AcsState.

Module RuleCondition.
Inductive t : Type :=
| SenderEquals | ReceiverEquals | MsgTypeEquals | ResourceKindEquals | PriorityBelow
| Always | SafetyStateAtLeast | AcsStateEquals | SenderNotButler | TierEscalated.
Definition as_u8 (c : t) : Z :=
  match c with
  | SenderEquals => 0 | ReceiverEquals => 1 | MsgTypeEquals => 2 | ResourceKindEquals => 3
  | PriorityBelow => 4 | Always => 5 | SafetyStateAtLeast => 6 | AcsStateEquals => 7
  | SenderNotButler => 8 | TierEscalated => 9
  end.
End RuleCondition.

Module RuleAction.
Inductive t : Type :=
| Allow | Deny | DenyAndLog | AllowIfCapValid | EscalateToChaos | EscalateToTier2.
Definition as_u8 (a : t) : Z :=
  match a with
  | Allow => 0 | Deny => 1 | DenyAndLog => 2 | AllowIfCapValid => 3 | EscalateToChaos => 4
  | EscalateToTier2 => 5
  end.
#[global] Instance eq_dec : EqDecision t.
Proof. solve_decision. Defined.
End RuleAction.

Module PolicyVerdict.
Inductive t : Type := Allow | Deny | Escalate (s : SafetyState.t).
#[global] Instance eq_dec : EqDecision t.
Proof. solve_decision. Defined.
End PolicyVerdict.

(** ** [rules.rs] *)
Module EvalContext.
Record t : Type := mk {
  sender_pid : Z;
  receiver_pid : Z;
  msg_type : Z;
  capability_id : Z;
  resource_kind : Z;
  sender_priority : Z;
  safety_state : SafetyState.t;
  acs_state : AcsState.t;
  tier_escalated : bool;
}.
End EvalContext.

Module RuleEngine.

Definition MAX_CONDITIONS : Z := 4.
Definition MAX_RULES : Z := 64.

Record Condition : Type := mkCond { kind : RuleCondition.t; value : Z }.

Definition cond_evaluate (c : Condition) (ctx : EvalContext.t) : bool :=
  match kind c with
  | RuleCondition.SenderEquals => EvalContext.sender_pid ctx =? wrap 32 (value c)
  | RuleCondition.ReceiverEquals => EvalContext.receiver_pid ctx =? wrap 32 (value c)
  | RuleCondition.MsgTypeEquals => EvalContext.msg_type ctx =? wrap 16 (value c)
  | RuleCondition.ResourceKindEquals => EvalContext.resource_kind ctx =? wrap 16 (value c)
  | RuleCondition.PriorityBelow => EvalContext.sender_priority ctx <? wrap 8 (value c)
  | RuleCondition.Always => true
  | RuleCondition.SafetyStateAtLeast =>
      SafetyState.as_u8 (EvalContext.safety_state ctx) >=? wrap 8 (value c)
  | RuleCondition.AcsStateEquals =>
      AcsState.as_u8 (EvalContext.acs_state ctx) =? wrap 8 (value c)
  | RuleCondition.SenderNotButler => negb (EvalContext.sender_pid ctx =? 1)
  | RuleCondition.TierEscalated => EvalContext.tier_escalated ctx
  end.

Record PolicyRule : Type := mkRule {
  name : string;
  priority : Z;
  condition_count : Z;
  conditions : list Condition;
  action : RuleAction.t;
}.

Definition empty_rule : PolicyRule :=
  mkRule EmptyString 0 0 (replicate (Z.to_nat MAX_CONDITIONS) (mkCond RuleCondition.Always 0)) RuleAction.Allow.

(** [for i in 0..self.condition_count] of [matches]. *)
Fixpoint matches_loop (cs : list Condition) (is_ : list Z) (ctx : EvalContext.t) : exec bool :=
  match is_ with
  | [] => Done true
  | i :: is_ =>
      c ← arr_get cs i;
      if cond_evaluate c ctx then matches_loop cs is_ ctx else Done false
  end.

Definition matches (r : PolicyRule) (ctx : EvalContext.t) : exec bool :=
  matches_loop (conditions r) (seqZ 0 (condition_count r)) ctx.

Definition verdict (r : PolicyRule) : PolicyVerdict.t :=
  match action r with
  | RuleAction.Allow => PolicyVerdict.Allow
  | RuleAction.AllowIfCapValid => PolicyVerdict.Allow
  | RuleAction.Deny => PolicyVerdict.Deny
  | RuleAction.DenyAndLog => PolicyVerdict.Deny
  | RuleAction.EscalateToChaos => PolicyVerdict.Escalate SafetyState.Chaos
  | RuleAction.EscalateToTier2 => PolicyVerdict.Deny
  end.

Record t : Type := mk { rules : list PolicyRule; count : Z }.

Definition new : t := mk (replicate (Z.to_nat MAX_RULES) empty_rule) 0.

(** [while j > 0 && rules[j].priority > rules[j-1].priority { swap; j -= 1 }] *)
Fixpoint bubble (j : nat) (rs : list PolicyRule) : exec (list PolicyRule) :=
  match j with
  | O => Done rs
  | S j' =>
      a ← arr_get rs (Z.of_nat j);
      b ← arr_get rs (Z.of_nat j');
      if priority a >? priority b then
        rs ← arr_set rs (Z.of_nat j) b;
        rs ← arr_set rs (Z.of_nat j') a;
        bubble j' rs
      else Done rs
  end.

(** [for i in 1..self.count { .. }], the insertion sort. *)
Fixpoint sort_from (is_ : list nat) (rs : list PolicyRule) : exec (list PolicyRule) :=
  match is_ with
  | [] => Done rs
  | i :: is_ => rs ← bubble i rs; sort_from is_ rs
  end.

Definition sort_rules (rs : list PolicyRule) (count : Z) : exec (list PolicyRule) :=
  sort_from (seq 1 (Z.to_nat count - 1)) rs.

(** [for i in 0..n { self.rules[i] = rules[i]; }] *)
Fixpoint copy_rules (i : Z) (src dst : list PolicyRule) : exec (list PolicyRule) :=
  match src with
  | [] => Done dst
  | r :: src => dst ← arr_set dst i r; copy_rules (i + 1) src dst
  end.

Definition load_rules (e : t) (rs : list PolicyRule) : exec t :=
  let n := Z.min (Z.of_nat (length rs)) MAX_RULES in
  rs' ← copy_rules 0 (take (Z.to_nat n) rs) (rules e);
  rs' ← sort_rules rs' n;
  Done (mk rs' n).

(** The first of the rules [is_] that matches. *)
Fixpoint first_match (rs : list PolicyRule) (is_ : list Z) (ctx : EvalContext.t)
    : exec (option PolicyRule) :=
  match is_ with
  | [] => Done None
  | i :: is_ =>
      r ← arr_get rs i;
      m ← matches r ctx;
      if (m : bool) then Done (Some r) else first_match rs is_ ctx
  end.

Definition evaluate (e : t) (ctx : EvalContext.t) : exec (PolicyVerdict.t * string * bool) :=
  m ← first_match (rules e) (seqZ 0 (count e)) ctx;
  Done (match m with
        | Some r => (verdict r, name r, bool_decide (action r = RuleAction.DenyAndLog))
        | None => (PolicyVerdict.Allow, "default-allow", false)
        end).

Definition evaluate_with_action (e : t) (ctx : EvalContext.t) : exec (RuleAction.t * string) :=
  m ← first_match (rules e) (seqZ 0 (count e)) ctx;
  Done (match m with
        | Some r => (action r, name r)
        | None => (RuleAction.Allow, "default-allow")
        end).

Definition rule_count (e : t) : Z := count e.

Definition get_rule (e : t) (index : Z) : exec (option PolicyRule) :=
  if index <? count e then r ← arr_get (rules e) index; Done (Some r) else Done None.

Definition add_rule (e : t) (rule : PolicyRule) : exec (bool * t) :=
  if count e >=? MAX_RULES then Done (false, e)
  else
    rs ← arr_set (rules e) (count e) rule;
    rs ← sort_rules rs (count e + 1);
    Done (true, mk rs (count e + 1)).

(** The index of the first of the rules [is_] with the given name. *)
Fixpoint find_name (rs : list PolicyRule) (is_ : list Z) (nm : string) : exec (option Z) :=
  match is_ with
  | [] => Done None
  | i :: is_ =>
      r ← arr_get rs i;
      if String.eqb (name r) nm then Done (Some i) else find_name rs is_ nm
  end.

(** [for j in i..self.count - 1 { self.rules[j] = self.rules[j + 1]; }] *)
Fixpoint shift_down (rs : list PolicyRule) (js : list Z) : exec (list PolicyRule) :=
  match js with
  | [] => Done rs
  | j :: js => r ← arr_get rs (j + 1); rs ← arr_set rs j r; shift_down rs js
  end.

Definition remove_rule (e : t) (nm : string) : exec (bool * t) :=
  f ← find_name (rules e) (seqZ 0 (count e)) nm;
  match f with
  | None => Done (false, e)
  | Some i =>
      rs ← shift_down (rules e) (seqZ i (count e - 1 - i));
      rs ← arr_set rs (count e - 1) empty_rule;
      Done (true, mk rs (count e - 1))
  end.

Definition replace_rule (e : t) (nm : string) (new_rule : PolicyRule) : exec (bool * t) :=
  f ← find_name (rules e) (seqZ 0 (count e)) nm;
  match f with
  | None => Done (false, e)
  | Some i =>
      rs ← arr_set (rules e) i new_rule;
      rs ← sort_rules rs (count e);
      Done (true, mk rs (count e))
  end.

End RuleEngine.

(** ** [constitution.rs] *)
Module Constitution.
Import RuleEngine.

Definition AMENDMENT_COOLING_TICKS : Z := 86400000.
Definition GENESIS_RULE_COUNT : Z := 10.

Definition empty_cond : Condition := mkCond RuleCondition.Always 0.

(** A rule with its active conditions, padded to [MAX_CONDITIONS]. *)
Definition genesis_rule (nm : string) (prio : Z) (cs : list Condition) (a : RuleAction.t)
    : PolicyRule :=
  mkRule nm prio (Z.of_nat (length cs)) (cs ++ replicate (4 - length cs) empty_cond) a.

Definition genesis_rules : list PolicyRule :=
  [ genesis_rule "butler-unrestricted" 1000
      [mkCond RuleCondition.SenderEquals 1] RuleAction.Allow;
    genesis_rule "lockdown-deny-all" 900
      [mkCond RuleCondition.SafetyStateAtLeast (SafetyState.as_u8 SafetyState.Lockdown);
       mkCond RuleCondition.SenderNotButler 0] RuleAction.DenyAndLog;
    genesis_rule "chaos-critical-only" 800
      [mkCond RuleCondition.SafetyStateAtLeast (SafetyState.as_u8 SafetyState.Chaos);
       mkCond RuleCondition.SenderNotButler 0;
       mkCond RuleCondition.PriorityBelow 4] RuleAction.DenyAndLog;
    genesis_rule "elevated-throttle-low" 700
      [mkCond RuleCondition.SafetyStateAtLeast (SafetyState.as_u8 SafetyState.Elevated);
       mkCond RuleCondition.PriorityBelow 2] RuleAction.Deny;
    genesis_rule "deny-kernel-spoof" 950
      [mkCond RuleCondition.SenderEquals 0] RuleAction.DenyAndLog;
    genesis_rule "acs-emergency-escalate" 850
      [mkCond RuleCondition.AcsStateEquals 3] RuleAction.EscalateToChaos;
    genesis_rule "device-access-gated" 600
      [mkCond RuleCondition.ResourceKindEquals 3;
       mkCond RuleCondition.SenderNotButler 0] RuleAction.AllowIfCapValid;
    genesis_rule "normal-default-allow" 100
      [mkCond RuleCondition.Always 0] RuleAction.Allow;
    genesis_rule "safe-state-allow" 650
      [mkCond RuleCondition.SafetyStateAtLeast (SafetyState.as_u8 SafetyState.Safe);
       mkCond RuleCondition.SenderNotButler 0] RuleAction.AllowIfCapValid;
    genesis_rule "council-escalation" 550
      [mkCond RuleCondition.ResourceKindEquals 6;
       mkCond RuleCondition.SenderNotButler 0] RuleAction.AllowIfCapValid ].

Definition name_bytes (s : string) : list Z := str_bytes s.

(** The bytes of the active conditions. *)
Fixpoint condition_bytes (cs : list Condition) (is_ : list Z) : exec (list Z) :=
  match is_ with
  | [] => Done []
  | i :: is_ =>
      c ← arr_get cs i;
      rest ← condition_bytes cs is_;
      Done ([RuleCondition.as_u8 (kind c)] ++ le_bytes 8 (value c) ++ rest)
  end.

Definition rule_bytes (r : PolicyRule) : exec (list Z) :=
  cs ← condition_bytes (conditions r) (seqZ 0 (condition_count r));
  Done (name_bytes (name r) ++ le_bytes 2 (priority r) ++ [condition_count r] ++ cs ++
        [RuleAction.as_u8 (action r)]).

Fixpoint constitution_bytes (rs : list PolicyRule) : exec (list Z) :=
  match rs with
  | [] => Done []
  | r :: rs => b ← rule_bytes r; rest ← constitution_bytes rs; Done (b ++ rest)
  end.

Definition compute_constitution_hash `{Sha3} (rs : list PolicyRule) : exec (list Z) :=
  b ← constitution_bytes rs; Done (sha3_256 b).

Module AmendmentTracker.

Record t : Type := mk {
  last_proposal_tick : Z;
  total_amendments : Z;
  cooling : bool;
}.

Definition new : t := mk 0 0 false.

Definition propose (a : t) (safety_state : SafetyState.t) (current_tick : Z) : bool * t :=
  if negb (bool_decide (safety_state = SafetyState.Normal)) then (false, a)
  else if cooling a && (sat_sub current_tick (last_proposal_tick a) <? AMENDMENT_COOLING_TICKS)
  then (false, a)
  else (true, mk current_tick (total_amendments a) true).

Definition apply (a : t) (current_tick : Z) : bool * t :=
  if negb (cooling a) then (false, a)
  else if sat_sub current_tick (last_proposal_tick a) <? AMENDMENT_COOLING_TICKS then (false, a)
  else (true, mk (last_proposal_tick a) (u32_add (total_amendments a) 1) false).

Definition reset (a : t) : t := mk 0 0 false.

End AmendmentTracker.
End Constitution.

(** ** [safety.rs] *)
Module Safety.

Definition ELEVATED_CLEAR_TICKS : Z := 300000.
Definition SAFE_BURNDOWN_TICKS : Z := 1800000.
Definition ANOMALY_WINDOW_TICKS : Z := 60000.
Definition ANOMALY_BURST_THRESHOLD : Z := 3.
Definition ALARM_BURST_THRESHOLD : Z := 3.
Definition HYSTERESIS_WINDOW_TICKS : Z := 1000.
Definition HYSTERESIS_ELEVATED_THRESHOLD : Z := 150.
Definition HYSTERESIS_CHAOS_THRESHOLD : Z := 300.
Definition HYSTERESIS_INSTANT_THRESHOLD : Z := 80.
Definition TRANSITION_COOLDOWN_TICKS : Z := 5000.
Definition MAX_SIGNALS : Z := 32.

Inductive SafetySignal : Type :=
| MemoryIntegrity | InstructionPointer | AcsTimeout | CapabilityFailure | CouncilDrift | IoAnomaly.

Definition weight (s : SafetySignal) : Z :=
  match s with
  | MemoryIntegrity => 100
  | InstructionPointer => 90
  | AcsTimeout => 80
  | CapabilityFailure => 60
  | CouncilDrift => 40
  | IoAnomaly => 20
  end.

Record t : Type := mk {
  state : SafetyState.t;
  state_entered_tick : Z;
  anomaly_count : Z;
  anomaly_window_start : Z;
  alarm_count : Z;
  total_transitions : Z;
  signal_buffer : list (Z * Z);
  signal_count : Z;
  last_escalation_tick : Z;
}.

Definition new : t :=
  mk SafetyState.Normal 0 0 0 0 0 (replicate (Z.to_nat MAX_SIGNALS) (0, 0)) 0 0.

Definition transition_to (s : t) (new_state : SafetyState.t) (current_tick : Z) : t :=
  if bool_decide (state s = new_state) then s
  else mk new_state current_tick (anomaly_count s) (anomaly_window_start s) (alarm_count s)
         (u64_add (total_transitions s) 1) (signal_buffer s) (signal_count s)
         (last_escalation_tick s).

Definition tick (s : t) (current_tick : Z) : t :=
  match state s with
  | SafetyState.Elevated =>
      if sat_sub current_tick (state_entered_tick s) >=? ELEVATED_CLEAR_TICKS
      then transition_to s SafetyState.Normal current_tick else s
  | SafetyState.Safe =>
      if sat_sub current_tick (state_entered_tick s) >=? SAFE_BURNDOWN_TICKS
      then transition_to s SafetyState.Normal current_tick else s
  | _ => s
  end.

Definition with_anomalies (s : t) (n start : Z) : t :=
  mk (state s) (state_entered_tick s) n start (alarm_count s) (total_transitions s)
    (signal_buffer s) (signal_count s) (last_escalation_tick s).
Definition with_alarms (s : t) (n : Z) : t :=
  mk (state s) (state_entered_tick s) (anomaly_count s) (anomaly_window_start s) n
    (total_transitions s) (signal_buffer s) (signal_count s) (last_escalation_tick s).
Definition with_signals (s : t) (b : list (Z * Z)) (n : Z) : t :=
  mk (state s) (state_entered_tick s) (anomaly_count s) (anomaly_window_start s) (alarm_count s)
    (total_transitions s) b n (last_escalation_tick s).
Definition with_escalation (s : t) (k : Z) : t :=
  mk (state s) (state_entered_tick s) (anomaly_count s) (anomaly_window_start s) (alarm_count s)
    (total_transitions s) (signal_buffer s) (signal_count s) k.

Definition report_anomaly (s : t) (current_tick : Z) : t :=
  let s := if sat_sub current_tick (anomaly_window_start s) >=? ANOMALY_WINDOW_TICKS
           then with_anomalies s 0 current_tick else s in
  let s := with_anomalies s (u32_add (anomaly_count s) 1) (anomaly_window_start s) in
  if bool_decide (state s = SafetyState.Normal) && (anomaly_count s >=? ANOMALY_BURST_THRESHOLD) then
    let s := transition_to s SafetyState.Elevated current_tick in
    with_anomalies s 0 (anomaly_window_start s)
  else s.

Definition report_alarm (s : t) (current_tick : Z) : t :=
  let s := with_alarms s (u32_add (alarm_count s) 1) in
  if bool_decide (state s = SafetyState.Elevated) && (alarm_count s >=? ALARM_BURST_THRESHOLD) then
    with_alarms (transition_to s SafetyState.Chaos current_tick) 0
  else s.

Definition force_lockdown (s : t) (current_tick : Z) : t :=
  transition_to s SafetyState.Lockdown current_tick.

Definition human_confirm (s : t) (current_tick : Z) : bool * t :=
  if bool_decide (state s = SafetyState.Lockdown)
  then (true, transition_to s SafetyState.Safe current_tick) else (false, s).

(** The in-place compaction of the signals that are still in the window. *)
Fixpoint evict (reads : list Z) (window_start : Z) (buf : list (Z * Z)) (write_idx : Z)
    : exec (list (Z * Z) * Z) :=
  match reads with
  | [] => Done (buf, write_idx)
  | read_idx :: reads =>
      e ← arr_get buf read_idx;
      if fst e >=? window_start then
        buf ← arr_set buf write_idx e;
        evict reads window_start buf (write_idx + 1)
      else evict reads window_start buf write_idx
  end.

Fixpoint weighted_sum (reads : list Z) (buf : list (Z * Z)) (sum : Z) : exec Z :=
  match reads with
  | [] => Done sum
  | i :: reads => e ← arr_get buf i; weighted_sum reads buf (sat_add32 sum (snd e))
  end.

Definition cooled_down (s : t) (current_tick : Z) : bool :=
  sat_sub current_tick (last_escalation_tick s) >=? TRANSITION_COOLDOWN_TICKS.

Definition escalate (s : t) (to : SafetyState.t) (current_tick : Z) : t :=
  with_escalation (transition_to s to current_tick) current_tick.

Definition report_signal (s : t) (signal : SafetySignal) (current_tick : Z) : exec t :=
  let w := weight signal in
  if w >=? HYSTERESIS_INSTANT_THRESHOLD then
    Done (if bool_decide (state s = SafetyState.Normal) then
            if cooled_down s current_tick then escalate s SafetyState.Elevated current_tick else s
          else if bool_decide (state s = SafetyState.Elevated) then
            if cooled_down s current_tick then escalate s SafetyState.Chaos current_tick else s
          else s)
  else
    let window_start := sat_sub current_tick HYSTERESIS_WINDOW_TICKS in
    r ← evict (seqZ 0 (signal_count s)) window_start (signal_buffer s) 0;
    let s := with_signals s (fst r) (snd r) in
    b ← (if signal_count s <? MAX_SIGNALS then
           b ← arr_set (signal_buffer s) (signal_count s) (current_tick, w);
           Done (b, signal_count s + 1)
         else Done (signal_buffer s, signal_count s));
    let s := with_signals s (fst b) (snd b) in
    sum ← weighted_sum (seqZ 0 (signal_count s)) (signal_buffer s) 0;
    Done (if cooled_down s current_tick then
            if bool_decide (state s = SafetyState.Normal) && (sum >=? HYSTERESIS_ELEVATED_THRESHOLD)
            then let s := escalate s SafetyState.Elevated current_tick in
                 with_signals s (signal_buffer s) 0
            else if bool_decide (state s = SafetyState.Elevated) &&
                    (sum >=? HYSTERESIS_CHAOS_THRESHOLD)
            then let s := escalate s SafetyState.Chaos current_tick in
                 with_signals s (signal_buffer s) 0
            else s
          else s).

Fixpoint window_sum (reads : list Z) (window_start : Z) (buf : list (Z * Z)) (sum : Z) : exec Z :=
  match reads with
  | [] => Done sum
  | i :: reads =>
      e ← arr_get buf i;
      window_sum reads window_start buf
        (if fst e >=? window_start then sat_add32 sum (snd e) else sum)
  end.

Definition signal_weighted_sum (s : t) (current_tick : Z) : exec Z :=
  window_sum (seqZ 0 (signal_count s)) (sat_sub current_tick HYSTERESIS_WINDOW_TICKS)
    (signal_buffer s) 0.

Definition force_state (s : t) (st : SafetyState.t) (current_tick : Z) : t :=
  transition_to s st current_tick.

Definition reset (s : t) : t := new.

End Safety.

(** ** [acs.rs] *)
Module Acs.

Definition DEGRADED_THRESHOLD_TICKS : Z := 3600000.
Definition CONTINGENCY_THRESHOLD_TICKS : Z := 7200000.
Definition EMERGENCY_THRESHOLD_TICKS : Z := 14400000.

Record t : Type := mk {
  state : AcsState.t;
  last_heartbeat_tick : Z;
  alternate_exists : bool;
  total_transitions : Z;
  emergency_triggered : bool;
}.

Definition new : t := mk AcsState.Active 0 false 0 false.

Definition transition_to (a : t) (new_state : AcsState.t) : t :=
  if bool_decide (state a = new_state) then a
  else mk new_state (last_heartbeat_tick a) (alternate_exists a)
         (u64_add (total_transitions a) 1) (emergency_triggered a).

Definition with_trigger (a : t) (b : bool) : t :=
  mk (state a) (last_heartbeat_tick a) (alternate_exists a) (total_transitions a) b.

Definition take_emergency_trigger (a : t) : bool * t :=
  (emergency_triggered a, with_trigger a false).

Definition set_alternate_exists (a : t) (b : bool) : t :=
  mk (state a) (last_heartbeat_tick a) b (total_transitions a) (emergency_triggered a).

Definition tick (a : t) (current_tick : Z) : t :=
  let elapsed := sat_sub current_tick (last_heartbeat_tick a) in
  match state a with
  | AcsState.Active =>
      if elapsed >=? DEGRADED_THRESHOLD_TICKS then transition_to a AcsState.Degraded else a
  | AcsState.Degraded =>
      if (elapsed >=? CONTINGENCY_THRESHOLD_TICKS) && alternate_exists a
      then transition_to a AcsState.Contingency
      else if elapsed >=? EMERGENCY_THRESHOLD_TICKS
      then with_trigger (transition_to a AcsState.Emergency) true
      else a
  | AcsState.Contingency =>
      if elapsed >=? EMERGENCY_THRESHOLD_TICKS
      then with_trigger (transition_to a AcsState.Emergency) true
      else a
  | AcsState.Emergency => a
  end.

Definition heartbeat (a : t) (current_tick : Z) : t :=
  let a := mk (state a) current_tick (alternate_exists a) (total_transitions a)
             (emergency_triggered a) in
  if bool_decide (state a = AcsState.Active) then a else transition_to a AcsState.Active.

Definition force_state (a : t) (st : AcsState.t) : t := transition_to a st.
Definition reset (a : t) : t := new.

End Acs.

(** ** [break_glass.rs] *)
Module BreakGlass.

Definition BREAK_GLASS_EXPIRY_TICKS : Z := 60000.

Inductive BreakGlassReason : Type := GovernancePanic | AcsSuccessionFailed | SafetyLockdown.

Record t : Type := mk {
  active : bool;
  activated_tick : Z;
  expiry_tick : Z;
  reason : BreakGlassReason;
  operations_logged : Z;
  total_activations : Z;
}.

Definition new : t := mk false 0 0 SafetyLockdown 0 0.

Definition activate (b : t) (r : BreakGlassReason) (current_tick : Z) : t :=
  mk true current_tick (u64_add current_tick BREAK_GLASS_EXPIRY_TICKS) r 0
    (u32_add (total_activations b) 1).

Definition deactivate (b : t) : t :=
  mk false (activated_tick b) (expiry_tick b) (reason b) (operations_logged b) (total_activations b).

Definition check_and_activate (b : t) (safety : SafetyState.t) (acs : AcsState.t) (current_tick : Z)
    : bool * t :=
  if active b then (false, if current_tick >=? expiry_tick b then deactivate b else b)
  else if bool_decide (safety = SafetyState.Lockdown) && bool_decide (acs = AcsState.Emergency)
  then (true, activate b SafetyLockdown current_tick)
  else (false, b).

Definition is_active (b : t) : bool := active b.

Definition log_operation (b : t) : t :=
  mk (active b) (activated_tick b) (expiry_tick b) (reason b) (u32_add (operations_logged b) 1)
    (total_activations b).

Definition check_expiry (b : t) (current_tick : Z) : t :=
  if active b && (current_tick >=? expiry_tick b) then deactivate b else b.

Definition check_recovery (b : t) (safety : SafetyState.t) : t :=
  if active b && (bool_decide (safety = SafetyState.Normal) ||
                  bool_decide (safety = SafetyState.Elevated))
  then deactivate b else b.

Definition remaining_ticks (b : t) (current_tick : Z) : Z :=
  if active b && (current_tick <? expiry_tick b) then expiry_tick b - current_tick else 0.

Definition reset (b : t) : t := new.

End BreakGlass.

(** ** [mod.rs] *)

(** What the policy check needs of the council: [council::evaluate_tier2]. *)
Class Tier2Council (C : Type) := {
  evaluate_tier2 : C -> EvalContext.t -> PolicyVerdict.t * C;
}.

Module GovernanceEngine.

Record t : Type := mk {
  rules : RuleEngine.t;
  safety : Safety.t;
  acs : Acs.t;
  amendments : Constitution.AmendmentTracker.t;
  break_glass : BreakGlass.t;
  constitution_hash : list Z;
  current_tick : Z;
  total_evaluations : Z;
  total_denials : Z;
  total_break_glass_bypasses : Z;
  initialized : bool;
}.

Definition new : t :=
  mk RuleEngine.new Safety.new Acs.new Constitution.AmendmentTracker.new BreakGlass.new
    (replicate 32 0) 0 0 0 0 false.

Definition with_machines (g : t) (s : Safety.t) (a : Acs.t) (b : BreakGlass.t) (k : Z) : t :=
  mk (rules g) s a (amendments g) b (constitution_hash g) k (total_evaluations g)
    (total_denials g) (total_break_glass_bypasses g) (initialized g).

Definition with_counts (g : t) (evals denials bypasses : Z) : t :=
  mk (rules g) (safety g) (acs g) (amendments g) (break_glass g) (constitution_hash g)
    (current_tick g) evals denials bypasses (initialized g).

Section Engine.
Context `{Sha3}.

Definition init (g : t) : exec t :=
  rs ← RuleEngine.load_rules (rules g) Constitution.genesis_rules;
  h ← Constitution.compute_constitution_hash Constitution.genesis_rules;
  Done (mk rs (safety g) (acs g) (amendments g) (break_glass g) h (current_tick g)
          (total_evaluations g) (total_denials g) (total_break_glass_bypasses g) true).

Definition tick (g : t) : t :=
  let k := u64_add (current_tick g) 1 in
  let s := Safety.tick (safety g) k in
  let a := Acs.tick (acs g) k in
  let '(triggered, a) := Acs.take_emergency_trigger a in
  let s := if (triggered : bool) then Safety.force_lockdown s k else s in
  let b := snd (BreakGlass.check_and_activate (break_glass g) (Safety.state s) (Acs.state a) k) in
  let b := BreakGlass.check_expiry b k in
  let b := BreakGlass.check_recovery b (Safety.state s) in
  with_machines g s a b k.

Definition advance_ticks (g : t) (n : nat) : t := Nat.iter n tick g.

Definition verify_constitution (g : t) : exec bool :=
  h ← Constitution.compute_constitution_hash Constitution.genesis_rules;
  Done (bool_decide (h = constitution_hash g)).

Definition clear (g : t) : exec t :=
  rs ← RuleEngine.load_rules (rules g) Constitution.genesis_rules;
  h ← Constitution.compute_constitution_hash Constitution.genesis_rules;
  Done (mk rs (Safety.reset (safety g)) (Acs.reset (acs g))
          (Constitution.AmendmentTracker.reset (amendments g)) (BreakGlass.reset (break_glass g))
          h 0 0 0 0 (initialized g)).

Definition heartbeat (g : t) : t :=
  with_machines g (safety g) (Acs.heartbeat (acs g) (current_tick g)) (break_glass g)
    (current_tick g).

End Engine.

Definition count_evaluation (g : t) : t :=
  with_counts g (u64_add (total_evaluations g) 1) (total_denials g) (total_break_glass_bypasses g).
Definition count_denial (g : t) : t :=
  with_counts g (total_evaluations g) (u64_add (total_denials g) 1) (total_break_glass_bypasses g).

(** The context that the check builds from the header, the sender's priority in
    the process table and the kind of the capability's resource. *)
Definition context (g : t) (h : MessageHeader.t) (sender_priority : option Z)
    (resource : option Z) : EvalContext.t :=
  EvalContext.mk (MessageHeader.sender h) (MessageHeader.receiver h) (MessageHeader.msg_type h)
    (MessageHeader.capability_id h)
    (match resource with Some r => ResourceId.kind r | None => 0 end)
    (from_option (fun p => p) 0 sender_priority)
    (Safety.state (safety g)) (Acs.state (acs g)) false.

Definition with_safety (ctx : EvalContext.t) (s : SafetyState.t) : EvalContext.t :=
  EvalContext.mk (EvalContext.sender_pid ctx) (EvalContext.receiver_pid ctx)
    (EvalContext.msg_type ctx) (EvalContext.capability_id ctx) (EvalContext.resource_kind ctx)
    (EvalContext.sender_priority ctx) s (EvalContext.acs_state ctx) false.

(** [evaluate_policy], given what it reads of the process table and of the
    capability store; [c] is the state of the council. *)
Definition evaluate_policy {C} `{Tier2Council C} (g : t) (c : C) (h : MessageHeader.t)
    (sender_priority resource : option Z)
    : exec (result unit BusRouter.BusError * t * C) :=
  if negb (initialized g) then Done (Ok tt, g, c)
  else if BreakGlass.is_active (break_glass g) then
    let g := with_machines g (safety g) (acs g) (BreakGlass.log_operation (break_glass g))
               (current_tick g) in
    Done (Ok tt,
          with_counts g (u64_add (total_evaluations g) 1) (total_denials g)
            (u64_add (total_break_glass_bypasses g) 1), c)
  else
    let ctx := context g h sender_priority resource in
    a ← RuleEngine.evaluate_with_action (rules g) ctx;
    let g := count_evaluation g in
    match fst a with
    | RuleAction.Allow | RuleAction.AllowIfCapValid => Done (Ok tt, g, c)
    | RuleAction.Deny | RuleAction.DenyAndLog =>
        Done (Err BusRouter.PolicyDenied, count_denial g, c)
    | RuleAction.EscalateToChaos =>
        let g := with_machines g (Safety.force_state (safety g) SafetyState.Chaos (current_tick g))
                   (acs g) (break_glass g) (current_tick g) in
        v ← RuleEngine.evaluate (rules g) (with_safety ctx (Safety.state (safety g)));
        match fst (fst v) with
        | PolicyVerdict.Allow => Done (Ok tt, g, c)
        | _ => Done (Err BusRouter.PolicyDenied, count_denial g, c)
        end
    | RuleAction.EscalateToTier2 =>
        let '(v, c) := evaluate_tier2 c ctx in
        match v with
        | PolicyVerdict.Allow => Done (Ok tt, g, c)
        | _ => Done (Err BusRouter.PolicyDenied, count_denial g, c)
        end
    end.

End GovernanceEngine.
