(* ===== verification/GovSpec.v ===== *)
(** * What the governance engine decides

    The rule engine keeps its rules sorted by priority and evaluates the
    highest-priority match; with the genesis constitution the decision is a
    fixed table; the state machines run on their documented timelines. *)

From Stdlib Require Import Sorted.
From S2P Require Import Prelude Wire Crypto CapStore Router Governance.

Module RuleSpec.
Import RuleEngine.

(** ** Insertion into a sorted list, from its right end *)
Definition higher (a b : PolicyRule) : Prop := priority b <= priority a.

(** [x] moves left past the rules of strictly lower priority at the end. *)
Fixpoint insert_left (rev_pre : list PolicyRule) (x : PolicyRule) : list PolicyRule :=
  match rev_pre with
  | [] => [x]
  | y :: rev_pre =>
      if priority x >? priority y then insert_left rev_pre x ++ [y] else reverse (y :: rev_pre) ++ [x]
  end.

Definition insert_right (pre : list PolicyRule) (x : PolicyRule) : list PolicyRule :=
  insert_left (reverse pre) x.

Lemma insert_right_nil x : insert_right [] x = [x].
Proof. done. Qed.

Lemma insert_right_snoc pre y x :
  insert_right (pre ++ [y]) x =
    if priority x >? priority y then insert_right pre x ++ [y] else pre ++ [y; x].
Proof.
  unfold insert_right. rewrite reverse_snoc. cbn [insert_left]. case_match; [done|].
  rewrite reverse_cons, reverse_involutive, <- app_assoc. done.
Qed.

Lemma insert_right_perm pre x : insert_right pre x ≡ₚ x :: pre.
Proof.
  induction pre as [|y pre IH] using rev_ind; [done|]. rewrite insert_right_snoc. case_match.
  - rewrite IH. done.
  - change [y; x] with ([y] ++ [x]). rewrite app_assoc. by rewrite Permutation_app_comm.
Qed.

Lemma sorted_snoc pre y :
  StronglySorted higher (pre ++ [y]) <->
  StronglySorted higher pre /\ Forall (fun z => higher z y) pre.
Proof.
  induction pre as [|z pre IH]; cbn.
  - split; [split; constructor|]. intros _. repeat constructor.
  - split.
    + intros [Hs Hall]%StronglySorted_inv. apply IH in Hs as [Hs Hy].
      apply Forall_app in Hall as [Hall Hzy]. apply Forall_cons in Hzy as [Hzy _].
      split; [by constructor|]. apply Forall_cons. split; assumption.
    + intros [[Hs Hall]%StronglySorted_inv [Hzy Hy]%Forall_cons]. constructor.
      * by apply IH.
      * apply Forall_app. split; [done|by apply Forall_singleton].
Qed.

Lemma insert_right_sorted pre x :
  StronglySorted higher pre -> StronglySorted higher (insert_right pre x).
Proof.
  induction pre as [|y pre IH] using rev_ind; intros Hs; [repeat constructor|].
  rewrite insert_right_snoc. apply sorted_snoc in Hs as [Hs Hy].
  destruct (Z.gtb_spec (priority x) (priority y)) as [Hgt|Hle].
  - apply sorted_snoc. split; [by apply IH|]. rewrite insert_right_perm.
    constructor; [unfold higher; lia|done].
  - change [y; x] with ([y] ++ [x]). rewrite app_assoc. apply sorted_snoc.
    split; [by apply sorted_snoc|]. apply Forall_app. split; [|repeat constructor; unfold higher; lia].
    eapply Forall_impl; [exact Hy|]. unfold higher. intros; lia.
Qed.

(** The insertion sort as a fold. *)
Definition isort (rs : list PolicyRule) : list PolicyRule := foldl insert_right [] rs.

Lemma isort_snoc rs x : isort (rs ++ [x]) = insert_right (isort rs) x.
Proof. unfold isort. by rewrite foldl_snoc. Qed.

Lemma isort_perm rs : isort rs ≡ₚ rs.
Proof.
  induction rs as [|x rs IH] using rev_ind; [done|].
  rewrite isort_snoc, insert_right_perm, IH, Permutation_cons_append. done.
Qed.

Lemma isort_sorted rs : StronglySorted higher (isort rs).
Proof.
  induction rs as [|x rs IH] using rev_ind; [constructor|].
  rewrite isort_snoc. by apply insert_right_sorted.
Qed.

Lemma isort_length rs : length (isort rs) = length rs.
Proof. apply Permutation_length, isort_perm. Qed.

Lemma insert_right_last pre x : Forall (fun z => higher z x) pre -> insert_right pre x = pre ++ [x].
Proof.
  destruct pre as [|y pre _] using rev_ind; [done|]. intros [_ Hy]%Forall_app.
  apply Forall_cons in Hy as [Hy _]. rewrite insert_right_snoc. unfold higher in Hy.
  rewrite Z.gtb_ltb, (proj2 (Z.ltb_ge _ _)) by done. by rewrite <- app_assoc.
Qed.

(** Sorting a sorted list changes nothing. *)
Lemma isort_id rs : StronglySorted higher rs -> isort rs = rs.
Proof.
  induction rs as [|x rs IH] using rev_ind; [done|]. intros [Hs Hx]%sorted_snoc.
  rewrite isort_snoc, IH by done. by apply insert_right_last.
Qed.

(** ** The loops of the engine *)
Lemma arr_get_app {A} (pre : list A) x post :
  arr_get (pre ++ x :: post) (Z.of_nat (length pre)) = Done x.
Proof. apply arr_get_at; [lia|]. rewrite Nat2Z.id. by apply list_lookup_middle. Qed.

Lemma arr_set_app {A} (pre : list A) x y post :
  arr_set (pre ++ x :: post) (Z.of_nat (length pre)) y = Done (pre ++ y :: post).
Proof.
  rewrite arr_set_Done by (rewrite length_app; cbn; lia). f_equal.
  rewrite Nat2Z.id, insert_app_r_alt, Nat.sub_diag by lia. done.
Qed.

Lemma bubble_spec pre x post :
  bubble (length pre) (pre ++ x :: post) = Done (insert_right pre x ++ post).
Proof.
  revert x post. induction pre as [|y pre IH] using rev_ind; intros x post; [done|].
  rewrite length_app, Nat.add_comm. cbn [length Nat.add bubble].
  replace (Z.of_nat (S (length pre))) with (Z.of_nat (length (pre ++ [y])))
    by (rewrite length_app; cbn; lia).
  rewrite arr_get_app. exec_simpl. rewrite <- app_assoc. cbn [app].
  rewrite arr_get_app. exec_simpl. rewrite insert_right_snoc. case_match.
  - change (pre ++ y :: x :: post) with (pre ++ [y] ++ x :: post). rewrite app_assoc, arr_set_app.
    exec_simpl. rewrite <- app_assoc. cbn [app]. rewrite arr_set_app. exec_simpl.
    rewrite IH, <- app_assoc. done.
  - by rewrite <- app_assoc.
Qed.

Lemma sort_from_spec sorted todo post :
  sorted <> [] ->
  sort_from (seq (length sorted) (length todo)) (sorted ++ todo ++ post) =
    Done (foldl insert_right sorted todo ++ post).
Proof.
  revert sorted. induction todo as [|x todo IH]; intros sorted Hne; [done|].
  cbn [length seq sort_from app foldl]. rewrite bubble_spec. exec_simpl.
  assert (length (insert_right sorted x) = S (length sorted)) as Hl.
  { apply (Permutation_length (insert_right_perm sorted x)). }
  rewrite <- Hl. apply IH. intros E. by rewrite E in Hl.
Qed.

Lemma sort_rules_spec rs post :
  sort_rules (rs ++ post) (Z.of_nat (length rs)) = Done (isort rs ++ post).
Proof.
  unfold sort_rules. rewrite Nat2Z.id. destruct rs as [|x rs]; [done|]. cbn [length].
  rewrite Nat.sub_succ, Nat.sub_0_r.
  pose proof (sort_from_spec [x] rs post) as Hs. cbn in Hs |- *. by apply Hs.
Qed.

Lemma copy_rules_spec src pre dst :
  (length src <= length dst)%nat ->
  copy_rules (Z.of_nat (length pre)) src (pre ++ dst) = Done (pre ++ src ++ drop (length src) dst).
Proof.
  revert pre dst. induction src as [|r src IH]; intros pre dst Hl; [by cbn; rewrite drop_0|].
  destruct dst as [|d dst]; cbn in Hl; [lia|]. cbn [copy_rules]. rewrite arr_set_app. exec_simpl.
  replace (Z.of_nat (length pre) + 1) with (Z.of_nat (length (pre ++ [r])))
    by (rewrite length_app; cbn; lia).
  change (pre ++ r :: dst) with (pre ++ [r] ++ dst). rewrite app_assoc, IH by lia.
  by rewrite <- app_assoc.
Qed.

(** ** The invariant of the engine *)
Definition rule_ok (r : PolicyRule) : Prop :=
  0 <= condition_count r <= Z.of_nat (length (conditions r)).

(** The rules in use. *)
Definition active (e : t) : list PolicyRule := take (Z.to_nat (count e)) (rules e).

Record engine_ok (e : t) : Prop := {
  eo_size : Z.of_nat (length (rules e)) = MAX_RULES;
  eo_count : 0 <= count e <= MAX_RULES;
  eo_rules : Forall rule_ok (active e);
  eo_sorted : StronglySorted higher (active e);
}.

Lemma active_length e : Z.of_nat (length (rules e)) = MAX_RULES -> 0 <= count e <= MAX_RULES ->
  length (active e) = Z.to_nat (count e).
Proof. intros. unfold active. rewrite length_take. lia. Qed.

(** An engine given by its active rules. *)
Lemma engine_intro rs post :
  Z.of_nat (length (rs ++ post)) = MAX_RULES -> Forall rule_ok rs ->
  let e := mk (isort rs ++ post) (Z.of_nat (length rs)) in
  engine_ok e /\ active e = isort rs.
Proof.
  intros Hlen Hok e.
  assert (active e = isort rs) as Ha.
  { unfold active, e. cbn. rewrite Nat2Z.id. apply take_app_length'. symmetry; apply isort_length. }
  split; [|done]. rewrite length_app in Hlen. split.
  - cbn. rewrite length_app, isort_length. lia.
  - cbn. lia.
  - by rewrite Ha, isort_perm.
  - rewrite Ha. apply isort_sorted.
Qed.

Lemma load_rules_spec e rs :
  Z.of_nat (length (rules e)) = MAX_RULES -> Forall rule_ok rs ->
  exists e', load_rules e rs = Done e' /\ engine_ok e' /\
    active e' = isort (take (Z.to_nat MAX_RULES) rs).
Proof.
  intros Hlen Hok. unfold load_rules.
  set (n := Z.min (Z.of_nat (length rs)) MAX_RULES). set (src := take (Z.to_nat n) rs).
  assert (Z.of_nat (length src) = n) as Hn by (unfold src, n; rewrite length_take; lia).
  assert (src = take (Z.to_nat MAX_RULES) rs) as Hsrc.
  { unfold src, n. destruct (Z.le_ge_cases (Z.of_nat (length rs)) MAX_RULES).
    - rewrite Z.min_l, Nat2Z.id by done. rewrite !take_ge by lia. done.
    - by rewrite Z.min_r by lia. }
  pose proof (copy_rules_spec src [] (rules e)) as Hc. cbn in Hc.
  change (Z.of_nat 0) with 0 in Hc. rewrite Hc by lia. exec_simpl.
  rewrite <- Hn, sort_rules_spec. exec_simpl. eexists. split; [done|]. rewrite <- Hsrc.
  apply engine_intro; [|by apply Forall_take]. rewrite length_app, length_drop. lia.
Qed.

Lemma add_rule_spec e r :
  engine_ok e -> rule_ok r -> count e < MAX_RULES ->
  exists e', add_rule e r = Done (true, e') /\ engine_ok e' /\
    active e' = insert_right (active e) r.
Proof.
  intros [Hsize Hcount Hok Hsort] Hr Hlt. unfold add_rule.
  rewrite Z.geb_leb, (proj2 (Z.leb_gt _ _)) by done.
  pose proof (active_length e Hsize Hcount) as Hl.
  pose proof (take_drop (Z.to_nat (count e)) (rules e)) as Hrs. fold (active e) in Hrs.
  destruct (drop (Z.to_nat (count e)) (rules e)) as [|d post] eqn:Hd;
    apply (f_equal length) in Hd; rewrite length_drop in Hd; cbn in Hd; [lia|].
  assert (count e = Z.of_nat (length (active e))) as Hcnt by lia.
  pose proof (arr_set_app (active e) d r post) as Hset. rewrite <- Hcnt, Hrs in Hset.
  rewrite Hset. exec_simpl.
  pose proof (sort_rules_spec (active e ++ [r]) post) as Hs. rewrite <- app_assoc, length_app in Hs.
  cbn [app length] in Hs. rewrite Nat2Z.inj_add, <- Hcnt in Hs.
  change (Z.of_nat 1) with 1 in Hs. rewrite Hs. exec_simpl.
  eexists. split; [done|].
  destruct (engine_intro (active e ++ [r]) post) as [He Ha].
  - rewrite !length_app. cbn. lia.
  - apply Forall_app. split; [done|]. by constructor.
  - rewrite length_app, Nat2Z.inj_add, <- Hcnt in He, Ha.
    change (Z.of_nat (length [r])) with 1 in He, Ha. split; [done|].
    rewrite Ha, isort_snoc, isort_id by done. done.
Qed.

Lemma find_name_spec rs k n nm :
  (k + n <= length rs)%nat ->
  exists f, find_name rs (seqZ (Z.of_nat k) (Z.of_nat n)) nm = Done f /\
    match f with
    | Some i => exists j r, i = Z.of_nat j /\ (k <= j < k + n)%nat /\ rs !! j = Some r /\ name r = nm
    | None => forall j r, (k <= j < k + n)%nat -> rs !! j = Some r -> name r <> nm
    end.
Proof.
  revert k. induction n as [|n IH]; intros k Hl; [exists None; split; [done|]; intros; lia|].
  rewrite seqZ_cons by lia. cbn [find_name].
  destruct (lookup_lt_is_Some_2 rs k) as [r Hr]; [lia|].
  rewrite (arr_get_at _ _ r) by (lia || by rewrite Nat2Z.id). exec_simpl.
  destruct (String.eqb_spec (name r) nm) as [E|E].
  - eexists. split; [done|]. exists k, r. split_all; try done; lia.
  - replace (Z.succ (Z.of_nat k)) with (Z.of_nat (S k)) by lia.
    replace (Z.pred (Z.of_nat (S n))) with (Z.of_nat n) by lia.
    destruct (IH (S k)) as (f & -> & Hf); [lia|]. exists f. split; [done|]. destruct f as [i|].
    + destruct Hf as (j & r' & ? & ? & ? & ?). exists j, r'. split_all; try done; lia.
    + intros j r' Hj Hr'. destruct (decide (j = k)) as [->|]; [congruence|]. apply (Hf j r'); [lia|done].
Qed.

Lemma shift_down_spec pre x mid post :
  exists z, shift_down (pre ++ x :: mid ++ post)
      (seqZ (Z.of_nat (length pre)) (Z.of_nat (length mid))) = Done (pre ++ mid ++ z :: post).
Proof.
  revert pre x. induction mid as [|y mid IH]; intros pre x; [by exists x|].
  rewrite seqZ_cons by (cbn; lia). cbn [length shift_down].
  replace (Z.of_nat (length pre) + 1) with (Z.of_nat (length (pre ++ [x])))
    by (rewrite length_app; cbn; lia).
  change (pre ++ x :: (y :: mid) ++ post) with (pre ++ [x] ++ y :: mid ++ post).
  rewrite app_assoc, arr_get_app, <- app_assoc. exec_simpl. cbn [app]. rewrite arr_set_app. exec_simpl.
  change (pre ++ y :: y :: mid ++ post) with (pre ++ [y] ++ y :: mid ++ post). rewrite app_assoc.
  replace (Z.succ (Z.of_nat (length pre))) with (Z.of_nat (length (pre ++ [y])))
    by (rewrite length_app; cbn; lia).
  replace (Z.pred (Z.of_nat (S (length mid)))) with (Z.of_nat (length mid)) by lia.
  destruct (IH (pre ++ [y]) y) as [z ->]. exists z. by rewrite <- app_assoc.
Qed.

Lemma sorted_sub (pre : list PolicyRule) x post :
  StronglySorted higher (pre ++ x :: post) -> StronglySorted higher (pre ++ post).
Proof.
  induction pre as [|y pre IH]; cbn; [by intros [? _]%StronglySorted_inv|].
  intros [Hs Hall]%StronglySorted_inv. constructor; [by apply IH|].
  apply Forall_app in Hall as [? [_ ?]%Forall_cons]. by apply Forall_app.
Qed.

Lemma remove_rule_spec e nm : engine_ok e ->
  exists b e', remove_rule e nm = Done (b, e') /\ engine_ok e' /\
    if b then exists pre r post, active e = pre ++ r :: post /\ name r = nm /\ active e' = pre ++ post
    else e' = e /\ forall r, r ∈ active e -> name r <> nm.
Proof.
  intros He. pose proof He as [Hsize Hcount Hok Hsort]. unfold remove_rule.
  pose proof (active_length e Hsize Hcount) as Hl.
  destruct (find_name_spec (rules e) 0 (Z.to_nat (count e)) nm) as (f & Hf & Hres); [lia|].
  rewrite Z2Nat.id in Hf by lia. change (Z.of_nat 0) with 0 in Hf. rewrite Hf. exec_simpl.
  destruct f as [i|].
  - destruct Hres as (j & r & -> & Hj & Hr & Hn).
    assert (active e !! j = Some r) as Hact by (unfold active; rewrite lookup_take_lt by lia; done).
    pose proof (take_drop_middle _ _ _ Hact) as Hsplit.
    set (pre := take j (active e)) in *. set (mid := drop (S j) (active e)) in *.
    set (post := drop (Z.to_nat (count e)) (rules e)).
    assert (rules e = pre ++ r :: mid ++ post) as Hrs.
    { rewrite <- (take_drop (Z.to_nat (count e)) (rules e)). fold (active e) post.
      rewrite <- Hsplit at 1. by rewrite <- app_assoc. }
    assert (length pre = j) as Hpre by (unfold pre; rewrite length_take; lia).
    assert (length mid = Z.to_nat (count e) - S j)%nat as Hmid by (unfold mid; rewrite length_drop; lia).
    destruct (shift_down_spec pre r mid post) as [z Hsh]. rewrite Hpre, Hmid in Hsh.
    replace (count e - 1 - Z.of_nat j) with (Z.of_nat (Z.to_nat (count e) - S j)) by lia.
    rewrite Hrs, Hsh. exec_simpl. rewrite app_assoc.
    replace (count e - 1) with (Z.of_nat (length (pre ++ mid))) by (rewrite length_app; lia).
    rewrite arr_set_app. exec_simpl. eexists true, _. split; [done|].
    assert (active (mk ((pre ++ mid) ++ empty_rule :: post) (Z.of_nat (length (pre ++ mid)))) = pre ++ mid)
      as Ha by (unfold active; cbn; rewrite Nat2Z.id; by apply take_app_length').
    split; [split|].
    + cbn. rewrite Hrs in Hsize. rewrite !length_app in *. cbn in *. rewrite length_app in Hsize. lia.
    + cbn. rewrite length_app. lia.
    + rewrite Ha. rewrite <- Hsplit in Hok. apply Forall_app in Hok as [? [_ ?]%Forall_cons].
      by apply Forall_app.
    + rewrite Ha. rewrite <- Hsplit in Hsort. by eapply sorted_sub.
    + exists pre, r, mid. by rewrite Ha.
  - exists false, e. split_all; try done. intros r [j Hj]%list_elem_of_lookup.
    pose proof (lookup_lt_Some _ _ _ Hj). unfold active in Hj. rewrite lookup_take_lt in Hj by lia.
    by apply (Hres j r); [lia|].
Qed.

(** ** Evaluation *)
Definition matchesb (ctx : EvalContext.t) (r : PolicyRule) : bool :=
  forallb (fun c => cond_evaluate c ctx) (take (Z.to_nat (condition_count r)) (conditions r)).

Lemma matches_loop_spec cs k n ctx :
  (k + n <= length cs)%nat ->
  matches_loop cs (seqZ (Z.of_nat k) (Z.of_nat n)) ctx =
    Done (forallb (fun c => cond_evaluate c ctx) (take n (drop k cs))).
Proof.
  revert k. induction n as [|n IH]; intros k Hl; [done|].
  rewrite seqZ_cons by lia. cbn [matches_loop].
  destruct (drop k cs) as [|c rest] eqn:Hd.
  { apply (f_equal length) in Hd. rewrite length_drop in Hd. cbn in Hd. lia. }
  assert (cs !! k = Some c) as Hk.
  { rewrite <- (Nat.add_0_r k), <- lookup_drop, Hd. done. }
  rewrite (arr_get_at _ _ c) by (lia || by rewrite Nat2Z.id). exec_simpl. cbn [take forallb].
  destruct (cond_evaluate c ctx); [|done]. cbn [andb].
  replace (Z.succ (Z.of_nat k)) with (Z.of_nat (S k)) by lia.
  replace (Z.pred (Z.of_nat (S n))) with (Z.of_nat n) by lia. rewrite IH by lia.
  replace (drop (S k) cs) with rest; [done|].
  rewrite <- Nat.add_1_r, <- drop_drop, Hd. done.
Qed.

Lemma matches_spec r ctx : rule_ok r -> matches r ctx = Done (matchesb ctx r).
Proof.
  intros Hr. unfold matches, matchesb, rule_ok in *.
  pose proof (matches_loop_spec (conditions r) 0 (Z.to_nat (condition_count r)) ctx) as Hm.
  rewrite Z2Nat.id in Hm by lia. change (Z.of_nat 0) with 0 in Hm. rewrite drop_0 in Hm.
  rewrite Hm by lia. done.
Qed.

Lemma first_match_spec rs k n ctx :
  (k + n <= length rs)%nat -> Forall rule_ok (take n (drop k rs)) ->
  first_match rs (seqZ (Z.of_nat k) (Z.of_nat n)) ctx =
    Done (List.find (matchesb ctx) (take n (drop k rs))).
Proof.
  revert k. induction n as [|n IH]; intros k Hl Hok; [done|].
  rewrite seqZ_cons by lia. cbn [first_match].
  destruct (drop k rs) as [|r rest] eqn:Hd.
  { apply (f_equal length) in Hd. rewrite length_drop in Hd. cbn in Hd. lia. }
  assert (rs !! k = Some r) as Hk.
  { rewrite <- (Nat.add_0_r k), <- lookup_drop, Hd. done. }
  rewrite (arr_get_at _ _ r) by (lia || by rewrite Nat2Z.id). exec_simpl. cbn [take List.find] in *.
  apply Forall_cons in Hok as [Hr Hok]. rewrite matches_spec by done. exec_simpl.
  destruct (matchesb ctx r); [done|].
  replace (Z.succ (Z.of_nat k)) with (Z.of_nat (S k)) by lia.
  replace (Z.pred (Z.of_nat (S n))) with (Z.of_nat n) by lia.
  assert (drop (S k) rs = rest) as Hrest by (rewrite <- Nat.add_1_r, <- drop_drop, Hd; done).
  rewrite IH; rewrite ?Hrest; [done|lia|done].
Qed.

Lemma engine_first_match e ctx : engine_ok e ->
  first_match (rules e) (seqZ 0 (count e)) ctx = Done (List.find (matchesb ctx) (active e)).
Proof.
  intros [Hsize Hcount Hok _].
  pose proof (first_match_spec (rules e) 0 (Z.to_nat (count e)) ctx) as Hf.
  rewrite Z2Nat.id in Hf by lia. change (Z.of_nat 0) with 0 in Hf. unfold active. rewrite drop_0 in Hf. apply Hf; [lia|done].
Qed.

Lemma find_highest (f : PolicyRule -> bool) rs r :
  StronglySorted higher rs -> List.find f rs = Some r ->
  r ∈ rs /\ f r = true /\ forall r', r' ∈ rs -> f r' = true -> priority r' <= priority r.
Proof.
  induction 1 as [|x rs Hs IH Hall]; cbn; [done|]. destruct (f x) eqn:Hx.
  - intros [= <-]. split_all; [left|done|]. intros r' [->|Hr']%elem_of_cons _; [lia|].
    rewrite Forall_forall in Hall. by apply Hall.
  - intros Hf. destruct (IH Hf) as (Hin & Hr & Hmax). split_all; [by right|done|].
    intros r' [->|Hr']%elem_of_cons Hfr; [congruence|by apply Hmax].
Qed.

Lemma find_none (f : PolicyRule -> bool) rs :
  List.find f rs = None -> forall r, r ∈ rs -> f r = false.
Proof.
  induction rs as [|x rs IH]; cbn; [intros _ r []%elem_of_nil|]. destruct (f x) eqn:Hx; [done|].
  intros Hf r [->|Hr]%elem_of_cons; [done|by apply IH].
Qed.

End RuleSpec.
