(* ===== verification/GovTheorems.v ===== *)
(** * Theorems on governance

    The rule engine evaluates by priority; the genesis constitution is a fixed
    decision table; the policy check in front of the bus follows it; the
    authority machine and the break-glass bypass run on their timelines. *)

From Stdlib Require Import Sorted.
From S2P Require Import Prelude Wire Crypto CapStore Router Governance GovSpec.

Module RuleTheorems.
Import RuleEngine RuleSpec.

(** The rules stay sorted. Whatever the array held, [load_rules] copies at
    most 64 rules and leaves exactly those active, a permutation in descending
    priority in which equal priorities keep their order. Afterwards a rule is
    added in its place unless 64 are loaded, and removal by name takes out one
    rule of that name and nothing else, or reports that there is none. *)
Theorem rules_stay_sorted :
  (forall e rs, Z.of_nat (length (rules e)) = MAX_RULES -> Forall rule_ok rs ->
   exists e', load_rules e rs = Done e' /\ engine_ok e' /\
     active e' = isort (take (Z.to_nat MAX_RULES) rs) /\
     active e' ≡ₚ take (Z.to_nat MAX_RULES) rs /\ StronglySorted higher (active e')) /\
  (forall e r nm, engine_ok e -> rule_ok r ->
   (exists b e', add_rule e r = Done (b, e') /\ engine_ok e' /\
      (b = true <-> count e < MAX_RULES) /\ (b = true -> active e' ≡ₚ r :: active e) /\
      (b = false -> e' = e)) /\
   (exists b e', remove_rule e nm = Done (b, e') /\ engine_ok e' /\
      if b then exists pre x post, active e = pre ++ x :: post /\ name x = nm /\ active e' = pre ++ post
      else e' = e /\ forall x, x ∈ active e -> name x <> nm)).
Proof.
  split.
  - intros e rs Hl Hok. destruct (load_rules_spec e rs Hl Hok) as (e' & Hload & He & Ha).
    exists e'. split_all; try done; [by rewrite Ha, isort_perm|apply He].
  - intros e r nm He Hr. split; [|by apply remove_rule_spec].
    destruct (Z.lt_ge_cases (count e) MAX_RULES) as [Hlt|Hge].
    + destruct (add_rule_spec e r He Hr Hlt) as (e' & Ha & He' & Hact).
      exists true, e'. split_all; try done. intros _. rewrite Hact. apply insert_right_perm.
    + exists false, e. unfold add_rule. rewrite Z.geb_leb, (proj2 (Z.leb_le _ _)) by done.
      split_all; try done. lia.
Qed.

(** The highest-priority matching rule decides: evaluation returns, and
    either no active rule matches and the default is to allow, or it answers
    with the action of an active matching rule whose priority no other
    matching rule exceeds. *)
Theorem highest_priority_match_decides e ctx :
  engine_ok e ->
  exists a nm, evaluate_with_action e ctx = Done (a, nm) /\
    ((a = RuleAction.Allow /\ forall r, r ∈ active e -> matchesb ctx r = false) \/
     exists r, r ∈ active e /\ matchesb ctx r = true /\ a = action r /\ nm = name r /\
       forall r', r' ∈ active e -> matchesb ctx r' = true -> priority r' <= priority r).
Proof.
  intros He. unfold evaluate_with_action. rewrite engine_first_match by done. exec_simpl.
  destruct (List.find (matchesb ctx) (active e)) as [r|] eqn:Hf; eexists _, _; (split; [done|]).
  - right. destruct (find_highest _ _ _ (eo_sorted _ He) Hf) as (? & ? & ?). by exists r.
  - left. split; [done|]. by apply find_none.
Qed.

Lemma empty_rule_ok : rule_ok empty_rule.
Proof. unfold rule_ok. cbn. lia. Qed.

Lemma genesis_ok : Forall rule_ok Constitution.genesis_rules.
Proof. repeat (constructor; [unfold rule_ok; cbn; lia|]). constructor. Qed.

Definition demo_engine : t := mk (replicate (Z.to_nat MAX_RULES) empty_rule) 0.

Lemma demo_engine_ok : engine_ok demo_engine.
Proof. split; [reflexivity|cbn; unfold MAX_RULES; lia|constructor|constructor]. Qed.

Lemma rules_stay_sorted_witness :
  exists e', load_rules new Constitution.genesis_rules = Done e' /\
    StronglySorted higher (active e') /\ length (active e') = 10%nat /\
    exists b e'', add_rule demo_engine empty_rule = Done (b, e'') /\ engine_ok e''.
Proof.
  destruct (proj1 rules_stay_sorted new Constitution.genesis_rules) as (e' & Hl & _ & _ & Hp & Hs);
    [reflexivity|apply genesis_ok|].
  destruct (proj2 rules_stay_sorted demo_engine empty_rule "x" demo_engine_ok empty_rule_ok)
    as [(b & e'' & Ha & He & _) _].
  exists e'. split_all; [exact Hl|exact Hs|apply (Permutation_length Hp)|].
  exists b, e''. exact (conj Ha He).
Defined.

Definition demo_ctx : EvalContext.t :=
  EvalContext.mk 5 3 1 0 0 4 SafetyState.Normal AcsState.Active false.

Lemma highest_priority_match_decides_witness :
  exists a nm, evaluate_with_action demo_engine demo_ctx = Done (a, nm).
Proof.
  destruct (highest_priority_match_decides demo_engine demo_ctx demo_engine_ok) as (a & nm & Ha & _).
  exists a, nm. exact Ha.
Defined.

End RuleTheorems.

(** ** The genesis constitution *)
Module ConstitutionTheorems.
Import RuleEngine RuleSpec RuleTheorems Constitution.

(** The decision of the genesis rules, as a table. *)
Definition constitution_action (ctx : EvalContext.t) : RuleAction.t :=
  let s := SafetyState.as_u8 (EvalContext.safety_state ctx) in
  let p := EvalContext.sender_priority ctx in
  if EvalContext.sender_pid ctx =? 1 then RuleAction.Allow
  else if EvalContext.sender_pid ctx =? 0 then RuleAction.DenyAndLog
  else if 4 <=? s then RuleAction.DenyAndLog
  else if bool_decide (EvalContext.acs_state ctx = AcsState.Emergency) then RuleAction.EscalateToChaos
  else if (3 <=? s) && (p <? 4) then RuleAction.DenyAndLog
  else if (1 <=? s) && (p <? 2) then RuleAction.Deny
  else if 2 <=? s then RuleAction.AllowIfCapValid
  else if EvalContext.resource_kind ctx =? 3 then RuleAction.AllowIfCapValid
  else if EvalContext.resource_kind ctx =? 6 then RuleAction.AllowIfCapValid
  else RuleAction.Allow.

(** The engine runs the genesis rules and no others. *)
Definition genesis_engine (e : t) : Prop := engine_ok e /\ active e = isort genesis_rules.

Lemma genesis_loaded e : Z.of_nat (length (rules e)) = MAX_RULES ->
  exists e', load_rules e genesis_rules = Done e' /\ genesis_engine e'.
Proof.
  intros Hl. destruct (load_rules_spec e genesis_rules Hl genesis_ok) as (e' & ? & ? & Ha).
  exists e'. split; [done|]. split; [done|]. by rewrite Ha.
Qed.

Lemma genesis_order : name <$> isort genesis_rules =
  ["butler-unrestricted"; "deny-kernel-spoof"; "lockdown-deny-all"; "acs-emergency-escalate";
   "chaos-critical-only"; "elevated-throttle-low"; "safe-state-allow"; "device-access-gated";
   "council-escalation"; "normal-default-allow"].
Proof. reflexivity. Qed.

(** The conditions of the genesis rules, without the casts. *)
Lemma acs_emergency a : (AcsState.as_u8 a =? 3) = bool_decide (a = AcsState.Emergency).
Proof. by destruct a. Qed.

Lemma genesis_find ctx :
  action <$> List.find (matchesb ctx) (isort genesis_rules) = Some (constitution_action ctx).
Proof.
  destruct ctx as [s r m c k p sf ac esc].
  let l := eval vm_compute in (isort genesis_rules) in change (isort genesis_rules) with l.
  unfold constitution_action, matchesb. cbn [List.find condition_count conditions].
  change (Z.to_nat 1) with 1%nat. change (Z.to_nat 2) with 2%nat. change (Z.to_nat 3) with 3%nat.
  cbn -[SafetyState.as_u8 AcsState.as_u8 Z.eqb Z.leb Z.ltb Z.geb wrap].
  change (wrap 32 1) with 1. change (wrap 32 0) with 0. change (wrap 8 4) with 4.
  change (wrap 8 3) with 3. change (wrap 8 1) with 1. change (wrap 8 2) with 2.
  change (wrap 16 3) with 3. change (wrap 16 6) with 6.
  rewrite acs_emergency, !Z.geb_leb. generalize (SafetyState.as_u8 sf). intros z.
  destruct (s =? 1); cbn [andb negb]; [done|]. rewrite !andb_true_r.
  destruct (s =? 0); cbn [andb]; [done|].
  destruct (4 <=? z); [done|]. destruct (bool_decide (ac = AcsState.Emergency)); [done|].
  cbn [andb].
  destruct ((3 <=? z) && (p <? 4)); [done|]. destruct ((1 <=? z) && (p <? 2)); [done|].
  destruct (2 <=? z); [done|]. destruct (k =? 3); [done|]. by destruct (k =? 6).
Qed.

End ConstitutionTheorems.

(** ** The policy check *)
Module PolicyTheorems.
Import RuleSpec RuleTheorems ConstitutionTheorems GovernanceEngine.

(** Once initialised, the engine runs the genesis constitution. *)
Definition gov_ok (g : t) : Prop :=
  Z.of_nat (length (RuleEngine.rules (rules g))) = RuleEngine.MAX_RULES /\
  (initialized g = true -> genesis_engine (rules g)).

Lemma gov_new_ok : gov_ok new.
Proof. split; [reflexivity|done]. Qed.

Lemma condition_bytes_done cs k n :
  (k + n <= length cs)%nat ->
  exists b, Constitution.condition_bytes cs (seqZ (Z.of_nat k) (Z.of_nat n)) = Done b.
Proof.
  revert k. induction n as [|n IH]; intros k Hl; [by eexists|].
  rewrite seqZ_cons by lia. cbn [Constitution.condition_bytes].
  destruct (lookup_lt_is_Some_2 cs k) as [c Hc]; [lia|].
  rewrite (arr_get_at _ _ c) by (lia || by rewrite Nat2Z.id). exec_simpl.
  replace (Z.succ (Z.of_nat k)) with (Z.of_nat (S k)) by lia.
  replace (Z.pred (Z.of_nat (S n))) with (Z.of_nat n) by lia.
  destruct (IH (S k)) as [b ->]; [lia|]. by eexists.
Qed.

Lemma constitution_bytes_done rs : Forall rule_ok rs ->
  exists b, Constitution.constitution_bytes rs = Done b.
Proof.
  induction 1 as [|r rs Hr _ [b IH]]; [by eexists|]. cbn. unfold Constitution.rule_bytes, rule_ok in *.
  destruct (condition_bytes_done (RuleEngine.conditions r) 0 (Z.to_nat (RuleEngine.condition_count r)))
    as [cb Hcb]; [lia|].
  rewrite Z2Nat.id in Hcb by lia. change (Z.of_nat 0) with 0 in Hcb. rewrite Hcb. exec_simpl.
  rewrite IH. by eexists.
Qed.

Lemma genesis_hash `{Sha3} :
  exists h, Constitution.compute_constitution_hash Constitution.genesis_rules = Done h.
Proof.
  unfold Constitution.compute_constitution_hash.
  destruct (constitution_bytes_done _ genesis_ok) as [b ->]. by eexists.
Qed.

Lemma gov_init_ok `{Sha3} g : gov_ok g ->
  exists g', init g = Done g' /\ gov_ok g' /\ initialized g' = true.
Proof.
  intros [Hl _]. unfold init. destruct (genesis_loaded (rules g) Hl) as (e & -> & He). exec_simpl.
  destruct genesis_hash as [h ->]. exec_simpl. eexists. split; [done|]. split; [|done].
  split; [apply He|done].
Qed.

Lemma with_machines_ok g s a b k : gov_ok g -> gov_ok (with_machines g s a b k).
Proof. done. Qed.

Lemma with_counts_ok g e d b : gov_ok g -> gov_ok (with_counts g e d b).
Proof. done. Qed.

(** Whether the check lets a message through. *)
Definition policy_allows (g : t) (h : MessageHeader.t) (sender_priority : option Z) : bool :=
  let s := SafetyState.as_u8 (Safety.state (safety g)) in
  let p := from_option (fun p => p) 0 sender_priority in
  negb (initialized g) || BreakGlass.is_active (break_glass g) ||
  (MessageHeader.sender h =? 1) ||
  (negb (MessageHeader.sender h =? 0) && negb (4 <=? s) &&
   negb (bool_decide (Acs.state (acs g) = AcsState.Emergency)) &&
   negb ((3 <=? s) && (p <? 4)) && negb ((1 <=? s) && (p <? 2))).

Definition verdict_of (allowed : bool) : result unit BusRouter.BusError :=
  if allowed then Ok tt else Err BusRouter.PolicyDenied.

Lemma genesis_action e ctx : genesis_engine e ->
  exists nm, RuleEngine.evaluate_with_action e ctx = Done (constitution_action ctx, nm).
Proof.
  intros [He Ha]. unfold RuleEngine.evaluate_with_action. rewrite engine_first_match by done.
  exec_simpl. pose proof (genesis_find ctx) as Hf. rewrite Ha.
  destruct (List.find _ _) as [r|]; [|done]. cbn in Hf. injection Hf as <-. by eexists.
Qed.

Lemma genesis_verdict e ctx : genesis_engine e ->
  exists nm b, RuleEngine.evaluate e ctx =
    Done (RuleEngine.verdict (RuleEngine.mkRule EmptyString 0 0 [] (constitution_action ctx)), nm, b).
Proof.
  intros [He Ha]. unfold RuleEngine.evaluate. rewrite engine_first_match by done.
  exec_simpl. pose proof (genesis_find ctx) as Hf. rewrite Ha.
  destruct (List.find _ _) as [r|]; [|done]. cbn in Hf. injection Hf as <-. by eexists _, _.
Qed.

(** The state in which an emergency of the authority machine is noticed. *)
Definition escalates (g : t) (h : MessageHeader.t) : bool :=
  initialized g && negb (BreakGlass.is_active (break_glass g)) &&
  negb (MessageHeader.sender h =? 1) && negb (MessageHeader.sender h =? 0) &&
  negb (4 <=? SafetyState.as_u8 (Safety.state (safety g))) &&
  bool_decide (Acs.state (acs g) = AcsState.Emergency).

Lemma policy_spec {C} `{Tier2Council C} (c : C) g h sender_priority resource :
  gov_ok g ->
  exists g', evaluate_policy g c h sender_priority resource =
      Done (verdict_of (policy_allows g h sender_priority), g', c) /\
    gov_ok g' /\ acs g' = acs g /\ initialized g' = initialized g /\
    Safety.state (safety g') =
      if escalates g h then SafetyState.Chaos else Safety.state (safety g).
Proof.
  intros Hg. unfold evaluate_policy, policy_allows, escalates.
  destruct (initialized g) eqn:Hin; cbn [negb orb andb]; [|by exists g].
  destruct (BreakGlass.is_active (break_glass g)); cbn [negb orb andb]; [by eexists|].
  pose proof Hg as [_ Hge]. specialize (Hge Hin).
  destruct (genesis_action (rules g) (context g h sender_priority resource) Hge) as [nm ->].
  exec_simpl. cbn [fst]. unfold constitution_action, context.
  cbn [EvalContext.sender_pid EvalContext.safety_state EvalContext.acs_state
       EvalContext.sender_priority EvalContext.resource_kind].
  set (s := SafetyState.as_u8 (Safety.state (safety g))).
  set (p := from_option (fun p => p) 0 sender_priority).
  destruct (Z.eqb_spec (MessageHeader.sender h) 1) as [E1|E1]; cbn [negb orb andb]; [by eexists|].
  destruct (Z.eqb_spec (MessageHeader.sender h) 0) as [E0|E0]; cbn [negb orb andb]; [by eexists|].
  destruct (4 <=? s) eqn:H4; cbn [negb andb]; [by eexists|].
  case_bool_decide as Hem; cbn [negb andb].
  - set (g1 := with_machines _ _ _ _ _).
    destruct (genesis_verdict (rules g1) (with_safety (EvalContext.mk (MessageHeader.sender h)
      (MessageHeader.receiver h) (MessageHeader.msg_type h) (MessageHeader.capability_id h)
      (match resource with Some r => ResourceId.kind r | None => 0 end) p
      (Safety.state (safety g)) (Acs.state (acs g)) false) (Safety.state (safety g1))) Hge)
      as (nm' & b & ->).
    exec_simpl. cbn [fst].
    assert (Safety.state (safety g1) = SafetyState.Chaos) as Hch.
    { cbn. unfold Safety.force_state, Safety.transition_to. case_bool_decide; done. }
    unfold constitution_action, with_safety.
    cbn [EvalContext.sender_pid EvalContext.safety_state EvalContext.acs_state].
    rewrite Hch, (proj2 (Z.eqb_neq _ _) E1), (proj2 (Z.eqb_neq _ _) E0), bool_decide_true by done.
    cbn. eexists. split; [done|]. by split_all.
  - destruct ((3 <=? s) && (p <? 4)); cbn [negb andb]; [by eexists|].
    destruct ((1 <=? s) && (p <? 2)); cbn [negb andb]; [by eexists|].
    destruct (2 <=? s); [by eexists|].
    destruct (_ =? 3); [by eexists|]. destruct (_ =? 6); by eexists.
Qed.

(** C22. The policy check decides by the constitution: with the genesis rules
    the check always returns; it lets everything through before initialisation
    and during break-glass; otherwise the Butler (process 1) is always allowed,
    process 0 never, and anyone else unless the system is in Lockdown, the
    authority machine is in Emergency, or the sender's priority is below 4 in
    Chaos or below 2 in a state above Normal.  The council is never consulted,
    and the safety state changes only when an emergency is noticed, to Chaos. *)
Theorem policy_follows_constitution {C} `{Tier2Council C} (c : C) g h sender_priority resource :
  gov_ok g ->
  exists g', evaluate_policy g c h sender_priority resource =
      Done (verdict_of (policy_allows g h sender_priority), g', c) /\
    gov_ok g' /\ acs g' = acs g /\ initialized g' = initialized g /\
    Safety.state (safety g') =
      if escalates g h then SafetyState.Chaos else Safety.state (safety g).
Proof. apply policy_spec. Qed.

#[local] Instance no_council : Tier2Council unit := {| evaluate_tier2 c _ := (PolicyVerdict.Deny, c) |}.

#[local] Existing Instance ToyHash.sha3.

Definition booted : t := match init new with Done g => g | _ => new end.

Lemma booted_ok : gov_ok booted /\ initialized booted = true.
Proof. unfold booted. destruct (gov_init_ok new gov_new_ok) as (g & -> & ? & ?). done. Qed.

Definition kernel_msg : MessageHeader.t := MessageHeader.mk 1 5 0 3 0 0 1 0 0 (replicate 16 0).

Lemma policy_follows_constitution_witness :
  exists g', evaluate_policy booted tt kernel_msg None None =
    Done (Err BusRouter.PolicyDenied, g', tt).
Proof.
  destruct (policy_follows_constitution tt booted kernel_msg None None (proj1 booted_ok))
    as (g' & He & _).
  exists g'. rewrite He. replace (policy_allows booted kernel_msg None) with false; [reflexivity|].
  vm_compute. reflexivity.
Defined.

End PolicyTheorems.

(** ** The timelines *)
Module TimelineTheorems.
Import GovernanceEngine PolicyTheorems.

(** Where the authority machine stands [n] ticks after the last heartbeat. *)
Definition acs_at (alternate : bool) (n : Z) : AcsState.t :=
  if n <? Acs.DEGRADED_THRESHOLD_TICKS then AcsState.Active
  else if Acs.EMERGENCY_THRESHOLD_TICKS <=? n then AcsState.Emergency
  else if alternate && (Acs.CONTINGENCY_THRESHOLD_TICKS <=? n) then AcsState.Contingency
  else AcsState.Degraded.

(** The engine [n] ticks after a heartbeat at tick [k], with no intervention. *)
Record unattended (g : t) (alt : bool) (k n : Z) : Prop := {
  ua_tick : current_tick g = k + n;
  ua_beat : Acs.last_heartbeat_tick (acs g) = k;
  ua_alt : Acs.alternate_exists (acs g) = alt;
  ua_flag : Acs.emergency_triggered (acs g) = false;
  ua_state : Acs.state (acs g) = acs_at alt n;
  ua_lock : Acs.EMERGENCY_THRESHOLD_TICKS <= n -> Safety.state (safety g) = SafetyState.Lockdown;
  ua_quiet : n < Acs.EMERGENCY_THRESHOLD_TICKS -> BreakGlass.active (break_glass g) = false;
  ua_open : n = Acs.EMERGENCY_THRESHOLD_TICKS -> BreakGlass.active (break_glass g) = true;
}.

Lemma acs_step a k n alt :
  Acs.last_heartbeat_tick a = k -> Acs.alternate_exists a = alt -> Acs.state a = acs_at alt n ->
  Acs.emergency_triggered a = false -> 0 <= n ->
  let a' := Acs.tick a (k + n + 1) in
  Acs.state a' = acs_at alt (n + 1) /\ Acs.last_heartbeat_tick a' = k /\
  Acs.alternate_exists a' = alt /\
  Acs.emergency_triggered a' = (n + 1 =? Acs.EMERGENCY_THRESHOLD_TICKS).
Proof.
  intros Hb Ha Hs Hf Hn a'. subst a'. unfold Acs.tick. rewrite Hb, Ha.
  assert (sat_sub (k + n + 1) k = n + 1) as -> by (unfold sat_sub; lia).
  assert (Acs.DEGRADED_THRESHOLD_TICKS < Acs.CONTINGENCY_THRESHOLD_TICKS
          < Acs.EMERGENCY_THRESHOLD_TICKS) as Hord by done.
  unfold acs_at, Acs.transition_to, Acs.with_trigger in *. revert Hs Hord.
  generalize Acs.DEGRADED_THRESHOLD_TICKS Acs.CONTINGENCY_THRESHOLD_TICKS
    Acs.EMERGENCY_THRESHOLD_TICKS. intros d c e Hs Hord.
  destruct (Z.ltb_spec n d); destruct (Z.ltb_spec (n + 1) d); try lia;
    destruct (Z.leb_spec e n); try lia; destruct (Z.leb_spec e (n + 1)); try lia;
    destruct (Z.leb_spec c n); try lia; destruct (Z.leb_spec c (n + 1)); try lia;
    destruct (Z.geb_spec (n + 1) d); try lia; destruct (Z.geb_spec (n + 1) c); try lia;
    destruct (Z.geb_spec (n + 1) e); try lia; destruct (Z.eqb_spec (n + 1) e); try lia;
    destruct alt; cbn in Hs |- *; rewrite Hs; cbn; by split_all.
Qed.

Lemma safety_lockdown_stays s k : Safety.state s = SafetyState.Lockdown -> Safety.tick s k = s.
Proof. intros E. unfold Safety.tick. by rewrite E. Qed.

Lemma unattended_step g alt k n :
  unattended g alt k n -> 0 <= k -> 0 <= n ->
  k + n + 1 + BreakGlass.BREAK_GLASS_EXPIRY_TICKS < 2 ^ 64 ->
  unattended (tick g) alt k (n + 1).
Proof.
  intros [Ht Hb Ha Hf Hs Hl Hq Ho] Hk Hn Hroom.
  assert (BreakGlass.BREAK_GLASS_EXPIRY_TICKS = 60000) as HE by done.
  assert (u64_add (current_tick g) 1 = k + n + 1) as Hk1 by (rewrite Ht, u64_add_small; lia).
  destruct (acs_step (acs g) k n alt Hb Ha Hs Hf Hn) as (Hs' & Hb' & Ha' & Hf').
  unfold tick. rewrite Hk1. unfold Acs.take_emergency_trigger. rewrite Hf'. cbn zeta.
  set (s := if n + 1 =? Acs.EMERGENCY_THRESHOLD_TICKS then _ else _).
  assert (Acs.EMERGENCY_THRESHOLD_TICKS <= n + 1 -> Safety.state s = SafetyState.Lockdown) as Hlock.
  { intros Hge. unfold s. destruct (Z.eqb_spec (n + 1) Acs.EMERGENCY_THRESHOLD_TICKS).
    - unfold Safety.force_lockdown, Safety.transition_to. by case_bool_decide.
    - rewrite safety_lockdown_stays; apply Hl; lia. }
  split; cbn [with_machines current_tick acs safety break_glass Acs.with_trigger Acs.state
    Acs.last_heartbeat_tick Acs.alternate_exists Acs.emergency_triggered]; try done; try lia.
  - intros Hlt. unfold BreakGlass.check_and_activate. rewrite Hq by lia.
    rewrite Hs', (bool_decide_false (acs_at alt (n + 1) = AcsState.Emergency)).
    + rewrite andb_false_r. cbn. unfold BreakGlass.check_expiry. rewrite Hq by lia. cbn.
      unfold BreakGlass.check_recovery. rewrite Hq by lia. cbn. apply Hq. lia.
    + unfold acs_at. rewrite (proj2 (Z.leb_gt _ _) Hlt). repeat case_match; done.
  - intros Heq. unfold BreakGlass.check_and_activate. rewrite Hq by lia.
    rewrite Hlock, Hs' by lia. rewrite !bool_decide_true; [|by unfold acs_at; rewrite Heq|done].
    cbn [andb snd]. unfold BreakGlass.activate. rewrite u64_add_small by lia.
    unfold BreakGlass.check_expiry. cbn [BreakGlass.active BreakGlass.expiry_tick andb].
    rewrite Z.geb_leb, (proj2 (Z.leb_gt _ _)) by lia. done.
Qed.

Lemma unattended_run g alt k n :
  unattended g alt k 0 -> 0 <= k ->
  k + Z.of_nat n + BreakGlass.BREAK_GLASS_EXPIRY_TICKS < 2 ^ 64 ->
  unattended (advance_ticks g n) alt k (Z.of_nat n).
Proof.
  intros H0 Hk. unfold advance_ticks. induction n as [|n IH]; intros Hroom; [done|].
  cbn [Nat.iter nat_rect]. replace (Z.of_nat (S n)) with (Z.of_nat n + 1) by lia.
  apply unattended_step; [apply IH; lia|lia|lia|lia].
Qed.

(** A heartbeat was just received, no emergency is pending and break-glass is off. *)
Definition attended (g : t) (alt : bool) : Prop :=
  0 <= current_tick g /\ Acs.last_heartbeat_tick (acs g) = current_tick g /\
  Acs.alternate_exists (acs g) = alt /\ Acs.emergency_triggered (acs g) = false /\
  Acs.state (acs g) = AcsState.Active /\ BreakGlass.active (break_glass g) = false.

Lemma attended_start g alt : attended g alt -> unattended g alt (current_tick g) 0.
Proof.
  intros (Hk & Hb & Ha & Hf & Hs & Hg). split; try done; try lia.
Qed.

(** The dead-man switch: [n] ticks after the last heartbeat, with no
    intervention, the authority machine is Active below one hour (3,600,000
    ticks), then Degraded, from two hours on Contingency if an alternate
    authority exists, and from four hours on Emergency; and from four hours on
    the safety state is Lockdown. *)
Theorem dead_man_switch g alt n :
  attended g alt ->
  current_tick g + Z.of_nat n + BreakGlass.BREAK_GLASS_EXPIRY_TICKS < 2 ^ 64 ->
  Acs.state (acs (advance_ticks g n)) = acs_at alt (Z.of_nat n) /\
  (Acs.EMERGENCY_THRESHOLD_TICKS <= Z.of_nat n ->
     Safety.state (safety (advance_ticks g n)) = SafetyState.Lockdown).
Proof.
  intros Hat Hroom. pose proof Hat as [Hk _].
  destruct (unattended_run g alt (current_tick g) n (attended_start g alt Hat) Hk Hroom).
  split; done.
Qed.

Lemma bypass_at_emergency g alt h sender_priority :
  attended g alt ->
  current_tick g + Acs.EMERGENCY_THRESHOLD_TICKS + BreakGlass.BREAK_GLASS_EXPIRY_TICKS < 2 ^ 64 ->
  policy_allows (advance_ticks g (Z.to_nat Acs.EMERGENCY_THRESHOLD_TICKS)) h sender_priority = true.
Proof.
  intros Hat Hroom. pose proof Hat as [Hk _].
  assert (0 <= Acs.EMERGENCY_THRESHOLD_TICKS) as Hpos by (unfold Acs.EMERGENCY_THRESHOLD_TICKS; lia).
  destruct (unattended_run g alt (current_tick g) (Z.to_nat Acs.EMERGENCY_THRESHOLD_TICKS)
    (attended_start g alt Hat) Hk) as [_ _ _ _ _ _ _ Ho]; [rewrite Z2Nat.id; done|].
  unfold policy_allows, BreakGlass.is_active. rewrite Ho by (by rewrite Z2Nat.id).
  by rewrite orb_true_r.
Qed.

(** The bypass opens at the lockdown and does not stay closed. Exactly four
    hours after the last heartbeat the tick that locks the system down also
    activates break-glass, so the policy check lets every message of every
    sender through; and while the safety state is Lockdown and the authority
    machine in Emergency, a tick that finds break-glass off turns it on again,
    so the expiry after 60,000 ticks closes the bypass for one tick only. *)
Theorem emergency_opens_bypass :
  (forall g alt h sender_priority, attended g alt ->
   current_tick g + Acs.EMERGENCY_THRESHOLD_TICKS + BreakGlass.BREAK_GLASS_EXPIRY_TICKS < 2 ^ 64 ->
   policy_allows (advance_ticks g (Z.to_nat Acs.EMERGENCY_THRESHOLD_TICKS)) h sender_priority = true) /\
  (forall g, Safety.state (safety g) = SafetyState.Lockdown -> Acs.state (acs g) = AcsState.Emergency ->
   0 <= current_tick g -> current_tick g + 1 + BreakGlass.BREAK_GLASS_EXPIRY_TICKS < 2 ^ 64 ->
   BreakGlass.active (break_glass g) = false ->
   BreakGlass.active (break_glass (tick g)) = true).
Proof.
  split; [exact bypass_at_emergency|].
  intros g Hs Ha Hk Hroom Hb. unfold tick, Acs.take_emergency_trigger.
  assert (BreakGlass.BREAK_GLASS_EXPIRY_TICKS = 60000) as HE by done.
  assert (Acs.tick (acs g) (u64_add (current_tick g) 1) = acs g) as ->
    by (unfold Acs.tick; by rewrite Ha).
  rewrite safety_lockdown_stays by done. cbn zeta. rewrite u64_add_small by lia.
  set (s := if Acs.emergency_triggered (acs g) then _ else _).
  assert (Safety.state s = SafetyState.Lockdown) as Hl.
  { unfold s. case_match; [|done]. unfold Safety.force_lockdown, Safety.transition_to.
    by rewrite bool_decide_true. }
  cbn [with_machines break_glass Acs.with_trigger Acs.state].
  unfold BreakGlass.check_and_activate. rewrite Hb, Hl, Ha, !bool_decide_true by done.
  cbn [andb snd]. unfold BreakGlass.activate. rewrite u64_add_small by lia.
  unfold BreakGlass.check_expiry. cbn [BreakGlass.active BreakGlass.expiry_tick andb].
  rewrite Z.geb_leb, (proj2 (Z.leb_gt _ _)) by lia. done.
Qed.

#[local] Existing Instance ToyHash.sha3.

Lemma booted_attended : attended booted false.
Proof. unfold attended. split_all; vm_compute; (reflexivity || discriminate). Qed.

Lemma dead_man_switch_witness :
  Acs.state (acs (advance_ticks booted 5)) = acs_at false 5.
Proof.
  refine (proj1 (dead_man_switch booted false 5 booted_attended _)). vm_compute. reflexivity.
Defined.

(** A locked-down engine whose bypass has just expired. *)
Definition locked : t :=
  with_machines booted (Safety.force_lockdown Safety.new 5)
    (Acs.force_state Acs.new AcsState.Emergency) BreakGlass.new 5.

Lemma emergency_opens_bypass_witness :
  policy_allows (advance_ticks booted (Z.to_nat Acs.EMERGENCY_THRESHOLD_TICKS)) kernel_msg None = true /\
  BreakGlass.active (break_glass (tick locked)) = true.
Proof.
  split.
  - apply (proj1 emergency_opens_bypass booted false kernel_msg None booted_attended). vm_compute. reflexivity.
  - apply (proj2 emergency_opens_bypass locked); vm_compute; (reflexivity || discriminate).
Defined.

End TimelineTheorems.

(** ** The safety state machine *)
Module SafetyTheorems.
Import Safety.

Inductive op : Type :=
| Tick
| Anomaly
| Alarm
| Signal (signal : SafetySignal)
| ForceLockdown
| HumanConfirm.

Definition step (s : t) (o : op) (current_tick : Z) : exec t :=
  match o with
  | Tick => Done (tick s current_tick)
  | Anomaly => Done (report_anomaly s current_tick)
  | Alarm => Done (report_alarm s current_tick)
  | Signal signal => report_signal s signal current_tick
  | ForceLockdown => Done (force_lockdown s current_tick)
  | HumanConfirm => Done (snd (human_confirm s current_tick))
  end.

Fixpoint run (s : t) (ops : list (op * Z)) : exec t :=
  match ops with
  | [] => Done s
  | (o, k) :: ops => s ← step s o k; run s ops
  end.

Definition safety_ok (s : t) : Prop :=
  Z.of_nat (length (signal_buffer s)) = MAX_SIGNALS /\ 0 <= signal_count s <= MAX_SIGNALS.

Lemma safety_new_ok : safety_ok new.
Proof. split; [reflexivity|cbn; unfold MAX_SIGNALS; lia]. Qed.

(** The compaction stays inside the buffer. *)
Lemma evict_ok n r buf w start :
  0 <= w <= r -> r + Z.of_nat n <= Z.of_nat (length buf) ->
  exists buf' w', evict (seqZ r (Z.of_nat n)) start buf w = Done (buf', w') /\
    length buf' = length buf /\ 0 <= w' <= r + Z.of_nat n.
Proof.
  revert r buf w. induction n as [|n IH]; intros r buf w Hw Hl; [exists buf, w; split_all; done || lia|].
  rewrite seqZ_cons by lia. cbn [evict]. destruct (arr_get_in buf r) as (e & -> & _); [lia|]. exec_simpl.
  replace (Z.pred (Z.of_nat (S n))) with (Z.of_nat n) by lia.
  destruct (fst e >=? start).
  - rewrite arr_set_Done by lia. exec_simpl.
    destruct (IH (Z.succ r) (<[Z.to_nat w := e]> buf) (w + 1)) as (b' & w' & -> & Hl' & Hw');
      [lia|rewrite length_insert; lia|].
    rewrite length_insert in Hl'. exists b', w'. split_all; done || lia.
  - destruct (IH (Z.succ r) buf w) as (b' & w' & -> & Hl' & Hw'); [lia|lia|].
    exists b', w'. split_all; done || lia.
Qed.

Lemma weighted_sum_ok n r buf sum :
  0 <= r -> r + Z.of_nat n <= Z.of_nat (length buf) ->
  exists z, weighted_sum (seqZ r (Z.of_nat n)) buf sum = Done z.
Proof.
  revert r sum. induction n as [|n IH]; intros r sum Hr Hl; [by eexists|].
  rewrite seqZ_cons by lia. cbn [weighted_sum].
  destruct (arr_get_in buf r) as (e & -> & _); [lia|]. exec_simpl.
  replace (Z.pred (Z.of_nat (S n))) with (Z.of_nat n) by lia. apply IH; lia.
Qed.

(** The severity never goes down, and only one step up. *)
Definition raises (s s' : t) : Prop :=
  state s' = state s \/
  (state s = SafetyState.Normal /\ state s' = SafetyState.Elevated) \/
  (state s = SafetyState.Elevated /\ state s' = SafetyState.Chaos).

Lemma transition_state s st k : state (transition_to s st k) = st.
Proof. unfold transition_to. by case_bool_decide. Qed.

Lemma transition_ok s st k : safety_ok s -> safety_ok (transition_to s st k).
Proof. unfold transition_to. by case_bool_decide. Qed.

Lemma escalate_state s st k : state (escalate s st k) = st.
Proof. unfold escalate. cbn. apply transition_state. Qed.

Lemma escalate_ok s st k : safety_ok s -> safety_ok (escalate s st k).
Proof. intros. unfold escalate. by apply (transition_ok s st k). Qed.

Lemma report_signal_ok s signal k : safety_ok s ->
  exists s', report_signal s signal k = Done s' /\ safety_ok s' /\ raises s s'.
Proof.
  intros [Hl Hc]. unfold report_signal. destruct (weight signal >=? HYSTERESIS_INSTANT_THRESHOLD).
  { eexists. split; [done|]. case_bool_decide as Hn; [|case_bool_decide as He];
      (destruct (cooled_down s k); [split; [by apply escalate_ok|]|split; [done|by left]]) ||
      (split; [done|by left]);
      unfold raises; rewrite escalate_state; auto. }
  destruct (evict_ok (Z.to_nat (signal_count s)) 0 (signal_buffer s) 0
    (sat_sub k HYSTERESIS_WINDOW_TICKS)) as (b & w & Hev & Hlb & Hw); [lia..|].
  rewrite Z2Nat.id in Hev by lia. rewrite Hev. exec_simpl. cbn [fst snd with_signals signal_count signal_buffer].
  assert (exists b' w', (if w <? MAX_SIGNALS
     then b0 ← arr_set b w (k, weight signal); Done (b0, w + 1) else Done (b, w)) = Done (b', w') /\
     length b' = length b /\ 0 <= w' <= MAX_SIGNALS) as (b' & w' & Hb & Hlb' & Hw').
  { destruct (Z.ltb_spec w MAX_SIGNALS).
    - rewrite arr_set_Done by lia. eexists _, _. split; [done|]. rewrite length_insert. lia.
    - eexists _, _. split; [done|]. lia. }
  rewrite Hb. exec_simpl. cbn [fst snd].
  destruct (weighted_sum_ok (Z.to_nat w') 0 b' 0) as [sum Hsum]; [lia|lia|].
  rewrite Z2Nat.id in Hsum by lia. rewrite Hsum. exec_simpl.
  eexists. split; [done|].
  assert (safety_ok (with_signals (with_signals s b w) b' w')) as Hok by (split; cbn; lia).
  destruct (cooled_down _ k); [|split; [done|by left]].
  case_bool_decide as Hn; cbn [andb].
  - destruct (sum >=? HYSTERESIS_ELEVATED_THRESHOLD).
    + split; [|right; left; by split; [|apply escalate_state]].
      split; cbn; [|unfold MAX_SIGNALS; lia]. by apply (escalate_ok _ SafetyState.Elevated k Hok).
    + rewrite bool_decide_false by (rewrite Hn; done). split; [done|by left].
  - case_bool_decide as He; cbn [andb]; [|split; [done|by left]].
    destruct (sum >=? HYSTERESIS_CHAOS_THRESHOLD); [|split; [done|by left]].
    split; [|right; right; by split; [|apply escalate_state]].
    split; cbn; [|unfold MAX_SIGNALS; lia]. by apply (escalate_ok _ SafetyState.Chaos k Hok).
Qed.

Lemma raises_severity s s' : raises s s' ->
  SafetyState.as_u8 (state s) <= SafetyState.as_u8 (state s').
Proof. intros [-> | [[-> ->] | [-> ->]]]; cbn; lia. Qed.

Lemma report_anomaly_ok s k : safety_ok s ->
  safety_ok (report_anomaly s k) /\ raises s (report_anomaly s k).
Proof.
  intros Hok. unfold report_anomaly. set (s1 := if sat_sub k (anomaly_window_start s) >=? ANOMALY_WINDOW_TICKS
              then with_anomalies s 0 k else s).
  assert (safety_ok s1 /\ state s1 = state s) as [Hok1 Hs1] by (unfold s1; by case_match).
  set (s2 := with_anomalies s1 _ _).
  assert (safety_ok s2 /\ state s2 = state s) as [Hok2 Hs2] by done.
  case_bool_decide as Hn; cbn [andb]; [|split; [done|by left]].
  case_match; [|split; [done|by left]]. split.
  - by apply (transition_ok s2 SafetyState.Elevated k).
  - right. left. split; [congruence|]. apply (transition_state s2 SafetyState.Elevated k).
Qed.

Lemma report_alarm_ok s k : safety_ok s ->
  safety_ok (report_alarm s k) /\ raises s (report_alarm s k).
Proof.
  intros Hok. unfold report_alarm. set (s1 := with_alarms s _).
  assert (safety_ok s1 /\ state s1 = state s) as [Hok1 Hs1] by done.
  case_bool_decide as Hn; cbn [andb]; [|split; [done|by left]].
  case_match; [|split; [done|by left]]. split.
  - by apply (transition_ok s1 SafetyState.Chaos k).
  - right. right. split; [congruence|]. apply (transition_state s1 SafetyState.Chaos k).
Qed.

(** The de-escalations that a step may make. *)
Definition lowers (s : t) (o : op) (k : Z) : Prop :=
  (o = Tick /\ state s = SafetyState.Elevated /\
     ELEVATED_CLEAR_TICKS <= sat_sub k (state_entered_tick s)) \/
  (o = Tick /\ state s = SafetyState.Safe /\
     SAFE_BURNDOWN_TICKS <= sat_sub k (state_entered_tick s)) \/
  (o = HumanConfirm /\ state s = SafetyState.Lockdown).

Lemma step_ok s o k : safety_ok s ->
  exists s', step s o k = Done s' /\ safety_ok s' /\
    (SafetyState.as_u8 (state s') < SafetyState.as_u8 (state s) -> lowers s o k).
Proof.
  intros Hok. destruct o as [| | |signal| |]; cbn [step].
  - eexists. split; [done|]. unfold tick.
    destruct (state s) eqn:Hs; try (split; [done|rewrite Hs; cbn; lia]).
    + destruct (Z.geb_spec (sat_sub k (state_entered_tick s)) ELEVATED_CLEAR_TICKS).
      * split; [by apply transition_ok|]. intros _. left. split_all; done || lia.
      * split; [done|]. rewrite Hs. cbn. lia.
    + destruct (Z.geb_spec (sat_sub k (state_entered_tick s)) SAFE_BURNDOWN_TICKS).
      * split; [by apply transition_ok|]. intros _. right. left. split_all; done || lia.
      * split; [done|]. rewrite Hs. cbn. lia.
  - destruct (report_anomaly_ok s k Hok) as [? ?%raises_severity]. eexists. split_all; [done|done|lia].
  - destruct (report_alarm_ok s k Hok) as [? ?%raises_severity]. eexists. split_all; [done|done|lia].
  - destruct (report_signal_ok s signal k Hok) as (s' & -> & ? & ?%raises_severity).
    exists s'. split_all; [done|done|lia].
  - eexists. split; [done|]. split; [by apply transition_ok|]. unfold force_lockdown.
    rewrite transition_state. destruct (state s); cbn; lia.
  - eexists. split; [done|]. unfold human_confirm. case_bool_decide as Hs; cbn [snd].
    + split; [by apply transition_ok|]. intros _. by right; right.
    + split; [done|]. lia.
Qed.

Lemma lockdown_stays s ops :
  safety_ok s -> state s = SafetyState.Lockdown -> HumanConfirm ∉ ops.*1 ->
  exists s', run s ops = Done s' /\ state s' = SafetyState.Lockdown.
Proof.
  intros Hok. revert s Hok. induction ops as [|[o k] ops IH]; intros s Hok Hs Hno; [by exists s|].
  cbn in Hno. apply not_elem_of_cons in Hno as [Ho Hops].
  destruct (step_ok s o k Hok) as (s1 & H1 & Hok1 & Hlow).
  cbn [run]. rewrite H1. exec_simpl. apply IH; try done.
  destruct (Z.lt_ge_cases (SafetyState.as_u8 (state s1)) (SafetyState.as_u8 (state s))) as [Hlt|Hge].
  - destruct (Hlow Hlt) as [(_ & E & _) | [(_ & E & _) | [-> _]]]; congruence.
  - rewrite Hs in Hge. destruct (state s1); cbn in Hge; done || lia.
Qed.

(** Severity is lowered only by time or by a human, and Lockdown only by a
    human. Every report, tick or confirmation returns (the window of signals
    never overruns its buffer), and a step to a lower severity is either a tick
    after five minutes in Elevated or thirty minutes in Safe, or a human
    confirmation in Lockdown; whatever is reported and however much time passes,
    without a confirmation the machine stays in Lockdown. *)
Theorem severity_lowered_only_by_time_or_human s o k ops :
  safety_ok s ->
  (exists s', step s o k = Done s' /\ safety_ok s' /\
     (SafetyState.as_u8 (state s') < SafetyState.as_u8 (state s) -> lowers s o k)) /\
  (state s = SafetyState.Lockdown -> HumanConfirm ∉ ops.*1 ->
   exists s', run s ops = Done s' /\ state s' = SafetyState.Lockdown).
Proof. intros Hok. split; [by apply step_ok|by apply lockdown_stays]. Qed.

Definition locked_machine : t := force_lockdown new 10.

Lemma severity_lowered_only_by_time_or_human_witness :
  (exists s', step locked_machine (Signal CapabilityFailure) 11 = Done s' /\ safety_ok s') /\
  exists s', run locked_machine [(Tick, 20); (Signal MemoryIntegrity, 30); (Alarm, 40)] = Done s' /\
    state s' = SafetyState.Lockdown.
Proof.
  destruct (severity_lowered_only_by_time_or_human locked_machine (Signal CapabilityFailure) 11
    [(Tick, 20); (Signal MemoryIntegrity, 30); (Alarm, 40)] safety_new_ok)
    as ((s' & Hs & Hok & _) & Hl).
  split; [exists s'; split; [exact Hs|exact Hok]|]. apply Hl; [reflexivity|].
  intros Hin. cbn in Hin. repeat (apply elem_of_cons in Hin as [Hin|Hin]; [discriminate Hin|]).
  by apply elem_of_nil in Hin.
Defined.

End SafetyTheorems.
