(* ===== verification/Council.v ===== *)
(** * The council (src/kernel/src/council/)

    The simulated models with their weights and hashes ([model.rs],
    [weight_store.rs]), the drift detector ([drift.rs]), the learning loop
    ([learning.rs]), the golden tests ([golden.rs]), the overrides
    ([override_mgr.rs]) and the engine that votes and trains ([mod.rs]). An array
    [[T; MODEL_COUNT]] is indexed by a [ModelId] only: it is a [per_model T]. *)

From S2P Require Import Prelude Crypto Governance.

Inductive TierLevel := Tier1 | Tier2 | Tier3.

#[export] Instance TierLevel_eq_dec : EqDecision TierLevel.
Proof. solve_decision. Defined.

Module ModelId.
Inductive t := Sentinel | Arbiter | Oracle.
#[global] Instance eq_dec : EqDecision t.
Proof. solve_decision. Defined.
End ModelId.

(** ** Arrays with an entry per model *)
Record per_model (A : Type) := Three { sentinel : A; arbiter : A; oracle : A }.
Arguments Three {A}.
Arguments sentinel {A}.
Arguments arbiter {A}.
Arguments oracle {A}.

Module PerModel.

Definition get {A} (p : per_model A) (i : ModelId.t) : A :=
  match i with ModelId.Sentinel => sentinel p | ModelId.Arbiter => arbiter p | ModelId.Oracle => oracle p end.

Definition set {A} (p : per_model A) (i : ModelId.t) (a : A) : per_model A :=
  match i with
  | ModelId.Sentinel => Three a (arbiter p) (oracle p)
  | ModelId.Arbiter => Three (sentinel p) a (oracle p)
  | ModelId.Oracle => Three (sentinel p) (arbiter p) a
  end.

Definition all {A} (a : A) : per_model A := Three a a a.
Definition map {A B} (f : A -> B) (p : per_model A) : per_model B := Three (f (sentinel p)) (f (arbiter p)) (f (oracle p)).
Definition map2 {A B C} (f : A -> B -> C) (p : per_model A) (q : per_model B) : per_model C :=
  Three (f (sentinel p) (sentinel q)) (f (arbiter p) (arbiter q)) (f (oracle p) (oracle q)).
Definition to_list {A} (p : per_model A) : list A := [sentinel p; arbiter p; oracle p].

End PerModel.

(** ** [model.rs] *)
Module SimulatedModel.

Definition WEIGHT_SIZE : Z := 256.
Definition CONFIDENCE_THRESHOLD : Z := 40.

Record t := mk { id : ModelId.t; weights : list Z; weight_hash : list Z }.

Definition seed (id : ModelId.t) : Z :=
  match id with ModelId.Sentinel => 0x5E | ModelId.Arbiter => 0xA7 | ModelId.Oracle => 0x0C end.

Definition initial_weights (id : ModelId.t) : list Z :=
  (fun i => Z.lxor (seed id) (wrap 8 (wrap 8 (i * 0x9D) + 0x37))) <$> seqZ 0 WEIGHT_SIZE.

Section Hashed.
Context `{Sha3}.

Definition compute_hash (weights : list Z) : list Z := sha3_256 weights.

Definition new (id : ModelId.t) : t := mk id (initial_weights id) (compute_hash (initial_weights id)).

Definition verify_integrity (m : t) : bool := bool_decide (compute_hash (weights m) = weight_hash m).

Definition context_bytes (ctx : EvalContext.t) : list Z :=
  le_bytes 4 (EvalContext.sender_pid ctx) ++ le_bytes 4 (EvalContext.receiver_pid ctx) ++
  le_bytes 2 (EvalContext.msg_type ctx) ++ le_bytes 8 (EvalContext.capability_id ctx) ++
  le_bytes 2 (EvalContext.resource_kind ctx) ++ [EvalContext.sender_priority ctx] ++
  [SafetyState.as_u8 (EvalContext.safety_state ctx)] ++ [AcsState.as_u8 (EvalContext.acs_state ctx)].

Definition forward (m : t) (ctx : EvalContext.t) : PolicyVerdict.t * Z :=
  let raw := nth 0 (sha3_256 (weights m ++ context_bytes ctx)) 0 in
  let confidence := Z.land raw 0x7F mod 101 in
  let verdict := if negb (Z.land raw 0x80 =? 0) then PolicyVerdict.Allow else PolicyVerdict.Deny in
  (verdict, confidence).

Definition with_weights (w : list Z) (m : t) : t := mk (id m) w (compute_hash w).

Definition update_weights (gradient : list Z) (m : t) : t := with_weights (zip_with Z.lxor (weights m) gradient) m.
Definition snapshot_weights (m : t) : list Z := weights m.
Definition restore_weights (snapshot : list Z) (m : t) : t := with_weights snapshot m.
Definition reset (m : t) : t := with_weights (weights (new (id m))) m.

End Hashed.
End SimulatedModel.

(** ** [weight_store.rs] *)
Module WeightStore.
Import SimulatedModel.

Record t := mk { models : per_model SimulatedModel.t; snapshots : per_model (list Z); snapshot_valid : bool }.

Section Hashed.
Context `{Sha3}.

Definition new : t :=
  mk (Three (SimulatedModel.new ModelId.Sentinel) (SimulatedModel.new ModelId.Arbiter) (SimulatedModel.new ModelId.Oracle))
     (PerModel.all (replicate 256 0)) false.

Definition get (s : t) (id : ModelId.t) : SimulatedModel.t := PerModel.get (models s) id.
Definition verify (s : t) (id : ModelId.t) : bool := verify_integrity (get s id).
Definition verify_all (s : t) : bool := forallb verify_integrity (PerModel.to_list (models s)).

Definition snapshot_all (s : t) : t := mk (models s) (PerModel.map snapshot_weights (models s)) true.

Definition rollback_all (s : t) : bool * t :=
  if negb (snapshot_valid s) then (false, s)
  else (true, mk (PerModel.map2 (fun m w => restore_weights w m) (models s) (snapshots s)) (snapshots s) (snapshot_valid s)).

Definition weight_hashes (s : t) : per_model (list Z) := PerModel.map weight_hash (models s).

Definition update (s : t) (id : ModelId.t) (gradient : list Z) : t :=
  mk (PerModel.set (models s) id (update_weights gradient (get s id))) (snapshots s) (snapshot_valid s).

Definition reset (s : t) : t := mk (PerModel.map SimulatedModel.reset (models s)) (snapshots s) false.

End Hashed.
End WeightStore.

(** ** [drift.rs] *)
Module DriftDetector.

Definition DRIFT_THRESHOLD : Z := 800.

Record t := mk { golden_snapshot : list Z; initialized : bool; frozen : bool; last_similarity : Z }.

Definition new : t := mk (replicate 256 0) false false 1000.

Definition set_golden (weights : list Z) (d : t) : t := mk weights true (frozen d) 1000.

(** [while y < x { x = y; y = (x + n / x) / 2 }]: [x] decreases. *)
Fixpoint newton (fuel : nat) (n x y : Z) : exec Z :=
  if y <? x then
    match fuel with
    | O => Diverged
    | S fuel' => if y =? 0 then Panicked else newton fuel' n y (u64_add y (n / y) / 2)
    end
  else Done x.

Definition isqrt (n : Z) : exec Z :=
  if n =? 0 then Done 0 else newton (Z.to_nat n) n n (u64_add n 1 / 2).

(** The sums over the two arrays: [dot], [mag_a] and [mag_b]. *)
Definition sums (golden current : list Z) : Z * Z * Z :=
  foldl (fun '(dot, mag_a, mag_b) '(a, b) =>
    (u64_add dot (wrap 64 (a * b)), u64_add mag_a (wrap 64 (a * a)), u64_add mag_b (wrap 64 (b * b)))) (0, 0, 0) (zip golden current).

Definition cosine_similarity (d : t) (current : list Z) : exec Z :=
  if negb (initialized d) then Done 1000
  else
    let '(dot, mag_a, mag_b) := sums (golden_snapshot d) current in
    if (mag_a =? 0) || (mag_b =? 0) then Done 0
    else
      ra ← isqrt mag_a;
      rb ← isqrt mag_b;
      let mag_product := wrap 64 (ra * rb) in
      if mag_product =? 0 then Done 0
      else
        let similarity := wrap 64 (dot * 1000) / mag_product in
        Done (if 1000 <? similarity then 1000 else wrap 32 similarity).

Definition check_drift (d : t) (current : list Z) : exec (bool * t) :=
  similarity ← cosine_similarity d current;
  if similarity <? DRIFT_THRESHOLD then Done (true, mk (golden_snapshot d) (initialized d) true similarity)
  else Done (false, mk (golden_snapshot d) (initialized d) (frozen d) similarity).

Definition unfreeze (d : t) : t := mk (golden_snapshot d) (initialized d) false (last_similarity d).
Definition reset (d : t) : t := mk (golden_snapshot d) false false 1000.

End DriftDetector.

(** ** [learning.rs] *)
Module LearningLoop.

Definition MAX_TRAINING_BUFFER : Z := 32.
Definition MAX_UPDATES_PER_PERIOD : Z := 10.
Definition TRAINING_PERIOD_TICKS : Z := 86400000.

Record TrainingExample := mkExample { ctx_hash : list Z; verdict : PolicyVerdict.t; confidence : Z }.

Definition empty : TrainingExample := mkExample (replicate 32 0) PolicyVerdict.Allow 0.

Record t := mk {
  buffer : list TrainingExample;
  buffer_count : Z;
  updates_this_period : Z;
  period_start_tick : Z;
  active : bool;
}.

Definition new : t := mk (replicate 32 empty) 0 0 0 true.

Definition record (l : t) (example : TrainingExample) : exec (bool * t) :=
  if negb (active l) || (MAX_TRAINING_BUFFER <=? buffer_count l) then Done (false, l)
  else
    buffer' ← arr_set (buffer l) (buffer_count l) example;
    Done (true, mk buffer' (buffer_count l + 1) (updates_this_period l) (period_start_tick l) (active l)).

Definition new_period (l : t) (current_tick : Z) : bool :=
  TRAINING_PERIOD_TICKS <=? sat_sub current_tick (period_start_tick l).

Definition can_update (l : t) (current_tick : Z) : bool :=
  if negb (active l) then false
  else if new_period l current_tick then true
  else updates_this_period l <? MAX_UPDATES_PER_PERIOD.

(** What one example does to the gradient. *)
Definition perturb (ex : TrainingExample) (gradient : list Z) : list Z :=
  let mask := if 50 <? confidence ex then 0x03 else 0x01 in
  imap (fun j g => Z.lxor g (Z.land (nth (j mod 32) (ctx_hash ex) 0) mask)) gradient.

Fixpoint gradient_loop (l : t) (is_ : list Z) (gradient : list Z) : exec (list Z) :=
  match is_ with
  | [] => Done gradient
  | i :: is_ => ex ← arr_get (buffer l) i; gradient_loop l is_ (perturb ex gradient)
  end.

Definition compute_gradient (l : t) : exec (list Z) := gradient_loop l (seqZ 0 (buffer_count l)) (replicate 256 0).

Definition mark_update (l : t) (current_tick : Z) : t :=
  let '(updates, start) :=
    if new_period l current_tick then (0, current_tick) else (updates_this_period l, period_start_tick l) in
  mk (buffer l) 0 (u32_add updates 1) start (active l).

Definition with_active (b : bool) (l : t) : t := mk (buffer l) (buffer_count l) (updates_this_period l) (period_start_tick l) b.
Definition freeze (l : t) : t := with_active false l.
Definition unfreeze (l : t) : t := with_active true l.
Definition reset (l : t) : t := mk (buffer l) 0 0 0 true.

End LearningLoop.

(** ** [golden.rs] *)
Module GoldenTestSuite.

Record GoldenCase := mkCase { name : string; ctx : EvalContext.t; expected_tier1 : PolicyVerdict.t }.

Definition golden_cases : list GoldenCase :=
  let case name sender receiver msg cap kind priority safety acs verdict :=
    mkCase name (EvalContext.mk sender receiver msg cap kind priority safety acs false) verdict in
  [ case "butler-normal-allow" 1 2 1 100 0 5 SafetyState.Normal AcsState.Active PolicyVerdict.Allow;
    case "kernel-spoof-deny" 0 2 1 100 0 5 SafetyState.Normal AcsState.Active PolicyVerdict.Deny;
    case "elevated-low-pri-deny" 5 2 1 100 0 1 SafetyState.Elevated AcsState.Active PolicyVerdict.Deny;
    case "device-access-cap-gated" 5 2 1 100 3 5 SafetyState.Normal AcsState.Active PolicyVerdict.Allow;
    case "acs-emergency-escalate" 5 2 1 100 0 5 SafetyState.Normal AcsState.Emergency (PolicyVerdict.Escalate SafetyState.Chaos);
    case "normal-process-allow" 10 3 2 200 0 3 SafetyState.Normal AcsState.Active PolicyVerdict.Allow;
    case "lockdown-deny-non-butler" 5 2 1 100 0 5 SafetyState.Lockdown AcsState.Active PolicyVerdict.Deny;
    case "chaos-low-pri-deny" 5 2 1 100 0 2 SafetyState.Chaos AcsState.Active PolicyVerdict.Deny;
    case "ai-resource-cap-gated" 5 2 1 100 6 5 SafetyState.Normal AcsState.Active PolicyVerdict.Allow;
    case "butler-lockdown-allow" 1 2 1 100 0 5 SafetyState.Lockdown AcsState.Active PolicyVerdict.Allow ]%string.

Fixpoint run_cases (rules : RuleEngine.t) (cases : list GoldenCase) (passed : Z) (first_failure : option string) : exec (Z * option string) :=
  match cases with
  | [] => Done (passed, first_failure)
  | c :: cases =>
      r ← RuleEngine.evaluate rules (ctx c);
      let '(verdict, _, _) := r in
      if bool_decide (verdict = expected_tier1 c) then run_cases rules cases (passed + 1) first_failure
      else run_cases rules cases passed (match first_failure with None => Some (name c) | f => f end)
  end.

(** [(passed, total, first_failure)]. *)
Definition run_all (rules : RuleEngine.t) : exec (Z * Z * option string) :=
  '(passed, failure) ← run_cases rules golden_cases 0 None;
  Done (passed, 10, failure).

End GoldenTestSuite.

(** ** [override_mgr.rs] *)
Module OverrideManager.

Definition MAX_OVERRIDES : Z := 16.
Definition DEFAULT_OVERRIDE_TTL : Z := 300000.

Record OverrideEntry := mkEntry {
  rule_name : string;
  verdict : PolicyVerdict.t;
  expiry_tick : Z;
  tier_source : TierLevel;
  active : bool;
  sender_pid : Z;
  msg_type : Z;
}.

Definition empty : OverrideEntry := mkEntry EmptyString PolicyVerdict.Allow 0 Tier2 false 0 0.

Definition deactivate (e : OverrideEntry) : OverrideEntry :=
  mkEntry (rule_name e) (verdict e) (expiry_tick e) (tier_source e) false (sender_pid e) (msg_type e).

Record t := mk { entries : list OverrideEntry; count : Z }.

Definition new : t := mk (replicate 16 empty) 0.

(** The slot is overwritten before [entry.active] is looked at, so [count] stays. *)
Fixpoint add_loop (fresh : OverrideEntry) (current_tick : Z) (es : list OverrideEntry) : option (list OverrideEntry) :=
  match es with
  | [] => None
  | e :: es =>
      if negb (active e) || (expiry_tick e <=? current_tick) then Some (fresh :: es)
      else cons e <$> add_loop fresh current_tick es
  end.

Definition add (m : t) (rule_name : string) (verdict : PolicyVerdict.t) (tier_source : TierLevel)
    (current_tick sender_pid msg_type : Z) : bool * t :=
  let fresh := mkEntry rule_name verdict (u64_add current_tick DEFAULT_OVERRIDE_TTL) tier_source true sender_pid msg_type in
  match add_loop fresh current_tick (entries m) with
  | Some es => (true, mk es (if negb (active fresh) then count m + 1 else count m))
  | None => (false, m)
  end.

Fixpoint check_loop (pid ty current_tick : Z) (es : list OverrideEntry) (count : Z)
  : option PolicyVerdict.t * list OverrideEntry * Z :=
  match es with
  | [] => (None, [], count)
  | e :: es' =>
      if negb (active e) then
        let '(r, es', count) := check_loop pid ty current_tick es' count in (r, e :: es', count)
      else if expiry_tick e <=? current_tick then
        let '(r, es', count) := check_loop pid ty current_tick es' (sat_sub count 1) in (r, deactivate e :: es', count)
      else if (sender_pid e =? pid) && (msg_type e =? ty) then (Some (verdict e), e :: es', count)
      else let '(r, es', count) := check_loop pid ty current_tick es' count in (r, e :: es', count)
  end.

Definition check (m : t) (sender_pid msg_type current_tick : Z) : option PolicyVerdict.t * t :=
  let '(r, es, count) := check_loop sender_pid msg_type current_tick (entries m) (count m) in (r, mk es count).

Fixpoint clear_loop (tier : TierLevel) (es : list OverrideEntry) (count : Z) : list OverrideEntry * Z :=
  match es with
  | [] => ([], count)
  | e :: es =>
      if active e && bool_decide (tier_source e = tier) then
        let '(es, count) := clear_loop tier es (sat_sub count 1) in (deactivate e :: es, count)
      else let '(es, count) := clear_loop tier es count in (e :: es, count)
  end.

Definition clear_tier (m : t) (tier : TierLevel) : t :=
  let '(es, count) := clear_loop tier (entries m) (count m) in mk es count.

Definition active_count (m : t) (current_tick : Z) : Z :=
  Z.of_nat (length (filter (fun e => Is_true (active e && (current_tick <? expiry_tick e))) (entries m))).

Definition reset (m : t) : t := mk ((fun _ => empty) <$> entries m) 0.

End OverrideManager.

(** ** [gpu_isolation.rs] *)
Definition gpu_isolation_rule : RuleEngine.PolicyRule :=
  let empty_cond := RuleEngine.mkCond RuleCondition.Always 0 in
  RuleEngine.mkRule "tier3-gpu-isolation" 920 2
    [RuleEngine.mkCond RuleCondition.ResourceKindEquals 8; RuleEngine.mkCond RuleCondition.SenderNotButler 0; empty_cond; empty_cond]
    RuleAction.DenyAndLog.

(** ** [mod.rs] *)
Module CouncilEngine.
Import SimulatedModel.

Definition ADMISSION_QUEUE_THRESHOLD : Z := 8.
Definition ADMISSION_LATENCY_THRESHOLD : Z := 10.

Record CouncilVerdict := mkVerdict {
  decision : PolicyVerdict.t;
  confidence : Z;
  tier : TierLevel;
  model_votes : per_model PolicyVerdict.t;
}.

Record t := mk {
  weights : WeightStore.t;
  drift_detectors : per_model DriftDetector.t;
  learning : per_model LearningLoop.t;
  overrides : OverrideManager.t;
  current_tick : Z;
  tier2_evals : Z;
  tier3_evals : Z;
  tamper_detections : Z;
  throttled : bool;
  run_queue_depth : Z;
  avg_task_latency : Z;
  initialized : bool;
}.

Definition eta (e : t) : t :=
  mk (weights e) (drift_detectors e) (learning e) (overrides e) (current_tick e) (tier2_evals e) (tier3_evals e)
     (tamper_detections e) (throttled e) (run_queue_depth e) (avg_task_latency e) (initialized e).

Definition set_weights (v : WeightStore.t) (e : t) : t := ltac:(set_field eta weights v e).
Definition set_drift_detectors (v : per_model DriftDetector.t) (e : t) : t := ltac:(set_field eta drift_detectors v e).
Definition set_learning (v : per_model LearningLoop.t) (e : t) : t := ltac:(set_field eta learning v e).
Definition set_current_tick (v : Z) (e : t) : t := ltac:(set_field eta current_tick v e).
Definition set_tier2_evals (v : Z) (e : t) : t := ltac:(set_field eta tier2_evals v e).
Definition set_tier3_evals (v : Z) (e : t) : t := ltac:(set_field eta tier3_evals v e).
Definition set_tamper_detections (v : Z) (e : t) : t := ltac:(set_field eta tamper_detections v e).

(** Before [init] every weight and every hash is zero. *)
Definition new : t :=
  let blank id := SimulatedModel.mk id (replicate 256 0) (replicate 32 0) in
  mk (WeightStore.mk (Three (blank ModelId.Sentinel) (blank ModelId.Arbiter) (blank ModelId.Oracle)) (PerModel.all (replicate 256 0)) false)
     (PerModel.all DriftDetector.new) (PerModel.all LearningLoop.new) OverrideManager.new 0 0 0 0 false 0 0 false.

Section Hashed.
Context `{Sha3}.

Definition init (e : t) : t :=
  let ws := WeightStore.new in
  mk ws (PerModel.map2 (fun m d => DriftDetector.set_golden (SimulatedModel.weights m) d) (WeightStore.models ws) (drift_detectors e))
     (learning e) (overrides e) (current_tick e) (tier2_evals e) (tier3_evals e) (tamper_detections e)
     (throttled e) (run_queue_depth e) (avg_task_latency e) true.

Definition update_load_metrics (queue_depth avg_latency : Z) (e : t) : t :=
  mk (weights e) (drift_detectors e) (learning e) (overrides e) (current_tick e) (tier2_evals e) (tier3_evals e) (tamper_detections e)
     ((ADMISSION_QUEUE_THRESHOLD <? queue_depth) && (ADMISSION_LATENCY_THRESHOLD <? avg_latency)) queue_depth avg_latency (initialized e).

Definition tampered (e : t) : t := set_tamper_detections (u64_add (tamper_detections e) 1) e.

(** One round of the panel: the vote, the confidence and whether the model was
    found tampered with. *)
Definition panel_vote (m : SimulatedModel.t) (ctx : EvalContext.t) : PolicyVerdict.t * Z * bool :=
  if negb (verify_integrity m) then (PolicyVerdict.Deny, 0, true)
  else
    let '(v, c) := forward m ctx in
    if negb (verify_integrity m) then (PolicyVerdict.Deny, c, true) else (v, c, false).

Definition count_votes (v : PolicyVerdict.t) (votes : per_model PolicyVerdict.t) : Z :=
  Z.of_nat (length (filter (fun x => x = v) (PerModel.to_list votes))).

Definition evaluate_tier3 (e : t) (ctx : EvalContext.t) : CouncilVerdict * t :=
  let e := set_tier3_evals (u64_add (tier3_evals e) 1) e in
  let rounds := PerModel.map (fun m => panel_vote m ctx) (WeightStore.models (weights e)) in
  let e := foldl (fun e (r : PolicyVerdict.t * Z * bool) => if snd r then tampered e else e) e (PerModel.to_list rounds) in
  let tamper := existsb snd (PerModel.to_list rounds) in
  let votes := PerModel.map (fun r => r.1.1) rounds in
  let confidences := PerModel.map (fun r => r.1.2) rounds in
  if tamper then (mkVerdict PolicyVerdict.Deny 0 Tier3 votes, e)
  else
    let allow_count := count_votes PolicyVerdict.Allow votes in
    let deny_count := count_votes PolicyVerdict.Deny votes in
    let decision :=
      if 2 <=? allow_count then PolicyVerdict.Allow
      else if 2 <=? deny_count then PolicyVerdict.Deny
      else PolicyVerdict.Deny in
    let avg_conf := wrap 16 (wrap 16 (sentinel confidences + arbiter confidences) + oracle confidences) / 3 in
    (mkVerdict decision (wrap 8 avg_conf) Tier3 votes, e).

Definition evaluate_tier2 (e : t) (ctx : EvalContext.t) : CouncilVerdict * t :=
  if throttled e then (mkVerdict PolicyVerdict.Deny 0 Tier1 (PerModel.all PolicyVerdict.Deny), e)
  else
    let e := set_tier2_evals (u64_add (tier2_evals e) 1) e in
    let s := WeightStore.get (weights e) ModelId.Sentinel in
    let refused := (mkVerdict PolicyVerdict.Deny 0 Tier2 (PerModel.all PolicyVerdict.Deny), tampered e) in
    if negb (verify_integrity s) then refused
    else
      let '(verdict, confidence) := forward s ctx in
      if negb (verify_integrity s) then refused
      else if confidence <? CONFIDENCE_THRESHOLD then evaluate_tier3 e ctx
      else (mkVerdict verdict confidence Tier2 (Three verdict PolicyVerdict.Allow PolicyVerdict.Allow), e).

Definition record_example (e : t) (id : ModelId.t) (example : LearningLoop.TrainingExample) : exec (bool * t) :=
  '(b, l) ← LearningLoop.record (PerModel.get (learning e) id) example;
  Done (b, set_learning (PerModel.set (learning e) id l) e).

Definition train_step (e : t) (id : ModelId.t) (rules : RuleEngine.t) : exec (bool * t) :=
  let l := PerModel.get (learning e) id in
  let d := PerModel.get (drift_detectors e) id in
  if negb (LearningLoop.can_update l (current_tick e)) then Done (false, e)
  else if DriftDetector.frozen d then Done (false, e)
  else
    gradient ← LearningLoop.compute_gradient l;
    let ws := WeightStore.update (WeightStore.snapshot_all (weights e)) id gradient in
    '(passed, total, _) ← GoldenTestSuite.run_all rules;
    if passed <? total then
      let ws := (WeightStore.rollback_all ws).2 in
      Done (false, set_learning (PerModel.set (learning e) id (LearningLoop.freeze l)) (set_weights ws e))
    else
      '(drifted, d) ← DriftDetector.check_drift d (SimulatedModel.weights (WeightStore.get ws id));
      if (drifted : bool) then
        let ws := (WeightStore.rollback_all ws).2 in
        Done (false,
          set_drift_detectors (PerModel.set (drift_detectors e) id (DriftDetector.unfreeze d))
            (set_learning (PerModel.set (learning e) id (LearningLoop.freeze l)) (set_weights ws e)))
      else
        let d := DriftDetector.set_golden (SimulatedModel.weights (WeightStore.get ws id)) d in
        Done (true,
          set_learning (PerModel.set (learning e) id (LearningLoop.mark_update l (current_tick e)))
            (set_drift_detectors (PerModel.set (drift_detectors e) id d) (set_weights ws e))).

Definition sync_tick (tick : Z) (e : t) : t := set_current_tick tick e.

Definition clear (e : t) : t :=
  mk (WeightStore.reset (weights e)) (PerModel.map DriftDetector.reset (drift_detectors e)) (PerModel.map LearningLoop.reset (learning e))
     (OverrideManager.reset (overrides e)) 0 0 0 0 false 0 0 false.

End Hashed.
End CouncilEngine.

(** The council that the policy check consults. *)
#[export] Instance council_tier2 `{Sha3} : Tier2Council CouncilEngine.t := {|
  evaluate_tier2 c ctx := let '(v, c) := CouncilEngine.evaluate_tier2 c ctx in (CouncilEngine.decision v, c);
|}.
