(* ===== verification/CouncilTheorems.v ===== *)
(** * What the council promises

    The verdicts of the council and their effect on the policy check; the integer
    square root and the similarity of the drift detector; and that training keeps
    every model intact, close to its seed and within its budget. *)

From S2P Require Import Prelude Limbs Crypto CapStore Wire Router Governance GovSpec GovTheorems Council.

(** ** The drift detector *)
Module DriftSpec.
Import DriftDetector.

(** One step of Newton's method does not fall below the root. *)
Lemma newton_step n x : 0 < x -> 0 <= n -> Z.sqrt n <= (x + n / x) / 2.
Proof.
  intros Hx Hn. pose proof (Z.sqrt_spec n Hn) as [Hs _]. set (s := Z.sqrt n) in *.
  pose proof (Z.square_nonneg (x - s)). apply Z.div_le_lower_bound; [lia|]. assert (2 * s - x <= n / x) by (apply Z.div_le_lower_bound; nia). lia.
Qed.

Lemma newton_spec n : 0 < n < 2 ^ 63 -> forall fuel x, Z.sqrt n <= x <= n -> x <= Z.of_nat fuel ->
  newton fuel n x (u64_add x (n / x) / 2) = Done (Z.sqrt n).
Proof.
  intros Hn. pose proof (Z.sqrt_spec n ltac:(lia)) as [Hs Hs']. assert (0 < Z.sqrt n) as Hp by (apply Z.sqrt_pos; lia).
  induction fuel as [|fuel IH]; intros x Hx Hf; cbn [newton]; [lia|].
  assert (0 <= n / x <= n) as Hd by (split; [apply Z.div_pos; lia|apply Z.div_le_upper_bound; nia]).
  unfold u64_add. rewrite wrap_small by (unfold in_u; lia). pose proof (newton_step n x ltac:(lia) ltac:(lia)) as Hy.
  destruct (_ <? x) eqn:E.
  - apply Z.ltb_lt in E. rewrite (proj2 (Z.eqb_neq _ _)) by lia. apply IH; lia.
  - apply Z.ltb_ge in E. f_equal. assert (2 * x <= x + n / x) as Hle.
    { etransitivity; [|apply (Z.mul_div_le (x + n / x) 2); lia]. lia. }
    assert (x * x <= n) by (pose proof (Z.mul_div_le n x ltac:(lia)); nia). apply Z.le_antisymm; [|lia].
    apply Z.sqrt_le_square; lia.
Qed.

Lemma isqrt_exact n : 0 <= n < 2 ^ 63 -> isqrt n = Done (Z.sqrt n).
Proof.
  intros Hn. unfold isqrt. destruct (Z.eqb_spec n 0) as [->|]; [done|].
  replace (u64_add n 1 / 2) with (u64_add n (n / n) / 2) by (by rewrite Z.div_same by lia).
  apply newton_spec; [lia| |lia]. split; [apply Z.sqrt_le_lin; lia|lia].
Qed.

(** The sums without wrap-around. *)
Definition total (f : Z * Z -> Z) (l : list (Z * Z)) : Z := foldr (fun p s => f p + s) 0 l.

Lemma sums_from l : Forall (fun p : Z * Z => 0 <= p.1 < 256 /\ 0 <= p.2 < 256) l -> forall d a b,
  0 <= d -> 0 <= a -> 0 <= b -> d + 65025 * Z.of_nat (length l) < 2 ^ 64 -> a + 65025 * Z.of_nat (length l) < 2 ^ 64 ->
  b + 65025 * Z.of_nat (length l) < 2 ^ 64 ->
  foldl (fun '(dot, mag_a, mag_b) '(a, b) =>
    (u64_add dot (wrap 64 (a * b)), u64_add mag_a (wrap 64 (a * a)), u64_add mag_b (wrap 64 (b * b)))) (d, a, b) l =
  (d + total (fun p => p.1 * p.2) l, a + total (fun p => p.1 * p.1) l, b + total (fun p => p.2 * p.2) l).
Proof.
  induction 1 as [|[x y] l [Hx Hy] _ IH]; intros d a b Hd Ha Hb Hd' Ha' Hb'; cbn [foldl total foldr]; [by rewrite !Z.add_0_r|].
  cbn [fst snd length] in *. assert (0 <= x * y <= 65025 /\ 0 <= x * x <= 65025 /\ 0 <= y * y <= 65025) as (? & ? & ?) by nia.
  unfold u64_add. rewrite !(wrap_small 64 (_ * _)) by (unfold in_u; lia). rewrite !wrap_small by (unfold in_u; lia).
  rewrite IH by lia. unfold total. f_equal; [f_equal|]; lia.
Qed.

(** Weights that differ from [a] in the two low bits only. *)
Definition near (a b : list Z) : Prop := Forall2 (fun x y => 0 <= x < 256 /\ 0 <= y < 256 /\ x / 4 = y / 4) a b.

Lemma near_totals a b : near a b ->
  2 * total (fun p => p.1 * p.2) (zip a b) >=
    total (fun p => p.1 * p.1) (zip a b) + total (fun p => p.2 * p.2) (zip a b) - 9 * Z.of_nat (length a).
Proof.
  induction 1 as [|x y a b (Hx & Hy & E) _ IH]; [done|]. cbn [zip_with total foldr fst snd length]. fold (zip a b).
  assert (-3 <= x - y <= 3) by (Z.to_euclidean_division_equations; lia). assert ((x - y) * (x - y) <= 9) by nia. unfold total in *. lia.
Qed.

Lemma near_bytes a b : near a b -> Forall (fun p : Z * Z => 0 <= p.1 < 256 /\ 0 <= p.2 < 256) (zip a b).
Proof. induction 1 as [|x y a b (Hx & Hy & E) _ IH]; cbn; [done|]. by constructor. Qed.

Lemma total_nonneg f l : (forall p, 0 <= f p) -> 0 <= total f l.
Proof. intros Hf. induction l as [|p l IH]; cbn; [done|]. specialize (Hf p). unfold total in IH. lia. Qed.

Lemma vote_total_bound f l : Forall (fun p => 0 <= f p <= 65025) l -> 0 <= total f l <= 65025 * Z.of_nat (length l).
Proof. induction 1 as [|p l Hp _ IH]; cbn [total foldr length]; [lia|]. unfold total in IH. lia. Qed.

(** A similarity of at least 0.8 for weights that are near. *)
Lemma near_similar d current : near (golden_snapshot d) current -> length (golden_snapshot d) = 256%nat ->
  11520 <= total (fun p => p.1 * p.1) (zip (golden_snapshot d) current) + total (fun p => p.2 * p.2) (zip (golden_snapshot d) current) ->
  0 < total (fun p => p.1 * p.1) (zip (golden_snapshot d) current) -> 0 < total (fun p => p.2 * p.2) (zip (golden_snapshot d) current) ->
  exists s, cosine_similarity d current = Done s /\ DRIFT_THRESHOLD <= s <= 1000.
Proof.
  intros Hn Hl Hbig HA HB. unfold cosine_similarity, DRIFT_THRESHOLD. destruct (initialized d); cbn [negb]; [|exists 1000; split; [done|lia]].
  pose proof (near_bytes _ _ Hn) as Hb. pose proof (near_totals _ _ Hn) as Ht. rewrite Hl in Ht.
  set (l := zip (golden_snapshot d) current) in *. assert (length l = 256%nat) as Hll.
  { unfold l. rewrite length_zip_with. apply Forall2_length in Hn. lia. }
  unfold sums. fold l. rewrite sums_from by (try done; rewrite Hll; lia). rewrite !Z.add_0_l.
  set (dot := total (fun p => p.1 * p.2) l) in *. set (A := total (fun p => p.1 * p.1) l) in *. set (B := total (fun p => p.2 * p.2) l) in *.
  assert (forall f, (forall p, 0 <= p.1 < 256 /\ 0 <= p.2 < 256 -> 0 <= f p <= 65025) -> 0 <= total f l <= 65025 * 256) as Hbd.
  { intros f Hf. change 256 with (Z.of_nat 256). rewrite <- Hll. apply vote_total_bound. eapply Forall_impl; [exact Hb|]. intros p. apply Hf. }
  assert (0 <= dot <= 65025 * 256) by (apply Hbd; intros [x y]; cbn; nia). assert (0 <= A <= 65025 * 256) by (apply Hbd; intros [x y]; cbn; nia).
  assert (0 <= B <= 65025 * 256) by (apply Hbd; intros [x y]; cbn; nia).
  rewrite !(proj2 (Z.eqb_neq _ _)) by lia. cbn [orb]. rewrite !isqrt_exact by lia. exec_simpl.
  pose proof (Z.sqrt_spec A ltac:(lia)) as [HsA _]. pose proof (Z.sqrt_spec B ltac:(lia)) as [HsB _].
  assert (0 < Z.sqrt A) by (apply Z.sqrt_pos; lia). assert (0 < Z.sqrt B) by (apply Z.sqrt_pos; lia).
  set (ra := Z.sqrt A) in *. set (rb := Z.sqrt B) in *. assert (2 * (ra * rb) <= A + B) by (pose proof (Z.square_nonneg (ra - rb)) as Hq; clear - HsA HsB Hq; nia). assert (0 < ra * rb) by nia.
  rewrite (wrap_small 64 (ra * rb)) by (unfold in_u; lia). rewrite (proj2 (Z.eqb_neq _ _)) by lia.
  rewrite (wrap_small 64 (dot * 1000)) by (unfold in_u; lia).
  assert (800 <= dot * 1000 / (ra * rb)) by (apply Z.div_le_lower_bound; lia).
  destruct (1000 <? _) eqn:E; eexists; (split; [done|]); [lia|]. apply Z.ltb_ge in E. rewrite wrap_small by (unfold in_u; lia). lia.
Qed.

End DriftSpec.

(** ** Training *)
Module Training.
Import SimulatedModel DriftSpec CouncilEngine.

(** *** Weights *)
Definition squares (l : list Z) : Z := foldr (fun x s => x * x + s) 0 l.

Lemma near_sym a b : near a b -> near b a.
Proof. induction 1 as [|x y a b (Hx & Hy & E) _ IH]; constructor; [|done]. split_all; lia. Qed.

Lemma near_trans a b c : near a b -> near b c -> near a c.
Proof.
  intros H. revert c. induction H as [|x y a b (Hx & Hy & E) _ IH]; intros c Hc; inversion Hc as [|? z ? c' (_ & Hz & E')]; subst; constructor; [|by apply IH].
  split_all; lia.
Qed.

Lemma squares_fst a b : near a b -> total (fun p => p.1 * p.1) (zip a b) = squares a.
Proof. induction 1 as [|x y a b _ _ IH]; [done|]. cbn. unfold total in IH. by rewrite IH. Qed.

Lemma squares_snd a b : near a b -> total (fun p => p.2 * p.2) (zip a b) = squares b.
Proof. induction 1 as [|x y a b _ _ IH]; [done|]. cbn. unfold total in IH. by rewrite IH. Qed.

Lemma near_squares a b : near a b -> squares ((fun x => x / 4 * 4) <$> a) <= squares b.
Proof.
  induction 1 as [|x y a b (Hx & Hy & E) _ IH]; [done|]. cbn [fmap list_fmap squares foldr] in *. unfold squares in IH. rewrite E.
  assert (0 <= y / 4 * 4 <= y) by (Z.to_euclidean_division_equations; lia). nia.
Qed.

Lemma near_initial id w : near (initial_weights id) w -> 5760 <= squares w /\ length w = 256%nat.
Proof.
  intros Hn. split.
  - etransitivity; [|by apply near_squares]. destruct id; vm_compute; discriminate.
  - apply Forall2_length in Hn. rewrite <- Hn. by destruct id.
Qed.

Lemma initial_near id : near (initial_weights id) (initial_weights id).
Proof.
  unfold near. apply Forall_Forall2_diag. assert (forallb (fun x => (0 <=? x) && (x <? 256)) (initial_weights id) = true) as Hb by (by destruct id; vm_compute).
  revert Hb. generalize (initial_weights id). intros l.
  induction l as [|x l IH]; [done|]. cbn. intros [[H1%Z.leb_le H2%Z.ltb_lt]%andb_true_iff H3]%andb_true_iff. constructor; [lia|by apply IH].
Qed.

(** A change in the two low bits only. *)
Lemma lxor_low a g : 0 <= a < 256 -> 0 <= g < 4 -> 0 <= Z.lxor a g < 256 /\ a / 4 = Z.lxor a g / 4.
Proof.
  intros Ha Hg. change 4 with (2 ^ 2). rewrite <- !Z.shiftr_div_pow2, Z.shiftr_lxor, (Z.shiftr_div_pow2 g) by lia.
  rewrite (Z.div_small g) by lia. rewrite Z.lxor_0_r. split; [|done].
  apply (Limbs.lxor_range 8); [lia|exact Ha|unfold in_u; lia].
Qed.

Lemma near_step w0 w gradient : near w0 w -> length gradient = length w -> Forall (fun g => 0 <= g < 4) gradient ->
  near w0 (zip_with Z.lxor w gradient).
Proof.
  intros Hn Hl Hg. eapply near_trans; [exact Hn|]. assert (Forall (fun x => 0 <= x < 256) w) as Hw.
  { clear - Hn. induction Hn as [|x y a b (_ & Hy & _) _ IH]; by constructor. }
  clear - Hw Hl Hg. revert gradient Hl Hg. induction Hw as [|x w Hx _ IH]; intros [|g gradient] Hl Hg; try done; [constructor|].
  apply Forall_cons in Hg as [Hg Hgs]. cbn. constructor; [|apply IH; auto]. by pose proof (lxor_low x g Hx Hg).
Qed.

(** *** Gradients *)
Definition example_ok (ex : LearningLoop.TrainingExample) : Prop := Forall (fun b => 0 <= b < 256) (LearningLoop.ctx_hash ex).

Record loop_ok (l : LearningLoop.t) : Prop := {
  lo_size : length (LearningLoop.buffer l) = 32%nat;
  lo_count : 0 <= LearningLoop.buffer_count l <= 32;
  lo_examples : Forall example_ok (LearningLoop.buffer l);
  lo_updates : 0 <= LearningLoop.updates_this_period l <= LearningLoop.MAX_UPDATES_PER_PERIOD;
}.

Lemma land_mask b m : 0 <= m < 4 -> 0 <= Z.land b m < 4.
Proof.
  intros Hm. assert (Z.land b m = Z.land (Z.land b m) 3) as ->.
  { rewrite <- Z.land_assoc. f_equal. change 3 with (Z.ones 2). rewrite Z.land_ones by lia. symmetry. apply Z.mod_small. lia. }
  change 3 with (Z.ones 2). rewrite Z.land_ones by lia. apply Z.mod_pos_bound. lia.
Qed.

Lemma perturb_low ex g : Forall (fun x => 0 <= x < 4) g ->
  length (LearningLoop.perturb ex g) = length g /\ Forall (fun x => 0 <= x < 4) (LearningLoop.perturb ex g).
Proof.
  intros Hg. unfold LearningLoop.perturb. split; [apply length_imap|]. rewrite Forall_lookup in *. intros i x.
  rewrite list_lookup_imap. destruct (g !! i) as [y|] eqn:E; [|done]. intros [= <-].
  apply (Limbs.lxor_range 2); [lia|exact (Hg _ _ E)|]. apply land_mask. destruct (_ <? _); lia.
Qed.

Lemma gradient_low l : loop_ok l -> exists g, LearningLoop.compute_gradient l = Done g /\ length g = 256%nat /\ Forall (fun x => 0 <= x < 4) g.
Proof.
  intros [Hs Hc _ _]. unfold LearningLoop.compute_gradient.
  assert (forall is_ g, Forall (fun i => 0 <= i < 32) is_ -> length g = 256%nat -> Forall (fun x => 0 <= x < 4) g ->
    exists g', LearningLoop.gradient_loop l is_ g = Done g' /\ length g' = 256%nat /\ Forall (fun x => 0 <= x < 4) g') as Hloop.
  { induction is_ as [|i is_ IH]; intros g Hi Hl Hg; cbn [LearningLoop.gradient_loop]; [by exists g|]. apply Forall_cons in Hi as [Hi His].
    destruct (arr_get_in (LearningLoop.buffer l) i) as (ex & -> & _); [lia|]. exec_simpl.
    destruct (perturb_low ex g Hg) as [Hl' Hg']. apply IH; [done|congruence|done]. }
  apply Hloop; [|done|by apply Forall_replicate]. apply Forall_forall. intros i Hi%elem_of_seqZ. lia.
Qed.

Lemma record_loop_ok l ex : loop_ok l -> example_ok ex -> exists b l', LearningLoop.record l ex = Done (b, l') /\ loop_ok l'.
Proof.
  intros [Hs Hc He Hu] Hex. unfold LearningLoop.record. destruct (negb _ || _) eqn:E; [by exists false, l|].
  apply orb_false_iff in E as [_ E%Z.leb_gt]. unfold LearningLoop.MAX_TRAINING_BUFFER in E.
  rewrite arr_set_Done by lia. exec_simpl. eexists true, _. split; [done|]. split; cbn; [by rewrite length_insert|lia|by apply Forall_insert|done].
Qed.

Lemma mark_loop_ok l k : loop_ok l -> LearningLoop.can_update l k = true -> loop_ok (LearningLoop.mark_update l k).
Proof.
  intros [Hs Hc He Hu] Hk. unfold LearningLoop.can_update in Hk. destruct (negb _); [done|]. unfold LearningLoop.mark_update, LearningLoop.MAX_UPDATES_PER_PERIOD in *.
  destruct (LearningLoop.new_period l k); cbn; split; cbn; try done; try lia.
  apply Z.ltb_lt in Hk. unfold u32_add. rewrite wrap_small by (unfold in_u; lia). unfold LearningLoop.MAX_UPDATES_PER_PERIOD. lia.
Qed.

(** *** The invariant *)
Section Hashed.
Context `{Sha3}.

Definition model (e : t) (id : ModelId.t) : SimulatedModel.t := WeightStore.get (CouncilEngine.weights e) id.
Definition loop (e : t) (id : ModelId.t) : LearningLoop.t := PerModel.get (learning e) id.
Definition detector (e : t) (id : ModelId.t) : DriftDetector.t := PerModel.get (drift_detectors e) id.

Record model_ok (id : ModelId.t) (m : SimulatedModel.t) : Prop := {
  mo_id : SimulatedModel.id m = id;
  mo_near : near (initial_weights id) (SimulatedModel.weights m);
  mo_hash : weight_hash m = compute_hash (SimulatedModel.weights m);
}.

Record detector_ok (id : ModelId.t) (d : DriftDetector.t) : Prop := {
  do_thawed : DriftDetector.frozen d = false;
  do_near : DriftDetector.initialized d = true -> near (initial_weights id) (DriftDetector.golden_snapshot d);
}.

Record council_ok (e : t) : Prop := {
  co_models : forall id, model_ok id (model e id);
  co_detectors : forall id, detector_ok id (detector e id);
  co_loops : forall id, loop_ok (loop e id);
}.

Lemma get_set {A} (p : per_model A) i j a : PerModel.get (PerModel.set p i a) j = if decide (i = j) then a else PerModel.get p j.
Proof. by destruct i, j. Qed.

Lemma get_map {A B} (f : A -> B) p i : PerModel.get (PerModel.map f p) i = f (PerModel.get p i).
Proof. by destruct i. Qed.

Lemma get_map2 {A B C} (f : A -> B -> C) p q i : PerModel.get (PerModel.map2 f p q) i = f (PerModel.get p i) (PerModel.get q i).
Proof. by destruct i. Qed.

Lemma with_weights_ok id m w : SimulatedModel.id m = id -> near (initial_weights id) w -> model_ok id (with_weights w m).
Proof. by split. Qed.

Lemma council_init_ok : council_ok (init new).
Proof.
  split; intros id.
  - unfold model, WeightStore.get. destruct id; (split; [done|apply initial_near|done]).
  - unfold detector, init. cbn [drift_detectors]. rewrite get_map2. split; [by destruct id|]. intros _. destruct id; apply initial_near.
  - unfold loop. destruct id; (split; [done|cbn; lia|apply (Forall_replicate _ 32); by apply (Forall_replicate _ 32)|cbn; unfold LearningLoop.MAX_UPDATES_PER_PERIOD; lia]).
Qed.

Lemma model_intact id m : model_ok id m -> verify_integrity m = true.
Proof. intros [_ _ Hh]. apply bool_decide_eq_true. by rewrite Hh. Qed.

(** Rolling back restores what was there, hashes included. *)
Lemma rollback_restores s id gradient : (forall j, weight_hash (WeightStore.get s j) = compute_hash (SimulatedModel.weights (WeightStore.get s j))) ->
  (WeightStore.rollback_all (WeightStore.update (WeightStore.snapshot_all s) id gradient)).2 = WeightStore.snapshot_all s.
Proof.
  intros Hh. unfold WeightStore.rollback_all, WeightStore.update, WeightStore.snapshot_all, WeightStore.get. cbn. f_equal.
  pose proof (Hh ModelId.Sentinel) as H1. pose proof (Hh ModelId.Arbiter) as H2. pose proof (Hh ModelId.Oracle) as H3.
  destruct s as [[[i1 w1 h1] [i2 w2 h2] [i3 w3 h3]] sn v]. unfold WeightStore.get in *. cbn in *. subst. by destruct id.
Qed.

(** The golden tests look at the rules only. *)
Definition golden_pass (rules : RuleEngine.t) : bool :=
  match GoldenTestSuite.run_all rules with Done (passed, total, _) => total <=? passed | _ => false end.

Lemma run_all_returns rules : RuleSpec.engine_ok rules -> exists passed failure, GoldenTestSuite.run_all rules = Done (passed, 10, failure).
Proof.
  intros Hr. unfold GoldenTestSuite.run_all.
  assert (forall cases p f, exists p' f', GoldenTestSuite.run_cases rules cases p f = Done (p', f')) as Hc.
  { induction cases as [|c cases IH]; intros p f; cbn [GoldenTestSuite.run_cases]; [by exists p, f|].
    unfold RuleEngine.evaluate. rewrite RuleSpec.engine_first_match by done. exec_simpl.
    destruct (List.find _ _) as [r|]; destruct (bool_decide _); apply IH. }
  destruct (Hc GoldenTestSuite.golden_cases 0 None) as (p & f & ->). exec_simpl. eauto.
Qed.

(** A training step neither panics nor finds a drift. *)
Lemma train_step_spec e id rules : council_ok e -> RuleSpec.engine_ok rules ->
  let l := loop e id in
  let go := LearningLoop.can_update l (current_tick e) in
  exists e', train_step e id rules = Done (go && golden_pass rules, e') /\ council_ok e' /\ current_tick e' = current_tick e /\
    (forall j, j <> id -> model e' j = model e j /\ loop e' j = loop e j) /\
    (forall g, LearningLoop.compute_gradient l = Done g ->
       model e' id = (if go && golden_pass rules then update_weights g (model e id) else model e id)) /\
    loop e' id = (if go then if golden_pass rules then LearningLoop.mark_update l (current_tick e) else LearningLoop.freeze l else l).
Proof.
  intros [Hm Hd Hl] Hr l go. unfold train_step. fold (loop e id) (detector e id). fold l. fold go.
  destruct go eqn:Hgo; cbn [negb andb]; [|by exists e]. rewrite (do_thawed _ _ (Hd id)).
  destruct (gradient_low l (Hl id)) as (g & Hg & Hgl & Hglow). rewrite Hg. exec_simpl.
  destruct (run_all_returns rules Hr) as (passed & failure & Hrun). unfold golden_pass. rewrite Hrun. exec_simpl.
  set (ws := WeightStore.update (WeightStore.snapshot_all (CouncilEngine.weights e)) id g).
  assert (forall j, WeightStore.get ws j = if decide (id = j) then update_weights g (model e j) else model e j) as Hws.
  { intros j. unfold ws, WeightStore.update, WeightStore.get. cbn. rewrite get_set. destruct (decide (id = j)) as [->|]; done. }
  destruct (Z.ltb_spec passed 10) as [Hlt|Hge].
  - rewrite (proj2 (Z.leb_gt _ _)) by lia. unfold ws. rewrite rollback_restores by (intros j; apply Hm).
    eexists. split; [done|]. split; [split|]; cbn.
    + apply Hm.
    + apply Hd.
    + intros j. unfold loop. cbn. rewrite get_set. destruct (decide (id = j)) as [->|]; [|apply Hl]. by destruct (Hl j).
    + split; [done|]. split; [intros j Hj; split; [done|]; unfold loop; cbn; rewrite get_set, decide_False; done|]. split; [done|].
      unfold loop. cbn. by rewrite get_set, decide_True.
  - rewrite (proj2 (Z.leb_le _ _)) by lia. rewrite Hws, decide_True by done.
    set (w' := SimulatedModel.weights (update_weights g (model e id))).
    assert (near (initial_weights id) w') as Hn'.
    { apply near_step; [apply Hm|rewrite Hgl; symmetry; eapply near_initial, Hm|done]. }
    assert (exists s, DriftDetector.check_drift (detector e id) w' =
      Done (false, DriftDetector.mk (DriftDetector.golden_snapshot (detector e id)) (DriftDetector.initialized (detector e id)) false s)) as [s ->].
    { unfold DriftDetector.check_drift. pose proof (Hd id) as [Hf Hn]. destruct (DriftDetector.initialized (detector e id)) eqn:Ei.
      - specialize (Hn eq_refl). assert (near (DriftDetector.golden_snapshot (detector e id)) w') as Hnn by (eapply near_trans; [by apply near_sym|done]).
        destruct (near_initial _ _ Hn) as [HA HlA]. destruct (near_initial _ _ Hn') as [HB _].
        destruct (near_similar (detector e id) w' Hnn HlA) as (s & -> & Hs); [rewrite squares_fst, squares_snd by done; lia|rewrite squares_fst by done; lia|rewrite squares_snd by done; lia|].
        exec_simpl. rewrite (proj2 (Z.ltb_ge _ _)) by lia. rewrite Hf. by exists s.
      - unfold DriftDetector.cosine_similarity. rewrite Ei. exec_simpl. rewrite Hf. by exists 1000. }
    exec_simpl. eexists. split; [done|]. split; [split|]; cbn.
    + intros j. unfold model. cbn. rewrite Hws. destruct (decide (id = j)) as [<-|]; [|apply Hm]. apply with_weights_ok; [apply Hm|exact Hn'].
    + intros j. unfold detector. cbn. rewrite get_set. destruct (decide (id = j)) as [<-|]; [|apply Hd]. by split.
    + intros j. unfold loop. cbn. rewrite get_set. destruct (decide (id = j)) as [<-|]; [|apply Hl]. apply mark_loop_ok; [apply Hl|exact Hgo].
    + split; [done|]. split; [intros j Hj; unfold model, loop; cbn; rewrite Hws, get_set, !decide_False by done; done|]. split.
      * intros g' [= <-]. unfold model. cbn. by rewrite Hws, decide_True.
      * unfold loop. cbn. by rewrite get_set, decide_True.
Qed.

(** *** Runs *)
Inductive op :=
| Deliberate (ctx : EvalContext.t)
| Panel (ctx : EvalContext.t)
| Learn (id : ModelId.t) (ex : LearningLoop.TrainingExample)
| Train (id : ModelId.t) (rules : RuleEngine.t)
| Tick (k : Z)
| Load (depth latency : Z)
| Reboot.

Definition op_ok (o : op) : Prop :=
  match o with Learn _ ex => example_ok ex | Train _ rules => RuleSpec.engine_ok rules | _ => True end.

Definition step (o : op) (e : t) : exec t :=
  match o with
  | Deliberate ctx => Done (CouncilEngine.evaluate_tier2 e ctx).2
  | Panel ctx => Done (CouncilEngine.evaluate_tier3 e ctx).2
  | Learn id ex => '(_, e) ← record_example e id ex; Done e
  | Train id rules => '(_, e) ← train_step e id rules; Done e
  | Tick k => Done (sync_tick k e)
  | Load depth latency => Done (update_load_metrics depth latency e)
  | Reboot => Done (init (clear e))
  end.

Inductive council_reachable : t -> Prop :=
| council_boot : council_reachable (init new)
| council_step e o e' : council_reachable e -> op_ok o -> step o e = Done e' -> council_reachable e'.

(** Evaluations touch the counters only. *)
Definition same_parts (e e' : t) : Prop :=
  CouncilEngine.weights e' = CouncilEngine.weights e /\ drift_detectors e' = drift_detectors e /\ learning e' = learning e.

Lemma same_parts_ok e e' : same_parts e e' -> council_ok e -> council_ok e'.
Proof.
  intros (E1 & E2 & E3) [Hm Hd Hl]. split; intros id; unfold model, detector, loop; rewrite ?E1, ?E2, ?E3; [apply Hm|apply Hd|apply Hl].
Qed.

Lemma tier3_same e ctx : same_parts e (CouncilEngine.evaluate_tier3 e ctx).2.
Proof.
  unfold CouncilEngine.evaluate_tier3. cbv zeta. set (rounds := PerModel.to_list _). set (e1 := set_tier3_evals _ e).
  assert (same_parts e (foldl (fun e (r : PolicyVerdict.t * Z * bool) => if r.2 then tampered e else e) e1 rounds)) as Hf.
  { assert (same_parts e e1) as H1 by done. clearbody e1 rounds. revert e1 H1. induction rounds as [|r rs IH]; intros e1 H1; [done|]. cbn. apply IH. by destruct r.2. }
  by destruct (existsb _ _).
Qed.

Lemma tier2_same e ctx : same_parts e (CouncilEngine.evaluate_tier2 e ctx).2.
Proof.
  unfold CouncilEngine.evaluate_tier2. destruct (throttled e); [done|]. cbv zeta. destruct (negb _); [done|].
  destruct (forward _ ctx) as [v c]. destruct (c <? _); [|done]. exact (tier3_same (set_tier2_evals _ e) ctx).
Qed.

Lemma council_step_ok o e : council_ok e -> op_ok o -> exists e', step o e = Done e' /\ council_ok e'.
Proof.
  intros He Ho. destruct o as [ctx|ctx|id ex|id rules|k|depth latency|]; cbn [step op_ok] in *.
  - eexists. split; [done|]. eapply same_parts_ok, He. apply tier2_same.
  - eexists. split; [done|]. eapply same_parts_ok, He. apply tier3_same.
  - destruct (record_loop_ok (loop e id) ex (co_loops _ He id) Ho) as (b & l' & E & Hl'). unfold record_example. fold (loop e id). rewrite E. exec_simpl.
    eexists. split; [done|]. destruct He as [Hm Hd Hl]. split; [done|done|]. intros j. unfold loop. cbn. rewrite get_set. destruct (decide _); [done|apply Hl].
  - destruct (train_step_spec e id rules He Ho) as (e' & -> & He' & _). exec_simpl. eauto.
  - eexists. split; [done|]. by destruct He.
  - eexists. split; [done|]. by destruct He.
  - eexists. split; [done|]. destruct He as [Hm Hd Hl]. destruct council_init_ok as [Hm0 Hd0 _]. split; intros id.
    + exact (Hm0 id).
    + unfold detector, init, clear. cbn [drift_detectors]. rewrite get_map2, get_map. split; [done|]. intros _. cbn. destruct id; apply initial_near.
    + unfold loop, init, clear. cbn [learning]. rewrite get_map. pose proof (Hl id) as [Hs Hc Hx Hu]. split; cbn; [done|lia|done|unfold LearningLoop.MAX_UPDATES_PER_PERIOD; lia].
Qed.

Lemma council_reachable_ok e : council_reachable e -> council_ok e.
Proof.
  induction 1 as [|e o e' _ IH Ho E]; [apply council_init_ok|]. destruct (council_step_ok o e IH Ho) as (e'' & E' & He'). rewrite E in E'. by injection E' as <-.
Qed.


End Hashed.

#[local] Existing Instance ToyHash.sha3.


End Training.

(** ** Verdicts *)
Module Verdicts.
Import SimulatedModel CouncilEngine.

Section Hashed.
Context `{Sha3}.

Definition votes_for (ctx : EvalContext.t) (m : SimulatedModel.t) : bool := bool_decide ((forward m ctx).1 = PolicyVerdict.Allow).

(** At least two of three. *)
Definition majority (a b c : bool) : bool := (a && b) || (a && c) || (b && c).

(** Whether the council lets the action through. *)
Definition council_allows (e : t) (ctx : EvalContext.t) : bool :=
  let '(Three s a o) := WeightStore.models (CouncilEngine.weights e) in
  negb (throttled e) && verify_integrity s &&
  (if CONFIDENCE_THRESHOLD <=? (forward s ctx).2 then votes_for ctx s
   else verify_integrity a && verify_integrity o && majority (votes_for ctx s) (votes_for ctx a) (votes_for ctx o)).

Lemma forward_votes m ctx : (forward m ctx).1 = if votes_for ctx m then PolicyVerdict.Allow else PolicyVerdict.Deny.
Proof. unfold votes_for, forward. cbv zeta. cbn [fst]. by destruct (negb _). Qed.

Lemma panel_vote_spec m ctx :
  panel_vote m ctx = if verify_integrity m then ((forward m ctx).1, (forward m ctx).2, false) else (PolicyVerdict.Deny, 0, true).
Proof. unfold panel_vote. destruct (verify_integrity m); [|done]. cbn. by destruct (forward m ctx). Qed.

Lemma tier3_decision e ctx :
  let '(Three s a o) := WeightStore.models (CouncilEngine.weights e) in
  decision (CouncilEngine.evaluate_tier3 e ctx).1 =
    if verify_integrity s && verify_integrity a && verify_integrity o && majority (votes_for ctx s) (votes_for ctx a) (votes_for ctx o)
    then PolicyVerdict.Allow else PolicyVerdict.Deny.
Proof.
  unfold CouncilEngine.evaluate_tier3. cbv zeta. change (CouncilEngine.weights (set_tier3_evals _ e)) with (CouncilEngine.weights e).
  destruct (WeightStore.models (CouncilEngine.weights e)) as [s a o]. unfold PerModel.map, PerModel.to_list, count_votes. cbn [sentinel arbiter oracle].
  rewrite !panel_vote_spec. destruct (verify_integrity s), (verify_integrity a), (verify_integrity o); cbn [existsb fst snd orb andb]; try done.
  rewrite !forward_votes. by destruct (votes_for ctx s), (votes_for ctx a), (votes_for ctx o).
Qed.

Lemma tier2_decision e ctx :
  decision (CouncilEngine.evaluate_tier2 e ctx).1 = if council_allows e ctx then PolicyVerdict.Allow else PolicyVerdict.Deny.
Proof.
  unfold CouncilEngine.evaluate_tier2, council_allows.
  pose proof (tier3_decision (set_tier2_evals (u64_add (tier2_evals e) 1) e) ctx) as H3.
  change (CouncilEngine.weights (set_tier2_evals _ e)) with (CouncilEngine.weights e) in *.
  unfold WeightStore.get. destruct (WeightStore.models (CouncilEngine.weights e)) as [s a o].
  destruct (throttled e); [done|]. cbv zeta. cbn [PerModel.get sentinel negb andb].
  destruct (verify_integrity s); cbn [negb andb] in *; [|done].
  pose proof (forward_votes s ctx) as Hv. destruct (forward s ctx) as [v c]. cbn [fst snd] in *. rewrite Z.leb_antisym.
  destruct (c <? CONFIDENCE_THRESHOLD); cbn [negb]; [exact H3|]. cbn. exact Hv.
Qed.

(** C24. A message that the rules hand to the council passes only on an intact
    vote: when the first matching rule escalates to the council, the policy
    check accepts the message exactly if the council is not throttled, the
    sentinel matches its hash, and either the sentinel is confident and votes
    for it, or all three models match their hashes and two of them vote for it.
    The rules, the weights and the learning state stay as they were. *)
Theorem escalation_needs_intact_vote g e h sender_priority resource r :
  GovernanceEngine.initialized g = true -> BreakGlass.is_active (GovernanceEngine.break_glass g) = false ->
  RuleSpec.engine_ok (GovernanceEngine.rules g) ->
  let ctx := GovernanceEngine.context g h sender_priority resource in
  List.find (RuleSpec.matchesb ctx) (RuleSpec.active (GovernanceEngine.rules g)) = Some r -> RuleEngine.action r = RuleAction.EscalateToTier2 ->
  exists g' e', GovernanceEngine.evaluate_policy g e h sender_priority resource =
      Done (PolicyTheorems.verdict_of (council_allows e ctx), g', e') /\
    GovernanceEngine.rules g' = GovernanceEngine.rules g /\ GovernanceEngine.safety g' = GovernanceEngine.safety g /\ Training.same_parts e e'.
Proof.
  intros Hi Hb Hr ctx Hf Ha. unfold GovernanceEngine.evaluate_policy. rewrite Hi, Hb. cbn [negb]. fold ctx.
  unfold RuleEngine.evaluate_with_action. rewrite RuleSpec.engine_first_match, Hf by done. exec_simpl. cbn [fst]. rewrite Ha.
  unfold Governance.evaluate_tier2, council_tier2. pose proof (tier2_decision e ctx) as Hd. pose proof (Training.tier2_same e ctx) as Hs.
  destruct (CouncilEngine.evaluate_tier2 e ctx) as [v e']. cbn [fst snd] in *.
  destruct (council_allows e ctx); rewrite Hd; by eexists _, _.
Qed.

End Hashed.

#[local] Existing Instance ToyHash.sha3.

(** A rule that hands every message to the council. *)
Definition ask_council : RuleEngine.PolicyRule :=
  RuleEngine.mkRule "ask-council" 10 1 (replicate 4 (RuleEngine.mkCond RuleCondition.Always 0)) RuleAction.EscalateToTier2.

Definition asking : GovernanceEngine.t :=
  let g := GovernanceEngine.new in
  GovernanceEngine.mk (RuleEngine.mk (ask_council :: replicate 63 RuleEngine.empty_rule) 1) (GovernanceEngine.safety g) (GovernanceEngine.acs g)
    (GovernanceEngine.amendments g) (GovernanceEngine.break_glass g) (replicate 32 0) 0 0 0 0 true.

Lemma escalation_needs_intact_vote_witness : exists g' e',
  GovernanceEngine.evaluate_policy asking new PolicyTheorems.kernel_msg None None = Done (Err BusRouter.PolicyDenied, g', e').
Proof.
  destruct (escalation_needs_intact_vote asking new PolicyTheorems.kernel_msg None None ask_council) as (g' & e' & E & _).
  - reflexivity.
  - reflexivity.
  - split; [reflexivity|cbn; unfold RuleEngine.MAX_RULES; lia| |]; repeat constructor; cbn; lia.
  - reflexivity.
  - reflexivity.
  - exists g', e'. rewrite E. vm_compute. reflexivity.
Defined.

End Verdicts.

(** ** Overrides *)
Module Overrides.
Import OverrideManager.

(** The entry applies to the sender and message type at tick [k]. *)
Definition applies (pid ty k : Z) (e : OverrideEntry) : bool :=
  active e && (k <? expiry_tick e) && ((sender_pid e =? pid) && (msg_type e =? ty)).

Lemma check_finds m pid ty k : (check m pid ty k).1 = verdict <$> List.find (applies pid ty k) (entries m).
Proof.
  unfold check. generalize (count m). induction (entries m) as [|e es IH]; intros c; [done|]. cbn [check_loop List.find]. unfold applies at 1.
  rewrite (Z.ltb_antisym (expiry_tick e) k). destruct (active e); cbn [negb andb].
  - destruct (_ <=? k); cbn [negb andb].
    + specialize (IH (sat_sub c 1)). by destruct (check_loop pid ty k es (sat_sub c 1)) as [[r es'] c'].
    + destruct ((_ =? pid) && (_ =? ty)); [done|]. specialize (IH c). by destruct (check_loop pid ty k es c) as [[r es'] c'].
  - specialize (IH c). by destruct (check_loop pid ty k es c) as [[r es'] c'].
Qed.

(** The entry takes the first slot that is free or expired. *)
Lemma add_loop_finds fresh k es es' pid ty : add_loop fresh k es = Some es' -> applies pid ty k fresh = true ->
  List.find (applies pid ty k) es = None -> forall k', k <= k' ->
  List.find (applies pid ty k') es' = if applies pid ty k' fresh then Some fresh else None.
Proof.
  intros Ha Hf Hn k' Hk. assert (forall l, List.find (applies pid ty k) l = None -> List.find (applies pid ty k') l = None) as Hlater.
  { induction l as [|e l IH]; [done|]. cbn. destruct (applies pid ty k e) eqn:E; [done|]. intros Hl. destruct (applies pid ty k' e) eqn:E'; [|by apply IH].
    unfold applies in E, E'. destruct (active e); [|done]. cbn in *. destruct ((_ =? pid) && _); [|by rewrite andb_false_r in E'].
    rewrite andb_true_r in *. apply Z.ltb_lt in E'. apply Z.ltb_ge in E. lia. }
  revert es' Ha Hn. induction es as [|e es IH]; intros es' Ha Hn; cbn in *; [done|].
  destruct (applies pid ty k e) eqn:E; [done|]. destruct (negb (active e) || (expiry_tick e <=? k)) eqn:E2.
  - injection Ha as <-. cbn. destruct (applies pid ty k' fresh); [done|]. by apply Hlater.
  - destruct (add_loop fresh k es) as [es1|] eqn:E1; [|done]. injection Ha as <-. cbn.
    assert (applies pid ty k' e = false) as ->; [|by apply IH].
    specialize (Hlater [e]). cbn in Hlater. rewrite E in Hlater. destruct (applies pid ty k' e); [by specialize (Hlater eq_refl)|done].
Qed.

(** An override decides for its sender and message type, where none applied
    before, until its time is up and not after. *)
Theorem override_lives_for_its_ttl m name v tier k pid ty : in_u 64 k -> k + DEFAULT_OVERRIDE_TTL < 2 ^ 64 ->
  (check m pid ty k).1 = None -> (add m name v tier k pid ty).1 = true -> forall k', k <= k' ->
  (check (add m name v tier k pid ty).2 pid ty k').1 = if k' <? k + DEFAULT_OVERRIDE_TTL then Some v else None.
Proof.
  intros Hk Hw. rewrite check_finds. destruct (List.find _ (entries m)) eqn:Hn; [done|]. intros _. unfold add. cbv zeta.
  unfold u64_add. rewrite wrap_small by (unfold in_u, DEFAULT_OVERRIDE_TTL in *; lia).
  set (fresh := mkEntry _ _ _ _ _ _ _). destruct (add_loop fresh k (entries m)) as [es|] eqn:Ha; [|done]. intros _ k' Hk'. cbn [snd].
  rewrite check_finds. cbn [entries]. rewrite (add_loop_finds fresh k (entries m) es pid ty Ha); [|unfold applies; cbn|done|done].
  - unfold applies. cbn. rewrite !Z.eqb_refl, andb_true_r. by destruct (k' <? _).
  - rewrite !Z.eqb_refl, (proj2 (Z.ltb_lt _ _)) by (unfold DEFAULT_OVERRIDE_TTL; lia). done.
Qed.

(** Adding never raises the count, though pruning lowers it. *)
Lemma add_never_counts m name v tier k pid ty : count (add m name v tier k pid ty).2 = count m.
Proof. unfold add. cbv zeta. by destruct (add_loop _ _ _). Qed.

End Overrides.
