(* ===== verification/BusSend.v ===== *)
(** * Sending through the bus, end to end

    Models [bus::send] of [kernel/src/bus/mod.rs]: the policy check of the
    governance engine, then the capability and ownership checks of the store,
    then the router; and proves what an accepted message implies. *)

From S2P Require Import Prelude Wire Crypto FixedMap FixedMapSpec Trackers CapStore.
From S2P Require Import CapStoreInv CapStoreSpec CapTheorems Ring Bus AuditTrail Router.
From S2P Require Import RouterSpec BusTheorems Governance GovSpec GovTheorems.

Module BusSend.

(** The global state behind [GOVERNANCE], [COUNCIL], [STORE] and [BUS]. *)
Record kernel (C : Type) : Type := mk {
  gov : GovernanceEngine.t;
  council : C;
  store : CapStore.t;
  bus : BusRouter.t;
}.
Arguments mk {C}.
Arguments gov {C}.
Arguments council {C}.
Arguments store {C}.
Arguments bus {C}.

Section Send.
Context {C : Type} `{Tier2Council C} `{HmacSha3} `{Sha3} (key : list Z).

(** Steps 5 and 6 of the pipeline: the capability, then its owner. *)
Definition check_capability (st : CapStore.t) (h : MessageHeader.t) (nonce : Z)
    : exec (result unit BusRouter.BusError * CapStore.t) :=
  let cap := MessageHeader.capability_id h in
  if cap =? 0 then Done (Ok tt, st)
  else
    v ← CapStore.validate key st cap Perm.WRITE nonce;
    match fst v with
    | Err e => Done (Err (BusRouter.CapabilityInvalid e), snd v)
    | Ok _ =>
        i ← CapStore.get_token_info (snd v) cap;
        match i with
        | Some (owner, _) =>
            if negb (owner =? MessageHeader.sender h) then Done (Err BusRouter.OwnerMismatch, snd v)
            else Done (Ok tt, snd v)
        | None => Done (Err (BusRouter.CapabilityInvalid CapStore.NotFound), snd v)
        end
    end.

(** [bus::send]; [sender_priority] is what the process table has for the
    sender.  Each lock is taken and released in turn. *)
Definition send (k : kernel C) (h : MessageHeader.t) (payload : option (list Z)) (nonce : Z)
    (sender_priority : option Z) : exec (result unit BusRouter.BusError * kernel C) :=
  info ← CapStore.get_token_info (store k) (MessageHeader.capability_id h);
  p ← GovernanceEngine.evaluate_policy (gov k) (council k) h sender_priority
        (option_map snd info);
  let '(policy, g, c) := p in
  let k := mk g c (store k) (bus k) in
  match policy with
  | Err e => Done (Err e, k)
  | Ok _ =>
      v ← check_capability (store k) h nonce;
      let k := mk g c (snd v) (bus k) in
      match fst v with
      | Err e => Done (Err e, k)
      | Ok _ =>
          s ← BusRouter.send key (bus k) h payload nonce;
          Done (fst s, mk g c (store k) (snd s))
      end
  end.

(** The invariants of the three subsystems. *)
Record kernel_inv (k : kernel C) : Prop := {
  ki_gov : PolicyTheorems.gov_ok (gov k);
  ki_store : CapStoreSpec.store_inv key (store k);
  ki_bus : RouterSpec.router_inv (bus k);
  ki_room : AuditLog.total_count (BusRouter.audit (bus k)) + 1 < 2 ^ 64;
}.

(** The live token that the message names authorises it. *)
Definition authorised (st : CapStore.t) (h : MessageHeader.t) (nonce : Z) : Prop :=
  exists s, view (CapStore.tokens st) !! MessageHeader.capability_id h = Some s /\
    CapabilityToken.owner (CapStore.token s) = MessageHeader.sender h /\
    Perm.contains (CapStoreInv.perms s) Perm.WRITE = true /\
    CapStoreSpec.expired st s = false /\
    NonceTracker.last (CapStore.nonce_tracker st) (MessageHeader.capability_id h) < nonce.

Lemma check_capability_spec st h nonce :
  CapStoreSpec.store_inv key st ->
  exists r st', check_capability st h nonce = Done (r, st') /\ CapStoreSpec.store_inv key st' /\
    view (CapStore.tokens st') = view (CapStore.tokens st) /\
    (r = Ok tt -> MessageHeader.capability_id h = 0 \/ authorised st h nonce) /\
    (forall e, r = Err e -> e = BusRouter.OwnerMismatch \/ exists ce, e = BusRouter.CapabilityInvalid ce).
Proof.
  intros Hi. unfold check_capability.
  destruct (Z.eqb_spec (MessageHeader.capability_id h) 0) as [E|E].
  { exists (Ok tt), st. split_all; try done. by left. }
  destruct (CapStoreSpec.validate_spec key st (MessageHeader.capability_id h) Perm.WRITE nonce Hi)
    as (st1 & Hv & Hi1 & Ht & _). rewrite Hv. exec_simpl. cbn [fst snd].
  destruct (CapStoreSpec.verdict st (MessageHeader.capability_id h) Perm.WRITE nonce) as [[]|e] eqn:Hver.
  2: { eexists _, st1. split_all; try done; [by rewrite Ht|]. intros e' [= <-]. right. by eexists. }
  apply CapRuns.verdict_ok in Hver as (s & Hs & Hx & Hp & Hn & _).
  unfold CapStore.get_token_info. rewrite FixedMapSpec.get_view by apply Hi1. rewrite Ht, Hs.
  exec_simpl. cbn [option_map].
  destruct (Z.eqb_spec (CapabilityToken.owner (CapStore.token s)) (MessageHeader.sender h)) as [Eo|Eo];
    cbn [negb]; eexists _, st1; (split_all; [done|done|by rewrite Ht|..]).
  - intros _. right. by exists s.
  - done.
  - done.
  - intros e' [= <-]. by left.
Qed.

(** C23. What an accepted message implies: [bus::send] always returns and
    keeps the invariants of governance, store and router; and when it answers
    [Ok], the policy allowed the message, the sender and receiver are registered
    and distinct and the sender is not the kernel, the capability it names (if
    any) is live, unexpired, owned by the sender, grants WRITE and was used with
    a fresh nonce, and the receiver's inbox - and no other - has grown by this
    message, signed with the kernel's key. *)
Theorem accepted_message_is_authorised k h payload nonce sender_priority :
  kernel_inv k ->
  exists r k', send k h payload nonce sender_priority = Done (r, k') /\
    PolicyTheorems.gov_ok (gov k') /\ CapStoreSpec.store_inv key (store k') /\
    RouterSpec.router_inv (bus k') /\
    (r = Ok tt ->
       PolicyTheorems.policy_allows (gov k) h sender_priority = true /\
       (MessageHeader.capability_id h = 0 \/ authorised (store k) h nonce) /\
       RouterSpec.send_verdict (bus k) h payload = Ok tt /\
       exists q env, RouterSpec.pending (bus k) (MessageHeader.receiver h) = Some q /\
         Envelope.header env = h /\
         Envelope.hmac env = HmacEngine.sign key (RouterSpec.signed_bytes h
           (BusRouter.check_payload (MessageHeader.payload_len h) payload)) /\
         forall pid, RouterSpec.pending (bus k') pid =
           if pid =? MessageHeader.receiver h then Some (q ++ [env])
           else RouterSpec.pending (bus k) pid).
Proof.
  intros [Hg Hst Hb Hroom]. unfold send. unfold CapStore.get_token_info at 1.
  rewrite FixedMapSpec.get_view by apply Hst. exec_simpl.
  match goal with |- context [GovernanceEngine.evaluate_policy _ _ _ _ ?res] =>
    destruct (PolicyTheorems.policy_spec (council k) (gov k) h sender_priority res Hg)
      as (g' & -> & Hg' & _) end.
  exec_simpl. destruct (PolicyTheorems.policy_allows (gov k) h sender_priority) eqn:Hpol;
    cbn [PolicyTheorems.verdict_of store bus]; [|by eexists _, _].
  destruct (check_capability_spec (store k) h nonce Hst) as (r & st' & -> & Hst' & _ & Hok & _).
  exec_simpl. cbn [fst snd]. destruct r as [[]|e]; [|by eexists _, _].
  destruct (RouterSpec.send_spec key (bus k) h payload nonce Hb Hroom) as (b' & -> & Hsent).
  exec_simpl. cbn [fst snd bus store]. eexists _, _. split; [done|]. cbn.
  split_all; [done|done|by apply Hsent|]. intros Hv. rewrite Hv in Hsent. split_all; [done|by apply Hok|done|].
  destruct (RouterSpec.se_delivered _ _ _ _ _ _ Hsent eq_refl) as (q & env & Hq & (He & Hm & _) & Hp).
  by exists q, env.
Qed.

End Send.

(** ** A concrete send *)
Section Examples.
#[local] Existing Instance ToyHash.hmac.
#[local] Existing Instance ToyHash.sha3.
#[local] Instance no_council : Tier2Council unit := {| evaluate_tier2 c _ := (PolicyVerdict.Deny, c) |}.

Definition demo_key : list Z := HmacEngine.init 7.

(** A store with one token: process 2 may read and write resource 7. *)
Definition demo_ops : list CapRuns.op := [CapRuns.Create 7 3 2 None None].
Definition demo_store : CapStore.t :=
  match CapRuns.run demo_key CapStore.new demo_ops with Done (_, st) => st | _ => CapStore.new end.

Definition demo_kernel : kernel unit := mk PolicyTheorems.booted tt demo_store BusRuns.boot_state.

Definition demo_msg : MessageHeader.t := MessageHeader.mk 1 5 2 3 0 1 2 0 0 (replicate 16 0).

Lemma demo_store_inv : CapStoreSpec.store_inv demo_key demo_store.
Proof.
  destruct (CapRuns.run_spec demo_key demo_ops CapStore.new) as (rs & st & Hr & Hi & _);
    [apply CapStoreSpec.new_inv|cbn; lia|repeat constructor; cbn; unfold in_u; lia|].
  unfold demo_store. by rewrite Hr.
Qed.

Lemma demo_kernel_inv : kernel_inv demo_key demo_kernel.
Proof.
  destruct (BusRuns.bus_reachable_inv BusRuns.demo_key BusRuns.boot_state BusRuns.boot_reachable) as [Hb Hr].
  split; [apply PolicyTheorems.booted_ok|apply demo_store_inv|exact Hb|exact Hr].
Qed.

Lemma accepted_message_is_authorised_witness :
  exists r k', send demo_key demo_kernel demo_msg None 1 (Some 4) = Done (r, k') /\
    RouterSpec.router_inv (bus k') /\
    match send demo_key demo_kernel demo_msg None 1 (Some 4) with
    | Done (Ok _, _) => true
    | _ => false
    end = true.
Proof.
  destruct (accepted_message_is_authorised demo_key demo_kernel demo_msg None 1 (Some 4) demo_kernel_inv)
    as (r & k' & Hs & _ & _ & Hb & _).
  exists r, k'. split; [exact Hs|]. split; [exact Hb|]. clear Hs. vm_compute. reflexivity.
Defined.

End Examples.
End BusSend.
