(* ===== verification/Handle.v ===== *)
(** * Handle tables (src/kernel/src/handle/table.rs)

    The per-process slab of 256 slots that maps opaque handles to capability
    ids.  A handle packs a slot number with the generation the slot had when it
    was allocated ([Wire.HandleId]); the generation moves on when the slot is
    released.

    [HandleTable] is the code.  [HandleSpec] is its contract, a finite map from
    live handles to capabilities, with the refinement and the theorem that a
    released handle stays unusable for 65534 further releases. *)

From S2P Require Import Prelude Wire.

Module HandleTable.

Definition MAX_HANDLES : Z := 256.

Inductive HandleError :=
| TableFull | InvalidIndex | StaleGeneration | NotActive.

Record HandleEntry := mkEntry {
  cap_id : Z;
  active : bool;
  generation : Z;
}.

Definition empty : HandleEntry := mkEntry 0 false 0.

Record t := mk {
  entries : list HandleEntry;
  count : Z;
}.

Definition new : t := mk (replicate (Z.to_nat MAX_HANDLES) empty) 0.

(** The scan of [alloc]: [todo] is what is left of [0..MAX_HANDLES]. *)
Fixpoint alloc_loop (tb : t) (cap : Z) (todo : list Z) : exec (result Z HandleError * t) :=
  match todo with
  | [] => Done (Err TableFull, tb)
  | i :: todo' =>
      e ← arr_get (entries tb) i;
      if active e then alloc_loop tb cap todo'
      else
        es ← arr_set (entries tb) i (mkEntry cap true (generation e));
        Done (Ok (HandleId.pack (wrap 8 i) (generation e)), mk es (u64_add (count tb) 1))
  end.

Definition alloc (tb : t) (cap : Z) : exec (result Z HandleError * t) :=
  alloc_loop tb cap (seqZ 0 MAX_HANDLES).

Definition resolve (tb : t) (handle : Z) : exec (result Z HandleError) :=
  let slot := HandleId.slot handle in
  if decide (slot >= MAX_HANDLES) then Done (Err InvalidIndex)
  else
    e ← arr_get (entries tb) slot;
    if negb (active e) then Done (Err NotActive)
    else if decide (generation e <> HandleId.generation handle) then Done (Err StaleGeneration)
    else Done (Ok (cap_id e)).

Definition release (tb : t) (handle : Z) : exec (result unit HandleError * t) :=
  let slot := HandleId.slot handle in
  if decide (slot >= MAX_HANDLES) then Done (Err InvalidIndex, tb)
  else
    e ← arr_get (entries tb) slot;
    if negb (active e) then Done (Err NotActive, tb)
    else if decide (generation e <> HandleId.generation handle) then Done (Err StaleGeneration, tb)
    else
      es ← arr_set (entries tb) slot (mkEntry 0 false (wrap 16 (generation e + 1)));
      Done (Ok tt, mk es (wrap 64 (count tb - 1))).

Definition is_active (tb : t) (slot : Z) : exec bool :=
  if decide (slot < MAX_HANDLES) then
    e ← arr_get (entries tb) slot; Done (active e)
  else Done false.

Definition clear (tb : t) : t := mk (map (fun _ => empty) (entries tb)) 0.

End HandleTable.

Module HandleSpec.
Import HandleTable.
Notation slot_range := HandleIdFacts.slot_range (only parsing).
Notation generation_range := HandleIdFacts.generation_range (only parsing).

(** The handle a raw value denotes: the bits above 24 are ignored. *)
Definition canonical (h : Z) : Z := HandleId.pack (HandleId.slot h) (HandleId.generation h).

(** The number of slots in use. *)
Definition actives (es : list HandleEntry) : nat := length (List.filter active es).

(** [tb] implements the finite map [m] from live handles to capabilities. *)
Record represents (tb : t) (m : gmap Z Z) : Prop := {
  rep_length : length (entries tb) = 256%nat;
  rep_gen : forall i e, entries tb !! i = Some e -> in_u 16 (generation e);
  rep_count : count tb = Z.of_nat (size m);
  rep_size : size m = actives (entries tb);
  rep_live : forall h c, m !! h = Some c <-> canonical h = h /\
    exists e, entries tb !! Z.to_nat (HandleId.slot h) = Some e /\ active e = true /\
      generation e = HandleId.generation h /\ cap_id e = c;
}.

Lemma slot_canonical h : HandleId.slot (canonical h) = HandleId.slot h.
Proof. apply HandleIdFacts.slot_pack; [apply slot_range|apply generation_range]. Qed.

Lemma generation_canonical h : HandleId.generation (canonical h) = HandleId.generation h.
Proof. apply HandleIdFacts.generation_pack; [apply slot_range|apply generation_range]. Qed.

Lemma canonical_canonical h : canonical (canonical h) = canonical h.
Proof. unfold canonical at 1. by rewrite slot_canonical, generation_canonical. Qed.

Lemma canonical_pack s g : in_u 8 s -> in_u 16 g -> canonical (HandleId.pack s g) = HandleId.pack s g.
Proof.
  intros. unfold canonical.
  by rewrite HandleIdFacts.slot_pack, HandleIdFacts.generation_pack.
Qed.

(** Reading the entry a handle points at. *)
Lemma entry_at tb m h : represents tb m ->
  exists e, entries tb !! Z.to_nat (HandleId.slot h) = Some e /\ 
    arr_get (entries tb) (HandleId.slot h) = Done e.
Proof.
  intros Hr. pose proof (slot_range h) as Hs. unfold in_u in Hs.
  destruct (arr_get_in (entries tb) (HandleId.slot h)) as (e & He & Hl); [|by eauto].
  rewrite (rep_length _ _ Hr). lia.
Qed.

(** [resolve] is the lookup of the map. *)
Lemma resolve_spec tb m h : represents tb m ->
  exists r, resolve tb h = Done r /\ 
    (forall c, r = Ok c <-> m !! canonical h = Some c) /\
    (m !! canonical h = None -> r = Err NotActive \/ r = Err StaleGeneration).
Proof.
  intros Hr. destruct (entry_at tb m h Hr) as (e & Hl & He). pose proof (slot_range h) as Hs.
  unfold in_u in Hs. unfold resolve. rewrite decide_False by (unfold MAX_HANDLES; lia). rewrite He. exec_simpl.
  pose proof (rep_live _ _ Hr (canonical h)) as Hm.
  rewrite slot_canonical, generation_canonical, canonical_canonical in Hm.
  assert (forall c, m !! canonical h = Some c <->
    active e = true /\ generation e = HandleId.generation h /\ cap_id e = c) as Hm'.
  { intros c. rewrite Hm. split; [intros (_ & e' & He' & ?); by simplify_eq|]. intros ?; eauto. }
  destruct (active e); cbn [negb]; [case_decide|]; eexists; (split; [done|]).
  - split; [|by auto]. intros c. rewrite Hm'. naive_solver.
  - split; [intros c; rewrite Hm'; naive_solver|]. intros Hn.
    rewrite (proj2 (Hm' (cap_id e))) in Hn; [done|]. split_all; done.
  - split; [|by auto]. intros c. rewrite Hm'. naive_solver.
Qed.

Lemma actives_insert es i e e' : es !! i = Some e ->
  (actives (<[i := e']> es) + Nat.b2n (active e) = actives es + Nat.b2n (active e'))%nat.
Proof.
  unfold actives. revert i. induction es as [|x es IH]; intros [|i] Hi; simplify_eq/=.
  - destruct (active e), (active e'); cbn; lia.
  - specialize (IH i Hi). destruct (active x); cbn; lia.
Qed.

Lemma actives_bound es : (actives es <= length es)%nat.
Proof. induction es as [|x es IH]; unfold actives in *; cbn; [lia|]. destruct (active x); cbn; lia. Qed.

Lemma actives_full es : (forall i e, es !! i = Some e -> active e = true) -> actives es = length es.
Proof.
  intros Hf. unfold actives. f_equal. apply (retain_all active). intros e [i Hi]%list_elem_of_lookup. by eapply Hf.
Qed.

Lemma new_represents : represents new ∅.
Proof.
  split; try done.
  - intros i e [-> _]%lookup_replicate. unfold in_u. cbn. lia.
  - intros h c. rewrite lookup_empty. split; [done|].
    intros (_ & e & [-> _]%lookup_replicate & Ha & _). done.
Qed.

(** Filling a free slot adds its handle to the map. *)
Lemma fill_represents tb m i e cap :
  represents tb m -> entries tb !! i = Some e -> active e = false ->
  let h := HandleId.pack (Z.of_nat i) (generation e) in
  m !! h = None /\
  represents (mk (<[i := mkEntry cap true (generation e)]> (entries tb)) (u64_add (count tb) 1)) (<[h := cap]> m).
Proof.
  intros Hr Hi Ha h. pose proof (lookup_lt_Some _ _ _ Hi) as Hlt. rewrite (rep_length _ _ Hr) in Hlt.
  pose proof (rep_gen _ _ Hr i e Hi) as Hg.
  assert (in_u 8 (Z.of_nat i)) as Hs by (unfold in_u; lia).
  assert (HandleId.slot h = Z.of_nat i) as Hhs by (by apply HandleIdFacts.slot_pack).
  assert (HandleId.generation h = generation e) as Hhg by (by apply HandleIdFacts.generation_pack).
  assert (m !! h = None) as Hn.
  { apply eq_None_not_Some. intros [c Hc]. apply (rep_live _ _ Hr) in Hc as (_ & e' & He' & Ha' & _).
    rewrite Hhs, Nat2Z.id in He'. congruence. }
  split; [done|]. pose proof (actives_insert _ _ _ (mkEntry cap true (generation e)) Hi) as Hac.
  rewrite Ha in Hac. cbn in Hac. pose proof (actives_bound (entries tb)) as Hb. rewrite (rep_length _ _ Hr) in Hb.
  split; cbn [entries count].
  - rewrite length_insert. apply Hr.
  - intros j e' Hj. destruct (decide (i = j)) as [<-|Hij].
    + rewrite list_lookup_insert_eq in Hj by (rewrite (rep_length _ _ Hr); lia). by simplify_eq.
    + rewrite list_lookup_insert_ne in Hj by done. by eapply (rep_gen _ _ Hr).
  - rewrite map_size_insert_None by done. rewrite (rep_count _ _ Hr), u64_add_small; [lia|].
    rewrite (rep_size _ _ Hr). lia.
  - rewrite map_size_insert_None, (rep_size _ _ Hr) by done. lia.
  - intros h' c. destruct (decide (h = h')) as [<-|Hne].
    + rewrite lookup_insert_eq, Hhs, Nat2Z.id, list_lookup_insert_eq by (rewrite (rep_length _ _ Hr); lia).
      split; [intros [= <-]; split; [by apply canonical_pack|by eauto]|].
      intros (_ & e' & [= <-] & _ & _ & <-). done.
    + rewrite lookup_insert_ne by done. rewrite (rep_live _ _ Hr h' c).
      destruct (decide (i = Z.to_nat (HandleId.slot h'))) as [Hi'|Hij].
      * subst i. rewrite list_lookup_insert_eq by (rewrite (rep_length _ _ Hr); lia). split.
        -- intros (_ & e' & He' & Ha' & _). congruence.
        -- intros (Hcan & e' & [= <-] & _ & Hg' & _). cbn in Hg'. destruct Hne. rewrite <- Hcan. unfold h, canonical.
           rewrite Hg', Z2Nat.id; [done|]. apply slot_range.
      * by rewrite list_lookup_insert_ne.
Qed.

Lemma alloc_loop_spec tb m cap k : represents tb m -> (k <= 256)%nat ->
  (forall i e, (i < 256 - k)%nat -> entries tb !! i = Some e -> active e = true) ->
  (exists h tb', alloc_loop tb cap (seqZ (Z.of_nat (256 - k)) (Z.of_nat k)) = Done (Ok h, tb') /\
     m !! h = None /\ in_u 24 h /\ represents tb' (<[h := cap]> m)) \/
  (alloc_loop tb cap (seqZ (Z.of_nat (256 - k)) (Z.of_nat k)) = Done (Err TableFull, tb) /\ size m = 256%nat).
Proof.
  intros Hr. induction k as [|k IH]; intros Hk Hact.
  - right. split; [done|]. rewrite (rep_size _ _ Hr), actives_full; [apply Hr|].
    intros i e Hi. apply (Hact i e); [|done]. apply lookup_lt_Some in Hi. rewrite (rep_length _ _ Hr) in Hi. lia.
  - rewrite seqZ_cons by lia. cbn [alloc_loop].
    destruct (arr_get_in (entries tb) (Z.of_nat (256 - S k))) as (e & He & Hl); [rewrite (rep_length _ _ Hr); lia|].
    rewrite He. exec_simpl. rewrite Nat2Z.id in Hl. destruct (active e) eqn:Ha.
    + replace (Z.succ (Z.of_nat (256 - S k))) with (Z.of_nat (256 - k)) by lia.
      replace (Z.pred (Z.of_nat (S k))) with (Z.of_nat k) by lia.
      apply IH; [lia|]. intros i e' Hi He'.
      destruct (decide (i = 256 - S k)%nat) as [->|]; [congruence|]. apply (Hact i e'); [lia|done].
    + left. rewrite arr_set_Done by (rewrite (rep_length _ _ Hr); lia). exec_simpl. rewrite Nat2Z.id.
      destruct (fill_represents tb m _ e cap Hr Hl Ha) as [Hn Hr'].
      rewrite wrap_small by lia. eexists _, _. split; [done|]. split_all; [done| |done].
      pose proof (rep_gen _ _ Hr _ _ Hl). rewrite HandleIdFacts.pack_arith by (unfold in_u; lia || done).
      unfold in_u in *. lia.
Qed.

(** [alloc] adds a fresh handle, and fails exactly when all slots are in use. *)
Lemma alloc_spec tb m cap : represents tb m ->
  (exists h tb', alloc tb cap = Done (Ok h, tb') /\ (size m < 256)%nat /\
     m !! h = None /\ in_u 24 h /\ represents tb' (<[h := cap]> m)) \/
  (alloc tb cap = Done (Err TableFull, tb) /\ size m = 256%nat).
Proof.
  intros Hr. destruct (alloc_loop_spec tb m cap 256 Hr) as [(h & tb' & Ha & Hn & Hu & Hr')|[Ha Hs]]; [lia|lia| |].
  - left. exists h, tb'. split_all; try done. pose proof (rep_size _ _ Hr') as Hs.
    rewrite map_size_insert_None in Hs by done.
    pose proof (actives_bound (entries tb')). rewrite (rep_length _ _ Hr') in *. lia.
  - by right.
Qed.

(** Emptying the slot of a live handle removes exactly that handle. *)
Lemma drop_represents tb m h e :
  represents tb m -> entries tb !! Z.to_nat (HandleId.slot h) = Some e -> active e = true ->
  generation e = HandleId.generation h ->
  represents (mk (<[Z.to_nat (HandleId.slot h) := mkEntry 0 false (wrap 16 (generation e + 1))]> (entries tb))
                (wrap 64 (count tb - 1))) (delete (canonical h) m).
Proof.
  intros Hr Hi Ha Hg. set (i := Z.to_nat (HandleId.slot h)) in *. set (e' := mkEntry 0 false _).
  pose proof (lookup_lt_Some _ _ _ Hi) as Hlt.
  assert (m !! canonical h = Some (cap_id e)) as Hm.
  { apply (rep_live _ _ Hr). rewrite canonical_canonical, slot_canonical, generation_canonical. split; [done|]. by exists e. }
  pose proof (actives_insert _ _ _ e' Hi) as Hac. rewrite Ha in Hac. cbn in Hac.
  assert (size (delete (canonical h) m) = pred (size m)) as Hsz by (apply map_size_delete_Some; eauto).
  pose proof (actives_bound (entries tb)) as Hb. rewrite (rep_length _ _ Hr) in Hb.
  split; cbn [entries count].
  - rewrite length_insert. apply Hr.
  - intros j x Hj. destruct (decide (i = j)) as [<-|Hij].
    + rewrite list_lookup_insert_eq in Hj by done. simplify_eq. apply wrap_range. lia.
    + rewrite list_lookup_insert_ne in Hj by done. by eapply (rep_gen _ _ Hr).
  - rewrite (rep_count _ _ Hr), Hsz, wrap_small; rewrite (rep_size _ _ Hr); lia.
  - rewrite Hsz, (rep_size _ _ Hr). lia.
  - intros h' c. rewrite lookup_delete_Some, (rep_live _ _ Hr h' c).
    destruct (decide (i = Z.to_nat (HandleId.slot h'))) as [Hi'|Hij].
    + rewrite <- Hi', list_lookup_insert_eq by done. split; [|by intros (_ & x & [= <-] & ? & _)].
      intros (Hne & Hcan & x & Hx & _ & Hgx & _). exfalso. apply Hne. rewrite Hi in Hx. simplify_eq.
      rewrite <- Hcan. unfold canonical. rewrite <- Hg, Hgx.
      apply Z2Nat.inj in Hi'; [by rewrite Hi'|apply slot_range..].
    + rewrite list_lookup_insert_ne by done. split; [by intros [_ ?]|]. intros ?. split; [|done].
      intros <-. by rewrite slot_canonical in Hij.
Qed.

(** [release] removes a live handle, and changes nothing for any other value. *)
Lemma release_spec tb m h : represents tb m ->
  (exists tb', release tb h = Done (Ok tt, tb') /\ is_Some (m !! canonical h) /\
     represents tb' (delete (canonical h) m)) \/
  (exists e, release tb h = Done (Err e, tb) /\ m !! canonical h = None).
Proof.
  intros Hr. destruct (entry_at tb m h Hr) as (e & Hl & He). pose proof (slot_range h) as Hs.
  unfold in_u in Hs. unfold release. rewrite decide_False by (unfold MAX_HANDLES; lia). rewrite He. exec_simpl.
  pose proof (rep_live _ _ Hr (canonical h)) as Hm.
  rewrite slot_canonical, generation_canonical, canonical_canonical in Hm.
  destruct (active e) eqn:Ha; cbn [negb]; [case_decide|].
  - right. eexists. split; [done|]. apply eq_None_not_Some. intros [c Hc]. apply Hm in Hc as (_ & e' & He' & Ha' & Hg' & _). congruence.
  - left. rewrite arr_set_Done by (rewrite (rep_length _ _ Hr); lia). exec_simpl. eexists. split; [done|].
    split; [|by apply drop_represents]. exists (cap_id e). apply Hm. split; [done|]. by exists e.
  - right. eexists. split; [done|]. apply eq_None_not_Some. intros [c Hc]. apply Hm in Hc as (_ & e' & He' & Ha' & Hg' & _). congruence.
Qed.

Lemma clear_represents tb m : represents tb m -> represents (clear tb) ∅.
Proof.
  intros Hr. assert (entries (clear tb) = entries new) as He.
  { cbn [clear entries new]. change (map ?f ?l) with (f <$> l). rewrite (const_fmap _ _ empty) by done.
    by rewrite (rep_length _ _ Hr). }
  destruct new_represents as [H1 H2 H3 H4 H5]. rewrite <- He in *. by split.
Qed.

(** ** Runs *)
Inductive op :=
| Alloc (cap : Z)
| Resolve (h : Z)
| Release (h : Z)
| Clear.

Inductive answer :=
| GotHandle (r : result Z HandleError)
| GotCap (r : result Z HandleError)
| GotUnit (r : result unit HandleError)
| Cleared.

Definition step (tb : t) (o : op) : exec (answer * t) :=
  match o with
  | Alloc cap => '(r, tb') ← alloc tb cap; Done (GotHandle r, tb')
  | Resolve h => r ← resolve tb h; Done (GotCap r, tb)
  | Release h => '(r, tb') ← release tb h; Done (GotUnit r, tb')
  | Clear => Done (Cleared, clear tb)
  end.

Fixpoint run (tb : t) (ops : list op) : exec (list answer * t) :=
  match ops with
  | [] => Done ([], tb)
  | o :: ops' =>
      '(a, tb1) ← step tb o;
      '(rs, tb2) ← run tb1 ops';
      Done (a :: rs, tb2)
  end.

(** The contract: a table of at most 256 live handles.  The choice of the fresh
    handle is the implementation's. *)
Inductive spec_step (m : gmap Z Z) : op -> answer -> gmap Z Z -> Prop :=
| spec_alloc cap h : (size m < 256)%nat -> m !! h = None -> in_u 24 h ->
    spec_step m (Alloc cap) (GotHandle (Ok h)) (<[h := cap]> m)
| spec_full cap : size m = 256%nat ->
    spec_step m (Alloc cap) (GotHandle (Err TableFull)) m
| spec_resolve h c : m !! canonical h = Some c ->
    spec_step m (Resolve h) (GotCap (Ok c)) m
| spec_resolve_bad h e : m !! canonical h = None -> e = NotActive \/ e = StaleGeneration ->
    spec_step m (Resolve h) (GotCap (Err e)) m
| spec_release h : is_Some (m !! canonical h) ->
    spec_step m (Release h) (GotUnit (Ok tt)) (delete (canonical h) m)
| spec_release_bad h e : m !! canonical h = None ->
    spec_step m (Release h) (GotUnit (Err e)) m
| spec_clear : spec_step m Clear Cleared ∅.

Inductive spec_run : gmap Z Z -> list op -> list answer -> gmap Z Z -> Prop :=
| spec_nil m : spec_run m [] [] m
| spec_cons m o a m1 ops rs m2 :
    spec_step m o a m1 -> spec_run m1 ops rs m2 -> spec_run m (o :: ops) (a :: rs) m2.
#[local] Hint Constructors spec_step spec_run : core.

Lemma step_refines tb m o : represents tb m ->
  exists a tb' m', step tb o = Done (a, tb') /\ spec_step m o a m' /\ represents tb' m'.
Proof.
  intros Hr. destruct o as [cap|h|h|]; cbn [step].
  - destruct (alloc_spec tb m cap Hr) as [(h & tb' & -> & ?)|[-> ?]]; eexists _, _, _; split; try done; naive_solver.
  - destruct (resolve_spec tb m h Hr) as (r & -> & Hok & Hbad). eexists _, _, m. split; [done|]. split; [|done].
    destruct (m !! canonical h) as [c|] eqn:E.
    + rewrite (proj2 (Hok c) eq_refl). eauto.
    + destruct Hbad as [-> | ->]; eauto.
  - destruct (release_spec tb m h Hr) as [(tb' & -> & ?)|(e & -> & ?)]; eexists _, _, _; split; try done; naive_solver.
  - eexists _, _, _. split; [done|]. split; [by eauto|by eapply clear_represents].
Qed.

Lemma run_refines ops tb m : represents tb m ->
  exists rs tb' m', run tb ops = Done (rs, tb') /\ spec_run m ops rs m' /\ represents tb' m'.
Proof.
  revert tb m. induction ops as [|o ops IH]; intros tb m Hr; [by eauto 10|].
  destruct (step_refines tb m o Hr) as (a & tb1 & m1 & Hs & Hsp & Hr1).
  destruct (IH tb1 m1 Hr1) as (rs & tb2 & m2 & Hrun & Hsr & Hr2). cbn [run].
  rewrite Hs. exec_simpl. rewrite Hrun. eauto 10.
Qed.

Definition reachable (tb : t) : Prop := exists ops rs, run new ops = Done (rs, tb).

Lemma reachable_represents tb : reachable tb -> exists m, represents tb m.
Proof.
  intros (ops & rs & Hr). destruct (run_refines ops new ∅ new_represents) as (rs' & tb' & m & Hr' & _ & Hm).
  exists m. congruence.
Qed.

(** ** Generations *)
Definition gen_at (tb : t) (s : Z) : option Z := generation <$> entries tb !! Z.to_nat s.

Definition releases (ops : list op) : Z :=
  Z.of_nat (length (List.filter (fun o => match o with Release _ => true | _ => false end) ops)).

Definition is_clear (o : op) : bool := match o with Clear => true | _ => false end.

Lemma gen_at_insert tb i e e' c s : entries tb !! i = Some e -> 
  gen_at (mk (<[i := e']> (entries tb)) c) s =
    (if decide (i = Z.to_nat s) then Some (generation e') else gen_at tb s).
Proof.
  intros Hi. unfold gen_at. cbn [entries]. case_decide; [subst i|by rewrite list_lookup_insert_ne].
  rewrite list_lookup_insert_eq; [done|]. by eapply lookup_lt_Some.
Qed.

Lemma alloc_gen tb cap todo r tb' s :
  alloc_loop tb cap todo = Done (r, tb') -> gen_at tb' s = gen_at tb s.
Proof.
  induction todo as [|i todo IH]; cbn [alloc_loop]; [by intros [= _ <-]|].
  intros (e & He & H)%bind_Done. destruct (active e); [by apply IH|].
  apply arr_get_Done in He as [Hi He]. apply bind_Done in H as (es & Hes & [= _ <-]).
  unfold arr_set in Hes. case_decide; simplify_eq.
  rewrite (gen_at_insert _ _ _ _ _ _ He). case_decide; [|done]. subst. unfold gen_at.
  replace (Z.to_nat s) with (Z.to_nat i) by lia. by rewrite He.
Qed.

(** An operation other than [Clear] moves the generation of a slot on by at most
    one, and only a release moves it. *)
Lemma step_gen tb o a tb' s g :
  is_clear o = false -> step tb o = Done (a, tb') -> gen_at tb s = Some g -> in_u 16 g ->
  exists k, 0 <= k <= releases [o] /\ gen_at tb' s = Some (wrap 16 (g + k)).
Proof.
  intros Hc Hs Hg Hu.
  assert (gen_at tb' s = Some g -> exists k, 0 <= k <= releases [o] /\ gen_at tb' s = Some (wrap 16 (g + k))) as Hsame.
  { exists 0. split; [unfold releases; lia|]. by rewrite Z.add_0_r, wrap_small. }
  destruct o as [cap|h|h|]; cbn [step is_clear] in *; [..|done].
  - apply bind_Done in Hs as ([r tb1] & Ha & [= _ ->]). apply Hsame. by rewrite (alloc_gen _ _ _ _ _ s Ha).
  - apply bind_Done in Hs as (r & _ & [= _ <-]). by apply Hsame.
  - apply bind_Done in Hs as ([r tb1] & Ha & [= _ ->]). unfold release in Ha.
    case_decide; [simplify_eq; by apply Hsame|]. apply bind_Done in Ha as (e & He & Ha).
    destruct (active e); cbn [negb] in Ha; [|simplify_eq; by apply Hsame].
    case_decide; [simplify_eq; by apply Hsame|].
    apply bind_Done in Ha as (es & Hes & [= _ <-]). apply arr_get_Done in He as [_ He].
    unfold arr_set in Hes. case_decide; simplify_eq. rewrite (gen_at_insert _ _ _ _ _ _ He) in Hsame |- *.
    case_decide as Heq; [|by apply Hsame]. exists 1. split; [done|].
    unfold gen_at in Hg. rewrite <- Heq, He in Hg. by simplify_eq/=.
Qed.

Lemma run_gen ops tb rs tb' s g :
  forallb (fun o => negb (is_clear o)) ops = true -> run tb ops = Done (rs, tb') ->
  gen_at tb s = Some g -> in_u 16 g ->
  exists k, 0 <= k <= releases ops /\ gen_at tb' s = Some (wrap 16 (g + k)).
Proof.
  revert tb rs g. induction ops as [|o ops IH]; intros tb rs g Hc Hr Hg Hu; cbn [run forallb] in *.
  - simplify_eq. exists 0. split; [done|]. by rewrite Z.add_0_r, wrap_small.
  - apply andb_prop in Hc as [Ho Hc]. apply negb_true_iff in Ho.
    apply bind_Done in Hr as ([a tb1] & Hs & Hr). apply bind_Done in Hr as ([rs1 tb2] & Hr & [= _ ->]).
    destruct (step_gen _ _ _ _ s g Ho Hs Hg Hu) as (k & Hk & Hg1).
    destruct (IH _ _ _ Hc Hr Hg1) as (k' & Hk' & Hg2); [apply wrap_range; lia|].
    exists (k + k'). split; [unfold releases in *; destruct o; cbn in *; lia|].
    rewrite Hg2. f_equal. unfold wrap. rewrite Zplus_mod_idemp_l. f_equal. lia.
Qed.

Lemma released_gen tb m h tb' :
  represents tb m -> release tb h = Done (Ok tt, tb') ->
  gen_at tb' (HandleId.slot h) = Some (wrap 16 (HandleId.generation h + 1)).
Proof.
  intros Hr. unfold release. case_decide; [done|]. destruct (entry_at tb m h Hr) as (e & Hl & He).
  rewrite He. exec_simpl. destruct (active e); [cbn [negb]|done]. case_decide as Hg; [done|].
  intros (es & Hes & [= <-])%bind_Done. unfold arr_set in Hes. case_decide; simplify_eq.
  rewrite (gen_at_insert _ _ _ _ _ _ Hl), decide_True by done. cbn. by rewrite Hg.
Qed.

Lemma gen_mismatch_fails tb m h g : represents tb m -> gen_at tb (HandleId.slot h) = Some g ->
  g <> HandleId.generation h -> exists e, resolve tb h = Done (Err e).
Proof.
  intros Hr Hg Hne. destruct (entry_at tb m h Hr) as (e & Hl & He). unfold gen_at in Hg. rewrite Hl in Hg.
  simplify_eq/=. unfold resolve. case_decide; [by eauto|]. rewrite He. exec_simpl.
  destruct (active e); cbn [negb]; [|by eauto]. rewrite decide_True by done. by eauto.
Qed.

(** ** Properties *)

(** C26. a handle table implements a finite map of at most 256 live handles.  Any
    sequence of [alloc], [resolve], [release] and [clear] on a new table runs to
    completion, and its answers are those of the map: an allocation yields a
    handle that was not live and fails exactly when 256 are, a handle resolves
    to the capability it was allocated for as long as it is live, and a value
    that is not a live handle is refused by [resolve] and [release] without a
    change. *)
Theorem handle_table_refines_map ops :
  exists rs tb m, run new ops = Done (rs, tb) /\ spec_run ∅ ops rs m /\
    count tb = Z.of_nat (size m) /\
    forall h c, resolve tb h = Done (Ok c) <-> m !! canonical h = Some c.
Proof.
  destruct (run_refines ops new ∅ new_represents) as (rs & tb & m & Hr & Hs & Hm).
  exists rs, tb, m. split_all; [done|done|apply Hm|]. intros h c.
  destruct (resolve_spec tb m h Hm) as (r & -> & Hok & _). rewrite <- Hok. naive_solver.
Qed.

(** a released handle stays dead.  After a successful [release] of [h],
    whatever sequence of operations follows without a [clear], and with fewer
    than 65535 releases in it, [resolve] refuses [h]. *)
Theorem released_handle_stays_dead tb h tb1 ops rs tb2 :
  reachable tb -> release tb h = Done (Ok tt, tb1) ->
  forallb (fun o => negb (is_clear o)) ops = true -> releases ops < 65535 ->
  run tb1 ops = Done (rs, tb2) ->
  exists e, resolve tb2 h = Done (Err e).
Proof.
  intros [m Hm]%reachable_represents Hrel Hc Hn Hrun.
  pose proof (released_gen _ _ _ _ Hm Hrel) as Hg.
  destruct (run_gen _ _ _ _ _ _ Hc Hrun Hg) as (k & Hk & Hg2); [apply wrap_range; lia|].
  assert (exists m2, represents tb2 m2) as [m2 Hm2].
  { destruct (release_spec tb m h Hm) as [(tb' & Hr & _ & Hr1)|(e & Hr & _)]; [|congruence].
    assert (tb' = tb1) as -> by congruence.
    destruct (run_refines ops tb1 _ Hr1) as (? & ? & m2 & Hr2 & _ & ?). exists m2. congruence. }
  eapply gen_mismatch_fails; [done..|]. pose proof (generation_range h) as Hu. unfold in_u in Hu.
  unfold wrap in *. rewrite Zplus_mod_idemp_l. set (g := HandleId.generation h) in *. intros Heq.
  assert (g + 1 + k < 2 * 65536) as Hlt by lia.
  destruct (decide (g + 1 + k < 2 ^ 16)); [rewrite Z.mod_small in Heq; lia|].
  rewrite <- (Z.mod_add _ (-1)), Z.mod_small in Heq; lia.
Qed.

Definition two_slots : t := match run new [Alloc 7; Alloc 9] with Done (_, tb) => tb | _ => new end.

Lemma two_slots_reachable : reachable two_slots.
Proof. eexists [Alloc 7; Alloc 9], _. vm_compute. reflexivity. Qed.

Definition one_released : t := match release two_slots 1 with Done (_, tb) => tb | _ => new end.

Definition slot_reused : t :=
  match run one_released [Alloc 5; Resolve 1; Alloc 6] with Done (_, tb) => tb | _ => new end.

Lemma released_handle_stays_dead_witness : exists e, resolve slot_reused 1 = Done (Err e).
Proof.
  apply (released_handle_stays_dead two_slots 1 one_released [Alloc 5; Resolve 1; Alloc 6]
    [GotHandle (Ok (1 + 256)); GotCap (Err StaleGeneration); GotHandle (Ok 2)] slot_reused two_slots_reachable);
    vm_compute; reflexivity.
Defined.

(** [clear] sets the generations back: a handle released before it is live again
    once its slot is reused.  A restarted process ([reset_for_restart]) clears its
    table in this way. *)
Definition cleared_and_reused : t :=
  match run one_released [Clear; Alloc 5; Alloc 6] with Done (_, tb) => tb | _ => new end.

Lemma clear_revives_stale_handles : resolve cleared_and_reused 1 = Done (Ok 6).
Proof. vm_compute. reflexivity. Qed.

End HandleSpec.
