(* ===== verification/Process.v ===== *)
(** * Processes, scheduling and supervision (src/kernel/src/process/)

    [Intent], [RestartTracker], [BehavioralProfile], [Pcb], [ProcessTable],
    [Scheduler], [Supervisor] and [Butler] translate the files of the same
    names; [Process] is process/mod.rs, the operations that work on the global
    table and scheduler and keep the bus registered.  The [BTreeMap] of
    processes is a finite map, the five run queues an array of five lists.

    The socket table (network/socket.rs) is reached through the class
    [SocketLayer]: termination calls its clean-up and uses nothing else of it.
    The two routines that build page tables and stacks in memory, [spawn_user]
    and [spawn_elf], are not modelled. *)

From S2P Require Import Prelude Wire Crypto FixedMap FixedMapSpec Trackers CapStore.
From S2P Require Import Ring Bus AuditTrail Router Handle.

(** ** Wire types (src/fabric_types/src/process.rs) *)
Inductive IntentCategory := Compute | Io | Network | Storage | Display | Ai.
Inductive Priority := Background | Low | Normal | High | Critical.
Inductive ProcessState := Ready | Running | Blocked | Suspended | Terminated.
Inductive EnergyClass := Battery | Balanced | Performance.
Inductive SupervisionStrategy := OneForOne | OneForAll | RestForOne.

#[export] Instance intent_category_eq : EqDecision IntentCategory.
Proof. solve_decision. Defined.
#[export] Instance priority_eq : EqDecision Priority.
Proof. solve_decision. Defined.
#[export] Instance process_state_eq : EqDecision ProcessState.
Proof. solve_decision. Defined.

(** [priority as u8]. *)
Definition priority_u8 (p : Priority) : Z :=
  match p with Background => 0 | Low => 1 | Normal => 2 | High => 3 | Critical => 4 end.

Module Intent.

Record t := mk {
  category : IntentCategory;
  priority : Priority;
  energy_class : EnergyClass;
  deadline : Z;
}.

Definition default : t := mk Compute Normal Balanced 0.

End Intent.

(** ProcessId::KERNEL and ProcessId::BUTLER. *)
Definition KERNEL : Z := 0.
Definition BUTLER : Z := 1.

(** ** Restart intensity (process/supervisor.rs) *)
Module RestartTracker.

Definition DEFAULT_MAX_RESTARTS : Z := 5.
Definition DEFAULT_INTENSITY_WINDOW : Z := 60.

Record t := mk {
  max_restarts : Z;
  window_ticks : Z;
  restart_timestamps : list Z;
}.

Definition new (max_restarts window_ticks : Z) : t := mk max_restarts window_ticks [].

(** Record a restart; [true] when the intensity has been exceeded. *)
Definition record_restart (tr : t) (now : Z) : bool * t :=
  let kept := retain (fun ts => sat_sub now ts <? window_ticks tr) (restart_timestamps tr) in
  let stamps := kept ++ [now] in
  (Z.of_nat (length stamps) >? max_restarts tr, mk (max_restarts tr) (window_ticks tr) stamps).

Definition recent_count (tr : t) (now : Z) : Z :=
  wrap 32 (Z.of_nat (length (retain (fun ts => sat_sub now ts <? window_ticks tr) (restart_timestamps tr)))).

Definition clear (tr : t) : t := mk (max_restarts tr) (window_ticks tr) [].

Definition default : t := new DEFAULT_MAX_RESTARTS DEFAULT_INTENSITY_WINDOW.

End RestartTracker.

(** ** Process control blocks (process/pcb.rs) *)
Module BehavioralProfile.

Record t := mk {
  total_ticks_run : Z;
  total_bursts : Z;
  avg_burst_ticks : Z;
  total_messages_sent : Z;
  total_memory_allocated : Z;
  anomaly_score : Z;
  last_updated : Z;
}.

Definition new : t := mk 0 0 0 0 0 0 0.

Definition reset (_ : t) : t := new.

Definition set_total_ticks_run (v : Z) (p : t) : t :=
  mk v (total_bursts p) (avg_burst_ticks p) (total_messages_sent p) (total_memory_allocated p)
    (anomaly_score p) (last_updated p).

End BehavioralProfile.

(** The fields of [AddressSpace] (address_space/per_process.rs). *)
Record AddressSpace := mkAddressSpace {
  pml4_phys : Z;
  pml4_virt : Z;
  user_page_count : Z;
  as_active : bool;
}.

Module ExitReason.
Inductive t := Normal | Crash | Killed | IntensityExceeded.
End ExitReason.

Module Pcb.

Record t := mk {
  pid : Z;
  intent : Intent.t;
  description : string;
  state : ProcessState;
  effective_priority : Z;
  base_priority : Z;
  time_slice_remaining : Z;
  total_ticks_run : Z;
  blocked_on : option Z;
  last_scheduled : Z;
  wake_tick : Z;
  capabilities : list Z;
  supervisor : Z;
  children : list Z;
  strategy : SupervisionStrategy;
  spawn_order : Z;
  restart_tracker : RestartTracker.t;
  profile : BehavioralProfile.t;
  exit_reason : option ExitReason.t;
  created_at : Z;
  handle_table : HandleTable.t;
  address_space : option AddressSpace;
  saved_rsp : Z;
  kernel_stack_base : option Z;
  kernel_stack_top : Z;
  has_run : bool;
  is_user : bool;
  exit_code : Z;
}.

Definition new (pid : Z) (intent : Intent.t) (description : string) (supervisor : Z)
    (strategy : SupervisionStrategy) (spawn_order created_at : Z) : t :=
  let base_priority := priority_u8 (Intent.priority intent) in
  {| Pcb.pid := pid; intent := intent; description := description; state := Ready;
     effective_priority := base_priority; base_priority := base_priority;
     time_slice_remaining := 0; total_ticks_run := 0; blocked_on := None;
     last_scheduled := 0; wake_tick := 0; capabilities := []; supervisor := supervisor;
     children := []; strategy := strategy; spawn_order := spawn_order;
     restart_tracker := RestartTracker.default; profile := BehavioralProfile.new;
     exit_reason := None; created_at := created_at; handle_table := HandleTable.new;
     address_space := None; saved_rsp := 0; kernel_stack_base := None;
     kernel_stack_top := 0; has_run := false; is_user := false; exit_code := 0 |}.

(** *** Field updates *)
Definition eta (p : t) : t :=
  mk (pid p) (intent p) (description p) (state p) (effective_priority p) (base_priority p)
    (time_slice_remaining p) (total_ticks_run p) (blocked_on p) (last_scheduled p) (wake_tick
    p) (capabilities p) (supervisor p) (children p) (strategy p) (spawn_order p)
    (restart_tracker p) (profile p) (exit_reason p) (created_at p) (handle_table p)
    (address_space p) (saved_rsp p) (kernel_stack_base p) (kernel_stack_top p) (has_run p)
    (is_user p) (exit_code p).

Definition set_state (v : ProcessState) (p : t) : t := ltac:(set_field eta state v p).
Definition set_effective_priority (v : Z) (p : t) : t := ltac:(set_field eta effective_priority v p).
Definition set_time_slice_remaining (v : Z) (p : t) : t := ltac:(set_field eta time_slice_remaining v p).
Definition set_total_ticks_run (v : Z) (p : t) : t := ltac:(set_field eta total_ticks_run v p).
Definition set_blocked_on (v : option Z) (p : t) : t := ltac:(set_field eta blocked_on v p).
Definition set_last_scheduled (v : Z) (p : t) : t := ltac:(set_field eta last_scheduled v p).
Definition set_wake_tick (v : Z) (p : t) : t := ltac:(set_field eta wake_tick v p).
Definition set_children (v : list Z) (p : t) : t := ltac:(set_field eta children v p).
Definition set_restart_tracker (v : RestartTracker.t) (p : t) : t := ltac:(set_field eta restart_tracker v p).
Definition set_profile (v : BehavioralProfile.t) (p : t) : t := ltac:(set_field eta profile v p).
Definition set_exit_reason (v : option ExitReason.t) (p : t) : t := ltac:(set_field eta exit_reason v p).
Definition set_created_at (v : Z) (p : t) : t := ltac:(set_field eta created_at v p).
Definition set_handle_table (v : HandleTable.t) (p : t) : t := ltac:(set_field eta handle_table v p).
Definition set_saved_rsp (v : Z) (p : t) : t := ltac:(set_field eta saved_rsp v p).
Definition set_has_run (v : bool) (p : t) : t := ltac:(set_field eta has_run v p).
Definition set_exit_code (v : Z) (p : t) : t := ltac:(set_field eta exit_code v p).

Definition reset_for_restart (p : t) (now : Z) : t :=
  let p := set_state Ready p in
  let p := set_effective_priority (base_priority p) p in
  let p := set_time_slice_remaining 0 p in
  let p := set_blocked_on None p in
  let p := set_last_scheduled 0 p in
  let p := set_wake_tick 0 p in
  let p := set_profile (BehavioralProfile.reset (profile p)) p in
  let p := set_exit_reason None p in
  let p := set_created_at now p in
  let p := set_handle_table (HandleTable.clear (handle_table p)) p in
  let p := set_saved_rsp 0 p in
  set_has_run false p.

End Pcb.

(** ** The process table (process/table.rs) *)
Module ProcessTable.

Definition MAX_PROCESSES : Z := 1024.

Inductive ProcessError :=
| TableFull | NotFound | AlreadyExists | InvalidState | SupervisorNotFound
| MaxChildrenReached | IntensityExceeded | NotSupervisor | InvalidPid | BusRegistrationFailed.

Record t := mk {
  processes : gmap Z Pcb.t;
  next_pid : Z;
}.

Definition new : t := mk ∅ 1.

Definition alloc_pid (tb : t) : Z * t :=
  (next_pid tb, mk (processes tb) (u32_add (next_pid tb) 1)).

Definition insert (tb : t) (pcb : Pcb.t) : result unit ProcessError * t :=
  if Z.of_nat (size (processes tb)) >=? MAX_PROCESSES then (Err TableFull, tb)
  else if bool_decide (is_Some (processes tb !! Pcb.pid pcb)) then (Err AlreadyExists, tb)
  else (Ok tt, mk (<[Pcb.pid pcb := pcb]> (processes tb)) (next_pid tb)).

Definition get (tb : t) (pid : Z) : option Pcb.t := processes tb !! pid.

(** Writing through [get_mut(pid)]: nothing happens when there is no such process. *)
Definition update (tb : t) (pid : Z) (f : Pcb.t -> Pcb.t) : t :=
  mk (alter f pid (processes tb)) (next_pid tb).

Definition remove (tb : t) (pid : Z) : option Pcb.t * t :=
  (processes tb !! pid, mk (delete pid (processes tb)) (next_pid tb)).

Definition contains (tb : t) (pid : Z) : bool := bool_decide (is_Some (processes tb !! pid)).

Definition count (tb : t) : Z := Z.of_nat (size (processes tb)).

Definition clear (_ : t) : t := mk ∅ 1.

End ProcessTable.

(** ** The scheduler (process/scheduler.rs) *)
Module Scheduler.

Definition SLICE_CRITICAL : Z := 20.
Definition SLICE_HIGH : Z := 15.
Definition SLICE_NORMAL : Z := 10.
Definition SLICE_LOW : Z := 5.
Definition SLICE_BACKGROUND : Z := 2.
Definition AGING_INTERVAL : Z := 100.
Definition DEADLINE_URGENCY : Z := 10.
Definition NUM_LEVELS : Z := 5.

Definition slice_for_priority (p : Z) : Z :=
  if p =? 4 then SLICE_CRITICAL
  else if p =? 3 then SLICE_HIGH
  else if p =? 2 then SLICE_NORMAL
  else if p =? 1 then SLICE_LOW
  else SLICE_BACKGROUND.

Record t := mk {
  run_queues : list (list Z);
  current : option Z;
  current_tick : Z;
  total_decisions : Z;
}.

Definition new : t := mk (replicate 5 []) None 0 0.

Definition advance_ticks (s : t) (n : Z) : t :=
  mk (run_queues s) (current s) (u64_add (current_tick s) n) (total_decisions s).

Definition tick (s : t) : t := advance_ticks s 1.

Definition with_queues (s : t) (q : list (list Z)) : t :=
  mk q (current s) (current_tick s) (total_decisions s).
Definition with_current (s : t) (c : option Z) : t :=
  mk (run_queues s) c (current_tick s) (total_decisions s).

(** [(priority as usize).min(NUM_LEVELS - 1)]. *)
Definition level_of (priority : Z) : Z := Z.min priority (NUM_LEVELS - 1).

Definition enqueue (s : t) (pid effective_priority : Z) : exec t :=
  let level := level_of effective_priority in
  q ← arr_get (run_queues s) level;
  if bool_decide (pid ∈ q) then Done s
  else
    qs ← arr_set (run_queues s) level (q ++ [pid]);
    Done (with_queues s qs).

(** [queue.retain(|&p| p != pid)]. *)
Definition without (pid : Z) (q : list Z) : list Z := retain (fun p => negb (p =? pid)) q.

Definition dequeue (s : t) (pid : Z) : t :=
  let s := with_queues s (map (without pid) (run_queues s)) in
  if bool_decide (current s = Some pid) then with_current s None else s.

(** Whether the current process keeps the processor. *)
Definition keeps_running (s : t) (table : ProcessTable.t) : option Z :=
  match current s with
  | Some pid =>
      match ProcessTable.get table pid with
      | Some pcb =>
          if bool_decide (Pcb.state pcb = Running) && (Pcb.time_slice_remaining pcb >? 0)
          then Some pid else None
      | None => None
      end
  | None => None
  end.

(** The current process, if it was running, goes back to its queue. *)
Definition requeue_current (s : t) (table : ProcessTable.t) : exec (t * ProcessTable.t) :=
  match current s with
  | None => Done (s, table)
  | Some pid =>
      let s := with_current s None in
      match ProcessTable.get table pid with
      | Some pcb =>
          if bool_decide (Pcb.state pcb = Running) then
            let table := ProcessTable.update table pid (Pcb.set_state Ready) in
            s ← enqueue s pid (Pcb.effective_priority pcb);
            Done (s, table)
          else Done (s, table)
      | None => Done (s, table)
      end
  end.

(** What a process gets when it is selected at tick [now]. *)
Definition selected (now : Z) (pcb : Pcb.t) : Pcb.t :=
  let pcb := Pcb.set_state Running pcb in
  let pcb := Pcb.set_time_slice_remaining (slice_for_priority (Pcb.effective_priority pcb)) pcb in
  Pcb.set_last_scheduled now pcb.

(** The scan of the queues, [levels] being the levels still to visit. *)
Fixpoint scan (s : t) (table : ProcessTable.t) (levels : list Z) : exec (option Z * t * ProcessTable.t) :=
  match levels with
  | [] => Done (None, s, table)
  | level :: levels' =>
      q ← arr_get (run_queues s) level;
      match q with
      | [] => scan s table levels'
      | pid :: q' =>
          qs ← arr_set (run_queues s) level q';
          let s := with_queues s qs in
          match ProcessTable.get table pid with
          | Some _ =>
              let table := ProcessTable.update table pid (selected (current_tick s)) in
              Done (Some pid,
                    mk (run_queues s) (Some pid) (current_tick s) (u64_add (total_decisions s) 1), table)
          | None => scan s table levels'
          end
      end
  end.

Definition schedule_next (s : t) (table : ProcessTable.t) : exec (option Z * t * ProcessTable.t) :=
  match keeps_running s table with
  | Some pid => Done (Some pid, s, table)
  | None =>
      '(s, table) ← requeue_current s table;
      scan s table (reverse (seqZ 0 NUM_LEVELS))
  end.

(** Whether a queued process has waited long enough to be boosted, and to which
    priority. *)
Definition aged (now : Z) (table : ProcessTable.t) (level pid : Z) : option (Z * Z * Z) :=
  match ProcessTable.get table pid with
  | Some pcb =>
      if bool_decide (Pcb.state pcb = Ready) &&
         (sat_sub now (Pcb.last_scheduled pcb) >=? AGING_INTERVAL) &&
         (Pcb.effective_priority pcb <? NUM_LEVELS - 1)
      then Some (pid, level, wrap 8 (Pcb.effective_priority pcb + 1)) else None
  | None => None
  end.

Fixpoint aging_candidates (s : t) (table : ProcessTable.t) (levels : list Z) : exec (list (Z * Z * Z)) :=
  match levels with
  | [] => Done []
  | level :: levels' =>
      q ← arr_get (run_queues s) level;
      rest ← aging_candidates s table levels';
      Done (omap (aged (current_tick s) table level) q ++ rest)
  end.

Fixpoint boost_all (s : t) (table : ProcessTable.t) (todo : list (Z * Z * Z)) : exec (t * ProcessTable.t) :=
  match todo with
  | [] => Done (s, table)
  | (pid, old_level, new_priority) :: todo' =>
      q ← arr_get (run_queues s) old_level;
      qs ← arr_set (run_queues s) old_level (without pid q);
      let table := ProcessTable.update table pid (Pcb.set_effective_priority new_priority) in
      let new_level := level_of new_priority in
      q' ← arr_get qs new_level;
      qs ← arr_set qs new_level (q' ++ [pid]);
      boost_all (with_queues s qs) table todo'
  end.

Definition run_aging (s : t) (table : ProcessTable.t) : exec (t * ProcessTable.t) :=
  to_boost ← aging_candidates s table (seqZ 0 (NUM_LEVELS - 1));
  boost_all s table to_boost.

Definition raise_one (p : Pcb.t) : Pcb.t :=
  Pcb.set_effective_priority
    (Z.min (wrap 8 (Pcb.effective_priority p + 1)) (priority_u8 Critical)) p.

Definition apply_intent_boost (s : t) (pcb : Pcb.t) : Pcb.t :=
  let now := current_tick s in
  let intent := Pcb.intent pcb in
  let pcb :=
    if bool_decide (Intent.category intent = Compute) && bool_decide (Intent.priority intent = Background)
    then Pcb.set_effective_priority (Z.min (Pcb.effective_priority pcb) (priority_u8 Low)) pcb
    else pcb in
  let pcb :=
    match Intent.category intent with
    | Io | Network | Storage => if Pcb.wake_tick pcb =? now then raise_one pcb else pcb
    | _ => pcb
    end in
  let pcb :=
    if bool_decide (Intent.category intent = Display) && (sat_sub now (Pcb.wake_tick pcb) <? 5)
    then raise_one pcb else pcb in
  if (Intent.deadline intent >? 0) && (sat_sub (Intent.deadline intent) now <=? DEADLINE_URGENCY)
  then Pcb.set_effective_priority (priority_u8 Critical) pcb else pcb.

Definition consume_tick (s : t) (table : ProcessTable.t) : bool * ProcessTable.t :=
  match current s with
  | Some pid =>
      match ProcessTable.get table pid with
      | Some pcb =>
          if Pcb.time_slice_remaining pcb >? 0 then
            let left := Pcb.time_slice_remaining pcb - 1 in
            let burn p :=
              let p := Pcb.set_time_slice_remaining left p in
              let p := Pcb.set_total_ticks_run (u64_add (Pcb.total_ticks_run p) 1) p in
              Pcb.set_profile
                (BehavioralProfile.set_total_ticks_run
                   (u64_add (BehavioralProfile.total_ticks_run (Pcb.profile p)) 1) (Pcb.profile p)) p in
            (left >? 0, ProcessTable.update table pid burn)
          else (false, table)
      | None => (false, table)
      end
  | None => (false, table)
  end.

Definition clear (s : t) : t := mk (map (fun _ => []) (run_queues s)) None 0 0.

Definition queued_count (s : t) : Z := foldr Z.add 0 (map (fun q => Z.of_nat (length q)) (run_queues s)).

End Scheduler.

(** ** Supervision (process/supervisor.rs) *)
Module Supervisor.
Import ProcessTable.

Definition restart_process (pid now : Z) (table : t) (sched : Scheduler.t) : exec (t * Scheduler.t) :=
  match get table pid with
  | Some pcb =>
      let pcb := Pcb.reset_for_restart pcb now in
      let table := update table pid (fun _ => pcb) in
      sched ← Scheduler.enqueue sched pid (Pcb.effective_priority pcb);
      Done (table, sched)
  | None => Done (table, sched)
  end.

(** The first loop over the children to restart: stop those that still run. *)
Fixpoint kill_all (pids : list Z) (table : t) (sched : Scheduler.t) : t * Scheduler.t :=
  match pids with
  | [] => (table, sched)
  | pid :: pids' =>
      match get table pid with
      | Some pcb =>
          if bool_decide (Pcb.state pcb <> Terminated) then
            let kill p := Pcb.set_exit_reason (Some ExitReason.Killed) (Pcb.set_state Terminated p) in
            kill_all pids' (update table pid kill) (Scheduler.dequeue sched pid)
          else kill_all pids' table sched
      | None => kill_all pids' table sched
      end
  end.

(** The second loop; the counter is the number of pids. *)
Fixpoint restart_all (pids : list Z) (now : Z) (table : t) (sched : Scheduler.t) (restarted : Z)
  : exec (Z * t * Scheduler.t) :=
  match pids with
  | [] => Done (restarted, table, sched)
  | pid :: pids' =>
      '(table, sched) ← restart_process pid now table sched;
      restart_all pids' now table sched (u32_add restarted 1)
  end.

(** The children a RestForOne supervisor restarts: those spawned no earlier than
    the crashed one. *)
Definition rest_of (table : t) (children : list Z) (crashed_order : Z) : list Z :=
  omap (fun pid =>
    match get table pid with
    | Some pcb => if Pcb.spawn_order pcb >=? crashed_order then Some pid else None
    | None => None
    end) children.

(** The supervisor is stopped because it restarted too often. *)
Definition give_up_on (p : Pcb.t) : Pcb.t :=
  Pcb.set_exit_reason (Some ExitReason.IntensityExceeded) (Pcb.set_state Terminated p).

(** [fuel] bounds the escalation: the chain of supervisors visits a process of the
    table at each call, so a chain longer than the table is a cycle. *)
Fixpoint crash_loop (fuel : nat) (supervisor_pid crashed_pid now : Z) (table : t) (sched : Scheduler.t)
  : exec (result Z ProcessError * t * Scheduler.t) :=
  match fuel with
  | O => Diverged
  | S fuel' =>
      match get table supervisor_pid with
      | None => Done (Err SupervisorNotFound, table, sched)
      | Some sup =>
          let '(exceeded, tracker) := RestartTracker.record_restart (Pcb.restart_tracker sup) now in
          let table := update table supervisor_pid (Pcb.set_restart_tracker tracker) in
          if exceeded then
            let table := update table supervisor_pid give_up_on in
            let sched := Scheduler.dequeue sched supervisor_pid in
            let parent_pid := Pcb.supervisor sup in
            if parent_pid =? KERNEL then Done (Err IntensityExceeded, table, sched)
            else
              '(_, table, sched) ← crash_loop fuel' parent_pid supervisor_pid now table sched;
              Done (Err IntensityExceeded, table, sched)
          else
            match Pcb.strategy sup with
            | OneForOne =>
                '(table, sched) ← restart_process crashed_pid now table sched;
                Done (Ok 1, table, sched)
            | OneForAll =>
                let children := Pcb.children sup in
                let '(table, sched) := kill_all children table sched in
                '(n, table, sched) ← restart_all children now table sched 0;
                Done (Ok n, table, sched)
            | RestForOne =>
                let crashed_order :=
                  match get table crashed_pid with Some pcb => Pcb.spawn_order pcb | None => 0 end in
                let to_restart := rest_of table (Pcb.children sup) crashed_order in
                let '(table, sched) := kill_all to_restart table sched in
                '(n, table, sched) ← restart_all to_restart now table sched 0;
                Done (Ok n, table, sched)
            end
      end
  end.

Definition handle_child_crash (supervisor_pid crashed_pid now : Z) (table : t) (sched : Scheduler.t)
  : exec (result Z ProcessError * t * Scheduler.t) :=
  crash_loop (S (size (processes table))) supervisor_pid crashed_pid now table sched.

End Supervisor.

(** ** The root supervisor (process/butler.rs) *)
Module Butler.

Definition BUTLER_MAX_RESTARTS : Z := 1000.
Definition BUTLER_INTENSITY_WINDOW : Z := 60.

(** [expect] on the insertion panics when there is already a process 1. *)
Definition init (table : ProcessTable.t) (sched : Scheduler.t) : exec (ProcessTable.t * Scheduler.t) :=
  let now := Scheduler.current_tick sched in
  let intent := Intent.mk Compute Critical Balanced 0 in
  let '(_, table) := ProcessTable.alloc_pid table in
  let pcb := Pcb.new BUTLER intent "Butler" KERNEL OneForOne 0 now in
  let pcb := Pcb.set_restart_tracker
    (RestartTracker.new BUTLER_MAX_RESTARTS BUTLER_INTENSITY_WINDOW) pcb in
  match ProcessTable.insert table pcb with
  | (Ok _, table) =>
      sched ← Scheduler.enqueue sched BUTLER (priority_u8 Critical);
      Done (table, sched)
  | (Err _, _) => Panicked
  end.

End Butler.

(** ** The process operations (process/mod.rs) *)

(** What termination needs of the network: dropping the sockets of a process
    ([network::cleanup_process_sockets]). *)
Class SocketLayer (N : Type) := cleanup_process_sockets : N -> Z -> N.

Module Process.
Import ProcessTable.

Definition MAX_INHERITANCE_DEPTH : Z := 4.

Section Operations.
Context {N : Type} `{SocketLayer N}.

(** The globals the operations work on: TABLE, SCHEDULER, the capability STORE,
    the BUS and the sockets. *)
Record Kernel := mkKernel {
  table : t;
  sched : Scheduler.t;
  store : CapStore.t;
  bus : BusRouter.t;
  sockets : N;
}.

Definition with_procs (k : Kernel) (tb : t) (s : Scheduler.t) : Kernel :=
  mkKernel tb s (store k) (bus k) (sockets k).
Definition with_bus (k : Kernel) (b : BusRouter.t) : Kernel :=
  mkKernel (table k) (sched k) (store k) b (sockets k).

Definition init (k : Kernel) : exec Kernel :=
  '(tb, s) ← Butler.init (table k) (sched k);
  let k := with_procs k tb s in
  Done (with_bus k (snd (BusRouter.register_process (bus k) BUTLER))).

Definition spawn (k : Kernel) (supervisor_pid : Z) (intent : Intent.t) (description : string)
    (strategy : option SupervisionStrategy) : exec (result Z ProcessError * Kernel) :=
  if negb (contains (table k) supervisor_pid) then Done (Err SupervisorNotFound, k)
  else
    let now := Scheduler.current_tick (sched k) in
    let '(pid, tb) := alloc_pid (table k) in
    let spawn_order :=
      match get tb supervisor_pid with
      | Some sup => wrap 32 (Z.of_nat (length (Pcb.children sup)))
      | None => 0
      end in
    let strat := default OneForOne strategy in
    let pcb := Pcb.new pid intent description supervisor_pid strat spawn_order now in
    match insert tb pcb with
    | (Err e, tb) => Done (Err e, with_procs k tb (sched k))
    | (Ok _, tb) =>
        let tb := update tb supervisor_pid (fun sup => Pcb.set_children (Pcb.children sup ++ [pid]) sup) in
        s ← Scheduler.enqueue (sched k) pid (Pcb.effective_priority pcb);
        let k := with_procs k tb s in
        Done (Ok pid, with_bus k (snd (BusRouter.register_process (bus k) pid)))
    end.

Definition terminate (k : Kernel) (pid : Z) : result unit ProcessError * Kernel :=
  let k := mkKernel (table k) (sched k) (store k) (bus k) (cleanup_process_sockets (sockets k) pid) in
  match get (table k) pid with
  | None => (Err NotFound, k)
  | Some pcb =>
      let stop p := Pcb.set_exit_reason (Some ExitReason.Normal) (Pcb.set_state Terminated p) in
      let tb := update (table k) pid stop in
      let s := Scheduler.dequeue (sched k) pid in
      let tb := update tb (Pcb.supervisor pcb)
        (fun sup => Pcb.set_children (retain (fun c => negb (c =? pid)) (Pcb.children sup)) sup) in
      let k := with_procs k tb s in
      (Ok tt, with_bus k (snd (BusRouter.unregister_process (bus k) pid)))
  end.

(** The recursion on [depth] is bounded by [MAX_INHERITANCE_DEPTH]; [left] counts
    what remains of it. *)
Fixpoint inherit (left : nat) (target_pid boost_priority : Z) (tb : t) (s : Scheduler.t)
  : exec (t * Scheduler.t) :=
  match left with
  | O => Done (tb, s)
  | S left' =>
      match get tb target_pid with
      | None => Done (tb, s)
      | Some target =>
          if Pcb.effective_priority target <? boost_priority then
            let tb := update tb target_pid (Pcb.set_effective_priority boost_priority) in
            let s := Scheduler.dequeue s target_pid in
            s ← (if bool_decide (Pcb.state target = Ready) || bool_decide (Pcb.state target = Running)
                 then Scheduler.enqueue s target_pid boost_priority else Done s);
            match Pcb.blocked_on target with
            | Some next_target => inherit left' next_target boost_priority tb s
            | None => Done (tb, s)
            end
          else Done (tb, s)
      end
  end.

Definition apply_priority_inheritance (target_pid boost_priority : Z) (tb : t) (s : Scheduler.t)
  : exec (t * Scheduler.t) :=
  inherit (Z.to_nat MAX_INHERITANCE_DEPTH) target_pid boost_priority tb s.

Definition block (k : Kernel) (pid : Z) (waiting_on : option Z) : exec (result unit ProcessError * Kernel) :=
  match get (table k) pid with
  | None => Done (Err NotFound, k)
  | Some pcb =>
      if bool_decide (Pcb.state pcb <> Running) && bool_decide (Pcb.state pcb <> Ready)
      then Done (Err InvalidState, k)
      else
        let stop p := Pcb.set_blocked_on waiting_on (Pcb.set_state Blocked p) in
        let tb := update (table k) pid stop in
        let s := Scheduler.dequeue (sched k) pid in
        match waiting_on with
        | Some target =>
            '(tb, s) ← apply_priority_inheritance target (Pcb.effective_priority pcb) tb s;
            Done (Ok tt, with_procs k tb s)
        | None => Done (Ok tt, with_procs k tb s)
        end
  end.

Definition revert_priority_inheritance (target_pid : Z) (tb : t) (s : Scheduler.t)
  : exec (t * Scheduler.t) :=
  match get tb target_pid with
  | None => Done (tb, s)
  | Some target =>
      if negb (Pcb.effective_priority target =? Pcb.base_priority target) then
        let tb := update tb target_pid (Pcb.set_effective_priority (Pcb.base_priority target)) in
        let s := Scheduler.dequeue s target_pid in
        s ← (if bool_decide (Pcb.state target = Ready) || bool_decide (Pcb.state target = Running)
             then Scheduler.enqueue s target_pid (Pcb.base_priority target) else Done s);
        Done (tb, s)
      else Done (tb, s)
  end.

Definition unblock (k : Kernel) (pid : Z) : exec (result unit ProcessError * Kernel) :=
  match get (table k) pid with
  | None => Done (Err NotFound, k)
  | Some pcb =>
      if bool_decide (Pcb.state pcb <> Blocked) then Done (Err InvalidState, k)
      else
        let was_blocking := Pcb.blocked_on pcb in
        let pcb := Pcb.set_blocked_on None pcb in
        let pcb := Pcb.set_state Ready pcb in
        let pcb := Pcb.set_wake_tick (Scheduler.current_tick (sched k)) pcb in
        let pcb := Scheduler.apply_intent_boost (sched k) pcb in
        let tb := update (table k) pid (fun _ => pcb) in
        s ← Scheduler.enqueue (sched k) pid (Pcb.effective_priority pcb);
        match was_blocking with
        | Some target =>
            '(tb, s) ← revert_priority_inheritance target tb s;
            Done (Ok tt, with_procs k tb s)
        | None => Done (Ok tt, with_procs k tb s)
        end
  end.

Definition crash (k : Kernel) (pid : Z) : exec (result unit ProcessError * Kernel) :=
  match get (table k) pid with
  | None => Done (Err NotFound, k)
  | Some pcb =>
      let stop p := Pcb.set_exit_reason (Some ExitReason.Crash) (Pcb.set_state Terminated p) in
      let tb := update (table k) pid stop in
      let s := Scheduler.dequeue (sched k) pid in
      let now := Scheduler.current_tick s in
      '(_, tb, s) ← Supervisor.handle_child_crash (Pcb.supervisor pcb) pid now tb s;
      Done (Ok tt, with_procs k tb s)
  end.

Definition tick (k : Kernel) : Kernel :=
  mkKernel (table k) (Scheduler.tick (sched k)) (CapStore.tick (store k)) (BusRouter.tick (bus k))
    (sockets k).

Definition schedule_next (k : Kernel) : exec (option Z * Kernel) :=
  '(r, s, tb) ← Scheduler.schedule_next (sched k) (table k);
  Done (r, with_procs k tb s).

Definition get_state (k : Kernel) (pid : Z) : option ProcessState := Pcb.state <$> get (table k) pid.

Definition count (k : Kernel) : Z := ProcessTable.count (table k).

End Operations.
End Process.

(** ** Handles of a process (handle/mod.rs) *)
Module Handles.
Import ProcessTable.

Definition alloc_handle (tb : t) (pid cap_id : Z) : exec (result Z HandleTable.HandleError * t) :=
  match get tb pid with
  | None => Done (Err HandleTable.NotActive, tb)
  | Some pcb =>
      '(r, ht) ← HandleTable.alloc (Pcb.handle_table pcb) cap_id;
      Done (r, update tb pid (Pcb.set_handle_table ht))
  end.

Definition resolve_handle (tb : t) (pid handle : Z) : exec (result Z HandleTable.HandleError) :=
  match get tb pid with
  | None => Done (Err HandleTable.NotActive)
  | Some pcb => HandleTable.resolve (Pcb.handle_table pcb) handle
  end.

Definition release_handle (tb : t) (pid handle : Z) : exec (result unit HandleTable.HandleError * t) :=
  match get tb pid with
  | None => Done (Err HandleTable.NotActive, tb)
  | Some pcb =>
      '(r, ht) ← HandleTable.release (Pcb.handle_table pcb) handle;
      Done (r, update tb pid (Pcb.set_handle_table ht))
  end.

Definition handle_count (tb : t) (pid : Z) : Z :=
  match get tb pid with Some pcb => HandleTable.count (Pcb.handle_table pcb) | None => 0 end.

End Handles.
