(* ===== verification/ProcOps.v ===== *)
(** * The invariant of processes and scheduler, and what the operations do

    [sched_inv] ties the run queues to the process table: a process is in the
    queue of its effective priority, once, exactly when it can run and is not
    the current process.  The set [D] holds the processes that an operation has
    taken out of the queues and not yet put back; between operations it is
    empty.  [table_ok] is the shape of the supervision tree.  [SchedInv] has the
    moves the operations are made of, [ProcOps] the specification of every
    operation of [Process] on states that satisfy the invariant: it returns,
    keeps the invariant, and has the stated effect on the table and the queues. *)

From S2P Require Import Prelude Wire Crypto FixedMap FixedMapSpec Trackers CapStore Ring Bus AuditTrail.
From S2P Require Import Router Handle Process.

Module SchedInv.
Import Scheduler.

Definition runnable (st : ProcessState) : Prop := st = Ready \/ st = Running.

#[export] Instance runnable_dec st : Decision (runnable st).
Proof. unfold runnable. apply _. Defined.

Definition queued (s : t) (p : Z) : Prop := exists l q, run_queues s !! l = Some q /\ p ∈ q.

Record sched_inv (P : gmap Z Pcb.t) (s : t) (D : gset Z) : Prop := {
  si_len : length (run_queues s) = 5%nat;
  si_nodup : forall l q, run_queues s !! l = Some q -> NoDup q;
  si_queued : forall l q p, run_queues s !! l = Some q -> p ∈ q -> p ∉ D /\
    exists pcb, P !! p = Some pcb /\ runnable (Pcb.state pcb) /\ Pcb.effective_priority pcb = Z.of_nat l;
  si_current : forall p, current s = Some p -> p ∉ D /\ ~ queued s p /\
    exists pcb, P !! p = Some pcb /\ Pcb.state pcb = Running;
  si_complete : forall p pcb, P !! p = Some pcb -> runnable (Pcb.state pcb) -> p ∉ D ->
    queued s p \/ current s = Some p;
}.

(** ** Queues *)
Lemma elem_of_without p q x : x ∈ without p q <-> x ∈ q /\ x <> p.
Proof. unfold without. rewrite elem_of_retain, negb_true_iff, Z.eqb_neq. done. Qed.

Lemma queued_dequeue s p x : queued (dequeue s p) x <-> queued s x /\ x <> p.
Proof.
  unfold queued. assert (run_queues (dequeue s p) = without p <$> run_queues s) as ->.
  { unfold dequeue. case_bool_decide; done. }
  setoid_rewrite list_lookup_fmap. split.
  - intros (l & q & Hq & Hx). destruct (run_queues s !! l) as [q'|] eqn:E; simplify_eq/=.
    apply elem_of_without in Hx as [? ?]. eauto.
  - intros [(l & q & Hq & Hx) Hne]. exists l, (without p q). rewrite Hq. split; [done|]. by apply elem_of_without.
Qed.

Lemma current_dequeue s p x : current (dequeue s p) = Some x <-> current s = Some x /\ x <> p.
Proof. unfold dequeue. case_bool_decide; cbn in *; naive_solver. Qed.

Lemma dequeue_queue s p l q : run_queues (dequeue s p) !! l = Some q ->
  exists q', run_queues s !! l = Some q' /\ q = without p q'.
Proof.
  assert (run_queues (dequeue s p) = without p <$> run_queues s) as ->.
  { unfold dequeue. case_bool_decide; done. }
  rewrite list_lookup_fmap. intros Hl. destruct (run_queues s !! l); simplify_eq/=. eauto.
Qed.

Lemma dequeue_tick s p : current_tick (dequeue s p) = current_tick s.
Proof. unfold dequeue. by case_bool_decide. Qed.

Section Moves.
Implicit Types (P : gmap Z Pcb.t) (s : t) (D : gset Z).

(** Only runnable processes of the table are queued or current. *)
Lemma queued_runnable P s D p : sched_inv P s D -> queued s p ->
  exists pcb, P !! p = Some pcb /\ runnable (Pcb.state pcb).
Proof. intros Hi (l & q & Hl & Hp). destruct (si_queued _ _ _ Hi l q p Hl Hp) as (_ & pcb & ? & ? & _). eauto. Qed.

Lemma current_runnable P s D p : sched_inv P s D -> current s = Some p ->
  exists pcb, P !! p = Some pcb /\ runnable (Pcb.state pcb).
Proof. intros Hi Hc. destruct (si_current _ _ _ Hi p Hc) as (_ & _ & pcb & ? & ?). exists pcb. split; [done|by right]. Qed.

(** Taking a process out of the queues. *)
Lemma dequeue_detach P s D p : sched_inv P s D -> sched_inv P (dequeue s p) ({[p]} ∪ D).
Proof.
  intros Hi. split.
  - rewrite <- (si_len _ _ _ Hi). unfold dequeue. case_bool_decide; cbn; by rewrite length_map.
  - intros l q (q' & Hq & ->)%dequeue_queue. by eapply NoDup_retain, (si_nodup _ _ _ Hi).
  - intros l q x (q' & Hq & ->)%dequeue_queue [Hx Hne]%elem_of_without.
    destruct (si_queued _ _ _ Hi l q' x Hq Hx) as (? & ?). set_solver.
  - intros x [Hc Hne]%current_dequeue. destruct (si_current _ _ _ Hi x Hc) as (? & Hnq & ?).
    split; [set_solver|]. split; [|done]. rewrite queued_dequeue. naive_solver.
  - intros x pcb Hx Hr Hd. rewrite queued_dequeue, current_dequeue.
    destruct (si_complete _ _ _ Hi x pcb Hx Hr) as [?|?]; [set_solver|left|right]; (split; [done|set_solver]).
Qed.

(** A process that cannot run, or does not exist, is out of the queues. *)
Lemma idle_detach P s D p : sched_inv P s D ->
  (forall pcb, P !! p = Some pcb -> ~ runnable (Pcb.state pcb)) -> sched_inv P s ({[p]} ∪ D).
Proof.
  intros Hi Hp. split; [apply Hi..| | |].
  - intros l q x Hl Hx. destruct (si_queued _ _ _ Hi l q x Hl Hx) as (? & pcb & Hpc & Hr & ?).
    split; [|by eauto]. rewrite not_elem_of_union, not_elem_of_singleton. split; [|done]. intros ->. by eapply Hp.
  - intros x Hc. destruct (current_runnable _ _ _ _ Hi Hc) as (pcb & Hpc & Hr).
    destruct (si_current _ _ _ Hi x Hc) as (? & ? & ?). split; [|done].
    rewrite not_elem_of_union, not_elem_of_singleton. split; [|done]. intros ->. by eapply Hp.
  - intros x pcb Hx Hr Hd. apply (si_complete _ _ _ Hi x pcb Hx Hr). set_solver.
Qed.

(** The control blocks of processes out of the queues may change freely. *)
Lemma detached_change P P' s D : (forall x, x ∉ D -> P' !! x = P !! x) -> sched_inv P s D -> sched_inv P' s D.
Proof.
  intros HP Hi. split; [apply Hi..| | |].
  - intros l q x Hl Hx. destruct (si_queued _ _ _ Hi l q x Hl Hx) as (Hd & ?). split; [done|]. by rewrite HP.
  - intros x Hc. destruct (si_current _ _ _ Hi x Hc) as (Hd & ? & ?). split_all; [done..|]. by rewrite HP.
  - intros x pcb Hx Hr Hd. rewrite HP in Hx by done. by eapply (si_complete _ _ _ Hi).
Qed.

Lemma detached_update P s D p f : p ∈ D -> sched_inv P s D -> sched_inv (alter f p P) s D.
Proof. intros Hp. apply detached_change. intros x Hx. by rewrite lookup_alter_ne by set_solver. Qed.

Lemma detached_insert P s D p pcb : p ∈ D -> sched_inv P s D -> sched_inv (<[p := pcb]> P) s D.
Proof. intros Hp. apply detached_change. intros x Hx. by rewrite lookup_insert_ne by set_solver. Qed.

(** So may the fields the scheduler does not look at. *)
Lemma quiet_update P s D p f : sched_inv P s D ->
  (forall pcb, Pcb.state (f pcb) = Pcb.state pcb /\ Pcb.effective_priority (f pcb) = Pcb.effective_priority pcb) ->
  sched_inv (alter f p P) s D.
Proof.
  intros Hi Hf.
  assert (forall x pcb, P !! x = Some pcb -> exists pcb', alter f p P !! x = Some pcb' /\
    Pcb.state pcb' = Pcb.state pcb /\ Pcb.effective_priority pcb' = Pcb.effective_priority pcb) as Hal.
  { intros x pcb Hx. destruct (decide (p = x)) as [->|].
    - rewrite lookup_alter_eq, Hx. cbn. eexists. by split; [|apply Hf].
    - rewrite lookup_alter_ne by done. eauto. }
  split; [apply Hi..| | |].
  - intros l q x Hl Hx. destruct (si_queued _ _ _ Hi l q x Hl Hx) as (Hd & pcb & Hpc & Hr & He).
    split; [done|]. destruct (Hal x pcb Hpc) as (pcb' & ? & Hs & Hp). exists pcb'. by rewrite Hs, Hp.
  - intros x Hc. destruct (si_current _ _ _ Hi x Hc) as (Hd & ? & pcb & Hpc & Hr).
    destruct (Hal x pcb Hpc) as (pcb' & ? & Hs & _). split_all; [done..|]. exists pcb'. by rewrite Hs.
  - intros x pcb' Hx Hr Hd. destruct (P !! x) as [pcb|] eqn:E.
    + destruct (Hal x pcb E) as (? & ? & Hs & _). simplify_eq. rewrite Hs in Hr. by eapply (si_complete _ _ _ Hi).
    + exfalso. destruct (decide (p = x)) as [->|]; [rewrite lookup_alter_eq, E in Hx|rewrite lookup_alter_ne in Hx]; done || congruence.
Qed.

(** Putting back a process that cannot run. *)
Lemma attach_idle P s D p : sched_inv P s ({[p]} ∪ D) -> p ∉ D ->
  (forall pcb, P !! p = Some pcb -> ~ runnable (Pcb.state pcb)) -> sched_inv P s D.
Proof.
  intros Hi Hp Hr. split; [apply Hi..| | |].
  - intros l q x Hl Hx. destruct (si_queued _ _ _ Hi l q x Hl Hx) as (? & ?). split; [set_solver|done].
  - intros x Hc. destruct (si_current _ _ _ Hi x Hc) as (? & ?). split; [set_solver|done].
  - intros x pcb Hx Hrx Hd. apply (si_complete _ _ _ Hi x pcb Hx Hrx).
    rewrite not_elem_of_union, not_elem_of_singleton. split; [|done]. intros ->. by eapply Hr.
Qed.

Lemma queue_at P s D l : sched_inv P s D -> 0 <= l <= 4 ->
  exists q, arr_get (run_queues s) l = Done q /\ run_queues s !! Z.to_nat l = Some q.
Proof. intros Hi Hl. apply arr_get_in. rewrite (si_len _ _ _ Hi). lia. Qed.

(** Putting a runnable process into the queue of its priority. *)
Lemma attach_enqueue P s D p pcb e :
  sched_inv P s ({[p]} ∪ D) -> p ∉ D -> P !! p = Some pcb -> runnable (Pcb.state pcb) ->
  Pcb.effective_priority pcb = e -> 0 <= e <= 4 ->
  exists s', enqueue s p e = Done s' /\ sched_inv P s' D /\ current s' = current s /\
    current_tick s' = current_tick s /\ (forall x, queued s' x <-> queued s x \/ x = p) /\
    exists q, run_queues s !! Z.to_nat e = Some q /\
      run_queues s' = <[Z.to_nat e := q ++ [p]]> (run_queues s).
Proof.
  intros Hi Hd Hp Hr He Hl. destruct (queue_at _ _ _ e Hi Hl) as (q & Hget & Hq).
  assert (p ∉ q) as Hpq. { intros Hin. destruct (si_queued _ _ _ Hi _ _ _ Hq Hin) as [Hx _]. set_solver. }
  unfold enqueue, level_of, NUM_LEVELS. replace (Z.min e (5 - 1)) with e by lia. rewrite Hget. exec_simpl.
  rewrite bool_decide_false by done. rewrite arr_set_Done by (rewrite (si_len _ _ _ Hi); lia). exec_simpl.
  eexists. split; [done|]. set (s' := with_queues _ _).
  assert (forall l q', run_queues s' !! l = Some q' ->
    (l = Z.to_nat e /\ q' = q ++ [p]) \/ (l <> Z.to_nat e /\ run_queues s !! l = Some q')) as Hcases.
  { intros l q' Hl'. cbn in Hl'. destruct (decide (l = Z.to_nat e)) as [->|]; [left|right].
    - rewrite list_lookup_insert_eq in Hl' by (by eapply lookup_lt_Some). by simplify_eq.
    - by rewrite list_lookup_insert_ne in Hl'. }
  assert (forall x, queued s' x <-> queued s x \/ x = p) as Hqd.
  { intros x. split.
    - intros (l & q' & [[-> ->]|[? ?]]%Hcases & Hx); [|left; by exists l, q'].
      apply elem_of_app in Hx as [?|?%list_elem_of_singleton]; [left; by exists (Z.to_nat e), q|by right].
    - intros [(l & q' & Hl' & Hx)| ->].
      + destruct (decide (l = Z.to_nat e)) as [->|].
        * exists (Z.to_nat e), (q ++ [p]). cbn. rewrite list_lookup_insert_eq by (by eapply lookup_lt_Some).
          split; [done|]. simplify_eq. set_solver.
        * exists l, q'. cbn. by rewrite list_lookup_insert_ne.
      + exists (Z.to_nat e), (q ++ [p]). cbn. rewrite list_lookup_insert_eq by (by eapply lookup_lt_Some).
        split; [done|]. set_solver. }
  split_all; [|done|done|done|by exists q]. split.
  - cbn. rewrite length_insert. apply Hi.
  - intros l q' [[-> ->]|[? Hq']]%Hcases; [|by eapply (si_nodup _ _ _ Hi)].
    apply NoDup_app. split_all; [by eapply (si_nodup _ _ _ Hi)| |apply NoDup_singleton]. set_solver.
  - intros l q' x [[-> ->]|[? Hq']]%Hcases Hx.
    + apply elem_of_app in Hx as [Hx| ->%list_elem_of_singleton].
      * destruct (si_queued _ _ _ Hi _ _ _ Hq Hx). split; [set_solver|done].
      * split; [done|]. exists pcb. split_all; [done..|lia].
    + destruct (si_queued _ _ _ Hi _ _ _ Hq' Hx). split; [set_solver|done].
  - intros x Hc. destruct (si_current _ _ _ Hi x Hc) as (? & Hnq & ?). split; [set_solver|].
    split; [|done]. rewrite Hqd. set_solver.
  - intros x pcb' Hx Hrx Hdx. rewrite Hqd. destruct (decide (x = p)) as [->|]; [by auto|].
    destruct (si_complete _ _ _ Hi x pcb' Hx Hrx) as [?|?]; [set_solver|by auto..].
Qed.

(** Making a detached running process the current one. *)
Lemma attach_current P s D p pcb d :
  sched_inv P s ({[p]} ∪ D) -> p ∉ D -> P !! p = Some pcb -> Pcb.state pcb = Running -> current s = None ->
  sched_inv P (mk (run_queues s) (Some p) (current_tick s) d) D.
Proof.
  intros Hi Hd Hp Hr Hc. split; cbn [run_queues current]; [apply Hi..| | |].
  - intros l q x Hl Hx. destruct (si_queued _ _ _ Hi l q x Hl Hx) as (? & ?). split; [set_solver|done].
  - intros x [= ->]. split; [done|]. split; [|by eauto]. intros (l & q & Hl & Hx).
    destruct (si_queued _ _ _ Hi l q x Hl Hx). set_solver.
  - intros x pcb' Hx Hrx Hdx. destruct (decide (x = p)) as [->|]; [by right|].
    destruct (si_complete _ _ _ Hi x pcb' Hx Hrx) as [?|?]; [set_solver|by left|congruence].
Qed.

(** Taking the current process off the processor. *)
Lemma detach_current P s D p : sched_inv P s D -> current s = Some p ->
  sched_inv P (with_current s None) ({[p]} ∪ D).
Proof.
  intros Hi Hc. split; cbn [run_queues current with_current]; [apply Hi..| |done|].
  - intros l q x Hl Hx. destruct (si_queued _ _ _ Hi l q x Hl Hx) as (? & ?). split; [|done].
    destruct (si_current _ _ _ Hi p Hc) as (_ & Hn & _). rewrite not_elem_of_union, not_elem_of_singleton.
    split; [|done]. intros ->. apply Hn. by exists l, q.
  - intros x pcb Hx Hr Hd. destruct (si_complete _ _ _ Hi x pcb Hx Hr) as [?|?]; [set_solver|by left|].
    simplify_eq. set_solver.
Qed.

(** Popping the head of a queue. *)
Lemma pop_detach P s D l p q : sched_inv P s D -> run_queues s !! l = Some (p :: q) ->
  sched_inv P (with_queues s (<[l := q]> (run_queues s))) ({[p]} ∪ D).
Proof.
  intros Hi Hl.
  assert (forall l' q', <[l := q]> (run_queues s) !! l' = Some q' ->
    (l' = l /\ q' = q) \/ (l' <> l /\ run_queues s !! l' = Some q')) as Hcases.
  { intros l' q' Hl'. destruct (decide (l' = l)) as [->|].
    - rewrite list_lookup_insert_eq in Hl' by (by eapply lookup_lt_Some). simplify_eq. by left.
    - rewrite list_lookup_insert_ne in Hl' by done. by right. }
  pose proof (si_nodup _ _ _ Hi _ _ Hl) as [Hnp Hnd]%NoDup_cons.
  assert (forall l' q' x, <[l := q]> (run_queues s) !! l' = Some q' -> x ∈ q' ->
    x <> p /\ exists q0, run_queues s !! l' = Some q0 /\ x ∈ q0) as Hsub.
  { intros l' q' x [[-> ->]|[Hne Hq']]%Hcases Hx.
    - split; [by intros ->|]. exists (p :: q). split; [done|]. by right.
    - split; [|by eauto]. intros ->. destruct (si_queued _ _ _ Hi _ _ _ Hq' Hx) as (_ & pcb & Hp & _ & He).
      destruct (si_queued _ _ _ Hi _ _ p Hl) as (_ & pcb' & Hp' & _ & He'); [by left|]. simplify_eq. lia. }
  split; cbn [run_queues current with_queues].
  - rewrite length_insert. apply Hi.
  - intros l' q' [[-> ->]|[? Hq']]%Hcases; [done|by eapply (si_nodup _ _ _ Hi)].
  - intros l' q' x Hq' Hx. destruct (Hsub l' q' x Hq' Hx) as (Hne & q0 & Hq0 & Hx0).
    destruct (si_queued _ _ _ Hi _ _ _ Hq0 Hx0). split; [set_solver|done].
  - intros x Hc. destruct (si_current _ _ _ Hi x Hc) as (? & Hn & ?). split; [|split; [|done]].
    + rewrite not_elem_of_union, not_elem_of_singleton. split; [|done]. intros ->. apply Hn. exists l, (p :: q).
      split; [done|by left].
    + intros (l' & q' & Hq' & Hx). cbn in Hq'. apply Hn. destruct (Hsub l' q' x Hq' Hx) as (_ & q0 & ? & ?).
      by exists l', q0.
  - intros x pcb Hx Hr Hd. destruct (si_complete _ _ _ Hi x pcb Hx Hr) as [(l' & q' & Hq' & Hxq)|?];
      [set_solver|left|by right].
    destruct (decide (l' = l)) as [->|].
    + simplify_eq. exists l, q. cbn. rewrite list_lookup_insert_eq by (by eapply lookup_lt_Some).
      split; [done|]. apply elem_of_cons in Hxq as [->|]; [set_solver|done].
    + exists l', q'. cbn. by rewrite list_lookup_insert_ne.
Qed.

End Moves.
End SchedInv.

Module ProcOps.
Import Scheduler SchedInv.
Import ProcessTable (processes, next_pid, get, update).

(** ** The process table *)
Definition handles_ok (pcb : Pcb.t) : Prop := exists m, HandleSpec.represents (Pcb.handle_table pcb) m.

Record pcb_ok (P : gmap Z Pcb.t) (n p : Z) (pcb : Pcb.t) : Prop := {
  ok_pid : Pcb.pid pcb = p;
  ok_range : 0 < p < n;
  ok_super : 0 <= Pcb.supervisor pcb < p;
  ok_super_live : Pcb.supervisor pcb = KERNEL \/ is_Some (P !! Pcb.supervisor pcb);
  ok_prio : 0 <= Pcb.effective_priority pcb <= 4;
  ok_base : 0 <= Pcb.base_priority pcb <= 4;
  ok_children_nodup : NoDup (Pcb.children pcb);
  ok_children : forall c, c ∈ Pcb.children pcb -> p < c /\ is_Some (P !! c);
  ok_handles : handles_ok pcb;
}.

Record table_ok (tb : ProcessTable.t) : Prop := {
  to_pcb : forall p pcb, processes tb !! p = Some pcb -> pcb_ok (processes tb) (next_pid tb) p pcb;
  to_next : 1 <= next_pid tb;
  to_size : Z.of_nat (size (processes tb)) <= ProcessTable.MAX_PROCESSES;
}.

(** Table and scheduler together, with the processes [D] out of the queues. *)
Record proc_inv (tb : ProcessTable.t) (s : t) (D : gset Z) : Prop := {
  pi_table : table_ok tb;
  pi_sched : sched_inv (processes tb) s D;
}.

(** [f] leaves a process where it is in the tree, its priority in range and its
    handle table well formed. *)
Definition stays (f : Pcb.t -> Pcb.t) (pcb : Pcb.t) : Prop :=
  Pcb.pid (f pcb) = Pcb.pid pcb /\ Pcb.supervisor (f pcb) = Pcb.supervisor pcb /\
  Pcb.base_priority (f pcb) = Pcb.base_priority pcb /\ 0 <= Pcb.effective_priority (f pcb) <= 4 /\
  NoDup (Pcb.children (f pcb)) /\ Pcb.children (f pcb) ⊆ Pcb.children pcb /\
  (handles_ok pcb -> handles_ok (f pcb)).

Lemma alter_is_Some (f : Pcb.t -> Pcb.t) p (P : gmap Z Pcb.t) x :
  is_Some (alter f p P !! x) <-> is_Some (P !! x).
Proof.
  destruct (decide (p = x)) as [->|]; [|by rewrite lookup_alter_ne].
  rewrite lookup_alter_eq. apply fmap_is_Some.
Qed.

Lemma update_ok tb p f : table_ok tb ->
  (forall pcb, processes tb !! p = Some pcb -> stays f pcb) -> table_ok (update tb p f).
Proof.
  intros Ht Hf. split; cbn [processes next_pid update]; [|apply Ht|].
  - intros x pcb Hx. destruct (decide (p = x)) as [->|Hne].
    + rewrite lookup_alter_eq in Hx. destruct (processes tb !! x) as [pcb0|] eqn:E; simplify_eq/=.
      destruct (Hf pcb0 eq_refl) as (H1 & H2 & H3 & H4 & H5 & H6 & H7). destruct (to_pcb _ Ht x pcb0 E).
      split; rewrite ?H1, ?H2, ?H3; try done; [by rewrite alter_is_Some| |by apply H7].
      intros c Hc. rewrite alter_is_Some. apply ok_children0. set_solver.
    + rewrite lookup_alter_ne in Hx by done. destruct (to_pcb _ Ht x pcb Hx).
      split; try done; [by rewrite alter_is_Some|]. intros c Hc. rewrite alter_is_Some. by apply ok_children0.
  - assert (dom (alter f p (processes tb)) = dom (processes tb)) as Hd by apply dom_alter_L.
    rewrite <- size_dom, Hd, size_dom. apply Ht.
Qed.

(** Changes of the other fields. *)
Lemma stays_quiet f tb p pcb : table_ok tb -> processes tb !! p = Some pcb ->
  Pcb.pid (f pcb) = Pcb.pid pcb -> Pcb.supervisor (f pcb) = Pcb.supervisor pcb ->
  Pcb.base_priority (f pcb) = Pcb.base_priority pcb -> Pcb.children (f pcb) = Pcb.children pcb ->
  Pcb.handle_table (f pcb) = Pcb.handle_table pcb ->
  0 <= Pcb.effective_priority (f pcb) <= 4 -> stays f pcb.
Proof.
  intros Ht Hp H1 H2 H3 H4 H5 H6. destruct (to_pcb _ Ht p pcb Hp). unfold stays, handles_ok. rewrite H4, H5.
  split; [done|]. split; [done|]. split; [done|]. split; [lia|]. split; [done|]. split; [set_solver|done].
Qed.

Ltac quiet Ht :=
  apply (update_ok _ _ _ Ht); let pcb := fresh "pcb" in let E := fresh "E" in
  intros pcb E; apply (stays_quiet _ _ _ _ Ht E); try reflexivity; cbn;
  try apply (to_pcb _ Ht _ _ E).

Lemma lookup_update tb p f x :
  processes (update tb p f) !! x = if decide (p = x) then f <$> processes tb !! x else processes tb !! x.
Proof.
  cbn. case_decide; [subst; by rewrite lookup_alter_eq|by rewrite lookup_alter_ne].
Qed.

Lemma update_twice tb p f g : update (update tb p f) p g = update tb p (g ∘ f).
Proof. unfold update. cbn. f_equal. by rewrite alter_alter_eq. Qed.

Lemma update_const tb p pcb f :
  processes tb !! p = Some pcb -> update tb p (fun _ => f pcb) = update tb p f.
Proof.
  intros Hp. unfold update. f_equal. apply map_eq. intros x.
  destruct (decide (p = x)) as [->|]; [|by rewrite !lookup_alter_ne].
  by rewrite !lookup_alter_eq, Hp.
Qed.

(** ** Moving a process *)

(** Stopping a process: out of the queues, in a state that cannot run. *)
Lemma stop_spec tb s p f pcb : proc_inv tb s ∅ -> processes tb !! p = Some pcb -> stays f pcb ->
  ~ runnable (Pcb.state (f pcb)) -> proc_inv (update tb p f) (dequeue s p) ∅.
Proof.
  intros [Ht Hs] Hp Hf Hr. split.
  - apply update_ok; [done|]. intros pcb' ?. by simplify_eq.
  - apply (attach_idle _ _ _ p); [|set_solver|].
    + apply detached_update; [set_solver|]. by apply dequeue_detach.
    + intros pcb'. cbn. rewrite lookup_alter_eq, Hp. intros [= <-]. done.
Qed.

(** Waking a process that could not run. *)
Lemma wake_spec tb s p f pcb : proc_inv tb s ∅ -> processes tb !! p = Some pcb -> stays f pcb ->
  ~ runnable (Pcb.state pcb) -> Pcb.state (f pcb) = Ready ->
  exists s', enqueue s p (Pcb.effective_priority (f pcb)) = Done s' /\
    proc_inv (update tb p f) s' ∅ /\ current s' = current s /\ current_tick s' = current_tick s /\
    (forall x, queued s' x <-> queued s x \/ x = p).
Proof.
  intros [Ht Hs] Hp Hf Hr Hst.
  destruct (attach_enqueue (alter f p (processes tb)) s ∅ p (f pcb) (Pcb.effective_priority (f pcb)))
    as (s' & He & Hi & Hc & Hk & Hq & _).
  - apply detached_update; [set_solver|]. apply idle_detach; [done|]. intros ? ?. by simplify_eq.
  - set_solver.
  - by rewrite lookup_alter_eq, Hp.
  - by left.
  - done.
  - apply Hf.
  - exists s'. split_all; [done| |done..]. split; [|done]. apply update_ok; [done|]. intros ? ?. by simplify_eq.
Qed.

(** The second half of a change of priority: back into the queue if it can run. *)
Definition requeue (s : t) (p e : Z) (target : Pcb.t) : exec t :=
  if bool_decide (Pcb.state target = Ready) || bool_decide (Pcb.state target = Running)
  then enqueue s p e else Done s.

Lemma requeue_test st : bool_decide (st = Ready) || bool_decide (st = Running) = true <-> runnable st.
Proof. rewrite orb_true_iff, !bool_decide_eq_true. done. Qed.

Lemma set_priority_spec tb s p pcb e : proc_inv tb s ∅ -> processes tb !! p = Some pcb -> 0 <= e <= 4 ->
  exists s', requeue (dequeue s p) p e pcb = Done s' /\
    proc_inv (update tb p (Pcb.set_effective_priority e)) s' ∅ /\ current_tick s' = current_tick s.
Proof.
  intros [Ht Hs] Hp He. unfold requeue.
  assert (table_ok (update tb p (Pcb.set_effective_priority e))) as Ht' by (quiet Ht; lia).
  assert (sched_inv (alter (Pcb.set_effective_priority e) p (processes tb)) (dequeue s p) ({[p]} ∪ ∅)) as Hd.
  { apply detached_update; [set_solver|]. by apply dequeue_detach. }
  assert (alter (Pcb.set_effective_priority e) p (processes tb) !! p = Some (Pcb.set_effective_priority e pcb)) as Hp'
    by by rewrite lookup_alter_eq, Hp.
  destruct (_ || _) eqn:E.
  - apply requeue_test in E. destruct (attach_enqueue _ _ ∅ p (Pcb.set_effective_priority e pcb) e Hd) as (s' & Hen & Hi & _ & Hk & _);
      [set_solver|exact Hp'|done..|]. exists s'. rewrite <- (dequeue_tick s p). by split_all.
  - exists (dequeue s p). split_all; [done| |apply dequeue_tick]. split; [done|].
    apply (attach_idle _ _ _ p); [done|set_solver|]. intros pcb' Hx. pose proof (eq_trans (eq_sym Hx) Hp') as [= ->]. cbn.
    rewrite <- requeue_test, E. done.
Qed.

(** ** Selecting the next process *)

Lemma requeue_current_spec tb s : proc_inv tb s ∅ ->
  exists s' tb', requeue_current s tb = Done (s', tb') /\ proc_inv tb' s' ∅ /\ current s' = None /\
    current_tick s' = current_tick s /\
    (forall x, processes tb' !! x =
       if decide (current s = Some x) then Pcb.set_state Ready <$> processes tb !! x else processes tb !! x) /\
    (forall x, queued s' x <-> queued s x \/ current s = Some x) /\
    (forall l q', run_queues s' !! l = Some q' -> exists q, run_queues s !! l = Some q /\
       (q' = q \/ exists p, current s = Some p /\ q' = q ++ [p])).
Proof.
  intros Hpi. pose proof Hpi as [Ht Hs]. unfold requeue_current. destruct (current s) as [p|] eqn:Hc.
  2:{ exists s, tb. split_all; try done; [naive_solver|eauto]. }
  destruct (si_current _ _ _ Hs p Hc) as (_ & Hnq & pcb & Hp & Hst). unfold get. rewrite Hp, bool_decide_true by done.
  destruct (to_pcb _ Ht p pcb Hp) as [_ _ _ _ Hpr _ _ _].
  destruct (attach_enqueue (alter (Pcb.set_state Ready) p (processes tb)) (with_current s None) ∅ p
    (Pcb.set_state Ready pcb) (Pcb.effective_priority pcb)) as (s' & -> & Hi & Hc' & Hk & Hq & q & Hqe & Hrq).
  - apply detached_update; [set_solver|]. by apply detach_current.
  - set_solver.
  - by rewrite lookup_alter_eq, Hp.
  - by left.
  - done.
  - done.
  - exec_simpl. eexists _, _. split; [done|]. split_all; try done.
    + split; [|done]. quiet Ht.
    + intros x. rewrite lookup_update. repeat case_decide; congruence.
    + intros x. rewrite Hq. change (queued (with_current s None) x) with (queued s x). naive_solver.
    + intros l q'. rewrite Hrq. cbn. destruct (decide (l = Z.to_nat (Pcb.effective_priority pcb))) as [->|].
      * rewrite list_lookup_insert_eq by (by eapply lookup_lt_Some). intros [= <-].
        exists q. split; [done|]. right. by exists p.
      * rewrite list_lookup_insert_ne by done. intros Hl. exists q'. split; [done|by left].
Qed.

Lemma levels_S k : reverse (seqZ 0 (Z.of_nat (S k))) = Z.of_nat k :: reverse (seqZ 0 (Z.of_nat k)).
Proof.
  replace (Z.of_nat (S k)) with (Z.of_nat k + 1) by lia. rewrite seqZ_app by lia. by rewrite reverse_app.
Qed.

(** The scan takes the head of the highest non-empty queue. *)
Lemma scan_spec tb s k : proc_inv tb s ∅ -> current s = None -> (k <= 5)%nat ->
  (forall l q, (k <= l)%nat -> run_queues s !! l = Some q -> q = []) ->
  (scan s tb (reverse (seqZ 0 (Z.of_nat k))) = Done (None, s, tb) /\ forall x, ~ queued s x) \/
  (exists p q pcb s', processes tb !! p = Some pcb /\
     run_queues s !! Z.to_nat (Pcb.effective_priority pcb) = Some (p :: q) /\
     (forall l q, (Z.to_nat (Pcb.effective_priority pcb) < l)%nat -> run_queues s !! l = Some q -> q = []) /\
     scan s tb (reverse (seqZ 0 (Z.of_nat k))) = Done (Some p, s', update tb p (selected (current_tick s))) /\
     current s' = Some p /\ current_tick s' = current_tick s /\
     run_queues s' = <[Z.to_nat (Pcb.effective_priority pcb) := q]> (run_queues s) /\
     proc_inv (update tb p (selected (current_tick s))) s' ∅).
Proof.
  intros Hpi Hc. pose proof Hpi as [Ht Hs]. induction k as [|k IH]; intros Hk Hempty.
  - left. split; [done|]. intros x (l & q & Hl & Hx). rewrite (Hempty l q) in Hx by (lia || done). by apply not_elem_of_nil in Hx.
  - rewrite levels_S. cbn [scan]. destruct (queue_at _ _ _ (Z.of_nat k) Hs) as (q & -> & Hq); [lia|]. exec_simpl.
    rewrite Nat2Z.id in Hq. destruct q as [|p q].
    { apply IH; [lia|]. intros l q Hl Hl'. destruct (decide (l = k)) as [->|]; [by simplify_eq|]. apply (Hempty l q); [lia|done]. }
    right. rewrite arr_set_Done by (rewrite (si_len _ _ _ Hs); lia). exec_simpl. rewrite Nat2Z.id.
    destruct (si_queued _ _ _ Hs k _ p Hq) as (_ & pcb & Hp & Hr & He); [by left|].
    exists p, q, pcb. unfold get. rewrite Hp, He, Nat2Z.id. cbn [current_tick with_queues].
    eexists. split; [done|]. split; [done|]. split; [intros l q' ?; apply Hempty; lia|]. split; [done|].
    split_all; [done..|]. split; [quiet Ht|].
    apply (attach_current _ (with_queues s (<[k := q]> (run_queues s))) ∅ p (selected (current_tick s) pcb)); [|set_solver| |done|done].
    + apply detached_update; [set_solver|]. by apply pop_detach.
    + cbn. by rewrite lookup_alter_eq, Hp.
Qed.

(** Everything that can run, at most as urgent as a bound. *)
Definition most_urgent (P : gmap Z Pcb.t) (e : Z) : Prop :=
  forall x pcb, P !! x = Some pcb -> runnable (Pcb.state pcb) -> Pcb.effective_priority pcb <= e.

Lemma schedule_next_spec tb s : proc_inv tb s ∅ ->
  exists r s' tb', Scheduler.schedule_next s tb = Done (r, s', tb') /\ proc_inv tb' s' ∅ /\
    current_tick s' = current_tick s /\ current s' = r /\
    match r with
    | None => forall x pcb, processes tb !! x = Some pcb -> ~ runnable (Pcb.state pcb)
    | Some p => exists pcb pcb', processes tb !! p = Some pcb /\ runnable (Pcb.state pcb) /\
        processes tb' !! p = Some pcb' /\ Pcb.state pcb' = Running /\
        ((current s = Some p /\ 0 < Pcb.time_slice_remaining pcb /\ s' = s /\ tb' = tb) \/
         (most_urgent (processes tb) (Pcb.effective_priority pcb) /\
          Pcb.time_slice_remaining pcb' = slice_for_priority (Pcb.effective_priority pcb) /\
          exists q waiting, run_queues s !! Z.to_nat (Pcb.effective_priority pcb) = Some waiting /\
            (p :: q = waiting \/ exists c, current s = Some c /\ p :: q = waiting ++ [c]) /\
            run_queues s' !! Z.to_nat (Pcb.effective_priority pcb) = Some q))
    end.
Proof.
  intros Hpi. pose proof Hpi as [Ht Hs]. unfold Scheduler.schedule_next, keeps_running.
  assert (forall m, (match current s with
      | Some pid => match get tb pid with
          | Some pcb => if bool_decide (Pcb.state pcb = Running) && (Pcb.time_slice_remaining pcb >? 0) then Some pid else None
          | None => None end | None => None end) = Some m ->
    exists pcb, current s = Some m /\ processes tb !! m = Some pcb /\ Pcb.state pcb = Running /\ 0 < Pcb.time_slice_remaining pcb) as Hkeep.
  { intros m. unfold get. destruct (current s) as [p|]; [|done]. destruct (processes tb !! p) as [pcb|] eqn:E; [|done].
    case_bool_decide; [|done]. cbn. destruct (Z.gtb_spec (Pcb.time_slice_remaining pcb) 0); [|done]. intros [= <-]. by eauto. }
  destruct (match current s with Some _ => _ | None => None end) as [m|].
  { destruct (Hkeep m eq_refl) as (pcb & Hc & Hp & Hst & Hsl). eexists _, _, _. split; [done|]. split_all; try done.
    exists pcb, pcb. unfold runnable. split_all; try done; by auto. }
  destruct (requeue_current_spec tb s Hpi) as (s1 & tb1 & -> & Hpi1 & Hc1 & Hk1 & Htb1 & Hq1 & Hrq1). exec_simpl.
  assert (forall x pcb, processes tb !! x = Some pcb -> exists pcb1, processes tb1 !! x = Some pcb1 /\
    Pcb.effective_priority pcb1 = Pcb.effective_priority pcb /\
    (runnable (Pcb.state pcb) -> runnable (Pcb.state pcb1))) as Hfw.
  { intros x pcb Hx. rewrite Htb1, Hx. case_decide; [|by eauto]. eexists. split; [done|]. split; [done|]. by left. }
  pose proof Hpi1 as [Ht1 Hs1]. change NUM_LEVELS with (Z.of_nat 5).
  destruct (scan_spec tb1 s1 5 Hpi1 Hc1) as [[-> Hn]|(p & q & pcb1 & s' & Hp1 & Hq & Habove & -> & Hc' & Hk' & Hrq & Hpi')]; [lia| | |].
  { intros l q Hl Hl'. apply lookup_lt_Some in Hl'. rewrite (si_len _ _ _ Hs1) in Hl'. lia. }
  - eexists _, _, _. split; [done|]. split_all; try done. intros x pcb Hx Hr.
    destruct (Hfw x pcb Hx) as (pcb1 & Hx1 & _ & Hr1).
    destruct (si_complete _ _ _ Hs1 x pcb1 Hx1 (Hr1 Hr)) as [Hqd|?]; [set_solver|by eapply Hn|congruence].
  - eexists _, _, _. split; [done|]. split; [done|]. split; [congruence|]. split; [done|].
    assert (exists pcb, processes tb !! p = Some pcb) as [pcb Hp].
    { rewrite Htb1 in Hp1. destruct (processes tb !! p); [by eauto|]. case_decide; done. }
    destruct (Hfw p pcb Hp) as (pcb1' & Hp1' & He & _). rewrite Hp1 in Hp1'. injection Hp1' as <-. rewrite He in *.
    exists pcb, (selected (current_tick s1) pcb1). split; [done|]. split.
    { destruct (si_queued _ _ _ Hs1 _ _ p Hq) as (_ & pcb2 & Hp2 & _); [by left|].
      assert (queued s1 p) as Hqp by (eexists _, _; split; [done|by left]).
      apply Hq1 in Hqp as [Hqp|Hcp].
      - destruct (queued_runnable _ _ _ _ Hs Hqp) as (? & ? & ?). by simplify_eq.
      - destruct (current_runnable _ _ _ _ Hs Hcp) as (? & ? & ?). by simplify_eq. }
    split; [by rewrite lookup_update, decide_True, Hp1 by done|]. split; [done|]. right. split_all.
    + intros x pcb' Hx Hr. destruct (Hfw x pcb' Hx) as (pcb1' & Hx1 & He' & Hr1).
      destruct (si_complete _ _ _ Hs1 x pcb1' Hx1 (Hr1 Hr)) as [(l & q' & Hl & Hxq)|?]; [set_solver| |congruence].
      destruct (si_queued _ _ _ Hs1 l q' x Hl Hxq) as (_ & ? & ? & _ & Hel). simplify_eq.
      destruct (ok_prio _ _ _ _ (to_pcb _ Ht p pcb Hp)) as [Hpos _].
      destruct (decide (Z.to_nat (Pcb.effective_priority pcb) < l)%nat) as [Hlt|]; [|lia].
      rewrite (Habove l q' Hlt Hl) in Hxq. by apply not_elem_of_nil in Hxq.
    + cbn. by rewrite He.
    + destruct (Hrq1 _ _ Hq) as (w & Hw & Hwq). exists q, w. split; [done|]. split; [done|].
      rewrite Hrq, list_lookup_insert_eq; [done|]. by eapply lookup_lt_Some.
Qed.

(** ** Priority inheritance *)

(** [P'] is [P] with the priority of some processes raised to [e]. *)
Definition raised (e : Z) (P P' : gmap Z Pcb.t) : Prop :=
  forall x, exists e', P' !! x = Pcb.set_effective_priority e' <$> P !! x /\
    forall pcb, P !! x = Some pcb ->
      e' = Pcb.effective_priority pcb \/ (Pcb.effective_priority pcb < e /\ e' = e).

Lemma set_priority_same pcb : Pcb.set_effective_priority (Pcb.effective_priority pcb) pcb = pcb.
Proof. by destruct pcb. Qed.

Lemma raised_refl e P : raised e P P.
Proof.
  intros x. destruct (P !! x) as [pcb|]; [|by exists 0].
  exists (Pcb.effective_priority pcb). cbn. rewrite set_priority_same. split; [done|]. intros ? [= <-]. by left.
Qed.

Lemma raised_trans e P P1 P2 : raised e P P1 -> raised e P1 P2 -> raised e P P2.
Proof.
  intros H1 H2 x. destruct (H1 x) as (e1 & He1 & Hc1), (H2 x) as (e2 & He2 & Hc2). exists e2.
  destruct (P !! x) as [pcb|]; cbn in He1; rewrite He1 in He2, Hc2; cbn in He2; split; try done.
  intros ? [= <-]. destruct (Hc1 pcb eq_refl) as [->|[? ->]], (Hc2 _ eq_refl) as [->|[? ->]]; cbn in *; auto with lia.
Qed.

Lemma raised_one tb p pcb e : processes tb !! p = Some pcb -> Pcb.effective_priority pcb < e ->
  raised e (processes tb) (processes (update tb p (Pcb.set_effective_priority e))).
Proof.
  intros Hp He x. rewrite lookup_update. case_decide; [subst x|apply raised_refl].
  exists e. split; [done|]. intros. simplify_eq. by right.
Qed.

Lemma inherit_spec left target e tb s : proc_inv tb s ∅ -> 0 <= e <= 4 ->
  exists tb' s', Process.inherit left target e tb s = Done (tb', s') /\ proc_inv tb' s' ∅ /\
    current_tick s' = current_tick s /\ next_pid tb' = next_pid tb /\
    raised e (processes tb) (processes tb') /\
    (left <> O -> forall pcb, processes tb' !! target = Some pcb -> e <= Pcb.effective_priority pcb).
Proof.
  revert target tb s. induction left as [|left IH]; intros target tb s Hpi He; cbn [Process.inherit].
  { exists tb, s. split_all; try done. apply raised_refl. }
  unfold get. destruct (processes tb !! target) as [pcb|] eqn:Hp.
  2:{ exists tb, s. split_all; try done; [apply raised_refl|]. intros _ pcb. by rewrite Hp. }
  destruct (Z.ltb_spec (Pcb.effective_priority pcb) e) as [Hlt|Hge].
  2:{ exists tb, s. split_all; try done; [apply raised_refl|]. intros _ pcb' ?. by simplify_eq. }
  destruct (set_priority_spec tb s target pcb e Hpi Hp He) as (s1 & Hrq & Hpi1 & Hk1).
  unfold requeue in Hrq. rewrite Hrq. exec_simpl.
  pose proof (raised_one tb target pcb e Hp Hlt) as Hraise. set (tb1 := update tb target _) in *.
  assert (forall P', raised e (processes tb1) P' -> forall pcb', P' !! target = Some pcb' ->
    e <= Pcb.effective_priority pcb') as Htgt.
  { intros P' HP pcb' Hx. destruct (HP target) as (e' & Hl & Hc). unfold tb1 in Hl, Hc.
    rewrite lookup_update, decide_True, Hp in Hl, Hc by done. cbn in Hl. rewrite Hx in Hl. injection Hl as ->.
    destruct (Hc _ eq_refl) as [->|[_ ->]]; cbn; lia. }
  destruct (Pcb.blocked_on pcb) as [next|].
  - destruct (IH next tb1 s1 Hpi1 He) as (tb' & s' & -> & Hpi' & Hk & Hn & Hr & _). exists tb', s'.
    split_all; [done|done|congruence|done|by eapply raised_trans|]. intros _. by apply Htgt.
  - exists tb1, s1. split_all; try done. intros _. apply Htgt, raised_refl.
Qed.

Lemma revert_spec target tb s : proc_inv tb s ∅ ->
  exists tb' s', Process.revert_priority_inheritance target tb s = Done (tb', s') /\ proc_inv tb' s' ∅ /\
    current_tick s' = current_tick s /\ next_pid tb' = next_pid tb /\
    forall x, processes tb' !! x =
      if decide (x = target) then (fun p => Pcb.set_effective_priority (Pcb.base_priority p) p) <$> processes tb !! x
      else processes tb !! x.
Proof.
  intros Hpi. unfold Process.revert_priority_inheritance, get. pose proof Hpi as [Ht _].
  assert (forall x, processes tb !! target = None \/ (exists pcb, processes tb !! target = Some pcb /\
      Pcb.effective_priority pcb = Pcb.base_priority pcb) ->
    processes tb !! x = if decide (x = target)
      then (fun p => Pcb.set_effective_priority (Pcb.base_priority p) p) <$> processes tb !! x
      else processes tb !! x) as Hsame.
  { intros x [Hn|(pcb & Hp & He)]; case_decide; subst; try done; [by rewrite Hn|].
    rewrite Hp. cbn. by rewrite <- He, set_priority_same. }
  destruct (processes tb !! target) as [pcb|] eqn:Hp.
  2:{ exists tb, s. split_all; try done. intros x. apply Hsame. by left. }
  destruct (Z.eqb_spec (Pcb.effective_priority pcb) (Pcb.base_priority pcb)) as [He|Hne]; cbn [negb].
  { exists tb, s. split_all; try done. intros x. apply Hsame. eauto. }
  destruct (set_priority_spec tb s target pcb (Pcb.base_priority pcb) Hpi Hp) as (s1 & Hrq & Hpi1 & Hk1).
  { apply (to_pcb _ Ht _ _ Hp). }
  unfold requeue in Hrq. rewrite Hrq. exec_simpl. eexists _, s1. split_all; try done.
  intros x. rewrite lookup_update. clear Hrq. repeat case_decide; subst; try done. by rewrite Hp.
Qed.

(** ** Waking up *)
Lemma intent_boost_stays sc tb p pcb f : table_ok tb -> processes tb !! p = Some pcb ->
  stays f pcb -> stays (apply_intent_boost sc ∘ f) pcb.
Proof.
  intros Ht Hp (H1 & H2 & H3 & H4 & H5 & H6 & H7). unfold stays, compose.
  assert (forall q, 0 <= Pcb.effective_priority q <= 4 ->
    0 <= Pcb.effective_priority (raise_one q) <= 4) as Hraise.
  { intros q Hq. cbn. rewrite wrap_small by lia. lia. }
  set (q := f pcb) in *. unfold apply_intent_boost.
  destruct (bool_decide (_ = Compute) && _); destruct (Intent.category (Pcb.intent q)); cbn -[raise_one Z.le];
    repeat case_match; split_all; try done; try (by apply H7); cbn; try (rewrite wrap_small by (cbn; lia)); lia.
Qed.

Lemma intent_boost_state sc q : Pcb.state (apply_intent_boost sc q) = Pcb.state q.
Proof.
  unfold apply_intent_boost. destruct (bool_decide (_ = Compute) && _);
    destruct (Intent.category (Pcb.intent q)); cbn -[raise_one]; repeat case_match; done.
Qed.

End ProcOps.
