(* ===== verification/SuperSpec.v ===== *)
(** * What supervision and aging do

    The specification of the crash handler of [Process.Supervisor]: which
    processes a supervisor restarts, that escalation along the supervision
    chain ends, and the sliding window of the restart intensity.  [run_aging]
    collects the processes that have waited too long and then moves them up one
    queue each: exactly the starved processes gain one priority level, nothing
    else changes, and the queues agree with the table again. *)

From S2P Require Import Prelude Wire Crypto FixedMap FixedMapSpec Trackers CapStore Ring Bus AuditTrail.
From S2P Require Import Router Handle Process ProcOps.

Module SuperSpec.
Import Scheduler SchedInv ProcOps Supervisor.
Import ProcessTable (processes, next_pid, get, update).

(** [P'] is [P] with the processes of [pids] changed by [f]. *)
Definition mapped (f : Pcb.t -> Pcb.t) (pids : list Z) (P P' : gmap Z Pcb.t) : Prop :=
  forall x, P' !! x = if decide (x ∈ pids) then f <$> P !! x else P !! x.

Lemma mapped_one f p P P' :
  (forall x, P' !! x = if decide (p = x) then f <$> P !! x else P !! x) -> mapped f [p] P P'.
Proof.
  intros Hm x. rewrite Hm. destruct (decide (p = x)) as [->|]; [by rewrite decide_True by set_solver|].
  by rewrite decide_False by set_solver.
Qed.

Lemma mapped_none f p P : P !! p = None -> mapped f [p] P P.
Proof. intros Hp. apply mapped_one. intros x. case_decide; [subst; by rewrite Hp|done]. Qed.

Lemma mapped_id f p P pcb : P !! p = Some pcb -> f pcb = pcb -> mapped f [p] P P.
Proof. intros Hp Hf. apply mapped_one. intros x. case_decide; [subst; rewrite Hp; cbn; by rewrite Hf|done]. Qed.

Lemma mapped_alter f p tb : mapped f [p] (processes tb) (processes (update tb p f)).
Proof. apply mapped_one. intros x. apply lookup_update. Qed.

Definition restarted (now : Z) (pcb : Pcb.t) : Pcb.t := Pcb.reset_for_restart pcb now.

(** What the first loop leaves of a process. *)
Definition killed (pcb : Pcb.t) : Pcb.t :=
  if bool_decide (Pcb.state pcb <> Terminated)
  then Pcb.set_exit_reason (Some ExitReason.Killed) (Pcb.set_state Terminated pcb) else pcb.

Lemma restarted_killed now pcb : restarted now (killed pcb) = restarted now pcb.
Proof. unfold killed. by case_bool_decide. Qed.

Lemma killed_idle pcb : ~ runnable (Pcb.state (killed pcb)).
Proof. unfold killed, runnable. case_bool_decide as Hs; cbn; [naive_solver|]. destruct (Pcb.state pcb); naive_solver. Qed.

Lemma restarted_stays now tb p pcb : table_ok tb -> processes tb !! p = Some pcb -> stays (restarted now) pcb.
Proof.
  intros Ht Hp. destruct (to_pcb _ Ht p pcb Hp). unfold stays. cbn. split; [done|]. split; [done|]. split; [done|]. split; [done|]. split; [done|].
  split; [set_solver|]. intros [m Hm]. exists ∅. by apply (HandleSpec.clear_represents _ m).
Qed.

Lemma killed_stays tb p pcb : table_ok tb -> processes tb !! p = Some pcb -> stays killed pcb.
Proof.
  intros Ht Hp. apply (stays_quiet _ _ _ _ Ht Hp); unfold killed; case_bool_decide; try done; apply (to_pcb _ Ht p pcb Hp).
Qed.

Lemma restart_process_spec p now tb s : proc_inv tb s ∅ ->
  (forall pcb, processes tb !! p = Some pcb -> ~ runnable (Pcb.state pcb)) ->
  exists tb' s', restart_process p now tb s = Done (tb', s') /\ proc_inv tb' s' ∅ /\
    current_tick s' = current_tick s /\ next_pid tb' = next_pid tb /\
    mapped (restarted now) [p] (processes tb) (processes tb').
Proof.
  intros Hpi Hr. unfold restart_process, get. pose proof Hpi as [Ht _].
  destruct (processes tb !! p) as [pcb|] eqn:Hp.
  - destruct (wake_spec tb s p (restarted now) pcb Hpi Hp) as (s' & Hen & Hpi' & _ & Hk & _);
      [by eapply restarted_stays|by apply Hr|done|]. unfold restarted in Hen. rewrite Hen. exec_simpl.
    eexists _, s'. split; [done|]. change (Pcb.reset_for_restart pcb now) with (restarted now pcb).
    rewrite (update_const _ _ _ (restarted now) Hp). split_all; try done.
    apply mapped_alter.
  - eexists _, _. split; [done|]. split_all; try done. by apply mapped_none.
Qed.

Lemma kill_all_spec pids tb s : proc_inv tb s ∅ ->
  exists tb' s', kill_all pids tb s = (tb', s') /\ proc_inv tb' s' ∅ /\
    current_tick s' = current_tick s /\ next_pid tb' = next_pid tb /\
    mapped killed pids (processes tb) (processes tb').
Proof.
  revert tb s. induction pids as [|p pids IH]; intros tb s Hpi; cbn [kill_all].
  { exists tb, s. split_all; try done. }
  pose proof Hpi as [Ht _].
  assert (forall pcb, killed (killed pcb) = killed pcb) as Hidem.
  { intros pcb. unfold killed at 1. rewrite bool_decide_false; [done|]. unfold killed. case_bool_decide; cbn; naive_solver. }
  assert (forall tb1 s1, proc_inv tb1 s1 ∅ -> current_tick s1 = current_tick s -> next_pid tb1 = next_pid tb ->
    mapped killed [p] (processes tb) (processes tb1) ->
    exists tb' s', kill_all pids tb1 s1 = (tb', s') /\ proc_inv tb' s' ∅ /\
      current_tick s' = current_tick s /\ next_pid tb' = next_pid tb /\
      mapped killed (p :: pids) (processes tb) (processes tb')) as Hgo.
  { intros tb1 s1 Hpi1 Hk1 Hn1 Hm1. destruct (IH tb1 s1 Hpi1) as (tb' & s' & -> & Hpi' & Hk & Hn & Hm).
    exists tb', s'. split_all; [done|done|congruence|congruence|]. intros x. rewrite Hm, Hm1.
    repeat case_decide; try set_solver. destruct (processes tb !! x); [|done]. cbn. by rewrite Hidem. }
  unfold get. destruct (processes tb !! p) as [pcb|] eqn:Hp; [case_bool_decide as Hst|].
  - apply Hgo; [|apply dequeue_tick|done|].
    + apply (stop_spec tb s p _ pcb Hpi Hp); [apply (stays_quiet _ tb p); try done; apply (to_pcb _ Ht p pcb Hp)|].
      cbn. unfold runnable. naive_solver.
    + apply mapped_one. intros x. rewrite lookup_update. case_decide; [|done]. subst x. rewrite Hp. cbn.
      unfold killed. by rewrite bool_decide_true.
  - apply Hgo; try done. apply (mapped_id _ _ _ pcb Hp). unfold killed. case_bool_decide; done.
  - apply Hgo; try done. by apply mapped_none.
Qed.

Lemma restart_all_spec pids now tb s n : proc_inv tb s ∅ -> NoDup pids ->
  (forall p pcb, p ∈ pids -> processes tb !! p = Some pcb -> ~ runnable (Pcb.state pcb)) ->
  exists m tb' s', restart_all pids now tb s n = Done (m, tb', s') /\ proc_inv tb' s' ∅ /\
    current_tick s' = current_tick s /\ next_pid tb' = next_pid tb /\
    mapped (restarted now) pids (processes tb) (processes tb').
Proof.
  revert tb s n. induction pids as [|p pids IH]; intros tb s n Hpi Hnd Hr; cbn [restart_all].
  { eexists _, tb, s. split; [done|]. split_all; try done. }
  apply NoDup_cons in Hnd as [Hp Hnd].
  destruct (restart_process_spec p now tb s Hpi) as (tb1 & s1 & -> & Hpi1 & Hk1 & Hn1 & Hm1);
    [intros; eapply Hr; [by left|done]|]. exec_simpl.
  destruct (IH tb1 s1 (u32_add n 1) Hpi1 Hnd) as (m & tb' & s' & -> & Hpi' & Hk & Hn & Hm).
  { intros x pcb Hx. rewrite Hm1, decide_False by set_solver. apply Hr. by right. }
  eexists _, tb', s'. split; [done|]. split_all; [done|congruence|congruence|]. intros x. rewrite Hm, Hm1.
  repeat case_decide; set_solver.
Qed.

(** Both loops together restart each of the processes. *)
Lemma restart_group_spec pids now tb s : proc_inv tb s ∅ -> NoDup pids ->
  exists m tb' s', (let '(table, sched) := kill_all pids tb s in restart_all pids now table sched 0) = Done (m, tb', s') /\
    proc_inv tb' s' ∅ /\ current_tick s' = current_tick s /\ next_pid tb' = next_pid tb /\
    mapped (restarted now) pids (processes tb) (processes tb').
Proof.
  intros Hpi Hnd. destruct (kill_all_spec pids tb s Hpi) as (tb1 & s1 & -> & Hpi1 & Hk1 & Hn1 & Hm1).
  destruct (restart_all_spec pids now tb1 s1 0 Hpi1 Hnd) as (m & tb' & s' & -> & Hpi' & Hk & Hn & Hm).
  { intros p pcb Hp. rewrite Hm1, decide_True by done. intros (pcb0 & _ & ->)%fmap_Some. apply killed_idle. }
  eexists _, tb', s'. split; [done|]. split_all; [done|congruence|congruence|]. intros x. rewrite Hm, Hm1.
  case_decide; [|done]. destruct (processes tb !! x); [|done]. cbn. by rewrite restarted_killed.
Qed.

Lemma rest_of_spec tb children o :
  forall x, x ∈ rest_of tb children o <-> x ∈ children /\
    exists pcb, processes tb !! x = Some pcb /\ o <= Pcb.spawn_order pcb.
Proof.
  intros x. unfold rest_of. rewrite list_elem_of_omap. unfold get. split.
  - intros (y & Hy & Hx). destruct (processes tb !! y) as [pcb|] eqn:E; [|done].
    destruct (Z.geb_spec (Pcb.spawn_order pcb) o); simplify_eq. eauto.
  - intros (Hx & pcb & Hp & Ho). exists x. split; [done|]. rewrite Hp. by destruct (Z.geb_spec (Pcb.spawn_order pcb) o); [|lia].
Qed.

Lemma rest_of_nodup tb children o : NoDup children -> NoDup (rest_of tb children o).
Proof.
  induction 1 as [|c cs Hc Hnd IH]; [constructor|]. unfold rest_of in *. cbn.
  case_match eqn:E; [|done]. constructor; [|done]. destruct (get tb c); [|done]. case_match; simplify_eq.
  rewrite list_elem_of_omap. intros (y & Hy & Hx). repeat case_match; simplify_eq. done.
Qed.

(** The processes a supervisor restarts when one of its children crashes. *)
Definition victims (P : gmap Z Pcb.t) (sup : Pcb.t) (crashed : Z) : list Z :=
  match Pcb.strategy sup with
  | OneForOne => [crashed]
  | OneForAll => Pcb.children sup
  | RestForOne =>
      List.filter (fun c =>
        match P !! c with
        | Some pcb => from_option Pcb.spawn_order 0 (P !! crashed) <=? Pcb.spawn_order pcb
        | None => false
        end) (Pcb.children sup)
  end.

(** The supervisor's record of the restart. *)
Definition noted (now : Z) (sup : Pcb.t) : Pcb.t :=
  Pcb.set_restart_tracker (snd (RestartTracker.record_restart (Pcb.restart_tracker sup) now)) sup.

Definition exceeds (now : Z) (sup : Pcb.t) : bool :=
  fst (RestartTracker.record_restart (Pcb.restart_tracker sup) now).

(** The contract of the crash handler: [supervised now P sup crashed P'] when
    handling the crash of [crashed] at [sup] turns the processes [P] into [P']. *)
Inductive supervised (now : Z) : gmap Z Pcb.t -> Z -> Z -> gmap Z Pcb.t -> Prop :=
| sup_missing P sup crashed : P !! sup = None -> supervised now P sup crashed P
| sup_restart P sup crashed pcb P' :
    P !! sup = Some pcb -> exceeds now pcb = false ->
    mapped (restarted now) (victims P pcb crashed) (alter (noted now) sup P) P' ->
    supervised now P sup crashed P'
| sup_stop P sup crashed pcb :
    P !! sup = Some pcb -> exceeds now pcb = true -> Pcb.supervisor pcb = KERNEL ->
    supervised now P sup crashed (alter (give_up_on ∘ noted now) sup P)
| sup_escalate P sup crashed pcb P' :
    P !! sup = Some pcb -> exceeds now pcb = true -> Pcb.supervisor pcb <> KERNEL ->
    supervised now (alter (give_up_on ∘ noted now) sup P) (Pcb.supervisor pcb) sup P' ->
    supervised now P sup crashed P'.

Lemma mapped_ext f l l' P P' : (forall x, x ∈ l <-> x ∈ l') -> mapped f l P P' -> mapped f l' P P'.
Proof. intros Hl Hm x. rewrite Hm. repeat case_decide; naive_solver. Qed.

Lemma noted_stays now tb p pcb : table_ok tb -> processes tb !! p = Some pcb -> stays (noted now) pcb.
Proof. intros Ht Hp. apply (stays_quiet _ _ _ _ Ht Hp); try done. apply (to_pcb _ Ht p pcb Hp). Qed.

Lemma note_spec now tb s p : proc_inv tb s ∅ -> proc_inv (update tb p (noted now)) s ∅.
Proof.
  intros [Ht Hs]. split.
  - apply update_ok; [done|]. intros. by eapply noted_stays.
  - by apply quiet_update.
Qed.

Lemma victims_rest tb sup p now crashed pcb :
  processes tb !! p = Some pcb -> Pcb.strategy sup = RestForOne ->
  let tb1 := update tb p (noted now) in
  forall x, x ∈ rest_of tb1 (Pcb.children sup)
      match get tb1 crashed with Some c => Pcb.spawn_order c | None => 0 end <->
    x ∈ victims (processes tb) sup crashed.
Proof.
  intros Hp Hst tb1 x. rewrite rest_of_spec. unfold victims. rewrite Hst.
  assert (forall y, (Pcb.spawn_order <$> processes tb1 !! y) = (Pcb.spawn_order <$> processes tb !! y)) as Hso.
  { intros y. unfold tb1. rewrite lookup_update. case_decide; [|done]. by destruct (processes tb !! y). }
  rewrite (elem_of_retain _ (Pcb.children sup) x). apply and_iff_compat_l. unfold get.
  pose proof (Hso x) as Hx. pose proof (Hso crashed) as Hc.
  assert (match processes tb1 !! crashed with Some c => Pcb.spawn_order c | None => 0 end =
    from_option Pcb.spawn_order 0 (processes tb !! crashed)) as ->.
  { destruct (processes tb1 !! crashed), (processes tb !! crashed); by simplify_eq/=. }
  destruct (processes tb1 !! x) as [c1|], (processes tb !! x) as [c|]; simplify_eq/=.
  - rewrite Z.leb_le. split; [intros (? & [= <-] & ?); lia|]. intros. eexists. split; [done|]. lia.
  - split; [by intros (? & ? & _)|done].
Qed.

(** Restarting the victims of a crash. *)
Lemma strategy_spec now tb s sup crashed pcb : proc_inv tb s ∅ -> processes tb !! sup = Some pcb ->
  (forall c, processes tb !! crashed = Some c -> ~ runnable (Pcb.state c)) ->
  let tb1 := update tb sup (noted now) in
  exists n tb' s',
    match Pcb.strategy pcb with
    | OneForOne =>
        '(table, sched) ← restart_process crashed now tb1 s; Done (Ok 1, table, sched)
    | OneForAll =>
        let '(table, sched) := kill_all (Pcb.children pcb) tb1 s in
        '(n, table, sched) ← restart_all (Pcb.children pcb) now table sched 0; Done (Ok n, table, sched)
    | RestForOne =>
        let crashed_order := match get tb1 crashed with Some c => Pcb.spawn_order c | None => 0 end in
        let to_restart := rest_of tb1 (Pcb.children pcb) crashed_order in
        let '(table, sched) := kill_all to_restart tb1 s in
        '(n, table, sched) ← restart_all to_restart now table sched 0; Done (Ok n, table, sched)
    end = Done (Ok (E := ProcessTable.ProcessError) n, tb', s') /\
    proc_inv tb' s' ∅ /\ current_tick s' = current_tick s /\ next_pid tb' = next_pid tb /\
    mapped (restarted now) (victims (processes tb) pcb crashed) (alter (noted now) sup (processes tb)) (processes tb').
Proof.
  intros Hpi Hp Hr tb1. pose proof (note_spec now tb s sup Hpi) as Hpi1. fold tb1 in Hpi1.
  pose proof (pi_table _ _ _ Hpi) as Ht. destruct (to_pcb _ Ht _ _ Hp) as [_ _ _ _ _ _ Hnd _].
  destruct (Pcb.strategy pcb) eqn:Hst.
  - destruct (restart_process_spec crashed now tb1 s Hpi1) as (tb' & s' & -> & Hpi' & Hk & Hn & Hm).
    { intros c Hc. unfold tb1 in Hc. rewrite lookup_update in Hc.
      case_decide; [|by apply Hr]. apply fmap_Some in Hc as (c0 & Hc0 & ->). by apply (Hr c0). }
    exec_simpl. eexists _, tb', s'. split_all; try done. unfold victims. by rewrite Hst.
  - destruct (restart_group_spec (Pcb.children pcb) now tb1 s Hpi1 Hnd) as (m & tb' & s' & He & Hpi' & Hk & Hn & Hm).
    destruct (kill_all _ tb1 s) as [tb2 s2]. rewrite He. exec_simpl. eexists _, tb', s'. split_all; try done.
    unfold victims. by rewrite Hst.
  - cbn zeta. set (o := match get tb1 crashed with Some _ => _ | None => _ end).
    destruct (restart_group_spec (rest_of tb1 (Pcb.children pcb) o) now tb1 s Hpi1) as (m & tb' & s' & He & Hpi' & Hk & Hn & Hm);
      [by apply rest_of_nodup|].
    destruct (kill_all _ tb1 s) as [tb2 s2]. rewrite He. exec_simpl. eexists _, tb', s'. split_all; try done.
    eapply mapped_ext; [|exact Hm]. intros x. by apply (victims_rest _ _ _ _ _ _ Hp Hst).
Qed.

(** How many processes are at or above a supervisor in the order of pids; it bounds
    the escalation. *)
Definition rank (P : gmap Z Pcb.t) (sup : Z) : nat := size (filter (fun p => p <= sup) (dom P)).

Lemma rank_lt P p q : p < q -> is_Some (P !! q) -> (rank P p < rank P q)%nat.
Proof.
  intros Hlt Hq. apply subset_size. apply elem_of_dom in Hq. split; [set_solver by lia|].
  intros Hsub. assert (q ∈ filter (fun x => x <= q) (dom P)) as Hin by set_solver by lia.
  apply Hsub in Hin. apply elem_of_filter in Hin. lia.
Qed.

Lemma rank_bound P p : (rank P p <= size P)%nat.
Proof. rewrite <- size_dom. apply subseteq_size. set_solver. Qed.

Lemma crash_loop_spec fuel sup crashed now tb s :
  proc_inv tb s ∅ -> (forall c, processes tb !! crashed = Some c -> ~ runnable (Pcb.state c)) ->
  (rank (processes tb) sup < fuel)%nat ->
  exists r tb' s', crash_loop fuel sup crashed now tb s = Done (r, tb', s') /\ proc_inv tb' s' ∅ /\
    current_tick s' = current_tick s /\ next_pid tb' = next_pid tb /\
    supervised now (processes tb) sup crashed (processes tb').
Proof.
  revert sup crashed tb s. induction fuel as [|fuel IH]; intros sup crashed tb s Hpi Hr Hf; [lia|].
  cbn [crash_loop]. unfold get at 1. destruct (processes tb !! sup) as [pcb|] eqn:Hp.
  2:{ eexists _, tb, s. split_all; try done. by apply sup_missing. }
  destruct (RestartTracker.record_restart (Pcb.restart_tracker pcb) now) as [ex tracker] eqn:Hrec.
  assert (update tb sup (Pcb.set_restart_tracker tracker) = update tb sup (noted now)) as ->.
  { rewrite <- (update_const tb sup pcb (noted now) Hp), <- (update_const tb sup pcb (Pcb.set_restart_tracker tracker) Hp).
    unfold noted. by rewrite Hrec. }
  assert (exceeds now pcb = ex) as Hex by (unfold exceeds; by rewrite Hrec).
  pose proof (pi_table _ _ _ Hpi) as Ht. destruct ex.
  - rewrite update_twice. set (tb1 := update tb sup (give_up_on ∘ noted now)).
    assert (proc_inv tb1 (dequeue s sup) ∅) as Hpi1.
    { apply (stop_spec tb s sup _ pcb Hpi Hp); [|cbn; unfold runnable; naive_solver].
      apply (stays_quiet _ _ _ _ Ht Hp); try done. apply (to_pcb _ Ht _ _ Hp). }
    destruct (Z.eqb_spec (Pcb.supervisor pcb) KERNEL) as [Hk|Hk].
    + eexists _, tb1, _. split_all; try done; [apply dequeue_tick|]. by eapply sup_stop.
    + destruct (IH (Pcb.supervisor pcb) sup tb1 (dequeue s sup) Hpi1) as (r & tb' & s' & -> & Hpi' & Htk & Hn & Hsup).
      * intros c. unfold tb1. rewrite lookup_update, decide_True, Hp by done. intros [= <-]. cbn. unfold runnable. naive_solver.
      * assert (rank (processes tb1) (Pcb.supervisor pcb) = rank (processes tb) (Pcb.supervisor pcb)) as ->.
        { unfold rank, tb1. cbn. by rewrite dom_alter_L. }
        assert (rank (processes tb) (Pcb.supervisor pcb) < rank (processes tb) sup)%nat; [|lia].
        apply rank_lt; [|by eauto]. apply (ok_super _ _ _ _ (to_pcb _ Ht _ _ Hp)).
      * exec_simpl. eexists _, tb', s'. split_all; [done|done|by rewrite Htk, dequeue_tick|done|].
        by eapply sup_escalate.
  - destruct (strategy_spec now tb s sup crashed pcb Hpi Hp Hr) as (n & tb' & s' & He & Hpi' & Hk & Hn & Hm).
    cbn zeta in He. rewrite He. eexists _, tb', s'. split_all; try done. by eapply sup_restart.
Qed.

Lemma handle_child_crash_spec sup crashed now tb s :
  proc_inv tb s ∅ -> (forall c, processes tb !! crashed = Some c -> ~ runnable (Pcb.state c)) ->
  exists r tb' s', handle_child_crash sup crashed now tb s = Done (r, tb', s') /\ proc_inv tb' s' ∅ /\
    current_tick s' = current_tick s /\ next_pid tb' = next_pid tb /\
    supervised now (processes tb) sup crashed (processes tb').
Proof. intros Hpi Hr. apply crash_loop_spec; [done..|]. pose proof (rank_bound (processes tb) sup). lia. Qed.

End SuperSpec.

Module AgingSpec.
Import Scheduler SchedInv ProcOps SuperSpec.
Import ProcessTable (processes, next_pid, get, update).

Definition promoted (pcb : Pcb.t) : Pcb.t :=
  Pcb.set_effective_priority (Pcb.effective_priority pcb + 1) pcb.

Definition starved (now : Z) (pcb : Pcb.t) : bool :=
  bool_decide (Pcb.state pcb = Ready) && (sat_sub now (Pcb.last_scheduled pcb) >=? AGING_INTERVAL) &&
  (Pcb.effective_priority pcb <? 4).

Lemma sched_inv_ext P s s' D : run_queues s = run_queues s' -> current s = current s' ->
  sched_inv P s D -> sched_inv P s' D.
Proof. destruct s, s'. cbn. intros <- <- []. split; done. Qed.

(** One round of the second loop. *)
Lemma boost_one tb s l q p pcb todo : proc_inv tb s ∅ -> (l < 4)%nat ->
  run_queues s !! l = Some q -> p ∈ q -> processes tb !! p = Some pcb -> Pcb.state pcb = Ready ->
  exists s', boost_all s tb ((p, Z.of_nat l, Z.of_nat l + 1) :: todo) =
      boost_all s' (update tb p promoted) todo /\
    proc_inv (update tb p promoted) s' ∅ /\ current_tick s' = current_tick s /\
    forall l' q' x, run_queues s !! l' = Some q' -> x ∈ q' -> x <> p ->
      exists q'', run_queues s' !! l' = Some q'' /\ x ∈ q''.
Proof.
  intros [Ht Hs] Hl Hq Hpq Hp Hst.
  destruct (si_queued _ _ _ Hs l q p Hq Hpq) as (_ & ? & ? & _ & He). simplify_eq.
  assert (current s <> Some p) as Hnc.
  { intros Hc. destruct (si_current _ _ _ Hs p Hc) as (_ & Hn & _). apply Hn. by exists l, q. }
  assert (run_queues (dequeue s p) = <[l := without p q]> (run_queues s)) as Hdq.
  { unfold dequeue. rewrite bool_decide_false by done. cbn. apply list_eq. intros l'.
    change (map ?f ?x) with (f <$> x). rewrite list_lookup_fmap. destruct (decide (l' = l)) as [->|Hne].
    - rewrite Hq, list_lookup_insert_eq; [done|]. by eapply lookup_lt_Some.
    - rewrite list_lookup_insert_ne by done. destruct (run_queues s !! l') as [q'|] eqn:E; [|done]. cbn. f_equal.
      apply retain_all. intros x Hx. apply negb_true_iff, Z.eqb_neq. intros ->.
      destruct (si_queued _ _ _ Hs l' q' p E Hx) as (_ & ? & ? & _ & He'). simplify_eq. lia. }
  destruct (attach_enqueue (alter promoted p (processes tb)) (dequeue s p) ∅ p (promoted pcb) (Z.of_nat l + 1))
    as (s' & _ & Hi & Hc & Hk & Hqd & q1 & Hq1 & Hrq).
  { apply detached_update; [set_solver|]. by apply dequeue_detach. }
  { set_solver. }
  { by rewrite lookup_alter_eq, Hp. }
  { by left. }
  { cbn. lia. }
  { lia. }
  rewrite Hdq in Hq1, Hrq. replace (Z.to_nat (Z.of_nat l + 1)) with (S l) in * by lia.
  cbn [boost_all]. rewrite (arr_get_at _ (Z.of_nat l) q) by (lia || by rewrite Nat2Z.id). exec_simpl.
  rewrite arr_set_Done by (rewrite (si_len _ _ _ Hs); lia). exec_simpl. rewrite Nat2Z.id.
  unfold level_of, NUM_LEVELS. replace (Z.min (Z.of_nat l + 1) (5 - 1)) with (Z.of_nat (S l)) by lia.
  rewrite (arr_get_at _ _ q1) by (lia || by rewrite Nat2Z.id). exec_simpl.
  rewrite arr_set_Done by (rewrite length_insert, (si_len _ _ _ Hs); lia). exec_simpl. rewrite Nat2Z.id.
  assert (update tb p (Pcb.set_effective_priority (Z.of_nat l + 1)) = update tb p promoted) as ->.
  { rewrite <- (update_const _ _ _ promoted Hp), <- (update_const _ _ _ (Pcb.set_effective_priority (Z.of_nat l + 1)) Hp).
    unfold promoted. by rewrite He. }
  eexists. split; [done|]. rewrite <- Hrq. split_all; [|done|].
  - split.
    + apply update_ok; [done|]. intros pcb' E. apply (stays_quiet _ _ _ _ Ht E); try done. cbn. simplify_eq. lia.
    + eapply sched_inv_ext; [..|exact Hi]; [done|]. rewrite Hc. unfold dequeue. by rewrite bool_decide_false.
  - intros l' q' x Hl' Hx Hne. cbn. rewrite Hrq.
    destruct (decide (l' = S l)) as [->|]; [|destruct (decide (l' = l)) as [->|]].
    + rewrite list_lookup_insert_eq by (by eapply lookup_lt_Some). eexists. split; [done|].
      rewrite list_lookup_insert_ne in Hq1 by lia. simplify_eq. set_solver.
    + rewrite list_lookup_insert_ne, list_lookup_insert_eq by (lia || by eapply lookup_lt_Some).
      eexists. split; [done|]. simplify_eq. by apply elem_of_without.
    + rewrite !list_lookup_insert_ne by done. by eauto.
Qed.

(** What the candidates are. *)
Definition candidate (tb : ProcessTable.t) (s : t) (c : Z * Z * Z) : Prop :=
  exists l q pcb, (l < 4)%nat /\ run_queues s !! l = Some q /\ c.1.1 ∈ q /\
    processes tb !! c.1.1 = Some pcb /\ Pcb.state pcb = Ready /\ c = (c.1.1, Z.of_nat l, Z.of_nat l + 1).

Lemma boost_all_spec todo tb s : proc_inv tb s ∅ -> NoDup (map (fun c => c.1.1) todo) ->
  Forall (candidate tb s) todo ->
  exists s' tb', boost_all s tb todo = Done (s', tb') /\ proc_inv tb' s' ∅ /\ current_tick s' = current_tick s /\
    next_pid tb' = next_pid tb /\
    mapped promoted (map (fun c => c.1.1) todo) (processes tb) (processes tb').
Proof.
  revert tb s. induction todo as [|c todo IH]; intros tb s Hpi Hnd Hc.
  { exists s, tb. split_all; try done. }
  apply Forall_cons in Hc as [(l & q & pcb & Hl & Hq & Hpq & Hp & Hst & Hceq) Hc]. cbn [map] in *.
  apply NoDup_cons in Hnd as [Hnin Hnd]. set (p := c.1.1) in *. rewrite Hceq.
  destruct (boost_one tb s l q p pcb todo Hpi Hl Hq Hpq Hp Hst) as (s1 & -> & Hpi1 & Hk1 & Hkeep).
  destruct (IH (update tb p promoted) s1 Hpi1 Hnd) as (s' & tb' & He & Hpi' & Hk & Hn & Hm).
  { rewrite Forall_forall in Hc |- *. intros d Hd. destruct (Hc d Hd) as (l' & q' & pcb' & ? & Hq' & Hx & Hp' & Hst' & Hdeq).
    assert (d.1.1 <> p) as Hne. { intros E. apply Hnin. rewrite <- E. apply list_elem_of_In, in_map_iff.
      exists d. split; [done|]. by apply list_elem_of_In. }
    destruct (Hkeep l' q' (d.1.1) Hq' Hx Hne) as (q'' & Hq'' & Hx''). exists l', q'', pcb'.
    split_all; try done. by rewrite lookup_update, decide_False by done. }
  exists s', tb'. split_all; [done|done|congruence|done|]. intros x. rewrite Hm.
  rewrite (mapped_alter promoted p tb x). repeat case_decide; set_solver.
Qed.

Lemma aged_spec now tb l p c : aged now tb l p = Some c <->
  exists pcb, processes tb !! p = Some pcb /\ starved now pcb = true /\
    c = (p, l, wrap 8 (Pcb.effective_priority pcb + 1)).
Proof.
  unfold aged, starved, get. change (NUM_LEVELS - 1) with 4. destruct (processes tb !! p) as [pcb|]; [|by split; [|intros (? & ? & _)]].
  destruct (_ && _ && _) eqn:E; split.
  - intros [= <-]. by exists pcb.
  - by intros (? & [= <-] & _ & ->).
  - done.
  - intros (? & [= <-] & Hst & _). congruence.
Qed.

Lemma aging_candidates_spec tb s levels : proc_inv tb s ∅ -> NoDup levels -> Forall (fun l => 0 <= l < 4) levels ->
  exists cs, aging_candidates s tb levels = Done cs /\ Forall (candidate tb s) cs /\
    NoDup (map (fun c => c.1.1) cs) /\
    forall p, p ∈ map (fun c => c.1.1) cs <-> exists pcb, processes tb !! p = Some pcb /\
      starved (current_tick s) pcb = true /\ Pcb.effective_priority pcb ∈ levels.
Proof.
  intros Hpi. pose proof Hpi as [Ht Hs]. induction levels as [|l levels IH]; intros Hnd Hl; cbn [aging_candidates].
  { exists []. split_all; [done|done|constructor|]. set_solver. }
  apply NoDup_cons in Hnd as [Hnin Hnd]. apply Forall_cons in Hl as [Hl Hls].
  destruct (queue_at _ _ _ l Hs) as (q & -> & Hq); [lia|]. exec_simpl.
  destruct (IH Hnd Hls) as (cs & -> & Hcs & Hndcs & Hmem). exec_simpl. eexists. split; [done|].
  set (f := aged (current_tick s) tb l).
  assert (forall c, c ∈ omap f q <-> exists pcb, c.1.1 ∈ q /\ processes tb !! c.1.1 = Some pcb /\
    starved (current_tick s) pcb = true /\ c = (c.1.1, l, l + 1)) as Hom.
  { intros c. rewrite list_elem_of_omap. split.
    - intros (p & Hp & (pcb & Hpc & Hstv & ->)%aged_spec). exists pcb. cbn.
      destruct (si_queued _ _ _ Hs _ _ _ Hq Hp) as (_ & ? & ? & _ & He). simplify_eq.
      rewrite He, Z2Nat.id, wrap_small by lia. done.
    - intros (pcb & Hp & Hpc & Hstv & Hc). exists c.1.1. split; [done|]. apply aged_spec. exists pcb.
      destruct (si_queued _ _ _ Hs _ _ _ Hq Hp) as (_ & ? & ? & _ & He). simplify_eq.
      rewrite He, Z2Nat.id, wrap_small by lia. done. }
  assert (forall p, p ∈ map (fun c => c.1.1) (omap f q) <-> exists pcb, processes tb !! p = Some pcb /\
    starved (current_tick s) pcb = true /\ Pcb.effective_priority pcb = l) as Hpids.
  { intros p. rewrite list_elem_of_In, in_map_iff. split.
    - intros (c & <- & Hc). apply list_elem_of_In, Hom in Hc as (pcb & Hp & Hpc & Hstv & _).
      destruct (si_queued _ _ _ Hs _ _ _ Hq Hp) as (_ & ? & ? & _ & He). simplify_eq. eexists. split_all; [done..|lia].
    - intros (pcb & Hpc & Hstv & He). exists (p, l, l + 1). split; [done|]. apply list_elem_of_In, Hom. exists pcb. cbn.
      split_all; try done. assert (Pcb.state pcb = Ready) as Hst.
      { unfold starved in Hstv. by case_bool_decide. }
      destruct (si_complete _ _ _ Hs p pcb Hpc) as [(l' & q' & Hq' & Hpq)|Hcur]; [by left|set_solver| |].
      + destruct (si_queued _ _ _ Hs _ _ _ Hq' Hpq) as (_ & ? & ? & _ & He'). simplify_eq.
        rewrite He', Nat2Z.id in Hq. by simplify_eq.
      + destruct (si_current _ _ _ Hs p Hcur) as (_ & _ & ? & ? & ?). congruence. }
  split_all.
  - apply Forall_app. split; [|done]. apply Forall_forall. intros c (pcb & Hp & Hpc & Hstv & Hceq)%Hom.
    exists (Z.to_nat l), q, pcb. rewrite Z2Nat.id by lia. split_all; try done; [lia|].
    unfold starved in Hstv. by case_bool_decide.
  - rewrite map_app. apply NoDup_app. split_all; [|intros p Hp1 Hp2|done].
    + clear -Hs Hq. assert (NoDup q) as Hndq by (by eapply (si_nodup _ _ _ Hs)). clear Hq.
      induction Hndq as [|p q Hp _ IH]; [constructor|]. cbn. case_match eqn:E; [|done].
      apply aged_spec in E as (pcb & _ & _ & ->). cbn. constructor; [|done].
      rewrite list_elem_of_In, in_map_iff. intros (c & Hc1 & Hc2). apply list_elem_of_In, list_elem_of_omap in Hc2 as (y & Hy & Hf).
      apply aged_spec in Hf as (? & _ & _ & ->). cbn in Hc1. by subst.
    + apply Hpids in Hp1 as (pcb & ? & _ & He). apply Hmem in Hp2 as (pcb' & ? & _ & He'). simplify_eq. done.
  - intros p. rewrite map_app, elem_of_app, Hpids, Hmem. setoid_rewrite elem_of_cons. naive_solver.
Qed.

Lemma run_aging_spec tb s : proc_inv tb s ∅ ->
  exists s' tb', run_aging s tb = Done (s', tb') /\ proc_inv tb' s' ∅ /\ current_tick s' = current_tick s /\
    next_pid tb' = next_pid tb /\
    forall x, processes tb' !! x =
      (fun pcb => if starved (current_tick s) pcb then promoted pcb else pcb) <$> processes tb !! x.
Proof.
  intros Hpi. unfold run_aging. change (NUM_LEVELS - 1) with 4.
  destruct (aging_candidates_spec tb s (seqZ 0 4) Hpi) as (cs & -> & Hcs & Hnd & Hmem).
  { apply NoDup_seqZ. }
  { apply Forall_forall. intros l Hl%elem_of_seqZ. lia. }
  exec_simpl. destruct (boost_all_spec cs tb s Hpi Hnd Hcs) as (s' & tb' & -> & Hpi' & Hk & Hn & Hm).
  exists s', tb'. split_all; try done. intros x. rewrite Hm. destruct (processes tb !! x) as [pcb|] eqn:E; [|by case_decide].
  cbn. case_decide as Hx.
  - apply Hmem in Hx as (? & ? & Hst & _). simplify_eq. by rewrite Hst.
  - destruct (starved (current_tick s) pcb) eqn:Est; [|done]. exfalso. apply Hx, Hmem. exists pcb. split_all; [done..|].
    apply elem_of_seqZ. pose proof (ok_prio _ _ _ _ (to_pcb _ (pi_table _ _ _ Hpi) x pcb E)).
    unfold starved in Est. apply andb_prop in Est as [_ ?%Z.ltb_lt]. lia.
Qed.

End AgingSpec.
