(* ===== verification/ProcTheorems.v ===== *)
(** * Properties of processes, scheduling and supervision

    Sequences of process operations on a booted kernel, and the theorems about
    them. *)

From Stdlib Require Import Sorted.
From S2P Require Import Prelude Wire Crypto FixedMap FixedMapSpec Trackers CapStore Ring Bus AuditTrail.
From S2P Require Import Router Handle Process ProcOps SuperSpec.

Module ProcRuns.
Import Scheduler SchedInv ProcOps SuperSpec AgingSpec.
Import ProcessTable (processes, next_pid, get, update).
Import Process (Kernel, mkKernel, table, sched, store, bus, sockets, with_procs, with_bus).

Section Runs.
Context {N : Type} `{SocketLayer N}.
Notation kernel := (@Kernel N).
Implicit Types k : kernel.

Inductive op :=
| Spawn (supervisor : Z) (intent : Intent.t) (description : string) (strategy : option SupervisionStrategy)
| Terminate (pid : Z)
| Block (pid : Z) (waiting_on : option Z)
| Unblock (pid : Z)
| Crash (pid : Z)
| Tick
| Schedule
| Age
| Consume.

Inductive answer :=
| Spawned (r : result Z ProcessTable.ProcessError)
| Replied (r : result unit ProcessTable.ProcessError)
| Chosen (r : option Z)
| Left (b : bool)
| Nothing.

Definition step (k : kernel) (o : op) : exec (answer * kernel) :=
  match o with
  | Spawn sup i d st => '(r, k') ← Process.spawn k sup i d st; Done (Spawned r, k')
  | Terminate pid => let '(r, k') := Process.terminate k pid in Done (Replied r, k')
  | Block pid w => '(r, k') ← Process.block k pid w; Done (Replied r, k')
  | Unblock pid => '(r, k') ← Process.unblock k pid; Done (Replied r, k')
  | Crash pid => '(r, k') ← Process.crash k pid; Done (Replied r, k')
  | Tick => Done (Nothing, Process.tick k)
  | Schedule => '(r, k') ← Process.schedule_next k; Done (Chosen r, k')
  | Age => '(s, tb) ← run_aging (sched k) (table k); Done (Nothing, with_procs k tb s)
  | Consume => let '(b, tb) := consume_tick (sched k) (table k) in Done (Left b, with_procs k tb (sched k))
  end.

Fixpoint run (k : kernel) (ops : list op) : exec (list answer * kernel) :=
  match ops with
  | [] => Done ([], k)
  | o :: ops' =>
      '(a, k1) ← step k o;
      '(rs, k2) ← run k1 ops';
      Done (a :: rs, k2)
  end.

Definition kernel_ok (k : kernel) : Prop := proc_inv (table k) (sched k) ∅.

(** ** The operations *)
Lemma key_lt tb p : table_ok tb -> is_Some (processes tb !! p) -> 0 < p < next_pid tb.
Proof. intros Ht [pcb Hp]. apply (to_pcb _ Ht p pcb Hp). Qed.

Lemma fresh_pid tb : table_ok tb -> processes tb !! next_pid tb = None.
Proof. intros Ht. apply eq_None_not_Some. intros Hs%key_lt; [lia|done]. Qed.

(** Adding a process under a supervisor. *)
Lemma adopt_ok tb sup pcb : table_ok tb -> is_Some (processes tb !! sup) ->
  Pcb.pid pcb = next_pid tb -> Pcb.supervisor pcb = sup -> Pcb.children pcb = [] ->
  0 <= Pcb.effective_priority pcb <= 4 -> 0 <= Pcb.base_priority pcb <= 4 -> handles_ok pcb ->
  Z.of_nat (size (processes tb)) < ProcessTable.MAX_PROCESSES ->
  table_ok (update (ProcessTable.mk (<[Pcb.pid pcb := pcb]> (processes tb)) (next_pid tb + 1)) sup
    (fun q => Pcb.set_children (Pcb.children q ++ [next_pid tb]) q)).
Proof.
  intros Ht Hsup Hpid Hs Hch He Hb Hh Hsz. pose proof (fresh_pid tb Ht) as Hfr. pose proof (key_lt tb sup Ht Hsup) as Hlt.
  rewrite Hpid. set (n := next_pid tb) in *. set (tb1 := ProcessTable.mk _ _).
  assert (forall x, is_Some (processes tb !! x) -> is_Some (processes tb1 !! x)) as Hmono.
  { intros x Hx. destruct (decide (n = x)) as [->|]; [by rewrite Hfr in Hx; destruct Hx|]. cbn. by rewrite lookup_insert_ne. }
  assert (forall x q, processes tb1 !! x = Some q -> pcb_ok (processes tb1) (n + 1) x q) as Hok.
  { intros x q. cbn. destruct (decide (n = x)) as [<-|Hne].
    - rewrite lookup_insert_eq. intros [= <-]. split; try done; try lia; rewrite ?Hs, ?Hch; try lia.
      + right. by apply Hmono.
      + constructor.
      + set_solver.
    - rewrite lookup_insert_ne by done. intros Hq. destruct (to_pcb _ Ht x q Hq). split; try done; [lia| |].
      + destruct ok_super_live0; [by left|right; by apply Hmono].
      + intros c Hc. destruct (ok_children0 c Hc). split; [done|]. by apply Hmono. }
  split; cbn [next_pid update ProcessTable.next_pid tb1]; [|pose proof (to_next _ Ht); lia|].
  - intros x q Hq. rewrite lookup_update in Hq. case_decide as Hx.
    + subst x. apply fmap_Some in Hq as (q0 & Hq0 & ->). destruct (Hok sup q0 Hq0).
      assert (processes tb !! sup = Some q0) as Hq0' by (cbn in Hq0; by rewrite lookup_insert_ne in Hq0 by lia).
      destruct (to_pcb _ Ht sup q0 Hq0') as [_ _ _ _ _ _ _ Hold _].
      split; cbn [Pcb.pid Pcb.supervisor Pcb.effective_priority Pcb.base_priority Pcb.children Pcb.set_children]; try done.
      * cbn. by rewrite alter_is_Some.
      * apply NoDup_app. split_all; [done| |apply NoDup_singleton]. intros c Hc Hn%list_elem_of_singleton. subst c.
        destruct (Hold _ Hc) as [_ Hx]. rewrite Hfr in Hx. by destruct Hx.
      * intros c [Hc| ->%list_elem_of_singleton]%elem_of_app; cbn; rewrite alter_is_Some; [by apply ok_children0|].
        rewrite lookup_insert_eq. split; [lia|by eauto].
    + destruct (Hok x q Hq). split; try done; cbn; [by rewrite alter_is_Some|].
      intros c Hc. rewrite alter_is_Some. by apply ok_children0.
  - cbn. rewrite <- size_dom, dom_alter_L, size_dom, map_size_insert_None by done. lia.
Qed.

Lemma priority_range p : 0 <= priority_u8 p <= 4.
Proof. destruct p; cbn; lia. Qed.

Lemma spawn_spec k sup i d st : kernel_ok k -> next_pid (table k) < 2 ^ 32 - 1 ->
  exists r k', Process.spawn k sup i d st = Done (r, k') /\ kernel_ok k' /\
    next_pid (table k) <= next_pid (table k') <= next_pid (table k) + 1 /\
    current_tick (sched k') = current_tick (sched k).
Proof.
  intros Hk Hb. pose proof Hk as [Ht Hs]. pose proof (to_next _ Ht) as Hn1. unfold Process.spawn, ProcessTable.contains.
  case_bool_decide as Hsup; cbn [negb]; [|eexists _, k; split_all; [done|done|lia|lia|done]].
  unfold ProcessTable.alloc_pid. rewrite u32_add_small by lia. set (n := next_pid (table k)) in *.
  set (so := match get _ sup with Some _ => _ | None => _ end).
  set (pcb := Pcb.new n i d sup (default OneForOne st) so (current_tick (sched k))).
  unfold ProcessTable.insert. cbn [processes next_pid].
  destruct (Z.geb_spec (Z.of_nat (size (processes (table k)))) ProcessTable.MAX_PROCESSES) as [Hge|Hlt].
  { eexists _, _. split; [done|]. split; [|cbn; split; [lia|done]]. split; [|done]. destruct Ht as [Hpcb _ Hsz].
    split; cbn [processes next_pid table with_procs]; [|lia|done]. intros p q Hq. destruct (Hpcb p q Hq). split; try done. lia. }
  pose proof (fresh_pid _ Ht) as Hfr. fold n in Hfr.
  rewrite bool_decide_false by (cbn; rewrite Hfr; by intros [? ?]).
  pose proof (priority_range (Intent.priority i)) as Hpr.
  pose proof (adopt_ok (table k) sup pcb Ht Hsup eq_refl eq_refl eq_refl Hpr Hpr (ex_intro _ _ HandleSpec.new_represents) Hlt) as Hok. cbn [Pcb.pid pcb Pcb.new] in *.
  set (tb' := update _ sup _) in *.
  pose proof (key_lt _ _ Ht Hsup) as Hlt'. fold n in Hlt'.
  assert (processes tb' !! n = Some pcb) as Hn.
  { unfold tb'. rewrite lookup_update, decide_False by lia. cbn. by rewrite lookup_insert_eq. }
  destruct (attach_enqueue (processes tb') (sched k) ∅ n pcb (priority_u8 (Intent.priority i)))
    as (s' & Hen & Hi & _ & Hk' & _); [|set_solver|done|by left|done|done|].
  - unfold tb'. cbn [update processes]. apply quiet_update; [|done]. apply detached_insert; [set_solver|].
    apply idle_detach; [done|]. by rewrite Hfr.
  - cbn [Pcb.effective_priority pcb Pcb.new]. unfold tb' in *. rewrite Hen. exec_simpl. eexists _, _. split; [done|].
    split; [by split|]. cbn. split; [lia|done].
Qed.

Lemma terminate_spec k pid : kernel_ok k ->
  exists r k', Process.terminate k pid = (r, k') /\ kernel_ok k' /\
    next_pid (table k') = next_pid (table k) /\ current_tick (sched k') = current_tick (sched k).
Proof.
  intros Hk. pose proof Hk as [Ht Hs]. unfold Process.terminate, get. cbn [table].
  destruct (processes (table k) !! pid) as [pcb|] eqn:Hp; [|by eexists _, _].
  eexists _, _. split; [done|]. cbn [table sched with_bus with_procs]. split; [|by cbn; rewrite dequeue_tick].
  assert (proc_inv (update (table k) pid (fun p => Pcb.set_exit_reason (Some ExitReason.Normal) (Pcb.set_state Terminated p)))
    (dequeue (sched k) pid) ∅) as [Ht1 Hs1].
  { apply (stop_spec _ _ _ _ pcb Hk Hp); [|cbn; unfold runnable; naive_solver].
    apply (stays_quiet _ _ _ _ Ht Hp); try done. apply (to_pcb _ Ht _ _ Hp). }
  split; cbn [table sched with_bus with_procs].
  - apply update_ok; [done|]. intros q Hq. destruct (to_pcb _ Ht1 _ _ Hq). unfold stays. cbn. split_all; try done; try lia.
    + by apply NoDup_retain.
    + intros c Hc%elem_of_retain. naive_solver.
  - by apply quiet_update.
Qed.

Lemma block_spec k pid w : kernel_ok k ->
  exists r k', Process.block k pid w = Done (r, k') /\ kernel_ok k' /\
    next_pid (table k') = next_pid (table k) /\ current_tick (sched k') = current_tick (sched k) /\
    match r with
    | Err e => k' = k
    | Ok _ => exists pcb, processes (table k) !! pid = Some pcb /\ runnable (Pcb.state pcb) /\
        raised (Pcb.effective_priority pcb)
          (alter (fun p => Pcb.set_blocked_on w (Pcb.set_state Blocked p)) pid (processes (table k)))
          (processes (table k')) /\
        forall target q, w = Some target -> processes (table k') !! target = Some q ->
          Pcb.effective_priority pcb <= Pcb.effective_priority q
    end.
Proof.
  intros Hk. pose proof Hk as [Ht Hs]. unfold Process.block, get.
  destruct (processes (table k) !! pid) as [pcb|] eqn:Hp; [|by eexists _, k].
  destruct (_ && _) eqn:E; [by eexists _, k|].
  assert (runnable (Pcb.state pcb)) as Hr.
  { unfold runnable. apply andb_false_iff in E as [E|E]; apply bool_decide_eq_false in E; apply dec_stable in E; auto. }
  set (f := fun p => Pcb.set_blocked_on w (Pcb.set_state Blocked p)).
  assert (proc_inv (update (table k) pid f) (dequeue (sched k) pid) ∅) as Hpi.
  { apply (stop_spec _ _ _ _ pcb Hk Hp); [|cbn; unfold runnable; naive_solver].
    apply (stays_quiet _ _ _ _ Ht Hp); try done. apply (to_pcb _ Ht _ _ Hp). }
  destruct w as [target|].
  - destruct (inherit_spec (Z.to_nat Process.MAX_INHERITANCE_DEPTH) target (Pcb.effective_priority pcb) _ _ Hpi)
      as (tb' & s' & He & Hpi' & Htk & Hn & Hra & Htg); [apply (to_pcb _ Ht _ _ Hp)|].
    unfold Process.apply_priority_inheritance. rewrite He. exec_simpl. eexists _, _. split; [done|].
    split_all; [done|done|by rewrite <- (dequeue_tick (sched k) pid)|]. exists pcb. split_all; try done.
    intros ? q [= <-]. by apply Htg.
  - eexists _, _. split; [done|]. split_all; [done|done|apply dequeue_tick|]. exists pcb. split_all; try done. apply raised_refl.
Qed.

Lemma unblock_spec k pid : kernel_ok k ->
  exists r k', Process.unblock k pid = Done (r, k') /\ kernel_ok k' /\
    next_pid (table k') = next_pid (table k) /\ current_tick (sched k') = current_tick (sched k).
Proof.
  intros Hk. pose proof Hk as [Ht Hs]. unfold Process.unblock, get.
  destruct (processes (table k) !! pid) as [pcb|] eqn:Hp; [|by eexists _, k].
  case_bool_decide as Hst; [by eexists _, k|].
  set (f := fun p => Pcb.set_wake_tick (current_tick (sched k)) (Pcb.set_state Ready (Pcb.set_blocked_on None p))).
  change (apply_intent_boost (sched k) (Pcb.set_wake_tick _ _)) with ((apply_intent_boost (sched k) ∘ f) pcb).
  rewrite (update_const _ _ _ _ Hp).
  destruct (wake_spec (table k) (sched k) pid (apply_intent_boost (sched k) ∘ f) pcb Hk Hp)
    as (s1 & -> & Hpi1 & _ & Hk1 & _).
  - apply (intent_boost_stays _ _ _ _ _ Ht Hp), (stays_quiet _ _ _ _ Ht Hp); try done. apply (to_pcb _ Ht _ _ Hp).
  - rewrite Hst. unfold runnable. naive_solver.
  - unfold compose. by rewrite intent_boost_state.
  - exec_simpl. destruct (Pcb.blocked_on pcb) as [target|]; [|by eexists _, _].
    destruct (revert_spec target _ _ Hpi1) as (tb' & s' & -> & Hpi' & Htk & Hn & _). exec_simpl.
    eexists _, _. split; [done|]. split_all; [done|done|]. cbn. congruence.
Qed.

(** A crashed process before its supervisor is told. *)
Definition crashed (p : Pcb.t) : Pcb.t :=
  Pcb.set_exit_reason (Some ExitReason.Crash) (Pcb.set_state Terminated p).

Lemma crash_spec k pid : kernel_ok k ->
  exists r k', Process.crash k pid = Done (r, k') /\ kernel_ok k' /\
    next_pid (table k') = next_pid (table k) /\ current_tick (sched k') = current_tick (sched k) /\
    match processes (table k) !! pid with
    | None => r = Err ProcessTable.NotFound /\ k' = k
    | Some pcb => r = Ok tt /\
        supervised (current_tick (sched k)) (alter crashed pid (processes (table k))) (Pcb.supervisor pcb) pid
          (processes (table k'))
    end.
Proof.
  intros Hk. pose proof Hk as [Ht Hs]. unfold Process.crash, get.
  destruct (processes (table k) !! pid) as [pcb|] eqn:Hp; [|by eexists _, k].
  assert (proc_inv (update (table k) pid crashed) (dequeue (sched k) pid) ∅) as Hpi.
  { apply (stop_spec _ _ _ _ pcb Hk Hp); [|cbn; unfold runnable; naive_solver].
    apply (stays_quiet _ _ _ _ Ht Hp); try done. apply (to_pcb _ Ht _ _ Hp). }
  destruct (handle_child_crash_spec (Pcb.supervisor pcb) pid (current_tick (dequeue (sched k) pid)) _ _ Hpi)
    as (r & tb' & s' & He & Hpi' & Htk & Hn & Hsup).
  { intros c. rewrite lookup_update, decide_True, Hp by done. intros [= <-]. cbn. unfold runnable. naive_solver. }
  unfold crashed in He at 1. rewrite He. exec_simpl. eexists _, _. split; [done|].
  rewrite dequeue_tick in *. by split_all.
Qed.

Lemma tick_spec k : kernel_ok k -> kernel_ok (Process.tick k).
Proof. intros [Ht Hs]. split; [done|]. by eapply sched_inv_ext; [..|exact Hs]. Qed.

Lemma schedule_spec k : kernel_ok k ->
  exists r k', Process.schedule_next k = Done (r, k') /\ kernel_ok k' /\ next_pid (table k') = next_pid (table k).
Proof.
  intros Hk. unfold Process.schedule_next. destruct (schedule_next_spec _ _ Hk) as (r & s' & tb' & He & Hpi & _).
  rewrite He. exec_simpl. eexists _, _. split; [done|]. split; [done|]. cbn.
  unfold Scheduler.schedule_next in He. destruct (keeps_running _ _); [by simplify_eq|].
  apply bind_Done in He as ([s1 tb1] & Hr & He).
  assert (next_pid tb1 = next_pid (table k)) as <-.
  { unfold requeue_current in Hr. repeat case_match; try by simplify_eq. by apply bind_Done in Hr as (? & _ & [= _ <-]). }
  clear Hr. revert s1 tb1 He. generalize (reverse (seqZ 0 NUM_LEVELS)) as levels.
  induction levels as [|l levels IH]; intros s1 tb1 He; cbn [scan] in He; [by simplify_eq|].
  apply bind_Done in He as (q & _ & He). destruct q as [|p q]; [by eapply IH|].
  apply bind_Done in He as (qs & _ & He). destruct (get tb1 p); [by simplify_eq|by eapply IH].
Qed.

Lemma consume_spec k b tb : kernel_ok k -> consume_tick (sched k) (table k) = (b, tb) ->
  kernel_ok (with_procs k tb (sched k)) /\ next_pid tb = next_pid (table k).
Proof.
  intros [Ht Hs]. unfold consume_tick, get. destruct (current (sched k)) as [p|]; [|by intros [= <- <-]].
  destruct (processes (table k) !! p) as [pcb|] eqn:Hp; [|by intros [= <- <-]].
  destruct (_ >? 0); [|by intros [= <- <-]]. intros [= <- <-]. split; [|done]. split; cbn [table sched with_procs].
  - apply update_ok; [done|]. intros q Hq. apply (stays_quiet _ _ _ _ Ht Hq); try done. apply (to_pcb _ Ht _ _ Hq).
  - by apply quiet_update.
Qed.

Lemma kernel_step_ok k o : kernel_ok k -> next_pid (table k) < 2 ^ 32 - 1 ->
  exists a k', step k o = Done (a, k') /\ kernel_ok k' /\ next_pid (table k') <= next_pid (table k) + 1.
Proof.
  intros Hk Hn. destruct o as [sup i d st|pid|pid w|pid|pid| | | |]; cbn [step].
  - destruct (spawn_spec k sup i d st Hk Hn) as (r & k' & -> & Hk' & Hb & _). exec_simpl. eexists _, k'. split_all; [done|done|lia].
  - destruct (terminate_spec k pid Hk) as (r & k' & -> & Hk' & Hb & _). eexists _, k'. split_all; [done|done|lia].
  - destruct (block_spec k pid w Hk) as (r & k' & -> & Hk' & Hb & _). exec_simpl. eexists _, k'. split_all; [done|done|lia].
  - destruct (unblock_spec k pid Hk) as (r & k' & -> & Hk' & Hb & _). exec_simpl. eexists _, k'. split_all; [done|done|lia].
  - destruct (crash_spec k pid Hk) as (r & k' & -> & Hk' & Hb & _). exec_simpl. eexists _, k'. split_all; [done|done|lia].
  - eexists _, _. split_all; [done|by apply tick_spec|cbn; lia].
  - destruct (schedule_spec k Hk) as (r & k' & -> & Hk' & Hb). exec_simpl. eexists _, k'. split_all; [done|done|lia].
  - destruct (run_aging_spec _ _ Hk) as (s' & tb' & -> & Hpi & _ & Hb & _). exec_simpl.
    eexists _, _. split_all; [done|done|cbn; lia].
  - destruct (consume_tick (sched k) (table k)) as [b tb] eqn:E. destruct (consume_spec k b tb Hk E) as [Hk' Hb].
    eexists _, _. split_all; [done|done|cbn; lia].
Qed.

Lemma kernel_run_ok ops k : kernel_ok k -> next_pid (table k) + Z.of_nat (length ops) < 2 ^ 32 ->
  exists rs k', run k ops = Done (rs, k') /\ length rs = length ops /\ kernel_ok k'.
Proof.
  revert k. induction ops as [|o ops IH]; intros k Hk Hn; [by eexists [], k|]. cbn [run length] in *.
  destruct (kernel_step_ok k o Hk) as (a & k1 & -> & Hk1 & Hn1); [lia|]. exec_simpl.
  destruct (IH k1 Hk1) as (rs & k2 & -> & Hl & Hk2); [lia|]. exec_simpl. eexists _, k2. split_all; [done|cbn; lia|done].
Qed.

(** ** Booting *)
Definition fresh k : Prop := table k = ProcessTable.new /\ sched k = Scheduler.new.

Lemma init_spec k : fresh k -> exists k', Process.init k = Done k' /\ kernel_ok k' /\ next_pid (table k') = 2.
Proof.
  destruct k as [tb s st b n]. intros [Htb Hsc]. cbn in Htb, Hsc. subst tb s.
  unfold Process.init. cbn [table sched]. unfold Butler.init. cbn -[Process.with_bus BusRouter.register_process].
  eexists. split; [done|]. split; [|done]. split; cbn [table sched with_bus with_procs].
  - split; cbn [processes next_pid]; [|by vm_compute|].
    + intros p pcb [<- <-]%lookup_singleton_Some. split; cbn;
        [done|by vm_compute|by vm_compute|by left|by vm_compute|by vm_compute|constructor|set_solver|exact (ex_intro _ _ HandleSpec.new_represents)].
    + by vm_compute.
  - assert (forall l q, [[]; []; []; []; [1]] !! l = Some q -> q = [] \/ (l = 4%nat /\ q = [1])) as Hq.
    { intros [|[|[|[|[|l]]]]] q; cbn; intros; simplify_eq; auto. }
    split; cbn [run_queues current].
    + done.
    + intros l q [->|[_ ->]]%Hq; [constructor|apply NoDup_singleton].
    + intros l q p [->|[-> ->]]%Hq Hp; [by apply not_elem_of_nil in Hp|]. apply list_elem_of_singleton in Hp as ->.
      split; [set_solver|]. eexists. split; [apply lookup_insert_eq|]. split; [by left|done].
    + done.
    + intros p pcb Hp _ _. cbn [processes] in Hp. apply lookup_singleton_Some in Hp as [<- <-]. left. exists 4%nat, [1]. split; [done|]. set_solver.
Qed.

Definition reachable k : Prop := exists k0 k1 ops rs,
  fresh k0 /\ Process.init k0 = Done k1 /\ Z.of_nat (length ops) < 2 ^ 32 - 2 /\ run k1 ops = Done (rs, k).

Lemma reachable_ok k : reachable k -> kernel_ok k.
Proof.
  intros (k0 & k1 & ops & rs & Hf & Hi & Hl & Hr). destruct (init_spec k0 Hf) as (k1' & Hi' & Hk1 & Hn).
  rewrite Hi in Hi'. injection Hi' as <-. destruct (kernel_run_ok ops k1 Hk1) as (rs' & k' & Hr' & _ & Hk'); [lia|]. congruence.
Qed.

(** ** Helpers of the properties *)
Lemma ready_queued tb s p pcb : proc_inv tb s ∅ -> processes tb !! p = Some pcb -> Pcb.state pcb = Ready ->
  exists q, run_queues s !! Z.to_nat (Pcb.effective_priority pcb) = Some q /\ p ∈ q.
Proof.
  intros [_ Hs] Hp Hst. destruct (si_complete _ _ _ Hs p pcb Hp) as [(l & q & Hl & Hq)|Hc]; [by left|set_solver| |].
  - destruct (si_queued _ _ _ Hs l q p Hl Hq) as (_ & ? & ? & _ & He). simplify_eq. rewrite He, Nat2Z.id. eauto.
  - destruct (si_current _ _ _ Hs p Hc) as (_ & _ & ? & ? & ?). congruence.
Qed.

Lemma victims_above tb sup psup c pc x : table_ok tb -> processes tb !! sup = Some psup ->
  processes tb !! c = Some pc -> Pcb.supervisor pc = sup -> x ∈ victims (processes tb) psup c -> sup < x.
Proof.
  intros Ht Hs Hc Hsc. destruct (to_pcb _ Ht _ _ Hs) as [_ _ _ _ _ _ _ Hch].
  destruct (to_pcb _ Ht _ _ Hc) as [_ _ Hlt _ _ _ _ _]. unfold victims. destruct (Pcb.strategy psup).
  - intros ->%list_elem_of_singleton. lia.
  - intros Hx. by apply Hch.
  - intros [Hx _]%elem_of_retain. by apply Hch.
Qed.

Lemma victims_crashed P psup c : victims (alter crashed c P) psup c = victims P psup c.
Proof.
  unfold victims. destruct (Pcb.strategy psup); try done. apply filter_ext. intros x.
  assert (forall y, Pcb.spawn_order <$> alter crashed c P !! y = Pcb.spawn_order <$> P !! y) as Ho.
  { intros y. destruct (decide (c = y)) as [->|]; [rewrite lookup_alter_eq; by destruct (P !! y)|by rewrite lookup_alter_ne]. }
  pose proof (Ho x) as Hx. pose proof (Ho c) as Hc.
  destruct (alter crashed c P !! x), (P !! x), (alter crashed c P !! c), (P !! c); simplify_eq/=; congruence.
Qed.

(** ** Properties *)

(** C27. Every sequence of process operations - spawning, termination, blocking,
    waking, crashes with their restarts, ticks, scheduling, aging - on a freshly
    booted kernel runs to completion: no index panics and no escalation loops.
    It ends in a state where every process that can run is in the run queue of
    its own priority, exactly once, or is the current process, no other process
    is in a queue, and the supervision tree is well-formed (supervisors are
    older than their children, priorities lie between 0 and 4). *)
Theorem process_runs_keep_invariant k ops :
  fresh k -> Z.of_nat (length ops) < 2 ^ 32 - 2 ->
  exists k1 rs k2, Process.init k = Done k1 /\ run k1 ops = Done (rs, k2) /\
    length rs = length ops /\ proc_inv (table k2) (sched k2) ∅.
Proof.
  intros Hf Hl. destruct (init_spec k Hf) as (k1 & Hi & Hk1 & Hn).
  destruct (kernel_run_ok ops k1 Hk1) as (rs & k2 & Hr & Hlen & Hk2); [lia|]. by exists k1, rs, k2.
Qed.

(** C28. Scheduling is by priority, first come first served: [schedule_next]
    answers [None] only if no process can run; otherwise the process it selects
    can run, becomes the running current process, and either was running with
    time left on its slice, or has the highest effective priority of all
    processes that can run, waited longest among those of its priority, and
    gets the slice of that priority. *)
Theorem schedules_most_urgent k :
  reachable k ->
  exists r k', Process.schedule_next k = Done (r, k') /\ current (sched k') = r /\
    match r with
    | None => forall x pcb, processes (table k) !! x = Some pcb -> ~ runnable (Pcb.state pcb)
    | Some p => exists pcb pcb', processes (table k) !! p = Some pcb /\ runnable (Pcb.state pcb) /\
        processes (table k') !! p = Some pcb' /\ Pcb.state pcb' = Running /\
        ((current (sched k) = Some p /\ 0 < Pcb.time_slice_remaining pcb /\ k' = k) \/
         (most_urgent (processes (table k)) (Pcb.effective_priority pcb) /\
          Pcb.time_slice_remaining pcb' = slice_for_priority (Pcb.effective_priority pcb) /\
          exists q waiting, run_queues (sched k) !! Z.to_nat (Pcb.effective_priority pcb) = Some waiting /\
            (p :: q = waiting \/ exists c, current (sched k) = Some c /\ p :: q = waiting ++ [c]) /\
            run_queues (sched k') !! Z.to_nat (Pcb.effective_priority pcb) = Some q))
    end.
Proof.
  intros Hk%reachable_ok. destruct (schedule_next_spec _ _ Hk) as (r & s' & tb' & He & _ & _ & Hc & Hr).
  unfold Process.schedule_next. rewrite He. exec_simpl. eexists _, _. split; [done|]. split; [done|].
  destruct r as [p|]; [|done]. destruct Hr as (pcb & pcb' & H1 & H2 & H3 & H4 & Hor). exists pcb, pcb'.
  split_all; try done. destruct Hor as [(Hcur & Hsl & -> & ->)|Hor]; [left|by right].
  split_all; try done. by destruct k.
Qed.


(** A supervisor within its restart intensity restarts exactly the processes
    its strategy names: only the crashed child (OneForOne), all its children
    (OneForAll), or the children spawned no earlier than the crashed one
    (RestForOne).  They are Ready, in the queue of their base priority, with a
    cleared handle table; every other process is as it was, except that the
    supervisor has noted the restart and a crashed process that is not named
    stays terminated. *)
Theorem crash_restarts_by_strategy k pid pcb psup :
  reachable k -> processes (table k) !! pid = Some pcb ->
  processes (table k) !! Pcb.supervisor pcb = Some psup ->
  exceeds (current_tick (sched k)) psup = false ->
  exists k', Process.crash k pid = Done (Ok tt, k') /\
    let vs := victims (processes (table k)) psup pid in let now := current_tick (sched k) in
    (forall x, processes (table k') !! x =
       if decide (x ∈ vs) then restarted now <$> processes (table k) !! x
       else if decide (x = pid) then crashed <$> processes (table k) !! x
       else if decide (x = Pcb.supervisor pcb) then noted now <$> processes (table k) !! x
       else processes (table k) !! x) /\
    (forall x px, x ∈ vs -> processes (table k) !! x = Some px ->
       exists q, run_queues (sched k') !! Z.to_nat (Pcb.base_priority px) = Some q /\ x ∈ q).
Proof.
  intros Hk%reachable_ok Hp Hsup Hex. pose proof (pi_table _ _ _ Hk) as Ht.
  destruct (crash_spec k pid Hk) as (r & k' & Hc & Hk' & _ & _ & Hr). rewrite Hp in Hr. destruct Hr as [-> Hs].
  exists k'. split; [done|]. cbn zeta. set (now := current_tick (sched k)) in *. set (sup := Pcb.supervisor pcb) in *.
  assert (sup <> pid) as Hne by (pose proof (ok_super _ _ _ _ (to_pcb _ Ht _ _ Hp)); unfold sup; lia).
  assert (alter crashed pid (processes (table k)) !! sup = Some psup) as Hsup' by (by rewrite lookup_alter_ne).
  assert (mapped (restarted now) (victims (processes (table k)) psup pid)
    (alter (noted now) sup (alter crashed pid (processes (table k)))) (processes (table k'))) as Hm.
  { inversion Hs; simplify_eq; try congruence. by rewrite <- victims_crashed. }
  assert (forall x, x ∈ victims (processes (table k)) psup pid -> sup <> x) as Hvs.
  { intros x Hx. pose proof (victims_above _ _ _ _ _ x Ht Hsup Hp eq_refl Hx). lia. }
  assert (forall x, processes (table k') !! x =
    if decide (x ∈ victims (processes (table k)) psup pid) then restarted now <$> processes (table k) !! x
    else if decide (x = pid) then crashed <$> processes (table k) !! x
    else if decide (x = sup) then noted now <$> processes (table k) !! x
    else processes (table k) !! x) as Hall.
  { intros x. rewrite Hm. case_decide as Hx.
    - rewrite lookup_alter_ne by (by apply Hvs). destruct (decide (pid = x)) as [->|].
      + rewrite lookup_alter_eq. by destruct (processes (table k) !! x).
      + by rewrite lookup_alter_ne.
    - destruct (decide (x = pid)) as [->|]; [by rewrite lookup_alter_ne, lookup_alter_eq by done|].
      destruct (decide (x = sup)) as [->|]; [by rewrite lookup_alter_eq, lookup_alter_ne by done|].
      by rewrite !lookup_alter_ne by done. }
  split; [done|]. intros x px Hx Hpx. apply (ready_queued _ _ x (restarted now px) Hk'); [|done].
  rewrite Hall, decide_True, Hpx by done. done.
Qed.

(** Blocking on another process lends it the blocked process's priority: the
    blocked process leaves the queues, the process it waits for has at least
    its priority afterwards, and no process is changed in any other way than by
    having its priority raised to that of the blocked one. *)
Theorem blocking_lends_priority k pid target k' :
  reachable k -> Process.block k pid (Some target) = Done (Ok tt, k') ->
  exists pcb, processes (table k) !! pid = Some pcb /\ runnable (Pcb.state pcb) /\
    ~ queued (sched k') pid /\ current (sched k') <> Some pid /\
    raised (Pcb.effective_priority pcb)
      (alter (fun p => Pcb.set_blocked_on (Some target) (Pcb.set_state Blocked p)) pid (processes (table k)))
      (processes (table k')) /\
    forall q, processes (table k') !! target = Some q ->
      Pcb.effective_priority pcb <= Pcb.effective_priority q.
Proof.
  intros Hk%reachable_ok Hb. destruct (block_spec k pid (Some target) Hk) as (r & k1 & Hb' & Hk1 & _ & _ & Hr).
  rewrite Hb in Hb'. injection Hb' as <- <-. destruct Hr as (pcb & Hp & Hrun & Hra & Htg). exists pcb.
  assert (exists q, processes (table k') !! pid = Some q /\ Pcb.state q = Blocked) as (q & Hq & Hst).
  { destruct (Hra pid) as (e & He & _). rewrite lookup_alter_eq, Hp in He. eexists. by split; [exact He|]. }
  assert (~ runnable (Pcb.state q)) as Hnr by (rewrite Hst; unfold runnable; naive_solver).
  split_all; try done; [| |intros q0 Hq0; by apply (Htg target)].
  - intros Hqd. destruct (queued_runnable _ _ _ _ (pi_sched _ _ _ Hk1) Hqd) as (? & ? & ?). by simplify_eq.
  - intros Hc. destruct (current_runnable _ _ _ _ (pi_sched _ _ _ Hk1) Hc) as (? & ? & ?). by simplify_eq.
Qed.

(** Aging: [run_aging] returns, and raises by one level exactly the Ready
    processes below Critical that have not been scheduled for 100 ticks; each
    then waits in the queue of its new priority, and nothing else changes. *)
Theorem aging_promotes_starved k :
  reachable k ->
  exists s' tb', run_aging (sched k) (table k) = Done (s', tb') /\
    (forall x, processes tb' !! x =
       (fun pcb => if starved (current_tick (sched k)) pcb then promoted pcb else pcb) <$> processes (table k) !! x) /\
    (forall x pcb, processes (table k) !! x = Some pcb -> starved (current_tick (sched k)) pcb = true ->
       exists q, run_queues s' !! Z.to_nat (Pcb.effective_priority pcb + 1) = Some q /\ x ∈ q).
Proof.
  intros Hk%reachable_ok. destruct (run_aging_spec _ _ Hk) as (s' & tb' & He & Hpi & _ & _ & Hall).
  exists s', tb'. split_all; try done. intros x pcb Hx Hst.
  apply (ready_queued _ _ x (promoted pcb) Hpi); [by rewrite Hall, Hx; cbn; rewrite Hst|].
  unfold starved in Hst. cbn. by case_bool_decide.
Qed.

End Runs.

(** ** Witnesses *)
Section Witnesses.

#[local] Instance no_sockets : SocketLayer unit := fun n _ => n.

Definition power_on : Kernel := mkKernel ProcessTable.new Scheduler.new CapStore.new BusRouter.new tt.

(** Two workers under a OneForAll supervisor, and a storage process that has been
    scheduled, blocks on a worker and leaves the processor to the Butler. *)
Definition demo_ops : list op :=
  [Spawn 1 Intent.default "sup" (Some OneForAll); Spawn 2 Intent.default "a" None;
   Spawn 2 (Intent.mk Storage High Balanced 0) "b" None; Schedule; Block 1 None; Schedule; Tick].

Definition booted : Kernel := match Process.init power_on with Done k => k | _ => power_on end.

Definition demo : Kernel := match run booted demo_ops with Done (_, k) => k | _ => booted end.

Lemma booted_init : Process.init power_on = Done booted.
Proof.
  destruct (init_spec power_on) as (k & Hi & _); [done|]. unfold booted. rewrite Hi. reflexivity.
Qed.

Lemma reached_by ops k : Z.of_nat (length ops) < 2 ^ 32 - 2 ->
  k = match run booted ops with Done (_, k) => k | _ => booted end -> reachable k.
Proof.
  intros Hl ->. destruct (init_spec power_on) as (k1 & Hi & Hk1 & Hn); [done|].
  rewrite booted_init in Hi. injection Hi as <-.
  destruct (kernel_run_ok ops booted Hk1) as (rs & k2 & Hr & _); [lia|]. rewrite Hr.
  exists power_on, booted, ops, rs. split_all; [split; reflexivity|exact booted_init|done|exact Hr].
Qed.

Lemma workers_reachable : reachable demo.
Proof. apply (reached_by demo_ops); [vm_compute; reflexivity|reflexivity]. Qed.

Definition pcb_at (k : @Kernel unit) (p : Z) : Pcb.t :=
  default (Pcb.new 0 Intent.default EmptyString 0 OneForOne 0 0) (processes (table k) !! p).

Lemma pcb_at_live k p : bool_decide (is_Some (processes (table k) !! p)) = true ->
  processes (table k) !! p = Some (pcb_at k p).
Proof. intros Hs%bool_decide_eq_true. unfold pcb_at. destruct (processes (table k) !! p); [done|by destruct Hs]. Qed.

Lemma process_runs_keep_invariant_witness :
  exists k1 rs k2, Process.init power_on = Done k1 /\ run k1 demo_ops = Done (rs, k2) /\
    length rs = length demo_ops /\ proc_inv (table k2) (sched k2) ∅.
Proof. apply (process_runs_keep_invariant power_on demo_ops); [split; reflexivity|vm_compute; reflexivity]. Defined.

#[local] Opaque demo.

Lemma schedules_most_urgent_witness :
  exists r k', Process.schedule_next demo = Done (r, k') /\ current (sched k') = r.
Proof.
  destruct (schedules_most_urgent demo workers_reachable) as (r & k' & Hs & Hc & _). exact (ex_intro _ r (ex_intro _ k' (conj Hs Hc))).
Defined.


Lemma crash_restarts_by_strategy_witness :
  exists k', Process.crash demo 3 = Done (Ok tt, k') /\
    processes (table k') !! 3 = Some (restarted 1 (pcb_at demo 3)) /\
    processes (table k') !! 4 = Some (restarted 1 (pcb_at demo 4)) /\
    processes (table k') !! 1 = Some (pcb_at demo 1).
Proof.
  assert (Pcb.supervisor (pcb_at demo 3) = 2) as Hs2 by (vm_compute; reflexivity).
  destruct (crash_restarts_by_strategy demo 3 (pcb_at demo 3) (pcb_at demo 2) workers_reachable) as (k' & Hc & Hall & _).
  - apply pcb_at_live. vm_compute. reflexivity.
  - rewrite Hs2. apply pcb_at_live. vm_compute. reflexivity.
  - vm_compute. reflexivity.
  - assert (current_tick (sched demo) = 1) as Hnow by (vm_compute; reflexivity).
    assert (victims (processes (table demo)) (pcb_at demo 2) 3 = [3; 4]) as Hv by (vm_compute; reflexivity).
    cbn zeta in Hall. rewrite Hnow, Hv, Hs2 in Hall. exists k'. split; [exact Hc|]. rewrite !Hall.
    rewrite !pcb_at_live by (vm_compute; reflexivity). split_all; reflexivity.
Defined.

Lemma blocking_lends_priority_witness :
  exists k', Process.block demo 4 (Some 3) = Done (Ok tt, k') /\ ~ queued (sched k') 4.
Proof.
  destruct (block_spec demo 4 (Some 3) (reachable_ok demo workers_reachable)) as (r & k' & Hb & _).
  assert (r = Ok tt) as ->.
  { assert ((fst <$> (match Process.block demo 4 (Some 3) with Done x => Some x | _ => None end)) = Some (Ok tt)) as Hr
      by (vm_compute; reflexivity). rewrite Hb in Hr. cbn in Hr. congruence. }
  exists k'. split; [exact Hb|].
  destruct (blocking_lends_priority demo 4 3 k' workers_reachable Hb) as (pcb & _ & _ & Hn & _). exact Hn.
Defined.

Lemma aging_promotes_starved_witness :
  exists s' tb', run_aging (sched demo) (table demo) = Done (s', tb').
Proof.
  destruct (aging_promotes_starved demo workers_reachable) as (s' & tb' & Hr & _). exact (ex_intro _ s' (ex_intro _ tb' Hr)).
Defined.

(** Lending priority to the process on the processor takes it off without stopping
    it: here process 2 runs, 4 blocks on it, and the next decision starts 3 while
    2 is still marked Running. *)
Definition lending_ops : list op :=
  [Block 1 None; Spawn 1 (Intent.mk Compute Low Balanced 0) "low" None; Schedule;
   Spawn 1 (Intent.mk Compute High Balanced 0) "high" None;
   Spawn 1 (Intent.mk Compute High Balanced 0) "blocker" None; Block 4 (Some 2); Schedule].

Lemma lending_leaves_two_running :
  match run booted lending_ops with
  | Done (_, k) => current (sched k) = Some 3 /\ Pcb.state (pcb_at k 2) = Running /\ Pcb.state (pcb_at k 3) = Running
  | _ => False
  end.
Proof. vm_compute. repeat split. Qed.

End Witnesses.
End ProcRuns.

Module Intensity.
Import RestartTracker.

(** Restarts recorded one after the other. *)
Definition record_all (tr : t) (stamps : list Z) : t :=
  foldl (fun tr now => snd (record_restart tr now)) tr stamps.

Lemma sorted_before (l : list Z) x :
  StronglySorted Z.le (l ++ [x]) -> StronglySorted Z.le l /\ forall y, y ∈ l -> y <= x.
Proof.
  induction l as [|z l IH]; cbn; intros Hs; [by split; [constructor|set_solver]|].
  apply StronglySorted_inv in Hs as [[Hs Hle]%IH Hz]. rewrite Forall_app, Forall_singleton in Hz. destruct Hz as [Hz Hx].
  split; [by constructor|]. set_solver.
Qed.

Definition recent (w now : Z) (ts : Z) : bool := sat_sub now ts <? w.

Lemma record_all_config max w stamps :
  max_restarts (record_all (new max w) stamps) = max /\ window_ticks (record_all (new max w) stamps) = w.
Proof.
  unfold record_all. generalize (eq_refl : max_restarts (new max w) = max), (eq_refl : window_ticks (new max w) = w).
  generalize (new max w). induction stamps as [|x stamps IH]; intros tr H1 H2; cbn; [done|]. by apply IH.
Qed.

(** What is left in the tracker, seen from any later time, is what was recorded. *)
Lemma record_all_recent max w stamps now :
  (forall x, x ∈ stamps -> x <= now) -> StronglySorted Z.le stamps ->
  retain (recent w now) (restart_timestamps (record_all (new max w) stamps)) = retain (recent w now) stamps.
Proof.
  revert now. induction stamps as [|x stamps IH] using rev_ind; intros now Hnow Hs; [done|].
  unfold record_all. rewrite foldl_app. cbn [foldl]. fold (record_all (new max w) stamps). cbn [record_restart snd restart_timestamps].
  destruct (record_all_config max w stamps) as [_ ->]. unfold retain at 1. rewrite List.filter_app. unfold retain. rewrite List.filter_app. f_equal.
  apply sorted_before in Hs as [Hs Hle].
  assert (forall l, List.filter (recent w now) (List.filter (fun ts => sat_sub x ts <? w) l) = List.filter (recent w now) l) as Habs.
  { induction l as [|y l IHl]; [done|]. cbn. destruct (Z.ltb_spec (sat_sub x y) w) as [Hy|Hy]; cbn; [by rewrite IHl|].
    rewrite IHl. assert (recent w now y = false) as ->; [|done]. apply Z.ltb_ge. unfold sat_sub in *. specialize (Hnow x). set_solver by lia. }
  rewrite Habs. apply IH; [|done]. set_solver.
Qed.

(** The restart intensity is a sliding window: after any restarts at
    non-decreasing times, recording one more at time [now] reports that the
    intensity is exceeded if and only if, with this one, more than
    [max_restarts] restarts lie within the last [window_ticks] ticks. *)
Theorem intensity_is_sliding_window max w stamps now :
  StronglySorted Z.le (stamps ++ [now]) ->
  fst (record_restart (record_all (new max w) stamps) now) =
    (Z.of_nat (length (List.filter (fun ts => sat_sub now ts <? w) stamps)) + 1 >? max).
Proof.
  intros Hs. apply sorted_before in Hs as [Hs Hle]. cbn [record_restart fst].
  destruct (record_all_config max w stamps) as [-> ->].
  change (fun ts => sat_sub now ts <? w) with (recent w now).
  rewrite record_all_recent by done.
  rewrite length_app. unfold retain. f_equal. cbn. lia.
Qed.

Lemma intensity_is_sliding_window_witness :
  fst (record_restart (record_all (new 2 60) [1; 50; 100]) 105) = true.
Proof.
  rewrite (intensity_is_sliding_window 2 60 [1; 50; 100] 105); [reflexivity|].
  repeat constructor; vm_compute; discriminate.
Defined.

End Intensity.
