(* ===== verification/Locks.v ===== *)
(** * Lock ordering (src/kernel/src/sync/mod.rs)

    The stack of lock levels that debug builds maintain around every
    [OrderedMutex]: [push_level] before a lock is taken, [pop_level] when its
    guard is dropped. The spin lock inside is not modelled; what is proved is
    that it is never asked for a lock its caller already holds. *)

From Stdlib Require Import Sorting.Sorted.
From S2P Require Import Prelude.

Module Levels.

Definition HAL : Z := 0.
Definition INPUT : Z := 1.
Definition NETWORK : Z := 2.
Definition DISPLAY : Z := 3.
Definition VFS : Z := 4.
Definition GOVERNANCE : Z := 5.
Definition TABLE : Z := 6.
Definition STORE : Z := 7.
Definition SCHEDULER : Z := 8.
Definition BUS : Z := 9.

End Levels.

Module Tracking.

Definition MAX_HELD : Z := 8.

(** LOCK_STACK and LOCK_STACK_LEN. *)
Record t := mk {
  stack : list Z;
  len : Z;
}.

Definition new : t := mk (replicate (Z.to_nat MAX_HELD) 0) 0.

(** [for i in 0..len]: the check of one held level after the other. *)
Fixpoint check_order (k : nat) (i level : Z) (st : list Z) : exec unit :=
  match k with
  | O => Done tt
  | S k' =>
      x ← arr_get st i;
      if level <=? x then Panicked else check_order k' (i + 1) level st
  end.

Definition push_level (level : Z) (s : t) : exec t :=
  _ ← check_order (Z.to_nat (len s)) 0 level (stack s);
  if MAX_HELD <=? len s then Panicked
  else
    st ← arr_set (stack s) (len s) level;
    Done (mk st (len s + 1)).

(** [while j + 1 < len]: shift the entries above [j] left. *)
Fixpoint shift_left (k : nat) (j : Z) (st : list Z) : exec (list Z) :=
  match k with
  | O => Done st
  | S k' => x ← arr_get st (j + 1); st ← arr_set st j x; shift_left k' (j + 1) st
  end.

(** The search of [pop_level] from index [i]; [k] entries are left. *)
Fixpoint pop_from (k : nat) (i level : Z) (s : t) : exec t :=
  match k with
  | O => Done s
  | S k' =>
      x ← arr_get (stack s) i;
      if x =? level then
        st ← shift_left k' i (stack s);
        Done (mk st (len s - 1))
      else pop_from k' (i + 1) level s
  end.

Definition pop_level (level : Z) (s : t) : exec t := pop_from (Z.to_nat (len s)) 0 level s.

End Tracking.

(** ** Locking *)
Module Locks.
Import Tracking.

Section Locks.
(** The mutexes of the kernel, each with the level its type carries. *)
Context {M : Type} `{EqDecision M} (level : M -> Z).

(** The tracker, and the mutexes whose guards are alive, oldest first. *)
Record state := mkState {
  tracker : t;
  held : list M;
}.

Inductive event :=
| Lock (m : M)
| Drop (m : M).

(** [OrderedMutex::lock] up to the spin lock, and the drop of a guard. Only a
    guard that is alive can be dropped. *)
Definition event_step (e : event) (s : state) : exec state :=
  match e with
  | Lock m => tr ← push_level (level m) (tracker s); Done (mkState tr (held s ++ [m]))
  | Drop m =>
      tr ← pop_level (level m) (tracker s);
      Done (mkState tr (List.filter (fun x => negb (bool_decide (x = m))) (held s)))
  end.

Fixpoint trace (es : list event) (s : state) : exec state :=
  match es with
  | [] => Done s
  | e :: es' => s ← event_step e s; trace es' s
  end.

(** Guards are dropped only while they are alive. *)
Fixpoint bracketed (es : list event) (alive : list M) : Prop :=
  match es with
  | [] => True
  | Lock m :: es' => bracketed es' (alive ++ [m])
  | Drop m :: es' => m ∈ alive /\ bracketed es' (List.filter (fun x => negb (bool_decide (x = m))) alive)
  end.

Definition start : state := mkState new [].

(** The tracker stores the levels [xs]. *)
Definition tracks (s : t) (xs : list Z) : Prop :=
  length (stack s) = 8%nat /\ len s = Z.of_nat (length xs) /\ (length xs <= 8)%nat /\
  take (length xs) (stack s) = xs.

(** Strictly ascending. *)
Definition ascending (xs : list Z) : Prop := StronglySorted Z.lt xs.

Definition lock_inv (s : state) : Prop :=
  tracks (tracker s) (level <$> held s) /\ ascending (level <$> held s).

Lemma tracks_lookup s xs i x : tracks s xs -> xs !! i = Some x -> stack s !! i = Some x.
Proof.
  intros (_ & _ & _ & Ht) Hi. rewrite <- Ht in Hi. apply lookup_take_Some in Hi. by destruct Hi.
Qed.

Lemma check_order_spec xs : forall lv st i, (forall k x, xs !! k = Some x -> st !! (i + k)%nat = Some x) ->
  check_order (length xs) (Z.of_nat i) lv st = if decide (Forall (fun x => x < lv) xs) then Done tt else Panicked.
Proof.
  induction xs as [|x xs IH]; intros lv st i Hst; cbn [length check_order].
  - by rewrite decide_True by constructor.
  - unfold arr_get. rewrite decide_True by lia. rewrite Nat2Z.id.
    pose proof (Hst 0%nat x eq_refl) as H0. rewrite Nat.add_0_r in H0. rewrite H0. exec_simpl.
    destruct (Z.leb_spec lv x).
    + rewrite decide_False; [done|]. intros Hf. apply Forall_cons in Hf as [? _]. lia.
    + replace (Z.of_nat i + 1) with (Z.of_nat (S i)) by lia. rewrite IH.
      2:{ intros k y Hk. specialize (Hst (S k) y Hk). by rewrite <- plus_n_Sm in Hst. }
      destruct (decide (Forall _ xs)) as [Hf|Hf].
      * rewrite decide_True; [done|]. constructor; [lia|done].
      * rewrite decide_False; [done|]. intros Hc. by apply Forall_cons in Hc as [_ ?].
Qed.

(** Taking a lock succeeds exactly when its level is above every held one and
    fewer than 8 are held. *)
Lemma push_level_spec lv s xs : tracks s xs ->
  if decide (Forall (fun x => x < lv) xs /\ (length xs < 8)%nat)
  then exists s', push_level lv s = Done s' /\ tracks s' (xs ++ [lv])
  else push_level lv s = Panicked.
Proof.
  intros Ht. pose proof Ht as (Hst & Hlen & Hle & Htake). unfold push_level, MAX_HELD.
  pose proof (check_order_spec xs lv (stack s) 0) as Hck. change (Z.of_nat 0) with 0 in Hck.
  rewrite Hlen, Nat2Z.id, Hck by (intros; by eapply tracks_lookup).
  destruct (decide (Forall (fun x => x < lv) xs /\ (length xs < 8)%nat)) as [[Hf Hlt]|Hn].
  2:{ destruct (decide (Forall (fun x => x < lv) xs)); exec_simpl; [|done].
      rewrite (proj2 (Z.leb_le _ _)); [done|]. assert (~ (length xs < 8)%nat) by tauto. lia. }
  rewrite decide_True by done. exec_simpl. rewrite (proj2 (Z.leb_gt _ _)) by lia.
  unfold arr_set. rewrite decide_True by lia. exec_simpl.
  eexists. split; [reflexivity|]. unfold tracks. cbn. rewrite length_insert, length_app, Nat2Z.id. cbn.
  split_all; [done|lia|lia|]. rewrite Nat.add_1_r.
  erewrite take_S_r by (apply list_lookup_insert_eq; lia). by rewrite take_insert_ge, Htake by lia.
Qed.

Lemma shift_left_spec ys : forall pre x st, length st = 8%nat -> take (length (pre ++ x :: ys)) st = pre ++ x :: ys ->
  exists st', shift_left (length ys) (Z.of_nat (length pre)) st = Done st' /\ length st' = 8%nat /\
    take (length (pre ++ ys)) st' = pre ++ ys.
Proof.
  induction ys as [|y ys IH]; intros pre x st Hl Ht; cbn [length shift_left].
  - exists st. split_all; [done|done|]. rewrite app_nil_r.
    apply (f_equal (take (length pre))) in Ht. rewrite take_app_length in Ht.
    rewrite take_take, length_app in Ht. by rewrite Nat.min_l in Ht by lia.
  - assert (length (pre ++ x :: y :: ys) <= 8)%nat as Hle.
    { apply (f_equal length) in Ht. rewrite length_take, Hl in Ht. lia. }
    rewrite length_app in Hle. cbn in Hle.
    assert (st !! S (length pre) = Some y) as Hy.
    { rewrite <- (lookup_take_lt _ (length (pre ++ x :: y :: ys))) by (rewrite length_app; cbn; lia). rewrite Ht.
      rewrite lookup_app_r by lia. by replace (S (length pre) - length pre)%nat with 1%nat by lia. }
    unfold arr_get. rewrite decide_True by lia. replace (Z.to_nat (Z.of_nat (length pre) + 1)) with (S (length pre)) by lia.
    rewrite Hy. exec_simpl. unfold arr_set. rewrite decide_True by lia. exec_simpl. rewrite Nat2Z.id.
    destruct (IH (pre ++ [y]) y (<[length pre := y]> st)) as (st' & Hs & Hl' & Ht').
    + by rewrite length_insert.
    + apply list_eq. intros i. rewrite <- app_assoc. cbn [app].
      destruct (decide (i < length (pre ++ y :: y :: ys)))%nat as [Hi|Hi].
      * rewrite lookup_take_lt by done. destruct (decide (i = length pre)) as [->|Hne].
        { rewrite list_lookup_insert_eq by lia. by rewrite lookup_app_r, Nat.sub_diag by lia. }
        rewrite list_lookup_insert_ne by done.
        assert (st !! i = (pre ++ x :: y :: ys) !! i) as ->.
        { rewrite <- Ht, lookup_take_lt; [done|]. rewrite length_app in Hi |- *. cbn in *. lia. }
        destruct (decide (i < length pre))%nat; [by rewrite !lookup_app_l by lia|].
        rewrite !lookup_app_r by lia. destruct (i - length pre)%nat eqn:E; [lia|done].
      * rewrite lookup_take_ge by lia. symmetry. apply lookup_ge_None. lia.
    + rewrite length_app in Hs. cbn in Hs. replace (Z.of_nat (length pre) + 1) with (Z.of_nat (length pre + 1)) by lia.
      exists st'. rewrite <- app_assoc in Ht'. done.
Qed.

(** Dropping removes the first entry of the level and keeps the others in order. *)
Lemma pop_from_spec ys lv : forall pre s, tracks s (pre ++ ys) -> lv ∈ ys ->
  exists s' zs ws, ys = zs ++ lv :: ws /\ lv ∉ zs /\
    pop_from (length ys) (Z.of_nat (length pre)) lv s = Done s' /\ tracks s' (pre ++ zs ++ ws).
Proof.
  induction ys as [|y ys IH]; intros pre s Ht Hin; [by apply not_elem_of_nil in Hin|]. cbn [length pop_from].
  pose proof Ht as (Hst & Hlen & Hle & Htake).
  unfold arr_get. rewrite decide_True by lia. rewrite Nat2Z.id.
  rewrite (tracks_lookup _ _ (length pre) y Ht) by (by rewrite lookup_app_r, Nat.sub_diag by lia). exec_simpl.
  destruct (Z.eqb_spec y lv) as [->|Hne].
  - destruct (shift_left_spec ys pre lv (stack s) Hst Htake) as (st' & -> & Hl' & Ht'). exec_simpl.
    eexists _, [], ys. split_all; [done|by apply not_elem_of_nil|reflexivity|].
    unfold tracks. cbn. rewrite length_app in *. cbn in *. split_all; try done; lia.
  - apply elem_of_cons in Hin as [?|Hin]; [done|].
    destruct (IH (pre ++ [y]) s) as (s' & zs & ws & -> & Hz & Hp & Ht'); [by rewrite <- app_assoc|done|].
    rewrite (length_app pre [y]) in Hp. change (length [y]) with 1%nat in Hp. replace (Z.of_nat (length pre) + 1) with (Z.of_nat (length pre + 1)) by lia.
    exists s', (y :: zs), ws. split_all; [done| |done|by rewrite <- app_assoc in Ht'].
    rewrite not_elem_of_cons. done.
Qed.

(** Mutexes held at once have different levels, so a dropped guard's level
    identifies it. *)
Lemma ascending_split xs ms m : level <$> ms = xs -> ascending xs -> m ∈ ms ->
  exists ms1 ms2, ms = ms1 ++ m :: ms2 /\ level m ∉ level <$> ms1 /\ level m ∉ level <$> ms2.
Proof.
  intros <- Ha Hm. apply list_elem_of_split in Hm as (ms1 & ms2 & ->). exists ms1, ms2. split; [done|].
  unfold ascending in Ha. rewrite fmap_app, fmap_cons in Ha.
  induction ms1 as [|x ms1 IH]; cbn in Ha |- *.
  - apply StronglySorted_inv in Ha as [_ Hf]. split; [by apply not_elem_of_nil|].
    intros Hin. rewrite Forall_forall in Hf. apply Hf in Hin. lia.
  - apply StronglySorted_inv in Ha as [Ha Hf]. destruct (IH Ha) as [H1 H2]. split; [|done].
    rewrite not_elem_of_cons. split; [|done]. intros E. rewrite Forall_forall in Hf.
    assert (level x < level m) as Hlt; [|lia]. apply Hf. apply elem_of_app. right. apply elem_of_cons. by left.
Qed.

Lemma filter_other ms1 m ms2 : level m ∉ level <$> ms1 -> level m ∉ level <$> ms2 ->
  List.filter (fun x => negb (bool_decide (x = m))) (ms1 ++ m :: ms2) = ms1 ++ ms2.
Proof.
  intros H1 H2.
  assert (forall ms, level m ∉ level <$> ms -> List.filter (fun x => negb (bool_decide (x = m))) ms = ms) as Hf.
  { induction ms as [|x ms IH]; intros Hn; [done|]. rewrite fmap_cons, not_elem_of_cons in Hn. destruct Hn as [Hx Hn].
    cbn. rewrite bool_decide_eq_false_2 by (intros ->; done). cbn. by rewrite IH. }
  rewrite List.filter_app. cbn. rewrite bool_decide_eq_true_2 by done. cbn. by rewrite !Hf.
Qed.

Lemma drop_ok m s : lock_inv s -> m ∈ held s -> exists s', event_step (Drop m) s = Done s' /\ lock_inv s'.
Proof.
  intros [Ht Ha] Hm. destruct (ascending_split _ _ m eq_refl Ha Hm) as (ms1 & ms2 & E & H1 & H2).
  destruct (pop_from_spec (level <$> held s) (level m) [] (tracker s)) as (tr & zs & ws & Ezw & Hz & Hp & Ht').
  { done. }
  { by apply list_elem_of_fmap_2. }
  assert (zs = level <$> ms1 /\ ws = level <$> ms2) as [-> ->].
  { rewrite E, fmap_app, fmap_cons in Ezw. clear -Ezw H1 Hz. revert Ezw H1.
    generalize (level <$> ms1) as l1. intros l1. revert zs Hz.
    induction l1 as [|x l1 IH]; intros zs Hz Ezw H1; destruct zs as [|z zs]; cbn in Ezw; simplify_eq; try done.
    - rewrite not_elem_of_cons in Hz. by destruct Hz.
    - rewrite not_elem_of_cons in H1. by destruct H1.
    - rewrite not_elem_of_cons in Hz, H1. destruct (IH zs) as [-> ->]; [apply Hz|done|apply H1|done]. }
  assert (pop_level (level m) (tracker s) = Done tr) as Hpop.
  { unfold pop_level. destruct Ht as (_ & Hlen & _). rewrite Hlen, Nat2Z.id. exact Hp. }
  cbn [event_step]. rewrite Hpop. exec_simpl. eexists. split; [reflexivity|].
  unfold lock_inv. cbn [tracker held]. rewrite E, filter_other by done. rewrite fmap_app. split; [done|].
  rewrite E, fmap_app, fmap_cons in Ha. clear -Ha. unfold ascending in *.
  induction (level <$> ms1) as [|x l1 IH]; cbn in *.
  - by apply StronglySorted_inv in Ha as [Ha _].
  - apply StronglySorted_inv in Ha as [Ha Hf]. constructor; [by apply IH|].
    rewrite Forall_app, Forall_cons in Hf. rewrite Forall_app. tauto.
Qed.

Lemma lock_spec m s : lock_inv s ->
  if decide (Forall (fun x => x < level m) (level <$> held s) /\ (length (held s) < 8)%nat)
  then exists s', event_step (Lock m) s = Done s' /\ lock_inv s' /\ held s' = held s ++ [m]
  else event_step (Lock m) s = Panicked.
Proof.
  intros [Ht Ha]. pose proof (push_level_spec (level m) (tracker s) _ Ht) as Hp. rewrite length_fmap in Hp.
  cbn [event_step]. destruct (decide _) as [[Hf Hlt]|]; [|by rewrite Hp].
  destruct Hp as (tr & -> & Htr). exec_simpl. eexists. split; [reflexivity|]. split; [|done].
  split; cbn; rewrite fmap_app; [done|]. unfold ascending in *. clear -Ha Hf.
  induction (level <$> held s) as [|x xs IH]; cbn.
  - repeat constructor.
  - apply StronglySorted_inv in Ha as [Ha Hx]. apply Forall_cons in Hf as [Hlt Hf].
    constructor; [by apply IH|]. apply Forall_app. split; [done|]. by repeat constructor.
Qed.

Lemma trace_inv es : forall s s', lock_inv s -> bracketed es (held s) -> trace es s = Done s' -> lock_inv s'.
Proof.
  induction es as [|e es IH]; intros s s' Hi Hb Ht; cbn [trace] in Ht; [by simplify_eq|].
  destruct e as [m|m]; cbn [bracketed] in Hb.
  - pose proof (lock_spec m s Hi) as Hl. destruct (decide _).
    + destruct Hl as (s1 & E & Hi1 & Hh). rewrite E in Ht. exec_simpl. eapply IH; [done| |done]. by rewrite Hh.
    + rewrite Hl in Ht. done.
  - destruct Hb as [Hm Hb]. destruct (drop_ok m s Hi Hm) as (s1 & E & Hi1). rewrite E in Ht. exec_simpl.
    eapply IH; [done| |done]. cbn [event_step] in E. apply bind_Done in E as (tr & _ & E). injection E as <-. done.
Qed.

Lemma start_inv : lock_inv start.
Proof. split; [|constructor]. unfold tracks. split_all; [done|done|cbn; lia|done]. Qed.

(** C40. With the checks of the debug build a lock is never taken out of order or
    twice: after any sequence of locks and guard drops that did not panic, the
    held mutexes have strictly ascending levels and their levels are what the
    tracker stores. The next lock goes through exactly when its level is above
    all of them and fewer than 8 are held, and panics otherwise; so no mutex is
    ever asked for while it is held, and the spin lock behind it cannot wait for
    its own caller. *)
Theorem locks_are_ordered es s m : bracketed es [] -> trace es start = Done s ->
  StronglySorted Z.lt (level <$> held s) /\ (length (held s) <= 8)%nat /\
  (Forall (fun x => x < level m) (level <$> held s) /\ (length (held s) < 8)%nat <->
   exists s', event_step (Lock m) s = Done s') /\
  (m ∈ held s -> event_step (Lock m) s = Panicked).
Proof.
  intros Hb Ht. pose proof (trace_inv es start s start_inv Hb Ht) as Hi. pose proof (lock_spec m s Hi) as Hl.
  pose proof Hi as [(_ & _ & Hle & _) Ha]. rewrite length_fmap in Hle. split_all; [exact Ha|exact Hle| |].
  - destruct (decide _) as [Hy|Hn]; split; try done.
    + intros _. destruct Hl as (s' & E & _). by exists s'.
    + intros [s' E]. by rewrite Hl in E.
  - intros Hm. destruct (decide _) as [[Hf _]|]; [|done]. rewrite Forall_forall in Hf.
    apply (list_elem_of_fmap_2 level) in Hm. apply Hf in Hm. lia.
Qed.

End Locks.

(** ** The network's locks

    [handle_syn] and the answers of the TCP state machine call [transmit_ip] with
    SOCKETS held; it takes LOOPBACK, or ACTIVE_NIC. *)
Inductive net_lock := SOCKETS | LOOPBACK | ACTIVE_NIC.

#[global] Instance net_lock_eq : EqDecision net_lock.
Proof. solve_decision. Defined.

Definition net_level (m : net_lock) : Z :=
  match m with SOCKETS | LOOPBACK => Levels.NETWORK | ACTIVE_NIC => Levels.HAL end.

Lemma answering_a_segment_breaks_the_order :
  trace net_level [Lock SOCKETS; Lock LOOPBACK] start = Panicked /\
  trace net_level [Lock SOCKETS; Lock ACTIVE_NIC] start = Panicked.
Proof. split; vm_compute; reflexivity. Qed.

(** [compose_and_present] takes WINDOW_TABLE with DISPLAY held. *)
Inductive screen_lock := SCREEN | WINDOW_TABLE.

#[global] Instance screen_lock_eq : EqDecision screen_lock.
Proof. solve_decision. Defined.

Definition screen_level (m : screen_lock) : Z := match m with SCREEN => Levels.DISPLAY | WINDOW_TABLE => Levels.INPUT end.

Lemma repainting_breaks_the_order : trace screen_level [Lock SCREEN; Lock WINDOW_TABLE] start = Panicked.
Proof. vm_compute. reflexivity. Qed.

Lemma locks_are_ordered_witness :
  exists s, trace net_level [Lock ACTIVE_NIC; Lock SOCKETS; Drop ACTIVE_NIC] start = Done s /\
    event_step net_level (Lock SOCKETS) s = Panicked.
Proof.
  eexists. split; [vm_compute; reflexivity|].
  refine (proj2 (proj2 (proj2 (locks_are_ordered net_level [Lock ACTIVE_NIC; Lock SOCKETS; Drop ACTIVE_NIC] _ SOCKETS _ _))) _).
  - cbn. split; [|done]. by left.
  - vm_compute. reflexivity.
  - by left.
Defined.

End Locks.
