(* ===== verification/NetWire.v ===== *)
(** * Network wire formats (src/kernel/src/network/)

    Addresses (addr.rs), the Internet checksum (checksum.rs), and the headers of
    Ethernet (ethernet.rs), ARP (arp.rs), IPv4 (ip.rs), UDP (udp.rs) and TCP
    (tcp.rs) as byte strings, with what their serialised forms determine.

    A byte array or slice is a list of integers below 256; an array of fixed
    length, such as the 4 bytes of an address, is a list of that length. *)

From S2P Require Import Prelude.

(** ** Big-endian integers *)
Module Be.

(** [u16::to_be_bytes], also written [(v >> 8) as u8, v as u8]. *)
Definition be16 (v : Z) : list Z := [wrap 8 (Z.shiftr v 8); wrap 8 v].
Definition be32 (v : Z) : list Z :=
  [wrap 8 (Z.shiftr v 24); wrap 8 (Z.shiftr v 16); wrap 8 (Z.shiftr v 8); wrap 8 v].

(** [u16::from_be_bytes], also written [(a as u16) << 8 | b as u16]. *)
Definition of_be16 (a b : Z) : Z := Z.lor (Z.shiftl a 8) b.
Definition of_be32 (a b c d : Z) : Z :=
  Z.lor (Z.lor (Z.lor (Z.shiftl a 24) (Z.shiftl b 16)) (Z.shiftl c 8)) d.

End Be.

(** ** Addresses (addr.rs) *)
Module Ipv4Addr.

Definition UNSPECIFIED : list Z := [0; 0; 0; 0].
Definition LOOPBACK : list Z := [127; 0; 0; 1].
Definition BROADCAST : list Z := [255; 255; 255; 255].

Definition is_loopback (a : list Z) : bool := bool_decide (a = LOOPBACK).
Definition is_unspecified (a : list Z) : bool := bool_decide (a = UNSPECIFIED).

Definition to_u32 (a : list Z) : Z :=
  match a with [a0; a1; a2; a3] => Be.of_be32 a0 a1 a2 a3 | _ => 0 end.
Definition from_u32 (v : Z) : list Z := Be.be32 v.

End Ipv4Addr.

Module SocketAddr.

Record t := mk {
  addr : list Z;
  port : Z;
}.

#[global] Instance socket_addr_eq : EqDecision t.
Proof. solve_decision. Defined.

Definition UNSPECIFIED : t := mk Ipv4Addr.UNSPECIFIED 0.

Definition is_unspecified (a : t) : bool := Ipv4Addr.is_unspecified (addr a) && (port a =? 0).

End SocketAddr.

Inductive SocketType := Stream | Datagram.
Inductive Protocol := Tcp | Udp.

#[export] Instance socket_type_eq : EqDecision SocketType.
Proof. solve_decision. Defined.
#[export] Instance protocol_eq : EqDecision Protocol.
Proof. solve_decision. Defined.

(** ** The Internet checksum (checksum.rs) *)
Module Checksum.

(** The loop over 16-bit words, and the odd byte at the end. *)
Fixpoint add_words (sum : Z) (data : list Z) : Z :=
  match data with
  | a :: b :: data' => add_words (u32_add sum (Be.of_be16 a b)) data'
  | [a] => u32_add sum (wrap 32 (Z.shiftl a 8))
  | [] => sum
  end.

(** [while sum >> 16 != 0]: a 32-bit sum needs at most two rounds, so three units
    of fuel are never used up. *)
Fixpoint fold_sum (fuel : nat) (sum : Z) : exec Z :=
  match fuel with
  | O => Diverged
  | S fuel' =>
      if Z.shiftr sum 16 =? 0 then Done sum
      else fold_sum fuel' (u32_add (Z.land sum 0xFFFF) (Z.shiftr sum 16))
  end.

Definition finish (sum : Z) : exec Z :=
  s ← fold_sum 3 sum;
  Done (lnot_u 16 (wrap 16 s)).

Definition internet_checksum (data : list Z) : exec Z := finish (add_words 0 data).

Definition verify_checksum (data : list Z) : exec bool :=
  c ← internet_checksum data;
  Done (c =? 0).

(** The words of the pseudo-header; both addresses are arrays of four bytes. *)
Definition pseudo_sum (src dst : list Z) (protocol length : Z) : Z :=
  match src, dst with
  | [s0; s1; s2; s3], [d0; d1; d2; d3] =>
      let sum := u32_add 0 (Be.of_be16 s0 s1) in
      let sum := u32_add sum (Be.of_be16 s2 s3) in
      let sum := u32_add sum (Be.of_be16 d0 d1) in
      let sum := u32_add sum (Be.of_be16 d2 d3) in
      let sum := u32_add sum protocol in
      u32_add sum length
  | _, _ => 0
  end.

Definition pseudo_header_checksum (src dst : list Z) (protocol length : Z) (payload : list Z) : exec Z :=
  finish (add_words (pseudo_sum src dst protocol length) payload).

End Checksum.

(** ** Ethernet frames (ethernet.rs) *)
Module EthernetFrame.

Definition ETHERTYPE_IPV4 : Z := 0x0800.
Definition ETHERTYPE_ARP : Z := 0x0806.
Definition BROADCAST_MAC : list Z := [0xFF; 0xFF; 0xFF; 0xFF; 0xFF; 0xFF].

Record t := mk {
  dst_mac : list Z;
  src_mac : list Z;
  ethertype : Z;
  payload : list Z;
}.

Definition build (dst_mac src_mac : list Z) (ethertype : Z) (payload : list Z) : list Z :=
  dst_mac ++ src_mac ++ Be.be16 ethertype ++ payload.

Definition parse (data : list Z) : option t :=
  match data with
  | d0 :: d1 :: d2 :: d3 :: d4 :: d5 :: s0 :: s1 :: s2 :: s3 :: s4 :: s5 :: e0 :: e1 :: rest =>
      Some (mk [d0; d1; d2; d3; d4; d5] [s0; s1; s2; s3; s4; s5] (Be.of_be16 e0 e1) rest)
  | _ => None
  end.

Definition header_bytes (f : t) : list Z := dst_mac f ++ src_mac f ++ Be.be16 (ethertype f).

End EthernetFrame.

(** ** ARP packets (arp.rs) *)
Module ArpPacket.

Definition ARP_HW_ETHERNET : Z := 1.
Definition ARP_PROTO_IPV4 : Z := 0x0800.
Definition ARP_OP_REQUEST : Z := 1.
Definition ARP_OP_REPLY : Z := 2.

Record t := mk {
  hw_type : Z;
  proto_type : Z;
  hw_len : Z;
  proto_len : Z;
  opcode : Z;
  sender_mac : list Z;
  sender_ip : list Z;
  target_mac : list Z;
  target_ip : list Z;
}.

Definition build_request (sender_mac sender_ip target_ip : list Z) : t :=
  mk ARP_HW_ETHERNET ARP_PROTO_IPV4 6 4 ARP_OP_REQUEST sender_mac sender_ip [0; 0; 0; 0; 0; 0] target_ip.

Definition build_reply (sender_mac sender_ip target_mac target_ip : list Z) : t :=
  mk ARP_HW_ETHERNET ARP_PROTO_IPV4 6 4 ARP_OP_REPLY sender_mac sender_ip target_mac target_ip.

Definition to_bytes (p : t) : list Z :=
  Be.be16 (hw_type p) ++ Be.be16 (proto_type p) ++ [hw_len p; proto_len p] ++ Be.be16 (opcode p) ++
  sender_mac p ++ sender_ip p ++ target_mac p ++ target_ip p.

Definition parse (data : list Z) : option t :=
  match data with
  | h0 :: h1 :: p0 :: p1 :: hl :: pl :: o0 :: o1 ::
    a0 :: a1 :: a2 :: a3 :: a4 :: a5 :: i0 :: i1 :: i2 :: i3 ::
    b0 :: b1 :: b2 :: b3 :: b4 :: b5 :: j0 :: j1 :: j2 :: j3 :: _ =>
      Some (mk (Be.of_be16 h0 h1) (Be.of_be16 p0 p1) hl pl (Be.of_be16 o0 o1)
              [a0; a1; a2; a3; a4; a5] [i0; i1; i2; i3] [b0; b1; b2; b3; b4; b5] [j0; j1; j2; j3])
  | _ => None
  end.

Definition to_ethernet_frame (p : t) (src_mac : list Z) : list Z :=
  let dst_mac := if opcode p =? ARP_OP_REQUEST then EthernetFrame.BROADCAST_MAC else target_mac p in
  EthernetFrame.build dst_mac src_mac EthernetFrame.ETHERTYPE_ARP (to_bytes p).

End ArpPacket.

(** ** IPv4 headers (ip.rs) *)
Module Ipv4Header.

Definition SIZE : Z := 20.

Record t := mk {
  version_ihl : Z;
  tos : Z;
  total_length : Z;
  identification : Z;
  flags_fragment : Z;
  ttl : Z;
  protocol : Z;
  checksum : Z;
  src_addr : list Z;
  dst_addr : list Z;
}.

Definition to_bytes (h : t) : list Z :=
  [version_ihl h; tos h] ++ Be.be16 (total_length h) ++ Be.be16 (identification h) ++
  Be.be16 (flags_fragment h) ++ [ttl h; protocol h] ++ Be.be16 (checksum h) ++ src_addr h ++ dst_addr h.

(** [buf[10] = 0; buf[11] = 0]. *)
Definition to_bytes_no_checksum (h : t) : list Z := <[11%nat := 0]> (<[10%nat := 0]> (to_bytes h)).

Definition compute_checksum (h : t) : exec Z := Checksum.internet_checksum (to_bytes_no_checksum h).

Definition with_checksum (h : t) (c : Z) : t :=
  mk (version_ihl h) (tos h) (total_length h) (identification h) (flags_fragment h) (ttl h)
    (protocol h) c (src_addr h) (dst_addr h).

Definition new (src dst : list Z) (protocol payload_len : Z) : exec t :=
  let hdr := mk 0x45 0 (wrap 16 (SIZE + payload_len)) 0 0x4000 64 protocol 0 src dst in
  c ← compute_checksum hdr;
  Done (with_checksum hdr c).

Definition from_bytes (data : list Z) : option t :=
  match data with
  | d0 :: d1 :: d2 :: d3 :: d4 :: d5 :: d6 :: d7 :: d8 :: d9 :: d10 :: d11 ::
    d12 :: d13 :: d14 :: d15 :: d16 :: d17 :: d18 :: d19 :: _ =>
      Some (mk d0 d1 (Be.of_be16 d2 d3) (Be.of_be16 d4 d5) (Be.of_be16 d6 d7) d8 d9
              (Be.of_be16 d10 d11) [d12; d13; d14; d15] [d16; d17; d18; d19])
  | _ => None
  end.

Definition payload_len (h : t) : Z := sat_sub (total_length h) SIZE.

End Ipv4Header.

(** ** UDP headers (udp.rs) *)
Module UdpHeader.

Definition SIZE : Z := 8.

Record t := mk {
  src_port : Z;
  dst_port : Z;
  length : Z;
  checksum : Z;
}.

Definition new (src_port dst_port data_len : Z) : t :=
  mk src_port dst_port (wrap 16 (SIZE + data_len)) 0.

Definition to_bytes (h : t) : list Z :=
  Be.be16 (src_port h) ++ Be.be16 (dst_port h) ++ Be.be16 (length h) ++ Be.be16 (checksum h).

Definition from_bytes (data : list Z) : option t :=
  match data with
  | d0 :: d1 :: d2 :: d3 :: d4 :: d5 :: d6 :: d7 :: _ =>
      Some (mk (Be.of_be16 d0 d1) (Be.of_be16 d2 d3) (Be.of_be16 d4 d5) (Be.of_be16 d6 d7))
  | _ => None
  end.

End UdpHeader.

(** ** TCP headers (tcp.rs) *)
Module TcpHeader.

Definition FIN : Z := 0x01.
Definition SYN : Z := 0x02.
Definition RST : Z := 0x04.
Definition PSH : Z := 0x08.
Definition ACK : Z := 0x10.

Definition SIZE : Z := 20.

Record t := mk {
  src_port : Z;
  dst_port : Z;
  seq_num : Z;
  ack_num : Z;
  data_offset_flags : Z;
  window : Z;
  checksum : Z;
  urgent_ptr : Z;
}.

Definition new (src_port dst_port seq ack flags window : Z) : t :=
  mk src_port dst_port seq ack (Z.lor (wrap 16 (Z.shiftl 5 12)) flags) window 0 0.

Definition flags (h : t) : Z := wrap 8 (Z.land (data_offset_flags h) 0x3F).

Definition has_flag (h : t) (flag : Z) : bool := negb (Z.land (flags h) flag =? 0).

Definition to_bytes (h : t) : list Z :=
  Be.be16 (src_port h) ++ Be.be16 (dst_port h) ++ Be.be32 (seq_num h) ++ Be.be32 (ack_num h) ++
  Be.be16 (data_offset_flags h) ++ Be.be16 (window h) ++ Be.be16 (checksum h) ++ Be.be16 (urgent_ptr h).

Definition with_checksum (h : t) (c : Z) : t :=
  mk (src_port h) (dst_port h) (seq_num h) (ack_num h) (data_offset_flags h) (window h) c (urgent_ptr h).

Definition from_bytes (data : list Z) : option t :=
  match data with
  | d0 :: d1 :: d2 :: d3 :: d4 :: d5 :: d6 :: d7 :: d8 :: d9 :: d10 :: d11 ::
    d12 :: d13 :: d14 :: d15 :: d16 :: d17 :: d18 :: d19 :: _ =>
      Some (mk (Be.of_be16 d0 d1) (Be.of_be16 d2 d3) (Be.of_be32 d4 d5 d6 d7) (Be.of_be32 d8 d9 d10 d11)
              (Be.of_be16 d12 d13) (Be.of_be16 d14 d15) (Be.of_be16 d16 d17) (Be.of_be16 d18 d19))
  | _ => None
  end.

End TcpHeader.

(** ** Packets *)
Module Packets.

(** [build_udp_packet]: the bytes written to [buf], a fresh zeroed buffer of
    [cap] bytes, up to the returned length; [None] stands for the returned 0.
    Copying [data] into [buf] panics when its length was truncated to 16 bits. *)
Definition build_udp_packet (src dst : SocketAddr.t) (data : list Z) (cap : Z) : exec (option (list Z)) :=
  let data_len := wrap 16 (Z.of_nat (length data)) in
  let udp_len := wrap 16 (UdpHeader.SIZE + data_len) in
  let total := Ipv4Header.SIZE + udp_len in
  if cap <? total then Done None
  else
    ip ← Ipv4Header.new (SocketAddr.addr src) (SocketAddr.addr dst) 17 udp_len;
    let udp := UdpHeader.new (SocketAddr.port src) (SocketAddr.port dst) data_len in
    if decide (UdpHeader.SIZE + Z.of_nat (length data) = udp_len) then
      chk ← Checksum.pseudo_header_checksum (SocketAddr.addr src) (SocketAddr.addr dst) 17 udp_len
              (UdpHeader.to_bytes udp ++ data);
      let udp := UdpHeader.mk (UdpHeader.src_port udp) (UdpHeader.dst_port udp) (UdpHeader.length udp) chk in
      Done (Some (Ipv4Header.to_bytes ip ++ UdpHeader.to_bytes udp ++ data))
    else Panicked.

(** [build_tcp_packet]; the 16-bit truncation affects the length fields only. *)
Definition build_tcp_packet (src dst : SocketAddr.t) (seq ack flags window : Z) (data : list Z) (cap : Z)
  : exec (option (list Z)) :=
  let tcp_len := TcpHeader.SIZE + Z.of_nat (length data) in
  let total := Ipv4Header.SIZE + tcp_len in
  if cap <? total then Done None
  else
    ip ← Ipv4Header.new (SocketAddr.addr src) (SocketAddr.addr dst) 6 (wrap 16 tcp_len);
    let tcp := TcpHeader.new (SocketAddr.port src) (SocketAddr.port dst) seq ack flags window in
    chk ← Checksum.pseudo_header_checksum (SocketAddr.addr src) (SocketAddr.addr dst) 6 (wrap 16 tcp_len)
            (TcpHeader.to_bytes tcp ++ data);
    Done (Some (Ipv4Header.to_bytes ip ++ TcpHeader.to_bytes (TcpHeader.with_checksum tcp chk) ++ data)).

End Packets.
