(* ===== verification/NetWireSpec.v ===== *)
(** * What the wire formats guarantee

    Big-endian integers and headers read back as they were written; the folded
    16-bit sum of checksum.rs is the one's complement sum of RFC 1071, and a
    packet built by [build_udp_packet] or [build_tcp_packet] passes the
    verification of both its checksums. *)

From S2P Require Import Prelude NetWire.

(** ** Big-endian integers *)
Module BeFacts.
Import Be.

Notation byte := (in_u 8).

Lemma byte_wrap z : byte (wrap 8 z).
Proof. apply wrap_range. lia. Qed.

Lemma of_be16_add a b : byte b -> of_be16 a b = a * 256 + b.
Proof. intros. unfold of_be16. by rewrite lor_shiftl_add by (done || lia). Qed.

Lemma of_be32_add a b c d : byte b -> byte c -> byte d ->
  of_be32 a b c d = ((a * 256 + b) * 256 + c) * 256 + d.
Proof.
  intros Hb Hc Hd. unfold of_be32, in_u in *.
  replace (Z.shiftl a 24) with (Z.shiftl (Z.shiftl a 8) 16) by (by rewrite Z.shiftl_shiftl by lia).
  rewrite <- Z.shiftl_lor. rewrite (lor_shiftl_add 8 a b) by lia.
  replace (Z.shiftl (a * 2 ^ 8 + b) 16) with (Z.shiftl (Z.shiftl (a * 2 ^ 8 + b) 8) 8)
    by (by rewrite Z.shiftl_shiftl by lia).
  rewrite <- Z.shiftl_lor. rewrite (lor_shiftl_add 8 _ c), (lor_shiftl_add 8 _ d) by lia. lia.
Qed.

Lemma wrap_shiftr z k : 0 <= k -> wrap 8 (Z.shiftr z k) = (z / 2 ^ k) mod 256.
Proof. intros. unfold wrap. by rewrite Z.shiftr_div_pow2. Qed.

Lemma be16_back v : in_u 16 v -> of_be16 (wrap 8 (Z.shiftr v 8)) (wrap 8 v) = v.
Proof.
  unfold in_u. intros. rewrite of_be16_add by apply byte_wrap.
  rewrite wrap_shiftr by lia. unfold wrap. change (2 ^ 8) with 256.
  rewrite (Z.mod_small (v / 256)) by (split; [apply Z.div_pos|apply Z.div_lt_upper_bound]; lia).
  pose proof (Z.div_mod v 256). lia.
Qed.

Lemma be32_back v : in_u 32 v ->
  of_be32 (wrap 8 (Z.shiftr v 24)) (wrap 8 (Z.shiftr v 16)) (wrap 8 (Z.shiftr v 8)) (wrap 8 v) = v.
Proof.
  unfold in_u. intros Hv. rewrite of_be32_add by apply byte_wrap.
  rewrite !wrap_shiftr by lia. unfold wrap.
  change (2 ^ 24) with (256 * 256 * 256). change (2 ^ 16) with (256 * 256). change (2 ^ 8) with 256.
  rewrite <- !Z.div_div by lia.
  rewrite (Z.mod_small (v / 256 / 256 / 256)).
  2:{ split; [repeat apply Z.div_pos; lia|]. repeat (apply Z.div_lt_upper_bound; [lia|]). lia. }
  pose proof (Z.div_mod v 256). pose proof (Z.div_mod (v / 256) 256).
  pose proof (Z.div_mod (v / 256 / 256) 256). lia.
Qed.

Lemma be16_bytes v : Forall byte (be16 v).
Proof. repeat constructor; apply byte_wrap. Qed.

Lemma be32_bytes v : Forall byte (be32 v).
Proof. repeat constructor; apply byte_wrap. Qed.

Lemma u32_of_wrap z : in_u 32 (wrap 32 z).
Proof. by apply wrap_range. Qed.

End BeFacts.
#[export] Hint Resolve BeFacts.byte_wrap BeFacts.be16_bytes BeFacts.be32_bytes : kernel.

(** [four a]: an IPv4 address, an array of four bytes. *)
Definition four (a : list Z) : Prop := length a = 4%nat /\ Forall (in_u 8) a.

Ltac open_four H :=
  destruct H as [H ?];
  repeat match type of H with
  | length ?l = S _ => destruct l; cbn in H; [discriminate H|apply Nat.succ_inj in H]
  | length ?l = 0%nat => apply nil_length_inv in H; subst
  end.

(** ** The Internet checksum *)
Module ChecksumFacts.
Import Be BeFacts Checksum.

(** The 16-bit words of a byte string; an odd last byte is padded with zero. *)
Fixpoint words (data : list Z) : list Z :=
  match data with
  | a :: b :: data' => of_be16 a b :: words data'
  | [a] => [a * 256]
  | [] => []
  end.

Definition total (ws : list Z) : Z := foldr Z.add 0 ws.

(** The one's complement sum of RFC 1071: addition with end-around carry, the
    representative in [1, 0xFFFF] of the sum modulo [0xFFFF]. *)
Definition ones_sum (s : Z) : Z := if s =? 0 then 0 else (s - 1) mod 65535 + 1.

Lemma total_app xs ys : total (xs ++ ys) = total xs + total ys.
Proof. unfold total. induction xs; cbn; lia. Qed.

Lemma words_app xs ys : Nat.Even (length xs) -> words (xs ++ ys) = words xs ++ words ys.
Proof.
  intros [k Hk]. revert xs Hk. induction k as [|k IH]; intros xs Hk.
  - by destruct xs.
  - destruct xs as [|a [|b xs]]; [cbn in Hk; lia..|]. cbn. f_equal. apply IH. cbn in Hk. lia.
Qed.

Lemma total_mid pre a b post : Nat.Even (length pre) ->
  total (words (pre ++ [a; b] ++ post)) = total (words pre) + total (words post) + of_be16 a b.
Proof. intros. rewrite words_app, total_app by done. cbn. unfold total. cbn. lia. Qed.

Lemma ind2 (P : list Z -> Prop) :
  P [] -> (forall a, P [a]) -> (forall a b l, P l -> P (a :: b :: l)) -> forall l, P l.
Proof.
  intros H0 H1 H2. fix IH 1. intros [|a [|b l]]; [done|apply H1|]. apply H2, IH.
Qed.

Lemma words_bound data : Forall byte data ->
  Forall (in_u 16) (words data) /\ (2 * length (words data) <= length data + 1)%nat.
Proof.
  induction data as [|a|a b l IH] using ind2; intros H; cbn.
  - split; [constructor|lia].
  - apply Forall_cons in H as [Ha _]. unfold in_u in *. split; [|lia]. repeat constructor; lia.
  - apply Forall_cons in H as [Ha H]. apply Forall_cons in H as [Hb H].
    destruct (IH H) as [? ?]. split; [|lia]. constructor; [|done].
    rewrite of_be16_add by done. unfold in_u in *. lia.
Qed.

Lemma total_bound ws : Forall (in_u 16) ws -> 0 <= total ws <= 65535 * Z.of_nat (length ws).
Proof. unfold in_u. induction 1; cbn; [lia|]. unfold total in *. lia. Qed.

(** Up to 128 KiB no carry out of 32 bits is lost. *)
Lemma add_words_total sum data : Forall byte data -> 0 <= sum ->
  sum + total (words data) < 2 ^ 32 -> add_words sum data = sum + total (words data).
Proof.
  revert sum. induction data as [|a|a b l IH] using ind2; intros sum H Hs Ht; cbn in *.
  - lia.
  - apply Forall_cons in H as [Ha _]. unfold in_u in Ha.
    rewrite Z.shiftl_mul_pow2 by lia. change (2 ^ 8) with 256 in *. rewrite (wrap_small 32) by lia.
    rewrite u32_add_small by lia. lia.
  - apply Forall_cons in H as [Ha H]. apply Forall_cons in H as [Hb H].
    pose proof (words_bound l H) as [Hw _]. apply total_bound in Hw.
    assert (0 <= of_be16 a b) by (rewrite of_be16_add by done; unfold in_u in *; lia).
    unfold total in *. cbn in *. rewrite u32_add_small by lia. rewrite IH by (done || lia). lia.
Qed.

Lemma add_words_range sum data : in_u 32 sum -> in_u 32 (add_words sum data).
Proof.
  revert sum. induction data as [|a|a b l IH] using ind2; intros sum H; cbn; [done|apply u32_of_wrap|].
  apply IH, u32_of_wrap.
Qed.

(** One round of the folding loop keeps the sum modulo [0xFFFF]. *)
Lemma ones_sum_fold h l : 0 <= h -> 0 <= l -> ones_sum (h * 65536 + l) = ones_sum (l + h).
Proof.
  intros. unfold ones_sum. destruct (Z.eqb_spec (h * 65536 + l) 0), (Z.eqb_spec (l + h) 0); try lia.
  replace (h * 65536 + l - 1) with (l + h - 1 + h * 65535) by lia. by rewrite Z.mod_add by lia.
Qed.

Lemma ones_sum_small s : 0 <= s < 65536 -> ones_sum s = s.
Proof. intros. unfold ones_sum. destruct (Z.eqb_spec s 0); [lia|]. rewrite Z.mod_small by lia. lia. Qed.

Lemma fold_step fuel s : in_u 32 s ->
  fold_sum (S fuel) s =
  if decide (s < 65536) then Done s else fold_sum fuel (s mod 65536 + s / 65536).
Proof.
  unfold in_u. intros Hs. cbn [fold_sum]. rewrite Z.shiftr_div_pow2 by lia.
  change 0xFFFF with (2 ^ 16 - 1). rewrite land_ones_mod by lia. change (2 ^ 16) with 65536.
  pose proof (Z.div_mod s 65536 ltac:(lia)) as Hdm. pose proof (Z.mod_pos_bound s 65536 ltac:(lia)).
  destruct (Z.eqb_spec (s / 65536) 0); case_decide; try lia; [done|].
  rewrite u32_add_small; [done|]. change (2 ^ 32) with 4294967296 in *. lia.
Qed.

(** The folding loop ends within its fuel, with the one's complement sum. *)
Lemma fold_sum_ones s : in_u 32 s -> fold_sum 3 s = Done (ones_sum s).
Proof.
  intros Hs. pose proof Hs as Hs'. unfold in_u in Hs'. change (2 ^ 32) with (65536 * 65536) in Hs'.
  pose proof (Z.div_mod s 65536 ltac:(lia)) as Hdm. pose proof (Z.mod_pos_bound s 65536 ltac:(lia)).
  assert (0 <= s / 65536 < 65536) by (split; [apply Z.div_pos|apply Z.div_lt_upper_bound]; lia).
  rewrite fold_step by done. case_decide; [rewrite ones_sum_small by lia; done|].
  set (s1 := s mod 65536 + s / 65536) in *.
  assert (ones_sum s = ones_sum s1) as ->.
  { rewrite Hdm at 1. rewrite Z.mul_comm. apply ones_sum_fold; lia. }
  rewrite fold_step by (unfold in_u; change (2 ^ 32) with 4294967296; lia).
  case_decide; [rewrite ones_sum_small by lia; done|].
  pose proof (Z.div_mod s1 65536 ltac:(lia)) as Hdm1. pose proof (Z.mod_pos_bound s1 65536 ltac:(lia)).
  assert (s1 / 65536 = 1) as Hq by (symmetry; apply (Z.div_unique s1 65536 1 (s1 - 65536)); lia).
  assert (ones_sum s1 = ones_sum (s1 mod 65536 + s1 / 65536)) as ->.
  { rewrite Hdm1 at 1. rewrite Z.mul_comm. apply ones_sum_fold; lia. }
  rewrite Hq in *. rewrite fold_step by (unfold in_u; change (2 ^ 32) with 4294967296; lia).
  rewrite decide_True by lia. rewrite ones_sum_small by lia. done.
Qed.

Lemma ones_sum_range s : 0 <= s -> in_u 16 (ones_sum s).
Proof.
  intros. unfold ones_sum, in_u. destruct (Z.eqb_spec s 0); [lia|].
  pose proof (Z.mod_pos_bound (s - 1) 65535). lia.
Qed.

Lemma finish_ones s : in_u 32 s -> finish s = Done (65535 - ones_sum s).
Proof.
  intros Hs. unfold finish. rewrite fold_sum_ones by done. exec_simpl. unfold lnot_u.
  rewrite wrap_small; [done|]. apply ones_sum_range. unfold in_u in Hs. lia.
Qed.

(** Adding the complement of a sum makes the sum verify. *)
Lemma ones_sum_complement s : 0 <= s -> ones_sum (s + (65535 - ones_sum s)) = 65535.
Proof.
  intros Hs. unfold ones_sum at 2. destruct (Z.eqb_spec s 0) as [->|].
  - done.
  - pose proof (Z.div_mod (s - 1) 65535 ltac:(lia)) as Hdm.
    pose proof (Z.mod_pos_bound (s - 1) 65535 ltac:(lia)).
    set (q := (s - 1) / 65535) in *. set (r := (s - 1) mod 65535) in *.
    assert (0 <= q) by (apply Z.div_pos; lia).
    unfold ones_sum. destruct (Z.eqb_spec (s + (65535 - (r + 1))) 0); [lia|].
    replace (s + (65535 - (r + 1)) - 1) with (65534 + q * 65535) by lia.
    rewrite Z.mod_add by lia. done.
Qed.

(** The checksum of [xs ++ 0 ++ ys], written over the zero word, verifies. *)
Lemma checksum_closes sum pre post c :
  Forall byte pre -> Forall byte post -> Nat.Even (length pre) -> 0 <= sum <= 2 ^ 19 ->
  Z.of_nat (length pre + length post) <= 2 ^ 17 - 64 ->
  finish (add_words sum (pre ++ [0; 0] ++ post)) = Done c ->
  finish (add_words sum (pre ++ be16 c ++ post)) = Done 0 /\ in_u 16 c.
Proof.
  intros Hpre Hpost He Hsum Hlen Hc.
  destruct (words_bound _ Hpre) as [Hw1 Hl1]. destruct (words_bound _ Hpost) as [Hw2 Hl2].
  apply total_bound in Hw1, Hw2. change (2 ^ 17) with 131072 in Hlen. change (2 ^ 19) with 524288 in Hsum.
  assert (Forall byte [0; 0]) by (repeat constructor; unfold in_u; lia).
  set (s := sum + (total (words pre) + total (words post))).
  assert (0 <= s <= 2 ^ 32 - 2 ^ 17) as Hs by (unfold s; change (2 ^ 32 - 2 ^ 17) with 4294836224; lia).
  assert (forall w, 0 <= w < 65536 -> in_u 32 (s + w)) as Hin.
  { intros. unfold in_u. change (2 ^ 32 - 2 ^ 17) with 4294836224 in Hs. lia. }
  assert (sum + total (words (pre ++ [0; 0] ++ post)) = s) as Hz.
  { rewrite total_mid by done. change (of_be16 0 0) with 0. unfold s. lia. }
  rewrite add_words_total, Hz in Hc;
    [|rewrite ?Forall_app; done|lia|rewrite Hz; pose proof (Hin 0); unfold in_u in *; lia].
  pose proof (Hin 0 ltac:(lia)) as H0. rewrite Z.add_0_r in H0.
  rewrite finish_ones in Hc by done. injection Hc as <-.
  pose proof (ones_sum_range s ltac:(lia)) as Hr. assert (in_u 16 (65535 - ones_sum s)) as Hc.
  { unfold in_u in *. lia. }
  set (c := 65535 - ones_sum s) in *. split; [|done].
  assert (sum + total (words (pre ++ be16 c ++ post)) = s + c) as Ht.
  { unfold be16. rewrite total_mid, be16_back by done. unfold s. lia. }
  pose proof (Hin c ltac:(unfold in_u in Hc; lia)) as Hin'.
  rewrite add_words_total; [rewrite Ht| | lia |unfold in_u in Hin'; lia].
  2:{ rewrite !Forall_app. eauto with kernel. }
  rewrite finish_ones by done. unfold c. rewrite ones_sum_complement by lia. done.
Qed.

End ChecksumFacts.

(** ** Headers *)
Module HeaderFacts.
Import Be BeFacts Checksum ChecksumFacts.

Definition six (m : list Z) : Prop := length m = 6%nat.

Ltac open_list H :=
  repeat match type of H with
  | length ?l = S _ => destruct l; cbn in H; [discriminate H|apply Nat.succ_inj in H]
  | length ?l = 0%nat => apply nil_length_inv in H; subst
  end.

Lemma eth_parse_build d s e p : six d -> six s -> in_u 16 e ->
  EthernetFrame.parse (EthernetFrame.build d s e p) = Some (EthernetFrame.mk d s e p).
Proof.
  intros Hd Hs He. unfold six in *. open_list Hd. open_list Hs. cbn -[wrap Z.shiftr of_be16].
  by rewrite be16_back.
Qed.

Record arp_ok (p : ArpPacket.t) : Prop := {
  arp_hw : in_u 16 (ArpPacket.hw_type p);
  arp_proto : in_u 16 (ArpPacket.proto_type p);
  arp_op : in_u 16 (ArpPacket.opcode p);
  arp_sm : six (ArpPacket.sender_mac p);
  arp_si : length (ArpPacket.sender_ip p) = 4%nat;
  arp_tm : six (ArpPacket.target_mac p);
  arp_ti : length (ArpPacket.target_ip p) = 4%nat;
}.

Lemma arp_parse_bytes p rest : arp_ok p -> ArpPacket.parse (ArpPacket.to_bytes p ++ rest) = Some p.
Proof.
  intros [H1 H2 H3 Ha Hb Hc Hd]. destruct p as [hw pt hl pl op sm si tm ti]. cbn in *.
  unfold six in *. open_list Ha. open_list Hb. open_list Hc. open_list Hd.
  cbn -[wrap Z.shiftr of_be16]. by rewrite !be16_back.
Qed.

Record ip_ok (h : Ipv4Header.t) : Prop := {
  ip_total : in_u 16 (Ipv4Header.total_length h);
  ip_id : in_u 16 (Ipv4Header.identification h);
  ip_frag : in_u 16 (Ipv4Header.flags_fragment h);
  ip_check : in_u 16 (Ipv4Header.checksum h);
  ip_src : length (Ipv4Header.src_addr h) = 4%nat;
  ip_dst : length (Ipv4Header.dst_addr h) = 4%nat;
}.

Lemma ip_from_to h rest : ip_ok h -> Ipv4Header.from_bytes (Ipv4Header.to_bytes h ++ rest) = Some h.
Proof.
  intros [H1 H2 H3 H4 Ha Hb]. destruct h as [v t tl id ff ttl p c s d]. cbn in *.
  open_list Ha. open_list Hb. cbn -[wrap Z.shiftr of_be16]. by rewrite !be16_back.
Qed.

Lemma ip_bytes_length h : ip_ok h -> length (Ipv4Header.to_bytes h) = 20%nat.
Proof.
  intros [_ _ _ _ Ha Hb]. unfold Ipv4Header.to_bytes. rewrite !length_app, Ha, Hb. done.
Qed.

Record udp_ok (h : UdpHeader.t) : Prop := {
  udp_src : in_u 16 (UdpHeader.src_port h);
  udp_dst : in_u 16 (UdpHeader.dst_port h);
  udp_length : in_u 16 (UdpHeader.length h);
  udp_check : in_u 16 (UdpHeader.checksum h);
}.

Lemma udp_from_to h rest : udp_ok h -> UdpHeader.from_bytes (UdpHeader.to_bytes h ++ rest) = Some h.
Proof. intros [? ? ? ?]. destruct h. cbn -[wrap Z.shiftr of_be16] in *. by rewrite !be16_back. Qed.

Record tcp_ok (h : TcpHeader.t) : Prop := {
  tcp_src : in_u 16 (TcpHeader.src_port h);
  tcp_dst : in_u 16 (TcpHeader.dst_port h);
  tcp_seq : in_u 32 (TcpHeader.seq_num h);
  tcp_ack : in_u 32 (TcpHeader.ack_num h);
  tcp_flags : in_u 16 (TcpHeader.data_offset_flags h);
  tcp_window : in_u 16 (TcpHeader.window h);
  tcp_check : in_u 16 (TcpHeader.checksum h);
  tcp_urgent : in_u 16 (TcpHeader.urgent_ptr h);
}.

Lemma tcp_from_to h rest : tcp_ok h -> TcpHeader.from_bytes (TcpHeader.to_bytes h ++ rest) = Some h.
Proof.
  intros [? ? ? ? ? ? ? ?]. destruct h. cbn -[wrap Z.shiftr of_be16 of_be32] in *.
  by rewrite !be16_back, !be32_back.
Qed.

(** A new IPv4 header carries the checksum that makes it verify. *)
Lemma ip_new_spec src dst protocol len :
  four src -> four dst -> in_u 8 protocol -> 0 <= len -> 20 + len < 65536 ->
  exists h, Ipv4Header.new src dst protocol len = Done h /\ ip_ok h /\
    Ipv4Header.total_length h = 20 + len /\ Ipv4Header.protocol h = protocol /\
    Ipv4Header.src_addr h = src /\ Ipv4Header.dst_addr h = dst /\
    verify_checksum (Ipv4Header.to_bytes h) = Done true.
Proof.
  intros [Hs Hs'] [Hd Hd'] Hp Hl0 Hl. unfold Ipv4Header.new, Ipv4Header.SIZE.
  rewrite wrap_small by (change (2 ^ 16) with 65536; lia).
  set (pre := [0x45; 0] ++ be16 (20 + len) ++ be16 0 ++ be16 0x4000 ++ [64; protocol]).
  assert (forall c, Ipv4Header.to_bytes (Ipv4Header.mk 0x45 0 (20 + len) 0 0x4000 64 protocol c src dst) =
    pre ++ be16 c ++ src ++ dst) as Hb by done.
  assert (Forall byte pre) by (unfold pre; repeat constructor; try apply byte_wrap; unfold in_u in *; lia).
  unfold Ipv4Header.compute_checksum, Ipv4Header.to_bytes_no_checksum, internet_checksum. rewrite Hb.
  change (<[11%nat := 0]> (<[10%nat := 0]> (pre ++ be16 0 ++ src ++ dst))) with (pre ++ [0; 0] ++ src ++ dst).
  assert (in_u 32 (add_words 0 (pre ++ [0; 0] ++ src ++ dst))) as Hin by (by apply add_words_range).
  pose proof (finish_ones _ Hin) as Hf. pose proof Hf as Hf'.
  apply checksum_closes in Hf as [Hv Hc]; [|done|by apply Forall_app|by exists 5%nat|done|].
  2:{ rewrite length_app, Hs, Hd. cbn. lia. }
  rewrite Hf'. exec_simpl. eexists. split; [reflexivity|]. unfold Ipv4Header.with_checksum. cbn [Ipv4Header.version_ihl
    Ipv4Header.tos Ipv4Header.total_length Ipv4Header.identification Ipv4Header.flags_fragment Ipv4Header.ttl
    Ipv4Header.protocol Ipv4Header.src_addr Ipv4Header.dst_addr].
  split; [|split_all; try done; unfold verify_checksum, internet_checksum; rewrite Hb, Hv; done].
  split; cbn; try done. unfold in_u. change (2 ^ 16) with 65536. lia.
Qed.

End HeaderFacts.

(** ** Packets *)
Module PacketFacts.
Import Be BeFacts Checksum ChecksumFacts HeaderFacts Packets.

(** A socket address with its field widths. *)
Definition sa_ok (a : SocketAddr.t) : Prop := four (SocketAddr.addr a) /\ in_u 16 (SocketAddr.port a).

Lemma pseudo_sum_range src dst protocol length :
  four src -> four dst -> in_u 8 protocol -> in_u 16 length ->
  0 <= pseudo_sum src dst protocol length <= 2 ^ 19.
Proof.
  intros Hs Hd Hp Hl. open_four Hs. open_four Hd.
  repeat match goal with H : Forall _ (_ :: _) |- _ => apply Forall_cons in H as [? H] end.
  unfold pseudo_sum. rewrite !of_be16_add by done. unfold in_u in *.
  change (2 ^ 16) with 65536 in *. change (2 ^ 8) with 256 in *. change (2 ^ 19) with 524288.
  repeat match goal with |- context [u32_add ?a ?b] =>
    lazymatch a with context [u32_add] => fail | _ => rewrite (u32_add_small a b) by (change (2 ^ 32) with 4294967296; lia) end
  end. lia.
Qed.

(** The outcome of a send: an IPv4 packet [pkt] for protocol [protocol], from [src]
    to [dst], whose header [ip] reads back and verifies and whose segment, at offset
    20, verifies with the pseudo-header. *)
Record carries (src dst : SocketAddr.t) (protocol : Z) (pkt : list Z) (ip : Ipv4Header.t) (seg : list Z)
  : Prop := {
  c_pkt : pkt = Ipv4Header.to_bytes ip ++ seg;
  c_ip : forall rest, Ipv4Header.from_bytes (pkt ++ rest) = Some ip;
  c_len : length (Ipv4Header.to_bytes ip) = 20%nat;
  c_src : Ipv4Header.src_addr ip = SocketAddr.addr src;
  c_dst : Ipv4Header.dst_addr ip = SocketAddr.addr dst;
  c_proto : Ipv4Header.protocol ip = protocol;
  c_total : Ipv4Header.total_length ip = Z.of_nat (length pkt);
  c_verify : verify_checksum (take 20 pkt) = Done true;
  c_verify_seg : pseudo_header_checksum (SocketAddr.addr src) (SocketAddr.addr dst) protocol
    (Z.of_nat (length seg)) seg = Done 0;
}.

(** An IPv4 packet around a segment whose checksum word closes the sum. *)
Lemma carries_intro src dst protocol ip pre post c :
  sa_ok src -> sa_ok dst -> in_u 8 protocol -> ip_ok ip ->
  Ipv4Header.total_length ip = 20 + Z.of_nat (length (pre ++ be16 c ++ post)) ->
  Ipv4Header.protocol ip = protocol -> Ipv4Header.src_addr ip = SocketAddr.addr src ->
  Ipv4Header.dst_addr ip = SocketAddr.addr dst ->
  verify_checksum (Ipv4Header.to_bytes ip) = Done true ->
  Forall byte pre -> Forall byte post -> Nat.Even (length pre) ->
  pseudo_header_checksum (SocketAddr.addr src) (SocketAddr.addr dst) protocol
    (Z.of_nat (length (pre ++ be16 c ++ post))) (pre ++ [0; 0] ++ post) = Done c ->
  carries src dst protocol (Ipv4Header.to_bytes ip ++ pre ++ be16 c ++ post) ip (pre ++ be16 c ++ post) /\
  in_u 16 c.
Proof.
  intros [Hs ?] [Hd ?] Hp Hip Ht Hpr Hsa Hda Hv Hpre Hpost He Hc.
  pose proof (ip_bytes_length _ Hip) as Hl. pose proof (ip_total _ Hip) as Htl. rewrite Ht in Htl.
  unfold in_u in Htl. change (2 ^ 16) with 65536 in Htl.
  apply checksum_closes in Hc as [Hc Hr]; try done.
  - split; [|done]. split; try done.
    + intros rest. rewrite <- app_assoc. by apply ip_from_to.
    + rewrite length_app, Hl. lia.
    + by rewrite <- Hl, take_app_length.
  - apply pseudo_sum_range; try done. unfold in_u. change (2 ^ 16) with 65536. lia.
  - rewrite !length_app in Htl. cbn in Htl. change (2 ^ 17) with 131072. lia.
Qed.

Lemma pseudo_done src dst protocol length payload : exists c,
  pseudo_header_checksum src dst protocol length payload = Done c.
Proof.
  eexists. unfold pseudo_header_checksum. apply finish_ones, add_words_range.
  unfold pseudo_sum. repeat case_match; try done; apply u32_of_wrap.
Qed.

Lemma build_udp_spec src dst data cap :
  sa_ok src -> sa_ok dst -> Forall byte data ->
  28 + Z.of_nat (length data) <= cap -> 28 + Z.of_nat (length data) < 65536 ->
  exists pkt ip udp, build_udp_packet src dst data cap = Done (Some pkt) /\
    carries src dst 17 pkt ip (UdpHeader.to_bytes udp ++ data) /\ udp_ok udp /\
    UdpHeader.src_port udp = SocketAddr.port src /\ UdpHeader.dst_port udp = SocketAddr.port dst /\
    UdpHeader.length udp = 8 + Z.of_nat (length data) /\ length pkt = (28 + length data)%nat.
Proof.
  intros Hs Hd Hdata Hcap Hlen. unfold build_udp_packet, UdpHeader.SIZE.
  rewrite (wrap_small 16 (Z.of_nat _)) by (change (2 ^ 16) with 65536; lia).
  rewrite (wrap_small 16 (8 + _)) by (change (2 ^ 16) with 65536; lia).
  unfold Ipv4Header.SIZE. rewrite (proj2 (Z.ltb_ge _ _)) by lia.
  destruct (ip_new_spec (SocketAddr.addr src) (SocketAddr.addr dst) 17 (8 + Z.of_nat (length data)))
    as (ip & -> & Hip & Ht & Hpr & Hsa & Hda & Hv); [apply Hs|apply Hd|done|lia..|].
  exec_simpl. rewrite decide_True by done. unfold UdpHeader.new, UdpHeader.SIZE.
  rewrite (wrap_small 16 (8 + _)) by (change (2 ^ 16) with 65536; lia).
  set (pre := be16 (SocketAddr.port src) ++ be16 (SocketAddr.port dst) ++ be16 (8 + Z.of_nat (length data))).
  assert (forall c, UdpHeader.to_bytes (UdpHeader.mk (SocketAddr.port src) (SocketAddr.port dst)
    (8 + Z.of_nat (length data)) c) ++ data = pre ++ be16 c ++ data) as Hb by done.
  rewrite Hb. change (be16 0) with [0; 0].
  match goal with |- context [pseudo_header_checksum ?a ?b ?p ?l ?d] =>
    destruct (pseudo_done a b p l d) as [c Hc] end.
  rewrite Hc. exec_simpl. cbn [UdpHeader.src_port UdpHeader.dst_port UdpHeader.length].
  assert (Z.of_nat (length (pre ++ be16 c ++ data)) = 8 + Z.of_nat (length data)) as Hn
    by (rewrite !length_app; cbn; lia).
  eexists _, ip, (UdpHeader.mk _ _ _ c). split; [reflexivity|]. rewrite Hb.
  destruct (carries_intro src dst 17 ip pre data c) as [Hcar Hc16]; try done.
  - rewrite Ht, Hn. lia.
  - unfold pre. rewrite !Forall_app. auto with kernel.
  - by exists 3%nat.
  - by rewrite Hn.
  - split; [exact Hcar|]. split_all; try done.
    + split; cbn; try done; [apply Hs|apply Hd|]. unfold in_u. change (2 ^ 16) with 65536. lia.
    + rewrite length_app, ip_bytes_length by done. lia.
Qed.

Lemma offset_flags flags : 0 <= flags < 64 ->
  Z.lor (wrap 16 (Z.shiftl 5 12)) flags = 0x5000 + flags.
Proof.
  intros. change (wrap 16 (Z.shiftl 5 12)) with (Z.shiftl 0x140 6).
  rewrite lor_shiftl_add by lia. lia.
Qed.

Lemma flags_offset h flags : 0 <= flags < 64 ->
  TcpHeader.data_offset_flags h = 0x5000 + flags -> TcpHeader.flags h = flags.
Proof.
  intros Hf Hd. unfold TcpHeader.flags. rewrite Hd. change 0x3F with (2 ^ 6 - 1). rewrite land_ones_mod by lia.
  replace (0x5000 + flags) with (flags + 320 * 2 ^ 6) by lia. rewrite Z.mod_add by lia.
  rewrite Z.mod_small by lia. apply wrap_small. lia.
Qed.

Lemma build_tcp_spec src dst seq ack flags window data cap :
  sa_ok src -> sa_ok dst -> in_u 32 seq -> in_u 32 ack -> 0 <= flags < 64 -> in_u 16 window ->
  Forall byte data -> 40 + Z.of_nat (length data) <= cap -> 40 + Z.of_nat (length data) < 65536 ->
  exists pkt ip tcp, build_tcp_packet src dst seq ack flags window data cap = Done (Some pkt) /\
    carries src dst 6 pkt ip (TcpHeader.to_bytes tcp ++ data) /\ tcp_ok tcp /\
    TcpHeader.src_port tcp = SocketAddr.port src /\ TcpHeader.dst_port tcp = SocketAddr.port dst /\
    TcpHeader.seq_num tcp = seq /\ TcpHeader.ack_num tcp = ack /\ TcpHeader.flags tcp = flags /\
    TcpHeader.window tcp = window /\ length pkt = (40 + length data)%nat.
Proof.
  intros Hs Hd Hseq Hack Hf Hw Hdata Hcap Hlen. unfold build_tcp_packet, TcpHeader.SIZE, Ipv4Header.SIZE.
  rewrite (proj2 (Z.ltb_ge _ _)) by lia.
  rewrite (wrap_small 16 (20 + _)) by (change (2 ^ 16) with 65536; lia).
  destruct (ip_new_spec (SocketAddr.addr src) (SocketAddr.addr dst) 6 (20 + Z.of_nat (length data)))
    as (ip & -> & Hip & Ht & Hpr & Hsa & Hda & Hv); [apply Hs|apply Hd|done|lia..|].
  exec_simpl. unfold TcpHeader.new. rewrite offset_flags by done.
  set (pre := be16 (SocketAddr.port src) ++ be16 (SocketAddr.port dst) ++ be32 seq ++ be32 ack ++
    be16 (0x5000 + flags) ++ be16 window).
  set (hdr := fun c => TcpHeader.mk (SocketAddr.port src) (SocketAddr.port dst) seq ack
    (0x5000 + flags) window c 0).
  assert (forall c, TcpHeader.to_bytes (hdr c) ++ data = pre ++ be16 c ++ be16 0 ++ data) as Hb by done.
  change (TcpHeader.mk _ _ _ _ _ _ 0 0) with (hdr 0). rewrite Hb. change (be16 0) with [0; 0] at 1.
  match goal with |- context [pseudo_header_checksum ?a ?b ?p ?l ?d] =>
    destruct (pseudo_done a b p l d) as [c Hc] end.
  rewrite Hc. exec_simpl.
  assert (Z.of_nat (length (pre ++ be16 c ++ be16 0 ++ data)) = 20 + Z.of_nat (length data)) as Hn
    by (rewrite !length_app; cbn; lia).
  eexists _, ip, (hdr c). split; [reflexivity|]. change (TcpHeader.with_checksum _ c) with (hdr c). rewrite Hb.
  destruct (carries_intro src dst 6 ip pre (be16 0 ++ data) c) as [Hcar Hc16]; try done.
  - rewrite Ht, Hn. lia.
  - unfold pre. rewrite !Forall_app. auto 10 with kernel.
  - rewrite Forall_app. auto with kernel.
  - by exists 8%nat.
  - by rewrite Hn.
  - split; [exact Hcar|]. split_all; try done.
    + split; cbn; try done; [apply Hs|apply Hd|]. unfold in_u. change (2 ^ 16) with 65536. lia.
    + by apply flags_offset.
    + rewrite length_app, ip_bytes_length by done. lia.
Qed.

End PacketFacts.
