(* ===== verification/Sockets.v ===== *)
(** * Socket state (src/kernel/src/network/)

    The byte ring of a socket (buffer.rs), the loopback packet queue
    (loopback.rs), the retransmission queue with its RTT estimator
    (tcp_timer.rs), and the socket table (socket.rs). *)

From S2P Require Import Prelude NetWire.

(** ** Socket buffers (buffer.rs) *)
Module RingBuffer.

Definition RING_BUF_SIZE : Z := 4096.

Record t := mk {
  data : list Z;
  read_pos : Z;
  write_pos : Z;
  len : Z;
}.

Definition new : t := mk (replicate (Z.to_nat RING_BUF_SIZE) 0) 0 0 0.

Definition is_empty (b : t) : bool := len b =? 0.
Definition is_full (b : t) : bool := len b =? RING_BUF_SIZE.
Definition available (b : t) : Z := RING_BUF_SIZE - len b.

(** The body of [write]'s loop, for each of the bytes that fit. *)
Fixpoint write_bytes (data : list Z) (cells : list Z) (pos : Z) : exec (list Z * Z) :=
  match data with
  | [] => Done (cells, pos)
  | x :: data' =>
      cells ← arr_set cells pos x;
      write_bytes data' cells ((pos + 1) mod RING_BUF_SIZE)
  end.

Definition write (b : t) (bytes : list Z) : exec (t * Z) :=
  let to_write := Z.min (Z.of_nat (length bytes)) (available b) in
  '(cells, pos) ← write_bytes (take (Z.to_nat to_write) bytes) (data b) (write_pos b);
  Done (mk cells (read_pos b) pos (len b + to_write), to_write).

Fixpoint read_bytes (n : nat) (cells : list Z) (pos : Z) : exec (list Z * Z) :=
  match n with
  | O => Done ([], pos)
  | S n' =>
      x ← arr_get cells pos;
      '(xs, pos) ← read_bytes n' cells ((pos + 1) mod RING_BUF_SIZE);
      Done (x :: xs, pos)
  end.

(** [read] into a buffer of [cap] bytes: the bytes stored in it, whose number is
    the value returned. *)
Definition read (b : t) (cap : Z) : exec (t * list Z) :=
  let to_read := Z.min cap (len b) in
  '(xs, pos) ← read_bytes (Z.to_nat to_read) (data b) (read_pos b);
  Done (mk (data b) pos (write_pos b) (len b - to_read), xs).

Definition peek (b : t) (cap : Z) : exec (list Z) :=
  '(xs, _) ← read_bytes (Z.to_nat (Z.min cap (len b))) (data b) (read_pos b);
  Done xs.

Definition discard (b : t) (n : Z) : t :=
  let to_discard := Z.min n (len b) in
  mk (data b) ((read_pos b + to_discard) mod RING_BUF_SIZE) (write_pos b) (len b - to_discard).

Definition clear (b : t) : t := mk (data b) 0 0 0.

End RingBuffer.

(** ** The loopback interface (loopback.rs) *)
Module Loopback.

Definition LOOPBACK_MTU : Z := 1500.
Definition LOOPBACK_QUEUE_SIZE : Z := 64.

Record LoopbackPacket := mkPacket {
  data : list Z;
  len : Z;
}.

Definition empty_packet : LoopbackPacket := mkPacket (replicate (Z.to_nat LOOPBACK_MTU) 0) 0.

Record t := mk {
  packets : list LoopbackPacket;
  head : Z;
  tail : Z;
  count : Z;
}.

Definition new : t := mk (replicate (Z.to_nat LOOPBACK_QUEUE_SIZE) empty_packet) 0 0 0.

Definition enqueue (q : t) (bytes : list Z) : exec (t * bool) :=
  if (LOOPBACK_QUEUE_SIZE <=? count q) || (LOOPBACK_MTU <? Z.of_nat (length bytes)) then Done (q, false)
  else
    slot ← arr_get (packets q) (tail q);
    d ← slice_set (data slot) 0 (Z.of_nat (length bytes)) bytes;
    ps ← arr_set (packets q) (tail q) (mkPacket d (Z.of_nat (length bytes)));
    Done (mk ps (head q) ((tail q + 1) mod LOOPBACK_QUEUE_SIZE) (count q + 1), true).

(** The buffer returned is a zeroed one with the packet at its start. *)
Definition dequeue (q : t) : exec (t * option (list Z * Z)) :=
  if count q =? 0 then Done (q, None)
  else
    slot ← arr_get (packets q) (head q);
    bytes ← slice_get (data slot) 0 (len slot);
    buf ← slice_set (replicate (Z.to_nat LOOPBACK_MTU) 0) 0 (len slot) bytes;
    Done (mk (packets q) ((head q + 1) mod LOOPBACK_QUEUE_SIZE) (tail q) (count q - 1),
          Some (buf, len slot)).

Definition queued (q : t) : Z := count q.
Definition is_empty (q : t) : bool := count q =? 0.
Definition is_full (q : t) : bool := LOOPBACK_QUEUE_SIZE <=? count q.

End Loopback.

(** ** Retransmission (tcp_timer.rs) *)
Module RetransmitQueue.

Definition RTO_MIN_MS : Z := 200.
Definition RTO_MAX_MS : Z := 60000.
Definition MAX_RETRIES : Z := 5.

Record RetransmitEntry := mkEntry {
  seq : Z;
  data : list Z;
  timestamp : Z;
  retries : Z;
}.

Record t := mk {
  entries : list RetransmitEntry;
  srtt_x8 : Z;
  rttvar_x4 : Z;
  rto : Z;
}.

Definition new : t := mk [] (1000 * 8) (500 * 4) 1000.

Definition enqueue (q : t) (seq : Z) (packet : list Z) (now : Z) : t :=
  mk (entries q ++ [mkEntry seq packet now 0]) (srtt_x8 q) (rttvar_x4 q) (rto q).

Definition wrapping_lt (a b : Z) : bool :=
  let diff := wrap 32 (b - a) in
  (0 <? diff) && (diff <? 0x80000000).

Definition clamp (x lo hi : Z) : Z := Z.max lo (Z.min x hi).

Definition update_rto (q : t) (rtt_ms : Z) : t :=
  let r_x8 := wrap 32 (rtt_ms * 8) in
  let srtt := srtt_x8 q / 8 in
  let diff := if rtt_ms <? srtt then srtt - rtt_ms else rtt_ms - srtt in
  let rttvar_x4 := u32_add (wrap 32 (rttvar_x4 q * 3)) (wrap 32 (diff * 4)) / 4 in
  let srtt_x8 := u32_add (wrap 32 (srtt_x8 q * 7)) r_x8 / 8 in
  let new_rto := u32_add (srtt_x8 / 8) rttvar_x4 in
  mk (entries q) srtt_x8 rttvar_x4 (clamp new_rto RTO_MIN_MS RTO_MAX_MS).

(** The RTT sample [ack_received]'s closure leaves: that of the last segment
    acknowledged that was sent once. *)
Definition rtt_sample (es : list RetransmitEntry) (ack_num now : Z) : option Z :=
  foldl (fun acc e =>
    if wrapping_lt (seq e) ack_num && (retries e =? 0)
    then Some (wrap 32 (sat_sub now (timestamp e))) else acc) None es.

Definition ack_received (q : t) (ack_num now : Z) : t :=
  let sample := rtt_sample (entries q) ack_num now in
  let q := mk (retain (fun e => negb (wrapping_lt (seq e) ack_num)) (entries q))
             (srtt_x8 q) (rttvar_x4 q) (rto q) in
  match sample with Some rtt => update_rto q rtt | None => q end.

(** [self.rto.saturating_mul(1 << retries.min(5)).min(RTO_MAX_MS)]. *)
Definition effective_rto (rto retries : Z) : Z :=
  Z.min (Z.min (2 ^ 32 - 1) (rto * Z.shiftl 1 (Z.min retries 5))) RTO_MAX_MS.

(** One entry of [check_timeouts]'s loop: its new state, and whether it is resent. *)
Definition check_entry (rto now : Z) (e : RetransmitEntry) : RetransmitEntry * bool :=
  let elapsed := wrap 32 (sat_sub now (timestamp e)) in
  if (effective_rto rto (retries e) <=? elapsed) && (retries e <? MAX_RETRIES)
  then (mkEntry (seq e) (data e) now (retries e + 1), true)
  else (e, false).

Definition check_timeouts (q : t) (now : Z) : t * list (list Z) :=
  let checked := check_entry (rto q) now <$> entries q in
  (mk (fst <$> checked) (srtt_x8 q) (rttvar_x4 q) (rto q),
   omap (fun c => if snd c : bool then Some (data (fst c)) else None) checked).

Definition has_max_retries (q : t) : bool := existsb (fun e => MAX_RETRIES <=? retries e) (entries q).

Definition clear (q : t) : t := mk [] (srtt_x8 q) (rttvar_x4 q) (rto q).

Definition srtt_ms (q : t) : Z := srtt_x8 q / 8.
Definition rttvar_ms (q : t) : Z := rttvar_x4 q / 4.
Definition pending_count (q : t) : Z := Z.of_nat (length (entries q)).

Definition rto_from_rtt (rtt_ms : Z) : Z :=
  clamp (sat_add32 rtt_ms (wrap 32 (rtt_ms * 2))) RTO_MIN_MS RTO_MAX_MS.

End RetransmitQueue.

(** ** Sockets (socket.rs) *)
Module SocketId.

Definition INVALID : Z := 0xFFFFFFFF.
Definition slot (id : Z) : Z := wrap 8 (Z.land id 0xFF).
Definition generation (id : Z) : Z := wrap 16 (Z.land (Z.shiftr id 8) 0xFFFF).
Definition pack (slot gen : Z) : Z := Z.lor slot (Z.shiftl gen 8).

End SocketId.

Inductive SocketState :=
| Closed | Bound | Listen | SynSent | SynReceived | Established
| FinWait1 | FinWait2 | CloseWait | LastAck | TimeWait | Closing.

Inductive SocketError :=
| NotFound | InvalidState | AddressInUse | ConnectionRefused | NotConnected
| WouldBlock | BufferFull | TooManySockets | InvalidArgument | NotBound.

#[export] Instance socket_state_eq : EqDecision SocketState.
Proof. solve_decision. Defined.
#[export] Instance socket_error_eq : EqDecision SocketError.
Proof. solve_decision. Defined.

Module Socket.

Definition MAX_BACKLOG : Z := 8.

Record t := mk {
  active : bool;
  generation : Z;
  sock_type : SocketType;
  protocol : Protocol;
  local_addr : SocketAddr.t;
  remote_addr : SocketAddr.t;
  state : SocketState;
  owner : Z;
  rx : RingBuffer.t;
  tx : RingBuffer.t;
  send_seq : Z;
  send_ack : Z;
  recv_seq : Z;
  recv_window : Z;
  send_window : Z;
  retransmit : option RetransmitQueue.t;
  backlog : list Z;
  backlog_count : Z;
}.

Definition empty : t :=
  mk false 0 Stream Tcp SocketAddr.UNSPECIFIED SocketAddr.UNSPECIFIED Closed 0
    RingBuffer.new RingBuffer.new 0 0 0 4096 4096 None
    (replicate (Z.to_nat MAX_BACKLOG) SocketId.INVALID) 0.

Definition eta (s : t) : t :=
  mk (active s) (generation s) (sock_type s) (protocol s) (local_addr s) (remote_addr s) (state s) (owner s)
    (rx s) (tx s) (send_seq s) (send_ack s) (recv_seq s) (recv_window s) (send_window s) (retransmit s)
    (backlog s) (backlog_count s).

Definition set_active (v : bool) (s : t) : t := ltac:(set_field eta active v s).
Definition set_generation (v : Z) (s : t) : t := ltac:(set_field eta generation v s).
Definition set_sock_type (v : SocketType) (s : t) : t := ltac:(set_field eta sock_type v s).
Definition set_protocol (v : Protocol) (s : t) : t := ltac:(set_field eta protocol v s).
Definition set_local_addr (v : SocketAddr.t) (s : t) : t := ltac:(set_field eta local_addr v s).
Definition set_remote_addr (v : SocketAddr.t) (s : t) : t := ltac:(set_field eta remote_addr v s).
Definition set_state (v : SocketState) (s : t) : t := ltac:(set_field eta state v s).
Definition set_owner (v : Z) (s : t) : t := ltac:(set_field eta owner v s).
Definition set_rx (v : RingBuffer.t) (s : t) : t := ltac:(set_field eta rx v s).
Definition set_send_seq (v : Z) (s : t) : t := ltac:(set_field eta send_seq v s).
Definition set_send_ack (v : Z) (s : t) : t := ltac:(set_field eta send_ack v s).
Definition set_recv_seq (v : Z) (s : t) : t := ltac:(set_field eta recv_seq v s).
Definition set_send_window (v : Z) (s : t) : t := ltac:(set_field eta send_window v s).
Definition set_retransmit (v : option RetransmitQueue.t) (s : t) : t := ltac:(set_field eta retransmit v s).
Definition set_backlog (v : list Z) (s : t) : t := ltac:(set_field eta backlog v s).
Definition set_backlog_count (v : Z) (s : t) : t := ltac:(set_field eta backlog_count v s).

Definition reset (s : t) : t := set_generation (generation s) empty.

End Socket.

(** ** The socket table *)
Module SocketTable.
Import Socket.

Definition MAX_SOCKETS : Z := 256.

(** [sockets: [Socket; MAX_SOCKETS]]. *)
Notation t := (list Socket.t) (only parsing).

Definition new : t := replicate (Z.to_nat MAX_SOCKETS) Socket.empty.

(** The scans [for slot in 0..MAX_SOCKETS]: the first socket that satisfies [p]. *)
Definition first (p : Socket.t -> bool) (tb : t) : option (nat * Socket.t) :=
  list_find (fun s => p s = true) tb.

Definition alloc (sock_type : SocketType) (protocol : Protocol) (owner : Z) (tb : t)
  : t * result Z SocketError :=
  match first (fun s => negb (active s)) tb with
  | Some (slot, s) =>
      let gen := wrap 16 (generation s + 1) in
      let s := set_generation gen (set_active true Socket.empty) in
      let s := set_owner owner (set_protocol protocol (set_sock_type sock_type s)) in
      let s := if bool_decide (protocol = Tcp) then set_retransmit (Some RetransmitQueue.new) s else s in
      (<[slot := s]> tb, Ok (SocketId.pack (wrap 8 (Z.of_nat slot)) gen))
  | None => (tb, Err TooManySockets)
  end.

(** [get] and [get_mut]; a slot number is a byte, so it is below [MAX_SOCKETS]. *)
Definition get (tb : t) (id : Z) : option Socket.t :=
  match tb !! Z.to_nat (SocketId.slot id) with
  | Some s => if active s && (generation s =? SocketId.generation id) then Some s else None
  | None => None
  end.

(** Assignment through the reference [get_mut] returned. *)
Definition put (tb : t) (id : Z) (s : Socket.t) : t := <[Z.to_nat (SocketId.slot id) := s]> tb.

Definition release (id : Z) (tb : t) : t * result unit SocketError :=
  match get tb id with
  | Some s => (put tb id (set_active false s), Ok tt)
  | None => (tb, Err NotFound)
  end.

Definition id_of (hit : nat * Socket.t) : Z := SocketId.pack (wrap 8 (Z.of_nat hit.1)) (generation hit.2).

(** The exact or wildcard match of a socket's local address. *)
Definition local_match (s : Socket.t) (addr : SocketAddr.t) : bool :=
  bool_decide (local_addr s = addr) ||
  (Ipv4Addr.is_unspecified (SocketAddr.addr (local_addr s)) &&
   (SocketAddr.port (local_addr s) =? SocketAddr.port addr)).

Definition find_by_local (tb : t) (addr : SocketAddr.t) (proto : Protocol) : option Z :=
  id_of <$> first (fun s => active s && bool_decide (protocol s = proto) && local_match s addr) tb.

Definition find_tcp_connection (tb : t) (local remote : SocketAddr.t) : option Z :=
  id_of <$> first (fun s => active s && bool_decide (protocol s = Tcp) && local_match s local &&
    bool_decide (remote_addr s = remote)) tb.

Definition find_listener (tb : t) (port : Z) : option Z :=
  id_of <$> first (fun s => active s && bool_decide (protocol s = Tcp) && bool_decide (state s = Listen) &&
    (SocketAddr.port (local_addr s) =? port)) tb.

Definition cleanup_by_owner (pid : Z) (tb : t) : t :=
  (fun s => if active s && (owner s =? pid) then set_active false s else s) <$> tb.

Definition port_in_use (tb : t) (port : Z) (proto : Protocol) : bool :=
  existsb (fun s => active s && bool_decide (protocol s = proto) && (SocketAddr.port (local_addr s) =? port)) tb.

Definition count (tb : t) : Z := Z.of_nat (length (List.filter active tb)).

End SocketTable.
