(* ===== verification/SocketSpec.v ===== *)
(** * What the socket buffers, the loopback queue and the socket table promise

    The byte ring of a socket is a bounded FIFO of bytes, the loopback interface
    a bounded FIFO of packets, and the retransmission queue keeps its timeout
    within its limits. *)

From S2P Require Import Prelude Wire NetWire Ring Sockets.

(** ** Socket buffers *)
Module RingBufferSpec.
Import RingBuffer.

(** [b] holds the bytes [xs], oldest first. *)
Record holds (b : t) (xs : list Z) : Prop := {
  h_ring : Ring.holds RING_BUF_SIZE (Some <$> data b) (read_pos b) xs;
  h_len : len b = Z.of_nat (length xs);
  h_pos : write_pos b = (read_pos b + len b) mod RING_BUF_SIZE;
}.

Lemma ring_holds_new : holds new [].
Proof. split; [|done|done]. by apply Ring.holds_empty. Qed.

Lemma holds_bound b xs : holds b xs -> Z.of_nat (length xs) <= RING_BUF_SIZE.
Proof. intros [(_ & _ & Hle & _) _ _]. done. Qed.

(** What is stored is determined by the buffer. *)
Lemma holds_inj b xs ys : holds b xs -> holds b ys -> xs = ys.
Proof.
  intros [Hr Hl _] [Hr' Hl' _]. apply Ring.holds_contents in Hr, Hr'. rewrite <- Hr, <- Hr'.
  f_equal. congruence.
Qed.

Lemma write_bytes_spec bytes : forall cells r xs,
  Ring.holds RING_BUF_SIZE (Some <$> cells) r xs ->
  Z.of_nat (length xs + length bytes) <= RING_BUF_SIZE ->
  exists cells', write_bytes bytes cells ((r + Z.of_nat (length xs)) mod RING_BUF_SIZE) =
      Done (cells', (r + Z.of_nat (length xs + length bytes)) mod RING_BUF_SIZE) /\
    Ring.holds RING_BUF_SIZE (Some <$> cells') r (xs ++ bytes).
Proof.
  induction bytes as [|x bytes IH]; intros cells r xs Hr Hle; cbn [write_bytes].
  - exists cells. by rewrite Nat.add_0_r, app_nil_r.
  - pose proof Hr as (Hlen & Hrr & _). rewrite length_fmap in Hlen. cbn in Hle.
    pose proof (Z.mod_pos_bound (r + Z.of_nat (length xs)) RING_BUF_SIZE ltac:(done)).
    unfold arr_set. rewrite decide_True by lia. exec_simpl.
    apply (Ring.holds_push _ _ _ _ x) in Hr; [|lia]. rewrite <- list_fmap_insert in Hr.
    destruct (IH _ _ _ Hr) as (cells' & Hw & Hh); [rewrite length_app; cbn; lia|].
    rewrite Zplus_mod_idemp_l. rewrite length_app in Hw. cbn in Hw.
    replace (r + Z.of_nat (length xs) + 1) with (r + Z.of_nat (length xs + 1)) by lia.
    rewrite Hw. exists cells'. rewrite <- app_assoc in Hh. split; [|done]. do 3 f_equal. cbn. lia.
Qed.

(** [write] appends what fits and drops the rest. *)
Lemma write_spec b xs bytes : holds b xs ->
  let fit := take (Z.to_nat (RING_BUF_SIZE - Z.of_nat (length xs))) bytes in
  exists b', write b bytes = Done (b', Z.of_nat (length fit)) /\ holds b' (xs ++ fit).
Proof.
  intros Hb fit. pose proof (holds_bound _ _ Hb) as Hle. destruct Hb as [Hr Hl Hp].
  unfold write, available. rewrite Hl.
  set (k := Z.min (Z.of_nat (length bytes)) (RING_BUF_SIZE - Z.of_nat (length xs))).
  assert (take (Z.to_nat k) bytes = fit) as ->.
  { unfold k, fit. destruct (Z.min_spec (Z.of_nat (length bytes)) (RING_BUF_SIZE - Z.of_nat (length xs)))
      as [[? ->]|[? ->]]; [|done]. rewrite !take_ge by lia. done. }
  assert (k = Z.of_nat (length fit)) as Hk by (unfold k, fit; rewrite length_take; lia).
  rewrite Hp, Hl. destruct (write_bytes_spec fit _ _ _ Hr) as (cells' & -> & Hh); [lia|]. exec_simpl.
  rewrite Hk. eexists. split; [reflexivity|]. split; cbn; [done|rewrite length_app; lia|].
  f_equal. lia.
Qed.

Lemma read_bytes_spec n : forall cells r xs,
  Ring.holds RING_BUF_SIZE (Some <$> cells) r xs -> (n <= length xs)%nat ->
  read_bytes n cells r = Done (take n xs, (r + Z.of_nat n) mod RING_BUF_SIZE) /\
  Ring.holds RING_BUF_SIZE (Some <$> cells) ((r + Z.of_nat n) mod RING_BUF_SIZE) (drop n xs).
Proof.
  induction n as [|n IH]; intros cells r xs Hr Hle; cbn [read_bytes].
  - pose proof Hr as (_ & Hrr & _). rewrite Z.add_0_r, Z.mod_small by done. done.
  - destruct xs as [|x xs]; [cbn in Hle; lia|]. pose proof Hr as (_ & Hrr & _).
    pose proof (Ring.holds_head _ _ _ _ _ Hr) as Hx. rewrite list_lookup_fmap in Hx.
    destruct (cells !! Z.to_nat r) as [y|] eqn:Hy; [|done]. injection Hx as ->.
    unfold arr_get. rewrite decide_True by lia. rewrite Hy. exec_simpl.
    apply Ring.holds_drop in Hr. destruct (IH _ _ _ Hr) as [-> Hh]; [cbn in Hle; lia|].
    rewrite Zplus_mod_idemp_l in Hh |- *. exec_simpl.
    replace (r + 1 + Z.of_nat n) with (r + Z.of_nat (S n)) in Hh |- * by lia. done.
Qed.

(** [read] takes the oldest bytes, as many as the caller's buffer has room for. *)
Lemma read_spec b xs cap : holds b xs -> 0 <= cap ->
  exists b', read b cap = Done (b', take (Z.to_nat cap) xs) /\ holds b' (drop (Z.to_nat cap) xs).
Proof.
  intros Hb Hcap. pose proof (holds_bound _ _ Hb) as Hle. destruct Hb as [Hr Hl Hp].
  unfold read. rewrite Hl. set (k := Z.min cap (Z.of_nat (length xs))).
  destruct (read_bytes_spec (Z.to_nat k) _ _ _ Hr) as [-> Hh]; [lia|]. exec_simpl.
  assert (take (Z.to_nat k) xs = take (Z.to_nat cap) xs /\ drop (Z.to_nat k) xs = drop (Z.to_nat cap) xs)
    as [Ht Hd].
  { unfold k. destruct (Z.min_spec cap (Z.of_nat (length xs))) as [[? ->]|[? ->]]; [done|].
    rewrite !take_ge, !drop_ge by lia. done. }
  rewrite Ht. eexists. split; [reflexivity|]. rewrite <- Hd. split; cbn; [done|rewrite length_drop; lia|].
  rewrite Z2Nat.id by lia. rewrite Zplus_mod_idemp_l, Hp, Hl. f_equal. lia.
Qed.

Lemma discard_spec b xs n : holds b xs -> 0 <= n -> holds (discard b n) (drop (Z.to_nat n) xs).
Proof.
  intros Hb Hn. destruct (read_spec b xs n Hb Hn) as (b' & Hread & Hb').
  pose proof (holds_bound _ _ Hb). destruct Hb as [Hr Hl Hp].
  destruct (read_bytes_spec (Z.to_nat (Z.min n (len b))) _ _ _ Hr) as [Hrb _]; [lia|].
  unfold read in Hread. rewrite Hrb in Hread. exec_simpl. injection Hread as <- _.
  unfold discard. rewrite Z2Nat.id in Hb' by lia. done.
Qed.

Lemma ring_peek_spec b xs cap : holds b xs -> 0 <= cap -> peek b cap = Done (take (Z.to_nat cap) xs).
Proof.
  intros Hb Hcap. destruct (read_spec b xs cap Hb Hcap) as (b' & Hread & _).
  unfold read in Hread. unfold peek. apply bind_Done in Hread as ([ys p] & -> & E).
  exec_simpl. congruence.
Qed.

Lemma clear_spec b xs : holds b xs -> holds (clear b) [].
Proof.
  intros [(Hlen & _) _ _]. split; cbn; [|done|done]. by apply Ring.holds_empty.
Qed.

Lemma is_empty_spec b xs : holds b xs -> is_empty b = bool_decide (xs = []).
Proof.
  intros [_ Hl _]. unfold is_empty. rewrite Hl. destruct xs; [done|].
  rewrite bool_decide_eq_false_2 by done. apply Z.eqb_neq. cbn. lia.
Qed.

End RingBufferSpec.

(** ** The loopback queue *)
Module LoopbackSpec.
Import Loopback.

Definition bytes_of (p : LoopbackPacket) : list Z := take (Z.to_nat (len p)) (data p).

Definition slot_ok (p : LoopbackPacket) : Prop :=
  Z.of_nat (length (data p)) = LOOPBACK_MTU /\ 0 <= len p <= LOOPBACK_MTU.

(** [q] holds the packets [ps], oldest first. *)
Record holds (q : t) (ps : list (list Z)) : Prop := {
  h_ring : Ring.holds LOOPBACK_QUEUE_SIZE ((fun p => Some (bytes_of p)) <$> packets q) (head q) ps;
  h_count : count q = Z.of_nat (length ps);
  h_tail : tail q = (head q + count q) mod LOOPBACK_QUEUE_SIZE;
  h_slots : Forall slot_ok (packets q);
}.

Lemma loopback_holds_new : holds new [].
Proof. split; [by apply Ring.holds_empty|done|done|]. apply Forall_replicate. done. Qed.

Lemma enqueue_full q ps bytes : holds q ps -> 64 <= Z.of_nat (length ps) -> enqueue q bytes = Done (q, false).
Proof.
  intros [_ Hc _ _] Hf. unfold enqueue, LOOPBACK_QUEUE_SIZE. rewrite Hc.
  by rewrite (proj2 (Z.leb_le _ _)) by lia.
Qed.

Lemma enqueue_long q bytes : LOOPBACK_MTU < Z.of_nat (length bytes) -> enqueue q bytes = Done (q, false).
Proof. intros Hl. unfold enqueue. by rewrite (proj2 (Z.ltb_lt _ _) Hl), orb_true_r. Qed.

Lemma enqueue_spec q ps bytes :
  holds q ps -> Z.of_nat (length ps) < 64 -> Z.of_nat (length bytes) <= LOOPBACK_MTU ->
  exists q', enqueue q bytes = Done (q', true) /\ holds q' (ps ++ [bytes]).
Proof.
  intros [Hr Hc Ht Hs] Hlt Hlen. pose proof Hr as (Hl & Hh & _). rewrite length_fmap in Hl.
  unfold enqueue.
  rewrite (proj2 (Z.leb_gt LOOPBACK_QUEUE_SIZE (count q))) by (rewrite Hc; unfold LOOPBACK_QUEUE_SIZE; lia).
  rewrite (proj2 (Z.ltb_ge _ _)) by lia. cbn [orb].
  pose proof (Z.mod_pos_bound (head q + count q) LOOPBACK_QUEUE_SIZE ltac:(done)) as Hm. rewrite <- Ht in Hm.
  destruct (lookup_lt_is_Some_2 (packets q) (Z.to_nat (tail q))) as [slot Hslot]; [lia|].
  unfold arr_get. rewrite decide_True, Hslot by lia. exec_simpl.
  destruct (proj1 (Forall_lookup _ _) Hs _ _ Hslot) as [Hd _].
  unfold slice_set. rewrite decide_True by lia. exec_simpl. unfold arr_set. rewrite decide_True by lia. exec_simpl.
  eexists. split; [reflexivity|]. rewrite Nat2Z.id.
  change (take (Z.to_nat 0) (data slot)) with (@nil Z). cbn [app].
  set (d := bytes ++ _). assert (Z.of_nat (length d) = LOOPBACK_MTU) as Hd'.
  { unfold d. rewrite !length_app, length_drop. lia. }
  assert (bytes_of (mkPacket d (Z.of_nat (length bytes))) = bytes) as Hb.
  { unfold bytes_of, d. cbn. rewrite Nat2Z.id. by rewrite take_app_length. }
  split; cbn.
  - rewrite list_fmap_insert, Hb. rewrite Ht, Hc. apply Ring.holds_push; [done|].
    unfold LOOPBACK_QUEUE_SIZE. lia.
  - rewrite length_app. cbn. lia.
  - rewrite Ht, Zplus_mod_idemp_l. f_equal. lia.
  - apply Forall_insert; [done|]. split; cbn; lia.
Qed.

Lemma dequeue_empty q : holds q [] -> dequeue q = Done (q, None).
Proof. intros [_ Hc _ _]. unfold dequeue. by rewrite Hc. Qed.

Lemma dequeue_spec q p ps : holds q (p :: ps) ->
  exists q', dequeue q =
      Done (q', Some (p ++ replicate (Z.to_nat LOOPBACK_MTU - length p) 0, Z.of_nat (length p))) /\
    holds q' ps /\ Z.of_nat (length p) <= LOOPBACK_MTU.
Proof.
  intros [Hr Hc Ht Hs]. pose proof Hr as (Hl & Hh & Hle & _). rewrite length_fmap in Hl.
  unfold dequeue. rewrite Hc. cbn [length]. rewrite (proj2 (Z.eqb_neq _ _)) by lia.
  pose proof (Ring.holds_head _ _ _ _ _ Hr) as Hx. rewrite list_lookup_fmap in Hx.
  destruct (packets q !! Z.to_nat (head q)) as [slot|] eqn:Hslot; [|done]. injection Hx as Hx.
  destruct (proj1 (Forall_lookup _ _) Hs _ _ Hslot) as [Hd Hln].
  unfold arr_get. rewrite decide_True, Hslot by lia. exec_simpl.
  unfold slice_get. rewrite decide_True by lia. exec_simpl. rewrite Z.sub_0_r. cbn [drop].
  assert (length p = Z.to_nat (len slot)) as Hp by (rewrite <- Hx; unfold bytes_of; rewrite length_take; lia).
  unfold bytes_of in Hx. change (drop (Z.to_nat 0) (data slot)) with (data slot). rewrite Hx.
  unfold slice_set. rewrite length_replicate, Z2Nat.id by done. rewrite decide_True by lia. exec_simpl.
  eexists. split; [|split].
  - rewrite drop_replicate. change (take (Z.to_nat 0) _) with (@nil Z). cbn [app].
    rewrite Hp, Z2Nat.id by lia. reflexivity.
  - split; cbn; [by eapply Ring.holds_drop|cbn in *; lia| |done].
    rewrite Zplus_mod_idemp_l, Ht, Hc. f_equal. cbn. lia.
  - lia.
Qed.

(** Reading the packet back out of the copy. *)
Lemma slice_packet p k (from : nat) : (from <= length p)%nat ->
  slice_get (p ++ replicate k 0) (Z.of_nat from) (Z.of_nat (length p)) = Done (drop from p).
Proof.
  intros Hf. unfold slice_get. rewrite decide_True by (rewrite length_app; lia).
  f_equal. rewrite Nat2Z.id. rewrite drop_app_le by done.
  replace (Z.to_nat (Z.of_nat (length p) - Z.of_nat from)) with (length (drop from p))
    by (rewrite length_drop; lia).
  by rewrite take_app_length.
Qed.

End LoopbackSpec.

(** ** The socket table *)
Module TableFacts.
Import Socket SocketTable.

Lemma slot_id_pack i g : in_u 8 i -> in_u 16 g -> SocketId.slot (SocketId.pack i g) = i.
Proof. apply HandleIdFacts.slot_pack. Qed.

Lemma generation_id_pack i g : in_u 8 i -> in_u 16 g -> SocketId.generation (SocketId.pack i g) = g.
Proof. apply HandleIdFacts.generation_pack. Qed.

Lemma get_Some tb id s :
  get tb id = Some s <->
  tb !! Z.to_nat (SocketId.slot id) = Some s /\ active s = true /\ generation s = SocketId.generation id.
Proof.
  unfold get. destruct (tb !! _) as [s'|]; [|by split; [|intros [? _]]].
  destruct (active s') eqn:Ha, (Z.eqb_spec (generation s') (SocketId.generation id)); cbn;
    (split; [intros E; simplify_eq; done|intros (E & E1 & E2); simplify_eq; congruence]).
Qed.

Lemma get_put tb id s s' :
  get tb id = Some s -> active s' = true -> generation s' = generation s -> get (put tb id s') id = Some s'.
Proof.
  intros (Hl & Ha & Hg)%get_Some Ha' Hg'. apply get_Some. unfold put.
  rewrite list_lookup_insert_eq by (by eapply lookup_lt_Some). split_all; try done. congruence.
Qed.

Lemma get_put_ne tb id id' s : SocketId.slot id <> SocketId.slot id' -> get (put tb id s) id' = get tb id'.
Proof.
  intros Hne. unfold get, put. rewrite list_lookup_insert_ne; [done|].
  intros E. apply Z2Nat.inj in E; [done|apply wrap_range; lia..].
Qed.

Lemma put_length tb id s : length (put tb id s) = length tb.
Proof. apply length_insert. Qed.

(** The scans: the first slot that satisfies the predicate. *)
Lemma first_Some p tb i s :
  first p tb = Some (i, s) <->
  tb !! i = Some s /\ p s = true /\ forall j s', tb !! j = Some s' -> (j < i)%nat -> p s' = false.
Proof.
  unfold first. rewrite list_find_Some.
  assert (forall x, ~ p x = true <-> p x = false) by (intros; by rewrite not_true_iff_false).
  naive_solver.
Qed.

Lemma first_None p tb : first p tb = None <-> forall i s, tb !! i = Some s -> p s = false.
Proof.
  unfold first. rewrite list_find_None, Forall_lookup.
  assert (forall x, ~ p x = true <-> p x = false) by (intros; by rewrite not_true_iff_false).
  naive_solver.
Qed.

(** The identifier made for slot [i] leads back to it. *)
Lemma get_id_of tb i s :
  tb !! i = Some s -> active s = true -> in_u 16 (generation s) -> (i < 256)%nat ->
  get tb (id_of (i, s)) = Some s /\ Z.to_nat (SocketId.slot (id_of (i, s))) = i /\
  SocketId.generation (id_of (i, s)) = generation s.
Proof.
  intros Hi Ha Hg Hlt. unfold id_of. cbn [fst snd]. rewrite (wrap_small 8) by lia.
  assert (in_u 8 (Z.of_nat i)) by (unfold in_u; lia).
  rewrite get_Some, slot_id_pack, generation_id_pack by done. rewrite Nat2Z.id. done.
Qed.

End TableFacts.

(** ** Retransmission *)
Module RetransmitFacts.
Import RetransmitQueue.

(** Without segments in flight an acknowledgement changes nothing. *)
Lemma ack_received_empty q ack now : entries q = [] -> ack_received q ack now = q.
Proof. destruct q. cbn. by intros ->. Qed.

Lemma clear_empty q : entries q = [] -> clear q = q.
Proof. destruct q. cbn. by intros ->. Qed.

Lemma update_rto_range q rtt : RTO_MIN_MS <= rto (update_rto q rtt) <= RTO_MAX_MS.
Proof. cbn. unfold clamp, RTO_MIN_MS, RTO_MAX_MS. lia. Qed.

End RetransmitFacts.
