(* ===== verification/NetStack.v ===== *)
(** * The network stack (src/kernel/src/network/)

    Dispatch between the loopback queue and the NIC (nic_dispatch.rs), the ARP
    table (arp.rs), the receive paths of UDP and TCP (udp.rs, tcp.rs), the
    retransmission timer (tcp_timer.rs) and the socket operations (ops.rs), as
    functions on the globals of the subsystem.

    The device driver ([NicDriver], a trait object) and the clock
    ([x86::idt::tick_count], advanced by interrupts) are parameters. *)

From Stdlib Require Strings.Byte.
From S2P Require Import Prelude NetWire Sockets.

(** The trait [NicDriver] (nic_trait.rs), as far as the stack calls it.
    [poll_rx] returns the [u8]s the driver's pointer and length designate. *)
Class NicDriver (D : Type) := {
  mac_address : D -> list Z;
  send_packet : D -> list Z -> D * bool;
  poll_rx : D -> D * option (list Byte.byte);
  recycle_rx : D -> D;
}.

(** [tick_count()]: a read of the interrupt-driven millisecond counter. *)
Class Timer (T : Type) := tick_count : T -> T * Z.

Module DnsResponseBuf.

Record t := mk {
  data : list Z;
  len : Z;
  ready : bool;
}.

Definition new : t := mk (replicate 512 0) 0 false.
Definition clear (b : t) : t := mk (data b) 0 false.

End DnsResponseBuf.

Module NetStack.
Import Socket SocketTable.

Definition GUEST_IP : list Z := [10; 0; 2; 15].
Definition GATEWAY_IP : list Z := [10; 0; 2; 2].

Section Stack.
Context {D T : Type} `{NicDriver D} `{Timer T}.

(** The globals: SOCKETS, LOOPBACK, ARP_TABLE, ACTIVE_NIC, DNS_RESPONSE,
    ISN_COUNTER, PORT_COUNTER, and the clock. *)
Record Net := mkNet {
  SOCKETS : SocketTable.t;
  LOOPBACK : Loopback.t;
  ARP_TABLE : gmap (list Z) (list Z);
  ACTIVE_NIC : option D;
  DNS_RESPONSE : DnsResponseBuf.t;
  ISN_COUNTER : Z;
  PORT_COUNTER : Z;
  clock : T;
}.

Definition eta (n : Net) : Net :=
  mkNet (SOCKETS n) (LOOPBACK n) (ARP_TABLE n) (ACTIVE_NIC n) (DNS_RESPONSE n) (ISN_COUNTER n)
    (PORT_COUNTER n) (clock n).

Definition set_SOCKETS (v : SocketTable.t) (n : Net) : Net := ltac:(set_field eta SOCKETS v n).
Definition set_LOOPBACK (v : Loopback.t) (n : Net) : Net := ltac:(set_field eta LOOPBACK v n).
Definition set_ARP_TABLE (v : gmap (list Z) (list Z)) (n : Net) : Net := ltac:(set_field eta ARP_TABLE v n).
Definition set_ACTIVE_NIC (v : option D) (n : Net) : Net := ltac:(set_field eta ACTIVE_NIC v n).
Definition set_DNS_RESPONSE (v : DnsResponseBuf.t) (n : Net) : Net := ltac:(set_field eta DNS_RESPONSE v n).
Definition set_ISN_COUNTER (v : Z) (n : Net) : Net := ltac:(set_field eta ISN_COUNTER v n).
Definition set_PORT_COUNTER (v : Z) (n : Net) : Net := ltac:(set_field eta PORT_COUNTER v n).
Definition set_clock (v : T) (n : Net) : Net := ltac:(set_field eta clock v n).

(** The statics' initial values. *)
Definition init (c : T) : Net :=
  mkNet SocketTable.new Loopback.new ∅ None DnsResponseBuf.new 1000 49152 c.

Definition register_nic (nic : D) (n : Net) : Net := set_ACTIVE_NIC (Some nic) n.

Definition read_clock (n : Net) : Net * Z :=
  let '(c, now) := tick_count (clock n) in (set_clock c n, now).

Definition next_isn (n : Net) : Net * Z :=
  (set_ISN_COUNTER (u32_add (ISN_COUNTER n) 1000) n, ISN_COUNTER n).

(** ** ARP (arp.rs) *)
Definition handle_arp_reply (packet : ArpPacket.t) (n : Net) : Net :=
  if ArpPacket.opcode packet =? ArpPacket.ARP_OP_REPLY
  then set_ARP_TABLE (<[ArpPacket.sender_ip packet := ArpPacket.sender_mac packet]> (ARP_TABLE n)) n
  else n.

Definition arp_lookup (ip : list Z) (n : Net) : option (list Z) := ARP_TABLE n !! ip.

Definition arp_request (target_ip : list Z) (n : Net) : Net :=
  match ACTIVE_NIC n with
  | Some nic =>
      let src_mac := mac_address nic in
      let arp := ArpPacket.build_request src_mac [10; 0; 2; 15] target_ip in
      set_ACTIVE_NIC (Some (send_packet nic (ArpPacket.to_ethernet_frame arp src_mac)).1) n
  | None => n
  end.

(** A request is only logged. *)
Definition process_arp_frame (payload : list Z) (n : Net) : Net :=
  match ArpPacket.parse payload with
  | Some arp => if ArpPacket.opcode arp =? ArpPacket.ARP_OP_REPLY then handle_arp_reply arp n else n
  | None => n
  end.

(** ** Transmission (nic_dispatch.rs) *)
Definition is_loopback (dst_ip : list Z) : bool :=
  match dst_ip with a :: _ => a =? 127 | [] => false end.

Definition get_nic_mac (n : Net) : option (list Z) := mac_address <$> ACTIVE_NIC n.

Definition transmit_ip (packet : list Z) (n : Net) : exec Net :=
  match Ipv4Header.from_bytes packet with
  | None => Done n
  | Some ip_hdr =>
      if is_loopback (Ipv4Header.dst_addr ip_hdr) then
        '(lo, _) ← Loopback.enqueue (LOOPBACK n) packet;
        Done (set_LOOPBACK lo n)
      else
        match get_nic_mac n with
        | None => Done n
        | Some src_mac =>
            let dst_mac := match arp_lookup GATEWAY_IP n with
              | Some m => m | None => [0xFF; 0xFF; 0xFF; 0xFF; 0xFF; 0xFF] end in
            let frame := EthernetFrame.build dst_mac src_mac EthernetFrame.ETHERTYPE_IPV4 packet in
            match ACTIVE_NIC n with
            | Some nic => Done (set_ACTIVE_NIC (Some (send_packet nic frame).1) n)
            | None => Done n
            end
        end
  end.

(** Build a packet of at most [LOOPBACK_MTU] bytes and transmit it unless the
    builder returned 0: the sequence every sender of tcp.rs and ops.rs repeats. *)
Definition send_built (pkt : exec (option (list Z))) (n : Net) : exec Net :=
  p ← pkt;
  match p with
  | Some bytes => transmit_ip bytes n
  | None => Done n
  end.

Definition segment (src dst : SocketAddr.t) (seq ack flags : Z) (data : list Z) : exec (option (list Z)) :=
  Packets.build_tcp_packet src dst seq ack flags 4096 data Loopback.LOOPBACK_MTU.

(** ** UDP reception (udp.rs) *)
Definition udp_receive_packet (ip_hdr : Ipv4Header.t) (udp_data : list Z) (tb : SocketTable.t)
  : exec SocketTable.t :=
  match UdpHeader.from_bytes udp_data with
  | None => Done tb
  | Some udp_hdr =>
      let dst_addr := SocketAddr.mk (Ipv4Header.dst_addr ip_hdr) (UdpHeader.dst_port udp_hdr) in
      match find_by_local tb dst_addr Udp with
      | None => Done tb
      | Some sock_id =>
          let payload_len := sat_sub (UdpHeader.length udp_hdr) UdpHeader.SIZE in
          if Z.of_nat (length udp_data) <? UdpHeader.SIZE + payload_len then Done tb
          else
            payload ← slice_get udp_data UdpHeader.SIZE (UdpHeader.SIZE + payload_len);
            match get tb sock_id with
            | None => Done tb
            | Some sock =>
                '(rx, _) ← RingBuffer.write (rx sock) (Be.be16 (UdpHeader.src_port udp_hdr));
                '(rx, _) ← RingBuffer.write rx (Ipv4Header.src_addr ip_hdr);
                '(rx, _) ← RingBuffer.write rx (Be.be16 (wrap 16 (Z.of_nat (length payload))));
                '(rx, _) ← RingBuffer.write rx payload;
                Done (put tb sock_id (set_rx rx sock))
            end
      end
  end.

(** ** TCP reception (tcp.rs) *)

(** [if let Some(ref mut rq) = sock.retransmit { rq.ack_received(ack_num, tick_count()) }]. *)
Definition ack_queue (ack_num : Z) (sock : Socket.t) (n : Net) : Socket.t * Net :=
  match retransmit sock with
  | Some rq =>
      let '(n, now) := read_clock n in
      (set_retransmit (Some (RetransmitQueue.ack_received rq ack_num now)) sock, n)
  | None => (sock, n)
  end.

Definition clear_queue (sock : Socket.t) : Socket.t :=
  match retransmit sock with
  | Some rq => set_retransmit (Some (RetransmitQueue.clear rq)) sock
  | None => sock
  end.

(** The acknowledgement the state machine answers with. *)
Definition send_ack_segment (sock : Socket.t) (n : Net) : exec Net :=
  send_built (segment (local_addr sock) (remote_addr sock) (send_seq sock) (recv_seq sock) TcpHeader.ACK []) n.

Definition handle_syn (listener_id : Z) (tcp_hdr : TcpHeader.t) (src_addr dst_addr : SocketAddr.t) (n : Net)
  : exec Net :=
  match get (SOCKETS n) listener_id with
  | None => Done n
  | Some s =>
      match alloc Stream Tcp (owner s) (SOCKETS n) with
      | (_, Err _) => Done n
      | (tb, Ok conn_id) =>
          let '(n, isn) := next_isn n in
          let tb := match get tb conn_id with
            | Some conn =>
                let conn := set_remote_addr src_addr (set_local_addr dst_addr conn) in
                let conn := set_recv_seq (u32_add (TcpHeader.seq_num tcp_hdr) 1) (set_state SynReceived conn) in
                let conn := set_send_ack (u32_add (TcpHeader.seq_num tcp_hdr) 1) (set_send_seq isn conn) in
                put tb conn_id (set_send_window (TcpHeader.window tcp_hdr) conn)
            | None => tb
            end in
          tb ← match get tb listener_id with
            | Some listener =>
                if backlog_count listener <? MAX_BACKLOG then
                  b ← arr_set (backlog listener) (backlog_count listener) conn_id;
                  Done (put tb listener_id
                          (set_backlog_count (backlog_count listener + 1) (set_backlog b listener)))
                else Done tb
            | None => Done tb
            end;
          send_built (segment dst_addr src_addr isn (u32_add (TcpHeader.seq_num tcp_hdr) 1)
                        (Z.lor TcpHeader.SYN TcpHeader.ACK) []) (set_SOCKETS tb n)
      end
  end.

(** One segment on an existing connection: the socket and the globals after it. *)
Definition tcp_transition (sock : Socket.t) (tcp_hdr : TcpHeader.t) (payload : list Z) (n : Net)
  : exec (Socket.t * Net) :=
  let flags := TcpHeader.flags tcp_hdr in
  let has f := negb (Z.land flags f =? 0) in
  let after_fin := u32_add (TcpHeader.seq_num tcp_hdr) 1 in
  match state sock with
  | SynSent =>
      if has TcpHeader.SYN && has TcpHeader.ACK then
        let sock := set_send_ack after_fin (set_recv_seq after_fin sock) in
        let sock := set_state Established (set_send_window (TcpHeader.window tcp_hdr) sock) in
        let '(sock, n) := ack_queue (TcpHeader.ack_num tcp_hdr) sock n in
        n ← send_ack_segment sock n;
        Done (sock, n)
      else Done (sock, n)
  | SynReceived =>
      if has TcpHeader.ACK then
        let sock := set_state Established (set_send_seq (u32_add (send_seq sock) 1) sock) in
        Done (ack_queue (TcpHeader.ack_num tcp_hdr) sock n)
      else Done (sock, n)
  | Established =>
      '(sock, n) ←
        if has TcpHeader.FIN then
          let sock := set_state CloseWait (set_recv_seq after_fin sock) in
          n ← send_ack_segment sock n;
          Done (sock, n)
        else if has TcpHeader.ACK && bool_decide (payload <> []) then
          '(rx, _) ← RingBuffer.write (rx sock) payload;
          let sock := set_recv_seq (u32_add (TcpHeader.seq_num tcp_hdr) (wrap 32 (Z.of_nat (length payload))))
                        (set_rx rx sock) in
          n ← send_ack_segment sock n;
          Done (sock, n)
        else Done (sock, n);
      if has TcpHeader.ACK && bool_decide (payload = []) && negb (has TcpHeader.FIN) then
        Done (ack_queue (TcpHeader.ack_num tcp_hdr) (set_send_ack (TcpHeader.ack_num tcp_hdr) sock) n)
      else Done (sock, n)
  | FinWait1 =>
      if has TcpHeader.ACK && has TcpHeader.FIN then
        let sock := set_state TimeWait (set_recv_seq after_fin sock) in
        let '(sock, n) := ack_queue (TcpHeader.ack_num tcp_hdr) sock n in
        n ← send_ack_segment sock n;
        Done (sock, n)
      else if has TcpHeader.ACK then
        Done (ack_queue (TcpHeader.ack_num tcp_hdr) (set_state FinWait2 sock) n)
      else if has TcpHeader.FIN then
        let sock := set_state Closing (set_recv_seq after_fin sock) in
        n ← send_ack_segment sock n;
        Done (sock, n)
      else Done (sock, n)
  | FinWait2 =>
      if has TcpHeader.FIN then
        let sock := set_state TimeWait (set_recv_seq after_fin sock) in
        n ← send_ack_segment sock n;
        Done (sock, n)
      else Done (sock, n)
  | CloseWait => Done (sock, n)
  | LastAck =>
      if has TcpHeader.ACK then
        let '(sock, n) := ack_queue (TcpHeader.ack_num tcp_hdr) (set_active false (set_state Closed sock)) n in
        Done (clear_queue sock, n)
      else Done (sock, n)
  | Closing =>
      if has TcpHeader.ACK then
        Done (ack_queue (TcpHeader.ack_num tcp_hdr) (set_state TimeWait sock) n)
      else Done (sock, n)
  | TimeWait => Done (clear_queue (set_active false (set_state Closed sock)), n)
  | Closed | Bound | Listen => Done (sock, n)
  end.

(** The socket is borrowed from the table during the transition; transmission
    does not touch the table. *)
Definition tcp_state_machine (sock_id : Z) (tcp_hdr : TcpHeader.t) (payload : list Z) (n : Net) : exec Net :=
  match get (SOCKETS n) sock_id with
  | None => Done n
  | Some sock =>
      '(sock, n') ← tcp_transition sock tcp_hdr payload n;
      Done (set_SOCKETS (put (SOCKETS n') sock_id sock) n')
  end.

Definition tcp_receive_packet (ip_hdr : Ipv4Header.t) (tcp_data : list Z) (n : Net) : exec Net :=
  match TcpHeader.from_bytes tcp_data with
  | None => Done n
  | Some tcp_hdr =>
      let src_addr := SocketAddr.mk (Ipv4Header.src_addr ip_hdr) (TcpHeader.src_port tcp_hdr) in
      let dst_addr := SocketAddr.mk (Ipv4Header.dst_addr ip_hdr) (TcpHeader.dst_port tcp_hdr) in
      let flags := TcpHeader.flags tcp_hdr in
      let payload := drop (Z.to_nat TcpHeader.SIZE) tcp_data in
      match find_tcp_connection (SOCKETS n) dst_addr src_addr with
      | Some sock_id => tcp_state_machine sock_id tcp_hdr payload n
      | None =>
          if negb (Z.land flags TcpHeader.SYN =? 0) && (Z.land flags TcpHeader.ACK =? 0) then
            match find_listener (SOCKETS n) (TcpHeader.dst_port tcp_hdr) with
            | Some listener_id => handle_syn listener_id tcp_hdr src_addr dst_addr n
            | None => Done n
            end
          else Done n
      end
  end.

(** The protocol dispatch of [deliver_one] and [nic_receive_one]. *)
Definition dispatch (ip_hdr : Ipv4Header.t) (ip_payload : list Z) (n : Net) : exec Net :=
  if Ipv4Header.protocol ip_hdr =? 6 then tcp_receive_packet ip_hdr ip_payload n
  else if Ipv4Header.protocol ip_hdr =? 17 then
    tb ← udp_receive_packet ip_hdr ip_payload (SOCKETS n);
    Done (set_SOCKETS tb n)
  else Done n.

(** ** Reception from the NIC (nic_dispatch.rs) *)

(** A UDP datagram from port 53 is kept for the resolver; [Some n] is the early
    return. *)
Definition capture_dns (ip_hdr : Ipv4Header.t) (ip_payload : list Z) (n : Net) : exec (option Net) :=
  if negb (Ipv4Header.protocol ip_hdr =? 17) then Done None
  else
    match UdpHeader.from_bytes ip_payload with
    | None => Done None
    | Some udp_hdr =>
        if UdpHeader.src_port udp_hdr =? 53 then
          let udp_data_len := sat_sub (UdpHeader.length udp_hdr) UdpHeader.SIZE in
          if UdpHeader.SIZE + udp_data_len <=? Z.of_nat (length ip_payload) then
            dns_data ← slice_get ip_payload UdpHeader.SIZE (UdpHeader.SIZE + udp_data_len);
            let buf := DnsResponseBuf.data (DNS_RESPONSE n) in
            let copy_len := Z.min (Z.of_nat (length dns_data)) (Z.of_nat (length buf)) in
            src ← slice_get dns_data 0 copy_len;
            d ← slice_set buf 0 copy_len src;
            Done (Some (set_DNS_RESPONSE (DnsResponseBuf.mk d copy_len true) n))
          else Done (Some n)
        else Done None
    end.

Definition nic_receive_one (n : Net) : exec (Net * bool) :=
  match ACTIVE_NIC n with
  | None => Done (n, false)
  | Some nic =>
      match poll_rx nic with
      | (nic, None) => Done (set_ACTIVE_NIC (Some nic) n, false)
      | (nic, Some bytes) =>
          let frame := (fun b => Z.of_N (Byte.to_N b)) <$> take 1600 bytes in
          let n := set_ACTIVE_NIC (Some (recycle_rx nic)) n in
          match EthernetFrame.parse frame with
          | None => Done (n, false)
          | Some eth =>
              let payload := EthernetFrame.payload eth in
              if EthernetFrame.ethertype eth =? EthernetFrame.ETHERTYPE_ARP then
                Done (process_arp_frame payload n, true)
              else if EthernetFrame.ethertype eth =? EthernetFrame.ETHERTYPE_IPV4 then
                match Ipv4Header.from_bytes payload with
                | None => Done (n, true)
                | Some ip_hdr =>
                    if Z.of_nat (length payload) <=? Ipv4Header.SIZE then Done (n, true)
                    else
                      let ip_payload := drop (Z.to_nat Ipv4Header.SIZE) payload in
                      captured ← capture_dns ip_hdr ip_payload n;
                      match captured with
                      | Some n => Done (n, true)
                      | None => n ← dispatch ip_hdr ip_payload n; Done (n, true)
                      end
                end
              else Done (n, true)
          end
      end
  end.

(** [arp_resolve]: one lookup, a request, then [k] polls. *)
Fixpoint arp_poll (k : nat) (target_ip : list Z) (n : Net) : exec (Net * option (list Z)) :=
  match k with
  | O => Done (n, None)
  | S k' =>
      '(n, _) ← nic_receive_one n;
      match arp_lookup target_ip n with
      | Some mac => Done (n, Some mac)
      | None => arp_poll k' target_ip n
      end
  end.

Definition arp_resolve (target_ip : list Z) (n : Net) : exec (Net * option (list Z)) :=
  match arp_lookup target_ip n with
  | Some mac => Done (n, Some mac)
  | None => arp_poll (Z.to_nat 50000) target_ip (arp_request target_ip n)
  end.

(** ** Retransmission (tcp_timer.rs) *)

(** One socket of the scan: its new state, the packets to resend, and whether
    it exceeded the retries. *)
Definition check_socket (now : Z) (s : Socket.t) : Socket.t * list (list Z) * bool :=
  if negb (active s) then (s, [], false)
  else
    match retransmit s with
    | Some rq =>
        if bool_decide (RetransmitQueue.entries rq = []) then (s, [], false)
        else
          let '(rq, packets) := RetransmitQueue.check_timeouts rq now in
          (set_retransmit (Some rq) s, packets, RetransmitQueue.has_max_retries rq)
    | None => (s, [], false)
    end.

Definition close_exhausted (c : Socket.t * list (list Z) * bool) : Socket.t :=
  let '(s, _, rst) := c in
  if rst : bool then clear_queue (set_active false (set_state Closed s)) else s.

Fixpoint transmit_all (packets : list (list Z)) (n : Net) : exec Net :=
  match packets with
  | [] => Done n
  | p :: packets' => n ← transmit_ip p n; transmit_all packets' n
  end.

Definition check_all_retransmits (n : Net) : exec Net :=
  let '(n, now) := read_clock n in
  let checked := check_socket now <$> SOCKETS n in
  transmit_all (concat ((fun c => c.1.2) <$> checked)) (set_SOCKETS (close_exhausted <$> checked) n).

(** ** Delivery (ops.rs) *)
Definition deliver_one (n : Net) : exec Net :=
  '(lo, packet) ← Loopback.dequeue (LOOPBACK n);
  let n := set_LOOPBACK lo n in
  match packet with
  | Some (pkt_buf, pkt_len) =>
      bytes ← slice_get pkt_buf 0 pkt_len;
      match Ipv4Header.from_bytes bytes with
      | None => Done n
      | Some ip_hdr =>
          ip_payload ← slice_get pkt_buf Ipv4Header.SIZE pkt_len;
          dispatch ip_hdr ip_payload n
      end
  | None =>
      '(n, _) ← nic_receive_one n;
      check_all_retransmits n
  end.

Fixpoint deliver_times (k : nat) (n : Net) : exec Net :=
  match k with
  | O => Done n
  | S k' => n ← deliver_one n; deliver_times k' n
  end.

Fixpoint deliver_while (k : nat) (n : Net) : exec Net :=
  match k with
  | O => Done n
  | S k' => if Loopback.is_empty (LOOPBACK n) then Done n else n ← deliver_one n; deliver_while k' n
  end.

Definition deliver_pending (n : Net) : exec Net := deliver_while (Z.to_nat Loopback.LOOPBACK_QUEUE_SIZE) n.

(** Deliver up to [k] packets, until the socket is established. *)
Fixpoint await_established (k : nat) (id : Z) (n : Net) : exec (Net * bool) :=
  match k with
  | O => Done (n, false)
  | S k' =>
      n ← deliver_one n;
      match get (SOCKETS n) id with
      | Some sock => if bool_decide (state sock = Established) then Done (n, true)
                     else await_established k' id n
      | None => await_established k' id n
      end
  end.

(** ** Socket operations (ops.rs) *)
Definition socket_create (sock_type : SocketType) (protocol : Protocol) (owner : Z) (n : Net)
  : Net * result Z SocketError :=
  let '(tb, r) := alloc sock_type protocol owner (SOCKETS n) in
  (set_SOCKETS tb n, r).

Definition socket_bind (id : Z) (addr : SocketAddr.t) (n : Net) : Net * result unit SocketError :=
  match get (SOCKETS n) id with
  | None => (n, Err NotFound)
  | Some sock =>
      if negb (SocketAddr.port addr =? 0) && port_in_use (SOCKETS n) (SocketAddr.port addr) (protocol sock) &&
         negb (SocketAddr.port (local_addr sock) =? SocketAddr.port addr)
      then (n, Err AddressInUse)
      else if bool_decide (state sock <> Closed) then (n, Err InvalidState)
      else (set_SOCKETS (put (SOCKETS n) id (set_state Bound (set_local_addr addr sock))) n, Ok tt)
  end.

(** The scan of [allocate_ephemeral_port], [k] candidates of the counter. *)
Fixpoint scan_ports (k : nat) (n : Net) : Net * Z :=
  match k with
  | O => (n, 49152)
  | S k' =>
      let port := PORT_COUNTER n in
      let n := set_PORT_COUNTER (wrap 16 (port + 1)) n in
      let port := if 65535 <=? port then 49152 else port in
      if negb (port_in_use (SOCKETS n) port Tcp) && negb (port_in_use (SOCKETS n) port Udp)
      then (n, port) else scan_ports k' n
  end.

Definition allocate_ephemeral_port (n : Net) : Net * Z := scan_ports 1000 n.

(** The first phase of a TCP connect, up to the SYN: the socket in [SynSent]. *)
Definition start_connect (id : Z) (remote : SocketAddr.t) (sock : Socket.t) (n : Net) : Net * Socket.t :=
  let needs_port := SocketAddr.port (local_addr sock) =? 0 in
  let needs_addr := Ipv4Addr.is_unspecified (SocketAddr.addr (local_addr sock)) in
  let '(n, ephemeral) := if needs_port then allocate_ephemeral_port n else (n, 0) in
  let bind_addr := if is_loopback (SocketAddr.addr remote) then Ipv4Addr.LOOPBACK else GUEST_IP in
  let sock := if needs_port then set_local_addr (SocketAddr.mk bind_addr ephemeral) sock else sock in
  let sock := if needs_addr
    then set_local_addr (SocketAddr.mk bind_addr (SocketAddr.port (local_addr sock))) sock else sock in
  let '(n, isn) := next_isn n in
  let sock := set_state SynSent (set_send_seq isn (set_remote_addr remote sock)) in
  (set_SOCKETS (put (SOCKETS n) id sock) n, sock).

Definition socket_connect (id : Z) (remote : SocketAddr.t) (n : Net) : exec (Net * result unit SocketError) :=
  match get (SOCKETS n) id with
  | None => Done (n, Err NotFound)
  | Some sock =>
      if bool_decide (protocol sock = Udp) then
        let sock := set_remote_addr remote sock in
        let sock := if bool_decide (state sock = Closed) then set_state Bound sock else sock in
        Done (set_SOCKETS (put (SOCKETS n) id sock) n, Ok tt)
      else if bool_decide (state sock <> Closed) && bool_decide (state sock <> Bound) then
        Done (n, Err InvalidState)
      else
        let '(n, sock) := start_connect id remote sock n in
        n ← send_built (segment (local_addr sock) remote (send_seq sock) 0 TcpHeader.SYN []) n;
        let max_iters := if is_loopback (SocketAddr.addr remote) then 10 else 100000 in
        '(n, established) ← await_established (Z.to_nat max_iters) id n;
        Done (n, if established : bool then Ok tt else Err ConnectionRefused)
  end.

Definition socket_listen (id : Z) (n : Net) : Net * result unit SocketError :=
  match get (SOCKETS n) id with
  | None => (n, Err NotFound)
  | Some sock =>
      if bool_decide (protocol sock <> Tcp) then (n, Err InvalidArgument)
      else if bool_decide (state sock <> Bound) then (n, Err NotBound)
      else (set_SOCKETS (put (SOCKETS n) id (set_backlog_count 0 (set_state Listen sock))) n, Ok tt)
  end.

(** [for i in 1..count { backlog[i - 1] = backlog[i] }], from [i] on. *)
Fixpoint shift_backlog (k : nat) (i : Z) (b : list Z) : exec (list Z) :=
  match k with
  | O => Done b
  | S k' => x ← arr_get b i; b ← arr_set b (i - 1) x; shift_backlog k' (i + 1) b
  end.

Definition socket_accept (listener_id : Z) (n : Net) : exec (Net * result Z SocketError) :=
  match get (SOCKETS n) listener_id with
  | None => Done (n, Err NotFound)
  | Some listener =>
      if bool_decide (state listener <> Listen) then Done (n, Err InvalidState)
      else if backlog_count listener =? 0 then Done (n, Err WouldBlock)
      else
        conn_id ← arr_get (backlog listener) 0;
        b ← shift_backlog (Z.to_nat (backlog_count listener - 1)) 1 (backlog listener);
        let listener := set_backlog_count (backlog_count listener - 1) (set_backlog b listener) in
        '(n, _) ← await_established 10 conn_id (set_SOCKETS (put (SOCKETS n) listener_id listener) n);
        Done (n, Ok conn_id)
  end.

(** Transmit what a send built, then deliver one packet; nothing when the
    builder returned 0. *)
Definition send_and_deliver (pkt : exec (option (list Z))) (k : nat) (n : Net) : exec Net :=
  p ← pkt;
  match p with
  | Some bytes => n ← transmit_ip bytes n; deliver_times k n
  | None => Done n
  end.

Definition socket_send (id : Z) (data : list Z) (n : Net) : exec (Net * result Z SocketError) :=
  match get (SOCKETS n) id with
  | None => Done (n, Err NotFound)
  | Some sock =>
      match protocol sock with
      | Udp =>
          if SocketAddr.is_unspecified (remote_addr sock) then Done (n, Err NotConnected)
          else
            n ← send_and_deliver
                  (Packets.build_udp_packet (local_addr sock) (remote_addr sock) data Loopback.LOOPBACK_MTU) 1 n;
            Done (n, Ok (Z.of_nat (length data)))
      | Tcp =>
          if bool_decide (state sock <> Established) then Done (n, Err NotConnected)
          else
            let seq := send_seq sock in
            let sock' := set_send_seq (u32_add seq (wrap 32 (Z.of_nat (length data)))) sock in
            n ← send_and_deliver
                  (segment (local_addr sock) (remote_addr sock) seq (recv_seq sock) TcpHeader.ACK data) 1
                  (set_SOCKETS (put (SOCKETS n) id sock') n);
            Done (n, Ok (Z.of_nat (length data)))
      end
  end.

Definition socket_sendto (id : Z) (data : list Z) (dst : SocketAddr.t) (n : Net)
  : exec (Net * result Z SocketError) :=
  match get (SOCKETS n) id with
  | None => Done (n, Err NotFound)
  | Some sock =>
      if bool_decide (protocol sock <> Udp) then Done (n, Err InvalidArgument)
      else
        n ← send_and_deliver
              (Packets.build_udp_packet (local_addr sock) dst data Loopback.LOOPBACK_MTU) 1 n;
        Done (n, Ok (Z.of_nat (length data)))
  end.

(** [socket_recv] into a buffer of [cap] bytes: the bytes stored in it. *)
Definition socket_recv (id : Z) (cap : Z) (n : Net) : exec (Net * result (list Z) SocketError) :=
  n ← deliver_one n;
  match get (SOCKETS n) id with
  | None => Done (n, Err NotFound)
  | Some sock =>
      if bool_decide (protocol sock = Udp) then
        if RingBuffer.is_empty (rx sock) then Done (n, Err WouldBlock)
        else
          '(rx, hdr) ← RingBuffer.read (rx sock) 8;
          match hdr with
          | [_; _; _; _; _; _; l0; l1] =>
              let data_len := Be.of_be16 l0 l1 in
              let to_read := Z.min data_len cap in
              '(rx, bytes) ← RingBuffer.read rx to_read;
              let rx := if to_read <? data_len then RingBuffer.discard rx (data_len - to_read) else rx in
              Done (set_SOCKETS (put (SOCKETS n) id (set_rx rx sock)) n, Ok bytes)
          | _ => Done (set_SOCKETS (put (SOCKETS n) id (set_rx rx sock)) n, Err WouldBlock)
          end
      else if RingBuffer.is_empty (rx sock) then
        if bool_decide (state sock = CloseWait) || bool_decide (state sock = Closed) ||
           bool_decide (state sock = TimeWait)
        then Done (n, Ok []) else Done (n, Err WouldBlock)
      else
        '(rx, bytes) ← RingBuffer.read (rx sock) cap;
        Done (set_SOCKETS (put (SOCKETS n) id (set_rx rx sock)) n, Ok bytes)
  end.

(** The FIN sent by [socket_shutdown], leaving the socket in [next]. *)
Definition send_fin (id : Z) (sock : Socket.t) (next : SocketState) (n : Net) : exec Net :=
  let seq := send_seq sock in
  let sock' := set_state next (set_send_seq (u32_add seq 1) sock) in
  send_and_deliver
    (segment (local_addr sock) (remote_addr sock) seq (recv_seq sock) (Z.lor TcpHeader.FIN TcpHeader.ACK) [])
    10 (set_SOCKETS (put (SOCKETS n) id sock') n).

Definition socket_shutdown (id : Z) (n : Net) : exec (Net * result unit SocketError) :=
  match get (SOCKETS n) id with
  | None => Done (n, Err NotFound)
  | Some sock =>
      if bool_decide (protocol sock = Udp) then
        Done (set_SOCKETS (put (SOCKETS n) id (set_state Closed sock)) n, Ok tt)
      else
        match state sock with
        | Established => n ← send_fin id sock FinWait1 n; Done (n, Ok tt)
        | CloseWait => n ← send_fin id sock LastAck n; Done (n, Ok tt)
        | _ => Done (n, Err InvalidState)
        end
  end.

Definition socket_close (id : Z) (n : Net) : exec (Net * result unit SocketError) :=
  n ← match get (SOCKETS n) id with
    | Some sock =>
        if bool_decide (protocol sock = Tcp) &&
           (bool_decide (state sock = Established) || bool_decide (state sock = CloseWait))
        then '(n, _) ← socket_shutdown id n; Done n
        else Done n
    | None => Done n
    end;
  let '(tb, r) := release id (SOCKETS n) in
  Done (set_SOCKETS tb n, r).

Definition cleanup_process_sockets (pid : Z) (n : Net) : Net :=
  set_SOCKETS (cleanup_by_owner pid (SOCKETS n)) n.

(** ** poll() *)
Definition POLLIN : Z := 1.
Definition POLLOUT : Z := 4.
Definition POLLERR : Z := 8.
Definition POLLHUP : Z := 16.

Record PollFd := mkPollFd {
  fd : Z;
  events : Z;
  revents : Z;
}.

(** The events of one descriptor. *)
Definition poll_fd (tb : SocketTable.t) (p : PollFd) : PollFd :=
  match get tb (fd p) with
  | Some sock =>
      let st x := bool_decide (state sock = x) in
      let r := 0 in
      let r := if negb (Z.land (events p) POLLIN =? 0) &&
                  (negb (RingBuffer.is_empty (rx sock)) || st CloseWait || st Closed || st TimeWait)
               then Z.lor r POLLIN else r in
      let r := if negb (Z.land (events p) POLLOUT =? 0) && st Established then Z.lor r POLLOUT else r in
      let r := if active sock && st Closed then Z.lor r POLLERR else r in
      let r := if st Closed || st CloseWait then Z.lor r POLLHUP else r in
      mkPollFd (fd p) (events p) r
  | None => mkPollFd (fd p) (events p) POLLERR
  end.

Definition ready_count (fds : list PollFd) : Z :=
  Z.of_nat (length (List.filter (fun p => negb (revents p =? 0)) fds)).

(** [as i64] of an unsigned value. *)
Definition as_i64 (z : Z) : Z := if z <? 2 ^ 63 then z else z - 2 ^ 64.

(** The [loop] of [socket_poll], at most [rounds] rounds of it. *)
Fixpoint poll_loop (rounds : nat) (fds : list PollFd) (timeout_ms start : Z) (n : Net)
  : exec (Net * list PollFd * Z) :=
  match rounds with
  | O => Diverged
  | S rounds' =>
      n ← deliver_one n;
      let fds := poll_fd (SOCKETS n) <$> fds in
      if 0 <? ready_count fds then Done (n, fds, ready_count fds)
      else if timeout_ms =? 0 then Done (n, fds, 0)
      else if 0 <? timeout_ms then
        let '(n, now) := read_clock n in
        if timeout_ms <=? as_i64 (sat_sub now start) then Done (n, fds, 0)
        else poll_loop rounds' fds timeout_ms start n
      else poll_loop rounds' fds timeout_ms start n
  end.

Definition socket_poll (rounds : nat) (fds : list PollFd) (timeout_ms : Z) (n : Net)
  : exec (Net * list PollFd * Z) :=
  let '(n, start) := read_clock n in
  poll_loop rounds fds timeout_ms start n.

End Stack.
End NetStack.
