(* ===== verification/NetInv.v ===== *)
(** * The invariant of the network stack

    [net_ok]: the socket table has its 256 slots, every buffer, backlog and
    retransmission queue is well formed, and the loopback queue holds a list of
    packets. Every receive path keeps it and returns; a segment moves a
    connection along the TCP state diagram and touches no other socket. *)

From S2P Require Import Prelude NetWire NetWireSpec Ring Sockets SocketSpec NetStack.

(** ** The TCP state diagram

    The transitions of RFC 793 that an arriving segment causes, by its flags.
    There is none for the states in which the application acts next. *)
Inductive diagram (syn ack fin : bool) : SocketState -> SocketState -> Prop :=
| d_syn_sent : syn = true -> ack = true -> diagram syn ack fin SynSent Established
| d_syn_received : ack = true -> diagram syn ack fin SynReceived Established
| d_passive_close : fin = true -> diagram syn ack fin Established CloseWait
| d_fin_acked : ack = true -> fin = false -> diagram syn ack fin FinWait1 FinWait2
| d_simultaneous : ack = false -> fin = true -> diagram syn ack fin FinWait1 Closing
| d_fin_acked_fin : ack = true -> fin = true -> diagram syn ack fin FinWait1 TimeWait
| d_peer_fin : fin = true -> diagram syn ack fin FinWait2 TimeWait
| d_closing_acked : ack = true -> diagram syn ack fin Closing TimeWait
| d_last_ack : ack = true -> diagram syn ack fin LastAck Closed
| d_time_wait : diagram syn ack fin TimeWait Closed.

Definition flag (h : TcpHeader.t) (f : Z) : bool := negb (Z.land (TcpHeader.flags h) f =? 0).

Module NetInv.
Import Socket SocketTable NetStack TableFacts.

Section Inv.
Context {D T : Type} `{NicDriver D} `{Timer T}.
Implicit Types n : Net (D:=D) (T:=T).

(** A buffer that holds bytes, and a queue that holds packets of bytes. *)
Definition rx_ok (b : RingBuffer.t) : Prop := exists xs, RingBufferSpec.holds b xs /\ Forall (in_u 8) xs.
Definition lo_ok (q : Loopback.t) : Prop := exists ps, LoopbackSpec.holds q ps /\ Forall (Forall (in_u 8)) ps.

(** A slot of the table. No segment is ever queued for retransmission, so the
    queue of a TCP socket stays the initial one; a UDP socket never enters a
    TCP state. *)
Record sock_ok (s : Socket.t) : Prop := {
  so_gen : in_u 16 (generation s);
  so_local : PacketFacts.sa_ok (local_addr s);
  so_remote : PacketFacts.sa_ok (remote_addr s);
  so_seq : in_u 32 (send_seq s) /\ in_u 32 (recv_seq s);
  so_rx : rx_ok (rx s);
  so_backlog : Z.of_nat (length (backlog s)) = MAX_BACKLOG;
  so_count : 0 <= backlog_count s <= MAX_BACKLOG;
  so_tcp : active s = true -> protocol s = Tcp -> retransmit s = Some RetransmitQueue.new;
  so_udp : active s = true -> protocol s = Udp ->
    retransmit s = None /\ (state s = Closed \/ state s = Bound);
}.

Record tb_ok (tb : list Socket.t) : Prop := {
  tb_size : length tb = 256%nat;
  tb_socks : Forall sock_ok tb;
}.

(** The response buffer holds bytes, [len] of which were received. *)
Definition dns_ok (b : DnsResponseBuf.t) : Prop :=
  length (DnsResponseBuf.data b) = 512%nat /\ 0 <= DnsResponseBuf.len b <= 512 /\ Forall (in_u 8) (DnsResponseBuf.data b).

Record net_ok (n : Net (D:=D) (T:=T)) : Prop := {
  n_table : tb_ok (SOCKETS n);
  n_loop : lo_ok (LOOPBACK n);
  n_isn : in_u 32 (ISN_COUNTER n);
  n_port : in_u 16 (PORT_COUNTER n);
  n_dns : dns_ok (DNS_RESPONSE n);
}.

(** ** Bytes in, bytes out *)
Lemma rx_ok_new : rx_ok RingBuffer.new.
Proof. exists []. split; [apply RingBufferSpec.ring_holds_new|done]. Qed.

Lemma unspecified_ok : PacketFacts.sa_ok SocketAddr.UNSPECIFIED.
Proof. split; [split; [done|]|done]. by apply (Forall_replicate _ 4 0). Qed.

(** Writing bytes to a buffer of bytes. *)
Lemma write_ok b d : rx_ok b -> Forall (in_u 8) d -> returns (RingBuffer.write b d) (fun r => rx_ok r.1).
Proof.
  intros (xs & Hx & Hb) Hd. destruct (RingBufferSpec.write_spec b xs d Hx) as (b' & -> & Hb').
  apply returns_done. eexists. split; [done|]. apply Forall_app. split; [done|]. by apply Forall_take.
Qed.

Lemma read_ok b cap : rx_ok b -> 0 <= cap ->
  returns (RingBuffer.read b cap) (fun r => rx_ok r.1 /\ Forall (in_u 8) r.2 /\ Z.of_nat (length r.2) <= cap).
Proof.
  intros (xs & Hx & Hb) Hc. destruct (RingBufferSpec.read_spec b xs cap Hx Hc) as (b' & -> & Hb').
  apply returns_done. cbn. split; [|split; [by apply Forall_take|rewrite length_take; lia]].
  eexists. split; [done|]. by apply Forall_drop.
Qed.

Ltac bytes_inv H := repeat (apply Forall_cons in H as [? H]).

Lemma ip_bytes_in data h : Forall (in_u 8) data -> Ipv4Header.from_bytes data = Some h ->
  four (Ipv4Header.src_addr h) /\ four (Ipv4Header.dst_addr h) /\ (20 <= length data)%nat.
Proof.
  intros Hd Hp. do 20 (destruct data as [|? data]; [done|]). cbn in Hp. injection Hp as <-.
  bytes_inv Hd. cbn. split_all; [split; [done|by rewrite !Forall_cons]..|lia].
Qed.

Lemma of_be16_range a b : in_u 8 a -> in_u 8 b -> in_u 16 (Be.of_be16 a b).
Proof. intros Ha Hb. rewrite BeFacts.of_be16_add by done. unfold in_u in *. lia. Qed.

Lemma udp_ports_in data h : Forall (in_u 8) data -> UdpHeader.from_bytes data = Some h ->
  in_u 16 (UdpHeader.src_port h) /\ in_u 16 (UdpHeader.dst_port h).
Proof.
  intros Hd Hp. do 8 (destruct data as [|? data]; [done|]). cbn in Hp. injection Hp as <-.
  bytes_inv Hd. cbn -[Be.of_be16]. split; by apply of_be16_range.
Qed.

Lemma tcp_ports_in data h : Forall (in_u 8) data -> TcpHeader.from_bytes data = Some h ->
  in_u 16 (TcpHeader.src_port h) /\ in_u 16 (TcpHeader.dst_port h).
Proof.
  intros Hd Hp. do 20 (destruct data as [|? data]; [done|]). cbn -[Be.of_be16 Be.of_be32] in Hp. injection Hp as <-.
  bytes_inv Hd. cbn -[Be.of_be16]. split; by apply of_be16_range.
Qed.

Lemma ip_bytes_out src dst protocol len h : four src -> four dst -> in_u 8 protocol ->
  Ipv4Header.new src dst protocol len = Done h -> Forall (in_u 8) (Ipv4Header.to_bytes h).
Proof.
  intros [_ Hs] [_ Hd] Hp Hn. unfold Ipv4Header.new in Hn. apply bind_Done in Hn as (c & _ & Hn). injection Hn as <-.
  unfold Ipv4Header.to_bytes. cbn [Ipv4Header.with_checksum Ipv4Header.version_ihl Ipv4Header.tos
    Ipv4Header.total_length Ipv4Header.identification Ipv4Header.flags_fragment Ipv4Header.ttl
    Ipv4Header.protocol Ipv4Header.checksum Ipv4Header.src_addr Ipv4Header.dst_addr].
  rewrite !Forall_app. rewrite !Forall_cons. split_all; auto with kernel; done.
Qed.

Lemma udp_bytes_out h : Forall (in_u 8) (UdpHeader.to_bytes h).
Proof. unfold UdpHeader.to_bytes. rewrite !Forall_app. auto with kernel. Qed.

Lemma tcp_bytes_out h : Forall (in_u 8) (TcpHeader.to_bytes h).
Proof. unfold TcpHeader.to_bytes. rewrite !Forall_app. auto 10 with kernel. Qed.

(** ** The table *)
Lemma sock_ok_empty : sock_ok Socket.empty.
Proof.
  split; try done; [apply unspecified_ok..|apply rx_ok_new].
Qed.

Lemma tb_ok_new : tb_ok SocketTable.new.
Proof. split; [done|]. apply Forall_replicate, sock_ok_empty. Qed.

Lemma tb_ok_lookup tb i s : tb_ok tb -> tb !! i = Some s -> sock_ok s /\ (i < 256)%nat.
Proof.
  intros [Hl Hs] Hi. split; [by eapply Forall_lookup_1|]. rewrite <- Hl. by eapply lookup_lt_Some.
Qed.

Lemma tb_ok_get tb id s : tb_ok tb -> get tb id = Some s -> sock_ok s.
Proof. intros Ht (Hi & _)%get_Some. by eapply tb_ok_lookup. Qed.

Lemma tb_ok_insert tb i s : tb_ok tb -> sock_ok s -> tb_ok (<[i := s]> tb).
Proof. intros [Hl Hs] Hok. split; [by rewrite length_insert|]. by apply Forall_insert. Qed.

Lemma tb_ok_put tb id s : tb_ok tb -> sock_ok s -> tb_ok (put tb id s).
Proof. apply tb_ok_insert. Qed.

Lemma tb_ok_fmap (f : Socket.t -> Socket.t) tb :
  tb_ok tb -> (forall s, sock_ok s -> sock_ok (f s)) -> tb_ok (f <$> tb).
Proof.
  intros [Hl Hs] Hf. split; [by rewrite length_fmap|]. apply Forall_fmap. eapply Forall_impl; [done|]. done.
Qed.

(** Allocation takes an inactive slot and leaves the others alone. *)
Lemma table_alloc_spec ty pr ow tb : tb_ok tb ->
  match alloc ty pr ow tb with
  | (tb', Ok id) => exists i s s', tb !! i = Some s /\ active s = false /\ tb' = <[i := s']> tb /\
      get tb' id = Some s' /\ Z.to_nat (SocketId.slot id) = i /\ sock_ok s' /\ state s' = Closed /\
      protocol s' = pr /\ owner s' = ow /\ rx s' = RingBuffer.new /\ active s' = true /\
      generation s' = wrap 16 (generation s + 1) /\ id = id_of (i, s') /\
      retransmit s' = (if decide (pr = Tcp) then Some RetransmitQueue.new else None)
  | (tb', Err e) => tb' = tb /\ e = TooManySockets /\ forall i s, tb !! i = Some s -> active s = true
  end.
Proof.
  intros Htb. unfold alloc. destruct (first _ tb) as [[i s]|] eqn:Hf.
  - apply first_Some in Hf as (Hi & Hina & _). apply negb_true_iff in Hina.
    destruct (tb_ok_lookup _ _ _ Htb Hi) as [Hok Hlt].
    set (s' := if bool_decide (pr = Tcp) then _ else _).
    assert (in_u 16 (wrap 16 (generation s + 1))) as Hg by (by apply wrap_range).
    assert (generation s' = wrap 16 (generation s + 1)) as Hg' by (unfold s'; by case_bool_decide).
    assert (active s' = true) as Ha by (unfold s'; by case_bool_decide).
    assert (sock_ok s') as Hok'.
    { unfold s'. case_bool_decide as Hp.
      - split; cbn; try done; [apply unspecified_ok..|apply rx_ok_new|congruence].
      - split; cbn; try done; [apply unspecified_ok..|apply rx_ok_new|auto]. }
    exists i, s, s'. split_all; try done.
    + rewrite <- Hg'. eapply get_id_of; [|done|by apply Hok'|done].
      apply list_lookup_insert_eq. by eapply lookup_lt_Some.
    + rewrite (wrap_small 8) by lia. rewrite slot_id_pack; [lia|unfold in_u; lia|done].
    + unfold s'. by case_bool_decide.
    + unfold s'. by case_bool_decide.
    + unfold s'. by case_bool_decide.
    + unfold s'. by case_bool_decide.
    + unfold id_of. cbn. by rewrite Hg'.
    + unfold s'. case_bool_decide; by case_decide.
  - split_all; try done. intros i s Hi. rewrite first_None in Hf. apply Hf in Hi. by apply negb_false_iff.
Qed.

(** ** Transmission *)
Lemma lo_ok_enqueue q p : lo_ok q -> Forall (in_u 8) p -> returns (Loopback.enqueue q p) (fun r => lo_ok r.1).
Proof.
  intros (ps & Hl & Hb) Hp. destruct (decide (64 <= Z.of_nat (length ps))).
  { rewrite (LoopbackSpec.enqueue_full _ ps) by done. apply returns_done. by exists ps. }
  destruct (decide (Loopback.LOOPBACK_MTU < Z.of_nat (length p))).
  { rewrite LoopbackSpec.enqueue_long by done. apply returns_done. by exists ps. }
  destruct (LoopbackSpec.enqueue_spec _ _ p Hl) as (q' & -> & Hq); [lia..|].
  apply returns_done. eexists. split; [done|]. apply Forall_app. split; [done|]. by constructor.
Qed.

Lemma net_ok_set_nic n x : net_ok n -> net_ok (set_ACTIVE_NIC x n).
Proof. intros [? ? ? ? ?]. by split. Qed.

Lemma net_ok_set_loopback n q : net_ok n -> lo_ok q -> net_ok (set_LOOPBACK q n).
Proof. intros [? ? ? ? ?] ?. by split. Qed.

Lemma net_ok_set_sockets n tb : net_ok n -> tb_ok tb -> net_ok (set_SOCKETS tb n).
Proof. intros [? ? ? ? ?] ?. by split. Qed.

Lemma net_ok_put n id s : net_ok n -> sock_ok s -> net_ok (set_SOCKETS (put (SOCKETS n) id s) n).
Proof. intros Hn Hs. apply net_ok_set_sockets; [done|]. by apply tb_ok_put; [apply Hn|]. Qed.

Lemma net_ok_isn n : net_ok n -> net_ok (next_isn n).1 /\ in_u 32 (next_isn n).2.
Proof. intros [? ? ? ? ?]. split; [|done]. split; try done. apply BeFacts.u32_of_wrap. Qed.

Lemma read_clock_ok n : net_ok n -> net_ok (read_clock n).1 /\ SOCKETS (read_clock n).1 = SOCKETS n.
Proof. intros [? ? ? ? ?]. unfold read_clock. destruct (tick_count _). split; [split|]; done. Qed.

Lemma transmit_ip_ok p n : net_ok n -> Forall (in_u 8) p ->
  returns (transmit_ip p n) (fun n' => net_ok n' /\ SOCKETS n' = SOCKETS n).
Proof.
  intros Hn Hp. unfold transmit_ip. destruct (Ipv4Header.from_bytes p) as [h|]; [|by apply returns_done].
  destruct (is_loopback _).
  - eapply returns_bind; [apply lo_ok_enqueue; [apply Hn|done]|]. intros [q b] Hq.
    apply returns_done. split; [by apply net_ok_set_loopback|done].
  - destruct (get_nic_mac n); [|by apply returns_done].
    destruct (ACTIVE_NIC n); apply returns_done; split; try done. by apply net_ok_set_nic.
Qed.

(** A built packet, when there is one, is a byte string. *)
Definition packet_ok (p : option (list Z)) : Prop := forall b, p = Some b -> Forall (in_u 8) b.

Lemma ip_new_done src dst protocol len : exists h, Ipv4Header.new src dst protocol len = Done h.
Proof.
  unfold Ipv4Header.new, Ipv4Header.compute_checksum, Checksum.internet_checksum.
  rewrite ChecksumFacts.finish_ones by (by apply ChecksumFacts.add_words_range). by eexists.
Qed.

Lemma tcp_segment_done src dst seq ack fl data :
  PacketFacts.sa_ok src -> PacketFacts.sa_ok dst -> Forall (in_u 8) data ->
  returns (segment src dst seq ack fl data) packet_ok.
Proof.
  intros [Hs _] [Hd _] Hdata. unfold segment, Packets.build_tcp_packet.
  destruct (_ <? _); [by apply returns_done|].
  edestruct (ip_new_done (SocketAddr.addr src)) as [h Hh]. rewrite Hh. exec_simpl.
  apply ip_bytes_out in Hh; [|done..].
  match goal with |- context [Checksum.pseudo_header_checksum ?a ?b ?p ?l ?d] =>
    destruct (PacketFacts.pseudo_done a b p l d) as [c ->] end.
  exec_simpl. apply returns_done. intros b E. simplify_eq. rewrite !Forall_app. auto using tcp_bytes_out.
Qed.

(** A datagram of fewer than 65528 bytes is built, or refused for its size. *)
Lemma udp_packet_done src dst data cap :
  PacketFacts.sa_ok src -> PacketFacts.sa_ok dst -> Forall (in_u 8) data ->
  Z.of_nat (length data) < 65528 -> returns (Packets.build_udp_packet src dst data cap) packet_ok.
Proof.
  intros [Hs _] [Hd _] Hdata Hl. unfold Packets.build_udp_packet, UdpHeader.SIZE.
  rewrite (wrap_small 16 (Z.of_nat _)) by (change (2 ^ 16) with 65536; lia).
  rewrite (wrap_small 16 (8 + _)) by (change (2 ^ 16) with 65536; lia).
  destruct (_ <? _); [by apply returns_done|].
  edestruct (ip_new_done (SocketAddr.addr src)) as [h Hh]. rewrite Hh. exec_simpl.
  apply ip_bytes_out in Hh; [|done..]. rewrite decide_True by done.
  match goal with |- context [Checksum.pseudo_header_checksum ?a ?b ?p ?l ?d] =>
    destruct (PacketFacts.pseudo_done a b p l d) as [c ->] end.
  exec_simpl. apply returns_done. intros b E. simplify_eq. rewrite !Forall_app. auto using udp_bytes_out.
Qed.

Lemma send_segment_ok src dst seq ack fl data n :
  net_ok n -> PacketFacts.sa_ok src -> PacketFacts.sa_ok dst -> Forall (in_u 8) data ->
  returns (send_built (segment src dst seq ack fl data) n) (fun n' => net_ok n' /\ SOCKETS n' = SOCKETS n).
Proof.
  intros Hn Hs Hd Hdata. eapply returns_bind; [by apply tcp_segment_done|].
  intros [p|] Hp; [apply transmit_ip_ok; auto|by apply returns_done].
Qed.

(** ** UDP reception *)
Lemma udp_receive_ok ip data tb :
  tb_ok tb -> four (Ipv4Header.src_addr ip) -> Forall (in_u 8) data ->
  returns (udp_receive_packet ip data tb) tb_ok.
Proof.
  intros Ht [_ Hip] Hdata. unfold udp_receive_packet.
  destruct (UdpHeader.from_bytes data) as [h|]; [|by apply returns_done].
  destruct (find_by_local _ _ _) as [id|]; [|by apply returns_done].
  destruct (Z.ltb_spec (Z.of_nat (length data)) (UdpHeader.SIZE + sat_sub (UdpHeader.length h) UdpHeader.SIZE));
    [by apply returns_done|].
  unfold slice_get. rewrite decide_True by (unfold sat_sub, UdpHeader.SIZE in *; lia). exec_simpl.
  destruct (get tb id) as [s|] eqn:Hg; [|by apply returns_done].
  pose proof (tb_ok_get _ _ _ Ht Hg) as Hs.
  eapply returns_bind; [apply write_ok; [apply Hs|auto with kernel]|]. intros [b1 ?] Hw1.
  eapply returns_bind; [apply write_ok; [exact Hw1|done]|]. intros [b2 ?] Hw2.
  eapply returns_bind; [apply write_ok; [exact Hw2|auto with kernel]|]. intros [b3 ?] Hw3.
  eapply returns_bind; [apply write_ok; [exact Hw3|by apply Forall_take, Forall_drop]|]. intros [b4 ?] Hw4.
  apply returns_done. apply tb_ok_put; [done|]. by destruct Hs; split.
Qed.

(** ** TCP reception *)
Lemma ack_queue_ok ack s n : net_ok n -> retransmit s = Some RetransmitQueue.new ->
  exists n', ack_queue ack s n = (s, n') /\ net_ok n' /\ SOCKETS n' = SOCKETS n.
Proof.
  intros Hn Hr. unfold ack_queue. rewrite Hr. pose proof (read_clock_ok n Hn) as Hc.
  destruct (read_clock n) as [n' now]. exists n'. split; [|done].
  rewrite RetransmitFacts.ack_received_empty by done. destruct s. cbn in Hr. by subst.
Qed.

Lemma clear_queue_new s : retransmit s = Some RetransmitQueue.new -> clear_queue s = s.
Proof. intros Hr. unfold clear_queue. rewrite Hr. destruct s. cbn in Hr. by subst. Qed.

(** A connection socket after a segment: still well formed, the same socket. *)
Definition stepped (h : TcpHeader.t) (s s' : Socket.t) : Prop :=
  sock_ok s' /\ generation s' = generation s /\
  ((state s' = state s /\ active s' = true) \/
   (diagram (flag h TcpHeader.SYN) (flag h TcpHeader.ACK) (flag h TcpHeader.FIN) (state s) (state s') /\
    active s' = bool_decide (state s' <> Closed))).

(** A TCP socket stays well formed when only its connection fields change. *)
Lemma sock_ok_conn s s' : sock_ok s -> protocol s' = Tcp -> retransmit s' = Some RetransmitQueue.new ->
  generation s' = generation s -> PacketFacts.sa_ok (local_addr s') -> PacketFacts.sa_ok (remote_addr s') ->
  in_u 32 (send_seq s') /\ in_u 32 (recv_seq s') -> rx_ok (rx s') ->
  backlog s' = backlog s -> backlog_count s' = backlog_count s -> sock_ok s'.
Proof. intros [] Hp Hr Hg Hl Hre Hsq Hx Hb Hc. split; try congruence; try done. Qed.

(** In the proof below: the acknowledgement leaves the queue as it is; the state
    moves along the diagram. *)
Ltac acked :=
  match goal with
  | Hack : forall s', retransmit s' = _ -> _, Hr : retransmit ?s = _ |- context [ack_queue ?a ?s' ?n] =>
      let E := fresh "E" in destruct (Hack s' Hr a) as (? & E & ? & ?); rewrite E
  end.
Ltac fields :=
  match goal with Hconn : forall s', protocol s' = Tcp -> _ |- _ => apply Hconn end;
  try done; try (split; solve [done|apply BeFacts.u32_of_wrap]); eauto.
Ltac along := fields; right; split; [by constructor|done].

(** One segment, on every branch of the state machine. *)
Lemma tcp_transition_ok s h payload n :
  net_ok n -> sock_ok s -> active s = true -> protocol s = Tcp -> Forall (in_u 8) payload ->
  returns (tcp_transition s h payload n)
    (fun r => stepped h s r.1 /\ net_ok r.2 /\ SOCKETS r.2 = SOCKETS n).
Proof.
  intros Hn Hs Ha Hp Hpay. pose proof (so_tcp _ Hs Ha Hp) as Hr. pose proof Hs as [Hg Hlo Hre [Hsq1 Hsq2] Hx Hb Hc _ _].
  unfold tcp_transition. fold (flag h TcpHeader.SYN) (flag h TcpHeader.ACK) (flag h TcpHeader.FIN).
  assert (Hdone : forall s' n', net_ok n' /\ SOCKETS n' = SOCKETS n -> stepped h s s' ->
    returns (Done (s', n')) (fun r => stepped h s r.1 /\ net_ok r.2 /\ SOCKETS r.2 = SOCKETS n)).
  { intros s' n' Hn' Hs'. by apply returns_done. }
  assert (Hsend : forall s' n', net_ok n' -> SOCKETS n' = SOCKETS n -> stepped h s s' ->
    returns (n'' ← send_ack_segment s' n'; Done (s', n''))
      (fun r => stepped h s r.1 /\ net_ok r.2 /\ SOCKETS r.2 = SOCKETS n)).
  { intros s' n' Hn' He Hs'. eapply returns_bind; [by apply send_segment_ok; [|apply Hs'..|]|]. intros n'' [Hn'' He'']. cbn.
    apply Hdone; [|done]. split; [done|congruence]. }
  assert (Hsame : stepped h s s) by (split; [done|split; [done|by left]]).
  assert (Hconn : forall s', protocol s' = Tcp -> retransmit s' = Some RetransmitQueue.new ->
    generation s' = generation s -> PacketFacts.sa_ok (local_addr s') -> PacketFacts.sa_ok (remote_addr s') ->
    in_u 32 (send_seq s') /\ in_u 32 (recv_seq s') -> rx_ok (rx s') ->
    backlog s' = backlog s -> backlog_count s' = backlog_count s ->
    (state s' = state s /\ active s' = true) \/
    (diagram (flag h TcpHeader.SYN) (flag h TcpHeader.ACK) (flag h TcpHeader.FIN) (state s) (state s') /\
     active s' = bool_decide (state s' <> Closed)) -> stepped h s s').
  { intros s' ? ? ? ? ? ? ? ? ? Hst. split; [by eapply (sock_ok_conn s)|done]. }
  assert (Hack : forall s', retransmit s' = Some RetransmitQueue.new -> forall ack,
    exists n', ack_queue ack s' n = (s', n') /\ net_ok n' /\ SOCKETS n' = SOCKETS n).
  { intros s' Hr' ack. by apply ack_queue_ok. }
  destruct (state s) eqn:Hst; try by apply Hdone.
  - destruct (flag h TcpHeader.SYN) eqn:?, (flag h TcpHeader.ACK) eqn:?; try by apply Hdone. cbn [andb].
    acked. apply Hsend; [done..|]. along.
  - destruct (flag h TcpHeader.ACK) eqn:?; try by apply Hdone.
    acked. apply Hdone; [done..|]. along.
  - destruct (flag h TcpHeader.FIN) eqn:?.
    { rewrite andb_false_r. eapply returns_bind.
      - apply Hsend; [done..|]. along.
      - intros [s' n'] Hs'. by apply returns_done. }
    destruct (flag h TcpHeader.ACK) eqn:?; [|by apply Hdone]. cbn [andb].
    destruct payload as [|x payload].
    + rewrite (bool_decide_eq_false_2 ([] <> [])) by (by intros []). exec_simpl.
      rewrite bool_decide_eq_true_2 by done.
      cbn [andb negb]. acked. apply Hdone; [done..|]. fields.
    + rewrite (bool_decide_eq_true_2 (_ <> [])), (bool_decide_eq_false_2 (_ = [])) by done. cbn [andb].
      destruct (write_ok _ _ Hx Hpay) as ([b k] & -> & Hb'). exec_simpl.
      eapply returns_bind; [apply Hsend; [done..|]; fields|].
      intros [s' n'] Hs'. by apply returns_done.
  - destruct (flag h TcpHeader.ACK) eqn:?, (flag h TcpHeader.FIN) eqn:?; cbn [andb]; try by apply Hdone.
    + acked. apply Hsend; [done..|]. along.
    + acked. apply Hdone; [done..|]. along.
    + apply Hsend; [done..|]. along.
  - destruct (flag h TcpHeader.FIN) eqn:?; [|by apply Hdone].
    apply Hsend; [done..|]. along.
  - destruct (flag h TcpHeader.ACK) eqn:?; try by apply Hdone.
    acked. rewrite clear_queue_new by exact Hr.
    apply Hdone; [done..|]. along.
  - rewrite clear_queue_new by exact Hr. apply Hdone; [done..|]. along.
  - destruct (flag h TcpHeader.ACK) eqn:?; try by apply Hdone.
    acked. apply Hdone; [done..|]. along.
Qed.

(** Every active socket keeps its slot and generation, and keeps its state or
    moves along the diagram. *)
Definition follows (h : TcpHeader.t) (tb tb' : list Socket.t) : Prop :=
  forall i s, tb !! i = Some s -> active s = true ->
  exists s', tb' !! i = Some s' /\ generation s' = generation s /\
    ((state s' = state s /\ active s' = true) \/
     (diagram (flag h TcpHeader.SYN) (flag h TcpHeader.ACK) (flag h TcpHeader.FIN) (state s) (state s') /\
      active s' = bool_decide (state s' <> Closed))).

Lemma follows_refl h tb : follows h tb tb.
Proof. intros i s Hi Ha. exists s. auto. Qed.

Lemma follows_put h tb id s s' : get tb id = Some s -> stepped h s s' -> follows h tb (put tb id s').
Proof.
  intros (Hl & _ & _)%get_Some (_ & Hg & Hm) i x Hi Ha. unfold put.
  destruct (decide (i = Z.to_nat (SocketId.slot id))) as [->|Hne].
  - rewrite list_lookup_insert_eq by (by eapply lookup_lt_Some). simplify_eq. eauto.
  - rewrite list_lookup_insert_ne by done. exists x. auto.
Qed.

Lemma tcp_state_machine_ok id h payload n : net_ok n -> Forall (in_u 8) payload ->
  (forall s, get (SOCKETS n) id = Some s -> protocol s = Tcp) ->
  returns (tcp_state_machine id h payload n)
    (fun n' => net_ok n' /\ follows h (SOCKETS n) (SOCKETS n')).
Proof.
  intros Hn Hpay Hp. unfold tcp_state_machine. destruct (get (SOCKETS n) id) as [s|] eqn:Hg.
  2:{ apply returns_done. split; [done|apply follows_refl]. }
  pose proof (tb_ok_get _ _ _ (n_table _ Hn) Hg) as Hs. pose proof Hg as (_ & Ha & _)%get_Some.
  eapply returns_bind; [apply tcp_transition_ok; auto|]. intros [s' n'] (Hst & Hn' & He). cbn in *.
  apply returns_done. split; [apply net_ok_put; [done|apply Hst]|]. cbn. rewrite He. by eapply follows_put.
Qed.

(** A new connection occupies a free slot; the listener only gains a backlog entry. *)
Lemma handle_syn_ok lid h src dst n : net_ok n -> PacketFacts.sa_ok src -> PacketFacts.sa_ok dst ->
  returns (handle_syn lid h src dst n) (fun n' => net_ok n' /\ follows h (SOCKETS n) (SOCKETS n')).
Proof.
  intros Hn Hsrc Hdst.
  assert (Hsame : returns (Done n) (fun n' => net_ok n' /\ follows h (SOCKETS n) (SOCKETS n'))).
  { apply returns_done. split; [done|apply follows_refl]. }
  unfold handle_syn. destruct (get (SOCKETS n) lid) as [l|]; [|done].
  pose proof (table_alloc_spec Stream Tcp (owner l) (SOCKETS n) (n_table _ Hn)) as Hal.
  destruct (alloc Stream Tcp (owner l) (SOCKETS n)) as [tb [id|e]]; [|done].
  destruct Hal as (i & s & c & Hi & Hina & -> & Hg & Hslot & Hok & Hst & Hp & Ho & Hrx & Hact & Hgen & _ & Hrt).
  pose proof (net_ok_isn n Hn) as [Hn1 Hisn]. cbn [next_isn fst snd] in Hn1, Hisn |- *. rewrite Hg.
  match goal with |- context [put _ id ?x] => set (conn := x) end.
  assert (sock_ok conn) as Hconn by (by apply (sock_ok_conn c); try done; [split; [done|apply BeFacts.u32_of_wrap]|apply Hok]).
  set (tb2 := put _ id conn). assert (tb2 = <[i := conn]> (SOCKETS n)) as Htb2.
  { unfold tb2, put. rewrite Hslot. by rewrite list_insert_insert_eq. }
  assert (tb_ok tb2) as Hok2 by (rewrite Htb2; apply tb_ok_insert; [apply Hn|done]).
  eapply (returns_bind _ _ (fun tb3 => tb_ok tb3 /\ follows h (SOCKETS n) tb3)).
  - assert (follows h (SOCKETS n) tb2) as Hf.
    { intros j x Hj Ha. rewrite Htb2, list_lookup_insert_ne by congruence. exists x. auto. }
    destruct (get tb2 lid) as [x|] eqn:Hx; [|by apply returns_done].
    destruct (Z.ltb_spec (backlog_count x) MAX_BACKLOG); [|by apply returns_done].
    pose proof (tb_ok_get _ _ _ Hok2 Hx) as Hxok. pose proof (so_backlog _ Hxok). pose proof (so_count _ Hxok).
    unfold arr_set. rewrite decide_True by lia. exec_simpl. apply returns_done. split.
    + apply tb_ok_put; [done|]. destruct Hxok. split; cbn; try done; [by rewrite length_insert|lia].
    + pose proof Hx as (Hlx & Hax & _)%get_Some. intros j y Hj Ha. destruct (Hf j y Hj Ha) as (y' & Hy' & ? & Hm).
      unfold put. destruct (decide (j = Z.to_nat (SocketId.slot lid))) as [->|Hne].
      * rewrite list_lookup_insert_eq by (by eapply lookup_lt_Some). simplify_eq. eauto.
      * rewrite list_lookup_insert_ne by done. eauto.
  - intros tb3 [Hok3 Hf3]. eapply returns_mono; [apply send_segment_ok; try done|].
    + by apply net_ok_set_sockets.
    + intros n' [Hn' He]. split; [done|]. cbn in He. by rewrite He.
Qed.

(** The connection found for a segment is a TCP socket. *)
Lemma find_tcp_connection_Some tb local remote id : tb_ok tb ->
  find_tcp_connection tb local remote = Some id ->
  exists s, get tb id = Some s /\ protocol s = Tcp /\ local_match s local = true /\ remote_addr s = remote.
Proof.
  intros Ht Hf. unfold find_tcp_connection in Hf. destruct (first _ tb) as [[i s]|] eqn:E; [|done].
  injection Hf as <-. apply first_Some in E as (Hi & Hp & _).
  apply andb_true_iff in Hp as [Hp Hr]. apply andb_true_iff in Hp as [Hp Hm].
  apply andb_true_iff in Hp as [Ha Hp]. apply bool_decide_eq_true in Hp, Hr.
  destruct (tb_ok_lookup _ _ _ Ht Hi) as [Hok Hlt].
  exists s. split; [|done]. by eapply get_id_of; [..|apply Hok|].
Qed.

(** Every segment, for every state of the table. *)
Lemma tcp_receive_ok ip data n :
  net_ok n -> four (Ipv4Header.src_addr ip) -> four (Ipv4Header.dst_addr ip) -> Forall (in_u 8) data ->
  returns (tcp_receive_packet ip data n)
    (fun n' => net_ok n' /\
       match TcpHeader.from_bytes data with
       | Some h => follows h (SOCKETS n) (SOCKETS n')
       | None => n' = n
       end).
Proof.
  intros Hn Hsrc Hdst Hdata. unfold tcp_receive_packet.
  destruct (TcpHeader.from_bytes data) as [h|] eqn:Hh; [|by apply returns_done].
  destruct (tcp_ports_in _ _ Hdata Hh) as [Hsp Hdp].
  assert (Hsame : returns (Done n) (fun n' => net_ok n' /\ follows h (SOCKETS n) (SOCKETS n'))).
  { apply returns_done. split; [done|apply follows_refl]. }
  destruct (find_tcp_connection _ _ _) as [id|] eqn:Hf.
  - apply tcp_state_machine_ok; [done|by apply Forall_drop|]. intros s Hg.
    apply find_tcp_connection_Some in Hf as (s' & Hg' & Hp & _); [|apply Hn]. congruence.
  - destruct (_ && _); [|done]. destruct (find_listener _ _); [by apply handle_syn_ok|done].
Qed.

Lemma dispatch_ok ip data n :
  net_ok n -> four (Ipv4Header.src_addr ip) -> four (Ipv4Header.dst_addr ip) -> Forall (in_u 8) data ->
  returns (dispatch ip data n) net_ok.
Proof.
  intros Hn Hsrc Hdst Hdata. unfold dispatch. destruct (_ =? 6).
  - eapply returns_mono; [by apply tcp_receive_ok|]. by intros n' [? _].
  - destruct (_ =? 17); [|by apply returns_done].
    eapply returns_bind; [apply udp_receive_ok; [apply Hn|done..]|]. intros tb Ht.
    apply returns_done. by apply net_ok_set_sockets.
Qed.

(** ** Reception from the NIC *)
Lemma slice_get_ok (l : list Z) a b : 0 <= a <= b -> b <= Z.of_nat (length l) ->
  returns (slice_get l a b) (fun x => Z.of_nat (length x) = b - a /\ (Forall (in_u 8) l -> Forall (in_u 8) x)).
Proof.
  intros Hab Hb. unfold slice_get. rewrite decide_True by done. apply returns_done.
  split; [rewrite length_take, length_drop; lia|]. intros Hl. by apply Forall_take, Forall_drop.
Qed.

Lemma slice_set_ok (l d : list Z) a b : 0 <= a <= b -> b <= Z.of_nat (length l) -> Z.of_nat (length d) = b - a ->
  returns (slice_set l a b d) (fun x => length x = length l /\ (Forall (in_u 8) l -> Forall (in_u 8) d -> Forall (in_u 8) x)).
Proof.
  intros Hab Hb Hd. unfold slice_set. rewrite decide_True by done. apply returns_done.
  split; [rewrite !length_app, length_take, length_drop; lia|]. intros Hl Hdb.
  apply Forall_app_2; [by apply Forall_take|]. apply Forall_app_2; [done|by apply Forall_drop].
Qed.

Lemma capture_dns_ok ip data n : net_ok n -> Forall (in_u 8) data ->
  returns (capture_dns ip data n) (fun r => forall n', r = Some n' -> net_ok n').
Proof.
  intros Hn Hdata. assert (Hnone : returns (Done None) (fun r => forall n', r = Some n' -> net_ok n'))
    by (by apply returns_done).
  unfold capture_dns. destruct (negb _); [done|]. destruct (UdpHeader.from_bytes data) as [u|]; [|done].
  destruct (_ =? 53); [|done].
  destruct (Z.leb_spec (UdpHeader.SIZE + sat_sub (UdpHeader.length u) UdpHeader.SIZE) (Z.of_nat (length data))).
  2:{ apply returns_done. intros n' E. by simplify_eq. }
  destruct (n_dns _ Hn) as (Hlen & _ & Hbuf).
  eapply returns_bind; [apply slice_get_ok; unfold sat_sub, UdpHeader.SIZE in *; lia|]. intros x [Hx Hxs]. cbv zeta.
  eapply returns_bind; [apply slice_get_ok; lia|]. intros y [Hy Hys].
  eapply returns_bind; [apply slice_set_ok; lia|]. intros z [Hz Hzs].
  apply returns_done. intros n' E. simplify_eq. destruct Hn. split; cbn; [done..|].
  split; cbn; [congruence|]. split; [lia|]. by apply Hzs; [|apply Hys, Hxs].
Qed.

Lemma process_arp_ok data n : net_ok n -> net_ok (process_arp_frame data n).
Proof.
  intros Hn. unfold process_arp_frame, handle_arp_reply. destruct (ArpPacket.parse data); [|done].
  destruct (_ =? _); [|done]. destruct Hn. by split.
Qed.

Lemma eth_payload_bytes data eth : Forall (in_u 8) data -> EthernetFrame.parse data = Some eth ->
  Forall (in_u 8) (EthernetFrame.payload eth).
Proof.
  intros Hd Hp. do 14 (destruct data as [|? data]; [done|]). cbn in Hp. injection Hp as <-. by bytes_inv Hd.
Qed.

Lemma nic_receive_ok n : net_ok n -> returns (nic_receive_one n) (fun r => net_ok r.1).
Proof.
  intros Hn. unfold nic_receive_one. destruct (ACTIVE_NIC n) as [nic|]; [|by apply returns_done].
  destruct (poll_rx nic) as [nic' [bytes|]]; [|by apply returns_done, net_ok_set_nic].
  apply (net_ok_set_nic _ (Some (recycle_rx nic'))) in Hn. set (n' := set_ACTIVE_NIC _ n) in *.
  assert (Forall (in_u 8) ((fun b => Z.of_N (Byte.to_N b)) <$> take 1600 bytes)) as Hb.
  { apply Forall_fmap, Forall_true. intros b. pose proof (Byte.to_N_bounded b). unfold in_u. cbn. lia. }
  destruct (EthernetFrame.parse _) as [eth|] eqn:He; [|by apply returns_done].
  assert (Forall (in_u 8) (EthernetFrame.payload eth)) as Hpay by (by eapply eth_payload_bytes).
  destruct (_ =? EthernetFrame.ETHERTYPE_ARP); [by apply returns_done, process_arp_ok|].
  destruct (_ =? EthernetFrame.ETHERTYPE_IPV4); [|by apply returns_done].
  destruct (Ipv4Header.from_bytes _) as [ip|] eqn:Hip; [|by apply returns_done].
  destruct (ip_bytes_in _ _ Hpay Hip) as (? & ? & _). destruct (_ <=? _); [by apply returns_done|].
  eapply returns_bind; [apply capture_dns_ok; [done|by apply Forall_drop]|]. intros [n''|] Hc; [by apply returns_done, Hc|].
  eapply returns_bind; [apply dispatch_ok; try done; by apply Forall_drop|]. intros n'' ?. by apply returns_done.
Qed.

(** ** Retransmission: with empty queues there is nothing to resend *)
Lemma check_socket_idle now s : sock_ok s -> check_socket now s = (s, [], false).
Proof.
  intros Hs. unfold check_socket. destruct (active s) eqn:Ha; [|done]. cbn [negb].
  destruct (protocol s) eqn:Hp.
  - by rewrite (so_tcp _ Hs Ha Hp).
  - by rewrite (proj1 (so_udp _ Hs Ha Hp)).
Qed.

Lemma check_all_idle n : net_ok n -> check_all_retransmits n = Done (read_clock n).1.
Proof.
  intros Hn. pose proof (read_clock_ok n Hn) as [Hn' He]. unfold check_all_retransmits.
  destruct (read_clock n) as [n' now]. cbn [fst] in *.
  assert (check_socket now <$> SOCKETS n' = (fun s => (s, [], false)) <$> SOCKETS n') as ->.
  { apply list_fmap_ext. intros i s Hi. apply check_socket_idle. by eapply tb_ok_lookup; [apply Hn'|]. }
  rewrite <- !list_fmap_compose.
  assert (concat ((fun c : Socket.t * list (list Z) * bool => c.1.2) ∘
    (fun s => (s, [], false)) <$> SOCKETS n') = []) as ->.
  { generalize (SOCKETS n') as tb. intros tb. induction tb as [|s tb IH]; [done|]. exact IH. }
  cbn [transmit_all]. rewrite (list_fmap_ext _ id), list_fmap_id by done. by destruct n'.
Qed.

(** ** Delivery *)
Lemma deliver_one_ok n : net_ok n -> returns (deliver_one n) net_ok.
Proof.
  intros Hn. unfold deliver_one. destruct (n_loop _ Hn) as ([|p ps] & Hl & Hb).
  - rewrite LoopbackSpec.dequeue_empty by done. exec_simpl.
    assert (set_LOOPBACK (LOOPBACK n) n = n) as -> by (by destruct n).
    eapply returns_bind; [by apply nic_receive_ok|]. intros [n' b] Hn'. cbn in Hn'.
    rewrite check_all_idle by done. apply returns_done. by apply read_clock_ok.
  - destruct (LoopbackSpec.dequeue_spec _ _ _ Hl) as (q & -> & Hq & Hlen). exec_simpl.
    apply Forall_cons in Hb as [Hp Hb].
    assert (net_ok (set_LOOPBACK q n)) as Hn' by (apply net_ok_set_loopback; [done|by exists ps]).
    rewrite (LoopbackSpec.slice_packet p _ 0) by lia. exec_simpl. rewrite drop_0.
    destruct (Ipv4Header.from_bytes p) as [ip|] eqn:Hip; [|by apply returns_done].
    destruct (ip_bytes_in _ _ Hp Hip) as (? & ? & Hge).
    change Ipv4Header.SIZE with (Z.of_nat 20). rewrite LoopbackSpec.slice_packet by done. exec_simpl.
    apply dispatch_ok; try done. by apply Forall_drop.
Qed.

Lemma deliver_times_ok k n : net_ok n -> returns (deliver_times k n) net_ok.
Proof.
  revert n. induction k as [|k IH]; intros n Hn; cbn; [by apply returns_done|].
  eapply returns_bind; [by apply deliver_one_ok|]. auto.
Qed.

Lemma deliver_while_ok k n : net_ok n -> returns (deliver_while k n) net_ok.
Proof.
  revert n. induction k as [|k IH]; intros n Hn; cbn; [by apply returns_done|].
  destruct (Loopback.is_empty _); [by apply returns_done|].
  eapply returns_bind; [by apply deliver_one_ok|]. auto.
Qed.

Lemma await_ok k id n : net_ok n -> returns (await_established k id n) (fun r => net_ok r.1).
Proof.
  revert n. induction k as [|k IH]; intros n Hn; cbn; [by apply returns_done|].
  eapply returns_bind; [by apply deliver_one_ok|]. intros n' Hn'.
  destruct (get _ _); [|by apply IH]. case_bool_decide; [by apply returns_done|by apply IH].
Qed.

(** ** The socket operations *)
Lemma sock_ok_inactive s : sock_ok s -> sock_ok (set_active false s).
Proof. intros []. by split. Qed.

(** Updating a socket found by [get], by its protocol. *)
Lemma put_tcp_ok n id s s' : net_ok n -> get (SOCKETS n) id = Some s -> protocol s = Tcp ->
  protocol s' = Tcp -> retransmit s' = retransmit s -> generation s' = generation s ->
  PacketFacts.sa_ok (local_addr s') -> PacketFacts.sa_ok (remote_addr s') ->
  in_u 32 (send_seq s') /\ in_u 32 (recv_seq s') -> rx_ok (rx s') ->
  backlog s' = backlog s -> backlog_count s' = backlog_count s -> sock_ok s'.
Proof.
  intros Hn Hg Hp Hp' Hr Hge Hl Hre Hsq Hx Hb Hc.
  pose proof (tb_ok_get _ _ _ (n_table _ Hn) Hg) as Hs. apply get_Some in Hg as (_ & Ha & _).
  apply (sock_ok_conn s); try done. rewrite Hr. by apply Hs.
Qed.

Lemma put_udp_ok n id s s' : net_ok n -> get (SOCKETS n) id = Some s -> protocol s = Udp ->
  protocol s' = Udp -> retransmit s' = retransmit s -> generation s' = generation s ->
  PacketFacts.sa_ok (local_addr s') -> PacketFacts.sa_ok (remote_addr s') ->
  send_seq s' = send_seq s -> recv_seq s' = recv_seq s -> rx s' = rx s ->
  state s' = Closed \/ state s' = Bound ->
  backlog s' = backlog s -> backlog_count s' = backlog_count s -> sock_ok s'.
Proof.
  intros Hn Hg Hp Hp' Hr Hge Hl Hre Hs1 Hs2 Hx Hst Hb Hc.
  pose proof (tb_ok_get _ _ _ (n_table _ Hn) Hg) as Hs. apply get_Some in Hg as (_ & Ha & _).
  destruct (so_udp _ Hs Ha Hp) as [Hn0 _]. destruct Hs as [? ? ? [? ?] ? ? ? ? ?].
  split; try congruence; try done; [split; congruence|]. intros. split; [congruence|done].
Qed.

Lemma sock_ok_rx s b : sock_ok s -> rx_ok b -> sock_ok (set_rx b s).
Proof. intros [] ?. by split. Qed.

Lemma net_get_ok n id s : net_ok n -> get (SOCKETS n) id = Some s -> sock_ok s.
Proof. intros Hn. apply tb_ok_get, Hn. Qed.

Lemma socket_create_ok ty pr ow n : net_ok n -> net_ok (socket_create ty pr ow n).1.
Proof.
  intros Hn. unfold socket_create. pose proof (table_alloc_spec ty pr ow _ (n_table _ Hn)) as Ha.
  destruct (alloc ty pr ow (SOCKETS n)) as [tb [id|e]]; cbn.
  - destruct Ha as (i & s & s' & _ & _ & -> & _ & _ & Hs' & _). apply net_ok_set_sockets; [done|].
    apply tb_ok_insert; [apply Hn|done].
  - destruct Ha as [-> _]. apply net_ok_set_sockets; [done|apply Hn].
Qed.

Lemma socket_bind_ok id addr n : net_ok n -> PacketFacts.sa_ok addr -> net_ok (socket_bind id addr n).1.
Proof.
  intros Hn Haddr. unfold socket_bind. destruct (get (SOCKETS n) id) as [s|] eqn:Hg; [|done].
  destruct (_ && _); [done|]. case_bool_decide; [done|]. cbn. pose proof (net_get_ok _ _ _ Hn Hg) as [].
  apply net_ok_put; [done|]. destruct (protocol s) eqn:Hp; [by eapply put_tcp_ok|]. eapply put_udp_ok; eauto.
Qed.

Lemma socket_listen_ok id n : net_ok n -> net_ok (socket_listen id n).1.
Proof.
  intros Hn. unfold socket_listen. destruct (get (SOCKETS n) id) as [s|] eqn:Hg; [|done].
  case_bool_decide as Hp; [done|]. case_bool_decide; [done|]. cbn. apply net_ok_put; [done|].
  pose proof (net_get_ok _ _ _ Hn Hg) as [].
  assert (protocol s = Tcp) by (destruct (protocol s); [done|by destruct Hp]).
  split; cbn; try done. congruence.
Qed.

Lemma scan_ports_spec k n : net_ok n ->
  let n' := (scan_ports k n).1 in
  net_ok n' /\ SOCKETS n' = SOCKETS n /\ LOOPBACK n' = LOOPBACK n /\ ACTIVE_NIC n' = ACTIVE_NIC n /\
  in_u 16 (scan_ports k n).2.
Proof.
  revert n. induction k as [|k IH]; intros n Hn; [done|]. cbn -[port_in_use].
  assert (net_ok (set_PORT_COUNTER (wrap 16 (PORT_COUNTER n + 1)) n)) as Hn'.
  { destruct Hn. split; try done. by apply wrap_range. }
  destruct (_ && _); [|by apply (IH _ Hn')]. split_all; try done. cbn. destruct (_ <=? _); [done|apply Hn].
Qed.

(** What [start_connect] does to the socket, and to nothing else of the table. *)
Lemma start_connect_spec id remote s n : net_ok n -> PacketFacts.sa_ok (local_addr s) ->
  exists n0 s', start_connect id remote s n = (set_SOCKETS (put (SOCKETS n) id s') n0, s') /\
    net_ok n0 /\ LOOPBACK n0 = LOOPBACK n /\ ACTIVE_NIC n0 = ACTIVE_NIC n /\
    state s' = SynSent /\ remote_addr s' = remote /\ protocol s' = protocol s /\ active s' = active s /\
    generation s' = generation s /\ retransmit s' = retransmit s /\ rx s' = rx s /\
    backlog s' = backlog s /\ backlog_count s' = backlog_count s /\ recv_seq s' = recv_seq s /\
    in_u 32 (send_seq s') /\ PacketFacts.sa_ok (local_addr s').
Proof.
  intros Hn Hlo. unfold start_connect.
  assert (exists m p, (if SocketAddr.port (local_addr s) =? 0 then allocate_ephemeral_port n else (n, 0)) = (m, p) /\
    net_ok m /\ SOCKETS m = SOCKETS n /\ LOOPBACK m = LOOPBACK n /\ ACTIVE_NIC m = ACTIVE_NIC n /\ in_u 16 p)
    as (m & p & -> & Hm & Hsm & Hlm & Ham & Hp).
  { destruct (_ =? 0); [|by exists n, 0]. unfold allocate_ephemeral_port.
    pose proof (scan_ports_spec 1000 n Hn) as Hscan.
    destruct (scan_ports 1000 n) as [m p]. by exists m, p. }
  pose proof (net_ok_isn m Hm) as [Hm' Hisn]. cbn [next_isn fst snd] in *.
  eexists _, _. split; [cbn; by rewrite Hsm|]. split; [exact Hm'|].
  set (b := if is_loopback _ then _ else _). assert (four b) as Hb.
  { unfold b, Ipv4Addr.LOOPBACK, GUEST_IP. destruct (is_loopback _); split; try done; by rewrite !Forall_cons. }
  split_all; try done; cbn; destruct (_ =? 0), (Ipv4Addr.is_unspecified _); cbn; try done; split; try done; apply Hlo.
Qed.

Lemma socket_connect_ok id remote n : net_ok n -> PacketFacts.sa_ok remote ->
  returns (socket_connect id remote n) (fun r => net_ok r.1).
Proof.
  intros Hn Hrem. unfold socket_connect.
  destruct (get (SOCKETS n) id) as [s|] eqn:Hg; [|by apply returns_done].
  pose proof (net_get_ok _ _ _ Hn Hg) as Hs. case_bool_decide as Hp.
  { apply returns_done. cbn. pose proof Hg as (_ & Ha & _)%get_Some.
    destruct (so_udp _ Hs Ha Hp) as [_ Hst]. pose proof Hs as [].
    apply net_ok_put; [done|]. case_bool_decide; eapply put_udp_ok; eauto. }
  assert (protocol s = Tcp) as Hp' by (by destruct (protocol s)).
  destruct (_ && _); [by apply returns_done|].
  destruct (start_connect_spec id remote s n Hn) as (n0 & s' & -> & Hn0 & _ & _ & _ & Hre & Hpr & _ & Hge & Hrt
    & Hrx & Hb & Hc & Hsq & Hsq' & Hl); [apply Hs|].
  assert (sock_ok s') as Hs'.
  { apply (put_tcp_ok n id s s'); try done; [congruence|by rewrite Hre| |rewrite Hrx; apply Hs].
    split; [done|rewrite Hsq; apply Hs]. }
  eapply returns_bind.
  { apply send_segment_ok; try done. apply net_ok_set_sockets; [done|]. apply tb_ok_put; [apply Hn|done]. }
  intros n2 [Hn2 _]. cbv zeta.
  eapply returns_bind; [by apply await_ok|]. intros [n3 b] Hn3. by apply returns_done.
Qed.

Lemma shift_backlog_ok k : forall i b, 1 <= i -> i + Z.of_nat k <= Z.of_nat (length b) ->
  returns (shift_backlog k i b) (fun b' => length b' = length b).
Proof.
  induction k as [|k IH]; intros i b Hi Hk; cbn; [by apply returns_done|].
  destruct (lookup_lt_is_Some_2 b (Z.to_nat i)) as [x Hx]; [lia|].
  unfold arr_get. rewrite decide_True, Hx by lia. exec_simpl. unfold arr_set. rewrite decide_True by lia. exec_simpl.
  eapply returns_mono; [apply IH; [lia|rewrite length_insert; lia]|]. intros b' ->. apply length_insert.
Qed.

Lemma socket_accept_ok id n : net_ok n -> returns (socket_accept id n) (fun r => net_ok r.1).
Proof.
  intros Hn. unfold socket_accept. destruct (get (SOCKETS n) id) as [l|] eqn:Hg; [|by apply returns_done].
  case_bool_decide; [by apply returns_done|].
  pose proof (net_get_ok _ _ _ Hn Hg) as Hl. pose proof (so_backlog _ Hl). pose proof (so_count _ Hl).
  unfold MAX_BACKLOG in *. destruct (Z.eqb_spec (backlog_count l) 0); [by apply returns_done|].
  destruct (lookup_lt_is_Some_2 (backlog l) 0%nat) as [c Hc]; [lia|].
  unfold arr_get. rewrite decide_True by lia. change (Z.to_nat 0) with 0%nat. rewrite Hc. exec_simpl.
  eapply returns_bind; [apply shift_backlog_ok; lia|]. intros b Hb. cbv zeta.
  eapply returns_bind; [apply await_ok|intros [n' x] Hn'; by apply returns_done].
  apply net_ok_put; [done|]. cbv beta in Hb. destruct Hl. split; cbn; try done; unfold MAX_BACKLOG; [congruence|lia].
Qed.

Lemma send_and_deliver_ok pkt k n : net_ok n -> returns pkt packet_ok ->
  returns (send_and_deliver pkt k n) net_ok.
Proof.
  intros Hn Hp. eapply returns_bind; [exact Hp|]. intros [p|] Hb; [|by apply returns_done].
  eapply returns_bind; [apply transmit_ip_ok; auto|]. intros n' [Hn' _]. by apply deliver_times_ok.
Qed.

Lemma socket_send_ok id data n : net_ok n -> Forall (in_u 8) data -> Z.of_nat (length data) < 65528 ->
  returns (socket_send id data n) (fun r => net_ok r.1).
Proof.
  intros Hn Hd Hl. unfold socket_send. destruct (get (SOCKETS n) id) as [s|] eqn:Hg; [|by apply returns_done].
  pose proof (net_get_ok _ _ _ Hn Hg) as Hs. destruct (protocol s) eqn:Hp.
  - case_bool_decide; [by apply returns_done|]. cbv zeta.
    eapply returns_bind; [apply send_and_deliver_ok|intros n' Hn'; by apply returns_done].
    + apply net_ok_put; [done|]. pose proof Hs as []. eapply put_tcp_ok; eauto.
      split; [apply BeFacts.u32_of_wrap|apply Hs].
    + by apply tcp_segment_done; [apply Hs..|].
  - destruct (SocketAddr.is_unspecified _); [by apply returns_done|].
    eapply returns_bind; [apply send_and_deliver_ok; [done|by apply udp_packet_done; [apply Hs..| |]]|].
    intros n' Hn'. by apply returns_done.
Qed.

Lemma socket_sendto_ok id data dst n : net_ok n -> Forall (in_u 8) data -> Z.of_nat (length data) < 65528 ->
  PacketFacts.sa_ok dst -> returns (socket_sendto id data dst n) (fun r => net_ok r.1).
Proof.
  intros Hn Hd Hl Hdst. unfold socket_sendto.
  destruct (get (SOCKETS n) id) as [s|] eqn:Hg; [|by apply returns_done].
  case_bool_decide; [by apply returns_done|]. pose proof (net_get_ok _ _ _ Hn Hg) as Hs.
  eapply returns_bind; [apply send_and_deliver_ok; [done|by apply udp_packet_done; [apply Hs|..]]|].
  intros n' Hn'. by apply returns_done.
Qed.

Lemma discard_ok b k : rx_ok b -> 0 <= k -> rx_ok (RingBuffer.discard b k).
Proof.
  intros (xs & Hx & Hb) Hk. eexists. split; [by apply RingBufferSpec.discard_spec|]. by apply Forall_drop.
Qed.

(** Receiving gives at most as many bytes as the buffer holds. *)
Lemma socket_recv_fits id cap n : net_ok n -> 0 <= cap ->
  returns (socket_recv id cap n) (fun r => net_ok r.1 /\ forall bytes, r.2 = Ok bytes -> Z.of_nat (length bytes) <= cap).
Proof.
  intros Hn Hcap. eapply returns_bind; [by apply deliver_one_ok|]. clear n Hn. intros n Hn.
  set (Q := fun r : Net (D:=D) (T:=T) * result (list Z) SocketError => net_ok r.1 /\ forall bytes, r.2 = Ok bytes -> Z.of_nat (length bytes) <= cap).
  assert (forall e, returns (Done (n, Err e)) Q) as Herr by (intros e; by apply returns_done).
  destruct (get (SOCKETS n) id) as [s|] eqn:Hg; [|by apply Herr].
  pose proof (net_get_ok _ _ _ Hn Hg) as Hs.
  assert (forall b r, rx_ok b -> (forall bytes, r = Ok bytes -> Z.of_nat (length bytes) <= cap) ->
    returns (Done (set_SOCKETS (put (SOCKETS n) id (set_rx b s)) n, r : result (list Z) SocketError)) Q) as Hput.
  { intros b r Hb Hr. apply returns_done. split; [|done]. cbn. apply net_ok_put; [done|]. by apply sock_ok_rx. }
  case_bool_decide.
  - destruct (RingBuffer.is_empty _); [by apply Herr|].
    eapply returns_bind; [apply read_ok; [apply Hs|lia]|]. intros [b hdr] (Hb & Hh & _). cbn in Hb, Hh.
    destruct hdr as [|? [|? [|? [|? [|? [|? [|l0 [|l1 [|? ?]]]]]]]]]; try by apply Hput.
    bytes_inv Hh. pose proof (of_be16_range l0 l1) as Hr. unfold in_u at 3 in Hr. cbv zeta.
    eapply returns_bind; [apply read_ok; [exact Hb|]|]; [apply Z.min_glb; [by apply Hr|done]|].
    intros [b' bytes] (Hb' & _ & Hlen). cbn in Hlen. apply Hput; [|intros ? [= <-]; lia].
    destruct (Z.ltb_spec (Z.min (Be.of_be16 l0 l1) cap) (Be.of_be16 l0 l1)).
    + apply discard_ok; [done|lia].
    + done.
  - destruct (RingBuffer.is_empty _); [destruct (_ || _); [|by apply Herr]; apply returns_done; split; [done|by intros ? [= <-]]|].
    eapply returns_bind; [apply read_ok; [apply Hs|done]|]. intros [b bytes] (Hb & _ & Hlen). apply Hput; [done|]. by intros ? [= <-].
Qed.

Lemma socket_recv_ok id cap n : net_ok n -> 0 <= cap -> returns (socket_recv id cap n) (fun r => net_ok r.1).
Proof. intros Hn Hc. eapply returns_mono; [by apply socket_recv_fits|]. by intros r [? _]. Qed.

Lemma send_fin_ok id s next n : net_ok n -> get (SOCKETS n) id = Some s -> protocol s = Tcp ->
  returns (send_fin id s next n) net_ok.
Proof.
  intros Hn Hg Hp. pose proof (net_get_ok _ _ _ Hn Hg) as Hs. apply send_and_deliver_ok.
  - apply net_ok_put; [done|]. pose proof Hs as []. eapply put_tcp_ok; eauto.
    split; [apply BeFacts.u32_of_wrap|apply Hs].
  - by apply tcp_segment_done; [apply Hs..|].
Qed.

Lemma socket_shutdown_ok id n : net_ok n -> returns (socket_shutdown id n) (fun r => net_ok r.1).
Proof.
  intros Hn. unfold socket_shutdown. destruct (get (SOCKETS n) id) as [s|] eqn:Hg; [|by apply returns_done].
  pose proof (net_get_ok _ _ _ Hn Hg) as Hs. case_bool_decide as Hp.
  { apply returns_done. cbn. apply net_ok_put; [done|]. pose proof Hs as []. eapply put_udp_ok; eauto. }
  assert (protocol s = Tcp) as Hp' by (by destruct (protocol s)).
  destruct (state s); try (by apply returns_done);
    (eapply returns_bind; [by apply send_fin_ok|]; intros n' Hn'; by apply returns_done).
Qed.

Lemma release_ok id tb : tb_ok tb -> tb_ok (release id tb).1.
Proof.
  intros Ht. unfold release. destruct (get tb id) as [s|] eqn:Hg; [|done]. cbn.
  apply tb_ok_put; [done|]. apply sock_ok_inactive. by eapply tb_ok_get.
Qed.

Lemma socket_close_ok id n : net_ok n -> returns (socket_close id n) (fun r => net_ok r.1).
Proof.
  intros Hn. eapply (returns_bind _ _ net_ok).
  - destruct (get (SOCKETS n) id); [|by apply returns_done]. destruct (_ && _); [|by apply returns_done].
    eapply returns_bind; [by apply socket_shutdown_ok|]. intros [n' r] Hn'. by apply returns_done.
  - intros n' Hn'. pose proof (release_ok id _ (n_table _ Hn')) as Ht.
    destruct (release id (SOCKETS n')) as [tb r]. apply returns_done. by apply net_ok_set_sockets.
Qed.

Lemma cleanup_ok pid tb : tb_ok tb -> tb_ok (cleanup_by_owner pid tb).
Proof.
  intros Ht. apply tb_ok_fmap; [done|]. intros s Hs. destruct (_ && _); [by apply sock_ok_inactive|done].
Qed.

Lemma arp_request_ok ip n : net_ok n -> net_ok (arp_request ip n).
Proof. intros Hn. unfold arp_request. destruct (ACTIVE_NIC n); [by apply net_ok_set_nic|done]. Qed.

Lemma arp_poll_ok k ip n : net_ok n -> returns (arp_poll k ip n) (fun r => net_ok r.1).
Proof.
  revert n. induction k as [|k IH]; intros n Hn; cbn; [by apply returns_done|].
  eapply returns_bind; [by apply nic_receive_ok|]. intros [n' b] Hn'. cbn in Hn'.
  destruct (arp_lookup ip n'); [by apply returns_done|by apply IH].
Qed.

Lemma arp_resolve_ok ip n : net_ok n -> returns (arp_resolve ip n) (fun r => net_ok r.1).
Proof.
  intros Hn. unfold arp_resolve. destruct (arp_lookup ip n); [by apply returns_done|].
  by apply arp_poll_ok, arp_request_ok.
Qed.

(** [poll] with a zero timeout looks once. *)
Lemma socket_poll_now_ok fds n : net_ok n -> returns (socket_poll 1 fds 0 n) (fun r => net_ok r.1.1).
Proof.
  intros Hn. unfold socket_poll. pose proof (read_clock_ok n Hn) as [Hn' _]. destruct (read_clock n) as [n' now].
  cbn [poll_loop]. eapply returns_bind; [by apply deliver_one_ok|]. intros n'' Hn''. cbv zeta.
  destruct (0 <? _); by apply returns_done.
Qed.

Lemma net_ok_init c : net_ok (init c).
Proof.
  split; try done; [apply tb_ok_new|exists []; split; [apply LoopbackSpec.loopback_holds_new|done]|].
  split; [done|]. split; [cbn; lia|]. by apply (Forall_replicate _ 512).
Qed.

End Inv.
End NetInv.
