(* ===== verification/NetDelivery.v ===== *)
(** * Delivery over the loopback interface

    A packet that was built, transmitted to an address of the loopback network
    and delivered reaches the protocol handler with the fields it was built
    from; what the handlers then do to the receiving socket. *)

From S2P Require Import Prelude NetWire NetWireSpec Ring Sockets SocketSpec NetStack NetInv.

Module NetDelivery.
Import Socket SocketTable NetStack TableFacts NetInv PacketFacts.

(** ** Scans of an updated table *)
Lemma first_insert p tb i s s' :
  tb !! i = Some s -> p s' = p s -> (p s = true -> generation s' = generation s) ->
  id_of <$> first p (<[i := s']> tb) = id_of <$> first p tb.
Proof.
  intros Hi Hp Hg. assert (Hlt : (i < length tb)%nat) by (by eapply lookup_lt_Some).
  destruct (first p tb) as [[j x]|] eqn:Hf.
  - apply first_Some in Hf as (Hj & Hx & Hmin).
    assert (first p (<[i := s']> tb) = Some (j, if decide (i = j) then s' else x)) as ->.
    { apply first_Some. split_all.
      - destruct (decide (i = j)) as [->|]; [by rewrite list_lookup_insert_eq|by rewrite list_lookup_insert_ne].
      - destruct (decide (i = j)) as [->|]; [|done]. simplify_eq. by rewrite Hp.
      - intros k y Hk Hlt'. destruct (decide (i = k)) as [->|].
        + rewrite list_lookup_insert_eq in Hk by done. simplify_eq. rewrite Hp. by eapply Hmin.
        + rewrite list_lookup_insert_ne in Hk by done. by eapply Hmin. }
    cbn. destruct (decide (i = j)) as [->|]; [|done]. simplify_eq. unfold id_of. cbn. by rewrite Hg.
  - rewrite first_None in Hf. assert (first p (<[i := s']> tb) = None) as ->; [|done].
    apply first_None. intros k y Hk. destruct (decide (i = k)) as [->|].
    + rewrite list_lookup_insert_eq in Hk by done. simplify_eq. rewrite Hp. by eapply Hf.
    + rewrite list_lookup_insert_ne in Hk by done. by eapply Hf.
Qed.

(** The first match after a slot starts to match. *)
Lemma first_insert_new p tb i s s' :
  tb !! i = Some s -> first p tb = None -> p s' = true -> first p (<[i := s']> tb) = Some (i, s').
Proof.
  intros Hi Hf Hp. rewrite first_None in Hf. apply first_Some.
  rewrite list_lookup_insert_eq by (by eapply lookup_lt_Some). split_all; try done.
  intros j x Hj Hlt. rewrite list_lookup_insert_ne in Hj by lia. by eapply Hf.
Qed.

(** A socket that keeps its addresses is found as before. *)
Lemma find_tcp_put tb id s s' local remote :
  get tb id = Some s -> active s' = true -> protocol s' = protocol s -> generation s' = generation s ->
  local_addr s' = local_addr s -> remote_addr s' = remote_addr s ->
  find_tcp_connection (put tb id s') local remote = find_tcp_connection tb local remote.
Proof.
  intros (Hl & Ha & _)%get_Some Ha' Hp Hg Hlo Hre. unfold find_tcp_connection, put.
  eapply first_insert; [done| |done]. unfold local_match. by rewrite Ha, Ha', Hp, Hlo, Hre.
Qed.

Section Delivery.
Context {D T : Type} `{NicDriver D} `{Timer T}.
Implicit Types n : Net (D:=D) (T:=T).

Lemma write_room b xs bytes : RingBufferSpec.holds b xs ->
  Z.of_nat (length xs + length bytes) <= 4096 ->
  exists b', RingBuffer.write b bytes = Done (b', Z.of_nat (length bytes)) /\ RingBufferSpec.holds b' (xs ++ bytes).
Proof.
  intros Hb Hle. destruct (RingBufferSpec.write_spec b xs bytes Hb) as (b' & Hw & Hb').
  rewrite take_ge in Hw, Hb' by (unfold RingBuffer.RING_BUF_SIZE; lia). eauto.
Qed.

(** ** From transmission to the protocol handler *)
Lemma transmit_loop src dst proto pkt ip seg n ps :
  carries src dst proto pkt ip seg -> is_loopback (SocketAddr.addr dst) = true ->
  LoopbackSpec.holds (LOOPBACK n) ps -> (length ps < 64)%nat -> Z.of_nat (length pkt) <= 1500 ->
  exists q, transmit_ip pkt n = Done (set_LOOPBACK q n) /\ LoopbackSpec.holds q (ps ++ [pkt]).
Proof.
  intros Hc Hl Hq Hps Hlen. unfold transmit_ip.
  pose proof (c_ip _ _ _ _ _ _ Hc []) as Hip. rewrite app_nil_r in Hip. rewrite Hip, (c_dst _ _ _ _ _ _ Hc), Hl.
  destruct (LoopbackSpec.enqueue_spec _ _ pkt Hq) as (q & -> & Hq'); [lia|done|]. exec_simpl. eauto.
Qed.

Lemma deliver_loop src dst proto pkt ip seg n ps :
  carries src dst proto pkt ip seg -> LoopbackSpec.holds (LOOPBACK n) (pkt :: ps) ->
  exists q, deliver_one n = dispatch ip seg (set_LOOPBACK q n) /\ LoopbackSpec.holds q ps.
Proof.
  intros Hc Hq. unfold deliver_one.
  destruct (LoopbackSpec.dequeue_spec _ _ _ Hq) as (q & -> & Hq' & _). exec_simpl.
  rewrite (LoopbackSpec.slice_packet pkt _ 0) by lia. exec_simpl. rewrite drop_0.
  pose proof (c_ip _ _ _ _ _ _ Hc []) as Hip. rewrite app_nil_r in Hip. rewrite Hip.
  pose proof (c_pkt _ _ _ _ _ _ Hc) as Hp. pose proof (c_len _ _ _ _ _ _ Hc) as Hl.
  change Ipv4Header.SIZE with (Z.of_nat 20). rewrite LoopbackSpec.slice_packet
    by (rewrite Hp, length_app, Hl; lia). exec_simpl.
  exists q. split; [|done]. f_equal. by rewrite Hp, <- Hl, drop_app_length.
Qed.

(** Nothing waits at the NIC. *)
Definition quiet n : Prop := forall nic, ACTIVE_NIC n = Some nic -> (poll_rx nic).2 = None.

Lemma deliver_idle n : net_ok n -> LoopbackSpec.holds (LOOPBACK n) [] -> quiet n ->
  exists n', deliver_one n = Done n' /\ net_ok n' /\ SOCKETS n' = SOCKETS n /\ LOOPBACK n' = LOOPBACK n.
Proof.
  intros Hn Hq Hquiet. unfold deliver_one. rewrite LoopbackSpec.dequeue_empty by done. exec_simpl.
  assert (set_LOOPBACK (LOOPBACK n) n = n) as -> by (by destruct n).
  assert (exists n', nic_receive_one n = Done (n', false) /\ net_ok n' /\ SOCKETS n' = SOCKETS n /\
    LOOPBACK n' = LOOPBACK n) as (n' & -> & Hn' & Hs & Hlo).
  { unfold nic_receive_one. destruct (ACTIVE_NIC n) as [nic|] eqn:Ha; [|by exists n].
    specialize (Hquiet nic Ha). destruct (poll_rx nic) as [nic' r]. cbn in Hquiet. subst r.
    eexists. split; [reflexivity|]. split; [by apply net_ok_set_nic|done]. }
  exec_simpl. rewrite check_all_idle by done. pose proof (read_clock_ok n' Hn') as [? He].
  eexists. split; [reflexivity|]. split_all; [done|congruence|].
  unfold read_clock. destruct (tick_count _). done.
Qed.

(** ** UDP *)

(** What a datagram leaves in the receive buffer: [src_port:2][src_ip:4][len:2][data:N]. *)
Definition udp_frame (src : SocketAddr.t) (data : list Z) : list Z :=
  Be.be16 (SocketAddr.port src) ++ SocketAddr.addr src ++ Be.be16 (Z.of_nat (length data)) ++ data.

Lemma udp_frame_length src data : sa_ok src -> length (udp_frame src data) = (8 + length data)%nat.
Proof. intros [[Hl _] _]. unfold udp_frame. rewrite !length_app, Hl. done. Qed.

Lemma udp_receive_spec src dst pkt ip udp data tb rid r xs :
  carries src dst 17 pkt ip (UdpHeader.to_bytes udp ++ data) -> HeaderFacts.udp_ok udp -> sa_ok src ->
  UdpHeader.src_port udp = SocketAddr.port src -> UdpHeader.dst_port udp = SocketAddr.port dst ->
  UdpHeader.length udp = 8 + Z.of_nat (length data) -> Z.of_nat (length data) < 65528 ->
  find_by_local tb dst Udp = Some rid -> get tb rid = Some r -> RingBufferSpec.holds (rx r) xs ->
  Z.of_nat (length xs + 8 + length data) <= 4096 ->
  exists b, udp_receive_packet ip (UdpHeader.to_bytes udp ++ data) tb = Done (put tb rid (set_rx b r)) /\
    RingBufferSpec.holds b (xs ++ udp_frame src data).
Proof.
  intros Hc Hu Hsrc Hsp Hdp Hlen Hl Hf Hg Hx Hroom. unfold udp_receive_packet.
  rewrite HeaderFacts.udp_from_to by done. rewrite (c_dst _ _ _ _ _ _ Hc), Hdp, (c_src _ _ _ _ _ _ Hc), Hsp.
  replace (SocketAddr.mk (SocketAddr.addr dst) (SocketAddr.port dst)) with dst by (by destruct dst). rewrite Hf.
  assert (sat_sub (UdpHeader.length udp) UdpHeader.SIZE = Z.of_nat (length data)) as ->
    by (unfold sat_sub, UdpHeader.SIZE; lia).
  assert (length (UdpHeader.to_bytes udp) = 8%nat) as H8 by done.
  rewrite (proj2 (Z.ltb_ge _ _)) by (rewrite length_app, H8; unfold UdpHeader.SIZE; lia).
  assert (slice_get (UdpHeader.to_bytes udp ++ data) UdpHeader.SIZE (UdpHeader.SIZE + Z.of_nat (length data)) =
    Done data) as ->.
  { unfold slice_get. rewrite decide_True by (rewrite length_app, H8; unfold UdpHeader.SIZE; lia).
    change (Z.to_nat UdpHeader.SIZE) with (length (UdpHeader.to_bytes udp)). rewrite drop_app_length.
    f_equal. apply take_ge. unfold UdpHeader.SIZE. lia. }
  exec_simpl. rewrite Hg, (wrap_small 16 (Z.of_nat _)) by (change (2 ^ 16) with 65536; lia).
  destruct (proj1 Hsrc) as [Hsl _].
  destruct (write_room _ _ (Be.be16 (SocketAddr.port src)) Hx) as (b1 & -> & Hb1); [cbn; lia|]. exec_simpl.
  destruct (write_room _ _ (SocketAddr.addr src) Hb1) as (b2 & -> & Hb2);
    [rewrite !length_app, Hsl; cbn; lia|]. exec_simpl.
  destruct (write_room _ _ (Be.be16 (Z.of_nat (length data))) Hb2) as (b3 & -> & Hb3);
    [rewrite !length_app, Hsl; cbn; lia|]. exec_simpl.
  destruct (write_room _ _ data Hb3) as (b4 & -> & Hb4); [rewrite !length_app, Hsl; cbn; lia|]. exec_simpl.
  exists b4. split; [done|]. unfold udp_frame. by rewrite !app_assoc in *.
Qed.

(** Receiving takes one datagram out of the buffer, and what does not fit in the
    caller's buffer is dropped. *)
Lemma recv_frame n n' id s src data rest cap :
  deliver_one n = Done n' -> get (SOCKETS n') id = Some s -> protocol s = Udp -> sa_ok src ->
  Z.of_nat (length data) < 65536 -> RingBufferSpec.holds (rx s) (udp_frame src data ++ rest) -> 0 <= cap ->
  exists b, socket_recv id cap n =
      Done (set_SOCKETS (put (SOCKETS n') id (set_rx b s)) n', Ok (take (Z.to_nat cap) data)) /\
    RingBufferSpec.holds b rest.
Proof.
  intros Hd Hg Hp Hsrc Hlen Hx Hcap. unfold socket_recv. rewrite Hd. exec_simpl. rewrite Hg.
  rewrite bool_decide_eq_true_2 by done.
  destruct Hsrc as [[H4 _] _]. destruct (SocketAddr.addr src) as [|a0 [|a1 [|a2 [|a3 [|]]]]] eqn:Ha; try done.
  rewrite (RingBufferSpec.is_empty_spec _ _ Hx), bool_decide_eq_false_2 by done.
  destruct (RingBufferSpec.read_spec _ _ 8 Hx) as (b1 & -> & Hb1); [lia|]. exec_simpl.
  unfold udp_frame in Hb1 |- *. rewrite Ha in Hb1 |- *.
  change (Z.to_nat 8) with 8%nat in *. cbn -[wrap Z.shiftr Be.of_be16 RingBuffer.read] in Hb1 |- *.
  rewrite drop_0 in Hb1. change (take 0 (data ++ rest)) with (@nil Z).
  rewrite BeFacts.be16_back by (unfold in_u; change (2 ^ 16) with 65536; lia).
  set (L := Z.of_nat (length data)) in *.
  destruct (RingBufferSpec.read_spec _ _ (Z.min L cap) Hb1) as (b2 & -> & Hb2); [lia|]. exec_simpl.
  assert (take (Z.to_nat (Z.min L cap)) (data ++ rest) = take (Z.to_nat cap) data) as ->.
  { rewrite take_app_le by lia. destruct (Z.min_spec L cap) as [[? ->]|[? ->]]; [|done].
    rewrite !take_ge by lia. done. }
  destruct (Z.ltb_spec (Z.min L cap) L).
  - eexists. split; [reflexivity|]. apply (RingBufferSpec.discard_spec _ _ (L - Z.min L cap)) in Hb2; [|lia].
    rewrite drop_drop in Hb2. replace (_ + _)%nat with (length data) in Hb2 by lia. by rewrite drop_app_length in Hb2.
  - eexists. split; [reflexivity|]. replace (Z.to_nat (Z.min L cap)) with (length data) in Hb2 by lia.
    by rewrite drop_app_length in Hb2.
Qed.

(** ** TCP *)

(** [pkt] is the segment from [src] to [dst] with the given fields. *)
Record tcp_pkt (src dst : SocketAddr.t) (seq ack fl : Z) (data pkt : list Z) (ip : Ipv4Header.t) (tcp : TcpHeader.t)
  : Prop := {
  tp_carries : carries src dst 6 pkt ip (TcpHeader.to_bytes tcp ++ data);
  tp_ok : HeaderFacts.tcp_ok tcp;
  tp_src : TcpHeader.src_port tcp = SocketAddr.port src;
  tp_dst : TcpHeader.dst_port tcp = SocketAddr.port dst;
  tp_seq : TcpHeader.seq_num tcp = seq;
  tp_ack : TcpHeader.ack_num tcp = ack;
  tp_flags : TcpHeader.flags tcp = fl;
}.

(** Sending a segment over the loopback interface appends it to the queue. *)
Lemma send_loop src dst seq ack fl data n ps :
  sa_ok src -> sa_ok dst -> in_u 32 seq -> in_u 32 ack -> 0 <= fl < 64 -> Forall (in_u 8) data ->
  Z.of_nat (length data) <= 1460 -> is_loopback (SocketAddr.addr dst) = true ->
  LoopbackSpec.holds (LOOPBACK n) ps -> (length ps < 64)%nat ->
  exists q pkt ip tcp, segment src dst seq ack fl data = Done (Some pkt) /\
    transmit_ip pkt n = Done (set_LOOPBACK q n) /\ LoopbackSpec.holds q (ps ++ [pkt]) /\
    tcp_pkt src dst seq ack fl data pkt ip tcp.
Proof.
  intros Hs Hd Hsq Hak Hfl Hdata Hl Hlo Hq Hps.
  destruct (build_tcp_spec src dst seq ack fl 4096 data Loopback.LOOPBACK_MTU)
    as (pkt & ip & tcp & Hb & Hc & Hok & H1 & H2 & H3 & H4 & H5 & _ & Hlen);
    try done; [unfold Loopback.LOOPBACK_MTU; lia|lia|].
  destruct (transmit_loop _ _ _ _ _ _ n ps Hc) as (q & Ht & Hq'); [done..|lia|].
  exists q, pkt, ip, tcp. split_all; try done.
Qed.

(** A segment of a known connection goes to its state machine. *)
Lemma dispatch_known src dst seq ack fl data pkt ip tcp n id :
  tcp_pkt src dst seq ack fl data pkt ip tcp -> find_tcp_connection (SOCKETS n) dst src = Some id ->
  dispatch ip (TcpHeader.to_bytes tcp ++ data) n = tcp_state_machine id tcp data n.
Proof.
  intros [Hc Hok Hsp Hdp _ _ _] Hf. unfold dispatch, tcp_receive_packet.
  rewrite (c_proto _ _ _ _ _ _ Hc). rewrite HeaderFacts.tcp_from_to by done.
  rewrite (c_src _ _ _ _ _ _ Hc), (c_dst _ _ _ _ _ _ Hc), Hsp, Hdp.
  replace (SocketAddr.mk (SocketAddr.addr dst) (SocketAddr.port dst)) with dst by (by destruct dst).
  replace (SocketAddr.mk (SocketAddr.addr src) (SocketAddr.port src)) with src by (by destruct src).
  rewrite Hf. done.
Qed.

(** A SYN for a listening port, of no known connection, opens one. *)
Lemma dispatch_syn src dst seq ack data pkt ip tcp n lid :
  tcp_pkt src dst seq ack TcpHeader.SYN data pkt ip tcp -> find_tcp_connection (SOCKETS n) dst src = None ->
  find_listener (SOCKETS n) (SocketAddr.port dst) = Some lid ->
  dispatch ip (TcpHeader.to_bytes tcp ++ data) n = handle_syn lid tcp src dst n.
Proof.
  intros [Hc Hok Hsp Hdp _ _ Hfl] Hf Hli. unfold dispatch, tcp_receive_packet.
  rewrite (c_proto _ _ _ _ _ _ Hc). rewrite HeaderFacts.tcp_from_to by done.
  rewrite (c_src _ _ _ _ _ _ Hc), (c_dst _ _ _ _ _ _ Hc), Hsp, Hdp.
  replace (SocketAddr.mk (SocketAddr.addr dst) (SocketAddr.port dst)) with dst by (by destruct dst).
  replace (SocketAddr.mk (SocketAddr.addr src) (SocketAddr.port src)) with src by (by destruct src).
  rewrite Hf, Hfl, Hli. done.
Qed.

(** ** A connected pair *)

(** [a] and [b] are the two ends of an established loopback connection, with
    nothing in flight; [b] has received [xs] that was not read yet. *)
Record linked n (aid bid : Z) (a b : Socket.t) (xs : list Z) : Prop := {
  l_ok : net_ok n;
  l_idle : LoopbackSpec.holds (LOOPBACK n) [];
  l_a : get (SOCKETS n) aid = Some a;
  l_b : get (SOCKETS n) bid = Some b;
  l_ne : SocketId.slot aid <> SocketId.slot bid;
  l_tcp : protocol a = Tcp /\ protocol b = Tcp;
  l_est : state a = Established /\ state b = Established;
  l_remote : remote_addr a = local_addr b /\ remote_addr b = local_addr a;
  l_loop : is_loopback (SocketAddr.addr (local_addr a)) = true /\ is_loopback (SocketAddr.addr (local_addr b)) = true;
  l_find_a : find_tcp_connection (SOCKETS n) (local_addr a) (local_addr b) = Some aid;
  l_find_b : find_tcp_connection (SOCKETS n) (local_addr b) (local_addr a) = Some bid;
  l_rx : RingBufferSpec.holds (rx b) xs;
}.

(** Data arriving at the receiving end: it is stored and acknowledged. *)
Lemma data_segment b tcp data n xs n' :
  state b = Established -> TcpHeader.flags tcp = TcpHeader.ACK -> data <> [] ->
  RingBufferSpec.holds (rx b) xs -> Z.of_nat (length xs + length data) <= 4096 ->
  (forall rb, send_ack_segment (set_recv_seq (u32_add (TcpHeader.seq_num tcp) (wrap 32 (Z.of_nat (length data))))
     (set_rx rb b)) n = Done n') ->
  exists rb, RingBufferSpec.holds rb (xs ++ data) /\
    tcp_transition b tcp data n =
    Done (set_recv_seq (u32_add (TcpHeader.seq_num tcp) (wrap 32 (Z.of_nat (length data)))) (set_rx rb b), n').
Proof.
  intros Hst Hfl Hne Hx Hroom Hsend. unfold tcp_transition. rewrite Hst, Hfl.
  destruct (write_room _ _ data Hx Hroom) as (rb & Hw & Hrb).
  change (negb (Z.land TcpHeader.ACK TcpHeader.FIN =? 0)) with false.
  change (negb (Z.land TcpHeader.ACK TcpHeader.ACK =? 0)) with true. cbn [andb].
  rewrite (bool_decide_eq_true_2 (data <> [])), (bool_decide_eq_false_2 (data = [])) by done.
  rewrite Hw. exec_simpl. rewrite Hsend. exec_simpl. eauto.
Qed.

(** A pure acknowledgement at the sending end. *)
Lemma ack_segment a tcp n :
  net_ok n -> state a = Established -> TcpHeader.flags tcp = TcpHeader.ACK ->
  retransmit a = Some RetransmitQueue.new ->
  exists n', tcp_transition a tcp [] n = Done (set_send_ack (TcpHeader.ack_num tcp) a, n') /\
    net_ok n' /\ SOCKETS n' = SOCKETS n /\ LOOPBACK n' = LOOPBACK n.
Proof.
  intros Hn Hst Hfl Hr. unfold tcp_transition. rewrite Hst, Hfl.
  change (negb (Z.land TcpHeader.ACK TcpHeader.FIN =? 0)) with false.
  change (negb (Z.land TcpHeader.ACK TcpHeader.ACK =? 0)) with true. cbn [andb].
  rewrite (bool_decide_eq_false_2 ([] <> [])) by (by intros []). exec_simpl.
  rewrite bool_decide_eq_true_2 by done. cbn [andb negb].
  destruct (ack_queue_ok (TcpHeader.ack_num tcp) (set_send_ack (TcpHeader.ack_num tcp) a) n Hn Hr)
    as (n' & E & Hn' & Hs). rewrite E. exists n'. split_all; try done.
  unfold ack_queue in E. cbn in E. rewrite Hr in E. unfold read_clock in E. destruct (tick_count _). by simplify_eq.
Qed.

(** Sending on a connected pair: the data is in the peer's buffer and its
    acknowledgement on the way back. *)
Lemma linked_send n aid bid a b xs data :
  linked n aid bid a b xs -> Forall (in_u 8) data -> data <> [] -> Z.of_nat (length data) <= 1460 ->
  Z.of_nat (length xs + length data) <= 4096 ->
  let next := u32_add (send_seq a) (wrap 32 (Z.of_nat (length data))) in
  exists n1 rb pkt ip tcp, socket_send aid data n = Done (n1, Ok (Z.of_nat (length data))) /\ net_ok n1 /\
    SOCKETS n1 = put (put (SOCKETS n) aid (set_send_seq next a)) bid (set_recv_seq next (set_rx rb b)) /\
    RingBufferSpec.holds rb (xs ++ data) /\ LoopbackSpec.holds (LOOPBACK n1) [pkt] /\
    tcp_pkt (local_addr b) (local_addr a) (send_seq b) next TcpHeader.ACK [] pkt ip tcp.
Proof.
  intros [Hn Hidle Ha Hb Hne [Hpa Hpb] [Hea Heb] [Hra Hrb] [Hla Hlb] Hfa Hfb Hx] Hdata Hd Hlen Hroom next.
  pose proof (net_get_ok _ _ _ Hn Ha) as Hsa. pose proof (net_get_ok _ _ _ Hn Hb) as Hsb.
  assert (returns (socket_send aid data n) (fun r => net_ok r.1)) as (r & Hr & Hok)
    by (apply socket_send_ok; [done|done|lia]).
  set (a1 := set_send_seq next a). set (n0 := set_SOCKETS (put (SOCKETS n) aid a1) n).
  destruct (send_loop (local_addr a) (remote_addr a) (send_seq a) (recv_seq a) TcpHeader.ACK data n0 [])
    as (q & pkt & ip & tcp & Hseg & Htx & Hq & Hp); try done; try apply Hsa; [by rewrite Hra|cbn; lia|].
  assert (tcp_pkt (local_addr a) (local_addr b) (send_seq a) (recv_seq a) TcpHeader.ACK data pkt ip tcp) as Hp'
    by (by rewrite <- Hra).
  destruct (deliver_loop _ _ _ _ _ _ (set_LOOPBACK q n0) [] (tp_carries _ _ _ _ _ _ _ _ _ Hp')) as (q2 & Hdel & Hq2);
    [done|].
  set (m := set_LOOPBACK q2 (set_LOOPBACK q n0)) in *.
  assert (SOCKETS m = put (SOCKETS n) aid a1) as Hsm by done.
  assert (get (SOCKETS m) bid = Some b) as Hgb by (by rewrite Hsm, get_put_ne).
  pose proof Ha as (_ & Haa & _)%get_Some.
  rewrite (dispatch_known _ _ _ _ _ _ _ _ _ m bid Hp') in Hdel by (by rewrite Hsm, (find_tcp_put _ _ a)).
  destruct (send_loop (local_addr b) (remote_addr b) (send_seq b) next TcpHeader.ACK [] m [])
    as (q3 & pkt3 & ip3 & tcp3 & Hseg3 & Htx3 & Hq3 & Hp3); try done; try apply Hsb;
    [apply BeFacts.u32_of_wrap|by rewrite Hrb|cbn; lia|].
  destruct (data_segment b tcp data m xs (set_LOOPBACK q3 m)) as (rb & Hrb' & Htr); try done.
  { by apply Hp'. }
  { intros rb. unfold send_ack_segment, send_built. cbn [local_addr remote_addr send_seq recv_seq set_recv_seq set_rx].
    rewrite (tp_seq _ _ _ _ _ _ _ _ _ Hp'). fold next. rewrite Hseg3. exec_simpl. done. }
  rewrite (tp_seq _ _ _ _ _ _ _ _ _ Hp') in Htr. fold next in Htr.
  assert (socket_send aid data n = Done (set_SOCKETS (put (SOCKETS m) bid (set_recv_seq next (set_rx rb b)))
    (set_LOOPBACK q3 m), Ok (Z.of_nat (length data)))) as E.
  { unfold socket_send. rewrite Ha, Hpa. rewrite bool_decide_eq_false_2 by (intros E; by destruct E). cbv zeta.
    fold next a1 n0. unfold send_and_deliver. rewrite Hseg. exec_simpl. rewrite Htx. exec_simpl.
    cbn [deliver_times]. rewrite Hdel. unfold tcp_state_machine. rewrite Hgb, Htr. done. }
  rewrite E in Hr. injection Hr as <-. rewrite E.
  eexists _, rb, pkt3, ip3, tcp3. split_all; try done. by rewrite <- Hrb.
Qed.

(** The next delivery hands the acknowledgement to the sender, and the pair is
    idle again. *)
Lemma linked_ack n aid bid a b xs data :
  linked n aid bid a b xs -> Forall (in_u 8) data -> data <> [] -> Z.of_nat (length data) <= 1460 ->
  Z.of_nat (length xs + length data) <= 4096 ->
  exists n1 n2 a' b', socket_send aid data n = Done (n1, Ok (Z.of_nat (length data))) /\ net_ok n1 /\
    deliver_one n1 = Done n2 /\ linked n2 aid bid a' b' (xs ++ data) /\
    send_seq a' = u32_add (send_seq a) (wrap 32 (Z.of_nat (length data))) /\
    recv_seq b' = send_seq a' /\ send_ack a' = send_seq a' /\ rx a' = rx a.
Proof.
  intros Hlk Hdata Hd Hlen Hroom.
  destruct (linked_send n aid bid a b xs data Hlk Hdata Hd Hlen Hroom)
    as (n1 & rb & pkt & ip & tcp & Hsend & Hn1 & Htb & Hrb & Hq & Hp).
  destruct Hlk as [Hn Hidle Ha Hb Hne [Hpa Hpb] [Hea Heb] [Hra Hrb'] [Hla Hlb] Hfa Hfb Hx].
  set (next := u32_add (send_seq a) (wrap 32 (Z.of_nat (length data)))) in *.
  set (a1 := set_send_seq next a) in *. set (b1 := set_recv_seq next (set_rx rb b)) in *.
  pose proof Ha as (_ & Haa & _)%get_Some. pose proof Hb as (_ & Hab & _)%get_Some.
  assert (get (put (SOCKETS n) aid a1) bid = Some b) as Hb0 by (by rewrite get_put_ne).
  assert (get (SOCKETS n1) aid = Some a1) as Ha1.
  { rewrite Htb, get_put_ne by done. by eapply get_put. }
  assert (get (SOCKETS n1) bid = Some b1) as Hb1 by (rewrite Htb; by eapply get_put).
  assert (forall l r, find_tcp_connection (SOCKETS n1) l r = find_tcp_connection (SOCKETS n) l r) as Hfind.
  { intros l r. rewrite Htb, (find_tcp_put _ _ b), (find_tcp_put _ _ a) by done. done. }
  destruct (deliver_loop _ _ _ _ _ _ n1 [] (tp_carries _ _ _ _ _ _ _ _ _ Hp) Hq) as (q2 & Hdel & Hq2).
  set (m := set_LOOPBACK q2 n1) in *.
  assert (net_ok m) as Hm by (apply net_ok_set_loopback; [done|by exists []]).
  rewrite (dispatch_known _ _ _ _ _ _ _ _ _ m aid Hp) in Hdel by (by rewrite Hfind).
  destruct (ack_segment a1 tcp m Hm) as (m' & Htr & Hm' & Hsm & Hlm);
    [done|by apply Hp|by apply (so_tcp _ (net_get_ok _ _ _ Hn Ha))|].
  unfold tcp_state_machine in Hdel. change (SOCKETS m) with (SOCKETS n1) in Hdel, Hsm. rewrite Ha1, Htr in Hdel.
  rewrite (tp_ack _ _ _ _ _ _ _ _ _ Hp) in Hdel. exec_simpl. rewrite Hsm in Hdel.
  set (a2 := set_send_ack next a1) in *. set (n2 := set_SOCKETS (put (SOCKETS n1) aid a2) m') in *.
  assert (SOCKETS n2 = put (SOCKETS n1) aid a2) as Hs2 by done.
  exists n1, n2, a2, b1. split; [done|]. split; [done|]. split; [done|]. split; [|done].
  assert (forall l r, find_tcp_connection (SOCKETS n2) l r = find_tcp_connection (SOCKETS n) l r) as Hfind2.
  { intros l r. rewrite Hs2, (find_tcp_put _ _ a1) by done. apply Hfind. }
  split; try done.
  - by destruct (deliver_one_ok n1 Hn1) as (r & Er & Hr); rewrite Hdel in Er; injection Er as <-.
  - cbn. rewrite Hlm. done.
  - rewrite Hs2. by eapply get_put.
  - by rewrite Hs2, get_put_ne.
  - by rewrite Hfind2.
  - by rewrite Hfind2.
Qed.

(** Reading from the buffer of the receiver. *)
Lemma linked_read n aid bid a b xs cap : linked n aid bid a b xs -> 0 <= cap ->
  exists rb, RingBuffer.read (rx b) cap = Done (rb, take (Z.to_nat cap) xs) /\
    linked (set_SOCKETS (put (SOCKETS n) bid (set_rx rb b)) n) aid bid a (set_rx rb b) (drop (Z.to_nat cap) xs).
Proof.
  intros [Hn Hidle Ha Hb Hne [Hpa Hpb] [Hea Heb] [Hra Hrb'] [Hla Hlb] Hfa Hfb Hx] Hcap.
  destruct (RingBufferSpec.read_spec _ _ cap Hx Hcap) as (rb & Hread & Hrb). exists rb. split; [done|].
  pose proof Hb as (_ & Hab & _)%get_Some. pose proof (net_get_ok _ _ _ Hn Hb) as Hsb.
  split; try done; cbn [SOCKETS set_SOCKETS].
  - apply net_ok_put; [done|]. apply sock_ok_rx; [done|].
    destruct (read_ok _ cap (so_rx _ Hsb) Hcap) as (r & Er & Hr). rewrite Hread in Er. injection Er as <-. apply Hr.
  - by rewrite get_put_ne.
  - by eapply get_put.
  - by rewrite (find_tcp_put _ _ b).
  - by rewrite (find_tcp_put _ _ b).
Qed.

(** The two ends are alike. *)
Lemma linked_sym n aid bid a b xs ys : linked n aid bid a b xs -> RingBufferSpec.holds (rx a) ys -> linked n bid aid b a ys.
Proof. intros [Hn Hidle Ha Hb Hne [Hpa Hpb] [Hea Heb] [Hra Hrb] [Hla Hlb] Hfa Hfb Hx] Hy. by split. Qed.

(** Nothing to deliver: the pair stays as it is. *)
Lemma linked_idle n aid bid a b xs : linked n aid bid a b xs -> quiet n ->
  exists n', deliver_one n = Done n' /\ linked n' aid bid a b xs.
Proof.
  intros [Hn Hidle Ha Hb Hne Hp He Hr Hl Hfa Hfb Hx] Hq. destruct (deliver_idle n Hn Hidle Hq) as (n' & Hd & Hn' & Hs & Hlo).
  exists n'. split; [done|]. split; rewrite ?Hs, ?Hlo; done.
Qed.

(** Receiving then acknowledges the data, reads it in order and leaves the pair
    connected. *)
Lemma linked_recv n aid bid a b xs data cap :
  linked n aid bid a b xs -> Forall (in_u 8) data -> data <> [] -> Z.of_nat (length data) <= 1460 ->
  Z.of_nat (length xs + length data) <= 4096 -> 0 <= cap ->
  exists n1, socket_send aid data n = Done (n1, Ok (Z.of_nat (length data))) /\
  exists n2 a' b', socket_recv bid cap n1 = Done (n2, Ok (take (Z.to_nat cap) (xs ++ data))) /\
    linked n2 aid bid a' b' (drop (Z.to_nat cap) (xs ++ data)) /\
    send_seq a' = u32_add (send_seq a) (wrap 32 (Z.of_nat (length data))) /\
    recv_seq b' = send_seq a' /\ send_ack a' = send_seq a' /\ rx a' = rx a.
Proof.
  intros Hlk Hdata Hd Hlen Hroom Hcap.
  destruct (linked_ack n aid bid a b xs data Hlk Hdata Hd Hlen Hroom) as (n1 & n2 & a' & b' & Hs & _ & Hdel & Hl2 & Hseq).
  destruct (linked_read _ _ _ _ _ _ cap Hl2 Hcap) as (rb & Hread & Hl3).
  exists n1. split; [done|]. eexists _, a', (set_rx rb b'). split; [|split; [exact Hl3|exact Hseq]].
  unfold socket_recv. rewrite Hdel. exec_simpl. rewrite (l_b _ _ _ _ _ _ Hl2).
  rewrite bool_decide_eq_false_2 by (by rewrite (proj2 (l_tcp _ _ _ _ _ _ Hl2))).
  rewrite (RingBufferSpec.is_empty_spec _ _ (l_rx _ _ _ _ _ _ Hl2)), bool_decide_eq_false_2.
  - by rewrite Hread.
  - intros E. by apply app_eq_nil in E as [_ ->].
Qed.

End Delivery.
End NetDelivery.
