(* ===== verification/Handshake.v ===== *)
(** * The TCP handshake over the loopback interface

    A client that connects to a listening port of the loopback network is
    established within two deliveries, and the listener's [accept] returns the
    other end of the connection. *)

From S2P Require Import Prelude NetWire NetWireSpec Ring Sockets SocketSpec NetStack NetInv NetDelivery.

Module Handshake.
Import Socket SocketTable NetStack TableFacts NetInv PacketFacts NetDelivery.

Section Handshake.
Context {D T : Type} `{NicDriver D} `{Timer T}.
Implicit Types n : Net (D:=D) (T:=T).

(** The connection socket a SYN with sequence number [seq] creates. *)
Record half_open (conn : Socket.t) (src dst : SocketAddr.t) (isn seq : Z) : Prop := {
  ho_active : active conn = true;
  ho_state : state conn = SynReceived;
  ho_tcp : protocol conn = Tcp;
  ho_local : local_addr conn = dst;
  ho_remote : remote_addr conn = src;
  ho_send : send_seq conn = isn;
  ho_recv : recv_seq conn = u32_add seq 1;
  ho_rx : rx conn = RingBuffer.new;
}.

Definition push_backlog (l : Socket.t) (id : Z) : Socket.t :=
  set_backlog_count (backlog_count l + 1) (set_backlog (<[Z.to_nat (backlog_count l) := id]> (backlog l)) l).

(** A SYN at a listener with room in its backlog: the connection takes a free
    slot, enters the backlog, and the SYN+ACK is on its way. *)
Lemma handle_syn_spec lid h src dst n l ps free :
  net_ok n -> sa_ok src -> sa_ok dst -> get (SOCKETS n) lid = Some l -> backlog_count l < MAX_BACKLOG ->
  free ∈ SOCKETS n -> active free = false -> is_loopback (SocketAddr.addr src) = true ->
  LoopbackSpec.holds (LOOPBACK n) ps -> (length ps < 64)%nat ->
  exists n' i s conn pkt ip tcp, handle_syn lid h src dst n = Done n' /\
    SOCKETS n !! i = Some s /\ active s = false /\
    SOCKETS n' = put (<[i := conn]> (SOCKETS n)) lid (push_backlog l (id_of (i, conn))) /\
    get (SOCKETS n') (id_of (i, conn)) = Some conn /\ Z.to_nat (SocketId.slot (id_of (i, conn))) = i /\
    half_open conn src dst (ISN_COUNTER n) (TcpHeader.seq_num h) /\
    LoopbackSpec.holds (LOOPBACK n') (ps ++ [pkt]) /\
    tcp_pkt dst src (ISN_COUNTER n) (u32_add (TcpHeader.seq_num h) 1) (Z.lor TcpHeader.SYN TcpHeader.ACK)
      [] pkt ip tcp.
Proof.
  intros Hn Hsrc Hdst Hl Hlt Hfree Hfa Hlo Hq Hps. unfold handle_syn. rewrite Hl.
  pose proof (table_alloc_spec Stream Tcp (owner l) (SOCKETS n) (n_table _ Hn)) as Hal.
  destruct (alloc Stream Tcp (owner l) (SOCKETS n)) as [tb [id|e]].
  2:{ destruct Hal as (_ & _ & Hall). apply list_elem_of_lookup_1 in Hfree as [j Hj].
      specialize (Hall _ _ Hj). congruence. }
  destruct Hal as (i & s & c & Hi & Hina & -> & Hg & Hslot & Hok & Hst & Hp & Ho & Hrx & Hact & Hgen & Hid & Hrt).
  pose proof (net_ok_isn n Hn) as [_ Hisn]. cbn [next_isn fst snd] in Hisn |- *. rewrite Hg.
  match goal with |- context [put _ id ?x] => set (conn := x) end.
  assert (id = id_of (i, conn)) as Hid' by done.
  assert (put (<[i := c]> (SOCKETS n)) id conn = <[i := conn]> (SOCKETS n)) as ->
    by (unfold put; rewrite Hslot; by rewrite list_insert_insert_eq).
  pose proof Hl as (Hll & Hla & _)%get_Some.
  assert (Z.to_nat (SocketId.slot lid) <> i) as Hne by (intros E; rewrite E in Hll; congruence).
  assert (get (<[i := conn]> (SOCKETS n)) lid = Some l) as ->.
  { rewrite get_Some. rewrite list_lookup_insert_ne by done. by apply get_Some. }
  rewrite (proj2 (Z.ltb_lt _ _)) by done.
  pose proof (net_get_ok _ _ _ Hn Hl) as Hlok. pose proof (so_backlog _ Hlok). pose proof (so_count _ Hlok).
  unfold arr_set. rewrite decide_True by lia. exec_simpl. rewrite Hid'.
  fold (push_backlog l (id_of (i, conn))). set (tb := put _ lid _). set (n0 := set_SOCKETS tb _).
  destruct (send_loop dst src (ISN_COUNTER n) (u32_add (TcpHeader.seq_num h) 1)
    (Z.lor TcpHeader.SYN TcpHeader.ACK) [] n0 ps) as (q & pkt & ip & tcp & Hseg & Htx & Hq' & Hpk);
    try done; [apply BeFacts.u32_of_wrap|].
  unfold send_built. rewrite Hseg. exec_simpl. rewrite Htx.
  exists (set_LOOPBACK q n0), i, s, conn, pkt, ip, tcp. split_all; try done.
  - cbn [SOCKETS set_LOOPBACK n0 set_SOCKETS]. unfold tb. rewrite get_put_ne.
    + eapply get_id_of; [|done|by apply Hok|by eapply tb_ok_lookup; [apply Hn|]].
      apply list_lookup_insert_eq. by eapply lookup_lt_Some.
    + rewrite <- Hid'. intros E. apply Hne. by rewrite E.
  - by rewrite <- Hid'.
Qed.

(** The client's answer to a SYN+ACK. *)
Lemma syn_ack_segment c tcp n :
  net_ok n -> sock_ok c -> active c = true -> protocol c = Tcp -> state c = SynSent ->
  TcpHeader.flags tcp = Z.lor TcpHeader.SYN TcpHeader.ACK -> LoopbackSpec.holds (LOOPBACK n) [] ->
  is_loopback (SocketAddr.addr (remote_addr c)) = true ->
  let r := u32_add (TcpHeader.seq_num tcp) 1 in
  let c' := set_state Established (set_send_window (TcpHeader.window tcp) (set_send_ack r (set_recv_seq r c))) in
  exists n' pkt ip tcp', tcp_transition c tcp [] n = Done (c', n') /\ net_ok n' /\ SOCKETS n' = SOCKETS n /\
    LoopbackSpec.holds (LOOPBACK n') [pkt] /\
    tcp_pkt (local_addr c) (remote_addr c) (send_seq c) r TcpHeader.ACK [] pkt ip tcp'.
Proof.
  intros Hn Hs Ha Hp Hst Hfl Hq Hlo r c'.
  destruct (tcp_transition_ok c tcp [] n Hn Hs Ha Hp ltac:(constructor)) as ([x y] & Hr & _ & Hy & Hsy).
  assert (retransmit c' = Some RetransmitQueue.new) as Hrt by (by apply (so_tcp _ Hs)).
  destruct (ack_queue_ok (TcpHeader.ack_num tcp) c' n Hn Hrt) as (m & Hack & Hm & Hsm).
  assert (LOOPBACK m = LOOPBACK n) as Hlm.
  { unfold ack_queue in Hack. rewrite Hrt in Hack. unfold read_clock in Hack. destruct (tick_count _). by simplify_eq. }
  destruct (send_loop (local_addr c') (remote_addr c') (send_seq c') r TcpHeader.ACK [] m [])
    as (q & pkt & ip & tcp' & Hseg & Htx & Hq' & Hpk); try done; try apply Hs;
    [apply BeFacts.u32_of_wrap|by rewrite Hlm|cbn; lia|].
  assert (tcp_transition c tcp [] n = Done (c', set_LOOPBACK q m)) as E.
  { unfold tcp_transition. rewrite Hst, Hfl.
    change (negb (Z.land (Z.lor TcpHeader.SYN TcpHeader.ACK) TcpHeader.SYN =? 0) &&
            negb (Z.land (Z.lor TcpHeader.SYN TcpHeader.ACK) TcpHeader.ACK =? 0)) with true. cbv iota.
    cbv zeta. fold r. fold c'. rewrite Hack. unfold send_ack_segment, send_built.
    change (recv_seq c') with r. rewrite Hseg. exec_simpl. by rewrite Htx. }
  rewrite E in Hr. simplify_eq. exists (set_LOOPBACK q m), pkt, ip, tcp'. done.
Qed.

(** The final acknowledgement at the listener's side. *)
Lemma final_ack_segment conn tcp n :
  net_ok n -> retransmit conn = Some RetransmitQueue.new -> state conn = SynReceived ->
  TcpHeader.flags tcp = TcpHeader.ACK ->
  exists n', tcp_transition conn tcp [] n =
      Done (set_state Established (set_send_seq (u32_add (send_seq conn) 1) conn), n') /\
    net_ok n' /\ SOCKETS n' = SOCKETS n /\ LOOPBACK n' = LOOPBACK n.
Proof.
  intros Hn Hr Hst Hfl. unfold tcp_transition. rewrite Hst, Hfl.
  change (negb (Z.land TcpHeader.ACK TcpHeader.ACK =? 0)) with true. cbv iota zeta.
  set (c := set_state _ _). destruct (ack_queue_ok (TcpHeader.ack_num tcp) c n Hn Hr) as (n' & E & Hn' & Hs).
  rewrite E. exists n'. split_all; try done.
  unfold ack_queue in E. change (retransmit c) with (retransmit conn) in E. rewrite Hr in E.
  unfold read_clock in E. destruct (tick_count _). by simplify_eq.
Qed.

(** ** Connecting *)

(** A client [c] about to connect to [remote], where [l] listens with an empty
    backlog. [c0] is the client once bound; no connection between the two
    addresses exists, and a slot is free. *)
Record request n (cid lid : Z) (c c0 l free : Socket.t) (remote : SocketAddr.t) : Prop := {
  rq_ok : net_ok n;
  rq_idle : LoopbackSpec.holds (LOOPBACK n) [];
  rq_client : get (SOCKETS n) cid = Some c;
  rq_tcp : protocol c = Tcp;
  rq_state : state c = Closed \/ state c = Bound;
  rq_start : (start_connect cid remote c n).2 = c0;
  rq_remote : sa_ok remote /\ is_loopback (SocketAddr.addr remote) = true;
  rq_local : is_loopback (SocketAddr.addr (local_addr c0)) = true /\ local_addr c0 <> remote;
  rq_fresh : find_tcp_connection (put (SOCKETS n) cid c0) remote (local_addr c0) = None;
  rq_mine : find_tcp_connection (put (SOCKETS n) cid c0) (local_addr c0) remote = Some cid;
  rq_listener : find_listener (SOCKETS n) (SocketAddr.port remote) = Some lid;
  rq_l : get (SOCKETS n) lid = Some l /\ state l = Listen /\ backlog_count l = 0;
  rq_free : free ∈ SOCKETS n /\ active free = false;
}.

(** Two identifiers of one slot name the same socket. *)
Lemma get_slot_eq tb id id' s s' :
  get tb id = Some s -> get tb id' = Some s' -> SocketId.slot id = SocketId.slot id' -> s = s'.
Proof. intros (H1 & _)%get_Some (H2 & _)%get_Some E. rewrite E in H1. congruence. Qed.

(** Filling a free slot with a connection between other addresses. *)
Lemma find_tcp_free tb i s conn local remote :
  tb !! i = Some s -> active s = false -> remote_addr conn <> remote ->
  find_tcp_connection (<[i := conn]> tb) local remote = find_tcp_connection tb local remote.
Proof.
  intros Hi Ha Hr. unfold find_tcp_connection. eapply first_insert; [done| |].
  - rewrite (bool_decide_eq_false_2 (remote_addr conn = remote)) by done. by rewrite Ha, andb_false_r.
  - by rewrite Ha.
Qed.

(** Filling a free slot with the only connection between two addresses. *)
Lemma find_tcp_new tb i s conn local remote :
  tb !! i = Some s -> find_tcp_connection tb local remote = None -> active conn = true -> protocol conn = Tcp ->
  local_addr conn = local -> remote_addr conn = remote ->
  find_tcp_connection (<[i := conn]> tb) local remote = Some (id_of (i, conn)).
Proof.
  intros Hi Hf Ha Hp Hl Hr. unfold find_tcp_connection in *. rewrite (first_insert_new _ _ i s conn Hi); [done| |].
  - by destruct (first _ tb).
  - unfold local_match. rewrite Ha, !bool_decide_eq_true_2 by done. done.
Qed.

(** What a successful connect leaves: the client established, the connection
    half open in the backlog, the final acknowledgement in flight. *)
Record connected (n1 : Net (D:=D) (T:=T)) (cid lid : Z) (c1 conn l : Socket.t) (i : nat) (remote : SocketAddr.t) : Prop := {
  cn_ok : net_ok n1;
  cn_client : get (SOCKETS n1) cid = Some c1;
  cn_tcp : protocol c1 = Tcp;
  cn_state : state c1 = Established;
  cn_remote : remote_addr c1 = remote;
  cn_conn : get (SOCKETS n1) (id_of (i, conn)) = Some conn;
  cn_half : exists seq, half_open conn (local_addr c1) remote seq (send_seq c1) /\ recv_seq c1 = u32_add seq 1;
  cn_listener : get (SOCKETS n1) lid = Some (push_backlog l (id_of (i, conn)));
  cn_slots : SocketId.slot cid <> SocketId.slot (id_of (i, conn)) /\
    SocketId.slot lid <> SocketId.slot cid /\ SocketId.slot lid <> SocketId.slot (id_of (i, conn));
  cn_find_c : find_tcp_connection (SOCKETS n1) (local_addr c1) remote = Some cid;
  cn_find_s : find_tcp_connection (SOCKETS n1) remote (local_addr c1) = Some (id_of (i, conn));
  cn_ack : exists pkt ip tcp ack, LoopbackSpec.holds (LOOPBACK n1) [pkt] /\
    tcp_pkt (local_addr c1) remote (send_seq c1) ack TcpHeader.ACK [] pkt ip tcp;
}.

(** The listener is found for the client's SYN. *)
Lemma find_listener_put tb id s s' port : get tb id = Some s -> state s <> Listen -> state s' <> Listen ->
  find_listener (put tb id s') port = find_listener tb port.
Proof.
  intros (Hl & _)%get_Some Hs Hs'. unfold find_listener, put. eapply first_insert; [done| |].
  - rewrite (bool_decide_eq_false_2 (state s = Listen)), (bool_decide_eq_false_2 (state s' = Listen)) by done.
    by rewrite !andb_false_r.
  - rewrite (bool_decide_eq_false_2 (state s = Listen)) by done. by rewrite andb_false_r.
Qed.

(** The SYN in flight: the state after [start_connect] and its transmission. *)
Lemma connect_syn n cid lid c c0 l free remote : request n cid lid c c0 l free remote ->
  exists m pkt ip tcp, net_ok m /\ SOCKETS m = put (SOCKETS n) cid c0 /\ get (SOCKETS m) cid = Some c0 /\
    state c0 = SynSent /\ protocol c0 = Tcp /\ remote_addr c0 = remote /\
    LoopbackSpec.holds (LOOPBACK m) [pkt] /\
    tcp_pkt (local_addr c0) remote (send_seq c0) 0 TcpHeader.SYN [] pkt ip tcp /\
    socket_connect cid remote n =
      ('(n, established) ← await_established 10 cid m;
       Done (n, if established : bool then Ok tt else Err ConnectionRefused)).
Proof.
  intros [Hn Hidle Hc Htcp Hst Hstart [Hrem Hlo] _ _ _ _ _ _].
  pose proof (net_get_ok _ _ _ Hn Hc) as Hcs. pose proof Hc as (_ & Hca & _)%get_Some.
  destruct (start_connect_spec cid remote c n Hn) as (n0 & s' & E & Hn0 & Hl0 & _ & Hs0 & Hr0 & Hp0 & Ha0 & Hg0 & Hrt0
    & Hrx0 & Hb0 & Hbc0 & Hsq0 & Hsq0' & Hlo0); [apply Hcs|].
  rewrite E in Hstart. cbn in Hstart. subst s'.
  assert (sock_ok c0) as Hs'.
  { apply (put_tcp_ok n cid c c0); try done; [congruence|by rewrite Hr0| |rewrite Hrx0; apply Hcs].
    split; [done|rewrite Hsq0; apply Hcs]. }
  set (m0 := set_SOCKETS (put (SOCKETS n) cid c0) n0) in *.
  assert (net_ok m0) as Hm0 by (apply net_ok_set_sockets; [done|apply tb_ok_put; [apply Hn|done]]).
  destruct (send_loop (local_addr c0) remote (send_seq c0) 0 TcpHeader.SYN [] m0 [])
    as (q & pkt & ip & tcp & Hseg & Htx & Hq & Hp); try done; [cbn; by rewrite Hl0|cbn; lia|].
  assert (net_ok (set_LOOPBACK q m0)) as Hm.
  { destruct (send_segment_ok (local_addr c0) remote (send_seq c0) 0 TcpHeader.SYN [] m0 Hm0 Hlo0 Hrem ltac:(constructor))
      as (m' & Em & Hm' & _).
    unfold send_built in Em. rewrite Hseg in Em. exec_simpl. rewrite Htx in Em. by injection Em as <-. }
  exists (set_LOOPBACK q m0), pkt, ip, tcp. split_all; try done; try congruence.
  - change (SOCKETS (set_LOOPBACK q m0)) with (put (SOCKETS n) cid c0). eapply get_put; [done|congruence|done].
  - unfold socket_connect. rewrite Hc. rewrite bool_decide_eq_false_2 by congruence.
    assert (bool_decide (state c <> Closed) && bool_decide (state c <> Bound) = false) as ->.
    { destruct Hst as [-> | ->]; done. }
    rewrite E, Hlo. unfold send_built. rewrite Hseg. exec_simpl. rewrite Htx. done.
Qed.

(** A delivery that returns keeps the invariant. *)
Lemma deliver_keeps n n' : net_ok n -> deliver_one n = Done n' -> net_ok n'.
Proof. intros Hn E. destruct (deliver_one_ok n Hn) as (x & E' & Hx). congruence. Qed.

(** The SYN is delivered: the connection is half open. *)
Lemma connect_half_open n cid lid c c0 l free remote m pkt ip tcp :
  request n cid lid c c0 l free remote -> net_ok m -> SOCKETS m = put (SOCKETS n) cid c0 ->
  get (SOCKETS m) cid = Some c0 -> LoopbackSpec.holds (LOOPBACK m) [pkt] -> sa_ok (local_addr c0) ->
  state c0 = SynSent -> remote_addr c0 = remote ->
  tcp_pkt (local_addr c0) remote (send_seq c0) 0 TcpHeader.SYN [] pkt ip tcp ->
  exists m2 i conn pkt2 ip2 tcp2 isn, deliver_one m = Done m2 /\ net_ok m2 /\
    get (SOCKETS m2) cid = Some c0 /\ get (SOCKETS m2) (id_of (i, conn)) = Some conn /\
    get (SOCKETS m2) lid = Some (push_backlog l (id_of (i, conn))) /\
    half_open conn (local_addr c0) remote isn (send_seq c0) /\
    SocketId.slot cid <> SocketId.slot (id_of (i, conn)) /\ SocketId.slot lid <> SocketId.slot cid /\
    SocketId.slot lid <> SocketId.slot (id_of (i, conn)) /\
    find_tcp_connection (SOCKETS m2) (local_addr c0) remote = Some cid /\
    find_tcp_connection (SOCKETS m2) remote (local_addr c0) = Some (id_of (i, conn)) /\
    LoopbackSpec.holds (LOOPBACK m2) [pkt2] /\
    tcp_pkt remote (local_addr c0) isn (u32_add (send_seq c0) 1) (Z.lor TcpHeader.SYN TcpHeader.ACK) [] pkt2 ip2 tcp2.
Proof.
  intros [Hn Hidle Hc Htcp Hst Hstart [Hrem Hlo] [Hloc Hneq] Hfresh Hmine Hlis (Hl & Hll & Hlb) [Hfree Hfa]]
    Hm Hsm Hgc Hq Hlok Hs0 Hr0 Hp.
  assert (state c <> Listen) as Hcl by (destruct Hst as [-> | ->]; done).
  assert (SocketId.slot lid <> SocketId.slot cid) as Hlc.
  { intros E. pose proof (get_slot_eq _ _ _ _ _ Hl Hc E). by subst. }
  destruct (deliver_loop _ _ _ _ _ _ m [] (tp_carries _ _ _ _ _ _ _ _ _ Hp) Hq) as (q & Hdel & Hq').
  set (m1 := set_LOOPBACK q m) in *. change (SOCKETS m) with (SOCKETS m1) in Hsm, Hgc.
  rewrite (dispatch_syn _ _ _ _ _ _ _ _ m1 lid Hp) in Hdel;
    [|by rewrite Hsm|rewrite Hsm, (find_listener_put _ _ c); [done|done|done|by rewrite Hs0]].
  assert (net_ok m1) as Hm1 by (apply net_ok_set_loopback; [done|by exists []]).
  pose proof Hc as (Hci & Hca & _)%get_Some. pose proof Hgc as (Hgci & Hgca & _)%get_Some.
  assert (free ∈ SOCKETS m1) as Hfree1.
  { apply list_elem_of_lookup_1 in Hfree as [j Hj]. rewrite Hsm. apply list_elem_of_lookup_2 with j. unfold put.
    rewrite list_lookup_insert_ne; [done|]. intros <-. congruence. }
  assert (get (SOCKETS m1) lid = Some l) as Hl1 by (by rewrite Hsm, get_put_ne by done).
  destruct (handle_syn_spec lid tcp (local_addr c0) remote m1 l [] free)
    as (m2 & i & s & conn & pkt2 & ip2 & tcp2 & Hsyn & Hi & Hina & Htb & Hgconn & Hslot & Hho & Hq2 & Hp2);
    try done; [rewrite Hlb; unfold MAX_BACKLOG; lia|cbn; lia|].
  rewrite (tp_seq _ _ _ _ _ _ _ _ _ Hp) in Hho, Hp2. rewrite Hsyn in Hdel.
  assert (i <> Z.to_nat (SocketId.slot cid)) as Hic by (intros ->; congruence).
  pose proof Hl1 as (Hli & Hla & _)%get_Some.
  assert (i <> Z.to_nat (SocketId.slot lid)) as Hil by (intros ->; congruence).
  assert (get (<[i := conn]> (SOCKETS m1)) lid = Some l) as Hl2.
  { rewrite get_Some, list_lookup_insert_ne by done. by apply get_Some. }
  exists m2, i, conn, pkt2, ip2, tcp2, (ISN_COUNTER m1). split_all; try done.
  - by apply (deliver_keeps m).
  - rewrite Htb, get_put_ne by done. rewrite get_Some, list_lookup_insert_ne by done. by apply get_Some.
  - rewrite Htb. by eapply get_put.
  - intros E. apply Hic. by rewrite E, Hslot.
  - intros E. apply Hil. by rewrite E, Hslot.
  - rewrite Htb, (find_tcp_put _ _ l), (find_tcp_free _ _ s); try done; [by rewrite Hsm|].
    rewrite (ho_remote _ _ _ _ _ Hho). done.
  - rewrite Htb, (find_tcp_put _ _ l), (find_tcp_new _ _ s); try done; [by rewrite Hsm|apply Hho..].
Qed.

(** Connecting to a listener of the loopback network establishes the client. *)
Lemma connect_spec n cid lid c c0 l free remote : request n cid lid c c0 l free remote ->
  exists n1 c1 conn i, socket_connect cid remote n = Done (n1, Ok tt) /\
    connected n1 cid lid c1 conn l i remote /\ local_addr c1 = local_addr c0.
Proof.
  intros Hrq. destruct (connect_syn _ _ _ _ _ _ _ _ Hrq)
    as (m & pkt & ip & tcp & Hm & Hsm & Hgc & Hs0 & Hp0 & Hr0 & Hq & Hp & ->).
  pose proof (net_get_ok _ _ _ Hm Hgc) as Hok0. pose proof Hgc as (_ & Ha0 & _)%get_Some.
  destruct (connect_half_open _ _ _ _ _ _ _ _ m pkt ip tcp Hrq Hm Hsm Hgc Hq (so_local _ Hok0) Hs0 Hr0 Hp)
    as (m2 & i & conn & pkt2 & ip2 & tcp2 & isn & Hd1 & Hm2 & Hg2 & Hgconn & Hgl & Hho & Hs1 & Hs2 & Hs3 & Hf1 & Hf2 & Hq2 & Hp2).
  destruct (deliver_loop _ _ _ _ _ _ m2 [] (tp_carries _ _ _ _ _ _ _ _ _ Hp2) Hq2) as (q3 & Hd2 & Hq3).
  set (m3 := set_LOOPBACK q3 m2) in *. change (SOCKETS m2) with (SOCKETS m3) in Hg2, Hgconn, Hgl, Hf1, Hf2.
  rewrite (dispatch_known _ _ _ _ _ _ _ _ _ m3 cid Hp2 Hf1) in Hd2.
  assert (net_ok m3) as Hm3 by (apply net_ok_set_loopback; [done|by exists []]).
  destruct (rq_remote _ _ _ _ _ _ _ _ Hrq) as [_ Hlo].
  destruct (syn_ack_segment c0 tcp2 m3 Hm3 Hok0 Ha0 Hp0 Hs0) as (m4 & pkt4 & ip4 & tcp4 & Htr & Hm4 & Hsm4 & Hq4 & Hp4);
    [by apply Hp2|done|by rewrite Hr0|].
  set (c1 := set_state Established _) in Htr. unfold tcp_state_machine in Hd2. rewrite Hg2, Htr in Hd2. exec_simpl.
  rewrite Hsm4 in Hd2. set (n1 := set_SOCKETS (put (SOCKETS m3) cid c1) m4) in *.
  assert (SOCKETS n1 = put (SOCKETS m3) cid c1) as Hsn by done.
  assert (get (SOCKETS n1) cid = Some c1) as Hgc1 by (rewrite Hsn; by eapply get_put).
  assert (forall l r, find_tcp_connection (SOCKETS n1) l r = find_tcp_connection (SOCKETS m3) l r) as Hfind.
  { intros. rewrite Hsn. by apply (find_tcp_put _ _ c0). }
  exists n1, c1, conn, i. split_all; [|split; try done|done].
  - change 10%nat with (S (S 8)). cbn [await_established]. rewrite Hd1. exec_simpl.
    change (SOCKETS m2) with (SOCKETS m3). rewrite Hg2. rewrite bool_decide_eq_false_2 by (by rewrite Hs0).
    rewrite Hd2. exec_simpl. by rewrite Hgc1.
  - by apply (deliver_keeps m2).
  - rewrite Hsn, get_put_ne; done.
  - exists isn. split; [done|]. by rewrite <- (tp_seq _ _ _ _ _ _ _ _ _ Hp2).
  - rewrite Hsn, get_put_ne; done.
  - by rewrite Hfind.
  - by rewrite Hfind.
  - exists pkt4, ip4, tcp4. eexists. split; [exact Hq4|]. rewrite Hr0 in Hp4. exact Hp4.
Qed.

(** [accept] completes the handshake and returns the other end. *)
Lemma accept_spec n1 cid lid c1 conn l i remote :
  connected n1 cid lid c1 conn l i remote -> state l = Listen -> backlog_count l = 0 ->
  is_loopback (SocketAddr.addr (local_addr c1)) = true -> is_loopback (SocketAddr.addr remote) = true ->
  exists n2 b, socket_accept lid n1 = Done (n2, Ok (id_of (i, conn))) /\
    linked n2 cid (id_of (i, conn)) c1 b [] /\ recv_seq c1 = send_seq b /\
    recv_seq b = u32_add (send_seq c1) 1 /\ local_addr b = remote.
Proof.
  intros [Hok Hc Htcp Hst Hrem Hconn (seq & Hho & Hrs) Hl (Hn1 & Hn2 & Hn3) Hf1 Hf2 (pkt & ip & tcp & ack & Hq & Hp)]
    Hll Hlb Hlo1 Hlo2.
  set (cid' := id_of (i, conn)) in *.
  assert (backlog_count (push_backlog l cid') = 1) as Hbc by (cbn; lia).
  set (l1 := push_backlog l cid') in *.
  pose proof (net_get_ok _ _ _ Hok Hl) as Hlok. pose proof (so_backlog _ Hlok) as Hbl. unfold MAX_BACKLOG in Hbl.
  set (l2 := set_backlog_count (1 - 1) (set_backlog (backlog l1) l1)).
  set (m := set_SOCKETS (put (SOCKETS n1) lid l2) n1).
  assert (SOCKETS m = put (SOCKETS n1) lid l2) as Hsm by done.
  assert (net_ok m) as Hm.
  { apply net_ok_put; [done|]. destruct Hlok. by split. }
  pose proof Hl as (_ & Hla & _)%get_Some.
  assert (forall x y, find_tcp_connection (SOCKETS m) x y = find_tcp_connection (SOCKETS n1) x y) as Hfind.
  { intros. rewrite Hsm. by apply (find_tcp_put _ _ l1). }
  destruct (deliver_loop _ _ _ _ _ _ m [] (tp_carries _ _ _ _ _ _ _ _ _ Hp) Hq) as (q & Hd & Hq').
  set (m1 := set_LOOPBACK q m) in *. change (SOCKETS m) with (SOCKETS m1) in Hsm, Hfind.
  assert (net_ok m1) as Hm1 by (apply net_ok_set_loopback; [done|by exists []]).
  rewrite (dispatch_known _ _ _ _ _ _ _ _ _ m1 cid' Hp) in Hd by (by rewrite Hfind).
  assert (get (SOCKETS m1) cid' = Some conn) as Hg by (by rewrite Hsm, get_put_ne).
  pose proof Hho as [Hca Hcs Hctcp Hcl Hcr Hcss Hcrs Hcrx].
  assert (retransmit conn = Some RetransmitQueue.new) as Hrt by (by apply (so_tcp _ (net_get_ok _ _ _ Hok Hconn))).
  destruct (final_ack_segment conn tcp m1 Hm1 Hrt Hcs) as (m2 & Htr & Hm2 & Hsm2 & Hlm2); [by apply Hp|].
  set (b := set_state Established _) in Htr. unfold tcp_state_machine in Hd. rewrite Hg, Htr in Hd. exec_simpl.
  rewrite Hsm2 in Hd. set (n2 := set_SOCKETS (put (SOCKETS m1) cid' b) m2) in *.
  assert (SOCKETS n2 = put (SOCKETS m1) cid' b) as Hsn by done.
  assert (get (SOCKETS n2) cid' = Some b) as Hgb by (rewrite Hsn; by eapply get_put).
  assert (forall x y, find_tcp_connection (SOCKETS n2) x y = find_tcp_connection (SOCKETS n1) x y) as Hfind2.
  { intros. rewrite Hsn, (find_tcp_put _ _ conn) by done. apply Hfind. }
  exists n2, b. split_all.
  - unfold socket_accept. rewrite Hl. change (state l1) with (state l). rewrite bool_decide_eq_false_2
      by (rewrite Hll; intros E; by destruct E). rewrite Hbc. cbn [Z.eqb Pos.eqb].
    unfold arr_get. rewrite decide_True by lia. change (Z.to_nat 0) with 0%nat.
    assert (backlog l1 !! 0%nat = Some cid') as ->.
    { cbn. rewrite Hlb. apply list_lookup_insert_eq. cbn in Hbl. rewrite length_insert in Hbl. lia. }
    exec_simpl. change (Z.to_nat (1 - 1)) with 0%nat. cbn [shift_backlog]. exec_simpl. fold l2 m.
    change 10%nat with (S 9). cbn [await_established]. rewrite Hd. exec_simpl. rewrite Hgb. done.
  - split; try done.
    + by apply (deliver_keeps m).
    + cbn. rewrite Hlm2. done.
    + rewrite Hsn, get_put_ne by done. rewrite Hsm, get_put_ne by done. done.
    + split; [by rewrite Hrem; symmetry|done].
    + change (local_addr b) with (local_addr conn). by rewrite Hcl.
    + change (local_addr b) with (local_addr conn). by rewrite Hcl, Hfind2.
    + change (local_addr b) with (local_addr conn). by rewrite Hcl, Hfind2.
    + change (rx b) with (rx conn). rewrite Hcrx. apply RingBufferSpec.ring_holds_new.
  - rewrite Hrs. cbn. by rewrite Hcss.
  - done.
  - done.
Qed.

End Handshake.
End Handshake.
