(* ===== verification/NetTheorems.v ===== *)
(** * Theorems on the network stack

    Runs of the socket operations, what packets carry, how segments move
    connections, and what two sockets of the loopback network receive from each
    other. *)

From S2P Require Import Prelude NetWire NetWireSpec Ring Sockets SocketSpec NetStack NetInv NetDelivery Handshake.

(** ** Runs of the socket API *)
Module NetRuns.
Import Socket SocketTable NetStack TableFacts NetInv PacketFacts NetDelivery Handshake.

Section Runs.
Context {D T : Type} `{NicDriver D} `{Timer T}.
Implicit Types n : Net (D:=D) (T:=T).

(** What the kernel calls: the operations of ops.rs, the resolver of arp.rs,
    driver registration, and the clean-up at process termination. *)
Inductive op :=
| Create (ty : SocketType) (pr : Protocol) (owner : Z)
| Bind (id : Z) (addr : SocketAddr.t)
| Connect (id : Z) (remote : SocketAddr.t)
| Listen (id : Z)
| Accept (id : Z)
| Send (id : Z) (data : list Z)
| SendTo (id : Z) (data : list Z) (dst : SocketAddr.t)
| Recv (id : Z) (cap : Z)
| Shutdown (id : Z)
| Close (id : Z)
| PollNow (fds : list PollFd)
| DeliverPending
| ArpResolve (ip : list Z)
| RegisterNic (nic : D)
| Cleanup (pid : Z).

(** The arguments are values of their Rust types, and no send is longer than a
    datagram can be. *)
Definition op_ok (o : op) : Prop :=
  match o with
  | Bind _ addr => sa_ok addr
  | Connect _ remote => sa_ok remote
  | Send _ data => Forall (in_u 8) data /\ Z.of_nat (length data) < 65528
  | SendTo _ data dst => Forall (in_u 8) data /\ Z.of_nat (length data) < 65528 /\ sa_ok dst
  | Recv _ cap => 0 <= cap
  | _ => True
  end.

Definition step (o : op) (n : Net) : exec (Net (D:=D) (T:=T)) :=
  match o with
  | Create ty pr ow => Done (socket_create ty pr ow n).1
  | Bind id addr => Done (socket_bind id addr n).1
  | Connect id remote => '(n, _) ← socket_connect id remote n; Done n
  | Listen id => Done (socket_listen id n).1
  | Accept id => '(n, _) ← socket_accept id n; Done n
  | Send id data => '(n, _) ← socket_send id data n; Done n
  | SendTo id data dst => '(n, _) ← socket_sendto id data dst n; Done n
  | Recv id cap => '(n, _) ← socket_recv id cap n; Done n
  | Shutdown id => '(n, _) ← socket_shutdown id n; Done n
  | Close id => '(n, _) ← socket_close id n; Done n
  | PollNow fds => '(n, _, _) ← socket_poll 1 fds 0 n; Done n
  | DeliverPending => deliver_pending n
  | ArpResolve ip => '(n, _) ← arp_resolve ip n; Done n
  | RegisterNic nic => Done (register_nic nic n)
  | Cleanup pid => Done (cleanup_process_sockets pid n)
  end.

Fixpoint run (ops : list op) (n : Net) : exec (Net (D:=D) (T:=T)) :=
  match ops with
  | [] => Done n
  | o :: ops' => n ← step o n; run ops' n
  end.

Lemma returns_fst {A} (m : exec (Net (D:=D) (T:=T) * A)) : returns m (fun r => net_ok r.1) ->
  returns ('(n, _) ← m; Done n) net_ok.
Proof. intros Hm. eapply returns_bind; [exact Hm|]. intros [n a] Hn. by apply returns_done. Qed.

Lemma net_step_ok o n : net_ok n -> op_ok o -> returns (step o n) net_ok.
Proof.
  intros Hn Ho. destruct o; cbn [step op_ok] in *.
  - by apply returns_done, socket_create_ok.
  - by apply returns_done, socket_bind_ok.
  - by apply returns_fst, socket_connect_ok.
  - by apply returns_done, socket_listen_ok.
  - by apply returns_fst, socket_accept_ok.
  - by apply returns_fst, socket_send_ok; [|apply Ho..].
  - by apply returns_fst, socket_sendto_ok; [|apply Ho..].
  - by apply returns_fst, socket_recv_ok.
  - by apply returns_fst, socket_shutdown_ok.
  - by apply returns_fst, socket_close_ok.
  - eapply returns_bind; [by apply socket_poll_now_ok|]. intros [[n' f] r] Hn'. by apply returns_done.
  - by apply deliver_while_ok.
  - by apply returns_fst, arp_resolve_ok.
  - by apply returns_done, net_ok_set_nic.
  - apply returns_done, net_ok_set_sockets; [done|]. apply cleanup_ok, Hn.
Qed.

Lemma net_run_ok ops n : net_ok n -> Forall op_ok ops -> returns (run ops n) net_ok.
Proof.
  revert n. induction ops as [|o ops IH]; intros n Hn Ho; cbn; [by apply returns_done|].
  apply Forall_cons in Ho as [Ho Hos]. eapply returns_bind; [by apply net_step_ok|]. auto.
Qed.

(** A state of the stack some sequence of operations leads to. *)
Definition reachable n : Prop := exists c ops, Forall op_ok ops /\ run ops (init c) = Done n.

Lemma net_reachable_ok n : reachable n -> net_ok n.
Proof.
  intros (c & ops & Ho & Hr). destruct (net_run_ok ops (init c) (net_ok_init c) Ho) as (n' & E & Hn). congruence.
Qed.

(** Every sequence of socket operations, from the initial state, with
    whatever the driver delivers from the wire, runs to completion: no index,
    slice or buffer operation of the stack panics and no loop runs on. The
    state it ends in has its 256 slots, every receive buffer is a well-formed
    ring of bytes, no backlog holds more than 8 connections, UDP sockets are
    never in a TCP state, and no segment is ever waiting for retransmission. *)
Theorem socket_runs_keep_invariant c ops : Forall op_ok ops ->
  exists n, run ops (init c) = Done n /\ length (SOCKETS n) = 256%nat /\
    (exists ps, LoopbackSpec.holds (LOOPBACK n) ps) /\
    forall i s, SOCKETS n !! i = Some s ->
      (exists xs, RingBufferSpec.holds (rx s) xs /\ Forall (in_u 8) xs) /\
      0 <= backlog_count s <= 8 /\
      (active s = true -> protocol s = Udp -> state s = Closed \/ state s = Bound) /\
      (active s = true -> forall rq, retransmit s = Some rq -> RetransmitQueue.entries rq = []).
Proof.
  intros Ho. destruct (net_run_ok ops (init c) (net_ok_init c) Ho) as (n & E & Hn).
  exists n. destruct (n_loop _ Hn) as (ps & Hps & _). split_all; [done|apply Hn|by exists ps|].
  intros i s Hi. destruct (tb_ok_lookup _ _ _ (n_table _ Hn) Hi) as [Hs _].
  split_all; [apply Hs|apply Hs|apply Hs|apply Hs|].
  intros Ha rq Hr. destruct (protocol s) eqn:Hp.
  - rewrite (so_tcp _ Hs Ha Hp) in Hr. by injection Hr as <-.
  - rewrite (proj1 (so_udp _ Hs Ha Hp)) in Hr. done.
Qed.


(** A datagram sent over the loopback network reaches the socket bound to its
    destination: with the queue empty and room in the receive buffer,
    [socket_sendto] reports the whole length, and the receive buffer of the
    socket [find_by_local] chooses grows by exactly one frame with the sender's
    address, the length and the data. If it was empty, [socket_recv] returns
    the first [cap] bytes of the data and leaves it empty again. *)
Theorem datagram_reaches_receiver n id rid s r data dst xs :
  reachable n -> quiet n -> LoopbackSpec.holds (LOOPBACK n) [] ->
  get (SOCKETS n) id = Some s -> protocol s = Udp -> sa_ok dst -> is_loopback (SocketAddr.addr dst) = true ->
  find_by_local (SOCKETS n) dst Udp = Some rid -> get (SOCKETS n) rid = Some r -> protocol r = Udp ->
  Forall (in_u 8) data -> Z.of_nat (length data) <= 1472 ->
  RingBufferSpec.holds (rx r) xs -> Z.of_nat (length xs + 8 + length data) <= 4096 ->
  exists n1 r1, socket_sendto id data dst n = Done (n1, Ok (Z.of_nat (length data))) /\
    get (SOCKETS n1) rid = Some r1 /\ RingBufferSpec.holds (rx r1) (xs ++ udp_frame (local_addr s) data) /\
    (xs = [] -> forall cap, 0 <= cap -> exists n2 r2,
       socket_recv rid cap n1 = Done (n2, Ok (take (Z.to_nat cap) data)) /\
       get (SOCKETS n2) rid = Some r2 /\ RingBufferSpec.holds (rx r2) []).
Proof.
  intros Hre Hqu Hidle Hs Hp Hdst Hlo Hf Hr Hrp Hdata Hlen Hx Hroom. apply net_reachable_ok in Hre.
  assert (sa_ok (local_addr s)) as Hls by apply (net_get_ok _ _ _ Hre Hs).
  destruct (build_udp_spec (local_addr s) dst data Loopback.LOOPBACK_MTU)
    as (pkt & ip & udp & Hb & Hc & Hu & H1 & H2 & H3 & Hlp); try done; [unfold Loopback.LOOPBACK_MTU; lia|lia|].
  destruct (transmit_loop _ _ _ _ _ _ n [] Hc Hlo Hidle) as (q & Htx & Hq); [cbn; lia|lia|].
  destruct (deliver_loop _ _ _ _ _ _ (set_LOOPBACK q n) [] Hc Hq) as (q2 & Hd & Hq2).
  destruct (udp_receive_spec _ _ _ _ _ _ (SOCKETS n) rid r xs Hc Hu Hls H1 H2 H3) as (b & Hrx & Hb'); try done; [lia|].
  assert (socket_sendto id data dst n = Done (set_SOCKETS (put (SOCKETS n) rid (set_rx b r))
    (set_LOOPBACK q2 (set_LOOPBACK q n)), Ok (Z.of_nat (length data)))) as E.
  { unfold socket_sendto. rewrite Hs, bool_decide_eq_false_2 by (rewrite Hp; intros E; by destruct E).
    unfold send_and_deliver. rewrite Hb. exec_simpl. rewrite Htx. exec_simpl. cbn [deliver_times]. rewrite Hd.
    unfold dispatch. rewrite (c_proto _ _ _ _ _ _ Hc). cbn [Z.eqb Pos.eqb SOCKETS set_LOOPBACK]. rewrite Hrx. done. }
  destruct (socket_sendto_ok id data dst n Hre Hdata ltac:(lia) Hdst) as (r' & E' & Hn1).
  rewrite E in E'. injection E' as <-. rewrite E. eexists _, (set_rx b r). split; [reflexivity|].
  pose proof Hr as (_ & Hra & _)%get_Some. set (n1 := set_SOCKETS _ _) in *.
  assert (get (SOCKETS n1) rid = Some (set_rx b r)) as Hg1 by (by eapply get_put).
  split_all; [done|done|]. intros -> cap Hcap.
  destruct (deliver_idle n1 Hn1 Hq2) as (n1' & Hd1 & Hn1' & Hs1 & Hl1); [exact Hqu|].
  rewrite <- Hs1 in Hg1.
  destruct (recv_frame n1 n1' rid (set_rx b r) (local_addr s) data [] cap) as (b2 & Hrecv & Hb2);
    try done; [lia|by rewrite app_nil_r|].
  eexists _, (set_rx b2 (set_rx b r)). split_all; [exact Hrecv|by eapply get_put|done].
Qed.

(** ** A stream over a connection *)

(** Messages sent one after the other by [aid] and read by [bid]. *)
Fixpoint exchange (aid bid : Z) (msgs : list (list Z)) (n : Net) : exec (Net (D:=D) (T:=T) * list (list Z)) :=
  match msgs with
  | [] => Done (n, [])
  | m :: msgs' =>
      '(n, _) ← socket_send aid m n;
      '(n, r) ← socket_recv bid 4096 n;
      '(n, rs) ← exchange aid bid msgs' n;
      Done (n, (match r with Ok bytes => bytes | Err _ => [] end) :: rs)
  end.

Definition message_ok (m : list Z) : Prop := Forall (in_u 8) m /\ m <> [] /\ Z.of_nat (length m) <= 1460.

Lemma exchange_spec aid bid msgs n a b : linked n aid bid a b [] -> Forall message_ok msgs ->
  exists n', exchange aid bid msgs n = Done (n', msgs).
Proof.
  revert n a b. induction msgs as [|m msgs IH]; intros n a b Hl Hm; cbn; [by eexists|].
  apply Forall_cons in Hm as [(Hb & Hne & Hlen) Hms].
  destruct (linked_recv n aid bid a b [] m 4096 Hl Hb Hne Hlen) as (n1 & Hs & n2 & a' & b' & Hr & Hl' & _);
    [cbn; lia|lia|].
  rewrite Hs. exec_simpl. rewrite Hr. exec_simpl. cbn [app] in *.
  rewrite (take_ge m) by lia. rewrite drop_ge in Hl' by lia. destruct (IH _ _ _ Hl' Hms) as (n' & E).
  rewrite E. by eexists.
Qed.


(** The client's sequence number does not count its SYN: after the handshake the
    server expects the byte after the one the client sends next. *)
Lemma handshake_seq_off_by_one n1 cid lid c1 conn l i remote :
  connected n1 cid lid c1 conn l i remote -> recv_seq conn = u32_add (send_seq c1) 1.
Proof. intros Hc. destruct (cn_half _ _ _ _ _ _ _ _ Hc) as (seq & Hh & _). apply Hh. Qed.

(** A FIN that carries data: the data is dropped. *)
Lemma fin_drops_payload s h payload n :
  net_ok n -> sock_ok s -> active s = true -> protocol s = Tcp -> state s = Established -> Forall (in_u 8) payload ->
  flag h TcpHeader.FIN = true ->
  returns (tcp_transition s h payload n) (fun r => state r.1 = CloseWait /\ rx r.1 = rx s).
Proof.
  intros Hn Hs Ha Hp Hst Hb Hf. unfold tcp_transition. rewrite Hst.
  fold (flag h TcpHeader.FIN) (flag h TcpHeader.ACK). rewrite Hf, andb_false_r. cbv zeta.
  eapply (returns_bind _ _ (fun r => state r.1 = CloseWait /\ rx r.1 = rx s)).
  - eapply returns_bind; [apply send_segment_ok; try done; apply Hs|]. intros n' _. by apply returns_done.
  - intros [s' n'] Hr. by apply returns_done.
Qed.

End Runs.

(** ** Witnesses *)
Section Witnesses.

(** A machine without a network card, whose clock advances at every read. *)
#[local] Instance no_nic : NicDriver unit := {
  mac_address _ := [0; 0; 0; 0; 0; 0];
  send_packet d _ := (d, true);
  poll_rx d := (d, None);
  recycle_rx d := d;
}.
#[local] Instance counter : Timer Z := fun c => (c + 1, c).

Definition at_port (p : Z) : SocketAddr.t := SocketAddr.mk Ipv4Addr.LOOPBACK p.

Lemma at_port_ok p : in_u 16 p -> sa_ok (at_port p).
Proof. intros. split; [|done]. split; [done|]. change (Forall (in_u 8) [127; 0; 0; 1]). by rewrite !Forall_cons. Qed.

Definition after (ops : list op) : Net (D:=unit) (T:=Z) :=
  match run ops (init 0) with Done n => n | _ => init 0 end.

Lemma after_reachable ops : Forall op_ok ops -> reachable (after ops).
Proof.
  intros Ho. exists 0, ops. split; [done|]. unfold after.
  destruct (net_run_ok ops (init 0) (net_ok_init 0) Ho) as (n & -> & _). done.
Qed.

Definition sock (n : Net (D:=unit) (T:=Z)) (id : Z) : Socket.t := default Socket.empty (get (SOCKETS n) id).

Lemma sock_get n id : bool_decide (is_Some (get (SOCKETS n) id)) = true -> get (SOCKETS n) id = Some (sock n id).
Proof. intros Hs%bool_decide_eq_true. unfold sock. destruct (get (SOCKETS n) id); [done|by destruct Hs]. Qed.

(** Two UDP sockets on ports 5000 and 6000. *)
Definition udp_ops : list (op (D:=unit)) :=
  [Create Datagram Udp 1; Bind 256 (at_port 5000); Create Datagram Udp 2; Bind 257 (at_port 6000)].

Lemma udp_ops_ok : Forall op_ok udp_ops.
Proof. unfold udp_ops. rewrite !Forall_cons. split_all; try done; by apply at_port_ok. Qed.

Lemma socket_runs_keep_invariant_witness : exists n, run udp_ops (init 0) = Done n /\ length (SOCKETS n) = 256%nat.
Proof.
  destruct (socket_runs_keep_invariant 0 udp_ops udp_ops_ok) as (n & E & Hl & _). exists n. exact (conj E Hl).
Defined.

Definition udp_net : Net (D:=unit) (T:=Z) := after udp_ops.

Lemma udp_net_idle : LoopbackSpec.holds (LOOPBACK udp_net) [].
Proof. assert (LOOPBACK udp_net = Loopback.new) as -> by reflexivity. apply LoopbackSpec.loopback_holds_new. Qed.

Lemma udp_net_rx : RingBufferSpec.holds (rx (sock udp_net 257)) [].
Proof. assert (rx (sock udp_net 257) = RingBuffer.new) as -> by reflexivity. apply RingBufferSpec.ring_holds_new. Qed.

Lemma datagram_reaches_receiver_witness :
  exists n1 n2, socket_sendto 256 [104; 105] (at_port 6000) udp_net = Done (n1, Ok 2) /\
    socket_recv 257 16 n1 = Done (n2, Ok [104; 105]).
Proof.
  destruct (datagram_reaches_receiver udp_net 256 257 (sock udp_net 256) (sock udp_net 257) [104; 105] (at_port 6000) [])
    as (n1 & r1 & Hs & _ & _ & Hr).
  - apply after_reachable, udp_ops_ok.
  - intros nic _. reflexivity.
  - exact udp_net_idle.
  - apply sock_get. vm_compute. reflexivity.
  - vm_compute. reflexivity.
  - by apply at_port_ok.
  - reflexivity.
  - vm_compute. reflexivity.
  - apply sock_get. vm_compute. reflexivity.
  - vm_compute. reflexivity.
  - by rewrite !Forall_cons.
  - cbn. lia.
  - exact udp_net_rx.
  - cbn. lia.
  - destruct (Hr eq_refl 16 ltac:(lia)) as (n2 & r2 & Hrecv & _). exact (ex_intro _ n1 (ex_intro _ n2 (conj Hs Hrecv))).
Defined.

(** A listener on port 80 and a fresh client. *)
Definition tcp_ops : list (op (D:=unit)) :=
  [Create Stream Tcp 1; Bind 256 (at_port 80); Listen 256; Create Stream Tcp 2].

Lemma tcp_ops_ok : Forall op_ok tcp_ops.
Proof. unfold tcp_ops. rewrite !Forall_cons. split_all; try done; by apply at_port_ok. Qed.

Definition tcp_net : Net (D:=unit) (T:=Z) := after tcp_ops.

Lemma tcp_request :
  request tcp_net 257 256 (sock tcp_net 257) (start_connect 257 (at_port 80) (sock tcp_net 257) tcp_net).2
    (sock tcp_net 256) Socket.empty (at_port 80).
Proof.
  split.
  - apply net_reachable_ok, after_reachable, tcp_ops_ok.
  - assert (LOOPBACK tcp_net = Loopback.new) as -> by reflexivity. apply LoopbackSpec.loopback_holds_new.
  - apply sock_get. vm_compute. reflexivity.
  - vm_compute. reflexivity.
  - left. vm_compute. reflexivity.
  - reflexivity.
  - split; [by apply at_port_ok|reflexivity].
  - split; [vm_compute; reflexivity|]. vm_compute. discriminate.
  - vm_compute. reflexivity.
  - vm_compute. reflexivity.
  - vm_compute. reflexivity.
  - split_all; [apply sock_get; vm_compute; reflexivity|vm_compute; reflexivity..].
  - split; [|reflexivity]. apply list_elem_of_lookup_2 with 5%nat. reflexivity.
Qed.


(** A SYN for port 80 from port 9. *)
Definition syn_bytes : list Z := TcpHeader.to_bytes (TcpHeader.new 9 80 7 0 TcpHeader.SYN 4096).
Definition syn_ip : Ipv4Header.t :=
  Ipv4Header.mk 0x45 0 40 0 0x4000 64 6 0 Ipv4Addr.LOOPBACK Ipv4Addr.LOOPBACK.


End Witnesses.
End NetRuns.

(** ** Packets *)
Module Framing.
Import PacketFacts HeaderFacts Checksum Packets.

(** What is built can be read back and verifies: a UDP or TCP packet built
    for well-formed addresses, data and fields has a header whose checksum
    [verify_checksum] accepts, addresses, protocol and length that [from_bytes]
    reads back, a segment whose pseudo-header checksum is 0, whose header
    [from_bytes] reads back with the given fields, and behind it the data. *)
Theorem built_packets_verify src dst seq ack flags window data :
  sa_ok src -> sa_ok dst -> in_u 32 seq -> in_u 32 ack -> 0 <= flags < 64 -> in_u 16 window ->
  Forall (in_u 8) data -> Z.of_nat (length data) <= 1460 ->
  (exists pkt ip udp, build_udp_packet src dst data 1500 = Done (Some pkt) /\
     verify_checksum (take 20 pkt) = Done true /\ Ipv4Header.from_bytes pkt = Some ip /\
     Ipv4Header.src_addr ip = SocketAddr.addr src /\ Ipv4Header.dst_addr ip = SocketAddr.addr dst /\
     Ipv4Header.protocol ip = 17 /\ Ipv4Header.total_length ip = Z.of_nat (length pkt) /\
     pseudo_header_checksum (SocketAddr.addr src) (SocketAddr.addr dst) 17 (Z.of_nat (length (drop 20 pkt)))
       (drop 20 pkt) = Done 0 /\
     UdpHeader.from_bytes (drop 20 pkt) = Some udp /\ UdpHeader.src_port udp = SocketAddr.port src /\
     UdpHeader.dst_port udp = SocketAddr.port dst /\ drop 28 pkt = data) /\
  (exists pkt ip tcp, build_tcp_packet src dst seq ack flags window data 1500 = Done (Some pkt) /\
     verify_checksum (take 20 pkt) = Done true /\ Ipv4Header.from_bytes pkt = Some ip /\
     Ipv4Header.src_addr ip = SocketAddr.addr src /\ Ipv4Header.dst_addr ip = SocketAddr.addr dst /\
     Ipv4Header.protocol ip = 6 /\ Ipv4Header.total_length ip = Z.of_nat (length pkt) /\
     pseudo_header_checksum (SocketAddr.addr src) (SocketAddr.addr dst) 6 (Z.of_nat (length (drop 20 pkt)))
       (drop 20 pkt) = Done 0 /\
     TcpHeader.from_bytes (drop 20 pkt) = Some tcp /\ TcpHeader.src_port tcp = SocketAddr.port src /\
     TcpHeader.dst_port tcp = SocketAddr.port dst /\ TcpHeader.seq_num tcp = seq /\ TcpHeader.ack_num tcp = ack /\
     TcpHeader.flags tcp = flags /\ TcpHeader.window tcp = window /\ drop 40 pkt = data).
Proof.
  intros Hs Hd Hsq Hak Hfl Hw Hdata Hlen.
  assert (forall proto pkt ip seg, carries src dst proto pkt ip seg ->
    drop 20 pkt = seg /\ Ipv4Header.from_bytes pkt = Some ip) as Hcar.
  { intros proto pkt ip seg Hc. split; [|by rewrite <- (app_nil_r pkt); apply Hc].
    rewrite (c_pkt _ _ _ _ _ _ Hc), <- (c_len _ _ _ _ _ _ Hc). apply drop_app_length. }
  split.
  - destruct (build_udp_spec src dst data 1500) as (pkt & ip & udp & Hb & Hc & Hu & H1 & H2 & _ & _); try done; [lia|lia|].
    destruct (Hcar _ _ _ _ Hc) as [H20 Hip]. exists pkt, ip, udp.
    replace (drop 28 pkt) with (drop 8 (drop 20 pkt)) by apply drop_drop. rewrite H20.
    split_all; try done; try apply Hc. by apply udp_from_to.
  - destruct (build_tcp_spec src dst seq ack flags window data 1500)
      as (pkt & ip & tcp & Hb & Hc & Hu & H1 & H2 & H3 & H4 & H5 & H6 & _); try done; [lia|lia|].
    destruct (Hcar _ _ _ _ Hc) as [H20 Hip]. exists pkt, ip, tcp.
    replace (drop 40 pkt) with (drop 20 (drop 20 pkt)) by apply drop_drop. rewrite H20.
    split_all; try done; try apply Hc. by apply tcp_from_to.
Qed.

Lemma built_packets_verify_witness :
  exists pkt, build_udp_packet (NetRuns.at_port 5000) (NetRuns.at_port 6000) [1; 2; 3] 1500 = Done (Some pkt) /\
    verify_checksum (take 20 pkt) = Done true /\ drop 28 pkt = [1; 2; 3].
Proof.
  destruct (built_packets_verify (NetRuns.at_port 5000) (NetRuns.at_port 6000) 1 2 16 4096 [1; 2; 3])
    as [(pkt & ip & udp & Hb & Hv & _ & _ & _ & _ & _ & _ & _ & _ & _ & Hd) _].
  - by apply NetRuns.at_port_ok.
  - by apply NetRuns.at_port_ok.
  - done.
  - done.
  - lia.
  - done.
  - by rewrite !Forall_cons.
  - cbn. lia.
  - exact (ex_intro _ pkt (conj Hb (conj Hv Hd))).
Defined.

(** A datagram of 65536 bytes has length 0 in 16 bits: the copy of its data
    panics. *)
Lemma oversized_datagram_panics src dst data cap :
  Z.of_nat (length data) = 65536 -> 28 <= cap -> build_udp_packet src dst data cap = Panicked.
Proof.
  intros Hl Hc. unfold build_udp_packet. rewrite Hl. change (wrap 16 65536) with 0.
  change (wrap 16 (UdpHeader.SIZE + 0)) with 8. rewrite (proj2 (Z.ltb_ge _ _)) by (unfold Ipv4Header.SIZE; lia).
  destruct (NetInv.ip_new_done (SocketAddr.addr src) (SocketAddr.addr dst) 17 8) as [h ->]. exec_simpl. done.
Qed.

End Framing.

(** ** Socket buffers *)
Module Buffers.
Import RingBuffer RingBufferSpec.

Inductive buf_op :=
| Write (bytes : list Z)
| Read (cap : Z)
| Peek (cap : Z)
| Discard (k : Z)
| Clear.

Inductive buf_reply :=
| Count (k : Z)
| Bytes (bytes : list Z)
| Unit.

Definition buf_ok (o : buf_op) : Prop :=
  match o with Read k | Peek k | Discard k => 0 <= k | _ => True end.

Definition buf_step (o : buf_op) (b : t) : exec (t * buf_reply) :=
  match o with
  | Write bytes => '(b, k) ← write b bytes; Done (b, Count k)
  | Read cap => '(b, xs) ← read b cap; Done (b, Bytes xs)
  | Peek cap => xs ← peek b cap; Done (b, Bytes xs)
  | Discard k => Done (discard b k, Unit)
  | Clear => Done (clear b, Unit)
  end.

Fixpoint buf_run (ops : list buf_op) (b : t) : exec (t * list buf_reply) :=
  match ops with
  | [] => Done (b, [])
  | o :: ops' =>
      '(b, r) ← buf_step o b;
      '(b, rs) ← buf_run ops' b;
      Done (b, r :: rs)
  end.

(** The contract: a queue of at most 4096 bytes that drops what does not fit. *)
Definition fifo_step (o : buf_op) (xs : list Z) : list Z * buf_reply :=
  match o with
  | Write bytes =>
      let fit := take (4096 - length xs) bytes in (xs ++ fit, Count (Z.of_nat (length fit)))
  | Read cap => (drop (Z.to_nat cap) xs, Bytes (take (Z.to_nat cap) xs))
  | Peek cap => (xs, Bytes (take (Z.to_nat cap) xs))
  | Discard k => (drop (Z.to_nat k) xs, Unit)
  | Clear => ([], Unit)
  end.

Fixpoint fifo_run (ops : list buf_op) (xs : list Z) : list Z * list buf_reply :=
  match ops with
  | [] => (xs, [])
  | o :: ops' =>
      let '(xs, r) := fifo_step o xs in
      let '(xs, rs) := fifo_run ops' xs in
      (xs, r :: rs)
  end.

Lemma buf_step_spec o b xs : holds b xs -> buf_ok o ->
  exists b', buf_step o b = Done (b', (fifo_step o xs).2) /\ holds b' (fifo_step o xs).1.
Proof.
  intros Hb Ho. destruct o as [bytes|cap|cap|k|]; cbn [buf_step fifo_step buf_ok fst snd] in *.
  - destruct (write_spec b xs bytes Hb) as (b' & -> & Hb'). exec_simpl. exists b'.
    replace (4096 - length xs)%nat with (Z.to_nat (RING_BUF_SIZE - Z.of_nat (length xs)))
      by (unfold RING_BUF_SIZE; lia). done.
  - destruct (read_spec b xs cap Hb Ho) as (b' & -> & Hb'). exec_simpl. by exists b'.
  - rewrite (ring_peek_spec b xs cap Hb Ho). exec_simpl. by exists b.
  - eexists. split; [done|]. by apply discard_spec.
  - eexists. split; [done|]. by eapply clear_spec.
Qed.

Lemma buf_run_spec ops b xs : holds b xs -> Forall buf_ok ops ->
  exists b', buf_run ops b = Done (b', (fifo_run ops xs).2) /\ holds b' (fifo_run ops xs).1.
Proof.
  revert b xs. induction ops as [|o ops IH]; intros b xs Hb Ho; cbn [buf_run fifo_run]; [by exists b|].
  apply Forall_cons in Ho as [Ho Hos]. destruct (buf_step_spec o b xs Hb Ho) as (b1 & -> & Hb1). exec_simpl.
  destruct (fifo_step o xs) as [xs1 r]. cbn [fst snd] in *.
  destruct (IH b1 xs1 Hb1 Hos) as (b2 & -> & Hb2). exec_simpl.
  destruct (fifo_run ops xs1) as [xs2 rs]. by exists b2.
Qed.

(** A socket buffer implements a bounded queue of bytes: any sequence of
    writes, reads, peeks, discards and clears on a new ring returns, without an
    index out of range, and answers as a queue of at most 4096 bytes in which a
    write keeps what fits; the ring then holds that queue. *)
Theorem socket_buffer_refines_queue ops : Forall buf_ok ops ->
  exists b, buf_run ops new = Done (b, (fifo_run ops []).2) /\ holds b (fifo_run ops []).1 /\
    (length (fifo_run ops []).1 <= 4096)%nat.
Proof.
  intros Ho. destruct (buf_run_spec ops new [] ring_holds_new Ho) as (b & E & Hb).
  exists b. split_all; [done|done|]. apply holds_bound in Hb. unfold RING_BUF_SIZE in Hb. lia.
Qed.

Lemma socket_buffer_refines_queue_witness :
  exists b, buf_run [Write [1; 2; 3]; Peek 2; Read 2; Write [4]; Discard 1; Read 9] new =
    Done (b, [Count 3; Bytes [1; 2]; Bytes [1; 2]; Count 1; Unit; Bytes [4]]).
Proof.
  destruct (socket_buffer_refines_queue [Write [1; 2; 3]; Peek 2; Read 2; Write [4]; Discard 1; Read 9])
    as (b & E & _); [repeat constructor; cbn; lia|]. exists b. exact E.
Defined.

End Buffers.
