(* ===== verification/ProcNet.v ===== *)
(** * Processes and their sockets

    The network stack as the socket layer of the process component
    ([network::cleanup_process_sockets], called by [process::terminate]). *)

From S2P Require Import Prelude NetWire Sockets SocketSpec NetStack NetInv Process.

#[export] Instance net_socket_layer {D T : Type} : SocketLayer (NetStack.Net (D:=D) (T:=T)) :=
  fun n pid => NetStack.cleanup_process_sockets pid n.

Module ProcNet.
Import Socket SocketTable TableFacts NetStack NetInv.

Lemma cleanup_get tb pid id s :
  get (cleanup_by_owner pid tb) id = Some s <-> get tb id = Some s /\ owner s <> pid.
Proof.
  rewrite !get_Some. unfold cleanup_by_owner. rewrite list_lookup_fmap.
  destruct (tb !! Z.to_nat (SocketId.slot id)) as [x|]; cbn; [|by split; [intros [? _]|intros [[? _] _]]].
  destruct (active x) eqn:Ha, (Z.eqb_spec (owner x) pid); cbn;
    (split; [intros (E & E' & Hg)|intros ((E & E' & Hg) & Ho)]; simplify_eq; first [done|congruence]).
Qed.

(** An identifier a scan for active sockets answers leads to a socket. *)
Lemma found_get tb p hit : tb_ok tb -> (forall x, p x = true -> active x = true) ->
  id_of <$> first p tb = Some hit -> exists s, get tb hit = Some s.
Proof.
  intros Ht Hp Hf. destruct (first p tb) as [[i s]|] eqn:E; [|done]. injection Hf as <-.
  apply first_Some in E as (Hi & Hs & _). destruct (tb_ok_lookup _ _ _ Ht Hi) as [Hok Hlt].
  exists s. by eapply get_id_of; [|apply Hp|apply Hok|].
Qed.

Lemma find_by_local_get tb addr proto id : tb_ok tb -> find_by_local tb addr proto = Some id ->
  exists s, get tb id = Some s.
Proof. intros Ht. apply found_get; [done|]. by intros x [[? _]%andb_true_iff _]%andb_true_iff. Qed.

Lemma find_listener_get tb port id : tb_ok tb -> find_listener tb port = Some id -> exists s, get tb id = Some s.
Proof.
  intros Ht. apply found_get; [done|]. by intros x [[[? _]%andb_true_iff _]%andb_true_iff _]%andb_true_iff.
Qed.

(** Termination takes a process off the network: whatever else [terminate]
    finds, the network stack keeps its invariant; afterwards an identifier leads
    to a socket exactly if it did before and the socket belongs to another
    process; and every incoming datagram, segment or SYN that is matched with a
    socket is matched with one of another process. *)
Theorem termination_releases_sockets {D T : Type} (k : Process.Kernel (N:=Net (D:=D) (T:=T))) pid :
  let n := Process.sockets k in
  let n' := Process.sockets (Process.terminate k pid).2 in
  net_ok n ->
  net_ok n' /\
  (forall id s, get (SOCKETS n') id = Some s <-> get (SOCKETS n) id = Some s /\ owner s <> pid) /\
  (forall addr proto id, find_by_local (SOCKETS n') addr proto = Some id ->
     exists s, get (SOCKETS n) id = Some s /\ owner s <> pid) /\
  (forall local remote id, find_tcp_connection (SOCKETS n') local remote = Some id ->
     exists s, get (SOCKETS n) id = Some s /\ owner s <> pid) /\
  (forall port id, find_listener (SOCKETS n') port = Some id ->
     exists s, get (SOCKETS n) id = Some s /\ owner s <> pid).
Proof.
  intros n n' Hn. assert (n' = NetStack.cleanup_process_sockets pid n) as ->.
  { unfold n', Process.terminate. cbn [Process.table Process.sched Process.bus].
    destruct (ProcessTable.get (Process.table k) pid); done. }
  pose proof (cleanup_ok pid (SOCKETS n) (n_table _ Hn)) as Ht'.
  unfold NetStack.cleanup_process_sockets.
  assert (forall id, (exists s, get (cleanup_by_owner pid (SOCKETS n)) id = Some s) ->
    exists s, get (SOCKETS n) id = Some s /\ owner s <> pid) as Hg.
  { intros id [s Hs]. exists s. by apply cleanup_get. }
  split_all.
  - by apply net_ok_set_sockets.
  - intros id s. apply cleanup_get.
  - intros addr proto id Hf. by eapply Hg, find_by_local_get.
  - intros local remote id Hf. apply Hg. destruct (find_tcp_connection_Some _ _ _ _ Ht' Hf) as (s & Hs & _). by exists s.
  - intros port id Hf. by eapply Hg, find_listener_get.
Qed.

Lemma termination_releases_sockets_witness :
  let net := init (D:=unit) 0%nat in
  let k := Process.mkKernel ProcessTable.new Scheduler.new CapStore.CapStore.new Router.BusRouter.new
             (set_SOCKETS (SocketTable.alloc Datagram Udp 7 (SOCKETS net)).1 net) in
  get (SOCKETS (Process.sockets (Process.terminate k 7).2)) 256 = None.
Proof.
  intros net k. destruct (get (SOCKETS (Process.sockets (Process.terminate k 7).2)) 256) as [s|] eqn:E; [|reflexivity].
  assert (net_ok (Process.sockets k)) as Hn.
  { pose proof (table_alloc_spec Datagram Udp 7 _ tb_ok_new) as Ha. cbn [Process.sockets k].
    apply net_ok_set_sockets; [apply net_ok_init|]. change (SOCKETS net) with SocketTable.new.
    destruct (SocketTable.alloc Datagram Udp 7 SocketTable.new) as [tb [id|e]].
    - destruct Ha as (i & x & s' & _ & _ & -> & _ & _ & Hs & _). apply tb_ok_insert; [apply tb_ok_new|exact Hs].
    - destruct Ha as [-> _]. apply tb_ok_new. }
  pose proof (proj1 (proj1 (proj2 (termination_releases_sockets k 7 Hn)) 256 s) E) as [Hg Ho].
  exfalso. apply Ho. revert Hg. vm_compute. intros Hg. injection Hg as <-. reflexivity.
Defined.

End ProcNet.
