(* ===== verification/Tls.v ===== *)
(** * The TLS 1.3 client (src/kernel/src/network/tls.rs)

    Records, the ClientHello and ServerHello messages, the key schedule, and the
    sessions that run over the sockets of the network stack. The operations are
    functions on the network and the table of sessions that may fail with a
    [TlsError]; the monad [M] passes both on, so that [let*] reads as the [?] of
    the source. Messages to the serial console are left out. *)

From S2P Require Import Prelude Limbs Curve25519 Aead Hkdf NetWire Sockets NetStack.

Inductive TlsError :=
| SocketError_ | SocketClosed | Timeout | RecordTooLarge | UnexpectedMessage | ParseError | UnsupportedCipher
| DecryptError | HandshakeFailed | InvalidSession | NotReady | AlertReceived | NoSessions.

Inductive TlsState :=
| Initial | ClientHelloSent | ServerHelloReceived | HandshakeComplete | ApplicationData | TlsClosed | TlsFailed.

#[export] Instance TlsState_eq_dec : EqDecision TlsState.
Proof. solve_decision. Defined.

(** ** Records *)
Module TlsRecord.

Definition CT_CHANGE_CIPHER_SPEC : Z := 20.
Definition CT_ALERT : Z := 21.
Definition CT_HANDSHAKE : Z := 22.
Definition CT_APPLICATION_DATA : Z := 23.
Definition TLS_12 : Z := 0x0303.
Definition TLS_13 : Z := 0x0304.

Definition build_record (content_type : Z) (payload : list Z) : list Z :=
  [content_type] ++ Be.be16 TLS_12 ++ Be.be16 (wrap 16 (Z.of_nat (length payload))) ++ payload.

(** The sequence number as 8 big-endian bytes, exclusive-or'ed to the last 8 of 12. *)
Definition nonce_of (iv : list Z) (seq : Z) : list Z :=
  take 4 iv ++ zip_with Z.lxor (drop 4 iv) (reverse (le_bytes 8 seq)).

(** The header of an encrypted record of [len] bytes. *)
Definition header_of (len : Z) : list Z := [CT_APPLICATION_DATA; 0x03; 0x03; wrap 8 (Z.shiftr len 8); wrap 8 (Z.land len 0xFF)].

Definition build_encrypted_record (key iv : list Z) (seq inner_type : Z) (payload : list Z) : exec (list Z) :=
  let inner := payload ++ [inner_type] in
  let nonce := nonce_of iv seq in
  let record_len := wrap 16 (Z.of_nat (length inner) + 16) in
  let aad := header_of record_len in
  '(ciphertext, tag) ← Aead.aead_encrypt key nonce aad inner;
  Done (aad ++ ciphertext ++ tag).

Definition decrypt_record (key iv : list Z) (seq : Z) (record_header encrypted_data : list Z) : exec (option (Z * list Z)) :=
  let len := Z.of_nat (length encrypted_data) in
  if len <? 16 then Done None
  else
    let nonce := nonce_of iv seq in
    let ct_len := len - 16 in
    ciphertext ← slice_get encrypted_data 0 ct_len;
    tag ← slice_get encrypted_data ct_len len;
    plaintext ← Aead.aead_decrypt key nonce record_header ciphertext tag;
    match plaintext with
    | None => Done None
    | Some p =>
        match vec_pop p with
        | None => Done None
        | Some (inner_type, inner_data) => Done (Some (inner_type, inner_data))
        end
    end.

End TlsRecord.

(** ** Handshake messages *)
Module Hello.
Import TlsRecord.

Definition HT_CLIENT_HELLO : Z := 1.
Definition HT_SERVER_HELLO : Z := 2.
Definition HT_FINISHED : Z := 20.
Definition EXT_SERVER_NAME : Z := 0x0000.
Definition EXT_SUPPORTED_VERSIONS : Z := 0x002B.
Definition EXT_KEY_SHARE : Z := 0x0033.
Definition EXT_SIGNATURE_ALGORITHMS : Z := 0x000D.
Definition TLS_CHACHA20_POLY1305_SHA256 : Z := 0x1303.
Definition TLS_AES_128_GCM_SHA256 : Z := 0x1301.
Definition X25519_GROUP : Z := 0x001D.

Definition extension (ext_type : Z) (data : list Z) : list Z :=
  Be.be16 ext_type ++ Be.be16 (wrap 16 (Z.of_nat (length data))) ++ data.

(** [(len >> 16) as u8, (len >> 8) as u8, len as u8] and back. *)
Definition be24 (len : Z) : list Z := [wrap 8 (Z.shiftr len 16); wrap 8 (Z.shiftr len 8); wrap 8 len].
Definition of_be24 (a b c : Z) : Z := Z.lor (Z.lor (Z.shiftl a 16) (Z.shiftl b 8)) c.

Definition extensions (hostname client_public : list Z) : list Z :=
  let n := Z.of_nat (length hostname) in
  extension EXT_SERVER_NAME (Be.be16 (wrap 16 (3 + n)) ++ [0] ++ Be.be16 (wrap 16 n) ++ hostname) ++
  extension EXT_SUPPORTED_VERSIONS ([2] ++ Be.be16 TLS_13) ++
  extension EXT_KEY_SHARE (Be.be16 36 ++ Be.be16 X25519_GROUP ++ Be.be16 32 ++ client_public) ++
  extension EXT_SIGNATURE_ALGORITHMS (Be.be16 8 ++ Be.be16 0x0403 ++ Be.be16 0x0804 ++ Be.be16 0x0401 ++ Be.be16 0x0501).

Definition build_client_hello `{Sha2} (tick : Z) (hostname client_public : list Z) : list Z :=
  let exts := extensions hostname client_public in
  let hello :=
    Be.be16 TLS_12 ++ Hkdf.random_bytes_32 tick ++
    [32] ++ sha256 (str_bytes "fabric-os-session-id") ++
    Be.be16 4 ++ Be.be16 TLS_CHACHA20_POLY1305_SHA256 ++ Be.be16 TLS_AES_128_GCM_SHA256 ++
    [1; 0] ++ Be.be16 (wrap 16 (Z.of_nat (length exts))) ++ exts in
  [HT_CLIENT_HELLO] ++ be24 (wrap 32 (Z.of_nat (length hello))) ++ hello.

Record ServerHelloData := mkServerHello {
  server_random : list Z;
  cipher_suite : Z;
  server_public_key : list Z;
}.

Definition u16_at (data : list Z) (pos : Z) : exec Z :=
  a ← arr_get data pos;
  b ← arr_get data (pos + 1);
  Done (Be.of_be16 a b).

(** [while pos + 4 <= ext_end && pos + 4 <= data.len()]: each round moves on by at
    least 4. *)
Fixpoint find_key_share (fuel : nat) (data : list Z) (pos ext_end : Z) (found : option (list Z)) : exec (option (list Z)) :=
  let len := Z.of_nat (length data) in
  if (pos + 4 <=? ext_end) && (pos + 4 <=? len) then
    match fuel with
    | O => Diverged
    | S fuel' =>
        ext_type ← u16_at data pos;
        ext_data_len ← u16_at data (pos + 2);
        let pos := pos + 4 in
        if len <? pos + ext_data_len then Done found
        else
          found ←
            (if (ext_type =? EXT_KEY_SHARE) && (36 <=? ext_data_len) then
               group ← u16_at data pos;
               key_len ← u16_at data (pos + 2);
               if (group =? X25519_GROUP) && (key_len =? 32) then
                 key ← slice_get data (pos + 4) (pos + 36);
                 Done (Some key)
               else Done found
             else Done found);
          find_key_share fuel' data (pos + ext_data_len) ext_end found
    end
  else Done found.

Definition parse_server_hello (data : list Z) : exec (option ServerHelloData) :=
  let len := Z.of_nat (length data) in
  if len <? 38 then Done None
  else
    server_random ← slice_get data 2 34;
    session_id_len ← arr_get data 34;
    let pos := 34 + 1 + session_id_len in
    if len <? pos + 2 then Done None
    else
      cipher_suite ← u16_at data pos;
      let pos := pos + 2 + 1 in
      if len <? pos + 2 then Done None
      else
        ext_len ← u16_at data pos;
        let pos := pos + 2 in
        key ← find_key_share (length data) data pos (pos + ext_len) None;
        match key with
        | None => Done None
        | Some server_public_key => Done (Some (mkServerHello server_random cipher_suite server_public_key))
        end.

End Hello.

(** ** The key schedule *)
Module KeySchedule.
Import Hkdf.
Section Schedule.
Context `{Sha2}.

Record t := mk {
  handshake_secret : list Z;
  client_hs_traffic_secret : list Z;
  server_hs_traffic_secret : list Z;
  client_hs_key : list Z;
  client_hs_iv : list Z;
  server_hs_key : list Z;
  server_hs_iv : list Z;
  master_secret : list Z;
}.

Definition traffic_key (secret : list Z) : list Z := tls13_hkdf_expand_label secret (str_bytes "key") [] 32.
Definition traffic_iv (secret : list Z) : list Z := take 12 (tls13_hkdf_expand_label secret (str_bytes "iv") [] 12).

Definition compute_key_schedule (shared_secret hello_hash : list Z) : t :=
  let zero_key := replicate 32 0 in
  let empty_hash := sha256 [] in
  let early_secret := hkdf_extract zero_key zero_key in
  let derived := tls13_derive_secret early_secret (str_bytes "derived") empty_hash in
  let handshake_secret := hkdf_extract derived shared_secret in
  let client_secret := tls13_derive_secret handshake_secret (str_bytes "c hs traffic") hello_hash in
  let server_secret := tls13_derive_secret handshake_secret (str_bytes "s hs traffic") hello_hash in
  let derived2 := tls13_derive_secret handshake_secret (str_bytes "derived") empty_hash in
  mk handshake_secret client_secret server_secret
     (traffic_key client_secret) (traffic_iv client_secret)
     (traffic_key server_secret) (traffic_iv server_secret)
     (hkdf_extract derived2 zero_key).

Record AppKeys := mkAppKeys {
  client_key : list Z;
  client_iv : list Z;
  server_key : list Z;
  server_iv : list Z;
}.

Definition compute_app_keys (master_secret handshake_hash : list Z) : AppKeys :=
  let client_app_secret := tls13_derive_secret master_secret (str_bytes "c ap traffic") handshake_hash in
  let server_app_secret := tls13_derive_secret master_secret (str_bytes "s ap traffic") handshake_hash in
  mkAppKeys (traffic_key client_app_secret) (traffic_iv client_app_secret)
            (traffic_key server_app_secret) (traffic_iv server_app_secret).

End Schedule.
End KeySchedule.

(** ** Sessions *)
Module TlsSession.

Record t := mk {
  active : bool;
  socket_id : Z;
  state : TlsState;
  client_app_key : list Z;
  client_app_iv : list Z;
  server_app_key : list Z;
  server_app_iv : list Z;
  client_seq : Z;
  server_seq : Z;
  client_private : list Z;
  transcript : Sha256State.t;
}.

Definition eta (s : t) : t :=
  mk (active s) (socket_id s) (state s) (client_app_key s) (client_app_iv s) (server_app_key s) (server_app_iv s)
     (client_seq s) (server_seq s) (client_private s) (transcript s).

Definition set_state (v : TlsState) (s : t) : t := ltac:(set_field eta state v s).
Definition set_client_seq (v : Z) (s : t) : t := ltac:(set_field eta client_seq v s).
Definition set_server_seq (v : Z) (s : t) : t := ltac:(set_field eta server_seq v s).
Definition set_client_private (v : list Z) (s : t) : t := ltac:(set_field eta client_private v s).
Definition set_transcript (v : Sha256State.t) (s : t) : t := ltac:(set_field eta transcript v s).
Definition set_keys (k : KeySchedule.AppKeys) (s : t) : t :=
  mk (active s) (socket_id s) (state s) (KeySchedule.client_key k) (KeySchedule.client_iv k)
     (KeySchedule.server_key k) (KeySchedule.server_iv k) (client_seq s) (server_seq s) (client_private s) (transcript s).

(** [empty] followed by [init]. *)
Definition init (sock_id : Z) : t :=
  mk true sock_id Initial (replicate 32 0) (replicate 12 0) (replicate 32 0) (replicate 12 0) 0 0 (replicate 32 0) Sha256State.new.

End TlsSession.

Module Tls.
Import TlsRecord Hello KeySchedule TlsSession.

Definition MAX_TLS_SESSIONS : Z := 8.

Section Client.
Context {D T : Type} `{NicDriver D} `{Timer T} `{Sha2}.

(** The network and [TLS_SESSIONS]. *)
Record Tls := mkTls {
  net : NetStack.Net (D:=D) (T:=T);
  sessions : list (option TlsSession.t);
}.

(** Code that may stop with an error: [?] hands the error on. *)
Definition M (A : Type) : Type := Tls -> exec (Tls * result A TlsError).
Definition ret {A} (a : A) : M A := fun s => Done (s, Ok a).
Definition fail {A} (e : TlsError) : M A := fun s => Done (s, Err e).
Definition bind {A B} (m : M A) (k : A -> M B) : M B := fun s =>
  '(s, r) ← m s;
  match r with Ok a => k a s | Err e => Done (s, Err e) end.
Definition lift {A} (e : exec A) : M A := fun s => a ← e; Done (s, Ok a).
Notation "'let*' x := m 'in' k" := (bind m (fun x => k)) (at level 200, x pattern, m at level 100, k at level 200).

(** Code that uses the network only. *)
Definition on_net {A} (f : NetStack.Net -> exec (NetStack.Net * result A TlsError)) : M A := fun s =>
  '(n, r) ← f (net s);
  Done (mkTls n (sessions s), r).

Definition tick : M Z := fun s =>
  let '(n, now) := NetStack.read_clock (net s) in Done (mkTls n (sessions s), Ok now).

(** [if let Some(ref mut session) = sessions[idx]]. *)
Definition update_session (idx : Z) (f : TlsSession.t -> TlsSession.t) : M unit := fun s =>
  o ← arr_get (sessions s) idx;
  ss ← arr_set (sessions s) idx (f <$> o);
  Done (mkTls (net s) ss, Ok tt).

(** [sessions[idx].as_ref().unwrap().transcript.current_hash()]. *)
Definition transcript_hash (idx : Z) : M (list Z) := fun s =>
  o ← arr_get (sessions s) idx;
  match o with
  | Some session => Done (s, Ok (Sha256State.current_hash (transcript session)))
  | None => Panicked
  end.

(** ** The session table *)
Fixpoint first_free (l : list (option TlsSession.t)) : option nat :=
  match l with
  | [] => None
  | None :: _ => Some O
  | Some _ :: l' => S <$> first_free l'
  end.

Definition alloc_session (sock_id : Z) : M Z := fun s =>
  match first_free (sessions s) with
  | Some i => Done (mkTls (net s) (<[i := Some (TlsSession.init sock_id)]> (sessions s)), Ok (Z.of_nat i))
  | None => Done (s, Err NoSessions)
  end.

Definition free_session (idx : Z) : M unit := fun s =>
  Done (mkTls (net s) (if idx <? MAX_TLS_SESSIONS then <[Z.to_nat idx := None]> (sessions s) else sessions s), Ok tt).

Definition find_session (s : Tls) (sock_id : Z) : option nat :=
  fst <$> list_find (fun o => Is_true (match o with Some x => (socket_id x =? sock_id) && active x | None => false end)) (sessions s).

(** [sessions.get(idx).and_then(|s| s.as_ref()).ok_or(InvalidSession)]. *)
Definition get_session (idx : Z) : M TlsSession.t := fun s =>
  match sessions s !! Z.to_nat idx with
  | Some (Some x) => Done (s, Ok x)
  | _ => Done (s, Err InvalidSession)
  end.

(** ** Transport *)

(** The rounds of [tcp_recv_exact] for a buffer of [want] bytes, of which [got] is
    filled. *)
Fixpoint recv_rounds (k : nat) (id want : Z) (got : list Z) (n : NetStack.Net)
  : exec (NetStack.Net (D:=D) (T:=T) * result (list Z) TlsError) :=
  match k with
  | O => Done (n, Err Timeout)
  | S k' =>
      n ← NetStack.deliver_one n;
      match SocketTable.get (NetStack.SOCKETS n) id with
      | None => Done (n, Err SocketClosed)
      | Some sock =>
          let avail := RingBuffer.available (Socket.rx sock) in
          if 0 <? avail then
            let to_read := Z.min (want - Z.of_nat (length got)) avail in
            '(rx, bytes) ← RingBuffer.read (Socket.rx sock) to_read;
            let n := NetStack.set_SOCKETS (SocketTable.put (NetStack.SOCKETS n) id (Socket.set_rx rx sock)) n in
            let got := got ++ bytes in
            if want <=? Z.of_nat (length got) then Done (n, Ok got) else recv_rounds k' id want got n
          else recv_rounds k' id want got n
      end
  end.

Definition tcp_recv_exact (id want : Z) : M (list Z) := on_net (recv_rounds (Z.to_nat 200000) id want []).

Definition tcp_send_raw (id : Z) (data : list Z) : M unit := on_net (fun n =>
  '(n, r) ← NetStack.socket_send id data n;
  Done (n, match r with Ok _ => Ok tt | Err _ => Err SocketError_ end)).

Definition read_tls_record (id : Z) : M (Z * list Z) :=
  let* header := tcp_recv_exact id 5 in
  let* content_type := lift (arr_get header 0) in
  let* length := lift (u16_at header 3) in
  if 16384 + 256 <? length then fail RecordTooLarge
  else
    let* payload := tcp_recv_exact id length in
    ret (content_type, payload).

(** ** The handshake *)

(** The messages of one decrypted record: each goes into the transcript, and a
    Finished ends the handshake. Their other content is not looked at. *)
Fixpoint handshake_messages (fuel : nat) (session_idx : Z) (inner_data : list Z) (pos : Z) (got_finished : bool) : M bool :=
  let len := Z.of_nat (length inner_data) in
  if pos + 4 <=? len then
    match fuel with
    | O => fun _ => Diverged
    | S fuel' =>
        let* hs_type := lift (arr_get inner_data pos) in
        let* a := lift (arr_get inner_data (pos + 1)) in
        let* b := lift (arr_get inner_data (pos + 2)) in
        let* c := lift (arr_get inner_data (pos + 3)) in
        let msg_end := pos + 4 + of_be24 a b c in
        if len <? msg_end then ret got_finished
        else
          let* msg := lift (slice_get inner_data pos msg_end) in
          let* _ := update_session session_idx (fun x => set_transcript (Sha256State.update (transcript x) msg) x) in
          handshake_messages fuel' session_idx inner_data msg_end (got_finished || (hs_type =? HT_FINISHED))
    end
  else ret got_finished.

(** [for _ in 0..20]: the encrypted flight of the server. *)
Fixpoint server_flight (k : nat) (sock_id session_idx : Z) (ks : KeySchedule.t) (server_hs_seq : Z) : M bool :=
  match k with
  | O => ret false
  | S k' =>
      let* (ct, payload) := read_tls_record sock_id in
      if ct =? CT_APPLICATION_DATA then
        let header := header_of (Z.of_nat (length payload)) in
        let* r := lift (decrypt_record (server_hs_key ks) (server_hs_iv ks) server_hs_seq header payload) in
        match r with
        | None => let* _ := free_session session_idx in fail DecryptError
        | Some (inner_type, inner_data) =>
            let server_hs_seq := u64_add server_hs_seq 1 in
            if negb (inner_type =? CT_HANDSHAKE) then server_flight k' sock_id session_idx ks server_hs_seq
            else
              let* got_finished := handshake_messages (length inner_data) session_idx inner_data 0 false in
              if (got_finished : bool) then ret true else server_flight k' sock_id session_idx ks server_hs_seq
        end
      else server_flight k' sock_id session_idx ks server_hs_seq
  end.

(** The ServerHello, and the keys of the handshake. *)
Definition receive_server_hello (sock_id session_idx : Z) (private_key : list Z) : M KeySchedule.t :=
  let* (ct, payload) := read_tls_record sock_id in
  if negb (ct =? CT_HANDSHAKE) || negb (bool_decide (head payload = Some HT_SERVER_HELLO)) then
    let* _ := free_session session_idx in fail UnexpectedMessage
  else
    let* a := lift (arr_get payload 1) in
    let* b := lift (arr_get payload 2) in
    let* c := lift (arr_get payload 3) in
    let* data := lift (slice_get payload 4 (4 + of_be24 a b c)) in
    let* r := lift (parse_server_hello data) in
    match r with
    | None => let* _ := free_session session_idx in fail ParseError
    | Some server_hello =>
        let use_chacha := cipher_suite server_hello =? TLS_CHACHA20_POLY1305_SHA256 in
        let use_aes := cipher_suite server_hello =? TLS_AES_128_GCM_SHA256 in
        if negb use_chacha && negb use_aes then
          let* _ := free_session session_idx in fail UnsupportedCipher
        else
          let* _ := update_session session_idx (fun x => set_transcript (Sha256State.update (transcript x) payload) x) in
          let shared_secret := X25519.x25519 private_key (server_public_key server_hello) in
          let* hello_hash := transcript_hash session_idx in
          ret (compute_key_schedule shared_secret hello_hash)
    end.

(** The client's Finished, and the keys for application data. *)
Definition send_finished (sock_id session_idx : Z) (ks : KeySchedule.t) : M unit :=
  let* handshake_hash := transcript_hash session_idx in
  let app_keys := compute_app_keys (master_secret ks) handshake_hash in
  let finished_key := Hkdf.tls13_hkdf_expand_label (client_hs_traffic_secret ks) (str_bytes "finished") [] 32 in
  let verify_data := hmac_sha256 finished_key handshake_hash in
  let finished_msg := [HT_FINISHED; 0; 0; 32] ++ verify_data in
  let* finished_record := lift (build_encrypted_record (client_hs_key ks) (client_hs_iv ks) 0 CT_HANDSHAKE finished_msg) in
  let* _ := tcp_send_raw sock_id (build_record CT_CHANGE_CIPHER_SPEC [1]) in
  let* _ := tcp_send_raw sock_id finished_record in
  update_session session_idx (fun x => set_state ApplicationData (set_server_seq 0 (set_client_seq 0 (set_keys app_keys x)))).

Definition tls_connect (sock_id : Z) (hostname : list Z) : M Z :=
  let* session_idx := alloc_session sock_id in
  let* now := tick in
  let '(private_key, public_key) := X25519.x25519_keypair (Hkdf.random_bytes_32 now) in
  let* now := tick in
  let client_hello := build_client_hello now hostname public_key in
  let* _ := update_session session_idx (fun x =>
    set_transcript (Sha256State.update (transcript x) client_hello) (set_client_private private_key x)) in
  let* _ := tcp_send_raw sock_id (build_record CT_HANDSHAKE client_hello) in
  let* ks := receive_server_hello sock_id session_idx private_key in
  let* got_finished := server_flight 20 sock_id session_idx ks 0 in
  if negb got_finished then
    let* _ := free_session session_idx in fail HandshakeFailed
  else
    let* _ := send_finished sock_id session_idx ks in
    ret session_idx.

(** ** Application data *)
Definition tls_send (session_idx : Z) (data : list Z) : M Z :=
  let* session := get_session session_idx in
  if negb (bool_decide (state session = ApplicationData)) then fail NotReady
  else
    let* record := lift (build_encrypted_record (client_app_key session) (client_app_iv session) (client_seq session) CT_APPLICATION_DATA data) in
    let* _ := update_session session_idx (set_client_seq (u64_add (client_seq session) 1)) in
    let* _ := tcp_send_raw (socket_id session) record in
    ret (Z.of_nat (length data)).

(** Into a buffer of [cap] bytes: the bytes stored in it. *)
Definition tls_recv (session_idx cap : Z) : M (list Z) :=
  let* session := get_session session_idx in
  if negb (bool_decide (state session = ApplicationData)) then fail NotReady
  else
    let* (ct, payload) := read_tls_record (socket_id session) in
    if negb (ct =? CT_APPLICATION_DATA) then
      if ct =? CT_ALERT then fail AlertReceived else fail UnexpectedMessage
    else
      let* session := get_session session_idx in
      let header := header_of (Z.of_nat (length payload)) in
      let* r := lift (decrypt_record (server_app_key session) (server_app_iv session) (server_seq session) header payload) in
      match r with
      | None => fail DecryptError
      | Some (inner_type, inner_data) =>
          let* _ := update_session session_idx (fun x => set_server_seq (u64_add (server_seq x) 1) x) in
          if inner_type =? CT_APPLICATION_DATA then ret (take (Z.to_nat cap) inner_data)
          else if inner_type =? CT_ALERT then fail AlertReceived
          else fail UnexpectedMessage
      end.

Definition tls_close (session_idx : Z) : M unit :=
  let* session := get_session session_idx in
  if bool_decide (state session = TlsClosed) then ret tt
  else
    let* record := lift (build_encrypted_record (client_app_key session) (client_app_iv session) (client_seq session) CT_ALERT [1; 0]) in
    let* _ := update_session session_idx (fun x => set_state TlsClosed (set_client_seq (u64_add (client_seq x) 1) x)) in
    let* _ := (fun s => '(s, _) ← tcp_send_raw (socket_id session) record s; Done (s, Ok tt)) in
    free_session session_idx.

End Client.
Arguments Tls : clear implicits.
End Tls.
