(* ===== verification/TlsTheorems.v ===== *)
(** * Sessions of the TLS client

    [TlsSpec]: records round-trip, the parser of the ServerHello reads within its
    input, and every operation ends with the network and the sessions well formed.
    [TlsRuns]: what a finished handshake leaves behind, that no call disturbs the
    network or another session, and that two sessions with the same keys carry
    messages over a connection of the network stack. *)

From S2P Require Import Prelude Limbs Curve25519 CurveTheorems Aead AeadTheorems Hkdf NetWire NetWireSpec.
From S2P Require Import Sockets SocketSpec NetStack NetInv NetDelivery Tls.

Module TlsSpec.
Import TlsRecord Hello KeySchedule TlsSession Tls NetInv.

Notation bytes := (Forall (fun b => 0 <= b < 256)).

#[local] Opaque Aead.aead_encrypt Aead.aead_decrypt X25519.x25519.

(** ** Records *)
Lemma nonce_inj iv seq seq' : length iv = 12%nat -> in_u 64 seq -> in_u 64 seq' -> nonce_of iv seq = nonce_of iv seq' -> seq = seq'.
Proof.
  intros Hl Hs Hs' E. unfold nonce_of in E. apply app_inv_head in E.
  assert (forall l a b, length l = length a -> length a = length b -> zip_with Z.lxor l a = zip_with Z.lxor l b -> a = b) as Hz.
  { induction l as [|x l IH]; intros [|y a] [|z b] H1 H2; try done. cbn. intros [= Hx Hr]. f_equal; [|apply IH; auto].
    apply (f_equal (Z.lxor x)) in Hx. by rewrite <- !Z.lxor_assoc, Z.lxor_nilpotent, !Z.lxor_0_l in Hx. }
  apply Hz in E; [|rewrite length_drop, length_reverse, length_le_bytes; lia|by rewrite !length_reverse, !length_le_bytes].
  apply (f_equal reverse) in E. rewrite !reverse_involutive in E. by apply le_bytes_inj in E.
Qed.

Lemma header_bytes len : bytes (header_of len).
Proof.
  unfold header_of. rewrite !Forall_cons. pose proof (wrap_range 8 (Z.shiftr len 8)). pose proof (wrap_range 8 (Z.land len 0xFF)).
  change (2 ^ 8) with 256 in *. unfold CT_APPLICATION_DATA. split_all; try lia. done.
Qed.

Lemma header_length len : in_u 16 len -> Be.of_be16 (wrap 8 (Z.shiftr len 8)) (wrap 8 (Z.land len 0xFF)) = len.
Proof.
  intros Hl. unfold Be.of_be16. change 0xFF with (2 ^ 8 - 1). rewrite land_ones_mod by lia. unfold wrap. rewrite Z.mod_mod by lia.
  rewrite lor_shiftl_add by (try lia; apply Z.mod_pos_bound; lia). rewrite Z.shiftr_div_pow2 by lia.
  rewrite (Z.mod_small (len / 2 ^ 8)) by (split; [apply Z.div_pos; [apply Hl|lia]|apply Z.div_lt_upper_bound; [lia|apply Hl]]).
  rewrite (Z.div_mod len (2 ^ 8)) at 3 by lia. lia.
Qed.

(** A record is its header and a body of the length in the header, and opens to
    what was put in. *)
Lemma record_spec key iv seq ty payload : bytes payload -> 0 <= ty < 256 -> Z.of_nat (length payload) + 17 < 2 ^ 16 ->
  exists body, build_encrypted_record key iv seq ty payload = Done (header_of (Z.of_nat (length body)) ++ body) /\
    length body = (length payload + 17)%nat /\ bytes body /\
    decrypt_record key iv seq (header_of (Z.of_nat (length body))) body = Done (Some (ty, payload)).
Proof.
  intros Hp Ht Hlen. assert (bytes (payload ++ [ty])) as Hi by (apply Forall_app_2; [done|by apply Forall_singleton]).
  set (L := Z.of_nat (length payload) + 17). assert (in_u 16 L) as HL by (unfold in_u; lia).
  destruct (AeadRuns.seal_open key (nonce_of iv seq) (header_of L) (payload ++ [ty]) (header_bytes L) Hi) as (ct & He & Hl & Hd & Hct).
  set (tag := Rfc8439.poly1305 _ _) in *. assert (length tag = 16%nat) as Htl by apply AeadRuns.length_poly1305.
  assert (bytes tag) as Htb by apply le_bytes_range. rewrite length_app in Hl. cbn [length] in Hl.
  exists (ct ++ tag). assert (length (ct ++ tag) = (length payload + 17)%nat) as Hbl by (rewrite length_app; lia).
  replace (Z.of_nat (length (ct ++ tag))) with L by lia. split_all; [| |by apply Forall_app_2|].
  - unfold build_encrypted_record. rewrite length_app. cbn [length].
    replace (wrap 16 (Z.of_nat (length payload + 1) + 16)) with L by (rewrite wrap_small; unfold in_u in HL; lia). rewrite He. done.
  - done.
  - unfold decrypt_record. rewrite Hbl, (proj2 (Z.ltb_ge _ _)) by lia. unfold slice_get. rewrite Hbl, !decide_True by lia. exec_simpl.
    change (Z.to_nat 0) with 0%nat. rewrite drop_0. rewrite take_app_length' by lia. rewrite drop_app_length' by lia.
    rewrite (take_ge tag) by lia. rewrite Hd by done. exec_simpl. rewrite decide_True by done. by rewrite vec_pop_snoc.
Qed.

Lemma decrypt_returns key iv seq header data : bytes header -> bytes data ->
  returns (decrypt_record key iv seq header data) (fun r => forall ty p, r = Some (ty, p) -> bytes p /\ (length p < length data)%nat).
Proof.
  intros Hh Hd. unfold decrypt_record. destruct (_ <? 16) eqn:E; [by apply returns_done|]. apply Z.ltb_ge in E.
  unfold slice_get. rewrite !decide_True by lia. exec_simpl. 
  eapply returns_bind; [apply AeadRuns.open_returns; [done|by apply Forall_take, Forall_drop]|].
  intros [p|] Hp; [|by apply returns_done]. destruct (Hp p eq_refl) as [Hpb Hpl].
  destruct p as [|x p _] using rev_ind; [by apply returns_done|]. rewrite vec_pop_snoc. apply returns_done. intros ty q [= <- <-].
  apply Forall_app in Hpb as [Hpb _]. split; [done|]. rewrite length_app, length_take, length_drop in Hpl. cbn [length] in Hpl. lia.
Qed.

(** ** The ServerHello *)
Lemma byte_at_ok data pos : bytes data -> 0 <= pos < Z.of_nat (length data) -> returns (arr_get data pos) (in_u 8).
Proof.
  intros Hd Hp. destruct (arr_get_in data pos Hp) as (a & -> & Ha). apply returns_done. by apply (Forall_lookup_1 _ _ _ _ Hd Ha).
Qed.

Lemma u16_at_ok data pos : bytes data -> 0 <= pos -> pos + 2 <= Z.of_nat (length data) -> returns (u16_at data pos) (in_u 16).
Proof.
  intros Hd Hp Hl. unfold u16_at. eapply returns_bind; [apply byte_at_ok; [done|lia]|]. intros a Ha.
  eapply returns_bind; [apply byte_at_ok; [done|lia]|]. intros b Hb. apply returns_done. by apply of_be16_range.
Qed.

Lemma slice_ok data a b : bytes data -> 0 <= a <= b -> b <= Z.of_nat (length data) ->
  returns (slice_get data a b) (fun l => bytes l /\ Z.of_nat (length l) = b - a).
Proof.
  intros Hd Hab Hb. unfold slice_get. rewrite decide_True by lia. apply returns_done. split; [by apply Forall_take, Forall_drop|].
  rewrite length_take, length_drop. lia.
Qed.

Definition key_ok (k : option (list Z)) : Prop := forall key, k = Some key -> bytes key /\ length key = 32%nat.

Lemma find_key_share_ok data : bytes data -> forall fuel pos ext_end found, 0 <= pos -> Z.of_nat (length data) - pos <= 4 * Z.of_nat fuel ->
  key_ok found -> returns (find_key_share fuel data pos ext_end found) key_ok.
Proof.
  intros Hd. induction fuel as [|fuel IH]; intros pos ext_end found Hp Hf Hk; cbn [find_key_share];
    (destruct ((pos + 4 <=? ext_end) && (pos + 4 <=? Z.of_nat (length data))) eqn:E; [|by apply returns_done]);
    apply andb_true_iff in E as [_ E%Z.leb_le]; [lia|].
  eapply returns_bind; [apply u16_at_ok; [done|lia..]|]. intros ty _. eapply returns_bind; [apply u16_at_ok; [done|lia..]|]. intros len Hlen.
  destruct (_ <? pos + 4 + len) eqn:E2; [by apply returns_done|]. apply Z.ltb_ge in E2. unfold in_u in Hlen.
  eapply (returns_bind _ _ key_ok).
  - destruct ((ty =? EXT_KEY_SHARE) && (36 <=? len)) eqn:E3; [|by apply returns_done]. apply andb_true_iff in E3 as [_ E3%Z.leb_le].
    eapply returns_bind; [apply u16_at_ok; [done|lia..]|]. intros g _. eapply returns_bind; [apply u16_at_ok; [done|lia..]|]. intros kl _.
    destruct ((g =? X25519_GROUP) && (kl =? 32)); [|by apply returns_done].
    eapply returns_bind; [apply slice_ok; [done|lia..]|]. intros key [Hb Hl]. apply returns_done. intros k [= <-]. split; [done|]. lia.
  - intros found' Hk'. apply IH; [lia..|done].
Qed.

Lemma parse_server_hello_ok data : bytes data ->
  returns (parse_server_hello data) (fun r => forall h, r = Some h -> bytes (server_public_key h) /\ length (server_public_key h) = 32%nat).
Proof.
  intros Hd. unfold parse_server_hello. destruct (_ <? 38) eqn:E; [by apply returns_done|]. apply Z.ltb_ge in E.
  eapply returns_bind; [apply slice_ok; [done|lia..]|]. intros rnd _. eapply returns_bind; [apply byte_at_ok; [done|lia]|]. intros sid Hsid.
  unfold in_u in Hsid. destruct (_ <? _ + 2) eqn:E1; [by apply returns_done|]. apply Z.ltb_ge in E1.
  eapply returns_bind; [apply u16_at_ok; [done|lia..]|]. intros suite _. destruct (_ <? _ + 2) eqn:E2; [by apply returns_done|]. apply Z.ltb_ge in E2.
  eapply returns_bind; [apply u16_at_ok; [done|lia..]|]. intros el Hel. eapply returns_bind; [apply find_key_share_ok; [done|lia|lia|done]|].
  intros [key|] Hk; apply returns_done; [|done]. intros h [= <-]. by apply Hk.
Qed.

(** ** Hoare rules *)
Section Rules.
Context {D T : Type} `{NicDriver D} `{Timer T} `{Sha2}.
Notation Tls := (Tls D T).
Implicit Types s : Tls.

(** The code does not loop for ever, panics only if [p], and ends in [Q]. *)
Definition ends (p : bool) {A} (e : exec A) (Q : A -> Prop) : Prop :=
  match e with Done a => Q a | Panicked => p = true | Diverged => False end.

Lemma ends_returns {A} (e : exec A) (Q : A -> Prop) : ends false e Q <-> returns e Q.
Proof. destruct e as [a| |]; cbn; split; try done; [by exists a|intros (a' & [= <-] & ?); done|intros (? & ? & _); done..]. Qed.

Lemma returns_ends {A} p (e : exec A) (Q : A -> Prop) : returns e Q -> ends p e Q.
Proof. by intros (a & -> & Ha). Qed.

Definition hoare {A} (p : bool) (P : Tls -> Prop) (m : M A) (Q : A -> Tls -> Prop) (E : Tls -> Prop) : Prop :=
  forall s, P s -> ends p (m s) (fun r => match r.2 with Ok a => Q a r.1 | Err _ => E r.1 end).

Lemma hoare_bind {A B} p P (m : M A) (k : A -> M B) Q R E :
  hoare p P m Q E -> (forall a, hoare p (Q a) (k a) R E) -> hoare p P (bind m k) R E.
Proof.
  intros Hm Hk s Hs. unfold bind. specialize (Hm s Hs). destruct (m s) as [[s' r]| |]; cbn in *; [|done..].
  destruct r as [a|e]; cbn in *; [|done]. apply Hk, Hm.
Qed.

Lemma hoare_pre {A} p (P P' : Tls -> Prop) (m : M A) Q E : (forall s, P s -> P' s) -> hoare p P' m Q E -> hoare p P m Q E.
Proof. intros HP Hm s Hs. by apply Hm, HP. Qed.

Lemma hoare_post {A} p P (m : M A) (Q Q' : A -> Tls -> Prop) E : hoare p P m Q E -> (forall a s, Q a s -> Q' a s) -> hoare p P m Q' E.
Proof.
  intros Hm HQ s Hs. specialize (Hm s Hs). destruct (m s) as [[s' r]| |]; cbn in *; [|done..]. destruct r; cbn in *; auto.
Qed.

Lemma hoare_ret {A} p (P : Tls -> Prop) (a : A) (Q : A -> Tls -> Prop) E : (forall s, P s -> Q a s) -> hoare p P (ret a) Q E.
Proof. intros HP s Hs. cbn. by apply HP. Qed.

Lemma hoare_fail {A} p (P : Tls -> Prop) e (Q : A -> Tls -> Prop) (E : Tls -> Prop) : (forall s, P s -> E s) -> hoare p P (fail e) Q E.
Proof. intros HP s Hs. cbn. by apply HP. Qed.

Lemma hoare_lift {A} p (P : Tls -> Prop) (e : exec A) (Q : A -> Prop) E : ends p e Q -> hoare p P (lift e) (fun a s => Q a /\ P s) E.
Proof. intros He s Hs. unfold lift. destruct e; cbn in *; done. Qed.

(** A fact that the precondition carries. *)
Lemma hoare_fact {A} p (F : Prop) (P : Tls -> Prop) (m : M A) Q E : (F -> hoare p P m Q E) -> hoare p (fun s => F /\ P s) m Q E.
Proof. intros Hm s [HF Hs]. by apply Hm. Qed.

(** ** Sessions *)
Record sess_ok (x : TlsSession.t) : Prop := {
  so_ivs : length (client_app_iv x) = 12%nat /\ length (server_app_iv x) = 12%nat;
  so_seqs : in_u 64 (client_seq x) /\ in_u 64 (server_seq x);
}.

Definition slot_ok (o : option TlsSession.t) : Prop := forall x, o = Some x -> sess_ok x.

Record tls_ok (s : Tls) : Prop := {
  t_net : net_ok (net s);
  t_size : length (sessions s) = 8%nat;
  t_slots : Forall slot_ok (sessions s);
}.

(** The session in slot [i] is [x], the others are those of [S0]. *)
Definition own (i : nat) (S0 : list (option TlsSession.t)) (x : TlsSession.t) (s : Tls) : Prop :=
  sess_ok x /\ net_ok (net s) /\ sessions s = <[i := Some x]> S0.

(** Whatever is in slot [i], the others are those of [S0]. *)
Definition apart (i : nat) (S0 : list (option TlsSession.t)) (s : Tls) : Prop :=
  exists o, slot_ok o /\ net_ok (net s) /\ sessions s = <[i := o]> S0.

Lemma own_apart i S0 x s : own i S0 x s -> apart i S0 s.
Proof. intros (Hx & Hn & Hs). exists (Some x). split_all; try done. by intros ? [= <-]. Qed.

Section Slot.
Variables (i : nat) (S0 : list (option TlsSession.t)).
Hypothesis Hsize : length S0 = 8%nat.
Hypothesis Hi : (i < 8)%nat.

Lemma own_at o : arr_get (<[i := o]> S0) (Z.of_nat i) = Done o.
Proof. apply arr_get_at; [lia|]. rewrite Nat2Z.id. apply list_lookup_insert_eq. lia. Qed.

Lemma update_rule p x f : (sess_ok x -> sess_ok (f x)) ->
  hoare p (own i S0 x) (update_session (Z.of_nat i) f) (fun _ => own i S0 (f x)) (apart i S0).
Proof.
  intros Hf s (Hx & Hn & Hs). unfold update_session. rewrite Hs.
  rewrite own_at. exec_simpl.
  rewrite arr_set_Done by (rewrite length_insert; lia). exec_simpl. cbn. rewrite Nat2Z.id, list_insert_insert_eq. unfold own. cbn. auto.
Qed.

Lemma hash_rule p x : hoare p (own i S0 x) (transcript_hash (Z.of_nat i)) (fun h s => h = sha256 (transcript x) /\ own i S0 x s) (apart i S0).
Proof.
  intros s Ho. pose proof Ho as (Hx & Hn & Hs). unfold transcript_hash. rewrite Hs.
  rewrite own_at. exec_simpl. done.
Qed.

Lemma free_rule p x : hoare p (own i S0 x) (free_session (Z.of_nat i)) (fun _ => apart i S0) (apart i S0).
Proof.
  intros s (Hx & Hn & Hs). unfold free_session. cbn. unfold MAX_TLS_SESSIONS. rewrite (proj2 (Z.ltb_lt _ _)), Hs, Nat2Z.id, list_insert_insert_eq by lia.
  by exists None.
Qed.

(** Code on the network leaves the sessions alone. *)
Lemma net_rule {A} p x (f : NetStack.Net -> exec (NetStack.Net * result A TlsError)) (Q : A -> Prop) :
  (forall n, net_ok n -> ends p (f n) (fun r => net_ok r.1 /\ forall a, r.2 = Ok a -> Q a)) ->
  hoare p (own i S0 x) (on_net f) (fun a s => Q a /\ own i S0 x s) (apart i S0).
Proof.
  intros Hf s (Hx & Hn & Hs). unfold on_net. specialize (Hf _ Hn). destruct (f (net s)) as [[n r]| |]; cbn in *; [|done..].
  destruct Hf as [Hn' Hr]. destruct r as [a|e]; cbn; [split; [by apply Hr|done]|]. by apply (own_apart _ _ x).
Qed.

Lemma tick_rule p x : hoare p (own i S0 x) tick (fun _ => own i S0 x) (apart i S0).
Proof.
  intros s (Hx & Hn & Hs). unfold tick. pose proof (read_clock_ok _ Hn) as [Hn' _]. destruct (NetStack.read_clock (net s)) as [n now]. cbn in *. done.
Qed.

Lemma send_rule p x id data : bytes data -> Z.of_nat (length data) < 65528 ->
  hoare p (own i S0 x) (tcp_send_raw id data) (fun _ => own i S0 x) (apart i S0).
Proof.
  intros Hd Hl. eapply hoare_post; [apply (net_rule p x _ (fun _ => True))|by intros ? ? [_ ?]].
  intros n Hn. apply returns_ends. eapply returns_bind; [by apply socket_send_ok|]. intros [n' r] Hn'. by apply returns_done.
Qed.

Lemma recv_rounds_ok k : forall id want got (n : NetStack.Net (D:=D) (T:=T)), net_ok n -> bytes got -> Z.of_nat (length got) <= want ->
  returns (recv_rounds k id want got n) (fun r => net_ok r.1 /\ forall l, r.2 = Ok l -> bytes l /\ Z.of_nat (length l) = want).
Proof.
  induction k as [|k IH]; intros id want got n Hn Hg Hl; cbn [recv_rounds]; [by apply returns_done|].
  eapply returns_bind; [by apply deliver_one_ok|]. clear n Hn. intros n Hn.
  destruct (SocketTable.get (NetStack.SOCKETS n) id) as [sock|] eqn:Hs; [|by apply returns_done].
  destruct (0 <? _) eqn:Ha; [|by apply IH]. apply Z.ltb_lt in Ha. pose proof (net_get_ok _ _ _ Hn Hs) as Hsok.
  set (k' := Z.min _ _). assert (0 <= k') by lia.
  eapply returns_bind; [by apply (read_ok _ k' (so_rx _ Hsok))|]. intros [rx bs] (Hrx & Hbs & Hlen). cbn [fst snd] in *.
  set (n' := NetStack.set_SOCKETS _ n). assert (net_ok n') as Hn' by by apply net_ok_put, sock_ok_rx.
  assert (bytes (got ++ bs)) as Hgb by by apply Forall_app_2. rewrite length_app.
  destruct (want <=? _) eqn:Hw; [|apply IH; [done|done|rewrite length_app; lia]]. apply returns_done. split; [done|]. intros l [= <-].
  apply Z.leb_le in Hw. split; [done|]. rewrite length_app. lia.
Qed.

Lemma recv_rule p x id want : 0 <= want ->
  hoare p (own i S0 x) (tcp_recv_exact id want) (fun l s => (bytes l /\ Z.of_nat (length l) = want) /\ own i S0 x s) (apart i S0).
Proof. intros Hw. apply net_rule. intros n Hn. apply returns_ends, recv_rounds_ok; [done|done|cbn; lia]. Qed.

Lemma record_rule p x id :
  hoare p (own i S0 x) (read_tls_record id) (fun r s => (bytes r.2 /\ Z.of_nat (length r.2) <= 16640) /\ own i S0 x s) (apart i S0).
Proof.
  unfold read_tls_record. eapply hoare_bind; [by apply recv_rule|]. intros h. apply hoare_fact. intros [Hh Hl].
  eapply hoare_bind; [apply hoare_lift, returns_ends, byte_at_ok; [done|lia]|]. intros ct. apply hoare_fact. intros _.
  eapply hoare_bind; [apply hoare_lift, returns_ends, u16_at_ok; [done|lia..]|]. intros len. apply hoare_fact. intros Hlen. unfold in_u in Hlen.
  destruct (_ <? len) eqn:E; [apply hoare_fail; eauto using own_apart|]. apply Z.ltb_ge in E.
  eapply hoare_bind; [apply recv_rule; lia|]. intros pl. apply hoare_fact. intros [Hp Hpl]. apply hoare_ret. intros s Hs.
  split; [|done]. cbn. split; [done|lia].
Qed.

(** ** The handshake *)

(** The session has only taken in more of the transcript. *)
Definition heard (x : TlsSession.t) (s : Tls) : Prop := exists t, own i S0 (set_transcript (transcript x ++ t) x) s.

Lemma own_heard x s : own i S0 x s -> heard x s.
Proof. intros Ho. exists []. rewrite app_nil_r. by destruct x. Qed.

Lemma heard_heard x t s : heard (set_transcript (transcript x ++ t) x) s -> heard x s.
Proof. intros [t' Ho]. exists (t ++ t'). rewrite app_assoc. exact Ho. Qed.

Lemma hoare_heard {A} p x (m : M A) Q :
  (forall t, hoare p (own i S0 (set_transcript (transcript x ++ t) x)) m Q (apart i S0)) -> hoare p (heard x) m Q (apart i S0).
Proof. intros Hm s [t Ho]. by apply (Hm t). Qed.

Lemma of_be24_range a b c : in_u 8 a -> in_u 8 b -> in_u 8 c -> 0 <= of_be24 a b c < 2 ^ 24.
Proof.
  unfold in_u, of_be24. intros Ha Hb Hc. assert (in_u 24 (Z.lor (Z.lor (Z.shiftl a 16) (Z.shiftl b 8)) c)) as Hr; [|exact Hr].
  apply lor_range; [lia|apply lor_range; [lia|..]|unfold in_u; lia]; unfold in_u; rewrite Z.shiftl_mul_pow2; lia.
Qed.

Lemma messages_rule p data : bytes data -> forall fuel pos fin x, 0 <= pos -> Z.of_nat (length data) - pos <= 4 * Z.of_nat fuel ->
  hoare p (own i S0 x) (handshake_messages fuel (Z.of_nat i) data pos fin) (fun _ => heard x) (apart i S0).
Proof.
  intros Hd. induction fuel as [|fuel IH]; intros pos fin x Hp Hf; cbn [handshake_messages];
    (destruct (pos + 4 <=? Z.of_nat (length data)) eqn:E; [|apply hoare_ret; eauto using own_heard]); apply Z.leb_le in E; [lia|].
  eapply hoare_bind; [apply hoare_lift, returns_ends, byte_at_ok; [done|lia]|]. intros ty. apply hoare_fact. intros _.
  eapply hoare_bind; [apply hoare_lift, returns_ends, byte_at_ok; [done|lia]|]. intros a. apply hoare_fact. intros Ha.
  eapply hoare_bind; [apply hoare_lift, returns_ends, byte_at_ok; [done|lia]|]. intros b. apply hoare_fact. intros Hb.
  eapply hoare_bind; [apply hoare_lift, returns_ends, byte_at_ok; [done|lia]|]. intros c. apply hoare_fact. intros Hc.
  pose proof (of_be24_range a b c Ha Hb Hc) as Hl.
  destruct (_ <? _) eqn:E2; [apply hoare_ret; eauto using own_heard|]. apply Z.ltb_ge in E2.
  eapply hoare_bind; [apply hoare_lift, returns_ends, slice_ok; [done|lia..]|]. intros msg. apply hoare_fact. intros [Hm _].
  eapply hoare_bind; [apply (update_rule p x); by intros []|]. intros [].
  eapply hoare_post; [apply IH; lia|]. intros ? s. apply heard_heard.
Qed.

Lemma flight_rule p id k : forall ks seq x,
  hoare p (own i S0 x) (server_flight k id (Z.of_nat i) ks seq) (fun _ => heard x) (apart i S0).
Proof.
  induction k as [|k IH]; intros ks seq x; cbn [server_flight]; [apply hoare_ret; eauto using own_heard|].
  eapply hoare_bind; [apply record_rule|]. intros [ct pl]. apply hoare_fact. intros [Hp Hpl]. cbn [fst snd] in *.
  destruct (ct =? CT_APPLICATION_DATA); [|apply IH].
  eapply hoare_bind; [apply hoare_lift, returns_ends, decrypt_returns; [apply header_bytes|done]|]. intros r. apply hoare_fact. intros Hr.
  destruct r as [[ty data]|]; [destruct (Hr ty data eq_refl) as [Hdb Hdl]; clear Hr|].
  2: { eapply hoare_bind; [apply free_rule|]. intros []. by apply hoare_fail. }
  destruct (negb _); [apply IH|]. eapply hoare_bind; [apply messages_rule; [done|lia..]|]. intros [|]; [by apply hoare_ret|].
  apply hoare_heard. intros t. eapply hoare_post; [apply IH|]. intros ? s. apply heard_heard.
Qed.

(** Reading a byte that may be missing. *)
Lemma byte_at_ends data pos : bytes data -> ends true (arr_get data pos) (in_u 8).
Proof.
  intros Hd. unfold arr_get. destruct (decide (0 <= pos)); [|done]. destruct (data !! Z.to_nat pos) as [b|] eqn:E; [|done]. cbn.
  by apply (Forall_lookup_1 _ _ _ _ Hd E).
Qed.

Lemma slice_ends data a b : bytes data -> ends true (slice_get data a b) (fun l => bytes l).
Proof. intros Hd. unfold slice_get. destruct (decide _); [|done]. cbn. by apply Forall_take, Forall_drop. Qed.

(** The keys of the handshake come from the shared secret and the two hellos. *)
Definition agreed (x : TlsSession.t) (priv : list Z) (ks : KeySchedule.t) (s : Tls) : Prop :=
  exists pub hello, length pub = 32%nat /\ own i S0 (set_transcript (transcript x ++ hello) x) s /\
    ks = compute_key_schedule (X25519.x25519 priv pub) (sha256 (transcript x ++ hello)).

Lemma hoare_agreed {A} p x priv ks (m : M A) Q :
  (forall pub hello, length pub = 32%nat -> ks = compute_key_schedule (X25519.x25519 priv pub) (sha256 (transcript x ++ hello)) ->
     hoare p (own i S0 (set_transcript (transcript x ++ hello) x)) m Q (apart i S0)) ->
  hoare p (agreed x priv ks) m Q (apart i S0).
Proof. intros Hm s (pub & hello & Hl & Ho & E). by apply (Hm pub hello). Qed.

Lemma server_hello_rule id priv x :
  hoare true (own i S0 x) (receive_server_hello id (Z.of_nat i) priv) (fun ks => agreed x priv ks) (apart i S0).
Proof.
  unfold receive_server_hello. eapply hoare_bind; [apply record_rule|]. intros [ct pl]. apply hoare_fact. intros [Hp Hpl]. cbn [fst snd] in *.
  destruct (negb _ || negb _); [eapply hoare_bind; [apply free_rule|]; intros []; by apply hoare_fail|].
  eapply hoare_bind; [by apply hoare_lift, byte_at_ends|]. intros a. apply hoare_fact. intros _.
  eapply hoare_bind; [by apply hoare_lift, byte_at_ends|]. intros b. apply hoare_fact. intros _.
  eapply hoare_bind; [by apply hoare_lift, byte_at_ends|]. intros c. apply hoare_fact. intros _.
  eapply hoare_bind; [by apply hoare_lift, slice_ends|]. intros data. apply hoare_fact. intros Hd.
  eapply hoare_bind; [by apply hoare_lift, returns_ends, parse_server_hello_ok|]. intros r. apply hoare_fact. intros Hr.
  destruct r as [sh|]; [destruct (Hr sh eq_refl) as [_ Hl]; clear Hr|eapply hoare_bind; [apply free_rule|]; intros []; by apply hoare_fail].
  destruct (negb _ && negb _); [eapply hoare_bind; [apply free_rule|]; intros []; by apply hoare_fail|].
  eapply hoare_bind; [apply (update_rule true x); by intros []|]. intros [].
  eapply hoare_bind; [apply hash_rule|]. intros h. apply hoare_fact. intros ->. apply hoare_ret. intros s Hs. by exists (server_public_key sh), pl.
Qed.

End Slot.
End Rules.

End TlsSpec.

Module TlsRuns.
Import TlsRecord Hello KeySchedule TlsSession Tls NetInv NetDelivery TlsSpec.

#[local] Opaque Aead.aead_encrypt Aead.aead_decrypt X25519.x25519.

Section Runs.
Context {D T : Type} `{NicDriver D} `{Timer T} `{Sha2}.
Notation Tls := (Tls D T).
Implicit Types s : Tls.

(** ** The ClientHello *)
Lemma be16_pair v : bytes (Be.be16 v).
Proof.
  unfold Be.be16. pose proof (wrap_range 8 (Z.shiftr v 8)). pose proof (wrap_range 8 v). change (2 ^ 8) with 256 in *.
  rewrite !Forall_cons. split_all; [lia..|done].
Qed.

Lemma be24_bytes v : bytes (be24 v).
Proof.
  unfold be24. pose proof (wrap_range 8 (Z.shiftr v 16)). pose proof (wrap_range 8 (Z.shiftr v 8)). pose proof (wrap_range 8 v).
  change (2 ^ 8) with 256 in *. rewrite !Forall_cons. split_all; [lia..|done].
Qed.

Lemma extension_bytes ty data : bytes data -> bytes (extension ty data).
Proof. intros Hd. unfold extension. repeat apply Forall_app_2; try apply be16_pair. done. Qed.

Lemma length_extension ty data : length (extension ty data) = (4 + length data)%nat.
Proof. unfold extension. by rewrite !length_app. Qed.

Lemma record_bytes ty data : 0 <= ty < 256 -> bytes data -> bytes (build_record ty data).
Proof.
  intros Ht Hd. unfold build_record. repeat apply Forall_app_2; try apply be16_pair; [by apply Forall_singleton|done].
Qed.

Lemma length_record ty data : length (build_record ty data) = (5 + length data)%nat.
Proof. unfold build_record. by rewrite !length_app. Qed.

Lemma client_hello_ok now host pub : bytes host -> bytes pub -> length pub = 32%nat ->
  bytes (build_client_hello now host pub) /\ length (build_client_hello now host pub) = (length host + 153)%nat.
Proof.
  intros Hh Hp Hl. assert (bytes (extensions host pub)) as Hb.
  { unfold extensions. repeat apply Forall_app_2; try apply extension_bytes; repeat apply Forall_app_2; try apply be16_pair; try done; by apply Forall_singleton. }
  assert (length (extensions host pub) = (length host + 72)%nat) as He.
  { unfold extensions. rewrite !length_app, !length_extension, !length_app, Hl. cbn [length Be.be16]. lia. }
  unfold build_client_hello. cbv zeta. split.
  - rewrite !Forall_app. split_all;
      match goal with
      | |- Forall _ (Be.be16 _) => apply be16_pair
      | |- Forall _ (be24 _) => apply be24_bytes
      | |- Forall _ (extensions _ _) => exact Hb
      | |- Forall _ (_ :: _) => by repeat (apply Forall_cons; split; [done|])
      | |- _ => apply sha256_bytes
      end.
  - rewrite !length_app, He. unfold Hkdf.random_bytes_32. rewrite !sha256_length. cbn [length Be.be16 be24]. lia.
Qed.

Lemma public_key_ok now : bytes (X25519.x25519_keypair (Hkdf.random_bytes_32 now)).2 /\ length (X25519.x25519_keypair (Hkdf.random_bytes_32 now)).2 = 32%nat.
Proof.
  cbn [snd X25519.x25519_keypair]. rewrite CurveRuns.x25519_exact; [split; [apply le_bytes_range|apply length_le_bytes]|apply sha256_bytes|apply sha256_length| |done].
  by repeat constructor.
Qed.

#[local] Opaque X25519.x25519_keypair Hkdf.random_bytes_32.

(** ** The handshake *)
Lemma traffic_iv_length (secret : list Z) : length (traffic_iv secret) = 12%nat.
Proof. unfold traffic_iv, Hkdf.tls13_hkdf_expand_label, Hkdf.hkdf_expand_32. by rewrite length_take, hmac_length. Qed.

Definition with_keys (k : AppKeys) (x : TlsSession.t) : TlsSession.t :=
  set_state ApplicationData (set_server_seq 0 (set_client_seq 0 (set_keys k x))).

Lemma with_keys_ok m h x : sess_ok x -> sess_ok (with_keys (compute_app_keys m h) x).
Proof. intros _. split; cbn; [by rewrite !traffic_iv_length|unfold in_u; lia]. Qed.

Lemma finished_rule i S0 id ks x : length S0 = 8%nat -> (i < 8)%nat ->
  hoare (D:=D) (T:=T) true (own i S0 x) (send_finished id (Z.of_nat i) ks)
    (fun _ => own i S0 (with_keys (compute_app_keys (master_secret ks) (sha256 (transcript x))) x)) (apart i S0).
Proof.
  intros HS Hi. unfold send_finished. eapply hoare_bind; [by apply hash_rule|]. intros h. apply hoare_fact. intros ->.
  eapply hoare_bind.
  { apply (hoare_lift true _ _ (fun r => bytes r /\ Z.of_nat (length r) < 65528)).
    destruct (record_spec (client_hs_key ks) (client_hs_iv ks) 0 CT_HANDSHAKE
      ([HT_FINISHED; 0; 0; 32] ++ hmac_sha256 (Hkdf.tls13_hkdf_expand_label (client_hs_traffic_secret ks) (str_bytes "finished") [] 32) (sha256 (transcript x))))
      as (body & -> & Hl & Hb & _).
    - apply Forall_app_2; [by repeat constructor|apply hmac_bytes].
    - done.
    - rewrite length_app, hmac_length. cbn. lia.
    - cbn. rewrite length_app, hmac_length in Hl. cbn [length] in Hl. split; [apply (Forall_app_2 _ (header_of _)); [apply header_bytes|done]|lia]. }
  intros r. apply hoare_fact. intros [Hb Hl].
  eapply hoare_bind; [apply send_rule; [by apply record_bytes; [|repeat constructor]|rewrite length_record; cbn; lia]|]. intros [].
  eapply hoare_bind; [by apply send_rule|]. intros [].
  eapply (update_rule i S0 HS Hi true x). apply with_keys_ok.
Qed.

(** What a finished handshake leaves in its slot: the keys of RFC 8446, from the
    shared secret and the hash of what was said. *)
Definition established (sock_id : Z) (x : TlsSession.t) : Prop :=
  exists seed server_public hello rest,
    state x = ApplicationData /\ socket_id x = sock_id /\ client_seq x = 0 /\ server_seq x = 0 /\
    client_private x = seed /\ length server_public = 32%nat /\ transcript x = hello ++ rest /\
    let ks := compute_key_schedule (X25519.x25519 seed server_public) (sha256 hello) in
    let k := compute_app_keys (master_secret ks) (sha256 (hello ++ rest)) in
    client_app_key x = client_key k /\ client_app_iv x = client_iv k /\ server_app_key x = server_key k /\ server_app_iv x = server_iv k.

Lemma first_free_lt S0 i : first_free S0 = Some i -> (i < length S0)%nat.
Proof.
  revert i. induction S0 as [|[y|] S0 IH]; intros i Hf; cbn in *; [done| |injection Hf as <-; lia].
  destruct (first_free S0) as [k|]; [|done]. injection Hf as <-. specialize (IH k eq_refl). lia.
Qed.

Lemma connect_rule i S0 id host : length S0 = 8%nat -> first_free S0 = Some i -> bytes host -> Z.of_nat (length host) <= 256 ->
  hoare (D:=D) (T:=T) true (fun s => net_ok (net s) /\ sessions s = S0) (tls_connect id host)
    (fun r s => r = Z.of_nat i /\ exists x, established id x /\ own i S0 x s) (apart i S0).
Proof.
  intros HS Hf Hb Hl. pose proof (first_free_lt S0 i Hf) as Hi. rewrite HS in Hi.
  unfold tls_connect. eapply (hoare_bind _ _ _ _ (fun r s => r = Z.of_nat i /\ own i S0 (TlsSession.init id) s)).
  { intros s [Hn Hs]. unfold alloc_session. rewrite Hs, Hf. cbn. split; [done|]. split; [split; cbn; [done|unfold in_u; lia]|done]. }
  intros r. apply hoare_fact. intros ->. eapply hoare_bind; [apply tick_rule|]. intros now.
  destruct (public_key_ok now) as [Hpb Hpl]. revert Hpb Hpl. generalize (X25519.x25519_keypair (Hkdf.random_bytes_32 now)). intros [priv pub] Hpb Hpl. cbn [snd] in Hpb, Hpl.
  eapply hoare_bind; [apply tick_rule|]. intros now'. destruct (client_hello_ok now' host pub Hb Hpb Hpl) as [Hcb Hcl].
  set (ch := build_client_hello now' host pub) in *. eapply hoare_bind; [apply (update_rule i S0 HS Hi); by intros []|]. intros [].
  eapply hoare_bind; [apply send_rule; [by apply record_bytes|rewrite length_record; lia]|]. intros [].
  eapply hoare_bind; [by apply server_hello_rule|]. intros ks.
  apply hoare_agreed. intros pk hello Hpk Hks.
  eapply hoare_bind; [by apply flight_rule|]. intros got. apply hoare_heard. intros rest.
  destruct got; cbn [negb]; [|eapply hoare_bind; [by apply free_rule|]; intros []; by apply hoare_fail].
  eapply hoare_bind; [by apply finished_rule|]. intros []. apply hoare_ret. intros s Ho. split; [done|]. eexists. split; [|exact Ho].
  exists priv, pk, (ch ++ hello), rest. subst ks. cbn. repeat split; try done.
Qed.

(** ** Calls *)
Lemma apart_ok i s s' : tls_ok s -> apart i (sessions s) s' ->
  tls_ok s' /\ forall j, j <> i -> sessions s' !! j = sessions s !! j.
Proof.
  intros [Hn Hl Hf] (o & Ho & Hn' & Hs). rewrite Hs. split; [split|].
  - done.
  - by rewrite Hs, length_insert.
  - rewrite Hs. by apply Forall_insert.
  - intros j Hj. by apply list_lookup_insert_ne.
Qed.

Lemma own_here i x s : tls_ok s -> sessions s !! i = Some (Some x) -> own i (sessions s) x s /\ (i < 8)%nat.
Proof.
  intros [Hn Hl Hf] Hi. split; [|apply lookup_lt_Some in Hi; lia]. split; [|split; [done|]].
  - rewrite Forall_lookup in Hf. by apply (Hf _ _ Hi).
  - symmetry. by apply list_insert_id.
Qed.

Section Slot.
Variables (i : nat) (S0 : list (option TlsSession.t)).
Hypothesis Hsize : length S0 = 8%nat.
Hypothesis Hi : (i < 8)%nat.

Lemma get_rule p x : hoare (D:=D) (T:=T) p (own i S0 x) (get_session (Z.of_nat i)) (fun y s => y = x /\ own i S0 x s) (apart i S0).
Proof.
  intros s Ho. pose proof Ho as (_ & _ & Hs). unfold get_session. rewrite Nat2Z.id, Hs, list_lookup_insert_eq by lia. done.
Qed.

Lemma sealed_record p key iv seq ty data (P : Tls -> Prop) E : bytes data -> 0 <= ty < 256 -> Z.of_nat (length data) <= 65500 ->
  hoare p P (lift (build_encrypted_record key iv seq ty data)) (fun r s => (bytes r /\ Z.of_nat (length r) < 65528) /\ P s) E.
Proof.
  intros Hd Ht Hl. apply hoare_lift. destruct (record_spec key iv seq ty data Hd Ht ltac:(lia)) as (body & -> & Hbl & Hbb & _). cbn.
  split; [by apply (Forall_app_2 _ (header_of _)); [apply header_bytes|]|lia].
Qed.

Lemma send_call_rule p x data : bytes data -> Z.of_nat (length data) <= 65500 ->
  hoare (D:=D) (T:=T) p (own i S0 x) (tls_send (Z.of_nat i) data) (fun _ => apart i S0) (apart i S0).
Proof.
  intros Hd Hl. unfold tls_send. eapply hoare_bind; [apply get_rule|]. intros y. apply hoare_fact. intros ->.
  destruct (negb _); [apply hoare_fail; eauto using own_apart|].
  eapply hoare_bind; [by apply sealed_record|]. intros r. apply hoare_fact. intros [Hb Hr].
  eapply hoare_bind; [apply (update_rule i S0 Hsize Hi p x); intros [Hv Hq]; split; [done|split; [apply wrap_range; lia|apply Hq]]|]. intros [].
  eapply hoare_bind; [by apply send_rule|]. intros []. apply hoare_ret. eauto using own_apart.
Qed.

Lemma recv_call_rule p x cap :
  hoare (D:=D) (T:=T) p (own i S0 x) (tls_recv (Z.of_nat i) cap) (fun l s => Z.of_nat (length l) <= Z.max 0 cap /\ apart i S0 s) (apart i S0).
Proof.
  unfold tls_recv. eapply hoare_bind; [apply get_rule|]. intros y. apply hoare_fact. intros ->.
  destruct (negb _); [apply hoare_fail; eauto using own_apart|].
  eapply hoare_bind; [by apply record_rule|]. intros [ct pl]. apply hoare_fact. intros [Hp _]. cbn [fst snd] in *.
  destruct (negb _); [destruct (_ =? _); apply hoare_fail; eauto using own_apart|].
  eapply hoare_bind; [apply get_rule|]. intros y. apply hoare_fact. intros ->.
  eapply hoare_bind; [apply hoare_lift, returns_ends, decrypt_returns; [apply header_bytes|done]|]. intros r. apply hoare_fact. intros _.
  destruct r as [[ty data]|]; [|apply hoare_fail; eauto using own_apart].
  eapply hoare_bind; [apply (update_rule i S0 Hsize Hi p x); intros [Hv Hq]; split; [done|split; [apply Hq|apply wrap_range; lia]]|]. intros [].
  destruct (_ =? _); [apply hoare_ret; intros s Hs; split; [rewrite length_take; lia|eauto using own_apart]|]. destruct (_ =? _); apply hoare_fail; eauto using own_apart.
Qed.

Lemma close_call_rule p x : hoare (D:=D) (T:=T) p (own i S0 x) (tls_close (Z.of_nat i)) (fun _ => apart i S0) (apart i S0).
Proof.
  unfold tls_close. eapply hoare_bind; [apply get_rule|]. intros y. apply hoare_fact. intros ->.
  destruct (bool_decide _); [apply hoare_ret; eauto using own_apart|].
  eapply hoare_bind; [apply sealed_record; [by repeat constructor|done|cbn; lia]|]. intros r. apply hoare_fact. intros [Hb Hr].
  eapply hoare_bind; [apply (update_rule i S0 Hsize Hi p x); intros [Hv Hq]; split; [done|split; [apply wrap_range; lia|apply Hq]]|]. intros [].
  set (x' := set_state _ _). eapply (hoare_bind _ _ _ _ (fun _ => own i S0 x')); [|intros []; by apply free_rule].
  intros s (Hx & Hn & Hs). destruct (socket_send_ok (socket_id x) r (net s) Hn Hb Hr) as ([n' q] & E & Hn').
  unfold tcp_send_raw, on_net. rewrite E. exec_simpl. by cbn.
Qed.

End Slot.

Inductive call :=
| Connect (sock_id : Z) (hostname : list Z)
| Send (idx : Z) (data : list Z)
| Recv (idx cap : Z)
| Close (idx : Z).

Definition call_ok (c : call) : Prop :=
  match c with
  | Connect _ hostname => bytes hostname /\ Z.of_nat (length hostname) <= 256
  | Send idx data => 0 <= idx /\ bytes data /\ Z.of_nat (length data) <= 65500
  | Recv idx cap => 0 <= idx
  | Close idx => 0 <= idx
  end.

Definition run_call (c : call) : M (D:=D) (T:=T) Z :=
  match c with
  | Connect id hostname => tls_connect id hostname
  | Send idx data => tls_send idx data
  | Recv idx cap => bind (tls_recv idx cap) (fun l => ret (Z.of_nat (length l)))
  | Close idx => bind (tls_close idx) (fun _ => ret 0)
  end.

(** The slot a call works on. *)
Definition slot_of (c : call) s : option nat :=
  match c with
  | Connect _ _ => first_free (sessions s)
  | Send idx _ | Recv idx _ | Close idx => Some (Z.to_nat idx)
  end.

Definition may_panic (c : call) : bool := match c with Connect _ _ => true | _ => false end.

Lemma get_session_cases idx s : 0 <= idx ->
  (exists x, sessions s !! Z.to_nat idx = Some (Some x)) \/ get_session idx s = Done (s, Err InvalidSession).
Proof. intros Hi. unfold get_session. destruct (sessions s !! Z.to_nat idx) as [[x|]|]; eauto. Qed.

Lemma hoare_apart {A} p i x s (m : M (D:=D) (T:=T) A) : tls_ok s ->
  hoare p (own i (sessions s) x) m (fun _ => apart i (sessions s)) (apart i (sessions s)) -> own i (sessions s) x s ->
  ends p (m s) (fun r => tls_ok r.1 /\ forall j, j <> i -> sessions r.1 !! j = sessions s !! j).
Proof.
  intros Hs Hm Ho. specialize (Hm s Ho). destruct (m s) as [[s' r]| |]; cbn in *; [|done..]. apply apart_ok; [done|]. by destruct r.
Qed.

Lemma call_contained c s : tls_ok s -> call_ok c ->
  ends (may_panic c) (run_call c s) (fun r => tls_ok r.1 /\ forall j, Some j <> slot_of c s -> sessions r.1 !! j = sessions s !! j).
Proof.
  intros Hs Hc. pose proof Hs as [Hn Hsz _].
  assert (forall idx (m : M (D:=D) (T:=T) Z), 0 <= idx ->
    (get_session idx s = Done (s, Err InvalidSession) -> m s = Done (s, Err InvalidSession)) ->
    (forall i x, idx = Z.of_nat i -> (i < 8)%nat -> hoare false (own i (sessions s) x) m (fun _ => apart i (sessions s)) (apart i (sessions s))) ->
    ends false (m s) (fun r => tls_ok r.1 /\ forall j, Some j <> Some (Z.to_nat idx) -> sessions r.1 !! j = sessions s !! j)) as Hgen.
  { intros idx m Hi Hnone Hm. destruct (get_session_cases idx s Hi) as [[x Hx]|E].
    - destruct (own_here _ _ _ Hs Hx) as [Ho Hlt].
      pose proof (hoare_apart false _ x s m Hs (Hm (Z.to_nat idx) x ltac:(lia) Hlt) Ho) as He.
      destruct (m s) as [r| |]; cbn in *; [|done..]. destruct He as [Ht Hj]. split; [done|]. intros j Hne. apply Hj. congruence.
    - rewrite (Hnone E). cbn. done. }
  destruct c as [id host|idx data|idx cap|idx]; cbn [may_panic run_call slot_of call_ok] in *.
  - destruct Hc as [Hb Hl]. destruct (first_free (sessions s)) as [i|] eqn:Hf.
    + pose proof (connect_rule i (sessions s) id host Hsz Hf Hb Hl s ltac:(done)) as He. destruct (tls_connect id host s) as [[s' r]| |]; cbn in *; [|done..].
      assert (apart i (sessions s) s') as Ha by (destruct r; [destruct He as (_ & x & _ & Ho); by apply own_apart in Ho|done]).
      destruct (apart_ok _ _ _ Hs Ha) as [Ht Hj]. split; [done|]. intros j Hne. apply Hj. congruence.
    + unfold tls_connect, alloc_session, bind at 1. rewrite Hf. cbn. done.
  - destruct Hc as (Hi & Hb & Hl). apply Hgen; [done| |].
    + intros E. unfold tls_send, bind at 1. by rewrite E.
    + intros i x -> Hlt. by apply send_call_rule.
  - apply Hgen; [done| |].
    + intros E. unfold tls_recv, bind. by rewrite E.
    + intros i x -> Hlt. eapply hoare_bind; [by apply recv_call_rule|]. intros l. apply hoare_ret. by intros ? [_ ?].
  - apply Hgen; [done| |].
    + intros E. unfold tls_close, bind. by rewrite E.
    + intros i x -> Hlt. eapply hoare_bind; [by apply close_call_rule|]. intros []. by apply hoare_ret.
Qed.

(** What [tls_recv] returns fits the buffer. *)
Lemma recv_contained idx cap s : tls_ok s -> 0 <= idx ->
  ends false (tls_recv idx cap s) (fun r => tls_ok r.1 /\ forall l, r.2 = Ok l -> Z.of_nat (length l) <= Z.max 0 cap).
Proof.
  intros Hs Hi. destruct (get_session_cases idx s Hi) as [[x Hx]|E]; [|unfold tls_recv, bind; rewrite E; by cbn].
  destruct (own_here _ _ _ Hs Hx) as [Ho Hlt]. pose proof Hs as [_ Hsz _].
  pose proof (recv_call_rule (Z.to_nat idx) (sessions s) Hsz Hlt false x cap s Ho) as He. rewrite Z2Nat.id in He by done.
  destruct (tls_recv idx cap s) as [[s' r]| |]; cbn in *; [|done..]. destruct r as [l|e]; cbn in He.
  - destruct He as [Hl Ha]. split; [by apply (apart_ok (Z.to_nat idx) s s')|]. by intros ? [= <-].
  - split; [by apply (apart_ok (Z.to_nat idx) s s')|done].
Qed.

(** States that calls, and whatever else happens in the network, lead to. *)
Inductive tls_reachable : Tls -> Prop :=
| tls_boot n : net_ok n -> tls_reachable (mkTls n (replicate 8 None))
| tls_call s c s' r : tls_reachable s -> call_ok c -> run_call c s = Done (s', r) -> tls_reachable s'
| tls_traffic s n : tls_reachable s -> net_ok n -> tls_reachable (mkTls n (sessions s)).

Lemma tls_reachable_ok s : tls_reachable s -> tls_ok s.
Proof.
  induction 1 as [n Hn|s c s' r _ IH Hc E|s n _ [_ Hl Hf] Hn].
  - split; [done|done|]. by apply Forall_replicate.
  - pose proof (call_contained c s IH Hc) as He. rewrite E in He. apply He.
  - by split.
Qed.

(** No TLS call disturbs the kernel or another session. In every state that
    earlier calls and network traffic can lead to, a call with a host name of at
    most 256 or data of at most 65500 bytes ends; only [tls_connect] can panic
    (on a malformed ServerHello). The network stays well formed, every session
    but the one of the call stays as it was, and a connection that is reported
    as made has fresh sequence numbers and the keys that RFC 8446 derives from the
    shared secret and the transcript. *)
Theorem tls_calls_are_contained s c : tls_reachable s -> call_ok c ->
  run_call c s <> Diverged /\ (run_call c s = Panicked -> may_panic c = true) /\
  forall s' r, run_call c s = Done (s', r) ->
    net_ok (net s') /\ (forall j, Some j <> slot_of c s -> sessions s' !! j = sessions s !! j) /\
    (forall id host, c = Connect id host -> forall idx, r = Ok idx ->
       exists x, sessions s' !! Z.to_nat idx = Some (Some x) /\ established id x).
Proof.
  intros Hs%tls_reachable_ok Hc. pose proof (call_contained c s Hs Hc) as He. split_all.
  - by intros E; rewrite E in He.
  - by intros E; rewrite E in He.
  - intros s' r E. rewrite E in He. destruct He as [[Hn' _ _] Hj]. split; [done|]. split; [done|].
    intros id host -> idx ->. cbn in E, Hc. destruct Hc as [Hb Hl]. destruct Hs as [Hn Hsz _].
    destruct (first_free (sessions s)) as [i|] eqn:Hf; [|unfold tls_connect, alloc_session, bind at 1 in E; by rewrite Hf in E].
    pose proof (connect_rule i (sessions s) id host Hsz Hf Hb Hl s ltac:(done)) as Hr. rewrite E in Hr. cbn in Hr.
    destruct Hr as (-> & x & Hx & (_ & _ & ->)). exists x. split; [|done]. rewrite Nat2Z.id. apply list_lookup_insert_eq. rewrite Hsz.
    rewrite <- Hsz. by apply first_free_lt.
Qed.

End Runs.

Section Witness.

#[local] Instance no_card : NicDriver unit := {
  mac_address _ := [0; 0; 0; 0; 0; 0];
  send_packet d _ := (d, true);
  poll_rx d := (d, None);
  recycle_rx d := d;
}.
#[local] Instance stopped : Timer unit := fun c => (c, 7).
#[local] Existing Instance Hkdf.toy_sha2.

Lemma tls_calls_are_contained_witness :
  run_call (Connect 256 [97; 46; 98]) (mkTls (D:=unit) (T:=unit) (NetStack.init tt) (replicate 8 None)) <> Diverged.
Proof.
  refine (proj1 (tls_calls_are_contained (mkTls (NetStack.init tt) (replicate 8 None)) (Connect 256 [97; 46; 98]) _ _)).
  - apply tls_boot, net_ok_init.
  - split; [by repeat constructor|]. cbn. lia.
Defined.

End Witness.
End TlsRuns.
