(* ===== verification/TlsDelivery.v ===== *)
(** * TLS over a connection

    With a connection of the network stack under it, a handshake to whose
    ClientHello the server has answered completes with the keys of RFC 8446, and
    messages that one session seals come out of a session with the mirrored keys
    unchanged and in order. *)

From S2P Require Import Prelude Limbs Curve25519 Aead AeadTheorems Hkdf NetWire NetWireSpec Sockets.
From S2P Require Import SocketSpec NetStack NetInv NetDelivery Handshake NetTheorems Tls TlsTheorems.

Module TlsDelivery.
Import TlsRecord Hello KeySchedule TlsSession Tls NetInv NetDelivery TlsSpec TlsRuns.

#[local] Opaque Aead.aead_encrypt Aead.aead_decrypt X25519.x25519 X25519.x25519_keypair.

Section Delivery.
Context {D T : Type} `{NicDriver D} `{Timer T} `{Sha2}.
Notation Tls := (Tls D T).
Notation "'let*' x := m 'in' k" := (bind m (fun x => k)) (at level 200, x pattern, m at level 100, k at level 200).
Implicit Types s : Tls.
Implicit Types n : NetStack.Net (D:=D) (T:=T).

(** No frame comes in from a network card. *)
Hypothesis silent : forall d : D, (poll_rx d).2 = None.

(** ** Running the monad *)
Lemma bind_lift {A B} (e : exec A) (k : A -> M B) s a : e = Done a -> bind (lift e) k s = k a s.
Proof. by intros ->. Qed.

Lemma bind_ok {A B} (m : M A) (k : A -> M B) s s' a : m s = Done (s', Ok a) -> bind m k s = k a s'.
Proof. intros E. unfold bind. by rewrite E. Qed.

(** ** Reading records *)

(** Linked once the next packet is delivered. *)
Definition soon n aid bid a b xs : Prop := exists n', NetStack.deliver_one n = Done n' /\ linked n' aid bid a b xs.

Lemma linked_soon n aid bid a b xs : linked n aid bid a b xs -> soon n aid bid a b xs.
Proof. intros Hl. apply linked_idle; [done|]. by intros nic _. Qed.

Lemma recv_here k n aid bid a b l rest : soon n aid bid a b (l ++ rest) -> (2 * length l + length rest < 4096)%nat ->
  exists n' b', recv_rounds (S k) bid (Z.of_nat (length l)) [] n = Done (n', Ok l) /\ linked n' aid bid a b' rest.
Proof.
  intros (n1 & Hd & Hl) Hlen. cbn [recv_rounds]. rewrite Hd. exec_simpl. rewrite (l_b _ _ _ _ _ _ Hl).
  pose proof (RingBufferSpec.h_len _ _ (l_rx _ _ _ _ _ _ Hl)) as Hav. rewrite length_app in Hav.
  unfold RingBuffer.available, RingBuffer.RING_BUF_SIZE. rewrite Hav, (proj2 (Z.ltb_lt _ _)) by lia.
  rewrite Z.min_l by (cbn [length]; lia). cbn [length app]. rewrite Z.sub_0_r.
  destruct (linked_read _ _ _ _ _ _ (Z.of_nat (length l)) Hl ltac:(lia)) as (rb & -> & Hl'). exec_simpl.
  rewrite Nat2Z.id, take_app_length, drop_app_length in *. rewrite Z.leb_refl. eauto.
Qed.

(** A record on the wire. *)
Definition wire (ty hi lo : Z) (body : list Z) : list Z := [ty; 3; 3; hi; lo] ++ body.

Lemma read_record s aid bid a b ty hi lo body rest :
  soon (net s) aid bid a b (wire ty hi lo body ++ rest) -> Be.of_be16 hi lo = Z.of_nat (length body) ->
  (10 + 2 * length body + length rest < 4096)%nat ->
  exists n' b', read_tls_record bid s = Done (mkTls n' (sessions s), Ok (ty, body)) /\ linked n' aid bid a b' rest.
Proof.
  intros Hs Hlen Hroom. unfold wire in Hs. rewrite <- app_assoc in Hs.
  destruct (recv_here (Z.to_nat 199999) _ _ _ _ _ [ty; 3; 3; hi; lo] _ Hs) as (n1 & b1 & E1 & Hl1); [cbn; rewrite length_app; lia|].
  destruct (recv_here (Z.to_nat 199999) _ _ _ _ _ body rest (linked_soon _ _ _ _ _ _ Hl1)) as (n2 & b2 & E2 & Hl2); [lia|].
  exists n2, b2. split; [|done]. unfold read_tls_record, tcp_recv_exact.
  replace (Z.to_nat 200000) with (S (Z.to_nat 199999)) by (rewrite <- Z2Nat.inj_succ; lia).
  unfold bind at 1, on_net. change 5 with (Z.of_nat (length [ty; 3; 3; hi; lo])). rewrite E1. exec_simpl.
  unfold bind at 1, lift. change (arr_get [ty; 3; 3; hi; lo] 0) with (Done ty). exec_simpl.
  unfold bind at 1. change (u16_at [ty; 3; 3; hi; lo] 3) with (Done (Be.of_be16 hi lo)). exec_simpl. rewrite Hlen.
  rewrite (proj2 (Z.ltb_ge _ _)) by lia. unfold bind. cbn [net sessions]. rewrite E2. exec_simpl. done.
Qed.

Lemma wire_header len body : header_of len ++ body = wire CT_APPLICATION_DATA (wrap 8 (Z.shiftr len 8)) (wrap 8 (Z.land len 0xFF)) body.
Proof. done. Qed.

(** ** Messages *)

(** Each message is sent with session [i] and received with session [j]. *)
Fixpoint tls_exchange (i j cap : Z) (msgs : list (list Z)) : M (list (list Z)) :=
  match msgs with
  | [] => ret []
  | m :: msgs' =>
      bind (tls_send i m) (fun _ =>
      bind (tls_recv j cap) (fun got =>
      bind (tls_exchange i j cap msgs') (fun rest => ret (got :: rest))))
  end.

(** What session [x] seals, [y] can open. *)
Record mirrored (x y : TlsSession.t) : Prop := {
  mi_state : state x = ApplicationData /\ state y = ApplicationData;
  mi_key : client_app_key x = server_app_key y;
  mi_iv : client_app_iv x = server_app_iv y;
  mi_seq : client_seq x = server_seq y;
}.

Definition sent (x : TlsSession.t) : TlsSession.t := set_client_seq (u64_add (client_seq x) 1) x.
Definition received (y : TlsSession.t) : TlsSession.t := set_server_seq (u64_add (server_seq y) 1) y.

Lemma mirrored_next x y : mirrored x y -> mirrored (sent x) (received y).
Proof. intros [Hs Hk Hv Hq]. split; [done..|]. cbn. by rewrite Hq. Qed.

Lemma get_session_at s i x : sessions s !! i = Some (Some x) -> get_session (Z.of_nat i) s = Done (s, Ok x).
Proof. intros Hi. unfold get_session. by rewrite Nat2Z.id, Hi. Qed.

Lemma tls_send_linked s i bid x a b data :
  sessions s !! i = Some (Some x) -> state x = ApplicationData -> linked (net s) (socket_id x) bid a b [] ->
  bytes data -> (length data <= 1438)%nat ->
  exists n' a' b' body, tls_send (Z.of_nat i) data s = Done (mkTls n' (<[i := Some (sent x)]> (sessions s)), Ok (Z.of_nat (length data))) /\
    soon n' (socket_id x) bid a' b' (header_of (Z.of_nat (length body)) ++ body) /\ length body = (length data + 17)%nat /\ 
    decrypt_record (client_app_key x) (client_app_iv x) (client_seq x) (header_of (Z.of_nat (length body))) body = Done (Some (CT_APPLICATION_DATA, data)).
Proof.
  intros Hi Hst Hl Hd Hlen.
  destruct (record_spec (client_app_key x) (client_app_iv x) (client_seq x) CT_APPLICATION_DATA data Hd) as (body & Hr & Hbl & Hbb & Hdec); [done|lia|].
  destruct (linked_ack _ _ _ _ _ _ (header_of (Z.of_nat (length body)) ++ body) Hl) as (n1 & n2 & a' & b' & Hsend & _ & Hdel & Hl2 & _).
  - by apply (Forall_app_2 _ (header_of _)); [apply header_bytes|].
  - done.
  - rewrite length_app, Hbl. cbn [length header_of]. lia.
  - rewrite length_app, Hbl. cbn [length header_of]. lia.
  - exists n1, a', b', body. split; [|split; [by exists n2|done]].
    unfold tls_send, bind at 1. rewrite (get_session_at _ _ x Hi). exec_simpl. rewrite bool_decide_eq_true_2 by done. cbn [negb].
    unfold bind at 1, lift. rewrite Hr. exec_simpl. unfold bind at 1, update_session.
    rewrite (arr_get_at _ _ (Some x)) by (try lia; by rewrite Nat2Z.id). exec_simpl.
    rewrite arr_set_Done by (apply lookup_lt_Some in Hi; lia). exec_simpl. unfold bind, tcp_send_raw, on_net. cbn [net].
    rewrite Hsend. exec_simpl. rewrite Nat2Z.id. done.
Qed.

Lemma tls_recv_linked s j aid y a b body data cap :
  sessions s !! j = Some (Some y) -> state y = ApplicationData ->
  soon (net s) aid (socket_id y) a b (header_of (Z.of_nat (length body)) ++ body) -> (length body <= 2000)%nat ->
  decrypt_record (server_app_key y) (server_app_iv y) (server_seq y) (header_of (Z.of_nat (length body))) body = Done (Some (CT_APPLICATION_DATA, data)) ->
  exists n' b', tls_recv (Z.of_nat j) cap s = Done (mkTls n' (<[j := Some (received y)]> (sessions s)), Ok (take (Z.to_nat cap) data)) /\
    linked n' aid (socket_id y) a b' [].
Proof.
  intros Hj Hst Hs Hbl Hdec. rewrite wire_header, <- (app_nil_r (wire _ _ _ _)) in Hs.
  destruct (read_record _ _ _ _ _ _ _ _ _ _ Hs) as (n1 & b1 & E & Hl1); [apply header_length; unfold in_u; lia|cbn; lia|].
  exists n1, b1. split; [|done]. unfold tls_recv, bind at 1. rewrite (get_session_at _ _ y Hj). exec_simpl.
  rewrite bool_decide_eq_true_2 by done. cbn [negb]. unfold bind at 1. rewrite E. exec_simpl. rewrite Z.eqb_refl. cbn [negb].
  unfold bind at 1. rewrite (get_session_at (mkTls n1 (sessions s)) j y Hj). exec_simpl. unfold bind at 1, lift. rewrite Hdec. exec_simpl.
  unfold bind, update_session. cbn [sessions net]. rewrite (arr_get_at _ _ (Some y)) by (try lia; by rewrite Nat2Z.id). exec_simpl.
  rewrite arr_set_Done by (apply lookup_lt_Some in Hj; lia). exec_simpl. rewrite Nat2Z.id, Z.eqb_refl. done.
Qed.

(** C35. Sessions deliver: over an idle loopback connection, each message of at
    most 1438 bytes that one session sends is what a session with the mirrored
    keys and sequence number receives (as much as its buffer takes), for any
    sequence of messages; both sequence numbers advance together, the connection
    stays linked, and no other session changes. *)
Theorem tls_sessions_deliver s i j x y a b cap msgs :
  i <> j -> sessions s !! i = Some (Some x) -> sessions s !! j = Some (Some y) -> mirrored x y ->
  linked (net s) (socket_id x) (socket_id y) a b [] -> Forall (fun m => bytes m /\ (length m <= 1438)%nat) msgs ->
  exists s' x' y' a' b', tls_exchange (Z.of_nat i) (Z.of_nat j) cap msgs s = Done (s', Ok (take (Z.to_nat cap) <$> msgs)) /\
    sessions s' = <[j := Some y']> (<[i := Some x']> (sessions s)) /\ mirrored x' y' /\
    linked (net s') (socket_id x) (socket_id y) a' b' [] /\
    client_seq x' = Nat.iter (length msgs) (fun q => u64_add q 1) (client_seq x).
Proof.
  revert s x y a b. induction msgs as [|m msgs IH]; intros s x y a b Hij Hi Hj Hm Hl Hms.
  { exists s, x, y, a, b. split_all; try done. by rewrite (list_insert_id _ i), list_insert_id. }
  apply Forall_cons in Hms as [[Hmb Hml] Hms]. pose proof Hm as [[Hsx Hsy] Hk Hv Hq].
  destruct (tls_send_linked _ _ _ _ _ _ m Hi Hsx Hl Hmb Hml) as (n1 & a1 & b1 & body & E1 & Hs1 & Hbl & Hdec).
  rewrite Hk, Hv, Hq in Hdec. set (s1 := mkTls n1 (<[i := Some (sent x)]> (sessions s))) in *.
  assert (sessions s1 !! j = Some (Some y)) as Hj1 by (by cbn; rewrite list_lookup_insert_ne).
  destruct (tls_recv_linked s1 j _ y a1 b1 body m cap Hj1 Hsy Hs1 ltac:(lia) Hdec) as (n2 & b2 & E2 & Hl2).
  set (s2 := mkTls n2 _) in E2.
  destruct (IH s2 (sent x) (received y) a1 b2 Hij) as (s' & x' & y' & a' & b' & E3 & Hs' & Hm' & Hl' & Hseq).
  - cbn. rewrite list_lookup_insert_ne, list_lookup_insert_eq; [done|by apply lookup_lt_Some in Hi|done].
  - cbn. rewrite list_lookup_insert_eq; [done|]. rewrite length_insert. by apply lookup_lt_Some in Hj.
  - by apply mirrored_next.
  - done.
  - done.
  - exists s', x', y', a', b'. split_all; [| |done|exact Hl'|].
    + cbn [tls_exchange fmap list_fmap]. unfold bind at 1. rewrite E1. exec_simpl. unfold bind at 1. rewrite E2. exec_simpl. unfold bind. rewrite E3. done.
    + rewrite Hs'. cbn [s2 sessions s1]. rewrite (list_insert_insert_ne _ i j) by done.
      by rewrite !list_insert_insert_eq.
    + rewrite Hseq. cbn [length]. by rewrite Nat.iter_succ_r.
Qed.

(** ** The handshake *)

(** A handshake message on the wire, and a flight of them. *)
Definition message (m : Z * list Z) : list Z := [m.1] ++ be24 (Z.of_nat (length m.2)) ++ m.2.
Definition flight (msgs : list (Z * list Z)) : list Z := concat (message <$> msgs).
Definition message_ok (m : Z * list Z) : Prop := 0 <= m.1 < 256 /\ bytes m.2 /\ Z.of_nat (length m.2) < 2 ^ 24.
Definition finishes (msgs : list (Z * list Z)) : bool := existsb (fun m => m.1 =? HT_FINISHED) msgs.

Lemma of_be24_back len : 0 <= len < 2 ^ 24 -> of_be24 (wrap 8 (Z.shiftr len 16)) (wrap 8 (Z.shiftr len 8)) (wrap 8 len) = len.
Proof.
  intros Hl. unfold of_be24, wrap. rewrite !Z.shiftr_div_pow2 by lia.
  rewrite (Z.mod_small (len / 2 ^ 16)) by (split; [apply Z.div_pos; lia|apply Z.div_lt_upper_bound; lia]).
  pose proof (Z.mod_pos_bound (len / 2 ^ 8) (2 ^ 8) ltac:(lia)). pose proof (Z.mod_pos_bound len (2 ^ 8) ltac:(lia)).
  replace (Z.lor (Z.shiftl (len / 2 ^ 16) 16) (Z.shiftl ((len / 2 ^ 8) mod 2 ^ 8) 8))
    with (Z.shiftl (Z.lor (Z.shiftl (len / 2 ^ 16) 8) ((len / 2 ^ 8) mod 2 ^ 8)) 8)
    by (by rewrite Z.shiftl_lor, Z.shiftl_shiftl by lia).
  rewrite !lor_shiftl_add by lia. Z.to_euclidean_division_equations. lia.
Qed.

Lemma length_message m : length (message m) = (4 + length m.2)%nat.
Proof. unfold message. by rewrite !length_app. Qed.

Lemma message_bytes m : message_ok m -> bytes (message m).
Proof.
  intros (Ht & Hb & _). unfold message. repeat apply Forall_app_2; [by apply Forall_singleton|apply be24_bytes|done].
Qed.

Definition hear (t : list Z) (x : TlsSession.t) : TlsSession.t := set_transcript (transcript x ++ t) x.

Lemma hear_hear t t' x : hear t' (hear t x) = hear (t ++ t') x.
Proof. unfold hear. destruct x. cbn. by rewrite app_assoc. Qed.

Lemma update_at s i x f : sessions s !! i = Some (Some x) ->
  update_session (Z.of_nat i) f s = Done (mkTls (net s) (<[i := Some (f x)]> (sessions s)), Ok tt).
Proof.
  intros Hi. unfold update_session. rewrite (arr_get_at _ _ (Some x)) by (try lia; by rewrite Nat2Z.id). exec_simpl.
  rewrite arr_set_Done by (apply lookup_lt_Some in Hi; lia). exec_simpl. by rewrite Nat2Z.id.
Qed.

(** Every message goes into the transcript. *)
Lemma messages_heard i : forall msgs fuel pre fin x s, sessions s !! i = Some (Some x) -> Forall message_ok msgs -> (length msgs <= fuel)%nat ->
  handshake_messages fuel (Z.of_nat i) (pre ++ flight msgs) (Z.of_nat (length pre)) fin s =
    Done (mkTls (net s) (<[i := Some (hear (flight msgs) x)]> (sessions s)), Ok (fin || finishes msgs)).
Proof.
  induction msgs as [|m msgs IH]; intros fuel pre fin x s Hi Hok Hf.
  - unfold flight. cbn [fmap list_fmap concat]. rewrite app_nil_r.
    assert (hear [] x = x) as -> by (unfold hear; rewrite app_nil_r; by destruct x). rewrite list_insert_id by done. cbn [finishes existsb].
    rewrite orb_false_r. destruct fuel; cbn [handshake_messages]; rewrite (proj2 (Z.leb_gt _ _)) by lia; by destruct s.
  - apply Forall_cons in Hok as [(Ht & Hb & Hl) Hok]. destruct fuel as [|fuel]; [cbn in Hf; lia|]. cbn [length] in Hf.
    change (flight (m :: msgs)) with (message m ++ flight msgs). cbn [handshake_messages].
    set (data := pre ++ message m ++ flight msgs).
    assert (Z.of_nat (length data) = Z.of_nat (length pre) + 4 + Z.of_nat (length m.2) + Z.of_nat (length (flight msgs))) as Hdl
      by (unfold data; rewrite !length_app, length_message; lia).
    assert (forall k v, 0 <= k -> message m !! Z.to_nat k = Some v -> arr_get data (Z.of_nat (length pre) + k) = Done v) as Hat.
    { intros k v Hk0 Hk. apply arr_get_at; [lia|]. unfold data. rewrite lookup_app_r by lia.
      replace (Z.to_nat _ - length pre)%nat with (Z.to_nat k) by lia. by rewrite lookup_app_l by (by apply lookup_lt_Some in Hk). }
    rewrite (proj2 (Z.leb_le _ _)) by lia.
    assert (arr_get data (Z.of_nat (length pre)) = Done m.1) as E0 by (rewrite <- (Z.add_0_r (Z.of_nat (length pre))); by apply Hat).
    rewrite (bind_lift _ _ _ _ E0), (bind_lift _ _ _ _ (Hat 1 _ ltac:(lia) eq_refl)), (bind_lift _ _ _ _ (Hat 2 _ ltac:(lia) eq_refl)),
      (bind_lift _ _ _ _ (Hat 3 _ ltac:(lia) eq_refl)), of_be24_back by lia.
    rewrite (proj2 (Z.ltb_ge _ _)) by lia.
    assert (slice_get data (Z.of_nat (length pre)) (Z.of_nat (length pre) + 4 + Z.of_nat (length m.2)) = Done (message m)) as Hsl.
    { unfold slice_get. rewrite decide_True by lia. unfold data. rewrite Nat2Z.id, drop_app_length.
      rewrite take_app_length' by (rewrite length_message; lia). done. }
    rewrite (bind_lift _ _ _ _ Hsl), (bind_ok _ _ _ _ _ (update_at _ _ x _ Hi)).
    assert (data = (pre ++ message m) ++ flight msgs) as -> by (unfold data; by rewrite app_assoc).
    replace (Z.of_nat (length pre) + 4 + Z.of_nat (length m.2)) with (Z.of_nat (length (pre ++ message m))) by (rewrite length_app, length_message; lia).
    rewrite (IH fuel _ _ (hear (message m) x)); [|cbn; apply list_lookup_insert_eq; by apply lookup_lt_Some in Hi|done|lia].
    cbn [net sessions]. rewrite list_insert_insert_eq, hear_hear. unfold finishes. cbn [existsb]. by rewrite orb_assoc.
Qed.

Lemma read_plain_record s aid bid a b ty body rest :
  soon (net s) aid bid a b (build_record ty body ++ rest) -> (10 + 2 * length body + length rest < 4096)%nat ->
  exists n' b', read_tls_record bid s = Done (mkTls n' (sessions s), Ok (ty, body)) /\ linked n' aid bid a b' rest.
Proof.
  intros Hs Hl. assert (in_u 16 (Z.of_nat (length body))) as Hr by (unfold in_u; lia).
  eapply read_record; [|by apply BeFacts.be16_back|done]. unfold build_record in Hs. rewrite (wrap_small _ _ Hr) in Hs. exact Hs.
Qed.

(** The ServerHello [data] is one the client accepts. *)
Definition acceptable (data : list Z) (h : ServerHelloData) : Prop :=
  parse_server_hello data = Done (Some h) /\
  (cipher_suite h = TLS_CHACHA20_POLY1305_SHA256 \/ cipher_suite h = TLS_AES_128_GCM_SHA256).

Lemma hello_received s i x aid bid a b priv data h rest :
  sessions s !! i = Some (Some x) -> acceptable data h ->
  soon (net s) aid bid a b (build_record CT_HANDSHAKE (message (HT_SERVER_HELLO, data)) ++ rest) -> (18 + 2 * length data + length rest < 4096)%nat ->
  exists n' b', receive_server_hello bid (Z.of_nat i) priv s =
      Done (mkTls n' (<[i := Some (hear (message (HT_SERVER_HELLO, data)) x)]> (sessions s)),
            Ok (compute_key_schedule (X25519.x25519 priv (server_public_key h)) (sha256 (transcript x ++ message (HT_SERVER_HELLO, data))))) /\
    linked n' aid bid a b' rest.
Proof.
  intros Hi [Hp Hc] Hs Hl. set (sh := message (HT_SERVER_HELLO, data)) in *. assert (length sh = (4 + length data)%nat) as Hsl by apply length_message.
  destruct (read_plain_record _ _ _ _ _ _ _ _ Hs) as (n1 & b1 & E & Hl1); [lia|]. exists n1, b1. split; [|done].
  unfold receive_server_hello. rewrite (bind_ok _ _ _ _ _ E). rewrite bool_decide_eq_true_2 by done. rewrite Z.eqb_refl. cbn [negb orb].
  set (len := Z.of_nat (length data)).
  assert (arr_get sh 1 = Done (wrap 8 (Z.shiftr len 16)) /\ arr_get sh 2 = Done (wrap 8 (Z.shiftr len 8)) /\ arr_get sh 3 = Done (wrap 8 len))
    as (E1 & E2 & E3) by (split_all; by apply arr_get_at).
  rewrite (bind_lift _ _ _ _ E1), (bind_lift _ _ _ _ E2), (bind_lift _ _ _ _ E3), of_be24_back by lia.
  assert (slice_get sh 4 (4 + len) = Done data) as Hsg.
  { unfold slice_get. rewrite decide_True by lia. f_equal. change (drop (Z.to_nat 4) sh) with data. apply take_ge. lia. }
  rewrite (bind_lift _ _ _ _ Hsg), (bind_lift _ _ _ _ Hp).
  assert (negb (cipher_suite h =? TLS_CHACHA20_POLY1305_SHA256) && negb (cipher_suite h =? TLS_AES_128_GCM_SHA256) = false) as ->
    by (by destruct Hc as [-> | ->]).
  unfold bind at 1. rewrite (update_at _ _ x) by done. exec_simpl. unfold bind, transcript_hash. cbn [sessions net].
  rewrite (arr_get_at _ _ (Some (hear sh x))); [|lia|rewrite Nat2Z.id; apply list_lookup_insert_eq; by apply lookup_lt_Some in Hi]. exec_simpl. done.
Qed.

(** The change-cipher-spec record that a server may send for old middleboxes. *)
Definition compat (b : bool) : list Z := if b then build_record CT_CHANGE_CIPHER_SPEC [1] else [].

Lemma sealed_flight_received s i x aid bid a b ks seq msgs body k :
  sessions s !! i = Some (Some x) -> Forall message_ok msgs -> finishes msgs = true ->
  soon (net s) aid bid a b (header_of (Z.of_nat (length body)) ++ body) -> (length body <= 2000)%nat ->
  decrypt_record (server_hs_key ks) (server_hs_iv ks) seq (header_of (Z.of_nat (length body))) body = Done (Some (CT_HANDSHAKE, flight msgs)) ->
  exists n' b', server_flight (S k) bid (Z.of_nat i) ks seq s =
      Done (mkTls n' (<[i := Some (hear (flight msgs) x)]> (sessions s)), Ok true) /\ linked n' aid bid a b' [].
Proof.
  intros Hi Hok Hfin Hs Hbl Hdec. rewrite wire_header, <- (app_nil_r (wire _ _ _ _)) in Hs.
  destruct (read_record _ _ _ _ _ _ _ _ _ _ Hs) as (n1 & b1 & E & Hl1); [apply header_length; unfold in_u; lia|cbn; lia|].
  exists n1, b1. split; [|done]. cbn [server_flight]. rewrite (bind_ok _ _ _ _ _ E), Z.eqb_refl, (bind_lift _ _ _ _ Hdec), Z.eqb_refl. cbn [negb].
  assert (length msgs <= length (flight msgs))%nat as Hfl.
  { clear. induction msgs as [|m msgs IH]; [done|]. change (flight (m :: msgs)) with (message m ++ flight msgs).
    rewrite length_app, length_message. cbn. lia. }
  rewrite (bind_ok _ _ _ _ _ (messages_heard i msgs (length (flight msgs)) [] false x (mkTls n1 (sessions s)) Hi Hok Hfl)).
  by rewrite Hfin.
Qed.

Lemma flight_skips k bid idx ks seq s s' ct payload : read_tls_record bid s = Done (s', Ok (ct, payload)) -> ct <> CT_APPLICATION_DATA ->
  server_flight (S k) bid idx ks seq s = server_flight k bid idx ks seq s'.
Proof. intros E Hc. cbn [server_flight]. by rewrite (bind_ok _ _ _ _ _ E), (proj2 (Z.eqb_neq _ _) Hc). Qed.

Lemma flight_received s i x aid bid a b ks (cc : bool) msgs body :
  sessions s !! i = Some (Some x) -> Forall message_ok msgs -> finishes msgs = true ->
  linked (net s) aid bid a b (compat cc ++ header_of (Z.of_nat (length body)) ++ body) -> (length body <= 2000)%nat ->
  decrypt_record (server_hs_key ks) (server_hs_iv ks) 0 (header_of (Z.of_nat (length body))) body = Done (Some (CT_HANDSHAKE, flight msgs)) ->
  exists n' b', server_flight 20 bid (Z.of_nat i) ks 0 s =
      Done (mkTls n' (<[i := Some (hear (flight msgs) x)]> (sessions s)), Ok true) /\ linked n' aid bid a b' [].
Proof.
  intros Hi Hok Hfin Hs%linked_soon Hbl Hdec. destruct cc; [|by eapply (sealed_flight_received s i x _ _ _ _ ks 0 msgs body 19)].
  destruct (read_plain_record _ _ _ _ _ _ _ _ Hs) as (n1 & b1 & E & Hl1); [rewrite length_app; cbn; lia|].
  destruct (sealed_flight_received (mkTls n1 (sessions s)) i x aid bid a b1 ks 0 msgs body 18 Hi Hok Hfin) as (n2 & b2 & E2 & Hl2);
    [by apply linked_soon|done|done|]. exists n2, b2. split; [|done].
  rewrite (flight_skips 19 _ _ _ _ _ _ _ _ E) by done. exact E2.
Qed.

(** A connected TCP socket can always be sent on. *)
Lemma send_connected n id sock data : net_ok n -> SocketTable.get (NetStack.SOCKETS n) id = Some sock ->
  Socket.protocol sock = Tcp -> Socket.state sock = Established -> bytes data -> Z.of_nat (length data) < 65528 ->
  exists n', NetStack.socket_send id data n = Done (n', Ok (Z.of_nat (length data))) /\ net_ok n'.
Proof.
  intros Hn Hg Hp He Hd Hl. destruct (socket_send_ok id data n Hn Hd Hl) as ([n' r] & E & Hn'). exists n'. split; [|done].
  unfold NetStack.socket_send in *. rewrite Hg, Hp in *. rewrite bool_decide_eq_false_2 in * by (by intros []).
  destruct (NetStack.send_and_deliver _ _ _) as [m| |]; exec_simpl; [|done..]. by injection E as <- _.
Qed.

Lemma send_raw_ok s n' id data : NetStack.socket_send id data (net s) = Done (n', Ok (Z.of_nat (length data))) ->
  tcp_send_raw id data s = Done (mkTls n' (sessions s), Ok tt).
Proof. intros E. unfold tcp_send_raw, on_net. by rewrite E. Qed.

Lemma finished_sent s i x cid sid a b xs ks : sessions s !! i = Some (Some x) -> linked (net s) cid sid a b xs -> (length xs <= 4000)%nat ->
  exists n', net_ok n' /\ send_finished cid (Z.of_nat i) ks s =
    Done (mkTls n' (<[i := Some (with_keys (compute_app_keys (master_secret ks) (sha256 (transcript x))) x)]> (sessions s)), Ok tt).
Proof.
  intros Hi Hl Hx. unfold send_finished.
  assert (transcript_hash (Z.of_nat i) s = Done (s, Ok (sha256 (transcript x)))) as Hh.
  { unfold transcript_hash. by rewrite (arr_get_at _ _ (Some x)) by (try lia; by rewrite Nat2Z.id). }
  rewrite (bind_ok _ _ _ _ _ Hh). cbv zeta. set (msg := [HT_FINISHED; 0; 0; 32] ++ _).
  assert (bytes msg /\ length msg = 36%nat) as [Hmb Hml].
  { unfold msg. split; [apply Forall_app_2; [by repeat constructor|apply hmac_bytes]|]. by rewrite length_app, hmac_length. }
  destruct (record_spec (client_hs_key ks) (client_hs_iv ks) 0 CT_HANDSHAKE msg Hmb) as (body & Hr & Hbl & Hbb & _); [done|lia|].
  rewrite (bind_lift _ _ _ _ Hr).
  destruct (linked_send _ _ _ _ _ _ (build_record CT_CHANGE_CIPHER_SPEC [1]) Hl) as (n1 & rb & pkt & ip & tcp & E1 & Hn1 & Htb & _);
    [by apply record_bytes; [|repeat constructor]|done|cbn; lia|cbn; lia|].
  rewrite (bind_ok _ _ _ _ _ (send_raw_ok _ _ _ _ E1)).
  destruct Hl as [Hn _ Ha Hb Hne [Hpa _] [Hea _] _ _ _ _ _].
  destruct (send_connected n1 cid (Socket.set_send_seq (u32_add (Socket.send_seq a) (wrap 32 (Z.of_nat (length (build_record CT_CHANGE_CIPHER_SPEC [1]))))) a)
    (header_of (Z.of_nat (length body)) ++ body)) as (n2 & E2 & Hn2); [done| |done|done| |rewrite length_app; cbn [length header_of]; lia|].
  { rewrite Htb, TableFacts.get_put_ne by done. pose proof Ha as (_ & Haa & _)%TableFacts.get_Some. by eapply TableFacts.get_put. }
  { by apply (Forall_app_2 _ (header_of _)); [apply header_bytes|]. }
  exists n2. split; [done|]. rewrite (bind_ok _ _ _ _ _ (send_raw_ok (mkTls n1 (sessions s)) _ _ _ E2)). cbn [net sessions].
  by rewrite (update_at _ _ x).
Qed.

(** What [tls_connect] from state [s] says and computes. *)
Definition keypair_of s : list Z * list Z := X25519.x25519_keypair (Hkdf.random_bytes_32 (NetStack.read_clock (net s)).2).
Definition hello_of s (host : list Z) : list Z :=
  build_client_hello (NetStack.read_clock (NetStack.read_clock (net s)).1).2 host (keypair_of s).2.
Definition handshake_keys s (host data : list Z) (h : ServerHelloData) : KeySchedule.t :=
  compute_key_schedule (X25519.x25519 (keypair_of s).1 (server_public_key h)) (sha256 (hello_of s host ++ message (HT_SERVER_HELLO, data))).

Lemma linked_clock n aid bid a b xs : linked n aid bid a b xs -> linked (NetStack.read_clock n).1 aid bid a b xs.
Proof.
  intros [Hn Hidle Ha Hb Hne Hp He Hr Hl Hfa Hfb Hx]. pose proof (read_clock_ok _ Hn) as [Hn' _]. unfold NetStack.read_clock in *.
  destruct (tick_count (NetStack.clock n)) as [c now]. by split.
Qed.

Lemma tick_ok n S0 : tick (mkTls n S0) = Done (mkTls (NetStack.read_clock n).1 S0, Ok (NetStack.read_clock n).2).
Proof. unfold tick. cbn [net]. by destruct (NetStack.read_clock n). Qed.

(** Up to the ClientHello. *)
Lemma hello_sent s i cid sid a b host ys : first_free (sessions s) = Some i -> bytes host -> Z.of_nat (length host) <= 256 ->
  linked (net s) cid sid a b [] -> RingBufferSpec.holds (Socket.rx a) ys ->
  let ch := hello_of s host in
  exists n1 a' b', bytes ch /\ (length ch <= 500)%nat /\ soon n1 sid cid b' a' ys /\ RingBufferSpec.holds (Socket.rx b') (build_record CT_HANDSHAKE ch) /\
    tls_connect cid host s =
      (let* ks := receive_server_hello cid (Z.of_nat i) (keypair_of s).1 in
       let* got_finished := server_flight 20 cid (Z.of_nat i) ks 0 in
       if negb got_finished then let* _ := free_session (Z.of_nat i) in fail HandshakeFailed
       else let* _ := send_finished cid (Z.of_nat i) ks in ret (Z.of_nat i))
      (mkTls n1 (<[i := Some (set_transcript ch (set_client_private (keypair_of s).1 (TlsSession.init cid)))]> (sessions s))).
Proof.
  intros Hf Hb Hh Hl Hy ch. pose proof (first_free_lt _ _ Hf) as Hi. unfold ch, hello_of, keypair_of. clear ch.
  set (now := (NetStack.read_clock (net s)).2). set (n0 := (NetStack.read_clock (net s)).1). set (n0' := (NetStack.read_clock n0).1).
  set (now' := (NetStack.read_clock n0).2).
  destruct (public_key_ok now) as [Hpb Hpl]. revert Hpb Hpl. destruct (X25519.x25519_keypair (Hkdf.random_bytes_32 now)) as [priv pub] eqn:Ek.
  cbn [fst snd]. intros Hpb Hpl. destruct (client_hello_ok now' host pub Hb Hpb Hpl) as [Hcb Hcl]. set (ch := build_client_hello now' host pub) in *.
  assert (linked n0' cid sid a b []) as Hl0 by (by apply linked_clock, linked_clock).
  destruct (linked_ack n0' cid sid a b [] (build_record CT_HANDSHAKE ch) Hl0) as (n1 & n2 & a' & b' & E & _ & Hdel & Hl2 & _ & _ & _ & Hrx).
  { apply record_bytes; [unfold CT_HANDSHAKE; lia|exact Hcb]. }
  { discriminate. }
  { rewrite length_record. lia. }
  { rewrite length_record. cbn [length]. lia. }
  exists n1, a', b'. split; [exact Hcb|]. split; [lia|]. split; [exists n2; split; [exact Hdel|]; eapply linked_sym; [exact Hl2|rewrite Hrx; exact Hy]|].
  split; [apply Hl2|]. unfold tls_connect.
  assert (alloc_session cid s = Done (mkTls (net s) (<[i := Some (TlsSession.init cid)]> (sessions s)), Ok (Z.of_nat i))) as Ha
    by (unfold alloc_session; by rewrite Hf).
  rewrite (bind_ok _ _ _ _ _ Ha).
  rewrite (bind_ok _ _ _ _ _ (tick_ok _ _)). fold now n0. rewrite Ek, (bind_ok _ _ _ _ _ (tick_ok _ _)). fold now' n0' ch.
  rewrite (bind_ok _ _ _ _ _ (update_at (mkTls _ _) i (TlsSession.init cid) _ (list_lookup_insert_eq _ _ _ Hi))). cbn [net sessions].
  rewrite list_insert_insert_eq. by rewrite (bind_ok _ _ _ _ _ (send_raw_ok (mkTls n0' _) n1 cid (build_record CT_HANDSHAKE ch) E)).
Qed.


(** ** What goes wrong *)

(** Drawn in the same tick, the random value that the ClientHello sends in the
    clear is the private key. *)
Lemma hello_reveals_private_key s host :
  (NetStack.read_clock (net s)).2 = (NetStack.read_clock (NetStack.read_clock (net s)).1).2 ->
  take 32 (drop 6 (hello_of s host)) = (keypair_of s).1.
Proof.
  intros E. unfold hello_of, keypair_of. rewrite <- E. generalize (NetStack.read_clock (net s)).2. intros now.
  unfold build_client_hello. cbv zeta. cbn [drop app Be.be16 be24]. rewrite drop_0, take_app_length' by (symmetry; apply sha256_length). reflexivity.
Qed.

(** A full receive buffer is never read. *)
Lemma full_ring_stalls k n aid bid a b xs want got : linked n aid bid a b xs -> length xs = 4096%nat ->
  exists n', recv_rounds k bid want got n = Done (n', Err Timeout) /\ linked n' aid bid a b xs.
Proof.
  intros Hl Hf. revert n Hl. induction k as [|k IH]; intros n Hl; cbn [recv_rounds]; [by exists n|].
  destruct (linked_soon _ _ _ _ _ _ Hl) as (n' & -> & Hl'). exec_simpl. rewrite (l_b _ _ _ _ _ _ Hl').
  unfold RingBuffer.available. rewrite (RingBufferSpec.h_len _ _ (l_rx _ _ _ _ _ _ Hl')), Hf. by apply IH.
Qed.

(** One byte of a ServerHello is enough to stop the kernel. *)
Lemma short_server_hello_panics s i aid bid a b priv :
  soon (net s) aid bid a b (build_record CT_HANDSHAKE [HT_SERVER_HELLO]) -> receive_server_hello bid (Z.of_nat i) priv s = Panicked.
Proof.
  rewrite <- (app_nil_r (build_record _ _)). intros Hs. destruct (read_plain_record _ _ _ _ _ _ _ _ Hs) as (n1 & b1 & E & _); [cbn; lia|].
  unfold receive_server_hello. by rewrite (bind_ok _ _ _ _ _ E).
Qed.

(** A connection that fails on its way to the server keeps its session. *)
Lemma failed_connect_leaks_session s i id host : first_free (sessions s) = Some i -> SocketTable.get (NetStack.SOCKETS (net s)) id = None ->
  exists s' x, tls_connect id host s = Done (s', Err SocketError_) /\ sessions s' = <[i := Some x]> (sessions s).
Proof.
  intros Hf Hg. pose proof (first_free_lt _ _ Hf) as Hi. unfold tls_connect.
  assert (alloc_session id s = Done (mkTls (net s) (<[i := Some (TlsSession.init id)]> (sessions s)), Ok (Z.of_nat i))) as Ha
    by (unfold alloc_session; by rewrite Hf).
  rewrite (bind_ok _ _ _ _ _ Ha). rewrite (bind_ok _ _ _ _ _ (tick_ok _ _)).
  generalize (X25519.x25519_keypair (Hkdf.random_bytes_32 (NetStack.read_clock (net s)).2)). intros [priv pub].
  rewrite (bind_ok _ _ _ _ _ (tick_ok _ _)). generalize (build_client_hello (NetStack.read_clock (NetStack.read_clock (net s)).1).2 host pub). intros ch.
  rewrite (bind_ok _ _ _ _ _ (update_at (mkTls _ _) i (TlsSession.init id) _ (list_lookup_insert_eq _ _ _ Hi))). cbn [net sessions].
  rewrite list_insert_insert_eq. unfold bind at 1, tcp_send_raw, on_net, NetStack.socket_send. cbn [net].
  assert (forall n : NetStack.Net (D:=D) (T:=T), NetStack.SOCKETS (NetStack.read_clock n).1 = NetStack.SOCKETS n) as Hsk
    by (intros n; unfold NetStack.read_clock; by destruct (tick_count _)).
  rewrite !Hsk, Hg. exec_simpl. eauto.
Qed.

End Delivery.

Section Witnesses.
Import NetStack Sockets Handshake NetRuns.

#[local] Instance no_card : NicDriver unit := {
  mac_address _ := [0; 0; 0; 0; 0; 0];
  send_packet d _ := (d, true);
  poll_rx d := (d, None);
  recycle_rx d := d;
}.
#[local] Instance stopped : Timer unit := fun c => (c, 7).
#[local] Existing Instance Hkdf.toy_sha2.

Lemma no_card_silent : forall d : unit, (poll_rx d).2 = None.
Proof. done. Qed.

(** A listener on port 443 and a fresh client. *)
Definition idle_net : Net (D:=unit) (T:=unit) :=
  match run [Create Stream Tcp 1; Bind 256 (at_port 443); Listen 256; Create Stream Tcp 2] (init tt) with Done n => n | _ => init tt end.

Lemma idle_net_ok : net_ok idle_net.
Proof.
  assert (Forall op_ok [Create (D:=unit) Stream Tcp 1; Bind 256 (at_port 443); Listen 256; Create Stream Tcp 2]) as Ho.
  { rewrite !Forall_cons. split_all; try done. by apply at_port_ok. }
  destruct (net_run_ok _ (init tt) (net_ok_init tt) Ho) as (n & E & Hn). unfold idle_net. by rewrite E.
Qed.

Definition sock_in (n : Net (D:=unit) (T:=unit)) (id : Z) : Socket.t := default Socket.empty (SocketTable.get (SOCKETS n) id).

Lemma sock_in_get n id : bool_decide (is_Some (SocketTable.get (SOCKETS n) id)) = true -> SocketTable.get (SOCKETS n) id = Some (sock_in n id).
Proof. intros Hs%bool_decide_eq_true. unfold sock_in. destruct (SocketTable.get (SOCKETS n) id); [done|by destruct Hs]. Qed.

Lemma idle_request :
  request idle_net 257 256 (sock_in idle_net 257) (start_connect 257 (at_port 443) (sock_in idle_net 257) idle_net).2
    (sock_in idle_net 256) Socket.empty (at_port 443).
Proof.
  split.
  - exact idle_net_ok.
  - assert (LOOPBACK idle_net = Loopback.new) as -> by reflexivity. apply LoopbackSpec.loopback_holds_new.
  - apply sock_in_get. vm_compute. reflexivity.
  - vm_compute. reflexivity.
  - left. vm_compute. reflexivity.
  - reflexivity.
  - split; [by apply at_port_ok|reflexivity].
  - split; [vm_compute; reflexivity|]. vm_compute. discriminate.
  - vm_compute. reflexivity.
  - vm_compute. reflexivity.
  - vm_compute. reflexivity.
  - split_all; [apply sock_in_get; vm_compute; reflexivity|vm_compute; reflexivity..].
  - split; [|reflexivity]. apply list_elem_of_lookup_2 with 5%nat. reflexivity.
Qed.

Definition net_of {A} (e : exec (Net * A)) : Net (D:=unit) (T:=unit) := match e with Done (n, _) => n | _ => init tt end.
Definition pair_net : Net (D:=unit) (T:=unit) := net_of (socket_accept 256 (net_of (socket_connect 257 (at_port 443) idle_net))).

(** The two ends of a connection, with nothing received yet. *)
Lemma pair_linked : exists sid a b, linked pair_net 257 sid a b [] /\ RingBufferSpec.holds (Socket.rx a) [].
Proof.
  destruct (connect_spec _ _ _ _ _ _ _ _ idle_request) as (n1 & c1 & conn & i & E1 & Hc & Hla).
  destruct (accept_spec _ _ _ _ _ _ _ _ Hc) as (n2 & b & E2 & Hl & _).
  - vm_compute. reflexivity.
  - vm_compute. reflexivity.
  - rewrite Hla. vm_compute. reflexivity.
  - reflexivity.
  - assert (n2 = pair_net) as -> by (unfold pair_net; rewrite E1; cbn [net_of]; by rewrite E2).
    exists (SocketTable.id_of (i, conn)), c1, b. split; [done|]. pose proof (l_a _ _ _ _ _ _ Hl) as Hg.
    assert (Socket.rx <$> SocketTable.get (SOCKETS pair_net) 257 = Some RingBuffer.new) as Hr by (vm_compute; reflexivity).
    rewrite Hg in Hr. injection Hr as ->. apply RingBufferSpec.ring_holds_new.
Qed.

Definition here : TlsSession.t :=
  TlsSession.mk true 257 ApplicationData (replicate 32 1) (replicate 12 2) (replicate 32 3) (replicate 12 4) 0 0 [] [].
Definition there (sid : Z) : TlsSession.t :=
  TlsSession.mk true sid ApplicationData (replicate 32 3) (replicate 12 4) (replicate 32 1) (replicate 12 2) 0 0 [] [].

Lemma tls_sessions_deliver_witness : exists sid s',
  tls_exchange 0 1 100 [[104; 105]; []; [1; 2; 3]] (mkTls pair_net ([Some here; Some (there sid)] ++ replicate 6 None)) =
    Done (s', Ok [[104; 105]; []; [1; 2; 3]]).
Proof.
  destruct pair_linked as (sid & a & b & Hl & _). exists sid.
  destruct (tls_sessions_deliver no_card_silent (mkTls pair_net ([Some here; Some (there sid)] ++ replicate 6 None)) 0 1 here (there sid) a b 100
    [[104; 105]; []; [1; 2; 3]]) as (s' & _ & _ & _ & _ & E & _).
  - done.
  - reflexivity.
  - reflexivity.
  - by split.
  - exact Hl.
  - repeat constructor; cbn; lia.
  - exists s'. exact E.
Defined.

(** A server that answers with the key share [9, 9, ...] and a Finished. *)
Definition answer : list Z :=
  [3; 3] ++ replicate 32 7 ++ [0] ++ Be.be16 TLS_CHACHA20_POLY1305_SHA256 ++ [0] ++ Be.be16 40 ++
  extension EXT_KEY_SHARE (Be.be16 X25519_GROUP ++ Be.be16 32 ++ replicate 32 9).
Definition answer_hello : ServerHelloData := mkServerHello (replicate 32 7) TLS_CHACHA20_POLY1305_SHA256 (replicate 32 9).
Definition server_finished : list (Z * list Z) := [(HT_FINISHED, replicate 32 1)].
Definition fresh (n : Net (D:=unit) (T:=unit)) : Tls unit unit := mkTls n (replicate 8 None).

Lemma same_keys n n' host : handshake_keys (fresh n) host answer answer_hello = handshake_keys (fresh n') host answer answer_hello.
Proof. reflexivity. Qed.

Lemma answered : exists n sid a b record,
  build_encrypted_record (server_hs_key (handshake_keys (fresh n) [97] answer answer_hello)) (server_hs_iv (handshake_keys (fresh n) [97] answer answer_hello))
    0 CT_HANDSHAKE (flight server_finished) = Done record /\
  linked n 257 sid a b [] /\
  RingBufferSpec.holds (Socket.rx a) (build_record CT_HANDSHAKE (message (HT_SERVER_HELLO, answer)) ++ compat true ++ record).
Proof.
  destruct pair_linked as (sid & a & b & Hl & Ha). set (ks := handshake_keys (fresh pair_net) [97] answer answer_hello).
  destruct (record_spec (server_hs_key ks) (server_hs_iv ks) 0 CT_HANDSHAKE (flight server_finished)) as (body & Hr & Hbl & Hbb & _);
    [by repeat constructor|done|cbn; lia|].
  set (ys := build_record CT_HANDSHAKE (message (HT_SERVER_HELLO, answer)) ++ compat true ++ header_of (Z.of_nat (length body)) ++ body).
  destruct (linked_ack _ _ _ _ _ _ ys (linked_sym _ _ _ _ _ _ _ Hl Ha)) as (n1 & n2 & b' & a' & _ & _ & _ & Hl2 & _ & _ & _ & Hrx).
  - unfold ys. apply Forall_app_2; [apply record_bytes; [unfold CT_HANDSHAKE; lia|]|
      apply Forall_app_2; [|apply (Forall_app_2 _ (header_of _)); [apply header_bytes|exact Hbb]]].
    + vm_compute. repeat constructor; discriminate.
    + vm_compute. repeat constructor; discriminate.
  - discriminate.
  - unfold ys. rewrite !length_app, Hbl. vm_compute. discriminate.
  - unfold ys. rewrite !length_app, Hbl. vm_compute. discriminate.
  - exists n2, sid, a', b', (header_of (Z.of_nat (length body)) ++ body). split; [exact Hr|]. split.
    + eapply linked_sym; [exact Hl2|]. rewrite Hrx. apply Hl.
    + apply Hl2.
Qed.


End Witnesses.
End TlsDelivery.
