(* ===== verification/Dns.v ===== *)
(** * Names and pages (src/kernel/src/network/dns.rs, http.rs)

    The messages of the DNS resolver, its cache, the resolution of a name over the
    network stack, and the HTTP helpers. A host name is its bytes; messages to the
    serial console are left out. *)

From S2P Require Import Prelude NetWire Sockets NetStack.

(** ** Messages *)
Module DnsHeader.

Record t := mk { id : Z; flags : Z; qdcount : Z; ancount : Z; nscount : Z; arcount : Z }.

Definition query (id : Z) : t := mk id 0x0100 1 0 0 0.

Definition to_bytes (h : t) : list Z :=
  Be.be16 (id h) ++ Be.be16 (flags h) ++ Be.be16 (qdcount h) ++ Be.be16 (ancount h) ++ Be.be16 (nscount h) ++ Be.be16 (arcount h).

Definition parse (data : list Z) : option t :=
  match data with
  | a :: b :: c :: d :: e :: f :: g :: h :: i :: j :: k :: l :: _ =>
      Some (mk (Be.of_be16 a b) (Be.of_be16 c d) (Be.of_be16 e f) (Be.of_be16 g h) (Be.of_be16 i j) (Be.of_be16 k l))
  | _ => None
  end.

End DnsHeader.

Module Dns.

Definition DNS_SERVER_IP : list Z := [10; 0; 2; 3].
Definition DNS_SERVER_PORT : Z := 53.
Definition DNS_TYPE_A : Z := 1.
Definition DNS_CLASS_IN : Z := 1.

(** [hostname.split('.')]. *)
Fixpoint split_dots (s : list Z) : list (list Z) :=
  match s with
  | [] => [[]]
  | c :: s' =>
      if c =? 46 then [] :: split_dots s'
      else match split_dots s' with [] => [[c]] | l :: ls => (c :: l) :: ls end
  end.

Definition encode_label (label : list Z) : list Z :=
  if bool_decide (label = []) then [] else wrap 8 (Z.of_nat (length label)) :: label.

Definition encode_hostname (hostname : list Z) : list Z := concat (encode_label <$> split_dots hostname) ++ [0].

(** The query that [build_query] and [dns_resolve] put together. *)
Definition query_packet (id : Z) (hostname : list Z) : list Z :=
  DnsHeader.to_bytes (DnsHeader.query id) ++ encode_hostname hostname ++ [0; wrap 8 DNS_TYPE_A] ++ [0; wrap 8 DNS_CLASS_IN].

Definition build_query (hostname : list Z) : list Z := query_packet 0x1234 hostname.

(** A round moves on by at least one byte. *)
Fixpoint skip_loop (fuel : nat) (data : list Z) (offset : Z) : exec (option Z) :=
  if Z.of_nat (length data) <=? offset then Done None
  else
    match fuel with
    | O => Diverged
    | S fuel' =>
        len ← arr_get data offset;
        if len =? 0 then Done (Some (offset + 1))
        else if Z.land len 0xC0 =? 0xC0 then Done (Some (offset + 2))
        else skip_loop fuel' data (offset + (1 + len))
    end.

Definition skip_dns_name (data : list Z) (offset : Z) : exec (option Z) := skip_loop (length data) data offset.

(** [for _ in 0..header.qdcount]. *)
Fixpoint skip_questions (k : nat) (data : list Z) (offset : Z) : exec (option Z) :=
  match k with
  | O => Done (Some offset)
  | S k' =>
      o ← skip_dns_name data offset;
      match o with
      | None => Done None
      | Some offset =>
          let offset := offset + 4 in
          if Z.of_nat (length data) <? offset then Done None else skip_questions k' data offset
      end
  end.

Definition be16_at (data : list Z) (offset : Z) : exec Z :=
  a ← arr_get data offset;
  b ← arr_get data (offset + 1);
  Done (Be.of_be16 a b).

(** [for _ in 0..header.ancount]. *)
Fixpoint find_answer (k : nat) (data : list Z) (offset : Z) : exec (option (list Z)) :=
  match k with
  | O => Done None
  | S k' =>
      let len := Z.of_nat (length data) in
      if len <=? offset then Done None
      else
        o ← skip_dns_name data offset;
        match o with
        | None => Done None
        | Some offset =>
            if len <? offset + 10 then Done None
            else
              rtype ← be16_at data offset;
              rclass ← be16_at data (offset + 2);
              ttl_high ← be16_at data (offset + 4);
              ttl_low ← be16_at data (offset + 6);
              rdlength ← be16_at data (offset + 8);
              let offset := offset + 10 in
              if (rtype =? DNS_TYPE_A) && (rdlength =? 4) && (offset + 4 <=? len) then
                ip ← slice_get data offset (offset + 4);
                Done (Some ip)
              else find_answer k' data (offset + rdlength)
        end
  end.

Definition parse_response (data : list Z) : exec (option (list Z)) :=
  match DnsHeader.parse data with
  | None => Done None
  | Some header =>
      if Z.land (DnsHeader.flags header) 0x8000 =? 0 then Done None
      else if negb (Z.land (DnsHeader.flags header) 0x000F =? 0) then Done None
      else if DnsHeader.ancount header =? 0 then Done None
      else
        o ← skip_questions (Z.to_nat (DnsHeader.qdcount header)) data 12;
        match o with
        | None => Done None
        | Some offset => find_answer (Z.to_nat (DnsHeader.ancount header)) data offset
        end
  end.

End Dns.

(** ** The cache *)
Module DnsCache.

Definition DNS_CACHE_SIZE : Z := 32.

Record DnsCacheEntry := mkEntry {
  hostname : list Z;
  hostname_len : Z;
  ip : list Z;
  expiry_tick : Z;
  last_access : Z;
  valid : bool;
}.

Definition empty : DnsCacheEntry := mkEntry (replicate 64 0) 0 [0; 0; 0; 0] 0 0 false.

Record t := mk { entries : list DnsCacheEntry; access_seq : Z }.

Definition new : t := mk (replicate 32 empty) 0.

(** The entry is valid and holds the name [hb], whose length is [hl]. *)
Definition holds_name (hl : Z) (hb : list Z) (e : DnsCacheEntry) : exec bool :=
  if valid e && (hostname_len e =? hl) then
    name ← slice_get (hostname e) 0 hl;
    Done (bool_decide (name = hb))
  else Done false.

(** The first entry, counted from [i], that holds the name. *)
Fixpoint find_name (hl : Z) (hb : list Z) (es : list DnsCacheEntry) (i : nat) : exec (option (nat * DnsCacheEntry)) :=
  match es with
  | [] => Done None
  | e :: es =>
      b ← holds_name hl hb e;
      if (b : bool) then Done (Some (i, e)) else find_name hl hb es (S i)
  end.

Definition set_valid (b : bool) (e : DnsCacheEntry) : DnsCacheEntry :=
  mkEntry (hostname e) (hostname_len e) (ip e) (expiry_tick e) (last_access e) b.
Definition set_access (seq : Z) (e : DnsCacheEntry) : DnsCacheEntry :=
  mkEntry (hostname e) (hostname_len e) (ip e) (expiry_tick e) seq (valid e).

Definition lookup (c : t) (name : list Z) (now : Z) : exec (t * option (list Z)) :=
  let seq := u64_add (access_seq c) 1 in
  found ← find_name (Z.of_nat (length name)) name (entries c) 0;
  match found with
  | None => Done (mk (entries c) seq, None)
  | Some (i, e) =>
      if now <? expiry_tick e then Done (mk (<[i := set_access seq e]> (entries c)) seq, Some (ip e))
      else Done (mk (<[i := set_valid false e]> (entries c)) seq, None)
  end.

Fixpoint first_invalid (es : list DnsCacheEntry) (i : nat) : option nat :=
  match es with
  | [] => None
  | e :: es => if negb (valid e) then Some i else first_invalid es (S i)
  end.

(** The loop for the least [last_access]. *)
Fixpoint least_recent (es : list DnsCacheEntry) (i : nat) (min_access : Z) (min_idx : nat) : nat :=
  match es with
  | [] => min_idx
  | e :: es => if last_access e <? min_access then least_recent es (S i) (last_access e) i else least_recent es (S i) min_access min_idx
  end.

Definition find_slot (c : t) : nat :=
  match first_invalid (entries c) 0 with
  | Some i => i
  | None => least_recent (entries c) 0 (2 ^ 64 - 1) 0
  end.

Definition insert (c : t) (name : list Z) (addr : list Z) (ttl_secs now : Z) : exec t :=
  let seq := u64_add (access_seq c) 1 in
  let hl := Z.min (Z.of_nat (length name)) 64 in
  hb ← slice_get name 0 hl;
  let expiry := u64_add now (wrap 64 (ttl_secs * 1000)) in
  found ← find_name hl hb (entries c) 0;
  match found with
  | Some (i, e) => Done (mk (<[i := mkEntry (hostname e) (hostname_len e) addr expiry seq (valid e)]> (entries c)) seq)
  | None =>
      let slot := Z.of_nat (find_slot c) in
      e ← arr_get (entries c) slot;
      host ← slice_set (hostname e) 0 hl hb;
      es ← arr_set (entries c) slot (mkEntry host hl addr expiry seq true);
      Done (mk es seq)
  end.

End DnsCache.

(** ** Resolution *)
Module Resolver.
Import Dns NetStack.

Section Resolve.
Context {D T : Type} `{NicDriver D} `{Timer T}.

(** The network, [DNS_CACHE] and [TXN_COUNTER]. *)
Record t := mk { net : Net (D:=D) (T:=T); cache : DnsCache.t; txn_counter : Z }.

Definition tick (s : t) : t * Z := let '(n, now) := read_clock (net s) in (mk n (cache s) (txn_counter s), now).

Definition next_txn_id (s : t) : t * Z :=
  let '(s, now) := tick s in
  (mk (net s) (cache s) (wrap 16 (txn_counter s + 0x4321)), Z.lxor (wrap 16 now) (txn_counter s)).

Definition cache_lookup (s : t) (hostname : list Z) : exec (t * option (list Z)) :=
  let '(s, now) := tick s in
  '(c, r) ← DnsCache.lookup (cache s) hostname now;
  Done (mk (net s) c (txn_counter s), r).

Definition cache_insert (s : t) (hostname addr : list Z) (ttl : Z) : exec t :=
  let '(s, now) := tick s in
  c ← DnsCache.insert (cache s) hostname addr ttl now;
  Done (mk (net s) c (txn_counter s)).

(** [for _ in 0..max_iters]: [None] when the time is up, else what to return. *)
Fixpoint poll (k : nat) (hostname : list Z) (txn_id : Z) (s : t) : exec (t * option (option (list Z))) :=
  match k with
  | O => Done (s, None)
  | S k' =>
      '(n, _) ← nic_receive_one (net s);
      let s := mk n (cache s) (txn_counter s) in
      let buf := DNS_RESPONSE n in
      if DnsResponseBuf.ready buf then
        stale ←
          (if 2 <=? DnsResponseBuf.len buf then
             resp_id ← be16_at (DnsResponseBuf.data buf) 0;
             Done (negb (resp_id =? txn_id))
           else Done false);
        if (stale : bool) then poll k' hostname txn_id s
        else
          data ← slice_get (DnsResponseBuf.data buf) 0 (DnsResponseBuf.len buf);
          result ← parse_response data;
          match result with
          | Some ip => s ← cache_insert s hostname ip 300; Done (s, Some (Some ip))
          | None => Done (s, Some None)
          end
      else poll k' hostname txn_id s
  end.

(** The attempts, each with its number of polls. *)
Fixpoint attempts (polls : list Z) (hostname : list Z) (s : t) : exec (t * option (list Z)) :=
  match polls with
  | [] => Done (s, None)
  | max_iters :: polls =>
      let '(s, txn_id) := next_txn_id s in
      let query := query_packet txn_id hostname in
      let buf := DNS_RESPONSE (net s) in
      let n := set_DNS_RESPONSE (DnsResponseBuf.mk (DnsResponseBuf.data buf) 0 false) (net s) in
      packet ← Packets.build_udp_packet (SocketAddr.mk GUEST_IP 12345) (SocketAddr.mk DNS_SERVER_IP DNS_SERVER_PORT) query 1500;
      match packet with
      | None => Done (mk n (cache s) (txn_counter s), None)
      | Some bytes =>
          n ← transmit_ip bytes n;
          '(s, r) ← poll (Z.to_nat max_iters) hostname txn_id (mk n (cache s) (txn_counter s));
          match r with
          | Some result => Done (s, result)
          | None => attempts polls hostname s
          end
      end
  end.

Definition dns_resolve (hostname : list Z) (s : t) : exec (t * option (list Z)) :=
  '(s, hit) ← cache_lookup s hostname;
  match hit with
  | Some ip => Done (s, Some ip)
  | None => attempts [50000; 100000; 200000] hostname s
  end.

End Resolve.
Arguments t : clear implicits.
End Resolver.

(** ** [http.rs] *)
Module Http.

Definition HTTP_PORT : Z := 80.
Definition CRLF : list Z := [13; 10].

Definition build_get_request (host path : list Z) : list Z :=
  str_bytes "GET " ++ path ++ str_bytes " HTTP/1.1" ++ CRLF ++ str_bytes "Host: " ++ host ++ CRLF ++
  str_bytes "Connection: close" ++ CRLF ++ str_bytes "User-Agent: FabricOS/0.7.0" ++ CRLF ++ CRLF.

Fixpoint digits_loop (data : list Z) (val : Z) : option Z :=
  match data with
  | [] => Some val
  | b :: data =>
      if (48 <=? b) && (b <=? 57) then digits_loop data (wrap 16 (wrap 16 (val * 10) + (b - 48))) else None
  end.

Definition parse_digits (data : list Z) : option Z := digits_loop data 0.

(** [while reason_end < data.len()]: the bytes up to a CR or LF. *)
Fixpoint until_eol (data : list Z) : list Z :=
  match data with
  | [] => []
  | b :: data => if (b =? 13) || (b =? 10) then [] else b :: until_eol data
  end.

Definition parse_status_line (data : list Z) : exec (option (Z * list Z)) :=
  let len := Z.of_nat (length data) in
  if len <? 12 then Done None
  else
    magic ← slice_get data 0 7;
    if negb (bool_decide (magic = str_bytes "HTTP/1.")) then Done None
    else
      b8 ← arr_get data 8;
      if negb (b8 =? 32) then Done None
      else
        code_bytes ← slice_get data 9 12;
        match parse_digits code_bytes with
        | None => Done None
        | Some code =>
            spaced ← (if 13 <? len then b ← arr_get data 12; Done (b =? 32) else Done false);
            let reason_start := if (spaced : bool) then 13 else 12 in
            Done (Some (code, until_eol (drop (Z.to_nat reason_start) data)))
        end.

(** [for i in 0..data.len().saturating_sub(3)]. *)
Fixpoint find_body (data : list Z) : option (list Z) :=
  match data with
  | a :: ((b :: c :: d :: rest) as data') =>
      if (a =? 13) && (b =? 10) && (c =? 13) && (d =? 10) then Some rest else find_body data'
  | _ => None
  end.

End Http.
