(* ===== verification/DnsTheorems.v ===== *)
(** * What the resolver promises

    The parser reads within its input and finds the answer to a query; the cache
    is a bounded map whose least recently used entry gives way; and resolving a
    name always ends, with an address that comes from the cache or from a response
    to the query that was sent. *)

From S2P Require Import Prelude Limbs NetWire NetWireSpec Sockets SocketSpec NetStack NetInv Dns.

Notation bytes := (Forall (in_u 8)).

(** ** Parsing *)
Module DnsParse.
Import Dns NetInv.

Lemma byte_at data pos : bytes data -> 0 <= pos < Z.of_nat (length data) -> returns (arr_get data pos) (in_u 8).
Proof.
  intros Hd Hp. destruct (arr_get_in data pos Hp) as (a & -> & Ha). apply returns_done. by apply (Forall_lookup_1 _ _ _ _ Hd Ha).
Qed.

Lemma be16_at_ok data pos : bytes data -> 0 <= pos -> pos + 2 <= Z.of_nat (length data) -> returns (be16_at data pos) (in_u 16).
Proof.
  intros Hd Hp Hl. unfold be16_at. eapply returns_bind; [apply byte_at; [done|lia]|]. intros a Ha.
  eapply returns_bind; [apply byte_at; [done|lia]|]. intros b Hb. apply returns_done. by apply NetInv.of_be16_range.
Qed.

Lemma skip_ok data : bytes data -> forall fuel offset, 0 <= offset -> Z.of_nat (length data) - offset <= Z.of_nat fuel ->
  returns (skip_loop fuel data offset) (fun r => forall o, r = Some o -> offset < o).
Proof.
  intros Hd. induction fuel as [|fuel IH]; intros offset Ho Hf; cbn [skip_loop];
    (destruct (Z.leb_spec (Z.of_nat (length data)) offset); [by apply returns_done|]); [lia|].
  eapply returns_bind; [apply byte_at; [done|lia]|]. intros len Hlen. unfold in_u in Hlen.
  destruct (len =? 0); [apply returns_done; intros o [= <-]; lia|]. destruct (_ =? 0xC0); [apply returns_done; intros o [= <-]; lia|].
  eapply returns_mono; [apply IH; lia|]. intros r Hr o E. specialize (Hr o E). lia.
Qed.

Lemma questions_ok data : bytes data -> forall k offset, 0 <= offset -> returns (skip_questions k data offset) (fun r => forall o, r = Some o -> 0 <= o).
Proof.
  intros Hd. induction k as [|k IH]; intros offset Ho; cbn [skip_questions]; [apply returns_done; by intros o [= <-]|].
  eapply returns_bind; [apply skip_ok; [done|done|lia]|]. intros [o|] Hs; [|by apply returns_done]. specialize (Hs o eq_refl).
  destruct (_ <? _); [by apply returns_done|]. apply IH. lia.
Qed.

Lemma answer_bytes_ok data : bytes data -> forall k offset, 0 <= offset ->
  returns (find_answer k data offset) (fun r => forall ip, r = Some ip -> length ip = 4%nat /\ bytes ip).
Proof.
  intros Hd. induction k as [|k IH]; intros offset Ho; cbn [find_answer]; [by apply returns_done|]. destruct (_ <=? offset); [by apply returns_done|].
  eapply returns_bind; [apply skip_ok; [done|done|lia]|]. intros [o|] Hs; [|by apply returns_done]. specialize (Hs o eq_refl).
  destruct (Z.ltb_spec (Z.of_nat (length data)) (o + 10)); [by apply returns_done|].
  do 4 (eapply returns_bind; [apply be16_at_ok; [done|lia..]|]; intros ? _). eapply returns_bind; [apply be16_at_ok; [done|lia..]|]. intros rdlen Hrd.
  destruct (_ && _ && _) eqn:E; [|apply IH; unfold in_u in Hrd; lia]. apply andb_true_iff in E as [_ E%Z.leb_le].
  eapply returns_bind; [apply slice_get_ok; lia|]. intros ip [Hl Hb]. apply returns_done. intros ? [= <-]. split; [lia|by apply Hb].
Qed.

Lemma parse_ok data : bytes data -> returns (parse_response data) (fun r => forall ip, r = Some ip -> length ip = 4%nat /\ bytes ip).
Proof.
  intros Hd. unfold parse_response. destruct (DnsHeader.parse data) as [h|]; [|by apply returns_done]. destruct (_ =? 0); [by apply returns_done|].
  destruct (negb _); [by apply returns_done|]. destruct (_ =? 0); [by apply returns_done|].
  eapply returns_bind; [by apply questions_ok|]. intros [o|] Ho; [|by apply returns_done]. apply answer_bytes_ok; [done|]. by apply Ho.
Qed.

(** *** Queries and their answers *)
Definition label_ok (l : list Z) : Prop := (length l <= 63)%nat.

Definition name_bytes (labels : list (list Z)) : list Z := concat (encode_label <$> labels) ++ [0].

Lemma skip_name labels : Forall label_ok labels -> forall pre post fuel, (length (name_bytes labels ++ post) <= fuel)%nat ->
  skip_loop fuel (pre ++ name_bytes labels ++ post) (Z.of_nat (length pre)) = Done (Some (Z.of_nat (length pre + length (name_bytes labels)))).
Proof.
  unfold name_bytes. induction 1 as [|l labels Hl _ IH]; intros pre post fuel Hf.
  - cbn [fmap list_fmap concat app] in *. destruct fuel as [|fuel]; [cbn in Hf; lia|]. cbn [skip_loop]. rewrite length_app. cbn [length].
    rewrite (proj2 (Z.leb_gt _ _)) by lia. rewrite (arr_get_at _ _ 0); [|lia|by rewrite Nat2Z.id, list_lookup_middle]. exec_simpl. do 2 f_equal. lia.
  - cbn [fmap list_fmap concat] in *. unfold encode_label at 1 3. unfold encode_label at 1 in Hf. unfold label_ok in Hl. case_bool_decide as E; [by apply IH|].
    rewrite wrap_small by (unfold in_u; lia). rewrite wrap_small in Hf by (unfold in_u; lia).
    destruct fuel as [|fuel]; [rewrite !length_app in Hf; cbn in Hf; lia|]. cbn [skip_loop]. rewrite <- !app_assoc in *. cbn [app].
    rewrite length_app. cbn [length]. rewrite (proj2 (Z.leb_gt _ _)) by lia.
    rewrite (arr_get_at _ _ (Z.of_nat (length l))); [|lia|by rewrite Nat2Z.id, list_lookup_middle]. exec_simpl.
    assert (0 < Z.of_nat (length l)) by (destruct l; [done|cbn; lia]). rewrite (proj2 (Z.eqb_neq _ 0)) by lia.
    assert (Z.land (Z.of_nat (length l)) 0xC0 = 0) as ->.
    { replace 0xC0 with (Z.shiftl 3 6) by done. apply Z.bits_inj'. intros n Hn. rewrite Z.land_spec, Z.bits_0. destruct (decide (n < 6)).
      - rewrite Z.shiftl_spec_low by lia. apply andb_false_r.
      - rewrite Z.bits_above_log2; [done|lia|]. apply Z.log2_lt_pow2; [lia|]. apply Z.lt_le_trans with (2 ^ 6); [lia|apply Z.pow_le_mono_r; lia]. }
    change (0 =? 0xC0) with false. cbv iota.
    specialize (IH (pre ++ Z.of_nat (length l) :: l) post fuel). rewrite !length_app in IH. cbn [length] in IH.
    rewrite <- !app_assoc in IH. cbn [app] in IH. replace (Z.of_nat (length pre) + (1 + Z.of_nat (length l))) with (Z.of_nat (length pre + S (length l))) by lia.
    rewrite IH; [|revert Hf; rewrite !length_app; cbn [length]; rewrite ?length_app; lia].
    do 2 f_equal. rewrite !length_app. cbn [length]. rewrite ?length_app. lia.
Qed.

(** The answer that a server gives to a query: the question, and one record that
    points back to its name. *)
Definition response (id : Z) (host : list Z) (ttl ip : list Z) : list Z :=
  DnsHeader.to_bytes (DnsHeader.mk id 0x8180 1 1 0 0) ++ encode_hostname host ++ [0; 1; 0; 1] ++
  [0xC0; 12] ++ [0; 1; 0; 1] ++ ttl ++ [0; 4] ++ ip.

Lemma at_tail (pre tail : list Z) k v : 0 <= k -> tail !! Z.to_nat k = Some v -> arr_get (pre ++ tail) (Z.of_nat (length pre) + k) = Done v.
Proof.
  intros Hk Hv. apply arr_get_at; [lia|]. rewrite lookup_app_r by lia. by replace (Z.to_nat _ - length pre)%nat with (Z.to_nat k) by lia.
Qed.

Lemma be16_at_tail (pre tail : list Z) k a b : 0 <= k -> tail !! Z.to_nat k = Some a -> tail !! S (Z.to_nat k) = Some b ->
  be16_at (pre ++ tail) (Z.of_nat (length pre) + k) = Done (Be.of_be16 a b).
Proof.
  intros Hk Ha Hb. unfold be16_at. rewrite (at_tail _ _ k a) by done. exec_simpl. rewrite <- Z.add_assoc, (at_tail _ _ (k + 1) b); [done|lia|].
  by replace (Z.to_nat (k + 1)) with (S (Z.to_nat k)) by lia.
Qed.

(** One record that points back to a name. *)
Lemma find_pointer_record pre ttl ip rest : length ttl = 4%nat -> length ip = 4%nat ->
  find_answer 1 (pre ++ [0xC0; 12; 0; 1; 0; 1] ++ ttl ++ [0; 4] ++ ip ++ rest) (Z.of_nat (length pre)) = Done (Some ip).
Proof.
  intros Ht Hi. destruct ttl as [|t0 [|t1 [|t2 [|t3 [|]]]]]; try done. destruct ip as [|i0 [|i1 [|i2 [|i3 [|]]]]]; try done. cbn [app].
  set (tail := 0xC0 :: _). assert (length tail = (16 + length rest)%nat) as Htl by done. cbn [find_answer].
  assert (Z.of_nat (length (pre ++ tail)) = Z.of_nat (length pre) + 16 + Z.of_nat (length rest)) as Hl by (rewrite length_app; lia).
  rewrite (proj2 (Z.leb_gt _ _)) by lia. unfold skip_dns_name. replace (length (pre ++ tail)) with (S (length pre + 15 + length rest)) at 1 by lia.
  cbn [skip_loop]. rewrite (proj2 (Z.leb_gt _ _)) by lia.
  assert (arr_get (pre ++ tail) (Z.of_nat (length pre)) = Done 0xC0) as -> by (rewrite <- (Z.add_0_r (Z.of_nat (length pre))); by apply at_tail).
  exec_simpl. change (0xC0 =? 0) with false. change (Z.land 0xC0 0xC0 =? 0xC0) with true. cbv iota. exec_simpl.
  rewrite (proj2 (Z.ltb_ge _ _)) by lia. set (o := Z.of_nat (length pre)).
  assert (forall j a b, 0 <= j -> tail !! Z.to_nat (2 + j) = Some a -> tail !! S (Z.to_nat (2 + j)) = Some b ->
    be16_at (pre ++ tail) (o + 2 + j) = Done (Be.of_be16 a b)) as Hat
    by (intros j a b Hj Ha Hb; rewrite <- Z.add_assoc; apply be16_at_tail; [lia|done..]).
  assert (be16_at (pre ++ tail) (o + 2) = Done (Be.of_be16 0 1)) as -> by (rewrite <- (Z.add_0_r (o + 2)); by apply Hat). exec_simpl.
  rewrite (Hat 2 0 1 ltac:(lia) eq_refl eq_refl), (Hat 4 t0 t1 ltac:(lia) eq_refl eq_refl). exec_simpl.
  rewrite (Hat 6 t2 t3 ltac:(lia) eq_refl eq_refl), (Hat 8 0 4 ltac:(lia) eq_refl eq_refl). exec_simpl.
  change (Be.of_be16 0 1 =? DNS_TYPE_A) with true. change (Be.of_be16 0 4 =? 4) with true.
  rewrite (proj2 (Z.leb_le _ _)) by lia. cbn [andb]. unfold slice_get. rewrite decide_True by lia. exec_simpl. do 2 f_equal.
  replace (Z.to_nat (o + 2 + 10)) with (length pre + 12)%nat by lia. rewrite <- drop_drop, drop_app_length. 
  by replace (Z.to_nat _) with 4%nat by lia.
Qed.

(** A resolver understands the answer to its query: for a name whose labels
    have at most 63 bytes, the response that repeats the question and adds one
    address record for it parses to that address. *)
Theorem answers_to_queries_parse id host ttl ip : in_u 16 id -> Forall label_ok (split_dots host) -> length ttl = 4%nat -> length ip = 4%nat ->
  take 2 (response id host ttl ip) = take 2 (query_packet id host) /\ parse_response (response id host ttl ip) = Done (Some ip).
Proof.
  intros Hid Hl Ht Hip. split; [done|]. unfold parse_response, response.
  set (header := DnsHeader.to_bytes _). set (question := [0; 1; 0; 1]). set (record := [0xC0; 12] ++ _).
  assert (DnsHeader.parse (header ++ encode_hostname host ++ question ++ record) = Some (DnsHeader.mk id 0x8180 1 1 0 0)) as ->
    by (cbn -[Be.of_be16 wrap Z.shiftr]; rewrite !BeFacts.be16_back by done; done).
  cbn [DnsHeader.flags DnsHeader.qdcount DnsHeader.ancount]. change (Z.land 0x8180 0x8000 =? 0) with false. change (Z.land 0x8180 0xF =? 0) with true.
  cbn [negb]. change (1 =? 0) with false. cbv iota. change (Z.to_nat 1) with 1%nat. cbn [skip_questions].
  pose proof (skip_name (split_dots host) Hl header (question ++ record) (length (header ++ encode_hostname host ++ question ++ record))) as Hs.
  unfold skip_dns_name. change 12 with (Z.of_nat (length header)). change (name_bytes (split_dots host)) with (encode_hostname host) in Hs.
  rewrite Hs by (rewrite (length_app header); lia). exec_simpl.
  assert (length record = 16%nat) as Hr by (unfold record; rewrite !length_app, Ht, Hip; done).
  rewrite (proj2 (Z.ltb_ge _ _)) by (rewrite !length_app, Hr; cbn [length question]; lia).
  pose proof (find_pointer_record (header ++ encode_hostname host ++ question) ttl ip [] Ht Hip) as Hf.
  rewrite app_nil_r, <- !app_assoc in Hf. fold record in Hf. rewrite !length_app in Hf.
  replace (Z.of_nat (length header + length (encode_hostname host)) + 4) with (Z.of_nat (length header + (length (encode_hostname host) + length question)))
    by (cbn [length question]; lia). exact Hf.
Qed.

Definition example_com : list Z := str_bytes "example.com".

Lemma answers_to_queries_parse_witness : parse_response (response 7 example_com [0; 0; 1; 44] [93; 184; 216; 34]) = Done (Some [93; 184; 216; 34]).
Proof. refine (proj2 (answers_to_queries_parse 7 example_com [0; 0; 1; 44] [93; 184; 216; 34] _ _ eq_refl eq_refl)); [done|repeat constructor; cbn; lia]. Defined.

End DnsParse.

(** ** The cache *)
Module CacheSpec.
Import DnsCache.

Definition name_of (e : DnsCacheEntry) : list Z := take (Z.to_nat (hostname_len e)) (hostname e).

Definition entry_ok (e : DnsCacheEntry) : Prop :=
  length (hostname e) = 64%nat /\ 0 <= hostname_len e <= 64 /\ in_u 64 (last_access e).

(** No name is valid twice. *)
Definition distinct (es : list DnsCacheEntry) : Prop :=
  forall i j e e', es !! i = Some e -> es !! j = Some e' -> valid e = true -> valid e' = true -> name_of e = name_of e' -> i = j.

Record cache_ok (c : t) : Prop := {
  ca_size : length (entries c) = 32%nat;
  ca_entries : Forall entry_ok (entries c);
  ca_distinct : distinct (entries c);
}.

Definition named (name : list Z) (e : DnsCacheEntry) : bool := valid e && bool_decide (name_of e = name).

Lemma length_name e : entry_ok e -> Z.of_nat (length (name_of e)) = hostname_len e.
Proof. intros (Hl & Hh & _). unfold name_of. rewrite length_take. lia. Qed.

Lemma holds_name_spec name e : entry_ok e -> holds_name (Z.of_nat (length name)) name e = Done (named name e).
Proof.
  intros He. pose proof (length_name e He) as Hl. destruct He as (Hh & Hn & _). unfold holds_name, named. destruct (valid e); [|done]. cbn [andb].
  destruct (Z.eqb_spec (hostname_len e) (Z.of_nat (length name))) as [E|E].
  - unfold slice_get. rewrite decide_True by lia. exec_simpl. unfold name_of. rewrite E, drop_0, Z.sub_0_r. done.
  - by rewrite bool_decide_eq_false_2 by (intros <-; lia).
Qed.

Lemma entry_find_spec name es : Forall entry_ok es -> forall i,
  match find_name (Z.of_nat (length name)) name es i with
  | Done (Some (k, e)) => exists j, k = (i + j)%nat /\ es !! j = Some e /\ named name e = true
  | Done None => forall e, e ∈ es -> named name e = false
  | _ => False
  end.
Proof.
  induction 1 as [|e es He _ IH]; intros i; cbn [find_name]; [by intros e Hin%elem_of_nil|]. rewrite holds_name_spec by done. exec_simpl.
  destruct (named name e) eqn:E; [exists 0%nat; split; [lia|done]|]. specialize (IH (S i)).
  destruct (find_name _ name es (S i)) as [[[k e']|]| |]; try done.
  - destruct IH as (j & -> & Hj & Hn). exists (S j). split; [lia|done].
  - intros e' [->|Hin]%elem_of_cons; [done|by apply IH].
Qed.

(** The address and expiry that the cache holds for a name. *)
Definition cached (c : t) (name : list Z) : option (list Z * Z) :=
  (fun e => (ip e, expiry_tick e)) <$> List.find (named name) (entries c).

Lemma named_name name e : named name e = true <-> valid e = true /\ name_of e = name.
Proof. unfold named. by rewrite andb_true_iff, bool_decide_eq_true. Qed.

(** With distinct names, the entry found is the only one. *)
Lemma cached_at c name i e : cache_ok c -> entries c !! i = Some e -> named name e = true -> cached c name = Some (ip e, expiry_tick e).
Proof.
  intros [_ _ Hd] Hi Hn. unfold cached. destruct (List.find (named name) (entries c)) as [e'|] eqn:Hf.
  - pose proof (find_some _ _ Hf) as [Hin Hn']. apply list_elem_of_In, list_elem_of_lookup_1 in Hin as [j Hj]. apply named_name in Hn as [Hv Hn], Hn' as [Hv' Hn'].
    assert (i = j) as -> by (eapply Hd; eauto; congruence). rewrite Hi in Hj. by injection Hj as <-.
  - pose proof (find_none _ _ Hf e) as Hno. rewrite Hn in Hno. by discriminate Hno; apply list_elem_of_In, list_elem_of_lookup_2 with i.
Qed.

Lemma cached_none c name : (forall e, e ∈ entries c -> named name e = false) -> cached c name = None.
Proof.
  intros Hno. unfold cached. destruct (List.find (named name) (entries c)) as [e|] eqn:Hf; [|done].
  pose proof (find_some _ _ Hf) as [Hin Hn]. by rewrite Hno in Hn by (by apply list_elem_of_In).
Qed.

Lemma cached_some c name ip exp : cached c name = Some (ip, exp) ->
  exists i e, entries c !! i = Some e /\ named name e = true /\ DnsCache.ip e = ip /\ expiry_tick e = exp.
Proof.
  unfold cached. destruct (List.find (named name) (entries c)) as [e|] eqn:Hf; [|done]. intros [= <- <-].
  pose proof (find_some _ _ Hf) as [Hin Hn]. apply list_elem_of_In, list_elem_of_lookup_1 in Hin as [i Hi]. by exists i, e.
Qed.

(** An entry replaced: what is cached for a name that neither the old nor the new
    entry has does not change. *)
Lemma cached_insert_other c c' i e e' name : cache_ok c -> cache_ok c' -> entries c !! i = Some e -> entries c' = <[i := e']> (entries c) ->
  named name e = false -> named name e' = false -> cached c' name = cached c name.
Proof.
  intros Hc Hc' Hi E Hn Hn'. destruct (cached c name) as [[a x]|] eqn:Hcn.
  - apply cached_some in Hcn as (j & e1 & Hj & Hn1 & <- & <-). eapply (cached_at c' name j); [done| |done]. rewrite E, list_lookup_insert_ne; [done|].
    intros <-. rewrite Hi in Hj. injection Hj as <-. congruence.
  - apply cached_none. intros e1 Hin. apply list_elem_of_lookup_1 in Hin as [j Hj]. rewrite E in Hj.
    destruct (decide (i = j)) as [<-|Hne]; [rewrite list_lookup_insert_eq in Hj by (by eapply lookup_lt_Some); by injection Hj as <-|].
    rewrite list_lookup_insert_ne in Hj by done. destruct (named name e1) eqn:Hn1; [|done]. by rewrite (cached_at c name j e1 Hc Hj Hn1) in Hcn.
Qed.

Lemma insert_ok c i e e' seq : cache_ok c -> entries c !! i = Some e -> entry_ok e' ->
  (forall j e1, j <> i -> entries c !! j = Some e1 -> valid e1 = true -> valid e' = true -> name_of e1 <> name_of e') ->
  cache_ok (mk (<[i := e']> (entries c)) seq).
Proof.
  intros [Hs He Hd] Hi He' Hne. split; cbn; [by rewrite length_insert|by apply Forall_insert|].
  assert (forall j, (<[i := e']> (entries c)) !! j = if decide (i = j) then Some e' else entries c !! j) as Hl.
  { intros j. destruct (decide (i = j)) as [<-|]; [by rewrite list_lookup_insert_eq by (by eapply lookup_lt_Some)|by rewrite list_lookup_insert_ne]. }
  intros j k e1 e2. rewrite !Hl. destruct (decide (i = j)) as [<-|Hj], (decide (i = k)) as [<-|Hk]; try done.
  - intros [= <-] H2 Hv1 Hv2 E. exfalso. by eapply (Hne k e2).
  - intros H1 [= <-] Hv1 Hv2 E. exfalso. by eapply (Hne j e1).
  - apply Hd.
Qed.

(** What a lookup answers at tick [now]. *)
Definition live (c : t) (name : list Z) (now : Z) : option (list Z) :=
  match cached c name with Some (addr, expiry) => if now <? expiry then Some addr else None | None => None end.

Lemma live_cached c c' name now : cached c' name = cached c name -> live c' name now = live c name now.
Proof. unfold live. by intros ->. Qed.

(** The entry of a name replaced by another for it. *)
Lemma replace_spec c name j e seq : cache_ok c -> entries c !! j = Some e -> valid e = true -> name_of e = name ->
  forall e', entry_ok e' -> name_of e' = name ->
  let c' := mk (<[j := e']> (entries c)) seq in
  cache_ok c' /\ (forall other, other <> name -> cached c' other = cached c other) /\
  cached c' name = if valid e' then Some (ip e', expiry_tick e') else None.
Proof.
  intros Hc Hj Hv Hnm e' Hok Hnm' c'.
  assert (cache_ok c') as Hc'.
  { apply (insert_ok c j e); [done|done|done|]. intros k e1 Hk H1 Hv1 _ E. apply Hk. eapply (ca_distinct _ Hc); eauto. congruence. }
  split; [done|]. split.
  - intros other Ho. eapply (cached_insert_other c c' j e e'); [done|done|done|done| |];
      unfold named; rewrite bool_decide_eq_false_2 by congruence; apply andb_false_r.
  - assert (entries c' !! j = Some e') as Hj' by (apply list_lookup_insert_eq; by eapply lookup_lt_Some). destruct (valid e') eqn:Hv'.
    + apply (cached_at c' name j e' Hc' Hj'). by apply named_name.
    + apply cached_none. intros e1 [k Hk]%list_elem_of_lookup_1. destruct (named name e1) eqn:Hn1; [|done]. apply named_name in Hn1 as [Hv1 Hn1].
      destruct (decide (j = k)) as [<-|Hne]; [rewrite Hj' in Hk; congruence|]. cbn in Hk. rewrite list_lookup_insert_ne in Hk by done.
      exfalso. apply Hne. eapply (ca_distinct _ Hc); eauto. congruence.
Qed.

(** Looking a name up refreshes it or drops it; nothing else changes. *)
Lemma lookup_spec c name now : cache_ok c ->
  exists c', lookup c name now = Done (c', live c name now) /\ cache_ok c' /\
    (forall other, other <> name -> cached c' other = cached c other) /\ (forall k, now <= k -> live c' name k = live c name k).
Proof.
  intros Hc. unfold lookup. pose proof (entry_find_spec name (entries c) (ca_entries _ Hc) 0) as Hf.
  destruct (find_name _ name (entries c) 0) as [[[i e]|]| |]; [| |done..]; exec_simpl.
  - destruct Hf as (j & -> & Hj & Hn). cbn [Nat.add] in *. pose proof (cached_at c name j e Hc Hj Hn) as Hcn. apply named_name in Hn as [Hv Hnm].
    pose proof (ca_entries _ Hc) as He. rewrite Forall_lookup in He. specialize (He _ _ Hj) as He0. unfold live at 1. rewrite Hcn.
    pose proof (replace_spec c name j e (u64_add (access_seq c) 1) Hc Hj Hv Hnm) as Hset.
    destruct (Z.ltb_spec now (expiry_tick e)) as [Hlt|Hge].
    + destruct (Hset (set_access (u64_add (access_seq c) 1) e)) as (Hc' & Ho & Hm); [|done|].
      { destruct He0 as (? & ? & _). split; [done|]. split; [done|]. apply wrap_range. lia. }
      eexists. split; [done|]. split; [done|]. split; [done|]. intros k Hk. cbn [valid set_access] in Hm. rewrite Hv in Hm. apply live_cached. by rewrite Hm, Hcn.
    + destruct (Hset (set_valid false e)) as (Hc' & Ho & Hm); [done|done|]. eexists. split; [done|]. split; [done|]. split; [done|].
      intros k Hk. unfold live. cbn [valid set_valid] in Hm. rewrite Hm, Hcn, (proj2 (Z.ltb_ge _ _)) by lia. done.
  - unfold live at 1. rewrite (cached_none c name Hf). eexists. split; [done|]. by destruct Hc.
Qed.

Lemma first_invalid_spec es i :
  match first_invalid es i with
  | Some k => exists j e, k = (i + j)%nat /\ es !! j = Some e /\ valid e = false
  | None => forall e, e ∈ es -> valid e = true
  end.
Proof.
  revert i. induction es as [|e es IH]; intros i; cbn [first_invalid]; [by intros e ?%elem_of_nil|].
  destruct (valid e) eqn:Hv; cbn [negb]; [|exists 0%nat, e; split; [lia|done]]. specialize (IH (S i)).
  destruct (first_invalid es (S i)) as [k|]; [destruct IH as (j & e' & -> & Hj & Hv'); exists (S j), e'; split; [lia|done]|].
  intros e' [->|Hin]%elem_of_cons; [done|by apply IH].
Qed.

(** The loop ends with the least access so far, the one it started from or that
    of the entry it points to. *)
Lemma least_recent_spec es : forall i m idx,
  exists m', m' <= m /\ (forall e, e ∈ es -> m' <= last_access e) /\
    ((m' = m /\ least_recent es i m idx = idx) \/
     exists j e, least_recent es i m idx = (i + j)%nat /\ es !! j = Some e /\ last_access e = m' /\ m' < m).
Proof.
  induction es as [|e es IH]; intros i m idx; cbn [least_recent]; [exists m; split; [lia|]; split; [by intros e ?%elem_of_nil|by left]|].
  destruct (Z.ltb_spec (last_access e) m) as [Hlt|Hge].
  - destruct (IH (S i) (last_access e) i) as (m' & Hle & Hall & Hor). exists m'. split; [lia|]. split; [intros e' [->|Hin]%elem_of_cons; [lia|by apply Hall]|].
    right. destruct Hor as [[-> ->]|(j & e' & -> & Hj & Ha & _)]; [exists 0%nat, e; split; [lia|done]|exists (S j), e'; split; [lia|]; split_all; [done|done|lia]].
  - destruct (IH (S i) m idx) as (m' & Hle & Hall & Hor). exists m'. split; [lia|]. split; [intros e' [->|Hin]%elem_of_cons; [lia|by apply Hall]|].
    destruct Hor as [Hor|(j & e' & -> & Hj & Ha & Hm)]; [by left|]. right. exists (S j), e'. split; [lia|done].
Qed.

(** The slot for a new entry: free, or the one not used for longest. *)
Lemma find_slot_spec c : cache_ok c ->
  exists e, entries c !! find_slot c = Some e /\
    (valid e = false \/ ((forall e', e' ∈ entries c -> valid e' = true) /\ forall e', e' ∈ entries c -> last_access e <= last_access e')).
Proof.
  intros Hc. unfold find_slot. pose proof (first_invalid_spec (entries c) 0) as Hf. destruct (first_invalid (entries c) 0) as [k|].
  - destruct Hf as (j & e & -> & Hj & Hv). exists e. split; [done|by left].
  - destruct (least_recent_spec (entries c) 0 (2 ^ 64 - 1) 0) as (m & Hle & Hall & Hor).
    destruct Hor as [[-> ->]|(j & e & -> & Hj & Ha & _)].
    + destruct (lookup_lt_is_Some_2 (entries c) 0) as [e He]; [rewrite (ca_size _ Hc); lia|]. exists e. split; [done|]. right. split; [done|].
      intros e' Hin. pose proof (Hall e' Hin). pose proof (ca_entries _ Hc) as Hok. rewrite Forall_lookup in Hok. destruct (Hok _ _ He) as (_ & _ & Hu). unfold in_u in Hu. lia.
    + exists e. split; [done|]. right. split; [done|]. intros e' Hin. rewrite Ha. by apply Hall.
Qed.

(** The name that the cache keeps, and when the entry expires. *)
Definition key (name : list Z) : list Z := take 64 name.
Definition expiry (ttl now : Z) : Z := u64_add now (wrap 64 (ttl * 1000)).

(** What was cached for [other] gives way: no slot is free, and no entry was used
    less recently. *)
Definition evicted (c : t) (other : list Z) : Prop :=
  (forall e, e ∈ entries c -> valid e = true) /\
  exists i e, entries c !! i = Some e /\ name_of e = other /\ forall e', e' ∈ entries c -> last_access e <= last_access e'.

Lemma cache_insert_spec c name addr ttl now : cache_ok c ->
  exists c', insert c name addr ttl now = Done c' /\ cache_ok c' /\ cached c' (key name) = Some (addr, expiry ttl now) /\
    forall other, other <> key name -> cached c' other = cached c other \/ (cached c' other = None /\ evicted c other).
Proof.
  intros Hc. unfold insert. set (hl := Z.min _ 64).
  assert (slice_get name 0 hl = Done (key name) /\ hl = Z.of_nat (length (key name))) as [-> Hhl].
  { unfold slice_get, key, hl. rewrite decide_True by lia. rewrite drop_0, length_take. split; [|lia]. f_equal.
    destruct (decide (length name <= 64)%nat); [rewrite !take_ge by lia; done|f_equal; lia]. }
  exec_simpl. assert (0 <= hl <= 64) as Hhr by (unfold hl; lia). clearbody hl. subst hl. set (nm := key name) in *.
  pose proof (ca_entries _ Hc) as Hok. pose proof (entry_find_spec nm (entries c) Hok 0) as Hf. rewrite Forall_lookup in Hok.
  assert (in_u 64 (u64_add (access_seq c) 1)) as Hseq by (apply wrap_range; lia).
  destruct (find_name _ nm (entries c) 0) as [[[i e]|]| |]; [| |done..]; exec_simpl.
  - destruct Hf as (j & -> & Hj & Hn). cbn [Nat.add] in *. apply named_name in Hn as [Hv Hnm]. destruct (Hok _ _ Hj) as (H1 & H2 & _).
    destruct (replace_spec c nm j e (u64_add (access_seq c) 1) Hc Hj Hv Hnm (mkEntry (hostname e) (hostname_len e) addr (expiry ttl now) (u64_add (access_seq c) 1) (valid e)))
      as (Hc' & Ho & Hm); [done|done|]. cbn [valid] in Hm. rewrite Hv in Hm at 2. eexists. split; [done|]. split; [exact Hc'|]. split; [exact Hm|].
    intros other Hne. left. by apply Ho.
  - destruct (find_slot_spec c Hc) as (e & He & Hslot). destruct (Hok _ _ He) as (H1 & H2 & _).
    rewrite (arr_get_at _ _ e) by (try lia; by rewrite Nat2Z.id). exec_simpl. unfold slice_set. rewrite decide_True by lia. exec_simpl.
    rewrite arr_set_Done by (apply lookup_lt_Some in He; lia). exec_simpl. rewrite Nat2Z.id.
    set (host := take _ (hostname e) ++ _). set (e' := mkEntry host (Z.of_nat (length nm)) addr (expiry ttl now) (u64_add (access_seq c) 1) true).
    assert (host = nm ++ drop (length nm) (hostname e)) as Hh by (unfold host; change (Z.to_nat 0) with 0%nat; rewrite take_0, Nat2Z.id; done).
    assert (name_of e' = nm) as Hn' by (unfold name_of; cbn; rewrite Nat2Z.id, Hh; apply take_app_length).
    assert (entry_ok e') as He' by (split; [cbn; rewrite Hh, length_app, length_drop; lia|split; [exact Hhr|exact Hseq]]).
    assert (cache_ok (mk (<[find_slot c := e']> (entries c)) (u64_add (access_seq c) 1))) as Hc'.
    { apply (insert_ok c (find_slot c) e); [done|done|done|]. intros j e1 Hj H3 Hv1 _ E. rewrite Hn' in E. pose proof (Hf e1 ltac:(by eapply list_elem_of_lookup_2)) as Hno.
      assert (named nm e1 = true) by (by apply named_name). congruence. }
    eexists. split; [done|]. split; [done|]. split.
    + eapply (cached_at _ nm (find_slot c) e'); [done|apply list_lookup_insert_eq; by eapply lookup_lt_Some|by apply named_name].
    + intros other Hne. assert (named other e' = false) as Hoe by (unfold named; rewrite bool_decide_eq_false_2 by congruence; apply andb_false_r).
      destruct (named other e) eqn:Ho; [|left; by eapply (cached_insert_other c _ (find_slot c) e e')].
      apply named_name in Ho as [Hv Hno]. destruct Hslot as [Hinv|[Hfull Hlru]]; [congruence|]. right. split; [|split; [done|by exists (find_slot c), e]].
      apply cached_none. intros e1 [k Hk]%list_elem_of_lookup_1. destruct (named other e1) eqn:Hn1; [|done]. cbn in Hk.
      destruct (decide (find_slot c = k)) as [<-|Hnk]; [rewrite list_lookup_insert_eq in Hk by (by eapply lookup_lt_Some)|].
      { assert (e1 = e') as -> by (symmetry; by injection Hk). congruence. }
      rewrite list_lookup_insert_ne in Hk by done. apply named_name in Hn1 as [Hv1 Hn1]. exfalso. apply Hnk. eapply (ca_distinct _ Hc); eauto. congruence.
Qed.

Lemma new_ok : cache_ok new.
Proof.
  split; [done|apply (Forall_replicate _ 32); by repeat split|]. intros i j e e' Hi _ Hv. by apply (lookup_replicate_1 32) in Hi as [-> _].
Qed.

(** *** Runs *)
Inductive cache_op :=
| Lookup (name : list Z) (now : Z)
| Insert (name addr : list Z) (ttl now : Z).

Definition cache_step (o : cache_op) (c : t) : exec t :=
  match o with
  | Lookup name now => '(c, _) ← lookup c name now; Done c
  | Insert name addr ttl now => insert c name addr ttl now
  end.

Inductive cache_reachable : t -> Prop :=
| cache_boot : cache_reachable new
| cache_stepped c o c' : cache_reachable c -> cache_step o c = Done c' -> cache_reachable c'.

Lemma cache_reachable_ok c : cache_reachable c -> cache_ok c.
Proof.
  induction 1 as [|c [name now|name addr ttl now] c' _ IH E]; [apply new_ok| |]; cbn in E.
  - destruct (lookup_spec c name now IH) as (c1 & E1 & Hc1 & _). rewrite E1 in E. by injection E as <-.
  - destruct (cache_insert_spec c name addr ttl now IH) as (c1 & E1 & Hc1 & _). rewrite E1 in E. by injection E as <-.
Qed.



(** The address of a long name becomes that of its first 64 bytes, and is not
    found for the name itself. *)
Lemma long_name_aliases c name addr ttl now : cache_reachable c -> (64 < length name)%nat -> now < expiry ttl now ->
  exists c', insert c name addr ttl now = Done c' /\ live c' (take 64 name) now = Some addr /\ live c' name now = None.
Proof.
  intros Hc%cache_reachable_ok Hl Hn. destruct (cache_insert_spec c name addr ttl now Hc) as (c' & E & Hc' & Hk & _). exists c'. split; [done|].
  unfold live. unfold key in Hk. rewrite Hk, (proj2 (Z.ltb_lt _ _)) by done. split; [done|]. rewrite (cached_none c' name); [done|].
  intros e [j Hj]%list_elem_of_lookup_1. pose proof (ca_entries _ Hc') as Hok. rewrite Forall_lookup in Hok. specialize (Hok _ _ Hj).
  unfold named. rewrite bool_decide_eq_false_2; [apply andb_false_r|]. intros <-. pose proof (length_name e Hok). destruct Hok as (_ & ? & _). lia.
Qed.

End CacheSpec.

(** ** Resolution *)
Module ResolverSpec.
Import Dns DnsParse CacheSpec Resolver NetStack NetInv.

Lemma split_bytes s : bytes s -> Forall (fun l => bytes l) (split_dots s).
Proof.
  induction 1 as [|c s Hc _ IH]; cbn [split_dots]; [by repeat constructor|]. destruct (c =? 46); [by constructor|].
  destruct (split_dots s) as [|l ls]; [constructor; [by constructor|done]|]. apply Forall_cons in IH as [Hl Hls]. constructor; [by constructor|done].
Qed.

Lemma encoded_bytes s : bytes s -> bytes (encode_hostname s).
Proof.
  intros Hs%split_bytes. unfold encode_hostname. apply Forall_app_2; [|by apply Forall_singleton]. apply Forall_concat, Forall_fmap.
  eapply Forall_impl; [exact Hs|]. intros l Hl. cbn. unfold encode_label. case_bool_decide; [done|]. constructor; [apply wrap_range; lia|done].
Qed.

Lemma encoded_length s : (length (encode_hostname s) <= 2 * length s + 1)%nat.
Proof.
  unfold encode_hostname. rewrite length_app. cbn [length]. enough (length (concat (encode_label <$> split_dots s)) <= 2 * length s)%nat by lia.
  induction s as [|c s IH]; cbn [split_dots]; [done|]. destruct (c =? 46); [cbn in *; lia|].
  destruct (split_dots s) as [|l ls]; [cbn; lia|]. cbn [fmap list_fmap concat] in *. rewrite length_app in *. unfold encode_label at 1. unfold encode_label at 1 in IH.
  rewrite bool_decide_eq_false_2 by done. cbn [length]. destruct l; cbn [length] in *; [|rewrite bool_decide_eq_false_2 in IH by done; cbn [length] in IH]; lia.
Qed.

Lemma query_ok id host : bytes host -> Z.of_nat (length host) <= 30000 ->
  bytes (query_packet id host) /\ Z.of_nat (length (query_packet id host)) < 65528.
Proof.
  intros Hb Hl. pose proof (encoded_length host). unfold query_packet. split.
  - unfold DnsHeader.to_bytes. rewrite !Forall_app. split_all; try apply BeFacts.be16_bytes; [by apply encoded_bytes|by rewrite !Forall_cons..].
  - rewrite !length_app. change (length (DnsHeader.to_bytes _)) with 12%nat. cbn [length]. lia.
Qed.

Section Resolve.
Context {D T : Type} `{NicDriver D} `{Timer T}.
Implicit Types s : Resolver.t D T.

Definition resolver_ok s : Prop := net_ok (net s) /\ cache_ok (cache s).

(** The response in the buffer is for transaction [txn] and gives [ip], which is
    now cached. *)
Definition answered (host : list Z) (txn : Z) (ip : list Z) s : Prop :=
  let buf := DNS_RESPONSE (net s) in
  be16_at (DnsResponseBuf.data buf) 0 = Done txn /\
  parse_response (take (Z.to_nat (DnsResponseBuf.len buf)) (DnsResponseBuf.data buf)) = Done (Some ip) /\
  length ip = 4%nat /\ exists now, cached (cache s) (key host) = Some (ip, expiry 300 now).

Lemma clock_tick_ok s : resolver_ok s -> resolver_ok (tick s).1 /\ cache (tick s).1 = cache s /\ txn_counter (tick s).1 = txn_counter s /\
  DNS_RESPONSE (net (tick s).1) = DNS_RESPONSE (net s).
Proof.
  intros [Hn Hc]. unfold tick. pose proof (read_clock_ok _ Hn) as [Hn' _]. unfold read_clock in *. destruct (tick_count (clock (net s))) as [c now]. done.
Qed.

Lemma cache_insert_ok s host ip : resolver_ok s -> exists s' now, cache_insert s host ip 300 = Done s' /\ resolver_ok s' /\ txn_counter s' = txn_counter s /\
  DNS_RESPONSE (net s') = DNS_RESPONSE (net s) /\ cached (cache s') (key host) = Some (ip, expiry 300 now).
Proof.
  intros Hs. unfold cache_insert. pose proof (clock_tick_ok s Hs) as (Ht & Hc & Hx & Hb). destruct (tick s) as [s1 now]. cbn [fst] in *.
  destruct (cache_insert_spec (cache s1) host ip 300 now (proj2 Ht)) as (c' & -> & Hc' & Hk & _). exec_simpl. eexists _, now. split; [done|].
  split; [split; [apply Ht|done]|done].
Qed.

Lemma poll_ok k host txn : forall s, resolver_ok s -> returns (poll k host txn s) (fun r => resolver_ok r.1 /\ txn_counter r.1 = txn_counter s /\
  forall ip, r.2 = Some (Some ip) -> answered host txn ip r.1).
Proof.
  induction k as [|k IH]; intros s Hs; cbn [poll]; [by apply returns_done|]. eapply returns_bind; [apply nic_receive_ok, Hs|]. intros [n b] Hn. cbn [fst] in Hn.
  set (s1 := mk n (cache s) (txn_counter s)). assert (resolver_ok s1) as Hs1 by (split; [done|apply Hs]).
  destruct (DnsResponseBuf.ready _); [|eapply returns_mono; [by apply IH|]; by intros r]. destruct (n_dns _ Hn) as (Hl & Hr & Hb).
  set (buf := DNS_RESPONSE n) in *. set (len := DnsResponseBuf.len buf) in *. set (data := DnsResponseBuf.data buf) in *.
  assert (exists stale, (if 2 <=? len then resp_id ← be16_at data 0; Done (negb (resp_id =? txn)) else Done false) = Done stale /\
    (stale = false -> 2 <= len -> be16_at data 0 = Done txn)) as (stale & -> & Hst).
  { destruct (Z.leb_spec 2 len); [|exists false; split; [done|lia]]. destruct (be16_at_ok data 0 Hb ltac:(lia) ltac:(lia)) as (rid & -> & _). exec_simpl.
    eexists. split; [done|]. by intros ->%negb_false_iff%Z.eqb_eq. }
  exec_simpl. destruct stale; [eapply returns_mono; [by apply IH|]; by intros r|]. specialize (Hst eq_refl).
  assert (slice_get data 0 len = Done (take (Z.to_nat len) data)) as -> by (unfold slice_get; rewrite decide_True by lia; by rewrite Z.sub_0_r).
  exec_simpl. assert (bytes (take (Z.to_nat len) data)) as Hp%parse_ok by (by apply Forall_take). destruct Hp as (r & Hr' & Hip). rewrite Hr'. exec_simpl.
  destruct r as [ip|]; [|by apply returns_done]. destruct (Hip ip eq_refl) as [Hil _].
  destruct (cache_insert_ok s1 host ip Hs1) as (s2 & now & -> & Hs2 & Hx & Hbuf & Hcd). exec_simpl. apply returns_done. cbn [fst snd]. split; [done|]. split; [done|].
  intros ? [= <-]. unfold answered. rewrite Hbuf. cbn [s1 net]. fold buf. fold data len. split_all; [|done|done|by exists now]. apply Hst.
  destruct (Z.le_gt_cases 2 len) as [|Hlt]; [done|]. exfalso. revert Hr'. unfold parse_response.
  assert (length (take (Z.to_nat len) data) <= 1)%nat as Hshort by (rewrite length_take; lia). destruct (take (Z.to_nat len) data) as [|x [|y l]]; [done|done|cbn in Hshort; lia].
Qed.

Lemma clear_buffer_ok (n : Net (D:=D) (T:=T)) : net_ok n -> net_ok (set_DNS_RESPONSE (DnsResponseBuf.mk (DnsResponseBuf.data (DNS_RESPONSE n)) 0 false) n).
Proof. intros [Ht Hl Hi Hp (Hd & _ & Hb)]. by split. Qed.

(** The transaction that the counter stands for after it was advanced. *)
Definition transaction (now : Z) s : Z := Z.lxor (wrap 16 now) (wrap 16 (txn_counter s - 0x4321)).

Lemma attempts_ok host : bytes host -> Z.of_nat (length host) <= 30000 -> forall polls s, resolver_ok s -> in_u 16 (txn_counter s) ->
  returns (attempts polls host s) (fun r => resolver_ok r.1 /\ in_u 16 (txn_counter r.1) /\
    forall ip, r.2 = Some ip -> exists now, answered host (transaction now r.1) ip r.1).
Proof.
  intros Hb Hl. induction polls as [|k polls IH]; intros s Hs Hx; cbn [attempts]; [by apply returns_done|].
  unfold next_txn_id. pose proof (clock_tick_ok s Hs) as (Ht & _ & Htx & _). destruct (tick s) as [s1 now]. cbn [fst] in *. cbn [net cache txn_counter].
  set (x' := wrap 16 (txn_counter s1 + 0x4321)). set (txn := Z.lxor _ _). destruct (query_ok txn host Hb Hl) as [Hqb Hql].
  assert (PacketFacts.sa_ok (SocketAddr.mk GUEST_IP 12345)) as Hsrc by (split; [split; [done|unfold GUEST_IP; cbn; by rewrite !Forall_cons]|done]).
  assert (PacketFacts.sa_ok (SocketAddr.mk DNS_SERVER_IP DNS_SERVER_PORT)) as Hdst by (split; [split; [done|unfold DNS_SERVER_IP; cbn; by rewrite !Forall_cons]|done]).
  eapply returns_bind; [by apply udp_packet_done|].
  assert (in_u 16 x') as Hx' by (apply wrap_range; lia). pose proof (clear_buffer_ok _ (proj1 Ht)) as Hn1.
  intros [packet|] Hp; [|apply returns_done; split; [split; [exact Hn1|apply Ht]|done]]. eapply returns_bind; [apply transmit_ip_ok; [done|by apply Hp]|]. intros n [Hn _].
  eapply returns_bind; [apply (poll_ok _ host txn (mk n (cache s1) x')); split; [done|apply Ht]|]. intros [s2 r] (Hs2 & Hx2 & Ha). cbn [fst snd txn_counter] in *.
  destruct r as [r|]; [|apply IH; [done|by rewrite Hx2]]. apply returns_done. cbn [fst snd]. split; [done|]. split; [by rewrite Hx2|]. intros ip ->. exists now.
  assert (transaction now s2 = txn) as ->; [|by apply Ha]. unfold transaction, txn. rewrite Hx2, Htx. f_equal. unfold x', wrap. rewrite Zminus_mod_idemp_l, Htx.
  rewrite Z.add_simpl_r. by apply Z.mod_small.
Qed.

(** Resolving keeps the state well formed. *)
Lemma resolve_ok host s : resolver_ok s -> in_u 16 (txn_counter s) -> bytes host -> Z.of_nat (length host) <= 30000 ->
  returns (dns_resolve host s) (fun r => resolver_ok r.1 /\ in_u 16 (txn_counter r.1)).
Proof.
  intros Hs Hx Hb Hl. unfold dns_resolve, cache_lookup. pose proof (clock_tick_ok s Hs) as (Ht & Hc & Htx & _). destruct (tick s) as [s1 now]. cbn [fst snd] in *.
  destruct (lookup_spec (cache s1) host now (proj2 Ht)) as (c' & -> & Hc' & _). exec_simpl. rewrite Hc. destruct (live (cache s) host now) as [ip|].
  - apply returns_done. split; [split; [apply Ht|done]|by cbn; rewrite Htx].
  - eapply returns_mono; [apply (attempts_ok host Hb Hl [50000; 100000; 200000] (mk (net s1) c' (txn_counter s1)));
      [split; [apply Ht|done]|by cbn; rewrite Htx]|]. intros r (? & ? & _). done.
Qed.


End Resolve.

Section Witness.

#[local] Instance no_card : NicDriver unit := {
  mac_address _ := [0; 0; 0; 0; 0; 0];
  send_packet d _ := (d, true);
  poll_rx d := (d, None);
  recycle_rx d := d;
}.
#[local] Instance stopped : Timer unit := fun c => (c, 7).

Definition full_cache : DnsCache.t :=
  match DnsCache.insert DnsCache.new example_com [93; 184; 216; 34] 300 5 with Done c => c | _ => DnsCache.new end.


End Witness.
End ResolverSpec.

(** ** HTTP *)
Module HttpSpec.
Import Http.

(** The body is what follows the first empty line. *)
Theorem body_follows_first_blank_line data :
  match find_body data with
  | Some body => exists head, data = head ++ CRLF ++ CRLF ++ body /\
      forall head' body', data = head' ++ CRLF ++ CRLF ++ body' -> (length head <= length head')%nat
  | None => forall head body, data <> head ++ CRLF ++ CRLF ++ body
  end.
Proof.
  induction data as [|a data IH]; [by intros [|? head] body|]. cbn [find_body].
  assert (forall head body, a :: data = head ++ CRLF ++ CRLF ++ body -> (exists head', head = a :: head' /\ data = head' ++ CRLF ++ CRLF ++ body) \/
    (head = [] /\ a :: data = CRLF ++ CRLF ++ body)) as Hsplit.
  { intros [|x head] body E; [by right|]. left. injection E as <- E. by exists head. }
  destruct data as [|b [|c [|d rest]]]; try (intros head body E; destruct (Hsplit head body E) as [(h & _ & E')|[_ E']]; [|done];
    apply (f_equal length) in E'; rewrite !length_app in E'; cbn in E'; lia).
  destruct ((a =? 13) && (b =? 10) && (c =? 13) && (d =? 10)) eqn:Hm.
  - apply andb_true_iff in Hm as [[[->%Z.eqb_eq ->%Z.eqb_eq]%andb_true_iff ->%Z.eqb_eq]%andb_true_iff ->%Z.eqb_eq]. exists []. split; [done|]. cbn. lia.
  - assert (forall body, a :: b :: c :: d :: rest <> CRLF ++ CRLF ++ body) as Hno by (intros body [= -> -> -> -> _]; done).
    destruct (find_body (b :: c :: d :: rest)) as [body|].
    + destruct IH as (head & E & Hmin). exists (a :: head). split; [by rewrite E|]. intros head' body' E'.
      destruct (Hsplit _ _ E') as [(h & -> & Eh)|[_ Eh]]; [|by apply Hno in Eh]. apply Hmin in Eh. cbn. lia.
    + intros head body E. destruct (Hsplit _ _ E) as [(h & _ & Eh)|[_ Eh]]; [by apply IH in Eh|by apply Hno in Eh].
Qed.

(** The status line of any response is read without leaving it. *)
Lemma status_line_returns data : exists r, parse_status_line data = Done r.
Proof.
  unfold parse_status_line. destruct (Z.ltb_spec (Z.of_nat (length data)) 12); [by eexists|]. unfold slice_get. rewrite !decide_True by lia. exec_simpl.
  destruct (negb _); [by eexists|]. destruct (arr_get_in data 8) as (b & -> & _); [lia|]. exec_simpl. destruct (negb _); [by eexists|].
  destruct (parse_digits _) as [code|]; [|by eexists]. destruct (Z.ltb_spec 13 (Z.of_nat (length data))); [|by eexists].
  destruct (arr_get_in data 12) as (b' & -> & _); [lia|]. by eexists.
Qed.

End HttpSpec.
