(* ===== verification/Display.v ===== *)
(** * The display (src/kernel/src/display/)

    Colours, the hardware frame buffer, surfaces, the drawing primitives, text and
    the table of surfaces that programs allocate. The memory of the frame buffer
    is the list of its bytes, from [base] on; messages to the serial console are
    left out. *)

From S2P Require Import Prelude.

(** ** 32-bit signed integers *)
Definition i32 (z : Z) : Z := (z + 2 ^ 31) mod 2 ^ 32 - 2 ^ 31.

(** ** [framebuffer.rs] and [mod.rs]: pixels *)
Module FramebufferInfo.

Record t := mk {
  width : Z;
  height : Z;
  pitch : Z;
  bpp : Z;
  red_shift : Z;
  green_shift : Z;
  blue_shift : Z;
  size : Z;
}.

Definition new (width height pitch bpp red_shift green_shift blue_shift : Z) : t :=
  mk (wrap 32 width) (wrap 32 height) (wrap 32 pitch) bpp red_shift green_shift blue_shift (wrap 64 (pitch * height)).

Definition bytes_per_pixel (fb : t) : Z := bpp fb / 8.

(** [ptr.write_volatile(packed)] for a pointer to four bytes. *)
Definition store32 (mem : list Z) (offset packed : Z) : exec (list Z) := slice_set mem offset (offset + 4) (le_bytes 4 packed).

(** The write that [put_pixel] and [present] guard. *)
Definition write_at (fb : t) (mem : list Z) (offset packed : Z) : exec (list Z) :=
  if offset + 3 <? size fb then store32 mem offset packed else Done mem.

Definition put_pixel (fb : t) (mem : list Z) (x y packed : Z) : exec (list Z) :=
  if (width fb <=? x) || (height fb <=? y) then Done mem
  else write_at fb mem (y * pitch fb + x * bytes_per_pixel fb) packed.

Definition get_pixel (fb : t) (mem : list Z) (x y : Z) : exec Z :=
  if (width fb <=? x) || (height fb <=? y) then Done 0
  else
    let offset := y * pitch fb + x * bytes_per_pixel fb in
    if offset + 3 <? size fb then bs ← slice_get mem offset (offset + 4); Done (le_value bs) else Done 0.

End FramebufferInfo.

Module Color.

Record t := mk { r : Z; g : Z; b : Z }.

Definition to_packed (fb : FramebufferInfo.t) (c : t) : Z :=
  Z.lor (Z.lor (wrap 32 (Z.shiftl (r c) (FramebufferInfo.red_shift fb))) (wrap 32 (Z.shiftl (g c) (FramebufferInfo.green_shift fb))))
        (wrap 32 (Z.shiftl (b c) (FramebufferInfo.blue_shift fb))).

Definition BLACK : t := mk 0 0 0.
Definition WHITE : t := mk 255 255 255.
Definition GREEN : t := mk 0 255 0.
Definition GRAY : t := mk 128 128 128.

End Color.

(** ** [compositor.rs]: surfaces *)
Module Surface.

Record t := mk { buffer : list Z; width : Z; height : Z; dirty : bool }.

(** An allocation that fails stops the kernel; it is taken to succeed. *)
Definition new (width height : Z) : option t :=
  let len := width * height in
  if len =? 0 then None else Some (mk (replicate (Z.to_nat len) 0) width height false).

Definition pixel (s : t) (x y packed : Z) : exec t :=
  if (x <? width s) && (y <? height s) then
    buffer' ← arr_set (buffer s) (y * width s + x) packed;
    Done (mk buffer' (width s) (height s) true)
  else Done s.

Definition get_pixel (s : t) (x y : Z) : exec Z :=
  if (x <? width s) && (y <? height s) then arr_get (buffer s) (y * width s + x) else Done 0.

Definition clear (s : t) (packed : Z) : t := mk ((fun _ => packed) <$> buffer s) (width s) (height s) true.

Definition size_bytes (s : t) : Z := Z.of_nat (length (buffer s)) * 4.

End Surface.

(** A loop [for i in a..b] whose body may stop the kernel. *)
Fixpoint each {A} (body : A -> Z -> exec A) (is_ : list Z) (a : A) : exec A :=
  match is_ with
  | [] => Done a
  | i :: is_ => a ← body a i; each body is_ a
  end.

Definition range (a b : Z) : list Z := seqZ a (b - a).

(** [present]: the memory of the frame buffer afterwards. *)
Definition present (surface : Surface.t) (fb : FramebufferInfo.t) (mem : list Z) : exec (list Z) :=
  let w := Z.min (Surface.width surface) (FramebufferInfo.width fb) in
  let h := Z.min (Surface.height surface) (FramebufferInfo.height fb) in
  each (fun mem y =>
    each (fun mem x =>
      packed ← arr_get (Surface.buffer surface) (y * Surface.width surface + x);
      FramebufferInfo.write_at fb mem (y * FramebufferInfo.pitch fb + x * FramebufferInfo.bytes_per_pixel fb) packed)
    (range 0 w) mem)
  (range 0 h) mem.

(** ** [drawing.rs] *)
Module Drawing.
Import Surface.

Definition draw_rect (s : t) (x y w h packed : Z) : exec t :=
  if (w =? 0) || (h =? 0) then Done s
  else
    s ← each (fun s dx =>
          s ← pixel s (u32_add x dx) y packed;
          pixel s (u32_add x dx) (wrap 32 (u32_add y h - 1)) packed) (range 0 w) s;
    each (fun s dy =>
      s ← pixel s x (u32_add y dy) packed;
      pixel s (wrap 32 (u32_add x w - 1)) (u32_add y dy) packed) (range 1 (sat_sub h 1)) s.

Definition draw_filled_rect (s : t) (x y w h packed : Z) : exec t :=
  each (fun s dy => each (fun s dx => pixel s (u32_add x dx) (u32_add y dy) packed) (range 0 w) s) (range 0 h) s.

(** Bresenham's algorithm; [fuel] bounds the rounds of [loop]. *)
Fixpoint line_loop (fuel : nat) (s : t) (x y x1 y1 dx dy sx sy err packed : Z) : exec t :=
  s ← (if (0 <=? x) && (0 <=? y) then pixel s x y packed else Done s);
  if (x =? x1) && (y =? y1) then Done s
  else
    match fuel with
    | O => Diverged
    | S fuel' =>
        let e2 := i32 (2 * err) in
        if (dy <=? e2) && (x =? x1) then Done s
        else
          let '(x, err) := if dy <=? e2 then (i32 (x + sx), i32 (err + dy)) else (x, err) in
          if (e2 <=? dx) && (y =? y1) then Done s
          else
            let '(y, err) := if e2 <=? dx then (i32 (y + sy), i32 (err + dx)) else (y, err) in
            line_loop fuel' s x y x1 y1 dx dy sx sy err packed
    end.

Definition draw_line (s : t) (x0 y0 x1 y1 packed : Z) : exec t :=
  let dx := i32 (Z.abs (i32 (x1 - x0))) in
  let dy := i32 (- i32 (Z.abs (i32 (y1 - y0)))) in
  let sx := if x0 <? x1 then 1 else -1 in
  let sy := if y0 <? y1 then 1 else -1 in
  line_loop (Z.to_nat (Z.abs (x1 - x0) + Z.abs (y1 - y0) + 1)) s x0 y0 x1 y1 dx dy sx sy (i32 (dx + dy)) packed.

Definition blit (s : t) (src : list Z) (src_width src_height dst_x dst_y : Z) : exec t :=
  each (fun s row =>
    each (fun s col =>
      let src_idx := u32_add (wrap 32 (row * src_width)) col in
      if src_idx <? Z.of_nat (length src) then
        p ← arr_get src src_idx;
        pixel s (u32_add dst_x col) (u32_add dst_y row) p
      else Done s)
    (range 0 src_width) s)
  (range 0 src_height) s.

End Drawing.

(** ** [text.rs] *)
Module Text.
Import Surface.

Definition FONT_WIDTH : Z := 8.
Definition FONT_HEIGHT : Z := 16.

(** Each glyph as one number: sixteen rows of eight pixels, the first row in the
    highest byte. *)
Definition GLYPHS : list Z :=
  [0x00000000000000000000000000000000; 0x0000183C3C3C18181800181800000000; 0x00666666240000000000000000000000;
   0x0000006C6CFE6C6C6CFE6C6C00000000; 0x18187CC6C2C07C060686C67C18180000; 0x00000000C2C60C183060C68600000000;
   0x0000386C6C3876DCCCCCCC7600000000; 0x00303030600000000000000000000000; 0x00000C18303030303030180C00000000;
   0x000030180C0C0C0C0C0C183000000000; 0x0000000000663CFF3C66000000000000; 0x000000000018187E1818000000000000;
   0x00000000000000000018181830000000; 0x00000000000000FE0000000000000000; 0x00000000000000000000181800000000;
   0x0000000002060C183060C08000000000; 0x0000386CC6C6D6D6C6C66C3800000000; 0x00001838781818181818187E00000000;
   0x00007CC6060C183060C0C6FE00000000; 0x00007CC606063C060606C67C00000000; 0x00000C1C3C6CCCFE0C0C0C1E00000000;
   0x0000FEC0C0C0FC060606C67C00000000; 0x00003860C0C0FCC6C6C6C67C00000000; 0x0000FEC606060C183030303000000000;
   0x00007CC6C6C67CC6C6C6C67C00000000; 0x00007CC6C6C67E0606060C7800000000; 0x00000000181800000018180000000000;
   0x00000000181800000018183000000000; 0x000000060C18306030180C0600000000; 0x00000000007E00007E00000000000000;
   0x0000006030180C060C18306000000000; 0x00007CC6C60C18181800181800000000; 0x0000007CC6C6DEDEDEDCC07C00000000;
   0x000010386CC6C6FEC6C6C6C600000000; 0x0000FC6666667C66666666FC00000000; 0x00003C66C2C0C0C0C0C2663C00000000;
   0x0000F86C6666666666666CF800000000; 0x0000FE6662687868606266FE00000000; 0x0000FE6662687868606060F000000000;
   0x00003C66C2C0C0DEC6C6663A00000000; 0x0000C6C6C6C6FEC6C6C6C6C600000000; 0x00003C18181818181818183C00000000;
   0x00001E0C0C0C0C0CCCCCCC7800000000; 0x0000E666666C78786C6666E600000000; 0x0000F06060606060606266FE00000000;
   0x0000C6EEFEFED6C6C6C6C6C600000000; 0x0000C6E6F6FEDECEC6C6C6C600000000; 0x00007CC6C6C6C6C6C6C6C67C00000000;
   0x0000FC6666667C60606060F000000000; 0x00007CC6C6C6C6C6C6D6DE7C0C0E0000; 0x0000FC6666667C6C666666E600000000;
   0x00007CC6C660380C06C6C67C00000000; 0x0000FFDB991818181818183C00000000; 0x0000C6C6C6C6C6C6C6C6C67C00000000;
   0x0000C6C6C6C6C6C6C66C381000000000; 0x0000C6C6C6C6D6D6D6FEEE6C00000000; 0x0000C6C66C7C38387C6CC6C600000000;
   0x0000C6C6C66C38181818183C00000000; 0x0000FEC6860C183060C2C6FE00000000; 0x00003C30303030303030303C00000000;
   0x00000080C0E070381C0E060200000000; 0x00003C0C0C0C0C0C0C0C0C3C00000000; 0x10386CC6000000000000000000000000;
   0x00000000000000000000000000FF0000; 0x30301800000000000000000000000000; 0x0000000000780C7CCCCCCC7600000000;
   0x0000E06060786C666666667C00000000; 0x00000000007CC6C0C0C0C67C00000000; 0x00001C0C0C3C6CCCCCCCCC7600000000;
   0x00000000007CC6FEC0C0C67C00000000; 0x00001C36323078303030307800000000; 0x000000000076CCCCCCCCCC7C0CCC7800;
   0x0000E060606C7666666666E600000000; 0x00001818003818181818183C00000000; 0x00000606000E06060606060666663C00;
   0x0000E06060666C78786C66E600000000; 0x00003818181818181818183C00000000; 0x0000000000ECFED6D6D6D6C600000000;
   0x0000000000DC66666666666600000000; 0x00000000007CC6C6C6C6C67C00000000; 0x0000000000DC66666666667C6060F000;
   0x000000000076CCCCCCCCCC7C0C0C1E00; 0x0000000000DC7666606060F000000000; 0x00000000007CC660380CC67C00000000;
   0x0000103030FC30303030361C00000000; 0x0000000000CCCCCCCCCCCC7600000000; 0x0000000000C6C6C6C6C66C3800000000;
   0x0000000000C6C6D6D6D6FE6C00000000; 0x0000000000C66C3838386CC600000000; 0x0000000000C6C6C6C6C6C67E060CF800;
   0x0000000000FECC183060C6FE00000000; 0x00000E18181870181818180E00000000; 0x00001818181800181818181800000000;
   0x0000701818180E181818187000000000; 0x000076DC000000000000000000000000].

Definition rows (glyph : Z) : list Z := reverse (le_bytes 16 glyph).
Definition FONT_DATA : list Z := concat (rows <$> GLYPHS).

Definition glyph_offset (ch : Z) : Z :=
  let code := wrap 8 ch in
  let glyph_idx := if (0x20 <=? code) && (code <=? 0x7E) then code - 0x20 else 0 in
  glyph_idx * FONT_HEIGHT.

(** The colour of a pixel of a row of a glyph. *)
Definition glyph_color (byte col fg bg : Z) : Z := if negb (Z.land (Z.shiftr byte (7 - col)) 1 =? 0) then fg else bg.

Definition draw_char (s : t) (x y ch fg bg : Z) : exec t :=
  each (fun s row =>
    byte ← arr_get FONT_DATA (glyph_offset ch + row);
    each (fun s col => pixel s (u32_add x col) (u32_add y row) (glyph_color byte col fg bg)) (range 0 FONT_WIDTH) s)
  (range 0 FONT_HEIGHT) s.

Fixpoint draw_string (s : t) (cx y : Z) (chars : list Z) (fg bg : Z) : exec t :=
  match chars with
  | [] => Done s
  | ch :: chars =>
      if ch =? 10 then draw_string s cx y chars fg bg
      else
        s ← draw_char s cx y ch fg bg;
        draw_string s (u32_add cx FONT_WIDTH) y chars fg bg
  end.

End Text.

(** ** [mod.rs]: the surfaces of programs *)
Module SurfaceTable.

Definition MAX_SURFACES : Z := 8.

Definition t : Type := list (option Surface.t).

Definition new : t := replicate 8 None.

Fixpoint alloc_loop (slots : t) (i width height : Z) : t * option Z :=
  match slots with
  | [] => ([], None)
  | None :: slots =>
      match Surface.new width height with
      | Some surface => (Some surface :: slots, Some i)
      | None => (None :: slots, None)
      end
  | Some s :: slots => let '(slots, r) := alloc_loop slots (i + 1) width height in (Some s :: slots, r)
  end.

Definition alloc (slots : t) (width height : Z) : t * option Z := alloc_loop slots 0 width height.

Definition get (slots : t) (id : Z) : option Surface.t := match slots !! Z.to_nat id with Some o => o | None => None end.

End SurfaceTable.

(** [DisplayState]: the frame buffer, its memory and the back buffer. *)
Record DisplayState := mkDisplay { fb : FramebufferInfo.t; memory : list Z; surface : Surface.t }.
