(* ===== verification/Windows.v ===== *)
(** * Windows and the keyboard (src/kernel/src/wm/, src/kernel/src/keyboard/)

    The event queue of a window ([wm/event.rs]), the window table ([wm/mod.rs]),
    the compositor ([wm/compositor.rs]) and the keyboard's buffer and interrupt
    handler ([keyboard/mod.rs]). A title is its bytes, with its characters where
    the source iterates over them. *)

From S2P Require Import Prelude Display.

(** ** UTF-8, as [core::str::from_utf8] and [chars] read it *)
Module Utf8.

Definition within (a b x : Z) : bool := (a <=? x) && (x <=? b).
Definition cont : Z -> bool := within 0x80 0xBF.

Definition point2 (a b : Z) : Z := Z.lor (Z.shiftl (Z.land a 0x1F) 6) (Z.land b 0x3F).
Definition point3 (a b c : Z) : Z := Z.lor (Z.shiftl (Z.land a 0x0F) 12) (Z.lor (Z.shiftl (Z.land b 0x3F) 6) (Z.land c 0x3F)).
Definition point4 (a b c d : Z) : Z :=
  Z.lor (Z.shiftl (Z.land a 0x07) 18) (Z.lor (Z.shiftl (Z.land b 0x3F) 12) (Z.lor (Z.shiftl (Z.land c 0x3F) 6) (Z.land d 0x3F))).

(** The second byte that may follow the first. *)
Definition second3 (a : Z) : Z -> bool :=
  if a =? 0xE0 then within 0xA0 0xBF else if a =? 0xED then within 0x80 0x9F else cont.
Definition second4 (a : Z) : Z -> bool :=
  if a =? 0xF0 then within 0x90 0xBF else if a =? 0xF4 then within 0x80 0x8F else cont.

(** The characters, or [None] if the bytes are not valid. *)
Fixpoint decode (bs : list Z) : option (list Z) :=
  match bs with
  | [] => Some []
  | a :: bs1 =>
      if a <? 0x80 then cons a <$> decode bs1
      else if within 0xC2 0xDF a then
        match bs1 with
        | b :: bs2 => if cont b then cons (point2 a b) <$> decode bs2 else None
        | _ => None
        end
      else if within 0xE0 0xEF a then
        match bs1 with
        | b :: c :: bs3 => if second3 a b && cont c then cons (point3 a b c) <$> decode bs3 else None
        | _ => None
        end
      else if within 0xF0 0xF4 a then
        match bs1 with
        | b :: c :: d :: bs4 => if second4 a b && cont c && cont d then cons (point4 a b c d) <$> decode bs4 else None
        | _ => None
        end
      else None
  end.

Definition chars (s : list Z) : list Z := default [] (decode s).

End Utf8.

(** ** Ring buffers of 64 slots *)
Module KeyRing.
Section Ring.
Context {A : Type}.

Definition BUFFER_SIZE : Z := 64.

Record t := mk { buf : list A; read_idx : Z; write_idx : Z }.

Definition push (q : t) (a : A) : exec t :=
  let next_write := (write_idx q + 1) mod BUFFER_SIZE in
  if negb (next_write =? read_idx q) then
    buf' ← arr_set (buf q) (write_idx q) a;
    Done (mk buf' (read_idx q) next_write)
  else Done q.

(** [erase] is what is left in the slot. *)
Definition pop (erase : A -> A) (q : t) : exec (t * option A) :=
  if read_idx q =? write_idx q then Done (q, None)
  else
    a ← arr_get (buf q) (read_idx q);
    buf' ← arr_set (buf q) (read_idx q) (erase a);
    Done (mk buf' ((read_idx q + 1) mod BUFFER_SIZE) (write_idx q), Some a).

Definition is_empty (q : t) : bool := read_idx q =? write_idx q.

Definition len (q : t) : Z :=
  if read_idx q <=? write_idx q then write_idx q - read_idx q else BUFFER_SIZE - read_idx q + write_idx q.

End Ring.
Arguments t : clear implicits.
End KeyRing.

(** ** [wm/event.rs] *)
Module WmEvent.

Inductive t := KeyPress (code : Z) | KeyRelease (code : Z) | WindowClose | WindowFocus | WindowBlur.

Definition to_bytes (e : t) : list Z :=
  match e with
  | KeyPress c => [1; c; 0; 0]
  | KeyRelease c => [2; c; 0; 0]
  | WindowClose => [3; 0; 0; 0]
  | WindowFocus => [4; 0; 0; 0]
  | WindowBlur => [5; 0; 0; 0]
  end.

End WmEvent.

Module WmEventQueue.

Definition t : Type := KeyRing.t (option WmEvent.t).

Definition new : t := KeyRing.mk (replicate 64 None) 0 0.
Definition push (q : t) (e : WmEvent.t) : exec t := KeyRing.push q (Some e).

(** [take()] leaves [None] in the slot. *)
Definition pop (q : t) : exec (t * option WmEvent.t) :=
  '(q, r) ← KeyRing.pop (fun _ => None) q;
  Done (q, match r with Some e => e | None => None end).

End WmEventQueue.

(** ** [wm/mod.rs] *)
Module Window.

Record t := mk {
  id : Z;
  owner_pid : Z;
  title : list Z;
  x : Z;
  y : Z;
  width : Z;
  height : Z;
  z_order : Z;
  visible : bool;
  focused : bool;
  decorated : bool;
  surface : Surface.t;
  event_queue : WmEventQueue.t;
}.

Definition eta (w : t) : t :=
  mk (id w) (owner_pid w) (title w) (x w) (y w) (width w) (height w) (z_order w) (visible w) (focused w) (decorated w) (surface w) (event_queue w).

Definition set_z_order (v : Z) (w : t) : t := ltac:(set_field eta z_order v w).
Definition set_focused (v : bool) (w : t) : t := ltac:(set_field eta focused v w).
Definition set_surface (v : Surface.t) (w : t) : t := ltac:(set_field eta surface v w).
Definition set_event_queue (v : WmEventQueue.t) (w : t) : t := ltac:(set_field eta event_queue v w).
Definition set_position (vx vy : Z) (w : t) : t :=
  mk (id w) (owner_pid w) (title w) vx vy (width w) (height w) (z_order w) (visible w) (focused w) (decorated w) (surface w) (event_queue w).
Definition set_size (s : Surface.t) (vw vh : Z) (w : t) : t :=
  mk (id w) (owner_pid w) (title w) (x w) (y w) vw vh (z_order w) (visible w) (focused w) (decorated w) s (event_queue w).

Definition send (e : WmEvent.t) (w : t) : exec t :=
  q ← WmEventQueue.push (event_queue w) e;
  Done (set_event_queue q w).

End Window.

Module WindowTable.
Import Window.

Definition MAX_WINDOWS : Z := 32.

Record t := mk { slots : list (option Window.t); next_id : Z; focused_id : option Z }.

Definition new : t := mk (replicate 32 None) 1 None.

(** The windows, in the order of their slots. *)
Definition windows (wt : t) : list Window.t := omap (fun o => o) (slots wt).

Fixpoint first_free (l : list (option Window.t)) : option nat :=
  match l with
  | [] => None
  | None :: _ => Some O
  | Some _ :: l' => S <$> first_free l'
  end.

(** [max().unwrap_or(0)] and [min().unwrap_or(1)] of the z-orders. *)
Definition max_z (wt : t) : Z :=
  match z_order <$> windows wt with [] => 0 | z :: zs => foldl Z.max z zs end.
Definition min_z (wt : t) : Z :=
  match z_order <$> windows wt with [] => 1 | z :: zs => foldl Z.min z zs end.

Definition create (wt : t) (owner_pid : Z) (title : list Z) (x y width height : Z) : t * option Z :=
  match first_free (slots wt) with
  | None => (wt, None)
  | Some slot_idx =>
      match Surface.new width height with
      | None => (wt, None)
      | Some surface =>
          let id := next_id wt in
          let window := Window.mk id owner_pid title x y width height (u32_add (max_z wt) 1) true false true surface WmEventQueue.new in
          (mk (<[slot_idx := Some window]> (slots wt)) (u32_add (next_id wt) 1) (focused_id wt), Some id)
      end
  end.

(** The first slot whose window has the identifier. *)
Fixpoint find_slot (id : Z) (l : list (option Window.t)) : option (nat * Window.t) :=
  match l with
  | [] => None
  | o :: l' =>
      match o with
      | Some w => if Window.id w =? id then Some (O, w) else (fun p => (S p.1, p.2)) <$> find_slot id l'
      | None => (fun p => (S p.1, p.2)) <$> find_slot id l'
      end
  end.

Definition get (wt : t) (id : Z) : option Window.t := snd <$> find_slot id (slots wt).

(** Work on a window through [get_mut]. *)
Definition update (wt : t) (id : Z) (f : Window.t -> exec Window.t) : exec t :=
  match find_slot id (slots wt) with
  | None => Done wt
  | Some (i, w) => w ← f w; Done (mk (<[i := Some w]> (slots wt)) (next_id wt) (focused_id wt))
  end.

Definition destroy (wt : t) (id : Z) : t * bool :=
  match find_slot id (slots wt) with
  | None => (wt, false)
  | Some (i, _) =>
      (mk (<[i := None]> (slots wt)) (next_id wt) (if bool_decide (focused_id wt = Some id) then None else focused_id wt), true)
  end.

Definition raise_to_front (wt : t) (id : Z) : exec t :=
  let z := max_z wt in
  update wt id (fun w => Done (set_z_order (u32_add z 1) w)).

Definition lower_to_back (wt : t) (id : Z) : exec t :=
  let z := min_z wt in
  update wt id (fun w => Done (set_z_order (if 0 <? z then z - 1 else 0) w)).

Definition set_focus (wt : t) (id : Z) : exec t :=
  wt ← (match focused_id wt with
        | Some old_id =>
            if negb (old_id =? id) then update wt old_id (fun w => send WmEvent.WindowBlur (set_focused false w)) else Done wt
        | None => Done wt
        end);
  wt ← raise_to_front wt id;
  wt ← update wt id (fun w => send WmEvent.WindowFocus (set_focused true w));
  Done (mk (slots wt) (next_id wt) (Some id)).

(** [sort_by_key], a stable sort. *)
Fixpoint insert_by (p : Z * Z) (l : list (Z * Z)) : list (Z * Z) :=
  match l with
  | [] => [p]
  | q :: l' => if p.1 <? q.1 then p :: l else q :: insert_by p l'
  end.

Definition sort_by_key (l : list (Z * Z)) : list (Z * Z) := foldl (fun acc p => insert_by p acc) [] l.

Definition shown (wt : t) : list Window.t := List.filter visible (windows wt).

Definition position (id : Z) (ids : list Z) : option nat := fst <$> list_find (fun i => i = id) ids.

Definition cycle_focus (wt : t) : exec t :=
  let ids := snd <$> sort_by_key ((fun w => (Window.id w, Window.id w)) <$> shown wt) in
  match ids with
  | [] => Done wt
  | _ =>
      let current_idx := match focused_id wt with Some fid => position fid ids | None => None end in
      let next_idx := match current_idx with Some idx => Z.of_nat (idx + 1) mod Z.of_nat (length ids) | None => 0 end in
      id ← arr_get ids next_idx;
      set_focus wt id
  end.

(** Bottom to top. *)
Definition sorted_by_z (wt : t) : list Z := snd <$> sort_by_key ((fun w => (z_order w, Window.id w)) <$> shown wt).

Definition count (wt : t) : Z := Z.of_nat (length (windows wt)).

Definition windows_for_pid (wt : t) (pid : Z) : list Z := Window.id <$> List.filter (fun w => owner_pid w =? pid) (windows wt).

End WindowTable.

(** ** [wm/compositor.rs] *)
Module WmCompositor.
Import Text.

Definition TITLE_BAR_HEIGHT : Z := 24.
Definition CLOSE_BUTTON_SIZE : Z := 20.
Definition TASKBAR_HEIGHT : Z := 32.
Definition DESKTOP_BG : Color.t := Color.mk 0x2E 0x34 0x40.
Definition TITLE_FOCUSED : Color.t := Color.mk 0x3B 0x4C 0x68.
Definition TITLE_UNFOCUSED : Color.t := Color.mk 0x55 0x55 0x55.
Definition CLOSE_BG : Color.t := Color.mk 0xC0 0x39 0x2B.
Definition TASKBAR_BG : Color.t := Color.mk 0x1A 0x1A 0x2E.

Definition set_clipped (s : Surface.t) (x y packed : Z) : exec Surface.t :=
  if (0 <=? x) && (0 <=? y) && (x <? Surface.width s) && (y <? Surface.height s) then Surface.pixel s x y packed else Done s.

Definition draw_clipped_filled_rect (s : Surface.t) (x y w h packed : Z) : exec Surface.t :=
  each (fun s dy => each (fun s dx => set_clipped s (i32 (x + dx)) (i32 (y + dy)) packed) (range 0 (i32 w)) s) (range 0 (i32 h)) s.

Definition draw_clipped_char (s : Surface.t) (x y ch fg bg : Z) : exec Surface.t :=
  each (fun s row =>
    byte ← arr_get FONT_DATA (glyph_offset ch + row);
    each (fun s col => set_clipped s (i32 (x + col)) (i32 (y + row)) (glyph_color byte col fg bg)) (range 0 FONT_WIDTH) s)
  (range 0 FONT_HEIGHT) s.

Fixpoint draw_clipped_string (s : Surface.t) (cx y : Z) (chars : list Z) (fg bg : Z) : exec Surface.t :=
  match chars with
  | [] => Done s
  | ch :: chars =>
      if ch =? 10 then draw_clipped_string s cx y chars fg bg
      else
        s ← draw_clipped_char s cx y ch fg bg;
        draw_clipped_string s (i32 (cx + FONT_WIDTH)) y chars fg bg
  end.

Definition blit_surface_clipped (dst src : Surface.t) (dst_x dst_y : Z) : exec Surface.t :=
  each (fun dst row =>
    each (fun dst col =>
      px ← Surface.get_pixel src col row;
      set_clipped dst (i32 (dst_x + col)) (i32 (dst_y + row)) px)
    (range 0 (i32 (Surface.width src))) dst)
  (range 0 (i32 (Surface.height src))) dst.

(** The 1-pixel border around the title bar and the client area. *)
Definition draw_border (s : Surface.t) (x y w total_h packed : Z) : exec Surface.t :=
  s ← each (fun s dx => set_clipped s (i32 (x + dx)) y packed) (range 0 (i32 w)) s;
  s ← each (fun s dx => set_clipped s (i32 (x + dx)) (i32 (i32 (y + i32 total_h) - 1)) packed) (range 0 (i32 w)) s;
  s ← each (fun s dy => set_clipped s x (i32 (y + dy)) packed) (range 0 (i32 total_h)) s;
  each (fun s dy => set_clipped s (i32 (i32 (x + i32 w) - 1)) (i32 (y + dy)) packed) (range 0 (i32 total_h)) s.

Definition draw_window (compose : Surface.t) (window : Window.t) (fb : FramebufferInfo.t) : exec Surface.t :=
  let x := Window.x window in
  let y := Window.y window in
  let w := Window.width window in
  let h := Window.height window in
  if Window.decorated window then
    let title_packed := Color.to_packed fb (if Window.focused window then TITLE_FOCUSED else TITLE_UNFOCUSED) in
    let white := Color.to_packed fb Color.WHITE in
    let close_packed := Color.to_packed fb CLOSE_BG in
    let close_x := i32 (i32 (i32 (x + i32 w) - CLOSE_BUTTON_SIZE) - 2) in
    let close_y := i32 (y + 2) in
    let border_color := Color.to_packed fb (if Window.focused window then Color.WHITE else Color.GRAY) in
    s ← draw_clipped_filled_rect compose x y w TITLE_BAR_HEIGHT title_packed;
    s ← draw_clipped_string s (i32 (x + 4)) (i32 (y + (TITLE_BAR_HEIGHT - FONT_HEIGHT) / 2)) (Utf8.chars (Window.title window)) white title_packed;
    s ← draw_clipped_filled_rect s close_x close_y CLOSE_BUTTON_SIZE CLOSE_BUTTON_SIZE close_packed;
    s ← draw_clipped_char s (i32 (close_x + (CLOSE_BUTTON_SIZE - FONT_WIDTH) / 2)) (i32 (close_y + (CLOSE_BUTTON_SIZE - FONT_HEIGHT) / 2)) 88 white close_packed;
    s ← draw_border s x y w (u32_add TITLE_BAR_HEIGHT h) border_color;
    blit_surface_clipped s (Window.surface window) x (i32 (y + TITLE_BAR_HEIGHT))
  else blit_surface_clipped compose (Window.surface window) x y.

(** The entry of one window in the taskbar, from [tx] on. *)
Definition draw_entry (fb : FramebufferInfo.t) (focused_id : option Z) (taskbar_y : Z) (st : Surface.t * Z) (win : Window.t) : exec (Surface.t * Z) :=
  let '(s, tx) := st in
  let text_y := i32 (taskbar_y + (TASKBAR_HEIGHT - FONT_HEIGHT) / 2) in
  let taskbar_packed := Color.to_packed fb TASKBAR_BG in
  let current := bool_decide (focused_id = Some (Window.id win)) in
  let '(fg, bg) :=
    if current then (Color.to_packed fb Color.WHITE, Color.to_packed fb (Color.mk 0x3B 0x4C 0x68))
    else (Color.to_packed fb Color.GRAY, taskbar_packed) in
  let len := Z.of_nat (length (Window.title win)) in
  s ← (if current then
         let title_pixel_w := wrap 32 (u32_add (wrap 32 len) 2 * FONT_WIDTH) in
         draw_clipped_filled_rect s (i32 (tx - 4)) (i32 (taskbar_y + 2)) (u32_add title_pixel_w 8) (TASKBAR_HEIGHT - 4) bg
       else Done s);
  s ← draw_clipped_char s tx text_y 32 fg bg;
  let tx := i32 (tx + FONT_WIDTH) in
  s ← draw_clipped_string s tx text_y (Utf8.chars (Window.title win)) fg bg;
  let tx := i32 (tx + i32 (i32 len * FONT_WIDTH)) in
  s ← draw_clipped_char s tx text_y 32 fg bg;
  Done (s, i32 (tx + (FONT_WIDTH + 8))).

(** The loop over the sorted identifiers, each looked up again. *)
Fixpoint for_windows {A} (wt : WindowTable.t) (body : A -> Window.t -> exec A) (ids : list Z) (a : A) : exec A :=
  match ids with
  | [] => Done a
  | wid :: ids =>
      a ← (match WindowTable.get wt wid with Some win => body a win | None => Done a end);
      for_windows wt body ids a
  end.

Definition draw_taskbar (compose : Surface.t) (fb : FramebufferInfo.t) (wt : WindowTable.t) : exec Surface.t :=
  let taskbar_y := i32 (i32 (Surface.height compose) - TASKBAR_HEIGHT) in
  s ← draw_clipped_filled_rect compose 0 taskbar_y (Surface.width compose) TASKBAR_HEIGHT (Color.to_packed fb TASKBAR_BG);
  '(s, _) ← for_windows wt (draw_entry fb (WindowTable.focused_id wt) taskbar_y) (WindowTable.sorted_by_z wt) (s, 8);
  Done s.

(** The back buffer that [compose_and_present] and [compose_with_surface] make. *)
Definition compose (surface : Surface.t) (fb : FramebufferInfo.t) (wt : WindowTable.t) : exec Surface.t :=
  let s := Surface.clear surface (Color.to_packed fb DESKTOP_BG) in
  s ← for_windows wt (fun s win => draw_window s win fb) (WindowTable.sorted_by_z wt) s;
  draw_taskbar s fb wt.

Definition compose_and_present (display : option DisplayState) (wt : WindowTable.t) : exec (option DisplayState) :=
  match display with
  | None => Done None
  | Some ds =>
      s ← compose (surface ds) (fb ds) wt;
      mem ← present s (fb ds) (memory ds);
      Done (Some (mkDisplay (fb ds) mem s))
  end.

End WmCompositor.

(** ** [keyboard/mod.rs] *)
Module Keyboard.

Definition KeyboardBuffer : Type := KeyRing.t Z.

Definition new : KeyboardBuffer := KeyRing.mk (replicate 64 0) 0 0.
Definition push (q : KeyboardBuffer) (ch : Z) : exec KeyboardBuffer := KeyRing.push q ch.
Definition pop (q : KeyboardBuffer) : exec (KeyboardBuffer * option Z) := KeyRing.pop (fun ch => ch) q.

(** Rows of eight scan codes; the codes from 0x40 on have no character. *)
Definition SCANCODE_TABLE : list Z :=
  [0; 27] ++ str_bytes "1234567890-=" ++ [8; 9] ++ str_bytes "qwertyuiop[]" ++ [10; 0] ++ str_bytes "asdfghjkl;'`" ++
  [0; 92] ++ str_bytes "zxcvbnm,./" ++ [0; 42; 0; 32] ++ replicate 70 0.

Definition ALT_MAKE : Z := 0x38.
Definition ALT_BREAK : Z := 0xB8.
Definition TAB_MAKE : Z := 0x0F.
Definition F4_MAKE : Z := 0x3E.

(** The statics the handler works on. *)
Record t := mk { table : WindowTable.t; buffer : KeyboardBuffer; alt_held : bool }.

(** Whether [try_lock] on the window table and on the buffer succeeds is decided
    by what was interrupted. *)
Record Contention := mkContention { table_free : bool; buffer_free : bool }.

Definition to_focused (e : WmEvent.t) (wt : WindowTable.t) : exec WindowTable.t :=
  match WindowTable.focused_id wt with
  | Some fid => WindowTable.update wt fid (Window.send e)
  | None => Done wt
  end.

(** The window that would take the key. *)
Definition receiver (wt : WindowTable.t) : option Window.t :=
  match WindowTable.focused_id wt with Some fid => WindowTable.get wt fid | None => None end.

Definition keyboard_irq_handler (c : Contention) (scancode : Z) (k : t) : exec t :=
  if scancode =? ALT_MAKE then Done (mk (table k) (buffer k) true)
  else if scancode =? ALT_BREAK then Done (mk (table k) (buffer k) false)
  else
    let is_break := negb (Z.land scancode 0x80 =? 0) in
    let make_code := Z.land scancode 0x7F in
    if alt_held k && negb is_break && (make_code =? TAB_MAKE) then
      if table_free c then wt ← WindowTable.cycle_focus (table k); Done (mk wt (buffer k) (alt_held k)) else Done k
    else if alt_held k && negb is_break && (make_code =? F4_MAKE) then
      if table_free c then wt ← to_focused WmEvent.WindowClose (table k); Done (mk wt (buffer k) (alt_held k)) else Done k
    else if table_free c && bool_decide (is_Some (receiver (table k))) then
      wt ← to_focused (if negb is_break then WmEvent.KeyPress make_code else WmEvent.KeyRelease make_code) (table k);
      Done (mk wt (buffer k) (alt_held k))
    else
      ascii ← arr_get SCANCODE_TABLE make_code;
      if negb is_break && negb (ascii =? 0) && buffer_free c then
        b ← push (buffer k) ascii;
        Done (mk (table k) b (alt_held k))
      else Done k.

End Keyboard.
