(* ===== verification/WindowSpec.v ===== *)
(** * Painting, rings and the window table

    Drawing on a surface as layers: a layer gives the colour of the pixels it
    covers, and drawing puts it over what was there. Loops over pixels are
    pictures: rectangles with a colour for each of their points. The rings of 64
    slots hold queues of at most 63 elements; the window table keeps its windows
    apart, drawable and in a definite order. *)

From Stdlib Require Import Sorting.Sorted.
From S2P Require Import Prelude Display Windows.

Module PaintSpec.
Import Surface WmCompositor Text.

(** ** Signed arithmetic *)
Lemma i32_range z : - 2 ^ 31 <= i32 z < 2 ^ 31.
Proof. unfold i32. pose proof (Z.mod_pos_bound (z + 2 ^ 31) (2 ^ 32)). lia. Qed.

Lemma i32_small z : - 2 ^ 31 <= z < 2 ^ 31 -> i32 z = z.
Proof. intros Hz. unfold i32. rewrite Z.mod_small; lia. Qed.

Lemma i32_add a b : i32 (i32 a + b) = i32 (a + b).
Proof.
  unfold i32. f_equal. replace ((a + 2 ^ 31) mod 2 ^ 32 - 2 ^ 31 + b + 2 ^ 31) with ((a + 2 ^ 31) mod 2 ^ 32 + b) by lia.
  rewrite Zplus_mod_idemp_l. f_equal. lia.
Qed.

Lemma i32_sub a b : i32 (i32 a - b) = i32 (a - b).
Proof. rewrite <- !Z.add_opp_r. apply i32_add. Qed.

(** ** Surfaces *)
Definition VISIBLE : Z := 2 ^ 30.

Record surf_ok (s : t) : Prop := {
  su_size : Z.of_nat (length (buffer s)) = width s * height s;
  su_dims : 0 <= width s <= VISIBLE /\ 0 <= height s <= VISIBLE;
}.

Definition on (s : t) (x y : Z) : Prop := 0 <= x < width s /\ 0 <= y < height s.

Definition pix (s : t) (x y : Z) : Z := buffer s !!! Z.to_nat (y * width s + x).

Lemma on_index s x y : surf_ok s -> on s x y -> 0 <= y * width s + x < Z.of_nat (length (buffer s)).
Proof. intros [-> [Hw Hh]] [Hx Hy]. nia. Qed.

Lemma pixel_index_inj w a b x y : 0 <= a < w -> 0 <= x < w -> b * w + a = y * w + x -> a = x /\ b = y.
Proof. intros Ha Hx E. assert (b = y) as ->; [|lia]. destruct (Z.lt_trichotomy b y) as [|[|]]; nia. Qed.

Lemma get_pixel_on s x y : surf_ok s -> on s x y -> get_pixel s x y = Done (pix s x y).
Proof.
  intros Hs Ho. pose proof (on_index s x y Hs Ho). destruct Ho as [Hx Hy]. unfold get_pixel. rewrite !(proj2 (Z.ltb_lt _ _)) by lia. cbn [andb].
  destruct (arr_get_in (buffer s) (y * width s + x)) as (v & -> & Hv); [lia|]. unfold pix. by rewrite (list_lookup_total_correct _ _ _ Hv).
Qed.

(** ** Layers *)
Definition layer : Type := Z -> Z -> option Z.

Definition over (top bottom : layer) : layer := fun x y => match top x y with Some c => Some c | None => bottom x y end.
Definition nothing : layer := fun _ _ => None.

(** [f] draws the layer [l]. *)
Definition paints (f : t -> exec t) (l : layer) : Prop :=
  forall s, surf_ok s -> exists s', f s = Done s' /\ surf_ok s' /\ width s' = width s /\ height s' = height s /\
    forall x y, on s x y -> pix s' x y = match l x y with Some c => c | None => pix s x y end.

(** Layers that agree where a surface can have pixels. *)
Definition same (l l' : layer) : Prop := forall x y, 0 <= x < VISIBLE -> 0 <= y < VISIBLE -> l x y = l' x y.

Lemma paints_same f l l' : paints f l -> same l l' -> paints f l'.
Proof.
  intros Hf Hl s Hs. destruct (Hf s Hs) as (s' & E & Hs' & Hw & Hh & Hp). exists s'. split_all; try done. intros x y Ho. rewrite (Hp x y Ho), Hl; [done|..];
    destruct Hs as [_ [? ?]], Ho; lia.
Qed.

Lemma paints_ext f g l : (forall s, surf_ok s -> f s = g s) -> paints g l -> paints f l.
Proof. intros E Hg s Hs. rewrite E by done. by apply Hg. Qed.

Lemma paints_none : paints (fun s => Done s) nothing.
Proof. intros s Hs. by exists s. Qed.

Lemma paints_bind f g l l' : paints f l -> paints g l' -> paints (fun s => s ← f s; g s) (over l' l).
Proof.
  intros Hf Hg s Hs. destruct (Hf s Hs) as (s1 & -> & Hs1 & Hw1 & Hh1 & Hp1). exec_simpl. destruct (Hg s1 Hs1) as (s2 & -> & Hs2 & Hw2 & Hh2 & Hp2).
  exists s2. split_all; [done|done|congruence..|]. intros x y Ho. unfold over. rewrite Hp2 by (unfold on in *; rewrite Hw1, Hh1; done). destruct (l' x y); [done|by apply Hp1].
Qed.

(** The last of the layers that covers the pixel. *)
Definition stack (ls : Z -> layer) (is_ : list Z) : layer := foldr (fun i acc => over acc (ls i)) nothing is_.

Lemma paints_each body ls is_ : (forall i, i ∈ is_ -> paints (fun s => body s i) (ls i)) -> paints (each body is_) (stack ls is_).
Proof.
  induction is_ as [|i is_ IH]; intros Hb; cbn [each stack foldr]; [apply paints_none|].
  apply (paints_bind (fun s => body s i) (each body is_) (ls i) (stack ls is_)); [apply Hb; set_solver|apply IH; intros j Hj; apply Hb; set_solver].
Qed.

Definition point (a b c : Z) : layer := fun x y => if (x =? a) && (y =? b) then Some c else None.

Lemma paints_pixel a b c : 0 <= a -> 0 <= b -> paints (fun s => pixel s a b c) (point a b c).
Proof.
  intros Ha Hb s Hs. unfold pixel, point. destruct ((a <? width s) && (b <? height s)) eqn:E.
  - apply andb_true_iff in E as [E1%Z.ltb_lt E2%Z.ltb_lt]. pose proof (on_index s a b Hs ltac:(split; lia)) as Hi.
    rewrite arr_set_Done by lia. exec_simpl. eexists. split; [done|]. destruct Hs as [Hl Hd]. split; [split; cbn; [by rewrite length_insert|done]|].
    split; [done|]. split; [done|]. intros x y [Hx Hy]. unfold pix. cbn [width buffer].
    destruct ((x =? a) && (y =? b)) eqn:E.
    + apply andb_true_iff in E as [->%Z.eqb_eq ->%Z.eqb_eq]. apply list_lookup_total_insert_eq. lia.
    + apply list_lookup_total_insert_ne. intros Eq. apply Z2Nat.inj in Eq; [|nia|nia]. apply (pixel_index_inj (width s)) in Eq as [-> ->]; [|lia|lia].
      by rewrite !Z.eqb_refl in E.
  - exists s. split_all; try done. intros x y [Hx Hy]. destruct ((x =? a) && (y =? b)) eqn:E2; [|done].
    apply andb_true_iff in E2 as [->%Z.eqb_eq ->%Z.eqb_eq]. apply andb_false_iff in E as [E%Z.ltb_ge|E%Z.ltb_ge]; lia.
Qed.

Lemma paints_clipped a b c : paints (fun s => set_clipped s a b c) (point a b c).
Proof.
  intros s Hs. unfold set_clipped. destruct ((0 <=? a) && (0 <=? b) && (a <? width s) && (b <? height s)) eqn:E.
  - apply andb_true_iff in E as [[[E1%Z.leb_le E2%Z.leb_le]%andb_true_iff _]%andb_true_iff _]. by apply paints_pixel.
  - exists s. split_all; try done. intros x y [Hx Hy]. unfold point. destruct ((x =? a) && (y =? b)) eqn:E2; [|done].
    apply andb_true_iff in E2 as [->%Z.eqb_eq ->%Z.eqb_eq]. rewrite !(proj2 (Z.leb_le _ _)), !(proj2 (Z.ltb_lt _ _)) in E by lia. done.
Qed.

(** ** Pictures *)

(** [w] by [h] pixels at (a, b), each with the colour that [c] gives for its place
    in the picture. *)
Definition picture (a b w h : Z) (c : Z -> Z -> Z) : layer := fun x y =>
  if (a <=? x) && (x <? a + w) && (b <=? y) && (y <? b + h) then Some (c (x - a) (y - b)) else None.

Lemma picture_in a b w h c x y : a <= x < a + w -> b <= y < b + h -> picture a b w h c x y = Some (c (x - a) (y - b)).
Proof. intros Hx Hy. unfold picture. by rewrite !(proj2 (Z.leb_le _ _)), !(proj2 (Z.ltb_lt _ _)) by lia. Qed.

Lemma picture_out a b w h c x y : ~ (a <= x < a + w /\ b <= y < b + h) -> picture a b w h c x y = None.
Proof.
  intros Hn. unfold picture. destruct (_ && _ && _ && _) eqn:E; [|done]. exfalso. apply Hn.
  apply andb_true_iff in E as [[[E1%Z.leb_le E2%Z.ltb_lt]%andb_true_iff E3%Z.leb_le]%andb_true_iff E4%Z.ltb_lt]. lia.
Qed.

Lemma stack_range (ls : Z -> layer) n (P : Z -> Z -> Z -> Prop) `{forall i x y, Decision (P i x y)} (c : Z -> Z -> Z -> Z) : 0 <= n ->
  (forall i x y, ls i x y = if decide (P i x y) then Some (c i x y) else None) ->
  forall x y i, 0 <= i < n -> P i x y -> (forall j, i < j < n -> ~ P j x y) -> stack ls (seqZ 0 n) x y = Some (c i x y).
Proof.
  intros Hn Hl x y i Hi HP Hlater.
  replace n with (i + (1 + (n - i - 1))) by lia. rewrite (seqZ_app 0 i), (seqZ_app (0 + i) 1), Z.add_0_l by lia. assert (seqZ i 1 = [i]) as -> by (cbn; f_equal; lia).
  assert (forall l acc, (forall j, j ∈ l -> ls j x y = None) -> foldr (fun i acc => over acc (ls i)) acc l x y = acc x y) as Hskip.
  { induction l as [|j l IH]; intros acc Hj; [done|]. cbn. unfold over at 1. rewrite IH by (intros k Hk; apply Hj; set_solver). rewrite Hj by set_solver. by destruct (acc x y). }
  assert (forall l acc v, acc x y = Some v -> foldr (fun i acc => over acc (ls i)) acc l x y = Some v) as Hkeep.
  { induction l as [|j l IH]; intros acc v Ha; [done|]. cbn. unfold over at 1. by rewrite (IH _ _ Ha). }
  unfold stack. rewrite !foldr_app. apply Hkeep. cbn [foldr]. unfold over at 1. rewrite Hskip.
  - cbn. rewrite Hl, decide_True by done. done.
  - intros j Hj%elem_of_seqZ. rewrite Hl, decide_False; [done|]. apply Hlater. lia.
Qed.

Lemma stack_none (ls : Z -> layer) is_ x y : (forall i, i ∈ is_ -> ls i x y = None) -> stack ls is_ x y = None.
Proof.
  induction is_ as [|i is_ IH]; intros Hi; [done|]. change (over (stack ls is_) (ls i) x y = None). unfold over.
  rewrite IH by (intros j Hj; apply Hi; set_solver). apply Hi. set_solver.
Qed.

(** Rows of a picture make the picture, and points of a row make the row. *)
Lemma stack_rows a b w h c : 0 <= h -> forall x y, stack (fun dy => picture a (b + dy) w 1 (fun dx _ => c dx dy)) (range 0 h) x y = picture a b w h c x y.
Proof.
  intros Hh x y. unfold range. rewrite Z.sub_0_r. destruct (decide (a <= x < a + w /\ b <= y < b + h)) as [[Hx Hy]|Hn].
  - rewrite picture_in by done. erewrite (stack_range _ h (fun dy x y => a <= x < a + w /\ b + dy <= y < b + dy + 1) (fun dy x y => c (x - a) dy)); [|done| |..].
    + done.
    + intros i x' y'. destruct (decide _) as [[H1 H2]|Hno]; [by rewrite picture_in|by rewrite picture_out].
    + lia.
    + split; lia.
    + intros j Hj [_ ?]. lia.
  - rewrite picture_out by done. apply stack_none. intros i Hi%elem_of_seqZ. apply picture_out. lia.
Qed.

Lemma stack_points a b w c : 0 <= w -> forall x y, stack (fun dx => point (a + dx) b (c dx)) (range 0 w) x y = picture a b w 1 (fun dx _ => c dx) x y.
Proof.
  intros Hw x y. unfold range. rewrite Z.sub_0_r. destruct (decide (a <= x < a + w /\ b <= y < b + 1)) as [[Hx Hy]|Hn].
  - rewrite picture_in by done. erewrite (stack_range _ w (fun dx x y => x = a + dx /\ y = b) (fun dx x y => c dx) Hw); [| |..].
    + done.
    + intros i x' y'. unfold point. destruct (decide _) as [[-> ->]|Hno]; [by rewrite !Z.eqb_refl|].
      destruct (_ && _) eqn:E; [|done]. apply andb_true_iff in E as [->%Z.eqb_eq ->%Z.eqb_eq]. by exfalso; apply Hno.
    + split; [|lia]. lia.
    + lia.
    + intros j Hj [? _]. lia.
  - rewrite picture_out by done. apply stack_none. intros i Hi%elem_of_seqZ. unfold point. destruct (_ && _) eqn:E; [|done].
    apply andb_true_iff in E as [->%Z.eqb_eq ->%Z.eqb_eq]. lia.
Qed.

Lemma range_nil a b : b <= a -> range a b = [].
Proof. intros H. unfold range. apply seqZ_nil. lia. Qed.

(** Two nested loops over the pixels of a picture. *)
Lemma paints_block (body : t -> Z -> Z -> exec t) a b w h c :
  (forall dx dy, 0 <= dx < w -> 0 <= dy < h -> paints (fun s => body s dx dy) (point (a + dx) (b + dy) (c dx dy))) ->
  paints (each (fun s dy => each (fun s dx => body s dx dy) (range 0 w) s) (range 0 h)) (picture a b w h c).
Proof.
  intros Hb. destruct (Z.le_gt_cases h 0); [|destruct (Z.le_gt_cases w 0)].
  - rewrite (range_nil 0 h) by lia. eapply paints_same; [apply paints_none|].
    intros x y _ _. by rewrite picture_out by lia.
  - eapply paints_same; [apply (paints_each _ (fun _ => nothing))|].
    + intros i Hi. rewrite (range_nil 0 w) by lia. apply paints_none.
    + intros x y _ _. rewrite picture_out by lia. by apply stack_none.
  - eapply paints_same; [apply (paints_each _ (fun dy => picture a (b + dy) w 1 (fun dx _ => c dx dy)))|intros x y _ _; apply stack_rows; lia].
    intros dy Hdy%elem_of_seqZ. eapply paints_same; [apply (paints_each _ (fun dx => point (a + dx) (b + dy) (c dx dy)))|intros x y _ _; apply stack_points; lia].
    intros dx Hdx%elem_of_seqZ. apply Hb; lia.
Qed.

(** ** Clipped drawing *)

(** Where a 32-bit sum wraps around there is nothing to see. *)
Lemma i32_seen z v : - 3 * 2 ^ 30 <= z < 2 ^ 32 -> 0 <= v < VISIBLE -> i32 z = v <-> z = v.
Proof. intros Hz Hv. unfold VISIBLE in Hv. unfold i32. Z.to_euclidean_division_equations. lia. Qed.

Lemma point_i32 a b c : - 3 * 2 ^ 30 <= a < 2 ^ 32 -> - 3 * 2 ^ 30 <= b < 2 ^ 32 -> same (point (i32 a) (i32 b) c) (point a b c).
Proof.
  intros Ha Hb x y Hx Hy. unfold point. assert ((x =? i32 a) = (x =? a)) as ->.
  { apply eq_true_iff_eq. rewrite !Z.eqb_eq. pose proof (i32_seen a x Ha Hx). intuition lia. }
  assert ((y =? i32 b) = (y =? b)) as ->; [|done]. apply eq_true_iff_eq. rewrite !Z.eqb_eq. pose proof (i32_seen b y Hb Hy). intuition lia.
Qed.

Lemma paints_at a b c : - 3 * 2 ^ 30 <= a < 2 ^ 32 -> - 3 * 2 ^ 30 <= b < 2 ^ 32 -> paints (fun s => set_clipped s (i32 a) (i32 b) c) (point a b c).
Proof. intros Ha Hb. eapply paints_same; [apply paints_clipped|by apply point_i32]. Qed.

(** Positions and sizes that keep the sums in range. *)
Definition place (z : Z) : Prop := - 2 ^ 31 - 2 ^ 20 <= z < 2 ^ 31 + 2 ^ 20.
Definition extent (z : Z) : Prop := 0 <= z <= VISIBLE.

Lemma paints_rect a b w h c : place a -> place b -> extent w -> extent h ->
  paints (fun s => draw_clipped_filled_rect s a b w h c) (picture a b w h (fun _ _ => c)).
Proof.
  intros Ha Hb Hw Hh. unfold draw_clipped_filled_rect, place, extent, VISIBLE in *. rewrite !i32_small by lia.
  apply paints_block. intros dx dy Hdx Hdy. apply paints_at; lia.
Qed.

Lemma font_row ch row : 0 <= row < 16 -> exists v, arr_get FONT_DATA (glyph_offset ch + row) = Done v.
Proof.
  intros Hr. assert (length FONT_DATA = 1520%nat) as Hl by by vm_compute. destruct (arr_get_in FONT_DATA (glyph_offset ch + row)) as (v & -> & _); [|by exists v].
  rewrite Hl. unfold glyph_offset. destruct (_ && _) eqn:E; unfold FONT_HEIGHT; [|lia]. apply andb_true_iff in E as [E1%Z.leb_le E2%Z.leb_le]. lia.
Qed.

(** The colours of a glyph. *)
Definition glyph (ch fg bg dx dy : Z) : Z :=
  match arr_get FONT_DATA (glyph_offset ch + dy) with Done byte => glyph_color byte dx fg bg | _ => 0 end.

Lemma each_ext {A} (f g : A -> Z -> exec A) is_ : (forall a i, i ∈ is_ -> f a i = g a i) -> forall a, each f is_ a = each g is_ a.
Proof.
  induction is_ as [|i is_ IH]; intros E a; [done|]. cbn. rewrite E by set_solver. destruct (g a i); [|done..]. exec_simpl. apply IH. intros ? ? ?. apply E. set_solver.
Qed.

Lemma paints_char a b ch fg bg : place a -> place b ->
  paints (fun s => draw_clipped_char s a b ch fg bg) (picture a b 8 16 (glyph ch fg bg)).
Proof.
  intros Ha Hb. unfold place in *. eapply paints_ext; [|apply (paints_block (fun s dx dy => set_clipped s (i32 (a + dx)) (i32 (b + dy)) (glyph ch fg bg dx dy)))].
  - intros s _. unfold draw_clipped_char. apply each_ext. intros s' row Hr%elem_of_seqZ. unfold FONT_HEIGHT in Hr.
    destruct (font_row ch row) as [v E]; [lia|]. rewrite E. exec_simpl. apply each_ext. intros s2 col Hc. unfold glyph. by rewrite E.
  - intros dx dy Hdx Hdy. apply paints_at; lia.
Qed.

Lemma paints_blit src a b : place a -> place b -> surf_ok src ->
  paints (fun s => blit_surface_clipped s src a b) (picture a b (width src) (height src) (pix src)).
Proof.
  intros Ha Hb Hs. pose proof (su_dims src Hs) as [Hw Hh]. unfold place, VISIBLE in *.
  eapply paints_ext; [|apply (paints_block (fun s dx dy => set_clipped s (i32 (a + dx)) (i32 (b + dy)) (pix src dx dy)))].
  - intros s _. unfold blit_surface_clipped. rewrite !i32_small by lia. apply each_ext. intros s' row Hr%elem_of_seqZ. apply each_ext. intros s2 col Hc%elem_of_seqZ.
    rewrite get_pixel_on by (try done; split; lia). done.
  - intros dx dy Hdx Hdy. apply paints_at; lia.
Qed.

(** Text: a row of glyphs, line ends left out. *)
Fixpoint text (a b : Z) (chars : list Z) (fg bg : Z) : layer :=
  match chars with
  | [] => nothing
  | ch :: chars => if ch =? 10 then text a b chars fg bg else over (text (a + 8) b chars fg bg) (picture a b 8 16 (glyph ch fg bg))
  end.

Lemma picture_i32 a b w h c : place a -> place b -> extent w -> extent h -> same (picture (i32 a) (i32 b) w h c) (picture a b w h c).
Proof.
  intros Ha Hb Hw Hh x y Hx Hy. unfold place, extent, VISIBLE in *.
  assert (forall z l v, - 2 ^ 31 - 2 ^ 20 <= z < 2 ^ 31 + 2 ^ 20 -> 0 <= l <= 2 ^ 30 -> 0 <= v < 2 ^ 30 -> i32 z <= v < i32 z + l <-> z <= v < z + l) as Hz.
  { intros z l v H1 H2 H3. unfold i32. Z.to_euclidean_division_equations. lia. }
  assert (forall z l v, - 2 ^ 31 - 2 ^ 20 <= z < 2 ^ 31 + 2 ^ 20 -> 0 <= l <= 2 ^ 30 -> 0 <= v < 2 ^ 30 -> z <= v < z + l -> i32 z = z) as He.
  { intros z l v H1 H2 H3 H4. apply i32_small. lia. }
  destruct (decide (a <= x < a + w /\ b <= y < b + h)) as [[H1 H2]|Hn].
  - rewrite (He a w x), (He b h y) by done. done.
  - rewrite !picture_out; [done|done|]. rewrite (Hz a w x), (Hz b h y) by done. done.
Qed.

Lemma same_trans l1 l2 l3 : same l1 l2 -> same l2 l3 -> same l1 l3.
Proof. intros H1 H2 x y Hx Hy. by rewrite (H1 x y Hx Hy), (H2 x y Hx Hy). Qed.

Lemma same_over l1 l2 l1' l2' : same l1 l1' -> same l2 l2' -> same (over l1 l2) (over l1' l2').
Proof. intros H1 H2 x y Hx Hy. unfold over. by rewrite (H1 x y Hx Hy), (H2 x y Hx Hy). Qed.

Lemma paints_char_at a b ch fg bg : place a -> place b ->
  paints (fun s => draw_clipped_char s (i32 a) (i32 b) ch fg bg) (picture a b 8 16 (glyph ch fg bg)).
Proof.
  intros Ha Hb. eapply paints_same; [apply paints_char; [pose proof (i32_range a)|pose proof (i32_range b)]; unfold place; lia|].
  apply picture_i32; try done; unfold extent, VISIBLE; lia.
Qed.

Lemma paints_text chars fg bg b : place b -> forall a, - 2 ^ 31 - 2 ^ 20 <= a -> a + 8 * Z.of_nat (length chars) < 2 ^ 31 + 2 ^ 20 ->
  paints (fun s => draw_clipped_string s (i32 a) (i32 b) chars fg bg) (text a b chars fg bg).
Proof.
  intros Hb. induction chars as [|ch chars IH]; intros a H1 H2; [apply paints_none|]. cbn [draw_clipped_string text]. cbn [length] in H2.
  destruct (ch =? 10); [apply IH; lia|].
  apply (paints_bind (fun s => draw_clipped_char s (i32 a) (i32 b) ch fg bg)); [apply paints_char_at; [unfold place in *; lia|done]|].
  unfold FONT_WIDTH. rewrite i32_add. apply IH; lia.
Qed.

(** The text covers nothing outside its row. *)
Lemma text_in chars fg bg b x y : forall a, is_Some (text a b chars fg bg x y) -> a <= x < a + 8 * Z.of_nat (length chars) /\ b <= y < b + 16.
Proof.
  induction chars as [|ch chars IH]; intros a; cbn [text length]; [by intros [? ?]|]. destruct (ch =? 10); [intros H%IH; lia|].
  unfold over. destruct (text (a + 8) b chars fg bg x y) eqn:E; [intros _|].
  - destruct (IH (a + 8)); [by eexists|]. lia.
  - intros [c Hc]. destruct (decide (a <= x < a + 8 /\ b <= y < b + 16)); [lia|]. by rewrite picture_out in Hc.
Qed.

End PaintSpec.

Module RingSpec.
Import KeyRing.

(** The ring holds the queue [l], each element stored as [inj] of it. *)
Record holds {A B} (inj : B -> A) (q : KeyRing.t A) (l : list B) : Prop := {
  h_buf : length (buf q) = 64%nat;
  h_read : 0 <= read_idx q < 64;
  h_write : write_idx q = (read_idx q + Z.of_nat (length l)) mod 64;
  h_room : Z.of_nat (length l) <= 63;
  h_items : forall i b, l !! i = Some b -> buf q !! Z.to_nat ((read_idx q + Z.of_nat i) mod 64) = Some (inj b);
}.

(** What a push keeps of a queue. *)
Definition enqueue {B} (l : list B) (b : B) : list B := if Z.of_nat (length l) <? 63 then l ++ [b] else l.

Lemma ring_slot r i j : 0 <= i < 64 -> 0 <= j < 64 -> (r + i) mod 64 = (r + j) mod 64 -> i = j.
Proof. intros Hi Hj E. Z.to_euclidean_division_equations. lia. Qed.

Lemma push_holds {A B} (inj : B -> A) q l b : holds inj q l -> returns (push q (inj b)) (fun q' => holds inj q' (enqueue l b)).
Proof.
  intros [Hb Hr Hw Hroom Hi]. unfold push, enqueue, BUFFER_SIZE. rewrite Hw.
  assert (((read_idx q + Z.of_nat (length l)) mod 64 + 1) mod 64 = (read_idx q + (Z.of_nat (length l) + 1)) mod 64) as Hn by (Z.to_euclidean_division_equations; lia).
  rewrite Hn. destruct (Z.ltb_spec (Z.of_nat (length l)) 63) as [Hlt|Hge].
  - assert ((read_idx q + (Z.of_nat (length l) + 1)) mod 64 <> read_idx q) as Hne by (Z.to_euclidean_division_equations; lia).
    rewrite (proj2 (Z.eqb_neq _ _) Hne). cbn [negb]. pose proof (Z.mod_pos_bound (read_idx q + Z.of_nat (length l)) 64 ltac:(lia)) as Hpos.
    rewrite arr_set_Done by lia. exec_simpl. eexists. split; [done|]. split; cbn [buf read_idx write_idx].
    + by rewrite length_insert.
    + done.
    + rewrite length_app. cbn [length]. f_equal. lia.
    + rewrite length_app. cbn [length]. lia.
    + intros i b' E. apply lookup_app_Some in E as [E|[Hge E]].
      * pose proof (lookup_lt_Some _ _ _ E). rewrite list_lookup_insert_ne; [by apply Hi|]. intros Eq. apply Z2Nat.inj in Eq; [|lia|apply Z.mod_pos_bound; lia].
        apply ring_slot in Eq; lia.
      * apply list_lookup_singleton_Some in E as [Ei <-]. replace (Z.of_nat i) with (Z.of_nat (length l)) by lia. apply list_lookup_insert_eq. lia.
  - replace ((read_idx q + (Z.of_nat (length l) + 1)) mod 64) with (read_idx q) by (Z.to_euclidean_division_equations; lia).
    rewrite Z.eqb_refl. cbn [negb]. by exists q.
Qed.

Lemma pop_holds {A B} (inj : B -> A) erase q l : holds inj q l ->
  returns (pop erase q) (fun r => r.2 = inj <$> head l /\ holds inj r.1 (tail l)).
Proof.
  intros [Hb Hr Hw Hroom Hi]. unfold pop, BUFFER_SIZE. rewrite Hw. destruct l as [|b l]; cbn [length] in *.
  - replace ((read_idx q + Z.of_nat 0) mod 64) with (read_idx q) by (Z.to_euclidean_division_equations; lia). rewrite Z.eqb_refl.
    eexists. split; [done|]. split; [done|]. cbn [fst tail]. by split.
  - assert ((read_idx q + Z.of_nat (S (length l))) mod 64 <> read_idx q) as Hne by (Z.to_euclidean_division_equations; lia).
    rewrite (proj2 (Z.eqb_neq _ _)) by lia. pose proof (Hi 0%nat b eq_refl) as H0. replace ((read_idx q + Z.of_nat 0) mod 64) with (read_idx q) in H0 by (Z.to_euclidean_division_equations; lia).
    rewrite (arr_get_at _ _ (inj b)) by (done || lia). exec_simpl. rewrite arr_set_Done by lia. exec_simpl. eexists. split; [done|]. split; [done|].
    cbn [fst tail]. split; cbn [buf read_idx write_idx].
    + by rewrite length_insert.
    + apply Z.mod_pos_bound. lia.
    + Z.to_euclidean_division_equations. lia.
    + lia.
    + intros i b' E. pose proof (lookup_lt_Some _ _ _ E). replace (((read_idx q + 1) mod 64 + Z.of_nat i) mod 64) with ((read_idx q + Z.of_nat (S i)) mod 64) by (Z.to_euclidean_division_equations; lia).
      rewrite list_lookup_insert_ne; [by apply Hi|]. intros Eq. apply Z2Nat.inj in Eq; [|lia|apply Z.mod_pos_bound; lia]. Z.to_euclidean_division_equations. lia.
Qed.

Lemma new_holds {A B} (inj : B -> A) a : holds inj (mk (replicate 64 a) 0 0) [].
Proof. split; cbn; try done; try lia. Qed.

Lemma len_holds {A B} (inj : B -> A) (q : KeyRing.t A) (l : list B) : holds inj q l -> len q = Z.of_nat (length l).
Proof.
  intros [_ Hr Hw Hroom _]. unfold len, BUFFER_SIZE. rewrite Hw. destruct (Z.leb_spec (read_idx q) ((read_idx q + Z.of_nat (length l)) mod 64)); Z.to_euclidean_division_equations; lia.
Qed.

End RingSpec.

(** ** The window table *)
Module TableSpec.
Import Window WindowTable.

(** A table of 32 slots whose windows have different identifiers. *)
Record slots_ok (wt : WindowTable.t) : Prop := {
  so_len : length (slots wt) = 32%nat;
  so_ids : forall i j w v, slots wt !! i = Some (Some w) -> slots wt !! j = Some (Some v) -> id w = id v -> i = j;
}.

Lemma find_slot_sound k l i w : find_slot k l = Some (i, w) -> l !! i = Some (Some w) /\ id w = k.
Proof.
  revert i. induction l as [|o l IH]; intros i; cbn; [done|]. assert ((fun p : nat * Window.t => (S p.1, p.2)) <$> find_slot k l = Some (i, w) -> (o :: l) !! i = Some (Some w) /\ id w = k) as Hrec.
  { intros E. apply fmap_Some in E as ([j v] & E & [= -> ->]). cbn. by apply IH. }
  destruct o as [v|]; [|done]. destruct (Z.eqb_spec (id v) k) as [Hk|]; [|done]. by intros [= <- <-].
Qed.

Lemma find_slot_complete k l i w : l !! i = Some (Some w) -> id w = k -> is_Some (find_slot k l).
Proof.
  revert i. induction l as [|o l IH]; intros [|i] E Hk; cbn in *; try done.
  - injection E as ->. rewrite (proj2 (Z.eqb_eq _ _) Hk). by eexists.
  - destruct (IH i E Hk) as [p ->]. destruct o as [v|]; [|by eexists]. destruct (id v =? k); by eexists.
Qed.

Lemma get_spec wt k w : slots_ok wt -> get wt k = Some w <-> exists i, slots wt !! i = Some (Some w) /\ id w = k.
Proof.
  intros Hs. unfold get. split.
  - intros E. apply fmap_Some in E as ([i v] & E & ->). exists i. by apply find_slot_sound.
  - intros (i & Hi & Hk). destruct (find_slot_complete k _ i w Hi Hk) as [[j v] E]. rewrite E. apply find_slot_sound in E as [Hj Hv].
    assert (i = j) as -> by (eapply so_ids; [done|exact Hi|exact Hj|congruence]). cbn. f_equal. congruence.
Qed.

Lemma get_id wt k w : slots_ok wt -> get wt k = Some w -> id w = k.
Proof. intros Hs Hg. by apply get_spec in Hg as (_ & _ & ?). Qed.

Lemma elem_windows wt w : slots_ok wt -> w ∈ windows wt <-> get wt (id w) = Some w.
Proof.
  intros Hs. unfold windows. rewrite list_elem_of_omap, (get_spec wt _ w Hs). split.
  - intros (o & Ho & ->). apply list_elem_of_lookup_1 in Ho as [i Hi]. by exists i.
  - intros (i & Hi & _). exists (Some w). split; [by eapply list_elem_of_lookup_2|done].
Qed.

Lemma get_none wt k : slots_ok wt -> get wt k = None -> forall i w, slots wt !! i = Some (Some w) -> id w <> k.
Proof. intros Hs Hg i w Hi Hk. assert (get wt k = Some w) as E by (apply get_spec; [done|]; by exists i). congruence. Qed.

(** What changes when a slot does. *)
Lemma insert_slot wt i o next foc : slots_ok wt -> (i < 32)%nat ->
  (forall w, o = Some w -> forall j v, slots wt !! j = Some (Some v) -> id v = id w -> j = i) ->
  slots_ok (mk (<[i := o]> (slots wt)) next foc) /\
  (forall k w, get (mk (<[i := o]> (slots wt)) next foc) k = Some w <->
     o = Some w /\ id w = k \/ get wt k = Some w /\ slots wt !! i <> Some (Some w)).
Proof.
  intros Hs Hi Ho. pose proof (so_len wt Hs) as Hl.
  assert (slots_ok (mk (<[i := o]> (slots wt)) next foc)) as Hs'.
  { split; cbn [slots]; [by rewrite length_insert|]. intros a b w v Ha Hb E. apply list_lookup_insert_Some in Ha as [(-> & -> & _)|[Na Ha]];
      apply list_lookup_insert_Some in Hb as [(<- & Hb & _)|[Nb Hb]]; subst; try done.
    - symmetry. exact (Ho w eq_refl b v Hb (eq_sym E)).
    - exact (Ho v eq_refl a w Ha E).
    - by eapply so_ids. }
  split; [done|]. intros k w. rewrite (get_spec _ k w Hs'), (get_spec wt k w Hs). cbn [slots]. split.
  - intros (j & Hj & Hk). apply list_lookup_insert_Some in Hj as [(<- & -> & _)|[Nj Hj]]; [by left|right]. split; [by exists j|].
    intros Hi'. apply Nj. exact (so_ids wt Hs i j w w Hi' Hj eq_refl).
  - intros [[-> Hk]|[(j & Hj & Hk) Hn]].
    + exists i. rewrite list_lookup_insert_eq by lia. done.
    + exists j. rewrite list_lookup_insert_ne; [done|]. intros ->. done.
Qed.

Lemma update_none wt k f : get wt k = None -> update wt k f = Done wt.
Proof. unfold get, update. by destruct (find_slot k (slots wt)) as [[i w]|]. Qed.

(** What an update of one window does. *)
Record replaced (wt : WindowTable.t) (k : Z) (w' : Window.t) (wt' : WindowTable.t) : Prop := {
  re_slots : slots_ok wt';
  re_next : next_id wt' = next_id wt;
  re_focus : focused_id wt' = focused_id wt;
  re_get : forall k', get wt' k' = if decide (k' = k) then Some w' else get wt k';
}.

Lemma update_spec wt k f w P : slots_ok wt -> get wt k = Some w -> returns (f w) (fun w' => id w' = k /\ P w') ->
  returns (update wt k f) (fun wt' => exists w', P w' /\ replaced wt k w' wt').
Proof.
  intros Hs Hg (w' & Ef & Hk & HP). unfold update. unfold get in Hg. apply fmap_Some in Hg as ([i v] & E & ->). rewrite E. cbn in Ef. rewrite Ef. exec_simpl.
  eexists. split; [done|]. exists w'. split; [done|]. apply find_slot_sound in E as [Hi Hv]. pose proof (lookup_lt_Some _ _ _ Hi) as Hlt. rewrite (so_len wt Hs) in Hlt.
  destruct (insert_slot wt i (Some w') (next_id wt) (focused_id wt) Hs Hlt) as [Hs' Hget].
  { intros u [= <-] j u' Hj Hu. eapply so_ids; [done|exact Hj|exact Hi|congruence]. }
  split; try done. intros k'. apply option_eq. intros u. rewrite Hget. destruct (decide (k' = k)) as [->|Hne].
  - split; [intros [[? ?]|[Hu Hn]]; [done|]|intros [= <-]; by left].
    apply get_spec in Hu as (j & Hj & Hu); [|done]. destruct Hn. assert (j = i) as <-; [|done]. apply (so_ids wt Hs j i u v); congruence.
  - split; [intros [[[= <-] Hid]|[Hu _]]; [congruence|done]|]. intros Hu. right. split; [done|]. intros Hu'. apply get_id in Hu; [|done]. by simplify_eq.
Qed.

(** ** The invariant *)

(** A window as the system calls make them. *)
Record drawable (w : Window.t) : Prop := {
  d_size : 1 <= width w <= 2048 /\ 1 <= height w <= 2048;
  d_place : - 2 ^ 31 <= x w < 2 ^ 31 /\ - 2 ^ 31 <= y w < 2 ^ 31;
  d_surface : PaintSpec.surf_ok (surface w) /\ Surface.width (surface w) = width w /\ Surface.height (surface w) = height w;
  d_title : Z.of_nat (length (title w)) <= 256;
}.

(** The window's queue of events. *)
Definition queue (w : Window.t) (es : list WmEvent.t) : Prop := RingSpec.holds Some (event_queue w) es.

Record win_ok (w : Window.t) : Prop := {
  w_drawable : drawable w;
  w_queue : exists es, queue w es;
  w_visible : visible w = true;
}.

(** [n] bounds the number of operations so far: identifiers and z-orders are not
    reused, and no two windows are at the same height. *)
Record table_ok (n : Z) (wt : WindowTable.t) : Prop := {
  t_slots : slots_ok wt;
  t_next : 1 <= next_id wt <= n + 1;
  t_win : forall k w, get wt k = Some w -> win_ok w;
  t_ids : forall k w, get wt k = Some w -> 1 <= k < next_id wt;
  t_z : forall k w, get wt k = Some w -> 1 <= z_order w <= n;
  t_order : forall k k' w v, get wt k = Some w -> get wt k' = Some v -> z_order w = z_order v -> k = k';
  t_focused : forall k w, get wt k = Some w -> focused w = bool_decide (focused_id wt = Some k);
  t_focus : forall k, focused_id wt = Some k -> is_Some (get wt k);
}.

Lemma table_mono n m wt : table_ok n wt -> n <= m -> table_ok m wt.
Proof. intros [] Hm. split; try done; [lia|]. intros k w Hw. destruct (t_z0 k w Hw). lia. Qed.

Lemma foldl_max_le l z m : foldl Z.max z l <= m <-> z <= m /\ Forall (fun a => a <= m) l.
Proof.
  revert z. induction l as [|a l IH]; intros z; cbn; [split; [by split|tauto]|]. rewrite IH, Forall_cons. split; intros; lia || (split; [|split]; lia || tauto) || (split; lia || tauto).
Qed.

(** The highest z-order. *)
Lemma max_z_le wt m : slots_ok wt -> 0 <= m -> max_z wt <= m <-> forall k w, get wt k = Some w -> z_order w <= m.
Proof.
  intros Hs Hm. transitivity (Forall (fun a => a <= m) (z_order <$> windows wt)).
  - unfold max_z. destruct (z_order <$> windows wt) as [|a l]; [split; [constructor|done]|]. by rewrite foldl_max_le, Forall_cons.
  - rewrite Forall_fmap, Forall_forall. split.
    + intros H k w Hw. apply H. apply elem_windows; [done|]. by rewrite (get_id _ _ _ Hs Hw).
    + intros H w Hw. apply elem_windows in Hw; [|done]. by apply (H (id w)).
Qed.

Lemma max_z_nonneg wt n : table_ok n wt -> 0 <= max_z wt.
Proof.
  intros Ht. unfold max_z. destruct (windows wt) as [|w l] eqn:E; [done|]. cbn. assert (get wt (id w) = Some w) as Hw by (apply elem_windows; [apply Ht|]; rewrite E; set_solver).
  destruct (t_z n wt Ht _ _ Hw). pose proof (proj1 (foldl_max_le (z_order <$> l) (z_order w) _) (Z.le_refl _)). lia.
Qed.

Lemma max_z_bound wt n : 0 <= n -> table_ok n wt -> max_z wt <= n.
Proof. intros Hn Ht. apply max_z_le; [apply Ht|done|]. intros k w Hw. by destruct (t_z n wt Ht k w Hw). Qed.

Lemma above_max wt n k w : table_ok n wt -> get wt k = Some w -> z_order w <= max_z wt.
Proof. intros Ht Hw. apply (proj1 (max_z_le wt (max_z wt) (t_slots n wt Ht) (max_z_nonneg wt n Ht)) (Z.le_refl _) k w Hw). Qed.

Lemma send_ok e w es : queue w es -> returns (send e w) (fun w' => w' = set_event_queue (event_queue w') w /\ queue w' (RingSpec.enqueue es e)).
Proof.
  intros Hq. unfold send, WmEventQueue.push. destruct (RingSpec.push_holds Some _ es e Hq) as (q & -> & Hq'). exec_simpl. eexists. split; [done|]. by split.
Qed.

Lemma table_new : table_ok 0 WindowTable.new.
Proof.
  assert (forall k, get WindowTable.new k = None) as Hn by by intros k.
  assert (slots_ok WindowTable.new) as Hs. { split; [done|]. intros i j w v Hi. cbn [slots WindowTable.new] in Hi. by apply lookup_replicate in Hi as [? ?]. }
  split; cbn [next_id focused_id WindowTable.new]; try done; try lia; intros k w Hg; by rewrite Hn in Hg.
Qed.

(** Replacing a window by one of the same height and focus. *)
Lemma replaced_ok n wt k w w' wt' : table_ok n wt -> get wt k = Some w -> replaced wt k w' wt' ->
  win_ok w' -> z_order w' = z_order w -> focused w' = focused w -> table_ok n wt'.
Proof.
  intros Ht Hw [Hs Hn Hf Hg] Hok Hz Hfoc. split; rewrite ?Hn, ?Hf; try done.
  - apply Ht.
  - intros k' u. rewrite Hg. destruct (decide _); [by intros [= <-]|apply Ht].
  - intros k' u. rewrite Hg. destruct (decide _) as [->|]; [intros _; by eapply t_ids|apply Ht].
  - intros k' u. rewrite Hg. destruct (decide _) as [->|]; [intros [= <-]; rewrite Hz; by eapply t_z|apply Ht].
  - intros k1 k2 u v. rewrite !Hg. destruct (decide (k1 = k)) as [->|], (decide (k2 = k)) as [->|]; [done|..|apply Ht].
    + intros [= <-] Hv. rewrite Hz. by apply (t_order n wt Ht k k2 w v).
    + intros Hu [= <-]. rewrite Hz. by apply (t_order n wt Ht k1 k u w).
  - intros k' u. rewrite Hg. destruct (decide _) as [->|]; [intros [= <-]; rewrite Hfoc; by eapply t_focused|apply Ht].
  - intros k' Hk'. rewrite Hg. destruct (decide _); [by eexists|by apply (t_focus n wt Ht)].
Qed.

(** ** The operations *)

(** What focus and stacking leave alone. *)
Definition body (w : Window.t) := (id w, owner_pid w, title w, (x w, y w, width w, height w), visible w, decorated w, surface w).

Lemma win_ok_body w w' : body w' = body w -> (exists es, queue w' es) -> win_ok w -> win_ok w'.
Proof.
  intros Hb Hq [[H1 H2 H3 H4] _ Hv]. unfold body in Hb. injection Hb as E1 E2 E3 E4 E5 E6 E7 E8 E9 E10.
  split; [split|done|congruence]; rewrite ?E3, ?E4, ?E5, ?E6, ?E7, ?E10; try done.
Qed.

(** A window after the focus has gone to [k], as events of its queue tell. *)
Definition told (wt : WindowTable.t) (k k' : Z) (es : list WmEvent.t) : list WmEvent.t :=
  if decide (k' = k) then RingSpec.enqueue es WmEvent.WindowFocus
  else if decide (focused_id wt = Some k') then RingSpec.enqueue es WmEvent.WindowBlur else es.

Record refocused (wt : WindowTable.t) (k : Z) (k' : Z) (w w' : Window.t) : Prop := {
  rf_body : body w' = body w;
  rf_z : z_order w' = if decide (k' = k) then max_z wt + 1 else z_order w;
  rf_focused : focused w' = bool_decide (k' = k);
  rf_queue : forall es, queue w es -> queue w' (told wt k k' es);
}.

Record focus_moved (wt : WindowTable.t) (k : Z) (wt' : WindowTable.t) : Prop := {
  fm_slots : slots_ok wt';
  fm_next : next_id wt' = next_id wt;
  fm_focus : focused_id wt' = Some k;
  fm_none : forall k', get wt k' = None -> get wt' k' = None;
  fm_some : forall k' w, get wt k' = Some w -> exists w', get wt' k' = Some w' /\ refocused wt k k' w w';
}.

Lemma focus_moved_inv wt k wt' k' w' : focus_moved wt k wt' -> get wt' k' = Some w' -> exists w, get wt k' = Some w /\ refocused wt k k' w w'.
Proof.
  intros Hm Hw. destruct (get wt k') as [w|] eqn:E.
  - destruct (fm_some _ _ _ Hm k' w E) as (u & Hu & Hr). rewrite Hw in Hu. injection Hu as <-. by exists w.
  - by rewrite (fm_none _ _ _ Hm k' E) in Hw.
Qed.

Lemma focus_moved_ok n wt k wt' : 0 <= n -> table_ok n wt -> is_Some (get wt k) -> focus_moved wt k wt' -> table_ok (n + 1) wt'.
Proof.
  intros Hn Ht [w0 Hk] Hm. pose proof (max_z_bound wt n Hn Ht) as Hmax. pose proof (max_z_nonneg wt n Ht). split.
  - apply Hm.
  - rewrite (fm_next _ _ _ Hm). pose proof (t_next n wt Ht). lia.
  - intros k' w' Hw. destruct (focus_moved_inv _ _ _ _ _ Hm Hw) as (w & Hw0 & Hr). pose proof (t_win n wt Ht k' w Hw0) as Hok.
    eapply win_ok_body; [apply Hr| |done]. destruct (w_queue w Hok) as [es Hes]. eexists. by apply (rf_queue _ _ _ _ _ Hr).
  - intros k' w' Hw. destruct (focus_moved_inv _ _ _ _ _ Hm Hw) as (w & Hw0 & _). rewrite (fm_next _ _ _ Hm). by eapply t_ids.
  - intros k' w' Hw. destruct (focus_moved_inv _ _ _ _ _ Hm Hw) as (w & Hw0 & Hr). rewrite (rf_z _ _ _ _ _ Hr). destruct (decide _); [lia|]. pose proof (t_z n wt Ht k' w Hw0). lia.
  - intros k1 k2 w1 w2 H1 H2. destruct (focus_moved_inv _ _ _ _ _ Hm H1) as (u1 & U1 & R1). destruct (focus_moved_inv _ _ _ _ _ Hm H2) as (u2 & U2 & R2).
    rewrite (rf_z _ _ _ _ _ R1), (rf_z _ _ _ _ _ R2). pose proof (above_max wt n k1 u1 Ht U1). pose proof (above_max wt n k2 u2 Ht U2).
    destruct (decide (k1 = k)), (decide (k2 = k)); try lia. by apply (t_order n wt Ht k1 k2 u1 u2).
  - intros k' w' Hw. destruct (focus_moved_inv _ _ _ _ _ Hm Hw) as (w & Hw0 & Hr). rewrite (rf_focused _ _ _ _ _ Hr), (fm_focus _ _ _ Hm). apply bool_decide_ext. naive_solver.
  - intros k'. rewrite (fm_focus _ _ _ Hm). intros [= <-]. destruct (fm_some _ _ _ Hm k w0 Hk) as (w' & ? & _). by eexists.
Qed.

(** The table with the old window blurred: everything but [k] is as it will be. *)
Record blurred (wt : WindowTable.t) (k : Z) (w : Window.t) (wt' : WindowTable.t) : Prop := {
  bl_slots : slots_ok wt';
  bl_next : next_id wt' = next_id wt;
  bl_get : get wt' k = Some w;
  bl_none : forall k', k' <> k -> get wt k' = None -> get wt' k' = None;
  bl_some : forall k' u, k' <> k -> get wt k' = Some u -> exists u', get wt' k' = Some u' /\ refocused wt k k' u u';
}.

Lemma refocused_other n wt k k' u : table_ok n wt -> get wt k' = Some u -> k' <> k -> focused_id wt <> Some k' -> refocused wt k k' u u.
Proof.
  intros Ht Hu Hne Hf. split; [done|by rewrite decide_False| |].
  - rewrite (t_focused n wt Ht k' u Hu). by rewrite !bool_decide_false by done.
  - intros es Hes. unfold told. by rewrite !decide_False.
Qed.

Lemma blur_spec n wt k w : table_ok n wt -> get wt k = Some w ->
  returns (match focused_id wt with
           | Some old_id => if negb (old_id =? k) then update wt old_id (fun w => send WmEvent.WindowBlur (set_focused false w)) else Done wt
           | None => Done wt
           end) (blurred wt k w).
Proof.
  intros Ht Hw. assert (forall o, focused_id wt = o -> (forall k', k' <> k -> o <> Some k') -> blurred wt k w wt) as Hsame.
  { intros o Ho Hk. split; try done; [apply Ht|]. intros k' u Hne Hu. exists u. split; [done|]. eapply refocused_other; try done. rewrite Ho. by apply Hk. }
  destruct (focused_id wt) as [old|] eqn:Ef; [|by exists wt; split; [|apply (Hsame None)]].
  destruct (Z.eqb_spec old k) as [->|Hne]; cbn [negb]; [exists wt; split; [done|]; apply (Hsame (Some k)); [done|congruence]|].
  destruct (t_focus n wt Ht old Ef) as [v Hv]. destruct (w_queue v (t_win n wt Ht old v Hv)) as [es Hes].
  eapply returns_mono; [eapply (update_spec wt old _ v (fun v' => refocused wt k old v v')); [apply Ht|done|]|].
  - destruct (send_ok WmEvent.WindowBlur (set_focused false v) es Hes) as (v' & E & Ev & _). exists v'. split; [done|].
    rewrite Ev. cbn. split; [by eapply get_id; [apply Ht|]|]. split; [done| | |].
    + by rewrite decide_False.
    + cbn. by rewrite bool_decide_false.
    + intros es' Hes'. unfold told. rewrite decide_False, decide_True by done. rewrite <- Ev.
      destruct (send_ok WmEvent.WindowBlur (set_focused false v) es' Hes') as (v2 & E2 & _ & Hq). rewrite E in E2. injection E2 as <-. done.
  - intros wt' (v' & Hv' & [Hs Hn Hf Hg]). split; [done|done| | |].
    + by rewrite Hg, decide_False.
    + intros k' _ Hno. rewrite Hg, decide_False; [done|]. intros ->. congruence.
    + intros k' u Hk' Hu. rewrite Hg. destruct (decide (k' = old)) as [->|Hk2]; [exists v'; split; [done|]; by simplify_eq|].
      exists u. split; [done|]. eapply refocused_other; try done. congruence.
Qed.

Lemma blurred_z n wt k w wt' k' : table_ok n wt -> get wt k = Some w -> blurred wt k w wt' -> z_order <$> get wt' k' = z_order <$> get wt k'.
Proof.
  intros Ht Hw Hb. destruct (decide (k' = k)) as [->|Hne]; [by rewrite Hw, (bl_get _ _ _ _ Hb)|]. destruct (get wt k') as [u|] eqn:E.
  - destruct (bl_some _ _ _ _ Hb k' u Hne E) as (u' & -> & Hr). cbn. by rewrite (rf_z _ _ _ _ _ Hr), decide_False.
  - by rewrite (bl_none _ _ _ _ Hb k' Hne E).
Qed.

Lemma max_z_same n wt wt' : table_ok n wt -> slots_ok wt' -> (forall k, z_order <$> get wt' k = z_order <$> get wt k) -> max_z wt' = max_z wt.
Proof.
  intros Ht Hs Hz. assert (forall k u, get wt' k = Some u -> exists u', get wt k = Some u' /\ z_order u = z_order u') as Hto.
  { intros k u Hu. pose proof (Hz k) as E. rewrite Hu in E. symmetry in E. cbn in E. apply fmap_Some in E as (u' & ? & ?). by exists u'. }
  assert (forall k u, get wt k = Some u -> exists u', get wt' k = Some u' /\ z_order u = z_order u') as Hfrom.
  { intros k u Hu. pose proof (Hz k) as E. rewrite Hu in E. cbn in E. apply fmap_Some in E as (u' & ? & ?). by exists u'. }
  assert (0 <= max_z wt') as H0.
  { unfold max_z. destruct (windows wt') as [|u l] eqn:E; [done|]. cbn. assert (get wt' (id u) = Some u) as Hu by (apply elem_windows; [done|]; rewrite E; set_solver).
    destruct (Hto _ _ Hu) as (u' & Hu' & Ez). pose proof (t_z n wt Ht _ _ Hu'). pose proof (proj1 (foldl_max_le (z_order <$> l) (z_order u) _) (Z.le_refl _)). lia. }
  apply Z.le_antisymm.
  - apply max_z_le; [done|by eapply max_z_nonneg|]. intros k u Hu. destruct (Hto k u Hu) as (u' & Hu' & ->). by eapply above_max.
  - apply max_z_le; [apply Ht|done|]. intros k u Hu. destruct (Hfrom k u Hu) as (u' & Hu' & ->). by apply (proj1 (max_z_le wt' _ Hs H0) (Z.le_refl _) k).
Qed.

(** Blur, raise and focus. *)
Lemma set_focus_spec n wt k : 0 <= n -> n + 1 < 2 ^ 32 -> table_ok n wt -> is_Some (get wt k) -> returns (set_focus wt k) (focus_moved wt k).
Proof.
  intros Hn0 Hn Ht [w Hw]. pose proof (max_z_bound wt n Hn0 Ht) as Hmax. pose proof (max_z_nonneg wt n Ht) as Hmin. unfold set_focus.
  eapply returns_bind; [by apply (blur_spec n wt k w)|]. intros wt1 Hb. unfold raise_to_front.
  rewrite (max_z_same n wt wt1 Ht (bl_slots _ _ _ _ Hb) (fun k' => blurred_z n wt k w wt1 k' Ht Hw Hb)). unfold u32_add. rewrite wrap_small by lia.
  assert (id w = k) as Hid by (eapply get_id; [apply Ht|done]).
  eapply returns_bind; [eapply (update_spec wt1 k _ w (fun u => u = set_z_order (max_z wt + 1) w)); [apply Hb|apply Hb|by eexists; split]|].
  intros wt2 (u & -> & [Hs2 Hn2 Hf2 Hg2]). destruct (w_queue w (t_win n wt Ht k w Hw)) as [es Hes].
  eapply returns_bind; [eapply (update_spec wt2 k _ (set_z_order (max_z wt + 1) w) (fun w' => refocused wt k k w w')); [done|by rewrite Hg2, decide_True| ]|].
  - destruct (send_ok WmEvent.WindowFocus (set_focused true (set_z_order (max_z wt + 1) w)) es Hes) as (w' & E & Ew & _). exists w'. split; [done|].
    rewrite Ew. split; [done|]. split; [done|by rewrite decide_True|by rewrite bool_decide_true|]. intros es' Hes'. unfold told. rewrite decide_True by done. rewrite <- Ew.
    destruct (send_ok WmEvent.WindowFocus (set_focused true (set_z_order (max_z wt + 1) w)) es' Hes') as (w2 & E2 & _ & Hq). rewrite E in E2. injection E2 as <-. done.
  - intros wt3 (w' & Hr & [Hs3 Hn3 Hf3 Hg3]). eexists. split; [done|].
    assert (forall k', get (mk (slots wt3) (next_id wt3) (Some k)) k' = if decide (k' = k) then Some w' else get wt1 k') as Hg.
    { intros k'. unfold get at 1. cbn [slots]. fold (get wt3 k'). rewrite Hg3, Hg2. by destruct (decide _). }
    split; [by destruct Hs3; split|cbn; rewrite Hn3, Hn2; apply Hb|done|..].
    + intros k' Hno. rewrite Hg. destruct (decide _) as [->|Hne]; [congruence|]. by apply (bl_none _ _ _ _ Hb).
    + intros k' v Hv. rewrite Hg. destruct (decide (k' = k)) as [->|Hne]; [|by apply (bl_some _ _ _ _ Hb)]. exists w'. split; [done|]. by simplify_eq.
Qed.

(** A new window. *)
Lemma first_free_spec l i : first_free l = Some i -> l !! i = Some None.
Proof.
  revert i. induction l as [|o l IH]; intros i; cbn; [done|]. destruct o; [|by intros [= <-]]. intros E. apply fmap_Some in E as (j & E & ->). by apply IH.
Qed.

Lemma surface_new_ok w h : 1 <= w <= 2048 -> 1 <= h <= 2048 ->
  exists s, Surface.new w h = Some s /\ PaintSpec.surf_ok s /\ Surface.width s = w /\ Surface.height s = h.
Proof.
  intros Hw Hh. unfold Surface.new. rewrite (proj2 (Z.eqb_neq _ _)) by nia. eexists. split; [done|]. split; [|done].
  split; cbn; [rewrite length_replicate; nia|]. unfold PaintSpec.VISIBLE. lia.
Qed.

Record created (wt : WindowTable.t) (w : Window.t) (wt' : WindowTable.t) : Prop := {
  cr_slots : slots_ok wt';
  cr_next : next_id wt' = next_id wt + 1;
  cr_focus : focused_id wt' = focused_id wt;
  cr_get : forall k, get wt' k = if decide (k = next_id wt) then Some w else get wt k;
}.

Lemma window_create_spec n wt owner tl wx wy ww wh : 0 <= n -> n + 2 < 2 ^ 32 -> table_ok n wt -> 1 <= ww <= 2048 -> 1 <= wh <= 2048 ->
  match create wt owner tl wx wy ww wh with
  | (wt', None) => wt' = wt
  | (wt', Some k) => k = next_id wt /\ exists s, Surface.new ww wh = Some s /\
      created wt (Window.mk k owner tl wx wy ww wh (max_z wt + 1) true false true s WmEventQueue.new) wt'
  end.
Proof.
  intros Hn0 Hn Ht Hw Hh. unfold create. destruct (first_free (slots wt)) as [i|] eqn:Ei; [|done]. apply first_free_spec in Ei.
  destruct (surface_new_ok ww wh Hw Hh) as (s & Es & _). rewrite Es. split; [done|]. exists s. split; [done|].
  pose proof (max_z_bound wt n Hn0 Ht). pose proof (max_z_nonneg wt n Ht). pose proof (t_next n wt Ht) as Hnext. unfold u32_add. rewrite !wrap_small by lia.
  set (w := Window.mk _ _ _ _ _ _ _ _ _ _ _ _ _). pose proof (lookup_lt_Some _ _ _ Ei) as Hlt. rewrite (so_len wt (t_slots n wt Ht)) in Hlt.
  assert (forall j v, slots wt !! j = Some (Some v) -> id v <> next_id wt) as Hfresh.
  { intros j v Hj Hv. assert (get wt (id v) = Some v) as Hg by (apply get_spec; [apply Ht|by exists j]). destruct (t_ids n wt Ht _ _ Hg). lia. }
  destruct (insert_slot wt i (Some w) (next_id wt + 1) (focused_id wt) (t_slots n wt Ht) Hlt) as [Hs' Hget].
  { intros u [= <-] j v Hj Hv. by destruct (Hfresh j v Hj). }
  split; try done. intros k. apply option_eq. intros u. rewrite Hget. destruct (decide (k = next_id wt)) as [->|Hne].
  - split; [intros [[? ?]|[Hu _]]; [done|]|intros [= <-]; by left]. apply get_spec in Hu as (j & Hj & Hu); [|apply Ht]. by destruct (Hfresh j u Hj).
  - split; [intros [[[= <-] Hid]|[Hu _]]; [by destruct Hne|done]|]. intros Hu. right. split; [done|]. congruence.
Qed.

Lemma created_ok n wt w wt' : 0 <= n -> table_ok n wt -> created wt w wt' -> win_ok w -> z_order w = max_z wt + 1 -> focused w = false -> table_ok (n + 1) wt'.
Proof.
  intros Hn Ht [Hs Hnx Hf Hg] Hok Hz Hfoc. pose proof (max_z_bound wt n Hn Ht). pose proof (max_z_nonneg wt n Ht). pose proof (t_next n wt Ht).
  assert (forall k v, get wt k = Some v -> k <> next_id wt) as Hold by (intros k v Hv; pose proof (t_ids n wt Ht k v Hv); lia).
  split; rewrite ?Hnx, ?Hf; try done.
  - lia.
  - intros k v. rewrite Hg. destruct (decide _); [by intros [= <-]|apply Ht].
  - intros k v. rewrite Hg. destruct (decide _); [lia|]. intros Hv. pose proof (t_ids n wt Ht k v Hv). lia.
  - intros k v. rewrite Hg. destruct (decide _); [intros [= <-]; lia|]. intros Hv. pose proof (t_z n wt Ht k v Hv). lia.
  - intros k1 k2 u v. rewrite !Hg. destruct (decide (k1 = _)) as [->|], (decide (k2 = _)) as [->|]; [done|..|apply Ht].
    + intros [= <-] Hv E. pose proof (above_max wt n k2 v Ht Hv). lia.
    + intros Hu [= <-] E. pose proof (above_max wt n k1 u Ht Hu). lia.
  - intros k v. rewrite Hg. destruct (decide _) as [->|]; [|apply Ht]. intros [= <-]. rewrite Hfoc. symmetry. apply bool_decide_false. intros E.
    destruct (t_focus n wt Ht _ E) as [v Hv]. by destruct (Hold _ _ Hv).
  - intros k Hk. rewrite Hg. destruct (decide _); [by eexists|]. by apply (t_focus n wt Ht).
Qed.

(** Destroying a window. *)
Record destroyed (wt : WindowTable.t) (k : Z) (wt' : WindowTable.t) : Prop := {
  ds_slots : slots_ok wt';
  ds_next : next_id wt' = next_id wt;
  ds_focus : focused_id wt' = if decide (focused_id wt = Some k) then None else focused_id wt;
  ds_get : forall k', get wt' k' = if decide (k' = k) then None else get wt k';
}.

Lemma destroy_spec wt k : slots_ok wt ->
  match destroy wt k with
  | (wt', true) => is_Some (get wt k) /\ destroyed wt k wt'
  | (wt', false) => get wt k = None /\ wt' = wt
  end.
Proof.
  intros Hs. unfold destroy. destruct (find_slot k (slots wt)) as [[i w]|] eqn:E; [|unfold get; by rewrite E]. split; [unfold get; rewrite E; by eexists|].
  apply find_slot_sound in E as [Hi Hid]. pose proof (lookup_lt_Some _ _ _ Hi) as Hlt. rewrite (so_len wt Hs) in Hlt.
  destruct (insert_slot wt i None (next_id wt) (if bool_decide (focused_id wt = Some k) then None else focused_id wt) Hs Hlt) as [Hs' Hget]; [done|].
  split; [done|done|cbn; case_bool_decide; case_decide; done|]. intros k'. apply option_eq. intros u. rewrite Hget. destruct (decide (k' = k)) as [->|Hne].
  - split; [|done]. intros [[? _]|[Hu Hn]]; [done|]. apply get_spec in Hu as (j & Hj & Hu); [|done]. destruct Hn.
    assert (i = j) as -> by (apply (so_ids wt Hs i j w u); congruence). done.
  - split; [intros [[? _]|[? _]]; done|]. intros Hu. right. split; [done|]. intros Hi'. apply get_id in Hu; [|done]. by simplify_eq.
Qed.

Lemma destroyed_ok n wt k wt' : table_ok n wt -> destroyed wt k wt' -> table_ok n wt'.
Proof.
  intros Ht [Hs Hnx Hf Hg].
  assert (forall k' v, get wt' k' = Some v -> k' <> k /\ get wt k' = Some v) as Hback by (intros k' v; rewrite Hg; destruct (decide (k' = k)); [intros ?; discriminate|by intros]).
  split; rewrite ?Hnx; try done; [apply Ht|..].
  - intros k' v [_ Hv]%Hback. by eapply t_win.
  - intros k' v [_ Hv]%Hback. by eapply t_ids.
  - intros k' v [_ Hv]%Hback. by eapply t_z.
  - intros k1 k2 u v [_ Hu]%Hback [_ Hv]%Hback. by apply (t_order n wt Ht k1 k2 u v).
  - intros k' v [Hne Hv]%Hback. rewrite (t_focused n wt Ht k' v Hv), Hf. apply bool_decide_ext. destruct (decide _); naive_solver.
  - intros k'. rewrite Hf, Hg. destruct (decide (focused_id wt = Some k)) as [|Hno]; [done|]. intros Hk'. rewrite decide_False by congruence. by apply (t_focus n wt Ht).
Qed.

(** ** Orders *)
Lemma insert_by_perm p l : insert_by p l ≡ₚ p :: l.
Proof. induction l as [|q l IH]; [done|]. cbn. destruct (_ <? _); [done|]. rewrite IH. apply Permutation_swap. Qed.

Lemma sort_perm l : sort_by_key l ≡ₚ l.
Proof.
  unfold sort_by_key. assert (forall acc, foldl (fun acc p => insert_by p acc) acc l ≡ₚ acc ++ l) as H; [|by rewrite H].
  induction l as [|p l IH]; intros acc; cbn; [by rewrite app_nil_r|]. rewrite IH, insert_by_perm. by rewrite <- Permutation_middle.
Qed.

Definition key_le (p q : Z * Z) : Prop := p.1 <= q.1.

Lemma insert_by_sorted p l : StronglySorted key_le l -> StronglySorted key_le (insert_by p l).
Proof.
  induction 1 as [|q l Hl IH Hq]; cbn; [by repeat constructor|]. destruct (Z.ltb_spec p.1 q.1) as [Hlt|Hge].
  - constructor; [by constructor|]. constructor; [unfold key_le; lia|]. eapply Forall_impl; [exact Hq|]. unfold key_le. cbn. lia.
  - constructor; [done|]. rewrite insert_by_perm. by constructor.
Qed.

Lemma sort_sorted l : StronglySorted key_le (sort_by_key l).
Proof.
  unfold sort_by_key. assert (forall acc, StronglySorted key_le acc -> StronglySorted key_le (foldl (fun acc p => insert_by p acc) acc l)) as H; [|apply H; constructor].
  induction l as [|p l IH]; intros acc Ha; cbn; [done|]. by apply IH, insert_by_sorted.
Qed.

Lemma elem_shown wt w : w ∈ shown wt <-> w ∈ windows wt /\ visible w = true.
Proof. unfold shown. rewrite !list_elem_of_In. apply filter_In. Qed.

(** Alt+Tab moves the focus to one of the windows, if there is one. *)
Lemma cycle_focus_spec n wt : 0 <= n -> n + 1 < 2 ^ 32 -> table_ok n wt ->
  returns (cycle_focus wt) (fun wt' => wt' = wt \/ exists k, is_Some (get wt k) /\ focus_moved wt k wt').
Proof.
  intros Hn0 Hn Ht. unfold cycle_focus. set (ids := snd <$> _).
  assert (forall k, k ∈ ids -> is_Some (get wt k)) as Hids.
  { intros k Hk. apply list_elem_of_fmap in Hk as (p & -> & Hp). rewrite sort_perm in Hp. apply list_elem_of_fmap in Hp as (w & -> & Hw). apply elem_shown in Hw as [Hw _].
    exists w. cbn. apply elem_windows; [apply Ht|done]. }
  destruct ids as [|k0 ids'] eqn:E; [exists wt; by split; [|left]|]. rewrite <- E in *. set (idx := match _ with Some i => _ | None => 0 end).
  assert (0 <= idx < Z.of_nat (length ids)) as Hidx.
  { assert (0 < Z.of_nat (length ids)) by (rewrite E; cbn; lia). unfold idx. destruct (focused_id wt); [destruct (position _ _)|]; try lia. apply Z.mod_pos_bound. lia. }
  destruct (arr_get_in ids idx Hidx) as (k & -> & Hk). exec_simpl. eapply returns_mono; [apply (set_focus_spec n wt k); try done|].
  - apply Hids. by eapply list_elem_of_lookup_2.
  - intros wt' Hm. right. exists k. split; [|done]. apply Hids. by eapply list_elem_of_lookup_2.
Qed.

(** An event for the focused window. *)
Lemma to_focused_spec n wt e : table_ok n wt ->
  returns (Keyboard.to_focused e wt) (fun wt' => table_ok n wt' /\
    match focused_id wt with
    | None => wt' = wt
    | Some k => exists w w', get wt k = Some w /\ replaced wt k w' wt' /\ w' = set_event_queue (event_queue w') w /\
        forall es, queue w es -> queue w' (RingSpec.enqueue es e)
    end).
Proof.
  intros Ht. unfold Keyboard.to_focused. destruct (focused_id wt) as [k|] eqn:Ef; [|by exists wt]. destruct (t_focus n wt Ht k Ef) as [w Hw].
  pose proof (t_win n wt Ht k w Hw) as Hok. destruct (w_queue w Hok) as [es Hes].
  eapply returns_mono; [eapply (update_spec wt k _ w (fun w' => w' = set_event_queue (event_queue w') w /\ forall es, queue w es -> queue w' (RingSpec.enqueue es e))); [apply Ht|done|]|].
  - destruct (send_ok e w es Hes) as (w' & E & Ew & _). exists w'. split; [done|]. split; [rewrite Ew; cbn; apply (get_id wt k w); [apply Ht|done]|]. split; [done|].
    intros es' Hes'. destruct (send_ok e w es' Hes') as (w2 & E2 & _ & Hq). rewrite E in E2. injection E2 as <-. done.
  - intros wt' (w' & [Ew Hq] & Hr). split; [|by exists w, w'].
    eapply (replaced_ok n wt k w w'); try done; [eapply win_ok_body; [|eexists; by apply Hq|done]; by rewrite Ew|by rewrite Ew..].
Qed.

End TableSpec.
