(* ===== verification/CompositorSpec.v ===== *)
(** * The compositor's picture

    The layer that a window adds to the screen, the part of the screen it can
    touch, the desktop as the stack of the windows' layers, and the taskbar. *)

From stdpp Require Import sorting.
From S2P Require Import Prelude Display Windows WindowSpec.

Module CompositorSpec.
Import Window WmCompositor PaintSpec TableSpec.

(** Drawing in sequence nests the layers to the left. *)
Ltac layers := let px := fresh in let py := fresh in intros px py _ _; unfold over, TITLE_BAR_HEIGHT, CLOSE_BUTTON_SIZE; repeat (case_match; try done); congruence.

(** ** Rows and columns *)
Lemma paints_row (body : Surface.t -> Z -> exec Surface.t) a b w c :
  (forall dx, 0 <= dx < w -> paints (fun s => body s dx) (point (a + dx) b c)) -> paints (each body (range 0 w)) (picture a b w 1 (fun _ _ => c)).
Proof.
  intros Hb. destruct (Z.le_gt_cases w 0) as [Hw|Hw].
  - rewrite range_nil by lia. eapply paints_same; [apply paints_none|]. intros x y _ _. by rewrite picture_out by lia.
  - eapply paints_same; [apply (paints_each _ (fun dx => point (a + dx) b c))|intros x y _ _; apply (stack_points a b w (fun _ => c)); lia].
    intros dx Hdx%elem_of_seqZ. apply Hb; lia.
Qed.

Lemma paints_column (body : Surface.t -> Z -> exec Surface.t) a b h c :
  (forall dy, 0 <= dy < h -> paints (fun s => body s dy) (point a (b + dy) c)) -> paints (each body (range 0 h)) (picture a b 1 h (fun _ _ => c)).
Proof.
  intros Hb. destruct (Z.le_gt_cases h 0) as [Hh|Hh].
  - rewrite range_nil by lia. eapply paints_same; [apply paints_none|]. intros x y _ _. by rewrite picture_out by lia.
  - eapply paints_same; [apply (paints_each _ (fun dy => picture a (b + dy) 1 1 (fun _ _ => c)))|intros x y _ _; apply (stack_rows a b 1 h (fun _ _ => c)); lia].
    intros dy Hdy%elem_of_seqZ. eapply paints_same; [apply Hb; lia|]. intros x y _ _. unfold point.
    destruct (_ && _) eqn:E; [apply andb_true_iff in E as [->%Z.eqb_eq ->%Z.eqb_eq]; by rewrite picture_in by lia|].
    rewrite picture_out; [done|]. intros [Hx Hy]. replace x with a in E by lia. replace y with (b + dy) in E by lia. by rewrite !Z.eqb_refl in E.
Qed.

Definition border (x y w h c : Z) : layer :=
  over (picture (x + w - 1) y 1 h (fun _ _ => c)) (over (picture x y 1 h (fun _ _ => c))
    (over (picture x (y + h - 1) w 1 (fun _ _ => c)) (picture x y w 1 (fun _ _ => c)))).

Lemma paints_border x y w h c : - 2 ^ 31 <= x < 2 ^ 31 -> - 2 ^ 31 <= y < 2 ^ 31 -> 0 <= w <= 2 ^ 20 -> 0 <= h <= 2 ^ 20 ->
  paints (fun s => draw_border s x y w h c) (border x y w h c).
Proof.
  intros Hx Hy Hw Hh. unfold draw_border, border. rewrite !(i32_small w), !(i32_small h) by lia. rewrite !i32_sub. eapply paints_same.
  { eapply (paints_bind (each _ _)); [apply (paints_row _ x y w c); intros dx Hdx; eapply paints_ext; [|apply (paints_at (x + dx) y c); lia]; intros s _; cbv beta; by rewrite (i32_small y) by lia|].
  eapply (paints_bind (each _ _)); [apply (paints_row _ x (y + h - 1) w c); intros dx Hdx; apply paints_at; lia|].
  eapply (paints_bind (each _ _)); [apply (paints_column _ x y h c); intros dy Hdy; eapply paints_ext; [|apply (paints_at x (y + dy) c); lia]; intros s _; cbv beta; by rewrite (i32_small x) by lia|].
  apply (paints_column _ (x + w - 1) y h c). intros dx Hdx. apply paints_at; lia. }
  layers.
Qed.

(** ** Windows *)

(** The row below the title bar. *)
Definition client_y (w : t) : Z := if decorated w then y w + TITLE_BAR_HEIGHT else y w.

Definition in_client (w : t) (px py : Z) : Prop := x w <= px < x w + width w /\ client_y w <= py < client_y w + height w.

(** The title bar reaches as far as the close button and the text do. *)
Definition in_bar (w : t) (px py : Z) : Prop :=
  decorated w = true /\ Z.min (x w) (x w + width w - 22) <= px < Z.max (x w + width w) (x w + 4 + 8 * Z.of_nat (length (title w))) /\
  y w <= py < y w + TITLE_BAR_HEIGHT.

Definition touches (w : t) (px py : Z) : Prop := in_client w px py \/ in_bar w px py.

Definition window_layer (fb : FramebufferInfo.t) (w : t) : layer :=
  let title_packed := Color.to_packed fb (if focused w then TITLE_FOCUSED else TITLE_UNFOCUSED) in
  let white := Color.to_packed fb Color.WHITE in
  let close_packed := Color.to_packed fb CLOSE_BG in
  let border_color := Color.to_packed fb (if focused w then Color.WHITE else Color.GRAY) in
  let client := picture (x w) (client_y w) (width w) (height w) (pix (surface w)) in
  if decorated w then
    over client (over (border (x w) (y w) (width w) (24 + height w) border_color)
      (over (picture (x w + width w - 16) (y w + 4) 8 16 (glyph 88 white close_packed))
        (over (picture (x w + width w - 22) (y w + 2) 20 20 (fun _ _ => close_packed))
          (over (text (x w + 4) (y w + 4) (Utf8.chars (title w)) white title_packed)
            (picture (x w) (y w) (width w) 24 (fun _ _ => title_packed))))))
  else client.

Lemma decode_short n : forall bs cs, (length bs <= n)%nat -> Utf8.decode bs = Some cs -> (length cs <= length bs)%nat.
Proof.
  induction n as [|n IH]; intros bs cs Hn E; [destruct bs; [|cbn in Hn; lia]; injection E as <-; done|].
  destruct bs as [|a bs1]; [injection E as <-; done|]. cbn [Utf8.decode] in E. cbn [length] in *.
  assert (forall f rest, (length rest <= length bs1)%nat -> cons f <$> Utf8.decode rest = Some cs -> (length cs <= S (length rest))%nat) as Hc.
  { intros f rest Hr Hd. apply fmap_Some in Hd as (l & Hd & ->). apply IH in Hd; [cbn; lia|lia]. }
  destruct (a <? 128); [by apply Hc in E; [lia|]|].
  destruct (Utf8.within 194 223 a); [destruct bs1 as [|b bs2]; [done|]; destruct (Utf8.cont b); [|done]; apply Hc in E; cbn in *; lia|].
  destruct (Utf8.within 224 239 a); [destruct bs1 as [|b [|c bs3]]; [done..|]; destruct (_ && _); [|done]; apply Hc in E; cbn in *; lia|].
  destruct (Utf8.within 240 244 a); [|done]. destruct bs1 as [|b [|c [|d bs4]]]; [done..|]. destruct (_ && _); [|done]. apply Hc in E; cbn in *; lia.
Qed.

Lemma chars_short bs : (length (Utf8.chars bs) <= length bs)%nat.
Proof. unfold Utf8.chars. destruct (Utf8.decode bs) eqn:E; [by eapply decode_short|cbn; lia]. Qed.

Lemma paints_same_rect a b w h c : place a -> place b -> extent w -> extent h ->
  paints (fun s => draw_clipped_filled_rect s (i32 a) (i32 b) w h c) (picture a b w h (fun _ _ => c)).
Proof.
  intros Ha Hb Hw Hh. eapply paints_same; [apply paints_rect; try done; [pose proof (i32_range a)|pose proof (i32_range b)]; unfold place; lia|]. by apply picture_i32.
Qed.

Lemma paints_blit_at src a b : place a -> place b -> surf_ok src ->
  paints (fun s => blit_surface_clipped s src (i32 a) (i32 b)) (picture a b (Surface.width src) (Surface.height src) (pix src)).
Proof.
  intros Ha Hb Hs. pose proof (su_dims src Hs) as [? ?]. eapply paints_same; [apply paints_blit; try done; [pose proof (i32_range a)|pose proof (i32_range b)]; unfold place; lia|].
  by apply picture_i32.
Qed.

Lemma close_at z : i32 (i32 (i32 z - CLOSE_BUTTON_SIZE) - 2) = i32 (z - 22).
Proof.
  unfold CLOSE_BUTTON_SIZE. rewrite i32_sub. replace (i32 z - 20 - 2) with (i32 z - 22) by lia. apply i32_sub.
Qed.

Lemma paints_window fb w : drawable w -> paints (fun s => draw_window s w fb) (window_layer fb w).
Proof.
  intros [[Hw Hh] [Hx Hy] (Hs & Ew & Eh) Ht]. pose proof (chars_short (title w)) as Hc. unfold draw_window, window_layer, client_y. rewrite <- Ew, <- Eh.
  pose proof (paints_blit_at (surface w)) as Hblit. rewrite Ew, Eh in *.
  unfold place, extent, VISIBLE in Hblit. destruct (decorated w).
  - rewrite (i32_small (width w)), close_at, !i32_add by lia. unfold u32_add. rewrite (wrap_small 32) by (unfold in_u, TITLE_BAR_HEIGHT; cbn; lia).
    eapply paints_same; [|shelve].
    eapply (paints_bind (fun s => draw_clipped_filled_rect _ _ _ _ _ _)); [apply paints_rect; unfold place, extent, VISIBLE, TITLE_BAR_HEIGHT; lia|].
    eapply (paints_bind (fun s => draw_clipped_string _ _ _ _ _ _)); [apply (paints_text _ _ _ (y w + 4)); unfold place; lia|].
    eapply (paints_bind (fun s => draw_clipped_filled_rect _ _ _ _ _ _)).
    { apply paints_same_rect; unfold place, extent, VISIBLE, CLOSE_BUTTON_SIZE; lia. }
    eapply (paints_bind (fun s => draw_clipped_char _ _ _ _ _ _)).
    { replace (x w + width w - 22 + (CLOSE_BUTTON_SIZE - Text.FONT_WIDTH) / 2) with (x w + width w - 16) by (change ((CLOSE_BUTTON_SIZE - Text.FONT_WIDTH) / 2) with 6; lia).
      replace (y w + 2 + (CLOSE_BUTTON_SIZE - Text.FONT_HEIGHT) / 2) with (y w + 4) by (change ((CLOSE_BUTTON_SIZE - Text.FONT_HEIGHT) / 2) with 2; lia).
      apply paints_char_at; unfold place; lia. }
    eapply (paints_bind (fun s => draw_border _ _ _ _ _ _)); [apply paints_border; unfold TITLE_BAR_HEIGHT; lia|].
    eapply paints_ext; [|apply (Hblit (x w) (y w + TITLE_BAR_HEIGHT)); unfold TITLE_BAR_HEIGHT; try done; lia].
    intros s _. cbv beta. by rewrite (i32_small (x w)) by lia.
    Unshelve. layers.
  - eapply paints_ext; [|apply (Hblit (x w) (y w)); try done; lia]. intros s _. cbv beta. by rewrite (i32_small (x w)), (i32_small (y w)) by lia.
Qed.

Lemma layer_client fb w px py : in_client w px py -> window_layer fb w px py = Some (pix (surface w) (px - x w) (py - client_y w)).
Proof. intros [Hx Hy]. unfold window_layer. destruct (decorated w); [unfold over|]; by rewrite picture_in. Qed.

Lemma layer_outside fb w px py : drawable w -> ~ touches w px py -> window_layer fb w px py = None.
Proof.
  intros [[Hw Hh] _ _ _] Hn. assert (~ in_client w px py) as Hc by (intros ?; apply Hn; by left). unfold window_layer.
  destruct (decorated w) eqn:Ed; [|apply picture_out; exact Hc]. unfold in_client, client_y, TITLE_BAR_HEIGHT in Hc. rewrite Ed in Hc.
  assert (~ (Z.min (x w) (x w + width w - 22) <= px < Z.max (x w + width w) (x w + 4 + 8 * Z.of_nat (length (title w))) /\ y w <= py < y w + 24)) as Hb.
  { intros ?. apply Hn. right. by split. }
  unfold over. rewrite (picture_out (x w) (client_y w)) by (unfold client_y, TITLE_BAR_HEIGHT; rewrite Ed; exact Hc).
  unfold border, over. rewrite !picture_out by lia. destruct (text _ _ _ _ _ px py) eqn:E; [|done].
  destruct (text_in _ _ _ _ _ _ _ (ex_intro _ _ E)) as [H1 H2]. pose proof (chars_short (title w)). lia.
Qed.

(** ** The desktop *)

Definition layer_of (fb : FramebufferInfo.t) (wt : WindowTable.t) (id : Z) : layer :=
  match WindowTable.get wt id with Some w => window_layer fb w | None => nothing end.

Lemma paints_windows fb wt : (forall w, w ∈ WindowTable.windows wt -> drawable w) -> forall ids,
  paints (for_windows wt (fun s win => draw_window s win fb) ids) (stack (layer_of fb wt) ids).
Proof.
  intros Hd. induction ids as [|id ids IH]; [apply paints_none|]. cbn [for_windows].
  apply (paints_bind (fun s => match WindowTable.get wt id with Some win => draw_window s win fb | None => Done s end) (for_windows wt _ ids) (layer_of fb wt id)); [|done].
  unfold layer_of. destruct (WindowTable.get wt id) as [w|] eqn:E; [|apply paints_none]. apply paints_window, Hd.
  unfold WindowTable.get in E. apply fmap_Some in E as ([i w'] & E & ->). apply list_elem_of_omap. exists (Some w'). split; [|done]. apply find_slot_sound in E as [E _]. by eapply list_elem_of_lookup_2.
Qed.

(** The layers above the last one that covers the pixel do not matter. *)
Lemma stack_top (ls : Z -> layer) before i after px py c : ls i px py = Some c -> (forall j, j ∈ after -> ls j px py = None) ->
  stack ls (before ++ i :: after) px py = Some c.
Proof.
  intros Hi Ha. induction before as [|b before IH]; cbn [app].
  - change (over (stack ls after) (ls i) px py = Some c). unfold over. by rewrite stack_none.
  - change (over (stack ls (before ++ i :: after)) (ls b) px py = Some c). unfold over. by rewrite IH.
Qed.

(** ** The taskbar *)

(** [f] leaves the rows above [b] as they are. *)
Definition below (b : Z) (s s' : Surface.t) : Prop :=
  surf_ok s' /\ Surface.width s' = Surface.width s /\ Surface.height s' = Surface.height s /\
  forall px py, on s px py -> py < b -> pix s' px py = pix s px py.

Lemma below_refl b s : surf_ok s -> below b s s.
Proof. done. Qed.

Lemma below_trans b s1 s2 s3 : below b s1 s2 -> below b s2 s3 -> below b s1 s3.
Proof.
  intros (H1 & Hw1 & Hh1 & Hp1) (H2 & Hw2 & Hh2 & Hp2). unfold below. split_all; [done|congruence..|]. intros px py Ho Hy. rewrite Hp2; [by apply Hp1| |done].
  unfold on in *. by rewrite Hw1, Hh1.
Qed.

Lemma paints_below b f l s : paints f l -> (forall px py, 0 <= py < b -> l px py = None) -> surf_ok s -> returns (f s) (below b s).
Proof.
  intros Hf Hl Hs. destruct (Hf s Hs) as (s' & -> & Hs' & Hw & Hh & Hp). exists s'. unfold below. split_all; try done. intros px py Ho Hy. rewrite Hp, Hl; [done| |done]. destruct Ho. lia.
Qed.

Lemma below_picture b x0 y0 w h c px py : b <= y0 -> 0 <= py < b -> picture x0 y0 w h c px py = None.
Proof. intros Hb Hp. apply picture_out. lia. Qed.

Lemma below_text b x0 y0 chars fg bg px py : b <= y0 -> 0 <= py < b -> text x0 y0 chars fg bg px py = None.
Proof. intros Hb Hp. destruct (text _ _ _ _ _ _ _) eqn:E; [|done]. destruct (text_in _ _ _ _ _ _ _ (ex_intro _ _ E)). lia. Qed.

Lemma entry_below fb foc b s tx w : surf_ok s -> drawable w -> - 32 <= b <= VISIBLE -> - 2 ^ 31 <= tx < 2 ^ 31 ->
  returns (draw_entry fb foc b (s, tx) w) (fun r => below b s r.1 /\ - 2 ^ 31 <= r.2 < 2 ^ 31).
Proof.
  intros Hs [_ _ _ Ht] Hb Htx. pose proof (chars_short (title w)) as Hc. unfold draw_entry. change ((TASKBAR_HEIGHT - Text.FONT_HEIGHT) / 2) with 8.
  set (len := Z.of_nat (length (title w))) in *. set (current := bool_decide _).
  assert (forall bg, returns (if current then draw_clipped_filled_rect s (i32 (tx - 4)) (i32 (b + 2)) (u32_add (wrap 32 (u32_add (wrap 32 len) 2 * Text.FONT_WIDTH)) 8) (TASKBAR_HEIGHT - 4) bg else Done s) (below b s)) as Hrect.
  { intros bg. destruct current; [|by exists s]. unfold u32_add, Text.FONT_WIDTH. rewrite (wrap_small 32 len), (wrap_small 32 (len + 2)), (wrap_small 32 ((len + 2) * 8)), (wrap_small 32 ((len + 2) * 8 + 8)) by lia.
    eapply paints_below; [apply paints_same_rect; unfold place, extent, VISIBLE, Text.FONT_WIDTH, TASKBAR_HEIGHT in *; lia| |done]. intros px py Hp. apply (below_picture b); [lia|done]. }
  assert (forall s' z ch fg bg, below b s s' -> - 2 ^ 31 <= z < 2 ^ 31 -> returns (draw_clipped_char s' z (i32 (b + 8)) ch fg bg) (below b s)) as Hchar.
  { intros s' z ch fg bg Hs' Hz. eapply returns_mono; [|intros s2; apply below_trans, Hs']. rewrite <- (i32_small z) by done.
    eapply (paints_below b (fun s => draw_clipped_char s _ _ _ _ _)); [apply (paints_char_at z (b + 8)); unfold place, VISIBLE in *; lia| |apply Hs']. intros px py Hp. apply (below_picture b); [lia|done]. }
  assert (forall s' z fg bg, below b s s' -> returns (draw_clipped_string s' (i32 z) (i32 (b + 8)) (Utf8.chars (title w)) fg bg) (below b s)) as Hstr.
  { intros s' z fg bg Hs'. eapply returns_mono; [|intros s2; apply below_trans, Hs']. pose proof (i32_range z) as Hz. rewrite <- (i32_small (i32 z)) by done.
    eapply (paints_below b (fun s => draw_clipped_string s _ _ _ _ _)); [apply (paints_text _ _ _ (b + 8)); unfold place, VISIBLE in *; lia| |apply Hs']. intros px py Hp. apply (below_text b); [lia|done]. }
  destruct (if current then (_, _) else (_, _)) as [fg bg].
  eapply returns_bind; [apply (Hrect bg)|]. intros s1 H1. eapply returns_bind; [by apply Hchar|]. intros s2 H2.
  eapply returns_bind; [by apply Hstr|]. intros s3 H3. eapply returns_bind; [apply Hchar; [done|apply i32_range]|]. intros s4 H4.
  eexists. split; [done|]. split; [done|apply i32_range].
Qed.

Lemma entries_below fb foc b wt ids : (forall w, w ∈ WindowTable.windows wt -> drawable w) -> - 32 <= b <= VISIBLE -> forall s tx, surf_ok s -> - 2 ^ 31 <= tx < 2 ^ 31 ->
  returns (for_windows wt (draw_entry fb foc b) ids (s, tx)) (fun r => below b s r.1).
Proof.
  intros Hd Hb. induction ids as [|k ids IH]; intros s tx Hs Htx; cbn [for_windows]; [by exists (s, tx)|].
  eapply (returns_bind _ _ (fun r => below b s r.1 /\ - 2 ^ 31 <= r.2 < 2 ^ 31)).
  - destruct (WindowTable.get wt k) as [w|] eqn:E; [|by exists (s, tx)]. apply entry_below; try done. apply Hd. unfold WindowTable.get in E.
    apply fmap_Some in E as ([i w'] & E & ->). apply find_slot_sound in E as [E _]. apply list_elem_of_omap. exists (Some w'). split; [by eapply list_elem_of_lookup_2|done].
  - intros [s1 tx1] [H1 H2]. eapply returns_mono; [apply IH; [apply H1|done]|]. intros r. by apply below_trans.
Qed.

Lemma taskbar_below fb wt s : (forall w, w ∈ WindowTable.windows wt -> drawable w) -> surf_ok s ->
  returns (draw_taskbar s fb wt) (below (Surface.height s - 32) s).
Proof.
  intros Hd Hs. pose proof (su_dims s Hs) as [Hw Hh]. unfold draw_taskbar, TASKBAR_HEIGHT. rewrite (i32_small (Surface.height s)) by (unfold VISIBLE in *; lia).
  rewrite (i32_small (Surface.height s - 32)) by (unfold VISIBLE in *; lia).
  eapply returns_bind; [eapply (paints_below (Surface.height s - 32) (fun s' => draw_clipped_filled_rect s' _ _ _ _ _)); [apply paints_rect| |done]; unfold place, extent, VISIBLE in *; try lia|].
  - intros px py Hp. apply (below_picture (Surface.height s - 32)); [lia|done].
  - intros s1 H1. eapply (returns_bind _ _ (fun r => below (Surface.height s - 32) s1 r.1)); [apply entries_below; [done| |apply H1|]; unfold VISIBLE in *; lia|].
    intros [s2 tx] H2. exists s2. split; [done|]. by eapply below_trans.
Qed.

(** ** The composed screen *)
Lemma cleared_ok s c : surf_ok s -> surf_ok (Surface.clear s c).
Proof. intros [Hl Hd]. split; cbn; [by rewrite length_fmap|done]. Qed.

Lemma pix_clear s c px py : surf_ok s -> on s px py -> pix (Surface.clear s c) px py = c.
Proof.
  intros Hs Ho. pose proof (on_index s px py Hs Ho). unfold pix. cbn. apply list_lookup_total_correct. rewrite list_lookup_fmap.
  destruct (lookup_lt_is_Some_2 (Surface.buffer s) (Z.to_nat (py * Surface.width s + px))) as [v ->]; [lia|done].
Qed.

(** Above the taskbar the screen is the stack of the windows over the desktop. *)
Lemma compose_spec fb wt s : (forall w, w ∈ WindowTable.windows wt -> drawable w) -> surf_ok s ->
  returns (compose s fb wt) (fun s' => surf_ok s' /\ Surface.width s' = Surface.width s /\ Surface.height s' = Surface.height s /\
    forall px py, on s px py -> py < Surface.height s - TASKBAR_HEIGHT ->
      pix s' px py = default (Color.to_packed fb DESKTOP_BG) (stack (layer_of fb wt) (WindowTable.sorted_by_z wt) px py)).
Proof.
  intros Hd Hs. unfold compose. pose proof (cleared_ok s (Color.to_packed fb DESKTOP_BG) Hs) as Hc.
  destruct (paints_windows fb wt Hd (WindowTable.sorted_by_z wt) _ Hc) as (s1 & -> & H1 & Hw1 & Hh1 & Hp1). exec_simpl.
  eapply returns_mono; [by apply taskbar_below|]. cbn [Surface.clear Surface.width Surface.height] in Hw1, Hh1. rewrite Hh1. intros s2 (H2 & Hw2 & Hh2 & Hp2).
  split_all; [done|congruence..|]. intros px py Ho Hy. rewrite Hp2; [|unfold on in *; by rewrite Hw1, Hh1|done]. rewrite Hp1 by done.
  destruct (stack _ _ px py); [done|]. by apply pix_clear.
Qed.

Lemma ids_nodup (l : list (option Window.t)) : (forall i j w v, l !! i = Some (Some w) -> l !! j = Some (Some v) -> id w = id v -> i = j) ->
  NoDup (id <$> omap (fun o => o) l).
Proof.
  induction l as [|o l IH]; intros H; [constructor|]. assert (NoDup (id <$> omap (fun o => o) l)) as Hl.
  { apply IH. intros i j w v Hi Hj E. apply Nat.succ_inj. by apply (H (S i) (S j) w v). }
  destruct o as [w|]; [|done]. cbn. constructor; [|done]. intros Hin. apply list_elem_of_fmap in Hin as (v & E & Hv). apply list_elem_of_omap in Hv as (o & Ho & ->).
  apply list_elem_of_lookup_1 in Ho as [j Hj]. by apply (H 0%nat (S j) w v eq_refl Hj) in E.
Qed.

Lemma shown_nodup wt : slots_ok wt -> NoDup (id <$> WindowTable.shown wt).
Proof.
  intros Hs. assert (NoDup (id <$> WindowTable.windows wt)) as H by (apply ids_nodup, Hs). unfold WindowTable.shown.
  induction (WindowTable.windows wt) as [|w l IH]; [done|]. cbn in *. apply NoDup_cons in H as [Hn Hl]. destruct (visible w); [|by apply IH]. cbn. constructor; [|by apply IH].
  intros Hin. apply Hn. apply list_elem_of_fmap in Hin as (v & E & Hv). apply list_elem_of_fmap. exists v. split; [done|]. rewrite list_elem_of_In in Hv |- *. by apply filter_In in Hv as [? _].
Qed.

(** The windows from bottom to top. *)
Lemma sorted_split wt w : slots_ok wt -> w ∈ WindowTable.shown wt -> exists before after, WindowTable.sorted_by_z wt = before ++ id w :: after /\
  forall k, k ∈ after -> exists v, v ∈ WindowTable.shown wt /\ id v = k /\ z_order w <= z_order v /\ id v <> id w.
Proof.
  intros Hs Hw. set (l := (fun w => (z_order w, id w)) <$> WindowTable.shown wt). pose proof (TableSpec.sort_sorted l) as Hsort. pose proof (TableSpec.sort_perm l) as Hperm.
  assert ((z_order w, id w) ∈ WindowTable.sort_by_key l) as Hin by (rewrite Hperm; unfold l; apply list_elem_of_fmap; by exists w).
  apply list_elem_of_split in Hin as (l1 & l2 & El). exists (snd <$> l1), (snd <$> l2). split; [unfold WindowTable.sorted_by_z; fold l; by rewrite El, fmap_app|].
  rewrite El in Hsort, Hperm. apply StronglySorted_app_1_r in Hsort. apply StronglySorted_inv in Hsort as [_ Hle].
  intros k Hk. apply list_elem_of_fmap in Hk as (p & -> & Hp). rewrite Forall_forall in Hle. pose proof (Hle p Hp) as Hle'.
  assert (p ∈ l) as Hpl by (rewrite <- Hperm; set_solver). apply list_elem_of_fmap in Hpl as (v & -> & Hv). exists v. split_all; try done. cbn.
  assert (NoDup (snd <$> (l1 ++ (z_order w, id w) :: l2))) as Hnd.
  { rewrite Hperm. unfold l. rewrite <- list_fmap_compose. by apply shown_nodup. }
  rewrite fmap_app, fmap_cons in Hnd. apply NoDup_app in Hnd as (_ & _ & Hnd). apply NoDup_cons in Hnd as [Hnd _].
  intros E. apply Hnd. cbn. rewrite <- E. apply list_elem_of_fmap. by exists (z_order v, id v).
Qed.

(** ** The frame buffer *)

(** Four bytes for each pixel, and rows that do not overlap. *)
Definition packed32 (fb : FramebufferInfo.t) : Prop :=
  FramebufferInfo.bpp fb = 32 /\ 4 * FramebufferInfo.width fb <= FramebufferInfo.pitch fb /\
  FramebufferInfo.pitch fb * FramebufferInfo.height fb <= FramebufferInfo.size fb.

Definition offset (fb : FramebufferInfo.t) (px py : Z) : Z := py * FramebufferInfo.pitch fb + px * FramebufferInfo.bytes_per_pixel fb.

Record fb_ok (fb : FramebufferInfo.t) (mem : list Z) : Prop := {
  fb_dims : 0 <= FramebufferInfo.width fb /\ 0 <= FramebufferInfo.height fb;
  fb_units : 0 <= FramebufferInfo.pitch fb /\ 0 <= FramebufferInfo.bpp fb;
  fb_mem : Z.of_nat (length mem) = FramebufferInfo.size fb;
}.

(** A loop invariant for [for i in 0..n]. *)
Lemma each_range {A} (f : A -> Z -> exec A) (P : Z -> A -> Prop) n a : 0 <= n -> P 0 a ->
  (forall i a, 0 <= i < n -> P i a -> returns (f a i) (P (i + 1))) -> returns (each f (range 0 n) a) (P n).
Proof.
  intros Hn H0 Hf. unfold range. rewrite Z.sub_0_r. assert (forall m i a, 0 <= m -> 0 <= i -> i + m = n -> P i a -> returns (each f (seqZ i m) a) (P n)) as H; [|by apply (H n 0)].
  intros m i a' Hm. revert i a'. pattern m. revert m Hm. apply natlike_ind.
  - intros i a' Hi E HP. rewrite seqZ_nil by lia. replace n with i by lia. by exists a'.
  - intros m Hm IH i a' Hi E HP. rewrite seqZ_cons by lia. cbn [each]. eapply returns_bind; [apply Hf; [lia|done]|]. intros a2 HP2.
    replace (Z.pred (Z.succ m)) with m by lia. apply IH; [lia|lia|]. replace (Z.succ i) with (i + 1) by lia. done.
Qed.

Lemma offset_apart fb px py qx qy : packed32 fb -> 0 <= px < FramebufferInfo.width fb -> 0 <= qx < FramebufferInfo.width fb -> (px, py) <> (qx, qy) ->
  offset fb px py + 4 <= offset fb qx qy \/ offset fb qx qy + 4 <= offset fb px py.
Proof.
  intros (Hb & Hp & _) Hx Hy Hne. unfold offset, FramebufferInfo.bytes_per_pixel. rewrite Hb. change (32 / 8) with 4.
  destruct (Z.lt_trichotomy py qy) as [H|[->|H]]; [left; nia| |right; nia]. assert (px <> qx) by congruence. lia.
Qed.

Lemma offset_in fb px py : packed32 fb -> 0 <= px < FramebufferInfo.width fb -> 0 <= py < FramebufferInfo.height fb ->
  0 <= offset fb px py /\ offset fb px py + 4 <= FramebufferInfo.size fb.
Proof.
  intros (Hb & Hp & Hs) Hx Hy. unfold offset, FramebufferInfo.bytes_per_pixel. rewrite Hb. change (32 / 8) with 4. nia.
Qed.

Definition shows (fb : FramebufferInfo.t) (mem : list Z) (px py v : Z) : Prop :=
  slice_get mem (offset fb px py) (offset fb px py + 4) = Done (le_bytes 4 v).

(** One pixel. *)
Lemma write_at_ok fb mem px py v : fb_ok fb mem -> 0 <= px < FramebufferInfo.width fb -> 0 <= py < FramebufferInfo.height fb ->
  returns (FramebufferInfo.write_at fb mem (offset fb px py) v) (fun mem' => fb_ok fb mem' /\
    (packed32 fb -> shows fb mem' px py v /\
       forall qx qy u, 0 <= qx < FramebufferInfo.width fb -> 0 <= qy < FramebufferInfo.height fb -> (px, py) <> (qx, qy) -> shows fb mem qx qy u -> shows fb mem' qx qy u)).
Proof.
  intros [Hd [Hpi Hbp] Hm] Hx Hy. assert (0 <= offset fb px py) as H0. { unfold offset, FramebufferInfo.bytes_per_pixel. pose proof (Z.div_pos (FramebufferInfo.bpp fb) 8 Hbp ltac:(lia)). nia. }
  unfold FramebufferInfo.write_at, FramebufferInfo.store32. destruct (Z.ltb_spec (offset fb px py + 3) (FramebufferInfo.size fb)) as [Hlt|Hge].
  - destruct (slice_set_Done mem (le_bytes 4 v) (offset fb px py) (offset fb px py + 4)) as (mem' & -> & Hl & Hg & Ho); [lia|lia|rewrite length_le_bytes; lia|].
    exists mem'. split; [done|]. split; [split; [done|done|lia]|]. intros Hp. split; [exact Hg|]. intros qx qy u Hqx Hqy Hne Hu. unfold shows in *.
    pose proof (offset_in fb qx qy Hp Hqx Hqy). rewrite Ho; [done|lia|lia|]. destruct (offset_apart fb px py qx qy Hp Hx Hqx Hne); lia.
  - exists mem. split; [done|]. split; [done|]. intros Hp. pose proof (offset_in fb px py Hp Hx Hy). lia.
Qed.

(** The whole surface. *)
Lemma present_ok s fb mem : Z.of_nat (length (Surface.buffer s)) = Surface.width s * Surface.height s -> 0 <= Surface.width s -> 0 <= Surface.height s -> fb_ok fb mem ->
  returns (present s fb mem) (fun mem' => fb_ok fb mem' /\ (packed32 fb -> forall px py,
    0 <= px < Z.min (Surface.width s) (FramebufferInfo.width fb) -> 0 <= py < Z.min (Surface.height s) (FramebufferInfo.height fb) -> shows fb mem' px py (pix s px py))).
Proof.
  intros Hl Hw Hh Hfb. unfold present. set (w := Z.min (Surface.width s) _). set (h := Z.min (Surface.height s) _). pose proof (fb_dims fb mem Hfb) as [Hfw Hfh].
  eapply returns_mono; [apply (each_range _ (fun y mem => fb_ok fb mem /\ (packed32 fb -> forall px py, 0 <= px < w -> 0 <= py < y -> shows fb mem px py (pix s px py)))); [lia|split; [done|lia]|]|done].
  intros y mem1 Hy [Hm1 Hs1]. eapply returns_mono; [apply (each_range _ (fun x mem => fb_ok fb mem /\ (packed32 fb -> forall px py, 0 <= px < w -> 0 <= py < y \/ py = y /\ px < x -> shows fb mem px py (pix s px py)))); [lia| |]|].
  - split; [done|]. intros Hp px py Hpx [Hpy|[_ ?]]; [by apply Hs1|lia].
  - intros x mem2 Hx [Hm2 Hs2]. destruct (arr_get_in (Surface.buffer s) (y * Surface.width s + x)) as (v & Ev & Hv); [nia|]. rewrite Ev. exec_simpl.
    eapply returns_mono; [apply (write_at_ok fb mem2 x y v Hm2); lia|]. intros mem3 [Hm3 Hs3]. split; [done|]. intros Hp px py Hpx Hpy.
    destruct (Hs3 Hp) as [Hnew Hold]. destruct (decide ((x, y) = (px, py))) as [[= <- <-]|Hne].
    + assert (pix s x y = v) as ->; [|done]. unfold pix. by apply list_lookup_total_correct.
    + apply Hold; [lia|lia|done|]. apply Hs2; [done|done|]. destruct Hpy as [?|[-> Hpx']]; [by left|]. right. split; [done|]. assert (px <> x) by congruence. lia.
  - intros mem3 [Hm3 Hs3]. split; [done|]. intros Hp px py Hpx Hpy. apply Hs3; [done|done|]. destruct (decide (py = y)) as [->|]; [right; lia|left; lia].
Qed.

(** ** The display *)
Record display_ok (ds : DisplayState) : Prop := {
  do_fb : fb_ok (fb ds) (memory ds);
  do_surface : surf_ok (Display.surface ds);
  do_dims : Surface.width (Display.surface ds) = FramebufferInfo.width (fb ds) /\ Surface.height (Display.surface ds) = FramebufferInfo.height (fb ds);
}.

(** What the screen shows above the taskbar. *)
Lemma compose_and_present_spec ds wt : display_ok ds -> (forall w, w ∈ WindowTable.windows wt -> drawable w) ->
  exists ds', compose_and_present (Some ds) wt = Done (Some ds') /\ fb ds' = fb ds /\ display_ok ds' /\
    (packed32 (fb ds) -> forall px py, 0 <= px < FramebufferInfo.width (fb ds) -> 0 <= py < FramebufferInfo.height (fb ds) - TASKBAR_HEIGHT ->
      shows (fb ds) (memory ds') px py (default (Color.to_packed (fb ds) DESKTOP_BG) (stack (layer_of (fb ds) wt) (WindowTable.sorted_by_z wt) px py))).
Proof.
  intros [Hfb Hs [Ew Eh]] Hd. unfold compose_and_present. destruct (compose_spec (fb ds) wt (Display.surface ds) Hd Hs) as (s' & -> & Hs' & Hw & Hh & Hp). exec_simpl.
  pose proof (su_dims s' Hs') as [Hdw Hdh]. destruct (present_ok s' (fb ds) (memory ds) (su_size s' Hs') ltac:(lia) ltac:(lia) Hfb) as (mem & -> & Hm & Hshow). exec_simpl.
  eexists. split; [done|]. split; [done|]. split; [split; cbn; [done|done|split; congruence]|]. cbn [memory fb]. intros Hp32 px py Hx Hy.
  rewrite <- Hp; [|split; rewrite ?Ew, ?Eh; unfold TASKBAR_HEIGHT in *; lia|lia]. apply Hshow; [done|rewrite Hw, Ew; lia|rewrite Hh, Eh; unfold TASKBAR_HEIGHT in *; lia].
Qed.

End CompositorSpec.
