(* ===== verification/Memory.v ===== *)
(** * Physical memory and the frame allocator (src/kernel/src/memory/)

    The buddy allocator of frame.rs: free lists threaded through the free
    blocks themselves, a bitmap with one bit per frame, splitting and merging.

    The kernel reaches physical memory through a linear mapping (HHDM):
    [PhysAddr::to_virt] adds a constant to the physical address. The model
    indexes memory by physical address and leaves the constant out. The canaries
    and consistency checks of debug builds are not part of it. *)

From S2P Require Import Prelude.

Definition PAGE_SIZE : Z := 4096.

(** ** Memory: the byte at every physical address *)
Module Mem.

Definition t : Type := Z -> Z.

(** [ptr::copy_nonoverlapping] and [*p = v], byte by byte. *)
Definition store (m : t) (a : Z) (bs : list Z) : t :=
  fun x => if decide (a <= x < a + Z.of_nat (length bs)) then bs !!! Z.to_nat (x - a) else m x.

Definition read_u64 (m : t) (a : Z) : Z := le_value (m <$> seqZ a 8).
Definition write_u64 (m : t) (a v : Z) : t := store m a (le_bytes 8 v).

(** [ptr::write_bytes]. *)
Definition fill (m : t) (a n v : Z) : t := store m a (replicate (Z.to_nat n) v).

End Mem.

(** ** Links of the free lists *)
Module FreeBlockPtr.

Definition NULL : Z := 0.
Definition from_frame (frame : Z) : Z := wrap 64 (frame * PAGE_SIZE).
Definition is_null (p : Z) : bool := p =? 0.
Definition to_frame (p : Z) : Z := p / PAGE_SIZE.
Definition read_next (m : Mem.t) (p : Z) : Z := Mem.read_u64 m p.
Definition write_next (m : Mem.t) (p next : Z) : Mem.t := Mem.write_u64 m p next.

End FreeBlockPtr.

Module BuddyAllocator.
Import FreeBlockPtr.

Definition MAX_ORDER : Z := 10.
Definition MAX_PHYS_ADDR : Z := 0x40000000.
Definition MAX_FRAMES : Z := MAX_PHYS_ADDR / PAGE_SIZE.
Definition BITMAP_SIZE : Z := MAX_FRAMES / 8.

Record t := mk {
  free_lists : list Z;
  bitmap : list Z;
  total_frames : Z;
  free_frames : Z;
  max_order : Z;
  initialized : bool;
}.

Definition eta (a : t) : t :=
  mk (free_lists a) (bitmap a) (total_frames a) (free_frames a) (max_order a) (initialized a).

Definition set_free_lists (v : list Z) (a : t) : t := ltac:(set_field eta free_lists v a).
Definition set_bitmap (v : list Z) (a : t) : t := ltac:(set_field eta bitmap v a).
Definition set_total_frames (v : Z) (a : t) : t := ltac:(set_field eta total_frames v a).
Definition set_free_frames (v : Z) (a : t) : t := ltac:(set_field eta free_frames v a).
Definition set_max_order (v : Z) (a : t) : t := ltac:(set_field eta max_order v a).
Definition set_initialized (v : bool) (a : t) : t := ltac:(set_field eta initialized v a).

Definition new : t :=
  mk (replicate (Z.to_nat (MAX_ORDER + 1)) NULL) (replicate (Z.to_nat BITMAP_SIZE) 0xFF) 0 0 0 false.

(** [1usize << n]: the shift amount is taken modulo 64. *)
Definition usize_shl1 (n : Z) : Z := Z.shiftl 1 (n mod 64).

(** *** The bitmap *)
Definition set_bit (frame : Z) (a : t) : exec t :=
  b ← arr_get (bitmap a) (frame / 8);
  bs ← arr_set (bitmap a) (frame / 8) (Z.lor b (Z.shiftl 1 (frame mod 8)));
  Done (set_bitmap bs a).

Definition clear_bit (frame : Z) (a : t) : exec t :=
  b ← arr_get (bitmap a) (frame / 8);
  bs ← arr_set (bitmap a) (frame / 8) (Z.land b (lnot_u 8 (Z.shiftl 1 (frame mod 8))));
  Done (set_bitmap bs a).

(** The bound on the frame keeps the index inside the bitmap. *)
Definition is_free (a : t) (frame : Z) : bool :=
  (frame <? MAX_FRAMES) &&
  match bitmap a !! Z.to_nat (frame / 8) with
  | Some b => Z.land b (Z.shiftl 1 (frame mod 8)) =? 0
  | None => false
  end.

(** The loops that mark a block. *)
Fixpoint set_bits (frames : list Z) (a : t) : exec t :=
  match frames with
  | [] => Done a
  | f :: frames' => a ← set_bit f a; set_bits frames' a
  end.

Fixpoint clear_bits (frames : list Z) (a : t) : exec t :=
  match frames with
  | [] => Done a
  | f :: frames' => a ← clear_bit f a; clear_bits frames' a
  end.

(** *** The free lists, whose links lie in memory *)
Definition push_free_list (frame order : Z) (am : t * Mem.t) : exec (t * Mem.t) :=
  let '(a, m) := am in
  let ptr := from_frame frame in
  head ← arr_get (free_lists a) order;
  let m := write_next m ptr head in
  fl ← arr_set (free_lists a) order ptr;
  Done (set_free_lists fl a, m).

Definition pop_free_list (order : Z) (am : t * Mem.t) : exec (option Z * (t * Mem.t)) :=
  let '(a, m) := am in
  head ← arr_get (free_lists a) order;
  if is_null head then Done (None, (a, m))
  else
    fl ← arr_set (free_lists a) order (read_next m head);
    Done (Some (to_frame head), (set_free_lists fl a, m)).

(** The walk to the predecessor of [target]; it panics after [MAX_FRAMES] steps. *)
Fixpoint unlink (k : nat) (target current : Z) (m : Mem.t) : exec (bool * Mem.t) :=
  if is_null current then Done (false, m)
  else
    match k with
    | O => Panicked
    | S k' =>
        let next := read_next m current in
        if next =? target then Done (true, write_next m current (read_next m target))
        else unlink k' target next m
    end.

Definition remove_from_free_list (frame order : Z) (am : t * Mem.t) : exec (bool * (t * Mem.t)) :=
  let '(a, m) := am in
  let target := from_frame frame in
  head ← arr_get (free_lists a) order;
  if is_null head then Done (false, (a, m))
  else if head =? target then
    fl ← arr_set (free_lists a) order (read_next m target);
    Done (true, (set_free_lists fl a, m))
  else
    r ← unlink (Z.to_nat MAX_FRAMES) target head m;
    Done (r.1, (a, r.2)).

(** *** Initialisation *)
Definition ceil_div (a b : Z) : Z := wrap 64 (a + b - 1) / b.

Definition usable_bit (frame : Z) (a : t) : exec t :=
  if frame <? MAX_FRAMES then
    a ← clear_bit frame a;
    Done (set_free_frames (free_frames a + 1) (set_total_frames (total_frames a + 1) a))
  else Done a.

Fixpoint usable_bits (frames : list Z) (a : t) : exec t :=
  match frames with
  | [] => Done a
  | f :: frames' => a ← usable_bit f a; usable_bits frames' a
  end.

(** The frames [start_frame..end_frame] of a region. *)
Definition region_frames (region : Z * Z) : list Z :=
  let start_frame := ceil_div region.1 PAGE_SIZE in
  let end_frame := u64_add region.1 region.2 / PAGE_SIZE in
  seqZ start_frame (end_frame - start_frame).

Fixpoint mark_regions (regions : list (Z * Z)) (a : t) : exec t :=
  match regions with
  | [] => Done a
  | r :: regions' => a ← usable_bits (region_frames r) a; mark_regions regions' a
  end.

Fixpoint grow_order (k : nat) (a : t) (frame order : Z) : Z :=
  match k with
  | O => order
  | S k' =>
      let next_size := Z.shiftl 1 (order + 1) in
      if negb (frame mod next_size =? 0) then order
      else if forallb (fun i => (frame + i <? MAX_FRAMES) && is_free a (frame + i))
                (seqZ (Z.shiftl 1 order) (next_size - Z.shiftl 1 order))
      then grow_order k' a frame (order + 1)
      else order
  end.

Definition max_block_order (a : t) (frame : Z) : Z := grow_order (Z.to_nat MAX_ORDER) a frame 0.

(** [while frame < MAX_FRAMES]: every round moves on by at least one frame. *)
Fixpoint build_loop (fuel : nat) (frame : Z) (am : t * Mem.t) : exec (t * Mem.t) :=
  match fuel with
  | O => Diverged
  | S fuel' =>
      if frame <? MAX_FRAMES then
        if negb (is_free am.1 frame) then build_loop fuel' (frame + 1) am
        else
          let order := max_block_order am.1 frame in
          let a := if max_order am.1 <? order then set_max_order order am.1 else am.1 in
          am ← push_free_list frame order (a, am.2);
          build_loop fuel' (frame + Z.shiftl 1 order) am
      else Done am
  end.

Definition build_free_lists (am : t * Mem.t) : exec (t * Mem.t) :=
  build_loop (S (Z.to_nat MAX_FRAMES)) 0 am.

Definition init_from_regions (regions : list (Z * Z)) (am : t * Mem.t) : exec (t * Mem.t) :=
  a ← mark_regions regions am.1;
  am ← build_free_lists (a, am.2);
  Done (set_initialized true am.1, am.2).

(** *** Allocation *)

(** The smallest order from [order] on with a free block: [k] orders remain. *)
Fixpoint find_order (k : nat) (order : Z) (a : t) : exec (option Z) :=
  match k with
  | O => Done None
  | S k' =>
      head ← arr_get (free_lists a) order;
      if is_null head then find_order k' (order + 1) a else Done (Some order)
  end.

(** [while avail_order > order]: the upper halves go back to the lists. *)
Fixpoint split_block (k : nat) (frame order : Z) (am : t * Mem.t) : exec (t * Mem.t) :=
  match k with
  | O => Done am
  | S k' =>
      let avail_order := order + Z.of_nat k' in
      am ← push_free_list (frame + Z.shiftl 1 avail_order) avail_order am;
      split_block k' frame order am
  end.

Definition allocate (order : Z) (am : t * Mem.t) : exec (option Z * (t * Mem.t)) :=
  if negb (initialized am.1) || (MAX_ORDER <? order) then Done (None, am)
  else
    avail ← find_order (Z.to_nat (MAX_ORDER + 1 - order)) order am.1;
    match avail with
    | None => Done (None, am)
    | Some avail_order =>
        r ← pop_free_list avail_order am;
        match r.1 with
        | None => Done (None, r.2)
        | Some frame =>
            am ← split_block (Z.to_nat (avail_order - order)) frame order r.2;
            let count := usize_shl1 order in
            a ← set_bits (seqZ frame count) am.1;
            Done (Some (from_frame frame),
                  (set_free_frames (wrap 64 (free_frames a - count)) a, am.2))
        end
    end.

(** *** Deallocation *)

(** [while current_order < MAX_ORDER]: [k] orders remain. *)
Fixpoint merge_loop (k : nat) (frame order : Z) (am : t * Mem.t) : exec (Z * Z * (t * Mem.t)) :=
  match k with
  | O => Done (frame, order, am)
  | S k' =>
      let buddy_size := Z.shiftl 1 order in
      let buddy_frame := Z.lxor frame buddy_size in
      if forallb (fun i => (buddy_frame + i <? MAX_FRAMES) && is_free am.1 (buddy_frame + i))
           (seqZ 0 buddy_size)
      then
        '(removed, am) ← remove_from_free_list buddy_frame order am;
        if (removed : bool) then merge_loop k' (Z.min frame buddy_frame) (order + 1) am
        else Done (frame, order, am)
      else Done (frame, order, am)
  end.

Definition deallocate (addr order : Z) (am : t * Mem.t) : exec (t * Mem.t) :=
  let frame := addr / PAGE_SIZE in
  let count := usize_shl1 order in
  a ← clear_bits (seqZ frame count) am.1;
  let a := set_free_frames (wrap 64 (free_frames a + count)) a in
  '(frame, order, am) ← merge_loop (Z.to_nat (MAX_ORDER - order)) frame order (a, am.2);
  push_free_list frame order am.

Definition available_frames (a : t) : Z := free_frames a.
Definition used_frames (a : t) : Z := wrap 64 (total_frames a - free_frames a).

Definition allocate_frame (am : t * Mem.t) : exec (option Z * (t * Mem.t)) := allocate 0 am.
Definition deallocate_frame (addr : Z) (am : t * Mem.t) : exec (t * Mem.t) := deallocate addr 0 am.

End BuddyAllocator.
