(* ===== verification/FrameSpec.v ===== *)
(** * What the frame allocator promises

    The free lists hold aligned, disjoint, maximal blocks that together cover
    exactly the frames the bitmap calls free; every operation returns and keeps
    this. *)

From S2P Require Import Prelude Memory.

(** ** Bytes and words of memory *)
Module MemFacts.
Import Mem.

Lemma store_out m a bs x : x < a \/ a + Z.of_nat (length bs) <= x -> store m a bs x = m x.
Proof. intros Hx. unfold store. rewrite decide_False; [done|lia]. Qed.

Lemma store_in m a bs i b : bs !! i = Some b -> store m a bs (a + Z.of_nat i) = b.
Proof.
  intros Hb. pose proof (lookup_lt_Some _ _ _ Hb). unfold store. rewrite decide_True by lia.
  replace (Z.to_nat (a + Z.of_nat i - a)) with i by lia. by apply list_lookup_total_correct.
Qed.

Lemma write_u64_out m a v x : x < a \/ a + 8 <= x -> write_u64 m a v x = m x.
Proof. intros Hx. apply store_out. rewrite length_le_bytes. lia. Qed.

(** A word depends on its eight bytes. *)
Lemma read_u64_ext m m' a : (forall x, a <= x < a + 8 -> m' x = m x) -> read_u64 m' a = read_u64 m a.
Proof.
  intros Hm. unfold read_u64. f_equal. apply list_fmap_ext. intros i x Hx.
  apply lookup_seqZ in Hx as [-> Hi]. apply Hm. lia.
Qed.

Lemma read_write_u64 m a v : in_u 64 v -> read_u64 (write_u64 m a v) a = v.
Proof.
  intros Hv. unfold read_u64. rewrite <- (Z.mod_small v (2 ^ 64)) by done.
  replace (2 ^ 64) with (2 ^ (8 * Z.of_nat 8)) by done. rewrite <- le_value_bytes. f_equal.
  rewrite le_value_bytes, Z.mod_small by done.
  apply list_eq. intros i. rewrite list_lookup_fmap.
  destruct (decide (i < 8)%nat) as [Hi|Hi].
  - rewrite lookup_seqZ_lt by lia. cbn [fmap option_fmap option_map].
    destruct (lookup_lt_is_Some_2 (le_bytes 8 v) i) as [b Hb]; [by rewrite length_le_bytes|].
    rewrite Hb. f_equal. by apply store_in.
  - rewrite lookup_seqZ_ge by lia. rewrite lookup_ge_None_2; [done|]. rewrite length_le_bytes. lia.
Qed.

Lemma read_write_u64_out m a v b : b + 8 <= a \/ a + 8 <= b -> read_u64 (write_u64 m a v) b = read_u64 m b.
Proof. intros H. apply read_u64_ext. intros x Hx. apply write_u64_out. lia. Qed.

Lemma read_u64_range m a : (forall x, a <= x < a + 8 -> 0 <= m x < 256) -> in_u 64 (read_u64 m a).
Proof.
  intros Hm. unfold read_u64. pose proof (le_value_range (m <$> seqZ a 8)) as Hl.
  rewrite length_fmap, length_seqZ in Hl. apply Hl. apply Forall_fmap, Forall_forall. intros x Hx%elem_of_seqZ.
  apply Hm. lia.
Qed.

End MemFacts.

(** ** Blocks: [2^o] frames from an aligned one on *)
Module Blocks.

Definition block (f o : Z) : gset Z := list_to_set (seqZ f (2 ^ o)).

Definition aligned (f o : Z) : Prop := (2 ^ o | f).

Lemma elem_of_block f o x : x ∈ block f o <-> f <= x < f + 2 ^ o.
Proof. unfold block. rewrite elem_of_list_to_set, elem_of_seqZ. done. Qed.

Lemma size_block f o : 0 <= o -> Z.of_nat (size (block f o)) = 2 ^ o.
Proof.
  intros Ho. unfold block. rewrite size_list_to_set by apply NoDup_seqZ. rewrite length_seqZ.
  apply Z2Nat.id, Z.pow_nonneg. lia.
Qed.

Lemma block_head f o : 0 <= o -> f ∈ block f o.
Proof. intros Ho. apply elem_of_block. pose proof (pow2_pos o Ho). lia. Qed.

(** An aligned block that meets a larger one lies inside it. *)
Lemma block_nested f o f' o' x : 0 <= o <= o' -> aligned f o -> aligned f' o' ->
  x ∈ block f o -> x ∈ block f' o' -> block f o ⊆ block f' o'.
Proof.
  intros Ho [q ->] [r ->] Hx Hx' y. rewrite !elem_of_block in *.
  assert (2 ^ o' = 2 ^ (o' - o) * 2 ^ o) as E by (rewrite <- Z.pow_add_r by lia; f_equal; lia).
  pose proof (pow2_pos o ltac:(lia)) as Hs. pose proof (pow2_pos (o' - o) ltac:(lia)) as Ht.
  rewrite E in *. generalize dependent (2 ^ (o' - o)). generalize dependent (2 ^ o). intros s Hx Hs t Hx' _ Ht Hy.
  assert (r * t <= q) by nia. assert (q < r * t + t) by nia. nia.
Qed.

Lemma block_inside f o f' o' : 0 <= o -> block f o ⊆ block f' o' -> f' <= f /\ f + 2 ^ o <= f' + 2 ^ o'.
Proof.
  intros Ho Hs. pose proof (Hs f (block_head f o Ho)) as Hf.
  assert (f + 2 ^ o - 1 ∈ block f' o') as Hl. { apply Hs, elem_of_block. pose proof (pow2_pos o Ho). lia. }
  rewrite elem_of_block in *. lia.
Qed.

(** Equal orders: the same block. *)
Lemma block_same f f' o x : 0 <= o -> aligned f o -> aligned f' o -> x ∈ block f o -> x ∈ block f' o -> f = f'.
Proof.
  intros Ho Hf Hf' Hx Hx'.
  assert (block f o ⊆ block f' o) as H1%block_inside by (eapply block_nested; [|done..]; lia); [|done]. lia.
Qed.

Lemma aligned_le f o o' : 0 <= o <= o' -> aligned f o' -> aligned f o.
Proof. intros Ho Hf. unfold aligned in *. etrans; [|exact Hf]. exists (2 ^ (o' - o)). rewrite <- Z.pow_add_r by lia. f_equal. lia. Qed.

(** The upper half of a block. *)
Lemma block_split f o : 0 <= o -> block f (o + 1) = block f o ∪ block (f + 2 ^ o) o.
Proof.
  intros Ho. apply set_eq. intros x. rewrite elem_of_union, !elem_of_block, Z.pow_add_r by lia. lia.
Qed.

Lemma block_halves_disjoint f o : block f o ## block (f + 2 ^ o) o.
Proof. intros x. rewrite !elem_of_block. lia. Qed.

Lemma aligned_upper f o : 0 <= o -> aligned f (o + 1) -> aligned (f + 2 ^ o) o.
Proof. intros Ho Hf. apply Z.divide_add_r; [|done]. eapply aligned_le; [|exact Hf]. lia. Qed.

(** The buddy: the other half of the next larger block. *)
Definition buddy (f o : Z) : Z := Z.lxor f (2 ^ o).

Lemma lxor_1 q : Z.lxor q 1 = if Z.even q then q + 1 else q - 1.
Proof.
  destruct (Z.even q) eqn:E.
  - apply Z.even_spec in E as [k ->]. rewrite <- Z.add_nocarry_lxor; [done|].
    change 1 with (2 ^ 1 - 1). rewrite land_ones_mod by lia. change (2 ^ 1) with 2.
    rewrite (Z.mul_comm 2 k). by apply Z.mod_mul.
  - assert (Z.odd q = true) as [k ->]%Z.odd_spec by (by rewrite <- Z.negb_even, E).
    assert (2 * k + 1 = Z.lxor (2 * k) 1) as Hk.
    { rewrite <- Z.add_nocarry_lxor; [done|].
      change 1 with (2 ^ 1 - 1). rewrite land_ones_mod by lia. change (2 ^ 1) with 2.
      rewrite (Z.mul_comm 2 k). by apply Z.mod_mul. }
    rewrite Hk at 1. rewrite Z.lxor_assoc, Z.lxor_nilpotent, Z.lxor_0_r. lia.
Qed.

(** Either the block is the lower half and the buddy follows, or the other way round. *)
Lemma buddy_cases f o : 0 <= o -> aligned f o ->
  (aligned f (o + 1) /\ buddy f o = f + 2 ^ o) \/ (aligned (buddy f o) (o + 1) /\ buddy f o = f - 2 ^ o).
Proof.
  intros Ho [q ->]. unfold buddy, aligned.
  assert (Z.lxor (q * 2 ^ o) (2 ^ o) = Z.lxor q 1 * 2 ^ o) as ->.
  { rewrite <- (Z.shiftl_mul_pow2 q), <- (Z.shiftl_mul_pow2 (Z.lxor q 1)) by done.
    rewrite Z.shiftl_lxor. f_equal. by rewrite Z.shiftl_1_l. }
  rewrite lxor_1, Z.pow_add_r by lia. change (2 ^ 1) with 2. destruct (Z.even q) eqn:E; [left|right].
  - apply Z.even_spec in E as [k ->]. split; [exists k|]; lia.
  - assert (Z.odd q = true) as [k ->]%Z.odd_spec by (by rewrite <- Z.negb_even, E).
    split; [exists k|]; lia.
Qed.

Lemma buddy_lower f o : 0 <= o -> aligned f (o + 1) -> buddy f o = f + 2 ^ o.
Proof.
  intros Ho Hf. assert (aligned f o) as Hf0 by (eapply aligned_le; [|exact Hf]; lia).
  destruct (buddy_cases f o Ho Hf0) as [[_ E]|[[k Hk] E]]; [done|].
  destruct Hf as [k' ->]. rewrite E in Hk. rewrite Z.pow_add_r in Hk by lia. change (2 ^ 1) with 2 in Hk.
  pose proof (pow2_pos o Ho). assert (2 * k = 2 * k' - 1) by nia. lia.
Qed.

Lemma buddy_aligned f o : 0 <= o -> aligned f o -> aligned (buddy f o) o.
Proof.
  intros Ho Hf. destruct (buddy_cases f o Ho Hf) as [[_ ->]|[H _]].
  - by apply Z.divide_add_r.
  - eapply aligned_le; [|exact H]. lia.
Qed.

Lemma buddy_invol f o : buddy (buddy f o) o = f.
Proof. unfold buddy. by rewrite Z.lxor_assoc, Z.lxor_nilpotent, Z.lxor_0_r. Qed.

(** The merged block. *)
Lemma merge_block f o : 0 <= o -> aligned f o ->
  aligned (f `min` buddy f o) (o + 1) /\ block f o ## block (buddy f o) o /\
  block (f `min` buddy f o) (o + 1) = block f o ∪ block (buddy f o) o.
Proof.
  intros Ho Hf. pose proof (pow2_pos o Ho). destruct (buddy_cases f o Ho Hf) as [[Ha E]|[Ha E]].
  - rewrite E, Z.min_l by lia. split_all; [done|apply block_halves_disjoint|by apply block_split].
  - rewrite E in *. rewrite Z.min_r by lia. rewrite block_split by done.
    replace (f - 2 ^ o + 2 ^ o) with f by lia. split_all; [done| |set_solver].
    pose proof (block_halves_disjoint (f - 2 ^ o) o) as Hd.
    replace (f - 2 ^ o + 2 ^ o) with f in Hd by lia. set_solver.
Qed.

End Blocks.

(** ** The bitmap *)
Module BitmapFacts.
Import BuddyAllocator.

Lemma land_bit b k : 0 <= k -> (Z.land b (Z.shiftl 1 k) =? 0) = negb (Z.testbit b k).
Proof.
  intros Hk. rewrite Z.shiftl_1_l. destruct (Z.testbit b k) eqn:E; cbn.
  - apply Z.eqb_neq. intros H0. apply (f_equal (fun z => Z.testbit z k)) in H0.
    rewrite Z.land_spec, Z.pow2_bits_true, E, Z.bits_0 in H0 by done. done.
  - apply Z.eqb_eq, Z.bits_inj'. intros j Hj. rewrite Z.land_spec, Z.bits_0, Z.pow2_bits_eqb by done.
    destruct (Z.eqb_spec k j) as [<-|]; [by rewrite E|]. by rewrite andb_false_r.
Qed.

Lemma lnot_bit k j : 0 <= k < 8 -> 0 <= j < 8 ->
  Z.testbit (lnot_u 8 (Z.shiftl 1 k)) j = negb (k =? j).
Proof.
  intros Hk Hj.
  assert (k ∈ seqZ 0 8) as Hk' by (apply elem_of_seqZ; lia).
  assert (j ∈ seqZ 0 8) as Hj' by (apply elem_of_seqZ; lia).
  revert k Hk Hk' j Hj Hj'.
  assert (forallb (fun k => forallb (fun j => eqb (Z.testbit (lnot_u 8 (Z.shiftl 1 k)) j) (negb (k =? j)))
    (seqZ 0 8)) (seqZ 0 8) = true) as H by (vm_compute; reflexivity).
  intros k _ Hk j _ Hj. rewrite forallb_forall in H. apply list_elem_of_In, H in Hk.
  rewrite forallb_forall in Hk. apply list_elem_of_In, Hk in Hj. by apply eqb_prop.
Qed.

(** The bit of a frame, inside the bitmap. *)
Lemma is_free_bit a x b : 0 <= x < MAX_FRAMES -> bitmap a !! Z.to_nat (x / 8) = Some b ->
  is_free a x = negb (Z.testbit b (x mod 8)).
Proof.
  intros Hx Hb. unfold is_free. rewrite Hb, land_bit by (apply Z.mod_pos_bound; lia).
  destruct (Z.ltb_spec x MAX_FRAMES); [done|lia].
Qed.

Lemma byte_of a x : length (bitmap a) = Z.to_nat BITMAP_SIZE -> 0 <= x < MAX_FRAMES ->
  0 <= x / 8 < Z.of_nat (length (bitmap a)).
Proof.
  intros -> Hx. change MAX_FRAMES with (BITMAP_SIZE * 8) in Hx. change BITMAP_SIZE with 32768 in *.
  split; [apply Z.div_pos; lia|]. rewrite Z2Nat.id by lia. apply Z.div_lt_upper_bound; lia.
Qed.

(** Replacing the byte of frame [f] by one with other bits. *)
Lemma byte_update a f v (g : bool -> bool) : length (bitmap a) = Z.to_nat BITMAP_SIZE -> 0 <= f < MAX_FRAMES ->
  (forall b j, 0 <= j < 8 -> bitmap a !! Z.to_nat (f / 8) = Some b ->
     Z.testbit (v b) j = if j =? f mod 8 then g (Z.testbit b j) else Z.testbit b j) ->
  exists b, arr_get (bitmap a) (f / 8) = Done b /\
    arr_set (bitmap a) (f / 8) (v b) = Done (<[Z.to_nat (f / 8) := v b]> (bitmap a)) /\
    forall x, 0 <= x -> is_free (set_bitmap (<[Z.to_nat (f / 8) := v b]> (bitmap a)) a) x =
      if x =? f then negb (g (negb (is_free a x))) else is_free a x.
Proof.
  intros Hl Hf Hv. pose proof (byte_of a f Hl Hf) as Hr.
  destruct (arr_get_in (bitmap a) (f / 8) Hr) as (b & Hg & Hb). exists b. split_all; [done|by apply arr_set_Done|].
  intros x Hx. destruct (Z.ltb_spec x MAX_FRAMES) as [Hlt|Hge].
  - destruct (arr_get_in (bitmap a) (x / 8)) as (c & _ & Hc); [by apply byte_of|].
    pose proof (Z.mod_pos_bound x 8). pose proof (Z.mod_pos_bound f 8).
    rewrite (is_free_bit a x c) by done.
    destruct (decide (x / 8 = f / 8)) as [E|E].
    + rewrite E, Hb in Hc. injection Hc as <-. rewrite (is_free_bit _ x (v b)); [|done|].
      2: { cbn. rewrite E, list_lookup_insert_eq; [done|lia]. }
      rewrite (Hv b) by (done || lia). rewrite negb_involutive.
      assert ((x mod 8 =? f mod 8) = (x =? f)) as ->.
      { pose proof (Z.div_mod x 8). pose proof (Z.div_mod f 8).
        destruct (Z.eqb_spec (x mod 8) (f mod 8)), (Z.eqb_spec x f); (done || congruence || lia). }
      by destruct (x =? f).
    + rewrite (is_free_bit _ x c); [|done|].
      2: { cbn. rewrite list_lookup_insert_ne; [done|]. pose proof (Z.div_pos x 8). lia. }
      destruct (Z.eqb_spec x f); [congruence|done].
  - unfold is_free. destruct (Z.ltb_spec x MAX_FRAMES); [lia|]. cbn. destruct (Z.eqb_spec x f); [lia|done].
Qed.

(** [F] is the set of frames the bitmap calls free. *)
Record bits_ok (F : gset Z) (a : t) : Prop := {
  bits_len : length (bitmap a) = Z.to_nat BITMAP_SIZE;
  bits_free : forall x, 0 <= x -> (x ∈ F <-> is_free a x = true);
  bits_pos : forall x, x ∈ F -> 0 <= x < MAX_FRAMES;
}.

Lemma set_bit_ok F a f : bits_ok F a -> 0 <= f < MAX_FRAMES ->
  returns (set_bit f a) (fun a' => a' = set_bitmap (bitmap a') a /\ bits_ok (F ∖ {[f]}) a').
Proof.
  intros [Hl HF Hp] Hf.
  destruct (byte_update a f (fun b => Z.lor b (Z.shiftl 1 (f mod 8))) (fun _ => true)) as (b & Hg & Hs & Hx); [done..| |].
  { intros b j Hj _. rewrite Z.shiftl_1_l, Z.lor_spec. pose proof (Z.mod_pos_bound f 8).
    rewrite Z.pow2_bits_eqb by lia. rewrite (Z.eqb_sym j). destruct (f mod 8 =? j); [by rewrite orb_true_r|by rewrite orb_false_r]. }
  unfold set_bit. rewrite Hg. exec_simpl. rewrite Hs. exec_simpl. apply returns_done. split; [done|]. split.
  - cbn. by rewrite length_insert.
  - intros x Hx0. rewrite Hx, elem_of_difference, elem_of_singleton, HF by done.
    destruct (Z.eqb_spec x f); cbn; naive_solver.
  - intros x Hin. apply Hp. set_solver.
Qed.

Lemma clear_bit_ok F a f : bits_ok F a -> 0 <= f < MAX_FRAMES ->
  returns (clear_bit f a) (fun a' => a' = set_bitmap (bitmap a') a /\ bits_ok ({[f]} ∪ F) a').
Proof.
  intros [Hl HF Hp] Hf.
  destruct (byte_update a f (fun b => Z.land b (lnot_u 8 (Z.shiftl 1 (f mod 8)))) (fun _ => false)) as (b & Hg & Hs & Hx); [done..| |].
  { intros b j Hj _. pose proof (Z.mod_pos_bound f 8). rewrite Z.land_spec, lnot_bit by lia.
    rewrite (Z.eqb_sym j). destruct (f mod 8 =? j); [by rewrite andb_false_r|by rewrite andb_true_r]. }
  unfold clear_bit. rewrite Hg. exec_simpl. rewrite Hs. exec_simpl. apply returns_done. split; [done|]. split.
  - cbn. by rewrite length_insert.
  - intros x Hx0. rewrite Hx, elem_of_union, elem_of_singleton, HF by done.
    destruct (Z.eqb_spec x f); cbn; naive_solver.
  - intros x. rewrite elem_of_union, elem_of_singleton. intros [->|Hin]; [done|by apply Hp].
Qed.

Lemma set_bits_ok fs : forall F a, bits_ok F a -> (forall f, f ∈ fs -> 0 <= f < MAX_FRAMES) ->
  returns (set_bits fs a) (fun a' => a' = set_bitmap (bitmap a') a /\ bits_ok (F ∖ list_to_set fs) a').
Proof.
  induction fs as [|f fs IH]; intros F a Ha Hfs; cbn.
  - apply returns_done. split; [by destruct a|]. by rewrite difference_empty_L.
  - eapply returns_bind; [apply set_bit_ok; [done|apply Hfs; set_solver]|]. intros a1 [E1 H1]. cbv beta.
    eapply returns_mono; [apply IH; [exact H1|set_solver]|]. intros a2 [E2 H2]. cbv beta. split.
    + rewrite E2, E1. done.
    + by rewrite <- difference_difference_l_L.
Qed.

Lemma clear_bits_ok fs : forall F a, bits_ok F a -> (forall f, f ∈ fs -> 0 <= f < MAX_FRAMES) ->
  returns (clear_bits fs a) (fun a' => a' = set_bitmap (bitmap a') a /\ bits_ok (list_to_set fs ∪ F) a').
Proof.
  induction fs as [|f fs IH]; intros F a Ha Hfs; cbn.
  - apply returns_done. split; [by destruct a|]. by rewrite union_empty_l_L.
  - eapply returns_bind; [apply clear_bit_ok; [done|apply Hfs; set_solver]|]. intros a1 [E1 H1]. cbv beta.
    eapply returns_mono; [apply IH; [exact H1|set_solver]|]. intros a2 [E2 H2]. cbv beta. split.
    + rewrite E2, E1. done.
    + replace ({[f]} ∪ list_to_set fs ∪ F) with (list_to_set fs ∪ ({[f]} ∪ F)) by set_solver. done.
Qed.

(** Frames that are all free. *)
Lemma forallb_free F a f l : bits_ok F a -> 0 <= f -> (forall i, i ∈ l -> 0 <= i) ->
  forallb (fun i => (f + i <? MAX_FRAMES) && is_free a (f + i)) l = true <-> forall i, i ∈ l -> f + i ∈ F.
Proof.
  intros Ha Hf Hl. rewrite forallb_forall. setoid_rewrite <- list_elem_of_In.
  split; intros H i Hi; specialize (H i Hi).
  - apply andb_true_iff in H as [_ H]. apply (bits_free _ _ Ha); [specialize (Hl i Hi); lia|done].
  - apply andb_true_iff. split.
    + apply Z.ltb_lt. apply (bits_pos _ _ Ha) in H. lia.
    + apply (bits_free _ _ Ha); [specialize (Hl i Hi); lia|done].
Qed.

End BitmapFacts.

(** ** The free lists *)
Module FreeLists.
Import BuddyAllocator FreeBlockPtr Blocks.

(** The list of frames that [p] leads to. *)
Fixpoint chain (m : Mem.t) (p : Z) (l : list Z) : Prop :=
  match l with
  | [] => p = 0
  | f :: l' => p = f * PAGE_SIZE /\ 0 < f < MAX_FRAMES /\ chain m (read_next m p) l'
  end.

(** Frames outside [S] keep their bytes. *)
Definition agree (S : gset Z) (m m' : Mem.t) : Prop := forall x, x / PAGE_SIZE ∉ S -> m' x = m x.

Lemma agree_refl S m : agree S m m.
Proof. done. Qed.

Lemma agree_trans S m1 m2 m3 : agree S m1 m2 -> agree S m2 m3 -> agree S m1 m3.
Proof. intros H1 H2 x Hx. by rewrite H2, H1. Qed.

Lemma agree_mono S S' m m' : S ⊆ S' -> agree S m m' -> agree S' m m'.
Proof. intros HS H x Hx. apply H. set_solver. Qed.

Lemma in_page f x : f * PAGE_SIZE <= x < f * PAGE_SIZE + PAGE_SIZE -> x / PAGE_SIZE = f.
Proof. intros Hx. symmetry. apply (Z.div_unique_pos _ _ _ (x - f * PAGE_SIZE)); lia. Qed.

Lemma agree_write f m v : agree {[f]} m (write_next m (f * PAGE_SIZE) v).
Proof.
  intros x Hx. apply MemFacts.write_u64_out.
  assert (~ (f * PAGE_SIZE <= x < f * PAGE_SIZE + PAGE_SIZE)) as H by (intros ?%in_page; set_solver).
  unfold PAGE_SIZE in *. lia.
Qed.

Lemma agree_read S m m' f : agree S m m' -> f ∉ S ->
  read_next m' (f * PAGE_SIZE) = read_next m (f * PAGE_SIZE).
Proof.
  intros H Hf. apply MemFacts.read_u64_ext. intros x Hx. apply H.
  rewrite (in_page f x); [done|]. unfold PAGE_SIZE in *. lia.
Qed.

Lemma chain_agree S m m' l : agree S m m' -> (forall f, f ∈ l -> f ∉ S) -> forall p, chain m p l -> chain m' p l.
Proof.
  intros H. induction l as [|f l IH]; intros Hl p; [done|]. intros (-> & Hf & Hc). cbn [chain]. split_all; [done|lia|lia|].
  rewrite (agree_read S m m') by (done || apply Hl; set_solver). apply IH; [set_solver|done].
Qed.

Lemma chain_range m p l f : chain m p l -> f ∈ l -> 0 < f < MAX_FRAMES.
Proof.
  revert p. induction l as [|g l IH]; intros p Hc Hf; [by apply not_elem_of_nil in Hf|].
  destruct Hc as (_ & Hg & Hc). apply elem_of_cons in Hf as [->|Hf]; [done|]. by eapply IH.
Qed.

Lemma chain_length m p l : chain m p l -> NoDup l -> (length l < Z.to_nat MAX_FRAMES)%nat.
Proof.
  intros Hc Hn. assert (l ⊆+ seqZ 1 (MAX_FRAMES - 1)) as H%submseteq_length.
  { apply NoDup_submseteq; [done|]. intros f Hf. apply elem_of_seqZ. pose proof (chain_range _ _ _ _ Hc Hf). lia. }
  rewrite length_seqZ in H. change MAX_FRAMES with 262144 in *. lia.
Qed.

Lemma from_frame_small f : 0 <= f < MAX_FRAMES -> from_frame f = f * PAGE_SIZE.
Proof. intros Hf. apply wrap_small. change MAX_FRAMES with 262144 in Hf. unfold PAGE_SIZE. lia. Qed.

Lemma to_frame_ptr f : to_frame (f * PAGE_SIZE) = f.
Proof. by apply Z.div_mul. Qed.

(** The blocks that the lists hold. *)
Definition listed (fl : list (list Z)) (f o : Z) : Prop := 0 <= o <= MAX_ORDER /\ f ∈ fl !!! Z.to_nat o.

Record lists_ok (C : gset Z) (fl : list (list Z)) : Prop := {
  l_len : length fl = Z.to_nat (MAX_ORDER + 1);
  l_aligned : forall f o, listed fl f o -> aligned f o;
  l_sub : forall f o, listed fl f o -> block f o ⊆ C;
  l_cover : forall x, x ∈ C -> exists f o, listed fl f o /\ x ∈ block f o;
  l_disj : forall f o f' o' x, listed fl f o -> listed fl f' o' -> x ∈ block f o -> x ∈ block f' o' ->
    f = f' /\ o = o';
  l_nodup : forall o, 0 <= o <= MAX_ORDER -> NoDup (fl !!! Z.to_nat o);
  l_max : forall f o, listed fl f o -> o < MAX_ORDER -> ~ listed fl (buddy f o) o;
}.

Lemma listed_insert fl o l f' o' : length fl = Z.to_nat (MAX_ORDER + 1) -> 0 <= o <= MAX_ORDER ->
  listed (<[Z.to_nat o := l]> fl) f' o' <-> (o' = o /\ f' ∈ l) \/ (o' <> o /\ listed fl f' o').
Proof.
  intros Hl Ho. unfold listed. destruct (decide (o' = o)) as [->|Hne].
  - rewrite list_lookup_total_insert_eq by (unfold MAX_ORDER in *; lia). naive_solver.
  - split.
    + intros [Ho' Hf]. right. rewrite list_lookup_total_insert_ne in Hf by lia. naive_solver.
    + intros [?|(_ & Ho' & Hf)]; [naive_solver|]. rewrite list_lookup_total_insert_ne by lia. done.
Qed.

Lemma nodup_insert (fl : list (list Z)) o l : length fl = Z.to_nat (MAX_ORDER + 1) -> 0 <= o <= MAX_ORDER -> NoDup l ->
  (forall o', 0 <= o' <= MAX_ORDER -> NoDup (fl !!! Z.to_nat o')) ->
  forall o', 0 <= o' <= MAX_ORDER -> NoDup (<[Z.to_nat o := l]> fl !!! Z.to_nat o').
Proof.
  intros Hl Ho Hn H o' Ho'. destruct (decide (o' = o)) as [->|Hne].
  - by rewrite list_lookup_total_insert_eq by (unfold MAX_ORDER in *; lia).
  - rewrite list_lookup_total_insert_ne by lia. by apply H.
Qed.

Lemma lists_ok_push C fl f o : lists_ok C fl -> 0 <= o <= MAX_ORDER -> aligned f o -> block f o ## C ->
  (o < MAX_ORDER -> ~ listed fl (buddy f o) o) ->
  lists_ok (C ∪ block f o) (<[Z.to_nat o := f :: fl !!! Z.to_nat o]> fl).
Proof.
  intros [Hl Ha Hs Hc Hd Hn Hm] Ho Hf Hdis Hb.
  assert (forall f' o', listed (<[Z.to_nat o := f :: fl !!! Z.to_nat o]> fl) f' o' <->
    (o' = o /\ f' = f) \/ listed fl f' o') as HL.
  { intros f' o'. rewrite listed_insert, elem_of_cons by done. unfold listed.
    destruct (decide (o' = o)) as [->|]; naive_solver. }
  split.
  - by rewrite length_insert.
  - intros f' o' [[-> ->]|H]%HL; [done|by apply Ha].
  - intros f' o' [[-> ->]|H]%HL; [set_solver|]. specialize (Hs _ _ H). set_solver.
  - intros x [Hx|Hx]%elem_of_union.
    + destruct (Hc x Hx) as (f' & o' & H & Hx'). exists f', o'. rewrite HL. naive_solver.
    + exists f, o. rewrite HL. naive_solver.
  - intros f1 o1 f2 o2 x [[-> ->]|H1]%HL [[-> ->]|H2]%HL Hx1 Hx2; [done|..|by eapply Hd].
    + specialize (Hs _ _ H2 _ Hx2). set_solver.
    + specialize (Hs _ _ H1 _ Hx1). set_solver.
  - apply nodup_insert; [done..| |done]. apply NoDup_cons. split; [|by apply Hn].
    intros Hin. assert (listed fl f o) as H%Hs by done. pose proof (block_head f o). set_solver.
  - intros f' o' [[-> ->]|H]%HL Hlt [[Eo E]|H']%HL.
    + pose proof (pow2_pos o). destruct (buddy_cases f o) as [[_ ?]|[_ ?]]; [lia|done|lia..].
    + by apply Hb.
    + subst o'. apply Hb; [done|]. by rewrite <- E, buddy_invol.
    + exact (Hm _ _ H Hlt H').
Qed.

Lemma lists_ok_remove C fl f o l : lists_ok C fl -> listed fl f o ->
  (forall x, x ∈ l <-> x ∈ fl !!! Z.to_nat o /\ x <> f) -> NoDup l ->
  lists_ok (C ∖ block f o) (<[Z.to_nat o := l]> fl).
Proof.
  intros [Hl Ha Hs Hc Hd Hn Hm] Hf Hin Hnd. pose proof Hf as [Ho _].
  assert (forall f' o', listed (<[Z.to_nat o := l]> fl) f' o' <->
    listed fl f' o' /\ ~ (o' = o /\ f' = f)) as HL.
  { intros f' o'. rewrite listed_insert, Hin by done. unfold listed.
    destruct (decide (o' = o)) as [->|]; naive_solver. }
  split.
  - by rewrite length_insert.
  - intros f' o' [H _]%HL. by apply Ha.
  - intros f' o' [H Hne]%HL x Hx. apply elem_of_difference. split; [by eapply Hs|].
    intros Hx'. destruct (Hd _ _ _ _ _ H Hf Hx Hx') as [-> ->]. naive_solver.
  - intros x [Hx Hx']%elem_of_difference. destruct (Hc x Hx) as (f' & o' & H & Hb). exists f', o'.
    rewrite HL. split_all; [done| |done]. intros [-> ->]. done.
  - intros f1 o1 f2 o2 x [H1 _]%HL [H2 _]%HL. by eapply Hd.
  - by apply nodup_insert.
  - intros f' o' [H _]%HL Hlt [H' _]%HL. exact (Hm _ _ H Hlt H').
Qed.

(** Completeness: an aligned block of covered frames lies inside a listed one. *)
Lemma covered_block_nat C fl g (n : nat) : lists_ok C fl -> Z.of_nat n <= MAX_ORDER -> aligned g (Z.of_nat n) ->
  block g (Z.of_nat n) ⊆ C ->
  exists f o, listed fl f o /\ Z.of_nat n <= o /\ block g (Z.of_nat n) ⊆ block f o.
Proof.
  intros Hok. revert g. induction n as [|n IH]; intros g Hn Hg Hb.
  - destruct (l_cover _ _ Hok g) as (f & o & Hf & Hx). { apply Hb, block_head. done. }
    exists f, o. pose proof Hf as [Ho _]. split_all; [done|lia|].
    apply (block_nested _ _ _ _ g); [lia|done|by eapply l_aligned|by apply block_head|done].
  - replace (Z.of_nat (S n)) with (Z.of_nat n + 1) in * by lia. set (o := Z.of_nat n) in *.
    rewrite block_split in * by lia.
    assert (aligned g o) as Hg0 by (eapply aligned_le; [|exact Hg]; lia).
    destruct (IH g) as (f1 & o1 & H1 & Ho1 & Hs1); [lia|done|set_solver|].
    destruct (IH (g + 2 ^ o)) as (f2 & o2 & H2 & Ho2 & Hs2); [lia|apply aligned_upper; [lia|done]|set_solver|].
    rewrite <- block_split by lia.
    destruct (decide (o + 1 <= o1)) as [Hle|Hgt1].
    { exists f1, o1. split_all; [done..|]. apply (block_nested _ _ _ _ g); [lia|done|by eapply l_aligned| |].
      - apply block_head. lia.
      - apply Hs1, block_head. lia. }
    destruct (decide (o + 1 <= o2)) as [Hle|Hgt2].
    { exists f2, o2. split_all; [done..|]. apply (block_nested _ _ _ _ (g + 2 ^ o)); [lia|done|by eapply l_aligned| |].
      - rewrite block_split by lia. apply elem_of_union_r, block_head. lia.
      - apply Hs2, block_head. lia. }
    assert (o1 = o) as -> by lia. assert (o2 = o) as -> by lia.
    apply block_inside in Hs1; [|lia]. apply block_inside in Hs2; [|lia].
    assert (f1 = g) as -> by lia. assert (f2 = g + 2 ^ o) as -> by lia.
    exfalso. apply (l_max _ _ Hok _ _ H1); [lia|].
    by rewrite buddy_lower by (lia || done).
Qed.

Lemma covered_block C fl g o : lists_ok C fl -> 0 <= o <= MAX_ORDER -> aligned g o -> block g o ⊆ C ->
  exists f o', listed fl f o' /\ o <= o' /\ block g o ⊆ block f o'.
Proof.
  intros H Ho Hg Hs. destruct (covered_block_nat C fl g (Z.to_nat o)) as (f & o' & Hr); [done|..];
    rewrite ?Z2Nat.id in * by lia; [lia|done..|]. by exists f, o'.
Qed.

End FreeLists.
