(* ===== verification/FrameOps.v ===== *)
(** * The operations of the frame allocator

    Each operation of frame.rs on allocators that satisfy the invariant
    [alloc_ok]: it returns, keeps the invariant, and turns the set of free
    frames into the one it should. *)

From S2P Require Import Prelude Memory FrameSpec.

Module FrameOps.
Import BuddyAllocator FreeBlockPtr Blocks BitmapFacts FreeLists.

(** The lists in memory are the lists [fl] of blocks, which cover [C]. *)
Record heap_ok (C : gset Z) (fl : list (list Z)) (am : t * Mem.t) : Prop := {
  h_lists : lists_ok C fl;
  h_len : length (free_lists am.1) = Z.to_nat (MAX_ORDER + 1);
  h_chain : forall o, 0 <= o <= MAX_ORDER ->
    exists p, free_lists am.1 !! Z.to_nat o = Some p /\ chain am.2 p (fl !!! Z.to_nat o);
}.

Lemma head_at C fl am o : heap_ok C fl am -> 0 <= o <= MAX_ORDER ->
  exists p, arr_get (free_lists am.1) o = Done p /\ free_lists am.1 !! Z.to_nat o = Some p /\
    chain am.2 p (fl !!! Z.to_nat o).
Proof. intros H Ho. destruct (h_chain _ _ _ H o Ho) as (p & Hp & Hc). exists p. split_all; [|done..]. apply arr_get_at; [lia|done]. Qed.

Lemma set_head C fl am o p : heap_ok C fl am -> 0 <= o <= MAX_ORDER ->
  arr_set (free_lists am.1) o p = Done (<[Z.to_nat o := p]> (free_lists am.1)).
Proof. intros H Ho. apply arr_set_Done. rewrite (h_len _ _ _ H). unfold MAX_ORDER in *. lia. Qed.

Lemma chain_null m l : chain m 0 l -> l = [].
Proof. destruct l as [|f l]; [done|]. intros (H & Hf & _). unfold PAGE_SIZE in H. lia. Qed.

Lemma chain_pointer m p l : chain m p l -> in_u 64 p.
Proof.
  destruct l as [|f l]; [intros ->; done|]. intros (-> & Hf & _). change MAX_FRAMES with 262144 in Hf.
  unfold in_u, PAGE_SIZE. lia.
Qed.

Lemma is_null_frame f : 0 < f -> is_null (f * PAGE_SIZE) = false.
Proof. intros Hf. apply Z.eqb_neq. unfold PAGE_SIZE. lia. Qed.

Lemma listed_covered C fl f o : lists_ok C fl -> listed fl f o -> f ∈ C.
Proof. intros H Hf. eapply l_sub; [exact H..|exact Hf|]. apply block_head, Hf. Qed.

(** One list changes: its head, its links, and what it holds. *)
Lemma heap_update C fl a m C' o p l S m' : heap_ok C fl (a, m) -> 0 <= o <= MAX_ORDER ->
  lists_ok C' (<[Z.to_nat o := l]> fl) -> agree S m m' ->
  (forall f' o', listed fl f' o' -> o' <> o -> f' ∉ S) -> chain m' p l ->
  heap_ok C' (<[Z.to_nat o := l]> fl) (set_free_lists (<[Z.to_nat o := p]> (free_lists a)) a, m').
Proof.
  intros [Hl Hn Hc] Ho Hl' Hag HS Hch. split; [done|by cbn; rewrite length_insert|].
  intros o' Ho'. cbn in *. destruct (decide (o' = o)) as [->|Hne].
  - exists p. rewrite list_lookup_insert_eq, list_lookup_total_insert_eq by
      (rewrite ?Hn, ?(l_len _ _ Hl); unfold MAX_ORDER in *; lia). done.
  - destruct (Hc o' Ho') as (p' & Hp' & Hch'). exists p'.
    rewrite list_lookup_insert_ne, list_lookup_total_insert_ne by lia. split; [done|].
    eapply chain_agree; [exact Hag| |exact Hch']. intros f Hf. by eapply HS.
Qed.

Lemma set_free_lists_id (a : t) l : l = free_lists a -> set_free_lists l a = a.
Proof. intros ->. by destruct a. Qed.

(** Only the free lists changed. *)
Definition relinked (a a' : t) : Prop := a' = set_free_lists (free_lists a') a.

Lemma relinked_trans a1 a2 a3 : relinked a1 a2 -> relinked a2 a3 -> relinked a1 a3.
Proof. unfold relinked. intros -> ->. done. Qed.

Lemma relinked_bits F a a' : relinked a a' -> bits_ok F a -> bits_ok F a'.
Proof. intros -> [Hl HF Hp]. by split. Qed.

Lemma push_ok C fl a m f o : heap_ok C fl (a, m) -> 0 <= o <= MAX_ORDER -> aligned f o -> 0 < f < MAX_FRAMES ->
  block f o ## C -> (o < MAX_ORDER -> ~ listed fl (buddy f o) o) ->
  returns (push_free_list f o (a, m)) (fun am' => relinked a am'.1 /\ agree {[f]} m am'.2 /\
    heap_ok (C ∪ block f o) (<[Z.to_nat o := f :: fl !!! Z.to_nat o]> fl) am').
Proof.
  intros H Ho Ha Hf Hd Hb. destruct (head_at _ _ _ o H Ho) as (p & Hg & Hp & Hc). cbn in Hg, Hp, Hc.
  assert (f ∉ C) as HfC. { pose proof (block_head f o). set_solver. }
  unfold push_free_list. rewrite Hg. exec_simpl. pose proof (set_head _ _ _ o (from_frame f) H Ho) as E.
  cbn in E. rewrite E. exec_simpl. rewrite !from_frame_small by lia.
  apply returns_done. split_all; [done|apply agree_write|].
  eapply heap_update; [exact H|done|by apply lists_ok_push; [apply H|..]|apply agree_write|..].
  - intros f' o' Hl _. apply (listed_covered _ _ _ _ (h_lists _ _ _ H)) in Hl. set_solver.
  - cbn [chain]. split_all; [done|lia|lia|]. unfold read_next, write_next.
    rewrite MemFacts.read_write_u64 by (by eapply chain_pointer).
    eapply chain_agree; [apply agree_write| |exact Hc]. intros f' Hf'.
    assert (listed fl f' o) as Hl%(listed_covered _ _ _ _ (h_lists _ _ _ H)) by done. set_solver.
Qed.

Lemma pop_ok C fl a m f o l : heap_ok C fl (a, m) -> 0 <= o <= MAX_ORDER -> fl !!! Z.to_nat o = f :: l ->
  returns (pop_free_list o (a, m)) (fun r => r.1 = Some f /\ relinked a r.2.1 /\ r.2.2 = m /\
    heap_ok (C ∖ block f o) (<[Z.to_nat o := l]> fl) r.2).
Proof.
  intros H Ho Hl. destruct (head_at _ _ _ o H Ho) as (p & Hg & Hp & Hc). cbn in Hg, Hp, Hc.
  rewrite Hl in Hc. destruct Hc as (-> & Hf & Hc).
  unfold pop_free_list. rewrite Hg. exec_simpl. rewrite is_null_frame, to_frame_ptr by lia.
  pose proof (set_head _ _ _ o (read_next m (f * PAGE_SIZE)) H Ho) as E. cbn in E. rewrite E. exec_simpl.
  apply returns_done. split_all; [done..|].
  pose proof (l_nodup _ _ (h_lists _ _ _ H) o Ho) as Hn. rewrite Hl, NoDup_cons in Hn.
  eapply heap_update; [exact H|done| |apply (agree_refl ∅)|set_solver|done].
  apply lists_ok_remove; [apply H|by unfold listed; rewrite Hl; set_solver| |apply Hn].
  intros x. rewrite Hl, elem_of_cons. split; [|naive_solver]. intros Hx. split; [by right|]. naive_solver.
Qed.

Lemma filter_not_in (t : Z) (l : list Z) : t ∉ l -> filter (fun x => x <> t) l = l.
Proof.
  induction l as [|x l IH]; intros Ht; [done|]. rewrite filter_cons_True by set_solver. f_equal. apply IH. set_solver.
Qed.

Lemma unlink_ok tg l : forall k m p, chain m p l -> NoDup l -> tg ∈ l -> head l <> Some tg -> (length l <= k)%nat ->
  returns (unlink k (tg * PAGE_SIZE) p m) (fun r => r.1 = true /\ agree (list_to_set l) m r.2 /\
    chain r.2 p (filter (fun x => x <> tg) l)).
Proof.
  induction l as [|f l IH]; intros k m p Hc Hn Ht Hh Hk; [by apply not_elem_of_nil in Ht|].
  destruct k as [|k]; cbn in Hk; [lia|]. destruct Hc as (-> & Hf & Hc). apply NoDup_cons in Hn as [Hfl Hn].
  assert (f <> tg) as Hne by (intros ->; done). apply elem_of_cons in Ht as [->|Ht]; [done|].
  cbn [unlink]. rewrite is_null_frame by lia. destruct l as [|g l]; [by apply not_elem_of_nil in Ht|].
  destruct Hc as (Eg & Hg & Hc). rewrite filter_cons_True by done.
  assert (forall m', agree {[f]} m m' -> agree (list_to_set (f :: g :: l)) m m') as Hmono.
  { intros m'. apply agree_mono. set_solver. }
  destruct (Z.eqb_spec (read_next m (f * PAGE_SIZE)) (tg * PAGE_SIZE)) as [E|E].
  - assert (g = tg) as -> by (rewrite Eg in E; unfold PAGE_SIZE in E; lia). apply NoDup_cons in Hn as [Htl _].
    apply returns_done. cbn [fst snd]. split_all; [done|apply Hmono, agree_write|].
    rewrite filter_cons_False, filter_not_in by (done || naive_solver). rewrite Eg in Hc.
    cbn [chain]. split_all; [done|lia|lia|]. unfold write_next at 2, read_next at 1.
    rewrite MemFacts.read_write_u64 by (by eapply chain_pointer).
    eapply chain_agree; [apply agree_write| |exact Hc]. set_solver.
  - eapply returns_mono; [apply (IH k m _); [by rewrite Eg in Hc |- *|done|done| |cbn in *; lia]|].
    { intros [= ->]. by rewrite Eg in E. }
    intros [b m'] (-> & Hag & Hc'). cbn [fst snd] in *. split_all; [done|eapply agree_mono; [|done]; set_solver|].
    cbn [chain]. split_all; [done|lia|lia|].
    rewrite (agree_read _ _ _ _ Hag) by (rewrite elem_of_list_to_set; done). done.
Qed.

Lemma remove_ok C fl a m f o : heap_ok C fl (a, m) -> listed fl f o ->
  returns (remove_from_free_list f o (a, m)) (fun r => r.1 = true /\ relinked a r.2.1 /\ agree C m r.2.2 /\
    exists fl', heap_ok (C ∖ block f o) fl' r.2 /\ (forall f' o', listed fl' f' o' -> listed fl f' o')).
Proof.
  intros H Hf. pose proof Hf as [Ho Hin]. pose proof (h_lists _ _ _ H) as Hok.
  destruct (head_at _ _ _ o H Ho) as (p & Hg & Hp & Hc). cbn in Hg, Hp, Hc.
  pose proof (l_nodup _ _ Hok o Ho) as Hn. pose proof (chain_range _ _ _ _ Hc Hin) as Hr.
  set (l := fl !!! Z.to_nat o) in *. set (l' := filter (fun x => x <> f) l).
  assert (lists_ok (C ∖ block f o) (<[Z.to_nat o := l']> fl)) as Hok'.
  { apply lists_ok_remove; [done..| |by apply NoDup_filter]. intros x. unfold l'. rewrite list_elem_of_filter. naive_solver. }
  assert (forall f' o', listed (<[Z.to_nat o := l']> fl) f' o' -> listed fl f' o') as Hsub.
  { intros f' o'. rewrite listed_insert by (apply Hok || done). unfold l'. rewrite list_elem_of_filter.
    intros [[-> [_ ?]]|[_ ?]]; [|done]. by split. }
  unfold remove_from_free_list. rewrite Hg. exec_simpl. rewrite from_frame_small by lia.
  destruct l as [|g l0] eqn:El; [by apply not_elem_of_nil in Hin|]. destruct Hc as (-> & Hg0 & Hc).
  rewrite is_null_frame by lia. destruct (Z.eqb_spec (g * PAGE_SIZE) (f * PAGE_SIZE)) as [E|E].
  - assert (g = f) as -> by (unfold PAGE_SIZE in E; lia). apply NoDup_cons in Hn as [Hnf Hn].
    pose proof (set_head _ _ _ o (read_next m (f * PAGE_SIZE)) H Ho) as Es. cbn in Es. rewrite Es. exec_simpl.
    apply returns_done. split_all; [done..|]. exists (<[Z.to_nat o := l']> fl). split; [|done].
    eapply heap_update; [exact H|done|done|apply (agree_refl ∅)|set_solver|].
    unfold l'. rewrite filter_cons_False, filter_not_in by (done || naive_solver). done.
  - eapply returns_bind.
    { apply (unlink_ok f (g :: l0)); [done|done|done| |].
      - intros [= ->]. done.
      - apply Nat.lt_le_incl. eapply chain_length; [|done]. by split_all. }
    intros [b m'] (-> & Hag & Hc'). cbn [fst snd] in *. apply returns_done. cbn [fst snd].
    assert (agree C m m') as HagC.
    { eapply agree_mono; [|exact Hag]. intros x Hx%elem_of_list_to_set. eapply listed_covered; [exact Hok|].
      split; [exact Ho|]. fold l. by rewrite El. }
    split_all; [done|by unfold relinked; rewrite set_free_lists_id|done|].
    exists (<[Z.to_nat o := l']> fl). split; [|done].
    rewrite <- (set_free_lists_id a (<[Z.to_nat o := g * PAGE_SIZE]> (free_lists a))) by (by apply list_insert_id).
    eapply heap_update; [exact H|done|done|exact Hag| |done].
    intros f' o' Hl Hne. rewrite elem_of_list_to_set. intros Hx.
    assert (listed fl f' o) as Hl2 by (split; [done|]; fold l; by rewrite El).
    destruct (l_disj _ _ Hok f' o' f' o f') as [_ ?]; [done|done|apply block_head, Hl|apply block_head; lia|done].
Qed.

Lemma usize_shl1_small o : 0 <= o <= MAX_ORDER -> usize_shl1 o = 2 ^ o.
Proof. intros Ho. unfold usize_shl1, MAX_ORDER in *. rewrite Z.mod_small by lia. apply Z.shiftl_1_l. Qed.

Lemma block_pos F f o a : bits_ok F a -> 0 ∉ F -> 0 <= o -> block f o ⊆ F -> 0 < f /\ f + 2 ^ o <= MAX_FRAMES.
Proof.
  intros Hb H0 Ho Hs. pose proof (pow2_pos o Ho).
  assert (f ∈ F) as Hf by apply Hs, block_head, Ho.
  assert (f + 2 ^ o - 1 ∈ F) as Hl. { apply Hs, elem_of_block. lia. }
  assert (f <> 0) by (intros ->; done). apply (bits_pos _ _ Hb) in Hf, Hl. lia.
Qed.

Lemma free_size F a : bits_ok F a -> Z.of_nat (size F) <= MAX_FRAMES.
Proof.
  intros Hb. assert (F ⊆ list_to_set (seqZ 0 MAX_FRAMES)) as HF%subseteq_size.
  { intros x Hx. apply elem_of_list_to_set, elem_of_seqZ. apply (bits_pos _ _ Hb) in Hx. lia. }
  rewrite size_list_to_set, length_seqZ in HF by apply NoDup_seqZ. change MAX_FRAMES with 262144 in *. lia.
Qed.

(** ** The invariant: [F] is the set of free frames *)
Record alloc_ok (F : gset Z) (am : t * Mem.t) : Prop := {
  a_bits : bits_ok F am.1;
  a_heap : exists fl, heap_ok F fl am;
  a_zero : 0 ∉ F;
  a_count : free_frames am.1 = Z.of_nat (size F);
  a_init : initialized am.1 = true;
}.

(** The allocator does not look at frames that are not free. *)
Lemma alloc_ok_agree S F a m m' : alloc_ok F (a, m) -> agree S m m' -> S ## F -> alloc_ok F (a, m').
Proof.
  intros [Hb [fl [Hl Hn Hc]] H0 Hk Hi] Hag Hd. split; [done| |done..]. exists fl. split; [done..|].
  intros o Ho. destruct (Hc o Ho) as (p & Hp & Hch). exists p. split; [done|].
  eapply chain_agree; [exact Hag| |exact Hch]. intros f Hf.
  assert (listed fl f o) as HF%(listed_covered _ _ _ _ Hl) by done. set_solver.
Qed.

(** ** Allocation *)
Lemma find_order_ok C fl am (k : nat) : forall o, heap_ok C fl am -> 0 <= o -> o + Z.of_nat k = MAX_ORDER + 1 ->
  returns (find_order k o am.1) (fun r => match r with
    | Some o' => o <= o' <= MAX_ORDER /\ fl !!! Z.to_nat o' <> []
    | None => forall o', o <= o' <= MAX_ORDER -> fl !!! Z.to_nat o' = []
    end).
Proof.
  induction k as [|k IH]; intros o H Ho Hk; cbn [find_order].
  - apply returns_done. intros o' Ho'. lia.
  - destruct (head_at _ _ _ o H) as (p & -> & _ & Hc); [lia|]. exec_simpl.
    destruct (Z.eqb_spec p 0) as [->|Hp].
    + cbn. eapply returns_mono; [apply IH; [done|lia|lia]|]. intros [o'|]; cbn; [intros [? ?]; split; [lia|done]|].
      intros Hn o' Ho'. destruct (decide (o' = o)) as [->|]; [by apply chain_null in Hc|]. apply Hn. lia.
    + unfold is_null. rewrite (proj2 (Z.eqb_neq p 0)) by done. apply returns_done. split; [lia|].
      intros E. rewrite E in Hc. done.
Qed.

Lemma split_ok (k : nat) f o : forall C fl a m, heap_ok C fl (a, m) -> 0 <= o -> o + Z.of_nat k <= MAX_ORDER ->
  aligned f (o + Z.of_nat k) -> block f (o + Z.of_nat k) ## C -> 0 < f -> f + 2 ^ (o + Z.of_nat k) <= MAX_FRAMES ->
  returns (split_block k f o (a, m)) (fun am' => relinked a am'.1 /\
    agree (block f (o + Z.of_nat k)) m am'.2 /\
    exists fl', heap_ok (C ∪ (block f (o + Z.of_nat k) ∖ block f o)) fl' am').
Proof.
  induction k as [|k IH]; intros C fl a m H Ho Hk Ha Hd Hf Hle; cbn [split_block].
  - apply returns_done. split_all; [by destruct a|done|]. exists fl. rewrite Z.add_0_r, difference_diag_L, union_empty_r_L. done.
  - set (j := o + Z.of_nat k). replace (o + Z.of_nat (S k)) with (j + 1) in * by lia.
    assert (0 <= j) as Hj by lia. pose proof (pow2_pos j Hj). rewrite Z.shiftl_1_l.
    rewrite Z.pow_add_r in Hle by lia. change (2 ^ 1) with 2 in Hle. rewrite block_split in * by done.
    assert (aligned f j) as Hfj by (eapply aligned_le; [|exact Ha]; lia).
    pose proof (block_halves_disjoint f j) as Hh.
    eapply returns_bind.
    { apply (push_ok _ _ _ _ _ _ H); [lia|by apply aligned_upper|lia|set_solver|].
      intros _ Hl%(listed_covered _ _ _ _ (h_lists _ _ _ H)).
      rewrite <- (buddy_lower f j), buddy_invol in Hl by done. pose proof (block_head f j Hj). set_solver. }
    intros [a1 m1] (Hr1 & Hag1 & H1). cbn [fst snd] in *.
    eapply returns_mono; [apply (IH _ _ _ _ H1); fold j; [done|lia|done|set_solver|done|lia]|].
    intros [a2 m2] (Hr2 & Hag2 & fl2 & H2). cbn [fst snd] in *. fold j in Hag2, H2. split_all.
    + by eapply relinked_trans.
    + eapply agree_trans; (eapply agree_mono; [|done]); [|set_solver].
      intros x ->%elem_of_singleton. apply elem_of_union_r, block_head, Hj.
    + exists fl2. assert (block f o ⊆ block f j) as Hsub.
      { pose proof (block_head f o Ho). apply (block_nested _ _ _ _ f); [lia| |done|done|by apply block_head].
        eapply aligned_le; [|exact Hfj]. lia. }
      replace (C ∪ ((block f j ∪ block (f + 2 ^ j) j) ∖ block f o))
        with (C ∪ block (f + 2 ^ j) j ∪ block f j ∖ block f o); [done|].
      apply set_eq. intros x. rewrite !elem_of_union, !elem_of_difference, !elem_of_union. set_solver.
Qed.

Lemma alloc_spec_ok F am o : alloc_ok F am -> 0 <= o ->
  returns (allocate o am) (fun r => total_frames r.2.1 = total_frames am.1 /\ agree F am.2 r.2.2 /\
    match r.1 with
    | Some p => exists f, p = f * PAGE_SIZE /\ o <= MAX_ORDER /\ aligned f o /\ block f o ⊆ F /\ alloc_ok (F ∖ block f o) r.2
    | None => r.2 = am /\ (o <= MAX_ORDER -> forall g, aligned g o -> ~ block g o ⊆ F)
    end).
Proof.
  intros [Hb [fl H] H0 Hn Hi] Ho. unfold allocate. rewrite Hi. cbn [negb orb].
  destruct (Z.ltb_spec MAX_ORDER o) as [Hbig|Hle0]; [apply returns_done; cbn [fst snd]; split_all; [done..|intros; lia]|].
  eapply returns_bind; [apply (find_order_ok _ _ _ _ o H); unfold MAX_ORDER in *; lia|].
  intros [o'|]; cbv beta.
  2: { intros Hnone. apply returns_done. cbn [fst snd]. split_all; [done..|]. intros _ g Hg Hs.
    destruct (covered_block _ _ g o (h_lists _ _ _ H) ltac:(lia) Hg Hs) as (f & o1 & [Ho1 Hf] & Hle & _).
    rewrite Hnone in Hf by lia. by apply not_elem_of_nil in Hf. }
  intros [Ho' Hne]. destruct am as [a m]. cbn [fst snd] in *.
  destruct (fl !!! Z.to_nat o') as [|f l] eqn:El; [done|].
  assert (listed fl f o') as Hf by (split; [lia|]; rewrite El; set_solver).
  pose proof (l_aligned _ _ (h_lists _ _ _ H) _ _ Hf) as Ha. pose proof (l_sub _ _ (h_lists _ _ _ H) _ _ Hf) as Hs.
  destruct (block_pos _ f o' _ Hb H0 ltac:(lia) Hs) as [Hf0 Hle].
  assert (aligned f o) as Hao by (eapply aligned_le; [|exact Ha]; lia).
  assert (block f o ⊆ block f o') as Hsub.
  { apply (block_nested _ _ _ _ f); [lia|done|done|apply block_head; lia..]. }
  eapply returns_bind; [by eapply (pop_ok _ _ _ _ f o'); [exact H|lia|]|].
  intros [r [a1 m1]] (Er & Hr1 & Em & H1). cbn [fst snd] in *. subst r m1.
  eapply returns_bind.
  { apply (split_ok _ f o _ _ _ _ H1); rewrite ?Z2Nat.id by lia;
      try (replace (o + (o' - o)) with o' by lia); [lia|lia|done|set_solver|lia|lia]. }
  intros [a2 m2] (Hr2 & Hag2 & fl2 & H2). cbn [fst snd] in *.
  rewrite Z2Nat.id in H2, Hag2 by lia. replace (o + (o' - o)) with o' in H2, Hag2 by lia.
  rewrite usize_shl1_small by lia.
  pose proof (relinked_trans _ _ _ Hr1 Hr2) as Hr.
  eapply returns_bind; [apply (set_bits_ok _ F); [by eapply relinked_bits|]|].
  { intros x Hx. apply (bits_pos _ _ Hb), Hs, Hsub. unfold block. by apply elem_of_list_to_set. }
  intros a3 [E3 Hb3]. apply returns_done. cbn [fst snd].
  assert (free_frames a3 = free_frames a /\ total_frames a3 = total_frames a /\ initialized a3 = initialized a /\
    free_lists a3 = free_lists a2) as (Ef & Et & Ei & El3) by (rewrite E3, Hr; done).
  split_all; [done|by eapply agree_mono; [|exact Hag2]|].
  exists f. split_all; [apply from_frame_small; lia|lia|done|set_solver|].
  split; cbn [fst snd]; [by destruct Hb3; split| |set_solver| |cbn; congruence].
  - exists fl2. destruct H2 as [Hl2 Hn2 Hc2]. cbn [fst snd] in *.
    split; cbn; rewrite ?El3; [|done..].
    replace (F ∖ block f o) with (F ∖ block f o' ∪ block f o' ∖ block f o); [done|].
    apply set_eq. intros x. destruct (decide (x ∈ block f o')); set_solver.
  - cbn. rewrite Ef, Hn, size_difference by set_solver. pose proof (size_block f o Ho) as Hsz.
    assert (size (block f o) <= size F)%nat by (apply subseteq_size; set_solver).
    pose proof (free_size _ _ Hb).
    rewrite wrap_small; [lia|]. change MAX_FRAMES with 262144 in *. lia.
Qed.

Lemma block_0 g : block g 0 = {[g]}.
Proof. apply set_eq. intros x. rewrite elem_of_block, elem_of_singleton. change (2 ^ 0) with 1. lia. Qed.

(** A single frame: none is given only if none is free. *)
Lemma alloc_frame_ok F am : alloc_ok F am ->
  returns (allocate_frame am) (fun r => total_frames r.2.1 = total_frames am.1 /\ agree F am.2 r.2.2 /\
    match r.1 with
    | Some p => exists f, p = f * PAGE_SIZE /\ f ∈ F /\ alloc_ok (F ∖ {[f]}) r.2
    | None => r.2 = am /\ F = ∅
    end).
Proof.
  intros Ha. eapply returns_mono; [by apply (alloc_spec_ok F am 0)|]. intros [[p|] am'] (Ht & Hag & Hr); cbn [fst snd] in *.
  - split_all; [done..|]. destruct Hr as (f & -> & _ & _ & Hs & Ha'). rewrite block_0 in *. exists f. split_all; [done|set_solver|done].
  - split_all; [done..|apply Hr|]. destruct Hr as [_ Hno]. apply set_eq. intros x. split; [|set_solver]. intros Hx.
    exfalso. apply (Hno ltac:(done) x); [apply Z.divide_1_l|]. rewrite block_0. set_solver.
Qed.

Lemma available_none F am : alloc_ok F am -> F = ∅ -> available_frames am.1 = 0.
Proof. intros Ha ->. unfold available_frames. rewrite (a_count _ _ Ha). by rewrite size_empty. Qed.

(** ** Deallocation *)

(** The buddy of a block outside the lists, if all its frames are free, is a block of the lists. *)
Lemma free_buddy_listed C fl f o : lists_ok C fl -> 0 <= o < MAX_ORDER -> aligned f o -> block f o ## C ->
  block (buddy f o) o ⊆ C -> listed fl (buddy f o) o.
Proof.
  intros H Ho Ha Hd Hs. destruct (merge_block f o ltac:(lia) Ha) as (Ha' & _ & Em).
  destruct (covered_block _ _ (buddy f o) o H) as (f' & o' & Hf' & Hle & Hs'); [lia|by apply buddy_aligned; [lia|]|done|].
  pose proof (block_head (buddy f o) o ltac:(lia)) as Hh.
  destruct (decide (o' = o)) as [->|Hne].
  - rewrite (block_same (buddy f o) f' o (buddy f o)); [done|lia|by apply buddy_aligned; [lia|]|by eapply l_aligned|done|].
    by apply Hs'.
  - exfalso. assert (block (f `min` buddy f o) (o + 1) ⊆ block f' o') as Hn.
    { apply (block_nested _ _ _ _ (buddy f o)); [lia|done|by eapply l_aligned| |by apply Hs'].
      rewrite Em. set_solver. }
    pose proof (l_sub _ _ H _ _ Hf'). pose proof (block_head f o ltac:(lia)). rewrite Em in Hn. set_solver.
Qed.

Lemma all_free F a f o : bits_ok F a -> 0 <= f -> 0 <= o ->
  forallb (fun i => (f + i <? MAX_FRAMES) && is_free a (f + i)) (seqZ 0 (2 ^ o)) = true <-> block f o ⊆ F.
Proof.
  intros Hb Hf Ho. rewrite (forallb_free F) by (done || (intros i Hi%elem_of_seqZ; lia)). split.
  - intros H x Hx%elem_of_block. replace x with (f + (x - f)) by lia. apply H, elem_of_seqZ. lia.
  - intros H i Hi%elem_of_seqZ. apply H, elem_of_block. lia.
Qed.

Lemma merge_ok F (k : nat) : forall C fl a m f o, bits_ok F a -> 0 ∉ F -> heap_ok C fl (a, m) ->
  0 <= o -> o + Z.of_nat k = MAX_ORDER -> aligned f o -> block f o ## C -> F = C ∪ block f o ->
  returns (merge_loop k f o (a, m)) (fun '(f', o', am') => 0 <= o' <= MAX_ORDER /\ aligned f' o' /\
    relinked a am'.1 /\ agree F m am'.2 /\
    exists C' fl', heap_ok C' fl' am' /\ block f' o' ## C' /\ F = C' ∪ block f' o' /\
      (o' < MAX_ORDER -> ~ listed fl' (buddy f' o') o')).
Proof.
  induction k as [|k IH]; intros C fl a m f o Hb H0 H Ho Hk Ha Hd EF; cbn [merge_loop].
  - apply returns_done. cbn [fst snd]. split_all; [lia|lia|done|by destruct a|done|]. exists C, fl. split_all; [done..|lia].
  - destruct (block_pos F f o a Hb H0 Ho ltac:(set_solver)) as [Hf _]. rewrite Z.shiftl_1_l. fold (buddy f o).
    assert (0 <= buddy f o) as Hbp by (apply Z.lxor_nonneg; pose proof (pow2_pos o Ho); lia).
    destruct (merge_block f o Ho Ha) as (Ha' & Hdis & Em).
    pose proof (all_free F a (buddy f o) o Hb Hbp Ho) as Hall. cbn [fst] in *.
    destruct (forallb _ _) eqn:Ef.
    + assert (block (buddy f o) o ⊆ C) as Hs by (apply proj1 in Hall; specialize (Hall eq_refl); set_solver).
      eapply returns_bind.
      { apply (remove_ok _ _ _ _ _ _ H), (free_buddy_listed C); [apply H|lia|done..]. }
      intros [b [a1 m1]] (Eb & Hr1 & Hag1 & fl1 & H1 & _). cbn [fst snd] in *. subst b.
      eapply returns_mono.
      { apply (IH _ _ _ _ _ _ (relinked_bits _ _ _ Hr1 Hb) H0 H1); [lia|lia|done|set_solver|].
        rewrite Em, EF. apply set_eq. intros x. destruct (decide (x ∈ block (buddy f o) o)); set_solver. }
      intros [[f' o'] [a' m']] (Ho' & Haf & Hr' & Hag' & Hrest). cbn [fst snd] in *. split_all; [lia|lia|done|..|done].
      * by eapply relinked_trans.
      * eapply agree_trans; [|exact Hag']. eapply agree_mono; [|exact Hag1]. set_solver.
    + apply returns_done. cbn [fst snd]. split_all; [lia|lia|done|by destruct a|done|].
      exists C, fl. split_all; [done..|]. intros _ Hl. pose proof (l_sub _ _ (h_lists _ _ _ H) _ _ Hl).
      assert (block (buddy f o) o ⊆ F) as Hx%Hall by set_solver. done.
Qed.

Lemma dealloc_spec_ok F am f o : alloc_ok F am -> 0 <= o <= MAX_ORDER -> aligned f o -> 0 < f ->
  f + 2 ^ o <= MAX_FRAMES -> block f o ## F ->
  returns (deallocate (f * PAGE_SIZE) o am) (fun am' => total_frames am'.1 = total_frames am.1 /\
    agree (F ∪ block f o) am.2 am'.2 /\ alloc_ok (F ∪ block f o) am').
Proof.
  intros [Hb [fl H] H0 Hn Hi] Ho Ha Hf Hle Hd. destruct am as [a m]. cbn [fst snd] in *.
  pose proof (pow2_pos o ltac:(lia)) as Hp2.
  unfold deallocate. fold (to_frame (f * PAGE_SIZE)). rewrite to_frame_ptr, usize_shl1_small by done.
  eapply returns_bind; [apply (clear_bits_ok _ F); [done|]|]. { intros x Hx%elem_of_seqZ. lia. }
  intros a1 [E1 Hb1]. cbn beta zeta. cbn [fst snd]. fold (block f o) in Hb1. rewrite (union_comm_L (block f o)) in Hb1.
  set (a2 := set_free_frames _ a1).
  assert (bits_ok (F ∪ block f o) a2) as Hb2 by (by destruct Hb1; split).
  assert (heap_ok F fl (a2, m)) as H2. { destruct H as [Hl Hlen Hc]. split; [done|..]; cbn in *; by rewrite E1. }
  assert (free_frames a2 = Z.of_nat (size (F ∪ block f o))) as En.
  { cbn. rewrite E1. cbn. rewrite Hn. pose proof (free_size _ _ Hb2).
    rewrite size_union in * by set_solver. pose proof (size_block f o ltac:(lia)).
    apply wrap_small || (rewrite wrap_small); change MAX_FRAMES with 262144 in *; lia. }
  eapply returns_bind.
  { apply (merge_ok (F ∪ block f o) _ F fl a2 m f o Hb2); [|done|lia|unfold MAX_ORDER in *; lia|done..].
    rewrite elem_of_union, elem_of_block. naive_solver lia. }
  intros [[f' o'] [a3 m3]] (Ho' & Haf & Hr & Hag & C' & fl' & H' & Hd' & EF & Hnl). cbn [fst snd] in *.
  assert (0 < f' < MAX_FRAMES) as Hf'.
  { destruct (block_pos (F ∪ block f o) f' o' a2 Hb2) as [? ?]; [|lia|set_solver|].
    - rewrite elem_of_union, elem_of_block. naive_solver lia.
    - pose proof (pow2_pos o' ltac:(lia)). lia. }
  eapply returns_mono; [by apply (push_ok _ _ _ _ f' o' H')|].
  intros [a4 m4] (Hr4 & Hag4 & H4). cbn [fst snd] in *.
  pose proof (relinked_trans _ _ _ Hr Hr4) as Hr24. rewrite <- EF in H4.
  split_all.
  - rewrite Hr24. cbn. by rewrite E1.
  - eapply agree_trans; [exact Hag|]. eapply agree_mono; [|exact Hag4]. rewrite EF.
    intros x ->%elem_of_singleton. apply elem_of_union_r, block_head. lia.
  - split; cbn [fst snd].
    + by eapply relinked_bits.
    + eauto.
    + rewrite elem_of_union, elem_of_block. naive_solver lia.
    + rewrite Hr24. done.
    + rewrite Hr24. cbn. by rewrite E1.
Qed.

Lemma dealloc_frame_ok F am f : alloc_ok F am -> 0 < f < MAX_FRAMES -> f ∉ F ->
  returns (deallocate_frame (f * PAGE_SIZE) am) (fun am' => total_frames am'.1 = total_frames am.1 /\
    agree (F ∪ {[f]}) am.2 am'.2 /\ alloc_ok (F ∪ {[f]}) am').
Proof.
  intros Ha Hf HF. rewrite <- (block_0 f).
  apply dealloc_spec_ok; [done|done|apply Z.divide_1_l|lia|change (2 ^ 0) with 1; lia|]. rewrite block_0. set_solver.
Qed.

End FrameOps.
