(* ===== verification/FrameTheorems.v ===== *)
(** * Theorems on the frame allocator

    [init_from_regions] on a memory map: the bitmap marks exactly the usable
    frames, and the greedy construction of the free lists yields maximal blocks
    that cover them. Then the runs of the allocator: whatever its clients do, the
    blocks they hold stay apart, and a request fails only when no block fits. *)

From S2P Require Import Prelude Memory FrameSpec FrameOps.

Module FrameInit.
Import BuddyAllocator FreeBlockPtr Blocks BitmapFacts FreeLists FrameOps.

(** The frames of the usable regions that the allocator can manage. *)
Definition usable (regions : list (Z * Z)) : list Z :=
  filter (fun f => f < MAX_FRAMES) (concat (region_frames <$> regions)).

Lemma bits_ok_new : bits_ok ∅ new.
Proof.
  split.
  - cbn. by rewrite length_replicate.
  - intros x Hx. split; [set_solver|]. destruct (decide (x < MAX_FRAMES)) as [Hlt|Hge].
    + rewrite (is_free_bit new x 255); [|done|].
      * assert (x mod 8 ∈ seqZ 0 8) as Hm by (apply elem_of_seqZ; apply Z.mod_pos_bound; lia).
        assert (forallb (Z.testbit 255) (seqZ 0 8) = true) as Hall by (vm_compute; reflexivity).
        rewrite forallb_forall in Hall. apply list_elem_of_In, Hall in Hm. by rewrite Hm.
      * cbn [bitmap new]. apply lookup_replicate_2.
        pose proof (byte_of new x ltac:(cbn; by rewrite length_replicate) ltac:(lia)) as H.
        cbn [bitmap new] in H. rewrite length_replicate in H. lia.
    + unfold is_free. destruct (Z.ltb_spec x MAX_FRAMES); [lia|done].
  - set_solver.
Qed.

(** The counters, the order and the flag are untouched by the bitmap loops. *)
Definition marked (F : gset Z) (n : Z) (a a' : t) : Prop :=
  bits_ok F a' /\ free_lists a' = free_lists a /\ max_order a' = max_order a /\ initialized a' = initialized a /\
  free_frames a' = free_frames a + n /\ total_frames a' = total_frames a + n.

Lemma marked_trans F F' n n' a1 a2 a3 : marked F n a1 a2 -> marked F' n' a2 a3 -> marked F' (n + n') a1 a3.
Proof. intros (_ & E1 & E2 & E3 & E4 & E5) (Hb & D1 & D2 & D3 & D4 & D5). unfold marked. split_all; (done || congruence || lia). Qed.

Lemma usable_bit_ok F a f : bits_ok F a -> 0 <= f ->
  returns (usable_bit f a)
    (marked (if decide (f < MAX_FRAMES) then {[f]} ∪ F else F) (if decide (f < MAX_FRAMES) then 1 else 0) a).
Proof.
  intros Ha Hf. unfold usable_bit. destruct (Z.ltb_spec f MAX_FRAMES) as [Hlt|Hge].
  - rewrite !decide_True by done. eapply returns_bind; [by apply clear_bit_ok|].
    intros a1 [E1 H1]. apply returns_done. unfold marked. split; [by destruct H1; split|].
    rewrite E1. cbn. split_all; done.
  - rewrite !decide_False by lia. apply returns_done. unfold marked. split_all; (done || lia).
Qed.

Lemma usable_bits_ok fs : forall F a, bits_ok F a -> (forall f, f ∈ fs -> 0 <= f) ->
  returns (usable_bits fs a)
    (marked (list_to_set (filter (fun f => f < MAX_FRAMES) fs) ∪ F) (Z.of_nat (length (filter (fun f => f < MAX_FRAMES) fs))) a).
Proof.
  induction fs as [|f fs IH]; intros F a Ha Hfs; cbn [usable_bits].
  - apply returns_done. rewrite filter_nil. cbn. rewrite union_empty_l_L. unfold marked. split_all; (done || lia).
  - eapply returns_bind; [apply usable_bit_ok; [exact Ha|apply Hfs; set_solver]|].
    intros a1 H1. eapply returns_mono; [apply IH; [apply H1|set_solver]|]. intros a2 H2.
    pose proof (marked_trans _ _ _ _ _ _ _ H1 H2) as H12. rewrite filter_cons.
    destruct (decide (f < MAX_FRAMES)); [|exact H12].
    cbn [length]. rewrite Nat2Z.inj_succ.
    replace (list_to_set (f :: filter (fun f => f < MAX_FRAMES) fs) ∪ F)
      with (list_to_set (filter (fun f => f < MAX_FRAMES) fs) ∪ ({[f]} ∪ F)) by set_solver.
    by replace (Z.succ _) with (1 + Z.of_nat (length (filter (fun f => f < MAX_FRAMES) fs))) by lia.
Qed.

Lemma region_frames_pos r f : 0 <= r.1 -> f ∈ region_frames r -> 0 <= f.
Proof.
  intros Hr Hf%elem_of_seqZ. enough (0 <= ceil_div r.1 PAGE_SIZE) by lia.
  unfold ceil_div, PAGE_SIZE. apply Z.div_pos; [|lia]. apply wrap_range. lia.
Qed.

Lemma mark_regions_ok rs : forall F a, bits_ok F a -> (forall r, r ∈ rs -> 0 <= r.1) ->
  returns (mark_regions rs a) (marked (list_to_set (usable rs) ∪ F) (Z.of_nat (length (usable rs))) a).
Proof.
  induction rs as [|r rs IH]; intros F a Ha Hrs; cbn [mark_regions].
  - apply returns_done. cbn. rewrite union_empty_l_L. unfold marked. split_all; (done || lia).
  - eapply returns_bind; [apply usable_bits_ok; [exact Ha|]|].
    { intros f Hf. eapply region_frames_pos; [|exact Hf]. apply Hrs. set_solver. }
    intros a1 H1. eapply returns_mono; [apply IH; [apply H1|set_solver]|]. intros a2 H2.
    pose proof (marked_trans _ _ _ _ _ _ _ H1 H2) as H12. unfold usable in *. rewrite fmap_cons. cbn [concat].
    rewrite filter_app, length_app, Nat2Z.inj_add, list_to_set_app_L.
    by replace (list_to_set (filter (fun f => f < MAX_FRAMES) (region_frames r)) ∪
        list_to_set (filter (fun f => f < MAX_FRAMES) (concat (region_frames <$> rs))) ∪ F)
      with (list_to_set (filter (fun f => f < MAX_FRAMES) (concat (region_frames <$> rs))) ∪
        (list_to_set (filter (fun f => f < MAX_FRAMES) (region_frames r)) ∪ F)) by set_solver.
Qed.

(** ** The greedy construction of the lists *)
Lemma upper_free F a f o : bits_ok F a -> 0 <= f -> 0 <= o ->
  forallb (fun i => (f + i <? MAX_FRAMES) && is_free a (f + i)) (seqZ (2 ^ o) (2 ^ (o + 1) - 2 ^ o)) = true <->
  block (f + 2 ^ o) o ⊆ F.
Proof.
  intros Hb Hf Ho. pose proof (pow2_pos o Ho). rewrite Z.pow_add_r by lia. change (2 ^ 1) with 2.
  rewrite (forallb_free F) by (done || (intros i Hi%elem_of_seqZ; lia)). split.
  - intros H1 x Hx%elem_of_block. replace x with (f + (x - f)) by lia. apply H1, elem_of_seqZ. lia.
  - intros H1 i Hi%elem_of_seqZ. apply H1, elem_of_block. lia.
Qed.

(** The order found: an aligned block of free frames that cannot be doubled. *)
Definition best (F : gset Z) (f o : Z) : Prop :=
  0 <= o <= MAX_ORDER /\ aligned f o /\ block f o ⊆ F /\
  (o < MAX_ORDER -> aligned f (o + 1) -> ~ block (f + 2 ^ o) o ⊆ F).

Lemma grow_order_ok F a f (k : nat) : bits_ok F a -> 0 <= f -> forall o, 0 <= o -> o + Z.of_nat k = MAX_ORDER ->
  aligned f o -> block f o ⊆ F -> best F f (grow_order k a f o).
Proof.
  intros Hb Hf. induction k as [|k IH]; intros o Ho Hk Ha Hs; cbn [grow_order].
  - unfold best. split_all; (done || lia).
  - rewrite !Z.shiftl_1_l. pose proof (pow2_pos (o + 1) ltac:(lia)).
    destruct (Z.eqb_spec (f mod 2 ^ (o + 1)) 0) as [Hm|Hm]; cbn [negb].
    + apply Z.mod_divide in Hm; [|lia]. pose proof (upper_free F a f o Hb Hf Ho) as Hu.
      destruct (forallb _ _).
      * apply IH; [lia|lia|done|]. rewrite block_split by done. apply union_subseteq. naive_solver.
      * unfold best. split_all; [lia|lia|done..|]. intros _ _ H'%Hu. done.
    + unfold best. split_all; [lia|lia|done..|]. intros _ Ha'. exfalso. apply Hm, Z.mod_divide; [lia|done].
Qed.

Definition below (F : gset Z) (x : Z) : gset Z := filter (fun y => y < x) F.

(** What the loop leaves alone. *)
Definition kept (a a' : t) : Prop :=
  bitmap a' = bitmap a /\ free_frames a' = free_frames a /\ total_frames a' = total_frames a.

Lemma kept_bits F a a' : kept a a' -> bits_ok F a -> bits_ok F a'.
Proof. intros (E & _) [H1 H2 H3]. split; [by rewrite E|intros x Hx; unfold is_free in *; rewrite E; by apply H2|done]. Qed.

Lemma below_all F a : bits_ok F a -> below F MAX_FRAMES = F.
Proof.
  intros Hb. apply set_eq. intros y. unfold below. rewrite elem_of_filter. split; [naive_solver|].
  intros Hy. split; [apply (bits_pos _ _ Hb) in Hy; lia|done].
Qed.

Lemma below_skip F x : x ∉ F -> below F (x + 1) = below F x.
Proof.
  intros Hx. apply set_eq. intros y. unfold below. rewrite !elem_of_filter.
  destruct (decide (y = x)) as [->|]; [naive_solver|]. split; intros [? ?]; (split; [lia|done]).
Qed.

Lemma below_block F x o : block x o ⊆ F -> 0 <= o -> below F (x + 2 ^ o) = below F x ∪ block x o.
Proof.
  intros Hs Ho. apply set_eq. intros y. unfold below. rewrite elem_of_union, !elem_of_filter. split.
  - intros [Hlt Hy]. destruct (decide (y < x)); [by left|right]. apply elem_of_block. lia.
  - intros [[? ?]|Hy]; [pose proof (pow2_pos o Ho); split; [lia|done]|].
    split; [|by apply Hs]. apply elem_of_block in Hy. lia.
Qed.

(** Lists of blocks none of which could be doubled. *)
Definition greedy (F : gset Z) (fl : list (list Z)) : Prop :=
  forall f o, listed fl f o -> o < MAX_ORDER -> aligned f (o + 1) -> ~ block (f + 2 ^ o) o ⊆ F.

(** The buddy of the next block is not in the lists: it would have been doubled. *)
Lemma next_block_buddy F fl x o : lists_ok (below F x) fl -> greedy F fl -> best F x o ->
  o < MAX_ORDER -> ~ listed fl (buddy x o) o.
Proof.
  intros Hl HG (Ho & Ha & Hs & _) Hlt Hin. pose proof (pow2_pos o ltac:(lia)).
  pose proof (listed_covered _ _ _ _ Hl Hin) as Hc. unfold below in Hc. apply elem_of_filter in Hc as [Hc _].
  destruct (buddy_cases x o ltac:(lia) Ha) as [[_ E]|[Ha' E]]; [lia|].
  apply (HG _ _ Hin Hlt Ha'). by replace (buddy x o + 2 ^ o) with x by lia.
Qed.

Lemma build_loop_ok F (fuel : nat) : forall x fl a m, bits_ok F a -> 0 ∉ F -> 0 <= x <= MAX_FRAMES ->
  MAX_FRAMES - x < Z.of_nat fuel -> heap_ok (below F x) fl (a, m) -> greedy F fl ->
  returns (build_loop fuel x (a, m)) (fun am' => kept a am'.1 /\ agree F m am'.2 /\ exists fl', heap_ok F fl' am').
Proof.
  induction fuel as [|fuel IH]; intros x fl a m Hb H0 Hx Hfuel H HG; [lia|].
  cbn [build_loop fst snd]. destruct (Z.ltb_spec x MAX_FRAMES) as [Hlt|Hge].
  2: { apply returns_done. split_all; [done..|]. exists fl. replace x with MAX_FRAMES in H by lia. by rewrite (below_all F a Hb) in H. }
  destruct (is_free a x) eqn:Hf; cbn [negb].
  2: { apply (IH _ fl); [done..|lia|lia| |done]. rewrite below_skip; [done|].
    rewrite (bits_free _ _ Hb) by lia. congruence. }
  assert (x ∈ F) as HxF by (apply (bits_free _ _ Hb); [lia|done]).
  assert (best F x (max_block_order a x)) as Hbest.
  { apply grow_order_ok; [done|lia|done|done|apply Z.divide_1_l|]. intros y Hy%elem_of_block. by replace y with x by lia. }
  set (o := max_block_order a x) in *. pose proof Hbest as (Ho & Ha & Hs & Hg).
  destruct (block_pos F x o a Hb H0 ltac:(lia) Hs) as [Hx0 Hle].
  set (a1 := if max_order a <? o then _ else a).
  assert (kept a a1 /\ free_lists a1 = free_lists a) as [Hk1 El] by (unfold a1; by destruct (_ <? _)).
  assert (heap_ok (below F x) fl (a1, m)) as H1.
  { destruct H as [Hl Hn Hc]. split; [done|..]; cbn in *; by rewrite El. }
  eapply returns_bind.
  { apply (push_ok _ _ _ _ x o H1); [done|done|lia| |by apply next_block_buddy with (F := F); [apply H|..]].
    intros y Hy%elem_of_block. unfold below. rewrite elem_of_filter. lia. }
  intros [a2 m2] (Hr & Hag2 & H2). cbn [fst snd] in *. rewrite <- below_block in H2 by (done || lia).
  pose proof (pow2_pos o ltac:(lia)). rewrite Z.shiftl_1_l.
  assert (kept a a2) as Hk2 by (destruct Hk1 as (E1 & E2 & E3); rewrite Hr; done).
  eapply returns_mono.
  { apply (IH (x + 2 ^ o) _ a2 m2 (kept_bits _ _ _ Hk2 Hb) H0 ltac:(lia) ltac:(lia) H2). intros f' o' Hl' Hlt' Hal.
    apply listed_insert in Hl'; [|apply H|done]. destruct Hl' as [[-> Hin]|[_ Hl']]; [|by apply HG].
    apply elem_of_cons in Hin as [->|Hin]; [by apply Hg|apply HG; [by split|done..]]. }
  intros am' ((E1 & E2 & E3) & Hag & Hfl). destruct Hk2 as (D1 & D2 & D3). unfold kept. split_all; [congruence..| |done].
  eapply agree_trans; [|exact Hag]. eapply agree_mono; [|exact Hag2]. set_solver.
Qed.

Lemma heap_ok_new m : heap_ok ∅ (replicate (Z.to_nat (MAX_ORDER + 1)) []) (new, m).
Proof.
  assert (forall f o, ~ listed (replicate (Z.to_nat (MAX_ORDER + 1)) []) f o) as Hnone.
  { intros f o [Ho Hf]. rewrite lookup_total_replicate_2 in Hf by (unfold MAX_ORDER in *; lia). by apply not_elem_of_nil in Hf. }
  split.
  - split; [by rewrite length_replicate|..].
    + by intros f o H%Hnone.
    + by intros f o H%Hnone.
    + intros x Hx. by apply not_elem_of_empty in Hx.
    + by intros f o f' o' x H%Hnone.
    + intros o Ho. rewrite lookup_total_replicate_2 by (unfold MAX_ORDER in *; lia). constructor.
    + by intros f o H%Hnone.
  - cbn. by rewrite length_replicate.
  - intros o Ho. exists NULL. cbn [fst snd free_lists new].
    rewrite lookup_replicate_2, lookup_total_replicate_2 by (unfold MAX_ORDER in *; lia). done.
Qed.

(** ** A memory map the allocator can start from

    Its regions do not share a frame, and frame 0 is not usable. *)
Definition map_ok (regions : list (Z * Z)) : Prop :=
  (forall r, r ∈ regions -> 0 <= r.1) /\ NoDup (usable regions) /\ 0 ∉ usable regions.

Lemma init_ok regions m : map_ok regions ->
  returns (init_from_regions regions (new, m)) (fun am => alloc_ok (list_to_set (usable regions)) am /\
    total_frames am.1 = Z.of_nat (length (usable regions)) /\ agree (list_to_set (usable regions)) m am.2).
Proof.
  intros (Hr & Hn & H0). unfold init_from_regions. cbn [fst snd].
  eapply returns_bind; [by apply (mark_regions_ok _ ∅ new bits_ok_new)|].
  intros a1 (Hb & El & Em & Ei & Ef & Et). rewrite union_empty_r_L in Hb. cbn in Ef, Et.
  set (F := list_to_set (usable regions)) in *. assert (0 ∉ F) as H0F by (unfold F; by rewrite elem_of_list_to_set).
  eapply returns_bind.
  { apply (build_loop_ok F _ 0 (replicate (Z.to_nat (MAX_ORDER + 1)) []) a1 m Hb H0F).
    - change MAX_FRAMES with 262144. lia.
    - change MAX_FRAMES with 262144. lia.
    - pose proof (heap_ok_new m) as [H1 H2 H3].
      replace (below F 0) with (∅ : gset Z).
      2: { symmetry. apply set_eq. intros y. unfold below. rewrite elem_of_filter. split; [|set_solver].
        intros [? Hy]. apply (bits_pos _ _ Hb) in Hy. lia. }
      split; cbn [fst snd] in *; [done|by rewrite El..].
    - intros f o Hl. exfalso. destruct Hl as [Ho Hf].
      rewrite lookup_total_replicate_2 in Hf by (unfold MAX_ORDER in *; lia). by apply not_elem_of_nil in Hf. }
  intros [a2 m2] ((E1 & E2 & E3) & Hag & fl & H). apply returns_done. cbn [fst snd] in *. split_all; [|cbn; lia|done].
  split; cbn [fst snd].
  - destruct (kept_bits F a1 a2) as [? ? ?]; [done..|]. by split.
  - exists fl. destruct H. by split.
  - done.
  - cbn. rewrite E2, Ef. unfold F. by rewrite size_list_to_set.
  - done.
Qed.

End FrameInit.

Module FrameRuns.
Import BuddyAllocator FreeBlockPtr Blocks BitmapFacts FreeLists FrameOps FrameInit.

(** The allocator and its memory, and the blocks that clients hold: the order of
    each block by its first frame. *)
Record world := mkWorld {
  mem : t * Mem.t;
  live : gmap Z Z;
}.

Inductive op :=
| Alloc (order : Z)
| Free (frame : Z)
| Write (addr : Z) (bytes : list Z).

Definition held (w : world) (x : Z) : Prop := exists f o, live w !! f = Some o /\ x ∈ block f o.

(** What a client may do: free a block it holds, with the order it was allocated
    with, and write to frames it holds. *)
Definition op_ok (w : world) (o : op) : Prop :=
  match o with
  | Alloc order => 0 <= order
  | Free frame => is_Some (live w !! frame)
  | Write addr bytes => forall x, addr <= x < addr + Z.of_nat (length bytes) -> held w (x / PAGE_SIZE)
  end.

Definition step (o : op) (w : world) : exec world :=
  match o with
  | Alloc order =>
      '(r, am) ← allocate order (mem w);
      Done (mkWorld am (match r with Some p => <[to_frame p := order]> (live w) | None => live w end))
  | Free frame =>
      am ← deallocate (from_frame frame) (default 0 (live w !! frame)) (mem w);
      Done (mkWorld am (delete frame (live w)))
  | Write addr bytes => Done (mkWorld ((mem w).1, Mem.store (mem w).2 addr bytes) (live w))
  end.

(** The worlds that clients can bring about from a memory map. *)
Inductive reachable (regions : list (Z * Z)) : world -> Prop :=
| reach_init m am : init_from_regions regions (new, m) = Done am -> reachable regions (mkWorld am ∅)
| reach_step w o w' : reachable regions w -> op_ok w o -> step o w = Done w' -> reachable regions w'.

(** The number of frames in live blocks. *)
Definition held_count (l : gmap Z Z) : Z := map_fold (fun _ o n => 2 ^ o + n) 0 l.

Lemma held_count_insert l f o : l !! f = None -> held_count (<[f := o]> l) = 2 ^ o + held_count l.
Proof. intros Hf. unfold held_count. apply (map_fold_insert_L (fun _ o n => 2 ^ o + n)); [|done]. intros. lia. Qed.

Lemma held_count_delete l f o : l !! f = Some o -> held_count l = 2 ^ o + held_count (delete f l).
Proof. intros Hf. unfold held_count. apply (map_fold_delete_L (fun _ o n => 2 ^ o + n)); [|done]. intros. lia. Qed.

Record world_ok (regions : list (Z * Z)) (F : gset Z) (w : world) : Prop := {
  w_alloc : alloc_ok F (mem w);
  w_live : forall f o, live w !! f = Some o -> 0 <= o <= MAX_ORDER /\ aligned f o /\ block f o ## F;
  w_apart : forall f o f' o', live w !! f = Some o -> live w !! f' = Some o' -> f <> f' -> block f o ## block f' o';
  w_usable : forall x, x ∈ usable regions <-> x ∈ F \/ held w x;
  w_total : total_frames (mem w).1 = Z.of_nat (length (usable regions));
  w_count : Z.of_nat (size F) + held_count (live w) = Z.of_nat (length (usable regions));
}.

Lemma world_ok_init regions m : map_ok regions ->
  returns (init_from_regions regions (new, m)) (fun am => world_ok regions (list_to_set (usable regions)) (mkWorld am ∅)).
Proof.
  intros Hm. eapply returns_mono; [by apply init_ok|]. intros am (Ha & Ht & _). split; cbn; [done|done|done| |done|].
  - intros x. rewrite elem_of_list_to_set. split; [naive_solver|]. intros [?|(f & o & ? & _)]; done.
  - unfold held_count. rewrite map_fold_empty, size_list_to_set by apply Hm. lia.
Qed.

Lemma usable_range regions x : map_ok regions -> x ∈ usable regions -> 0 < x < MAX_FRAMES.
Proof.
  intros (Hr & _ & H0) Hu. assert (x <> 0) by (intros ->; done).
  unfold usable in Hu. apply list_elem_of_filter in Hu as [Hlt Hu].
  rewrite list_elem_of_In, in_concat in Hu.
  destruct Hu as (l & Hl & Hxl). apply list_elem_of_In in Hl, Hxl. apply list_elem_of_fmap in Hl as (r & -> & Hin).
  pose proof (region_frames_pos r x (Hr r Hin) Hxl). lia.
Qed.

Lemma usable_length regions : map_ok regions -> Z.of_nat (length (usable regions)) <= MAX_FRAMES.
Proof.
  intros Hm. assert (usable regions ⊆+ seqZ 0 MAX_FRAMES) as H%submseteq_length.
  { apply NoDup_submseteq; [apply Hm|]. intros x Hx. apply elem_of_seqZ. pose proof (usable_range _ _ Hm Hx). lia. }
  rewrite length_seqZ in H. change MAX_FRAMES with 262144 in *. lia.
Qed.

(** A live block lies in the memory of the allocator, and frame 0 is not in it. *)
Lemma live_range regions F w f o : map_ok regions -> world_ok regions F w -> live w !! f = Some o ->
  0 < f /\ f + 2 ^ o <= MAX_FRAMES.
Proof.
  intros Hm Hw Hf. destruct (w_live _ _ _ Hw f o Hf) as (Ho & _). pose proof (pow2_pos o ltac:(lia)).
  assert (forall x, x ∈ block f o -> 0 < x < MAX_FRAMES) as Hall.
  { intros x Hx. apply (usable_range regions); [done|]. apply (w_usable _ _ _ Hw). right. by exists f, o. }
  pose proof (Hall f (block_head f o ltac:(lia))). specialize (Hall (f + 2 ^ o - 1)). rewrite elem_of_block in Hall. lia.
Qed.

(** ** Steps keep the invariant *)
Lemma alloc_step regions F w order : world_ok regions F w -> 0 <= order ->
  returns (step (Alloc order) w) (fun w' => agree F (mem w).2 (mem w').2 /\
    exists F', world_ok regions F' w' /\ (forall x, x ∈ F' -> x ∈ F)).
Proof.
  intros [Ha Hl Hp Hu Ht Hc] Ho. cbn [step].
  eapply returns_bind; [by apply (alloc_spec_ok F)|]. intros [r am] (Et & Hag & Hr). cbn [fst snd] in *.
  apply returns_done. cbn [mem]. split; [done|]. destruct r as [p|].
  2: { destruct Hr as [-> _]. exists F. split; [|done]. by split. }
  destruct Hr as (f & -> & Hle & Hal & Hs & Ha'). rewrite to_frame_ptr. exists (F ∖ block f order).
  assert (live w !! f = None) as Hnew.
  { destruct (live w !! f) as [o|] eqn:E; [|done]. exfalso. destruct (Hl f o E) as (Ho' & _ & Hd).
    pose proof (block_head f o ltac:(lia)). pose proof (block_head f order Ho). set_solver. }
  assert (forall f' o', live w !! f' = Some o' -> block f order ## block f' o') as Hd.
  { intros f' o' E. destruct (Hl f' o' E) as (_ & _ & Hd). set_solver. }
  split; [|set_solver]. split; cbn [mem live]; [done|..].
  - intros f' o'. rewrite lookup_insert_Some. intros [[<- <-]|[Hne E]].
    + split_all; [done..|set_solver].
    + destruct (Hl f' o' E) as (? & ? & ?). split_all; [lia|lia|done|set_solver].
  - intros f1 o1 f2 o2. rewrite !lookup_insert_Some. intros [[<- <-]|[Hne1 E1]] [[<- <-]|[Hne2 E2]] Hne; [done|..].
    + by apply Hd.
    + apply symmetry, Hd, E1.
    + by eapply Hp.
  - intros x. rewrite Hu, elem_of_difference. split.
    + intros [HF|(f' & o' & E & Hx)].
      * destruct (decide (x ∈ block f order)); [right; exists f, order; cbn; by rewrite lookup_insert_eq|by left].
      * right. exists f', o'. cbn. rewrite lookup_insert_ne; [done|]. congruence.
    + intros [[? _]|(f' & o' & E & Hx)]; [by left|]. cbn in E. apply lookup_insert_Some in E as [[<- <-]|[Hne E]].
      * left. by apply Hs.
      * right. by exists f', o'.
  - congruence.
  - rewrite held_count_insert by done. rewrite size_difference by done. pose proof (size_block f order Ho).
    assert (size (block f order) <= size F)%nat by (by apply subseteq_size). lia.
Qed.

Lemma free_step regions F w frame : map_ok regions -> world_ok regions F w -> is_Some (live w !! frame) ->
  returns (step (Free frame) w) (fun w' => exists F', agree F' (mem w).2 (mem w').2 /\ world_ok regions F' w' /\
    live w' = delete frame (live w)).
Proof.
  intros Hm Hw [o Ef]. destruct (live_range _ _ _ _ _ Hm Hw Ef) as [Hf Hle].
  destruct Hw as [Ha Hl Hp Hu Ht Hc]. destruct (Hl frame o Ef) as (Ho & Hal & Hd). pose proof (pow2_pos o ltac:(lia)).
  cbn [step]. rewrite Ef, from_frame_small by lia. cbn [default].
  eapply returns_bind; [by apply (dealloc_spec_ok F)|]. intros am (Et & Hag & Ha'). apply returns_done. cbn [mem live].
  exists (F ∪ block frame o). split_all; [done| |done]. split; cbn [mem live]; [done|..].
  - intros f' o' [Hne E]%lookup_delete_Some. destruct (Hl f' o' E) as (? & ? & ?).
    pose proof (Hp f' o' frame o E Ef ltac:(done)). split_all; [lia|lia|done|set_solver].
  - intros f1 o1 f2 o2 [_ E1]%lookup_delete_Some [_ E2]%lookup_delete_Some. by apply Hp.
  - intros x. rewrite Hu, elem_of_union. split.
    + intros [?|(f' & o' & E & Hx)]; [naive_solver|]. destruct (decide (f' = frame)) as [->|Hne].
      * left; right. by rewrite Ef in E; injection E as ->.
      * right. exists f', o'. cbn. by rewrite lookup_delete_ne.
    + intros [[?|?]|(f' & o' & E & Hx)]; [by left|right; by exists frame, o|].
      cbn in E. apply lookup_delete_Some in E as [_ E]. right. by exists f', o'.
  - congruence.
  - rewrite size_union by set_solver. pose proof (size_block frame o ltac:(lia)).
    rewrite (held_count_delete _ _ _ Ef) in Hc. lia.
Qed.

Lemma write_step regions F w addr bytes : world_ok regions F w -> op_ok w (Write addr bytes) ->
  returns (step (Write addr bytes) w) (world_ok regions F).
Proof.
  intros [Ha Hl Hp Hu Ht Hc] Hok. apply returns_done. split; cbn [mem live]; [|done..].
  destruct w as [[a m] lv]. cbn [mem fst snd live] in *.
  apply (alloc_ok_agree (list_to_set ((fun x => x / PAGE_SIZE) <$> seqZ addr (Z.of_nat (length bytes)))) F a m); [done|..].
  - intros x Hx. apply MemFacts.store_out. destruct (decide (addr <= x < addr + Z.of_nat (length bytes))) as [Hin|]; [|lia].
    exfalso. apply Hx. apply elem_of_list_to_set, list_elem_of_fmap. exists x. split; [done|]. by apply elem_of_seqZ.
  - intros f. rewrite elem_of_list_to_set, list_elem_of_fmap. intros (x & -> & Hx%elem_of_seqZ) HF.
    destruct (Hok x Hx) as (f' & o' & E & Hblk). destruct (Hl f' o' E) as (_ & _ & Hd). set_solver.
Qed.

Lemma frame_step_ok regions F w o : map_ok regions -> world_ok regions F w -> op_ok w o ->
  returns (step o w) (fun w' => exists F', world_ok regions F' w').
Proof.
  intros Hm Hw Ho. destruct o as [order|frame|addr bytes].
  - eapply returns_mono; [by apply alloc_step|]. intros w' (_ & F' & ? & _). by exists F'.
  - eapply returns_mono; [by eapply free_step|]. intros w' (F' & _ & ? & _). by exists F'.
  - eapply returns_mono; [by eapply write_step|]. intros w' ?. by exists F.
Qed.

Lemma world_reachable_ok regions w : map_ok regions -> reachable regions w -> exists F, world_ok regions F w.
Proof.
  intros Hm. induction 1 as [m am E|w o w' _ [F Hw] Ho E].
  - destruct (world_ok_init regions m Hm) as (am' & E' & Hw). rewrite E in E'. injection E' as <-. by eexists.
  - destruct (frame_step_ok _ _ _ _ Hm Hw Ho) as (w1 & E' & F' & Hw'). rewrite E in E'. injection E' as <-. by exists F'.
Qed.

Lemma free_iff regions F w x : world_ok regions F w -> x ∈ F <-> x ∈ usable regions /\ ~ held w x.
Proof.
  intros Hw. rewrite (w_usable _ _ _ Hw). split.
  - intros HF. split; [by left|]. intros (f & o & E & Hx). destruct (w_live _ _ _ Hw f o E) as (_ & _ & Hd). set_solver.
  - naive_solver.
Qed.

(** Allocation and deallocation write to free frames only. *)
Lemma step_spares_held regions F w o w' : map_ok regions -> world_ok regions F w -> op_ok w o -> step o w = Done w' ->
  (forall addr bytes, o <> Write addr bytes) ->
  forall x, held w (x / PAGE_SIZE) -> held w' (x / PAGE_SIZE) -> (mem w').2 x = (mem w).2 x.
Proof.
  intros Hm Hw Ho E Hnw x Hx Hx'. destruct o as [order|frame|addr bytes]; [..|by edestruct Hnw].
  - destruct (alloc_step _ _ _ _ Hw Ho) as (w1 & E1 & Hag & _). rewrite E in E1. injection E1 as <-.
    apply Hag. intros HF. apply (free_iff _ _ _ _ Hw) in HF. naive_solver.
  - destruct (free_step _ _ _ _ Hm Hw Ho) as (w1 & E1 & F' & Hag & Hw' & _). rewrite E in E1. injection E1 as <-.
    apply Hag. intros HF. apply (free_iff _ _ _ _ Hw') in HF. naive_solver.
Qed.

(** C8. Frames are never handed out twice. Started on any memory map whose
    regions share no frame and leave out frame 0, and whatever the clients
    allocate, free and write to the blocks they hold, every further operation
    returns (no list is cyclic, no index out of range); the live blocks are
    aligned, lie in usable memory and do not overlap; the bitmap calls free
    exactly the usable frames that no live block contains; the number of used
    frames is the size of the live blocks; and allocating and freeing leave the
    bytes of the blocks that stay live alone, although the free lists are kept
    in memory. *)
Theorem blocks_never_overlap regions w : map_ok regions -> reachable regions w ->
  (forall o, op_ok w o -> exists w', step o w = Done w') /\
  (forall f o, live w !! f = Some o -> aligned f o /\ forall x, x ∈ block f o -> x ∈ usable regions) /\
  (forall f o f' o', live w !! f = Some o -> live w !! f' = Some o' -> f <> f' -> block f o ## block f' o') /\
  (forall x, 0 <= x -> is_free (mem w).1 x = true <-> x ∈ usable regions /\ ~ held w x) /\
  used_frames (mem w).1 = held_count (live w) /\
  (forall o w', op_ok w o -> step o w = Done w' -> (forall addr bytes, o <> Write addr bytes) ->
    forall x, held w (x / PAGE_SIZE) -> held w' (x / PAGE_SIZE) -> (mem w').2 x = (mem w).2 x).
Proof.
  intros Hm Hr. destruct (world_reachable_ok _ _ Hm Hr) as [F Hw]. split_all.
  - intros o Ho. destruct (frame_step_ok _ _ _ _ Hm Hw Ho) as (w' & E & _). by exists w'.
  - intros f o E. split; [apply (w_live _ _ _ Hw _ _ E)|]. intros x Hx. apply (w_usable _ _ _ Hw). right. by exists f, o.
  - apply (w_apart _ _ _ Hw).
  - intros x Hx. rewrite <- (free_iff _ _ _ _ Hw). symmetry. apply (bits_free _ _ (a_bits _ _ (w_alloc _ _ _ Hw))), Hx.
  - pose proof (w_count _ _ _ Hw). pose proof (a_count _ _ (w_alloc _ _ _ Hw)) as E.
    unfold used_frames. rewrite (w_total _ _ _ Hw), E. rewrite wrap_small; [lia|].
    pose proof (usable_length _ Hm). change MAX_FRAMES with 262144 in *.
    assert (F ⊆ list_to_set (usable regions)) as HF%subseteq_size.
    { intros x Hx. apply elem_of_list_to_set, (w_usable _ _ _ Hw). by left. }
    rewrite size_list_to_set in HF by apply Hm. lia.
  - intros o w' Ho E Hnw. by eapply step_spares_held.
Qed.

(** A memory map with one region, of frames 1 to 8. *)
Definition small_map : list (Z * Z) := [(0x1000, 0x8000)].

Lemma small_map_ok : map_ok small_map.
Proof.
  split; [|split].
  - intros r ->%list_elem_of_singleton. done.
  - apply (bool_decide_unpack _). vm_compute. exact I.
  - apply (bool_decide_unpack _). vm_compute. exact I.
Qed.

Lemma blocks_never_overlap_witness : exists w w' f, reachable small_map w /\ step (Alloc 2) w = Done w' /\
  live w' !! f = Some 2 /\ (exists w'', step (Free f) w' = Done w'').
Proof.
  destruct (world_ok_init small_map (fun _ => 0) small_map_ok) as (am & E & Hw).
  pose proof (reach_init small_map _ _ E) as Hr.
  destruct (proj1 (blocks_never_overlap small_map _ small_map_ok Hr) (Alloc 2)) as (w' & E'); [done|].
  destruct (alloc_spec_ok _ _ 2 (w_alloc _ _ _ Hw) ltac:(lia)) as ([r am'] & Ea & _ & _ & Hres).
  assert (exists f, r = Some (f * PAGE_SIZE)) as [f ->].
  { destruct r as [p|]; [destruct Hres as (f & -> & _); by exists f|]. exfalso. destruct Hres as [_ Hno].
    apply (Hno ltac:(done) 4); [by exists 1|]. intros x Hx%elem_of_block. apply elem_of_list_to_set.
    assert (usable small_map = seqZ 1 8) as -> by (vm_compute; reflexivity). apply elem_of_seqZ. lia. }
  pose proof E' as E''. cbn [step mem] in E''. cbn [mem] in Ea. rewrite Ea in E''. exec_simpl. injection E'' as <-.
  assert (reachable small_map (mkWorld am' (<[f := 2]> ∅))) as Hr'.
  { eapply (reach_step small_map _ (Alloc 2)); [exact Hr|done|]. by rewrite to_frame_ptr in E'. }
  exists (mkWorld am ∅), (mkWorld am' (<[f := 2]> ∅)), f. rewrite to_frame_ptr in E'.
  split_all; [done|done|by cbn; rewrite lookup_insert_eq|].
  apply (proj1 (blocks_never_overlap small_map _ small_map_ok Hr') (Free f)). cbn. by rewrite lookup_insert_eq.
Defined.

(** C9. Allocation finds room whenever there is some: it returns; it answers
    [None], leaving everything as it was, only if every aligned block of that
    size contains a frame that is not usable or is held; otherwise it answers
    the address of an aligned block of usable frames that nobody held. Merging on deallocation
    leaves no fragmentation but that of the live blocks. *)
Theorem allocation_finds_room regions w order : map_ok regions -> reachable regions w -> 0 <= order <= MAX_ORDER ->
  exists r am', allocate order (mem w) = Done (r, am') /\
    match r with
    | Some p => exists f, p = f * PAGE_SIZE /\ aligned f order /\
        forall x, x ∈ block f order -> x ∈ usable regions /\ ~ held w x
    | None => am' = mem w /\
        forall g, aligned g order -> ~ forall x, x ∈ block g order -> x ∈ usable regions /\ ~ held w x
    end.
Proof.
  intros Hm Hr Ho. destruct (world_reachable_ok _ _ Hm Hr) as [F Hw].
  destruct (alloc_spec_ok F (mem w) order) as ([r am'] & E & _ & _ & Hres); [apply Hw|lia|].
  exists r, am'. split; [done|]. cbn [fst snd] in Hres. destruct r as [p|].
  - destruct Hres as (f & -> & _ & Ha & Hs & _). exists f. split_all; [done..|]. intros x Hx%Hs. by apply (free_iff _ F).
  - destruct Hres as [-> Hno]. split; [done|]. intros g Hg Hall. apply (Hno ltac:(lia) g Hg). intros x Hx.
    apply (free_iff regions F w x Hw), Hall, Hx.
Qed.

Lemma allocation_finds_room_witness : exists w r am', reachable small_map w /\ allocate 3 (mem w) = Done (r, am') /\ r = None.
Proof.
  destruct (world_ok_init small_map (fun _ => 0) small_map_ok) as (am & E & Hw).
  pose proof (reach_init small_map _ _ E) as Hr.
  destruct (allocation_finds_room small_map _ 3 small_map_ok Hr) as (r & am' & Ea & Hres); [unfold MAX_ORDER; lia|].
  exists (mkWorld am ∅), r, am'. split_all; [exact Hr|exact Ea|]. destruct r as [p|]; [|reflexivity].
  exfalso. destruct Hres as (f & _ & [k ->] & Hall). change (2 ^ 3) with 8 in *.
  assert (usable small_map = seqZ 1 8) as Eu by (vm_compute; reflexivity). rewrite Eu in Hall.
  destruct (Hall (k * 8)) as [H1%elem_of_seqZ _]; [apply elem_of_block; change (2 ^ 3) with 8; lia|].
  destruct (Hall (k * 8 + 7)) as [H2%elem_of_seqZ _]; [apply elem_of_block; change (2 ^ 3) with 8; lia|]. lia.
Defined.

(** Frame 0 cannot be on a list: its address is the null link, so that pushing it
    makes the list of its order empty and loses the blocks that were there. *)
Lemma frame_zero_loses_list order a m : 0 <= order <= MAX_ORDER -> length (free_lists a) = Z.to_nat (MAX_ORDER + 1) ->
  exists a' m', push_free_list 0 order (a, m) = Done (a', m') /\ arr_get (free_lists a') order = Done NULL.
Proof.
  intros Ho Hl. assert (0 <= order < Z.of_nat (length (free_lists a))) as Hr by (rewrite Hl; unfold MAX_ORDER in *; lia).
  destruct (arr_get_in _ _ Hr) as (h & Hh & _). unfold push_free_list. rewrite Hh. exec_simpl.
  rewrite arr_set_Done by done. exec_simpl. eexists _, _. split; [done|]. cbn.
  apply arr_get_at; [lia|]. rewrite list_lookup_insert_eq; [done|lia].
Qed.

End FrameRuns.
