(* ===== verification/Paging.v ===== *)
(** * Page tables (src/kernel/src/memory/page_table.rs, mapper.rs, address_space/)

    Four-level x86 page tables in physical memory. A table is the physical
    address of its page, a reference to an entry the physical address of its
    eight bytes; the contents are in the memory of [Memory.Mem], which the frame
    allocator shares. [invlpg] has no counterpart: the model has no TLB. *)

From S2P Require Import Prelude Memory.

(** ** Entries (page_table.rs) *)
Module PageTableFlags.

Definition PRESENT : Z := 1.
Definition WRITABLE : Z := Z.shiftl 1 1.
Definition USER : Z := Z.shiftl 1 2.
Definition HUGE_PAGE : Z := Z.shiftl 1 7.
Definition NO_EXECUTE : Z := Z.shiftl 1 63.
Definition empty : Z := 0.

Definition contains (flags other : Z) : bool := Z.land flags other =? other.

End PageTableFlags.

Module PageTableEntry.
Import PageTableFlags.

Definition ADDR_MASK : Z := 0x000FFFFFFFFFF000.

Definition empty : Z := 0.
Definition is_present (e : Z) : bool := negb (Z.land e PRESENT =? 0).
Definition addr (e : Z) : Z := Z.land e ADDR_MASK.
Definition flags (e : Z) : Z := Z.land e (lnot_u 64 ADDR_MASK).
(** The value that [set] stores. *)
Definition set (phys flags : Z) : Z := Z.lor (Z.land phys ADDR_MASK) flags.

End PageTableEntry.

Module PageTable.
Import PageTableEntry.

(** The address of [table.entries[i]]. *)
Definition entry (table i : Z) : Z := table + 8 * i.

Definition zero (table : Z) (m : Mem.t) : Mem.t :=
  foldl (fun m i => Mem.write_u64 m (entry table i) empty) m (seqZ 0 512).

Definition pml4_index (virt : Z) : Z := Z.land (Z.shiftr virt 39) 0x1FF.
Definition pdpt_index (virt : Z) : Z := Z.land (Z.shiftr virt 30) 0x1FF.
Definition pd_index (virt : Z) : Z := Z.land (Z.shiftr virt 21) 0x1FF.
Definition pt_index (virt : Z) : Z := Z.land (Z.shiftr virt 12) 0x1FF.

End PageTable.

(** ** Address spaces of processes (per_process.rs) *)
Module AddressSpace.
Import BuddyAllocator PageTableFlags PageTableEntry PageTable.

Inductive Error := AllocationFailed | KernelAddressViolation | AlreadyMapped | NotMapped.

#[export] Instance address_space_error_eq : EqDecision Error.
Proof. solve_decision. Defined.

(** The field [pml4_virt] is the address of the same table in the linear
    mapping of physical memory. *)
Record t := mk {
  pml4_phys : Z;
  user_page_count : Z;
  active : bool;
}.

(** [read_cr3], given the content of the register. *)
Definition read_cr3 (cr3 : Z) : Z := Z.land cr3 ADDR_MASK.

(** The loop that clones entries 256..512. *)
Definition clone_kernel_half (kernel_pml4 pml4 : Z) (m : Mem.t) : Mem.t :=
  foldl (fun m i => Mem.write_u64 m (entry pml4 i) (Mem.read_u64 m (entry kernel_pml4 i))) m (seqZ 256 256).

Definition create (cr3 : Z) (am : BuddyAllocator.t * Mem.t) : exec (result t Error * (BuddyAllocator.t * Mem.t)) :=
  '(r, am) ← allocate_frame am;
  match r with
  | None => Done (Err AllocationFailed, am)
  | Some pml4_phys =>
      let m := zero pml4_phys am.2 in
      let m := clone_kernel_half (read_cr3 cr3) pml4_phys m in
      Done (Ok (mk pml4_phys 0 true), (am.1, m))
  end.

Definition next_or_create (e : Z) (am : BuddyAllocator.t * Mem.t) : exec (result Z Error * (BuddyAllocator.t * Mem.t)) :=
  if is_present (Mem.read_u64 am.2 e) then Done (Ok (addr (Mem.read_u64 am.2 e)), am)
  else
    '(r, am) ← allocate_frame am;
    match r with
    | None => Done (Err AllocationFailed, am)
    | Some new_frame =>
        let m := zero new_frame am.2 in
        let fl := Z.lor (Z.lor PRESENT WRITABLE) USER in
        Done (Ok new_frame, (am.1, Mem.write_u64 m e (set new_frame fl)))
    end.

Definition walk_or_create_and_map (s : t) (virt phys fl : Z) (am : BuddyAllocator.t * Mem.t)
  : exec (result unit Error * (BuddyAllocator.t * Mem.t)) :=
  '(r, am) ← next_or_create (entry (pml4_phys s) (pml4_index virt)) am;
  match r with
  | Err e => Done (Err e, am)
  | Ok pdpt =>
      '(r, am) ← next_or_create (entry pdpt (pdpt_index virt)) am;
      match r with
      | Err e => Done (Err e, am)
      | Ok pd =>
          '(r, am) ← next_or_create (entry pd (pd_index virt)) am;
          match r with
          | Err e => Done (Err e, am)
          | Ok pt =>
              let e := entry pt (pt_index virt) in
              if is_present (Mem.read_u64 am.2 e) then Done (Err AlreadyMapped, am)
              else Done (Ok tt, (am.1, Mem.write_u64 am.2 e (set phys fl)))
          end
      end
  end.

Definition map_user_page (virt phys fl : Z) (s : t) (am : BuddyAllocator.t * Mem.t)
  : exec (result unit Error * t * (BuddyAllocator.t * Mem.t)) :=
  if 0xFFFF800000000000 <=? virt then Done (Err KernelAddressViolation, s, am)
  else
    let user_flags := Z.lor (Z.lor (Z.lor PRESENT WRITABLE) USER) fl in
    '(r, am) ← walk_or_create_and_map s virt phys user_flags am;
    match r with
    | Err e => Done (Err e, s, am)
    | Ok _ => Done (Ok tt, mk (pml4_phys s) (wrap 64 (user_page_count s + 1)) (active s), am)
    end.

(** The address of the last-level entry, if the tables above it are there. *)
Definition walk_to_entry (s : t) (virt : Z) (m : Mem.t) : option Z :=
  let pml4_e := Mem.read_u64 m (entry (pml4_phys s) (pml4_index virt)) in
  if negb (is_present pml4_e) then None
  else
    let pdpt_e := Mem.read_u64 m (entry (addr pml4_e) (pdpt_index virt)) in
    if negb (is_present pdpt_e) then None
    else
      let pd_e := Mem.read_u64 m (entry (addr pdpt_e) (pd_index virt)) in
      if negb (is_present pd_e) then None
      else Some (entry (addr pd_e) (pt_index virt)).

Definition unmap_user_page (virt : Z) (s : t) (am : BuddyAllocator.t * Mem.t)
  : result Z Error * t * (BuddyAllocator.t * Mem.t) :=
  if 0xFFFF800000000000 <=? virt then (Err KernelAddressViolation, s, am)
  else
    match walk_to_entry s virt am.2 with
    | None => (Err NotMapped, s, am)
    | Some e =>
        let v := Mem.read_u64 am.2 e in
        if negb (is_present v) then (Err NotMapped, s, am)
        else (Ok (addr v), mk (pml4_phys s) (sat_sub (user_page_count s) 1) (active s),
              (am.1, Mem.write_u64 am.2 e empty))
    end.

(** The nested loops of [destroy], from the inside out. *)
Fixpoint free_tables (pd : Z) (ks : list Z) (am : BuddyAllocator.t * Mem.t) : exec (BuddyAllocator.t * Mem.t) :=
  match ks with
  | [] => Done am
  | k :: ks' =>
      let e := Mem.read_u64 am.2 (entry pd k) in
      am ← (if is_present e then deallocate_frame (addr e) am else Done am);
      free_tables pd ks' am
  end.

Fixpoint free_directories (pdpt : Z) (js : list Z) (am : BuddyAllocator.t * Mem.t) : exec (BuddyAllocator.t * Mem.t) :=
  match js with
  | [] => Done am
  | j :: js' =>
      let e := Mem.read_u64 am.2 (entry pdpt j) in
      am ← (if is_present e then
              am ← free_tables (addr e) (seqZ 0 512) am;
              deallocate_frame (addr e) am
            else Done am);
      free_directories pdpt js' am
  end.

Fixpoint free_pointer_tables (pml4 : Z) (is_ : list Z) (am : BuddyAllocator.t * Mem.t) : exec (BuddyAllocator.t * Mem.t) :=
  match is_ with
  | [] => Done am
  | i :: is' =>
      let e := Mem.read_u64 am.2 (entry pml4 i) in
      am ← (if is_present e then
              am ← free_directories (addr e) (seqZ 0 512) am;
              deallocate_frame (addr e) am
            else Done am);
      free_pointer_tables pml4 is' am
  end.

Definition destroy (s : t) (am : BuddyAllocator.t * Mem.t) : exec (t * (BuddyAllocator.t * Mem.t)) :=
  if negb (active s) then Done (s, am)
  else
    am ← free_pointer_tables (pml4_phys s) (seqZ 0 256) am;
    am ← deallocate_frame (pml4_phys s) am;
    Done (mk (pml4_phys s) (user_page_count s) false, am).

Definition verify_kernel_mappings (cr3 : Z) (s : t) (m : Mem.t) : bool :=
  forallb (fun i => Mem.read_u64 m (entry (pml4_phys s) i) =? Mem.read_u64 m (entry (read_cr3 cr3) i)) (seqZ 256 256).

End AddressSpace.
