(* ===== verification/PagingSpec.v ===== *)
(** * What the page tables of an address space represent

    The tables of an address space form a tree in memory; walking it finds the
    entry of a page. Creating tables, mapping, unmapping and freeing act on the
    tree as they should and write only to its tables and to free frames. *)

From S2P Require Import Prelude Memory FrameSpec FrameOps Paging.

Module Trees.
Import BuddyAllocator Blocks FreeLists FrameOps PageTableFlags PageTableEntry PageTable AddressSpace.

(** ** Words of a table *)
Definition word (m : Mem.t) (f i : Z) : Z := Mem.read_u64 m (entry (f * PAGE_SIZE) i).

Lemma entry_in_page f i x : 0 <= i < 512 -> entry (f * PAGE_SIZE) i <= x < entry (f * PAGE_SIZE) i + 8 ->
  x / PAGE_SIZE = f.
Proof. intros Hi Hx. apply in_page. unfold entry, PAGE_SIZE in *. lia. Qed.

Lemma word_agree S m m' f i : agree S m m' -> f ∉ S -> 0 <= i < 512 -> word m' f i = word m f i.
Proof.
  intros H Hf Hi. apply MemFacts.read_u64_ext. intros x Hx. apply H. by rewrite (entry_in_page f i x).
Qed.

Lemma agree_entry m f i v : 0 <= i < 512 -> agree {[f]} m (Mem.write_u64 m (entry (f * PAGE_SIZE) i) v).
Proof.
  intros Hi x Hx. apply MemFacts.write_u64_out.
  destruct (decide (entry (f * PAGE_SIZE) i <= x < entry (f * PAGE_SIZE) i + 8)) as [Hin|]; [|lia].
  apply (entry_in_page f i x Hi) in Hin. set_solver.
Qed.

Lemma word_write m f i v j : 0 <= i < 512 -> 0 <= j < 512 -> in_u 64 v ->
  word (Mem.write_u64 m (entry (f * PAGE_SIZE) i) v) f j = if decide (j = i) then v else word m f j.
Proof.
  intros Hi Hj Hv. unfold word. destruct (decide (j = i)) as [->|Hne]; [by apply MemFacts.read_write_u64|].
  apply MemFacts.read_write_u64_out. unfold entry. lia.
Qed.

(** A loop over entries of one table. *)
Lemma write_entries_ok (g : Mem.t -> Z -> Z) f is_ : forall m, (forall i, i ∈ is_ -> 0 <= i < 512) -> NoDup is_ ->
  (forall m m' i, i ∈ is_ -> agree {[f]} m m' -> g m' i = g m i) -> (forall i, i ∈ is_ -> in_u 64 (g m i)) ->
  let m' := foldl (fun m i => Mem.write_u64 m (entry (f * PAGE_SIZE) i) (g m i)) m is_ in
  agree {[f]} m m' /\ forall j, 0 <= j < 512 -> word m' f j = if decide (j ∈ is_) then g m j else word m f j.
Proof.
  induction is_ as [|i is_ IH]; intros m Hi Hn Hg Hr.
  - split; [done|]. intros j _. rewrite decide_False by set_solver. done.
  - apply NoDup_cons in Hn as [Hni Hn]. cbn [foldl]. set (m1 := Mem.write_u64 _ _ _).
    assert (agree {[f]} m m1) as H1 by (apply agree_entry, Hi; set_solver).
    destruct (IH m1) as [Hag Hw]; [set_solver|done|intros; apply Hg; set_solver| |].
    { intros j Hj. rewrite (Hg m) by (done || set_solver). apply Hr. set_solver. }
    split; [by eapply agree_trans|]. intros j Hj. rewrite Hw by done.
    destruct (decide (j ∈ is_)) as [Hin|Hnin].
    + rewrite decide_True by set_solver. apply Hg; set_solver.
    + unfold m1. rewrite word_write; [|apply Hi, list_elem_of_here|done|apply Hr, list_elem_of_here].
      destruct (decide (j = i)) as [->|]; [rewrite decide_True by set_solver; done|].
      by rewrite decide_False by set_solver.
Qed.

Lemma zero_ok m f : agree {[f]} m (zero (f * PAGE_SIZE) m) /\
  forall j, 0 <= j < 512 -> word (zero (f * PAGE_SIZE) m) f j = 0.
Proof.
  destruct (write_entries_ok (fun _ _ => empty) f (seqZ 0 512) m) as [H1 H2].
  - intros i Hi%elem_of_seqZ. lia.
  - apply NoDup_seqZ.
  - done.
  - done.
  - split; [done|]. intros j Hj. rewrite H2 by done. rewrite decide_True; [done|]. apply elem_of_seqZ. lia.
Qed.

(** ** Entries *)
Lemma present_bit e : is_present e = Z.testbit e 0.
Proof.
  unfold is_present, PRESENT. change 1 with (Z.shiftl 1 0). rewrite BitmapFacts.land_bit by lia. apply negb_involutive.
Qed.

Lemma present_set phys fl : Z.testbit fl 0 = true -> is_present (set phys fl) = true.
Proof. intros H. rewrite present_bit. unfold set. by rewrite Z.lor_spec, H, orb_true_r. Qed.

Lemma mask_page f : 0 <= f < MAX_FRAMES -> Z.land (f * PAGE_SIZE) ADDR_MASK = f * PAGE_SIZE.
Proof.
  intros Hf. change MAX_FRAMES with 262144 in Hf.
  replace ADDR_MASK with (Z.shiftl (Z.ones 40) 12) by (vm_compute; reflexivity).
  replace (f * PAGE_SIZE) with (Z.shiftl f 12) by (rewrite Z.shiftl_mul_pow2 by lia; done).
  rewrite <- Z.shiftl_land, Z.land_ones by lia. rewrite Z.mod_small; [done|]. change (2 ^ 40) with 1099511627776. lia.
Qed.

(** The low flags of an intermediate entry do not disturb its address. *)
Lemma addr_set f fl : 0 <= f < MAX_FRAMES -> Z.land fl ADDR_MASK = 0 -> addr (set (f * PAGE_SIZE) fl) = f * PAGE_SIZE.
Proof.
  intros Hf Hfl. unfold addr, set. rewrite Z.land_lor_distr_l, Hfl, Z.lor_0_r, <- Z.land_assoc, Z.land_diag.
  by apply mask_page.
Qed.

Lemma set_range phys fl : 0 <= phys -> in_u 64 fl -> in_u 64 (set phys fl).
Proof. intros Hp Hf. apply lor_range; [done| |done]. by apply land_range. Qed.

(** ** Trees of tables

    A tree gives the frame of every table by the indices on the way to it: the
    empty path is the PML4, a path of length 3 a last-level table. *)
Notation tree := (gmap (list Z) Z).

(** Paths of user tables: the first index selects the lower half of the PML4. *)
Definition path_ok (q : list Z) : Prop :=
  (length q <= 3)%nat /\ forall k i, q !! k = Some i -> 0 <= i < if decide (k = 0%nat) then 256 else 512.

Record tree_ok (T : tree) (m : Mem.t) : Prop := {
  t_path : forall q f, T !! q = Some f -> path_ok q /\ 0 < f < MAX_FRAMES;
  t_parent : forall q i f, T !! (q ++ [i]) = Some f -> is_Some (T !! q);
  t_inj : forall q q' f, T !! q = Some f -> T !! q' = Some f -> q = q';
  t_entry : forall q f i, T !! q = Some f -> path_ok (q ++ [i]) ->
    match T !! (q ++ [i]) with
    | Some g => is_present (word m f i) = true /\ addr (word m f i) = g * PAGE_SIZE
    | None => is_present (word m f i) = false
    end;
}.

(** The frames of the tables. *)
Definition frames (T : tree) : gset Z := map_img T.

Lemma elem_of_frames T x : x ∈ frames T <-> exists q, T !! q = Some x.
Proof. apply elem_of_map_img. Qed.

Lemma frames_insert T q f : T !! q = None -> frames (<[q := f]> T) = {[f]} ∪ frames T.
Proof. intros Hq. by apply map_img_insert_notin_L. Qed.

Lemma path_ok_index q i : path_ok (q ++ [i]) -> 0 <= i < 512.
Proof.
  intros [_ H]. specialize (H (length q) i). rewrite list_lookup_middle in H by done. specialize (H eq_refl).
  destruct (decide _); lia.
Qed.

Lemma path_ok_short q i : path_ok (q ++ [i]) -> (length q < 3)%nat.
Proof. intros [H _]. rewrite length_app in H. cbn in H. lia. Qed.

(** A tree depends only on the frames of its tables. *)
Lemma tree_ok_agree S T m m' : tree_ok T m -> agree S m m' -> frames T ## S -> tree_ok T m'.
Proof.
  intros [Hp Hpa Hi He] Hag Hd. split; [done..|]. intros q f i Hq Hpi. specialize (He q f i Hq Hpi).
  rewrite (word_agree S m m') by (done || by eapply path_ok_index || (assert (f ∈ frames T) by (apply elem_of_frames; eauto); set_solver)).
  done.
Qed.

(** ** The page found by walking the tree *)
Definition path (virt : Z) : list Z := [pml4_index virt; pdpt_index virt; pd_index virt].

Definition leaf (T : tree) (m : Mem.t) (virt : Z) : option Z :=
  f ← T !! path virt;
  let e := word m f (pt_index virt) in
  if is_present e then Some e else None.

(** The entry that the tables of an address space give a page. *)
Definition mapped (s : AddressSpace.t) (m : Mem.t) (virt : Z) : option Z :=
  e ← walk_to_entry s virt m;
  let v := Mem.read_u64 m e in
  if is_present v then Some v else None.

Lemma table_index_range k virt : 0 <= k -> 0 <= Z.land (Z.shiftr virt k) 0x1FF < 512.
Proof. intros Hk. change 0x1FF with (2 ^ 9 - 1). rewrite land_ones_mod by lia. by apply Z.mod_pos_bound. Qed.

Lemma pml4_user virt : 0 <= virt < 2 ^ 47 -> 0 <= pml4_index virt < 256.
Proof.
  intros Hv. unfold pml4_index. change 0x1FF with (2 ^ 9 - 1). rewrite land_ones_mod by lia.
  rewrite Z.shiftr_div_pow2 by lia. assert (0 <= virt / 2 ^ 39 < 256).
  { split; [apply Z.div_pos; lia|]. apply Z.div_lt_upper_bound; lia. }
  rewrite Z.mod_small; lia.
Qed.

Lemma path_ok_user virt k : 0 <= virt < 2 ^ 47 -> (k <= 3)%nat -> path_ok (take k (path virt)).
Proof.
  intros Hv Hk. split; [rewrite length_take; cbn; lia|]. intros n i Hn.
  apply lookup_take_Some in Hn as [Hn _]. pose proof (pml4_user virt Hv).
  pose proof (table_index_range 30 virt ltac:(lia)). pose proof (table_index_range 21 virt ltac:(lia)).
  destruct n as [|[|[|n]]]; cbn in Hn; simplify_eq; cbn; done || lia.
Qed.

(** Pages and indices. *)
Lemma vpn_indices virt : 0 <= virt < 2 ^ 47 -> virt / PAGE_SIZE =
  ((pml4_index virt * 512 + pdpt_index virt) * 512 + pd_index virt) * 512 + pt_index virt.
Proof.
  intros Hv. unfold pml4_index, pdpt_index, pd_index, pt_index. change 0x1FF with (2 ^ 9 - 1).
  rewrite !land_ones_mod, !Z.shiftr_div_pow2 by lia. change (2 ^ 9) with 512.
  replace (virt / 2 ^ 21) with (virt / 2 ^ 12 / 512) by (rewrite Z.div_div by lia; done).
  replace (virt / 2 ^ 30) with (virt / 2 ^ 12 / 512 / 512) by (rewrite !Z.div_div by lia; done).
  replace (virt / 2 ^ 39) with (virt / 2 ^ 12 / 512 / 512 / 512) by (rewrite !Z.div_div by lia; done).
  change (2 ^ 12) with PAGE_SIZE. set (v := virt / PAGE_SIZE).
  assert (0 <= v < 2 ^ 35) as Hvv.
  { unfold v, PAGE_SIZE. split; [apply Z.div_pos; lia|]. apply Z.div_lt_upper_bound; lia. }
  assert (v / 512 / 512 / 512 mod 512 = v / 512 / 512 / 512) as ->.
  { apply Z.mod_small. rewrite !Z.div_div by lia. split; [apply Z.div_pos; lia|].
    apply Z.div_lt_upper_bound; [lia|]. change (512 * (512 * 512)) with (2 ^ 27). lia. }
  pose proof (Z.div_mod v 512 ltac:(lia)). pose proof (Z.div_mod (v / 512) 512 ltac:(lia)).
  pose proof (Z.div_mod (v / 512 / 512) 512 ltac:(lia)). lia.
Qed.

Lemma same_page virt virt' : 0 <= virt < 2 ^ 47 -> 0 <= virt' < 2 ^ 47 ->
  virt / PAGE_SIZE = virt' / PAGE_SIZE <-> path virt = path virt' /\ pt_index virt = pt_index virt'.
Proof.
  intros Hv Hv'. rewrite (vpn_indices virt), (vpn_indices virt') by done. unfold path.
  pose proof (table_index_range 30 virt ltac:(lia)). pose proof (table_index_range 21 virt ltac:(lia)). pose proof (table_index_range 12 virt ltac:(lia)).
  pose proof (table_index_range 30 virt' ltac:(lia)). pose proof (table_index_range 21 virt' ltac:(lia)). pose proof (table_index_range 12 virt' ltac:(lia)).
  unfold pdpt_index, pd_index, pt_index in *. split.
  - intros E. assert (pml4_index virt = pml4_index virt') as -> by lia.
    assert (Z.land (Z.shiftr virt 30) 511 = Z.land (Z.shiftr virt' 30) 511) as -> by lia.
    assert (Z.land (Z.shiftr virt 21) 511 = Z.land (Z.shiftr virt' 21) 511) as -> by lia. split; [done|lia].
  - intros [E ->]. injection E as -> -> ->. done.
Qed.

(** The walk of the code follows the tree. *)
Lemma walk_path T m s f0 virt : tree_ok T m -> T !! [] = Some f0 -> pml4_phys s = f0 * PAGE_SIZE ->
  0 <= virt < 2 ^ 47 ->
  walk_to_entry s virt m = (fun f => entry (f * PAGE_SIZE) (pt_index virt)) <$> T !! path virt.
Proof.
  intros Ht H0 Hs Hv. unfold walk_to_entry, path. rewrite Hs.
  pose proof (path_ok_user virt 1 Hv ltac:(lia)) as P1. pose proof (path_ok_user virt 2 Hv ltac:(lia)) as P2.
  pose proof (path_ok_user virt 3 Hv ltac:(lia)) as P3. cbn [take path] in *.
  set (i4 := pml4_index virt) in *. set (i3 := pdpt_index virt) in *. set (i2 := pd_index virt) in *.
  assert (forall q i f, T !! q = None -> T !! (q ++ [i]) = Some f -> False) as Hnone.
  { intros q i f Hq Hqi. destruct (t_parent _ _ Ht _ _ _ Hqi) as [? ?]. congruence. }
  pose proof (t_entry _ _ Ht [] f0 i4 H0 P1) as E1. cbn [app] in E1. unfold word in E1.
  destruct (T !! [i4]) as [f1|] eqn:T1.
  2: { rewrite E1. cbn. destruct (T !! [i4; i3; i2]) as [f|] eqn:T3; [|done]. exfalso.
    destruct (t_parent _ _ Ht [i4; i3] i2 f T3) as [f2 T2]. by apply (Hnone [i4] i3 f2). }
  destruct E1 as [E1 A1]. rewrite E1, A1. cbn [negb].
  pose proof (t_entry _ _ Ht [i4] f1 i3 T1 P2) as E2. cbn [app] in E2. unfold word in E2.
  destruct (T !! [i4; i3]) as [f2|] eqn:T2.
  2: { rewrite E2. cbn. destruct (T !! [i4; i3; i2]) as [f|] eqn:T3; [|done]. exfalso. by apply (Hnone [i4; i3] i2 f). }
  destruct E2 as [E2 A2]. rewrite E2, A2. cbn [negb].
  pose proof (t_entry _ _ Ht [i4; i3] f2 i2 T2 P3) as E3. cbn [app] in E3. unfold word in E3.
  destruct (T !! [i4; i3; i2]) as [f3|] eqn:T3; [|by rewrite E3].
  destruct E3 as [E3 A3]. rewrite E3, A3. done.
Qed.

Lemma walk_leaf T m s f0 virt : tree_ok T m -> T !! [] = Some f0 -> pml4_phys s = f0 * PAGE_SIZE ->
  0 <= virt < 2 ^ 47 -> mapped s m virt = leaf T m virt.
Proof.
  intros Ht H0 Hs Hv. unfold mapped, leaf. rewrite (walk_path T m s f0 virt) by done. by destruct (T !! path virt).
Qed.

End Trees.
