(* ===== verification/PagingOps.v ===== *)
(** * The operations on address spaces

    What creating tables, mapping, unmapping and destroying do to the tree of an
    address space and to the set of free frames. [destroy] walks the lower half
    of the tables and returns every table to the frame allocator: afterwards
    exactly the tables are free in addition, and no table is read after it was
    freed. *)

From S2P Require Import Prelude Memory FrameSpec FrameOps Paging PagingSpec.

Module SpaceOps.
Import BuddyAllocator Blocks FreeLists FrameOps PageTableFlags PageTableEntry PageTable AddressSpace Trees.

(** Free frames [F] and the tree [T] of an address space, apart from each other. *)
Record space_ok (F : gset Z) (T : tree) (am : BuddyAllocator.t * Mem.t) : Prop := {
  s_alloc : alloc_ok F am;
  s_tree : tree_ok T am.2;
  s_disj : frames T ## F;
}.

(** From one such state to another: the free frames and tables stay the same
    frames together, tables are only added, nothing else in memory changes, the
    kernel half of the PML4 stays, and the pages are now those of [L]. *)
Record becomes (L : Z -> option Z) (F : gset Z) (T : tree) (am : BuddyAllocator.t * Mem.t)
    (F' : gset Z) (T' : tree) (am' : BuddyAllocator.t * Mem.t) : Prop := {
  b_ok : space_ok F' T' am';
  b_all : F' ∪ frames T' = F ∪ frames T;
  b_free : F' ⊆ F;
  b_sub : T ⊆ T';
  b_agree : agree (F ∪ frames T) am.2 am'.2;
  b_leaf : forall virt, 0 <= virt < 2 ^ 47 -> leaf T' am'.2 virt = L virt;
  b_kernel : forall f j, T !! [] = Some f -> 256 <= j < 512 -> word am'.2 f j = word am.2 f j;
  b_total : total_frames am'.1 = total_frames am.1;
}.

Lemma becomes_refl F T am : space_ok F T am -> becomes (leaf T am.2) F T am F T am.
Proof. intros H. by split. Qed.

Lemma becomes_trans L F T am F1 T1 am1 F2 T2 am2 : becomes (leaf T am.2) F T am F1 T1 am1 ->
  becomes L F1 T1 am1 F2 T2 am2 -> becomes L F T am F2 T2 am2.
Proof.
  intros H1 H2. split.
  - apply H2.
  - rewrite (b_all _ _ _ _ _ _ _ H2). apply H1.
  - etrans; [apply H2|apply H1].
  - etrans; [apply H1|apply H2].
  - eapply agree_trans; [apply H1|]. rewrite <- (b_all _ _ _ _ _ _ _ H1). apply H2.
  - apply H2.
  - intros f j Hf Hj. rewrite (b_kernel _ _ _ _ _ _ _ H2), (b_kernel _ _ _ _ _ _ _ H1); [done..| |done].
    by eapply lookup_weaken; [|apply H1].
  - etrans; [apply H2|apply H1].
Qed.

(** The same transition, with the pages described relative to the first state. *)
Lemma becomes_leaf L L' F T am F' T' am' : (forall v, 0 <= v < 2 ^ 47 -> L v = L' v) ->
  becomes L F T am F' T' am' -> becomes L' F T am F' T' am'.
Proof. intros HL []. split; try done. intros v Hv. rewrite <- HL by done. auto. Qed.

Lemma frames_lookup T q f : T !! q = Some f -> f ∈ frames T.
Proof. intros H. apply elem_of_frames. by exists q. Qed.

(** ** One more table *)

(** The tree with one more table [g], empty, linked from entry [i] of [f]. *)
Lemma grow_tree T m m' q i f g v : tree_ok T m -> T !! q = Some f -> path_ok (q ++ [i]) -> T !! (q ++ [i]) = None ->
  g ∉ frames T -> 0 < g < MAX_FRAMES ->
  (forall x, x ∈ frames T -> x <> f -> forall j, 0 <= j < 512 -> word m' x j = word m x j) ->
  (forall j, 0 <= j < 512 -> word m' f j = if decide (j = i) then v else word m f j) ->
  (forall j, 0 <= j < 512 -> word m' g j = 0) -> is_present v = true -> addr v = g * PAGE_SIZE ->
  tree_ok (<[q ++ [i] := g]> T) m'.
Proof.
  intros Ht Hq Hpi Hn HgT Hgr W3 Wf Wg Hv Hva. split.
  - intros q' x [[<- <-]|[_ Hq']]%lookup_insert_Some; [done|by apply (t_path _ _ Ht)].
  - intros q' i' x [[E <-]|[Hne Hq']]%lookup_insert_Some.
    + apply app_inj_tail in E as [<- <-]. rewrite lookup_insert_ne; [by eexists|]. intros E. apply (f_equal length) in E.
      rewrite length_app in E. cbn in E. lia.
    + apply (t_parent _ _ Ht) in Hq' as [y Hy]. destruct (decide (q ++ [i] = q')) as [<-|]; [by rewrite lookup_insert_eq|].
      rewrite lookup_insert_ne by done. by exists y.
  - intros q1 q2 x [[<- <-]|[Hne1 H1]]%lookup_insert_Some [[<- E]|[Hne2 H2]]%lookup_insert_Some; [done|..].
    + by apply frames_lookup in H2.
    + subst. by apply frames_lookup in H1.
    + by eapply (t_inj _ _ Ht).
  - intros q' x j [[<- <-]|[Hne Hq']]%lookup_insert_Some Hpj.
    + rewrite lookup_insert_ne.
      2: { intros E. apply (f_equal length) in E. rewrite !length_app in E. cbn in E. lia. }
      destruct (T !! ((q ++ [i]) ++ [j])) eqn:E; [by apply (t_parent _ _ Ht) in E as [? E]; rewrite Hn in E|].
      by rewrite Wg by (by eapply path_ok_index).
    + pose proof (path_ok_index _ _ Hpj) as Hj. pose proof (t_entry _ _ Ht q' x j Hq' Hpj) as He.
      destruct (decide (x = f)) as [->|Hxf].
      * assert (q' = q) as -> by (by eapply (t_inj _ _ Ht)). rewrite Wf by done. destruct (decide (j = i)) as [->|Hji].
        -- by rewrite lookup_insert_eq.
        -- rewrite lookup_insert_ne; [done|]. intros E. apply app_inj_tail in E as [_ ?]. done.
      * rewrite W3 by (done || by eapply frames_lookup). rewrite lookup_insert_ne; [done|]. intros E.
        apply app_inj_tail in E as [<- <-]. rewrite Hq in Hq'. by injection Hq' as ->.
Qed.

Lemma new_table_ok F T a m f q i g m1 a1 v : space_ok F T (a, m) -> T !! q = Some f -> path_ok (q ++ [i]) ->
  T !! (q ++ [i]) = None -> g ∈ F -> alloc_ok (F ∖ {[g]}) (a1, m1) -> agree F m m1 ->
  total_frames a1 = total_frames a -> is_present v = true -> addr v = g * PAGE_SIZE -> in_u 64 v ->
  becomes (leaf T m) F T (a, m) (F ∖ {[g]}) (<[q ++ [i] := g]> T)
    (a1, Mem.write_u64 (zero (g * PAGE_SIZE) m1) (entry (f * PAGE_SIZE) i) v).
Proof.
  intros [Ha Ht Hd] Hq Hpi Hn Hg Ha1 Hag1 Htot Hv Hva Hvr. cbn [fst snd] in *.
  destruct (zero_ok m1 g) as [Hag2 Hz]. set (m2 := zero _ m1) in *.
  pose proof (path_ok_index _ _ Hpi) as Hi. pose proof (path_ok_short _ _ Hpi) as Hlen.
  assert (f ∉ F) as HfF by (apply frames_lookup in Hq; set_solver). assert (f <> g) as Hfg by (intros ->; done).
  pose proof (agree_entry m2 f i v Hi) as Hag3. set (m3 := Mem.write_u64 _ _ _) in *.
  assert (g ∉ frames T) as HgT by set_solver.
  assert (forall x j, x ∉ F -> 0 <= j < 512 -> word m2 x j = word m x j) as W2.
  { intros x j Hx Hj. rewrite (word_agree {[g]} m1 m2) by (done || set_solver). by apply (word_agree F). }
  assert (forall x j, x ∉ F -> x <> f -> 0 <= j < 512 -> word m3 x j = word m x j) as W3.
  { intros x j Hx Hxf Hj. rewrite (word_agree {[f]} m2 m3) by (done || set_solver). by apply W2. }
  assert (forall j, 0 <= j < 512 -> word m3 f j = if decide (j = i) then v else word m f j) as Wf.
  { intros j Hj. unfold m3. rewrite word_write by done. destruct (decide (j = i)); [done|]. by apply W2. }
  assert (forall j, 0 <= j < 512 -> word m3 g j = 0) as Wg.
  { intros j Hj. rewrite (word_agree {[f]} m2 m3) by (done || set_solver). by apply Hz. }
  assert (agree F m m2) as Hag12. { eapply agree_trans; [done|]. eapply agree_mono; [|done]. set_solver. }
  assert (0 < g < MAX_FRAMES) as Hgr.
  { pose proof (BitmapFacts.bits_pos _ _ (a_bits _ _ Ha) g Hg). pose proof (a_zero _ _ Ha).
    assert (g <> 0) by (intros ->; done). lia. }
  assert (tree_ok (<[q ++ [i] := g]> T) m3) as Ht3.
  { apply (grow_tree T m m3 q i f g v); try done. intros x Hx Hxf j Hj. apply W3; [set_solver|done..]. }
  split; cbn [fst snd].
  - split; cbn [fst snd]; [|done|rewrite frames_insert by done; set_solver].
    apply (alloc_ok_agree {[f]} (F ∖ {[g]}) a1 m2); [|exact Hag3|set_solver].
    apply (alloc_ok_agree {[g]} (F ∖ {[g]}) a1 m1); [done|exact Hag2|set_solver].
  - rewrite frames_insert by done. apply set_eq. intros x. rewrite !elem_of_union, elem_of_difference, elem_of_singleton.
    destruct (decide (x = g)); naive_solver.
  - set_solver.
  - by apply insert_subseteq.
  - eapply agree_trans; [eapply agree_mono; [|exact Hag12]; set_solver|]. eapply agree_mono; [|exact Hag3].
    apply frames_lookup in Hq. set_solver.
  - intros virt Hvirt. unfold leaf. destruct (decide (q ++ [i] = path virt)) as [E|Hne].
    + rewrite <- E, lookup_insert_eq, Hn. cbn. rewrite Wg by (by apply table_index_range). done.
    + rewrite lookup_insert_ne by done. destruct (T !! path virt) as [x|] eqn:E; [|done]. cbn.
      rewrite W3; [done| | |by apply table_index_range].
      * apply frames_lookup in E. set_solver.
      * intros ->. assert (q = path virt) as -> by (by eapply (t_inj _ _ Ht)). unfold path in Hlen. cbn in Hlen. lia.
  - intros x j Hx Hj. destruct (decide (x = f)) as [->|Hxf].
    + assert ([] = q) as <- by (by eapply (t_inj _ _ Ht)). rewrite Wf by lia. rewrite decide_False; [done|].
      intros ->. destruct Hpi as [_ Hpi]. specialize (Hpi 0%nat i eq_refl). rewrite decide_True in Hpi by done. lia.
    + apply W3; [|done|lia]. apply frames_lookup in Hx. set_solver.
  - done.
Qed.

(** The flags of an intermediate entry. *)
Lemma table_entry f : 0 <= f < MAX_FRAMES ->
  let v := set (f * PAGE_SIZE) (Z.lor (Z.lor PRESENT WRITABLE) USER) in
  is_present v = true /\ addr v = f * PAGE_SIZE /\ in_u 64 v.
Proof.
  intros Hf v. split_all; [by apply present_set|by apply addr_set|apply set_range; [unfold PAGE_SIZE; lia|done]].
Qed.

Lemma next_or_create_ok F T am q f i : space_ok F T am -> T !! q = Some f -> path_ok (q ++ [i]) ->
  returns (next_or_create (entry (f * PAGE_SIZE) i) am) (fun '(r, am') => exists F' T',
    becomes (leaf T am.2) F T am F' T' am' /\
    match r with
    | Ok t => exists g, t = g * PAGE_SIZE /\ T' !! (q ++ [i]) = Some g
    | Err e => e = AllocationFailed /\ T !! (q ++ [i]) = None /\ F' = ∅
    end).
Proof.
  intros H Hq Hpi. pose proof (t_entry _ _ (s_tree _ _ _ H) q f i Hq Hpi) as He. unfold word in He.
  unfold next_or_create. destruct (T !! (q ++ [i])) as [g|] eqn:Hg.
  - destruct He as [-> ->]. apply returns_done. exists F, T. split; [by apply becomes_refl|]. by exists g.
  - rewrite He. eapply returns_bind; [by apply (alloc_frame_ok F am (s_alloc _ _ _ H))|].
    intros [r [a1 m1]] (Htot & Hag & Hr). cbn [fst snd] in *. destruct r as [p|].
    2: { destruct Hr as [<- HF]. apply returns_done. exists F, T. split; [by apply becomes_refl|done]. }
    destruct Hr as (g & -> & HgF & Ha1). apply returns_done.
    pose proof (BitmapFacts.bits_pos _ _ (a_bits _ _ (s_alloc _ _ _ H)) g HgF) as Hgr.
    destruct (table_entry g Hgr) as (Hv & Hva & Hvr). destruct am as [a m].
    exists (F ∖ {[g]}), (<[q ++ [i] := g]> T). split; [by apply new_table_ok|]. exists g. by rewrite lookup_insert_eq.
Qed.

(** ** Mapping a page *)

(** Writing an entry of a last-level table changes that page alone. *)
Lemma leaf_write_ok F T a m virt f v : space_ok F T (a, m) -> 0 <= virt < 2 ^ 47 -> T !! path virt = Some f ->
  in_u 64 v ->
  becomes (fun v' => if decide (v' / PAGE_SIZE = virt / PAGE_SIZE) then (if is_present v then Some v else None) else leaf T m v')
    F T (a, m) F T (a, Mem.write_u64 m (entry (f * PAGE_SIZE) (pt_index virt)) v).
Proof.
  intros [Ha Ht Hd] Hv Hf Hr. cbn [fst snd] in *. pose proof (table_index_range 12 virt ltac:(lia)) as Hi.
  pose proof (agree_entry m f (pt_index virt) v Hi) as Hag. set (m' := Mem.write_u64 _ _ _) in *.
  pose proof (frames_lookup _ _ _ Hf) as HfT.
  assert (forall q x i, T !! q = Some x -> (length q < 3)%nat -> 0 <= i < 512 -> word m' x i = word m x i) as W.
  { intros q x i Hq Hlen Hi'. apply (word_agree {[f]}); [done| |done]. rewrite elem_of_singleton. intros ->.
    assert (q = path virt) as -> by (by eapply (t_inj _ _ Ht)). unfold path in Hlen. cbn in Hlen. lia. }
  split; cbn [fst snd]; [|done..| | | |done].
  - split; cbn [fst snd]; [|split|done].
    + apply (alloc_ok_agree {[f]} F a m); [done..|]. set_solver.
    + apply Ht.
    + apply Ht.
    + apply Ht.
    + intros q x i Hq Hpi. rewrite (W q) by (done || by eapply path_ok_short || by eapply path_ok_index). by apply (t_entry _ _ Ht).
  - eapply agree_mono; [|exact Hag]. set_solver.
  - intros v' Hv'. unfold leaf. destruct (decide (path v' = path virt)) as [Ep|Hne].
    + rewrite Ep, Hf. cbn. pose proof (table_index_range 12 v' ltac:(lia)) as Hi'. unfold m'. rewrite word_write by done.
      destruct (decide (v' / PAGE_SIZE = virt / PAGE_SIZE)) as [Es|Hns].
      * apply same_page in Es as [_ ->]; [|done..]. by rewrite decide_True.
      * rewrite decide_False; [done|]. intros E. apply Hns, same_page; done.
    + rewrite decide_False by (intros Es%same_page; naive_solver).
      destruct (T !! path v') as [x|] eqn:E; [|done]. cbn. rewrite (word_agree {[f]} m m'); [done|done| |by apply table_index_range].
      rewrite elem_of_singleton. intros ->. by assert (path v' = path virt) by (by eapply (t_inj _ _ Ht)).
  - intros x j Hx Hj. apply (W []); [done|cbn; lia|lia].
Qed.

(** What a mapping request does to the pages. *)
Definition map_effect (L L' : Z -> option Z) (virt v : Z) (r : result unit Error) : Prop :=
  match r with
  | Ok _ => L virt = None /\ forall v', 0 <= v' < 2 ^ 47 -> L' v' = if decide (v' / PAGE_SIZE = virt / PAGE_SIZE) then Some v else L v'
  | Err AllocationFailed => L virt = None /\ forall v', 0 <= v' < 2 ^ 47 -> L' v' = L v'
  | Err AlreadyMapped => is_Some (L virt) /\ forall v', 0 <= v' < 2 ^ 47 -> L' v' = L v'
  | Err _ => False
  end.

(** A page whose tables are missing is not mapped. *)
Lemma leaf_missing T m virt k : tree_ok T m -> (k <= 3)%nat -> T !! take k (path virt) = None -> leaf T m virt = None.
Proof.
  intros Ht Hk Hn. unfold leaf.
  assert (T !! path virt = None) as ->; [|done].
  destruct (T !! path virt) as [f|] eqn:E; [exfalso|done]. unfold path in *.
  destruct (t_parent _ _ Ht [pml4_index virt; pdpt_index virt] _ _ E) as [f2 E2].
  destruct (t_parent _ _ Ht [pml4_index virt] _ _ E2) as [f1 E1].
  destruct (t_parent _ _ Ht [] _ _ E1) as [f0 E0].
  destruct k as [|[|[|[|k]]]]; cbn in Hn; congruence || lia.
Qed.

Lemma becomes_same L F T am F' T' am' v : becomes L F T am F' T' am' -> 0 <= v < 2 ^ 47 -> leaf T' am'.2 v = L v.
Proof. intros H. apply H. Qed.

(** A level of the walk that cannot be created. *)
Lemma map_fails F T am F' T' am' virt k : becomes (leaf T am.2) F T am F' T' am' -> 0 <= virt < 2 ^ 47 -> (k <= 3)%nat ->
  T' !! take k (path virt) = None -> forall v, map_effect (leaf T am.2) (leaf T am.2) virt v (Err AllocationFailed).
Proof.
  intros H Hv Hk Hn v. split; [|done]. rewrite <- (becomes_same _ _ _ _ _ _ _ virt H Hv).
  eapply leaf_missing; [apply (b_ok _ _ _ _ _ _ _ H)|exact Hk|done].
Qed.

Lemma map_ok_tree F T am s f0 virt phys fl : space_ok F T am -> T !! [] = Some f0 -> pml4_phys s = f0 * PAGE_SIZE ->
  0 <= virt < 2 ^ 47 -> 0 <= phys -> in_u 64 fl -> Z.testbit fl 0 = true ->
  returns (walk_or_create_and_map s virt phys fl am) (fun '(r, am') => exists F' T' L',
    becomes L' F T am F' T' am' /\ map_effect (leaf T am.2) L' virt (set phys fl) r /\
    (r = Err AllocationFailed -> F' = ∅)).
Proof.
  intros H H0 Hs Hv Hp Hfl Hfl0. unfold walk_or_create_and_map. rewrite Hs.
  pose proof (path_ok_user virt 1 Hv ltac:(lia)) as P1. pose proof (path_ok_user virt 2 Hv ltac:(lia)) as P2.
  pose proof (path_ok_user virt 3 Hv ltac:(lia)) as P3. cbn [take path] in P1, P2, P3.
  eapply returns_bind; [by apply (next_or_create_ok F T am [] f0 (pml4_index virt))|].
  intros [r1 am1] (F1 & T1 & B1 & R1). destruct r1 as [t1|e1].
  2: { destruct R1 as (-> & R1 & Hemp). apply returns_done. exists F1, T1, (leaf T am.2). split_all; [done| |done].
    eapply (map_fails F T am F T am virt 1); [by apply becomes_refl|done|lia|done]. }
  destruct R1 as (g1 & -> & G1).
  eapply returns_bind; [by apply (next_or_create_ok F1 T1 am1 [pml4_index virt] g1 (pdpt_index virt)); [apply B1|..]|].
  intros [r2 am2] (F2 & T2 & B2 & R2).
  pose proof (becomes_trans _ _ _ _ _ _ _ _ _ _ B1 B2) as B12'.
  assert (becomes (leaf T am.2) F T am F2 T2 am2) as B12.
  { eapply becomes_leaf; [|exact B12']. intros v Hvv. by apply (becomes_same _ _ _ _ _ _ _ v B1). }
  destruct r2 as [t2|e2].
  2: { destruct R2 as (-> & R2 & Hemp). apply returns_done. exists F2, T2, (leaf T am.2). split_all; [done| |done].
    by eapply (map_fails F T am F1 T1 am1 virt 2); [|done|lia|]. }
  destruct R2 as (g2 & -> & G2).
  eapply returns_bind; [by apply (next_or_create_ok F2 T2 am2 [pml4_index virt; pdpt_index virt] g2 (pd_index virt)); [apply B12|..]|].
  intros [r3 am3] (F3 & T3 & B3 & R3).
  assert (becomes (leaf T am.2) F T am F3 T3 am3) as B13.
  { eapply becomes_leaf; [|exact (becomes_trans _ _ _ _ _ _ _ _ _ _ B12 B3)]. intros v Hvv.
    by apply (becomes_same _ _ _ _ _ _ _ v B12). }
  destruct r3 as [t3|e3].
  2: { destruct R3 as (-> & R3 & Hemp). apply returns_done. exists F3, T3, (leaf T am.2). split_all; [done| |done].
    by eapply (map_fails F T am F2 T2 am2 virt 3); [|done|lia|]. }
  destruct R3 as (g3 & -> & G3). cbn [app] in G3. cbn beta iota. fold (word am3.2 g3 (pt_index virt)).
  assert (leaf T am.2 virt = if is_present (word am3.2 g3 (pt_index virt)) then Some (word am3.2 g3 (pt_index virt)) else None) as EL.
  { rewrite <- (becomes_same _ _ _ _ _ _ _ virt B13 Hv). unfold leaf, path. by rewrite G3. }
  destruct (is_present _) eqn:Ep.
  - apply returns_done. exists F3, T3, (leaf T am.2). split_all; [done|split; [rewrite EL; eauto|done]|done].
  - destruct am3 as [a3 m3]. apply returns_done. cbn [fst snd] in *.
    pose proof (leaf_write_ok F3 T3 a3 m3 virt g3 (set phys fl) (b_ok _ _ _ _ _ _ _ B13) Hv G3 (set_range _ _ Hp Hfl)) as B4.
    rewrite present_set in B4 by done. eexists F3, T3, _. split_all; [by eapply becomes_trans|split; [done|]|done].
    intros v' Hv'. cbn beta. destruct (decide _); [done|]. by apply (becomes_same _ _ _ _ _ _ _ v' B13).
Qed.

(** ** Unmapping a page *)
Definition unmap_effect (L L' : Z -> option Z) (virt : Z) (r : result Z Error) : Prop :=
  match r with
  | Ok p => (exists v, L virt = Some v /\ p = addr v) /\
      forall v', 0 <= v' < 2 ^ 47 -> L' v' = if decide (v' / PAGE_SIZE = virt / PAGE_SIZE) then None else L v'
  | Err NotMapped => L virt = None /\ forall v', 0 <= v' < 2 ^ 47 -> L' v' = L v'
  | Err _ => False
  end.

Lemma unmap_ok_tree F T am s f0 virt r s' am' : space_ok F T am -> T !! [] = Some f0 -> pml4_phys s = f0 * PAGE_SIZE ->
  0 <= virt < 2 ^ 47 -> unmap_user_page virt s am = (r, s', am') ->
  pml4_phys s' = pml4_phys s /\ active s' = active s /\
  exists L', becomes L' F T am F T am' /\ unmap_effect (leaf T am.2) L' virt r.
Proof.
  intros H H0 Hs Hv. unfold unmap_user_page. destruct (Z.leb_spec 0xFFFF800000000000 virt); [lia|].
  rewrite (walk_path T am.2 s f0 virt) by (done || apply H).
  destruct (T !! path virt) as [f|] eqn:Hf; cbn [fmap option_fmap option_map].
  2: { intros [= <- <- <-]. split_all; [done..|]. exists (leaf T am.2). split; [by apply becomes_refl|].
    split; [unfold leaf; by rewrite Hf|done]. }
  fold (word am.2 f (pt_index virt)). destruct (is_present _) eqn:Ep; cbn [negb].
  2: { intros [= <- <- <-]. split_all; [done..|]. exists (leaf T am.2). split; [by apply becomes_refl|].
    split; [unfold leaf; rewrite Hf; cbn; by rewrite Ep|done]. }
  intros [= <- <- <-]. split_all; [done..|]. destruct am as [a m]. cbn [fst snd] in *.
  pose proof (leaf_write_ok F T a m virt f 0 H Hv Hf ltac:(done)) as B. eexists. split; [exact B|].
  split; [|done]. exists (word m f (pt_index virt)). split; [|done]. unfold leaf. rewrite Hf. cbn. by rewrite Ep.
Qed.

(** ** A new address space *)
Lemma clone_ok m kf g : kf <> g -> (forall i, 256 <= i < 512 -> in_u 64 (word m kf i)) ->
  agree {[g]} m (clone_kernel_half (kf * PAGE_SIZE) (g * PAGE_SIZE) m) /\
  forall j, 0 <= j < 512 -> word (clone_kernel_half (kf * PAGE_SIZE) (g * PAGE_SIZE) m) g j =
    if decide (256 <= j) then word m kf j else word m g j.
Proof.
  intros Hne Hr. unfold clone_kernel_half.
  destruct (write_entries_ok (fun m i => Mem.read_u64 m (entry (kf * PAGE_SIZE) i)) g (seqZ 256 256) m) as [Hag Hw].
  - intros i Hi%elem_of_seqZ. lia.
  - apply NoDup_seqZ.
  - intros m' m'' i Hi%elem_of_seqZ Hag'. apply (word_agree {[g]}); [done|by rewrite elem_of_singleton|lia].
  - intros i Hi%elem_of_seqZ. apply Hr. lia.
  - split; [exact Hag|]. intros j Hj. rewrite Hw by done. destruct (decide (256 <= j)).
    + rewrite decide_True by (apply elem_of_seqZ; lia). done.
    + rewrite decide_False by (rewrite elem_of_seqZ; lia). done.
Qed.

Lemma create_ok F a m cr3 kf : alloc_ok F (a, m) -> read_cr3 cr3 = kf * PAGE_SIZE -> kf ∉ F ->
  (forall i, 256 <= i < 512 -> in_u 64 (word m kf i)) ->
  returns (create cr3 (a, m)) (fun '(r, am') => total_frames am'.1 = total_frames a /\ agree F m am'.2 /\
    match r with
    | Err e => e = AllocationFailed /\ am' = (a, m) /\ F = ∅
    | Ok s => exists g, g ∈ F /\ pml4_phys s = g * PAGE_SIZE /\ active s = true /\ user_page_count s = 0 /\
        space_ok (F ∖ {[g]}) {[ [] := g ]} am' /\ (forall i, 256 <= i < 512 -> word am'.2 g i = word m kf i)
    end).
Proof.
  intros Ha Hcr Hkf Hkr. unfold create. eapply returns_bind; [by apply (alloc_frame_ok F (a, m) Ha)|].
  intros [r [a1 m1]] (Htot & Hag & Hr). cbn [fst snd] in *. destruct r as [p|].
  2: { destruct Hr as [[= -> ->] HF]. by apply returns_done. }
  destruct Hr as (g & -> & HgF & Ha1). assert (kf <> g) as Hne by (intros ->; done).
  pose proof (BitmapFacts.bits_pos _ _ (a_bits _ _ Ha) g HgF) as Hgr. pose proof (a_zero _ _ Ha).
  assert (g <> 0) by (intros ->; done).
  destruct (zero_ok m1 g) as [Hag2 Hz]. set (m2 := zero _ m1) in *.
  assert (forall i, 256 <= i < 512 -> word m2 kf i = word m kf i) as Wk.
  { intros i Hi. rewrite (word_agree {[g]} m1 m2); [|done|by rewrite elem_of_singleton|lia].
    apply (word_agree F); [done..|lia]. }
  rewrite Hcr. destruct (clone_ok m2 kf g Hne) as [Hag3 Hw]. { intros i Hi. rewrite Wk by done. by apply Hkr. }
  set (m3 := clone_kernel_half _ _ _) in *. apply returns_done. cbn [fst snd]. split_all; [done|..].
  - eapply agree_trans; [exact Hag|]. eapply agree_trans; (eapply agree_mono; [|eassumption]); set_solver.
  - exists g. split_all; [done..| |].
    + split; cbn [fst snd].
        -- apply (alloc_ok_agree {[g]} _ a1 m2); [|exact Hag3|set_solver].
           apply (alloc_ok_agree {[g]} _ a1 m1); [exact Ha1|exact Hag2|set_solver].
        -- split.
           ++ intros q f [<- <-]%lookup_singleton_Some. split; [|lia]. split; [cbn; lia|]. intros k i Hk. by rewrite lookup_nil in Hk.
           ++ intros q i f [E _]%lookup_singleton_Some. by destruct q.
           ++ intros q q' f [<- _]%lookup_singleton_Some [<- _]%lookup_singleton_Some. done.
           ++ intros q f i [<- <-]%lookup_singleton_Some Hp. cbn [app]. rewrite lookup_singleton_ne by done.
              destruct Hp as [_ Hp]. specialize (Hp 0%nat i eq_refl). rewrite decide_True in Hp by done.
              rewrite Hw, decide_False, Hz by lia. done.
        -- intros x [q Hq]%elem_of_frames. apply lookup_singleton_Some in Hq as [_ <-]. set_solver.
    + intros i Hi. rewrite Hw, decide_True by lia. by apply Wk.
Qed.

End SpaceOps.

Module SpaceFree.
Import BuddyAllocator Blocks FreeLists FrameOps PageTableFlags PageTableEntry PageTable AddressSpace Trees SpaceOps.

(** The frames of the tables at and below a path. *)
Definition below (T : tree) (q : list Z) : gset Z := frames (filter (fun p => q `prefix_of` p.1) T).

Lemma elem_of_below T q x : x ∈ below T q <-> exists p, T !! p = Some x /\ q `prefix_of` p.
Proof.
  unfold below. rewrite elem_of_frames. apply exist_proper. intros p. rewrite map_lookup_filter_Some. done.
Qed.

Definition belows (T : tree) (q : list Z) (ks : list Z) : gset Z := ⋃ ((fun k => below T (q ++ [k])) <$> ks).

Lemma elem_of_belows T q ks x : x ∈ belows T q ks <-> exists k, k ∈ ks /\ x ∈ below T (q ++ [k]).
Proof.
  unfold belows. rewrite elem_of_union_list. split.
  - intros (X & HX & Hx). apply list_elem_of_fmap in HX as (k & -> & Hk). eauto.
  - intros (k & Hk & Hx). eexists. split; [|exact Hx]. apply list_elem_of_fmap. eauto.
Qed.

Lemma belows_cons T q k ks : belows T q (k :: ks) = below T (q ++ [k]) ∪ belows T q ks.
Proof. done. Qed.

Section Tree.
Context (T : tree) (F : gset Z) (m0 : Mem.t) (n : Z).
Context (Ht : tree_ok T m0) (Hd : frames T ## F).

Lemma below_missing q : T !! q = None -> below T q = ∅.
Proof.
  intros Hq. apply set_eq. intros x. split; [|set_solver]. rewrite elem_of_below. intros (p & Hp & [l ->]). exfalso.
  revert x Hp. induction l as [|i l IH] using rev_ind; intros x Hp; [rewrite app_nil_r in Hp; congruence|].
  rewrite app_assoc in Hp. apply (t_parent _ _ Ht) in Hp as [y Hy]. by eapply IH.
Qed.

Lemma below_apart q k k' : k <> k' -> below T (q ++ [k]) ## below T (q ++ [k']).
Proof.
  intros Hne x (p & Hp & [l E])%elem_of_below (p' & Hp' & [l' E'])%elem_of_below.
  assert (p = p') as -> by (by eapply (t_inj _ _ Ht)). rewrite E, <- !app_assoc in E'.
  apply app_inv_head in E'. injection E'. done.
Qed.

Lemma below_self q f k : T !! q = Some f -> f ∉ below T (q ++ [k]).
Proof.
  intros Hq (p & Hp & [l E])%elem_of_below. assert (p = q) as -> by (by eapply (t_inj _ _ Ht)).
  apply (f_equal length) in E. rewrite !length_app in E. cbn in E. lia.
Qed.

(** The indices below a table: half of the PML4, all of the others. *)
Definition indices (q : list Z) : list Z := if decide (q = []) then seqZ 0 256 else seqZ 0 512.

Lemma path_ok_indices q k : path_ok (q ++ [k]) -> k ∈ indices q.
Proof.
  intros [_ H]. specialize (H (length q) k). rewrite list_lookup_middle in H by done. specialize (H eq_refl).
  unfold indices. destruct q as [|z q].
  - rewrite decide_True in H by done. rewrite decide_True by done. apply elem_of_seqZ. lia.
  - rewrite decide_False in H by done. rewrite decide_False by done. apply elem_of_seqZ. lia.
Qed.

Lemma indices_path_ok q f k : T !! q = Some f -> (length q < 3)%nat -> k ∈ indices q -> path_ok (q ++ [k]).
Proof.
  intros Hq Hl Hk. destruct (t_path _ _ Ht q f Hq) as [[_ Hp] _]. split; [rewrite length_app; cbn; lia|].
  intros j i Hj. apply lookup_app_Some in Hj as [Hj|[Hge Hj]]; [by apply Hp|].
  apply list_lookup_singleton_Some in Hj as [Hj <-]. assert (j = length q) as -> by lia. unfold indices in Hk.
  destruct q as [|z q].
  - rewrite decide_True in Hk by done. rewrite decide_True by done. apply elem_of_seqZ in Hk. lia.
  - rewrite decide_False in Hk by done. rewrite decide_False by done. apply elem_of_seqZ in Hk. lia.
Qed.

Lemma below_unfold q f : T !! q = Some f -> below T q = {[f]} ∪ belows T q (indices q).
Proof.
  intros Hq. apply set_eq. intros x. rewrite elem_of_union, elem_of_singleton, elem_of_belows, elem_of_below. split.
  - intros (p & Hp & [l ->]). destruct l as [|k l]; [left; rewrite app_nil_r in Hp; congruence|right].
    exists k. split; [|apply elem_of_below; exists (q ++ k :: l); split; [done|]; exists l; by rewrite <- app_assoc].
    apply path_ok_indices. destruct (t_path _ _ Ht _ _ Hp) as [[Hl Hi] _]. split.
    + rewrite length_app in *. cbn in *. lia.
    + intros j i Hj. apply Hi. replace (q ++ k :: l) with ((q ++ [k]) ++ l) by (by rewrite <- app_assoc).
      by apply lookup_app_l_Some.
  - intros [->|(k & Hk & (p & Hp & Hpre)%elem_of_below)].
    + exists q. split; [done|]. reflexivity.
    + exists p. split; [done|]. etrans; [|exact Hpre]. by apply prefix_app_r.
Qed.

Lemma below_last q f : T !! q = Some f -> length q = 3%nat -> below T q = {[f]}.
Proof.
  intros Hq Hl. rewrite (below_unfold q f Hq). apply set_eq. intros x.
  rewrite elem_of_union, elem_of_belows. split; [|by left]. intros [?|(k & Hk & (p & Hp & [l ->])%elem_of_below)]; [done|].
  destruct (t_path _ _ Ht _ _ Hp) as [[Hlen _] _]. rewrite !length_app in Hlen. cbn in Hlen. lia.
Qed.

(** ** The state while the frames [R] have been freed *)
Record torn (R : gset Z) (am : BuddyAllocator.t * Mem.t) : Prop := {
  d_alloc : alloc_ok (F ∪ R) am;
  d_agree : agree (F ∪ R) m0 am.2;
  d_total : total_frames am.1 = n;
}.

(** Freeing one table. *)
Lemma free_one R am q g : torn R am -> T !! q = Some g -> g ∉ R ->
  returns (deallocate_frame (g * PAGE_SIZE) am) (torn (R ∪ {[g]})).
Proof.
  intros [Ha Hag Htot] Hg HR. destruct (t_path _ _ Ht q g Hg) as [_ Hr]. pose proof (frames_lookup _ _ _ Hg) as HgT.
  eapply returns_mono; [by apply (dealloc_frame_ok (F ∪ R) am g Ha); [|set_solver]|].
  intros am' (Et & Hag' & Ha'). rewrite <- (assoc_L _ F R) in *. split; [done| |congruence].
  eapply agree_trans; [|exact Hag']. eapply agree_mono; [|exact Hag]. set_solver.
Qed.

(** What a loop over the entries of a table reads. *)
Lemma torn_entry R am q f k : torn R am -> T !! q = Some f -> (length q < 3)%nat -> k ∈ indices q -> f ∉ R ->
  match T !! (q ++ [k]) with
  | Some g => is_present (Mem.read_u64 am.2 (entry (f * PAGE_SIZE) k)) = true /\
      addr (Mem.read_u64 am.2 (entry (f * PAGE_SIZE) k)) = g * PAGE_SIZE
  | None => is_present (Mem.read_u64 am.2 (entry (f * PAGE_SIZE) k)) = false
  end.
Proof.
  intros Htorn Hq Hl Hk HR. pose proof (indices_path_ok q f k Hq Hl Hk) as Hp.
  fold (word am.2 f k). rewrite (word_agree (F ∪ R) m0) by
    (apply Htorn || by eapply path_ok_index || (apply frames_lookup in Hq; set_solver)).
  by apply (t_entry _ _ Ht).
Qed.

(** Loop invariant: one index done, the others still to come. *)
Definition loop_ready (R : gset Z) (q : list Z) (f : Z) (ks : list Z) : Prop :=
  f ∉ R /\ NoDup ks /\ (forall k, k ∈ ks -> k ∈ indices q) /\ belows T q ks ## R.

Lemma loop_next R q f k ks : T !! q = Some f -> loop_ready R q f (k :: ks) ->
  loop_ready (R ∪ below T (q ++ [k])) q f ks /\ below T (q ++ [k]) ## R /\ k ∈ indices q /\
  R ∪ below T (q ++ [k]) ∪ belows T q ks = R ∪ belows T q (k :: ks).
Proof.
  intros Hq (HfR & Hn & Hi & Hdis). apply NoDup_cons in Hn as [Hk Hn]. rewrite belows_cons in Hdis |- *.
  apply disjoint_union_l in Hdis as [Hd1 Hd2]. unfold loop_ready. split_all.
  - rewrite elem_of_union. intros [?|?]; [done|]. by apply (below_self q f k Hq).
  - done.
  - intros k' Hk'. apply Hi. by right.
  - apply disjoint_union_r. split; [done|]. intros x (k' & Hk' & Hx')%elem_of_belows Hx.
    assert (k <> k') as Hne by (intros ->; done). by apply (below_apart q k k' Hne x).
  - done.
  - apply Hi. by left.
  - by rewrite (assoc_L _ R).
Qed.

Lemma loop_start R q f : T !! q = Some f -> f ∉ R -> below T q ## R -> loop_ready R q f (indices q).
Proof.
  intros Hq HR Hdis. unfold loop_ready. split_all; [done| |done|].
  - unfold indices. destruct (decide _); apply NoDup_seqZ.
  - rewrite (below_unfold q f Hq) in Hdis. set_solver.
Qed.

Lemma indices_full (q : list Z) : q <> [] -> indices q = seqZ 0 512.
Proof. intros H. unfold indices. by rewrite decide_False. Qed.

(** Freeing what is below an entry, then its table. *)
Lemma free_subtree (loop : BuddyAllocator.t * Mem.t -> exec (BuddyAllocator.t * Mem.t)) R am q g : torn R am ->
  T !! q = Some g -> below T q ## R -> (forall R am, torn R am -> loop_ready R q g (indices q) ->
    returns (loop am) (torn (R ∪ belows T q (indices q)))) ->
  returns (am ← loop am; deallocate_frame (g * PAGE_SIZE) am) (torn (R ∪ below T q)).
Proof.
  intros Htorn Hg Hdis Hloop. assert (g ∉ R) as HgR.
  { pose proof (below_unfold q g Hg). set_solver. }
  eapply returns_bind; [apply Hloop; [exact Htorn|by apply loop_start]|]. intros am1 H1.
  rewrite (below_unfold q g Hg), (union_comm_L {[g]}), (assoc_L _ R). eapply free_one; [done..|].
  intros [?|(k & Hk & Hx)%elem_of_belows]%elem_of_union; [done|]. by apply (below_self q g k Hg).
Qed.

Lemma free_tables_ok q f ks : T !! q = Some f -> length q = 2%nat -> forall R am, torn R am -> loop_ready R q f ks ->
  returns (free_tables (f * PAGE_SIZE) ks am) (torn (R ∪ belows T q ks)).
Proof.
  intros Hq Hl. induction ks as [|k ks IH]; intros R am Htorn Hr; cbn [free_tables].
  - apply returns_done. unfold belows. cbn. by rewrite union_empty_r_L.
  - destruct (loop_next R q f k ks Hq Hr) as (Hr' & Hdis & Hk & <-).
    pose proof (torn_entry R am q f k Htorn Hq ltac:(lia) Hk (proj1 Hr)) as He.
    eapply returns_bind; [|intros am1 H1; by apply IH].
    destruct (T !! (q ++ [k])) as [g|] eqn:Hg.
    + destruct He as [-> ->]. rewrite (below_last (q ++ [k]) g) in * by (done || rewrite length_app; cbn; lia).
      eapply free_one; [done..|set_solver].
    + rewrite He. apply returns_done. by rewrite below_missing, union_empty_r_L.
Qed.

Lemma free_directories_ok q f ks : T !! q = Some f -> length q = 1%nat -> forall R am, torn R am -> loop_ready R q f ks ->
  returns (free_directories (f * PAGE_SIZE) ks am) (torn (R ∪ belows T q ks)).
Proof.
  intros Hq Hl. induction ks as [|k ks IH]; intros R am Htorn Hr; cbn [free_directories].
  - apply returns_done. unfold belows. cbn. by rewrite union_empty_r_L.
  - destruct (loop_next R q f k ks Hq Hr) as (Hr' & Hdis & Hk & <-).
    pose proof (torn_entry R am q f k Htorn Hq ltac:(lia) Hk (proj1 Hr)) as He.
    eapply returns_bind; [|intros am1 H1; by apply IH].
    destruct (T !! (q ++ [k])) as [g|] eqn:Hg.
    + destruct He as [-> ->]. apply free_subtree; [done..|]. intros R' am' H1 H2.
      rewrite indices_full in * by (by destruct q). apply (free_tables_ok (q ++ [k]) g); [done| |done..].
      rewrite length_app. cbn. lia.
    + rewrite He. apply returns_done. by rewrite below_missing, union_empty_r_L.
Qed.

Lemma free_pointer_tables_ok f ks : T !! [] = Some f -> forall R am, torn R am -> loop_ready R [] f ks ->
  returns (free_pointer_tables (f * PAGE_SIZE) ks am) (torn (R ∪ belows T [] ks)).
Proof.
  intros Hq. induction ks as [|k ks IH]; intros R am Htorn Hr; cbn [free_pointer_tables].
  - apply returns_done. unfold belows. cbn. by rewrite union_empty_r_L.
  - destruct (loop_next R [] f k ks Hq Hr) as (Hr' & Hdis & Hk & <-).
    pose proof (torn_entry R am [] f k Htorn Hq ltac:(cbn; lia) Hk (proj1 Hr)) as He. cbn [app] in *.
    eapply returns_bind; [|intros am1 H1; by apply IH].
    destruct (T !! [k]) as [g|] eqn:Hg.
    + destruct He as [-> ->]. apply free_subtree; [done..|]. intros R' am' H1 H2.
      rewrite indices_full in * by done. by apply (free_directories_ok [k] g).
    + rewrite He. apply returns_done. by rewrite below_missing, union_empty_r_L.
Qed.

End Tree.

(** The whole of [destroy]: the tables join the free frames. *)
Lemma destroy_ok F T am s f0 : space_ok F T am -> T !! [] = Some f0 -> pml4_phys s = f0 * PAGE_SIZE -> active s = true ->
  returns (destroy s am) (fun '(s', am') => active s' = false /\ total_frames am'.1 = total_frames am.1 /\
    alloc_ok (F ∪ frames T) am' /\ agree (F ∪ frames T) am.2 am'.2).
Proof.
  intros [Ha Ht Hd] H0 Hs Hact. unfold destroy. rewrite Hact, Hs. cbn [negb].
  assert (torn F am.2 (total_frames am.1) ∅ am) as Htorn by (split; rewrite ?union_empty_r_L; done).
  assert (below T [] = frames T) as Eb.
  { apply set_eq. intros x. rewrite elem_of_below, elem_of_frames. split; [naive_solver|].
    intros [p Hp]. exists p. split; [done|]. apply prefix_nil. }
  pose proof (free_subtree T F am.2 (total_frames am.1) Ht Hd
    (free_pointer_tables (f0 * PAGE_SIZE) (seqZ 0 256)) ∅ am [] f0 Htorn H0) as Hfree.
  destruct Hfree as (am' & E & H').
  - set_solver.
  - intros R am1 H1 H2. exact (free_pointer_tables_ok T F am.2 (total_frames am.1) Ht Hd f0 (seqZ 0 256) H0 R am1 H1 H2).
  - rewrite Eb, union_empty_l_L in H'. apply bind_Done in E as (am1 & E1 & E2). rewrite E1. exec_simpl. rewrite E2. exec_simpl.
    apply returns_done. cbn. split_all; [done|apply H'..].
Qed.

End SpaceFree.
