(* ===== verification/SpaceTheorems.v ===== *)
(** * Theorems on address spaces

    Processes create address spaces, map, unmap and destroy, while the kernel
    takes and returns other frames and writes to them: the address spaces behave
    as independent finite maps, share the kernel half, and leave no frame behind. *)

From S2P Require Import Prelude Memory FrameSpec FrameOps FrameTheorems Paging PagingSpec PagingOps.

Module SpaceRuns.
Import BuddyAllocator Blocks FreeLists FrameOps FrameInit PageTableFlags PageTableEntry PageTable.
Import AddressSpace Trees SpaceOps SpaceFree.

(** Physical memory with its allocator, the live address spaces, and the frames
    held for other purposes (user pages, kernel stacks, buffers). *)
Record sys := mkSys {
  pm : BuddyAllocator.t * Mem.t;
  spaces : gmap Z AddressSpace.t;
  pages : gset Z;
}.

Inductive op :=
| Create (id : Z)
| Map (id virt phys fl : Z)
| Unmap (id virt : Z)
| Destroy (id : Z)
| GetPage
| PutPage (frame : Z)
| Poke (addr : Z) (bytes : list Z).

Inductive reply :=
| Created (r : result unit Error)
| Mapped (r : result unit Error)
| Unmapped (r : result Z Error)
| Page (p : option Z)
| Nothing.

Definition KERNEL_BASE : Z := 0xFFFF800000000000.

Definition canonical (virt : Z) : Prop := 0 <= virt < 2 ^ 47 \/ KERNEL_BASE <= virt < 2 ^ 64.

(** New names for new spaces, canonical addresses, and only frames one holds. *)
Definition op_ok (w : sys) (o : op) : Prop :=
  match o with
  | Create id => spaces w !! id = None
  | Map id virt phys fl => is_Some (spaces w !! id) /\ canonical virt /\ in_u 64 phys /\ in_u 64 fl
  | Unmap id virt => is_Some (spaces w !! id) /\ canonical virt
  | Destroy id => is_Some (spaces w !! id)
  | GetPage => True
  | PutPage frame => frame ∈ pages w
  | Poke addr bytes => forall x, addr <= x < addr + Z.of_nat (length bytes) -> x / PAGE_SIZE ∈ pages w
  end.

Definition step (cr3 : Z) (o : op) (w : sys) : exec (reply * sys) :=
  match o with
  | Create id =>
      '(r, am) ← create cr3 (pm w);
      match r with
      | Ok s => Done (Created (Ok tt), mkSys am (<[id := s]> (spaces w)) (pages w))
      | Err e => Done (Created (Err e), mkSys am (spaces w) (pages w))
      end
  | Map id virt phys fl =>
      match spaces w !! id with
      | Some s =>
          '(r, s, am) ← map_user_page virt phys fl s (pm w);
          Done (Mapped r, mkSys am (<[id := s]> (spaces w)) (pages w))
      | None => Done (Nothing, w)
      end
  | Unmap id virt =>
      match spaces w !! id with
      | Some s =>
          let '(r, s, am) := unmap_user_page virt s (pm w) in
          Done (Unmapped r, mkSys am (<[id := s]> (spaces w)) (pages w))
      | None => Done (Nothing, w)
      end
  | Destroy id =>
      match spaces w !! id with
      | Some s =>
          '(_, am) ← destroy s (pm w);
          Done (Nothing, mkSys am (delete id (spaces w)) (pages w))
      | None => Done (Nothing, w)
      end
  | GetPage =>
      '(r, am) ← allocate_frame (pm w);
      Done (Page r, mkSys am (spaces w)
        (match r with Some p => {[FreeBlockPtr.to_frame p]} ∪ pages w | None => pages w end))
  | PutPage frame =>
      am ← deallocate_frame (FreeBlockPtr.from_frame frame) (pm w);
      Done (Nothing, mkSys am (spaces w) (pages w ∖ {[frame]}))
  | Poke addr bytes =>
      Done (Nothing, mkSys ((pm w).1, Mem.store (pm w).2 addr bytes) (spaces w) (pages w))
  end.

(** The kernel's own PML4, frame [kf], is not among the frames that the
    allocator manages, and holds bytes. *)
Definition boot_ok (regions : list (Z * Z)) (cr3 kf : Z) (m : Mem.t) : Prop :=
  map_ok regions /\ read_cr3 cr3 = kf * PAGE_SIZE /\ kf ∉ usable regions /\
  forall x, x / PAGE_SIZE = kf -> 0 <= m x < 256.

Inductive reachable (regions : list (Z * Z)) (cr3 kf : Z) : sys -> Prop :=
| reach_boot m am : boot_ok regions cr3 kf m -> init_from_regions regions (new, m) = Done am ->
    reachable regions cr3 kf (mkSys am ∅ ∅)
| reach_op w o r w' : reachable regions cr3 kf w -> op_ok w o -> step cr3 o w = Done (r, w') ->
    reachable regions cr3 kf w'.

(** ** Ownership of one address space *)
Definition owns (m : Mem.t) (kf : Z) (s : AddressSpace.t) (T : tree) : Prop :=
  tree_ok T m /\ active s = true /\ exists f0, T !! [] = Some f0 /\ pml4_phys s = f0 * PAGE_SIZE /\
    forall i, 256 <= i < 512 -> word m f0 i = word m kf i.

Lemma leaf_agree S T m m' virt : agree S m m' -> frames T ## S -> leaf T m' virt = leaf T m virt.
Proof.
  intros Hag Hd. unfold leaf. destruct (T !! path virt) as [f|] eqn:E; [|done]. cbn.
  rewrite (word_agree S m m') by (done || by apply table_index_range || (apply frames_lookup in E; set_solver)). done.
Qed.

Lemma owns_mapped m kf s T virt : owns m kf s T -> 0 <= virt < 2 ^ 47 -> mapped s m virt = leaf T m virt.
Proof. intros (Ht & _ & f0 & H0 & Hs & _) Hv. by eapply walk_leaf. Qed.

Lemma owns_agree S m m' kf s T : owns m kf s T -> agree S m m' -> frames T ## S -> kf ∉ S ->
  owns m' kf s T /\ forall virt, 0 <= virt < 2 ^ 47 -> mapped s m' virt = mapped s m virt.
Proof.
  intros Ho Hag Hd Hk. assert (owns m' kf s T) as Ho'.
  { destruct Ho as (Ht & Ha & f0 & H0 & Hs & Hw). unfold owns. split_all; [by eapply tree_ok_agree|done|]. exists f0. split_all; [done..|].
    intros i Hi. pose proof (frames_lookup _ _ _ H0). rewrite !(word_agree S m m') by (done || lia || set_solver). by apply Hw. }
  split; [done|]. intros virt Hv. rewrite !(owns_mapped _ kf _ T) by done. by eapply leaf_agree.
Qed.

Record sys_ok (regions : list (Z * Z)) (kf : Z) (F : gset Z) (Ts : gmap Z tree) (w : sys) : Prop := {
  y_alloc : alloc_ok F (pm w);
  y_owns : forall id s, spaces w !! id = Some s -> exists T, Ts !! id = Some T /\ owns (pm w).2 kf s T;
  y_dom : forall id T, Ts !! id = Some T -> is_Some (spaces w !! id);
  y_tables : forall id T, Ts !! id = Some T -> frames T ## F /\ frames T ## pages w;
  y_apart : forall id id' T T', Ts !! id = Some T -> Ts !! id' = Some T' -> id <> id' -> frames T ## frames T';
  y_pages : pages w ## F;
  y_usable : forall x, x ∈ usable regions <-> x ∈ F \/ x ∈ pages w \/ exists id T, Ts !! id = Some T /\ x ∈ frames T;
  y_total : total_frames (pm w).1 = Z.of_nat (length (usable regions));
  y_kernel : kf ∉ usable regions /\ forall i, 256 <= i < 512 -> in_u 64 (word (pm w).2 kf i);
}.

(** The page that address space [id] gives [virt]. *)
Definition lookup (w : sys) (id virt : Z) : option Z := s ← spaces w !! id; mapped s (pm w).2 virt.

(** ** Frame rule: what stays when memory changes in [S] only *)
Lemma kernel_agree S m m' kf : agree S m m' -> kf ∉ S -> (forall i, 256 <= i < 512 -> in_u 64 (word m kf i)) ->
  forall i, 256 <= i < 512 -> in_u 64 (word m' kf i).
Proof. intros Hag Hk H i Hi. rewrite (word_agree S m m') by (done || lia). by apply H. Qed.

Lemma lookup_other S w w' id T regions kf F Ts : sys_ok regions kf F Ts w -> Ts !! id = Some T ->
  spaces w' !! id = spaces w !! id -> agree S (pm w).2 (pm w').2 -> frames T ## S -> kf ∉ S ->
  (forall s, spaces w !! id = Some s -> owns (pm w').2 kf s T) /\
  forall virt, 0 <= virt < 2 ^ 47 -> lookup w' id virt = lookup w id virt.
Proof.
  intros Hw HT Es Hag Hd Hk. destruct (y_dom _ _ _ _ _ Hw id T HT) as [s Hs].
  destruct (y_owns _ _ _ _ _ Hw id s Hs) as (T' & HT' & Ho). rewrite HT in HT'. injection HT' as <-.
  destruct (owns_agree S (pm w).2 (pm w').2 kf s T Ho Hag Hd Hk) as [Ho' Hm]. split.
  - intros s' Hs'. rewrite Hs in Hs'. by injection Hs' as <-.
  - intros virt Hv. unfold lookup. rewrite Es, Hs. cbn. by apply Hm.
Qed.

(** Every other space keeps its pages. *)
Definition others_keep (id : option Z) (w w' : sys) : Prop :=
  forall id' virt, id <> Some id' -> 0 <= virt < 2 ^ 47 -> lookup w' id' virt = lookup w id' virt.

(** The frames held for other purposes keep their bytes. *)
Definition bytes_keep (w w' : sys) : Prop :=
  forall x, x / PAGE_SIZE ∈ pages w -> x / PAGE_SIZE ∈ pages w' -> (pm w').2 x = (pm w).2 x.

Lemma agree_bytes_keep S w w' : agree S (pm w).2 (pm w').2 -> (forall x, x ∈ S -> x ∈ pages w -> x ∉ pages w') -> bytes_keep w w'.
Proof. intros Hag HS x Hx Hx'. apply Hag. intros H. by apply (HS _ H). Qed.

(** Spaces other than [id] are where they were, and [S] does not meet their tables. *)
Lemma frame_rule S w am' sp' pg' id regions kf F Ts : sys_ok regions kf F Ts w ->
  agree S (pm w).2 am'.2 -> kf ∉ S ->
  (forall id' T, Ts !! id' = Some T -> id <> Some id' -> frames T ## S) ->
  (forall id', id <> Some id' -> sp' !! id' = spaces w !! id') ->
  others_keep id w (mkSys am' sp' pg') /\
  (forall id' s, id <> Some id' -> sp' !! id' = Some s -> exists T, Ts !! id' = Some T /\ owns am'.2 kf s T) /\
  (forall i, 256 <= i < 512 -> in_u 64 (word am'.2 kf i)).
Proof.
  intros Hw Hag Hk HS Hsp. split_all.
  - intros id' virt Hne Hv. unfold lookup. cbn [spaces pm]. rewrite Hsp by done.
    destruct (spaces w !! id') as [s|] eqn:Hs; [|done]. destruct (y_owns _ _ _ _ _ Hw id' s Hs) as (T & HT & Ho). cbn.
    by eapply owns_agree; [exact Ho|exact Hag|by eapply HS|..].
  - intros id' s Hne Hs. rewrite Hsp in Hs by done. destruct (y_owns _ _ _ _ _ Hw id' s Hs) as (T & HT & Ho).
    exists T. split; [done|]. by eapply owns_agree; [exact Ho|exact Hag|by eapply HS|..].
  - eapply kernel_agree; [exact Hag|done|]. apply (y_kernel _ _ _ _ _ Hw).
Qed.

Lemma kf_outside regions kf F Ts w x : sys_ok regions kf F Ts w -> x ∈ usable regions -> kf <> x.
Proof. intros Hw Hx ->. by apply (proj1 (y_kernel _ _ _ _ _ Hw)). Qed.

(** ** A change inside one address space *)
Lemma space_step L regions kf F Ts w id s T s' F' T' am' : sys_ok regions kf F Ts w -> spaces w !! id = Some s ->
  Ts !! id = Some T -> owns (pm w).2 kf s T -> becomes L F T (pm w) F' T' am' ->
  pml4_phys s' = pml4_phys s -> active s' = active s ->
  let w' := mkSys am' (<[id := s']> (spaces w)) (pages w) in
  sys_ok regions kf F' (<[id := T']> Ts) w' /\ others_keep (Some id) w w' /\ bytes_keep w w' /\
  forall virt, 0 <= virt < 2 ^ 47 -> lookup w' id virt = L virt.
Proof.
  intros Hw Hs HT Ho B Ep Ea w'. pose proof (y_tables _ _ _ _ _ Hw id T HT) as [HdF Hdp].
  assert (kf ∉ F ∪ frames T) as Hk.
  { intros Hin. apply (kf_outside _ _ _ _ _ kf Hw); [|done]. apply (y_usable _ _ _ _ _ Hw). set_solver. }
  destruct (frame_rule (F ∪ frames T) w am' (<[id := s']> (spaces w)) (pages w) (Some id) regions kf F Ts Hw (b_agree _ _ _ _ _ _ _ B) Hk) as (Hoth & Hown & Hkr).
  { intros id' T0 HT0 Hne. pose proof (y_tables _ _ _ _ _ Hw id' T0 HT0) as [? _].
    pose proof (y_apart _ _ _ _ _ Hw id id' T T0 HT HT0 ltac:(congruence)). set_solver. }
  { intros id' Hne. by rewrite lookup_insert_ne by congruence. }
  assert (owns am'.2 kf s' T') as Ho'.
  { destruct Ho as (Ht & Hact & f0 & H0 & Hpf & Hwk). unfold owns. split_all; [apply (b_ok _ _ _ _ _ _ _ B)|congruence|].
    exists f0. split_all; [by eapply lookup_weaken; [|apply B]|congruence|]. intros i Hi.
    rewrite (b_kernel _ _ _ _ _ _ _ B f0 i H0 Hi), Hwk by done. symmetry.
    apply (word_agree (F ∪ frames T)); [apply B|done|lia]. }
  assert (forall x, x ∈ F' \/ x ∈ frames T' <-> x ∈ F \/ x ∈ frames T) as Hall.
  { intros x. rewrite <- !elem_of_union. by rewrite (b_all _ _ _ _ _ _ _ B). }
  pose proof (s_disj _ _ _ (b_ok _ _ _ _ _ _ _ B)) as Hd'. pose proof (b_free _ _ _ _ _ _ _ B) as HF'.
  split_all; [|done| |].
  - split; cbn [pm spaces pages w'].
    + apply (b_ok _ _ _ _ _ _ _ B).
    + intros id' s0. destruct (decide (id = id')) as [<-|Hne].
      * rewrite !lookup_insert_eq. intros [= <-]. eauto.
      * intros Hs0. destruct (Hown id' s0 ltac:(congruence) Hs0) as (T0 & HT0 & ?).
        rewrite lookup_insert_ne by done. eauto.
    + intros id' T0. destruct (decide (id = id')) as [<-|Hne]; [rewrite !lookup_insert_eq; eauto|].
      rewrite !lookup_insert_ne by done. apply (y_dom _ _ _ _ _ Hw).
    + intros id' T0 [[<- <-]|[Hne HT0]]%lookup_insert_Some.
      * split; [done|]. intros x Hx. assert (x ∈ F \/ x ∈ frames T) as [?|?] by (apply Hall; by right).
        -- pose proof (y_pages _ _ _ _ _ Hw). set_solver.
        -- set_solver.
      * destruct (y_tables _ _ _ _ _ Hw id' T0 HT0). split; [set_solver|done].
    + assert (forall id' T0, Ts !! id' = Some T0 -> id <> id' -> frames T' ## frames T0) as Hap.
      { intros id' T0 HT0 Hne x Hx. assert (x ∈ F \/ x ∈ frames T) as [?|?] by (apply Hall; by right).
        - destruct (y_tables _ _ _ _ _ Hw id' T0 HT0). set_solver.
        - by apply (y_apart _ _ _ _ _ Hw id id' T T0 HT HT0 Hne). }
      intros i1 i2 T1 T2 [[<- <-]|[Hn1 H1]]%lookup_insert_Some [[<- <-]|[Hn2 H2]]%lookup_insert_Some Hne; [done|..].
      * by eapply Hap.
      * symmetry. by eapply Hap.
      * by eapply (y_apart _ _ _ _ _ Hw i1 i2).
    + pose proof (y_pages _ _ _ _ _ Hw). set_solver.
    + intros x. rewrite (y_usable _ _ _ _ _ Hw). split.
      * intros [HF|[Hp|(i0 & T0 & HT0 & Hx)]]; [|by right; left|].
        -- assert (x ∈ F' \/ x ∈ frames T') as [?|?] by (apply Hall; by left); [by left|].
           right; right. exists id, T'. by rewrite lookup_insert_eq.
        -- destruct (decide (id = i0)) as [<-|Hne].
           ++ rewrite HT in HT0. injection HT0 as <-. assert (x ∈ F' \/ x ∈ frames T') as [?|?] by (apply Hall; by right); [by left|].
              right; right. exists id, T'. by rewrite lookup_insert_eq.
           ++ right; right. exists i0, T0. by rewrite lookup_insert_ne.
      * intros [HF|[Hp|(i0 & T0 & [[<- <-]|[Hne HT0]]%lookup_insert_Some & Hx)]].
        -- left. by apply HF'.
        -- by right; left.
        -- assert (x ∈ F \/ x ∈ frames T) as [?|?] by (apply Hall; by right); [by left|]. right; right. eauto.
        -- right; right. eauto.
    + rewrite (b_total _ _ _ _ _ _ _ B). apply Hw.
    + split; [apply Hw|done].
  - eapply agree_bytes_keep; [apply B|]. pose proof (y_pages _ _ _ _ _ Hw). set_solver.
  - intros virt Hv. unfold lookup. cbn [spaces pm w']. rewrite lookup_insert_eq. cbn.
    rewrite (owns_mapped _ kf _ T') by done. by apply B.
Qed.

(** ** A change of the free frames and pages *)
Lemma pages_step S regions kf F Ts w F' pg' am' : sys_ok regions kf F Ts w -> alloc_ok F' am' ->
  agree S (pm w).2 am'.2 -> S ⊆ F ∪ pages w -> (forall x, x ∈ F' \/ x ∈ pg' <-> x ∈ F \/ x ∈ pages w) -> pg' ## F' ->
  total_frames am'.1 = total_frames (pm w).1 ->
  let w' := mkSys am' (spaces w) pg' in sys_ok regions kf F' Ts w' /\ others_keep None w w'.
Proof.
  intros Hw Ha Hag HS Hall Hd Ht w'. assert (kf ∉ S) as Hk.
  { intros Hin. apply (kf_outside _ _ _ _ _ kf Hw); [|done]. apply (y_usable _ _ _ _ _ Hw). set_solver. }
  assert (forall id T, Ts !! id = Some T -> frames T ## F ∪ pages w) as HT.
  { intros id T Hid. destruct (y_tables _ _ _ _ _ Hw id T Hid). set_solver. }
  destruct (frame_rule S w am' (spaces w) pg' None regions kf F Ts Hw Hag Hk) as (Hoth & Hown & Hkr); [|done|].
  { intros id T Hid _. specialize (HT id T Hid). set_solver. }
  split; [|done]. split; cbn [pm spaces pages w']; [done|intros id s; by apply Hown|apply Hw| |apply Hw|done| |..].
  - intros id T Hid. specialize (HT id T Hid). split; intros x Hx Hx'.
    + assert (x ∈ F \/ x ∈ pages w) by (apply Hall; by left). set_solver.
    + assert (x ∈ F \/ x ∈ pages w) by (apply Hall; by right). set_solver.
  - intros x. rewrite (y_usable _ _ _ _ _ Hw). specialize (Hall x). tauto.
  - rewrite Ht. apply Hw.
  - split; [apply Hw|done].
Qed.

(** ** What every operation does *)
Definition touched (o : op) : option Z :=
  match o with
  | Create id | Map id _ _ _ | Unmap id _ | Destroy id => Some id
  | _ => None
  end.

Definition user_flags (fl : Z) : Z := Z.lor (Z.lor (Z.lor PRESENT WRITABLE) USER) fl.

(** The effect on the pages of the space it names, as an operation on a finite
    map from pages to entries. *)
Definition effect (o : op) (r : reply) (w w' : sys) : Prop :=
  match o, r with
  | Create id, Created (Ok _) => (exists s, spaces w' = <[id := s]> (spaces w)) /\
      forall virt, 0 <= virt < 2 ^ 47 -> lookup w' id virt = None
  | Create id, Created (Err e) => e = AllocationFailed /\ spaces w' = spaces w /\ available_frames (pm w').1 = 0
  | Map id virt phys fl, Mapped res =>
      if virt <? KERNEL_BASE then
        map_effect (lookup w id) (lookup w' id) virt (set phys (user_flags fl)) res /\
        (res = Err AllocationFailed -> available_frames (pm w').1 = 0)
      else res = Err KernelAddressViolation /\ w' = w
  | Unmap id virt, Unmapped res =>
      if virt <? KERNEL_BASE then unmap_effect (lookup w id) (lookup w' id) virt res
      else res = Err KernelAddressViolation /\ w' = w
  | Destroy id, Nothing => spaces w' = delete id (spaces w)
  | GetPage, Page (Some p) => exists f, p = f * PAGE_SIZE /\ f ∉ pages w /\ pages w' = {[f]} ∪ pages w
  | GetPage, Page None => w' = w /\ available_frames (pm w').1 = 0
  | PutPage frame, Nothing => pages w' = pages w ∖ {[frame]}
  | Poke addr bytes, Nothing => (pm w').2 = Mem.store (pm w).2 addr bytes
  | _, _ => False
  end.

Definition step_post (regions : list (Z * Z)) (kf : Z) (o : op) (w : sys) (rw : reply * sys) : Prop :=
  effect o rw.1 w rw.2 /\ others_keep (touched o) w rw.2 /\
  ((forall addr bytes, o <> Poke addr bytes) -> bytes_keep w rw.2) /\ exists F' Ts', sys_ok regions kf F' Ts' rw.2.

Lemma sys_same (w : sys) id s : spaces w !! id = Some s -> mkSys (pm w) (<[id := s]> (spaces w)) (pages w) = w.
Proof. intros Hs. rewrite insert_id by done. by destruct w. Qed.

Lemma user_flags_ok fl : in_u 64 fl -> in_u 64 (user_flags fl) /\ Z.testbit (user_flags fl) 0 = true.
Proof. intros Hf. split; [by apply lor_range|]. unfold user_flags. by rewrite Z.lor_spec. Qed.

Lemma map_step cr3 regions kf F Ts w id virt phys fl : sys_ok regions kf F Ts w -> op_ok w (Map id virt phys fl) ->
  returns (step cr3 (Map id virt phys fl) w) (step_post regions kf (Map id virt phys fl) w).
Proof.
  intros Hw ([s Hs] & Hc & Hp & Hfl). cbn [step]. rewrite Hs. unfold map_user_page. fold (user_flags fl).
  destruct (Z.leb_spec 0xFFFF800000000000 virt) as [Hge|Hlt].
  { apply returns_done. rewrite sys_same by done. unfold step_post. split_all; [|done|done|eauto].
    cbn. destruct (Z.ltb_spec virt KERNEL_BASE); [unfold KERNEL_BASE in *; lia|done]. }
  assert (0 <= virt < 2 ^ 47) as Hv by (destruct Hc as [?|[? ?]]; unfold KERNEL_BASE in *; lia).
  destruct (y_owns _ _ _ _ _ Hw id s Hs) as (T & HT & Ho). pose proof Ho as (Ht & Ha & f0 & H0 & Hpf & _).
  destruct (user_flags_ok fl Hfl) as [Hr Hb].
  assert (space_ok F T (pm w)) as Hsp by (split; [apply Hw|done|by apply (y_tables _ _ _ _ _ Hw id)]).
  eapply returns_bind.
  { eapply returns_bind; [by apply (map_ok_tree F T (pm w) s f0 virt phys); [..|apply Hp|done|done]|].
    intros [r am'] (F' & T' & L' & B & He & Hem). destruct r as [[]|e].
    - apply (returns_done _ (fun '(r, s', am') => pml4_phys s' = pml4_phys s /\ active s' = active s /\
        exists F' T' L', becomes L' F T (pm w) F' T' am' /\ map_effect (leaf T (pm w).2) L' virt (set phys (user_flags fl)) r /\
          (r = Err AllocationFailed -> F' = ∅))).
      split_all; [done..|]. by exists F', T', L'.
    - apply returns_done. split_all; [done..|]. by exists F', T', L'. }
  intros [[r s'] am'] (Ep & Ea & F' & T' & L' & B & He & Hem). apply returns_done.
  destruct (space_step L' regions kf F Ts w id s T s' F' T' am' Hw Hs HT Ho B Ep Ea) as (Hw' & Hoth & Hbk & Hl).
  unfold step_post. split_all; [|exact Hoth|done|eauto]. cbn [fst snd effect].
  destruct (Z.ltb_spec virt KERNEL_BASE); [|unfold KERNEL_BASE in *; lia].
  assert (forall v, 0 <= v < 2 ^ 47 -> lookup w id v = leaf T (pm w).2 v) as HL.
  { intros v Hvv. unfold lookup. rewrite Hs. cbn. by apply (owns_mapped _ kf). }
  split; [|intros Er; eapply available_none; [apply Hw'|by apply Hem]]. unfold map_effect in *. rewrite HL by done.
  destruct r as [[]|[]]; try done; (destruct He as [He1 He2]; split; [done|]; intros v' Hv'; rewrite HL, Hl by done; by apply He2).
Qed.

Lemma unmap_step cr3 regions kf F Ts w id virt : sys_ok regions kf F Ts w -> op_ok w (Unmap id virt) ->
  returns (step cr3 (Unmap id virt) w) (step_post regions kf (Unmap id virt) w).
Proof.
  intros Hw ([s Hs] & Hc). cbn [step]. rewrite Hs.
  destruct (decide (KERNEL_BASE <= virt)) as [Hge|Hlt].
  { unfold unmap_user_page. destruct (Z.leb_spec 0xFFFF800000000000 virt); [|unfold KERNEL_BASE in *; lia].
    apply returns_done. rewrite sys_same by done. unfold step_post. split_all; [|done|done|eauto].
    cbn. destruct (Z.ltb_spec virt KERNEL_BASE); [lia|done]. }
  assert (0 <= virt < 2 ^ 47) as Hv by (destruct Hc as [?|[? ?]]; lia).
  destruct (y_owns _ _ _ _ _ Hw id s Hs) as (T & HT & Ho). pose proof Ho as (Ht & Ha & f0 & H0 & Hpf & _).
  assert (space_ok F T (pm w)) as Hsp by (split; [apply Hw|done|by apply (y_tables _ _ _ _ _ Hw id)]).
  destruct (unmap_user_page virt s (pm w)) as [[r s'] am'] eqn:Eu.
  destruct (unmap_ok_tree F T (pm w) s f0 virt r s' am' Hsp H0 Hpf Hv Eu) as (Ep & Ea & L' & B & He).
  apply returns_done. destruct (space_step L' regions kf F Ts w id s T s' F T am' Hw Hs HT Ho B Ep Ea) as (Hw' & Hoth & Hbk & Hl).
  unfold step_post. split_all; [|exact Hoth|done|eauto]. cbn [fst snd effect].
  destruct (Z.ltb_spec virt KERNEL_BASE); [|lia].
  assert (forall v, 0 <= v < 2 ^ 47 -> lookup w id v = leaf T (pm w).2 v) as HL.
  { intros v Hvv. unfold lookup. rewrite Hs. cbn. by apply (owns_mapped _ kf). }
  unfold unmap_effect in *. rewrite HL by done.
  destruct r as [p|[]]; try done; (destruct He as [He1 He2]; split; [done|]; intros v' Hv'; rewrite HL, Hl by done; by apply He2).
Qed.

Lemma space_create_step cr3 regions kf F Ts w id : sys_ok regions kf F Ts w -> read_cr3 cr3 = kf * PAGE_SIZE -> op_ok w (Create id) ->
  returns (step cr3 (Create id) w) (step_post regions kf (Create id) w).
Proof.
  intros Hw Hcr Hid. cbn [step op_ok] in *. destruct (pm w) as [a m] eqn:Epm.
  assert (alloc_ok F (a, m)) as Ha by (rewrite <- Epm; apply Hw).
  assert (kf ∉ F) as Hk. { intros Hin. apply (kf_outside _ _ _ _ _ kf Hw); [|done]. apply (y_usable _ _ _ _ _ Hw). by left. }
  eapply returns_bind; [apply (create_ok F a m cr3 kf Ha Hcr Hk)|].
  { pose proof (proj2 (y_kernel _ _ _ _ _ Hw)) as Hkr. by rewrite Epm in Hkr. }
  intros [r am'] (Htot & Hag & Hr). destruct r as [s|e].
  2: { destruct Hr as (-> & -> & HF). apply returns_done.
    assert (mkSys (a, m) (spaces w) (pages w) = w) as E by (rewrite <- Epm; by destruct w). rewrite E.
    unfold step_post. split_all; [|done|done|eauto]. cbn. split_all; [done..|]. by eapply available_none; [apply Hw|]. }
  destruct Hr as (g & HgF & Hp & Hact & _ & Hsp & Hwk). apply returns_done.
  assert (Ts !! id = None) as HTs.
  { destruct (Ts !! id) as [T|] eqn:E; [|done]. destruct (y_dom _ _ _ _ _ Hw id T E). congruence. }
  assert (frames ({[ [] := g ]} : tree) = {[g]}) as Efr by apply map_img_singleton_L.
  destruct (frame_rule F w am' (<[id := s]> (spaces w)) (pages w) (Some id) regions kf F Ts Hw) as (Hoth & Hown & Hkr); [by rewrite Epm|done|..].
  { intros id' T HT _. apply (y_tables _ _ _ _ _ Hw id' T HT). }
  { intros id' Hne. by rewrite lookup_insert_ne by congruence. }
  assert (owns am'.2 kf s {[ [] := g ]}) as Ho.
  { unfold owns. split_all; [apply Hsp|done|]. exists g. split_all; [by rewrite lookup_singleton_eq|done|].
    intros i Hi. rewrite Hwk by done. symmetry. apply (word_agree F); [done..|lia]. }
  unfold step_post. split_all; [|exact Hoth| |].
  - cbn [fst snd effect]. split; [by exists s|]. intros virt Hv. unfold lookup. cbn [spaces pm]. rewrite lookup_insert_eq. cbn.
    rewrite (owns_mapped _ kf _ _ _ Ho Hv). unfold leaf. by rewrite lookup_singleton_ne.
  - intros _. eapply (agree_bytes_keep F); [by rewrite Epm|]. pose proof (y_pages _ _ _ _ _ Hw). set_solver.
  - exists (F ∖ {[g]}), (<[id := {[ [] := g ]}]> Ts). cbn [snd].
    assert (forall id' T, Ts !! id' = Some T -> frames T ## {[g]}) as Hng.
    { intros id' T HT. destruct (y_tables _ _ _ _ _ Hw id' T HT). set_solver. }
    split; cbn [pm spaces pages].
    + apply Hsp.
    + intros id' s0. destruct (decide (id = id')) as [<-|Hne].
      * rewrite !lookup_insert_eq. intros [= <-]. eauto.
      * intros Hs0. destruct (Hown id' s0 ltac:(congruence) Hs0) as (T0 & HT0 & ?). rewrite lookup_insert_ne by done. eauto.
    + intros id' T0. destruct (decide (id = id')) as [<-|Hne]; [rewrite !lookup_insert_eq; eauto|].
      rewrite !lookup_insert_ne by done. apply (y_dom _ _ _ _ _ Hw).
    + pose proof (y_pages _ _ _ _ _ Hw). intros id' T0 [[<- <-]|[Hne HT0]]%lookup_insert_Some.
      * rewrite Efr. split; set_solver.
      * destruct (y_tables _ _ _ _ _ Hw id' T0 HT0). split; [set_solver|done].
    + intros i1 i2 T1 T2 [[<- <-]|[Hn1 H1]]%lookup_insert_Some [[<- <-]|[Hn2 H2]]%lookup_insert_Some Hne; [done|..].
      * rewrite Efr. symmetry. by eapply Hng.
      * rewrite Efr. by eapply Hng.
      * by eapply (y_apart _ _ _ _ _ Hw i1 i2).
    + pose proof (y_pages _ _ _ _ _ Hw). set_solver.
    + intros x. rewrite (y_usable _ _ _ _ _ Hw), elem_of_difference, elem_of_singleton. split.
      * intros [HF|[Hpg|(i0 & T0 & HT0 & Hx)]]; [|by right; left|].
        -- destruct (decide (x = g)) as [->|]; [|by left]. right; right. exists id, {[ [] := g ]}.
           rewrite lookup_insert_eq, Efr. set_solver.
        -- right; right. exists i0, T0. rewrite lookup_insert_ne; [done|]. congruence.
      * intros [[? _]|[Hpg|(i0 & T0 & [[<- <-]|[Hne HT0]]%lookup_insert_Some & Hx)]]; [by left|by right; left|..].
        -- left. rewrite Efr in Hx. set_solver.
        -- right; right. eauto.
    + rewrite Htot. pose proof (y_total _ _ _ _ _ Hw) as E. by rewrite Epm in E.
    + split; [apply Hw|done].
Qed.

Lemma destroy_step cr3 regions kf F Ts w id : sys_ok regions kf F Ts w -> op_ok w (Destroy id) ->
  returns (step cr3 (Destroy id) w) (step_post regions kf (Destroy id) w).
Proof.
  intros Hw [s Hs]. cbn [step]. rewrite Hs.
  destruct (y_owns _ _ _ _ _ Hw id s Hs) as (T & HT & Ho). pose proof Ho as (Ht & Ha & f0 & H0 & Hpf & _).
  destruct (y_tables _ _ _ _ _ Hw id T HT) as [HdF Hdp].
  assert (space_ok F T (pm w)) as Hsp by (split; [apply Hw|done..]).
  eapply returns_bind; [by apply (destroy_ok F T (pm w) s f0)|].
  intros [s' am'] (_ & Htot & Ha' & Hag). apply returns_done.
  assert (kf ∉ F ∪ frames T) as Hk.
  { intros Hin. apply (kf_outside _ _ _ _ _ kf Hw); [|done]. apply (y_usable _ _ _ _ _ Hw). set_solver. }
  assert (forall id' T', Ts !! id' = Some T' -> id <> id' -> frames T' ## F ∪ frames T) as Hoth.
  { intros id' T' HT' Hne. destruct (y_tables _ _ _ _ _ Hw id' T' HT').
    pose proof (y_apart _ _ _ _ _ Hw id id' T T' HT HT' Hne). set_solver. }
  destruct (frame_rule (F ∪ frames T) w am' (delete id (spaces w)) (pages w) (Some id) regions kf F Ts Hw Hag Hk) as (Hkeep & Hown & Hkr).
  { intros id' T' HT' Hne. apply (Hoth id'); [done|congruence]. }
  { intros id' Hne. by rewrite lookup_delete_ne by congruence. }
  unfold step_post. split_all; [done|exact Hkeep| |].
  { intros _. eapply agree_bytes_keep; [exact Hag|]. pose proof (y_pages _ _ _ _ _ Hw). set_solver. }
  exists (F ∪ frames T), (delete id Ts). cbn [snd].
  split; cbn [pm spaces pages].
  - done.
  - intros id' s0 Hs0. assert (id <> id') as Hne by (intros ->; by rewrite lookup_delete_eq in Hs0).
    destruct (Hown id' s0 ltac:(congruence) Hs0) as (T0 & HT0 & ?). rewrite lookup_delete_ne by done. eauto.
  - intros id' T0 [Hne HT0]%lookup_delete_Some. rewrite lookup_delete_ne by done. by eapply (y_dom _ _ _ _ _ Hw).
  - intros id' T0 [Hne HT0]%lookup_delete_Some. split; [by eapply Hoth|]. apply (y_tables _ _ _ _ _ Hw id' T0 HT0).
  - intros i1 i2 T1 T2 [_ H1]%lookup_delete_Some [_ H2]%lookup_delete_Some. by apply (y_apart _ _ _ _ _ Hw).
  - pose proof (y_pages _ _ _ _ _ Hw). set_solver.
  - intros x. rewrite (y_usable _ _ _ _ _ Hw), elem_of_union. split.
    + intros [?|[?|(i0 & T0 & HT0 & Hx)]]; [by left; left|by right; left|].
      destruct (decide (id = i0)) as [<-|Hne]; [left; right; congruence|]. right; right. exists i0, T0. by rewrite lookup_delete_ne.
    + intros [[?|?]|[?|(i0 & T0 & [_ HT0]%lookup_delete_Some & Hx)]]; [by left|right; right; eauto|by right; left|right; right; eauto].
  - rewrite Htot. apply Hw.
  - split; [apply Hw|done].
Qed.

Lemma get_page_step cr3 regions kf F Ts w : sys_ok regions kf F Ts w ->
  returns (step cr3 GetPage w) (step_post regions kf GetPage w).
Proof.
  intros Hw. cbn [step]. eapply returns_bind; [by apply (alloc_frame_ok F (pm w)), Hw|].
  intros [r am'] (Ht & Hag & Hr). cbn [fst snd] in *. apply returns_done. destruct r as [p|].
  2: { destruct Hr as [-> HF]. assert (mkSys (pm w) (spaces w) (pages w) = w) as -> by (by destruct w).
    unfold step_post. split_all; [|done|done|eauto]. cbn. split; [done|]. by eapply available_none; [apply Hw|]. }
  destruct Hr as (f & -> & Hs & Ha). rewrite FreeLists.to_frame_ptr.
  pose proof (y_pages _ _ _ _ _ Hw) as Hd.
  destruct (pages_step F regions kf F Ts w (F ∖ {[f]}) ({[f]} ∪ pages w) am' Hw Ha Hag) as [Hw' Hk]; [set_solver| |set_solver|done|].
  { intros x. rewrite elem_of_difference, elem_of_union, elem_of_singleton. destruct (decide (x = f)); set_solver. }
  unfold step_post. split_all; [|exact Hk| |eauto].
  - exists f. split_all; [done|set_solver|done].
  - intros _. eapply agree_bytes_keep; [exact Hag|]. set_solver.
Qed.

Lemma put_page_step cr3 regions kf F Ts w frame : map_ok regions -> sys_ok regions kf F Ts w -> op_ok w (PutPage frame) ->
  returns (step cr3 (PutPage frame) w) (step_post regions kf (PutPage frame) w).
Proof.
  intros Hm Hw Hf. cbn [step op_ok] in *. pose proof (y_pages _ _ _ _ _ Hw) as Hd.
  assert (frame ∈ usable regions) as Hu by (apply (y_usable _ _ _ _ _ Hw); by right; left).
  pose proof (FrameRuns.usable_range _ _ Hm Hu) as Hr. rewrite from_frame_small by lia.
  eapply returns_bind; [apply (dealloc_frame_ok F (pm w) frame); [apply Hw|done|set_solver]|].
  intros am' (Ht & Hag & Ha). apply returns_done.
  destruct (pages_step (F ∪ {[frame]}) regions kf F Ts w (F ∪ {[frame]}) (pages w ∖ {[frame]}) am' Hw Ha Hag) as [Hw' Hk]; [set_solver| |set_solver|done|].
  { intros x. rewrite elem_of_difference, elem_of_union, elem_of_singleton. destruct (decide (x = frame)); set_solver. }
  unfold step_post. split_all; [done|exact Hk| |eauto].
  intros _. eapply agree_bytes_keep; [exact Hag|]. cbn [pages]. set_solver.
Qed.

Lemma poke_step cr3 regions kf F Ts w addr bytes : sys_ok regions kf F Ts w -> op_ok w (Poke addr bytes) ->
  returns (step cr3 (Poke addr bytes) w) (step_post regions kf (Poke addr bytes) w).
Proof.
  intros Hw Hok. cbn [step op_ok] in *. apply returns_done. pose proof (y_pages _ _ _ _ _ Hw) as Hd.
  assert (agree (pages w) (pm w).2 (Mem.store (pm w).2 addr bytes)) as Hag.
  { intros x Hx. apply MemFacts.store_out. destruct (decide (addr <= x < addr + Z.of_nat (length bytes))) as [Hin|]; [|lia].
    by apply Hok in Hin. }
  destruct (pages_step (pages w) regions kf F Ts w F (pages w) ((pm w).1, Mem.store (pm w).2 addr bytes) Hw) as [Hw' Hk];
    [|exact Hag|set_solver|done|done|done|].
  { apply (alloc_ok_agree (pages w) F (pm w).1 (pm w).2); [|done..]. rewrite <- surjective_pairing. apply Hw. }
  unfold step_post. split_all; [done|exact Hk| |eauto]. intros Hno. by edestruct Hno.
Qed.

Lemma sys_step cr3 regions kf F Ts w o : map_ok regions -> read_cr3 cr3 = kf * PAGE_SIZE -> sys_ok regions kf F Ts w ->
  op_ok w o -> returns (step cr3 o w) (step_post regions kf o w).
Proof.
  intros Hm Hcr Hw Ho. destruct o.
  - by eapply space_create_step.
  - by eapply map_step.
  - by eapply unmap_step.
  - by eapply destroy_step.
  - by eapply get_page_step.
  - by eapply put_page_step.
  - by eapply poke_step.
Qed.

Lemma sys_ok_boot regions cr3 kf m am : boot_ok regions cr3 kf m -> init_from_regions regions (new, m) = Done am ->
  sys_ok regions kf (list_to_set (usable regions)) ∅ (mkSys am ∅ ∅).
Proof.
  intros (Hm & Hcr & Hk & Hb) E. destruct (init_ok regions m Hm) as (am' & E' & Ha & Ht & Hag). rewrite E in E'. injection E' as <-.
  split; cbn [pm spaces pages]; [done|done|done|done|done|set_solver| |done|].
  - intros x. rewrite elem_of_list_to_set. split; [by left|]. intros [?|[?|(? & ? & ? & _)]]; set_solver.
  - split; [done|]. intros i Hi. rewrite (word_agree _ _ _ kf i Hag) by (rewrite ?elem_of_list_to_set; done || lia).
    apply MemFacts.read_u64_range. intros x Hx. apply Hb. by apply (entry_in_page kf i x); [lia|].
Qed.

Lemma sys_reachable_ok regions cr3 kf w : reachable regions cr3 kf w ->
  map_ok regions /\ read_cr3 cr3 = kf * PAGE_SIZE /\ exists F Ts, sys_ok regions kf F Ts w.
Proof.
  induction 1 as [m am Hb E|w o r w' _ (Hm & Hcr & F & Ts & Hw) Ho E].
  - pose proof (sys_ok_boot _ _ _ _ _ Hb E). destruct Hb as (? & ? & _). eauto 10.
  - split_all; [done..|]. destruct (sys_step cr3 _ _ _ _ _ _ Hm Hcr Hw Ho) as ([r1 w1] & E' & _ & _ & _ & Hex).
    rewrite E in E'. injection E' as <- <-. exact Hex.
Qed.

(** C10. Address spaces are independent finite maps. From boot on, whatever
    spaces are created, mapped into at canonical addresses, unmapped and
    destroyed, and whatever other frames are taken, returned and written to,
    every operation returns; it acts on the pages of the space it names as an
    insertion, deletion or creation of a finite map does, with its error exactly
    when it should (an address of the kernel half, a page that is or is not
    mapped, no frame left for a table) and then without effect; it changes no
    page of any other space and no byte of the frames held for other purposes;
    and the kernel half of every space stays equal to the kernel's. *)
Theorem spaces_are_independent_maps regions cr3 kf w o : reachable regions cr3 kf w -> op_ok w o ->
  exists r w', step cr3 o w = Done (r, w') /\ effect o r w w' /\ others_keep (touched o) w w' /\
    ((forall addr bytes, o <> Poke addr bytes) -> bytes_keep w w') /\
    forall id s, spaces w' !! id = Some s -> verify_kernel_mappings cr3 s (pm w').2 = true.
Proof.
  intros Hr Ho. destruct (sys_reachable_ok _ _ _ _ Hr) as (Hm & Hcr & F & Ts & Hw).
  destruct (sys_step cr3 _ _ _ _ _ _ Hm Hcr Hw Ho) as ([r w'] & E & He & Hk & Hb & F' & Ts' & Hw').
  exists r, w'. split_all; [done..|]. intros id s Hs. destruct (y_owns _ _ _ _ _ Hw' id s Hs) as (T & _ & _ & _ & f0 & _ & Hp & Hwk).
  unfold verify_kernel_mappings. apply forallb_forall. intros i Hi%list_elem_of_In%elem_of_seqZ.
  rewrite Hp, Hcr. apply Z.eqb_eq, Hwk. lia.
Qed.

Lemma small_boot_ok : boot_ok FrameRuns.small_map 0 0 (fun _ => 0).
Proof.
  unfold boot_ok. split_all; [apply FrameRuns.small_map_ok|done|apply FrameRuns.small_map_ok|]. intros x _. lia.
Qed.

Lemma spaces_are_independent_maps_witness : exists w r w', reachable FrameRuns.small_map 0 0 w /\
  step 0 (Create 1) w = Done (r, w') /\ others_keep (Some 1) w w'.
Proof.
  destruct (init_ok FrameRuns.small_map (fun _ => 0) FrameRuns.small_map_ok) as (am & E & _).
  pose proof (reach_boot FrameRuns.small_map 0 0 _ _ small_boot_ok E) as Hr.
  destruct (spaces_are_independent_maps _ 0 0 _ (Create 1) Hr ltac:(reflexivity)) as (r & w' & E' & _ & Hk & _ & _).
  exists (mkSys am ∅ ∅), r, w'. split; [exact Hr|]. split; [exact E'|exact Hk].
Defined.

(** C11. Destroying an address space returns every table: once no address space
    is left, the frames in use are those held for other purposes, however many
    tables the spaces that came and went had needed. *)
Theorem destroyed_spaces_leave_nothing regions cr3 kf w : reachable regions cr3 kf w -> spaces w = ∅ ->
  used_frames (pm w).1 = Z.of_nat (size (pages w)).
Proof.
  intros Hr Hs. destruct (sys_reachable_ok _ _ _ _ Hr) as (Hm & _ & F & Ts & Hw).
  pose proof (y_pages _ _ _ _ _ Hw) as Hd.
  assert (list_to_set (usable regions) = F ∪ pages w) as Eu.
  { apply set_eq. intros x. rewrite elem_of_list_to_set, (y_usable _ _ _ _ _ Hw), elem_of_union. split; [|tauto].
    intros [?|[?|(id & T & HT & _)]]; [tauto..|]. destruct (y_dom _ _ _ _ _ Hw id T HT) as [s E]. rewrite Hs in E. set_solver. }
  assert (length (usable regions) = (size F + size (pages w))%nat) as El.
  { rewrite <- size_union by set_solver. rewrite <- Eu, size_list_to_set; [done|apply Hm]. }
  unfold used_frames. rewrite (y_total _ _ _ _ _ Hw), (a_count _ _ (y_alloc _ _ _ _ _ Hw)).
  pose proof (FrameRuns.usable_length _ Hm). change MAX_FRAMES with 262144 in *. rewrite wrap_small; lia.
Qed.

Lemma destroyed_spaces_leave_nothing_witness : exists w, reachable FrameRuns.small_map 0 0 w /\
  spaces w = ∅ /\ used_frames (pm w).1 = 0.
Proof.
  destruct (init_ok FrameRuns.small_map (fun _ => 0) FrameRuns.small_map_ok) as (am & E & _).
  pose proof (reach_boot FrameRuns.small_map 0 0 _ _ small_boot_ok E) as Hr. pose proof FrameRuns.small_map_ok as Hm.
  destruct (sys_reachable_ok _ _ _ _ Hr) as (_ & Hcr & F & Ts & Hw).
  destruct (space_create_step 0 _ 0 F Ts _ 1 Hw Hcr ltac:(reflexivity)) as ([r w1] & E1 & He & _ & _ & F1 & Ts1 & Hw1).
  pose proof (reach_op _ _ _ _ (Create 1) _ _ Hr ltac:(reflexivity) E1) as Hr1.
  assert (pages w1 = ∅) as Hp1.
  { cbn [step] in E1. apply bind_Done in E1 as ([[s|e] am1] & _ & E1); injection E1 as _ <-; reflexivity. }
  destruct r as [[[]|e]|r|r|p|]; try contradiction.
  - destruct He as [[s Hs] _]. assert (op_ok w1 (Destroy 1)) as Hd.
    { cbn [op_ok]. cbn [snd] in Hs. rewrite Hs. cbn [spaces]. rewrite lookup_insert_eq. by eexists. }
    destruct (destroy_step 0 _ 0 F1 Ts1 _ 1 Hw1 Hd) as ([r2 w2] & E2 & He2 & _).
    pose proof (reach_op _ _ _ _ (Destroy 1) _ _ Hr1 Hd E2) as Hr2.
    assert (spaces w2 = ∅) as Hs2.
    { destruct r2; try contradiction. cbn [fst snd effect] in He2. cbn [snd spaces] in Hs. rewrite He2, Hs. by rewrite delete_insert_eq, delete_empty. }
    assert (pages w2 = ∅) as Hp2.
    { cbn [step snd] in E2. cbn [snd spaces] in Hs. rewrite Hs, lookup_insert_eq in E2.
      apply bind_Done in E2 as ([s2 am2] & _ & E2). injection E2 as _ <-. exact Hp1. }
    exists w2. split; [exact Hr2|]. split; [exact Hs2|].
    rewrite (destroyed_spaces_leave_nothing _ _ _ _ Hr2 Hs2), Hp2. reflexivity.
  - destruct He as (_ & Hs & _). cbn [snd spaces] in Hs. exists w1. split; [exact Hr1|]. split; [exact Hs|].
    rewrite (destroyed_spaces_leave_nothing _ _ _ _ Hr1 Hs), Hp1. reflexivity.
Defined.

(** A page is writable whatever flags it is mapped with. *)
Lemma every_user_page_is_writable phys fl : Z.testbit (set phys (user_flags fl)) 1 = true.
Proof. unfold set, user_flags. rewrite !Z.lor_spec. by rewrite orb_true_r. Qed.

(** The check for kernel addresses lets addresses through that are not canonical,
    and their first index selects an entry of the kernel half. *)
Lemma noncanonical_address_selects_kernel_half : (KERNEL_BASE <=? 2 ^ 47) = false /\ pml4_index (2 ^ 47) = 256.
Proof. by vm_compute. Qed.

End SpaceRuns.
