(* ===== verification/Elf.v ===== *)
(** * The ELF loader (src/kernel/src/elf/mod.rs)

    Parsing of ELF64 headers and loading of the PT_LOAD segments into an address
    space, and the preparation of a user process around it (process::spawn_elf).

    The file is a slice of bytes. The loader also reads program headers through a
    raw pointer, which the bounds check in front of it does not always confine
    to the slice; [outside] stands for the bytes that lie around the slice, by
    their offset from its start. *)

From S2P Require Import Prelude Memory Paging.

Module Elf.
Import BuddyAllocator PageTableFlags.

Definition ELF_MAGIC : list Z := [0x7F; 0x45; 0x4C; 0x46].
Definition ELFCLASS64 : Z := 2.
Definition ELFDATA2LSB : Z := 1.
Definition ET_EXEC : Z := 2.
Definition ET_DYN : Z := 3.
Definition EM_X86_64 : Z := 0x3E.
Definition PT_LOAD : Z := 1.
Definition PF_X : Z := 1.
Definition PF_W : Z := 2.

Record Elf64Header := mkHeader {
  e_ident : list Z;
  e_type : Z;
  e_machine : Z;
  e_version : Z;
  e_entry : Z;
  e_phoff : Z;
  e_shoff : Z;
  e_flags : Z;
  e_ehsize : Z;
  e_phentsize : Z;
  e_phnum : Z;
  e_shentsize : Z;
  e_shnum : Z;
  e_shstrndx : Z;
}.

Record Elf64Phdr := mkPhdr {
  p_type : Z;
  p_flags : Z;
  p_offset : Z;
  p_vaddr : Z;
  p_paddr : Z;
  p_filesz : Z;
  p_memsz : Z;
  p_align : Z;
}.

Inductive ElfError :=
| TooSmall | BadMagic | Not64Bit | NotLittleEndian | WrongArch | NotExecutable | InvalidPhdr | OutOfMemory | MapFailed.

#[export] Instance elf_error_eq : EqDecision ElfError.
Proof. solve_decision. Defined.

(** A new frame, cleared and mapped: the body that the loader and the loops for
    the user stack and heap share. *)
Inductive page_error := NoFrame | MapRefused (e : AddressSpace.Error).

Definition map_zeroed (page_va fl : Z) (s : AddressSpace.t) (am : BuddyAllocator.t * Mem.t)
  : exec (result Z page_error * AddressSpace.t * (BuddyAllocator.t * Mem.t)) :=
  '(r, am) ← allocate_frame am;
  match r with
  | None => Done (Err NoFrame, s, am)
  | Some phys_frame =>
      let am := (am.1, Mem.fill am.2 phys_frame PAGE_SIZE 0) in
      '(r, s, am) ← AddressSpace.map_user_page page_va phys_frame fl s am;
      match r with
      | Err e => Done (Err (MapRefused e), s, am)
      | Ok _ => Done (Ok phys_frame, s, am)
      end
  end.

Section Loader.
Context (outside : Z -> Z) (data : list Z).

Definition len : Z := Z.of_nat (length data).

(** The byte at an offset from the start of the slice. *)
Definition byte_at (off : Z) : Z :=
  if decide (0 <= off < len) then data !!! Z.to_nat off else outside off.

Definition le_at (off n : Z) : Z := le_value (byte_at <$> seqZ off n).

(** The reinterpreted bytes of [#[repr(C)] struct Elf64Header] and [Elf64Phdr]. *)
Definition header_at : Elf64Header :=
  mkHeader (byte_at <$> seqZ 0 16) (le_at 16 2) (le_at 18 2) (le_at 20 4) (le_at 24 8) (le_at 32 8) (le_at 40 8)
    (le_at 48 4) (le_at 52 2) (le_at 54 2) (le_at 56 2) (le_at 58 2) (le_at 60 2) (le_at 62 2).

Definition phdr_at (off : Z) : Elf64Phdr :=
  mkPhdr (le_at off 4) (le_at (off + 4) 4) (le_at (off + 8) 8) (le_at (off + 16) 8) (le_at (off + 24) 8)
    (le_at (off + 32) 8) (le_at (off + 40) 8) (le_at (off + 48) 8).

Definition parse_header : result Elf64Header ElfError :=
  if len <? 64 then Err TooSmall
  else
    let header := header_at in
    if negb (bool_decide (take 4 (e_ident header) = ELF_MAGIC)) then Err BadMagic
    else if negb (e_ident header !!! 4%nat =? ELFCLASS64) then Err Not64Bit
    else if negb (e_ident header !!! 5%nat =? ELFDATA2LSB) then Err NotLittleEndian
    else if negb (e_type header =? ET_EXEC) && negb (e_type header =? ET_DYN) then Err NotExecutable
    else if negb (e_machine header =? EM_X86_64) then Err WrongArch
    else Ok header.

(** The slice of program headers has a stride of 56 bytes, whatever [e_phentsize]. *)
Definition program_headers (header : Elf64Header) : result (list Elf64Phdr) ElfError :=
  let ph_offset := e_phoff header in
  let ph_size := e_phentsize header in
  let ph_count := e_phnum header in
  if ph_size <? 56 then Err InvalidPhdr
  else if len <? u64_add ph_offset (u64_mul ph_count ph_size) then Err InvalidPhdr
  else Ok ((fun i => phdr_at (ph_offset + 56 * i)) <$> seqZ 0 ph_count).

(** ** Segments and their pages *)
Definition loadable (ph : Elf64Phdr) : bool := (p_type ph =? PT_LOAD) && negb (p_memsz ph =? 0).

Definition page_mask (v : Z) : Z := Z.land v (lnot_u 64 0xFFF).

Definition vaddr_start (ph : Elf64Phdr) : Z := page_mask (p_vaddr ph).
Definition vaddr_end (ph : Elf64Phdr) : Z := page_mask (u64_add (u64_add (p_vaddr ph) (p_memsz ph)) 0xFFF).

(** The values of [va] in [while va < vaddr_end { ...; va += PAGE_SIZE }]: both
    ends are multiples of the page size. *)
Definition segment_pages (ph : Elf64Phdr) : list Z :=
  (fun i => vaddr_start ph + PAGE_SIZE * i) <$> seqZ 0 ((vaddr_end ph - vaddr_start ph) / PAGE_SIZE).

(** Pass 1: for every page, whether a segment needs it writable, executable. *)
Definition need_page (ph : Elf64Phdr) (perms : gmap Z (bool * bool)) (va : Z) : gmap Z (bool * bool) :=
  let '(w, x) := default (false, false) (perms !! va) in
  let needs_w := negb (Z.land (p_flags ph) PF_W =? 0) in
  let needs_x := negb (Z.land (p_flags ph) PF_X =? 0) in
  <[va := (if needs_w then true else w, if needs_x then true else x)]> perms.

Definition page_perms (phdrs : list Elf64Phdr) : gmap Z (bool * bool) :=
  foldl (fun perms ph => if loadable ph then foldl (need_page ph) perms (segment_pages ph) else perms) ∅ phdrs.

Definition page_flags (perms : gmap Z (bool * bool)) (va : Z) : Z :=
  let '(w, x) := default (false, false) (perms !! va) in
  let flags := empty in
  let flags := if (w : bool) then Z.lor flags WRITABLE else flags in
  if (x : bool) then flags else Z.lor flags NO_EXECUTE.

(** ** Pass 2 *)

(** The address space, physical memory, and the frames of the pages mapped so far. *)
Record LoadState := mkLoad {
  space : AddressSpace.t;
  phys : BuddyAllocator.t * Mem.t;
  mapped_pages : gmap Z Z;
}.

(** The frame of a page: the one it has, or a new, zeroed one mapped there. *)
Definition page_frame (perms : gmap Z (bool * bool)) (page_va : Z) (st : LoadState) : exec (result Z ElfError * LoadState) :=
  match mapped_pages st !! page_va with
  | Some existing_frame => Done (Ok existing_frame, st)
  | None =>
      '(r, s, am) ← map_zeroed page_va (page_flags perms page_va) (space st) (phys st);
      match r with
      | Err NoFrame => Done (Err OutOfMemory, mkLoad s am (mapped_pages st))
      | Err (MapRefused _) => Done (Err MapFailed, mkLoad s am (mapped_pages st))
      | Ok phys_frame => Done (Ok phys_frame, mkLoad s am (<[page_va := phys_frame]> (mapped_pages st)))
      end
  end.

(** The part of the segment's file data that belongs on the page. *)
Definition copy_page (ph : Elf64Phdr) (page_va frame : Z) (m : Mem.t) : Mem.t :=
  let page_end := u64_add page_va PAGE_SIZE in
  let copy_vstart := Z.max page_va (p_vaddr ph) in
  let copy_vend := Z.min page_end (u64_add (p_vaddr ph) (p_filesz ph)) in
  if copy_vstart <? copy_vend then
    let copy_len := copy_vend - copy_vstart in
    let dst_offset := copy_vstart - page_va in
    let src_offset := u64_add (p_offset ph) (copy_vstart - p_vaddr ph) in
    if u64_add src_offset copy_len <=? len then
      Mem.store m (frame + dst_offset) (byte_at <$> seqZ src_offset copy_len)
    else m
  else m.

Definition load_page (perms : gmap Z (bool * bool)) (ph : Elf64Phdr) (page_va : Z) (st : LoadState)
  : exec (result unit ElfError * LoadState) :=
  '(r, st) ← page_frame perms page_va st;
  match r with
  | Err e => Done (Err e, st)
  | Ok frame =>
      Done (Ok tt, mkLoad (space st) ((phys st).1, copy_page ph page_va frame (phys st).2) (mapped_pages st))
  end.

Fixpoint load_pages (perms : gmap Z (bool * bool)) (ph : Elf64Phdr) (pages : list Z) (st : LoadState)
  : exec (result unit ElfError * LoadState) :=
  match pages with
  | [] => Done (Ok tt, st)
  | va :: pages' =>
      '(r, st) ← load_page perms ph va st;
      match r with
      | Err e => Done (Err e, st)
      | Ok _ => load_pages perms ph pages' st
      end
  end.

Fixpoint load_segments (perms : gmap Z (bool * bool)) (phdrs : list Elf64Phdr) (st : LoadState)
  : exec (result unit ElfError * LoadState) :=
  match phdrs with
  | [] => Done (Ok tt, st)
  | ph :: phdrs' =>
      if loadable ph then
        '(r, st) ← load_pages perms ph (segment_pages ph) st;
        match r with
        | Err e => Done (Err e, st)
        | Ok _ => load_segments perms phdrs' st
        end
      else load_segments perms phdrs' st
  end.

Definition load_elf (s : AddressSpace.t) (am : BuddyAllocator.t * Mem.t)
  : exec (result Z ElfError * AddressSpace.t * (BuddyAllocator.t * Mem.t)) :=
  match parse_header with
  | Err e => Done (Err e, s, am)
  | Ok header =>
      match program_headers header with
      | Err e => Done (Err e, s, am)
      | Ok phdrs =>
          '(r, st) ← load_segments (page_perms phdrs) phdrs (mkLoad s am ∅);
          match r with
          | Err e => Done (Err e, space st, phys st)
          | Ok _ => Done (Ok (e_entry header), space st, phys st)
          end
      end
  end.

End Loader.

(** The embedded test program: header, one program header that maps the whole file
    at 0x400000, and the code (exit with code 42). *)
Definition TEST_ELF_EXIT42 : list Z :=
  (ELF_MAGIC ++ [ELFCLASS64; ELFDATA2LSB; 1] ++ replicate 9 0) ++
  le_bytes 2 ET_EXEC ++ le_bytes 2 EM_X86_64 ++ le_bytes 4 1 ++ le_bytes 8 0x400078 ++ le_bytes 8 64 ++ le_bytes 8 0 ++
  le_bytes 4 0 ++ le_bytes 2 64 ++ le_bytes 2 56 ++ le_bytes 2 1 ++ le_bytes 2 0 ++ le_bytes 2 0 ++ le_bytes 2 0 ++
  le_bytes 4 PT_LOAD ++ le_bytes 4 5 ++ le_bytes 8 0 ++ le_bytes 8 0x400000 ++ le_bytes 8 0x400000 ++ le_bytes 8 136 ++
  le_bytes 8 136 ++ le_bytes 8 0x1000 ++
  [0x48; 0xc7; 0xc0] ++ le_bytes 4 0 ++ [0x48; 0xc7; 0xc7] ++ le_bytes 4 42 ++ [0x0f; 0x05].

(** ** Preparing a user process (process::spawn_elf)

    The address space of a new process: the program, four pages of stack, 8 MiB
    of heap. [spawn_user] then takes it over. A failure is logged and reported as
    [ProcessError::TableFull]; the address space is dropped, which destroys it. *)
Definition USER_STACK_PAGES : Z := 4.
Definition USER_STACK_BASE : Z := 0x7FFFFFFEC000.
Definition USER_STACK_TOP : Z := USER_STACK_BASE + USER_STACK_PAGES * PAGE_SIZE.
Definition HEAP_BASE : Z := 0x800000.
Definition HEAP_PAGES : Z := 2048.

(** The loops over stack and heap pages. *)
Fixpoint map_region (pages : list Z) (s : AddressSpace.t) (am : BuddyAllocator.t * Mem.t)
  : exec (result unit page_error * AddressSpace.t * (BuddyAllocator.t * Mem.t)) :=
  match pages with
  | [] => Done (Ok tt, s, am)
  | va :: pages' =>
      '(r, s, am) ← map_zeroed va (Z.lor WRITABLE NO_EXECUTE) s am;
      match r with
      | Err e => Done (Err e, s, am)
      | Ok _ => map_region pages' s am
      end
  end.

Definition region (base n : Z) : list Z := (fun i => base + i * PAGE_SIZE) <$> seqZ 0 n.

Inductive spawn_error := CreateFailed | LoadFailed (e : ElfError) | RegionFailed (e : page_error).

Definition drop_space (e : spawn_error) (s : AddressSpace.t) (am : BuddyAllocator.t * Mem.t)
  : exec (result (Z * AddressSpace.t) spawn_error * (BuddyAllocator.t * Mem.t)) :=
  '(_, am) ← AddressSpace.destroy s am;
  Done (Err e, am).

Definition prepare_image (outside : Z -> Z) (elf_data : list Z) (cr3 : Z) (am : BuddyAllocator.t * Mem.t)
  : exec (result (Z * AddressSpace.t) spawn_error * (BuddyAllocator.t * Mem.t)) :=
  '(r, am) ← AddressSpace.create cr3 am;
  match r with
  | Err _ => Done (Err CreateFailed, am)
  | Ok s =>
      '(r, s, am) ← load_elf outside elf_data s am;
      match r with
      | Err e => drop_space (LoadFailed e) s am
      | Ok entry_point =>
          '(r, s, am) ← map_region (region USER_STACK_BASE USER_STACK_PAGES) s am;
          match r with
          | Err e => drop_space (RegionFailed e) s am
          | Ok _ =>
              '(r, s, am) ← map_region (region HEAP_BASE HEAP_PAGES) s am;
              match r with
              | Err e => drop_space (RegionFailed e) s am
              | Ok _ => Done (Ok (entry_point, s), am)
              end
          end
      end
  end.

End Elf.
