(* ===== verification/ElfSpec.v ===== *)
(** * What the ELF loader does to an address space

    Loading is a sequence of the steps of [SpaceTheorems]: a frame is taken,
    cleared, mapped and written to. The image builds up page by page. *)

From S2P Require Import Prelude Memory FrameSpec FrameOps FrameTheorems Paging PagingSpec PagingOps.
From S2P Require Import SpaceTheorems Elf.

Module ElfSpec.
Import BuddyAllocator FrameInit PageTableFlags PageTableEntry AddressSpace Trees SpaceOps SpaceRuns Elf.

(** ** Page arithmetic *)
Definition page_of (va : Z) : Z := PAGE_SIZE * (va / PAGE_SIZE).

Lemma page_of_range va : page_of va <= va < page_of va + PAGE_SIZE.
Proof. unfold page_of, PAGE_SIZE. pose proof (Z.div_mod va 4096). pose proof (Z.mod_pos_bound va 4096). lia. Qed.

Lemma page_of_unique k va : PAGE_SIZE * k <= va < PAGE_SIZE * k + PAGE_SIZE -> page_of va = PAGE_SIZE * k.
Proof.
  intros H. unfold page_of. f_equal. symmetry. apply (Z.div_unique_pos _ _ _ (va - PAGE_SIZE * k)); unfold PAGE_SIZE in *; lia.
Qed.

Lemma page_of_page va : page_of (page_of va) = page_of va.
Proof. apply page_of_unique. unfold page_of, PAGE_SIZE. lia. Qed.

Lemma page_of_eq va va' : page_of va = page_of va' <-> va / PAGE_SIZE = va' / PAGE_SIZE.
Proof. unfold page_of, PAGE_SIZE. lia. Qed.

Lemma page_of_user va : 0 <= va < 2 ^ 47 -> 0 <= page_of va < 2 ^ 47.
Proof.
  intros Hv. pose proof (page_of_range va). assert (0 <= va / PAGE_SIZE) by (apply Z.div_pos; unfold PAGE_SIZE; lia).
  unfold page_of in *. unfold PAGE_SIZE in *. lia.
Qed.

Lemma page_mask_page v : in_u 64 v -> page_mask v = page_of v.
Proof.
  intros Hv. unfold page_mask, page_of, PAGE_SIZE.
  replace (lnot_u 64 0xFFF) with (Z.shiftl (Z.ones 52) 12) by (vm_compute; reflexivity).
  replace (4096 * (v / 4096)) with (Z.shiftl (Z.shiftr v 12) 12) by
    (rewrite Z.shiftl_mul_pow2, Z.shiftr_div_pow2 by lia; change (2 ^ 12) with 4096; lia).
  apply Z.bits_inj'. intros n Hn. rewrite Z.land_spec, !Z.shiftl_spec by done.
  destruct (decide (n < 12)); [rewrite !(Z.testbit_neg_r _ (n - 12)) by lia; apply andb_false_r|].
  rewrite Z.shiftr_spec by lia. replace (n - 12 + 12) with n by lia.
  destruct (decide (n < 64)).
  - rewrite Z.ones_spec_low by lia. apply andb_true_r.
  - rewrite Z.ones_spec_high by lia. rewrite andb_false_r. symmetry.
    rewrite <- (Z.mod_small v (2 ^ 64)) by done. apply Z.mod_pow2_bits_high. lia.
Qed.

(** ** Well-formed segments: in the user half, inside the file *)
Section Image.
Context (outside : Z -> Z) (data : list Z).

Definition seg_ok (ph : Elf64Phdr) : Prop :=
  0 <= p_vaddr ph /\ 0 <= p_filesz ph <= p_memsz ph /\ p_vaddr ph + p_memsz ph <= 2 ^ 47 - PAGE_SIZE /\
  0 <= p_offset ph /\ p_offset ph + p_filesz ph <= len data /\ len data < 2 ^ 63.

Lemma elem_of_segment_pages ph va : seg_ok ph ->
  va ∈ segment_pages ph <-> va = page_of va /\ page_of (p_vaddr ph) <= va < p_vaddr ph + p_memsz ph /\ 0 <= va.
Proof.
  intros (H1 & H2 & H3 & _). unfold segment_pages, vaddr_start, vaddr_end, PAGE_SIZE in *.
  rewrite u64_add_small, u64_add_small by (rewrite ?u64_add_small by lia; lia).
  rewrite !page_mask_page by (unfold in_u; lia). set (s := p_vaddr ph) in *. set (e := s + p_memsz ph + 0xFFF).
  pose proof (page_of_range s) as Rs. pose proof (page_of_range e) as Re. unfold page_of, PAGE_SIZE in *.
  assert (0 <= s / 4096) by (apply Z.div_pos; lia).
  replace (4096 * (e / 4096) - 4096 * (s / 4096)) with ((e / 4096 - s / 4096) * 4096) by lia.
  rewrite Z.div_mul by lia. rewrite list_elem_of_fmap. split.
  - intros (i & -> & Hi%elem_of_seqZ). split_all; [|lia|lia|lia].
    f_equal. replace (4096 * (s / 4096) + 4096 * i) with ((s / 4096 + i) * 4096) by lia. rewrite Z.div_mul; lia.
  - intros (Ev & Hr & H0). exists (va / 4096 - s / 4096). split; [lia|]. apply elem_of_seqZ. lia.
Qed.

Lemma segment_page_user ph va : seg_ok ph -> va ∈ segment_pages ph -> va = page_of va /\ 0 <= va < 2 ^ 47.
Proof. intros H Hv. pose proof H as (_ & _ & H3 & _). apply elem_of_segment_pages in Hv as (? & ? & ?); [|done]. unfold PAGE_SIZE in *. split; [done|lia]. Qed.

Lemma file_byte_page ph va : seg_ok ph -> p_vaddr ph <= va < p_vaddr ph + p_filesz ph -> page_of va ∈ segment_pages ph.
Proof.
  intros H Hv. pose proof H as (H1 & H2 & _). apply elem_of_segment_pages; [done|]. rewrite page_of_page.
  pose proof (page_of_range va). unfold page_of, PAGE_SIZE in *.
  assert (p_vaddr ph / 4096 <= va / 4096) by (apply Z.div_le_mono; lia).
  assert (0 <= va / 4096) by (apply Z.div_pos; lia). split_all; [done|lia..].
Qed.

(** ** The byte that a list of page copies leaves at an address *)
Definition file_byte (ph : Elf64Phdr) (va : Z) : Z := byte_at outside data (p_offset ph + (va - p_vaddr ph)).

Definition job_step (va : Z) (b : Z) (job : Elf64Phdr * Z) : Z :=
  if decide (job.2 = page_of va /\ p_vaddr job.1 <= va < p_vaddr job.1 + p_filesz job.1) then file_byte job.1 va else b.

(** The copy of one page writes exactly the bytes of the segment that lie on it. *)
Lemma copy_page_ok ph pg frame m x : seg_ok ph -> pg ∈ segment_pages ph ->
  copy_page outside data ph pg frame m x =
    if decide (frame <= x < frame + PAGE_SIZE /\ p_vaddr ph <= pg + (x - frame) < p_vaddr ph + p_filesz ph)
    then file_byte ph (pg + (x - frame)) else m x.
Proof.
  intros H Hpg. pose proof H as (H1 & H2 & H3 & H4 & H5 & H6).
  destruct (segment_page_user _ _ H Hpg) as [_ Hu]. unfold copy_page, PAGE_SIZE in *.
  rewrite (u64_add_small pg), (u64_add_small (p_vaddr ph)) by lia.
  set (vs := pg `max` p_vaddr ph). set (ve := (pg + 4096) `min` (p_vaddr ph + p_filesz ph)).
  destruct (Z.ltb_spec vs ve) as [Hlt|Hge].
  2: { destruct (decide _) as [[? ?]|]; [lia|done]. }
  rewrite (u64_add_small (p_offset ph)) by lia. rewrite u64_add_small by lia.
  destruct (Z.leb_spec (p_offset ph + (vs - p_vaddr ph) + (ve - vs)) (len data)) as [_|Hbig]; [|lia].
  unfold Mem.store. rewrite length_fmap, length_seqZ, Z2Nat.id by lia.
  destruct (decide (frame + (vs - pg) <= x < frame + (vs - pg) + (ve - vs))) as [Hin|Hout].
  - rewrite decide_True by lia. apply list_lookup_total_correct. rewrite list_lookup_fmap, lookup_seqZ_lt by lia. cbn.
    unfold file_byte. do 2 f_equal. lia.
  - rewrite decide_False; [done|]. lia.
Qed.

Lemma copy_page_store ph pg frame m : seg_ok ph -> pg ∈ segment_pages ph ->
  copy_page outside data ph pg frame m = m \/
  exists a bs, copy_page outside data ph pg frame m = Mem.store m a bs /\
    forall x, a <= x < a + Z.of_nat (length bs) -> frame <= x < frame + PAGE_SIZE.
Proof.
  intros H Hpg. pose proof H as (H1 & H2 & H3 & H4 & H5 & H6).
  destruct (segment_page_user _ _ H Hpg) as [_ Hu]. unfold copy_page.
  destruct (Z.ltb_spec (pg `max` p_vaddr ph) (u64_add pg PAGE_SIZE `min` u64_add (p_vaddr ph) (p_filesz ph))) as [Hlt|]; [|by left].
  destruct (_ <=? _); [|by left]. right. eexists _, _. split; [done|]. intros x. rewrite length_fmap, length_seqZ.
  unfold PAGE_SIZE in *. rewrite (u64_add_small pg), (u64_add_small (p_vaddr ph)) in * by lia. lia.
Qed.

(** ** Taking, clearing and mapping a new frame *)
Section Zeroed.
Context (regions : list (Z * Z)) (cr3 kf id : Z).

Lemma others_keep_trans i w1 w2 w3 : others_keep i w1 w2 -> others_keep i w2 w3 -> others_keep i w1 w3.
Proof. intros H1 H2 id' v Hne Hv. rewrite H2, H1; done. Qed.

Lemma others_keep_weaken i w1 w2 : others_keep None w1 w2 -> others_keep i w1 w2.
Proof. intros H id' v _ Hv. by apply H. Qed.

(** The state after a new page: its frame [f] is held in addition. *)
Record new_page (w w' : sys) (f : Z) : Prop := {
  n_good : reachable regions cr3 kf w';
  n_fresh : f ∉ pages w;
  n_range : 0 < f < MAX_FRAMES;
  n_pages : pages w' = {[f]} ∪ pages w;
  n_others : others_keep (Some id) w w';
  n_bytes : forall x, x / PAGE_SIZE ∈ pages w -> (pm w').2 x = (pm w).2 x;
  n_zero : forall x, x / PAGE_SIZE = f -> (pm w').2 x = 0;
}.

Lemma map_zeroed_ok w s virt fl : reachable regions cr3 kf w -> spaces w !! id = Some s ->
  0 <= virt < 2 ^ 47 -> in_u 64 fl ->
  returns (map_zeroed virt fl s (pm w)) (fun '(r, s', am') => exists w', pm w' = am' /\ spaces w' = <[id := s']> (spaces w) /\
    match r with
    | Ok p => exists f, p = f * PAGE_SIZE /\ new_page w w' f /\
        map_effect (lookup w id) (lookup w' id) virt (set p (user_flags fl)) (Ok tt)
    | Err NoFrame => w' = w /\ available_frames (pm w').1 = 0
    | Err (MapRefused e) => exists f, new_page w w' f /\
        map_effect (lookup w id) (lookup w' id) virt (set (f * PAGE_SIZE) (user_flags fl)) (Err e) /\
        (e = AllocationFailed -> available_frames (pm w').1 = 0)
    end).
Proof.
  intros Hr Hs Hv Hfl. destruct (sys_reachable_ok _ _ _ _ Hr) as (Hm & _ & F & Ts & Hw). unfold map_zeroed.
  (* take a frame *)
  destruct (get_page_step cr3 regions kf F Ts w Hw) as ([r1 w1] & E1 & He1 & Hk1 & Hb1 & F1 & Ts1 & Hw1).
  pose proof (reach_op _ _ _ _ GetPage _ _ Hr I E1) as Hr1. cbn [step] in E1. apply bind_Done in E1 as ([r am1] & Ea & E1). injection E1 as <- <-. rewrite Ea. exec_simpl.
  specialize (Hb1 ltac:(done)). cbn [fst snd effect touched] in *. destruct r as [p|].
  2: { destruct He1 as [Ew Hav]. apply returns_done. exists w. split_all; [by rewrite <- Ew|by rewrite insert_id|done|by rewrite Ew in Hav]. }
  destruct He1 as (f & -> & Hfp & _). rewrite FreeLists.to_frame_ptr in *.
  set (w1 := mkSys am1 (spaces w) ({[f]} ∪ pages w)) in *.
  assert (f ∈ usable regions) as Hfu by (apply (y_usable _ _ _ _ _ Hw1); right; left; by apply elem_of_union_l, elem_of_singleton).
  pose proof (FrameRuns.usable_range _ _ Hm Hfu) as Hfr.
  (* clear it *)
  unfold Mem.fill. set (zeros := replicate (Z.to_nat PAGE_SIZE) 0).
  assert (Z.of_nat (length zeros) = PAGE_SIZE) as Hlz by (unfold zeros; rewrite length_replicate; unfold PAGE_SIZE; lia).
  assert (forall i, (i < length zeros)%nat -> zeros !!! i = 0) as Hz.
  { intros i Hi. unfold zeros in *. rewrite length_replicate in Hi. by apply lookup_total_replicate_2. }
  clearbody zeros.
  assert (op_ok w1 (Poke (f * PAGE_SIZE) zeros)) as Hpoke.
  { intros x Hx. rewrite Hlz in Hx. rewrite (FreeLists.in_page f x Hx). by apply elem_of_union_l, elem_of_singleton. }
  destruct (poke_step cr3 regions kf F1 Ts1 w1 (f * PAGE_SIZE) zeros Hw1 Hpoke) as ([r2 w2] & E2 & _ & Hk2 & _ & F2 & Ts2 & Hw2).
  pose proof (reach_op _ _ _ _ _ _ _ Hr1 Hpoke E2) as Hr2. cbn [step] in E2. injection E2 as <- <-. cbn [fst snd pm spaces pages w1 touched] in *.
  set (w2 := mkSys (am1.1, Mem.store am1.2 (f * PAGE_SIZE) zeros) (spaces w) ({[f]} ∪ pages w)) in *.
  assert (forall x, (pm w2).2 x = if decide (x / PAGE_SIZE = f) then 0 else am1.2 x) as Hmem.
  { intros x. change ((pm w2).2 x) with (Mem.store am1.2 (f * PAGE_SIZE) zeros x). unfold Mem.store. rewrite Hlz. destruct (decide (f * PAGE_SIZE <= x < f * PAGE_SIZE + PAGE_SIZE)) as [Hin|Hout].
    - rewrite decide_True by (by apply FreeLists.in_page). apply Hz. lia.
    - rewrite decide_False; [done|]. intros E. apply Hout. rewrite <- E. unfold PAGE_SIZE.
      pose proof (Z.div_mod x 4096). pose proof (Z.mod_pos_bound x 4096). lia. }
  (* map it *)
  assert (op_ok w2 (Map id virt (f * PAGE_SIZE) fl)) as Hmap.
  { cbn. rewrite Hs. split_all; [by eexists|by left|unfold in_u, PAGE_SIZE; change MAX_FRAMES with 262144 in *; lia|done]. }
  destruct (map_step cr3 regions kf F2 Ts2 w2 id virt (f * PAGE_SIZE) fl Hw2 Hmap) as ([r3 w3] & E3 & He3 & Hk3 & Hb3 & _).
  pose proof (reach_op _ _ _ _ _ _ _ Hr2 Hmap E3) as Hr3. cbn [step] in E3. change (spaces w2) with (spaces w) in E3. rewrite Hs in E3.
  apply bind_Done in E3 as ([[r s'] am'] & Em & E3). injection E3 as <- <-. change (pm w2) with (am1.1, Mem.store am1.2 (f * PAGE_SIZE) zeros) in Em.
  rewrite Em. exec_simpl. specialize (Hb3 ltac:(done)). cbn [fst snd effect touched] in *.
  destruct (Z.ltb_spec virt KERNEL_BASE); [|unfold KERNEL_BASE in *; lia]. destruct He3 as [He3 Hav].
  set (w3 := mkSys am' (<[id := s']> (spaces w)) ({[f]} ∪ pages w)) in *.
  assert (forall v, 0 <= v < 2 ^ 47 -> lookup w2 id v = lookup w id v) as HL.
  { intros v Hvv. rewrite Hk2, Hk1 by done. done. }
  assert (map_effect (lookup w id) (lookup w3 id) virt (set (f * PAGE_SIZE) (user_flags fl)) r) as He.
  { unfold map_effect in *. rewrite <- HL by done.
    destruct r as [[]|[]]; try done; (destruct He3 as [Ha Hb]; split; [done|]; intros v Hvv; rewrite Hb, HL by done; done). }
  assert (new_page w w3 f) as Hn.
  { split; [done|done|done|done|..].
    - eapply others_keep_trans; [eapply others_keep_weaken, Hk1|]. eapply others_keep_trans; [eapply others_keep_weaken, Hk2|exact Hk3].
    - intros x Hx. rewrite Hb3 by (by apply elem_of_union_r). rewrite Hmem. rewrite decide_False by (intros E; rewrite E in Hx; done).
      apply Hb1; [done|by apply elem_of_union_r].
    - intros x Hx. rewrite Hb3 by (apply elem_of_union_l, elem_of_singleton; done). rewrite Hmem. by rewrite decide_True. }
  destruct r as [[]|e]; apply returns_done; exists w3; split_all; try done; exists f; split_all; try done.
  intros ->. by apply Hav.
Qed.

End Zeroed.

(** ** The state of an image in construction

    [w0] is the system when the work on space [id] began, [w] now. [mp] holds the
    frames of the pages mapped so far, [fl] their flags and [B] their bytes. *)
Section Load.
Context (regions : list (Z * Z)) (cr3 kf id : Z) (w0 : sys).

(** What holds however the work ends. *)
Definition kept (w : sys) : Prop :=
  reachable regions cr3 kf w /\ is_Some (spaces w !! id) /\ delete id (spaces w) = delete id (spaces w0) /\
  pages w0 ⊆ pages w /\ others_keep (Some id) w0 w /\
  forall x, x / PAGE_SIZE ∈ pages w0 -> (pm w).2 x = (pm w0).2 x.

Record image (fl B : Z -> Z) (mp : gmap Z Z) (w : sys) : Prop := {
  g_kept : kept w;
  g_mapped : forall pg p, mp !! pg = Some p -> pg = page_of pg /\ 0 <= pg < 2 ^ 47 /\
    exists f, p = f * PAGE_SIZE /\ f ∈ pages w /\ f ∉ pages w0 /\ 0 < f < MAX_FRAMES /\
      lookup w id pg = Some (set p (user_flags (fl pg))) /\
      forall off, 0 <= off < PAGE_SIZE -> (pm w).2 (p + off) = B (pg + off);
  g_inj : forall pg pg' p, mp !! pg = Some p -> mp !! pg' = Some p -> pg = pg';
  g_free : forall v, 0 <= v < 2 ^ 47 -> mp !! page_of v = None -> lookup w id v = None;
  g_zero : forall v, 0 <= v < 2 ^ 47 -> mp !! page_of v = None -> B v = 0;
}.

Lemma page_offset pg off : pg = page_of pg -> 0 <= off < PAGE_SIZE -> page_of (pg + off) = pg.
Proof. intros E Hoff. rewrite (page_of_unique (pg / PAGE_SIZE)); unfold page_of in E; lia. Qed.

Lemma user_offset pg off : pg = page_of pg -> 0 <= pg < 2 ^ 47 -> 0 <= off < PAGE_SIZE -> 0 <= pg + off < 2 ^ 47.
Proof. intros E Hu Hoff. unfold page_of, PAGE_SIZE in *. lia. Qed.

Lemma image_ext fl fl' B B' mp w : image fl B mp w -> (forall pg, is_Some (mp !! pg) -> fl' pg = fl pg) ->
  (forall v, 0 <= v < 2 ^ 47 -> B' v = B v) -> image fl' B' mp w.
Proof.
  intros HI Hf HB. split; [apply HI| |apply HI|apply HI|].
  - intros pg p Hp. destruct (g_mapped _ _ _ _ HI _ _ Hp) as (E1 & E2 & f & E3 & H1 & H2 & H3 & H4 & H5).
    split_all; [done|lia|lia|]. exists f. split_all; [done|done|done|lia|lia| |].
    + rewrite Hf by eauto. done.
    + intros off Hoff. rewrite HB by (by apply user_offset). by apply H5.
  - intros v Hv Hn. rewrite HB by done. by apply (g_zero _ _ _ _ HI).
Qed.

(** A new space has the empty image. *)
Lemma image_empty fl w : kept w -> (forall v, 0 <= v < 2 ^ 47 -> lookup w id v = None) -> image fl (fun _ => 0) ∅ w.
Proof. intros Hk Hn. split; [done| | |by auto|done]; intros ? ?; [intros Hp|intros ? Hp]; by rewrite lookup_empty in Hp. Qed.

Lemma kept_new w w' f s : kept w -> new_page regions cr3 kf id w w' f -> spaces w' = <[id := s]> (spaces w) -> kept w'.
Proof.
  intros (H1 & H2 & H3 & H4 & H5 & H6) Hn Es. unfold kept. rewrite Es, (n_pages _ _ _ _ _ _ _ Hn).
  split_all; [apply Hn|rewrite lookup_insert_eq; eauto|by rewrite delete_insert_eq|set_solver| |].
  - eapply others_keep_trans; [done|apply Hn].
  - intros x Hx. rewrite (n_bytes _ _ _ _ _ _ _ Hn) by (by apply H4). by apply H6.
Qed.

(** A new page, cleared, added to an image. *)
Lemma image_new fl B mp w w' pg f s : image fl B mp w -> pg = page_of pg -> 0 <= pg < 2 ^ 47 -> mp !! pg = None ->
  new_page regions cr3 kf id w w' f -> spaces w' = <[id := s]> (spaces w) ->
  (forall v, 0 <= v < 2 ^ 47 ->
    lookup w' id v = if decide (v / PAGE_SIZE = pg / PAGE_SIZE) then Some (set (f * PAGE_SIZE) (user_flags (fl pg))) else lookup w id v) ->
  image fl B (<[pg := f * PAGE_SIZE]> mp) w'.
Proof.
  intros HI Epg Hu Hp Hn Hs He. pose proof (g_kept _ _ _ _ HI) as Hk. pose proof Hk as (_ & _ & _ & Hpages & _).
  assert (forall pg' p', mp !! pg' = Some p' -> p' <> f * PAGE_SIZE) as Hnp.
  { intros pg' p' Hp' ->. destruct (g_mapped _ _ _ _ HI _ _ Hp') as (_ & _ & f' & E & Hf' & _).
    assert (f' = f) as -> by (unfold PAGE_SIZE in E; lia). by apply (n_fresh _ _ _ _ _ _ _ Hn). }
  split.
  - by eapply kept_new.
  - intros pg' p' [[<- <-]|[Hne Hp']]%lookup_insert_Some.
    + split_all; [done|lia|lia|]. exists f. pose proof (n_range _ _ _ _ _ _ _ Hn). split_all; [done| | |lia|lia| |].
      * rewrite (n_pages _ _ _ _ _ _ _ Hn). set_solver.
      * intros Hf. by apply (n_fresh _ _ _ _ _ _ _ Hn), Hpages.
      * rewrite He by done. by rewrite decide_True.
      * intros off Hoff. rewrite (n_zero _ _ _ _ _ _ _ Hn) by (apply FreeLists.in_page; lia). symmetry.
        apply (g_zero _ _ _ _ HI); [by apply user_offset|by rewrite page_offset].
    + destruct (g_mapped _ _ _ _ HI _ _ Hp') as (E1 & E2 & f' & -> & Hf' & Hf0 & Hr' & Hl' & Hb').
      split_all; [done|lia|lia|]. exists f'. split_all; [done| |done|lia|lia| |].
      * rewrite (n_pages _ _ _ _ _ _ _ Hn). set_solver.
      * rewrite He by done. rewrite decide_False; [done|]. intros E%page_of_eq. congruence.
      * intros off Hoff. rewrite (n_bytes _ _ _ _ _ _ _ Hn); [by apply Hb'|].
        by rewrite (FreeLists.in_page f') by lia.
  - intros pg1 pg2 p' [[<- <-]|[Hne1 H1]]%lookup_insert_Some [[<- E]|[Hne2 H2]]%lookup_insert_Some; [done|..].
    + by apply Hnp in H2.
    + subst p'. by apply Hnp in H1.
    + by eapply (g_inj _ _ _ _ HI).
  - intros v Hv [Hv' Hne]%lookup_insert_None. rewrite He by done.
    rewrite decide_False; [by apply (g_free _ _ _ _ HI)|]. intros E%page_of_eq. congruence.
  - intros v Hv [Hv' _]%lookup_insert_None. by apply (g_zero _ _ _ _ HI).
Qed.

(** The load state [st] is that of the system [w]. *)
Definition shows (s : AddressSpace.t) (am : BuddyAllocator.t * Mem.t) (w : sys) : Prop :=
  pm w = am /\ spaces w !! id = Some s.

(** [map_zeroed] extends an image by a page it does not have. *)
Definition flag_at (fl : Z -> Z) (pg c : Z) : Z -> Z := fun pg' => if decide (pg' = pg) then c else fl pg'.

Lemma map_zeroed_image c fl B mp w pg s am : image fl B mp w -> shows s am w -> pg = page_of pg -> 0 <= pg < 2 ^ 47 -> in_u 64 c ->
  returns (map_zeroed pg c s am) (fun '(r, s', am') => exists w', shows s' am' w' /\
    match r with
    | Ok p => mp !! pg = None /\ image (flag_at fl pg c) B (<[pg := p]> mp) w'
    | Err NoFrame => kept w' /\ available_frames (pm w').1 = 0
    | Err (MapRefused AlreadyMapped) => kept w' /\ is_Some (mp !! pg)
    | Err (MapRefused e) => e = AllocationFailed /\ kept w' /\ available_frames (pm w').1 = 0
    end).
Proof.
  intros HI [<- Hs] Epg Hu Hfl. pose proof (g_kept _ _ _ _ HI) as Hk.
  eapply returns_mono; [apply (map_zeroed_ok regions cr3 kf id w s pg); [apply Hk|done..]|].
  intros [[r s'] am'] (w' & Ham & Es & Hr). exists w'. split; [split; [done|by rewrite Es, lookup_insert_eq]|].
  assert (lookup w id pg = None <-> mp !! pg = None) as Hfree.
  { split; [|intros ?; apply (g_free _ _ _ _ HI); [done|by rewrite <- Epg]]. intros Hn. apply eq_None_not_Some. intros [p Hp].
    destruct (g_mapped _ _ _ _ HI _ _ Hp) as (_ & _ & f & _ & _ & _ & _ & E & _). congruence. }
  destruct r as [p|[|e]].
  - destruct Hr as (f & -> & Hn & [Hnone He]). assert (mp !! pg = None) as Hp by (by apply Hfree). split; [done|].
    eapply image_new; [|done..|].
    + eapply image_ext; [done| |done]. intros pg' [p' Hp']. apply decide_False. congruence.
    + unfold flag_at. by rewrite decide_True.
  - by destruct Hr as [-> Hav].
  - destruct Hr as (f & Hn & He & Hav). pose proof (kept_new _ _ _ _ Hk Hn Es). destruct e; [by auto|done| |done].
    destruct He as [[x E] _]. split; [done|]. apply not_eq_None_Some. intros ?%Hfree. congruence.
Qed.

(** ** The parts of the load *)
Section Segments.
Context (perms : gmap Z (bool * bool)).

(** The outcome of a part of the load: it went on, or stopped because no frame was left. *)
Definition went {A} (ok : A -> gmap Z Z -> sys -> Prop) (out : result A ElfError * LoadState) : Prop :=
  exists w', shows (space out.2) (phys out.2) w' /\
    match out.1 with
    | Ok x => ok x (mapped_pages out.2) w'
    | Err e => (e = OutOfMemory \/ e = MapFailed) /\ kept w' /\ available_frames (pm w').1 = 0
    end.

Lemma page_flags_range pg : in_u 64 (page_flags perms pg).
Proof. unfold page_flags. destruct (perms !! pg) as [[w x]|]; cbn; [destruct w, x|]; done. Qed.

Lemma page_frame_ok B w pg st : image (page_flags perms) B (mapped_pages st) w -> shows (space st) (phys st) w ->
  pg = page_of pg -> 0 <= pg < 2 ^ 47 ->
  returns (page_frame perms pg st) (went (fun p mp' w' =>
    mp' !! pg = Some p /\ dom mp' = {[pg]} ∪ dom (mapped_pages st) /\ image (page_flags perms) B mp' w')).
Proof.
  intros HI Hst Epg Hu. unfold page_frame. destruct (mapped_pages st !! pg) as [p|] eqn:Hp.
  { apply returns_done. exists w. split; [done|]. cbn. split_all; [done| |done]. apply elem_of_dom_2 in Hp. set_solver. }
  eapply returns_bind; [by apply (map_zeroed_image _ (page_flags perms) B (mapped_pages st) w); [..|apply page_flags_range]|].
  intros [[r s'] am'] (w' & Hs' & Hr). destruct r as [p|[|e]]; apply returns_done; exists w'; (split; [done|]); cbn.
  - destruct Hr as [_ HI']. split_all; [by apply lookup_insert_eq|by rewrite dom_insert_L|].
    eapply image_ext; [done| |done]. intros pg' _. unfold flag_at. by case_decide; subst.
  - by auto.
  - destruct e; [by destruct Hr as (_ & ?); auto|naive_solver| |naive_solver].
    destruct Hr as [_ [? ?]]. congruence.
Qed.

(** Copying into the frame of a page. *)
Lemma copy_ok fl B mp w ph pg p : image fl B mp w -> mp !! pg = Some p -> seg_ok ph -> pg ∈ segment_pages ph ->
  image fl (fun va => job_step va (B va) (ph, pg)) mp
    (mkSys ((pm w).1, copy_page outside data ph pg p (pm w).2) (spaces w) (pages w)).
Proof.
  intros HI Hp Hseg Hpg. destruct (g_mapped _ _ _ _ HI _ _ Hp) as (Epg & Hu & f & -> & Hfp & Hf0 & Hfr & _).
  set (w' := mkSys _ _ _). destruct (g_kept _ _ _ _ HI) as (Hr & K2 & K3 & K4 & K5 & K6).
  assert (reachable regions cr3 kf w' /\ others_keep None w w') as [Hgood Hkeep].
  { destruct (sys_reachable_ok _ _ _ _ Hr) as (_ & _ & F & Ts & Hw).
    destruct (copy_page_store ph pg (f * PAGE_SIZE) (pm w).2 Hseg Hpg) as [E|(a & bs & E & Hin)].
    - unfold w'. rewrite E. assert (mkSys ((pm w).1, (pm w).2) (spaces w) (pages w) = w) as -> by (by destruct w as [[]]).
      split; [exact Hr|done].
    - assert (op_ok w (Poke a bs)) as Hpoke by (intros x Hx%Hin; by rewrite (FreeLists.in_page f x Hx)).
      destruct (poke_step cr3 regions kf F Ts w a bs Hw Hpoke) as ([r w1] & E1 & _ & Hk & _).
      pose proof (reach_op _ _ _ _ _ _ _ Hr Hpoke E1) as Hg. cbn [step] in E1. injection E1 as <- <-.
      unfold w'. rewrite E. split; [exact Hg|exact Hk]. }
  assert (forall x, x / PAGE_SIZE <> f -> (pm w').2 x = (pm w).2 x) as Hsame.
  { intros x Hx. cbn. rewrite copy_page_ok by done. rewrite decide_False; [done|]. intros [Hin _].
    by apply Hx, FreeLists.in_page. }
  split.
  - unfold kept. split_all; [done..| |].
    + eapply others_keep_trans; [done|]. by apply others_keep_weaken.
    + intros x Hx. rewrite Hsame; [by apply K6|]. intros E. by rewrite E in Hx.
  - intros pg' p' Hp'. destruct (g_mapped _ _ _ _ HI _ _ Hp') as (E1 & E2 & f' & -> & Hf' & Hf0' & Hr' & Hl' & Hb').
    split_all; [done|lia|lia|]. exists f'. split_all; [done|done|done|lia|lia|by rewrite Hkeep|].
    intros off Hoff. unfold job_step. cbn [fst snd]. rewrite page_offset by done. destruct (decide (pg' = pg)) as [->|Hne].
    + rewrite Hp in Hp'. injection Hp' as Ef. assert (f' = f) as -> by (unfold PAGE_SIZE in Ef; lia).
      cbn. rewrite copy_page_ok by done. replace (f * PAGE_SIZE + off - f * PAGE_SIZE) with off by lia.
      destruct (decide (_ /\ _)) as [[_ ?]|Hn]; [by rewrite decide_True|].
      rewrite decide_False; [by apply Hb'|]. intros [_ ?]. apply Hn. split; [lia|done].
    + rewrite decide_False by naive_solver. rewrite Hsame; [by apply Hb'|].
      rewrite (FreeLists.in_page f') by lia. intros ->. apply Hne. by eapply (g_inj _ _ _ _ HI).
  - apply HI.
  - intros v Hv Hv'. rewrite Hkeep by done. by apply (g_free _ _ _ _ HI).
  - intros v Hv Hv'. unfold job_step. cbn [fst snd]. rewrite decide_False; [by apply (g_zero _ _ _ _ HI)|].
    intros [-> _]. congruence.
Qed.

Definition jobs_byte (B : Z -> Z) (jobs : list (Elf64Phdr * Z)) (va : Z) : Z := foldl (job_step va) (B va) jobs.

Lemma load_page_ok B w ph pg st : image (page_flags perms) B (mapped_pages st) w -> shows (space st) (phys st) w ->
  seg_ok ph -> pg ∈ segment_pages ph ->
  returns (load_page outside data perms ph pg st) (went (fun _ mp' w' =>
    dom mp' = {[pg]} ∪ dom (mapped_pages st) /\ image (page_flags perms) (jobs_byte B [(ph, pg)]) mp' w')).
Proof.
  intros HI Hst Hseg Hpg. destruct (segment_page_user _ _ Hseg Hpg) as [Epg Hu]. unfold load_page.
  eapply returns_bind; [by apply (page_frame_ok B w)|].
  intros [[p|e] st'] (w' & [E1 E2] & Hr); cbn [fst snd] in *; apply returns_done.
  - destruct Hr as (Hp & Hd & HI'). eexists. split; [|split; [done|by apply copy_ok]]. split; [cbn; by rewrite E1|done].
  - by exists w'.
Qed.

Lemma load_pages_ok ph pgs B w st : image (page_flags perms) B (mapped_pages st) w -> shows (space st) (phys st) w ->
  seg_ok ph -> (forall pg, pg ∈ pgs -> pg ∈ segment_pages ph) ->
  returns (load_pages outside data perms ph pgs st) (went (fun _ mp' w' =>
    dom mp' = list_to_set pgs ∪ dom (mapped_pages st) /\ image (page_flags perms) (jobs_byte B (pair ph <$> pgs)) mp' w')).
Proof.
  revert B w st. induction pgs as [|pg pgs IH]; intros B w st HI Hst Hseg Hin; cbn [load_pages].
  { apply returns_done. exists w. split; [done|]. split; [cbn; set_solver|done]. }
  eapply returns_bind; [apply (load_page_ok B w); [done..|]; apply Hin; set_solver|].
  intros [[[]|e] st'] (w' & Hst' & Hr); cbn [fst snd] in *.
  - destruct Hr as [Hd HI']. eapply returns_mono; [apply (IH (jobs_byte B [(ph, pg)]) w'); [done..|]; intros ? ?; apply Hin; set_solver|].
    intros [[[]|e] st2] (w2 & Hst2 & Hr2); exists w2; (split; [done|]); [|done].
    destruct Hr2 as [Hd2 HI2]. split; [cbn [snd] in *; rewrite Hd2, Hd; set_solver|done].
  - apply returns_done. by exists w'.
Qed.

(** The page copies of the whole load, in order. *)
Definition all_jobs (phdrs : list Elf64Phdr) : list (Elf64Phdr * Z) :=
  phdrs ≫= fun ph => if loadable ph then pair ph <$> segment_pages ph else [].

Lemma snd_pair {A B} (a : A) (l : list B) : (pair a <$> l).*2 = l.
Proof. induction l; [done|]. cbn. f_equal. done. Qed.

Lemma load_segments_ok phdrs B w st : image (page_flags perms) B (mapped_pages st) w -> shows (space st) (phys st) w ->
  (forall ph, ph ∈ phdrs -> loadable ph = true -> seg_ok ph) ->
  returns (load_segments outside data perms phdrs st) (went (fun _ mp' w' =>
    dom mp' = list_to_set (all_jobs phdrs).*2 ∪ dom (mapped_pages st) /\
    image (page_flags perms) (jobs_byte B (all_jobs phdrs)) mp' w')).
Proof.
  revert B w st. induction phdrs as [|ph phdrs IH]; intros B w st HI Hst Hseg; cbn [load_segments].
  { apply returns_done. exists w. split; [done|]. split; [cbn; set_solver|done]. }
  assert (forall ph', ph' ∈ phdrs -> loadable ph' = true -> seg_ok ph') as Hseg' by (intros ? ?; apply Hseg; set_solver).
  change (all_jobs (ph :: phdrs)) with ((if loadable ph then pair ph <$> segment_pages ph else []) ++ all_jobs phdrs).
  destruct (loadable ph) eqn:Hl; [|by apply (IH B w)].
  eapply returns_bind; [apply (load_pages_ok ph _ B w); [done..| |done]; apply Hseg; set_solver|].
  intros [[[]|e] st'] (w' & Hst' & Hr); cbn [fst snd] in *.
  - destruct Hr as [Hd HI']. eapply returns_mono; [by apply (IH (jobs_byte B (pair ph <$> segment_pages ph)) w')|].
    intros [[[]|e] st2] (w2 & Hst2 & Hr2); exists w2; (split; [done|]); [|done].
    destruct Hr2 as [Hd2 HI2]. cbn [snd] in *. unfold jobs_byte. split.
    + rewrite Hd2, Hd, fmap_app, snd_pair, list_to_set_app_L.
      by rewrite (union_comm_L (list_to_set (segment_pages ph)) (list_to_set _)), <- union_assoc_L.
    + eapply image_ext; [done|done|]. intros v _. unfold jobs_byte. by rewrite foldl_app.
  - apply returns_done. by exists w'.
Qed.

End Segments.

(** ** The stack and the heap *)
Lemma map_region_ok pgs fl B mp w s am : image fl B mp w -> shows s am w -> NoDup pgs ->
  (forall pg, pg ∈ pgs -> pg = page_of pg /\ 0 <= pg < 2 ^ 47) ->
  returns (map_region pgs s am) (fun '(r, s', am') => exists w', shows s' am' w' /\
    match r with
    | Ok _ => exists mp', dom mp' = list_to_set pgs ∪ dom mp /\ (forall pg, pg ∈ pgs -> mp !! pg = None) /\
        image (fun pg => if decide (pg ∈ pgs) then Z.lor WRITABLE NO_EXECUTE else fl pg) B mp' w'
    | Err (MapRefused AlreadyMapped) => kept w' /\ exists pg, pg ∈ pgs /\ is_Some (mp !! pg)
    | Err e => (e = NoFrame \/ e = MapRefused AllocationFailed) /\ kept w' /\ available_frames (pm w').1 = 0
    end).
Proof.
  intros HI Hs Hnd. revert fl mp w s am HI Hs. induction Hnd as [|pg pgs Hpg Hnd IH]; intros fl mp w s am HI Hs Hpgs; cbn [map_region].
  { apply returns_done. exists w. split; [done|]. exists mp. split_all; [set_solver|set_solver|]. eapply image_ext; done. }
  destruct (Hpgs pg ltac:(set_solver)) as [Epg Hu].
  eapply returns_bind; [by apply (map_zeroed_image _ fl B mp w)|].
  intros [[r s'] am'] (w' & Hs' & Hr). destruct r as [p|e].
  2: { apply returns_done. exists w'. split; [done|]. destruct e as [|[]]; [naive_solver..| |naive_solver]. set_solver. }
  destruct Hr as [Hp HI']. eapply returns_mono; [apply (IH (flag_at fl pg (Z.lor WRITABLE NO_EXECUTE)) (<[pg := p]> mp) w'); [done..|set_solver]|].
  intros [[r2 s2] am2] (w2 & Hs2 & Hr2). exists w2. split; [done|].
  assert (forall pg', pg' ∈ pgs -> pg' <> pg) as Hne by set_solver.
  destruct r2 as [u|[|[]]]; try done.
  - destruct Hr2 as (mp' & Hd & Hf & HI2). exists mp'. split_all.
    + rewrite Hd, dom_insert_L. set_solver.
    + intros pg' [->|Hin]%elem_of_cons; [done|]. specialize (Hf _ Hin). by rewrite lookup_insert_ne in Hf by (symmetry; auto).
    + eapply image_ext; [done| |done]. intros pg' _. unfold flag_at.
      destruct (decide (pg' ∈ pgs)); [by rewrite decide_True by set_solver|].
      destruct (decide (pg' = pg)) as [->|]; [by rewrite decide_True by set_solver|by rewrite decide_False by set_solver].
  - destruct Hr2 as (Hk & pg' & Hin & Hm). split; [done|]. exists pg'. rewrite lookup_insert_ne in Hm by (symmetry; auto). set_solver.
Qed.

End Load.
End Image.
End ElfSpec.
