(* ===== verification/ElfTheorems.v ===== *)
(** * Theorems on program loading

    The image that an ELF file describes, page by page and byte by byte, and
    that loading it into a new address space produces exactly that image. *)

From S2P Require Import Prelude Memory FrameSpec FrameOps FrameTheorems Paging PagingSpec PagingOps.
From S2P Require Import SpaceTheorems Elf ElfSpec.

Module ElfRuns.
Import BuddyAllocator FreeLists FrameOps FrameInit PageTableFlags PageTableEntry AddressSpace Trees SpaceOps SpaceFree SpaceRuns.
Import Elf ElfSpec.

(** ** The image of a file *)
Section Spec.
Context (outside : Z -> Z) (data : list Z).

(** The segment reaches into the page of [va]. *)
Definition reaches (va : Z) (ph : Elf64Phdr) : bool :=
  loadable ph && (page_of (p_vaddr ph) <=? page_of va) && (page_of va <? p_vaddr ph + p_memsz ph).

Definition in_image (phdrs : list Elf64Phdr) (va : Z) : bool := existsb (reaches va) phdrs.

(** The flags of its page: what any of the segments on the page asks for. *)
Definition asks (bit : Z) (phdrs : list Elf64Phdr) (va : Z) : bool :=
  existsb (fun ph => reaches va ph && negb (Z.land (p_flags ph) bit =? 0)) phdrs.

Definition image_flags (phdrs : list Elf64Phdr) (va : Z) : Z :=
  Z.lor (if asks PF_W phdrs va then WRITABLE else 0) (if asks PF_X phdrs va then 0 else NO_EXECUTE).

(** Its byte: that of the last segment with file data there, or 0. *)
Definition image_byte (phdrs : list Elf64Phdr) (va : Z) : Z :=
  foldl (fun b ph => if loadable ph && (p_vaddr ph <=? va) && (va <? p_vaddr ph + p_filesz ph) then file_byte outside data ph va else b)
    0 phdrs.

Lemma reaches_pages ph va : loadable ph = true -> seg_ok data ph -> 0 <= va ->
  reaches va ph = bool_decide (page_of va ∈ segment_pages ph).
Proof.
  intros Hl Hs Hv. unfold reaches. rewrite Hl. cbn [andb]. apply eq_bool_prop_intro.
  rewrite bool_decide_spec, (elem_of_segment_pages data) by done. rewrite page_of_page.
  pose proof (page_of_range va). pose proof (page_of_range (p_vaddr ph)). rewrite andb_True, !Is_true_true, Z.leb_le, Z.ltb_lt.
  unfold page_of, PAGE_SIZE in *. assert (0 <= va / 4096) by (apply Z.div_pos; lia). split; [|lia].
  intros [Hlo Hhi]. split_all; [done|lia..].
Qed.

Lemma page_jobs_byte ph va b l : NoDup l ->
  foldl (job_step outside data va) b (pair ph <$> l) =
    if decide (page_of va ∈ l /\ p_vaddr ph <= va < p_vaddr ph + p_filesz ph) then file_byte outside data ph va else b.
Proof.
  intros Hnd. revert b. induction Hnd as [|pg l Hpg Hnd IH]; intros b; [rewrite decide_False; [done|]; set_solver|].
  rewrite fmap_cons. cbn [foldl]. rewrite IH. unfold job_step. cbn [fst snd].
  destruct (decide (page_of va ∈ l /\ _)) as [[H1 H2]|Hn]; [rewrite decide_True; [done|]; set_solver|].
  destruct (decide (pg = page_of va /\ _)) as [[-> H2]|Hn2]; [rewrite decide_True; [done|]; set_solver|].
  rewrite decide_False; [done|]. set_solver.
Qed.

Lemma segment_pages_nodup ph : NoDup (segment_pages ph).
Proof. apply NoDup_fmap_2; [intros i j E; unfold PAGE_SIZE in E; lia|apply NoDup_seqZ]. Qed.

(** The page copies leave the bytes of the image. *)
Lemma all_jobs_image phdrs va : (forall ph, ph ∈ phdrs -> loadable ph = true -> seg_ok data ph) ->
  jobs_byte outside data (fun _ => 0) (all_jobs phdrs) va = image_byte phdrs va.
Proof.
  unfold jobs_byte, image_byte. generalize 0. induction phdrs as [|ph phdrs IH]; intros b Hs; [done|].
  change (all_jobs (ph :: phdrs)) with ((if loadable ph then pair ph <$> segment_pages ph else []) ++ all_jobs phdrs).
  rewrite foldl_app, IH by (intros ? ?; apply Hs; set_solver). cbn [foldl]. f_equal.
  destruct (loadable ph) eqn:Hl; [|done]. cbn [andb]. rewrite page_jobs_byte by apply segment_pages_nodup.
  destruct (Z.leb_spec (p_vaddr ph) va), (Z.ltb_spec va (p_vaddr ph + p_filesz ph)); cbn [andb]; try (apply decide_False; lia).
  apply decide_True. split; [|lia]. apply (file_byte_page data); [apply Hs; [set_solver|done]|lia].
Qed.

(** The pages of the image. *)
Lemma all_jobs_pages phdrs va : (forall ph, ph ∈ phdrs -> loadable ph = true -> seg_ok data ph) -> 0 <= va ->
  page_of va ∈ (all_jobs phdrs).*2 <-> in_image phdrs va = true.
Proof.
  intros Hs Hv. unfold in_image. induction phdrs as [|ph phdrs IH]; [cbn; set_solver|].
  change (all_jobs (ph :: phdrs)) with ((if loadable ph then pair ph <$> segment_pages ph else []) ++ all_jobs phdrs).
  rewrite fmap_app, elem_of_app, IH by (intros ? ?; apply Hs; set_solver). cbn [existsb]. rewrite orb_true_iff. apply or_iff_compat_r.
  destruct (loadable ph) eqn:Hl.
  - assert (seg_ok data ph) by (apply Hs; [set_solver|done]). rewrite snd_pair, reaches_pages by done. by rewrite bool_decide_eq_true.
  - unfold reaches. rewrite Hl. cbn. set_solver.
Qed.

(** Pass 1 computes the flags of the image. *)
Definition grants (perms : gmap Z (bool * bool)) (pg : Z) : bool * bool := default (false, false) (perms !! pg).

Lemma need_page_grants ph l perms pg :
  grants (foldl (need_page ph) perms l) pg =
    if decide (pg ∈ l) then (negb (Z.land (p_flags ph) PF_W =? 0) || (grants perms pg).1, negb (Z.land (p_flags ph) PF_X =? 0) || (grants perms pg).2)
    else grants perms pg.
Proof.
  revert perms. induction l as [|pg' l IH]; intros perms; [done|]. cbn [foldl]. rewrite IH.
  assert (grants (need_page ph perms pg') pg =
    if decide (pg = pg') then (negb (Z.land (p_flags ph) PF_W =? 0) || (grants perms pg).1, negb (Z.land (p_flags ph) PF_X =? 0) || (grants perms pg).2)
    else grants perms pg) as ->.
  { unfold need_page. fold (grants perms pg'). destruct (grants perms pg') as [w x] eqn:E. unfold grants at 1. destruct (decide (pg = pg')) as [->|Hc].
    - rewrite lookup_insert_eq, E. cbn. by destruct (_ =? _), (_ =? _).
    - by rewrite lookup_insert_ne. }
  destruct (decide (pg ∈ l)) as [Hin|Hin]; [rewrite (decide_True (P := pg ∈ pg' :: l)) by set_solver|].
  - case_decide; [|done]. cbn. by destruct (negb _), (negb _).
  - case_decide; [rewrite decide_True by set_solver|rewrite decide_False by set_solver]; done.
Qed.

Lemma page_perms_image phdrs va : (forall ph, ph ∈ phdrs -> loadable ph = true -> seg_ok data ph) -> 0 <= va ->
  grants (page_perms phdrs) (page_of va) = (asks PF_W phdrs va, asks PF_X phdrs va).
Proof.
  intros Hs Hv. unfold page_perms, asks.
  assert (forall perms, grants (foldl (fun perms ph => if loadable ph then foldl (need_page ph) perms (segment_pages ph) else perms) perms phdrs)
      (page_of va) = (existsb (fun ph => reaches va ph && negb (Z.land (p_flags ph) PF_W =? 0)) phdrs || (grants perms (page_of va)).1,
                      existsb (fun ph => reaches va ph && negb (Z.land (p_flags ph) PF_X =? 0)) phdrs || (grants perms (page_of va)).2)) as H.
  2: { rewrite H. cbn. by rewrite !orb_false_r. }
  induction phdrs as [|ph phdrs IH]; intros perms; [by destruct (grants _ _)|].
  cbn [foldl existsb]. rewrite IH by (intros ? ?; apply Hs; set_solver). destruct (loadable ph) eqn:Hl.
  2: { unfold reaches. by rewrite Hl. }
  rewrite need_page_grants, reaches_pages by (done || (apply Hs; [set_solver|done])).
  case_decide as Hc; [rewrite (bool_decide_eq_true_2 _ Hc)|rewrite (bool_decide_eq_false_2 _ Hc)]; cbn [andb orb fst snd]; [|done].
  f_equal; rewrite orb_assoc; f_equal; apply orb_comm.
Qed.

Lemma page_flags_image phdrs pg : (forall ph, ph ∈ phdrs -> loadable ph = true -> seg_ok data ph) -> 0 <= pg -> pg = page_of pg ->
  page_flags (page_perms phdrs) pg = image_flags phdrs pg.
Proof.
  intros Hs Hv Hpg. unfold page_flags, image_flags. fold (grants (page_perms phdrs) pg). rewrite Hpg at 1.
  rewrite page_perms_image by done. by destruct (asks PF_W _ _), (asks PF_X _ _).
Qed.

End Spec.

(** ** The address space of a new process *)
Definition in_region (base n va : Z) : bool := (base <=? va) && (va <? base + n * PAGE_SIZE).

Definition in_stack (va : Z) : bool := in_region USER_STACK_BASE USER_STACK_PAGES va.
Definition in_heap (va : Z) : bool := in_region HEAP_BASE HEAP_PAGES va.

Definition in_process (phdrs : list Elf64Phdr) (va : Z) : bool := in_image phdrs va || in_stack va || in_heap va.

Definition process_flags (phdrs : list Elf64Phdr) (va : Z) : Z :=
  if in_stack va || in_heap va then Z.lor WRITABLE NO_EXECUTE else image_flags phdrs va.

(** What a program sees in space [id]: exactly the pages [inside], each with a
    frame of its own that was not held before ([w0]), its flags and its bytes. *)
Definition view (w0 w : sys) (id : Z) (inside : Z -> bool) (fl B : Z -> Z) : Prop :=
  exists frame : Z -> Z,
    (forall va, 0 <= va < 2 ^ 47 ->
      if inside va then
        lookup w id va = Some (set (frame (page_of va) * PAGE_SIZE) (user_flags (fl (page_of va)))) /\
        frame (page_of va) ∈ pages w ∖ pages w0 /\
        (pm w).2 (frame (page_of va) * PAGE_SIZE + va mod PAGE_SIZE) = B va
      else lookup w id va = None) /\
    forall va va', 0 <= va < 2 ^ 47 -> 0 <= va' < 2 ^ 47 -> inside va = true -> inside va' = true ->
      frame (page_of va) = frame (page_of va') -> page_of va = page_of va'.

Lemma lookup_page regions cr3 kf id w va : reachable regions cr3 kf w -> 0 <= va < 2 ^ 47 -> lookup w id (page_of va) = lookup w id va.
Proof.
  intros Hr Hv. destruct (sys_reachable_ok _ _ _ _ Hr) as (_ & _ & F & Ts & Hw). unfold lookup.
  destruct (spaces w !! id) as [s|] eqn:Hs; [|done]. cbn. destruct (y_owns _ _ _ _ _ Hw id s Hs) as (T & _ & Ho).
  pose proof (page_of_user va Hv). rewrite !(owns_mapped _ kf s T) by done. unfold leaf.
  destruct (proj1 (same_page (page_of va) va ltac:(done) Hv)) as [-> ->]; [|done]. apply page_of_eq, page_of_page.
Qed.

Lemma image_view regions cr3 kf id w0 w inside fl B mp : image regions cr3 kf id w0 fl B mp w ->
  (forall va, 0 <= va < 2 ^ 47 -> is_Some (mp !! page_of va) <-> inside va = true) -> view w0 w id inside fl B.
Proof.
  intros HI Hin. exists (fun pg => default 0 (mp !! pg) / PAGE_SIZE).
  assert (forall va, 0 <= va < 2 ^ 47 -> inside va = true -> exists f, mp !! page_of va = Some (f * PAGE_SIZE) /\
    default 0 (mp !! page_of va) / PAGE_SIZE = f) as Hmp.
  { intros va Hv Hi. destruct (proj2 (Hin va Hv) Hi) as [p Hp]. destruct (g_mapped _ _ _ _ _ _ _ _ _ HI _ _ Hp) as (_ & _ & f & -> & _).
    exists f. rewrite Hp. cbn. split; [done|]. apply Z.div_mul. done. }
  pose proof (g_kept _ _ _ _ _ _ _ _ _ HI) as (Hr & _). split.
  - intros va Hv. destruct (inside va) eqn:Hi.
    + destruct (Hmp va Hv Hi) as (f & Hp & ->). destruct (g_mapped _ _ _ _ _ _ _ _ _ HI _ _ Hp) as (_ & _ & f' & E & H1 & H2 & _ & H4 & H5).
      assert (f' = f) as -> by (unfold PAGE_SIZE in E; lia). rewrite <- (lookup_page regions cr3 kf) by done. split_all; [done|set_solver|].
      rewrite H5 by (apply Z.mod_pos_bound; done). f_equal. unfold page_of. symmetry. by apply Z.div_mod.
    + apply (g_free _ _ _ _ _ _ _ _ _ HI); [done|]. apply eq_None_not_Some. rewrite Hin by done. congruence.
  - intros va va' Hv Hv' Hi Hi'. destruct (Hmp va Hv Hi) as (f & Hp & ->), (Hmp va' Hv' Hi') as (f' & Hp' & ->). intros ->.
    by eapply (g_inj _ _ _ _ _ _ _ _ _ HI).
Qed.

Lemma elem_of_region base n va : base = page_of base -> 0 <= n ->
  page_of va ∈ region base n <-> in_region base n va = true.
Proof.
  intros Hb Hn. unfold region, in_region. rewrite list_elem_of_fmap, andb_true_iff, Z.leb_le, Z.ltb_lt.
  pose proof (page_of_range va). unfold page_of in *. set (b := base / PAGE_SIZE) in *. set (v := va / PAGE_SIZE) in *.
  clearbody b v. subst base. unfold PAGE_SIZE in *. split.
  - intros (i & E & Hi%elem_of_seqZ). nia.
  - intros [? ?]. exists (v - b). split; [lia|]. apply elem_of_seqZ. lia.
Qed.

Lemma region_nodup base n : NoDup (region base n).
Proof. apply NoDup_fmap_2; [intros i j E; unfold PAGE_SIZE in E; lia|apply NoDup_seqZ]. Qed.

Lemma region_pages base n pg : base = page_of base -> 0 <= base -> base + n * PAGE_SIZE <= 2 ^ 47 ->
  pg ∈ region base n -> pg = page_of pg /\ 0 <= pg < 2 ^ 47.
Proof.
  intros Hb H0 Hn. unfold region. rewrite list_elem_of_fmap. intros (i & -> & Hi%elem_of_seqZ). split.
  - symmetry. rewrite (page_of_unique (base / PAGE_SIZE + i)); unfold page_of, PAGE_SIZE in *; lia.
  - unfold PAGE_SIZE in *. lia.
Qed.

Section Run.
Context (outside : Z -> Z) (data : list Z) (regions : list (Z * Z)) (cr3 kf id : Z).
Context (header : Elf64Header) (phdrs : list Elf64Phdr).
Context (Hheader : parse_header outside data = Ok header) (Hphdrs : program_headers outside data header = Ok phdrs).
Context (Hsegs : forall ph, ph ∈ phdrs -> loadable ph = true -> seg_ok data ph).

Notation kept := (kept regions cr3 kf id).
Notation image := (image regions cr3 kf id).

Lemma load_elf_ok w0 w s am : kept w0 w -> (forall v, 0 <= v < 2 ^ 47 -> lookup w id v = None) -> shows id s am w ->
  returns (load_elf outside data s am) (fun '(r, s', am') => exists w', shows id s' am' w' /\
    match r with
    | Ok entry => entry = e_entry header /\ exists mp,
        (forall va, 0 <= va < 2 ^ 47 -> is_Some (mp !! page_of va) <-> in_image phdrs va = true) /\
        image w0 (image_flags phdrs) (image_byte outside data phdrs) mp w'
    | Err e => (e = OutOfMemory \/ e = MapFailed) /\ kept w0 w' /\ available_frames (pm w').1 = 0
    end).
Proof.
  intros Hk Hn Hst. unfold load_elf. rewrite Hheader, Hphdrs.
  eapply returns_bind; [apply (load_segments_ok outside data regions cr3 kf id w0 (page_perms phdrs) phdrs (fun _ => 0) w); [by apply image_empty|done|done]|].
  intros [[[]|e] st] (w' & Hst' & Hr); apply returns_done; exists w'; (split; [done|]); [|done].
  cbn [fst snd mapped_pages] in Hr. destruct Hr as [Hd HI]. split; [done|]. exists (mapped_pages st). split.
  - intros va Hv. rewrite <- elem_of_dom, Hd, dom_empty_L, union_empty_r_L, elem_of_list_to_set. apply (all_jobs_pages outside data); [done|lia].
  - eapply image_ext; [done| |].
    + intros pg [p Hp]. destruct (g_mapped _ _ _ _ _ _ _ _ _ HI _ _ Hp) as (E & Hu & _). symmetry. apply (page_flags_image outside data); [done|lia|done].
    + intros v Hv. symmetry. by apply all_jobs_image.
Qed.

(** The system after [spawn_elf] is done with its address space, however it ends:
    nothing held before is lost or changed. *)
Definition intact (w w' : sys) : Prop :=
  reachable regions cr3 kf w' /\ pages w ⊆ pages w' /\ others_keep (Some id) w w' /\
  forall x, x / PAGE_SIZE ∈ pages w -> (pm w').2 x = (pm w).2 x.

Lemma drop_space_ok e w0 w s am : spaces w0 !! id = None -> kept w0 w -> shows id s am w ->
  returns (drop_space e s am) (fun '(r, am') => r = Err e /\ exists w', pm w' = am' /\ intact w0 w' /\ spaces w' = spaces w0).
Proof.
  intros H0 (Hr & Hs & Hd & Hp & Hk & Hb) [<- Es]. destruct (sys_reachable_ok _ _ _ _ Hr) as (_ & _ & F & Ts & Hw).
  destruct (destroy_step cr3 regions kf F Ts w id Hw Hs) as ([r w'] & E & He & Hk' & Hb' & _).
  pose proof (reach_op _ _ _ _ (Destroy id) _ _ Hr Hs E) as Hr'. cbn [step] in E. rewrite Es in E.
  apply bind_Done in E as ([s' am'] & E & E'). injection E' as <- <-. unfold drop_space. rewrite E. exec_simpl.
  apply returns_done. split; [done|]. eexists. split; [|split]; [|unfold intact; split_all|]; [|exact Hr'|..].
  - done.
  - done.
  - eapply others_keep_trans; [done|exact Hk'].
  - intros x Hx. rewrite <- Hb by done. apply Hb'; [done|by apply Hp|by apply Hp].
  - cbn. rewrite Hd. by apply delete_id.
Qed.

(** The errors that lack of frames explains. *)
Definition out_of_frames (e : spawn_error) : Prop :=
  e = CreateFailed \/ e = LoadFailed OutOfMemory \/ e = LoadFailed MapFailed \/
  e = RegionFailed NoFrame \/ e = RegionFailed (MapRefused AllocationFailed).

Definition overlap : Prop := exists va, 0 <= va < 2 ^ 47 /\ in_image phdrs va = true /\ (in_stack va || in_heap va) = true.

Definition spawn_post (w : sys) (out : result (Z * AddressSpace.t) spawn_error * (BuddyAllocator.t * Mem.t)) : Prop :=
  exists w', pm w' = out.2 /\ intact w w' /\
    match out.1 with
    | Ok (entry, s) => entry = e_entry header /\ spaces w' = <[id := s]> (spaces w) /\
        view w w' id (in_process phdrs) (process_flags phdrs) (image_byte outside data phdrs)
    | Err e => spaces w' = spaces w /\ (out_of_frames e \/ e = RegionFailed (MapRefused AlreadyMapped) /\ overlap)
    end.

Lemma stack_page va : page_of va ∈ region USER_STACK_BASE USER_STACK_PAGES <-> in_stack va = true.
Proof. by apply elem_of_region. Qed.

Lemma heap_page va : page_of va ∈ region HEAP_BASE HEAP_PAGES <-> in_heap va = true.
Proof. by apply elem_of_region. Qed.

Lemma stack_heap_apart pg : pg ∈ region USER_STACK_BASE USER_STACK_PAGES -> pg ∈ region HEAP_BASE HEAP_PAGES -> False.
Proof.
  intros H1 H2. destruct (region_pages USER_STACK_BASE USER_STACK_PAGES pg) as [E _]; [done..|].
  rewrite E in H1, H2. apply stack_page in H1. apply heap_page in H2. unfold in_stack, in_heap, in_region in *.
  rewrite andb_true_iff, Z.leb_le, Z.ltb_lt in *. unfold USER_STACK_BASE, HEAP_BASE, HEAP_PAGES, PAGE_SIZE in *. lia.
Qed.

(** A failure after the space was created. *)
Lemma spawn_fails e w0 w s am : spaces w0 !! id = None -> kept w0 w -> shows id s am w ->
  out_of_frames e \/ e = RegionFailed (MapRefused AlreadyMapped) /\ overlap ->
  returns (drop_space e s am) (spawn_post w0).
Proof.
  intros H0 Hk Hs He. eapply returns_mono; [by apply (drop_space_ok e w0 w)|]. intros [r am'] (-> & w' & H1 & H2 & H3). by exists w'.
Qed.

(** The stack and the heap on top of the image. *)
Lemma regions_view w0 w (mp1 mp2 mp : gmap Z Z) :
  (forall va, 0 <= va < 2 ^ 47 -> is_Some (mp !! page_of va) <-> in_image phdrs va = true) ->
  dom mp1 = list_to_set (region USER_STACK_BASE USER_STACK_PAGES) ∪ dom mp ->
  dom mp2 = list_to_set (region HEAP_BASE HEAP_PAGES) ∪ dom mp1 ->
  image w0 (fun pg => if decide (pg ∈ region HEAP_BASE HEAP_PAGES) then Z.lor WRITABLE NO_EXECUTE else
    if decide (pg ∈ region USER_STACK_BASE USER_STACK_PAGES) then Z.lor WRITABLE NO_EXECUTE else image_flags phdrs pg)
    (image_byte outside data phdrs) mp2 w ->
  view w0 w id (in_process phdrs) (process_flags phdrs) (image_byte outside data phdrs).
Proof.
  intros Hmp H1 H2 HI. eapply (image_view regions cr3 kf).
  - eapply image_ext; [exact HI| |done]. intros pg [p Hp]. destruct (g_mapped _ _ _ _ _ _ _ _ _ HI _ _ Hp) as (E & _).
    pose proof (stack_page pg) as Hs. pose proof (heap_page pg) as Hh. rewrite <- E in Hs, Hh. unfold process_flags.
    revert Hs Hh. generalize (region USER_STACK_BASE USER_STACK_PAGES), (region HEAP_BASE HEAP_PAGES). intros l1 l2 Hs Hh.
    destruct (decide (pg ∈ l2)) as [h|h]; [by rewrite (proj1 Hh h), orb_true_r|].
    destruct (decide (pg ∈ l1)) as [h'|h']; [by rewrite (proj1 Hs h')|].
    by rewrite (not_true_is_false (in_stack pg)), (not_true_is_false (in_heap pg)) by tauto.
  - intros va Hv. rewrite <- elem_of_dom, H2, H1, !elem_of_union, !elem_of_list_to_set, elem_of_dom, stack_page, heap_page, Hmp by done.
    unfold in_process. rewrite !orb_true_iff. tauto.
Qed.

Lemma region_overlap (mp : gmap Z Z) pg : (forall va, 0 <= va < 2 ^ 47 -> is_Some (mp !! page_of va) <-> in_image phdrs va = true) ->
  pg ∈ region USER_STACK_BASE USER_STACK_PAGES \/ pg ∈ region HEAP_BASE HEAP_PAGES -> is_Some (mp !! pg) -> overlap.
Proof.
  intros Hmp Hin Hs. assert (pg = page_of pg /\ 0 <= pg < 2 ^ 47) as [E Hu] by (by destruct Hin as [H|H]; apply (region_pages _ _ _) in H).
  exists pg. split; [done|]. rewrite E in Hs, Hin. rewrite Hmp in Hs by done. rewrite stack_page, heap_page in Hin.
  split; [done|]. by apply orb_true_iff.
Qed.

Lemma prepare_image_ok w : reachable regions cr3 kf w -> spaces w !! id = None ->
  returns (prepare_image outside data cr3 (pm w)) (spawn_post w).
Proof.
  intros Hr H0. destruct (sys_reachable_ok _ _ _ _ Hr) as (Hm & Hcr & F & Ts & Hw). unfold prepare_image.
  destruct (space_create_step cr3 regions kf F Ts w id Hw Hcr H0) as ([r w1] & E & He & Hk & Hb & _).
  pose proof (reach_op _ _ _ _ (Create id) _ _ Hr H0 E) as Hr1. cbn [step] in E.
  apply bind_Done in E as ([rs am1] & -> & E). exec_simpl. specialize (Hb ltac:(done)). cbn [fst snd touched] in *. destruct rs as [s|e].
  2: { injection E as <- <-. apply returns_done. eexists. split; [|split; [unfold intact; split_all|]]; [|exact Hr1|..].
    - done. - done. - exact Hk. - intros x Hx. by apply Hb. - split; [done|]. left. by left. }
  injection E as <- <-. destruct He as [_ Hn]. set (w1 := mkSys am1 _ _) in *.
  assert (kept w w1) as Hk1.
  { unfold ElfSpec.kept. split_all; [done|cbn; rewrite lookup_insert_eq; eauto|cbn; by rewrite delete_insert_eq|done|exact Hk|]. intros x Hx. by apply Hb. }
  eapply returns_bind; [apply (load_elf_ok w w1); [done|exact Hn|split; [done|apply lookup_insert_eq]]|]. clearbody w1.
  intros [[re s2] am2] (w2 & Hs2 & Hr2). destruct re as [entry|e].
  2: { destruct Hr2 as (He & Hk2 & _). apply (spawn_fails _ w w2); [done..|]. left. unfold out_of_frames. destruct He as [-> | ->]; tauto. }
  destruct Hr2 as (-> & mp & Hmp & HI).
  eapply returns_bind; [eapply (map_region_ok outside regions cr3 kf id w); [exact HI|exact Hs2|apply region_nodup|intros pg; by apply region_pages]|].
  intros [[rr s3] am3] (w3 & Hs3 & Hr3). destruct rr as [[]|e].
  2: { assert (kept w w3) by (destruct e as [|[]]; naive_solver). apply (spawn_fails _ w w3); [done..|]. unfold out_of_frames.
    destruct e as [|[]]; [tauto|tauto|naive_solver| |naive_solver]. right. split; [done|]. destruct Hr3 as (_ & pg & Hin & Hs).
    apply (region_overlap mp pg); auto. }
  destruct Hr3 as (mp1 & Hd1 & _ & HI1).
  eapply returns_bind; [eapply (map_region_ok outside regions cr3 kf id w); [exact HI1|exact Hs3|apply region_nodup|intros pg; by apply region_pages]|].
  intros [[rr s4] am4] (w4 & Hs4 & Hr4). destruct rr as [[]|e].
  2: { assert (kept w w4) by (destruct e as [|[]]; naive_solver). apply (spawn_fails _ w w4); [done..|]. unfold out_of_frames.
    destruct e as [|[]]; [tauto|tauto|naive_solver| |naive_solver]. right. split; [done|]. destruct Hr4 as (_ & pg & Hin & Hs).
    apply (region_overlap mp pg); [done|auto|]. rewrite <- elem_of_dom, Hd1, elem_of_union, elem_of_list_to_set, elem_of_dom in Hs.
    destruct Hs; [by destruct (stack_heap_apart pg)|done]. }
  destruct Hr4 as (mp2 & Hd2 & _ & HI2). apply returns_done. pose proof (g_kept _ _ _ _ _ _ _ _ _ HI2) as (K1 & K2 & K3 & K4 & K5 & K6).
  exists w4. destruct Hs4 as [Ham Hs4]. split; [done|]. split; [done|]. cbn [fst snd]. split; [reflexivity|split].
  2: { exact (regions_view w w4 mp1 mp2 mp Hmp Hd1 Hd2 HI2). }
  rewrite <- (insert_delete_id (spaces w4) id s4) by done. rewrite K3. by apply insert_delete_eq.
Qed.

End Run.
(** ** Files that are refused *)
Definition rejection (outside : Z -> Z) (data : list Z) : option ElfError :=
  match parse_header outside data with
  | Err e => Some e
  | Ok header => match program_headers outside data header with Err e => Some e | Ok _ => None end
  end.

Lemma load_elf_rejects outside data e s am : rejection outside data = Some e -> load_elf outside data s am = Done (Err e, s, am).
Proof.
  unfold rejection, load_elf. destruct (parse_header outside data) as [h|e']; [|by intros [= ->]].
  destruct (program_headers outside data h); [done|by intros [= ->]].
Qed.

(** A new space that is dropped at once: the allocator has the frames it had. *)
Lemma create_destroy F a m cr3 kf : alloc_ok F (a, m) -> read_cr3 cr3 = kf * PAGE_SIZE -> kf ∉ F ->
  (forall i, 256 <= i < 512 -> in_u 64 (word m kf i)) ->
  returns (create cr3 (a, m)) (fun '(r, am1) =>
    match r with
    | Err e => am1 = (a, m) /\ available_frames a = 0
    | Ok s => returns (destroy s am1) (fun '(_, am2) =>
        alloc_ok F am2 /\ total_frames am2.1 = total_frames a /\ agree F m am2.2)
    end).
Proof.
  intros Ha Hcr Hk Hw. eapply returns_mono; [by apply (create_ok F a m cr3 kf)|].
  intros [[s|e] am1] (Htot & Hag & Hr).
  2: { destruct Hr as (_ & -> & HF). split; [done|]. by apply (available_none F (a, m)). }
  destruct Hr as (g & Hg & Hp & Hact & _ & Hsp & _). eapply returns_mono; [apply (destroy_ok _ _ _ _ g Hsp); [by apply lookup_singleton_eq|done..]|].
  intros [s' am2] (_ & Htot2 & Ha2 & Hag2). assert (frames ({[ [] := g ]} : tree) = {[g]}) as Efr by apply map_img_singleton_L.
  rewrite Efr, difference_union_L, (union_comm_L F), subseteq_union_1_L in Ha2, Hag2 by set_solver.
  split_all; [done|congruence|]. intros x Hx. rewrite Hag2 by done. by apply Hag.
Qed.

(** The physical memory [am'] holds all that [am] did for the system [w]: every
    page of every space and every byte held, and as many free frames. *)
Definition undisturbed (w : sys) (am' : BuddyAllocator.t * Mem.t) : Prop :=
  available_frames am'.1 = available_frames (pm w).1 /\
  (forall id va, 0 <= va < 2 ^ 47 -> lookup (mkSys am' (spaces w) (pages w)) id va = lookup w id va) /\
  forall x, x / PAGE_SIZE ∈ pages w -> am'.2 x = (pm w).2 x.

Lemma undisturbed_agree regions kf F Ts w am' : sys_ok regions kf F Ts w -> alloc_ok F am' -> agree F (pm w).2 am'.2 -> undisturbed w am'.
Proof.
  intros Hw Ha Hag. unfold undisturbed. split_all.
  - unfold available_frames. by rewrite (a_count _ _ Ha), (a_count _ _ (y_alloc _ _ _ _ _ Hw)).
  - destruct (frame_rule F w am' (spaces w) (pages w) None regions kf F Ts Hw Hag) as (Hk & _); [| |done|].
    + intros Hin. apply (kf_outside _ _ _ _ _ kf Hw); [|done]. apply (y_usable _ _ _ _ _ Hw). by left.
    + intros id' T HT _. apply (y_tables _ _ _ _ _ Hw id' T HT).
    + intros id va Hv. by apply Hk.
  - intros x Hx. apply Hag. pose proof (y_pages _ _ _ _ _ Hw). set_solver.
Qed.

(** ** What the loader reads *)
Section Confined.
Context (outside outside' : Z -> Z) (data : list Z).
Context (Hbytes : Forall (fun b => 0 <= b < 256) data).

Lemma byte_at_inside off : 0 <= off < len data -> byte_at outside data off = byte_at outside' data off.
Proof. intros H. unfold byte_at. by rewrite !decide_True. Qed.

Lemma bytes_inside off n : 0 <= off -> off + n <= len data ->
  byte_at outside data <$> seqZ off n = byte_at outside' data <$> seqZ off n.
Proof. intros H1 H2. apply list_fmap_ext. intros i x Hx%lookup_seqZ. apply byte_at_inside. lia. Qed.

Lemma le_at_inside off n : 0 <= off -> off + n <= len data -> le_at outside data off n = le_at outside' data off n.
Proof. intros H1 H2. unfold le_at. by rewrite bytes_inside. Qed.

Lemma le_at_nonneg off n : 0 <= off -> off + n <= len data -> 0 <= le_at outside data off n.
Proof.
  intros H1 H2. apply le_value_range, Forall_fmap, Forall_forall. intros x Hx%elem_of_seqZ. cbn. unfold byte_at.
  rewrite decide_True by lia. apply (Forall_lookup_1 (fun b => 0 <= b < 256) data (Z.to_nat x)); [done|].
  apply list_lookup_lookup_total_lt. unfold len in H2. lia.
Qed.

Lemma phdr_inside off : 0 <= off -> off + 56 <= len data -> phdr_at outside data off = phdr_at outside' data off.
Proof. intros H1 H2. unfold phdr_at. rewrite !(le_at_inside _ _) by lia. done. Qed.

Lemma parse_header_inside : parse_header outside data = parse_header outside' data.
Proof.
  unfold parse_header. destruct (Z.ltb_spec (len data) 64) as [|H]; [done|].
  assert (header_at outside data = header_at outside' data) as ->; [|done].
  unfold header_at. rewrite bytes_inside, !(le_at_inside _ _) by lia. done.
Qed.

(** The offsets in the header do not wrap around. *)
Definition table_fits (header : Elf64Header) : Prop := e_phoff header + e_phnum header * e_phentsize header < 2 ^ 64.

Lemma program_headers_inside header : parse_header outside data = Ok header -> table_fits header ->
  program_headers outside data header = program_headers outside' data header.
Proof.
  intros Hh Hfit. unfold parse_header in Hh. destruct (Z.ltb_spec (len data) 64) as [|Hlen]; [done|].
  assert (header = header_at outside data) as ->.
  { repeat (destruct (negb _); [done|]). destruct (_ && _); [done|]. destruct (negb _); [done|]. congruence. }
  unfold program_headers, table_fits in *. cbn [e_phoff e_phentsize e_phnum header_at] in *.
  pose proof (le_at_nonneg 32 8 ltac:(lia) ltac:(lia)). pose proof (le_at_nonneg 54 2 ltac:(lia) ltac:(lia)).
  pose proof (le_at_nonneg 56 2 ltac:(lia) ltac:(lia)).
  set (o := le_at outside data 32 8) in *. set (z := le_at outside data 54 2) in *. set (n := le_at outside data 56 2) in *.
  clearbody o z n. destruct (Z.ltb_spec z 56) as [|Hz]; [done|]. unfold u64_mul. rewrite wrap_small by nia. rewrite u64_add_small by nia.
  destruct (Z.ltb_spec (len data) (o + n * z)) as [|Hend]; [done|]. f_equal. apply list_fmap_ext.
  intros i x Hx%lookup_seqZ. apply phdr_inside; nia.
Qed.

(** Neither do the offset and size of the segment's data. *)
Definition data_fits (ph : Elf64Phdr) : Prop :=
  0 <= p_vaddr ph /\ 0 <= p_filesz ph /\ 0 <= p_offset ph /\ p_offset ph + p_filesz ph < 2 ^ 64.

Lemma copy_page_inside ph pg frame m : data_fits ph -> copy_page outside data ph pg frame m = copy_page outside' data ph pg frame m.
Proof.
  intros (H1 & H2 & H3 & H4). unfold copy_page. destruct (Z.ltb_spec (pg `max` p_vaddr ph)
    (u64_add pg PAGE_SIZE `min` u64_add (p_vaddr ph) (p_filesz ph))) as [Hlt|]; [|done].
  assert (u64_add (p_vaddr ph) (p_filesz ph) <= p_vaddr ph + p_filesz ph) as Hle by (apply Z.mod_le; lia).
  set (ve := _ `min` _) in *. set (vs := _ `max` _) in *. assert (p_vaddr ph <= vs) by lia. assert (ve <= p_vaddr ph + p_filesz ph) by lia.
  clearbody ve vs. rewrite (u64_add_small (p_offset ph)) by lia. rewrite u64_add_small by lia.
  destruct (Z.leb_spec (p_offset ph + (vs - p_vaddr ph) + (ve - vs)) (len data)) as [Hin|]; [|done]. rewrite bytes_inside by lia. done.
Qed.

Lemma load_pages_inside perms ph pgs st : data_fits ph ->
  load_pages outside data perms ph pgs st = load_pages outside' data perms ph pgs st.
Proof.
  intros Hf. revert st. induction pgs as [|pg pgs IH]; intros st; [done|]. cbn [load_pages]. unfold load_page.
  destruct (page_frame perms pg st) as [[[p|e] st']| |]; exec_simpl; [|done..]. rewrite copy_page_inside by done. apply IH.
Qed.

Lemma load_segments_inside perms phdrs st : (forall ph, ph ∈ phdrs -> loadable ph = true -> data_fits ph) ->
  load_segments outside data perms phdrs st = load_segments outside' data perms phdrs st.
Proof.
  revert st. induction phdrs as [|ph phdrs IH]; intros st Hf; [done|]. cbn [load_segments].
  assert (forall ph', ph' ∈ phdrs -> loadable ph' = true -> data_fits ph') as Hf' by (intros ? ?; apply Hf; set_solver).
  destruct (loadable ph) eqn:Hl; [|by apply IH]. rewrite load_pages_inside by (apply Hf; [set_solver|done]).
  destruct (load_pages outside' data perms ph (segment_pages ph) st) as [[[u|e] st']| |]; exec_simpl; [by apply IH|done..].
Qed.

End Confined.

(** ** Theorems *)



(** C14. A file that the loader refuses costs nothing. When the header or the
    program header table is refused, [spawn_elf] reports that error (or the lack
    of a frame for the page table, in the order it finds them), and the new
    address space is given back: as many frames are free as before, and no page
    of any space and no byte held is disturbed. *)
Theorem rejected_file_costs_nothing outside data regions cr3 kf w e : reachable regions cr3 kf w -> rejection outside data = Some e ->
  exists e' am', prepare_image outside data cr3 (pm w) = Done (Err e', am') /\
    e' = (if available_frames (pm w).1 =? 0 then CreateFailed else LoadFailed e) /\ undisturbed w am'.
Proof.
  intros Hr He. destruct (sys_reachable_ok _ _ _ _ Hr) as (Hm & Hcr & F & Ts & Hw). pose proof (y_alloc _ _ _ _ _ Hw) as Ha.
  destruct (create_destroy F (pm w).1 (pm w).2 cr3 kf) as ([r am1] & E & Hpost); [by destruct (pm w)|done| |apply Hw|].
  { intros Hin. apply (kf_outside _ _ _ _ _ kf Hw); [|done]. apply (y_usable _ _ _ _ _ Hw). by left. }
  unfold prepare_image. rewrite <- surjective_pairing in *. rewrite E. exec_simpl. destruct r as [s|e'].
  2: { destruct Hpost as [-> Hav]. rewrite Hav. eexists _, _. split; [done|]. split; [done|]. by eapply undisturbed_agree. }
  rewrite (load_elf_rejects _ _ _ _ _ He). exec_simpl. destruct Hpost as ([s' am2] & E2 & Ha2 & _ & Hag). unfold drop_space. rewrite E2. exec_simpl.
  eexists _, _. split; [done|]. split; [|by eapply undisturbed_agree].
  destruct (Z.eqb_spec (available_frames (pm w).1) 0) as [H0|]; [|done]. exfalso.
  destruct (create_ok F (pm w).1 (pm w).2 cr3 kf) as ([r am3] & E3 & _ & _ & Hc); [by destruct (pm w)|done| |apply Hw|].
  { intros Hin. apply (kf_outside _ _ _ _ _ kf Hw); [|done]. apply (y_usable _ _ _ _ _ Hw). by left. }
  rewrite <- surjective_pairing, E in E3. injection E3 as <- <-. destruct Hc as (g & Hg & _).
  unfold available_frames in H0. rewrite (a_count _ _ Ha) in H0. assert (size F = 0%nat) as HF by lia. apply size_empty_inv in HF. set_solver.
Qed.

Lemma rejected_file_costs_nothing_witness : exists w am', reachable FrameRuns.small_map 0 0 w /\
  prepare_image (fun _ => 0) (replicate 64 0) 0 (pm w) = Done (Err (LoadFailed BadMagic), am') /\ undisturbed w am'.
Proof.
  destruct (init_ok FrameRuns.small_map (fun _ => 0) FrameRuns.small_map_ok) as (am & E & Ha & _).
  pose proof (reach_boot FrameRuns.small_map 0 0 _ _ small_boot_ok E) as Hr.
  destruct (rejected_file_costs_nothing (fun _ => 0) (replicate 64 0) FrameRuns.small_map 0 0 (mkSys am ∅ ∅) BadMagic Hr ltac:(reflexivity))
    as (e' & am' & E' & He & Hu).
  assert (available_frames am.1 = 8) as Hav.
  { unfold available_frames. rewrite (a_count _ _ Ha). reflexivity. }
  cbn [pm] in He. rewrite Hav in He. cbn in He. subst e'. exists (mkSys am ∅ ∅), am'. split; [exact Hr|]. split; [exact E'|exact Hu].
Defined.

(** C13. The loader reads nothing but the file: whatever bytes lie in memory
    around it, loading does the same, provided that neither the end of the
    program header table nor the end of a segment's data wraps around 2^64. *)
Theorem loader_reads_only_the_file outside outside' data s am : Forall (fun b => 0 <= b < 256) data ->
  (forall header, parse_header outside data = Ok header -> table_fits header) ->
  (forall header phdrs ph, parse_header outside data = Ok header -> program_headers outside data header = Ok phdrs ->
    ph ∈ phdrs -> loadable ph = true -> data_fits ph) ->
  load_elf outside data s am = load_elf outside' data s am.
Proof.
  intros Hb Ht Hd. unfold load_elf. rewrite <- (parse_header_inside outside outside') by done.
  destruct (parse_header outside data) as [h|e] eqn:Hh; [|done].
  rewrite <- (program_headers_inside outside outside') by auto.
  destruct (program_headers outside data h) as [phdrs|e] eqn:Hp; [|done].
  rewrite (load_segments_inside outside outside') by eauto. done.
Qed.

Lemma loader_reads_only_the_file_witness :
  load_elf (fun _ => 0) TEST_ELF_EXIT42 (AddressSpace.mk 0x5000 0 true) (new, fun _ => 0) =
  load_elf (fun _ => 255) TEST_ELF_EXIT42 (AddressSpace.mk 0x5000 0 true) (new, fun _ => 0).
Proof.
  apply loader_reads_only_the_file.
  - vm_compute. repeat (apply List.Forall_cons; [split; [discriminate|reflexivity]|]). apply List.Forall_nil.
  - intros h Hh. vm_compute in Hh. injection Hh as <-. reflexivity.
  - intros h phs ph Hh Hp Hin _. vm_compute in Hh. injection Hh as <-. vm_compute in Hp. injection Hp as <-.
    apply list_elem_of_singleton in Hin. subst ph. unfold data_fits. vm_compute. repeat split; discriminate.
Defined.

(** Without that proviso it does not hold: the sum that the bounds check looks at
    wraps around, and the table is read in front of the file. *)
Definition escaping_file : list Z := take 32 TEST_ELF_EXIT42 ++ le_bytes 8 (2 ^ 64 - 56) ++ drop 40 TEST_ELF_EXIT42.

Lemma phdr_table_escapes_the_file : exists header phdrs phdrs',
  parse_header (fun _ => 0) escaping_file = Ok header /\
  program_headers (fun _ => 0) escaping_file header = Ok phdrs /\
  program_headers (fun _ => 1) escaping_file header = Ok phdrs' /\ p_type <$> phdrs = [0] /\ p_type <$> phdrs' = [0x01010101].
Proof. eexists _, _, _. repeat split; vm_compute; reflexivity. Qed.

End ElfRuns.
