(* ===== verification/Cpio.v ===== *)
(** * Archives for the initial file system (src/kernel/src/vfs/cpio.rs)

    The parser of CPIO archives in the newc format, and the builder that the
    kernel's self-tests use. Positions are below 2^63, the bound on the length
    of a slice, plus two 32-bit sizes: the sums do not wrap around. *)

From S2P Require Import Prelude.

Module Cpio.

Definition CPIO_MAGIC : list Z := str_bytes "070701".
Definition TRAILER : list Z := str_bytes "TRAILER!!!".

Record CpioEntry := mkEntry {
  name : list Z;
  data : list Z;
  is_directory : bool;
  mode : Z;
}.

Inductive CpioError := TooShort | BadMagic | BadHex | OutOfBounds.

#[export] Instance cpio_error_eq : EqDecision CpioError.
Proof. solve_decision. Defined.

(** ** Hexadecimal fields *)
Definition hex_digit (b : Z) : option Z :=
  if (48 <=? b) && (b <=? 57) then Some (b - 48)
  else if (97 <=? b) && (b <=? 102) then Some (b - 97 + 10)
  else if (65 <=? b) && (b <=? 70) then Some (b - 65 + 10)
  else None.

Fixpoint hex_value (bytes : list Z) (value : Z) : result Z CpioError :=
  match bytes with
  | [] => Ok value
  | b :: bytes' =>
      match hex_digit b with
      | Some digit => hex_value bytes' (Z.lor (wrap 32 (Z.shiftl value 4)) digit)
      | None => Err BadHex
      end
  end.

Definition parse_hex8 (bytes : list Z) : result Z CpioError :=
  if Z.of_nat (length bytes) <? 8 then Err BadHex else hex_value (take 8 bytes) 0.

Definition align4 (pos : Z) : Z := Z.land (pos + 3) (lnot_u 64 3).

(** ** The parser *)

(** One entry: its name, data and header fields, and the position after it; [None]
    for the trailer. *)
Definition parse_entry (archive : list Z) (pos : Z) : exec (result (option (CpioEntry * Z)) CpioError) :=
  let len := Z.of_nat (length archive) in
  magic ← slice_get archive pos (pos + 6);
  if negb (bool_decide (magic = CPIO_MAGIC)) then Done (Err BadMagic)
  else
    f1 ← slice_get archive (pos + 14) (pos + 22);
    match parse_hex8 f1 with
    | Err e => Done (Err e)
    | Ok mode =>
    f2 ← slice_get archive (pos + 54) (pos + 62);
    match parse_hex8 f2 with
    | Err e => Done (Err e)
    | Ok filesize =>
    f3 ← slice_get archive (pos + 94) (pos + 102);
    match parse_hex8 f3 with
    | Err e => Done (Err e)
    | Ok namesize =>
        let name_start := pos + 110 in
        let name_end := name_start + namesize in
        if len <? name_end then Done (Err OutOfBounds)
        else
          terminated ← (if 0 <? namesize then b ← arr_get archive (name_end - 1); Done (b =? 0) else Done false);
          name ← slice_get archive name_start (if (terminated : bool) then name_end - 1 else name_end);
          if bool_decide (name = TRAILER) then Done (Ok None)
          else
            let data_start := align4 name_end in
            let data_end := data_start + filesize in
            if len <? data_end then Done (Err OutOfBounds)
            else
              data ← slice_get archive data_start data_end;
              let is_directory := Z.land mode 0xF000 =? 0x4000 in
              Done (Ok (Some (mkEntry name data is_directory mode, align4 data_end)))
    end end end.

(** [loop]: every round moves on by more than 110 bytes. *)
Fixpoint parse_loop (fuel : nat) (archive : list Z) (pos : Z) (entries : list CpioEntry)
  : exec (result (list CpioEntry) CpioError) :=
  match fuel with
  | O => Diverged
  | S fuel' =>
      if Z.of_nat (length archive) <? pos + 110 then
        if bool_decide (entries = []) then Done (Err TooShort) else Done (Ok entries)
      else
        r ← parse_entry archive pos;
        match r with
        | Err e => Done (Err e)
        | Ok None => Done (Ok entries)
        | Ok (Some (entry, pos')) =>
            parse_loop fuel' archive pos'
              (if bool_decide (name entry = str_bytes ".") then entries else entries ++ [entry])
        end
  end.

Definition parse_cpio (archive : list Z) : exec (result (list CpioEntry) CpioError) :=
  parse_loop (S (length archive)) archive 0 [].

(** ** The builder *)

(** [format!({:08X})]: eight digits, or more when the number needs them. *)
Definition upper_digit (d : Z) : Z := if d <? 10 then 48 + d else 55 + d.

Definition hex_digits (n : nat) (z : Z) : list Z :=
  (fun i => upper_digit (z / 16 ^ i mod 16)) <$> reverse (seqZ 0 (Z.of_nat n)).

Definition format_08X (z : Z) : list Z := hex_digits (Nat.max 8 (Z.to_nat (Z.log2 z / 4 + 1))) z.

Definition format_header (fields : list Z) : list Z := CPIO_MAGIC ++ (fields ≫= format_08X).

(** [while archive.len() % 4 != 0 { archive.push(0) }]. *)
Definition pad4 (archive : list Z) : list Z :=
  archive ++ replicate (Z.to_nat (- Z.of_nat (length archive) mod 4)) 0.

Definition write_entry (ino : Z) (name data : list Z) (is_dir : bool) (archive : list Z) : list Z :=
  let mode := if is_dir then 0x41ED else 0x81A4 in
  let namesize := Z.of_nat (length name) + 1 in
  let filesize := if is_dir then 0 else Z.of_nat (length data) in
  let archive := archive ++ format_header [ino; mode; 0; 0; 1; 0; filesize; 0; 0; 0; 0; namesize; 0] in
  let archive := pad4 (archive ++ name ++ [0]) in
  if is_dir then archive else pad4 (archive ++ data).

Fixpoint write_entries (ino : Z) (entries : list (list Z * list Z * bool)) (archive : list Z) : list Z :=
  match entries with
  | [] => archive
  | (name, data, is_dir) :: entries' => write_entries (u32_add ino 1) entries' (write_entry ino name data is_dir archive)
  end.

Definition build_test_cpio (entries : list (list Z * list Z * bool)) : list Z :=
  let archive := write_entries 1 entries [] in
  let namesize := Z.of_nat (length TRAILER) + 1 in
  let archive := archive ++ format_header [0; 0; 0; 0; 0; 0; 0; 0; 0; 0; 0; namesize; 0] in
  pad4 (archive ++ TRAILER ++ [0]).

End Cpio.
