(* ===== verification/CpioTheorems.v ===== *)
(** * Theorems on archives

    The parser returns on every input, and reads back what the builder wrote. *)

From S2P Require Import Prelude Cpio.

Module CpioRuns.
Import Cpio.

(** ** Slices of concatenations *)
Lemma slice_middle {A} (l1 m l2 : list A) a b : a = Z.of_nat (length l1) -> b = a + Z.of_nat (length m) ->
  slice_get (l1 ++ m ++ l2) a b = Done m.
Proof.
  intros -> ->. unfold slice_get. rewrite !length_app, decide_True by lia. f_equal.
  rewrite Nat2Z.id, drop_app_length. rewrite take_app_length'; [done|lia].
Qed.

Lemma slice_in {A} (l : list A) a b : 0 <= a <= b -> b <= Z.of_nat (length l) ->
  exists m, slice_get l a b = Done m /\ Z.of_nat (length m) = b - a.
Proof.
  intros Ha Hb. unfold slice_get. rewrite decide_True by done. eexists. split; [done|]. rewrite length_take, length_drop. lia.
Qed.

(** ** Alignment *)
Lemma align4_eq pos : 0 <= pos < 2 ^ 64 - 3 -> align4 pos = pos + - pos mod 4.
Proof.
  intros Hp. unfold align4. replace (lnot_u 64 3) with (Z.shiftl (Z.ones 62) 2) by (vm_compute; reflexivity).
  assert (Z.land (pos + 3) (Z.shiftl (Z.ones 62) 2) = Z.shiftl (Z.shiftr (pos + 3) 2) 2) as ->.
  { apply Z.bits_inj'. intros n Hn. rewrite Z.land_spec, !Z.shiftl_spec by done.
    destruct (decide (n < 2)); [rewrite !(Z.testbit_neg_r _ (n - 2)) by lia; apply andb_false_r|].
    rewrite Z.shiftr_spec by lia. replace (n - 2 + 2) with n by lia. destruct (decide (n < 64)).
    - rewrite Z.ones_spec_low by lia. apply andb_true_r.
    - rewrite Z.ones_spec_high by lia. rewrite andb_false_r. symmetry.
      rewrite <- (Z.mod_small (pos + 3) (2 ^ 64)) by lia. apply Z.mod_pow2_bits_high. lia. }
  rewrite Z.shiftl_mul_pow2, Z.shiftr_div_pow2 by lia. change (2 ^ 2) with 4.
  pose proof (Z.div_mod (pos + 3) 4). pose proof (Z.mod_pos_bound (pos + 3) 4). pose proof (Z.div_mod (- pos) 4).
  pose proof (Z.mod_pos_bound (- pos) 4). lia.
Qed.

(** ** Hexadecimal *)
Lemma hex_value_range bytes v r : in_u 32 v -> hex_value bytes v = Ok r -> in_u 32 r.
Proof.
  revert v. induction bytes as [|b bytes IH]; intros v Hv E; [by injection E as <-|]. cbn [hex_value] in E.
  destruct (hex_digit b) as [d|] eqn:Hd; [|done]. apply (IH _) in E; [done|]. apply lor_range; [done|by apply wrap_range|].
  unfold hex_digit in Hd. unfold in_u. repeat case_match; try done; simplify_eq; rewrite andb_true_iff, !Z.leb_le in *; lia.
Qed.

Lemma parse_hex8_range bytes r : parse_hex8 bytes = Ok r -> in_u 32 r.
Proof. unfold parse_hex8. destruct (_ <? _); [done|]. by apply hex_value_range. Qed.

Lemma hex_digit_upper d : 0 <= d < 16 -> hex_digit (upper_digit d) = Some d.
Proof.
  intros Hd. unfold hex_digit, upper_digit. destruct (Z.ltb_spec d 10).
  - destruct (Z.leb_spec 48 (48 + d)); [|lia]. destruct (Z.leb_spec (48 + d) 57); [|lia]. cbn. f_equal. lia.
  - destruct (Z.leb_spec 48 (55 + d)); [|lia]. destruct (Z.leb_spec (55 + d) 57); [lia|]. destruct (Z.leb_spec 97 (55 + d)); [lia|].
    destruct (Z.leb_spec 65 (55 + d)); [|lia]. destruct (Z.leb_spec (55 + d) 70); [|lia]. cbn. f_equal. lia.
Qed.

Lemma hex_digits_S n z : hex_digits (S n) z = upper_digit (z / 16 ^ Z.of_nat n mod 16) :: hex_digits n z.
Proof.
  unfold hex_digits. replace (Z.of_nat (S n)) with (Z.of_nat n + 1) by lia. rewrite seqZ_app by lia.
  rewrite reverse_app, fmap_app. done.
Qed.

Lemma length_hex_digits n z : length (hex_digits n z) = n.
Proof. unfold hex_digits. rewrite length_fmap, length_reverse, length_seqZ. lia. Qed.

Lemma hex_value_digits n z v : 0 <= v -> 0 <= z -> v * 16 ^ Z.of_nat n + z mod 16 ^ Z.of_nat n < 2 ^ 32 ->
  hex_value (hex_digits n z) v = Ok (v * 16 ^ Z.of_nat n + z mod 16 ^ Z.of_nat n).
Proof.
  revert v. induction n as [|n IH]; intros v Hv Hz Hb.
  { cbn [hex_digits hex_value]. change (16 ^ Z.of_nat 0) with 1 in *. rewrite Z.mod_1_r. unfold hex_digits. cbn. f_equal. lia. }
  rewrite hex_digits_S. cbn [hex_value]. set (p := 16 ^ Z.of_nat n) in *.
  assert (0 < p) as Hp by (apply Z.pow_pos_nonneg; lia).
  assert (16 ^ Z.of_nat (S n) = 16 * p) as Ep by (unfold p; rewrite Nat2Z.inj_succ, Z.pow_succ_r by lia; done).
  set (d := z / p mod 16). assert (0 <= d < 16) as Hd by (apply Z.mod_pos_bound; lia).
  assert (z mod (16 * p) = d * p + z mod p) as Em.
  { rewrite (Z.mul_comm 16 p), Z.rem_mul_r by lia. unfold d. lia. }
  rewrite Ep, Em in *. rewrite hex_digit_upper by done. pose proof (Z.mod_pos_bound z p Hp).
  assert (v * 16 + d < 2 ^ 32) by nia. rewrite wrap_small by (rewrite Z.shiftl_mul_pow2 by lia; change (2 ^ 4) with 16; lia).
  rewrite lor_shiftl_add by lia. change (2 ^ 4) with 16. rewrite IH by nia. f_equal. lia.
Qed.

Lemma format_08X_digits z : in_u 32 z -> format_08X z = hex_digits 8 z.
Proof.
  intros Hz. unfold format_08X. rewrite Nat.max_l; [done|].
  assert (Z.log2 z < 32). { destruct (decide (z = 0)) as [->|]; [done|]. apply Z.log2_lt_pow2; unfold in_u in Hz; lia. }
  assert (Z.log2 z / 4 < 8) by (apply Z.div_lt_upper_bound; lia). lia.
Qed.

Lemma parse_format z : in_u 32 z -> parse_hex8 (format_08X z) = Ok z.
Proof.
  intros Hz. rewrite format_08X_digits by done. unfold parse_hex8. rewrite length_hex_digits. cbn [Z.ltb].
  rewrite take_ge by (by rewrite length_hex_digits). unfold in_u in Hz. change (8 <? 8) with false.
  rewrite hex_value_digits; [|lia|lia|]; change (16 ^ Z.of_nat 8) with (2 ^ 32); rewrite Z.mod_small by lia; [done|lia].
Qed.

Lemma length_format z : in_u 32 z -> length (format_08X z) = 8%nat.
Proof. intros Hz. by rewrite format_08X_digits, length_hex_digits. Qed.

(** ** Every archive is parsed or refused *)
Lemma parse_entry_total archive pos : Z.of_nat (length archive) < 2 ^ 63 -> 0 <= pos -> pos + 110 <= Z.of_nat (length archive) ->
  returns (parse_entry archive pos) (fun r => forall e pos', r = Ok (Some (e, pos')) -> pos + 110 <= pos').
Proof.
  intros Hlen H0 Hpos. unfold parse_entry.
  destruct (slice_in archive pos (pos + 6)) as (magic & -> & _); [lia..|]. exec_simpl. destruct (negb _); [by apply returns_done|].
  destruct (slice_in archive (pos + 14) (pos + 22)) as (f1 & -> & _); [lia..|]. exec_simpl. destruct (parse_hex8 f1) as [md|]; [|by apply returns_done].
  destruct (slice_in archive (pos + 54) (pos + 62)) as (f2 & -> & _); [lia..|]. exec_simpl.
  destruct (parse_hex8 f2) as [filesize|] eqn:E2; [|by apply returns_done].
  destruct (slice_in archive (pos + 94) (pos + 102)) as (f3 & -> & _); [lia..|]. exec_simpl.
  destruct (parse_hex8 f3) as [namesize|] eqn:E3; [|by apply returns_done].
  apply parse_hex8_range in E2, E3. unfold in_u in E2, E3.
  destruct (Z.ltb_spec (Z.of_nat (length archive)) (pos + 110 + namesize)) as [|Hne]; [by apply returns_done|].
  eapply (returns_bind _ _ (fun t => t = true -> 0 < namesize)).
  { destruct (Z.ltb_spec 0 namesize); [|by apply returns_done].
    destruct (arr_get_in archive (pos + 110 + namesize - 1)) as (b & -> & _); [lia|]. exec_simpl. by apply returns_done. }
  intros terminated Ht. set (e := if terminated then _ else _).
  destruct (slice_in archive (pos + 110) e) as (nm & -> & _); [unfold e; destruct terminated; [specialize (Ht eq_refl)|]; lia..|].
  exec_simpl. destruct (bool_decide _); [by apply returns_done|]. rewrite align4_eq by lia.
  pose proof (Z.mod_pos_bound (- (pos + 110 + namesize)) 4 ltac:(lia)).
  set (start := pos + 110 + namesize + - (pos + 110 + namesize) mod 4) in *. assert (pos + 110 <= start) by lia. clearbody start.
  destruct (Z.ltb_spec (Z.of_nat (length archive)) (start + filesize)) as [|Hde]; [by apply returns_done|].
  destruct (slice_in archive start (start + filesize)) as (dt & -> & _); [lia..|]. exec_simpl. apply returns_done.
  intros e' pos' [= <- <-]. rewrite align4_eq by lia. pose proof (Z.mod_pos_bound (- (start + filesize)) 4 ltac:(lia)). lia.
Qed.

Lemma parse_loop_total fuel archive pos entries : Z.of_nat (length archive) < 2 ^ 63 -> 0 <= pos -> (0 < fuel)%nat ->
  Z.of_nat (length archive) - pos < Z.of_nat fuel -> exists r, parse_loop fuel archive pos entries = Done r.
Proof.
  intros Hlen. revert pos entries. induction fuel as [|fuel IH]; intros pos entries H0 Hf Hfuel; [lia|]. cbn [parse_loop].
  destruct (Z.ltb_spec (Z.of_nat (length archive)) (pos + 110)) as [|Hpos]; [by destruct (bool_decide _); eauto|].
  destruct (parse_entry_total archive pos Hlen H0 Hpos) as (r & -> & Hr). exec_simpl.
  destruct r as [[[e pos']|]|err]; [|by eauto..]. specialize (Hr _ _ eq_refl). apply IH; lia.
Qed.

(** ** The builder *)
Definition aligned (l : list Z) : Prop := Z.of_nat (length l) mod 4 = 0.

Lemma pad4_aligned l : aligned (pad4 l).
Proof.
  unfold aligned, pad4. rewrite length_app, length_replicate, Nat2Z.inj_add, Z2Nat.id by (apply Z.mod_pos_bound; lia).
  rewrite Zplus_mod_idemp_r. replace (Z.of_nat (length l) + - Z.of_nat (length l)) with 0 by lia. done.
Qed.

Lemma pad4_app l1 l2 : aligned l1 -> pad4 (l1 ++ l2) = l1 ++ pad4 l2.
Proof.
  intros H1. unfold pad4. rewrite <- app_assoc. do 4 f_equal. rewrite length_app, Nat2Z.inj_add, Z.opp_add_distr.
  rewrite Zplus_mod, (Z.mod_opp_l_z (Z.of_nat (length l1))) by (done || lia). rewrite Z.add_0_l. apply Zmod_mod.
Qed.

Lemma aligned_app l1 l2 : aligned l1 -> aligned l2 -> aligned (l1 ++ l2).
Proof. unfold aligned. intros H1 H2. rewrite length_app, Nat2Z.inj_add, Zplus_mod, H1, H2. done. Qed.

Lemma length_pad4 l : Z.of_nat (length (pad4 l)) = Z.of_nat (length l) + - Z.of_nat (length l) mod 4.
Proof. unfold pad4. rewrite length_app, length_replicate, Nat2Z.inj_add, Z2Nat.id; [done|]. apply Z.mod_pos_bound. lia. Qed.

(** The bytes of one entry. *)
Definition header_bytes (ino : Z) (name data : list Z) (is_dir : bool) : list Z :=
  format_header [ino; if is_dir then 0x41ED else 0x81A4; 0; 0; 1; 0; if is_dir then 0 else Z.of_nat (length data); 0; 0; 0; 0;
    Z.of_nat (length name) + 1; 0].

Definition entry_bytes (ino : Z) (name data : list Z) (is_dir : bool) : list Z :=
  pad4 (header_bytes ino name data is_dir ++ name ++ [0]) ++ (if is_dir then [] else pad4 data).

Lemma write_entry_bytes ino name data is_dir archive : aligned archive ->
  write_entry ino name data is_dir archive = archive ++ entry_bytes ino name data is_dir /\
  aligned (archive ++ entry_bytes ino name data is_dir).
Proof.
  intros Ha. unfold write_entry, entry_bytes. fold (header_bytes ino name data is_dir).
  rewrite <- app_assoc, (pad4_app archive) by done. split; [|apply aligned_app; [done|]; apply aligned_app; [apply pad4_aligned|]].
  - destruct is_dir; [by rewrite app_nil_r|]. rewrite pad4_app by (apply aligned_app; [done|apply pad4_aligned]). by rewrite <- app_assoc.
  - destruct is_dir; [done|apply pad4_aligned].
Qed.

Definition trailer_bytes : list Z :=
  pad4 (format_header [0; 0; 0; 0; 0; 0; 0; 0; 0; 0; 0; Z.of_nat (length TRAILER) + 1; 0] ++ TRAILER ++ [0]).

Fixpoint entries_bytes (ino : Z) (entries : list (list Z * list Z * bool)) : list Z :=
  match entries with
  | [] => []
  | (name, data, is_dir) :: entries' => entry_bytes ino name data is_dir ++ entries_bytes (u32_add ino 1) entries'
  end.

Lemma write_entries_bytes entries ino archive : aligned archive ->
  write_entries ino entries archive = archive ++ entries_bytes ino entries /\ aligned (archive ++ entries_bytes ino entries).
Proof.
  revert ino archive. induction entries as [|[[name data] is_dir] entries IH]; intros ino archive Ha; cbn [write_entries entries_bytes].
  { by rewrite app_nil_r. }
  destruct (write_entry_bytes ino name data is_dir archive Ha) as [-> Ha']. rewrite app_assoc. by apply IH.
Qed.

Lemma build_bytes entries : build_test_cpio entries = entries_bytes 1 entries ++ trailer_bytes.
Proof.
  unfold build_test_cpio. destruct (write_entries_bytes entries 1 []) as [-> Ha]; [done|]. cbn [app] in *.
  rewrite <- app_assoc, pad4_app by done. done.
Qed.

(** ** The parser on what the builder wrote *)
Lemma length_fields fs : Forall (in_u 32) fs -> length (fs ≫= format_08X) = (8 * length fs)%nat.
Proof. induction 1 as [|f fs Hf _ IH]; [done|]. rewrite bind_cons, length_app, IH, length_format by done. cbn. lia. Qed.

Lemma header_magic pre fs rest : slice_get (pre ++ format_header fs ++ rest) (Z.of_nat (length pre)) (Z.of_nat (length pre) + 6) = Done CPIO_MAGIC.
Proof. unfold format_header. rewrite <- app_assoc. by apply slice_middle. Qed.

Lemma header_field pre fs rest (i : nat) f a b : Forall (in_u 32) fs -> fs !! i = Some f ->
  a = Z.of_nat (length pre) + 6 + 8 * Z.of_nat i -> b = a + 8 ->
  (x ← slice_get (pre ++ format_header fs ++ rest) a b; Done (parse_hex8 x)) = Done (Ok f).
Proof.
  intros Hfs Hf -> ->. rewrite Forall_lookup in Hfs. assert (in_u 32 f) as Hin by eauto.
  assert (pre ++ format_header fs ++ rest =
    (pre ++ CPIO_MAGIC ++ (take i fs ≫= format_08X)) ++ format_08X f ++ (drop (S i) fs ≫= format_08X) ++ rest) as ->.
  { unfold format_header. rewrite <- (take_drop_middle fs i f Hf) at 1. rewrite bind_app, bind_cons. by rewrite <- !app_assoc. }
  assert (length (take i fs) = i) by (apply length_take_le; apply lookup_lt_Some in Hf; lia).
  rewrite slice_middle; [exec_simpl; by rewrite parse_format|..].
  - rewrite !length_app, length_fields by (apply Forall_take, Forall_lookup; eauto). change (length CPIO_MAGIC) with 6%nat. lia.
  - rewrite length_format by done. lia.
Qed.

(** What the parser finds for an entry. *)
Definition found (name data : list Z) (is_dir : bool) : CpioEntry :=
  mkEntry name (if is_dir then [] else data) is_dir (if is_dir then 0x41ED else 0x81A4).

Definition sizes_ok (e : list Z * list Z * bool) : Prop :=
  Z.of_nat (length e.1.1) + 1 < 2 ^ 32 /\ Z.of_nat (length e.1.2) < 2 ^ 32.

Lemma length_header ino name data is_dir : in_u 32 ino -> sizes_ok (name, data, is_dir) ->
  Forall (in_u 32) [ino; if is_dir then 0x41ED else 0x81A4; 0; 0; 1; 0; if is_dir then 0 else Z.of_nat (length data); 0; 0; 0; 0;
    Z.of_nat (length name) + 1; 0] /\
  length (header_bytes ino name data is_dir) = 110%nat.
Proof.
  intros Hi [H1 H2]. cbn in H1, H2. match goal with |- Forall _ ?l /\ _ => assert (Forall (in_u 32) l) as Hf end.
  { repeat (apply Forall_cons; split); try done; try (by destruct is_dir); unfold in_u; destruct is_dir; lia. }
  split; [done|]. unfold header_bytes, format_header. rewrite length_app, length_fields by done. done.
Qed.

(** Parsing with the three fields of the header known. *)
Lemma parse_entry_fields archive pos mode filesize namesize :
  slice_get archive pos (pos + 6) = Done CPIO_MAGIC ->
  (x ← slice_get archive (pos + 14) (pos + 22); Done (parse_hex8 x)) = Done (Ok mode) ->
  (x ← slice_get archive (pos + 54) (pos + 62); Done (parse_hex8 x)) = Done (Ok filesize) ->
  (x ← slice_get archive (pos + 94) (pos + 102); Done (parse_hex8 x)) = Done (Ok namesize) ->
  0 < namesize -> pos + 110 + namesize <= Z.of_nat (length archive) -> arr_get archive (pos + 110 + namesize - 1) = Done 0 ->
  parse_entry archive pos =
    (name ← slice_get archive (pos + 110) (pos + 110 + namesize - 1);
     if bool_decide (name = TRAILER) then Done (Ok None)
     else
       let data_start := align4 (pos + 110 + namesize) in
       if Z.of_nat (length archive) <? data_start + filesize then Done (Err OutOfBounds)
       else
         data ← slice_get archive data_start (data_start + filesize);
         Done (Ok (Some (mkEntry name data (Z.land mode 0xF000 =? 0x4000) mode, align4 (data_start + filesize))))).
Proof.
  intros E0 E1 E2 E3 Hn Hlen Hz. unfold parse_entry. rewrite E0. exec_simpl. rewrite bool_decide_eq_true_2 by done. cbn [negb].
  destruct (slice_get archive (pos + 14) (pos + 22)) as [f1| |]; exec_simpl; try done. injection E1 as ->.
  destruct (slice_get archive (pos + 54) (pos + 62)) as [f2| |]; exec_simpl; try done. injection E2 as ->.
  destruct (slice_get archive (pos + 94) (pos + 102)) as [f3| |]; exec_simpl; try done. injection E3 as ->.
  destruct (Z.ltb_spec (Z.of_nat (length archive)) (pos + 110 + namesize)); [lia|].
  destruct (Z.ltb_spec 0 namesize); [|lia]. rewrite Hz. exec_simpl. done.
Qed.

Lemma parse_entry_bytes pre suf ino name data is_dir : aligned pre -> in_u 32 ino -> sizes_ok (name, data, is_dir) ->
  Z.of_nat (length (pre ++ entry_bytes ino name data is_dir ++ suf)) < 2 ^ 63 -> name <> TRAILER ->
  parse_entry (pre ++ entry_bytes ino name data is_dir ++ suf) (Z.of_nat (length pre)) =
    Done (Ok (Some (found name data is_dir, Z.of_nat (length (pre ++ entry_bytes ino name data is_dir))))).
Proof.
  intros Ha Hi Hs Hlen Hname. destruct (length_header ino name data is_dir Hi Hs) as [Hf Hh]. destruct Hs as [Hs1 Hs2]. cbn in Hs1, Hs2.
  set (H := header_bytes ino name data is_dir) in *. set (file := if is_dir then [] else data).
  set (p1 := replicate (Z.to_nat (- Z.of_nat (length (H ++ name ++ [0])) mod 4)) 0).
  set (p2 := if is_dir then [] else replicate (Z.to_nat (- Z.of_nat (length data) mod 4)) 0).
  assert (entry_bytes ino name data is_dir = H ++ name ++ [0] ++ p1 ++ file ++ p2) as Ee.
  { unfold entry_bytes, pad4. fold H p1. unfold file, p2. rewrite <- !app_assoc. by destruct is_dir. }
  rewrite Ee in *. rewrite <- !app_assoc in *. set (pos := Z.of_nat (length pre)) in *. set (ns := Z.of_nat (length name) + 1).
  assert (pos mod 4 = 0) as Hp4 by exact Ha.
  assert (Z.of_nat (length p1) = - (pos + 110 + ns) mod 4) as Hl1.
  { unfold p1. rewrite length_replicate, Z2Nat.id by (apply Z.mod_pos_bound; lia). rewrite !length_app, Hh. cbn [length].
    replace (- (pos + 110 + ns)) with (- Z.of_nat (110 + (length name + 1)) + - (pos / 4) * 4) by
      (unfold ns; pose proof (Z.div_mod pos 4); lia). by rewrite Z_mod_plus_full. }
  assert (Z.of_nat (length (file ++ p2)) = Z.of_nat (length file) + - Z.of_nat (length file) mod 4) as Hl2.
  { unfold file, p2. destruct is_dir; [done|]. apply (length_pad4 data). }
  set (fs := if is_dir then 0 else Z.of_nat (length data)). assert (fs = Z.of_nat (length file)) as Efs by (unfold fs, file; by destruct is_dir).
  set (md := if is_dir then 0x41ED else 0x81A4).
  unfold H, header_bytes in Hlen |- *. fold md fs ns in Hf, Hlen |- *. set (fields := [ino; md; 0; 0; 1; 0; fs; 0; 0; 0; 0; ns; 0]) in *.
  set (rest := name ++ [0] ++ p1 ++ file ++ p2 ++ suf) in *.
  assert (length (format_header fields) = 110%nat) as Hfh by exact Hh. clearbody H. set (FH := format_header fields) in *.
  assert (Z.of_nat (length (pre ++ FH ++ rest)) = pos + 110 + ns + Z.of_nat (length p1) + Z.of_nat (length (file ++ p2)) + Z.of_nat (length suf)) as El.
  { unfold rest. rewrite !length_app, Hfh. cbn [length]. unfold pos, ns. lia. }
  pose proof (Z.mod_pos_bound (- (pos + 110 + ns)) 4 ltac:(lia)).
  rewrite (parse_entry_fields _ pos md fs ns).
  2: apply header_magic.
  2: { eapply (header_field pre fields rest 1); [done|reflexivity|lia|lia]. }
  2: { eapply (header_field pre fields rest 6); [done|reflexivity|lia|lia]. }
  2: { eapply (header_field pre fields rest 11); [done|reflexivity|lia|lia]. }
  2: { unfold ns. lia. }
  2: { lia. }
  2: { apply arr_get_at; [unfold pos, ns; lia|]. unfold rest. rewrite (app_assoc FH), (app_assoc pre).
    apply list_lookup_middle. rewrite !length_app, Hfh. unfold pos, ns. lia. }
  assert (slice_get (pre ++ FH ++ rest) (pos + 110) (pos + 110 + ns - 1) = Done name) as ->.
  { unfold rest. rewrite app_assoc. apply slice_middle; [rewrite length_app, Hfh; unfold pos; lia|unfold ns; lia]. }
  exec_simpl. rewrite bool_decide_eq_false_2 by done. cbn zeta. rewrite (align4_eq (pos + 110 + ns)) by (unfold pos, ns in *; lia).
  rewrite <- Hl1. set (start := pos + 110 + ns + Z.of_nat (length p1)) in *.
  destruct (Z.ltb_spec (Z.of_nat (length (pre ++ FH ++ rest))) (start + fs)) as [Hlt|Hge].
  { exfalso. rewrite El, length_app in Hlt. lia. }
  assert (slice_get (pre ++ FH ++ rest) start (start + fs) = Done file) as ->.
  { unfold rest. replace (pre ++ FH ++ name ++ [0] ++ p1 ++ file ++ p2 ++ suf) with ((pre ++ FH ++ name ++ [0] ++ p1) ++ file ++ p2 ++ suf)
      by (by rewrite <- !app_assoc). apply slice_middle; [|lia]. rewrite !length_app, Hfh. cbn [length]. unfold start, pos, ns. lia. }
  exec_simpl. do 4 f_equal; [unfold found, file, md; by destruct is_dir|].
  assert (start mod 4 = 0) as Hst.
  { unfold start. rewrite Hl1, Zplus_mod_idemp_r. replace (pos + 110 + ns + - (pos + 110 + ns)) with 0 by lia. done. }
  rewrite align4_eq by (unfold start, pos, ns in *; lia). rewrite !length_app in *. cbn [length] in *.
  replace (- (start + fs)) with (- fs + - (start / 4) * 4) by (pose proof (Z.div_mod start 4); lia). rewrite Z_mod_plus_full, Efs.
  rewrite !Nat2Z.inj_add. rewrite Nat2Z.inj_add in Hl2. rewrite Hfh. fold pos. unfold start, ns. lia.
Qed.

Lemma parse_trailer pre : parse_entry (pre ++ trailer_bytes) (Z.of_nat (length pre)) = Done (Ok None).
Proof.
  set (fields := [0; 0; 0; 0; 0; 0; 0; 0; 0; 0; 0; 11; 0]). set (FH := format_header fields). set (pos := Z.of_nat (length pre)).
  assert (trailer_bytes = FH ++ TRAILER ++ [0; 0; 0; 0]) as -> by (vm_compute; reflexivity).
  assert (Forall (in_u 32) fields) as Hf by (repeat (apply Forall_cons; split; [done|]); done).
  assert (length FH = 110%nat) as Hfh by (vm_compute; reflexivity). set (rest := TRAILER ++ [0; 0; 0; 0]).
  rewrite (parse_entry_fields _ pos 0 0 11).
  2: apply header_magic.
  2: { eapply (header_field pre fields rest 1); [done|reflexivity|lia|lia]. }
  2: { eapply (header_field pre fields rest 6); [done|reflexivity|lia|lia]. }
  2: { eapply (header_field pre fields rest 11); [done|reflexivity|lia|lia]. }
  2: lia.
  2: { rewrite !length_app, Hfh. change (length rest) with 14%nat. lia. }
  2: { apply arr_get_at; [lia|]. unfold rest. rewrite (app_assoc FH), (app_assoc pre).
    apply list_lookup_middle. rewrite !length_app, Hfh. change (length TRAILER) with 10%nat. lia. }
  assert (slice_get (pre ++ FH ++ rest) (pos + 110) (pos + 110 + 11 - 1) = Done TRAILER) as ->; [|done].
  unfold rest. rewrite app_assoc. apply slice_middle; [rewrite length_app, Hfh; lia|]. change (length TRAILER) with 10%nat. lia.
Qed.

Definition expected (entries : list (list Z * list Z * bool)) : list CpioEntry :=
  filter (fun e => name e <> str_bytes ".") ((fun '(name, data, is_dir) => found name data is_dir) <$> entries).

Lemma parse_loop_bytes entries fuel pre ino acc : aligned pre -> in_u 32 ino ->
  Forall (fun e => sizes_ok e /\ e.1.1 <> TRAILER) entries -> (length entries < fuel)%nat ->
  Z.of_nat (length (pre ++ entries_bytes ino entries ++ trailer_bytes)) < 2 ^ 63 ->
  parse_loop fuel (pre ++ entries_bytes ino entries ++ trailer_bytes) (Z.of_nat (length pre)) acc = Done (Ok (acc ++ expected entries)).
Proof.
  revert fuel pre ino acc. induction entries as [|[[nm dt] is_dir] entries IH]; intros fuel pre ino acc Ha Hi Hes Hfuel Hlen;
    (destruct fuel as [|fuel]; [cbn in Hfuel; lia|]); cbn [entries_bytes parse_loop].
  - destruct (Z.ltb_spec (Z.of_nat (length (pre ++ [] ++ trailer_bytes))) (Z.of_nat (length pre) + 110)) as [Hlt|_].
    { exfalso. rewrite length_app in Hlt. change (length ([] ++ trailer_bytes)) with 124%nat in Hlt. lia. }
    cbn [app]. rewrite parse_trailer. exec_simpl. unfold expected. cbn. by rewrite app_nil_r.
  - apply Forall_cons in Hes as [[Hs Hne] Hes]. cbn [fst] in Hne. cbn [entries_bytes] in Hlen. rewrite <- app_assoc in *.
    set (rest := entries_bytes (u32_add ino 1) entries ++ trailer_bytes) in *.
    destruct (Z.ltb_spec (Z.of_nat (length (pre ++ entry_bytes ino nm dt is_dir ++ rest))) (Z.of_nat (length pre) + 110)) as [Hlt|_].
    { exfalso. destruct (length_header ino nm dt is_dir Hi Hs) as [_ Hh]. unfold entry_bytes, pad4 in Hlt. rewrite !length_app, Hh in Hlt. lia. }
    rewrite parse_entry_bytes by done. exec_simpl. unfold rest in *. rewrite app_assoc in *. rewrite IH; [|by apply write_entry_bytes|by apply wrap_range|done|cbn in Hfuel; lia|done].
    f_equal. f_equal. unfold expected. rewrite fmap_cons, filter_cons. cbn [found name].
    destruct (decide (nm = str_bytes ".")) as [->|Hdot].
    + by rewrite bool_decide_eq_true_2, decide_False by auto.
    + rewrite bool_decide_eq_false_2, decide_True by done. by rewrite <- app_assoc.
Qed.

(** C19. The archive parser terminates and never panics: on any bytes whatever, it
    returns its entries or an error. *)
Theorem every_archive_is_judged archive : Z.of_nat (length archive) < 2 ^ 63 -> exists r, parse_cpio archive = Done r.
Proof. intros Hlen. apply parse_loop_total; lia. Qed.

Lemma every_archive_is_judged_witness : exists r, parse_cpio (replicate 200 48) = Done r.
Proof. apply every_archive_is_judged. vm_compute. reflexivity. Defined.

(** An archive that the builder writes is read back: the parser finds the
    same names, kinds and contents in the same order (without [.], which it
    skips). *)
Theorem archives_round_trip entries :
  Forall (fun e => sizes_ok e /\ e.1.1 <> TRAILER) entries -> Z.of_nat (length (build_test_cpio entries)) < 2 ^ 63 ->
  parse_cpio (build_test_cpio entries) = Done (Ok (expected entries)).
Proof.
  intros Hes Hlen. rewrite build_bytes in *. unfold parse_cpio.
  apply (parse_loop_bytes entries _ [] 1 []); [done|done|done| |done].
  assert (length entries <= length (entries_bytes 1 entries))%nat; [|rewrite length_app; lia].
  assert (forall ino, in_u 32 ino -> length entries <= length (entries_bytes ino entries))%nat as H; [|by apply H].
  clear Hlen. induction entries as [|[[nm dt] d] entries IH]; intros ino Hi; [done|]. apply Forall_cons in Hes as [[Hs _] Hes].
  cbn [entries_bytes length]. rewrite length_app. specialize (IH Hes (u32_add ino 1) ltac:(by apply wrap_range)).
  destruct (length_header ino nm dt d Hi Hs) as [_ Hh]. unfold entry_bytes, pad4. rewrite !length_app, Hh. lia.
Qed.

End CpioRuns.
