(* ===== verification/Vfs.v ===== *)
(** * The virtual file system (src/kernel/src/vfs/)

    The tables of inodes, mounts and open files, the RAM file system (tmpfs),
    the device files (devfs), and the operations of ops.rs and mod.rs on them.
    Names and paths are lists of bytes. The five global tables are the record
    [Vfs.t]. An array with a length beside it, of which only the prefix is ever
    read, is the list of that prefix. *)

From S2P Require Import Prelude Cpio.

(** [core::str::from_utf8]: the well-formed byte sequences. *)
Module Utf8.

Definition within (lo hi b : Z) : bool := (lo <=? b) && (b <=? hi).

Fixpoint valid (bs : list Z) : bool :=
  match bs with
  | [] => true
  | b :: r1 =>
      if b <? 0x80 then valid r1
      else
        match r1 with
        | [] => false
        | c1 :: r2 =>
            if within 0xC2 0xDF b then within 0x80 0xBF c1 && valid r2
            else
              match r2 with
              | [] => false
              | c2 :: r3 =>
                  if within 0xE0 0xEF b then
                    (if b =? 0xE0 then within 0xA0 0xBF c1 else if b =? 0xED then within 0x80 0x9F c1 else within 0x80 0xBF c1) &&
                    within 0x80 0xBF c2 && valid r3
                  else
                    match r3 with
                    | [] => false
                    | c3 :: r4 =>
                        within 0xF0 0xF4 b &&
                        (if b =? 0xF0 then within 0x90 0xBF c1 else if b =? 0xF4 then within 0x80 0x8F c1 else within 0x80 0xBF c1) &&
                        within 0x80 0xBF c2 && within 0x80 0xBF c3 && valid r4
                    end
              end
        end
  end.

End Utf8.

(** ** Inodes (inode.rs) *)
Module InodeTable.

Definition MAX_INODES : Z := 1024.
Definition INVALID : Z := 0.

Inductive InodeType := File | Directory | CharDevice.

Definition type_u8 (ty : InodeType) : Z := match ty with File => 0 | Directory => 1 | CharDevice => 2 end.

#[export] Instance inode_type_eq : EqDecision InodeType.
Proof. solve_decision. Defined.

Record Inode := mkInode {
  inode_id : Z;
  inode_type : InodeType;
  size : Z;
  fs_id : Z;
  fs_data : Z;
  active : bool;
  generation : Z;
}.

Definition empty : Inode := mkInode INVALID File 0 0 0 false 0.

Definition set_size (v : Z) (i : Inode) : Inode := mkInode (inode_id i) (inode_type i) v (fs_id i) (fs_data i) (active i) (generation i).
Definition set_fs_id (v : Z) (i : Inode) : Inode := mkInode (inode_id i) (inode_type i) (size i) v (fs_data i) (active i) (generation i).

Inductive InodeError := TableFull | NotFound | NotActive | StaleGeneration.

Record t := mk {
  entries : list Inode;
  count : Z;
  next_id : Z;
}.

Definition new : t := mk (replicate (Z.to_nat MAX_INODES) empty) 0 1.

Definition alloc (ty : InodeType) (fs data : Z) (tb : t) : result Z InodeError * t :=
  match list_find (fun e => active e = false) (entries tb) with
  | Some (i, e) =>
      let id := next_id tb in
      (Ok id, mk (<[i := mkInode id ty 0 fs data true (generation e)]> (entries tb)) (u64_add (count tb) 1) (u32_add id 1))
  | None => (Err TableFull, tb)
  end.

Definition find (tb : t) (id : Z) : option (nat * Inode) :=
  list_find (fun e => active e = true /\ inode_id e = id) (entries tb).

Definition get (tb : t) (id : Z) : option Inode := snd <$> find tb id.

(** An assignment through [get_mut]. *)
Definition update (tb : t) (id : Z) (f : Inode -> Inode) : t :=
  match find tb id with
  | Some (i, e) => mk (<[i := f e]> (entries tb)) (count tb) (next_id tb)
  | None => tb
  end.

Definition release (id : Z) (tb : t) : result unit InodeError * t :=
  match find tb id with
  | Some (i, e) =>
      (Ok tt, mk (<[i := mkInode (inode_id e) (inode_type e) (size e) (fs_id e) (fs_data e) false (wrap 16 (generation e + 1))]> (entries tb))
        (wrap 64 (count tb - 1)) (next_id tb))
  | None => (Err NotFound, tb)
  end.

Definition clear (tb : t) : t := mk ((fun _ => empty) <$> entries tb) 0 1.

End InodeTable.

(** ** Open files (open_file.rs) *)
Module OpenFileTable.

Definition MAX_OPEN_FILES : Z := 4096.

Definition READ : Z := 1.
Definition WRITE : Z := 2.
Definition APPEND : Z := 4.
Definition CREATE : Z := 8.

Definition contains (flags flag : Z) : bool := negb (Z.land flags flag =? 0).

Record OpenFile := mkFile {
  inode_id : Z;
  offset : Z;
  flags : Z;
  ref_count : Z;
  active : bool;
}.

Definition empty : OpenFile := mkFile InodeTable.INVALID 0 0 0 false.

Definition set_offset (v : Z) (f : OpenFile) : OpenFile := mkFile (inode_id f) v (flags f) (ref_count f) (active f).

Inductive OpenFileError := TableFull | NotFound | NotActive.

Record t := mk {
  entries : list OpenFile;
  count : Z;
}.

Definition new : t := mk (replicate (Z.to_nat MAX_OPEN_FILES) empty) 0.

(** Slot 0 is never used. *)
Definition alloc (id fl : Z) (tb : t) : result Z OpenFileError * t :=
  match list_find (fun e => active e = false) (drop 1 (entries tb)) with
  | Some (i, _) => (Ok (Z.of_nat (S i)), mk (<[S i := mkFile id 0 fl 1 true]> (entries tb)) (u64_add (count tb) 1))
  | None => (Err TableFull, tb)
  end.

Definition get (tb : t) (id : Z) : option OpenFile :=
  f ← entries tb !! Z.to_nat id;
  if active f then Some f else None.

Definition update (tb : t) (id : Z) (g : OpenFile -> OpenFile) : t :=
  match get tb id with
  | Some f => mk (<[Z.to_nat id := g f]> (entries tb)) (count tb)
  | None => tb
  end.

Definition release (id : Z) (tb : t) : result unit OpenFileError * t :=
  match entries tb !! Z.to_nat id with
  | None => (Err NotFound, tb)
  | Some f =>
      if negb (active f) then (Err NotActive, tb)
      else
        let refs := wrap 16 (ref_count f - 1) in
        if refs =? 0 then
          (Ok tt, mk (<[Z.to_nat id := mkFile InodeTable.INVALID (offset f) (flags f) refs false]> (entries tb)) (wrap 64 (count tb - 1)))
        else (Ok tt, mk (<[Z.to_nat id := mkFile (inode_id f) (offset f) (flags f) refs true]> (entries tb)) (count tb))
  end.

Definition clear (tb : t) : t := mk ((fun _ => empty) <$> entries tb) 0.

End OpenFileTable.

(** ** Mounts (mount.rs) *)
Module MountTable.

Definition MAX_MOUNTS : Z := 64.
Definition MAX_MOUNT_PATH : Z := 64.

Inductive FsType := Tmpfs | Devfs.

Record MountEntry := mkMount {
  path : list Z;
  fs_id : Z;
  fs_type : FsType;
  root_inode : Z;
  active : bool;
}.

Definition empty : MountEntry := mkMount [] 0 Tmpfs InodeTable.INVALID false.

#[global] Instance mount_entry_inhabited : Inhabited MountEntry := populate empty.

Inductive MountError := TableFull | PathTooLong | NotFound.

Record t := mk {
  entries : list MountEntry;
  count : Z;
  next_fs_id : Z;
}.

Definition new : t := mk (replicate (Z.to_nat MAX_MOUNTS) empty) 0 1.

Definition mount (p : list Z) (ty : FsType) (root : Z) (tb : t) : result Z MountError * t :=
  if MAX_MOUNT_PATH <? Z.of_nat (length p) then (Err PathTooLong, tb)
  else
    match list_find (fun e => active e = false) (entries tb) with
    | Some (i, _) =>
        let fs := next_fs_id tb in
        (Ok fs, mk (<[i := mkMount p fs ty root true]> (entries tb)) (u64_add (count tb) 1) (wrap 16 (fs + 1)))
    | None => (Err TableFull, tb)
    end.

Definition SLASH : Z := 47.

(** Whether the path lies under the mount point: it starts with it, and the
    match ends at a component, unless the mount point is the root. *)
Definition under (p mount_path : list Z) : bool :=
  bool_decide (take (length mount_path) p = mount_path) && (length mount_path <=? length p)%nat &&
  (bool_decide (mount_path = [SLASH]) || (length p =? length mount_path)%nat || (p !!! length mount_path =? SLASH)).

Fixpoint best_mount (i : nat) (es : list MountEntry) (p : list Z) (best : option nat) (best_len : nat) : option nat :=
  match es with
  | [] => best
  | e :: es' =>
      if active e && under p (path e) && (best_len <? length (path e))%nat
      then best_mount (S i) es' p (Some i) (length (path e))
      else best_mount (S i) es' p best best_len
  end.

(** The index of the mount and the rest of the path; a rest that does not fit the
    64 bytes for it panics. *)
Definition resolve (tb : t) (p : list Z) : exec (option (nat * list Z)) :=
  match best_mount 0 (entries tb) p None 0 with
  | None => Done None
  | Some idx =>
      let n := length (path (entries tb !!! idx)) in
      if (length p <=? n)%nat then Done (Some (idx, []))
      else
        let start := if p !!! n =? SLASH then S n else n in
        if MAX_MOUNT_PATH <? Z.of_nat (length (drop start p)) then Panicked
        else Done (Some (idx, drop start p))
  end.

Definition get (tb : t) (i : nat) : option MountEntry :=
  e ← entries tb !! i;
  if active e then Some e else None.

Definition get_by_fs_id (tb : t) (fs : Z) : option MountEntry :=
  snd <$> list_find (fun e => active e = true /\ fs_id e = fs) (entries tb).

Definition clear (tb : t) : t := mk ((fun _ => empty) <$> entries tb) 0 1.

End MountTable.

(** ** The RAM file system (tmpfs.rs) *)
Module Tmpfs.

Record DirEntry := mkDirEntry {
  name : list Z;
  inode_id : Z;
}.

Record t := mk {
  fs_id : Z;
  root_inode : Z;
  dirs : gmap Z (list DirEntry);
  files : gmap Z (list Z);
  initialized : bool;
}.

Definition new : t := mk 0 InodeTable.INVALID ∅ ∅ false.

Definition set_dirs (v : gmap Z (list DirEntry)) (fs : t) : t := mk (fs_id fs) (root_inode fs) v (files fs) (initialized fs).
Definition set_files (v : gmap Z (list Z)) (fs : t) : t := mk (fs_id fs) (root_inode fs) (dirs fs) v (initialized fs).

Definition init (id root : Z) (fs : t) : t := mk id root (<[root := []]> (dirs fs)) (files fs) true.

Definition register_dir (id : Z) (fs : t) : t := set_dirs (<[id := []]> (dirs fs)) fs.

Definition add_dir_entry (parent : Z) (nm : list Z) (child : Z) (fs : t) : t :=
  match dirs fs !! parent with
  | Some dir =>
      let name_str := if Utf8.valid nm then nm else str_bytes "?" in
      set_dirs (<[parent := dir ++ [mkDirEntry name_str child]]> (dirs fs)) fs
  | None => fs
  end.

Definition create_file_with_data (id : Z) (data : list Z) (fs : t) : t := set_files (<[id := data]> (files fs)) fs.

Definition lookup (fs : t) (dir : Z) (nm : list Z) : option Z :=
  if Utf8.valid nm then
    es ← dirs fs !! dir;
    '(_, e) ← list_find (fun e => name e = nm) es;
    Some (inode_id e)
  else None.

(** The bytes that the call puts at the start of the buffer. *)
Definition read (fs : t) (id offset buf_len : Z) : list Z :=
  match files fs !! id with
  | Some data => take (Z.to_nat buf_len) (drop (Z.to_nat offset) data)
  | None => []
  end.

Definition file_size (fs : t) (id : Z) : Z :=
  match files fs !! id with Some data => Z.of_nat (length data) | None => 0 end.

Definition write (id offset : Z) (data : list Z) (fs : t) : exec (Z * t) :=
  let file := default [] (files fs !! id) in
  let end_ := u64_add offset (Z.of_nat (length data)) in
  let file := if Z.of_nat (length file) <? end_ then resize (Z.to_nat end_) 0 file else file in
  file ← slice_set file offset end_ data;
  Done (Z.of_nat (length data), set_files (<[id := file]> (files fs)) fs).

Definition readdir (fs : t) (dir : Z) : option (list DirEntry) := dirs fs !! dir.

Definition is_dir (fs : t) (id : Z) : bool := bool_decide (is_Some (dirs fs !! id)).
Definition is_file (fs : t) (id : Z) : bool := bool_decide (is_Some (files fs !! id)).

Definition clear (fs : t) : t := mk 0 InodeTable.INVALID ∅ ∅ false.

End Tmpfs.

(** ** Devices (devfs.rs) *)
Module Devfs.

Inductive DeviceType := Null | Zero | Random.

Definition type_u64 (d : DeviceType) : Z := match d with Null => 0 | Zero => 1 | Random => 2 end.

Record t := mk {
  fs_id : Z;
  root_inode : Z;
  null_inode : Z;
  zero_inode : Z;
  random_inode : Z;
  lfsr_state : Z;
  initialized : bool;
}.

Definition new : t := mk 0 0 0 0 0 0xDEADBEEFCAFE1234 false.

(** [alloc(..).expect(..)]. *)
Definition expect_inode (ty : InodeTable.InodeType) (fs data : Z) (inodes : InodeTable.t) : exec (Z * InodeTable.t) :=
  match InodeTable.alloc ty fs data inodes with
  | (Ok id, inodes) => Done (id, inodes)
  | (Err _, _) => Panicked
  end.

Definition init (fs root : Z) (d : t) (inodes : InodeTable.t) : exec (t * InodeTable.t) :=
  '(n, inodes) ← expect_inode InodeTable.CharDevice fs (type_u64 Null) inodes;
  '(z, inodes) ← expect_inode InodeTable.CharDevice fs (type_u64 Zero) inodes;
  '(r, inodes) ← expect_inode InodeTable.CharDevice fs (type_u64 Random) inodes;
  Done (mk fs root n z r (lfsr_state d) true, inodes).

Definition lookup (d : t) (nm : list Z) : option Z :=
  if bool_decide (nm = str_bytes "null") then Some (null_inode d)
  else if bool_decide (nm = str_bytes "zero") then Some (zero_inode d)
  else if bool_decide (nm = str_bytes "random") then Some (random_inode d)
  else None.

Definition device_type (d : t) (id : Z) : option DeviceType :=
  if id =? null_inode d then Some Null
  else if id =? zero_inode d then Some Zero
  else if id =? random_inode d then Some Random
  else None.

(** One step of the shift register. *)
Definition next_random_byte (state : Z) : Z * Z :=
  let bit := Z.land state 1 in
  let state := Z.shiftr state 1 in
  let state := if negb (bit =? 0) then Z.lxor state 0xD800000000000000 else state in
  (Z.land state 0xFF, state).

Fixpoint random_bytes (n : nat) (state : Z) : list Z * Z :=
  match n with
  | O => ([], state)
  | S n' =>
      let '(b, state) := next_random_byte state in
      let '(bs, state) := random_bytes n' state in
      (b :: bs, state)
  end.

Definition read (id buf_len : Z) (d : t) : list Z * t :=
  match device_type d id with
  | Some Null | None => ([], d)
  | Some Zero => (replicate (Z.to_nat buf_len) 0, d)
  | Some Random =>
      let '(bs, state) := random_bytes (Z.to_nat buf_len) (lfsr_state d) in
      (bs, mk (fs_id d) (root_inode d) (null_inode d) (zero_inode d) (random_inode d) state (initialized d))
  end.

Definition write (d : t) (id len : Z) : Z :=
  match device_type d id with Some _ => len | None => 0 end.

End Devfs.

(** ** Operations (ops.rs, mod.rs) *)
Module Vfs.
Import InodeTable.

Record t := mk {
  INODES : InodeTable.t;
  MOUNTS : MountTable.t;
  OPEN_FILES : OpenFileTable.t;
  TMPFS : Tmpfs.t;
  DEVFS : Devfs.t;
}.

Definition new : t := mk InodeTable.new MountTable.new OpenFileTable.new Tmpfs.new Devfs.new.

Definition set_inodes (v : InodeTable.t) (s : t) : t := mk v (MOUNTS s) (OPEN_FILES s) (TMPFS s) (DEVFS s).
Definition set_open_files (v : OpenFileTable.t) (s : t) : t := mk (INODES s) (MOUNTS s) v (TMPFS s) (DEVFS s).
Definition set_tmpfs (v : Tmpfs.t) (s : t) : t := mk (INODES s) (MOUNTS s) (OPEN_FILES s) v (DEVFS s).
Definition set_devfs (v : Devfs.t) (s : t) : t := mk (INODES s) (MOUNTS s) (OPEN_FILES s) (TMPFS s) v.

Inductive VfsError :=
| NotFound | NotAFile | NotADirectory | PermissionDenied | InvalidPath | NoSpace | BadFileDescriptor | IoError.

#[export] Instance vfs_error_eq : EqDecision VfsError.
Proof. solve_decision. Defined.

(** [StatBuf]; the padding is zero. *)
Record StatBuf := mkStat {
  st_inode_id : Z;
  st_inode_type : Z;
  st_size : Z;
  st_fs_id : Z;
}.

(** [slice::split(|b| b == '/')]. *)
Fixpoint split_slash (p : list Z) : list (list Z) :=
  match p with
  | [] => [[]]
  | b :: p' =>
      if b =? MountTable.SLASH then [] :: split_slash p'
      else
        match split_slash p' with
        | c :: cs => (b :: c) :: cs
        | [] => [[b]]
        end
  end.

(** The walk through the directories; empty components are skipped. *)
Fixpoint walk (fs : Tmpfs.t) (current : Z) (components : list (list Z)) : option Z :=
  match components with
  | [] => Some current
  | c :: cs =>
      if bool_decide (c = []) then walk fs current cs
      else
        next ← Tmpfs.lookup fs current c;
        walk fs next cs
  end.

Definition resolve_path (s : t) (p : list Z) : exec (result Z VfsError) :=
  if negb (bool_decide (head p = Some MountTable.SLASH)) then Done (Err InvalidPath)
  else
    r ← MountTable.resolve (MOUNTS s) p;
    match r with
    | None => Done (Err NotFound)
    | Some (idx, remaining) =>
        match MountTable.get (MOUNTS s) idx with
        | None => Done (Err NotFound)
        | Some m =>
            if bool_decide (remaining = []) then Done (Ok (MountTable.root_inode m))
            else
              match
                match MountTable.fs_type m with
                | MountTable.Tmpfs => walk (TMPFS s) (MountTable.root_inode m) (split_slash remaining)
                | MountTable.Devfs => Devfs.lookup (DEVFS s) remaining
                end
              with
              | Some id => Done (Ok id)
              | None => Done (Err NotFound)
              end
        end
    end.

Definition vfs_open (p : list Z) (fl : Z) (s : t) : exec (result Z VfsError * t) :=
  r ← resolve_path s p;
  match r with
  | Err e => Done (Err e, s)
  | Ok id =>
      match get (INODES s) id with
      | None => Done (Err NotFound, s)
      | Some _ =>
          match OpenFileTable.alloc id fl (OPEN_FILES s) with
          | (Ok fid, tb) => Done (Ok fid, set_open_files tb s)
          | (Err _, _) => Done (Err NoSpace, s)
          end
      end
  end.

(** The offset moves on by the bytes read or written. *)
Definition advance (fid n : Z) (s : t) : t :=
  set_open_files (OpenFileTable.update (OPEN_FILES s) fid
    (fun f => OpenFileTable.set_offset (u64_add (OpenFileTable.offset f) n) f)) s.

(** The bytes read are those at the start of the buffer, of length [buf_len]. *)
Definition vfs_read (fid buf_len : Z) (s : t) : result (list Z) VfsError * t :=
  match OpenFileTable.get (OPEN_FILES s) fid with
  | None => (Err BadFileDescriptor, s)
  | Some f =>
      match get (INODES s) (OpenFileTable.inode_id f) with
      | None => (Err NotFound, s)
      | Some inode =>
          let '(bytes, s) :=
            match inode_type inode with
            | File | Directory =>
                (Tmpfs.read (TMPFS s) (OpenFileTable.inode_id f) (OpenFileTable.offset f) buf_len, s)
            | CharDevice =>
                if Devfs.fs_id (DEVFS s) =? fs_id inode then
                  let '(bytes, d) := Devfs.read (OpenFileTable.inode_id f) buf_len (DEVFS s) in (bytes, set_devfs d s)
                else ([], s)
            end in
          (Ok bytes, advance fid (Z.of_nat (length bytes)) s)
      end
  end.

Definition vfs_write (fid : Z) (data : list Z) (s : t) : exec (result Z VfsError * t) :=
  match OpenFileTable.get (OPEN_FILES s) fid with
  | None => Done (Err BadFileDescriptor, s)
  | Some f =>
      let id := OpenFileTable.inode_id f in
      match get (INODES s) id with
      | None => Done (Err NotFound, s)
      | Some inode =>
          match inode_type inode with
          | File =>
              let write_offset :=
                if OpenFileTable.contains (OpenFileTable.flags f) OpenFileTable.APPEND then Tmpfs.file_size (TMPFS s) id
                else OpenFileTable.offset f in
              '(written, fs) ← Tmpfs.write id write_offset data (TMPFS s);
              let s := set_inodes (update (INODES s) id (set_size (Tmpfs.file_size fs id))) (set_tmpfs fs s) in
              Done (Ok written, advance fid written s)
          | CharDevice =>
              let written := if Devfs.fs_id (DEVFS s) =? fs_id inode then Devfs.write (DEVFS s) id (Z.of_nat (length data)) else 0 in
              Done (Ok written, advance fid written s)
          | Directory => Done (Err NotAFile, s)
          end
      end
  end.

Definition vfs_close (fid : Z) (s : t) : result unit VfsError * t :=
  match OpenFileTable.release fid (OPEN_FILES s) with
  | (Ok _, tb) => (Ok tt, set_open_files tb s)
  | (Err _, _) => (Err BadFileDescriptor, s)
  end.

Definition vfs_stat_inode (s : t) (id : Z) : result StatBuf VfsError :=
  match get (INODES s) id with
  | None => Err NotFound
  | Some i => Ok (mkStat (inode_id i) (type_u8 (inode_type i)) (size i) (fs_id i))
  end.

Definition vfs_stat (s : t) (p : list Z) : exec (result StatBuf VfsError) :=
  r ← resolve_path s p;
  match r with
  | Err e => Done (Err e)
  | Ok id => Done (vfs_stat_inode s id)
  end.

Definition vfs_fstat (s : t) (fid : Z) : result StatBuf VfsError :=
  match OpenFileTable.get (OPEN_FILES s) fid with
  | None => Err BadFileDescriptor
  | Some f => vfs_stat_inode s (OpenFileTable.inode_id f)
  end.

(** *** Listing a directory *)

(** The bytes of a [DirentBuf]. *)
Definition dirent (id : Z) (nm : list Z) (itype : Z) : list Z :=
  le_bytes 4 id ++ le_bytes 2 (wrap 16 (Z.of_nat (length nm))) ++ [itype; 0] ++ resize 56 0 nm.

Definition DIRENT_SIZE : Z := 64.

(** The loop over the entries: those before [offset] are skipped, and as many as
    fit are written. It yields the bytes and the index it stopped at. *)
Fixpoint list_entries (es : list (Z * list Z * Z)) (offset index buf_len : Z) (out : list Z) : list Z * Z :=
  match es with
  | [] => (out, index)
  | (id, nm, itype) :: es' =>
      if index <? offset then list_entries es' offset (index + 1) buf_len out
      else if buf_len <? Z.of_nat (length out) + DIRENT_SIZE then (out, index)
      else list_entries es' offset (index + 1) buf_len (out ++ dirent id nm itype)
  end.

Definition finish_listing (fid : Z) (out : list Z * Z) (s : t) : result (list Z) VfsError * t :=
  (Ok out.1, set_open_files (OpenFileTable.update (OPEN_FILES s) fid (OpenFileTable.set_offset out.2)) s).

Definition vfs_readdir (fid buf_len : Z) (s : t) : result (list Z) VfsError * t :=
  match OpenFileTable.get (OPEN_FILES s) fid with
  | None => (Err BadFileDescriptor, s)
  | Some f =>
      let id := OpenFileTable.inode_id f in
      match get (INODES s) id with
      | None => (Err NotFound, s)
      | Some inode =>
          if negb (bool_decide (inode_type inode = Directory)) then (Err NotADirectory, s)
          else
            match Tmpfs.readdir (TMPFS s) id with
            | Some es =>
                let type_of e := match get (INODES s) (Tmpfs.inode_id e) with Some i => type_u8 (inode_type i) | None => 0 end in
                finish_listing fid
                  (list_entries ((fun e => (Tmpfs.inode_id e, Tmpfs.name e, type_of e)) <$> es) (OpenFileTable.offset f) 0 buf_len []) s
            | None =>
                if Devfs.fs_id (DEVFS s) =? fs_id inode then
                  finish_listing fid
                    (list_entries [(Devfs.null_inode (DEVFS s), str_bytes "null", type_u8 CharDevice);
                                   (Devfs.zero_inode (DEVFS s), str_bytes "zero", type_u8 CharDevice);
                                   (Devfs.random_inode (DEVFS s), str_bytes "random", type_u8 CharDevice)]
                       (OpenFileTable.offset f) 0 buf_len []) s
                else (Err NotFound, s)
            end
      end
  end.

(** *** Initialisation *)
Definition expect_mount (p : list Z) (ty : MountTable.FsType) (root : Z) (tb : MountTable.t) : exec (Z * MountTable.t) :=
  match MountTable.mount p ty root tb with
  | (Ok fs, tb) => Done (fs, tb)
  | (Err _, _) => Panicked
  end.

Definition init (s : t) : exec t :=
  '(root, inodes) ← Devfs.expect_inode Directory 0 0 (INODES s);
  '(fs, mounts) ← expect_mount [MountTable.SLASH] MountTable.Tmpfs root (MOUNTS s);
  let inodes := update inodes root (set_fs_id fs) in
  let tmpfs := Tmpfs.init fs root (TMPFS s) in
  '(dev, inodes) ← Devfs.expect_inode Directory 0 0 inodes;
  let tmpfs := Tmpfs.add_dir_entry root (str_bytes "dev") dev tmpfs in
  '(fs, mounts) ← expect_mount (str_bytes "/dev") MountTable.Devfs dev mounts;
  '(devfs, inodes) ← Devfs.init fs dev (DEVFS s) inodes;
  Done (mk inodes mounts (OPEN_FILES s) tmpfs devfs).

(** *** Standard streams (stdio.rs) *)
Definition SERIAL_INODE_ID : Z := 0xFFFFFFFE.

Definition is_serial_inode (id : Z) : bool := id =? SERIAL_INODE_ID.

(** One [OPEN_FILES.lock().alloc(..)]. *)
Definition open_inode (id fl : Z) (s : t) : result Z OpenFileTable.OpenFileError * t :=
  let '(r, tb) := OpenFileTable.alloc id fl (OPEN_FILES s) in (r, set_open_files tb s).

Definition expect_open (id fl : Z) (s : t) : exec (Z * t) :=
  match open_inode id fl s with
  | (Ok fid, s) => Done (fid, s)
  | (Err _, _) => Panicked
  end.

(** The open files of [setup_stdio]; the handles are allocated in [Syscalls]. *)
Definition open_stdio (s : t) : exec (Z * Z * Z * t) :=
  '(stdin_of, s) ← expect_open (Devfs.null_inode (DEVFS s)) OpenFileTable.READ s;
  '(stdout_of, s) ← expect_open SERIAL_INODE_ID OpenFileTable.WRITE s;
  '(stderr_of, s) ← expect_open SERIAL_INODE_ID OpenFileTable.WRITE s;
  Done (stdin_of, stdout_of, stderr_of, s).

(** *** The initial archive *)

(** One entry of the archive. *)
Definition load_entry (entry : Cpio.CpioEntry) (s : t) : t :=
  let p := Cpio.name entry in
  if bool_decide (p = []) || bool_decide (p = str_bytes ".") || bool_decide (p = str_bytes "./") then s
  else
    let clean_path := if bool_decide (take 2 p = str_bytes "./") then drop 2 p else p in
    if bool_decide (clean_path = []) then s
    else if Cpio.is_directory entry then
      match alloc Directory (Tmpfs.fs_id (TMPFS s)) 0 (INODES s) with
      | (Err _, _) => s
      | (Ok id, inodes) =>
          let fs := Tmpfs.register_dir id (TMPFS s) in
          let fs := Tmpfs.add_dir_entry (Tmpfs.root_inode fs) clean_path id fs in
          set_tmpfs fs (set_inodes inodes s)
      end
    else
      match alloc File (Tmpfs.fs_id (TMPFS s)) 0 (INODES s) with
      | (Err _, _) => s
      | (Ok id, inodes) =>
          let inodes := update inodes id (set_size (Z.of_nat (length (Cpio.data entry)))) in
          let fs := Tmpfs.create_file_with_data id (Cpio.data entry) (TMPFS s) in
          let fs := Tmpfs.add_dir_entry (Tmpfs.root_inode fs) clean_path id fs in
          set_tmpfs fs (set_inodes inodes s)
      end.

Definition load_initramfs (archive : list Z) (s : t) : exec t :=
  r ← Cpio.parse_cpio archive;
  match r with
  | Err _ => Done s
  | Ok entries => Done (foldl (fun s e => load_entry e s) s entries)
  end.

End Vfs.
