(* ===== verification/VfsSpec.v ===== *)
(** * The tables of the file system

    What each table holds in every state that the operations reach, and what
    each operation does to it. *)

From S2P Require Import Prelude Cpio Vfs.

Module VfsSpec.
Import InodeTable.

(** ** Inodes: the first [n] slots are in use, slot [i] by inode [i + 1] *)
Record inodes_ok (n : nat) (tb : InodeTable.t) : Prop := {
  io_len : length (entries tb) = Z.to_nat MAX_INODES;
  io_n : (n <= Z.to_nat MAX_INODES)%nat;
  io_count : count tb = Z.of_nat n;
  io_next : next_id tb = Z.of_nat n + 1;
  io_active : forall i e, entries tb !! i = Some e -> active e = bool_decide (i < n)%nat;
  io_id : forall i e, entries tb !! i = Some e -> (i < n)%nat -> inode_id e = Z.of_nat i + 1;
}.

Lemma inodes_ok_new : inodes_ok 0 InodeTable.new.
Proof.
  split; [done|lia|done|done|..]; intros i e [-> _]%lookup_replicate; [|lia]. by rewrite bool_decide_eq_false_2 by lia.
Qed.

Lemma find_inode n tb id i e : inodes_ok n tb ->
  find tb id = Some (i, e) <-> entries tb !! i = Some e /\ (i < n)%nat /\ id = Z.of_nat i + 1.
Proof.
  intros H. unfold find. rewrite list_find_Some. split.
  - intros (Hi & [Ha <-] & _). rewrite (io_active _ _ H _ _ Hi), bool_decide_eq_true in Ha.
    split_all; [done..|]. by apply (io_id _ _ H).
  - intros (Hi & Hn & ->). split_all; [done| |by apply (io_id _ _ H)|].
    + rewrite (io_active _ _ H _ _ Hi). by apply bool_decide_eq_true_2.
    + intros j y Hy Hj [_ E]. rewrite (io_id _ _ H _ _ Hy) in E by lia. lia.
Qed.

Lemma get_inode n tb id e : inodes_ok n tb ->
  get tb id = Some e <-> 0 < id <= Z.of_nat n /\ entries tb !! Z.to_nat (id - 1) = Some e.
Proof.
  intros H. unfold get. rewrite fmap_Some. split.
  - intros ([i e'] & (Hi & Hn & ->)%(find_inode n) & ->); [|done]. cbn [snd]. split; [lia|].
    replace (Z.to_nat (Z.of_nat i + 1 - 1)) with i by lia. exact Hi.
  - intros [Hid He]. exists (Z.to_nat (id - 1), e). split; [|done]. apply (find_inode n); [done|]. split_all; [done|lia..].
Qed.

Lemma get_inode_is_Some n tb id : inodes_ok n tb -> is_Some (get tb id) <-> 0 < id <= Z.of_nat n.
Proof.
  intros H. split; [intros [e He]; by apply (get_inode n) in He as [? _]|]. intros Hid.
  destruct (lookup_lt_is_Some_2 (entries tb) (Z.to_nat (id - 1))) as [e He]; [rewrite (io_len _ _ H); pose proof (io_n _ _ H); lia|].
  exists e. by apply (get_inode n).
Qed.

Lemma get_inode_id n tb id e : inodes_ok n tb -> get tb id = Some e -> inode_id e = id.
Proof. intros H [Hid He]%(get_inode n); [|done]. rewrite (io_id _ _ H _ _ He); lia. Qed.

Lemma alloc_inode n tb ty fs data : inodes_ok n tb -> (n < Z.to_nat MAX_INODES)%nat ->
  exists tb' e, alloc ty fs data tb = (Ok (Z.of_nat n + 1), tb') /\ inodes_ok (S n) tb' /\
    get tb' (Z.of_nat n + 1) = Some e /\ inode_type e = ty /\ size e = 0 /\ fs_id e = fs /\
    forall id, id <> Z.of_nat n + 1 -> get tb' id = get tb id.
Proof.
  intros H Hn. destruct (lookup_lt_is_Some_2 (entries tb) n) as [e0 He0]; [by rewrite (io_len _ _ H)|].
  assert (list_find (fun e => active e = false) (entries tb) = Some (n, e0)) as E.
  { apply list_find_Some. split_all; [done| |].
    - rewrite (io_active _ _ H _ _ He0). apply bool_decide_eq_false_2. lia.
    - intros j y Hy Hj. rewrite (io_active _ _ H _ _ Hy). by rewrite bool_decide_eq_true_2. }
  unfold alloc. rewrite E. rewrite (io_next _ _ H). eexists _, _. split; [done|].
  assert (inodes_ok (S n) (mk (<[n := mkInode (Z.of_nat n + 1) ty 0 fs data true (generation e0)]> (entries tb))
    (u64_add (count tb) 1) (u32_add (Z.of_nat n + 1) 1))) as H'.
  { split; cbn.
    - rewrite length_insert. apply H.
    - lia.
    - rewrite (io_count _ _ H). change MAX_INODES with 1024 in Hn. rewrite u64_add_small; lia.
    - change MAX_INODES with 1024 in Hn. rewrite u32_add_small; lia.
    - intros i e [(-> & <- & _)|[Hne He]]%list_lookup_insert_Some; [cbn; by rewrite bool_decide_eq_true_2 by lia|].
      rewrite (io_active _ _ H _ _ He). apply bool_decide_ext. lia.
    - intros i e [(-> & <- & _)|[Hne He]]%list_lookup_insert_Some Hi; [done|]. apply (io_id _ _ H _ _ He). lia. }
  split; [done|]. split_all.
  - apply (get_inode (S n)); [done|]. split; [lia|]. cbn. replace (Z.to_nat (Z.of_nat n + 1 - 1)) with n by lia.
    apply list_lookup_insert_eq. by rewrite (io_len _ _ H).
  - done.
  - done.
  - done.
  - intros id Hid. apply option_eq. intros e. rewrite (get_inode (S n)), (get_inode n) by done. cbn.
    destruct (decide (0 < id <= Z.of_nat n)).
    + rewrite list_lookup_insert_ne by lia. intuition lia.
    + intuition lia.
Qed.

Lemma alloc_inode_full n tb ty fs data : inodes_ok n tb -> ~ (n < Z.to_nat MAX_INODES)%nat -> alloc ty fs data tb = (Err TableFull, tb).
Proof.
  intros H Hn. unfold alloc. assert (list_find (fun e => active e = false) (entries tb) = None) as ->; [|done].
  apply list_find_None, Forall_lookup. intros i e He. rewrite (io_active _ _ H _ _ He).
  rewrite bool_decide_eq_true_2; [done|]. apply lookup_lt_Some in He. rewrite (io_len _ _ H) in He. lia.
Qed.

Lemma update_inode n tb id f : inodes_ok n tb -> (forall e, inode_id (f e) = inode_id e /\ active (f e) = active e) ->
  inodes_ok n (update tb id f) /\ forall id', get (update tb id f) id' = if decide (id' = id) then f <$> get tb id' else get tb id'.
Proof.
  intros H Hf. unfold update. destruct (find tb id) as [[i e]|] eqn:E.
  2: { split; [done|]. intros id'. case_decide as Hc; [|done]. subst id'. unfold get. by rewrite E. }
  apply (find_inode n) in E as (He & Hi & ->); [|done].
  assert (inodes_ok n (mk (<[i := f e]> (entries tb)) (count tb) (next_id tb))) as H'.
  { destruct H as [L N C X A D]. split; cbn; [by rewrite length_insert|done..| |].
    - intros j e' [(-> & <- & _)|[Hne He']]%list_lookup_insert_Some; [|by apply A]. destruct (Hf e) as [_ ->]. by apply A.
    - intros j e' [(-> & <- & _)|[Hne He']]%list_lookup_insert_Some Hj; [|by apply D]. destruct (Hf e) as [-> _]. by apply D. }
  split; [done|]. intros id'. apply option_eq. intros e'. rewrite (get_inode n) by done. cbn. case_decide as Hc.
  - subst id'. rewrite fmap_Some. setoid_rewrite (get_inode n); [|done]. replace (Z.to_nat (Z.of_nat i + 1 - 1)) with i by lia.
    rewrite list_lookup_insert_eq by (by apply lookup_lt_Some in He). split; [intros [? [= <-]]; eauto|].
    intros (x & [? Hx] & ->). split; [done|]. congruence.
  - rewrite (get_inode n) by done. destruct (decide (0 < id' <= Z.of_nat n)); [|intuition lia].
    rewrite list_lookup_insert_ne by lia. done.
Qed.

(** ** Open files *)
Record ofiles_ok (tb : OpenFileTable.t) : Prop := {
  oo_len : length (OpenFileTable.entries tb) = Z.to_nat OpenFileTable.MAX_OPEN_FILES;
  oo_zero : forall f, OpenFileTable.entries tb !! 0%nat = Some f -> OpenFileTable.active f = false;
  oo_refs : forall i f, OpenFileTable.entries tb !! i = Some f -> OpenFileTable.active f = true -> OpenFileTable.ref_count f = 1;
}.

Lemma ofiles_ok_new : ofiles_ok OpenFileTable.new.
Proof. split; [done|..]; [intros f|intros i f]; by intros [-> _]%lookup_replicate. Qed.

Lemma get_ofile tb fid f : OpenFileTable.get tb fid = Some f <->
  OpenFileTable.entries tb !! Z.to_nat fid = Some f /\ OpenFileTable.active f = true.
Proof.
  unfold OpenFileTable.get. destruct (OpenFileTable.entries tb !! Z.to_nat fid) as [g|]; cbn; [|by split; [|intros [? _]]].
  destruct (OpenFileTable.active g) eqn:Ha; (split; [|intros [[= ->] ?]]); [by intros [= ->]|done|done|congruence].
Qed.

Lemma get_ofile_range tb fid f : ofiles_ok tb -> OpenFileTable.get tb fid = Some f -> 0 < fid < OpenFileTable.MAX_OPEN_FILES.
Proof.
  intros H [He Ha]%get_ofile. pose proof (lookup_lt_Some _ _ _ He) as Hlt. rewrite (oo_len _ H) in Hlt.
  destruct (decide (0 < fid)); [unfold OpenFileTable.MAX_OPEN_FILES in *; lia|].
  replace (Z.to_nat fid) with 0%nat in He by lia. apply (oo_zero _ H) in He. congruence.
Qed.

(** Replacing a slot other than slot 0. *)
Lemma ofile_insert tb fid g c : ofiles_ok tb -> 0 < fid < OpenFileTable.MAX_OPEN_FILES -> (OpenFileTable.active g = true -> OpenFileTable.ref_count g = 1) ->
  let tb' := OpenFileTable.mk (<[Z.to_nat fid := g]> (OpenFileTable.entries tb)) c in
  ofiles_ok tb' /\ OpenFileTable.get tb' fid = (if OpenFileTable.active g then Some g else None) /\
  forall fid', fid' <> fid -> OpenFileTable.get tb' fid' = OpenFileTable.get tb fid'.
Proof.
  intros H Hfid Hg tb'. assert (ofiles_ok tb') as H'.
  { split; unfold tb'; cbn [OpenFileTable.entries].
    - rewrite length_insert. apply H.
    - intros f. rewrite list_lookup_insert_ne by lia. apply (oo_zero _ H).
    - intros i f [(<- & <- & _)|[_ He]]%list_lookup_insert_Some; [done|by apply (oo_refs _ H i)]. }
  split; [done|]. split.
  - unfold OpenFileTable.get, tb'. cbn [OpenFileTable.entries]. by rewrite list_lookup_insert_eq by (rewrite (oo_len _ H); lia).
  - intros fid' Hne. destruct (decide (0 <= fid')).
    + unfold OpenFileTable.get, tb'. cbn [OpenFileTable.entries]. by rewrite list_lookup_insert_ne by lia.
    + apply option_eq. intros f. split; intros Hf; eapply get_ofile_range in Hf; (done || lia).
Qed.

Lemma alloc_ofile tb id fl : ofiles_ok tb ->
  match OpenFileTable.alloc id fl tb with
  | (Ok fid, tb') => ofiles_ok tb' /\ OpenFileTable.get tb fid = None /\ OpenFileTable.get tb' fid = Some (OpenFileTable.mkFile id 0 fl 1 true) /\
      0 < fid < OpenFileTable.MAX_OPEN_FILES /\ forall fid', fid' <> fid -> OpenFileTable.get tb' fid' = OpenFileTable.get tb fid'
  | (Err _, tb') => tb' = tb /\ forall fid, 0 < fid < OpenFileTable.MAX_OPEN_FILES -> is_Some (OpenFileTable.get tb fid)
  end.
Proof.
  intros H. unfold OpenFileTable.alloc.
  destruct (list_find (fun e => OpenFileTable.active e = false) (drop 1 (OpenFileTable.entries tb))) as [[i f]|] eqn:E.
  - apply list_find_Some in E as (Hi & Hf & _). rewrite lookup_drop in Hi. change (1 + i)%nat with (S i) in Hi.
    pose proof (lookup_lt_Some _ _ _ Hi) as Hlt. rewrite (oo_len _ H) in Hlt. unfold OpenFileTable.MAX_OPEN_FILES in *.
    destruct (ofile_insert tb (Z.of_nat (S i)) (OpenFileTable.mkFile id 0 fl 1 true) (u64_add (OpenFileTable.count tb) 1) H) as (H1 & H2 & H3);
      [unfold OpenFileTable.MAX_OPEN_FILES; lia|done|]. rewrite Nat2Z.id in *. split_all; [done| |done|lia|lia|done].
    unfold OpenFileTable.get. rewrite Nat2Z.id, Hi. cbn. by rewrite Hf.
  - split; [done|]. intros fid Hfid. apply list_find_None in E. rewrite Forall_lookup in E.
    destruct (lookup_lt_is_Some_2 (OpenFileTable.entries tb) (Z.to_nat fid)) as [f Hf]; [rewrite (oo_len _ H); lia|].
    exists f. apply get_ofile. split; [done|]. specialize (E (Z.to_nat fid - 1)%nat f). rewrite lookup_drop in E.
    replace (1 + (Z.to_nat fid - 1))%nat with (Z.to_nat fid) in E by lia. specialize (E Hf). by destruct (OpenFileTable.active f).
Qed.

Lemma update_ofile tb fid g : ofiles_ok tb -> (forall f, OpenFileTable.active (g f) = OpenFileTable.active f /\ OpenFileTable.ref_count (g f) = OpenFileTable.ref_count f) ->
  ofiles_ok (OpenFileTable.update tb fid g) /\
  forall fid', OpenFileTable.get (OpenFileTable.update tb fid g) fid' =
    if decide (fid' = fid) then g <$> OpenFileTable.get tb fid' else OpenFileTable.get tb fid'.
Proof.
  intros H Hg. unfold OpenFileTable.update. destruct (OpenFileTable.get tb fid) as [f|] eqn:E.
  2: { split; [done|]. intros fid'. case_decide; [|done]. subst. by rewrite E. }
  pose proof (get_ofile_range _ _ _ H E) as Hr. pose proof E as [He Ha]%get_ofile.
  destruct (ofile_insert tb fid (g f) (OpenFileTable.count tb) H Hr) as (H1 & H2 & H3).
  { intros _. destruct (Hg f) as [_ ->]. by apply (oo_refs _ H _ _ He). }
  split; [done|]. intros fid'. case_decide; [|by apply H3]. subst. rewrite H2, E. destruct (Hg f) as [-> _]. by rewrite Ha.
Qed.

Lemma release_ofile tb fid : ofiles_ok tb ->
  match OpenFileTable.get tb fid with
  | Some _ => exists tb', OpenFileTable.release fid tb = (Ok tt, tb') /\ ofiles_ok tb' /\ OpenFileTable.get tb' fid = None /\
      forall fid', fid' <> fid -> OpenFileTable.get tb' fid' = OpenFileTable.get tb fid'
  | None => exists e, OpenFileTable.release fid tb = (Err e, tb)
  end.
Proof.
  intros H. unfold OpenFileTable.release. destruct (OpenFileTable.get tb fid) as [f|] eqn:E.
  - pose proof (get_ofile_range _ _ _ H E) as Hr. apply get_ofile in E as [He Ha]. rewrite He, Ha. cbn [negb].
    rewrite (oo_refs _ H _ _ He Ha). change (wrap 16 (1 - 1) =? 0) with true. cbn iota.
    destruct (ofile_insert tb fid (OpenFileTable.mkFile INVALID (OpenFileTable.offset f) (OpenFileTable.flags f) (wrap 16 (1 - 1)) false)
      (wrap 64 (OpenFileTable.count tb - 1)) H Hr) as (H1 & H2 & H3); [done|]. eauto.
  - unfold OpenFileTable.get in E. destruct (OpenFileTable.entries tb !! Z.to_nat fid) as [f|]; cbn in E; [|eauto].
    destruct (OpenFileTable.active f); [done|]. cbn. eauto.
Qed.

(** ** Mounts: the root and [/dev] *)
Definition boot_mounts : MountTable.t :=
  MountTable.mk (MountTable.mkMount [MountTable.SLASH] 1 MountTable.Tmpfs 1 true ::
    MountTable.mkMount (str_bytes "/dev") 2 MountTable.Devfs 2 true :: replicate 62 MountTable.empty) 2 3.

Lemma best_mount_empty k n p best len : MountTable.best_mount k (replicate n MountTable.empty) p best len = best.
Proof. revert k. induction n as [|n IH]; intros k; [done|]. apply IH. Qed.

Lemma best_mount_boot p : head p = Some MountTable.SLASH ->
  MountTable.best_mount 0 (MountTable.entries boot_mounts) p None 0 = Some (if MountTable.under p (str_bytes "/dev") then 1%nat else 0%nat).
Proof.
  intros Hp. unfold boot_mounts. cbn [MountTable.entries MountTable.best_mount MountTable.active MountTable.path].
  assert (MountTable.under p [MountTable.SLASH] = true) as ->.
  { destruct p as [|b p]; [done|]. injection Hp as ->. unfold MountTable.under. cbn. done. }
  cbn [andb length]. change ((0 <? 1)%nat) with true. cbn iota.
  destruct (MountTable.under p (str_bytes "/dev")); cbn [andb]; [|by rewrite best_mount_empty].
  change ((1 <? length (str_bytes "/dev"))%nat) with true. cbn iota. apply best_mount_empty.
Qed.

(** A name in the root directory. *)
Definition plain (nm : list Z) : Prop :=
  nm <> [] /\ MountTable.SLASH ∉ nm /\ nm <> str_bytes "dev" /\ Z.of_nat (length nm) <= MountTable.MAX_MOUNT_PATH.

Lemma resolve_plain nm : plain nm -> MountTable.resolve boot_mounts (MountTable.SLASH :: nm) = Done (Some (0%nat, nm)).
Proof.
  intros (Hne & Hs & Hd & Hl). unfold MountTable.resolve. rewrite best_mount_boot by done.
  assert (MountTable.under (MountTable.SLASH :: nm) (str_bytes "/dev") = false) as ->.
  { unfold MountTable.under. apply not_true_iff_false. rewrite !andb_true_iff, !orb_true_iff, !bool_decide_eq_true.
    intros [[Ht Hlen] Hor]. change (str_bytes "/dev") with (MountTable.SLASH :: str_bytes "dev") in *. cbn in Ht. injection Ht as Ht.
    rewrite <- (take_drop 3 nm), Ht in Hs, Hd, Hor. cbn in Hor. destruct (drop 3 nm) as [|b rest].
    - by rewrite app_nil_r in Hd.
    - destruct Hor as [[?|Hor]|Hor]; [done|by apply Nat.eqb_eq in Hor|]. apply Z.eqb_eq in Hor. cbn in Hor. subst b. apply Hs. set_solver. }
  cbn iota. change (length (MountTable.path (MountTable.entries boot_mounts !!! 0%nat))) with 1%nat.
  destruct nm as [|b nm]; [done|]. cbn [length Nat.leb]. change ((MountTable.SLASH :: b :: nm) !!! 1%nat) with b.
  destruct (Z.eqb_spec b MountTable.SLASH) as [->|_]; [set_solver|]. cbn [drop].
  destruct (Z.ltb_spec MountTable.MAX_MOUNT_PATH (Z.of_nat (length (b :: nm)))); [lia|done].
Qed.

Lemma split_slash_plain nm : nm <> [] -> MountTable.SLASH ∉ nm -> Vfs.split_slash nm = [nm].
Proof.
  induction nm as [|b nm IH]; [done|]. intros _ Hs. cbn [Vfs.split_slash]. destruct (Z.eqb_spec b MountTable.SLASH) as [->|]; [set_solver|].
  destruct nm as [|c nm]; [done|]. by rewrite IH by set_solver.
Qed.

End VfsSpec.
