(* ===== verification/VfsTheorems.v ===== *)
(** * Theorems on the file system

    From the boot on, open files are cursors into byte sequences; names stay; and
    the files of the initial archive can be opened and read. *)

From S2P Require Import Prelude Cpio CpioTheorems Vfs VfsSpec.

Module VfsRuns.
Import InodeTable Vfs VfsSpec.

(** ** What can be observed *)
Definition contents (s : Vfs.t) : gmap Z (list Z) := Tmpfs.files (TMPFS s).
Definition kind (s : Vfs.t) (id : Z) : option InodeType := inode_type <$> get (INODES s) id.
Definition desc (s : Vfs.t) (fid : Z) : option (Z * Z * Z) :=
  (fun f => (OpenFileTable.inode_id f, OpenFileTable.offset f, OpenFileTable.flags f)) <$> OpenFileTable.get (OPEN_FILES s) fid.

(** ** The invariant *)

(** What a descriptor can be open on: an inode or the serial line. *)
Definition target (s : Vfs.t) (id : Z) : Prop := is_Some (kind s id) \/ id = SERIAL_INODE_ID.

Record vfs_ok (n : nat) (s : Vfs.t) : Prop := {
  v_inodes : inodes_ok n (INODES s);
  v_file : forall id i, get (INODES s) id = Some i -> inode_type i = File ->
    exists d, contents s !! id = Some d /\ size i = Z.of_nat (length d);
  v_files : forall id, is_Some (contents s !! id) -> kind s id = Some File;
  v_ofiles : ofiles_ok (OPEN_FILES s);
  v_desc : forall fid id o fl, desc s fid = Some (id, o, fl) -> target s id /\ in_u 64 o /\
    forall d, contents s !! id = Some d -> o <= Z.of_nat (length d);
  v_mounts : MOUNTS s = boot_mounts;
  v_devfs : exists st, DEVFS s = Devfs.mk 2 2 3 4 5 st true;
  v_dev : forall id i, get (INODES s) id = Some i -> inode_type i = CharDevice -> fs_id i = 2 /\ (id = 3 \/ id = 4 \/ id = 5);
  v_boot : (5 <= n)%nat;
  v_root : Tmpfs.root_inode (TMPFS s) = 1;
  v_names : forall dir es e, Tmpfs.dirs (TMPFS s) !! dir = Some es -> e ∈ es -> is_Some (kind s (Tmpfs.inode_id e));
  v_short : forall dir es, Tmpfs.dirs (TMPFS s) !! dir = Some es -> (length es <= n)%nat;
  v_nodir : forall id i, get (INODES s) id = Some i -> inode_type i = Directory -> Tmpfs.dirs (TMPFS s) !! id = None -> fs_id i <> 2;
}.

Lemma kind_is_Some n s id : vfs_ok n s -> is_Some (kind s id) <-> 0 < id <= Z.of_nat n.
Proof. intros H. unfold kind. rewrite fmap_is_Some. by apply get_inode_is_Some, H. Qed.

(** ** Boot *)
Definition boot (archive : list Z) : exec Vfs.t := s ← init Vfs.new; load_initramfs archive s.

Lemma expect_ok n tb ty fs data : inodes_ok n tb -> (n < Z.to_nat MAX_INODES)%nat ->
  exists tb' e, Devfs.expect_inode ty fs data tb = Done (Z.of_nat n + 1, tb') /\ inodes_ok (S n) tb' /\
    get tb' (Z.of_nat n + 1) = Some e /\ inode_type e = ty /\ fs_id e = fs /\
    forall id, id <> Z.of_nat n + 1 -> get tb' id = get tb id.
Proof.
  intros H Hn. destruct (alloc_inode n tb ty fs data H Hn) as (tb' & e & E & H' & Hg & Ht & _ & Hf & Ho).
  unfold Devfs.expect_inode. rewrite E. eauto 10.
Qed.

Lemma vfs_init_ok : exists s, init Vfs.new = Done s /\ vfs_ok 5 s /\ OPEN_FILES s = OpenFileTable.new /\
  Tmpfs.dirs (TMPFS s) = {[1 := [Tmpfs.mkDirEntry (str_bytes "dev") 2]]} /\ contents s = ∅.
Proof.
  unfold init, Vfs.new. cbn [INODES MOUNTS OPEN_FILES TMPFS DEVFS].
  destruct (expect_ok 0 InodeTable.new Directory 0 0 inodes_ok_new ltac:(unfold MAX_INODES; lia)) as (t1 & e1 & -> & H1 & G1 & T1 & F1 & O1). exec_simpl.
  change (expect_mount [MountTable.SLASH] MountTable.Tmpfs (Z.of_nat 0 + 1) MountTable.new) with
    (Done (1, MountTable.mk (MountTable.mkMount [MountTable.SLASH] 1 MountTable.Tmpfs 1 true :: replicate 63 MountTable.empty) 1 2)). exec_simpl.
  destruct (update_inode 1 t1 (Z.of_nat 0 + 1) (set_fs_id 1) H1) as [H1' G1']; [done|]. set (t1' := update t1 _ _) in *.
  destruct (expect_ok 1 t1' Directory 0 0 H1' ltac:(unfold MAX_INODES; lia)) as (t2 & e2 & -> & H2 & G2 & T2 & F2 & O2). exec_simpl.
  change (expect_mount (str_bytes "/dev") MountTable.Devfs (Z.of_nat 1 + 1) _) with (Done (2, boot_mounts)). exec_simpl.
  unfold Devfs.init.
  destruct (expect_ok 2 t2 CharDevice 2 (Devfs.type_u64 Devfs.Null) H2 ltac:(unfold MAX_INODES; lia)) as (t3 & e3 & -> & H3 & G3 & T3 & F3 & O3). exec_simpl.
  destruct (expect_ok 3 t3 CharDevice 2 (Devfs.type_u64 Devfs.Zero) H3 ltac:(unfold MAX_INODES; lia)) as (t4 & e4 & -> & H4 & G4 & T4 & F4 & O4). exec_simpl.
  destruct (expect_ok 4 t4 CharDevice 2 (Devfs.type_u64 Devfs.Random) H4 ltac:(unfold MAX_INODES; lia)) as (t5 & e5 & -> & H5 & G5 & T5 & F5 & O5). exec_simpl.
  eexists. split; [done|]. change (Z.of_nat 0 + 1) with 1 in *. change (Z.of_nat 1 + 1) with 2 in *. change (Z.of_nat 2 + 1) with 3 in *.
  change (Z.of_nat 3 + 1) with 4 in *. change (Z.of_nat 4 + 1) with 5 in *.
  assert (forall id i, get t5 id = Some i -> (id = 1 \/ id = 2 /\ fs_id i = 0) /\ inode_type i = Directory \/
    (id = 3 \/ id = 4 \/ id = 5) /\ inode_type i = CharDevice /\ fs_id i = 2) as Ht.
  { intros id i Hi. pose proof (proj1 (get_inode_is_Some 5 t5 id H5) ltac:(eauto)) as Hr.
    destruct (decide (id = 5)) as [->|]; [right; split; [lia|]; split; congruence|]. rewrite O5 in Hi by done.
    destruct (decide (id = 4)) as [->|]; [right; split; [lia|]; split; congruence|]. rewrite O4 in Hi by done.
    destruct (decide (id = 3)) as [->|]; [right; split; [lia|]; split; congruence|]. rewrite O3 in Hi by done.
    left. destruct (decide (id = 2)) as [->|]; [split; [right; split|]; congruence|]. rewrite O2, G1' in Hi by done.
    assert (id = 1) as -> by lia. rewrite decide_True, G1 in Hi by done. injection Hi as <-. split; [by left|by cbn]. }
  split_all; [|done|done|done]. split; cbn [INODES MOUNTS OPEN_FILES TMPFS DEVFS].
  - done.
  - intros id i Hi E. destruct (Ht _ _ Hi) as [[_ ?]|[_ [? _]]]; congruence.
  - intros id [d Hd]. done.
  - apply ofiles_ok_new.
  - intros fid id o fl Hd. unfold desc in Hd. cbn in Hd. destruct (OpenFileTable.get OpenFileTable.new fid) as [f|] eqn:E; [|done].
    apply get_ofile in E as [[-> _]%lookup_replicate ?]. done.
  - done.
  - by eexists.
  - intros id i Hi E. destruct (Ht _ _ Hi) as [[_ ?]|[? [_ ?]]]; [congruence|done].
  - done.
  - done.
  - intros dir es e Hd. assert (({[1 := [Tmpfs.mkDirEntry (str_bytes "dev") 2]]} : gmap Z (list Tmpfs.DirEntry)) !! dir = Some es)
      as [<- <-]%lookup_singleton_Some by exact Hd. intros ->%list_elem_of_singleton. unfold kind. cbn [INODES Tmpfs.inode_id].
    rewrite fmap_is_Some. apply (get_inode_is_Some 5); [done|]. lia.
  - intros dir es Hd. assert (({[1 := [Tmpfs.mkDirEntry (str_bytes "dev") 2]]} : gmap Z (list Tmpfs.DirEntry)) !! dir = Some es)
      as [<- <-]%lookup_singleton_Some by exact Hd. cbn. lia.
  - intros id i Hi E Hd. destruct (Ht _ _ Hi) as [[[->|[-> ->]] _]|[_ [? _]]]; [done|done|congruence].
Qed.

(** ** The initial archive *)
Definition clean (p : list Z) : list Z := if bool_decide (take 2 p = str_bytes "./") then drop 2 p else p.

Definition loads (e : Cpio.CpioEntry) : bool :=
  negb (bool_decide (Cpio.name e = []) || bool_decide (Cpio.name e = str_bytes ".") || bool_decide (Cpio.name e = str_bytes "./")) &&
  negb (bool_decide (clean (Cpio.name e) = [])).

(** The name under which an entry is found in the root directory. *)
Definition stored (e : Cpio.CpioEntry) : list Z := if Utf8.valid (clean (Cpio.name e)) then clean (Cpio.name e) else str_bytes "?".

Lemma load_entry_skips s e : loads e = false -> load_entry e s = s.
Proof.
  unfold loads, load_entry. fold (clean (Cpio.name e)). destruct (_ || _); [done|]. cbn [negb andb]. by destruct (bool_decide (clean _ = [])).
Qed.

Lemma load_entry_eq s e : loads e = true -> load_entry e s =
  match alloc (if Cpio.is_directory e then Directory else File) (Tmpfs.fs_id (TMPFS s)) 0 (INODES s) with
  | (Err _, _) => s
  | (Ok id, inodes) =>
      let inodes := if Cpio.is_directory e then inodes else update inodes id (set_size (Z.of_nat (length (Cpio.data e)))) in
      let fs := if Cpio.is_directory e then Tmpfs.register_dir id (TMPFS s) else Tmpfs.create_file_with_data id (Cpio.data e) (TMPFS s) in
      set_tmpfs (Tmpfs.add_dir_entry (Tmpfs.root_inode (TMPFS s)) (clean (Cpio.name e)) id fs) (set_inodes inodes s)
  end.
Proof.
  unfold loads, load_entry. fold (clean (Cpio.name e)). destruct (_ || _); [done|]. cbn [negb andb].
  destruct (bool_decide (clean _ = [])); [done|]. intros _. destruct (Cpio.is_directory e); destruct (alloc _ _ _ _) as [[id|err] inodes]; done.
Qed.

(** The directories after an entry: those that were there, the root with one more
    name, and the new one, empty, if the entry is a directory. *)
Lemma load_dirs fs0 id e : 1 <> id ->
  let fs := if Cpio.is_directory e then Tmpfs.register_dir id fs0 else Tmpfs.create_file_with_data id (Cpio.data e) fs0 in
  let dirs' := Tmpfs.dirs (Tmpfs.add_dir_entry 1 (clean (Cpio.name e)) id fs) in
  (forall dir es, dirs' !! dir = Some es -> dir = id /\ es = [] \/
    exists es0, Tmpfs.dirs fs0 !! dir = Some es0 /\ (es = es0 \/ dir = 1 /\ es = es0 ++ [Tmpfs.mkDirEntry (stored e) id])) /\
  (forall es, Tmpfs.dirs fs0 !! 1 = Some es -> dirs' !! 1 = Some (es ++ [Tmpfs.mkDirEntry (stored e) id])) /\
  forall dir, dirs' !! dir = None -> Tmpfs.dirs fs0 !! dir = None /\ (Cpio.is_directory e = true -> dir <> id).
Proof.
  intros H1 fs. assert (Tmpfs.dirs fs = if Cpio.is_directory e then <[id := []]> (Tmpfs.dirs fs0) else Tmpfs.dirs fs0) as Ed
    by (unfold fs; by destruct (Cpio.is_directory e)). clearbody fs.
  assert (Tmpfs.dirs fs !! 1 = Tmpfs.dirs fs0 !! 1) as E1 by (rewrite Ed; destruct (Cpio.is_directory e); [by rewrite lookup_insert_ne|done]).
  unfold Tmpfs.add_dir_entry. rewrite E1. split; [|split].
  - intros dir es. destruct (Tmpfs.dirs fs0 !! 1) as [es1|] eqn:E; cbn [Tmpfs.dirs Tmpfs.set_dirs]; rewrite Ed; destruct (Cpio.is_directory e).
    + intros [[<- <-]|[Hne [[<- <-]|[Hne2 Hl]]%lookup_insert_Some]]%lookup_insert_Some; naive_solver.
    + intros [[<- <-]|[Hne Hl]]%lookup_insert_Some; naive_solver.
    + intros [[<- <-]|[Hne Hl]]%lookup_insert_Some; naive_solver.
    + naive_solver.
  - intros es ->. cbn [Tmpfs.dirs Tmpfs.set_dirs]. by rewrite lookup_insert_eq.
  - intros dir. destruct (Tmpfs.dirs fs0 !! 1) as [es1|] eqn:E; cbn [Tmpfs.dirs Tmpfs.set_dirs]; rewrite Ed; destruct (Cpio.is_directory e);
      rewrite ?lookup_insert_None; naive_solver.
Qed.

(** The file system once the new inode [n + 1] and its content are in place. *)
Lemma load_new n s inodes i e : vfs_ok n s -> inodes_ok (S n) inodes -> get inodes (Z.of_nat n + 1) = Some i ->
  (forall id, id <> Z.of_nat n + 1 -> get inodes id = get (INODES s) id) ->
  inode_type i = (if Cpio.is_directory e then Directory else File) ->
  (Cpio.is_directory e = false -> size i = Z.of_nat (length (Cpio.data e))) ->
  let fs := if Cpio.is_directory e then Tmpfs.register_dir (Z.of_nat n + 1) (TMPFS s) else Tmpfs.create_file_with_data (Z.of_nat n + 1) (Cpio.data e) (TMPFS s) in
  let s' := set_tmpfs (Tmpfs.add_dir_entry 1 (clean (Cpio.name e)) (Z.of_nat n + 1) fs) (set_inodes inodes s) in
  vfs_ok (S n) s' /\ contents s' = (if Cpio.is_directory e then contents s else <[Z.of_nat n + 1 := Cpio.data e]> (contents s)) /\
  forall es, Tmpfs.dirs (TMPFS s) !! 1 = Some es -> Tmpfs.dirs (TMPFS s') !! 1 = Some (es ++ [Tmpfs.mkDirEntry (stored e) (Z.of_nat n + 1)]).
Proof.
  intros H Hin Hi Hother Ht Hsz fs s'. pose proof (v_boot _ _ H) as H5.
  assert (contents s' = (if Cpio.is_directory e then contents s else <[Z.of_nat n + 1 := Cpio.data e]> (contents s))) as Hc.
  { unfold s', fs, contents. cbn [TMPFS set_tmpfs set_inodes]. unfold Tmpfs.add_dir_entry. destruct (Cpio.is_directory e); by case_match. }
  assert (1 <> Z.of_nat n + 1) as H1 by lia. destruct (load_dirs (TMPFS s) (Z.of_nat n + 1) e H1) as (Hd & Hroot & Hkeep).
  assert (forall id, kind s' id = if decide (id = Z.of_nat n + 1) then Some (inode_type i) else kind s id) as Hkind.
  { intros id. unfold kind, s'. cbn [INODES set_tmpfs set_inodes]. case_decide as Hc'; [subst id; by rewrite Hi|by rewrite Hother]. }
  assert (contents s !! (Z.of_nat n + 1) = None) as Hnone.
  { apply eq_None_not_Some. intros Hs%(v_files _ _ H). assert (is_Some (kind s (Z.of_nat n + 1))) as Hk by eauto.
    apply (kind_is_Some n) in Hk; [lia|done]. }
  split_all; [|done|by apply Hroot]. split.
  - done.
  - intros id i' Hi' Hty. rewrite Hc. destruct (decide (id = Z.of_nat n + 1)) as [->|Hne].
    + cbn in Hi'. rewrite Hi in Hi'. injection Hi' as <-. destruct (Cpio.is_directory e); [congruence|].
      rewrite lookup_insert_eq. eauto.
    + cbn in Hi'. rewrite Hother in Hi' by done. destruct (v_file _ _ H _ _ Hi' Hty) as (d & Hd' & Hs').
      exists d. split; [|done]. destruct (Cpio.is_directory e); [done|]. by rewrite lookup_insert_ne.
  - intros id. rewrite Hc, Hkind. destruct (Cpio.is_directory e) eqn:Hdir.
    + intros Hs%(v_files _ _ H). case_decide; [subst id|done]. assert (is_Some (kind s (Z.of_nat n + 1))) as Hk by eauto.
      apply (kind_is_Some n) in Hk; [lia|done].
    + intros [<-|[Hne Hs]]%lookup_insert_is_Some; [by rewrite decide_True, Ht|]. rewrite decide_False by done. by apply (v_files _ _ H).
  - apply H.
  - intros fid id o fl Hds. destruct (v_desc _ _ H fid id o fl Hds) as (Hk & Ho & Hb). split_all; [|apply Ho..|].
    + destruct Hk as [Hk|Hk]; [left|by right]. rewrite Hkind. case_decide; [by eauto|done].
    + intros d Hd'. apply Hb. rewrite Hc in Hd'. destruct (Cpio.is_directory e); [done|].
      rewrite lookup_insert_ne in Hd'; [done|]. pose proof (io_n _ _ Hin) as Hmax. unfold MAX_INODES in Hmax.
      destruct Hk as [Hk| ->]; [apply (kind_is_Some n) in Hk; [lia|done]|unfold SERIAL_INODE_ID; lia].
  - apply H.
  - apply H.
  - intros id i' Hi' Hty. destruct (decide (id = Z.of_nat n + 1)) as [->|Hne].
    + cbn in Hi'. rewrite Hi in Hi'. injection Hi' as <-. destruct (Cpio.is_directory e); congruence.
    + cbn in Hi'. rewrite Hother in Hi' by done. by apply (v_dev _ _ H).
  - lia.
  - rewrite <- (v_root _ _ H). unfold s', fs. cbn [TMPFS set_tmpfs set_inodes]. unfold Tmpfs.add_dir_entry. destruct (Cpio.is_directory e); by case_match.
  - intros dir es en Hes Hen. rewrite Hkind. case_decide; [by eauto|].
    destruct (Hd _ _ Hes) as [[_ ->]|(es0 & Hes0 & [->|[_ ->]])]; [by apply elem_of_nil in Hen|by eapply (v_names _ _ H)|].
    apply elem_of_app in Hen as [Hen| ->%list_elem_of_singleton]; [by eapply (v_names _ _ H)|done].
  - intros dir es Hes. destruct (Hd _ _ Hes) as [[_ ->]|(es0 & Hes0 & [->|[_ ->]])]; [cbn; lia|..]; pose proof (v_short _ _ H _ _ Hes0); [lia|].
    rewrite length_app. cbn. lia.
  - intros id i' Hi' Hty Hn. apply Hkeep in Hn as [Hn Hnew]. destruct (decide (id = Z.of_nat n + 1)) as [->|Hne].
    + cbn in Hi'. rewrite Hi in Hi'. injection Hi' as <-. destruct (Cpio.is_directory e); [by destruct Hnew|congruence].
    + cbn in Hi'. rewrite Hother in Hi' by done. by apply (v_nodir _ _ H id).
Qed.

Lemma load_entry_ok n s e : vfs_ok n s ->
  if loads e && (n <? Z.to_nat MAX_INODES)%nat then
    vfs_ok (S n) (load_entry e s) /\ OPEN_FILES (load_entry e s) = OPEN_FILES s /\
    contents (load_entry e s) = (if Cpio.is_directory e then contents s else <[Z.of_nat n + 1 := Cpio.data e]> (contents s)) /\
    forall es, Tmpfs.dirs (TMPFS s) !! 1 = Some es ->
      Tmpfs.dirs (TMPFS (load_entry e s)) !! 1 = Some (es ++ [Tmpfs.mkDirEntry (stored e) (Z.of_nat n + 1)])
  else load_entry e s = s.
Proof.
  intros H. destruct (loads e) eqn:Hl; cbn [andb]; [|by apply load_entry_skips]. rewrite load_entry_eq by done.
  destruct (Nat.ltb_spec n (Z.to_nat MAX_INODES)) as [Hn|Hn].
  2: { rewrite (alloc_inode_full n) by (apply H || lia). done. }
  destruct (alloc_inode n (INODES s) (if Cpio.is_directory e then Directory else File) (Tmpfs.fs_id (TMPFS s)) 0 (v_inodes _ _ H) Hn)
    as (tb & i & E & Htb & Hi & Ht & _ & _ & Ho). rewrite E, (v_root _ _ H). cbn zeta.
  destruct (Cpio.is_directory e) eqn:Hdir.
  - destruct (load_new n s tb i e H Htb Hi Ho) as (R1 & R2 & R3); rewrite ?Hdir in *; [done|done|]. by split_all.
  - destruct (update_inode (S n) tb (Z.of_nat n + 1) (set_size (Z.of_nat (length (Cpio.data e)))) Htb) as [Htb' Hg]; [done|].
    destruct (load_new n s (update tb (Z.of_nat n + 1) (set_size (Z.of_nat (length (Cpio.data e))))) (set_size (Z.of_nat (length (Cpio.data e))) i) e H Htb')
      as (R1 & R2 & R3); rewrite ?Hdir in *; [rewrite Hg, decide_True, Hi by done; done| |done|done|by split_all].
    intros id Hne. rewrite Hg, decide_False by done. by apply Ho.
Qed.

Lemma load_all_ok entries n s : vfs_ok n s ->
  exists n', vfs_ok n' (foldl (fun s e => load_entry e s) s entries) /\
    OPEN_FILES (foldl (fun s e => load_entry e s) s entries) = OPEN_FILES s.
Proof.
  revert n s. induction entries as [|e entries IH]; intros n s H; [by eauto|]. cbn [foldl].
  pose proof (load_entry_ok n s e H) as Hl. destruct (_ && _); [|by rewrite Hl; eauto].
  destruct Hl as (H' & E & _). destruct (IH _ _ H') as (n' & Hn' & E'). exists n'. split; [done|congruence].
Qed.

Lemma boot_ok archive : Z.of_nat (length archive) < 2 ^ 63 ->
  exists n s, boot archive = Done s /\ vfs_ok n s /\ OPEN_FILES s = OpenFileTable.new.
Proof.
  intros Hlen. destruct vfs_init_ok as (s & E & H & Hof & _). unfold boot. rewrite E. exec_simpl. unfold load_initramfs, Cpio.parse_cpio.
  destruct (CpioRuns.parse_loop_total (S (length archive)) archive 0 [] Hlen) as [[entries|e] ->]; [lia..| |]; exec_simpl; [|by eauto].
  destruct (load_all_ok entries 5 s H) as (n & Hn & E'). exists n. eexists. split; [done|]. split; [done|congruence].
Qed.

(** ** Paths *)
Lemma walk_kind n s components current id : vfs_ok n s -> is_Some (kind s current) ->
  walk (TMPFS s) current components = Some id -> is_Some (kind s id).
Proof.
  intros H. revert current. induction components as [|c cs IH]; intros current Hc E; cbn [walk] in E; [by injection E as <-|].
  destruct (bool_decide (c = [])); [by eapply IH|]. apply bind_Some in E as (next & Hl & E). apply (IH next); [|done].
  unfold Tmpfs.lookup in Hl. destruct (Utf8.valid c); [|done]. apply bind_Some in Hl as (es & Hes & Hl).
  apply bind_Some in Hl as ([k e] & He & Hl). injection Hl as <-. apply list_find_Some in He as (He & _).
  apply (v_names _ _ H current es); [done|]. by apply list_elem_of_lookup_2 in He.
Qed.

Lemma resolve_mount p : head p = Some MountTable.SLASH -> Z.of_nat (length p) <= 65 ->
  exists idx rest m, MountTable.resolve boot_mounts p = Done (Some (idx, rest)) /\ MountTable.get boot_mounts idx = Some m /\
    0 < MountTable.root_inode m <= 2.
Proof.
  intros Hp Hlen. unfold MountTable.resolve. rewrite best_mount_boot by done.
  set (idx := if MountTable.under p (str_bytes "/dev") then 1%nat else 0%nat).
  assert (exists m, MountTable.get boot_mounts idx = Some m /\ 0 < MountTable.root_inode m <= 2 /\
    (1 <= length (MountTable.path (MountTable.entries boot_mounts !!! idx)))%nat) as (m & Hm & Hr & Hl).
  { unfold idx. destruct (MountTable.under p _); eexists; (split; [reflexivity|]); cbn; lia. }
  cbn zeta. set (k := length (MountTable.path (MountTable.entries boot_mounts !!! idx))) in *. clearbody k.
  destruct (length p <=? k)%nat; [by eauto 10|]. destruct (Z.ltb_spec MountTable.MAX_MOUNT_PATH
    (Z.of_nat (length (drop (if p !!! k =? MountTable.SLASH then S k else k) p)))) as [Hlt|]; [|by eauto 10].
  exfalso. rewrite length_drop in Hlt. unfold MountTable.MAX_MOUNT_PATH in Hlt. destruct (_ =? _); lia.
Qed.

Lemma resolve_total n s p : vfs_ok n s -> Z.of_nat (length p) <= 65 ->
  returns (resolve_path s p) (fun r => forall id, r = Ok id -> is_Some (kind s id)).
Proof.
  intros H Hlen. pose proof (v_boot _ _ H) as H5. unfold resolve_path. destruct (bool_decide (head p = Some MountTable.SLASH)) eqn:Hp; [|by apply returns_done].
  apply bool_decide_eq_true in Hp. cbn [negb]. rewrite (v_mounts _ _ H).
  destruct (resolve_mount p Hp Hlen) as (idx & rest & m & -> & Hm & Hroot).
  exec_simpl. rewrite Hm. assert (is_Some (kind s (MountTable.root_inode m))) as Hk by (apply (kind_is_Some n); [done|lia]).
  destruct (bool_decide (rest = [])); [apply returns_done; by intros id [= <-]|].
  destruct (match MountTable.fs_type m with MountTable.Tmpfs => _ | MountTable.Devfs => _ end) as [id|] eqn:E; apply returns_done; [|done].
  intros id' [= <-]. destruct (MountTable.fs_type m); [by eapply walk_kind|].
  destruct (v_devfs _ _ H) as [st Hst]. unfold Devfs.lookup in E. rewrite Hst in E. cbn in E.
  apply (kind_is_Some n); [done|]. repeat case_match; try done; injection E as <-; lia.
Qed.

(** ** Operations and their effects *)
Inductive op :=
| Open (p : list Z) (fl : Z)
| Read (fid n : Z)
| Write (fid : Z) (data : list Z)
| Close (fid : Z)
| Stat (p : list Z)
| Fstat (fid : Z)
| Listing (fid n : Z)
| Attach (id fl : Z).

Inductive reply :=
| Opened (r : result Z VfsError)
| Bytes (r : result (list Z) VfsError)
| Wrote (r : result Z VfsError)
| Closed (r : result unit VfsError)
| Stats (r : result StatBuf VfsError).

Definition step (o : op) (s : Vfs.t) : exec (reply * Vfs.t) :=
  match o with
  | Open p fl => '(r, s') ← vfs_open p fl s; Done (Opened r, s')
  | Read fid n => let '(r, s') := vfs_read fid n s in Done (Bytes r, s')
  | Write fid data => '(r, s') ← vfs_write fid data s; Done (Wrote r, s')
  | Close fid => let '(r, s') := vfs_close fid s in Done (Closed r, s')
  | Stat p => r ← vfs_stat s p; Done (Stats r, s)
  | Fstat fid => Done (Stats (vfs_fstat s fid), s)
  | Listing fid n => let '(r, s') := vfs_readdir fid n s in Done (Bytes r, s')
  | Attach id fl => let '(r, s') := open_inode id fl s in Done (Opened (match r with Ok fid => Ok fid | Err _ => Err NoSpace end), s')
  end.

(** Paths whose rest fits the buffer for it, and files that fit an address space. *)
Definition op_ok (s : Vfs.t) (o : op) : Prop :=
  match o with
  | Open p _ | Stat p => Z.of_nat (length p) <= 65
  | Read _ n | Listing _ n => 0 <= n
  | Write fid data => Z.of_nat (length data) < 2 ^ 63 /\ forall id o fl d, desc s fid = Some (id, o, fl) -> contents s !! id = Some d ->
      Z.of_nat (length d) + Z.of_nat (length data) < 2 ^ 63
  | Attach id _ => target s id
  | Close _ | Fstat _ => True
  end.

(** Open file [fid] is now at offset [o] of [id]; the others are where they were. *)
Definition cursor (s s' : Vfs.t) (fid id o fl : Z) : Prop :=
  desc s' fid = Some (id, o, fl) /\ forall fid', fid' <> fid -> desc s' fid' = desc s fid'.

(** What reading [n] bytes at offset [o] gives. *)
Definition yields (s : Vfs.t) (id o n : Z) (bytes : list Z) : Prop :=
  match kind s id with
  | Some File => exists d, contents s !! id = Some d /\ bytes = take (Z.to_nat n) (drop (Z.to_nat o) d)
  | Some CharDevice =>
      (id = 3 /\ bytes = []) \/ (id = 4 /\ bytes = replicate (Z.to_nat n) 0) \/ (id = 5 /\ length bytes = Z.to_nat n)
  | _ => bytes = []
  end.

(** Writing inside a sequence or at its end. *)
Definition splice (o : Z) (data d : list Z) : list Z :=
  take (Z.to_nat o) d ++ data ++ drop (Z.to_nat o + length data) d.

Definition describes (s : Vfs.t) (id : Z) (st : StatBuf) : Prop :=
  st_inode_id st = id /\ type_u8 <$> kind s id = Some (st_inode_type st) /\
  forall d, contents s !! id = Some d -> st_size st = Z.of_nat (length d).

(** The directory entries from [o] on that fit [n] bytes. *)
Definition dir_bytes (s : Vfs.t) (es : list Tmpfs.DirEntry) : list Z :=
  es ≫= fun e => dirent (Tmpfs.inode_id e) (Tmpfs.name e) (default 0 (type_u8 <$> kind s (Tmpfs.inode_id e))).

Definition effect (o : op) (r : reply) (s s' : Vfs.t) : Prop :=
  match o, r with
  | Open p fl, Opened r => contents s' = contents s /\ exists rp, resolve_path s p = Done rp /\
      match r with
      | Ok fid => exists id, rp = Ok id /\ desc s fid = None /\ cursor s s' fid id 0 fl
      | Err e => s' = s /\ (rp = Err e \/ is_ok rp = true /\ e = NoSpace /\ forall fid, 0 < fid < 4096 -> is_Some (desc s fid))
      end
  | Read fid n, Bytes r => contents s' = contents s /\
      match desc s fid with
      | None => r = Err BadFileDescriptor /\ s' = s
      | Some (id, o, fl) =>
          match kind s id with
          | None => r = Err NotFound /\ s' = s
          | Some _ => exists bytes, r = Ok bytes /\ yields s id o n bytes /\ cursor s s' fid id (u64_add o (Z.of_nat (length bytes))) fl
          end
      end
  | Write fid data, Wrote r =>
      match desc s fid with
      | None => r = Err BadFileDescriptor /\ s' = s
      | Some (id, o, fl) =>
          match kind s id with
          | Some File => exists d, contents s !! id = Some d /\ r = Ok (Z.of_nat (length data)) /\
              contents s' = <[id := splice (if OpenFileTable.contains fl OpenFileTable.APPEND then Z.of_nat (length d) else o) data d]> (contents s) /\
              cursor s s' fid id (o + Z.of_nat (length data)) fl
          | Some CharDevice => contents s' = contents s /\ r = Ok (Z.of_nat (length data)) /\
              cursor s s' fid id (u64_add o (Z.of_nat (length data))) fl
          | Some Directory => r = Err NotAFile /\ s' = s
          | None => r = Err NotFound /\ s' = s
          end
      end
  | Close fid, Closed r => contents s' = contents s /\
      match desc s fid with
      | None => r = Err BadFileDescriptor /\ s' = s
      | Some _ => r = Ok tt /\ desc s' fid = None /\ forall fid', fid' <> fid -> desc s' fid' = desc s fid'
      end
  | Stat p, Stats r => s' = s /\ exists rp, resolve_path s p = Done rp /\
      match rp with Err e => r = Err e | Ok id => exists st, r = Ok st /\ describes s id st end
  | Fstat fid, Stats r => s' = s /\
      match desc s fid with
      | None => r = Err BadFileDescriptor
      | Some (id, _, _) => match kind s id with None => r = Err NotFound | Some _ => exists st, r = Ok st /\ describes s id st end
      end
  | Listing fid n, Bytes r => contents s' = contents s /\
      match desc s fid with
      | None => r = Err BadFileDescriptor /\ s' = s
      | Some (id, o, fl) =>
          match kind s id, Tmpfs.dirs (TMPFS s) !! id with
          | Some Directory, Some es =>
              let seen := take (Z.to_nat (n / DIRENT_SIZE)) (drop (Z.to_nat o) es) in
              r = Ok (dir_bytes s seen) /\
              cursor s s' fid id (Z.min o (Z.of_nat (length es)) + Z.of_nat (length seen)) fl
          | Some Directory, None | None, _ => r = Err NotFound /\ s' = s
          | _, _ => r = Err NotADirectory /\ s' = s
          end
      end
  | Attach id fl, Opened r => contents s' = contents s /\
      match r with
      | Ok fid => desc s fid = None /\ cursor s s' fid id 0 fl
      | Err e => s' = s /\ e = NoSpace /\ forall fid, 0 < fid < 4096 -> is_Some (desc s fid)
      end
  | _, _ => False
  end.

(** Names and kinds never change. *)
Definition names_stay (s s' : Vfs.t) : Prop :=
  MOUNTS s' = MOUNTS s /\ Tmpfs.dirs (TMPFS s') = Tmpfs.dirs (TMPFS s) /\
  (forall id, kind s' id = kind s id) /\ forall nm, Devfs.lookup (DEVFS s') nm = Devfs.lookup (DEVFS s) nm.

Lemma walk_dirs fs fs' current cs : Tmpfs.dirs fs' = Tmpfs.dirs fs -> walk fs' current cs = walk fs current cs.
Proof.
  intros E. revert current. induction cs as [|c cs IH]; intros current; [done|]. cbn [walk]. destruct (bool_decide (c = [])); [apply IH|].
  unfold Tmpfs.lookup. rewrite E. destruct (Utf8.valid c); [|done]. destruct (Tmpfs.dirs fs !! current) as [es|]; [|done]. cbn.
  destruct (list_find (fun e => Tmpfs.name e = c) es) as [[k e]|]; [|done]. cbn. apply IH.
Qed.

Lemma names_stay_resolve s s' p : names_stay s s' -> resolve_path s' p = resolve_path s p.
Proof.
  intros (E1 & E2 & _ & E3). unfold resolve_path. rewrite E1. destruct (negb _); [done|].
  destruct (MountTable.resolve (MOUNTS s) p) as [[[idx rest]|]| |]; exec_simpl; [|done..].
  destruct (MountTable.get (MOUNTS s) idx) as [m|]; [|done]. destruct (bool_decide (rest = [])); [done|].
  destruct (MountTable.fs_type m); [by rewrite (walk_dirs (TMPFS s) (TMPFS s'))|by rewrite E3].
Qed.

Lemma names_stay_refl s : names_stay s s.
Proof. by repeat split. Qed.

(** *** Moving a cursor *)
Lemma desc_get s fid id o fl : desc s fid = Some (id, o, fl) <->
  exists f, OpenFileTable.get (OPEN_FILES s) fid = Some f /\ OpenFileTable.inode_id f = id /\ OpenFileTable.offset f = o /\ OpenFileTable.flags f = fl.
Proof. unfold desc. rewrite fmap_Some. naive_solver. Qed.

Lemma move_cursor n s fid id o fl g o' : vfs_ok n s -> desc s fid = Some (id, o, fl) -> in_u 64 o' ->
  (forall d, contents s !! id = Some d -> o' <= Z.of_nat (length d)) ->
  (forall f, OpenFileTable.get (OPEN_FILES s) fid = Some f -> g f = OpenFileTable.set_offset o' f) ->
  (forall f, OpenFileTable.active (g f) = OpenFileTable.active f /\ OpenFileTable.ref_count (g f) = OpenFileTable.ref_count f) ->
  let s' := set_open_files (OpenFileTable.update (OPEN_FILES s) fid g) s in
  vfs_ok n s' /\ cursor s s' fid id o' fl.
Proof.
  intros H Hd Ho' Hb Hg Hkeep s'. pose proof Hd as (f & Hf & <- & <- & <-)%desc_get. destruct (update_ofile (OPEN_FILES s) fid g (v_ofiles _ _ H) Hkeep) as [Hof Hget].
  assert (cursor s s' fid (OpenFileTable.inode_id f) o' (OpenFileTable.flags f)) as Hcur.
  { split; unfold desc, s'; cbn [OPEN_FILES set_open_files].
    - rewrite Hget, decide_True, Hf by done. cbn. by rewrite (Hg f).
    - intros fid' Hne. by rewrite Hget, decide_False. }
  split; [|done]. destruct H as [A1 A2 A3 A4 A5 A6 A7 A8 A9 A10 A11]. split; try done.
  intros fid' id' o1 fl' Hd'. destruct Hcur as [Hc1 Hc2]. destruct (decide (fid' = fid)) as [->|Hne].
  - rewrite Hc1 in Hd'. injection Hd' as <- <- <-. destruct (A5 _ _ _ _ Hd) as (? & _ & _). by split_all.
  - rewrite Hc2 in Hd' by done. by apply (A5 fid' _ _ fl').
Qed.

Lemma advance_ok n s fid id o fl k : vfs_ok n s -> desc s fid = Some (id, o, fl) -> 0 <= k ->
  (forall d, contents s !! id = Some d -> o + k <= Z.of_nat (length d)) ->
  vfs_ok n (advance fid k s) /\ cursor s (advance fid k s) fid id (u64_add o k) fl.
Proof.
  intros H Hd Hk Hb. pose proof Hd as (f & Hf & _ & Ho & _)%desc_get. apply (move_cursor n s fid id o fl); [done|done|apply wrap_range; lia| | |].
  - intros d Hc. destruct (v_desc _ _ H _ _ _ _ Hd) as (_ & [Ho0 _] & _). etrans; [|by apply Hb]. unfold u64_add, wrap. apply Z.mod_le; lia.
  - intros f' Hf'. rewrite Hf in Hf'. injection Hf' as <-. by rewrite Ho.
  - done.
Qed.

Lemma names_stay_open_files s tb : names_stay s (set_open_files tb s).
Proof. by repeat split. Qed.

Lemma names_stay_trans s s' s'' : names_stay s s' -> names_stay s' s'' -> names_stay s s''.
Proof. intros (A & B & C & D) (A' & B' & C' & D'). unfold names_stay. split; [congruence|]. split; [congruence|]. split; intros; congruence. Qed.

Definition outcome (n : nat) (o : op) (s : Vfs.t) (r : reply * Vfs.t) : Prop :=
  vfs_ok n r.2 /\ names_stay s r.2 /\ effect o r.1 s r.2.

Lemma outcome_same n o s r : vfs_ok n s -> effect o r s s -> returns (Done (r, s)) (outcome n o s).
Proof. intros H He. apply returns_done. split; [done|]. split; [apply names_stay_refl|done]. Qed.

(** A new descriptor. *)
Lemma attach_ok n s id fl : vfs_ok n s -> target s id ->
  match open_inode id fl s with
  | (Ok fid, s') => vfs_ok n s' /\ names_stay s s' /\ contents s' = contents s /\ desc s fid = None /\ cursor s s' fid id 0 fl
  | (Err _, s') => s' = s /\ forall fid, 0 < fid < 4096 -> is_Some (desc s fid)
  end.
Proof.
  intros H Hid. unfold open_inode. pose proof (alloc_ofile (OPEN_FILES s) id fl (v_ofiles _ _ H)) as Ha.
  destruct (OpenFileTable.alloc id fl (OPEN_FILES s)) as [[fid|e] tb].
  - destruct Ha as (Hof & Hnone & Hnew & _ & Hother).
    assert (cursor s (set_open_files tb s) fid id 0 fl) as Hcur.
    { split; unfold desc; cbn [OPEN_FILES set_open_files]; [by rewrite Hnew|]. intros. by rewrite Hother. }
    split; [|split; [apply names_stay_open_files|]].
    + destruct H as [A1 A2 A3 A4 A5 A6 A7 A8 A9 A10 A11 A12 A13]. split; try done. intros fid' id' o' fl' Hd. destruct Hcur as [Hc1 Hc2].
      destruct (decide (fid' = fid)) as [->|Hne]; [|rewrite Hc2 in Hd by done; by apply (A5 fid' _ _ fl')].
      rewrite Hc1 in Hd. injection Hd as <- <- <-. split; [done|]. split; [done|]. intros d _. lia.
    + split; [done|]. split; [|done]. unfold desc. by rewrite Hnone.
  - destruct Ha as [-> Hfull]. split; [by destruct s|]. intros fid Hfid. unfold desc. rewrite fmap_is_Some. by apply Hfull.
Qed.

Lemma vfs_open_inode p fl s : vfs_open p fl s =
  (r ← resolve_path s p;
   match r with
   | Err e => Done (Err e, s)
   | Ok id =>
       match get (INODES s) id with
       | None => Done (Err NotFound, s)
       | Some _ => match open_inode id fl s with (Ok fid, s') => Done (Ok fid, s') | (Err _, _) => Done (Err NoSpace, s) end
       end
   end).
Proof.
  unfold vfs_open. destruct (resolve_path s p) as [[id|e]| |]; exec_simpl; [|done..]. destruct (get (INODES s) id); [|done].
  unfold open_inode. by destruct (OpenFileTable.alloc id fl (OPEN_FILES s)) as [[fid|e] tb].
Qed.

Lemma open_ok n s p fl : vfs_ok n s -> op_ok s (Open p fl) -> returns (step (Open p fl) s) (outcome n (Open p fl) s).
Proof.
  intros H Hlen. destruct (resolve_total n s p H Hlen) as (rp & E & Hk). unfold step. rewrite vfs_open_inode, E. exec_simpl.
  destruct rp as [id|e]; exec_simpl; [|apply outcome_same; [done|]; split; [done|]; exists (Err e); by auto].
  destruct (Hk id eq_refl) as [ty Hid]. pose proof Hid as (i & Hi & _)%fmap_Some. rewrite Hi.
  pose proof (attach_ok n s id fl H ltac:(left; eauto)) as Ha. destruct (open_inode id fl s) as [[fid|e] s']; exec_simpl.
  - destruct Ha as (H' & Hns & Hc & Hnone & Hcur). apply returns_done. split; [done|]. split; [done|]. split; [done|]. exists (Ok id). split; [done|]. by exists id.
  - destruct Ha as [_ Hfull]. apply outcome_same; [done|]. split; [done|]. exists (Ok id). split; [done|]. split; [done|]. right. by split_all.
Qed.

Lemma attach_step n s id fl : vfs_ok n s -> op_ok s (Attach id fl) -> returns (step (Attach id fl) s) (outcome n (Attach id fl) s).
Proof.
  intros H Hid. unfold step. pose proof (attach_ok n s id fl H Hid) as Ha. destruct (open_inode id fl s) as [[fid|e] s'].
  - destruct Ha as (H' & Hns & Hc & Hnone & Hcur). apply returns_done. split; [done|]. split; [done|]. by split.
  - destruct Ha as [-> Hfull]. by apply outcome_same.
Qed.

Lemma devfs_read id n d st : d = Devfs.mk 2 2 3 4 5 st true -> 0 <= n -> id = 3 \/ id = 4 \/ id = 5 ->
  exists bytes st', Devfs.read id n d = (bytes, Devfs.mk 2 2 3 4 5 st' true) /\
    (id = 3 /\ bytes = [] \/ id = 4 /\ bytes = replicate (Z.to_nat n) 0 \/ id = 5 /\ length bytes = Z.to_nat n).
Proof.
  intros -> Hn [-> | [-> | ->]]; unfold Devfs.read; cbn [Devfs.device_type].
  - eexists _, _. split; [reflexivity|by auto].
  - eexists _, _. split; [reflexivity|by auto].
  - change (Devfs.device_type _ 5) with (Some Devfs.Random). cbn iota. cbn [Devfs.lfsr_state].
    assert (forall k st, length (Devfs.random_bytes k st).1 = k) as Hl.
    { clear. induction k as [|k IH]; intros st; [done|]. cbn [Devfs.random_bytes]. destruct (Devfs.next_random_byte st) as [b st1].
      specialize (IH st1). destruct (Devfs.random_bytes k st1). cbn in *. by f_equal. }
    specialize (Hl (Z.to_nat n) st). destruct (Devfs.random_bytes (Z.to_nat n) st) as [bs st']. eexists _, _. split; [reflexivity|by auto].
Qed.

Lemma set_devfs_ok n s st : vfs_ok n s -> vfs_ok n (set_devfs (Devfs.mk 2 2 3 4 5 st true) s).
Proof. intros [A1 A2 A3 A4 A5 A6 A7 A8 A9 A10 A11 A12 A13]. split; try done. by exists st. Qed.

Lemma no_contents n s id ty : vfs_ok n s -> kind s id = Some ty -> ty <> File -> contents s !! id = None.
Proof. intros H Hk Hne. apply eq_None_not_Some. intros Hs%(v_files _ _ H). congruence. Qed.

Lemma file_read_ok n s fid k : vfs_ok n s -> op_ok s (Read fid k) -> returns (step (Read fid k) s) (outcome n (Read fid k) s).
Proof.
  intros H Hk. cbn in Hk. unfold step, vfs_read. destruct (OpenFileTable.get (OPEN_FILES s) fid) as [f|] eqn:Hf.
  2: { apply outcome_same; [done|]. split; [done|]. unfold desc. by rewrite Hf. }
  assert (desc s fid = Some (OpenFileTable.inode_id f, OpenFileTable.offset f, OpenFileTable.flags f)) as Hd by (apply desc_get; eauto).
  set (id := OpenFileTable.inode_id f) in *. set (o := OpenFileTable.offset f) in *. set (fl := OpenFileTable.flags f) in *.
  pose proof Hd as (_ & Ho & Hb)%(v_desc _ _ H). destruct (get (INODES s) id) as [i|] eqn:Hi.
  2: { apply outcome_same; [done|]. split; [done|]. rewrite Hd. unfold kind. by rewrite Hi. }
  assert (kind s id = Some (inode_type i)) as Hty by (unfold kind; by rewrite Hi).
  assert (exists bytes s1, (match inode_type i with
            | File | Directory => (Tmpfs.read (TMPFS s) id o k, s)
            | CharDevice => if Devfs.fs_id (DEVFS s) =? fs_id i then let '(bytes, d) := Devfs.read id k (DEVFS s) in (bytes, set_devfs d s) else ([], s)
            end) = (bytes, s1) /\ vfs_ok n s1 /\ OPEN_FILES s1 = OPEN_FILES s /\ contents s1 = contents s /\ names_stay s s1 /\ yields s id o k bytes /\
            forall d, contents s !! id = Some d -> o + Z.of_nat (length bytes) <= Z.of_nat (length d)) as (bytes & s1 & -> & H1 & E1 & E2 & Hns & Hy & Hlen).
  { unfold yields. rewrite Hty. destruct (inode_type i) eqn:Et.
    - destruct (v_file _ _ H _ _ Hi Et) as (d & Hdd & _). eexists _, _. split; [done|]. split_all; try done; [by apply names_stay_refl..| |].
      + exists d. split; [done|]. unfold Tmpfs.read. unfold contents in Hdd. by rewrite Hdd.
      + intros d' Hd'. specialize (Hb _ Hd'). unfold Tmpfs.read. unfold contents in Hd'. rewrite Hd'. rewrite length_take, length_drop. destruct Ho. lia.
    - assert (contents s !! id = None) as Hno by (by apply (no_contents n s id Directory)). eexists _, _. split; [done|].
      split_all; try done; [by apply names_stay_refl..| |]; unfold Tmpfs.read; unfold contents in Hno; rewrite Hno; [done|].
      intros d. unfold contents. by rewrite Hno.
    - destruct (v_dev _ _ H _ _ Hi Et) as [Hfs Hdev]. destruct (v_devfs _ _ H) as [st Est].
      destruct (devfs_read id k (DEVFS s) st Est Hk Hdev) as (bytes & st' & E & Hbs). rewrite E, Est, Hfs. eexists _, _. split; [done|].
      split; [by apply set_devfs_ok|]. split; [done|]. split; [done|]. split; [|split; [done|intros d; by rewrite (no_contents n s id CharDevice)]].
      split; [done|]. split; [done|]. split; [done|]. intros nm. cbn [DEVFS set_devfs]. by rewrite Est. }
  apply returns_done. assert (desc s1 fid = Some (id, o, fl)) as Hd1 by (unfold desc; by rewrite E1).
  destruct (advance_ok n s1 fid id o fl (Z.of_nat (length bytes)) H1 Hd1) as [H2 [C1 C2]]; [lia|by rewrite E2|].
  split; [done|]. split; [by eapply names_stay_trans, names_stay_open_files|]. cbn [effect fst snd]. rewrite Hd, Hty. split; [done|].
  exists bytes. split; [done|]. split; [done|]. split; [done|]. intros fid' Hne. rewrite C2 by done. unfold desc. by rewrite E1.
Qed.

(** *** Writing *)
Lemma tmpfs_write id o data d fs : Tmpfs.files fs !! id = Some d -> 0 <= o <= Z.of_nat (length d) ->
  Z.of_nat (length d) + Z.of_nat (length data) < 2 ^ 63 ->
  Tmpfs.write id o data fs = Done (Z.of_nat (length data), Tmpfs.set_files (<[id := splice o data d]> (Tmpfs.files fs)) fs).
Proof.
  intros Hd Ho Hlen. unfold Tmpfs.write. rewrite Hd. cbn [default from_option]. unfold Datatypes.id. rewrite u64_add_small by lia. unfold slice_set, splice.
  rewrite decide_True by (case_match; rewrite ?length_resize; lia). exec_simpl.
  replace (Z.to_nat (o + Z.of_nat (length data))) with (Z.to_nat o + length data)%nat by lia.
  match goal with |- Done (_, Tmpfs.set_files (<[_ := ?l]> _) _) = Done (_, Tmpfs.set_files (<[_ := ?r]> _) _) => enough (l = r) as -> by done end.
  destruct (Z.ltb_spec (Z.of_nat (length d)) (o + Z.of_nat (length data))); [|done]. f_equal.
  - rewrite resize_ge, take_app_le by lia. done.
  - f_equal. rewrite resize_ge, !drop_ge by (rewrite ?length_app, ?length_replicate; lia). done.
Qed.

Lemma length_splice o data d : 0 <= o <= Z.of_nat (length d) ->
  (length d <= length (splice o data d) /\ Z.to_nat o + length data <= length (splice o data d))%nat.
Proof. intros Ho. unfold splice. rewrite !length_app, length_take, length_drop. lia. Qed.

Lemma store_ok n s id i d d' : vfs_ok n s -> get (INODES s) id = Some i -> inode_type i = File -> contents s !! id = Some d ->
  (length d <= length d')%nat ->
  let fs := Tmpfs.set_files (<[id := d']> (Tmpfs.files (TMPFS s))) (TMPFS s) in
  let s' := set_inodes (update (INODES s) id (set_size (Tmpfs.file_size fs id))) (set_tmpfs fs s) in
  vfs_ok n s' /\ names_stay s s' /\ contents s' = <[id := d']> (contents s) /\ OPEN_FILES s' = OPEN_FILES s.
Proof.
  intros H Hi Ht Hd Hlen fs s'. destruct (update_inode n (INODES s) id (set_size (Tmpfs.file_size fs id)) (v_inodes _ _ H)) as [Hin Hget]; [done|].
  assert (Tmpfs.file_size fs id = Z.of_nat (length d')) as Esz.
  { unfold Tmpfs.file_size, fs. cbn [Tmpfs.files Tmpfs.set_files]. by rewrite lookup_insert_eq. }
  assert (forall id', kind s' id' = kind s id') as Hkind.
  { intros id'. unfold kind, s'. cbn [INODES set_inodes]. rewrite Hget. case_decide as Hc; [subst id'|done]. by rewrite Hi. }
  assert (contents s' = <[id := d']> (contents s)) as Hc by done. split; [|by repeat split].
  assert (forall id' i', get (INODES s') id' = Some i' -> exists i0, get (INODES s) id' = Some i0 /\ inode_type i' = inode_type i0 /\ fs_id i' = fs_id i0 /\
    size i' = if decide (id' = id) then Z.of_nat (length d') else size i0) as Hback.
  { intros id' i'. unfold s'. cbn [INODES set_inodes]. rewrite Hget. case_decide as Hcd; [|by eauto 10]. subst id'.
    rewrite Hi. intros [= <-]. exists i. cbn. rewrite Esz. auto. }
  destruct H as [A1 A2 A3 A4 A5 A6 A7 A8 A9 A10 A11 A12 A13]. split; try done.
  - intros id' i' Hi' Hty. destruct (Hback _ _ Hi') as (i0 & Hi0 & E1 & _ & ->). rewrite Hc. case_decide as Hcd; [subst id'|].
    + rewrite lookup_insert_eq. eauto.
    + rewrite lookup_insert_ne by done. apply (A2 id' i0); [done|congruence].
  - intros id'. rewrite Hc, Hkind. intros [<-|[_ Hs]]%lookup_insert_is_Some; [|by apply A3]. apply A3. eauto.
  - intros fid id' o fl Hds. destruct (A5 fid id' o fl Hds) as (K & O & B). split; [unfold target; by rewrite Hkind|]. split; [done|].
    rewrite Hc. intros d0 [[<- <-]|[Hne Hd0]]%lookup_insert_Some; [|by apply B]. specialize (B _ Hd). lia.
  - intros id' i' Hi' Hty. destruct (Hback _ _ Hi') as (i0 & Hi0 & E1 & -> & _). apply (A8 id' i0); [done|congruence].
  - intros dir es en Hes Hen. rewrite Hkind. by apply (A11 dir es).
  - intros id' i' Hi' Hty Hn. destruct (Hback _ _ Hi') as (i0 & Hi0 & E1 & -> & _). apply (A13 id' i0); [done|congruence|done].
Qed.

Lemma file_write_ok n s fid data : vfs_ok n s -> op_ok s (Write fid data) -> returns (step (Write fid data) s) (outcome n (Write fid data) s).
Proof.
  intros H [Hdl Hk]. unfold step, vfs_write. destruct (OpenFileTable.get (OPEN_FILES s) fid) as [f|] eqn:Hf; exec_simpl.
  2: { apply outcome_same; [done|]. unfold effect, desc. by rewrite Hf. }
  assert (desc s fid = Some (OpenFileTable.inode_id f, OpenFileTable.offset f, OpenFileTable.flags f)) as Hd by (apply desc_get; eauto).
  set (id := OpenFileTable.inode_id f) in *. set (o := OpenFileTable.offset f) in *. set (fl := OpenFileTable.flags f) in *.
  pose proof Hd as (_ & Ho & Hb)%(v_desc _ _ H). cbn zeta. destruct (get (INODES s) id) as [i|] eqn:Hi.
  2: { exec_simpl. apply outcome_same; [done|]. unfold effect. rewrite Hd. unfold kind. by rewrite Hi. }
  assert (kind s id = Some (inode_type i)) as Hty by (unfold kind; by rewrite Hi).
  destruct (inode_type i) eqn:Et.
  - destruct (v_file _ _ H _ _ Hi Et) as (d & Hdd & _). specialize (Hb _ Hdd). specialize (Hk _ _ _ _ Hd Hdd).
    assert (Tmpfs.file_size (TMPFS s) id = Z.of_nat (length d)) as -> by (unfold Tmpfs.file_size; unfold contents in Hdd; by rewrite Hdd).
    set (wo := if OpenFileTable.contains fl OpenFileTable.APPEND then Z.of_nat (length d) else o) in *.
    assert (0 <= wo <= Z.of_nat (length d)) as Hwo by (unfold wo; destruct Ho; case_match; lia).
    assert (o <= wo) as How by (unfold wo; case_match; lia).
    rewrite (tmpfs_write id wo data d) by done. exec_simpl. destruct (length_splice wo data d Hwo) as [Hl1 Hl2].
    destruct (store_ok n s id i d (splice wo data d) H Hi Et Hdd Hl1) as (H1 & Hns & Hc1 & Ho1). cbn zeta in *.
    set (s1 := set_inodes _ _) in *. apply returns_done. assert (desc s1 fid = Some (id, o, fl)) as Hd1 by (unfold desc; by rewrite Ho1).
    destruct (advance_ok n s1 fid id o fl (Z.of_nat (length data)) H1 Hd1) as [H2 [C1 C2]]; [lia| |].
    { rewrite Hc1, lookup_insert_eq. intros d' [= <-]. lia. }
    split; [done|]. split; [by eapply names_stay_trans, names_stay_open_files|]. cbn [effect fst snd]. rewrite Hd, Hty.
    exists d. split; [done|]. split; [done|]. split; [done|]. rewrite u64_add_small in C1 by (destruct Ho; lia). split; [done|].
    intros fid' Hne. rewrite C2 by done. unfold desc. by rewrite Ho1.
  - exec_simpl. apply outcome_same; [done|]. unfold effect. by rewrite Hd, Hty.
  - destruct (v_dev _ _ H _ _ Hi Et) as [Hfs Hdev]. destruct (v_devfs _ _ H) as [st Est].
    assert ((if Devfs.fs_id (DEVFS s) =? fs_id i then Devfs.write (DEVFS s) id (Z.of_nat (length data)) else 0) = Z.of_nat (length data)) as ->.
    { rewrite Est, Hfs. by destruct Hdev as [-> | [-> | ->]]. }
    exec_simpl. apply returns_done. destruct (advance_ok n s fid id o fl (Z.of_nat (length data)) H Hd) as [H2 Hcur]; [lia| |].
    { intros d. by rewrite (no_contents n s id CharDevice). }
    split; [done|]. split; [apply names_stay_open_files|]. cbn [effect fst snd]. by rewrite Hd, Hty.
Qed.

(** *** Closing, describing, listing *)
Lemma close_ok n s fid : vfs_ok n s -> returns (step (Close fid) s) (outcome n (Close fid) s).
Proof.
  intros H. unfold step, vfs_close. pose proof (release_ofile (OPEN_FILES s) fid (v_ofiles _ _ H)) as Hr.
  destruct (OpenFileTable.get (OPEN_FILES s) fid) as [f|] eqn:Hf.
  2: { destruct Hr as [e ->]. apply outcome_same; [done|]. unfold effect, desc. by rewrite Hf. }
  destruct Hr as (tb & -> & Hof & Hnone & Hother). apply returns_done.
  assert (desc (set_open_files tb s) fid = None) as D1 by (unfold desc; cbn [OPEN_FILES set_open_files]; by rewrite Hnone).
  assert (forall fid', fid' <> fid -> desc (set_open_files tb s) fid' = desc s fid') as D2
    by (intros fid' Hne; unfold desc; cbn [OPEN_FILES set_open_files]; by rewrite Hother).
  split; [|split; [apply names_stay_open_files|]].
  - destruct H as [A1 A2 A3 A4 A5 A6 A7 A8 A9 A10 A11 A12 A13]. split; try done. intros fid' id' o' fl' Hd. cbn [snd] in *.
    destruct (decide (fid' = fid)) as [->|Hne]; [congruence|]. rewrite D2 in Hd by done. by apply (A5 fid' _ _ fl').
  - unfold effect, desc at 1. rewrite Hf. by repeat split.
Qed.

Lemma stat_inode_ok n s id : vfs_ok n s -> is_Some (kind s id) -> exists st, vfs_stat_inode s id = Ok st /\ describes s id st.
Proof.
  intros H [ty Hty]. pose proof Hty as (i & Hi & ->)%fmap_Some. unfold vfs_stat_inode. rewrite Hi. eexists. split; [done|]. split; [|split]; cbn.
  - by apply (get_inode_id n _ _ _ (v_inodes _ _ H)).
  - by rewrite Hty.
  - intros d Hd. assert (kind s id = Some File) as Hk by (apply (v_files _ _ H); eauto). rewrite Hty in Hk. injection Hk as Hk.
    destruct (v_file _ _ H _ _ Hi Hk) as (d' & Hd' & ->). congruence.
Qed.

Lemma stat_ok n s p : vfs_ok n s -> op_ok s (Stat p) -> returns (step (Stat p) s) (outcome n (Stat p) s).
Proof.
  intros H Hlen. destruct (resolve_total n s p H Hlen) as (rp & E & Hk). unfold step, vfs_stat. rewrite E. exec_simpl.
  destruct rp as [id|e]; exec_simpl; (apply outcome_same; [done|]); (split; [done|]); eexists; (split; [done|]); [|done].
  by apply (stat_inode_ok n); [|apply Hk].
Qed.

Lemma fstat_ok n s fid : vfs_ok n s -> returns (step (Fstat fid) s) (outcome n (Fstat fid) s).
Proof.
  intros H. unfold step, vfs_fstat. apply outcome_same; [done|]. split; [done|]. destruct (OpenFileTable.get (OPEN_FILES s) fid) as [f|] eqn:Hf.
  - assert (desc s fid = Some (OpenFileTable.inode_id f, OpenFileTable.offset f, OpenFileTable.flags f)) as Hd by (apply desc_get; eauto).
    rewrite Hd. destruct (kind s (OpenFileTable.inode_id f)) as [ty|] eqn:Hk; [apply (stat_inode_ok n); [done|by exists ty]|].
    unfold vfs_stat_inode. unfold kind in Hk. by destruct (get (INODES s) (OpenFileTable.inode_id f)).
  - unfold desc. by rewrite Hf.
Qed.

Lemma length_dirent id nm ty : length (dirent id nm ty) = 64%nat.
Proof. unfold dirent. rewrite !length_app, !length_le_bytes, length_resize. done. Qed.

Lemma list_entries_spec es offset index buf_len out : 0 <= index -> Z.of_nat (length out) <= buf_len ->
  let seen := take (Z.to_nat ((buf_len - Z.of_nat (length out)) / DIRENT_SIZE)) (drop (Z.to_nat (offset - index)) es) in
  list_entries es offset index buf_len out =
    (out ++ (seen ≫= fun e => dirent e.1.1 e.1.2 e.2), Z.max index (Z.min offset (index + Z.of_nat (length es))) + Z.of_nat (length seen)).
Proof.
  revert index out. induction es as [|[[id nm] ty] es IH]; intros index out Hi Hout; cbn zeta.
  - rewrite drop_nil, take_nil, app_nil_r. cbn. f_equal. lia.
  - cbn [list_entries]. destruct (Z.ltb_spec index offset) as [Hlt|Hge].
    + rewrite IH by lia. cbn zeta. replace (Z.to_nat (offset - index)) with (S (Z.to_nat (offset - (index + 1)))) by lia.
      cbn [drop]. f_equal. cbn [length]. lia.
    + replace (Z.to_nat (offset - index)) with 0%nat by lia. rewrite drop_0. unfold DIRENT_SIZE in *.
      destruct (Z.ltb_spec buf_len (Z.of_nat (length out) + 64)) as [Hb|Hb].
      * rewrite Z.div_small by lia. change (Z.to_nat 0) with 0%nat. cbn [take mbind list_bind]. rewrite app_nil_r. f_equal. cbn [length]. lia.
      * rewrite IH by (rewrite ?length_app, ?length_dirent; lia). cbn zeta. rewrite length_app, length_dirent.
        replace (Z.to_nat (offset - (index + 1))) with 0%nat by lia. rewrite drop_0.
        replace (buf_len - Z.of_nat (length out)) with (buf_len - Z.of_nat (length out + 64) + 1 * 64) by lia.
        rewrite Z.div_add by lia. rewrite Z2Nat.inj_add, Nat.add_1_r by (try apply Z.div_pos; lia). cbn [take mbind list_bind fst snd length].
        rewrite <- app_assoc. f_equal. cbn [length]. lia.
Qed.

Lemma listing_ok n s fid k : vfs_ok n s -> op_ok s (Listing fid k) -> returns (step (Listing fid k) s) (outcome n (Listing fid k) s).
Proof.
  intros H Hk. cbn in Hk. unfold step, vfs_readdir. destruct (OpenFileTable.get (OPEN_FILES s) fid) as [f|] eqn:Hf.
  2: { apply outcome_same; [done|]. split; [done|]. unfold desc. by rewrite Hf. }
  assert (desc s fid = Some (OpenFileTable.inode_id f, OpenFileTable.offset f, OpenFileTable.flags f)) as Hd by (apply desc_get; eauto).
  set (id := OpenFileTable.inode_id f) in *. set (o := OpenFileTable.offset f) in *. set (fl := OpenFileTable.flags f) in *.
  pose proof Hd as (_ & [Ho _] & Hb)%(v_desc _ _ H). cbn zeta. destruct (get (INODES s) id) as [i|] eqn:Hi.
  2: { apply outcome_same; [done|]. split; [done|]. rewrite Hd. unfold kind. by rewrite Hi. }
  assert (kind s id = Some (inode_type i)) as Hty by (unfold kind; by rewrite Hi).
  destruct (bool_decide (inode_type i = Directory)) eqn:Hdir; cbn [negb].
  2: { apply bool_decide_eq_false in Hdir. apply outcome_same; [done|]. split; [done|]. rewrite Hd, Hty. by destruct (inode_type i). }
  apply bool_decide_eq_true in Hdir. rewrite Hdir in Hty. unfold Tmpfs.readdir. destruct (Tmpfs.dirs (TMPFS s) !! id) as [es|] eqn:Hes.
  2: { destruct (v_devfs _ _ H) as [st Est]. rewrite Est. cbn [Devfs.fs_id].
       destruct (Z.eqb_spec 2 (fs_id i)) as [E|_]; [by destruct (v_nodir _ _ H _ _ Hi Hdir Hes)|].
       apply outcome_same; [done|]. split; [done|]. by rewrite Hd, Hty, Hes. }
  rewrite list_entries_spec by (cbn; lia). cbn zeta. replace (o - 0) with o by lia. cbn [length app]. unfold finish_listing. cbn [fst snd].
  rewrite <- fmap_drop, <- fmap_take, !length_fmap. replace (k - Z.of_nat 0) with k by lia.
  set (seen := take (Z.to_nat (k / DIRENT_SIZE)) (drop (Z.to_nat o) es)).
  replace (Z.max 0 (Z.min o (0 + Z.of_nat (length es)))) with (Z.min o (Z.of_nat (length es))) by lia.
  assert (Z.min o (Z.of_nat (length es)) + Z.of_nat (length seen) <= Z.of_nat (length es)) as Hbound.
  { unfold seen. rewrite length_take, length_drop. lia. }
  pose proof (v_short _ _ H _ _ Hes) as Hshort. pose proof (io_n _ _ (v_inodes _ _ H)) as Hn. unfold MAX_INODES in Hn.
  apply returns_done. destruct (move_cursor n s fid id o fl (OpenFileTable.set_offset (Z.min o (Z.of_nat (length es)) + Z.of_nat (length seen)))
    (Z.min o (Z.of_nat (length es)) + Z.of_nat (length seen)) H Hd) as [H1 Hcur]; [split; lia| |done|done|].
  { intros d. by rewrite (no_contents n s id Directory). }
  split; [done|]. split; [apply names_stay_open_files|]. cbn [effect fst snd]. rewrite Hd, Hty, Hes. split; [done|]. split; [|done]. f_equal.
  unfold dir_bytes. fold seen. clear. induction seen as [|e seen IH]; [done|]. cbn. rewrite <- IH. f_equal. unfold kind.
  by destruct (get (INODES s) (Tmpfs.inode_id e)).
Qed.

Lemma vfs_step_ok n s o : vfs_ok n s -> op_ok s o -> returns (step o s) (outcome n o s).
Proof.
  intros H Ho. destruct o; [by apply open_ok|by apply file_read_ok|by apply file_write_ok|by apply close_ok|by apply stat_ok|by apply fstat_ok|by apply listing_ok|by apply attach_step].
Qed.

(** ** Files of the initial archive *)

(** The root directory names a file [nm] with content [d]; or has no such name. *)
Definition found_at (s : Vfs.t) (nm : list Z) (id : Z) (d : list Z) : Prop :=
  contents s !! id = Some d /\
  exists es k, Tmpfs.dirs (TMPFS s) !! 1 = Some es /\ list_find (fun e => Tmpfs.name e = nm) es = Some (k, Tmpfs.mkDirEntry nm id).

Definition absent (s : Vfs.t) (nm : list Z) : Prop :=
  exists es, Tmpfs.dirs (TMPFS s) !! 1 = Some es /\ Forall (fun e => Tmpfs.name e <> nm) es.

Lemma load_keeps n s e nm id d : vfs_ok n s -> found_at s nm id d ->
  exists n', vfs_ok n' (load_entry e s) /\ OPEN_FILES (load_entry e s) = OPEN_FILES s /\ found_at (load_entry e s) nm id d.
Proof.
  intros H Hf. pose proof (load_entry_ok n s e H) as Hl. destruct (_ && _); [|rewrite Hl; by eauto].
  destruct Hl as (H' & Ho & Hc & Hd). destruct Hf as (Hid & es & k & Hes & Hk). exists (S n). split; [done|]. split; [done|]. split.
  - rewrite Hc. destruct (Cpio.is_directory e); [done|]. rewrite lookup_insert_ne; [done|].
    assert (is_Some (kind s id)) as Hr by (rewrite (v_files _ _ H) by eauto; eauto). apply (kind_is_Some n) in Hr; [lia|done].
  - eexists _, k. split; [by apply Hd|]. by apply list_find_app_l.
Qed.

Lemma load_absent n s e nm : vfs_ok n s -> absent s nm -> stored e <> nm ->
  exists n', vfs_ok n' (load_entry e s) /\ (n' <= S n)%nat /\ OPEN_FILES (load_entry e s) = OPEN_FILES s /\ absent (load_entry e s) nm.
Proof.
  intros H Ha Hne. pose proof (load_entry_ok n s e H) as Hl. destruct (_ && _); [|rewrite Hl; by eauto 10].
  destruct Hl as (H' & Ho & _ & Hd). destruct Ha as (es & Hes & Hf). exists (S n). split; [done|]. split; [done|]. split; [done|].
  eexists. split; [by apply Hd|]. apply Forall_app. split; [done|]. by apply Forall_singleton.
Qed.

Lemma load_finds n s e nm : vfs_ok n s -> (n < Z.to_nat MAX_INODES)%nat -> absent s nm -> loads e = true -> Cpio.is_directory e = false -> stored e = nm ->
  vfs_ok (S n) (load_entry e s) /\ OPEN_FILES (load_entry e s) = OPEN_FILES s /\ found_at (load_entry e s) nm (Z.of_nat n + 1) (Cpio.data e).
Proof.
  intros H Hn (es & Hes & Hf) Hl Hdir <-. pose proof (load_entry_ok n s e H) as Hok. rewrite Hl, (proj2 (Nat.ltb_lt _ _) Hn), Hdir in Hok.
  destruct Hok as (H' & Ho & Hc & Hd). split; [done|]. split; [done|]. split; [by rewrite Hc, lookup_insert_eq|].
  eexists _, _. split; [by apply Hd|]. rewrite list_find_app_r; [|by apply list_find_None]. cbn. by rewrite decide_True.
Qed.

Lemma load_all_keeps es n s nm id d : vfs_ok n s -> found_at s nm id d ->
  let s' := foldl (fun s e => load_entry e s) s es in
  exists n', vfs_ok n' s' /\ OPEN_FILES s' = OPEN_FILES s /\ found_at s' nm id d.
Proof.
  revert n s. induction es as [|e es IH]; intros n s H Hf; [by eauto|]. destruct (load_keeps n s e nm id d H Hf) as (n1 & H1 & <- & Hf1).
  by apply (IH n1).
Qed.

Lemma load_all_absent es n s nm : vfs_ok n s -> absent s nm -> Forall (fun e => stored e <> nm) es ->
  let s' := foldl (fun s e => load_entry e s) s es in
  exists n', vfs_ok n' s' /\ (n' <= n + length es)%nat /\ OPEN_FILES s' = OPEN_FILES s /\ absent s' nm.
Proof.
  revert n s. induction es as [|e es IH]; intros n s H Ha Hes; [by exists n; split_all; [done|lia|..]|]. apply Forall_cons in Hes as [He Hes].
  destruct (load_absent n s e nm H Ha He) as (n1 & H1 & Hn1 & <- & Ha1). destruct (IH n1 _ H1 Ha1 Hes) as (n2 & H2 & Hn2 & ? & ?).
  exists n2. split; [done|]. split; [cbn; lia|done].
Qed.

Lemma resolve_found n s nm id d : vfs_ok n s -> plain nm -> Utf8.valid nm = true -> found_at s nm id d ->
  resolve_path s (MountTable.SLASH :: nm) = Done (Ok id).
Proof.
  intros H Hp Hu (_ & es & k & Hes & Hk). unfold resolve_path. rewrite bool_decide_eq_true_2 by done. cbn [negb].
  rewrite (v_mounts _ _ H), resolve_plain by done. exec_simpl. change (MountTable.get boot_mounts 0) with (Some (MountTable.mkMount [MountTable.SLASH] 1 MountTable.Tmpfs 1 true)).
  destruct Hp as (Hne & Hs & _). cbn iota. rewrite bool_decide_eq_false_2 by done. cbn [MountTable.fs_type MountTable.root_inode].
  rewrite split_slash_plain by done. cbn [walk]. rewrite bool_decide_eq_false_2 by done. unfold Tmpfs.lookup. rewrite Hu, Hes. cbn. by rewrite Hk.
Qed.

Lemma clean_plain nm : MountTable.SLASH ∉ nm -> clean nm = nm.
Proof.
  intros Hs. unfold clean. rewrite bool_decide_eq_false_2; [done|]. intros Ht. apply Hs. rewrite <- (take_drop 2 nm), Ht. set_solver.
Qed.

Section initramfs.
Context (pre post : list (list Z * list Z * bool)) (nm data : list Z).
Let archive := Cpio.build_test_cpio (pre ++ (nm, data, false) :: post).
Context (Hsizes : Forall (fun e => CpioRuns.sizes_ok e /\ e.1.1 <> Cpio.TRAILER) (pre ++ (nm, data, false) :: post)).
Context (Hlen : Z.of_nat (length archive) < 2 ^ 63) (Hpre : (length pre <= 1018)%nat).
Context (Hp : plain nm) (Hdot : nm <> str_bytes ".") (Hu : Utf8.valid nm = true).
Context (Hfirst : Forall (fun '(nm', d, b) => stored (CpioRuns.found nm' d b) <> nm) pre).

Lemma boot_finds : exists n s id, boot archive = Done s /\ vfs_ok n s /\ OPEN_FILES s = OpenFileTable.new /\ found_at s nm id data.
Proof using All.
  destruct Hp as (Hne & Hs & Hdev & _). destruct vfs_init_ok as (s0 & E & H & Hof & Hdirs & _). unfold boot. rewrite E. exec_simpl.
  unfold load_initramfs. unfold archive in *. rewrite CpioRuns.archives_round_trip by done. exec_simpl.
  unfold CpioRuns.expected. rewrite fmap_app, fmap_cons, filter_app, filter_cons_True, foldl_app by done. cbn [foldl].
  set (es1 := filter _ (_ <$> pre)). destruct (load_all_absent es1 5 s0 nm H) as (n1 & H1 & Hn1 & Ho1 & Ha1).
  - eexists. rewrite Hdirs. split; [by rewrite lookup_singleton_eq|]. apply Forall_singleton. intros Ed. by apply Hdev.
  - unfold es1. apply list.Forall_forall. intros e [_ He]%list_elem_of_filter. apply list_elem_of_fmap in He as ([[nm' d] b] & -> & He).
    rewrite list.Forall_forall in Hfirst. by apply Hfirst in He.
  - assert (length es1 <= length pre)%nat as Hl1 by (unfold es1; rewrite length_filter, length_fmap; done).
    set (s1 := foldl _ s0 es1) in *. assert (clean nm = nm) as Hc by (by apply clean_plain).
    destruct (load_finds n1 s1 (CpioRuns.found nm data false) nm H1) as (H2 & Ho2 & Hf2); [unfold MAX_INODES; lia|done| |done|..].
    + unfold loads. change (Cpio.name (CpioRuns.found nm data false)) with nm. rewrite Hc, !bool_decide_eq_false_2; try done.
      intros ->. apply Hs. set_solver.
    + unfold stored. cbn. by rewrite Hc, Hu.
    + destruct (load_all_keeps (filter (fun e => Cpio.name e <> str_bytes ".") ((fun '(nm', d, b) => CpioRuns.found nm' d b) <$> post)) _ _ _ _ _ H2 Hf2) as (n3 & H3 & Ho3 & Hf3).
      eexists n3, _, _. split; [reflexivity|]. split; [exact H3|]. split; [congruence|exact Hf3].
Qed.

End initramfs.

(** ** Theorems *)
Inductive reachable (archive : list Z) : Vfs.t -> Prop :=
| reachable_boot s : boot archive = Done s -> reachable archive s
| reachable_step o r s s' : reachable archive s -> op_ok s o -> step o s = Done (r, s') -> reachable archive s'.

Lemma vfs_reachable_ok archive s : Z.of_nat (length archive) < 2 ^ 63 -> reachable archive s -> exists n, vfs_ok n s.
Proof.
  intros Hlen. induction 1 as [s E|o r s s' _ [n H] Ho E].
  - destruct (boot_ok archive Hlen) as (n & s' & E' & H & _). exists n. congruence.
  - destruct (vfs_step_ok n s o H Ho) as (x & E' & H' & _). exists n. rewrite E in E'. injection E' as <-. done.
Qed.


Definition sample_archive : list Z :=
  Cpio.build_test_cpio [(str_bytes "etc", [], true); (str_bytes "etc/motd", str_bytes "hi", false); (str_bytes "motd", str_bytes "hello", false)].




(** ** Limits of the file system *)

(** What a sequence of calls after boot replies. *)
Fixpoint replies (os : list op) (s : Vfs.t) : exec (list reply) :=
  match os with
  | [] => Done []
  | o :: os' =>
      '(r, s) ← step o s;
      rs ← replies os' s;
      Done (r :: rs)
  end.

Definition booted (os : list op) : exec (list reply) := s ← boot sample_archive; replies os s.

(** A path with more than 64 bytes after its mount point panics the kernel. *)
Lemma long_path_panics : booted [Open (MountTable.SLASH :: replicate 65 97) OpenFileTable.READ] = Panicked.
Proof. vm_compute. reflexivity. Qed.

(** A file of the archive inside a directory cannot be opened. *)
Lemma nested_file_is_lost : booted [Open (str_bytes "/etc/motd") OpenFileTable.READ] = Done [Opened (Err NotFound)].
Proof. vm_compute. reflexivity. Qed.

(** [/dev] can be opened but not listed. *)
Lemma devices_are_not_listed :
  booted [Open (str_bytes "/dev") OpenFileTable.READ; Listing 1 4096] = Done [Opened (Ok 1); Bytes (Err NotFound)].
Proof. vm_compute. reflexivity. Qed.

(** A descriptor opened for reading can write. *)
Lemma reader_can_write :
  booted [Open (str_bytes "/motd") OpenFileTable.READ; Write 1 (str_bytes "J"); Close 1; Open (str_bytes "/motd") OpenFileTable.READ; Read 1 9]
  = Done [Opened (Ok 1); Wrote (Ok 1); Closed (Ok tt); Opened (Ok 1); Bytes (Ok (str_bytes "Jello"))].
Proof. vm_compute. reflexivity. Qed.

(** After an append the offset is not at the end of the file. *)
Lemma append_leaves_offset_behind :
  booted [Open (str_bytes "/motd") OpenFileTable.APPEND; Write 1 (str_bytes "!"); Read 1 9]
  = Done [Opened (Ok 1); Wrote (Ok 1); Bytes (Ok (str_bytes "ello!"))].
Proof. vm_compute. reflexivity. Qed.

End VfsRuns.
