(* ===== verification/Syscalls.v ===== *)
(** * System calls (src/kernel/src/x86/syscall.rs, src/kernel/src/vfs/stdio.rs)

    What a user program can ask of the kernel: the process, file and socket calls
    of [syscall_dispatch] (numbers 0 to 17, and 23), which find the current process, go
    through its handle table, and end in the file system or the network stack.

    A call works on the registers of the caller ([Frame]) and on the globals
    ([t]). User memory is a function from addresses to bytes; that the buffers a
    program passes are mapped is assumed. Each [try_lock] of the scheduler or
    the process table can fail while an interrupted code holds the lock: [lk i]
    tells whether the [i]-th attempt of the call succeeds. Messages to the serial
    console are left out; [serial] holds what programs write.

    The calls of the display, the keyboard, DNS, TLS, poll and windows (18 to 22
    and 24 to 34) are the parameter [other]; [Desktop] models them. *)

From S2P Require Import Prelude Wire Handle Process NetWire Sockets NetStack ProcNet Cpio Vfs.

Module Syscalls.
Import ProcessTable.

Definition U64_MAX : Z := 0xFFFFFFFFFFFFFFFF.

(** Addresses from here on are the kernel's. *)
Definition USER_END : Z := 0x0000800000000000.

Definition SOCKET_FD_FLAG : Z := 2 ^ 63.

Definition KERNEL_CS : Z := 0x08.
Definition KERNEL_DS : Z := 0x10.

Record Frame := mkFrame {
  rax : Z;
  rdi : Z;
  rsi : Z;
  rdx : Z;
  r10 : Z;
  r8 : Z;
  rip : Z;
  cs : Z;
  rflags : Z;
  rsp : Z;
  ss : Z;
}.

Definition set_rax (v : Z) (f : Frame) : Frame :=
  mkFrame v (rdi f) (rsi f) (rdx f) (r10 f) (r8 f) (rip f) (cs f) (rflags f) (rsp f) (ss f).

(** ** User memory: a cell holds eight bits *)
Definition load (m : Z -> Z) (a len : Z) : list Z := (fun i => m (a + i)) <$> seqZ 0 len.

Definition store (m : Z -> Z) (a : Z) (bs : list Z) : Z -> Z :=
  fun x => if (a <=? x) && (x <? a + Z.of_nat (length bs)) then wrap 8 (bs !!! Z.to_nat (x - a)) else m x.

(** [*stat_ptr = stat]: the fields in the layout of [repr(C)]; the padding keeps
    what it held. *)
Definition store_stat (m : Z -> Z) (a : Z) (st : Vfs.StatBuf) : Z -> Z :=
  let m := store m a (le_bytes 4 (Vfs.st_inode_id st) ++ le_bytes 1 (Vfs.st_inode_type st)) in
  let m := store m (a + 8) (le_bytes 8 (Vfs.st_size st)) in
  store m (a + 16) (le_bytes 2 (Vfs.st_fs_id st) ++ replicate 5 0).

Section Calls.
Context {D T : Type} `{NicDriver D} `{Timer T}.

Record t := mk {
  kernel : Process.Kernel (N:=NetStack.Net (D:=D) (T:=T));
  vfs : Vfs.t;
  serial : list Z;
  memory : Z -> Z;
  kernel_rsp : Z;
}.

Definition set_kernel (v : Process.Kernel) (s : t) : t := mk v (vfs s) (serial s) (memory s) (kernel_rsp s).
Definition set_vfs (v : Vfs.t) (s : t) : t := mk (kernel s) v (serial s) (memory s) (kernel_rsp s).
Definition set_memory (v : Z -> Z) (s : t) : t := mk (kernel s) (vfs s) (serial s) v (kernel_rsp s).
Definition print (bs : list Z) (s : t) : t := mk (kernel s) (vfs s) (serial s ++ bs) (memory s) (kernel_rsp s).

Definition net (s : t) : NetStack.Net := Process.sockets (kernel s).
Definition table (s : t) : ProcessTable.t := Process.table (kernel s).
Definition sched (s : t) : Scheduler.t := Process.sched (kernel s).

Definition set_net (n : NetStack.Net) (s : t) : t :=
  set_kernel (Process.mkKernel (table s) (sched s) (Process.store (kernel s)) (Process.bus (kernel s)) n) s.
Definition set_procs (tb : ProcessTable.t) (sc : Scheduler.t) (s : t) : t := set_kernel (Process.with_procs (kernel s) tb sc) s.

(** ** The current process *)
Definition get_current_pid (free : bool) (s : t) : option Z := if free then Scheduler.current (sched s) else None.

(** Its identifier and control block: one attempt at each of the two locks. *)
Definition current_pcb (lk : nat -> bool) (s : t) : option (Z * Pcb.t) :=
  pid ← get_current_pid (lk 0%nat) s;
  if lk 1%nat then pcb ← get (table s) pid; Some (pid, pcb) else None.

Definition later (k : nat) (lk : nat -> bool) (i : nat) : bool := lk (k + i)%nat.

Definition resolve_fd (lk : nat -> bool) (fd : Z) (s : t) : exec (option Z) :=
  match current_pcb lk s with
  | None => Done None
  | Some (_, pcb) =>
      r ← HandleTable.resolve (Pcb.handle_table pcb) (HandleId.pack (wrap 8 fd) 0);
      Done (match r with Ok cap_id => Some (wrap 32 cap_id) | Err _ => None end)
  end.

Definition resolve_socket_fd (lk : nat -> bool) (fd : Z) (s : t) : exec (option Z) :=
  match current_pcb lk s with
  | None => Done None
  | Some (_, pcb) =>
      r ← HandleTable.resolve (Pcb.handle_table pcb) (HandleId.pack (wrap 8 fd) 0);
      Done (match r with
            | Ok value => if negb (Z.land value SOCKET_FD_FLAG =? 0) then Some (wrap 32 (Z.land value (lnot_u 64 SOCKET_FD_FLAG))) else None
            | Err _ => None
            end)
  end.

Definition alloc_handle (lk : nat -> bool) (value : Z) (s : t) : exec (option Z * t) :=
  match current_pcb lk s with
  | None => Done (None, s)
  | Some (pid, pcb) =>
      '(r, ht) ← HandleTable.alloc (Pcb.handle_table pcb) value;
      Done (match r with Ok handle => Some (HandleId.slot handle) | Err _ => None end,
            set_procs (update (table s) pid (Pcb.set_handle_table ht)) (sched s) s)
  end.

(** [setup_stdio]. *)
Definition setup_stdio (pid : Z) (s : t) : exec t :=
  '(stdin_of, stdout_of, stderr_of, v) ← Vfs.open_stdio (vfs s);
  let s := set_vfs v s in
  match get (table s) pid with
  | None => Done s
  | Some pcb =>
      '(_, ht) ← HandleTable.alloc (Pcb.handle_table pcb) stdin_of;
      '(_, ht) ← HandleTable.alloc ht stdout_of;
      '(_, ht) ← HandleTable.alloc ht stderr_of;
      Done (set_procs (update (table s) pid (Pcb.set_handle_table ht)) (sched s) s)
  end.

(** ** Files *)
Definition syscall_open (lk : nat -> bool) (path : list Z) (flags : Z) (s : t) : exec (Z * t) :=
  '(r, v) ← Vfs.vfs_open path flags (vfs s);
  let s := set_vfs v s in
  match r with
  | Err _ => Done (U64_MAX, s)
  | Ok open_file_id =>
      match current_pcb lk s with
      | None => Done (U64_MAX, s)
      | Some (pid, pcb) =>
          '(h, ht) ← HandleTable.alloc (Pcb.handle_table pcb) open_file_id;
          let s := set_procs (update (table s) pid (Pcb.set_handle_table ht)) (sched s) s in
          match h with
          | Ok handle => Done (HandleId.slot handle, s)
          | Err _ => Done (U64_MAX, set_vfs (Vfs.vfs_close open_file_id (vfs s)).2 s)
          end
      end
  end.

(** The bytes go to the caller's buffer at [buf_ptr]. *)
Definition syscall_read (lk : nat -> bool) (fd buf_ptr len : Z) (s : t) : exec (Z * t) :=
  r ← resolve_fd lk fd s;
  match r with
  | None => Done (U64_MAX, s)
  | Some open_file_id =>
      let '(r, v) := Vfs.vfs_read open_file_id len (vfs s) in
      let s := set_vfs v s in
      match r with
      | Ok bytes => Done (Z.of_nat (length bytes), set_memory (store (memory s) buf_ptr bytes) s)
      | Err _ => Done (U64_MAX, s)
      end
  end.

Definition syscall_vfs_write (lk : nat -> bool) (fd : Z) (data : list Z) (s : t) : exec (Z * t) :=
  r ← resolve_fd lk fd s;
  match r with
  | None => Done (U64_MAX, s)
  | Some open_file_id =>
      if match OpenFileTable.get (Vfs.OPEN_FILES (vfs s)) open_file_id with
         | Some f => Vfs.is_serial_inode (OpenFileTable.inode_id f)
         | None => false
         end
      then Done (Z.of_nat (length data), print data s)
      else
        '(r, v) ← Vfs.vfs_write open_file_id data (vfs s);
        Done (match r with Ok n => n | Err _ => U64_MAX end, set_vfs v s)
  end.

Definition syscall_close (lk : nat -> bool) (fd : Z) (s : t) : exec (Z * t) :=
  r ← resolve_fd lk fd s;
  match r with
  | None => Done (U64_MAX, s)
  | Some open_file_id =>
      s ← match current_pcb (later 2 lk) s with
          | None => Done s
          | Some (pid, pcb) =>
              '(_, ht) ← HandleTable.release (Pcb.handle_table pcb) (HandleId.pack (wrap 8 fd) 0);
              Done (set_procs (update (table s) pid (Pcb.set_handle_table ht)) (sched s) s)
          end;
      let '(r, v) := Vfs.vfs_close open_file_id (vfs s) in
      Done (match r with Ok _ => 0 | Err _ => U64_MAX end, set_vfs v s)
  end.

Definition syscall_stat (path : list Z) (stat_buf_addr : Z) (s : t) : exec (Z * t) :=
  r ← Vfs.vfs_stat (vfs s) path;
  match r with
  | Ok st => Done (0, set_memory (store_stat (memory s) stat_buf_addr st) s)
  | Err _ => Done (U64_MAX, s)
  end.

Definition syscall_fstat (lk : nat -> bool) (fd stat_buf_addr : Z) (s : t) : exec (Z * t) :=
  r ← resolve_fd lk fd s;
  match r with
  | None => Done (U64_MAX, s)
  | Some open_file_id =>
      match Vfs.vfs_fstat (vfs s) open_file_id with
      | Ok st => Done (0, set_memory (store_stat (memory s) stat_buf_addr st) s)
      | Err _ => Done (U64_MAX, s)
      end
  end.

Definition syscall_getdents (lk : nat -> bool) (fd buf_ptr len : Z) (s : t) : exec (Z * t) :=
  r ← resolve_fd lk fd s;
  match r with
  | None => Done (U64_MAX, s)
  | Some open_file_id =>
      let '(r, v) := Vfs.vfs_readdir open_file_id len (vfs s) in
      let s := set_vfs v s in
      match r with
      | Ok bytes => Done (Z.of_nat (length bytes), set_memory (store (memory s) buf_ptr bytes) s)
      | Err _ => Done (U64_MAX, s)
      end
  end.

(** ** Sockets *)
Definition flagged (sock_id : Z) : Z := Z.lor sock_id SOCKET_FD_FLAG.

(** [Ok(()) => 0, Err(_) => u64::MAX]. *)
Definition status {A E} (r : result A E) : Z := match r with Ok _ => 0 | Err _ => U64_MAX end.
Definition count_of {E} (r : result Z E) : Z := match r with Ok n => n | Err _ => U64_MAX end.

(** A handle for a new socket. *)
Definition socket_handle {E} (lk : nat -> bool) (r : result Z E) (s : t) : exec (Z * t) :=
  match r with
  | Err _ => Done (U64_MAX, s)
  | Ok sock_id =>
      '(fd, s) ← alloc_handle lk (flagged sock_id) s;
      Done (default U64_MAX fd, s)
  end.

Definition socket_type (sock_type : Z) : option SocketType :=
  match sock_type with 1 => Some Stream | 2 => Some Datagram | _ => None end.

Definition socket_protocol (protocol : Z) : option Protocol :=
  match protocol with 6 => Some Tcp | 17 => Some Udp | _ => None end.

Definition syscall_socket (lk : nat -> bool) (sock_type protocol : Z) (s : t) : exec (Z * t) :=
  match socket_type sock_type, socket_protocol protocol with
  | Some st, Some proto =>
      let owner := default KERNEL (get_current_pid (lk 0%nat) s) in
      let '(n, r) := NetStack.socket_create st proto owner (net s) in
      socket_handle (later 1 lk) r (set_net n s)
  | _, _ => Done (U64_MAX, s)
  end.

(** What the calls on a socket share: the descriptor is resolved, the operation
    runs, and [reply] is what the caller sees of its result. *)
Definition on_socket {A} (lk : nat -> bool) (fd : Z) (f : Z -> NetStack.Net -> exec (NetStack.Net * A))
    (reply : A -> t -> exec (Z * t)) (s : t) : exec (Z * t) :=
  r ← resolve_socket_fd lk fd s;
  match r with
  | None => Done (U64_MAX, s)
  | Some sock_id =>
      '(n, r) ← f sock_id (net s);
      reply r (set_net n s)
  end.

Definition address (addr_u32 port : Z) : SocketAddr.t := SocketAddr.mk (Ipv4Addr.from_u32 addr_u32) port.

Definition syscall_bind (lk : nat -> bool) (fd addr_u32 port : Z) : t -> exec (Z * t) :=
  on_socket lk fd (fun id n => Done (NetStack.socket_bind id (address addr_u32 port) n)) (fun r s => Done (status r, s)).

Definition syscall_listen (lk : nat -> bool) (fd : Z) : t -> exec (Z * t) :=
  on_socket lk fd (fun id n => Done (NetStack.socket_listen id n)) (fun r s => Done (status r, s)).

Definition syscall_accept (lk : nat -> bool) (fd : Z) : t -> exec (Z * t) :=
  on_socket lk fd NetStack.socket_accept (socket_handle (later 2 lk)).

Definition syscall_connect (lk : nat -> bool) (fd addr_u32 port : Z) : t -> exec (Z * t) :=
  on_socket lk fd (fun id => NetStack.socket_connect id (address addr_u32 port)) (fun r s => Done (status r, s)).

Definition syscall_send (lk : nat -> bool) (fd : Z) (data : list Z) : t -> exec (Z * t) :=
  on_socket lk fd (fun id => NetStack.socket_send id data) (fun r s => Done (count_of r, s)).

Definition syscall_sendto (lk : nat -> bool) (fd : Z) (data : list Z) (dest_ip dest_port : Z) : t -> exec (Z * t) :=
  on_socket lk fd (fun id => NetStack.socket_sendto id data (address dest_ip dest_port)) (fun r s => Done (count_of r, s)).

Definition syscall_recv (lk : nat -> bool) (fd buf_ptr len : Z) : t -> exec (Z * t) :=
  on_socket lk fd (fun id => NetStack.socket_recv id len)
    (fun r s =>
       match r with
       | Ok bytes => Done (Z.of_nat (length bytes), set_memory (store (memory s) buf_ptr bytes) s)
       | Err _ => Done (U64_MAX, s)
       end).

Definition syscall_shutdown (lk : nat -> bool) (fd : Z) : t -> exec (Z * t) :=
  on_socket lk fd NetStack.socket_shutdown (fun r s => Done (status r, s)).

(** ** Processes *)

(** SYS_EXIT: the process leaves the scheduler, and its context goes on in the
    kernel's idle loop at [dead_loop]. *)
Definition sys_exit (lk : nat -> bool) (exit_code : Z) (s : t) : t :=
  match get_current_pid (lk 0%nat) s with
  | None => s
  | Some pid =>
      let sc := Scheduler.dequeue (sched s) pid in
      let stop p := Pcb.set_exit_code exit_code (Pcb.set_exit_reason (Some ExitReason.Normal) (Pcb.set_state Terminated p)) in
      set_procs (if lk 1%nat then update (table s) pid stop else table s) sc s
  end.

Definition exit_frame (dead_loop : Z) (s : t) (f : Frame) : Frame :=
  mkFrame (rax f) (rdi f) (rsi f) (rdx f) (r10 f) (r8 f) dead_loop KERNEL_CS 0x202 (kernel_rsp s) KERNEL_DS.

(** SYS_YIELD. *)
Definition sys_yield (lk : nat -> bool) (s : t) : t :=
  match current_pcb lk s with
  | None => s
  | Some (pid, _) => set_procs (update (table s) pid (Pcb.set_time_slice_remaining 0)) (sched s) s
  end.

(** ** Dispatch *)
Definition reply (f : Frame) (r : exec (Z * t)) : exec (Frame * t) := '(v, s) ← r; Done (set_rax v f, s).

Definition refused (f : Frame) (s : t) : exec (Frame * t) := Done (set_rax U64_MAX f, s).

Definition syscall_dispatch (other : Frame -> t -> exec (Frame * t)) (dead_loop : Z) (lk : nat -> bool) (f : Frame) (s : t)
  : exec (Frame * t) :=
  match rax f with
  | 0 => let s' := sys_exit lk (rdi f) s in Done (exit_frame dead_loop s' f, s')
  | 1 => Done (set_rax 0 f, sys_yield lk s)
  | 2 =>
      if (USER_END <=? rsi f) || (4096 <=? rdx f) then refused f s
      else
        let data := load (memory s) (rsi f) (rdx f) in
        if (rdi f =? 1) || (rdi f =? 2) then Done (set_rax (rdx f) f, print data s)
        else reply f (syscall_vfs_write lk (rdi f) data s)
  | 3 => Done (set_rax (default 0 (get_current_pid (lk 0%nat) s)) f, s)
  | 4 =>
      if (USER_END <=? rdi f) || (256 <? rsi f) then refused f s
      else reply f (syscall_open lk (load (memory s) (rdi f) (rsi f)) (wrap 32 (rdx f)) s)
  | 5 =>
      if (USER_END <=? rsi f) || (4096 <=? rdx f) then refused f s
      else reply f (syscall_read lk (rdi f) (rsi f) (rdx f) s)
  | 6 => reply f (syscall_close lk (rdi f) s)
  | 7 =>
      if (USER_END <=? rdi f) || (256 <? rsi f) || (USER_END <=? rdx f) then refused f s
      else reply f (syscall_stat (load (memory s) (rdi f) (rsi f)) (rdx f) s)
  | 8 =>
      if USER_END <=? rsi f then refused f s
      else reply f (syscall_fstat lk (rdi f) (rsi f) s)
  | 9 =>
      if (USER_END <=? rsi f) || (65536 <=? rdx f) then refused f s
      else reply f (syscall_getdents lk (rdi f) (rsi f) (rdx f) s)
  | 10 => reply f (syscall_socket lk (rdi f) (rsi f) s)
  | 11 => reply f (syscall_bind lk (rdi f) (wrap 32 (rsi f)) (wrap 16 (rdx f)) s)
  | 12 => reply f (syscall_listen lk (rdi f) s)
  | 13 => reply f (syscall_accept lk (rdi f) s)
  | 14 => reply f (syscall_connect lk (rdi f) (wrap 32 (rsi f)) (wrap 16 (rdx f)) s)
  | 15 =>
      if (USER_END <=? rsi f) || (65536 <? rdx f) then refused f s
      else reply f (syscall_send lk (rdi f) (load (memory s) (rsi f) (rdx f)) s)
  | 16 =>
      if (USER_END <=? rsi f) || (65536 <? rdx f) then refused f s
      else reply f (syscall_recv lk (rdi f) (rsi f) (rdx f) s)
  | 17 => reply f (syscall_shutdown lk (rdi f) s)
  | 23 =>
      if (USER_END <=? rsi f) || (65536 <? rdx f) then refused f s
      else reply f (syscall_sendto lk (rdi f) (load (memory s) (rsi f) (rdx f)) (wrap 32 (r10 f)) (wrap 16 (r8 f)) s)
  | n => if (18 <=? n) && (n <=? 34) then other f s else refused f s
  end.

End Calls.
End Syscalls.
