(* ===== verification/SyscallSpec.v ===== *)
(** * What every system call keeps

    The invariants of processes, network and file system together, and that each
    call returns and keeps them, changes no control block but the caller's, and
    writes user memory only in the buffer it was given. *)

From S2P Require Import Prelude Wire Handle Process ProcOps NetWire NetWireSpec Sockets NetStack NetInv.
From S2P Require Import ProcNet Cpio Vfs VfsSpec VfsTheorems Syscalls.

Module SyscallSpec.
Import ProcessTable Syscalls.

Lemma length_load m a len : 0 <= len -> Z.of_nat (length (load m a len)) = len.
Proof. intros. unfold load. rewrite length_fmap, length_seqZ. lia. Qed.

Lemma load_bytes m a len : (forall x, in_u 8 (m x)) -> Forall (in_u 8) (load m a len).
Proof. intros Hm. unfold load. apply Forall_fmap, Forall_true. intros i. apply Hm. Qed.

Lemma store_other m a bs x : ~ (a <= x < a + Z.of_nat (length bs)) -> store m a bs x = m x.
Proof. intros Hx. unfold store. destruct (Z.leb_spec a x), (Z.ltb_spec x (a + Z.of_nat (length bs))); cbn; (done || lia). Qed.

Lemma store_bytes m a bs x : in_u 8 (m x) -> in_u 8 (store m a bs x).
Proof. intros Hm. unfold store. destruct (_ && _); [|done]. apply wrap_range. lia. Qed.

Lemma load_store m a bs : Forall (in_u 8) bs -> load (store m a bs) a (Z.of_nat (length bs)) = bs.
Proof.
  intros Hb. apply list_eq. intros i. unfold load. rewrite list_lookup_fmap. destruct (decide (i < length bs)%nat) as [Hi|Hi].
  - rewrite (lookup_seqZ_lt 0 (Z.of_nat (length bs)) i) by lia. cbn [fmap option_fmap option_map]. unfold store. rewrite Z.add_0_l.
    destruct (Z.leb_spec a (a + Z.of_nat i)), (Z.ltb_spec (a + Z.of_nat i) (a + Z.of_nat (length bs))); try lia. cbn [andb].
    replace (Z.to_nat (a + Z.of_nat i - a)) with i by lia. destruct (lookup_lt_is_Some_2 bs i Hi) as [b E].
    rewrite (list_lookup_total_correct _ _ _ E), E. f_equal. apply wrap_small. apply (Forall_lookup_1 _ _ _ _ Hb E).
  - rewrite lookup_seqZ_ge by lia. by rewrite lookup_ge_None_2 by lia.
Qed.

(** ** The operations of the file system, one by one *)
Section Files.
Import VfsRuns.

Lemma vfs_open_spec n v p fl : vfs_ok n v -> Z.of_nat (length p) <= 65 ->
  exists r v', Vfs.vfs_open p fl v = Done (r, v') /\ vfs_ok n v' /\ effect (Open p fl) (Opened r) v v'.
Proof.
  intros H Hp. destruct (open_ok n v p fl H Hp) as (x & E & H' & _ & He). unfold step in E.
  destruct (Vfs.vfs_open p fl v) as [[r v']| |]; [|done..]. exec_simpl. injection E as <-. by exists r, v'.
Qed.

Lemma vfs_read_spec n v fid k : vfs_ok n v -> 0 <= k ->
  exists r v', Vfs.vfs_read fid k v = (r, v') /\ vfs_ok n v' /\ effect (Read fid k) (Bytes r) v v'.
Proof.
  intros H Hk. destruct (file_read_ok n v fid k H Hk) as (x & E & H' & _ & He). unfold step in E.
  destruct (Vfs.vfs_read fid k v) as [r v']. injection E as <-. by exists r, v'.
Qed.

Lemma vfs_write_spec n v fid data : vfs_ok n v -> op_ok v (Write fid data) ->
  exists r v', Vfs.vfs_write fid data v = Done (r, v') /\ vfs_ok n v' /\ effect (Write fid data) (Wrote r) v v'.
Proof.
  intros H Hp. destruct (file_write_ok n v fid data H Hp) as (x & E & H' & _ & He). unfold step in E.
  destruct (Vfs.vfs_write fid data v) as [[r v']| |]; [|done..]. exec_simpl. injection E as <-. by exists r, v'.
Qed.

Lemma vfs_close_spec n v fid : vfs_ok n v ->
  exists r v', Vfs.vfs_close fid v = (r, v') /\ vfs_ok n v' /\ effect (Close fid) (Closed r) v v'.
Proof.
  intros H. destruct (close_ok n v fid H) as (x & E & H' & _ & He). unfold step in E.
  destruct (Vfs.vfs_close fid v) as [r v']. injection E as <-. by exists r, v'.
Qed.

Lemma vfs_readdir_spec n v fid k : vfs_ok n v -> 0 <= k ->
  exists r v', Vfs.vfs_readdir fid k v = (r, v') /\ vfs_ok n v' /\ effect (Listing fid k) (Bytes r) v v'.
Proof.
  intros H Hk. destruct (listing_ok n v fid k H Hk) as (x & E & H' & _ & He). unfold step in E.
  destruct (Vfs.vfs_readdir fid k v) as [r v']. injection E as <-. by exists r, v'.
Qed.

(** The open file an operation works on. *)
Definition acts_on (o : op) : option Z :=
  match o with
  | Read fid _ | Write fid _ | Close fid | Listing fid _ => Some fid
  | _ => None
  end.

Lemma effect_desc o r v v' fid x : effect o r v v' -> acts_on o <> Some fid -> desc v fid = Some x -> desc v' fid = Some x.
Proof.
  intros He Hne Hd. assert (forall fid0 id o' fl, Some fid0 <> Some fid -> cursor v v' fid0 id o' fl -> desc v' fid = Some x) as Hcur.
  { intros fid0 id o' fl Hn [_ Hc]. rewrite Hc by congruence. done. }
  destruct o, r; cbn [effect acts_on] in *; try done.
  - destruct He as (_ & rp & _ & He). destruct r as [fid0|e]; [|by destruct He as [-> _]].
    destruct He as (id & _ & Hnone & Hc). eapply (Hcur fid0); [congruence|done].
  - destruct He as [_ He]. destruct (desc v fid0) as [[[id o] fl]|]; [|by destruct He as [_ ->]]. destruct (kind v id); [|by destruct He as [_ ->]].
    destruct He as (bytes & _ & _ & Hc). by eapply Hcur.
  - destruct (desc v fid0) as [[[id o] fl]|]; [|by destruct He as [_ ->]]. destruct (kind v id) as [[]|]; try by destruct He as [_ ->].
    + destruct He as (d & _ & _ & _ & Hc). by eapply Hcur.
    + destruct He as (_ & _ & Hc). by eapply Hcur.
  - destruct He as [_ He]. destruct (desc v fid0) as [[[id o] fl]|]; [|by destruct He as [_ ->]]. destruct He as (_ & _ & Hc). rewrite Hc by congruence. done.
  - by destruct He as [-> _].
  - by destruct He as [-> _].
  - destruct He as [_ He]. destruct (desc v fid0) as [[[id o] fl]|]; [|by destruct He as [_ ->]].
    destruct (kind v id) as [[]|]; [by destruct He as [_ ->]| |by destruct He as [_ ->]..].
    destruct (Tmpfs.dirs (Vfs.TMPFS v) !! id); [|by destruct He as [_ ->]]. destruct He as [_ Hc]. by eapply Hcur.
  - destruct He as [_ He]. destruct r as [fid0|e]; [|by destruct He as [-> _]]. destruct He as [Hnone Hc]. eapply (Hcur fid0); [congruence|done].
Qed.

(** A read fits the buffer. *)
Lemma read_fits n v fid k bytes v' : vfs_ok n v -> 0 <= k -> effect (Read fid k) (Bytes (Ok bytes)) v v' -> Z.of_nat (length bytes) <= k.
Proof.
  intros H Hk [_ He]. destruct (desc v fid) as [[[id o] fl]|]; [|by destruct He]. destruct (kind v id) as [ty|] eqn:Ek; [|by destruct He].
  destruct He as (bs & [= <-] & Hy & _). unfold yields in Hy. rewrite Ek in Hy. destruct ty.
  - destruct Hy as (d & _ & ->). rewrite length_take. lia.
  - subst. cbn. lia.
  - destruct Hy as [[_ ->]|[[_ ->]|[_ Hl]]]; [cbn; lia|rewrite length_replicate; lia|lia].
Qed.

Lemma listing_fits n v fid k bytes v' : vfs_ok n v -> 0 <= k -> effect (Listing fid k) (Bytes (Ok bytes)) v v' -> Z.of_nat (length bytes) <= k.
Proof.
  intros H Hk [_ He]. destruct (desc v fid) as [[[id o] fl]|]; [|by destruct He].
  destruct (kind v id) as [[]|]; try by destruct He. destruct (Tmpfs.dirs (Vfs.TMPFS v) !! id) as [es|]; [|by destruct He].
  destruct He as [[= ->] _]. set (seen := take _ _). assert (length seen <= Z.to_nat (k / Vfs.DIRENT_SIZE))%nat as Hs.
  { unfold seen. rewrite length_take. lia. }
  assert (length (dir_bytes v seen) = 64 * length seen)%nat as ->.
  { clear. unfold dir_bytes. induction seen as [|e seen IH]; [done|]. cbn [mbind list_bind]. rewrite length_app, length_dirent.
    change (list_bind _ _ ?f seen) with (seen ≫= f). rewrite IH. cbn [length]. lia. }
  unfold Vfs.DIRENT_SIZE in Hs. pose proof (Z.mul_div_le k 64 ltac:(lia)). lia.
Qed.

End Files.

Section Calls.
Context {D T : Type} `{NicDriver D} `{Timer T}.
Notation state := (Syscalls.t (D:=D) (T:=T)).
Implicit Types s : state.

Record sys_ok (n : nat) (s : state) : Prop := {
  k_procs : ProcOps.proc_inv (table s) (sched s) ∅;
  k_net : NetInv.net_ok (net s);
  k_vfs : VfsRuns.vfs_ok n (vfs s);
  k_mem : forall x, in_u 8 (memory s x);
  k_pids : next_pid (table s) < 2 ^ 32;
}.

(** The current process has a handle whose value, cut to 32 bits, is [fid]. *)
Definition held (s : state) (fid : Z) : Prop := exists pid pcb h c,
  Scheduler.current (sched s) = Some pid /\ get (table s) pid = Some pcb /\ HandleTable.resolve (Pcb.handle_table pcb) h = Done (Ok c) /\ wrap 32 c = fid.

(** The open files that the current process has no handle for stay as they are. *)
Definition files_stay (s : state) (v : Vfs.t) : Prop :=
  forall fid x, ~ held s fid -> VfsRuns.desc (vfs s) fid = Some x -> VfsRuns.desc v fid = Some x.

Lemma files_stay_effect s v o r : VfsRuns.effect o r (vfs s) v -> (forall fid, acts_on o = Some fid -> held s fid) -> files_stay s v.
Proof. intros He Hh fid x Hn Hd. eapply effect_desc; [exact He| |exact Hd]. intros E. by apply Hn, Hh. Qed.

Lemma files_stay_refl s v : v = vfs s -> files_stay s v.
Proof. intros ->. by intros fid x _. Qed.

(** What a call that answers [r] after [s] leaves as it was: the scheduler, the
    processes other than the current one, and the memory outside [a .. b). *)
Record kept (n : nat) (s : state) (a b : Z) (r : Z * state) : Prop := {
  p_ok : sys_ok n r.2;
  p_value : in_u 64 r.1;
  p_others : forall pid, Scheduler.current (sched s) <> Some pid -> get (table r.2) pid = get (table s) pid;
  p_memory : forall x, ~ (a <= x < b) -> memory r.2 x = memory s x;
  p_sched : sched r.2 = sched s;
  p_files : files_stay s (vfs r.2);
}.

Lemma kept_refl n s a b v : sys_ok n s -> in_u 64 v -> kept n s a b (v, s).
Proof. intros Hs Hv. split; try done. by apply files_stay_refl. Qed.

Lemma max_u64 : in_u 64 U64_MAX.
Proof. done. Qed.

Lemma kept_weaken n s a b r : kept n s 0 0 r -> kept n s a b r.
Proof. intros [P1 P2 P3 P4 P5 P6]. split; try done. intros x _. apply P4. lia. Qed.

Lemma sys_ok_vfs n s v : sys_ok n s -> VfsRuns.vfs_ok n v -> sys_ok n (set_vfs v s).
Proof. intros [A B C M X] Hv. by split. Qed.

Lemma sys_ok_memory n s a bs : sys_ok n s -> sys_ok n (set_memory (store (memory s) a bs) s).
Proof. intros [A B C M X]. split; try done. intros x. apply store_bytes, M. Qed.

Lemma sys_ok_net n s net' : sys_ok n s -> NetInv.net_ok net' -> sys_ok n (set_net net' s).
Proof. intros [A B C M X] Hv. by split. Qed.

Lemma sys_ok_print n s bs : sys_ok n s -> sys_ok n (print bs s).
Proof. intros [A B C M X]. by split. Qed.

(** A quiet change of one control block. *)
Lemma sys_ok_pcb n s pid f : sys_ok n s ->
  (forall pcb, Pcb.state (f pcb) = Pcb.state pcb /\ Pcb.effective_priority (f pcb) = Pcb.effective_priority pcb) ->
  (forall pcb, get (table s) pid = Some pcb -> ProcOps.stays f pcb) ->
  sys_ok n (set_procs (update (table s) pid f) (sched s) s).
Proof.
  intros [[Ht Hs] B C M X] Hq Hf. split; try done. split; [by apply ProcOps.update_ok|]. by apply SchedInv.quiet_update.
Qed.

Lemma sys_ok_handles n s pid pcb ht m : sys_ok n s -> get (table s) pid = Some pcb -> HandleSpec.represents ht m ->
  sys_ok n (set_procs (update (table s) pid (Pcb.set_handle_table ht)) (sched s) s).
Proof.
  intros Hs Hp Hm. apply sys_ok_pcb; [done|done|]. intros pcb' Hp'. destruct (ProcOps.to_pcb _ (ProcOps.pi_table _ _ _ (k_procs _ _ Hs)) _ _ Hp').
  unfold ProcOps.stays. cbn. split; [done|]. split; [done|]. split; [done|]. split; [done|]. split; [done|]. split; [set_solver|]. intros _. by exists m.
Qed.

(** ** The current process *)
Lemma current_pcb_Some lk s pid pcb : current_pcb lk s = Some (pid, pcb) ->
  Scheduler.current (sched s) = Some pid /\ get (table s) pid = Some pcb.
Proof.
  unfold current_pcb, get_current_pid. destruct (lk 0%nat); [|done]. cbn. destruct (Scheduler.current (sched s)) as [p|]; [|done]. cbn.
  destruct (lk 1%nat); [|done]. destruct (get (table s) p) as [q|] eqn:E; [|done]. cbn. intros [= <- <-]. done.
Qed.

Lemma handle_table_ok n s pid pcb : sys_ok n s -> get (table s) pid = Some pcb ->
  exists m, HandleSpec.represents (Pcb.handle_table pcb) m.
Proof. intros Hs Hp. by destruct (ProcOps.to_pcb _ (ProcOps.pi_table _ _ _ (k_procs _ _ Hs)) _ _ Hp). Qed.

(** Writing the handle table of the current process. *)
Lemma kept_handles n s a b pid pcb ht m v : sys_ok n s -> Scheduler.current (sched s) = Some pid -> get (table s) pid = Some pcb ->
  HandleSpec.represents ht m -> in_u 64 v ->
  kept n s a b (v, set_procs (update (table s) pid (Pcb.set_handle_table ht)) (sched s) s).
Proof.
  intros Hs Hc Hp Hm Hv. split; [by eapply sys_ok_handles|done| |done|done|by apply files_stay_refl].
  intros pid' Hne. cbn [snd]. unfold get, table, update. cbn. rewrite lookup_alter_ne; [done|]. congruence.
Qed.

Lemma resolve_fd_ok n lk fd s : sys_ok n s -> returns (resolve_fd lk fd s) (fun r => forall fid, r = Some fid -> held s fid).
Proof.
  intros Hs. unfold resolve_fd. destruct (current_pcb lk s) as [[pid pcb]|] eqn:E; [|by apply returns_done].
  apply current_pcb_Some in E as [Hc Hp]. destruct (handle_table_ok n s pid pcb Hs Hp) as [m Hm].
  destruct (HandleSpec.resolve_spec _ _ (HandleId.pack (wrap 8 fd) 0) Hm) as (r & Er & _). rewrite Er. exec_simpl. apply returns_done.
  intros fid. destruct r as [c|e]; [|done]. intros [= <-]. by exists pid, pcb, (HandleId.pack (wrap 8 fd) 0), c.
Qed.

Lemma resolve_socket_fd_ok n lk fd s : sys_ok n s -> returns (resolve_socket_fd lk fd s) (fun _ => True).
Proof.
  intros Hs. unfold resolve_socket_fd. destruct (current_pcb lk s) as [[pid pcb]|] eqn:E; [|by apply returns_done].
  apply current_pcb_Some in E as [_ Hp]. destruct (handle_table_ok n s pid pcb Hs Hp) as [m Hm].
  destruct (HandleSpec.resolve_spec _ _ (HandleId.pack (wrap 8 fd) 0) Hm) as (r & -> & _). exec_simpl. by apply returns_done.
Qed.

Lemma slot_u64 h : in_u 64 (HandleId.slot h).
Proof. pose proof (HandleIdFacts.slot_range h) as [? ?]. split; lia. Qed.

Lemma alloc_handle_ok n lk value s : sys_ok n s ->
  returns (alloc_handle lk value s) (fun r => kept n s 0 0 (default U64_MAX r.1, r.2)).
Proof.
  intros Hs. unfold alloc_handle. destruct (current_pcb lk s) as [[pid pcb]|] eqn:E; [|by apply returns_done, kept_refl].
  apply current_pcb_Some in E as [Hc Hp]. destruct (handle_table_ok n s pid pcb Hs Hp) as [m Hm].
  destruct (HandleSpec.alloc_spec _ _ value Hm) as [(h & ht & -> & _ & _ & _ & Hm')|[-> _]]; exec_simpl; apply returns_done; cbn [fst snd default].
  - eapply kept_handles; try done. apply slot_u64.
  - by eapply kept_handles.
Qed.

(** ** Files *)

(** Bytes delivered to the caller's buffer. *)
Lemma kept_deliver n s v a len bytes : sys_ok n s -> VfsRuns.vfs_ok n v -> files_stay s v -> Z.of_nat (length bytes) <= len -> len < 2 ^ 64 ->
  let s1 := set_vfs v s in kept n s a (a + len) (Z.of_nat (length bytes), set_memory (store (memory s1) a bytes) s1).
Proof.
  intros Hs Hv Hfs Hl Hlen s1. split; cbn [fst snd]; [by apply sys_ok_memory, sys_ok_vfs|split; lia|done| |done|done].
  intros x Hx. unfold s1. cbn [memory set_memory set_vfs]. apply store_other. lia.
Qed.

Lemma kept_vfs n s a b v w : sys_ok n s -> VfsRuns.vfs_ok n v -> files_stay s v -> in_u 64 w -> kept n s a b (w, set_vfs v s).
Proof. intros Hs Hv Hfs Hw. split; try done. by apply sys_ok_vfs. Qed.

Lemma syscall_open_ok n lk path fl s : sys_ok n s -> Z.of_nat (length path) <= 65 -> returns (syscall_open lk path fl s) (kept n s 0 0).
Proof.
  intros Hs Hp. unfold syscall_open. destruct (vfs_open_spec n (vfs s) path fl (k_vfs _ _ Hs) Hp) as (r & v & -> & Hv & He). exec_simpl.
  pose proof (files_stay_effect s v _ _ He ltac:(done)) as Hfs.
  destruct r as [fid|e]; [|by apply returns_done, kept_vfs]. set (s1 := set_vfs v s). assert (sys_ok n s1) as Hs1 by (by apply sys_ok_vfs).
  destruct (current_pcb lk s1) as [[pid pcb]|] eqn:E; [|by apply returns_done, kept_vfs].
  apply current_pcb_Some in E as [Hc Hpc]. destruct (handle_table_ok n s1 pid pcb Hs1 Hpc) as [m Hm].
  destruct (HandleSpec.alloc_spec _ _ fid Hm) as [(h & ht & -> & _ & _ & _ & Hm')|[-> _]]; exec_simpl; apply returns_done.
  - by destruct (kept_handles n s1 0 0 pid pcb ht _ (HandleId.slot h) Hs1 Hc Hpc Hm' (slot_u64 h)) as [P1 P2 P3 P4 P5 P6].
  - destruct (kept_handles n s1 0 0 pid pcb _ _ U64_MAX Hs1 Hc Hpc Hm max_u64) as [P1 P2 P3 P4 P5 P6]. cbn [fst snd] in *.
    set (s2 := set_procs _ _ s1) in *. destruct (vfs_close_spec n (vfs s2) fid (k_vfs _ _ P1)) as (r & v' & -> & Hv' & He').
    split; [by apply sys_ok_vfs|done..|]. intros fid' x Hn Hd. pose proof (Hfs fid' x Hn Hd) as Hd1. eapply (effect_desc _ _ _ _ _ _ He'); [|exact Hd1].
    cbn. intros [= <-]. destruct He as (_ & rp & _ & id & _ & Hnone & _). congruence.
Qed.

Lemma syscall_read_ok n lk fd a len s : sys_ok n s -> 0 <= len < 2 ^ 64 -> returns (syscall_read lk fd a len s) (kept n s a (a + len)).
Proof.
  intros Hs Hlen. unfold syscall_read. eapply returns_bind; [by apply (resolve_fd_ok n)|]. intros [fid|] Hfd; [|by apply returns_done, kept_refl]. specialize (Hfd _ eq_refl).
  destruct (vfs_read_spec n (vfs s) fid len (k_vfs _ _ Hs)) as (r & v & -> & Hv & He); [lia|]. cbn zeta.
  assert (files_stay s v) as Hfs by (apply (files_stay_effect _ _ _ _ He); by intros ? [= <-]).
  destruct r as [bytes|e]; apply returns_done; [|by apply kept_vfs].
  apply kept_deliver; [done|done|done| |lia]. by apply (read_fits n _ _ _ _ _ (k_vfs _ _ Hs) (proj1 Hlen) He).
Qed.

Lemma syscall_getdents_ok n lk fd a len s : sys_ok n s -> 0 <= len < 2 ^ 64 -> returns (syscall_getdents lk fd a len s) (kept n s a (a + len)).
Proof.
  intros Hs Hlen. unfold syscall_getdents. eapply returns_bind; [by apply (resolve_fd_ok n)|]. intros [fid|] Hfd; [|by apply returns_done, kept_refl]. specialize (Hfd _ eq_refl).
  destruct (vfs_readdir_spec n (vfs s) fid len (k_vfs _ _ Hs)) as (r & v & -> & Hv & He); [lia|]. cbn zeta.
  assert (files_stay s v) as Hfs by (apply (files_stay_effect _ _ _ _ He); by intros ? [= <-]).
  destruct r as [bytes|e]; apply returns_done; [|by apply kept_vfs].
  apply kept_deliver; [done|done|done| |lia]. by apply (listing_fits n _ _ _ _ _ (k_vfs _ _ Hs) (proj1 Hlen) He).
Qed.

Definition small_files (v : Vfs.t) : Prop := forall id d, VfsRuns.contents v !! id = Some d -> Z.of_nat (length d) < 2 ^ 62.

Lemma wrote_value fid data r v v' : VfsRuns.effect (VfsRuns.Write fid data) (VfsRuns.Wrote r) v v' ->
  match r with Ok k => k = Z.of_nat (length data) | Err _ => True end.
Proof.
  cbn [VfsRuns.effect]. destruct (VfsRuns.desc v fid) as [[[id o] fl]|]; [|by intros [-> _]].
  destruct (VfsRuns.kind v id) as [[]|]; [|by intros [-> _]|..|by intros [-> _]].
  - intros (d & _ & -> & _). done.
  - intros (_ & -> & _). done.
Qed.

Lemma syscall_vfs_write_ok n lk fd data s : sys_ok n s -> Z.of_nat (length data) < 2 ^ 62 -> small_files (vfs s) ->
  returns (syscall_vfs_write lk fd data s) (kept n s 0 0).
Proof.
  intros Hs Hd Hsm. unfold syscall_vfs_write. eapply returns_bind; [by apply (resolve_fd_ok n)|]. intros [fid|] Hfd; [|by apply returns_done, kept_refl]. specialize (Hfd _ eq_refl).
  destruct (match OpenFileTable.get _ _ with Some _ => _ | None => _ end).
  { apply returns_done. split; cbn [fst snd]; try done; [by apply sys_ok_print|split; lia|by apply files_stay_refl]. }
  destruct (vfs_write_spec n (vfs s) fid data (k_vfs _ _ Hs)) as (r & v & -> & Hv & He).
  { split; [lia|]. intros id o fl d _ Hc. specialize (Hsm _ _ Hc). lia. }
  assert (files_stay s v) as Hfs by (apply (files_stay_effect _ _ _ _ He); by intros ? [= <-]).
  exec_simpl. apply returns_done. apply wrote_value in He. apply kept_vfs; [done|done|done|]. destruct r as [k|e]; [subst k; split; lia|done].
Qed.

Lemma syscall_close_ok n lk fd s : sys_ok n s -> returns (syscall_close lk fd s) (kept n s 0 0).
Proof.
  intros Hs. unfold syscall_close. eapply returns_bind; [by apply (resolve_fd_ok n)|]. intros [fid|] Hfd; [|by apply returns_done, kept_refl]. specialize (Hfd _ eq_refl).
  apply (returns_bind _ _ (fun s' => kept n s 0 0 (0, s'))).
  - destruct (current_pcb (later 2 lk) s) as [[pid pcb]|] eqn:E; [|by apply returns_done, kept_refl].
    apply current_pcb_Some in E as [Hc Hp]. destruct (handle_table_ok n s pid pcb Hs Hp) as [m Hm].
    destruct (HandleSpec.release_spec _ _ (HandleId.pack (wrap 8 fd) 0) Hm) as [(ht & -> & _ & Hm')|(e & -> & _)]; exec_simpl; apply returns_done;
      by eapply kept_handles.
  - intros s1 [P1 P2 P3 P4 P5 P6]. cbn [fst snd] in *. destruct (vfs_close_spec n (vfs s1) fid (k_vfs _ _ P1)) as (r & v & -> & Hv & He).
    apply returns_done. split; try done; [by apply sys_ok_vfs|by destruct r|]. intros fid' x Hn Hd. eapply (effect_desc _ _ _ _ _ _ He); [|by apply P6].
    cbn. intros [= <-]. by apply Hn.
Qed.

Lemma kept_stat n s a st : sys_ok n s -> kept n s a (a + 24) (0, set_memory (store_stat (memory s) a st) s).
Proof.
  intros Hs. split; try done; [| |by apply files_stay_refl].
  - destruct Hs as [A B C M X]. split; try done. intros x. cbn [memory set_memory snd]. unfold store_stat. by repeat apply store_bytes.
  - intros x Hx. cbn [memory set_memory snd]. unfold store_stat.
    rewrite !store_other; [done|..]; rewrite ?length_app, ?length_le_bytes, ?length_replicate; lia.
Qed.

Lemma syscall_stat_ok n path a s : sys_ok n s -> Z.of_nat (length path) <= 65 -> returns (syscall_stat path a s) (kept n s a (a + 24)).
Proof.
  intros Hs Hp. unfold syscall_stat, Vfs.vfs_stat. destruct (VfsRuns.resolve_total n (vfs s) path (k_vfs _ _ Hs) Hp) as (r & -> & _). exec_simpl.
  destruct r as [id|e]; exec_simpl; [|by apply returns_done, kept_refl].
  destruct (Vfs.vfs_stat_inode (vfs s) id) as [st|e]; apply returns_done; [by apply kept_stat|by apply kept_refl].
Qed.

Lemma syscall_fstat_ok n lk fd a s : sys_ok n s -> returns (syscall_fstat lk fd a s) (kept n s a (a + 24)).
Proof.
  intros Hs. unfold syscall_fstat. eapply returns_bind; [by apply (resolve_fd_ok n)|]. intros [fid|] Hfd; [|by apply returns_done, kept_refl]. specialize (Hfd _ eq_refl).
  destruct (Vfs.vfs_fstat (vfs s) fid) as [st|e]; apply returns_done; [by apply kept_stat|by apply kept_refl].
Qed.

(** ** Sockets *)
Lemma kept_from_net n s nt a b r : kept n (set_net nt s) a b r -> kept n s a b r.
Proof. intros [P1 P2 P3 P4 P5 P6]. by split. Qed.

Lemma socket_handle_ok {E} n lk (r : result Z E) s : sys_ok n s -> returns (socket_handle lk r s) (kept n s 0 0).
Proof.
  intros Hs. unfold socket_handle. destruct r as [id|e]; [|by apply returns_done, kept_refl].
  eapply returns_bind; [by apply (alloc_handle_ok n)|]. intros [fd s'] Hk. by apply returns_done.
Qed.

Lemma syscall_socket_ok n lk ty pr s : sys_ok n s -> returns (syscall_socket lk ty pr s) (kept n s 0 0).
Proof.
  intros Hs. unfold syscall_socket. destruct (socket_type ty) as [st|]; [|by apply returns_done, kept_refl].
  destruct (socket_protocol pr) as [proto|]; [|by apply returns_done, kept_refl].
  pose proof (NetInv.socket_create_ok st proto (default KERNEL (get_current_pid (lk 0%nat) s)) (net s) (k_net _ _ Hs)) as Hn.
  destruct (NetStack.socket_create _ _ _ _) as [nt r]. eapply returns_mono; [by apply socket_handle_ok, sys_ok_net|]. intros x. apply kept_from_net.
Qed.

Lemma on_socket_ok {A} n lk fd (f : Z -> NetStack.Net (D:=D) (T:=T) -> exec (NetStack.Net * A)) reply a b s : sys_ok n s ->
  (forall id, returns (f id (net s)) (fun r => NetInv.net_ok r.1)) ->
  (forall id nt r s', f id (net s) = Done (nt, r) -> sys_ok n s' -> returns (reply r s') (kept n s' a b)) ->
  returns (on_socket lk fd f reply s) (kept n s a b).
Proof.
  intros Hs Hf Hr. unfold on_socket. eapply returns_bind; [by apply (resolve_socket_fd_ok n)|]. intros [id|] _; [|by apply returns_done, kept_refl].
  destruct (Hf id) as ([nt r] & E & Hn). rewrite E. exec_simpl.
  eapply returns_mono; [eapply Hr; [exact E|by apply sys_ok_net]|]. intros x. apply kept_from_net.
Qed.

Lemma status_ok {A E} n a b (r : result A E) s : sys_ok n s -> returns (Done (status r, s)) (kept n s a b).
Proof. intros Hs. apply returns_done, kept_refl; [done|]. by destruct r. Qed.

Lemma address_ok ip port : in_u 32 ip -> in_u 16 port -> PacketFacts.sa_ok (address ip port).
Proof.
  intros Hi Hp. split; [|done]. unfold address. cbn [SocketAddr.addr]. unfold Ipv4Addr.from_u32. split; [done|]. apply BeFacts.be32_bytes.
Qed.

Lemma syscall_bind_ok n lk fd ip port s : sys_ok n s -> in_u 32 ip -> in_u 16 port -> returns (syscall_bind lk fd ip port s) (kept n s 0 0).
Proof.
  intros Hs Hi Hp. apply on_socket_ok; [done| |].
  - intros id. apply returns_done. apply NetInv.socket_bind_ok; [apply Hs|by apply address_ok].
  - intros id nt r s' _ Hs'. by apply status_ok.
Qed.

Lemma syscall_listen_ok n lk fd s : sys_ok n s -> returns (syscall_listen lk fd s) (kept n s 0 0).
Proof.
  intros Hs. apply on_socket_ok; [done| |].
  - intros id. apply returns_done, NetInv.socket_listen_ok, Hs.
  - intros id nt r s' _ Hs'. by apply status_ok.
Qed.

Lemma syscall_accept_ok n lk fd s : sys_ok n s -> returns (syscall_accept lk fd s) (kept n s 0 0).
Proof.
  intros Hs. apply on_socket_ok; [done| |].
  - intros id. apply NetInv.socket_accept_ok, Hs.
  - intros id nt r s' _ Hs'. by apply socket_handle_ok.
Qed.

Lemma syscall_connect_ok n lk fd ip port s : sys_ok n s -> in_u 32 ip -> in_u 16 port -> returns (syscall_connect lk fd ip port s) (kept n s 0 0).
Proof.
  intros Hs Hi Hp. apply on_socket_ok; [done| |].
  - intros id. apply NetInv.socket_connect_ok; [apply Hs|by apply address_ok].
  - intros id nt r s' _ Hs'. by apply status_ok.
Qed.

Lemma syscall_shutdown_ok n lk fd s : sys_ok n s -> returns (syscall_shutdown lk fd s) (kept n s 0 0).
Proof.
  intros Hs. apply on_socket_ok; [done| |].
  - intros id. apply NetInv.socket_shutdown_ok, Hs.
  - intros id nt r s' _ Hs'. by apply status_ok.
Qed.

(** The number of bytes a send reports. *)
Lemma send_value id data (nt nt' : NetStack.Net (D:=D) (T:=T)) r : NetStack.socket_send id data nt = Done (nt', r) ->
  match r with Ok k => k = Z.of_nat (length data) | Err _ => True end.
Proof.
  unfold NetStack.socket_send. destruct (SocketTable.get _ _) as [sock|]; [|by intros [= _ <-]].
  destruct (Socket.protocol sock); case_match; try (by intros [= _ <-]); intros (x & _ & [= _ <-])%bind_Done; done.
Qed.

Lemma sendto_value id data dst (nt nt' : NetStack.Net (D:=D) (T:=T)) r : NetStack.socket_sendto id data dst nt = Done (nt', r) ->
  match r with Ok k => k = Z.of_nat (length data) | Err _ => True end.
Proof.
  unfold NetStack.socket_sendto. destruct (SocketTable.get _ _) as [sock|]; [|by intros [= _ <-]].
  case_match; [by intros [= _ <-]|]. intros (x & _ & [= _ <-])%bind_Done. done.
Qed.

Lemma count_ok {E} n a b (r : result Z E) k s : sys_ok n s -> match r with Ok k' => k' = Z.of_nat k | Err _ => True end -> Z.of_nat k < 2 ^ 64 ->
  returns (Done (count_of r, s)) (kept n s a b).
Proof. intros Hs Hr Hk. apply returns_done, kept_refl; [done|]. destruct r as [k'|e]; cbn; [subst; split; lia|done]. Qed.

Lemma syscall_send_ok n lk fd data s : sys_ok n s -> Forall (in_u 8) data -> Z.of_nat (length data) < 65528 ->
  returns (syscall_send lk fd data s) (kept n s 0 0).
Proof.
  intros Hs Hd Hl. apply on_socket_ok; [done| |].
  - intros id. apply NetInv.socket_send_ok; [apply Hs|done|done].
  - intros id nt r s' E Hs'. apply send_value in E. by apply (count_ok n _ _ _ (length data)); [| |lia].
Qed.

Lemma syscall_sendto_ok n lk fd data ip port s : sys_ok n s -> Forall (in_u 8) data -> Z.of_nat (length data) < 65528 ->
  in_u 32 ip -> in_u 16 port -> returns (syscall_sendto lk fd data ip port s) (kept n s 0 0).
Proof.
  intros Hs Hd Hl Hi Hp. apply on_socket_ok; [done| |].
  - intros id. apply NetInv.socket_sendto_ok; [apply Hs|done|done|by apply address_ok].
  - intros id nt r s' E Hs'. apply sendto_value in E. by apply (count_ok n _ _ _ (length data)); [| |lia].
Qed.

Lemma syscall_recv_ok n lk fd a len s : sys_ok n s -> 0 <= len < 2 ^ 64 -> returns (syscall_recv lk fd a len s) (kept n s a (a + len)).
Proof.
  intros Hs Hl. apply on_socket_ok; [done| |].
  - intros id. apply NetInv.socket_recv_ok; [apply Hs|lia].
  - intros id nt r s' E Hs'. destruct (NetInv.socket_recv_fits id len (net s) (k_net _ _ Hs)) as (x & E' & _ & Hf); [lia|].
    rewrite E in E'. injection E' as <-. cbn [snd] in Hf. destruct r as [bytes|e]; [|by apply returns_done, kept_refl].
    specialize (Hf _ eq_refl). apply returns_done. split; cbn [fst snd]; [by apply sys_ok_memory|split; lia|done| |done|by apply files_stay_refl].
    intros x Hx. cbn [memory set_memory]. apply store_other. lia.
Qed.

(** ** Processes *)
Lemma sys_yield_ok n lk s : sys_ok n s -> kept n s 0 0 (0, sys_yield lk s).
Proof.
  intros Hs. unfold sys_yield. destruct (current_pcb lk s) as [[pid pcb]|] eqn:E; [|by apply kept_refl].
  apply current_pcb_Some in E as [Hc Hp]. split; cbn [fst snd]; [|done| |done|done|by apply files_stay_refl].
  - apply sys_ok_pcb; [done|done|]. intros q Hq. apply (ProcOps.stays_quiet _ _ _ _ (ProcOps.pi_table _ _ _ (k_procs _ _ Hs)) Hq); try done.
    apply (ProcOps.to_pcb _ (ProcOps.pi_table _ _ _ (k_procs _ _ Hs)) _ _ Hq).
  - intros pid' Hne. unfold get, table, update. cbn. rewrite lookup_alter_ne; [done|]. congruence.
Qed.

Lemma sys_exit_ok n lk code s : sys_ok n s -> (lk 0%nat = true -> lk 1%nat = true) ->
  let s' := sys_exit lk code s in
  sys_ok n s' /\ (forall pid, Scheduler.current (sched s) <> Some pid -> get (table s') pid = get (table s) pid) /\
  memory s' = memory s /\ vfs s' = vfs s.
Proof.
  intros Hs Hlk s'. unfold s', sys_exit, get_current_pid. destruct (lk 0%nat); [|done]. destruct (Scheduler.current (sched s)) as [pid|] eqn:Hc; [|done].
  rewrite Hlk by done. destruct Hs as [P B C M X]. split; [|split; [|by split]].
  - split; try done. cbn [table sched kernel set_procs set_kernel]. destruct (SchedInv.si_current _ _ _ (ProcOps.pi_sched _ _ _ P) _ Hc) as (_ & _ & pcb & Hp & _).
    apply (ProcOps.stop_spec _ _ _ _ pcb P Hp); [|cbn; unfold SchedInv.runnable; naive_solver].
    apply (ProcOps.stays_quiet _ _ _ _ (ProcOps.pi_table _ _ _ P) Hp); try done. apply (ProcOps.to_pcb _ (ProcOps.pi_table _ _ _ P) _ _ Hp).
  - intros pid' Hne. unfold get, table, update. cbn. rewrite lookup_alter_ne; [done|]. congruence.
Qed.

End Calls.
End SyscallSpec.
