(* ===== verification/SyscallTheorems.v ===== *)
(** * Theorems on system calls

    Programs run on a booted kernel: their calls return, cannot break what the
    kernel relies on, and reach the files that their descriptors name. *)

From S2P Require Import Prelude Wire Handle Process ProcOps SuperSpec ProcTheorems NetWire NetWireSpec.
From S2P Require Import Sockets NetStack NetInv NetTheorems ProcNet Cpio CpioTheorems Vfs VfsSpec VfsTheorems.
From S2P Require Import Syscalls SyscallSpec.

Module SyscallRuns.
Import ProcessTable Syscalls SyscallSpec.

(** The memory a call may write, first address and end. *)
Definition buffer (f : Frame) : Z * Z :=
  match rax f with
  | 5 | 9 | 16 => (rsi f, rsi f + rdx f)
  | 7 => (rdx f, rdx f + 24)
  | 8 => (rsi f, rsi f + 24)
  | _ => (0, 0)
  end.

Section Runs.
Context {D T : Type} `{NicDriver D} `{Timer T}.
Notation state := (Syscalls.t (D:=D) (T:=T)).
Implicit Types s : state.
Context (other : Frame -> state -> exec (Frame * state)) (dead_loop : Z).

(** The calls that are modelled, on register contents, short of the limits behind
    which the kernel panics: the path and the datagram that do not fit, and
    a process table found locked by a process that exits. *)
Record call_ok (lk : nat -> bool) (s : state) (f : Frame) : Prop := {
  c_regs : Forall (in_u 64) [rax f; rdi f; rsi f; rdx f; r10 f; r8 f];
  c_exit : rax f = 0 -> lk 0%nat = true -> lk 1%nat = true;
  c_write : rax f = 2 -> small_files (vfs s);
  c_path : rax f = 4 \/ rax f = 7 -> rsi f <= 65;
  c_send : rax f = 15 \/ rax f = 23 -> rdx f < 65528;
  c_known : 18 <= rax f <= 34 -> rax f = 23;
}.

(** What a call leaves. *)
Record served (n : nat) (s : state) (f : Frame) (r : Frame * state) : Prop := {
  s_ok : sys_ok n r.2;
  s_others : forall pid, Scheduler.current (sched s) <> Some pid -> get (table r.2) pid = get (table s) pid;
  s_memory : forall x, ~ ((buffer f).1 <= x < (buffer f).2) -> memory r.2 x = memory s x;
  s_frame : if rax f =? 0 then r.1 = exit_frame dead_loop r.2 f
            else sched r.2 = sched s /\ exists v, in_u 64 v /\ r.1 = set_rax v f;
  s_files : files_stay s (vfs r.2);
}.

Lemma reply_ok n s f m a b : buffer f = (a, b) -> rax f <> 0 -> returns m (kept n s a b) -> returns (reply f m) (served n s f).
Proof.
  intros Hb Hz Hm. eapply returns_bind; [exact Hm|]. intros [v s'] [P1 P2 P3 P4 P5 P6]. apply returns_done. cbn [fst snd] in *. split; cbn [fst snd]; try done.
  - by rewrite Hb.
  - rewrite (proj2 (Z.eqb_neq _ _) Hz). eauto.
Qed.

Lemma answer_ok n s f v s' : rax f <> 0 -> kept n s 0 0 (v, s') -> returns (Done (set_rax v f, s')) (served n s f).
Proof.
  intros Hz [P1 P2 P3 P4 P5 P6]. apply returns_done. cbn [fst snd] in *. split; cbn [fst snd]; try done; [intros x _; apply P4; lia|].
  rewrite (proj2 (Z.eqb_neq _ _) Hz). eauto.
Qed.

Lemma refused_ok n s f : sys_ok n s -> rax f <> 0 -> returns (refused f s) (served n s f).
Proof. intros Hs Hz. apply answer_ok; [done|]. by apply kept_refl. Qed.

Lemma dispatch_default lk f s : (forall k, k ∈ 23 :: seqZ 0 18 -> rax f <> k) -> 0 <= rax f ->
  syscall_dispatch other dead_loop lk f s = if (18 <=? rax f) && (rax f <=? 34) then other f s else refused f s.
Proof.
  intros Hk Hpos. assert (forall k, bool_decide (k ∈ 23 :: seqZ 0 18) = true -> rax f <> k) as Hk'.
  { intros k Hb. apply Hk. by apply bool_decide_eq_true in Hb. }
  clear Hk. unfold syscall_dispatch. destruct (rax f) as [|p|p]; [by specialize (Hk' 0 eq_refl)| |lia].
  do 5 (try destruct p as [p|p|]); try reflexivity; match goal with |- context [Z.pos ?q] => by specialize (Hk' (Z.pos q) eq_refl) end.
Qed.

Lemma guard_ok n s f (c : bool) a b m : sys_ok n s -> buffer f = (a, b) -> rax f <> 0 -> returns m (kept n s a b) ->
  returns (if c then refused f s else reply f m) (served n s f).
Proof. intros Hs Hb Hz Hm. destruct c; [by apply refused_ok|by eapply reply_ok]. Qed.

Lemma buffer_none f k : rax f = k -> match k with 5 | 7 | 8 | 9 | 16 => False | _ => True end -> buffer f = (0, 0).
Proof. intros <-. unfold buffer. destruct (rax f) as [|p|p]; try done. do 5 (try destruct p as [p|p|]); done. Qed.

Lemma current_u64 n lk s : sys_ok n s -> in_u 64 (default 0 (get_current_pid lk s)).
Proof.
  intros Hs. unfold get_current_pid. destruct lk; [|done]. destruct (Scheduler.current (sched s)) as [pid|] eqn:Hc; [|done]. cbn.
  destruct (SchedInv.si_current _ _ _ (ProcOps.pi_sched _ _ _ (k_procs _ _ Hs)) _ Hc) as (_ & _ & pcb & Hp & _).
  destruct (ProcOps.ok_range _ _ _ _ (ProcOps.to_pcb _ (ProcOps.pi_table _ _ _ (k_procs _ _ Hs)) _ _ Hp)). pose proof (k_pids _ _ Hs). split; lia.
Qed.

(** Case on the number of the call; [E] is the equation in the new goal. *)
Ltac number f k E :=
  destruct (decide (rax f = k)) as [E|?];
  [try assert (rax f <> 0) by (rewrite E; discriminate); unfold syscall_dispatch; rewrite E; cbn match|].

(** A call without a buffer, and one with; the guard in front of a call. *)
Ltac plain_call E := eapply reply_ok; [exact (buffer_none _ _ E I)|assumption|].
Ltac guarded_call E := eapply guard_ok; [assumption|first [exact (buffer_none _ _ E I)|unfold buffer; rewrite E; reflexivity]|assumption|].

Section Numbers.
Context (n : nat) (lk : nat -> bool) (f : Frame) (s : state) (Hs : sys_ok n s) (Hok : call_ok lk s f).

Lemma registers : 0 <= rax f /\ in_u 64 (rsi f) /\ in_u 64 (rdx f).
Proof using Hok. pose proof (c_regs _ _ _ Hok) as Hr. rewrite !Forall_cons in Hr. destruct Hr as ([? _] & _ & ? & ? & _). done. Qed.

Lemma dispatch_process_file : rax f <= 9 -> returns (syscall_dispatch other dead_loop lk f s) (served n s f).
Proof using Hs Hok.
  intros Hle. destruct registers as (Hpos & Hsi & Hdx).
  number f 0 E.
  { apply returns_done. destruct (sys_exit_ok n lk (rdi f) s Hs (c_exit _ _ _ Hok E)) as (X1 & X2 & X3 & X4).
    split; cbn [fst snd]; [done|done| |by rewrite E|by apply files_stay_refl]. intros x _. by rewrite X3. }
  number f 1 E. { apply answer_ok; [done|]. by apply sys_yield_ok. }
  number f 2 E.
  { destruct (_ || _) eqn:G; [by apply refused_ok|]. apply orb_false_iff in G as [_ G]. apply Z.leb_gt in G.
    pose proof (length_load (memory s) (rsi f) (rdx f) (proj1 Hdx)) as Hl. destruct (_ || _).
    - apply answer_ok; [done|]. split; try done; [by apply sys_ok_print|by apply files_stay_refl].
    - plain_call E. apply syscall_vfs_write_ok; [done|lia|by apply (c_write _ _ _ Hok)]. }
  number f 3 E. { apply answer_ok; [done|]. apply kept_refl; [done|]. by apply (current_u64 n). }
  number f 4 E. { guarded_call E. apply syscall_open_ok; [done|]. rewrite length_load by apply Hsi. apply (c_path _ _ _ Hok). lia. }
  number f 5 E. { guarded_call E. by apply syscall_read_ok. }
  number f 6 E. { plain_call E. by apply syscall_close_ok. }
  number f 7 E. { guarded_call E. apply syscall_stat_ok; [done|]. rewrite length_load by apply Hsi. apply (c_path _ _ _ Hok). lia. }
  number f 8 E. { guarded_call E. by apply syscall_fstat_ok. }
  number f 9 E. { guarded_call E. by apply syscall_getdents_ok. }
  lia.
Qed.

Lemma dispatch_socket : 10 <= rax f -> returns (syscall_dispatch other dead_loop lk f s) (served n s f).
Proof using Hs Hok.
  intros Hge. destruct registers as (Hpos & Hsi & Hdx).
  assert (forall k, in_u 32 (wrap 32 k)) as W32 by (intros; by apply wrap_range).
  assert (forall k, in_u 16 (wrap 16 k)) as W16 by (intros; by apply wrap_range).
  number f 10 E. { plain_call E. by apply syscall_socket_ok. }
  number f 11 E. { plain_call E. by apply syscall_bind_ok. }
  number f 12 E. { plain_call E. by apply syscall_listen_ok. }
  number f 13 E. { plain_call E. by apply syscall_accept_ok. }
  number f 14 E. { plain_call E. by apply syscall_connect_ok. }
  number f 15 E. { guarded_call E. apply syscall_send_ok; [done|apply load_bytes, Hs|]. rewrite length_load by apply Hdx. apply (c_send _ _ _ Hok). lia. }
  number f 16 E. { guarded_call E. by apply syscall_recv_ok. }
  number f 17 E. { plain_call E. by apply syscall_shutdown_ok. }
  number f 23 E.
  { guarded_call E. apply syscall_sendto_ok; [done|apply load_bytes, Hs| |done|done]. rewrite length_load by apply Hdx. apply (c_send _ _ _ Hok). lia. }
  rewrite dispatch_default; [| |lia].
  - destruct (Z.leb_spec 18 (rax f)), (Z.leb_spec (rax f) 34); cbn [andb]; try (apply refused_ok; [done|lia]).
    by pose proof (c_known _ _ _ Hok ltac:(lia)).
  - intros k [->|Hk%elem_of_seqZ]%elem_of_cons; lia.
Qed.

Lemma call_dispatch_ok : returns (syscall_dispatch other dead_loop lk f s) (served n s f).
Proof using Hs Hok. destruct (decide (rax f <= 9)); [by apply dispatch_process_file|apply dispatch_socket; lia]. Qed.

End Numbers.

(** ** Everything else that happens *)

(** Process operations touch the sockets only to drop those of a process that ends. *)
Lemma process_step_net k o a k' : ProcRuns.step k o = Done (a, k') -> NetInv.net_ok (Process.sockets k) -> NetInv.net_ok (D:=D) (T:=T) (Process.sockets k').
Proof.
  intros E Hn. enough (Process.sockets k' = Process.sockets k \/ exists pid, Process.sockets k' = NetStack.cleanup_process_sockets pid (Process.sockets k)) as [->|[pid ->]].
  { done. }
  { apply NetInv.net_ok_set_sockets; [done|]. apply NetInv.cleanup_ok, Hn. }
  destruct o; cbn [ProcRuns.step] in E.
  - apply bind_Done in E as ([r k1] & E & [= _ <-]). left. unfold Process.spawn in E. destruct (negb _); [by injection E as _ <-|].
    destruct (alloc_pid (Process.table k)) as [pid tb]. destruct (insert _ _) as [[u|e] tb1]; [|by injection E as _ <-].
    apply bind_Done in E as (sc & _ & E). by injection E as _ <-.
  - unfold Process.terminate in E. cbn [Process.table] in E. right. exists pid. destruct (get (Process.table k) pid); by injection E as _ <-.
  - apply bind_Done in E as ([r k1] & E & [= _ <-]). left. unfold Process.block in E. destruct (get (Process.table k) pid); [|by injection E as _ <-].
    destruct (_ && _); [by injection E as _ <-|]. cbn zeta in E. destruct waiting_on; [|by injection E as _ <-].
    apply bind_Done in E as ([tb sc] & _ & E). by injection E as _ <-.
  - apply bind_Done in E as ([r k1] & E & [= _ <-]). left. unfold Process.unblock in E. destruct (get (Process.table k) pid); [|by injection E as _ <-].
    case_bool_decide; [by injection E as _ <-|]. cbn zeta in E. apply bind_Done in E as (sc & _ & E). case_match; [|by injection E as _ <-].
    apply bind_Done in E as ([tb sc'] & _ & E). by injection E as _ <-.
  - apply bind_Done in E as ([r k1] & E & [= _ <-]). left. unfold Process.crash in E. destruct (get (Process.table k) pid); [|by injection E as _ <-].
    cbn zeta in E. apply bind_Done in E as ([[x tb] sc] & _ & E). by injection E as _ <-.
  - left. by injection E as _ <-.
  - apply bind_Done in E as ([r k1] & E & [= _ <-]). left. unfold Process.schedule_next in E. apply bind_Done in E as ([[x sc] tb] & _ & E). by injection E as _ <-.
  - apply bind_Done in E as ([sc tb] & _ & [= _ <-]). by left.
  - left. destruct (Scheduler.consume_tick _ _) as [b tb]. by injection E as _ <-.
Qed.

Lemma expect_open_ok n v id fl fid v' : VfsRuns.vfs_ok n v -> VfsRuns.target v id -> Vfs.expect_open id fl v = Done (fid, v') ->
  VfsRuns.vfs_ok n v' /\ VfsRuns.names_stay v v'.
Proof.
  intros Hv Ht E. unfold Vfs.expect_open in E. pose proof (VfsRuns.attach_ok n v id fl Hv Ht) as Ha.
  destruct (Vfs.open_inode id fl v) as [[x|e] v1]; [|done]. injection E as _ <-. by destruct Ha as (? & ? & _).
Qed.

Lemma setup_stdio_ok n pid s s' : sys_ok n s -> setup_stdio pid s = Done s' -> sys_ok n s'.
Proof.
  intros Hs E. unfold setup_stdio, Vfs.open_stdio in E.
  apply bind_Done in E as ([[[in_ out] err] v] & E1 & E). apply bind_Done in E1 as ([f1 v1] & O1 & E1).
  apply bind_Done in E1 as ([f2 v2] & O2 & E1). apply bind_Done in E1 as ([f3 v3] & O3 & [= <- <- <- <-]).
  pose proof (k_vfs _ _ Hs) as Hv. pose proof (VfsRuns.v_boot _ _ Hv) as Hb. destruct (VfsRuns.v_devfs _ _ Hv) as [st Hst]. rewrite Hst in O1.
  assert (VfsRuns.target (vfs s) 3) as Ht by (left; apply (VfsRuns.kind_is_Some n); [done|lia]).
  apply expect_open_ok with (n := n) in O1 as [Hv1 _]; [|done|exact Ht].
  apply expect_open_ok with (n := n) in O2 as [Hv2 _]; [|done|by right]. apply expect_open_ok with (n := n) in O3 as [Hv3 _]; [|done|by right].
  assert (sys_ok n (set_vfs v3 s)) as Hs1 by (by apply sys_ok_vfs). destruct (get _ pid) as [pcb|] eqn:Hp; [|by injection E as <-].
  destruct (handle_table_ok n _ pid pcb Hs1 Hp) as [m Hm].
  assert (forall ht m c r ht', HandleSpec.represents ht m -> HandleTable.alloc ht c = Done (r, ht') -> exists m', HandleSpec.represents ht' m') as Halloc.
  { intros ht m0 c r ht' Hr Ea. destruct (HandleSpec.alloc_spec _ _ c Hr) as [(h & tb' & E' & _ & _ & _ & Hr')|[E' _]]; rewrite E' in Ea; injection Ea as _ <-; eauto. }
  apply bind_Done in E as ([r1 h1] & A1 & E). apply bind_Done in E as ([r2 h2] & A2 & E). apply bind_Done in E as ([r3 h3] & A3 & [= <-]).
  destruct (Halloc _ _ _ _ _ Hm A1) as [m1 Hm1]. destruct (Halloc _ _ _ _ _ Hm1 A2) as [m2 Hm2]. destruct (Halloc _ _ _ _ _ Hm2 A3) as [m3 Hm3].
  by eapply sys_ok_handles.
Qed.

(** ** Reachable states *)
Definition booted (archive : list Z) (s : state) : Prop :=
  (exists k, ProcRuns.fresh k /\ Process.sockets k = NetStack.init (NetStack.clock (net s)) /\ Process.init k = Done (kernel s)) /\
  VfsRuns.boot archive = Done (vfs s) /\ forall x, in_u 8 (memory s x).

(** What happens beside the calls: operations on processes, the standard
    descriptors of a new one, the network, and the programs themselves. *)
Inductive background : state -> state -> Prop :=
| by_process o a k s : next_pid (table s) < 2 ^ 32 - 1 -> ProcRuns.step (kernel s) o = Done (a, k) -> background s (set_kernel k s)
| by_stdio pid s s' : setup_stdio pid s = Done s' -> background s s'
| by_network o nt s : NetRuns.op_ok o -> NetRuns.step o (net s) = Done nt -> background s (set_net nt s)
| by_program m s : (forall x, in_u 8 (m x)) -> background s (set_memory m s).

Inductive reachable (archive : list Z) : state -> Prop :=
| at_boot s : booted archive s -> reachable archive s
| by_call lk f f' s s' : reachable archive s -> call_ok lk s f -> syscall_dispatch other dead_loop lk f s = Done (f', s') -> reachable archive s'
| by_background s s' : reachable archive s -> background s s' -> reachable archive s'.

Lemma booted_sys_ok archive s : Z.of_nat (length archive) < 2 ^ 63 -> booted archive s -> exists n, sys_ok n s.
Proof.
  intros Hlen ((k & Hf & Hn & Hi) & Hb & Hm). destruct (VfsRuns.boot_ok archive Hlen) as (n & v & E & Hv & _). exists n. rewrite Hb in E. injection E as <-.
  destruct (ProcRuns.init_spec k Hf) as (k' & E & Hk & Hnext). rewrite Hi in E. injection E as <-. split; [done| |done|done|unfold table; lia].
  unfold Process.init in Hi. apply bind_Done in Hi as ([tb sc] & _ & Hi). unfold net. injection Hi as <-. cbn in *. rewrite Hn. apply NetInv.net_ok_init.
Qed.

Lemma background_ok n s s' : sys_ok n s -> background s s' -> sys_ok n s'.
Proof.
  intros Hs Hb. destruct Hb as [o a k s Hp E|pid s s' E|o nt s Ho E|m s Hm].
  - destruct (ProcRuns.kernel_step_ok (kernel s) o (k_procs _ _ Hs) Hp) as (a' & k' & E' & Hk & Hnext). rewrite E in E'. injection E' as <- <-.
    pose proof (process_step_net _ _ _ _ E (k_net _ _ Hs)) as Hn. destruct Hs as [A B C M X]. split; try done. unfold table in *. cbn. lia.
  - by eapply setup_stdio_ok.
  - apply sys_ok_net; [done|]. destruct (NetRuns.net_step_ok o (net s) (k_net _ _ Hs) Ho) as (x & E' & Hx). congruence.
  - destruct Hs as [A B C M X]. by split.
Qed.

Lemma reachable_sys_ok archive s : Z.of_nat (length archive) < 2 ^ 63 -> reachable archive s -> exists n, sys_ok n s.
Proof.
  intros Hlen. induction 1 as [s Hb|lk f f' s s' _ [n Hs] Hc E|s s' _ [n Hs] Hb].
  - by eapply booted_sys_ok.
  - exists n. destruct (call_dispatch_ok n lk f s Hs Hc) as (r & E' & [X _ _ _ _]). rewrite E in E'. by injection E' as <-.
  - exists n. by eapply background_ok.
Qed.

(** ** Descriptors *)
Definition uncontended : nat -> bool := fun _ => true.

(** Descriptor [fd] of the current process is open on [id] at offset [o]. *)
Definition names (s : state) (fd id o fl : Z) : Prop :=
  exists fid, resolve_fd uncontended fd s = Done (Some fid) /\ VfsRuns.desc (vfs s) fid = Some (id, o, fl).

(** The current process has a slot for a handle that was never used before, and
    the system a free open file. *)
Definition room (s : state) : Prop :=
  (exists pid pcb i e, Scheduler.current (sched s) = Some pid /\ get (table s) pid = Some pcb /\
    list_find (fun e => HandleTable.active e = false) (HandleTable.entries (Pcb.handle_table pcb)) = Some (i, e) /\ HandleTable.generation e = 0) /\
  exists fid, 0 < fid < 4096 /\ VfsRuns.desc (vfs s) fid = None.

Lemma alloc_first tb m cap i e : HandleSpec.represents tb m ->
  list_find (fun e => HandleTable.active e = false) (HandleTable.entries tb) = Some (i, e) ->
  exists tb', HandleTable.alloc tb cap = Done (Ok (HandleId.pack (Z.of_nat i) (HandleTable.generation e)), tb').
Proof.
  intros Hm (Hi & Ha & Hbefore)%list_find_Some. pose proof (HandleSpec.rep_length _ _ Hm) as Hl. pose proof (lookup_lt_Some _ _ _ Hi) as Hlt.
  assert (forall k, (k <= i)%nat -> exists tb', HandleTable.alloc_loop tb cap (seqZ (Z.of_nat (i - k)) (256 - Z.of_nat (i - k))) =
    Done (Ok (HandleId.pack (Z.of_nat i) (HandleTable.generation e)), tb')) as Hloop.
  { induction k as [|k IH]; intros Hk; rewrite seqZ_cons by lia; cbn [HandleTable.alloc_loop].
    - destruct (arr_get_in (HandleTable.entries tb) (Z.of_nat (i - 0))) as (x & -> & Hx); [lia|]. exec_simpl.
      replace (Z.to_nat (Z.of_nat (i - 0))) with i in Hx by lia. rewrite Hi in Hx. injection Hx as <-. rewrite Ha.
      rewrite arr_set_Done by lia. exec_simpl. replace (Z.of_nat (i - 0)) with (Z.of_nat i) by lia. rewrite wrap_small by lia. eauto.
    - destruct (arr_get_in (HandleTable.entries tb) (Z.of_nat (i - S k))) as (x & -> & Hx); [lia|]. exec_simpl.
      rewrite Nat2Z.id in Hx. assert (HandleTable.active x = true) as ->.
      { specialize (Hbefore _ _ Hx ltac:(lia)). by destruct (HandleTable.active x). }
      replace (Z.succ (Z.of_nat (i - S k))) with (Z.of_nat (i - k)) by lia.
      replace (Z.pred (256 - Z.of_nat (i - S k))) with (256 - Z.of_nat (i - k)) by lia. apply IH. lia. }
  destruct (Hloop i ltac:(lia)) as [tb' E]. rewrite Nat.sub_diag in E. exists tb'. exact E.
Qed.

Lemma resolve_fd_live pid pcb m fd c s : Scheduler.current (sched s) = Some pid -> get (table s) pid = Some pcb ->
  HandleSpec.represents (Pcb.handle_table pcb) m -> m !! HandleId.pack (wrap 8 fd) 0 = Some c ->
  resolve_fd uncontended fd s = Done (Some (wrap 32 c)).
Proof.
  intros Hc Hp Hm Hl. unfold resolve_fd, current_pcb, get_current_pid, uncontended. rewrite Hc. cbn. rewrite Hp. cbn.
  destruct (HandleSpec.resolve_spec _ _ (HandleId.pack (wrap 8 fd) 0) Hm) as (r & -> & Hr & _). exec_simpl.
  rewrite HandleSpec.canonical_pack in Hr by (done || by apply wrap_range). by rewrite (proj2 (Hr c) Hl).
Qed.

Lemma current_pcb_free pid pcb s : Scheduler.current (sched s) = Some pid -> get (table s) pid = Some pcb ->
  current_pcb uncontended s = Some (pid, pcb).
Proof. intros Hc Hp. unfold current_pcb, get_current_pid, uncontended. rewrite Hc. cbn. by rewrite Hp. Qed.

Lemma open_names n path fl id s : sys_ok n s -> Z.of_nat (length path) <= 65 -> Vfs.resolve_path (vfs s) path = Done (Ok id) -> room s ->
  exists fd s', syscall_open uncontended path fl s = Done (fd, s') /\ in_u 8 fd /\ names s' fd id 0 fl.
Proof.
  intros Hs Hlen Hres ((pid & pcb & i & e & Hc & Hp & Hi & Hg) & fid0 & Hfid0 & Hfree). unfold syscall_open.
  destruct (vfs_open_spec n (vfs s) path fl (k_vfs _ _ Hs) Hlen) as (r & v & -> & Hv & _ & rp & Hrp & He). exec_simpl.
  rewrite Hres in Hrp. injection Hrp as <-. destruct r as [fid|err].
  2: { destruct He as [_ [?|(_ & _ & Hfull)]]; [done|]. destruct (Hfull fid0 Hfid0) as [x Hx]. congruence. }
  destruct He as (id' & [= <-] & _ & Hd & _). rewrite (current_pcb_free pid pcb) by done.
  destruct (handle_table_ok n s pid pcb Hs Hp) as [m Hm]. destruct (alloc_first _ _ fid i e Hm Hi) as [ht Ea].
  destruct (HandleSpec.alloc_spec _ _ fid Hm) as [(h & ht' & E' & _ & _ & _ & Hm')|[E' _]]; [|congruence]. rewrite Ea in E'. injection E' as <- <-.
  rewrite Ea. exec_simpl. rewrite Hg in *. apply list_find_Some in Hi as (Hi & _). apply lookup_lt_Some in Hi.
  rewrite (HandleSpec.rep_length _ _ Hm) in Hi. assert (in_u 8 (Z.of_nat i)) as H8 by (split; lia).
  rewrite HandleIdFacts.slot_pack by done. eexists _, _. split; [done|]. split; [done|]. exists fid. split; [|done].
  assert (in_u 32 fid) as H32. { apply VfsRuns.desc_get in Hd as (f & Hf & _). apply (VfsSpec.get_ofile_range _ _ _ (VfsRuns.v_ofiles _ _ Hv)) in Hf.
    unfold OpenFileTable.MAX_OPEN_FILES in Hf. split; lia. }
  rewrite <- (wrap_small 32 fid) by done. eapply (resolve_fd_live pid (Pcb.set_handle_table ht pcb)); [done| |exact Hm'|].
  - unfold get, table, update. cbn. rewrite lookup_alter_eq. unfold get, table in Hp. by rewrite Hp.
  - rewrite (wrap_small 8) by done. by rewrite lookup_insert_eq.
Qed.

Lemma file_kind n v id d : VfsRuns.vfs_ok n v -> VfsRuns.contents v !! id = Some d -> VfsRuns.kind v id = Some InodeTable.File.
Proof. intros Hv Hd. apply (VfsRuns.v_files _ _ Hv). eauto. Qed.

Lemma read_names n fd a len id o fl d s : sys_ok n s -> 0 <= len -> small_files (vfs s) ->
  names s fd id o fl -> VfsRuns.contents (vfs s) !! id = Some d -> Forall (in_u 8) d ->
  let got := take (Z.to_nat len) (drop (Z.to_nat o) d) in
  exists s', syscall_read uncontended fd a len s = Done (Z.of_nat (length got), s') /\
    load (memory s') a (Z.of_nat (length got)) = got /\ names s' fd id (o + Z.of_nat (length got)) fl /\
    VfsRuns.contents (vfs s') = VfsRuns.contents (vfs s).
Proof.
  intros Hs Hlen Hsm (fid & Hfd & Hd) Hc Hb got. unfold syscall_read. rewrite Hfd. exec_simpl.
  destruct (vfs_read_spec n (vfs s) fid len (k_vfs _ _ Hs) Hlen) as (r & v & -> & Hv & Hsame & He). rewrite Hd, (file_kind n _ _ _ (k_vfs _ _ Hs) Hc) in He.
  destruct He as (bytes & -> & Hy & [Hcur _]). unfold VfsRuns.yields in Hy. rewrite (file_kind n _ _ _ (k_vfs _ _ Hs) Hc) in Hy.
  destruct Hy as (d' & Hc' & ->). rewrite Hc in Hc'. injection Hc' as <-. fold got in Hcur |- *. cbn zeta.
  destruct (VfsRuns.v_desc _ _ (k_vfs _ _ Hs) _ _ _ _ Hd) as (_ & [Ho _] & Hle). specialize (Hle _ Hc). specialize (Hsm _ _ Hc).
  assert (o + Z.of_nat (length got) <= Z.of_nat (length d)) as Hg by (unfold got; rewrite length_take, length_drop; lia).
  rewrite u64_add_small in Hcur by lia. eexists. split; [done|]. cbn [memory set_memory]. split; [|split; [by exists fid|done]].
  apply load_store. unfold got. by apply Forall_take, Forall_drop.
Qed.

Lemma write_names n fd data id o fl d s : sys_ok n s -> Z.of_nat (length data) < 2 ^ 62 -> small_files (vfs s) ->
  names s fd id o fl -> VfsRuns.contents (vfs s) !! id = Some d ->
  let at_ := if OpenFileTable.contains fl OpenFileTable.APPEND then Z.of_nat (length d) else o in
  exists s', syscall_vfs_write uncontended fd data s = Done (Z.of_nat (length data), s') /\
    VfsRuns.contents (vfs s') = <[id := VfsRuns.splice at_ data d]> (VfsRuns.contents (vfs s)) /\
    names s' fd id (o + Z.of_nat (length data)) fl.
Proof.
  intros Hs Hlen Hsm (fid & Hfd & Hd) Hc at_. unfold syscall_vfs_write. rewrite Hfd. exec_simpl.
  pose proof (file_kind n _ _ _ (k_vfs _ _ Hs) Hc) as Hk. assert (Vfs.is_serial_inode id = false) as Hser.
  { apply Z.eqb_neq. intros ->. pose proof (VfsSpec.io_n _ _ (VfsRuns.v_inodes _ _ (k_vfs _ _ Hs))) as Hmax.
    assert (is_Some (VfsRuns.kind (vfs s) Vfs.SERIAL_INODE_ID)) as Hi by eauto. apply (VfsRuns.kind_is_Some n) in Hi; [|apply Hs].
    unfold InodeTable.MAX_INODES, Vfs.SERIAL_INODE_ID in *. lia. }
  pose proof Hd as (x & Hx & Hxi & _)%VfsRuns.desc_get. rewrite Hx, Hxi, Hser.
  destruct (vfs_write_spec n (vfs s) fid data (k_vfs _ _ Hs)) as (r & v & -> & Hv & He).
  { split; [lia|]. intros id' o' fl' d' _ Hc'. specialize (Hsm _ _ Hc'). lia. }
  cbn [VfsRuns.effect] in He. rewrite Hd, Hk in He. destruct He as (d' & Hc' & -> & Hcon & [Hcur _]). rewrite Hc in Hc'. injection Hc' as <-.
  exec_simpl. eexists. split; [done|]. split; [done|]. by exists fid.
Qed.

Lemma close_names n fd id o fl s : sys_ok n s -> names s fd id o fl ->
  exists s', syscall_close uncontended fd s = Done (0, s') /\ resolve_fd uncontended fd s' = Done None /\
    VfsRuns.contents (vfs s') = VfsRuns.contents (vfs s).
Proof.
  intros Hs (fid & Hfd & Hd). unfold syscall_close. pose proof Hfd as Hfd'. unfold resolve_fd in Hfd'.
  destruct (current_pcb uncontended s) as [[pid pcb]|] eqn:E; [|done]. rewrite Hfd. exec_simpl.
  change (current_pcb (later 2 uncontended) s) with (current_pcb uncontended s). rewrite E. apply current_pcb_Some in E as [Hc Hp].
  destruct (handle_table_ok n s pid pcb Hs Hp) as [m Hm]. destruct (HandleSpec.resolve_spec _ _ (HandleId.pack (wrap 8 fd) 0) Hm) as (r & Er & Hr & _).
  rewrite Er in Hfd'. exec_simpl. destruct r as [c|err]; [|done].
  destruct (HandleSpec.release_spec _ _ (HandleId.pack (wrap 8 fd) 0) Hm) as [(ht & -> & _ & Hm')|(err & _ & Hn)]; [|by rewrite (proj1 (Hr c) eq_refl) in Hn].
  exec_simpl. set (s1 := set_procs _ _ s). destruct (vfs_close_spec n (vfs s1) fid (k_vfs _ _ Hs)) as (r & v & -> & Hv & Hcon & He).
  change (vfs s1) with (vfs s) in *. rewrite Hd in He. destruct He as (-> & _). eexists. split; [done|]. split; [|done].
  unfold resolve_fd. erewrite (current_pcb_free pid (Pcb.set_handle_table ht pcb)); [|done|].
  2: { unfold s1, get, table, update. cbn. rewrite lookup_alter_eq. unfold get, table in Hp. by rewrite Hp. }
  destruct (HandleSpec.resolve_spec _ _ (HandleId.pack (wrap 8 fd) 0) Hm') as (r & Er' & Hr' & _). cbn [Pcb.handle_table Pcb.set_handle_table].
  rewrite Er'. exec_simpl. destruct r as [c'|err]; [|done]. pose proof (proj1 (Hr' c') eq_refl) as Hl. by rewrite lookup_delete_eq in Hl.
Qed.

(** ** Theorems *)

(** A system call stays within bounds. In every state that boot, programs,
    process operations and the network can lead to, a call returns (for paths of at
    most 65 bytes and datagrams short of 65528; files are shorter than 2^62), and
    the invariants of the processes, the network stack and the file system hold
    again. Only the control block of the caller changes, memory only in the
    buffer that was passed, of the registers only [rax], and of the open files
    only those that a handle of the caller leads to. *)
Theorem system_calls_are_contained archive s lk f : Z.of_nat (length archive) < 2 ^ 63 -> reachable archive s -> call_ok lk s f ->
  exists n r, syscall_dispatch other dead_loop lk f s = Done r /\ served n s f r.
Proof.
  intros Hlen Hr Hc. destruct (reachable_sys_ok archive s Hlen Hr) as [n Hs]. exists n. by apply call_dispatch_ok.
Qed.


End Runs.

(** ** A machine to look at *)
Section Sample.
#[local] Instance quiet_nic : NicDriver unit := {
  mac_address _ := replicate 6 0;
  send_packet d _ := (d, false);
  poll_rx d := (d, None);
  recycle_rx d := d;
}.
#[local] Instance ticking : Timer Z := fun c => (c + 1, c).
Notation state := (Syscalls.t (D:=unit) (T:=Z)).
Notation nothing := (fun (f : Frame) (s : state) => Done (f, s)).

Definition off : Process.Kernel := Process.mkKernel ProcessTable.new Scheduler.new CapStore.CapStore.new Router.BusRouter.new (NetStack.init (D:=unit) 0).

Definition kernel_up : Process.Kernel := match Process.init off with Done k => k | _ => off end.
Definition kernel_running : Process.Kernel := match ProcRuns.step kernel_up ProcRuns.Schedule with Done (_, k) => k | _ => off end.
Definition files_up : Vfs.t := match VfsRuns.boot VfsRuns.sample_archive with Done v => v | _ => Vfs.new end.

(** The Butler runs; the path of a file is at address 0x1000. *)
Definition sample_memory : Z -> Z := store (fun _ => 0) 0x1000 (str_bytes "/motd").
Definition started : state := mk kernel_up files_up [] sample_memory 0.
Definition sample : state := set_kernel kernel_running started.

Definition call (number di si dx : Z) : Frame := mkFrame number di si dx 0 0 0 0 0 0 0.
Definition sys_open : Frame := call 4 0x1000 5 OpenFileTable.READ.

Lemma sample_bytes x : in_u 8 (sample_memory x).
Proof. apply store_bytes. done. Qed.

Lemma kernel_up_ok : Process.init off = Done kernel_up /\ ProcRuns.kernel_ok kernel_up /\ next_pid (Process.table kernel_up) = 2.
Proof. destruct (ProcRuns.init_spec off) as (k & Hi & Hk & Hn); [by split|]. unfold kernel_up. rewrite Hi. done. Qed.

Lemma started_booted : booted VfsRuns.sample_archive started.
Proof.
  destruct kernel_up_ok as (Hi & Hk & Hn). split; [|split].
  - exists off. split; [by split|]. split; [|exact Hi]. assert (NetStack.clock (net started) = 0) as -> by (vm_compute; reflexivity). reflexivity.
  - destruct (VfsRuns.boot_ok VfsRuns.sample_archive) as (n & v & Ev & _); [vm_compute; reflexivity|].
    change (vfs started) with files_up. unfold files_up. rewrite Ev. reflexivity.
  - exact sample_bytes.
Qed.

Lemma sample_scheduled : background started sample.
Proof.
  destruct kernel_up_ok as (Hi & Hk & Hn). destruct (ProcRuns.kernel_step_ok kernel_up ProcRuns.Schedule Hk) as (a & k & E & _); [lia|].
  assert (kernel_running = k) as Hrun by (unfold kernel_running; by rewrite E). apply (by_process ProcRuns.Schedule a kernel_running started).
  - change (table started) with (Process.table kernel_up). lia.
  - change (kernel started) with kernel_up. rewrite Hrun. exact E.
Qed.

Lemma sample_reachable : reachable nothing 0 VfsRuns.sample_archive sample.
Proof. apply (by_background nothing 0 VfsRuns.sample_archive started); [apply at_boot, started_booted|exact sample_scheduled]. Qed.

Lemma sample_call_ok lk number di si dx : Forall (in_u 64) [number; di; si; dx] -> (number = 2 -> False) -> (number = 0 -> lk 1%nat = true) ->
  (number = 4 \/ number = 7 -> si <= 65) -> (number = 15 \/ number = 23 -> dx < 65528) -> (18 <= number <= 34 -> number = 23) ->
  call_ok lk sample (call number di si dx).
Proof.
  intros Hr H2 H0 Hp Hs Hk. rewrite !Forall_cons in Hr. destruct Hr as (? & ? & ? & ? & _). split; cbn [call rax rdi rsi rdx r10 r8].
  - by repeat (apply Forall_cons; split).
  - intros E _. by apply H0.
  - intros E. by destruct (H2 E).
  - exact Hp.
  - exact Hs.
  - exact Hk.
Qed.

Lemma system_calls_are_contained_witness : exists n r,
  syscall_dispatch nothing 0 uncontended sys_open sample = Done r /\ served 0 n sample sys_open r.
Proof.
  apply (system_calls_are_contained nothing 0 VfsRuns.sample_archive sample uncontended sys_open).
  - vm_compute. reflexivity.
  - exact sample_reachable.
  - apply sample_call_ok; [repeat (apply List.Forall_cons; [split; vm_compute; (reflexivity || discriminate)|]); apply List.Forall_nil|..]; intros; (discriminate || lia).
Defined.

Lemma sample_small : small_files (vfs sample).
Proof.
  assert (map_Forall (fun _ d => Z.of_nat (length d) < 2 ^ 62) (VfsRuns.contents (vfs sample))) as Hm by (apply (bool_decide_unpack _); vm_compute; exact I).
  exact Hm.
Qed.

Lemma sample_room : room sample.
Proof.
  split.
  - assert (exists pcb, Scheduler.current (sched sample) = Some 1 /\ get (table sample) 1 = Some pcb /\ Pcb.handle_table pcb = HandleTable.new) as (pcb & H1 & H2 & H3).
    { eexists. split; [vm_compute; reflexivity|]. split; [vm_compute; reflexivity|]. vm_compute. reflexivity. }
    exists 1, pcb, 0%nat, HandleTable.empty. rewrite H3. by repeat split.
  - exists 1. split; [lia|]. vm_compute. reflexivity.
Qed.


(** ** Limits of the calls *)

(** The results of a sequence of calls. *)
Fixpoint results (lk : nat -> bool) (fs : list Frame) (s : state) : exec (list Z * state) :=
  match fs with
  | [] => Done ([], s)
  | f :: fs' =>
      '(f', s) ← syscall_dispatch nothing 0 lk f s;
      '(rs, s) ← results lk fs' s;
      Done (rax f' :: rs, s)
  end.

Definition answers (lk : nat -> bool) (fs : list Frame) (s : state) : exec (list Z) := '(rs, _) ← results lk fs s; Done rs.

(** A slot that was used before gives a descriptor that cannot be resolved: reading
    from it fails, and so does closing it. *)
Lemma reused_descriptor_is_dead :
  answers uncontended [sys_open; call 6 0 0 0; sys_open; call 5 0 0x2000 5; call 6 0 0 0] sample = Done [0; 0; 0; U64_MAX; U64_MAX].
Proof. vm_compute. reflexivity. Qed.

(** A path of more than 65 bytes panics the kernel. *)
Lemma long_path_call_panics : answers uncontended [call 4 0x1000 100 0] (set_memory (fun _ => 47) sample) = Panicked.
Proof. vm_compute. reflexivity. Qed.

(** 256 open files of another process. *)
Definition crowded : state :=
  set_vfs (foldl (fun v _ => (Vfs.open_inode 8 OpenFileTable.READ v).2) (vfs sample) (seq 0 256)) sample.

(** The descriptor of a socket is taken for an open file: closing it closes an open
    file of another process. *)
Lemma socket_descriptor_closes_a_file :
  (exists x, VfsRuns.desc (vfs crowded) 256 = Some x) /\
  exists s', results uncontended [call 10 2 17 0; call 6 0 0 0] crowded = Done ([0; 0], s') /\ VfsRuns.desc (vfs s') 256 = None.
Proof.
  split; [eexists; vm_compute; reflexivity|].
  assert (match results uncontended [call 10 2 17 0; call 6 0 0 0] crowded with
          | Done (rs, s') => bool_decide (rs = [0; 0]) && bool_decide (VfsRuns.desc (vfs s') 256 = None)
          | _ => false
          end = true) as Hc by (vm_compute; reflexivity).
  destruct (results _ _ crowded) as [[rs s']| |]; [|discriminate..]. apply andb_true_iff in Hc as [H1 H2].
  apply bool_decide_eq_true in H1 as ->. apply bool_decide_eq_true in H2. by exists s'.
Qed.

(** SYS_EXIT leaves the sockets of the process open. *)
Lemma exit_leaves_sockets :
  exists s' sock, results uncontended [call 10 2 17 0; call 0 0 0 0] sample = Done ([0; 0], s') /\
    SocketTable.get (NetStack.SOCKETS (net s')) 256 = Some sock /\ Socket.owner sock = 1.
Proof.
  assert (match results uncontended [call 10 2 17 0; call 0 0 0 0] sample with
          | Done (rs, s') => bool_decide (rs = [0; 0]) && bool_decide (Socket.owner <$> SocketTable.get (NetStack.SOCKETS (net s')) 256 = Some 1)
          | _ => false
          end = true) as Hc by (vm_compute; reflexivity).
  destruct (results _ _ sample) as [[rs s']| |]; [|discriminate..]. apply andb_true_iff in Hc as [H1 H2].
  apply bool_decide_eq_true in H1 as ->. apply bool_decide_eq_true in H2. destruct (SocketTable.get _ _) as [sock|] eqn:E; [|discriminate].
  exists s', sock. injection H2 as H2. by rewrite E.
Qed.

(** A process that exits while the process table is locked leaves the scheduler but
    stays Running: it is neither terminated nor ever scheduled again. *)
Lemma contended_exit_loses_process :
  let s' := sys_exit (fun i => bool_decide (i = 0%nat)) 0 sample in
  Pcb.state <$> get (table s') 1 = Some Running /\ Scheduler.current (sched s') = None /\ Scheduler.run_queues (sched s') = replicate 5 [].
Proof. vm_compute. by repeat split. Qed.

End Sample.
End SyscallRuns.
