(* ===== verification/Desktop.v ===== *)
(** * The remaining system calls (src/kernel/src/x86/syscall.rs)

    The calls of the display, the keyboard, DNS, TLS, poll and windows (18 to 22
    and 24 to 34), and the whole of [syscall_dispatch] over the globals of the
    kernel: those of [Syscalls], the TLS sessions, the resolver's cache, the
    surfaces, the display, the window table and the keyboard. The caller's
    register r9, which only one call reads, is an argument of its own. As in
    [Syscalls], [lk i] tells whether the [i]-th attempt at a lock of the process
    component succeeds; [free] is the same for the surfaces and the display. *)

From S2P Require Import Prelude Wire Crypto Hkdf Handle Process NetWire Sockets NetStack ProcNet Cpio Vfs Syscalls Tls Dns Display Windows.

Module Desktop.
Import Syscalls.

(** [frame.rdi as i32] and the like. *)
Definition as_i32 (z : Z) : Z := i32 z.

(** The [u32] values at a user address. *)
Definition load32 (m : Z -> Z) (a n : Z) : list Z := (fun i => le_value (load m (a + 4 * i) 4)) <$> seqZ 0 n.

(** [ProcessId::KERNEL]. *)
Definition KERNEL : Z := 0.

Section Calls.
Context {D T : Type} `{NicDriver D} `{Timer T} `{Sha2}.

Record Machine := mkMachine {
  sys : Syscalls.t (D:=D) (T:=T);
  sessions : list (option TlsSession.t);
  dns_cache : DnsCache.t;
  txn_counter : Z;
  surfaces : SurfaceTable.t;
  display : option DisplayState;
  input : Keyboard.t;
}.

Definition eta (m : Machine) : Machine := mkMachine (sys m) (sessions m) (dns_cache m) (txn_counter m) (surfaces m) (display m) (input m).
Definition with_sys (v : Syscalls.t) (m : Machine) : Machine := ltac:(set_field eta sys v m).
Definition with_surfaces (v : SurfaceTable.t) (m : Machine) : Machine := ltac:(set_field eta surfaces v m).
Definition with_display (v : option DisplayState) (m : Machine) : Machine := ltac:(set_field eta display v m).
Definition with_input (v : Keyboard.t) (m : Machine) : Machine := ltac:(set_field eta input v m).

Definition windows (m : Machine) : WindowTable.t := Keyboard.table (input m).
Definition with_windows (v : WindowTable.t) (m : Machine) : Machine :=
  with_input (Keyboard.mk v (Keyboard.buffer (input m)) (Keyboard.alt_held (input m))) m.
Definition with_memory (v : Z -> Z) (m : Machine) : Machine := with_sys (set_memory v (sys m)) m.

Definition user (m : Machine) : Z -> Z := Syscalls.memory (sys m).

(** [frame.rax = v]. *)
Definition answer (f : Frame) (v : Z) (m : Machine) : exec (Frame * Machine) := Done (set_rax v f, m).
Definition refuse (f : Frame) (m : Machine) : exec (Frame * Machine) := answer f U64_MAX m.

(** [get_current_pid().unwrap_or(ProcessId::KERNEL)]. *)
Definition caller (lk : nat -> bool) (m : Machine) : Z := default KERNEL (get_current_pid (lk 0%nat) (sys m)).

(** ** The display *)
Definition syscall_display_alloc_surface (free : bool) (width height : Z) (m : Machine) : Machine * Z :=
  if (width =? 0) || (height =? 0) || (4096 <? width) || (4096 <? height) then (m, U64_MAX)
  else if free then
    let '(slots, r) := SurfaceTable.alloc (surfaces m) width height in
    (with_surfaces slots m, match r with Some id => id | None => U64_MAX end)
  else (m, U64_MAX).

Definition syscall_display_blit (free : bool) (surface_id buf_ptr len : Z) (m : Machine) : Machine * Z :=
  if free then
    match SurfaceTable.get (surfaces m) surface_id with
    | None => (m, U64_MAX)
    | Some surface =>
        let pixels := Z.of_nat (length (Surface.buffer surface)) in
        if negb (len =? pixels * 4) then (m, U64_MAX)
        else
          let surface := Surface.mk (load32 (user m) buf_ptr pixels) (Surface.width surface) (Surface.height surface) true in
          (with_surfaces (<[Z.to_nat surface_id := Some surface]> (surfaces m)) m, 0)
    end
  else (m, U64_MAX).

Definition syscall_display_present (free display_free : bool) (surface_id : Z) (m : Machine) : exec (Machine * Z) :=
  match (if free then SurfaceTable.get (surfaces m) surface_id else None) with
  | None => Done (m, U64_MAX)
  | Some surface =>
      match (if display_free then display m else None) with
      | None => Done (m, U64_MAX)
      | Some ds =>
          mem ← present surface (fb ds) (Display.memory ds);
          Done (with_display (Some (mkDisplay (fb ds) mem (Display.surface ds))) m, 0)
      end
  end.

(** Call 21. *)
Definition sys_kb_read (f : Frame) (m : Machine) : exec (Frame * Machine) :=
  '(b, r) ← Keyboard.pop (Keyboard.buffer (input m));
  answer f (default 0 r) (with_input (Keyboard.mk (windows m) b (Keyboard.alt_held (input m))) m).

(** ** The network *)
Definition addr_u32 (ip : list Z) : Z :=
  Z.lor (Z.lor (Z.lor (Z.shiftl (ip !!! 0%nat) 24) (Z.shiftl (ip !!! 1%nat) 16)) (Z.shiftl (ip !!! 2%nat) 8)) (ip !!! 3%nat).

(** Call 22. *)
Definition sys_dns_resolve (f : Frame) (m : Machine) : exec (Frame * Machine) :=
  if (USER_END <=? rdi f) || (256 <? rsi f) then refuse f m
  else
    let name := load (user m) (rdi f) (rsi f) in
    if bool_decide (is_Some (Utf8.decode name)) then
      '(r, ip) ← Resolver.dns_resolve name (Resolver.mk (net (sys m)) (dns_cache m) (txn_counter m));
      let m := mkMachine (set_net (Resolver.net r) (sys m)) (sessions m) (Resolver.cache r) (Resolver.txn_counter r) (surfaces m) (display m) (input m) in
      answer f (match ip with Some ip => addr_u32 ip | None => U64_MAX end) m
    else refuse f m.

(** A call of the TLS client on its part of the globals. *)
Definition on_tls {A} (f : Frame) (m : Machine) (call : Tls.M A) (store_result : A -> Machine -> Machine * Z) : exec (Frame * Machine) :=
  '(s, r) ← call (Tls.mkTls (net (sys m)) (sessions m));
  let m := mkMachine (set_net (Tls.net s) (sys m)) (Tls.sessions s) (dns_cache m) (txn_counter m) (surfaces m) (display m) (input m) in
  match r with
  | Ok a => let '(m, v) := store_result a m in answer f v m
  | Err _ => refuse f m
  end.

(** Call 25. *)
Definition sys_tls_connect (lk : nat -> bool) (f : Frame) (m : Machine) : exec (Frame * Machine) :=
  if (USER_END <=? rsi f) || (256 <? rdx f) then refuse f m
  else
    let name := load (user m) (rsi f) (rdx f) in
    if bool_decide (is_Some (Utf8.decode name)) then
      sock ← resolve_socket_fd lk (rdi f) (sys m);
      match sock with
      | None => refuse f m
      | Some sock_id => on_tls f m (Tls.tls_connect sock_id name) (fun idx m => (m, idx))
      end
    else refuse f m.

(** Call 26. *)
Definition sys_tls_send (f : Frame) (m : Machine) : exec (Frame * Machine) :=
  if (USER_END <=? rsi f) || (65536 <? rdx f) then refuse f m
  else on_tls f m (Tls.tls_send (rdi f) (load (user m) (rsi f) (rdx f))) (fun n m => (m, n)).

(** Call 27. *)
Definition sys_tls_recv (f : Frame) (m : Machine) : exec (Frame * Machine) :=
  if (USER_END <=? rsi f) || (65536 <? rdx f) then refuse f m
  else on_tls f m (Tls.tls_recv (rdi f) (rdx f)) (fun data m => (with_memory (store (user m) (rsi f) data) m, Z.of_nat (length data))).

(** Call 28. *)
Definition sys_tls_close (f : Frame) (m : Machine) : exec (Frame * Machine) :=
  on_tls f m (Tls.tls_close (rdi f)) (fun _ m => (m, 0)).

(** The entries of a poll, from the user's array of [PollFd]. *)
Fixpoint poll_entries (lk : nat -> bool) (s : Syscalls.t (D:=D) (T:=T)) (a : Z) (nfds : nat) : exec (list NetStack.PollFd) :=
  match nfds with
  | O => Done []
  | S nfds' =>
      sock ← resolve_socket_fd lk (le_value (load (Syscalls.memory s) a 4)) s;
      rest ← poll_entries (later 2 lk) s (a + 8) nfds';
      Done (NetStack.mkPollFd (default (2 ^ 32 - 1) sock) (le_value (load (Syscalls.memory s) (a + 4) 2)) 0 :: rest)
  end.

(** Writing the [revents] back. *)
Fixpoint store_revents (mem : Z -> Z) (a : Z) (fds : list NetStack.PollFd) : Z -> Z :=
  match fds with
  | [] => mem
  | p :: fds => store_revents (store mem (a + 6) (le_bytes 2 (NetStack.revents p))) (a + 8) fds
  end.

(** Call 24. *)
Definition sys_poll (rounds : nat) (lk : nat -> bool) (f : Frame) (m : Machine) : exec (Frame * Machine) :=
  if (USER_END <=? rdi f) || (16 <? rsi f) then refuse f m
  else
    fds ← poll_entries lk (sys m) (rdi f) (Z.to_nat (rsi f));
    '(n, fds, result) ← NetStack.socket_poll rounds fds (NetStack.as_i64 (rdx f)) (net (sys m));
    answer f (wrap 64 result) (with_sys (set_memory (store_revents (user m) (rdi f) fds) (set_net n (sys m))) m).

(** ** Windows *)

(** [drop(wt); compose_and_present()] *)
Definition repaint (f : Frame) (v : Z) (m : Machine) : exec (Frame * Machine) :=
  d ← WmCompositor.compose_and_present (display m) (windows m);
  answer f v (with_display d m).

(** [win.owner_pid != owner && owner != ProcessId::KERNEL] *)
Definition stranger (owner : Z) (win : Window.t) : bool := negb (Window.owner_pid win =? owner) && negb (owner =? KERNEL).

Definition bad_size (w h : Z) : bool := (w <? 1) || (2048 <? w) || (h <? 1) || (2048 <? h).

(** Call 29. *)
Definition sys_wm_create (lk : nat -> bool) (f : Frame) (title_len : Z) (m : Machine) : exec (Frame * Machine) :=
  let width := wrap 32 (rdx f) in
  let height := wrap 32 (r10 f) in
  if bad_size width height then refuse f m
  else if (USER_END <=? r8 f) || (256 <? title_len) then refuse f m
  else
    let slice := load (user m) (r8 f) title_len in
    let title := if (0 <? title_len) && bool_decide (is_Some (Utf8.decode slice)) then slice else str_bytes "Untitled" in
    match WindowTable.create (windows m) (caller lk m) title (as_i32 (rdi f)) (as_i32 (rsi f)) width height with
    | (wt, Some wid) => repaint f wid (with_windows wt m)
    | (wt, None) => refuse f (with_windows wt m)
    end.

(** Call 30. *)
Definition sys_wm_destroy (lk : nat -> bool) (f : Frame) (m : Machine) : exec (Frame * Machine) :=
  let wid := wrap 32 (rdi f) in
  match WindowTable.get (windows m) wid with
  | Some w =>
      if stranger (caller lk m) w then refuse f m
      else
        let '(wt, found) := WindowTable.destroy (windows m) wid in
        if found then repaint f 0 (with_windows wt m) else refuse f (with_windows wt m)
  | None => refuse f m
  end.

(** Call 31. [copy_from_slice] wants equal lengths. *)
Definition sys_wm_blit (lk : nat -> bool) (f : Frame) (m : Machine) : exec (Frame * Machine) :=
  let wid := wrap 32 (rdi f) in
  if USER_END <=? rsi f then refuse f m
  else
    match WindowTable.get (windows m) wid with
    | None => refuse f m
    | Some win =>
        if stranger (caller lk m) win then refuse f m
        else
          let expected := Window.width win * Window.height win * 4 in
          if negb (rdx f =? expected) then refuse f m
          else
            let src := load32 (user m) (rsi f) (expected / 4) in
            let surface := Window.surface win in
            if negb (Nat.eqb (length (Surface.buffer surface)) (length src)) then Panicked
            else
              wt ← WindowTable.update (windows m) wid (fun w =>
                Done (Window.set_surface (Surface.mk src (Surface.width surface) (Surface.height surface) true) w));
              repaint f 0 (with_windows wt m)
    end.

(** Call 32. *)
Definition sys_wm_move_resize (lk : nat -> bool) (f : Frame) (m : Machine) : exec (Frame * Machine) :=
  let wid := wrap 32 (rdi f) in
  let new_w := wrap 32 (r10 f) in
  let new_h := wrap 32 (r8 f) in
  if bad_size new_w new_h then refuse f m
  else
    match WindowTable.get (windows m) wid with
    | None => refuse f m
    | Some win =>
        if stranger (caller lk m) win then refuse f m
        else
          let move := Window.set_position (as_i32 (rsi f)) (as_i32 (rdx f)) in
          if negb (new_w =? Window.width win) || negb (new_h =? Window.height win) then
            match Surface.new new_w new_h with
            | Some s =>
                wt ← WindowTable.update (windows m) wid (fun w => Done (Window.set_size s new_w new_h (move w)));
                repaint f 0 (with_windows wt m)
            | None =>
                wt ← WindowTable.update (windows m) wid (fun w => Done (move w));
                refuse f (with_windows wt m)
            end
          else
            wt ← WindowTable.update (windows m) wid (fun w => Done (move w));
            repaint f 0 (with_windows wt m)
    end.

(** Call 33. *)
Definition sys_wm_focus (f : Frame) (m : Machine) : exec (Frame * Machine) :=
  let wid := wrap 32 (rdi f) in
  match WindowTable.get (windows m) wid with
  | None => refuse f m
  | Some _ =>
      wt ← WindowTable.set_focus (windows m) wid;
      repaint f 0 (with_windows wt m)
  end.

Definition SERIALIZED_SIZE : Z := 4.

(** Call 34. *)
Definition sys_wm_event (lk : nat -> bool) (f : Frame) (m : Machine) : exec (Frame * Machine) :=
  let wid := wrap 32 (rdi f) in
  if USER_END <=? rsi f then answer f 0 m
  else
    match WindowTable.get (windows m) wid with
    | None => answer f 0 m
    | Some win =>
        if stranger (caller lk m) win then answer f 0 m
        else if rdx f <? SERIALIZED_SIZE then answer f 0 m
        else
          '(q, e) ← WmEventQueue.pop (Window.event_queue win);
          wt ← WindowTable.update (windows m) wid (fun w => Done (Window.set_event_queue q w));
          let m := with_windows wt m in
          match e with
          | Some event => answer f SERIALIZED_SIZE (with_memory (store (user m) (rsi f) (WmEvent.to_bytes event)) m)
          | None => answer f 0 m
          end
    end.

(** ** [syscall_dispatch]; [rounds] bounds the loop of a poll. *)
Record Locks := mkLocks { procs : nat -> bool; surfaces_free : bool; display_free : bool }.

Definition dispatch (rounds : nat) (dead_loop : Z) (lk : Locks) (f : Frame) (r9 : Z) (m : Machine) : exec (Frame * Machine) :=
  match rax f with
  | 18 => let '(m, v) := syscall_display_alloc_surface (surfaces_free lk) (wrap 32 (rdi f)) (wrap 32 (rsi f)) m in answer f v m
  | 19 =>
      if USER_END <=? rsi f then refuse f m
      else let '(m, v) := syscall_display_blit (surfaces_free lk) (wrap 32 (rdi f)) (rsi f) (rdx f) m in answer f v m
  | 20 => '(m, v) ← syscall_display_present (surfaces_free lk) (display_free lk) (wrap 32 (rdi f)) m; answer f v m
  | 21 => sys_kb_read f m
  | 22 => sys_dns_resolve f m
  | 24 => sys_poll rounds (procs lk) f m
  | 25 => sys_tls_connect (procs lk) f m
  | 26 => sys_tls_send f m
  | 27 => sys_tls_recv f m
  | 28 => sys_tls_close f m
  | 29 => sys_wm_create (procs lk) f r9 m
  | 30 => sys_wm_destroy (procs lk) f m
  | 31 => sys_wm_blit (procs lk) f m
  | 32 => sys_wm_move_resize (procs lk) f m
  | 33 => sys_wm_focus f m
  | 34 => sys_wm_event (procs lk) f m
  | _ =>
      '(f, s) ← syscall_dispatch (fun f s => refused f s) dead_loop (procs lk) f (sys m);
      Done (f, with_sys s m)
  end.

(** A key from the keyboard. *)
Definition interrupt (c : Keyboard.Contention) (scancode : Z) (m : Machine) : exec Machine :=
  k ← Keyboard.keyboard_irq_handler c scancode (input m);
  Done (with_input k m).

End Calls.
Arguments Machine D T : clear implicits.
End Desktop.
