(* ===== verification/DesktopSpec.v ===== *)
(** * What the remaining system calls keep

    The invariant of the whole machine, and what each of the calls 18 to 22 and
    24 to 34 does to it: to user memory, to the processes and files, and to the
    windows of other processes. *)

From S2P Require Import Prelude Wire Crypto Hkdf Handle Process NetWire Sockets NetStack NetInv ProcNet Tls.
From S2P Require Import TlsTheorems Dns DnsTheorems Display Windows WindowSpec CompositorSpec Cpio Vfs.
From S2P Require Import VfsSpec VfsTheorems Syscalls SyscallSpec Desktop.

Module DesktopSpec.
Import Syscalls SyscallSpec Desktop TableSpec CompositorSpec.

(** A surface whose buffer has the size of its rectangle. *)
Definition sized (s : Surface.t) : Prop :=
  Z.of_nat (length (Surface.buffer s)) = Surface.width s * Surface.height s /\ 0 <= Surface.width s /\ 0 <= Surface.height s.

Definition slot_sized (o : option Surface.t) : Prop := match o with Some s => sized s | None => True end.

(** The memory a call may write. *)
Definition buffer (f : Frame) : Z * Z :=
  match rax f with
  | 24 => (rdi f, rdi f + 8 * rsi f)
  | 27 => (rsi f, rsi f + rdx f)
  | 34 => (rsi f, rsi f + 4)
  | _ => (0, 0)
  end.

Section Machines.
Context {D T : Type} `{NicDriver D} `{Timer T} `{Sha2}.
Notation Machine := (Machine D T).
Implicit Types m : Machine.

Definition tls_of m : Tls.Tls D T := Tls.mkTls (net (sys m)) (sessions m).

(** [n] counts the inodes and [k] bounds the operations on windows so far. *)
Record machine_ok (n : nat) (k : Z) m : Prop := {
  m_sys : sys_ok n (sys m);
  m_tls : TlsSpec.tls_ok (tls_of m);
  m_dns : CacheSpec.cache_ok (dns_cache m) /\ in_u 16 (txn_counter m);
  m_surfaces : Forall slot_sized (surfaces m);
  m_display : forall ds, display m = Some ds -> display_ok ds;
  m_windows : table_ok k (windows m);
  m_keys : exists l, RingSpec.holds (fun ch : Z => ch) (Keyboard.buffer (input m)) l;
}.

(** The windows that are not [pid]'s keep title, place and contents. *)
Definition spared (pid : Z) (wt wt' : WindowTable.t) : Prop :=
  forall id w, WindowTable.get wt id = Some w -> Window.owner_pid w <> pid -> exists w', WindowTable.get wt' id = Some w' /\ body w' = body w.

Lemma spared_refl pid wt : spared pid wt wt.
Proof. intros id w Hw _. by exists w. Qed.

(** What a call leaves. *)
Record handled (n : nat) (k pid : Z) (f : Frame) m (r : Frame * Machine) : Prop := {
  h_ok : machine_ok n (k + 1) r.2;
  h_frame : exists v, r.1 = set_rax v f;
  h_windows : pid <> KERNEL -> spared pid (windows m) (windows r.2);
  h_memory : forall x, ~ ((buffer f).1 <= x < (buffer f).2) -> user r.2 x = user m x;
  h_procs : table (sys r.2) = table (sys m) /\ sched (sys r.2) = sched (sys m) /\ vfs (sys r.2) = vfs (sys m);
}.

Lemma machine_mono n k k' m : machine_ok n k m -> k <= k' -> machine_ok n k' m.
Proof. intros [] Hk. split; try done. by eapply table_mono. Qed.

Lemma handled_same n k pid f m v : machine_ok n k m -> handled n k pid f m (set_rax v f, m).
Proof. intros Hm. split; cbn; try done; [eapply machine_mono; [done|lia]|by exists v|intros _; apply spared_refl]. Qed.

Lemma refuse_ok n k pid f m : machine_ok n k m -> returns (refuse f m) (handled n k pid f m).
Proof. intros Hm. apply returns_done. by apply handled_same. Qed.

Lemma answered_ok n k pid f m v : machine_ok n k m -> returns (answer f v m) (handled n k pid f m).
Proof. intros Hm. apply returns_done. by apply handled_same. Qed.

(** ** The display *)
Lemma surface_sized s : PaintSpec.surf_ok s -> sized s.
Proof. intros [Hl [Hw Hh]]. split; [done|lia]. Qed.

Lemma surface_get_sized n k m id s : machine_ok n k m -> SurfaceTable.get (surfaces m) id = Some s -> sized s.
Proof.
  intros Hm Es. pose proof (m_surfaces _ _ _ Hm) as Hf. unfold SurfaceTable.get in Es. destruct (surfaces m !! Z.to_nat id) as [o|] eqn:E; [|done].
  subst o. rewrite Forall_lookup in Hf. exact (Hf _ _ E).
Qed.

Lemma alloc_loop_sized w h l : Forall slot_sized l -> 0 < w -> 0 < h -> forall i, Forall slot_sized (SurfaceTable.alloc_loop l i w h).1.
Proof.
  intros Hl Hw Hh. induction Hl as [|[s|] l Hs Hl IH]; intros i; cbn; [done|..].
  - specialize (IH (i + 1)). destruct (SurfaceTable.alloc_loop l (i + 1) w h) as [l' r]. by constructor.
  - unfold Surface.new. rewrite (proj2 (Z.eqb_neq _ _)) by nia. constructor; [|done]. cbn. split; cbn; [rewrite length_replicate; nia|lia].
Qed.

Lemma alloc_surface_ok n k pid f free w h m : in_u 32 w -> in_u 32 h -> machine_ok n k m -> rax f = 18 ->
  let '(m', v) := syscall_display_alloc_surface free w h m in returns (answer f v m') (handled n k pid f m).
Proof.
  intros [Hw _] [Hh _] Hm _. unfold syscall_display_alloc_surface. destruct (_ || _ || _ || _) eqn:G; [by apply answered_ok|]. destruct free; [|by apply answered_ok].
  apply orb_false_iff in G as [[[G1%Z.eqb_neq G2%Z.eqb_neq]%orb_false_iff _]%orb_false_iff _].
  unfold SurfaceTable.alloc. pose proof (alloc_loop_sized w h (surfaces m) (m_surfaces _ _ _ Hm) ltac:(lia) ltac:(lia) 0) as Hl.
  destruct (SurfaceTable.alloc_loop _ _ _ _) as [l r]. apply returns_done. destruct (machine_mono n k (k + 1) m Hm ltac:(lia)) as [].
  split; cbn; try done; [by eexists|intros _; apply spared_refl].
Qed.

Lemma load32_length mem a n : 0 <= n -> Z.of_nat (length (load32 mem a n)) = n.
Proof. intros Hn. unfold load32. rewrite length_fmap, length_seqZ. lia. Qed.

Lemma blit_ok n k pid f free id a len m : machine_ok n k m ->
  let '(m', v) := syscall_display_blit free id a len m in returns (answer f v m') (handled n k pid f m).
Proof.
  intros Hm. unfold syscall_display_blit. destruct free; [|by apply answered_ok]. destruct (SurfaceTable.get (surfaces m) id) as [s|] eqn:Es; [|by apply answered_ok].
  destruct (negb _); [by apply answered_ok|]. apply returns_done. destruct (machine_mono n k (k + 1) m Hm ltac:(lia)) as [].
  destruct (surface_get_sized n k m id s Hm Es) as (Hl & Hw & Hh).
  split; cbn; try done; [|by eexists|intros _; apply spared_refl]. split; cbn; try done. apply Forall_insert; [done|]. split; cbn; [|done]. rewrite load32_length by lia. lia.
Qed.

Lemma display_present_ok n k pid f free dfree id m : machine_ok n k m ->
  returns ('(m', v) ← syscall_display_present free dfree id m; answer f v m') (handled n k pid f m).
Proof.
  intros Hm. unfold syscall_display_present. destruct free; [|exec_simpl; by apply answered_ok].
  destruct (SurfaceTable.get (surfaces m) id) as [s|] eqn:Es; [|exec_simpl; by apply answered_ok].
  destruct dfree; [|exec_simpl; by apply answered_ok]. destruct (display m) as [ds|] eqn:Ed; [|exec_simpl; by apply answered_ok].
  pose proof (machine_mono n k (k + 1) m Hm ltac:(lia)) as [].
  destruct (surface_get_sized n k m id s Hm Es) as (Hl & Hw & Hh).
  destruct (m_display0 ds Ed) as [Hfb Hs Hdim]. destruct (present_ok s (fb ds) (Display.memory ds) Hl Hw Hh Hfb) as (mem & -> & Hm' & _). exec_simpl. apply returns_done.
  split; cbn; try done; [|by eexists|intros _; apply spared_refl]. split; cbn; try done. intros ds' [= <-]. by split.
Qed.

Lemma kb_read_ok n k pid f m : machine_ok n k m -> returns (sys_kb_read f m) (handled n k pid f m).
Proof.
  intros Hm. unfold sys_kb_read, Keyboard.pop. pose proof (machine_mono n k (k + 1) m Hm ltac:(lia)) as []. destruct m_keys0 as [l Hl].
  destruct (RingSpec.pop_holds _ (fun ch => ch) _ l Hl) as ([b r] & -> & _ & Hb). exec_simpl. apply returns_done.
  split; cbn; try done; [|by eexists|intros _; apply spared_refl]. split; cbn; try done. by exists (tail l).
Qed.

(** ** Windows *)

(** The screen is what the compositor makes of the windows. *)
Definition painted m : Prop := forall ds, display m = Some ds -> exists ds0,
  display_ok ds0 /\ WmCompositor.compose_and_present (Some ds0) (windows m) = Done (Some ds).

(** The outcome of a call that changes the windows: refused, or repainted. *)
Definition repainted (n : nat) (k pid : Z) (f : Frame) m (r : Frame * Machine) : Prop :=
  handled n k pid f m r /\ (rax r.1 = U64_MAX \/ painted r.2).

Lemma refuse_painted n k pid f m : machine_ok n k m -> returns (refuse f m) (repainted n k pid f m).
Proof. intros Hm. apply returns_done. split; [by apply handled_same|by left]. Qed.

(** The same machine with another window table, repainted. *)
Lemma repaint_ok n k pid f v m wt : machine_ok n k m -> table_ok (k + 1) wt -> (pid <> KERNEL -> spared pid (windows m) wt) ->
  returns (repaint f v (with_windows wt m)) (repainted n k pid f m).
Proof.
  intros Hm Ht Hsp. unfold repaint. pose proof (machine_mono n k (k + 1) m Hm ltac:(lia)) as [].
  assert (returns (WmCompositor.compose_and_present (display m) wt) (fun d => forall ds, d = Some ds -> display_ok ds /\ exists ds0, display m = Some ds0)) as (d & Ed & Hd).
  { destruct (display m) as [ds|] eqn:E; [|by exists None]. destruct (compose_and_present_spec ds wt (m_display0 ds eq_refl)) as (ds' & -> & _ & Hds & _).
    - intros w Hw. apply elem_windows in Hw; [|apply Ht]. apply (t_win _ _ Ht _ _ Hw).
    - eexists. split; [done|]. intros ? [= <-]. split; [done|by eexists]. }
  unfold windows in *. cbn [display input with_windows with_input Keyboard.table]. rewrite Ed. exec_simpl. apply returns_done. split.
  - split; cbn; try done; [|by eexists]. split; cbn; try done. intros ds Hds. by apply Hd.
  - right. intros ds Hds. cbn in Hds. destruct (Hd ds Hds) as [_ [ds0 E0]]. exists ds0. split; [by apply m_display0|]. rewrite <- Hds, <- Ed, E0. reflexivity.
Qed.

Lemma with_windows_ok n k pid f v m wt : machine_ok n k m -> table_ok (k + 1) wt -> (pid <> KERNEL -> spared pid (windows m) wt) ->
  returns (answer f v (with_windows wt m)) (handled n k pid f m).
Proof.
  intros Hm Ht Hsp. pose proof (machine_mono n k (k + 1) m Hm ltac:(lia)) as []. apply returns_done. split; cbn; try done. by eexists.
Qed.

Lemma i32_place z : - 2 ^ 31 <= as_i32 z < 2 ^ 31.
Proof. apply PaintSpec.i32_range. Qed.

Lemma bad_size_false w h : bad_size w h = false -> 1 <= w <= 2048 /\ 1 <= h <= 2048.
Proof.
  unfold bad_size. intros [[[G1%Z.ltb_ge G2%Z.ltb_ge]%orb_false_iff G3%Z.ltb_ge]%orb_false_iff G4%Z.ltb_ge]%orb_false_iff. lia.
Qed.

Lemma wm_create_ok n k lk f r9 m : machine_ok n k m -> 0 <= k -> k + 2 < 2 ^ 32 -> returns (sys_wm_create lk f r9 m) (repainted n k (caller lk m) f m).
Proof.
  intros Hm Hk0 Hk. unfold sys_wm_create. destruct (bad_size _ _) eqn:G; [by apply refuse_painted|]. apply bad_size_false in G as [Gw Gh].
  destruct (_ || _) eqn:G2; [by apply refuse_painted|]. apply orb_false_iff in G2 as [_ G2%Z.ltb_ge]. set (title := if _ : bool then _ else _).
  assert (Z.of_nat (length title) <= 256) as Ht. { unfold title. destruct (_ && _) eqn:E; [|cbn; lia]. apply andb_true_iff in E as [E%Z.ltb_lt _]. rewrite length_load; lia. }
  pose proof (window_create_spec k (windows m) (caller lk m) title (as_i32 (rdi f)) (as_i32 (rsi f)) _ _ Hk0 Hk (m_windows _ _ _ Hm) Gw Gh) as Hc.
  destruct (WindowTable.create _ _ _ _ _ _ _) as [wt [wid|]].
  - destruct Hc as (-> & s & Es & Hcr). destruct (surface_new_ok _ _ Gw Gh) as (s' & Es' & Hs & Ew & Eh). rewrite Es in Es'. injection Es' as <-.
    apply repaint_ok; [done| |].
    + eapply created_ok; [done|apply Hm|exact Hcr| |done|done]. split; [|exists []; apply RingSpec.new_holds|done]. split; cbn; [done|split; apply i32_place|done|done].
    + intros _ id w Hw _. exists w. split; [|done]. rewrite (cr_get _ _ _ Hcr), decide_False; [done|]. pose proof (t_ids _ _ (m_windows _ _ _ Hm) _ _ Hw). lia.
  - subst wt. destruct (with_windows_ok n k (caller lk m) f U64_MAX m (windows m) Hm) as (r & [= <-] & Hr); [eapply table_mono; [apply Hm|lia]|intros _; apply spared_refl|].
    apply returns_done. split; [done|by left].
Qed.

Lemma stranger_false owner w : stranger owner w = false -> owner <> KERNEL -> Window.owner_pid w = owner.
Proof.
  unfold stranger. intros [G|G]%andb_false_iff Hk; apply negb_false_iff, Z.eqb_eq in G; [done|by destruct Hk].
Qed.

Lemma wm_destroy_ok n k lk f m : machine_ok n k m -> returns (sys_wm_destroy lk f m) (repainted n k (caller lk m) f m).
Proof.
  intros Hm. unfold sys_wm_destroy. destruct (WindowTable.get _ _) as [w|] eqn:Ew; [|by apply refuse_painted]. destruct (stranger _ w) eqn:Es; [by apply refuse_painted|].
  pose proof (destroy_spec (windows m) (wrap 32 (rdi f)) (t_slots _ _ (m_windows _ _ _ Hm))) as Hd. destruct (WindowTable.destroy _ _) as [wt [|]].
  - destruct Hd as [_ Hd]. apply repaint_ok; [done|eapply table_mono; [eapply destroyed_ok; [apply Hm|exact Hd]|lia]|].
    intros Hp id u Hu Hne. exists u. split; [|done]. rewrite (ds_get _ _ _ Hd), decide_False; [done|]. intros ->. rewrite Ew in Hu. injection Hu as <-. by apply Hne, stranger_false.
  - destruct Hd as [Hd _]. congruence.
Qed.

(** A window of the caller replaced by one that is as good. *)
Lemma own_window_ok n k pid f v m wid w w' wt : machine_ok n k m -> WindowTable.get (windows m) wid = Some w -> stranger pid w = false ->
  win_ok w' -> Window.z_order w' = Window.z_order w -> Window.focused w' = Window.focused w -> replaced (windows m) wid w' wt ->
  table_ok (k + 1) wt /\ (pid <> KERNEL -> spared pid (windows m) wt) /\ returns (repaint f v (with_windows wt m)) (repainted n k pid f m).
Proof.
  intros Hm Hw Hst Hok Hz Hf Hr. assert (table_ok (k + 1) wt) as Ht by (eapply table_mono; [eapply replaced_ok; try done; apply Hm|lia]).
  assert (pid <> KERNEL -> spared pid (windows m) wt) as Hsp.
  { intros Hp id u Hu Hne. exists u. split; [|done]. rewrite (re_get _ _ _ _ Hr), decide_False; [done|]. intros ->. rewrite Hw in Hu. injection Hu as <-. by apply Hne, stranger_false. }
  split; [done|]. split; [done|]. by apply repaint_ok.
Qed.

Lemma update_done wt wid w (g : Window.t -> Window.t) : slots_ok wt -> WindowTable.get wt wid = Some w -> Window.id (g w) = Window.id w ->
  returns (WindowTable.update wt wid (fun w => Done (g w))) (replaced wt wid (g w)).
Proof.
  intros Hs Hw Hid. eapply returns_mono; [eapply (update_spec wt wid _ w (fun w' => w' = g w)); [done|done|]|by intros wt' (w' & -> & ?)].
  eexists. split; [done|]. split; [|done]. rewrite Hid. by eapply get_id.
Qed.

Lemma wm_blit_ok n k lk f m : machine_ok n k m -> returns (sys_wm_blit lk f m) (repainted n k (caller lk m) f m).
Proof.
  intros Hm. unfold sys_wm_blit. destruct (_ <=? _); [by apply refuse_painted|]. destruct (WindowTable.get _ _) as [w|] eqn:Ew; [|by apply refuse_painted].
  destruct (stranger _ w) eqn:Es; [by apply refuse_painted|]. destruct (negb _); [by apply refuse_painted|].
  pose proof (t_win _ _ (m_windows _ _ _ Hm) _ _ Ew) as [[Hd1 Hd2 (Hs & Hsw & Hsh) Hd4] Hq Hv].
  rewrite Z.div_mul by lia. set (src := load32 _ _ _). assert (Z.of_nat (length src) = Window.width w * Window.height w) as Hsrc by (apply load32_length; nia).
  assert (length (Surface.buffer (Window.surface w)) = length src) as Hlen by (pose proof (PaintSpec.su_size _ Hs); rewrite Hsw, Hsh in *; lia).
  rewrite Hlen, Nat.eqb_refl. cbn [negb].
  eapply returns_bind; [apply (update_done _ _ w (Window.set_surface (Surface.mk src (Surface.width (Window.surface w)) (Surface.height (Window.surface w)) true))); [apply Hm|done|done]|].
  intros wt Hr. refine (proj2 (proj2 (own_window_ok _ _ _ _ _ _ _ w _ wt Hm Ew Es _ _ _ Hr))); try done. split; [split; cbn; try done|exact Hq|exact Hv]. split; [|done]. split; cbn; [rewrite Hsw, Hsh; exact Hsrc|apply Hs].
Qed.

Lemma wm_move_resize_ok n k lk f m : machine_ok n k m -> returns (sys_wm_move_resize lk f m) (repainted n k (caller lk m) f m).
Proof.
  intros Hm. unfold sys_wm_move_resize. destruct (bad_size _ _) eqn:G; [by apply refuse_painted|]. apply bad_size_false in G as [Gw Gh].
  destruct (WindowTable.get _ _) as [w|] eqn:Ew; [|by apply refuse_painted]. destruct (stranger _ w) eqn:Es; [by apply refuse_painted|].
  pose proof (t_win _ _ (m_windows _ _ _ Hm) _ _ Ew) as [[Hd1 Hd2 (Hs & Hsw & Hsh) Hd4] Hq Hv]. destruct (_ || _).
  - destruct (surface_new_ok _ _ Gw Gh) as (s & -> & Hs' & Hw' & Hh').
    eapply returns_bind; [apply (update_done _ _ w (fun w => Window.set_size s (wrap 32 (r10 f)) (wrap 32 (r8 f)) (Window.set_position (as_i32 (rsi f)) (as_i32 (rdx f)) w))); [apply Hm|done|done]|].
    intros wt Hr. refine (proj2 (proj2 (own_window_ok _ _ _ _ _ _ _ w _ wt Hm Ew Es _ _ _ Hr))); try done. split; [split; cbn; try done; split; apply i32_place|exact Hq|exact Hv].
  - eapply returns_bind; [apply (update_done _ _ w (Window.set_position (as_i32 (rsi f)) (as_i32 (rdx f)))); [apply Hm|done|done]|].
    intros wt Hr. refine (proj2 (proj2 (own_window_ok _ _ _ _ _ _ _ w _ wt Hm Ew Es _ _ _ Hr))); try done. split; [split; cbn; try done; split; apply i32_place|exact Hq|exact Hv].
Qed.

Lemma wm_focus_ok n k pid f m : machine_ok n k m -> 0 <= k -> k + 1 < 2 ^ 32 -> returns (sys_wm_focus f m) (repainted n k pid f m).
Proof.
  intros Hm Hk0 Hk. unfold sys_wm_focus. destruct (WindowTable.get _ _) as [w|] eqn:Ew; [|by apply refuse_painted].
  eapply returns_bind; [apply (set_focus_spec k (windows m) (wrap 32 (rdi f)) Hk0 Hk (m_windows _ _ _ Hm)); by eexists|]. intros wt Hf.
  apply repaint_ok; [done|eapply focus_moved_ok; [done|apply Hm| |exact Hf]; by eexists|].
  intros _ id u Hu _. destruct (fm_some _ _ _ Hf id u Hu) as (u' & Hu' & Hr). exists u'. split; [done|apply Hr].
Qed.

(** Reading an event. *)
Lemma wm_event_ok n k lk f m : machine_ok n k m -> rax f = 34 -> returns (sys_wm_event lk f m) (handled n k (caller lk m) f m).
Proof.
  intros Hm Hf. unfold sys_wm_event. destruct (_ <=? _); [by apply answered_ok|]. destruct (WindowTable.get _ _) as [w|] eqn:Ew; [|by apply answered_ok].
  destruct (stranger _ w) eqn:Es; [by apply answered_ok|]. destruct (_ <? _); [by apply answered_ok|].
  pose proof (t_win _ _ (m_windows _ _ _ Hm) _ _ Ew) as [Hd [es Hes] Hv]. unfold WmEventQueue.pop.
  destruct (RingSpec.pop_holds Some (fun _ => None) _ es Hes) as ([q r] & -> & Hr & Hq). exec_simpl. cbn [fst snd] in *.
  eapply returns_bind; [apply (update_done _ _ w (Window.set_event_queue q)); [apply Hm|done|done]|]. intros wt Hrep.
  destruct (own_window_ok n k (caller lk m) f 0 m _ w (Window.set_event_queue q w) wt Hm Ew Es) as (Ht & Hsp & _); try done; [split; [by destruct Hd; split|by exists (tail es)|done]|].
  destruct (match r with Some e => e | None => None end) as [e|]; [|by apply with_windows_ok].
  pose proof (machine_mono n k (k + 1) m Hm ltac:(lia)) as []. apply returns_done. split; cbn; try done; [|by eexists|].
  - split; cbn; try done. by apply sys_ok_memory.
  - intros x. unfold buffer. rewrite Hf. cbn. intros Hx. apply store_other. destruct e; cbn; lia.
Qed.

(** ** The network *)

(** Another network, other sessions, another cache. *)
Lemma network_ok n k pid f v m (nt : NetStack.Net (D:=D) (T:=T)) ss c x : machine_ok n k m -> NetInv.net_ok nt -> TlsSpec.tls_ok (Tls.mkTls nt ss) -> CacheSpec.cache_ok c -> in_u 16 x ->
  handled n k pid f m (set_rax v f, mkMachine (set_net nt (sys m)) ss c x (surfaces m) (display m) (input m)).
Proof.
  intros Hm Hn Ht Hc Hx. pose proof (machine_mono n k (k + 1) m Hm ltac:(lia)) as [].
  split; cbn; [|by eexists|intros _; apply spared_refl|done|done]. split; cbn; try done. by apply sys_ok_net.
Qed.

Lemma tls_of_net n k m (nt : NetStack.Net (D:=D) (T:=T)) : machine_ok n k m -> NetInv.net_ok nt -> TlsSpec.tls_ok (Tls.mkTls nt (sessions m)).
Proof. intros Hm Hn. destruct (m_tls _ _ _ Hm) as [_ Hl Hf]. by split. Qed.

Lemma user_bytes n k m a len : machine_ok n k m -> 0 <= len -> bytes (load (user m) a len) /\ Z.of_nat (length (load (user m) a len)) = len.
Proof. intros Hm Hl. split; [apply load_bytes, (m_sys _ _ _ Hm)|]. rewrite length_load; lia. Qed.

Lemma dns_ok n k pid f m : machine_ok n k m -> in_u 64 (rsi f) -> returns (sys_dns_resolve f m) (handled n k pid f m).
Proof.
  intros Hm [Hsi _]. unfold sys_dns_resolve. destruct (_ || _) eqn:G; [by apply refuse_ok|]. apply orb_false_iff in G as [_ G%Z.ltb_ge]. case_bool_decide; [|by apply refuse_ok].
  destruct (user_bytes n k m (rdi f) (rsi f) Hm Hsi) as [Hb Hl]. destruct (m_dns _ _ _ Hm) as [Hc Hx].
  eapply returns_bind; [apply ResolverSpec.resolve_ok; [split; [apply (m_sys _ _ _ Hm)|exact Hc]|done|exact Hb|lia]|].
  intros [r ip] [[Hn' Hc'] Hx']. cbn [fst] in *. apply returns_done. apply network_ok; try done. by eapply tls_of_net.
Qed.

(** Data stored in the buffer of the call. *)
Lemma stored_ok n k pid f v m m1 bs : handled n k pid f m (set_rax v f, m1) -> (buffer f).1 = rsi f -> rsi f + Z.of_nat (length bs) <= (buffer f).2 ->
  handled n k pid f m (set_rax v f, with_memory (store (user m1) (rsi f) bs) m1).
Proof.
  intros [[] Hf Hw Hmem Hp] E1 E2. split; cbn in *; try done; [split; cbn; try done; by apply sys_ok_memory|].
  intros x Hx. rewrite <- (Hmem x Hx). apply store_other. lia.
Qed.

(** A TLS call: what is stored stays in the buffer of the call. *)
Lemma on_tls_ok {A} n k pid f m p (c : Tls.M A) (g : A -> Machine -> Machine * Z) : machine_ok n k m ->
  TlsSpec.ends p (c (tls_of m)) (fun r => TlsSpec.tls_ok r.1 /\ forall a, r.2 = Ok a -> forall m1, (forall v, handled n k pid f m (set_rax v f, m1)) ->
    handled n k pid f m (set_rax (g a m1).2 f, (g a m1).1)) ->
  TlsSpec.ends p (on_tls f m c g) (handled n k pid f m).
Proof.
  intros Hm Hc. unfold on_tls. fold (tls_of m). destruct (c (tls_of m)) as [[s r]| |]; cbn in Hc; [|done..]. exec_simpl. destruct Hc as [Ht Ha].
  destruct (m_dns _ _ _ Hm) as [Hc Hx]. assert (TlsSpec.tls_ok (Tls.mkTls (Tls.net s) (Tls.sessions s))) as Ht' by by destruct Ht.
  set (m1 := mkMachine _ _ _ _ _ _ _). assert (forall v, handled n k pid f m (set_rax v f, m1)) as Hm1 by (intros v; apply network_ok; [done|apply Ht|done..]).
  destruct r as [a|e]; cbn; [|apply Hm1]. specialize (Ha a eq_refl m1 Hm1). by destruct (g a m1).
Qed.

Lemma tls_connect_ok n k lk pid f m : machine_ok n k m -> in_u 64 (rdx f) -> TlsSpec.ends true (sys_tls_connect lk f m) (handled n k pid f m).
Proof.
  intros Hm [Hdx _]. unfold sys_tls_connect. destruct (_ || _) eqn:G; [by apply TlsSpec.returns_ends, refuse_ok|]. apply orb_false_iff in G as [_ G%Z.ltb_ge].
  case_bool_decide; [|by apply TlsSpec.returns_ends, refuse_ok]. destruct (user_bytes n k m (rsi f) (rdx f) Hm Hdx) as [Hb Hl].
  destruct (resolve_socket_fd_ok n lk (rdi f) (sys m) (m_sys _ _ _ Hm)) as (sock & -> & _). exec_simpl. destruct sock as [id|]; [|by apply TlsSpec.returns_ends, refuse_ok].
  apply on_tls_ok; [done|]. pose proof (TlsRuns.call_contained (TlsRuns.Connect id (load (user m) (rsi f) (rdx f))) (tls_of m) (m_tls _ _ _ Hm)) as Hc.
  cbn [TlsRuns.run_call TlsRuns.may_panic] in Hc. destruct (Tls.tls_connect _ _ _) as [[s r]| |]; cbn in *; try done; [|by apply Hc; split; [done|lia]].
  split; [apply Hc; split; [done|lia]|]. intros a _ m1 Hm1. apply Hm1.
Qed.

Lemma tls_send_ok n k pid f m : machine_ok n k m -> in_u 64 (rdi f) -> in_u 64 (rdx f) -> rdx f <= 65500 -> returns (sys_tls_send f m) (handled n k pid f m).
Proof.
  intros Hm [Hdi _] [Hdx _] Hmax. unfold sys_tls_send. destruct (_ || _) eqn:G; [by apply refuse_ok|]. destruct (user_bytes n k m (rsi f) (rdx f) Hm Hdx) as [Hb Hl].
  apply TlsSpec.ends_returns. apply on_tls_ok; [done|].
  pose proof (TlsRuns.call_contained (TlsRuns.Send (rdi f) (load (user m) (rsi f) (rdx f))) (tls_of m) (m_tls _ _ _ Hm)) as Hc.
  cbn [TlsRuns.run_call TlsRuns.may_panic] in Hc. destruct (Tls.tls_send _ _ _) as [[s r]| |]; cbn in *; [|by apply Hc; split; [done|split; [done|lia]]..].
  split; [apply Hc; split; [done|split; [done|lia]]|]. intros a _ m1 Hm1. apply Hm1.
Qed.

Lemma tls_recv_ok n k pid f m : machine_ok n k m -> in_u 64 (rdi f) -> in_u 64 (rdx f) -> rax f = 27 -> returns (sys_tls_recv f m) (handled n k pid f m).
Proof.
  intros Hm [Hdi _] [Hdx _] Hf. unfold sys_tls_recv. destruct (_ || _) eqn:G; [by apply refuse_ok|]. apply TlsSpec.ends_returns. apply on_tls_ok; [done|].
  pose proof (TlsRuns.recv_contained (rdi f) (rdx f) (tls_of m) (m_tls _ _ _ Hm) Hdi) as Hc. destruct (Tls.tls_recv _ _ _) as [[s r]| |]; cbn in *; [|done..].
  destruct Hc as [Ht Hl]. split; [done|]. intros a -> m1 Hm1. specialize (Hl a eq_refl). apply stored_ok; [apply Hm1|unfold buffer; by rewrite Hf|unfold buffer; rewrite Hf; cbn; lia].
Qed.

Lemma tls_close_ok n k pid f m : machine_ok n k m -> in_u 64 (rdi f) -> returns (sys_tls_close f m) (handled n k pid f m).
Proof.
  intros Hm [Hdi _]. unfold sys_tls_close. apply TlsSpec.ends_returns. apply on_tls_ok; [done|].
  pose proof (TlsRuns.call_contained (TlsRuns.Close (rdi f)) (tls_of m) (m_tls _ _ _ Hm) Hdi) as Hc. cbn [TlsRuns.run_call TlsRuns.may_panic] in Hc.
  unfold Tls.bind in Hc. destruct (Tls.tls_close (rdi f) (tls_of m)) as [[s r]| |]; cbn in *; [|done..]. destruct r as [[]|e]; cbn in Hc; (split; [apply Hc|]); [|done].
  intros a _ m1 Hm1. apply Hm1.
Qed.

(** Poll. *)
Lemma poll_entries_ok n (s : Syscalls.t (D:=D) (T:=T)) nfds : sys_ok n s -> forall lk a, returns (poll_entries lk s a nfds) (fun fds => length fds = nfds).
Proof.
  intros Hs. induction nfds as [|nfds IH]; intros lk a; cbn; [by exists []|].
  eapply returns_bind; [by apply (resolve_socket_fd_ok n)|]. intros sock _. eapply returns_bind; [apply IH|]. intros rest Hr. apply returns_done. cbn. congruence.
Qed.

Lemma store_revents_other fds : forall mem a x, ~ (a <= x < a + 8 * Z.of_nat (length fds)) -> store_revents mem a fds x = mem x.
Proof.
  induction fds as [|p fds IH]; intros mem a x Hx; [done|]. cbn [store_revents length] in *. rewrite IH by lia. apply store_other. rewrite length_le_bytes. lia.
Qed.

Lemma store_revents_bytes fds : forall mem a, (forall x, in_u 8 (mem x)) -> forall x, in_u 8 (store_revents mem a fds x).
Proof. induction fds as [|p fds IH]; intros mem a Hm x; cbn [store_revents]; [done|]. apply IH. intros y. by apply store_bytes. Qed.

(** A timeout of zero looks once, however many rounds there are. *)
Lemma poll_once rounds fds (nt : NetStack.Net (D:=D) (T:=T)) : NetInv.net_ok nt ->
  returns (NetStack.socket_poll (S rounds) fds 0 nt) (fun r => NetInv.net_ok r.1.1 /\ length r.1.2 = length fds).
Proof.
  intros Hn. unfold NetStack.socket_poll. pose proof (NetInv.read_clock_ok nt Hn) as [Hn' _]. destruct (NetStack.read_clock nt) as [n' now].
  cbn [NetStack.poll_loop]. eapply returns_bind; [by apply NetInv.deliver_one_ok|]. intros n'' Hn''. cbv zeta. destruct (0 <? _); [|rewrite Z.eqb_refl];
    apply returns_done; split; try done; cbn; by rewrite length_fmap.
Qed.

Lemma poll_call_ok n k pid rounds lk f m : machine_ok n k m -> in_u 64 (rsi f) -> rdx f = 0 -> rax f = 24 ->
  returns (sys_poll (S rounds) lk f m) (handled n k pid f m).
Proof.
  intros Hm [Hsi _] Hdx Hf. unfold sys_poll. destruct (_ || _); [by apply refuse_ok|].
  eapply returns_bind; [by apply (poll_entries_ok n), (m_sys _ _ _ Hm)|]. intros fds Hl. rewrite Hdx. change (NetStack.as_i64 0) with 0.
  eapply returns_bind; [by apply poll_once, (m_sys _ _ _ Hm)|]. intros [[nt fds'] result] [Hn Hl']. cbn [fst snd] in *. apply returns_done.
  destruct (m_dns _ _ _ Hm) as [Hc Hx]. destruct (network_ok n k pid f (wrap 64 result) m nt (sessions m) (dns_cache m) (txn_counter m) Hm Hn (tls_of_net n k m nt Hm Hn) Hc Hx) as [[] ? ? Hmem ?].
  split; cbn in *; try done.
  - split; cbn; try done. destruct m_sys0 as [A B C M X]. split; try done. cbn. by apply store_revents_bytes.
  - intros x. unfold buffer. rewrite Hf. cbn. intros Hx'. apply store_revents_other. lia.
Qed.

End Machines.
End DesktopSpec.
