(* ===== verification/DesktopTheorems.v ===== *)
(** * Theorems on the whole machine

    All system calls together, the keys that reach windows, and what the screen
    shows. *)

From S2P Require Import Prelude Wire Crypto Hkdf Handle Process NetWire Sockets NetStack NetInv ProcNet Tls.
From S2P Require Import TlsTheorems Dns DnsTheorems Display Windows WindowSpec CompositorSpec Cpio Vfs.
From S2P Require Import VfsSpec VfsTheorems Syscalls SyscallSpec SyscallTheorems Desktop DesktopSpec.

Module DesktopRuns.
Import Syscalls SyscallSpec Desktop TableSpec CompositorSpec DesktopSpec.

(** ** Keys *)

(** The event that a key makes, and the character. *)
Definition event_of (scancode : Z) : WmEvent.t :=
  if Z.land scancode 0x80 =? 0 then WmEvent.KeyPress (Z.land scancode 0x7F) else WmEvent.KeyRelease (Z.land scancode 0x7F).

Definition char_of (scancode : Z) : list Z :=
  let ascii := Keyboard.SCANCODE_TABLE !!! Z.to_nat (Z.land scancode 0x7F) in
  if (Z.land scancode 0x80 =? 0) && negb (ascii =? 0) then [ascii] else [].

(** Neither the Alt key, nor a key while Alt is down. *)
Definition plain_key (scancode : Z) : Prop := in_u 8 scancode /\ scancode <> Keyboard.ALT_MAKE /\ scancode <> Keyboard.ALT_BREAK.

Definition keys_ok (n : Z) (k : Keyboard.t) : Prop :=
  table_ok n (Keyboard.table k) /\ exists l, RingSpec.holds (fun ch : Z => ch) (Keyboard.buffer k) l.

Lemma make_code_range scancode : 0 <= Z.land scancode 0x7F < 128.
Proof. change 0x7F with (Z.ones 7). rewrite Z.land_ones by lia. apply Z.mod_pos_bound. lia. Qed.

Lemma table_length : length Keyboard.SCANCODE_TABLE = 128%nat.
Proof. by vm_compute. Qed.

Lemma receiver_focused n wt : table_ok n wt -> bool_decide (is_Some (Keyboard.receiver wt)) = bool_decide (is_Some (WindowTable.focused_id wt)).
Proof.
  intros Ht. apply bool_decide_ext. unfold Keyboard.receiver. destruct (WindowTable.focused_id wt) as [k|] eqn:E; [|done]. split; [by eexists|]. intros _. by apply (t_focus n wt Ht).
Qed.

(** The keyboard interrupt. *)
Lemma irq_ok n c code k : 0 <= n -> n + 1 < 2 ^ 32 -> keys_ok n k -> returns (Keyboard.keyboard_irq_handler c code k) (keys_ok (n + 1)).
Proof.
  intros Hn0 Hn [Ht Hl]. assert (keys_ok (n + 1) k) as Hk by (split; [eapply table_mono; [done|lia]|done]). unfold Keyboard.keyboard_irq_handler.
  assert (forall e, returns (wt ← Keyboard.to_focused e (Keyboard.table k); Done (Keyboard.mk wt (Keyboard.buffer k) (Keyboard.alt_held k))) (keys_ok (n + 1))) as Hto.
  { intros e. eapply returns_bind; [by apply (to_focused_spec n)|]. intros wt [Hwt _]. apply returns_done. split; [eapply table_mono; [done|lia]|done]. }
  destruct (_ =? _); [by apply returns_done|]. destruct (_ =? _); [by apply returns_done|].
  destruct (_ && _ && _); [destruct (Keyboard.table_free c); [|by apply returns_done]|].
  { eapply returns_bind; [by apply (cycle_focus_spec n)|]. intros wt [->|(id & Hid & Hm)]; apply returns_done; [done|]. split; [by eapply focus_moved_ok|done]. }
  destruct (_ && _ && _); [destruct (Keyboard.table_free c); [apply Hto|by apply returns_done]|]. destruct (_ && _); [apply Hto|].
  destruct (arr_get_in Keyboard.SCANCODE_TABLE (Z.land code 0x7F)) as (ascii & -> & _); [rewrite table_length; apply make_code_range|]. exec_simpl.
  destruct (_ && _ && _); [|by apply returns_done]. destruct Hl as [l Hl]. unfold Keyboard.push.
  destruct (RingSpec.push_holds (fun ch => ch) _ l ascii Hl) as (b & -> & Hb). exec_simpl. apply returns_done. split; [by destruct Hk|by eexists].
Qed.

(** Nothing holds the locks. *)
Definition idle : Keyboard.Contention := Keyboard.mkContention true true.

(** One key for the focused window. *)
Lemma key_to_window n code k id w es : keys_ok n k -> Keyboard.alt_held k = false -> plain_key code ->
  WindowTable.focused_id (Keyboard.table k) = Some id -> WindowTable.get (Keyboard.table k) id = Some w -> queue w es ->
  exists wt w', Keyboard.keyboard_irq_handler idle code k = Done (Keyboard.mk wt (Keyboard.buffer k) false) /\ table_ok n wt /\
    WindowTable.focused_id wt = Some id /\ (forall id', WindowTable.get wt id' = if decide (id' = id) then Some w' else WindowTable.get (Keyboard.table k) id') /\
    body w' = body w /\ queue w' (RingSpec.enqueue es (event_of code)).
Proof.
  intros [Ht _] Ha (_ & Hm & Hb) Hf Hw Hq. unfold Keyboard.keyboard_irq_handler. rewrite (proj2 (Z.eqb_neq _ _) Hm), (proj2 (Z.eqb_neq _ _) Hb), Ha. cbn [andb Keyboard.table_free idle].
  rewrite (receiver_focused n _ Ht), Hf. assert (bool_decide (is_Some (Some id)) = true) as -> by by apply bool_decide_true. rewrite negb_involutive.
  fold (event_of code). destruct (to_focused_spec n _ (event_of code) Ht) as (wt & -> & Hwt & Hspec). exec_simpl. rewrite Hf in Hspec.
  destruct Hspec as (w0 & w' & Hw0 & [Hs Hn Hfo Hg] & Ew & Hqs). rewrite Hw in Hw0. injection Hw0 as <-. exists wt, w'. split_all; try done.
  - by rewrite Hfo.
  - by rewrite Ew.
  - by apply Hqs.
Qed.

(** One key with no window to take it. *)
Lemma key_to_buffer n code k l : keys_ok n k -> Keyboard.alt_held k = false -> plain_key code ->
  WindowTable.focused_id (Keyboard.table k) = None -> RingSpec.holds (fun ch : Z => ch) (Keyboard.buffer k) l ->
  exists b, Keyboard.keyboard_irq_handler idle code k = Done (Keyboard.mk (Keyboard.table k) b false) /\
    RingSpec.holds (fun ch : Z => ch) b (foldl RingSpec.enqueue l (char_of code)).
Proof.
  intros [Ht _] Ha (_ & Hm & Hb) Hf Hl. unfold Keyboard.keyboard_irq_handler. rewrite (proj2 (Z.eqb_neq _ _) Hm), (proj2 (Z.eqb_neq _ _) Hb), Ha. cbn [andb Keyboard.table_free Keyboard.buffer_free idle].
  rewrite (receiver_focused n _ Ht), Hf. assert (bool_decide (is_Some (None (A:=Z))) = false) as -> by (apply bool_decide_false; by intros [? ?]).
  destruct (arr_get_in Keyboard.SCANCODE_TABLE (Z.land code 0x7F)) as (ascii & -> & Hi); [rewrite table_length; apply make_code_range|]. exec_simpl.
  unfold char_of. rewrite (list_lookup_total_correct _ _ _ Hi), negb_involutive, andb_true_r. destruct (_ && _).
  - unfold Keyboard.push. destruct (RingSpec.push_holds (fun ch => ch) _ l ascii Hl) as (b & -> & Hb'). exec_simpl. by exists b.
  - exists (Keyboard.buffer k). split; [|done]. destruct k; cbn in *. by subst.
Qed.

(** Typing, and reading the events. *)
Fixpoint type_keys (codes : list Z) (k : Keyboard.t) : exec Keyboard.t :=
  match codes with
  | [] => Done k
  | code :: codes => k ← Keyboard.keyboard_irq_handler idle code k; type_keys codes k
  end.

Fixpoint read_events (n : nat) (q : WmEventQueue.t) : exec (list (option WmEvent.t)) :=
  match n with
  | O => Done []
  | S n' => '(q, e) ← WmEventQueue.pop q; es ← read_events n' q; Done (e :: es)
  end.

Fixpoint read_keys (n : nat) (q : Keyboard.KeyboardBuffer) : exec (list (option Z)) :=
  match n with
  | O => Done []
  | S n' => '(q, e) ← Keyboard.pop q; es ← read_keys n' q; Done (e :: es)
  end.

Lemma read_events_S n q : read_events (S n) q = ('(q, e) ← WmEventQueue.pop q; es ← read_events n q; Done (e :: es)).
Proof. done. Qed.

Lemma read_events_spec es : forall q, RingSpec.holds Some q es -> read_events (S (length es)) q = Done ((Some <$> es) ++ [None]).
Proof.
  induction es as [|e es IH]; intros q Hq; rewrite read_events_S; cbn [length]; unfold WmEventQueue.pop;
    destruct (RingSpec.pop_holds Some (fun _ => None) q _ Hq) as ([q' r] & -> & Hr & Hq'); exec_simpl; cbn [fst snd] in *; subst r; cbn [head fmap option_fmap option_map tail] in *.
  - done.
  - by rewrite (IH q' Hq').
Qed.

Lemma read_keys_S n q : read_keys (S n) q = ('(q, e) ← Keyboard.pop q; es ← read_keys n q; Done (e :: es)).
Proof. done. Qed.

Lemma read_keys_spec l : forall q, RingSpec.holds (fun ch : Z => ch) q l -> read_keys (S (length l)) q = Done ((Some <$> l) ++ [None]).
Proof.
  induction l as [|e es IH]; intros q Hq; rewrite read_keys_S; cbn [length]; unfold Keyboard.pop;
    destruct (RingSpec.pop_holds (fun ch => ch) (fun ch => ch) q _ Hq) as ([q' r] & -> & Hr & Hq'); exec_simpl; cbn [fst snd] in *; subst r; cbn [head fmap option_fmap option_map tail] in *.
  - done.
  - by rewrite (IH q' Hq').
Qed.

Lemma enqueue_room {B} (l : list B) b : Z.of_nat (length l) + 1 <= 63 -> RingSpec.enqueue l b = l ++ [b].
Proof. intros Hl. unfold RingSpec.enqueue. by rewrite (proj2 (Z.ltb_lt _ _)) by lia. Qed.

Lemma type_to_window n codes : forall k id w es, keys_ok n k -> Keyboard.alt_held k = false -> Forall plain_key codes ->
  WindowTable.focused_id (Keyboard.table k) = Some id -> WindowTable.get (Keyboard.table k) id = Some w -> queue w es ->
  Z.of_nat (length es) + Z.of_nat (length codes) <= 63 ->
  exists k' w', type_keys codes k = Done k' /\ Keyboard.buffer k' = Keyboard.buffer k /\
    (forall id', WindowTable.get (Keyboard.table k') id' = if decide (id' = id) then Some w' else WindowTable.get (Keyboard.table k) id') /\
    body w' = body w /\ queue w' (es ++ (event_of <$> codes)).
Proof.
  induction codes as [|code codes IH]; intros k id w es Hk Ha Hc Hf Hw Hq Hl; cbn [type_keys].
  - exists k, w. split_all; try done; [|by rewrite app_nil_r]. intros id'. by destruct (decide (id' = id)) as [->|].
  - apply Forall_cons in Hc as [Hc Hcs]. cbn [length] in Hl.
    destruct (key_to_window n code k id w es Hk Ha Hc Hf Hw Hq) as (wt & w1 & -> & Ht & Hf1 & Hg1 & Hb1 & Hq1). exec_simpl. rewrite enqueue_room in Hq1 by lia.
    destruct (IH (Keyboard.mk wt (Keyboard.buffer k) false) id w1 (es ++ [event_of code])) as (k' & w' & -> & Hbuf & Hg & Hb & Hq'); try done.
    + split; [done|apply Hk].
    + cbn. by rewrite Hg1, decide_True.
    + rewrite length_app. cbn. lia.
    + exists k', w'. split_all; try done; [|congruence|by rewrite <- app_assoc in Hq']. intros id'. rewrite Hg. cbn. rewrite Hg1. by destruct (decide _).
Qed.

Lemma type_to_buffer n codes : forall k l, keys_ok n k -> Keyboard.alt_held k = false -> Forall plain_key codes ->
  WindowTable.focused_id (Keyboard.table k) = None -> RingSpec.holds (fun ch : Z => ch) (Keyboard.buffer k) l ->
  Z.of_nat (length l) + Z.of_nat (length (codes ≫= char_of)) <= 63 ->
  exists b, type_keys codes k = Done (Keyboard.mk (Keyboard.table k) b false) /\ RingSpec.holds (fun ch : Z => ch) b (l ++ (codes ≫= char_of)).
Proof.
  induction codes as [|code codes IH]; intros k l Hk Ha Hc Hf Hl Hlen; cbn [type_keys].
  - exists (Keyboard.buffer k). cbn. rewrite app_nil_r. split; [|done]. destruct k; cbn in *. by subst.
  - apply Forall_cons in Hc as [Hc Hcs]. rewrite bind_cons, length_app in Hlen.
    destruct (key_to_buffer n code k l Hk Ha Hc Hf Hl) as (b & -> & Hb). exec_simpl.
    assert (foldl RingSpec.enqueue l (char_of code) = l ++ char_of code) as E.
    { unfold char_of in *. destruct (_ && _); cbn in *; [apply enqueue_room; lia|by rewrite app_nil_r]. }
    rewrite E in Hb. destruct (IH (Keyboard.mk (Keyboard.table k) b false) (l ++ char_of code)) as (b' & E' & Hb'); try done.
    + split; [apply Hk|by eexists].
    + rewrite length_app. lia.
    + exists b'. rewrite bind_cons, app_assoc. by rewrite E'.
Qed.


(** ** Calls *)

(** The calls of [Syscalls]. *)
Definition base_call (f : Frame) : bool := negb ((18 <=? rax f) && (rax f <=? 34)) || (rax f =? 23).

Section Machines.
Context {D T : Type} `{NicDriver D} `{Timer T} `{Sha2}.
Context (rounds : nat) (dead_loop : Z).
Notation Machine := (Machine D T).
Implicit Types m : Machine.

Definition dispatch' (lk : Locks) (f : Frame) (r9 : Z) m : exec (Frame * Machine) := dispatch (S rounds) dead_loop lk f r9 m.

(** Calls on register contents, short of the limits of [SyscallRuns.call_ok]; TLS
    sends of at most 65500 bytes; a poll does not wait. *)
Record machine_call (lk : Locks) (f : Frame) (r9 : Z) m : Prop := {
  mc_regs : Forall (in_u 64) [rax f; rdi f; rsi f; rdx f; r10 f; r8 f; r9];
  mc_base : base_call f = true -> SyscallRuns.call_ok (procs lk) (sys m) f;
  mc_poll : rax f = 24 -> rdx f = 0;
  mc_send : rax f = 26 -> rdx f <= 65500;
}.

(** What is left by a call that returns. *)
Record contained (lk : Locks) (f : Frame) m (r : Frame * Machine) : Prop := {
  c_others : forall pid, Scheduler.current (sched (sys m)) <> Some pid -> ProcessTable.get (table (sys r.2)) pid = ProcessTable.get (table (sys m)) pid;
  c_memory : forall x, ~ ((if base_call f then SyscallRuns.buffer f else buffer f).1 <= x < (if base_call f then SyscallRuns.buffer f else buffer f).2) ->
    user r.2 x = user m x;
  c_frame : if rax f =? 0 then r.1 = exit_frame dead_loop (sys r.2) f else exists v, r.1 = set_rax v f;
  c_files : files_stay (sys m) (vfs (sys r.2));
  c_windows : caller (procs lk) m <> KERNEL -> spared (caller (procs lk) m) (windows m) (windows r.2);
}.

Lemma contained_handled n k lk f m r : base_call f = false -> handled n k (caller (procs lk) m) f m r -> contained lk f m r.
Proof.
  intros Hb [Hok Hf Hw Hm (Ht & Hs & Hv)]. split; rewrite ?Hb, ?Ht, ?Hv; try done; [|by intros fid x].
  assert (rax f <> 0) as Hz by (intros E; unfold base_call in Hb; by rewrite E in Hb). by rewrite (proj2 (Z.eqb_neq _ _) Hz).
Qed.

Lemma dispatch_base lk f r9 m : base_call f = true -> 0 <= rax f ->
  dispatch' lk f r9 m = ('(f, s) ← syscall_dispatch (fun f s => refused f s) dead_loop (procs lk) f (sys m); Done (f, with_sys s m)).
Proof.
  intros Hb Hpos. unfold dispatch', dispatch. unfold base_call in Hb. destruct (rax f) as [|p|p] eqn:E; [done| |lia].
  do 6 (try destruct p as [p|p|]); try reflexivity; discriminate.
Qed.

(** The outcome of a call. *)
Definition outcome (n : nat) (k : Z) (lk : Locks) (f : Frame) m (r : Frame * Machine) : Prop :=
  machine_ok n (k + 1) r.2 /\ contained lk f m r /\ (29 <= rax f <= 33 -> rax r.1 = U64_MAX \/ painted r.2).

Lemma base_ok n k lk f r9 m : machine_ok n k m -> machine_call lk f r9 m -> base_call f = true -> returns (dispatch' lk f r9 m) (outcome n k lk f m).
Proof.
  intros Hm [Hr Hb _ _] Hbase. assert (0 <= rax f) as Hpos by (by apply Forall_cons in Hr as [[? _] _]). rewrite dispatch_base by done.
  destruct (SyscallRuns.call_dispatch_ok (fun f s => refused f s) dead_loop n (procs lk) f (sys m) (m_sys _ _ _ Hm) (Hb Hbase)) as ([f' s'] & -> & [S1 S2 S3 S4 S5]).
  exec_simpl. apply returns_done. cbn [fst snd] in *. pose proof (machine_mono n k (k + 1) m Hm ltac:(lia)) as []. split; [|split].
  - split; cbn; try done. destruct m_tls0 as [_ Hl Hf]. split; try done. apply S1.
  - split; rewrite ?Hbase; try done; [|intros _; apply spared_refl]. destruct (rax f =? 0); [done|]. destruct S4 as (_ & v & _ & ?). by exists v.
  - intros Hn. unfold base_call in Hbase. apply orb_true_iff in Hbase as [Hx|Hx%Z.eqb_eq]; [|lia]. apply negb_true_iff, andb_false_iff in Hx as [Hx%Z.leb_gt|Hx%Z.leb_gt]; lia.
Qed.

(** Case on the number of the call. *)
Ltac number f k E := destruct (decide (rax f = k)) as [E|?]; [unfold dispatch', dispatch; rewrite E; cbn match|].

Lemma handled_outcome n k lk f m (e : exec (Frame * Machine)) p : base_call f = false -> ~ (29 <= rax f <= 33) ->
  TlsSpec.ends p e (handled n k (caller (procs lk) m) f m) -> TlsSpec.ends p e (outcome n k lk f m).
Proof.
  intros Hb Hn He. destruct e as [r| |]; cbn in *; [|done..]. split; [apply He|]. split; [by eapply contained_handled|done].
Qed.

Lemma repainted_outcome n k lk f m (e : exec (Frame * Machine)) p : base_call f = false ->
  returns e (repainted n k (caller (procs lk) m) f m) -> TlsSpec.ends p e (outcome n k lk f m).
Proof.
  intros Hb (r & -> & Hr & Hp). cbn. split; [apply Hr|]. split; [by eapply contained_handled|done].
Qed.

Lemma machine_dispatch_ok n k lk f r9 m : machine_ok n k m -> 0 <= k -> k + 2 < 2 ^ 32 -> machine_call lk f r9 m ->
  TlsSpec.ends (rax f =? 25) (dispatch' lk f r9 m) (outcome n k lk f m).
Proof.
  intros Hm Hk0 Hk Hc. destruct (base_call f) eqn:Hb; [by apply TlsSpec.returns_ends, (base_ok n k lk f r9 m)|].
  pose proof (mc_regs _ _ _ _ Hc) as Hr. rewrite !Forall_cons in Hr. destruct Hr as (_ & Hdi & Hsi & Hdx & H10 & H8 & H9 & _).
  assert (18 <= rax f <= 34 /\ rax f <> 23) as [Hr Hn23].
  { unfold base_call in Hb. apply orb_false_iff in Hb as [Hx Hy%Z.eqb_neq]. apply negb_false_iff, andb_true_iff in Hx as [Hx1%Z.leb_le Hx2%Z.leb_le]. lia. }
  assert (in_u 32 (wrap 32 (rdi f)) /\ in_u 32 (wrap 32 (rsi f))) as [W1 W2] by (split; apply wrap_range; lia).
  number f 18 E. { pose proof (alloc_surface_ok n k (caller (procs lk) m) f (surfaces_free lk) _ _ m W1 W2 Hm E) as Ha. destruct (syscall_display_alloc_surface _ _ _ _) as [m' v].
    apply handled_outcome; [done|lia|]. by apply TlsSpec.returns_ends. }
  number f 19 E. { apply handled_outcome; [done|lia|]. apply TlsSpec.returns_ends. destruct (_ <=? _); [by apply refuse_ok|].
    pose proof (blit_ok n k (caller (procs lk) m) f (surfaces_free lk) (wrap 32 (rdi f)) (rsi f) (rdx f) m Hm) as Ha. by destruct (syscall_display_blit _ _ _ _ _). }
  number f 20 E. { apply handled_outcome; [done|lia|]. by apply TlsSpec.returns_ends, display_present_ok. }
  number f 21 E. { apply handled_outcome; [done|lia|]. by apply TlsSpec.returns_ends, kb_read_ok. }
  number f 22 E. { apply handled_outcome; [done|lia|]. by apply TlsSpec.returns_ends, DesktopSpec.dns_ok. }
  number f 24 E. { apply handled_outcome; [done|lia|]. apply TlsSpec.returns_ends, poll_call_ok; try done. by apply (mc_poll _ _ _ _ Hc). }
  number f 25 E. { apply handled_outcome; [done|lia|]. by apply tls_connect_ok. }
  number f 26 E. { apply handled_outcome; [done|lia|]. apply TlsSpec.returns_ends, tls_send_ok; try done. by apply (mc_send _ _ _ _ Hc). }
  number f 27 E. { apply handled_outcome; [done|lia|]. by apply TlsSpec.returns_ends, tls_recv_ok. }
  number f 28 E. { apply handled_outcome; [done|lia|]. by apply TlsSpec.returns_ends, tls_close_ok. }
  number f 29 E. { apply repainted_outcome; [done|]. by apply wm_create_ok. }
  number f 30 E. { apply repainted_outcome; [done|]. by apply wm_destroy_ok. }
  number f 31 E. { apply repainted_outcome; [done|]. by apply wm_blit_ok. }
  number f 32 E. { apply repainted_outcome; [done|]. by apply wm_move_resize_ok. }
  number f 33 E. { apply repainted_outcome; [done|]. apply wm_focus_ok; [done|done|lia]. }
  number f 34 E. { apply handled_outcome; [done|lia|]. by apply TlsSpec.returns_ends, wm_event_ok. }
  lia.
Qed.

(** With the scheduler locked by the code that was interrupted, a call finds no
    current process and takes its caller for the kernel: it works on any window. *)
Lemma contended_caller_is_kernel lk m w : lk 0%nat = false -> stranger (caller lk m) w = false.
Proof. intros E. unfold caller, get_current_pid. rewrite E. unfold stranger. by rewrite andb_false_r. Qed.

(** ** Reachable machines *)

(** After boot, with or without a display. *)
Definition machine_booted (archive : list Z) m : Prop :=
  SyscallRuns.booted archive (sys m) /\ sessions m = replicate 8 None /\ dns_cache m = DnsCache.new /\ txn_counter m = 0x1234 /\
  surfaces m = SurfaceTable.new /\ input m = Keyboard.mk WindowTable.new Keyboard.new false /\ forall ds, display m = Some ds -> display_ok ds.

(** [k] counts the calls and the keys. *)
Inductive machine_reachable (archive : list Z) : Z -> Machine -> Prop :=
| powered_on m : machine_booted archive m -> machine_reachable archive 0 m
| after_call k lk f r9 f' m m' : machine_reachable archive k m -> machine_call lk f r9 m -> dispatch' lk f r9 m = Done (f', m') -> machine_reachable archive (k + 1) m'
| after_key k c code m m' : machine_reachable archive k m -> interrupt c code m = Done m' -> machine_reachable archive (k + 1) m'
| meanwhile k s m : machine_reachable archive k m -> SyscallRuns.background (sys m) s -> machine_reachable archive k (with_sys s m).

Lemma reachable_pos archive k m : machine_reachable archive k m -> 0 <= k.
Proof. induction 1; lia. Qed.

Lemma interrupt_ok n k c code m : 0 <= k -> k + 1 < 2 ^ 32 -> machine_ok n k m -> returns (interrupt c code m) (machine_ok n (k + 1)).
Proof.
  intros Hk0 Hk Hm. unfold interrupt. eapply returns_bind; [apply (irq_ok k); [done|done|split; apply Hm]|]. intros i [Ht Hl].
  pose proof (machine_mono n k (k + 1) m Hm ltac:(lia)) as []. apply returns_done. by split.
Qed.

Lemma machine_reachable_ok archive k m : Z.of_nat (length archive) < 2 ^ 63 -> k + 1 < 2 ^ 32 -> machine_reachable archive k m -> exists n, machine_ok n k m.
Proof.
  intros Hlen Hk Hr. induction Hr as [m (Hs & Ht & Hc & Hx & Hsu & Hi & Hd)|k lk f r9 f' m m' Hr IH Hmc E|k c code m m' Hr IH E|k s m Hr IH Hb].
  - destruct (SyscallRuns.booted_sys_ok archive (sys m) Hlen Hs) as [n Hn]. exists n. split.
    + done.
    + unfold tls_of. rewrite Ht. split; [apply Hn|done|]. by apply Forall_replicate.
    + rewrite Hc, Hx. split; [apply CacheSpec.new_ok|done].
    + rewrite Hsu. by apply Forall_replicate.
    + done.
    + unfold windows. rewrite Hi. apply table_new.
    + rewrite Hi. exists []. apply RingSpec.new_holds.
  - pose proof (reachable_pos _ _ _ Hr). destruct IH as [n Hn]; [lia|]. exists n. pose proof (machine_dispatch_ok n k lk f r9 m Hn ltac:(lia) ltac:(lia) Hmc) as He. rewrite E in He. apply He.
  - pose proof (reachable_pos _ _ _ Hr). destruct IH as [n Hn]; [lia|]. exists n. destruct (interrupt_ok n k c code m ltac:(lia) ltac:(lia) Hn) as (m2 & E2 & Hm2). rewrite E in E2. by injection E2 as <-.
  - destruct IH as [n Hn]; [lia|]. exists n. destruct Hn as []. pose proof (SyscallRuns.background_ok n _ _ m_sys0 Hb) as Hs. split; cbn; try done.
    destruct m_tls0 as [_ Hl Hf]. split; try done. apply Hs.
Qed.


(** C39. The screen shows the windows. After a call that creates, destroys, paints,
    moves or focuses a window and succeeds, the frame buffer (of four bytes for a
    pixel) holds above the taskbar: in the client area of a window that no
    higher window touches, the pixels of that window's surface, and where no
    window reaches, the colour of the desktop. *)
Theorem screen_shows_topmost_window archive k m lk f r9 f' m' ds px py : Z.of_nat (length archive) < 2 ^ 63 -> k + 2 < 2 ^ 32 ->
  machine_reachable archive k m -> machine_call lk f r9 m -> 29 <= rax f <= 33 ->
  dispatch' lk f r9 m = Done (f', m') -> rax f' <> U64_MAX -> display m' = Some ds -> packed32 (fb ds) ->
  0 <= px < FramebufferInfo.width (fb ds) -> 0 <= py < FramebufferInfo.height (fb ds) - WmCompositor.TASKBAR_HEIGHT ->
  (forall w, w ∈ WindowTable.shown (windows m') -> in_client w px py ->
     (forall v, v ∈ WindowTable.shown (windows m') -> Window.z_order w < Window.z_order v -> ~ touches v px py) ->
     shows (fb ds) (Display.memory ds) px py (PaintSpec.pix (Window.surface w) (px - Window.x w) (py - client_y w))) /\
  ((forall v, v ∈ WindowTable.shown (windows m') -> ~ touches v px py) ->
     shows (fb ds) (Display.memory ds) px py (Color.to_packed (fb ds) WmCompositor.DESKTOP_BG)).
Proof.
  intros Hlen Hk Hr Hc Hf E Hax Hd H32 Hx Hy. pose proof (reachable_pos _ _ _ Hr) as Hk0. destruct (machine_reachable_ok archive k m Hlen ltac:(lia) Hr) as [n Hn].
  pose proof (machine_dispatch_ok n k lk f r9 m Hn Hk0 Hk Hc) as He. rewrite E in He. destruct He as (Hm & _ & Hp). destruct (Hp Hf) as [?|Hpaint]; [done|].
  destruct (Hpaint ds Hd) as (ds0 & Hds0 & Ecp). cbn [snd] in *. pose proof (m_windows _ _ _ Hm) as Ht.
  assert (forall w, w ∈ WindowTable.windows (windows m') -> drawable w) as Hdraw by (intros w Hw; apply elem_windows in Hw; [|apply Ht]; apply (t_win _ _ Ht _ _ Hw)).
  destruct (compose_and_present_spec ds0 (windows m') Hds0 Hdraw) as (ds' & E' & Hfb & _ & Hshow). rewrite Ecp in E'. injection E' as <-. rewrite Hfb in *.
  specialize (Hshow H32 px py Hx Hy). split.
  - intros w Hw Hin Htop. destruct (sorted_split (windows m') w (t_slots _ _ Ht) Hw) as (before & after & Es & Ha).
    assert (WindowTable.get (windows m') (Window.id w) = Some w) as Hg by (apply elem_windows; [apply Ht|]; by apply elem_shown in Hw as [? _]).
    rewrite Es, (stack_top _ before (Window.id w) after px py (PaintSpec.pix (Window.surface w) (px - Window.x w) (py - client_y w))) in Hshow; [done| |].
    + unfold layer_of. rewrite Hg. by apply layer_client.
    + intros j Hj. destruct (Ha j Hj) as (v & Hv & <- & Hz & Hne). assert (v ∈ WindowTable.windows (windows m')) as Hv' by by apply elem_shown in Hv as [? _].
      unfold layer_of. rewrite (proj1 (elem_windows _ _ (t_slots _ _ Ht)) Hv'). apply layer_outside; [by apply Hdraw|]. apply Htop; [done|].
      pose proof (t_order _ _ Ht _ _ _ _ Hg (proj1 (elem_windows _ _ (t_slots _ _ Ht)) Hv')) as Hord. destruct (Z.eq_dec (Window.z_order w) (Window.z_order v)); [by destruct Hne; rewrite Hord|lia].
  - intros Hnone. rewrite PaintSpec.stack_none in Hshow; [done|]. intros j Hj. unfold layer_of. destruct (WindowTable.get _ _) as [v|] eqn:Hg; [|done].
    pose proof (get_id _ _ _ (t_slots _ _ Ht) Hg) as Hid. rewrite <- Hid in Hg. apply elem_windows in Hg; [|apply Ht]. apply layer_outside; [by apply Hdraw|]. apply Hnone.
    apply elem_shown. split; [done|]. apply elem_windows in Hg; [|apply Ht]. apply (t_win _ _ Ht _ _ Hg).
Qed.

End Machines.
(** ** Witnesses *)
Section Witness.
#[local] Existing Instance SyscallRuns.quiet_nic.
#[local] Existing Instance SyscallRuns.ticking.
#[local] Existing Instance Hkdf.toy_sha2.

(** A table with one window, in focus. *)
Definition one_window : WindowTable.t :=
  match WindowTable.set_focus (WindowTable.create WindowTable.new 5 [104; 105] 0 0 2 2).1 1 with Done wt => wt | _ => WindowTable.new end.

Lemma one_window_ok : table_ok 2 one_window.
Proof.
  pose proof (window_create_spec 0 WindowTable.new 5 [104; 105] 0 0 2 2 ltac:(lia) ltac:(lia) table_new ltac:(lia) ltac:(lia)) as Hc. unfold one_window.
  destruct (WindowTable.create WindowTable.new 5 [104; 105] 0 0 2 2) as [wt o] eqn:E. assert (o = Some 1) as -> by (apply (f_equal snd) in E; vm_compute in E; by symmetry).
  destruct Hc as (_ & s & Es & Hcr). destruct (surface_new_ok 2 2 ltac:(lia) ltac:(lia)) as (s' & Es' & Hs & Ew & Eh). rewrite Es in Es'. injection Es' as <-.
  assert (table_ok 1 wt) as Ht.
  { apply (created_ok 0 _ _ _ ltac:(lia) table_new Hcr); try done. split; [|exists []; apply RingSpec.new_holds|done]. split; cbn; try done; lia. }
  assert (is_Some (WindowTable.get wt 1)) as Hg by (rewrite (cr_get _ _ _ Hcr); cbn; by eexists). cbn [fst].
  destruct (set_focus_spec 1 wt 1 ltac:(lia) ltac:(lia) Ht Hg) as (wt' & -> & Hf). by apply (focus_moved_ok 1 wt 1 wt').
Qed.

Definition one_keyboard : Keyboard.t := Keyboard.mk one_window Keyboard.new false.


(** The Butler runs on a machine with a screen of 8 by 64 pixels. *)
Definition small_fb : FramebufferInfo.t := FramebufferInfo.new 8 64 32 32 16 8 0.
Definition small_display : DisplayState := mkDisplay small_fb (replicate 2048 0) (Surface.mk (replicate 512 0) 8 64 false).
Definition machine_on (s : Syscalls.t (D:=unit) (T:=Z)) : Machine unit Z :=
  mkMachine s (replicate 8 None) DnsCache.new 0x1234 SurfaceTable.new (Some small_display) (Keyboard.mk WindowTable.new Keyboard.new false).

Lemma small_display_ok : display_ok small_display.
Proof. split; [split; vm_compute; split; congruence| |by split]. split; vm_compute; [reflexivity|repeat split; congruence]. Qed.

Lemma machine_on_reachable : machine_reachable 0 0 VfsRuns.sample_archive 0 (machine_on SyscallRuns.sample).
Proof.
  apply (meanwhile 0 0 VfsRuns.sample_archive 0 SyscallRuns.sample (machine_on SyscallRuns.started)); [|exact SyscallRuns.sample_scheduled].
  apply powered_on. split; [exact SyscallRuns.started_booted|]. repeat (split; [reflexivity|]). intros ds [= <-]. exact small_display_ok.
Qed.

(** SYS_WM_CREATE of a window of 4 by 4 pixels. *)
Definition create_call : Frame := mkFrame 29 0 0 4 4 0x1000 0 0 0 0 0.
Definition all_free : Locks := mkLocks (fun _ => true) true true.

Lemma create_call_ok : machine_call all_free create_call 0 (machine_on SyscallRuns.sample).
Proof.
  split; [|discriminate..]. repeat (apply List.Forall_cons; [split; vm_compute; congruence|]). apply List.Forall_nil.
Qed.


Definition done_or {A} (d : A) (e : exec A) : A := match e with Done a => a | _ => d end.

Definition is_done {A} (e : exec A) : bool := match e with Done _ => true | _ => false end.

(** The machine after the call. *)
Definition after_create : Frame * Machine unit Z :=
  done_or (create_call, machine_on SyscallRuns.sample) (dispatch' 0 0 all_free create_call 0 (machine_on SyscallRuns.sample)).

Definition new_window : Window.t :=
  Window.mk 1 1 (str_bytes "Untitled") 0 0 4 4 1 true false true (Surface.mk (replicate 16 0) 4 4 false) WmEventQueue.new.

Definition new_screen : DisplayState := default small_display (display after_create.2).

Lemma screen_shows_topmost_window_witness :
  shows (fb new_screen) (Display.memory new_screen) 2 25 (PaintSpec.pix (Window.surface new_window) (2 - Window.x new_window) (25 - client_y new_window)).
Proof.
  assert (dispatch' 0 0 all_free create_call 0 (machine_on SyscallRuns.sample) = Done (after_create.1, after_create.2)) as E.
  { assert (is_done (dispatch' 0 0 all_free create_call 0 (machine_on SyscallRuns.sample)) = true) as Hd by (vm_compute; reflexivity).
    unfold after_create, done_or. by destruct (dispatch' _ _ _ _ _ _) as [[f m]| |]. }
  assert (WindowTable.shown (windows after_create.2) = [new_window]) as Hw by (vm_compute; reflexivity).
  refine (proj1 (screen_shows_topmost_window 0 0 VfsRuns.sample_archive 0 (machine_on SyscallRuns.sample) all_free create_call 0 after_create.1 after_create.2 new_screen 2 25
    _ _ _ _ _ E _ _ _ _ _) new_window _ _ _).
  - vm_compute. reflexivity.
  - lia.
  - exact machine_on_reachable.
  - exact create_call_ok.
  - vm_compute. split; congruence.
  - vm_compute. congruence.
  - vm_compute. reflexivity.
  - vm_compute. repeat split; congruence.
  - vm_compute. split; congruence.
  - vm_compute. split; congruence.
  - rewrite Hw. apply list_elem_of_singleton. reflexivity.
  - vm_compute. repeat split; congruence.
  - rewrite Hw. intros v Hv Hz. apply list_elem_of_singleton in Hv. subst v. lia.
Defined.

End Witness.
End DesktopRuns.
